(* ===== verification/_CoqProject ===== *)
-Q . S2P
Prelude.v
AbaFreeList.v
BoundedQueue.v
Recorder.v
RecorderSteps.v
StringNumber.v
Crc32c.v
VersionedRef.v
ExecQueue.v
ExecQueueInv.v
ExecQueueSteps.v
ExecutionQueue.v
ButexSpec.v
Butex.v
ButexInv.v
ButexSteps.v
ButexWakes.v
ButexRefines.v
FiberSync.v
FiberSyncInv.v
FiberSyncSafe.v
DoublyBuffered.v
DoublyBufferedSafe.v
TimerThread.v
TimerThreadInv.v
TimerThreadSafe.v
Bits.v
FlatMap.v
FlatMapSpec.v
Session.v
SessionSteps.v
SessionList.v
SafeMath.v
IOBlock.v
IOBufRef.v
IOBufOps.v
IOBufSpec.v
IOBufCutter.v
IOBufReaders.v
IOPortal.v
OutputStream.v
OutputStreamSpec.v
IOBufAppender.v
WorkStealing.v
