(* ===== verification/Prelude.v ===== *)
(** * eabase: a verification library

    A model of the data structures at the core of eabase (src/eabase), with the
    theorems that make them correct.  This file is the prelude: machine integers,
    the error monad, lists indexed by [Z], rings, automation.

    ** The parts and their files

    - BoundedQueue.v: utility/containers/bounded_queue.h, a ring buffer on raw
      memory.
    - StringNumber.v: utility/strings/string_number_conversions.cc, integers to
      text and back, generic in width, signedness, base and character type.
    - Bits.v: utility/bit_array.h and utility/single_threaded_pool.h, on which
      the hash map stands.
    - FlatMap.v and FlatMapSpec.v: utility/containers/flat_map.h and
      flat_map_inl.h, FlatMap and SparseFlatMap with their iterators.
    - AbaFreeList.v: fiber/list_of_abafree_id.h.
    - Session.v, SessionSteps.v, SessionList.v: fiber/session.cc, the versioned
      identifiers that can be locked.  Session.v has a definition for each section
      that runs under the mutex of an Id; SessionSteps.v interleaves threads;
      SessionList.v has the lists of sessions, made of AbaFreeList, and composes
      them with the sessions.
    - IOBlock.v, IOBufRef.v, IOBufOps.v, IOBufSpec.v: utility/iobuf.cc, iobuf.h,
      iobuf_inl.h.  Blocks, reference counts and the cache of the thread; the
      queue of block references in an IOBuf; the operations of class IOBuf; their
      specification on strings.
    - IOBufCutter.v, IOBufReaders.v, IOPortal.v: the classes of iobuf.h that cut
      an IOBuf fast, read it without cutting (zero-copy input stream, snappy
      source, bytes iterator), and read files, readers and SSL channels into one.
    - OutputStream.v, OutputStreamSpec.v, IOBufAppender.v: the zero-copy output
      stream, which hands out the free bytes of a block; what it does to its IOBuf;
      IOBufAppender and the snappy sink, proved from that.
    - Recorder.v, RecorderSteps.v: var/recorder.h and var/detail/combiner.h, the
      packed words of the agents and the threads that record, combine, reset and
      exit.
    - WorkStealing.v: fiber/work_stealing_queue.h, one owner and many thieves.
    - SafeMath.v: utility/numerics/, CheckedNumeric and the checked conversions.
    - Crc32c.v: utility/crc32c.cc and crc32c.h, the tables, the instructions and
      the masked checksums.
    - VersionedRef.v, ExecQueue.v, ExecQueueInv.v, ExecQueueSteps.v,
      ExecutionQueue.v: fiber/execution_queue.cc, execution_queue.h and
      execution_queue_inl.h.  The versioned reference of a queue; the list of its
      tasks and who executes them; the invariant of the tasks; each step keeps
      it; both together.

    - ButexSpec.v, Butex.v, ButexInv.v, ButexSteps.v, ButexWakes.v,
      ButexRefines.v: fiber/butex.cc, and TaskGroup::interrupt of
      fiber/task_group.cc; a task of the timer thread is a step.  What butex.h
      promises, as a transition system of calls, returns and effects; the code,
      access by access; the invariant that relates the two; each step keeps it;
      executions.
    - FiberSync.v, FiberSyncInv.v, FiberSyncSafe.v: fiber/mutex.cc,
      fiber/condition_variable.cc, fiber/countdown_event.cc.  Programs over
      butexes; their invariant on ButexSpec; what follows on Butex.
    - DoublyBuffered.v, DoublyBufferedSafe.v:
      utility/containers/doubly_buffered_data.h, readers, modifiers and threads
      that exit; what the readers see.
    - TimerThread.v, TimerThreadInv.v, TimerThreadSafe.v: fiber/timer_thread.cc.
      The code and what timer_thread.h promises; the invariant of the tasks; what
      follows.

    A definition has the name of the function it translates, where that is not a
    word of Rocq.  Sequential code is a function of the object to the result and
    the new object, [None] being undefined behaviour (a null pointer, a slot
    without an object, a trap, a loop that does not end); concurrent code is a
    step relation, a step being one access of shared memory or one section under
    a lock.

    ** What the theorems show

    - Refinement: programs of IOBuf calls on shared blocks do what they do on
      independent strings, and leak no block ([IOBufs_refine_strings],
      [no_block_leaks]); so do programs of a cutter ([cutter_refines_string]), of
      the readers ([readers_refine_string]), of an IOPortal
      ([portal_refines_string]), of the output stream
      ([output_stream_refines_string]), of IOBufAppender
      ([appender_refines_string]) and of the snappy sink
      ([sink_refines_string]); FlatMap is a finite map ([flatmap_refines_map]),
      BoundedQueue a bounded list, SmallQueue a queue, ListOfABAFreeId the
      multiset of its existing ids ([list_keeps_existing_ids]).
    - Concurrency: at most one thread holds a session
      ([session_mutual_exclusion]), no wake-up is lost by careful clients
      ([session_no_lost_wakeup]), an error sent to a list reaches every session
      of it once ([reset_delivers_errors]), no sample is lost or counted twice
      ([recorder_exact]), the work stealing queue is linearizable
      ([queue_linearizable]), and an execution queue runs each task once, in
      order, in one thread at a time, and ends ([exec_queue_safe],
      [exec_queue_fifo], [exec_queue_drains]).
    - butex.cc implements its specification ([butex_refines_spec]) and forgets no
      waiter ([no_waiter_left_behind]); on it, mutexes exclude
      ([mutex_exclusion]), nobody sleeps on a free mutex or on a countdown that
      is over ([sync_nobody_forgotten]), and the functions return what they should
      ([sync_results]).
    - A read of doubly buffered data sees one value until it ends
      ([readers_see_snapshots]), and modifications return
      ([modification_returns]).
    - The timer thread runs a task at most once and not before its time, and
      schedule() and unschedule() return what they should
      ([timer_refines_spec]); it does not sleep beyond the first task
      ([timer_never_oversleeps]), and what is due is run ([due_tasks_run]).
    - Equivalence: the checksums by tables are those defined bit by bit
      ([Extend_is_crc32c]), and find bursts ([stored_checksums_find_bursts]).
    - Machine integers: the parser's overflow checks ([Base_Invoke_exact],
      [Invoke_accepts]), round trips of the printers, the packed words of the
      recorder ([word_exact]), the rounding of the bucket count
      ([flatmap_round_bounds]), CheckedNumeric ([checked_expressions]) and the
      conversions ([conversions_exact]).
    - Where the code fails: [session_lost_wakeups], [interruption_lost],
      [timedlock_of_pthread_loses_wake_up], [exit_hides_a_reader], [cutter_edges],
      [extended_backup_breaks_the_cache], [cut_until_binary_delim],
      [fetch_and_appendv_edges], [assign_copies], [sparse_iteration_never_ends],
      [new_node_needs_memory], [small_block_sizes], [stop_is_lost],
      [mod_slot_bounds], [bit_array_first1_spec], [narrow_arithmetic_wraps] each
      give the inputs or the interleaving, next to what does hold.

    ** Bounds and fuel

    - IOBuf: the buffers of a program hold less than 2^31 bytes in all, so that
      the sums of 32-bit lengths do not wrap; a reference count [nshared] is
      unbounded (it would need 2^31 references to one block).  Blocks that are no
      user data hold at most 2^30 bytes, and a buffer that a stream writes has less
      than that before each chunk.
    - FlatMap: at most 2^40 buckets and 2^35 elements.  operator[] and resize
      call each other, nesting at most once for each doubling of the buckets: the
      fuel [FUEL] = 64 is shown to be enough.  Sparse maps have at least 64
      buckets; below, an iteration may not end.  The pool of the nodes has memory;
      where it has none, operator[] writes to a null pointer.
    - ListOfABAFreeId: BLOCK_SIZE is at least 8 and MAX_ENTRIES + 2 * BLOCK_SIZE
      less than 2^32.
    - Sessions: one slot, any number of threads; the sections of other slots touch
      other Ids.  Versions are 32-bit and wrap; what the theorems ask of their
      distance is in their statements.
    - Recorder: less than 2^31 samples, each of 32 bits after truncation.
    - Work stealing queue: a capacity of at most 2^62 and less than 2^62 events.
    - Execution queue: one queue of a slot, from create() to the next one, and
      less than 2^30 threads.  _high_priority_tasks does not wrap.
    - Butexes and what stands on them: any number of butexes, threads, timers; a
      thread is a number, and its waiter is named by it.  A count of a countdown
      event stays below 2^31.
    - Timer thread: any number of callers, one timer thread, slots below 2^32;
      versions are 32-bit.  Fewer than 2^30 steps; run times below INT64_MAX; the
      clock does not go back.
    - Loops whose length is that of a structure recurse on the structure or on a
      fuel computed from it; that they end is part of the theorems.

    ** What is assumed

    Memory that the allocator gives is a parameter ([Alloc] in IOBlock.v, a flag
    for each allocation elsewhere), and so are hash functions, the locale's
    whitespace, writers and deleters, the callbacks of sessions and whether an id
    exists.  The memory of concurrent code is sequentially consistent: memory
    orders and fences are not modelled.  A mutex of the system excludes, the
    resource pool gives a slot to one owner at a time, and every thread has its own
    agent.  Sessions and execution queues take of a butex that it wakes who waits,
    which Butex.v and the files after it show.  The futex system call returns what
    its manual says, and a fiber that is made ready runs.  Butexes take of the timer
    thread that it runs a task at most once, which TimerThread.v and the files after
    it show.  A pool of nodes gives memory that is not in use.

    A failed CHECK or DCHECK is undefined behaviour, though a CHECK only logs unless
    the program is told to crash.  Left out are CHECK_EQ(ret2, ret) of Modify, which
    compares two results of the caller's fn, and CHECK(pending_q.empty()) of
    id_reset in fiber/session.cc.  Signed overflow that C++ leaves undefined is
    written as wrap-around where the compiled code does that, but in IntToString,
    where it is undefined.

    ** Not modelled

    - IOBufBuilder (a std::ostream), BackUp of more than the last chunk but for the
      case where it fails, and appending an IOBuf to itself.  FlatSet and
      find_cstr.  The conversions of doubles and the floating-point
      specializations of CheckedNumeric.
    - The scheduler of the fibers and keys: context switches in assembly and
      thread-local state.  Creation and destruction of butexes, the interruption of
      a fiber that sleeps in fiber_usleep, the interception of pthread mutexes and
      the contention profiler.  The execution queues that run on a resident
      pthread.  The start of the timer thread and its statistics.
    - The thread-local slots of the wrappers of doubly buffered data, and its
      destructor.
    - The variables other than IntRecorder: sampling by time, printing and
      registration by name.
    - Files, network, time, logging, debugging, thread wrappers: system calls.
    - rapidjson and third_party: vendored. *)

From Stdlib Require Export ZArith Lia.
From Stdlib Require Export Strings.Byte.
From stdpp Require Export base numbers option gmap list.
#[global] Open Scope Z_scope.

(** ** Machine integers

    A w-bit unsigned integer is a [Z] in [0, 2^w); the C conversions wrap. *)

Definition wrapu (w z : Z) : Z := z mod 2 ^ w.

Definition wraps (w z : Z) : Z := (z + 2 ^ (w - 1)) mod 2 ^ w - 2 ^ (w - 1).

Arguments wrapu : simpl never.
Arguments wraps : simpl never.

Declare Scope eabase_scope.
Delimit Scope eabase_scope with eab.
Abbreviation u8 := (wrapu 8).
Abbreviation u32 := (wrapu 32).
Abbreviation u64 := (wrapu 64).
Abbreviation i32 := (wraps 32).
Abbreviation i64 := (wraps 64).

Lemma wrapu_small w z : 0 <= z < 2 ^ w -> wrapu w z = z.
Proof. apply Z.mod_small. Qed.

Lemma wrapu_range w z : 0 <= w -> 0 <= wrapu w z < 2 ^ w.
Proof. intros. apply Z.mod_pos_bound, Z.pow_pos_nonneg; lia. Qed.

Lemma wraps_small w z :
  0 < w -> - 2 ^ (w - 1) <= z < 2 ^ (w - 1) -> wraps w z = z.
Proof.
  intros Hw Hz. unfold wraps.
  assert (2 ^ w = 2 * 2 ^ (w - 1)) as E.
  { rewrite <-Z.pow_succ_r by lia. f_equal. lia. }
  rewrite Z.mod_small by lia. lia.
Qed.

Lemma wraps_range w z : 0 < w -> - 2 ^ (w - 1) <= wraps w z < 2 ^ (w - 1).
Proof.
  intros Hw. unfold wraps.
  assert (2 ^ w = 2 * 2 ^ (w - 1)) as E.
  { rewrite <-Z.pow_succ_r by lia. f_equal. lia. }
  assert (0 < 2 ^ (w - 1)) by (apply Z.pow_pos_nonneg; lia).
  pose proof (Z.mod_pos_bound (z + 2 ^ (w - 1)) (2 ^ w)). lia.
Qed.

Lemma i32_small z : - 2 ^ 31 <= z < 2 ^ 31 -> i32 z = z.
Proof. apply (wraps_small 32). lia. Qed.

Lemma i64_small z : - 2 ^ 63 <= z < 2 ^ 63 -> i64 z = z.
Proof. apply (wraps_small 64). lia. Qed.

Lemma wrapu_add_l w a b : wrapu w (wrapu w a + b) = wrapu w (a + b).
Proof. apply Zplus_mod_idemp_l. Qed.

Lemma wrapu_add_r w a b : wrapu w (a + wrapu w b) = wrapu w (a + b).
Proof. apply Zplus_mod_idemp_r. Qed.

Lemma wrapu_sub_l w a b : wrapu w (wrapu w a - b) = wrapu w (a - b).
Proof. apply Zminus_mod_idemp_l. Qed.

Lemma wraps_add_l w a b : wraps w (wraps w a + b) = wraps w (a + b).
Proof.
  unfold wraps. f_equal.
  replace ((a + 2 ^ (w - 1)) mod 2 ^ w - 2 ^ (w - 1) + b + 2 ^ (w - 1))
    with ((a + 2 ^ (w - 1)) mod 2 ^ w + b) by lia.
  rewrite Zplus_mod_idemp_l. f_equal. lia.
Qed.

(** *** The integer types of C++ *)

(** An integer type of the templates: [std::numeric_limits]. *)
Record int_type := mkInt { width : Z; is_signed : bool }.

#[global] Instance int_type_dec : EqDecision int_type.
Proof. solve_decision. Defined.

Definition ty_min (t : int_type) : Z := if is_signed t then - 2 ^ (width t - 1) else 0.
Definition ty_max (t : int_type) : Z :=
  if is_signed t then 2 ^ (width t - 1) - 1 else 2 ^ width t - 1.
Definition ty_wrap (t : int_type) (z : Z) : Z :=
  if is_signed t then wraps (width t) z else wrapu (width t) z.

Definition int_t := mkInt 32 true.
Definition unsigned_t := mkInt 32 false.
Definition int64_t := mkInt 64 true.
Definition uint64_t := mkInt 64 false.

(** A type made of whole bytes. *)
Definition ty_ok (t : int_type) : Prop :=
  exists k, 0 < k /\ width t = 8 * k.

Lemma ty_wrap_id t z : ty_ok t -> ty_min t <= z <= ty_max t -> ty_wrap t z = z.
Proof.
  intros (k & Hk & Hw). unfold ty_min, ty_max, ty_wrap. rewrite Hw.
  destruct (is_signed t); intros; [apply wraps_small|apply wrapu_small]; lia.
Qed.

(** Masking with 2^k - 1 is reduction modulo 2^k. *)
Lemma land_mask k z : 0 <= k -> Z.land z (2 ^ k - 1) = z mod 2 ^ k.
Proof.
  intros. rewrite <-Z.land_ones by lia. f_equal. rewrite Z.ones_equiv. lia.
Qed.

(** A number below a shifted one. *)
Lemma land_disjoint x b n : 0 <= n -> 0 <= x < 2 ^ n -> Z.land x (Z.shiftl b n) = 0.
Proof.
  intros Hn Hx. apply Z.bits_inj'. intros i Hi. rewrite Z.land_spec, Z.bits_0.
  destruct (Z.ltb_spec i n); [rewrite Z.shiftl_spec_low by lia; apply andb_false_r|].
  rewrite <-(Z.mod_small x (2 ^ n)), Z.mod_pow2_bits_high by lia. done.
Qed.

Lemma lor_shiftl x b n : 0 <= n -> 0 <= x < 2 ^ n -> Z.lor x (Z.shiftl b n) = x + b * 2 ^ n.
Proof.
  intros Hn Hx. pose proof (land_disjoint x b n Hn Hx) as E.
  pose proof (Z.add_lor_land x (Z.shiftl b n)) as E2. rewrite E, !Z.shiftl_mul_pow2 in E2 by lia.
  rewrite Z.shiftl_mul_pow2 by lia. lia.
Qed.

#[global] Instance byte_eq_decision : EqDecision byte := Byte.byte_eq_dec.

Lemma byte_eqb_true a b : Byte.eqb a b = true <-> a = b.
Proof. split; [apply Byte.byte_dec_bl|apply Byte.byte_dec_lb]. Qed.

(** ** Z-indexed lists *)

Definition zlen {A} (l : list A) : Z := Z.of_nat (length l).

(** [slice off len l]: the [len] elements from index [off] on. *)
Definition slice {A} (off len : Z) (l : list A) : list A :=
  take (Z.to_nat len) (drop (Z.to_nat off) l).

(** Overwrite the elements from index [off] on by [d] (memcpy into [l]). *)
Definition overwrite {A} (off : Z) (d l : list A) : list A :=
  take (Z.to_nat off) l ++ d ++ drop (Z.to_nat off + length d) l.

Section ZLists.
Context {A : Type}.
Implicit Types l d : list A.

Lemma zlen_nonneg l : 0 <= zlen l.
Proof. unfold zlen. lia. Qed.

Lemma zlen_app l d : zlen (l ++ d) = zlen l + zlen d.
Proof. unfold zlen. rewrite length_app. lia. Qed.

Lemma zlen_cons x l : zlen (x :: l) = 1 + zlen l.
Proof. unfold zlen. cbn [length]. lia. Qed.

Lemma zlen_0_inv l : zlen l = 0 -> l = [].
Proof. destruct l; [done|]. rewrite zlen_cons. pose proof (zlen_nonneg l). lia. Qed.

Lemma zlen_take n l : zlen (take (Z.to_nat n) l) = Z.min (Z.max 0 n) (zlen l).
Proof. unfold zlen. rewrite length_take. lia. Qed.

Lemma zlen_drop n l : zlen (drop (Z.to_nat n) l) = Z.max 0 (zlen l - Z.max 0 n).
Proof. unfold zlen. rewrite length_drop. lia. Qed.

Lemma zlen_slice off len l :
  0 <= off -> 0 <= len -> off + len <= zlen l -> zlen (slice off len l) = len.
Proof. intros. unfold slice. rewrite zlen_take, zlen_drop. lia. Qed.

Lemma slice_split off a b l :
  0 <= off -> 0 <= a -> 0 <= b ->
  slice off (a + b) l = slice off a l ++ slice (off + a) b l.
Proof.
  intros. unfold slice.
  replace (Z.to_nat (a + b)) with (Z.to_nat a + Z.to_nat b)%nat by lia.
  replace (Z.to_nat (off + a)) with (Z.to_nat off + Z.to_nat a)%nat by lia.
  by rewrite <-take_take_drop, drop_drop.
Qed.

Lemma slice_0 off l : slice off 0 l = [].
Proof. reflexivity. Qed.

Lemma slice_all l : slice 0 (zlen l) l = l.
Proof. unfold slice, zlen. rewrite Nat2Z.id. cbn. by rewrite firstn_all. Qed.

Lemma take_slice n off len l :
  0 <= n <= len -> take (Z.to_nat n) (slice off len l) = slice off n l.
Proof. intros. unfold slice. rewrite take_take. f_equal. lia. Qed.

Lemma drop_slice n off len l :
  0 <= n <= len -> 0 <= off ->
  drop (Z.to_nat n) (slice off len l) = slice (off + n) (len - n) l.
Proof.
  intros. unfold slice. rewrite skipn_firstn_comm, drop_drop.
  f_equal; [lia|]. f_equal. lia.
Qed.

Lemma slice_slice o n o2 n2 l :
  0 <= o -> 0 <= o2 -> 0 <= n2 -> o2 + n2 <= n ->
  slice o2 n2 (slice o n l) = slice (o + o2) n2 l.
Proof.
  intros. unfold slice at 1. rewrite drop_slice by lia. by rewrite take_slice by lia.
Qed.

Lemma zlen_overwrite off d l :
  0 <= off -> off + zlen d <= zlen l -> zlen (overwrite off d l) = zlen l.
Proof.
  intros. unfold overwrite, zlen in *.
  rewrite !length_app, length_take, length_drop. lia.
Qed.

(** A slice that ends before the written range is unchanged. *)
Lemma slice_overwrite_before off d l o n :
  0 <= o -> 0 <= n -> o + n <= off -> off <= zlen l ->
  slice o n (overwrite off d l) = slice o n l.
Proof.
  intros. unfold slice, overwrite, zlen in *.
  rewrite drop_app_le by (rewrite length_take; lia).
  rewrite take_app_le by (rewrite length_drop, length_take; lia).
  apply list_eq. intros i.
  destruct (decide (i < Z.to_nat n)%nat) as [Hi|Hi].
  - rewrite !lookup_take_lt, !lookup_drop, lookup_take_lt by lia. done.
  - rewrite !lookup_take_ge by lia. done.
Qed.

(** The written range reads back. *)
Lemma slice_overwrite_at off d l :
  0 <= off -> off <= zlen l -> slice off (zlen d) (overwrite off d l) = d.
Proof.
  intros. unfold slice, overwrite, zlen in *.
  rewrite Nat2Z.id.
  rewrite drop_app_length' by (rewrite length_take; lia).
  by rewrite take_app_length.
Qed.
End ZLists.

(** ** Sums over a list

    The threads of a concurrent component are a list; what they hold together is
    a sum. *)

Definition sumz {A} (f : A -> Z) (l : list A) : Z := foldr (fun x a => f x + a) 0 l.

Section Sums.
Context {A : Type}.
Implicit Types (f g : A -> Z) (l : list A).

Lemma sumz_cons f x l : sumz f (x :: l) = f x + sumz f l.
Proof. reflexivity. Qed.

Lemma sumz_app f l k : sumz f (l ++ k) = sumz f l + sumz f k.
Proof. induction l as [|x l IH]; [done|]. cbn [app]. rewrite !sumz_cons. lia. Qed.

Lemma sumz_insert f l i x y : l !! i = Some x -> sumz f (<[i := y]> l) = sumz f l - f x + f y.
Proof.
  revert i. induction l as [|z l IH]; intros [|i] H; [done..| |].
  - injection H as ->. change (<[0%nat := y]> (x :: l)) with (y :: l). rewrite !sumz_cons. lia.
  - change (<[S i := y]> (z :: l)) with (z :: <[i := y]> l). rewrite !sumz_cons, (IH i H). lia.
Qed.

Lemma sumz_le f g l : (forall x, f x <= g x) -> sumz f l <= sumz g l.
Proof.
  intros H. induction l as [|x l IH]; [done|]. rewrite !sumz_cons. specialize (H x). lia.
Qed.

Lemma sumz_nonneg f l : (forall x, 0 <= f x) -> 0 <= sumz f l.
Proof.
  intros H. induction l as [|x l IH]; [done|]. rewrite sumz_cons. specialize (H x). lia.
Qed.

Lemma sumz_elem f l i x : (forall y, 0 <= f y) -> l !! i = Some x -> f x <= sumz f l.
Proof.
  intros H. revert i. induction l as [|z l IH]; intros [|i] Hi; [done..| |]; rewrite sumz_cons.
  - injection Hi as ->. pose proof (sumz_nonneg f l H). lia.
  - specialize (IH i Hi). specialize (H z). lia.
Qed.

(** Two members. *)
Lemma sumz_elem2 f l i j x y : (forall z, 0 <= f z) -> i <> j ->
  l !! i = Some x -> l !! j = Some y -> f x + f y <= sumz f l.
Proof.
  intros H. revert i j. induction l as [|z l IH]; intros [|i] [|j] Hij Hi Hj; try done; rewrite sumz_cons.
  - injection Hi as ->. pose proof (sumz_elem f l j y H Hj). lia.
  - injection Hj as ->. pose proof (sumz_elem f l i x H Hi). lia.
  - specialize (IH i j ltac:(lia) Hi Hj). specialize (H z). lia.
Qed.

Lemma sumz_pos f l : 0 < sumz f l -> exists i x, l !! i = Some x /\ 0 < f x.
Proof.
  induction l as [|z l IH]; [done|]. rewrite sumz_cons. intros H. destruct (decide (0 < f z)) as [Hz|Hz].
  - by exists O, z.
  - destruct IH as (i & x & ? & ?); [lia|]. by exists (S i), x.
Qed.

Lemma sumz_const_le f c l : (forall x, f x <= c) -> sumz f l <= c * zlen l.
Proof.
  intros H. induction l as [|x l IH]; [change (0 <= c * 0); lia|]. rewrite zlen_cons, sumz_cons. specialize (H x). lia.
Qed.

Lemma sumz_replicate f n x : sumz f (replicate n x) = Z.of_nat n * f x.
Proof. induction n as [|n IH]; [done|]. cbn [replicate]. rewrite sumz_cons. lia. Qed.

Lemma sumz_0 f l : (forall i x, l !! i = Some x -> f x = 0) -> sumz f l = 0.
Proof.
  induction l as [|x l IH]; intros H; [done|]. rewrite sumz_cons, (H O x eq_refl).
  apply IH. intros i y Hi. exact (H (S i) y Hi).
Qed.
End Sums.

(** ** Ring buffers

    [Ring arr start l]: the elements of [l] are stored in [arr] from index
    [start] on, modulo the capacity [length arr]. *)

Definition ring_ix {A} (arr : list A) (start : Z) (i : nat) : nat :=
  Z.to_nat ((start + Z.of_nat i) mod zlen arr).

Record Ring {A} (arr : list A) (start : Z) (l : list A) : Prop := mkRing {
  ring_start : 0 <= start < zlen arr \/ (zlen arr = 0 /\ start = 0);
  ring_fits : (length l <= length arr)%nat;
  ring_at : forall i x, l !! i = Some x -> arr !! ring_ix arr start i = Some x }.

Section Rings.
Context {A : Type}.
Implicit Types arr l : list A.

Lemma ring_ix_lt arr start i :
  0 < zlen arr -> (ring_ix arr start i < length arr)%nat.
Proof.
  intros. unfold ring_ix, zlen in *.
  pose proof (Z.mod_pos_bound (start + Z.of_nat i) (Z.of_nat (length arr))). lia.
Qed.

Lemma ring_ix_inj arr start i j :
  (i < length arr)%nat -> (j < length arr)%nat ->
  ring_ix arr start i = ring_ix arr start j -> i = j.
Proof.
  unfold ring_ix, zlen. intros Hi Hj E.
  assert (0 < Z.of_nat (length arr)) as Hpos by lia.
  pose proof (Z.mod_pos_bound (start + Z.of_nat i) _ Hpos).
  pose proof (Z.mod_pos_bound (start + Z.of_nat j) _ Hpos).
  pose proof (Z.div_mod (start + Z.of_nat i) (Z.of_nat (length arr)) ltac:(lia)).
  pose proof (Z.div_mod (start + Z.of_nat j) (Z.of_nat (length arr)) ltac:(lia)).
  assert ((start + Z.of_nat i) mod Z.of_nat (length arr)
          = (start + Z.of_nat j) mod Z.of_nat (length arr)) by lia.
  set (q1 := (start + Z.of_nat i) / _) in *.
  set (q2 := (start + Z.of_nat j) / _) in *.
  assert (q1 = q2) by nia. nia.
Qed.

Lemma ring_ix_insert arr k x start i :
  ring_ix (<[k := x]> arr) start i = ring_ix arr start i.
Proof. unfold ring_ix, zlen. by rewrite length_insert. Qed.

(** Write at position [length l]: push at the back. *)
Lemma Ring_snoc arr start l x :
  Ring arr start l -> (length l < length arr)%nat ->
  Ring (<[ring_ix arr start (length l) := x]> arr) start (l ++ [x]).
Proof.
  intros [Hs Hf Ha] Hlt. split.
  - unfold zlen in *. rewrite length_insert. done.
  - rewrite length_app, length_insert. cbn. lia.
  - intros i y Hy. rewrite ring_ix_insert.
    apply lookup_app_Some in Hy as [Hy|[Hge Hy]].
    + pose proof (lookup_lt_Some _ _ _ Hy).
      rewrite list_lookup_insert_ne; [by apply Ha|].
      intros E. apply ring_ix_inj in E; lia.
    + apply list_lookup_singleton_Some in Hy as [Hi <-].
      replace i with (length l) by lia.
      apply list_lookup_insert_eq, ring_ix_lt. unfold zlen. lia.
Qed.

(** Update position [i] in place. *)
Lemma Ring_update arr start l i x :
  Ring arr start l -> (i < length l)%nat ->
  Ring (<[ring_ix arr start i := x]> arr) start (<[i := x]> l).
Proof.
  intros [Hs Hf Ha] Hlt. split.
  - unfold zlen in *. rewrite length_insert. done.
  - rewrite !length_insert. done.
  - intros j y Hy. rewrite ring_ix_insert.
    pose proof (lookup_lt_Some _ _ _ Hy) as Hj. rewrite length_insert in Hj.
    destruct (decide (i = j)) as [<-|Hne].
    + rewrite list_lookup_insert_eq in Hy by done. simplify_eq.
      apply list_lookup_insert_eq, ring_ix_lt. unfold zlen. lia.
    + rewrite list_lookup_insert_ne in Hy by done.
      rewrite list_lookup_insert_ne; [by apply Ha|].
      intros E. apply ring_ix_inj in E; lia.
Qed.

Lemma ring_ix_step arr start i :
  0 < zlen arr ->
  ring_ix arr ((start + 1) mod zlen arr) i = ring_ix arr start (S i).
Proof.
  intros. unfold ring_ix. f_equal.
  rewrite Zplus_mod_idemp_l. f_equal. lia.
Qed.

(** Advance [start]: pop at the front. *)
Lemma Ring_tail arr start x l :
  Ring arr start (x :: l) -> Ring arr ((start + 1) mod zlen arr) l.
Proof.
  intros [Hs Hf Ha]. cbn in Hf.
  assert (0 < zlen arr) as Hp by (unfold zlen; lia).
  split.
  - left. apply Z.mod_pos_bound. lia.
  - lia.
  - intros i y Hy. rewrite ring_ix_step by done. by apply (Ha (S i)).
Qed.

(** Any prefix is still in the ring: pop at the back. *)
Lemma Ring_prefix arr start l k : Ring arr start (l ++ k) -> Ring arr start l.
Proof.
  intros [Hs Hf Ha]. rewrite length_app in Hf. split; [done|lia|].
  intros i x Hx. apply Ha. by apply lookup_app_l_Some.
Qed.

(** Step [start] back and write there: push at the front. *)
Lemma Ring_cons arr start l x :
  Ring arr start l -> (length l < length arr)%nat ->
  let s' := if start =? 0 then zlen arr - 1 else start - 1 in
  Ring (<[Z.to_nat s' := x]> arr) s' (x :: l).
Proof.
  intros [Hs Hf Ha] Hlt s'.
  assert (0 < zlen arr) as Hp by (unfold zlen; lia).
  assert (0 <= s' < zlen arr) as Hs'.
  { unfold s'. destruct (Z.eqb_spec start 0); lia. }
  assert ((s' + 1) mod zlen arr = start) as Hst.
  { unfold s'. destruct (Z.eqb_spec start 0) as [->|].
    - rewrite Z.sub_add, Z.mod_same; lia.
    - rewrite Z.sub_add, Z.mod_small; lia. }
  assert (ring_ix arr s' 0 = Z.to_nat s') as H0.
  { unfold ring_ix. rewrite Z.mod_small by lia. lia. }
  split.
  - left. unfold zlen in *. rewrite length_insert. done.
  - rewrite length_insert. cbn. lia.
  - intros i y Hy. rewrite ring_ix_insert. destruct i as [|i]; cbn in Hy.
    + simplify_eq. rewrite H0. apply list_lookup_insert_eq.
      unfold zlen in *. lia.
    + pose proof (lookup_lt_Some _ _ _ Hy).
      rewrite list_lookup_insert_ne.
      * rewrite <-(ring_ix_step arr s' i), Hst by done. by apply Ha.
      * rewrite <-H0. intros E. apply ring_ix_inj in E; lia.
Qed.

Lemma Ring_nil arr start :
  0 <= start < zlen arr \/ (zlen arr = 0 /\ start = 0) -> Ring arr start [].
Proof. intros H. split; [done|cbn; lia|done]. Qed.

(** A dense prefix of an array is a ring starting at 0. *)
Lemma Ring_flat l k : 0 < zlen (l ++ k) -> Ring (l ++ k) 0 l.
Proof.
  intros Hp. split.
  - left. lia.
  - rewrite length_app. lia.
  - intros i x Hx. pose proof (lookup_lt_Some _ _ _ Hx).
    assert (ring_ix (l ++ k) 0 i = i) as ->.
    { unfold ring_ix, zlen in *. rewrite length_app.
      rewrite Z.mod_small by lia. lia. }
    by apply lookup_app_l_Some.
Qed.
End Rings.

(** ** State and undefined behaviour

    A computation on a state [S]: [None] is undefined behaviour (a read or a
    write the C++ must not do, a loop that does not end). *)

Definition M (S A : Type) : Type := S -> option (A * S).

#[global] Instance M_ret S : MRet (M S) := fun A x s => Some (x, s).
#[global] Instance M_bind S : MBind (M S) :=
  fun A B f c s => match c s with Some (x, s) => f x s | None => None end.

Definition get {S} : M S S := fun s => Some (s, s).
Definition modify {S} (f : S -> S) : M S () := fun s => Some ((), f s).
Definition undefined {S A} : M S A := fun _ => None.

Definition lift {S A} (o : option A) : M S A :=
  match o with Some x => mret x | None => undefined end.

Lemma bind_Some {S A B} (c : M S A) (f : A -> M S B) s x s' :
  c s = Some (x, s') -> (x ← c; f x) s = f x s'.
Proof. intros E. unfold mbind, M_bind. by rewrite E. Qed.

(** ** Steps of concurrent code

    [Bad]: a CHECK fails, LOG(FATAL) is reached, or undefined behaviour;
    [NoStep]: the thread cannot run here. *)

Inductive outcome (A : Type) := Bad | NoStep | Go (a : A).
#[global] Arguments Bad {A}.
#[global] Arguments NoStep {A}.
#[global] Arguments Go {A} a.

#[global] Instance outcome_bind : MBind outcome :=
  fun A B f o => match o with Bad => Bad | NoStep => NoStep | Go x => f x end.

Lemma outcome_bind_Go {A B} (f : A -> outcome B) o y :
  (x ← o; f x) = Go y <-> exists x, o = Go x /\ f x = Go y.
Proof. destruct o; cbn; split; [done|by intros (? & ? & _)|done|by intros (? & ? & _)|eauto|by intros (? & [= <-] & ?)]. Qed.

(** ** Occurrence counts *)

Definition cnt (b : nat) (l : list nat) : Z := Z.of_nat (count_occ Nat.eq_dec l b).

Lemma cnt_nil b : cnt b [] = 0.
Proof. done. Qed.

Lemma cnt_app b l1 l2 : cnt b (l1 ++ l2) = cnt b l1 + cnt b l2.
Proof. unfold cnt. rewrite count_occ_app. lia. Qed.

Lemma cnt_cons b c l : cnt b (c :: l) = (if decide (c = b) then 1 else 0) + cnt b l.
Proof.
  unfold cnt. destruct (decide (c = b)) as [->|Hne].
  - rewrite count_occ_cons_eq by done. lia.
  - rewrite count_occ_cons_neq by done. lia.
Qed.

Lemma cnt_nonneg b l : 0 <= cnt b l.
Proof. unfold cnt. lia. Qed.

Lemma cnt_pos b l : 0 < cnt b l <-> b ∈ l.
Proof.
  unfold cnt. rewrite list_elem_of_In, (count_occ_In Nat.eq_dec). lia.
Qed.

#[global] Instance cnt_Permutation b : Proper ((≡ₚ) ==> (=)) (cnt b).
Proof.
  intros l1 l2 H. unfold cnt. f_equal. by apply Permutation_count_occ.
Qed.

Create HintDb eab.
#[export] Hint Resolve cnt_nonneg zlen_nonneg : eab.

(** One step of a computation: reduce the monad's operations. *)
Ltac run := cbv [mbind M_bind mret M_ret get modify undefined lift]; cbn beta iota.
Ltac run_in H := cbv [mbind M_bind mret M_ret get modify undefined lift] in H; cbn beta iota in H.
