(* ===== verification/AbaFreeList.v ===== *)
(** * ListOfABAFreeId (fiber/list_of_abafree_id.h)

    The list of identifiers that is kept for error notifications: blocks of
    BLOCK_SIZE positions in a chain that starts at the member _head_block.
    An identifier is never removed; its position is taken by a later add() once
    it is the initial value or does not exist any more.

    The blocks are in a store indexed by their addresses, [head_block] being
    that of _head_block; an [Id*] is a block's address and an index.  Whether an
    identifier exists is an argument of the calls that ask, and so is what
    operator new gives.  The model's state is the object; reading a missing
    block is undefined behaviour. *)

From S2P Require Import Prelude.

Module AbaFreeList.

Definition EAGAIN : Z := 11.
Definition ENOMEM : Z := 12.

Record IdBlock (Id : Type) := mkIdBlock { ids : list Id; next : option nat }.
Arguments mkIdBlock {Id}.
Arguments ids {Id}.
Arguments next {Id}.

Record ListOfABAFreeId (Id : Type) := mkList {
  _blocks : gmap nat (IdBlock Id);
  _cur_block : nat;
  _cur_index : Z;
  _nblock : Z }.
Arguments mkList {Id}.
Arguments _blocks {Id}.
Arguments _cur_block {Id}.
Arguments _cur_index {Id}.
Arguments _nblock {Id}.

Definition head_block : nat := 0.

Section Ops.
Context {Id : Type} {Id_dec : EqDecision Id}.
(** IdTraits::BLOCK_SIZE, MAX_ENTRIES and ID_INIT. *)
Context (BLOCK_SIZE MAX_ENTRIES : Z) (ID_INIT : Id).

Abbreviation B := (Z.to_nat BLOCK_SIZE).
Abbreviation store := (gmap nat (IdBlock Id)).

Definition ctor : ListOfABAFreeId Id :=
  mkList {[head_block := mkIdBlock (replicate B ID_INIT) None]} head_block 0 1.

(** The loop that deletes the blocks after the head; [fuel]: its iterations. *)
Fixpoint delete_chain (fuel : nat) (p : option nat) (h : store) : option store :=
  match p with
  | None => Some h
  | Some a =>
      match fuel with
      | O => None
      | S fuel => saved ← h !! a; delete_chain fuel (next saved) (delete a h)
      end
  end.

(** The store that is left. *)
Definition dtor (st : ListOfABAFreeId Id) : option store :=
  hd ← _blocks st !! head_block;
  h ← delete_chain (size (_blocks st)) (next hd) (_blocks st);
  Some (<[head_block := mkIdBlock (ids hd) None]> h).

Abbreviation Op := (M (ListOfABAFreeId Id)).

Definition set_blocks (h : store) (st : ListOfABAFreeId Id) : ListOfABAFreeId Id :=
  mkList h (_cur_block st) (_cur_index st) (_nblock st).

(** [*p] of an [Id*]. *)
Definition cell (h : store) (p : nat * Z) : option Id :=
  b ← h !! p.1; ids b !! Z.to_nat p.2.

Definition read (p : nat * Z) : Op Id := st ← get; lift (cell (_blocks st) p).

Definition write (p : nat * Z) (v : Id) : Op () :=
  st ← get;
  b ← lift (_blocks st !! p.1);
  if decide (Z.to_nat p.2 < length (ids b))%nat then
    modify (set_blocks (<[p.1 := mkIdBlock (<[Z.to_nat p.2 := v]> (ids b)) (next b)]> (_blocks st)))
  else undefined.

(** [_cur_block->ids + _cur_index] *)
Definition cur_pos (st : ListOfABAFreeId Id) : nat * Z := (_cur_block st, _cur_index st).

Definition forward_index : Op () :=
  st ← get;
  let i := u32 (_cur_index st + 1) in
  if BLOCK_SIZE <=? i then
    b ← lift (_blocks st !! _cur_block st);
    modify (fun st => mkList (_blocks st) (default head_block (next b)) 0 (_nblock st))
  else modify (fun st => mkList (_blocks st) (_cur_block st) i (_nblock st)).

(** The scan for a free position: [None] when it was found and taken, the [n]
    positions that are in use otherwise. *)
Fixpoint scan (exists_ : Id -> bool) (id : Id) (n : nat) : Op (option (list (nat * Z))) :=
  match n with
  | O => mret (Some [])
  | S n =>
      st ← get;
      let pos := cur_pos st in
      forward_index;;
      v ← read pos;
      if bool_decide (v = ID_INIT) || negb (exists_ v) then write pos id;; mret None
      else
        r ← scan exists_ id n;
        mret (cons pos <$> r)
  end.

(** The new block takes the current block's positions from _cur_index on. *)
Definition insert_block (new_block : nat) : Op () :=
  st ← get;
  c ← lift (_blocks st !! _cur_block st);
  let i := Z.to_nat (_cur_index st) in
  match _blocks st !! new_block with
  | Some _ => undefined (* operator new gives a fresh address *)
  | None =>
      modify (fun st =>
        mkList
          (<[new_block := mkIdBlock (replicate i ID_INIT ++ drop i (ids c)) (next c)]>
            (<[_cur_block st := mkIdBlock (take i (ids c) ++ replicate (B - i) ID_INIT) (Some new_block)]>
              (_blocks st)))
          (_cur_block st) (_cur_index st) (u32 (_nblock st + 1)))
  end.

Definition scatter (saved_pos : list (nat * Z)) (id : Id) : Op () :=
  match saved_pos with
  | [_; p1; p2; p3] =>
      st ← get; v2 ← read p2; write (cur_pos st) v2;;
      v1 ← read p1; write p2 v1;;
      write p1 ID_INIT;;
      forward_index;;
      forward_index;;
      st ← get; v3 ← read p3; write (cur_pos st) v3;;
      write p3 ID_INIT;;
      forward_index;;
      st ← get; write (cur_pos st) id;;
      forward_index
  | _ => undefined
  end.

(** [new_]: the result of new (std::nothrow) IdBlock. *)
Definition add (exists_ : Id -> bool) (new_ : option nat) (id : Id) : Op Z :=
  r ← scan exists_ id 4;
  match r with
  | None => mret 0
  | Some saved_pos =>
      st ← get;
      if MAX_ENTRIES <? u64 (_nblock st * BLOCK_SIZE) then mret EAGAIN
      else
        match new_ with
        | None => mret ENOMEM
        | Some new_block => insert_block new_block;; scatter saved_pos id;; mret 0
        end
  end.

(** apply(fn): [fn] acts on a world [W] and may change the identifier that it is
    given; [exists_] asks that world. *)
Section Apply.
Context {W : Type} (exists_ : W -> Id -> bool) (fn : Id -> W -> option (Id * W)).

Fixpoint apply_ids (l : list Id) (w : W) : option (list Id * W) :=
  match l with
  | [] => Some ([], w)
  | v :: l =>
      '(v, w) ← (if negb (bool_decide (v = ID_INIT)) && exists_ w v then fn v w else Some (v, w));
      '(l, w) ← apply_ids l w;
      Some (v :: l, w)
  end.

Fixpoint apply_chain (fuel : nat) (p : option nat) (h : store) (w : W) : option (store * W) :=
  match p with
  | None => Some (h, w)
  | Some a =>
      match fuel with
      | O => None
      | S fuel =>
          b ← h !! a;
          '(l, w) ← apply_ids (ids b) w;
          apply_chain fuel (next b) (<[a := mkIdBlock l (next b)]> h) w
      end
  end.

Definition apply (w : W) (st : ListOfABAFreeId Id) : option (W * ListOfABAFreeId Id) :=
  '(h, w) ← apply_chain (size (_blocks st)) (Some head_block) (_blocks st) w;
  Some (w, set_blocks h st).
End Apply.

(** The counts written, one per level, and what is returned. *)
Definition get_sizes (n : Z) (st : ListOfABAFreeId Id) : list Z * Z :=
  if n =? 0 then ([], 0) else ([u64 (_nblock st * BLOCK_SIZE)], 1).

(** ** The chain and what it holds *)

Fixpoint links (h : store) (p : option nat) (l : list nat) : Prop :=
  match l with
  | [] => p = None
  | a :: l => p = Some a /\ exists b, h !! a = Some b /\ links h (next b) l
  end.

Definition ids_at (h : store) (a : nat) : list Id := default [] (ids <$> h !! a).
Definition contents (h : store) (l : list nat) : list Id := concat (map (ids_at h) l).

(** The chain is [l]: every block is in it once, with BLOCK_SIZE positions, and
    the chain never has more than one block above MAX_ENTRIES. *)
Record Wf (st : ListOfABAFreeId Id) (l : list nat) : Prop := mkWf {
  wf_links : links (_blocks st) (Some head_block) l;
  wf_nodup : NoDup l;
  wf_dom : forall a, is_Some (_blocks st !! a) <-> a ∈ l;
  wf_len : forall a b, _blocks st !! a = Some b -> length (ids b) = B;
  wf_cur : _cur_block st ∈ l;
  wf_ix : 0 <= _cur_index st < BLOCK_SIZE;
  wf_nblock : _nblock st = zlen l;
  wf_max : (zlen l - 1) * BLOCK_SIZE <= MAX_ENTRIES }.

Context (Hbs : 8 <= BLOCK_SIZE) (Hmax : 0 <= MAX_ENTRIES) (Hsmall : MAX_ENTRIES + 2 * BLOCK_SIZE < 2 ^ 32).

Lemma links_lookup h l : forall p a, links h p l -> a ∈ l -> exists b, h !! a = Some b /\
  (forall q, next b = Some q -> q ∈ l).
Proof.
  induction l as [|c l IH]; intros p a Hl Ha; [by apply not_elem_of_nil in Ha|].
  destruct Hl as (-> & b & Hb & Hl). apply elem_of_cons in Ha as [->|Ha].
  - exists b. split; [done|]. intros q Hq. destruct l as [|d l]; cbn in Hl; [congruence|].
    destruct Hl as (E & _). rewrite Hq in E. injection E as ->. set_solver.
  - destruct (IH _ _ Hl Ha) as (b' & Hb' & Hn). exists b'. split; [done|]. intros q Hq. specialize (Hn q Hq). set_solver.
Qed.

(** An update that keeps the link. *)
Lemma links_insert h a b b' l : h !! a = Some b -> next b' = next b -> forall p,
  links h p l -> links (<[a := b']> h) p l.
Proof.
  intros Ha Hn. induction l as [|c l IH]; intros p; cbn; [done|].
  intros (-> & x & Hx & Hl). split; [done|]. destruct (decide (a = c)) as [<-|Hne].
  - exists b'. rewrite lookup_insert_eq. split; [done|]. rewrite Ha in Hx. simplify_eq. rewrite Hn. by apply IH.
  - exists x. rewrite lookup_insert_ne by done. split; [done|]. by apply IH.
Qed.

Lemma contents_frame h a b l : a ∉ l -> contents (<[a := b]> h) l = contents h l.
Proof.
  intros Ha. unfold contents. f_equal. apply map_ext_in. intros c Hc. unfold ids_at.
  rewrite lookup_insert_ne; [done|]. intros ->. by apply Ha, list_elem_of_In.
Qed.

(** One block's share of the contents. *)
Lemma contents_split h a b l : NoDup l -> a ∈ l -> h !! a = Some b ->
  exists r, contents h l ≡ₚ ids b ++ r /\
    forall b', contents (<[a := b']> h) l ≡ₚ ids b' ++ r.
Proof.
  intros Hnd Ha Hb. apply list_elem_of_split in Ha as (l1 & l2 & ->).
  apply NoDup_app in Hnd as (_ & H1 & H2). apply NoDup_cons in H2 as [H2 _].
  assert (a ∉ l1) as H1' by (intros H; apply (H1 a H); left).
  exists (contents h l1 ++ contents h l2). unfold contents in *. split.
  - rewrite map_app, concat_app. cbn. unfold ids_at at 2. rewrite Hb. cbn.
    by rewrite (app_assoc (concat _)), (Permutation_app_comm _ (ids b)), <-app_assoc.
  - intros b'. rewrite map_app, concat_app. cbn. unfold ids_at at 2. rewrite lookup_insert_eq. cbn.
    pose proof (contents_frame h a b' l1 H1') as E1. pose proof (contents_frame h a b' l2 H2) as E2.
    unfold contents in E1, E2. rewrite E1, E2.
    by rewrite (app_assoc (concat _)), (Permutation_app_comm _ (ids b')), <-app_assoc.
Qed.

Lemma insert_Permutation (l : list Id) i v w : l !! i = Some v -> v :: <[i := w]> l ≡ₚ w :: l.
Proof.
  intros H. rewrite <-(take_drop_middle l i v H) at 2.
  rewrite insert_take_drop by (by eapply lookup_lt_Some).
  rewrite <-!Permutation_middle. apply perm_swap.
Qed.

(** Positions. *)
Lemma cell_write_ne h p q b v : h !! p.1 = Some b -> 0 <= p.2 -> 0 <= q.2 -> p.2 <> q.2 ->
  cell (<[p.1 := mkIdBlock (<[Z.to_nat p.2 := v]> (ids b)) (next b)]> h) q = cell h q.
Proof.
  intros Hb Hp Hq Hne. unfold cell. destruct (decide (p.1 = q.1)) as [E|E].
  - rewrite <-E, lookup_insert_eq, Hb. cbn. apply list_lookup_insert_ne. lia.
  - by rewrite lookup_insert_ne.
Qed.

(** A write of an existing position. *)
Lemma pos_write_spec st l p v w : Wf st l -> 0 <= p.2 -> cell (_blocks st) p = Some v ->
  exists h', write p w st = Some ((), set_blocks h' st) /\ Wf (set_blocks h' st) l /\
    v :: contents h' l ≡ₚ w :: contents (_blocks st) l /\
    (forall q, 0 <= q.2 -> p.2 <> q.2 -> cell h' q = cell (_blocks st) q) /\
    (forall a, next <$> h' !! a = next <$> _blocks st !! a).
Proof.
  intros HW Hp Hv. pose proof Hv as Hv'. unfold cell in Hv'. destruct (_blocks st !! p.1) as [b|] eqn:Hb; [|done].
  cbn in Hv'. unfold write. run. rewrite Hb. rewrite decide_True by (by eapply lookup_lt_Some).
  eexists. split; [done|]. split; [|split; [|split]].
  - destruct HW. split; cbn; [by eapply links_insert| done | | | done..].
    + intros a. rewrite lookup_insert_is_Some', wf_dom0. split; [|by right].
      intros [<-|]; [|done]. apply wf_dom0. by eexists.
    + intros a x Hx. destruct (decide (p.1 = a)) as [<-|].
      * rewrite lookup_insert_eq in Hx. simplify_eq. cbn. rewrite length_insert. by eapply wf_len0.
      * rewrite lookup_insert_ne in Hx by done. by eapply wf_len0.
  - destruct (contents_split (_blocks st) p.1 b l (wf_nodup _ _ HW)) as (r & E & E'); [apply (wf_dom _ _ HW); by eexists|done|].
    cbn [_blocks set_blocks]. rewrite E, E'. cbn. rewrite app_comm_cons, insert_Permutation by done. done.
  - intros q Hq Hne. by apply cell_write_ne.
  - intros a. destruct (decide (p.1 = a)) as [<-|]; [by rewrite lookup_insert_eq, Hb|by rewrite lookup_insert_ne].
Qed.

Lemma cell_in st l a i : Wf st l -> a ∈ l -> 0 <= i < BLOCK_SIZE -> exists v, cell (_blocks st) (a, i) = Some v.
Proof.
  intros HW Ha Hi. apply (wf_dom _ _ HW) in Ha as [b Hb]. unfold cell. cbn. rewrite Hb. cbn.
  apply lookup_lt_is_Some. rewrite (wf_len _ _ HW a b Hb). lia.
Qed.

(** The position after [p]. *)
Definition fwd (h : store) (p : nat * Z) : nat * Z :=
  if BLOCK_SIZE <=? p.2 + 1 then (default head_block (h !! p.1 ≫= next), 0) else (p.1, p.2 + 1).

Definition set_pos (p : nat * Z) (st : ListOfABAFreeId Id) : ListOfABAFreeId Id :=
  mkList (_blocks st) p.1 p.2 (_nblock st).

Lemma head_in st l : Wf st l -> head_block ∈ l.
Proof. intros HW. pose proof (wf_links _ _ HW) as H. destruct l; [done|]. destruct H as [[= <-] _]. left. Qed.

Lemma forward_spec st l : Wf st l ->
  let st' := set_pos (fwd (_blocks st) (cur_pos st)) st in
  forward_index st = Some ((), st') /\ Wf st' l.
Proof.
  intros HW st'. pose proof (wf_ix _ _ HW) as Hi.
  destruct (links_lookup _ _ _ _ (wf_links _ _ HW) (wf_cur _ _ HW)) as (b & Hb & Hn).
  assert (u32 (_cur_index st + 1) = _cur_index st + 1) as E by (apply wrapu_small; lia).
  unfold forward_index, st', set_pos, fwd. run. rewrite E. cbn [cur_pos fst snd].
  destruct (Z.leb_spec BLOCK_SIZE (_cur_index st + 1)).
  - rewrite Hb. cbn. split; [done|]. destruct HW. split; cbn; try done; [|lia].
    destruct (next b) eqn:En; cbn; [by apply Hn|]. by apply (head_in st l).
  - cbn. split; [done|]. destruct HW. split; cbn; try done. lia.
Qed.

Lemma fwd_index h p : 0 <= p.2 < BLOCK_SIZE -> (fwd h p).2 = (p.2 + 1) mod BLOCK_SIZE.
Proof.
  intros Hp. unfold fwd. destruct (Z.leb_spec BLOCK_SIZE (p.2 + 1)); cbn.
  - replace (p.2 + 1) with BLOCK_SIZE by lia. by rewrite Z.mod_same by lia.
  - by rewrite Z.mod_small by lia.
Qed.

Definition alive (exists_ : Id -> bool) (v : Id) : bool := negb (bool_decide (v = ID_INIT)) && exists_ v.

Lemma cell_elem st l a i v : Wf st l -> a ∈ l -> cell (_blocks st) (a, i) = Some v -> v ∈ contents (_blocks st) l.
Proof.
  intros HW Ha Hv. unfold cell in Hv. cbn in Hv. destruct (_blocks st !! a) as [b|] eqn:Hb; [|done].
  destruct (contents_split (_blocks st) a b l (wf_nodup _ _ HW) Ha Hb) as (r & -> & _).
  apply elem_of_app. left. by eapply list_elem_of_lookup_2.
Qed.

Lemma scan_spec exists_ id n : forall st l, Wf st l -> exists r st',
  scan exists_ id n st = Some (r, st') /\ Wf st' l /\ _nblock st' = _nblock st /\
  match r with
  | None => exists v, v ∈ contents (_blocks st) l /\ alive exists_ v = false /\ v :: contents (_blocks st') l ≡ₚ id :: contents (_blocks st) l
  | Some ps =>
      _blocks st' = _blocks st /\ length ps = n /\
      _cur_index st' = (_cur_index st + Z.of_nat n) mod BLOCK_SIZE /\
      (forall j p, ps !! j = Some p ->
        p.1 ∈ l /\ p.2 = (_cur_index st + Z.of_nat j) mod BLOCK_SIZE /\
        exists v, cell (_blocks st) p = Some v /\ alive exists_ v = true)
  end.
Proof.
  induction n as [|n IH]; intros st l HW; pose proof (wf_ix _ _ HW) as Hi.
  - exists (Some []), st. cbn. rewrite Z.add_0_r, Z.mod_small by lia. by split_and!.
  - destruct (forward_spec st l HW) as [Hf HW1]. set (st1 := set_pos _ st) in *.
    destruct (cell_in st l (_cur_block st) (_cur_index st) HW (wf_cur _ _ HW) Hi) as [v Hv].
    cbn [scan]. run. rewrite Hf. unfold read at 1. run. change (_blocks st1) with (_blocks st).
    unfold cur_pos at 1. rewrite Hv. replace (bool_decide (v = ID_INIT) || negb (exists_ v)) with (negb (alive exists_ v))
      by (unfold alive; by destruct (bool_decide _), (exists_ v)).
    destruct (alive exists_ v) eqn:Ev; cbn [negb].
    + destruct (IH st1 l HW1) as (r & st2 & -> & HW2 & Hnb & Hr).
      exists (cons (cur_pos st) <$> r), st2. split; [done|]. split; [done|]. split; [done|].
      assert (_cur_index st1 = (_cur_index st + 1) mod BLOCK_SIZE) as Ei by (apply fwd_index; done).
      assert (forall k, (_cur_index st1 + k) mod BLOCK_SIZE = (_cur_index st + (1 + k)) mod BLOCK_SIZE) as Ek.
      { intros k. rewrite Ei, Zplus_mod_idemp_l. f_equal. lia. }
      destruct r as [ps|]; [|done]. destruct Hr as (Hb & Hl & Hc & Hp). cbn.
      split; [done|]. split; [by f_equal|]. split; [rewrite Hc, Ek; f_equal; lia|].
      intros [|j] p Hj; cbn in Hj.
      * simplify_eq. cbn. split; [apply (wf_cur _ _ HW)|]. rewrite Z.add_0_r, Z.mod_small by lia. split; [done|]. by exists v.
      * destruct (Hp j p Hj) as (H1 & H2 & H3). split; [done|]. split; [|done]. rewrite H2, Ek. f_equal. lia.
    + destruct (pos_write_spec st1 l (cur_pos st) v id HW1) as (h' & Hw & HW2 & Hc & _); [cbn; lia|done|].
      rewrite Hw. eexists _, _. split; [done|]. split; [done|]. split; [done|].
      exists v. split; [|done]. eapply cell_elem; [done|apply (wf_cur _ _ HW)|done].
Qed.

(** ** The new block *)

Lemma links_frame h a b l : a ∉ l -> forall p, links h p l -> links (<[a := b]> h) p l.
Proof.
  induction l as [|c l IH]; intros Ha p; cbn; [done|]. apply not_elem_of_cons in Ha as [Hne Ha].
  intros (-> & x & Hx & Hl). split; [done|]. exists x. rewrite lookup_insert_ne by done. split; [done|]. by apply IH.
Qed.

Lemma links_insert_after h a n c x y l2 l1 : NoDup (l1 ++ a :: l2) -> n ∉ l1 ++ a :: l2 -> h !! a = Some c -> forall p,
  links h p (l1 ++ a :: l2) ->
  links (<[n := mkIdBlock x (next c)]> (<[a := mkIdBlock y (Some n)]> h)) p (l1 ++ a :: n :: l2).
Proof.
  induction l1 as [|d l1 IH]; intros Hnd Hn Ha p; cbn [app links].
  - intros (-> & b & Hb & Hl). rewrite Ha in Hb. simplify_eq. cbn in *.
    apply not_elem_of_cons in Hn as [Hne Hn]. apply NoDup_cons in Hnd as [Hal _].
    split; [done|]. eexists. rewrite lookup_insert_ne, lookup_insert_eq by done. split; [done|]. cbn.
    split; [done|]. eexists. rewrite lookup_insert_eq. split; [done|]. cbn.
    by apply links_frame, links_frame.
  - intros (-> & b & Hb & Hl). cbn in Hnd, Hn. apply NoDup_cons in Hnd as [Hd Hnd].
    apply not_elem_of_cons in Hn as [Hne Hn].
    split; [done|]. exists b. rewrite !lookup_insert_ne by set_solver. split; [done|]. by apply IH.
Qed.

(** Both halves of the split block. *)
Lemma contents_insert_after h a n c x y l2 l1 : NoDup (l1 ++ a :: l2) -> n ∉ l1 ++ a :: l2 -> h !! a = Some c ->
  contents (<[n := mkIdBlock x (next c)]> (<[a := mkIdBlock y (Some n)]> h)) (l1 ++ a :: n :: l2)
    ≡ₚ x ++ y ++ contents h (l1 ++ l2) /\
  contents h (l1 ++ a :: l2) ≡ₚ ids c ++ contents h (l1 ++ l2).
Proof.
  intros Hnd Hn Ha. set (h' := <[n := _]> _).
  assert (NoDup (a :: l1 ++ l2)) as Hnd' by (by rewrite Permutation_middle). apply NoDup_cons in Hnd' as [Hal _].
  assert (a <> n /\ n ∉ l1 ++ l2) as [Hne Hnl] by set_solver.
  assert (forall k, a ∉ k -> n ∉ k -> contents h' k = contents h k) as Hf.
  { intros k Hk1 Hk2. unfold h'. by rewrite !contents_frame. }
  assert (forall g k1 k2, contents g (k1 ++ k2) = contents g k1 ++ contents g k2) as Happ.
  { intros g k1 k2. unfold contents. by rewrite map_app, concat_app. }
  assert (forall g b k, contents g (b :: k) = ids_at g b ++ contents g k) as Hcons by done.
  rewrite !Happ, !Hcons, !Hf by set_solver.
  assert (ids_at h' a = y) as -> by (unfold ids_at, h'; by rewrite lookup_insert_ne, lookup_insert_eq).
  assert (ids_at h' n = x) as -> by (unfold ids_at, h'; by rewrite lookup_insert_eq).
  assert (ids_at h a = ids c) as -> by (unfold ids_at; by rewrite Ha).
  split; [|by rewrite Permutation_app_swap_app].
  rewrite (Permutation_app_swap_app (contents h l1)), (Permutation_app_swap_app (contents h l1)).
  by rewrite Permutation_app_swap_app.
Qed.

Definition init_at (h : store) (p : nat * Z) : Prop := cell h p = Some ID_INIT.

Lemma insert_block_spec st l n : Wf st l -> _blocks st !! n = None -> _nblock st * BLOCK_SIZE <= MAX_ENTRIES ->
  exists st' l', insert_block n st = Some ((), st') /\ Wf st' l' /\ cur_pos st' = cur_pos st /\
    contents (_blocks st') l' ≡ₚ replicate B ID_INIT ++ contents (_blocks st) l /\
    (forall a, a ∈ l -> a ∈ l') /\ zlen l' = zlen l + 1 /\
    next <$> _blocks st' !! _cur_block st = Some (Some n) /\
    (forall i, _cur_index st <= i < BLOCK_SIZE -> init_at (_blocks st') (_cur_block st, i)) /\
    (forall i, 0 <= i < _cur_index st -> init_at (_blocks st') (n, i)).
Proof.
  intros HW Hn Hcap. pose proof (wf_ix _ _ HW) as Hi. pose proof (wf_cur _ _ HW) as Hc.
  pose proof (proj2 (wf_dom _ _ HW _) Hc) as [c Hb]. pose proof (wf_len _ _ HW _ _ Hb) as Hlen.
  assert (n ∉ l) as Hnl by (rewrite <-(wf_dom _ _ HW), Hn; by intros [? ?]).
  assert (_cur_block st <> n) as Hne by (intros <-; congruence).
  pose proof (list_elem_of_split l (_cur_block st) Hc) as (l1 & l2 & El).
  pose proof (wf_nodup _ _ HW) as Hnd. rewrite El in Hnl, Hnd.
  unfold insert_block. run. rewrite Hb, Hn. eexists _, (l1 ++ _cur_block st :: n :: l2). split; [done|].
  set (h' := <[n := _]> _).
  assert (u32 (_nblock st + 1) = zlen l + 1) as Enb.
  { rewrite (wf_nblock _ _ HW) in *. apply wrapu_small. pose proof (zlen_nonneg l). nia. }
  assert (zlen (l1 ++ _cur_block st :: n :: l2) = zlen l + 1) as Ez.
  { rewrite El, !zlen_app, !zlen_cons. lia. }
  split_and!.
  - split; cbn [_blocks _cur_block _cur_index _nblock]; [| | | | |done|by rewrite Enb, Ez|].
    + apply links_insert_after; [done..|]. rewrite <-El. apply (wf_links _ _ HW).
    + assert (l1 ++ _cur_block st :: n :: l2 ≡ₚ n :: (l1 ++ _cur_block st :: l2)) as -> by solve_Permutation.
      by apply NoDup_cons.
    + intros a. unfold h'. rewrite !lookup_insert_is_Some', (wf_dom _ _ HW a), El. set_solver.
    + intros a x Hx. unfold h' in Hx. apply lookup_insert_Some in Hx as [[<- <-]|[_ Hx]].
      { cbn. rewrite length_app, length_replicate, length_drop. lia. }
      apply lookup_insert_Some in Hx as [[<- <-]|[_ Hx]]; [|by eapply (wf_len _ _ HW)].
      cbn. rewrite length_app, length_replicate, length_take. lia.
    + set_solver.
    + rewrite Ez. pose proof (wf_nblock _ _ HW) as En. rewrite En in Hcap. lia.
  - done.
  - cbn [_blocks]. pose proof (contents_insert_after (_blocks st) _ n c
      (replicate (Z.to_nat (_cur_index st)) ID_INIT ++ drop (Z.to_nat (_cur_index st)) (ids c))
      (take (Z.to_nat (_cur_index st)) (ids c) ++ replicate (B - Z.to_nat (_cur_index st)) ID_INIT) l2 l1 Hnd Hnl Hb) as [E1 E2].
    fold h' in E1. rewrite E1, El, E2. rewrite <-(take_drop (Z.to_nat (_cur_index st)) (ids c)) at 3.
    replace B with (Z.to_nat (_cur_index st) + (B - Z.to_nat (_cur_index st)))%nat at 2 by lia.
    rewrite replicate_add. solve_Permutation.
  - intros a. rewrite El. set_solver.
  - done.
  - cbn. unfold h'. by rewrite lookup_insert_ne, lookup_insert_eq.
  - intros i Hr. unfold init_at, cell, h'. cbn. rewrite lookup_insert_ne, lookup_insert_eq by done. cbn.
    rewrite lookup_app_r by (rewrite length_take; lia). rewrite length_take. apply lookup_replicate. split; [done|lia].
  - intros i Hr. unfold init_at, cell, h'. cbn. rewrite lookup_insert_eq. cbn.
    rewrite lookup_app_l by (rewrite length_replicate; lia). apply lookup_replicate. split; [done|lia].
Qed.

(** ** The scatter

    The positions from the current one on, into the new block [n]. *)

Definition zone_pos (c n : nat) (i m : Z) : nat * Z :=
  if i + m <? BLOCK_SIZE then (c, i + m) else (n, i + m - BLOCK_SIZE).

Lemma zone_fwd h c n i m : next <$> h !! c = Some (Some n) -> 0 <= i < BLOCK_SIZE -> 0 <= m -> m + 1 < BLOCK_SIZE ->
  fwd h (zone_pos c n i m) = zone_pos c n i (m + 1).
Proof.
  intros Hn Hi Hm Hm'. unfold zone_pos. destruct (h !! c) as [b|] eqn:Hc; [|done]. cbn in Hn.
  destruct (Z.ltb_spec (i + m) BLOCK_SIZE), (Z.ltb_spec (i + (m + 1)) BLOCK_SIZE); unfold fwd; cbn; try lia.
  - destruct (Z.leb_spec BLOCK_SIZE (i + m + 1)); [lia|]. f_equal. lia.
  - destruct (Z.leb_spec BLOCK_SIZE (i + m + 1)); [|lia]. rewrite Hc. cbn. injection Hn as ->. cbn. f_equal. lia.
  - destruct (Z.leb_spec BLOCK_SIZE (i + m - BLOCK_SIZE + 1)); [lia|]. f_equal. lia.
Qed.

Lemma zone_index c n i m : 0 <= i < BLOCK_SIZE -> 0 <= m < BLOCK_SIZE ->
  (zone_pos c n i m).2 = (i + m) mod BLOCK_SIZE.
Proof.
  intros Hi Hm. unfold zone_pos. destruct (Z.ltb_spec (i + m) BLOCK_SIZE); cbn.
  - by rewrite Z.mod_small by lia.
  - replace (i + m) with ((i + m - BLOCK_SIZE) + 1 * BLOCK_SIZE) at 2 by lia.
    rewrite Z_mod_plus_full, Z.mod_small; lia.
Qed.

Lemma mod_ne a j k : 0 <= j -> j < k -> k < BLOCK_SIZE -> (a + j) mod BLOCK_SIZE <> (a + k) mod BLOCK_SIZE.
Proof.
  intros Hj Hjk Hk E. pose proof (Z.div_mod (a + j) BLOCK_SIZE ltac:(lia)). pose proof (Z.div_mod (a + k) BLOCK_SIZE ltac:(lia)).
  assert (BLOCK_SIZE * ((a + k) / BLOCK_SIZE - (a + j) / BLOCK_SIZE) = k - j) by lia.
  set (q := (a + k) / BLOCK_SIZE - (a + j) / BLOCK_SIZE) in *. assert (0 < q) by nia. nia.
Qed.

(** One write of the scatter, as the rest of it sees it: the cells at the other
    indices, the links and the position stay. *)
Definition wrote (p : nat * Z) (v w : Id) (l : list nat) (st st' : ListOfABAFreeId Id) : Prop :=
  Wf st' l /\ cur_pos st' = cur_pos st /\ v :: contents (_blocks st') l ≡ₚ w :: contents (_blocks st) l /\
  (forall q, 0 <= q.2 -> p.2 <> q.2 -> cell (_blocks st') q = cell (_blocks st) q) /\
  (forall a, next <$> _blocks st' !! a = next <$> _blocks st !! a).

Lemma write_wrote st l p v w : Wf st l -> 0 <= p.2 -> cell (_blocks st) p = Some v ->
  exists st', write p w st = Some ((), st') /\ wrote p v w l st st'.
Proof.
  intros HW Hp Hv. destruct (pos_write_spec st l p v w HW Hp Hv) as (h' & E & H1 & H2 & H3 & H4).
  exists (set_blocks h' st). by split_and!.
Qed.

Lemma forward_zone st l c n i m : Wf st l -> cur_pos st = zone_pos c n i m -> next <$> _blocks st !! c = Some (Some n) ->
  0 <= i < BLOCK_SIZE -> 0 <= m -> m + 1 < BLOCK_SIZE ->
  exists st', forward_index st = Some ((), st') /\ Wf st' l /\ _blocks st' = _blocks st /\ cur_pos st' = zone_pos c n i (m + 1).
Proof.
  intros HW Hc Hn Hi Hm Hm'. destruct (forward_spec st l HW) as [E HW']. eexists. split; [done|]. split; [done|].
  split; [done|]. rewrite Hc, zone_fwd by done. unfold cur_pos. cbn. by destruct (zone_pos c n i (m + 1)).
Qed.

Section Scatter.
Context (st : ListOfABAFreeId Id) (l : list nat) (c n : nat) (i : Z) (p1 p2 p3 : nat * Z) (id : Id).
Context (HW : Wf st l) (Hcur : cur_pos st = zone_pos c n i 0) (Hnext : next <$> _blocks st !! c = Some (Some n)).
Context (Hi : 0 <= i < BLOCK_SIZE) (Hl1 : p1.1 ∈ l) (Hl2 : p2.1 ∈ l) (Hl3 : p3.1 ∈ l).
Context (a : Z) (Hi1 : p1.2 = (a + 1) mod BLOCK_SIZE) (Hi2 : p2.2 = (a + 2) mod BLOCK_SIZE) (Hi3 : p3.2 = (a + 3) mod BLOCK_SIZE).
Context (Hia : i = (a + 4) mod BLOCK_SIZE).
Context (Hzone : forall m, 0 <= m < BLOCK_SIZE -> init_at (_blocks st) (zone_pos c n i m)).

Lemma zone_ix m : 0 <= m < BLOCK_SIZE -> (zone_pos c n i m).2 = (a + (4 + m)) mod BLOCK_SIZE.
Proof. intros Hm. rewrite zone_index by done. rewrite Hia, Zplus_mod_idemp_l. f_equal. lia. Qed.

Lemma saved_cell p j : p.1 ∈ l -> p.2 = (a + j) mod BLOCK_SIZE -> exists v, cell (_blocks st) p = Some v.
Proof.
  intros Hl Hj. destruct p as [b k]. cbn in *. subst k. apply (cell_in st l); [done..|].
  apply Z.mod_pos_bound. lia.
Qed.

Lemma zone_index_nonneg m : 0 <= m < BLOCK_SIZE -> 0 <= (zone_pos c n i m).2.
Proof. intros. rewrite zone_index by done. apply Z.mod_pos_bound. lia. Qed.

Lemma saved_nonneg (p : nat * Z) j : p.2 = (a + j) mod BLOCK_SIZE -> 0 <= p.2.
Proof. intros ->. apply Z.mod_pos_bound. lia. Qed.

(** The indices are distinct, being less than BLOCK_SIZE apart. *)
Ltac ix := first
  [ eapply saved_nonneg; eassumption
  | apply zone_index_nonneg; lia
  | rewrite ?zone_ix, ?Hi1, ?Hi2, ?Hi3 by lia; first [apply mod_ne; lia | apply not_eq_sym, mod_ne; lia] ].

Lemma scatter_spec p0 : exists st', scatter [p0; p1; p2; p3] id st = Some ((), st') /\ Wf st' l /\
  ID_INIT :: contents (_blocks st') l ≡ₚ id :: contents (_blocks st) l.
Proof.
  destruct (saved_cell p1 1) as [w1 H1], (saved_cell p2 2) as [w2 H2], (saved_cell p3 3) as [w3 H3]; [done..|].
  assert (forall (p : nat * Z) w s, read p s = Some (w, s) <-> cell (_blocks s) p = Some w) as Hread.
  { intros p w s. unfold read. run. destruct (cell _ p); split; intros; simplify_eq; done. }
  unfold scatter. run. rewrite (proj2 (Hread p2 w2 st) H2). rewrite Hcur.
  destruct (write_wrote st l (zone_pos c n i 0) ID_INIT w2) as (s1 & -> & HW1 & C1 & P1 & K1 & N1); [done|ix|apply Hzone; lia|].
  assert (cell (_blocks s1) p1 = Some w1) as H1' by (rewrite K1; [done|ix|ix]).
  rewrite (proj2 (Hread p1 w1 s1) H1').
  destruct (write_wrote s1 l p2 w2 w1) as (s2 & -> & HW2 & C2 & P2 & K2 & N2); [done|ix|rewrite K1; [done|ix|ix]|].
  destruct (write_wrote s2 l p1 w1 ID_INIT) as (s3 & -> & HW3 & C3 & P3 & K3 & N3); [done|ix|rewrite K2; [done|ix|ix]|].
  assert (next <$> _blocks s3 !! c = Some (Some n)) as Hn3 by (by rewrite N3, N2, N1).
  destruct (forward_zone s3 l c n i 0) as (s4 & -> & HW4 & B4 & C4); [done|congruence|done|done|lia|lia|].
  destruct (forward_zone s4 l c n i 1) as (s5 & -> & HW5 & B5 & C5); [done|done|by rewrite B4|done|lia|lia|].
  assert (forall q : nat * Z, 0 <= q.2 -> (zone_pos c n i 0).2 <> q.2 -> p2.2 <> q.2 -> p1.2 <> q.2 ->
    cell (_blocks s5) q = cell (_blocks st) q) as K5.
  { intros q ? ? ? ?. by rewrite B5, B4, K3, K2, K1. }
  assert (cell (_blocks s5) p3 = Some w3) as H3' by (rewrite K5; [done|ix..]).
  rewrite (proj2 (Hread p3 w3 s5) H3'). cbn [Z.add] in C5. rewrite C5.
  destruct (write_wrote s5 l (zone_pos c n i (1 + 1)) ID_INIT w3) as (s6 & -> & HW6 & C6 & P6 & K6 & N6);
    [done|ix|rewrite K5 by ix; apply Hzone; lia|].
  destruct (write_wrote s6 l p3 w3 ID_INIT) as (s7 & -> & HW7 & C7 & P7 & K7 & N7); [done|ix|rewrite K6; [done|ix|ix]|].
  destruct (forward_zone s7 l c n i (1 + 1)) as (s8 & -> & HW8 & B8 & C8);
    [done|congruence|by rewrite N7, N6, B5, B4|done|lia|lia|].
  rewrite C8.
  destruct (write_wrote s8 l (zone_pos c n i (1 + 1 + 1)) ID_INIT id) as (s9 & -> & HW9 & C9 & P9 & K9 & N9);
    [done|ix|rewrite B8, K7, K6, K5 by ix; apply Hzone; lia|].
  destruct (forward_spec s9 l HW9) as [-> HW10]. eexists. split; [done|]. split; [done|]. cbn [set_pos _blocks].
  rewrite B8 in P9. rewrite B5, B4 in P6. clear -P1 P2 P3 P6 P7 P9 Id_dec.
  apply (Permutation_count_occ Id_dec). intros x.
  rewrite (Permutation_count_occ Id_dec) in P1, P2, P3, P6, P7, P9.
  specialize (P1 x); specialize (P2 x); specialize (P3 x); specialize (P6 x); specialize (P7 x); specialize (P9 x).
  cbn in *. destruct (Id_dec _ x), (Id_dec w1 x), (Id_dec w2 x), (Id_dec w3 x), (Id_dec id x); lia.
Qed.
End Scatter.

(** ** add() *)

Definition live (exists_ : Id -> bool) (cs : list Id) : list Id := filter (fun v => alive exists_ v = true) cs.

Lemma live_dead exists_ cs : Forall (fun v => alive exists_ v = false) cs -> live exists_ cs = [].
Proof.
  induction 1 as [|v cs Hv _ IH]; [done|]. unfold live in *. rewrite filter_cons_False; [done|]. by rewrite Hv.
Qed.

Lemma alive_init exists_ : alive exists_ ID_INIT = false.
Proof. unfold alive. by rewrite bool_decide_eq_true_2. Qed.

Lemma live_init exists_ k cs : live exists_ (replicate k ID_INIT ++ cs) = live exists_ cs.
Proof.
  unfold live. rewrite filter_app. change (live exists_ (replicate k ID_INIT) ++ live exists_ cs = live exists_ cs).
  rewrite live_dead; [done|]. apply Forall_replicate, alive_init.
Qed.

Lemma live_cons exists_ v cs : live exists_ (v :: cs) = (if alive exists_ v then [v] else []) ++ live exists_ cs.
Proof. unfold live. rewrite filter_cons. destruct (alive exists_ v) eqn:E; by repeat case_decide. Qed.

#[local] Instance live_Permutation exists_ : Proper ((≡ₚ) ==> (≡ₚ)) (live exists_).
Proof. intros cs1 cs2 H. unfold live. by rewrite H. Qed.

Lemma crowded_spec st st1 l exists_ id ps n : Wf st l -> Wf st1 l -> _blocks st1 = _blocks st ->
  length ps = 4%nat -> _cur_index st1 = (_cur_index st + 4) mod BLOCK_SIZE ->
  (forall j p, ps !! j = Some p -> p.1 ∈ l /\ p.2 = (_cur_index st + Z.of_nat j) mod BLOCK_SIZE /\
    exists v, cell (_blocks st) p = Some v /\ alive exists_ v = true) ->
  _blocks st1 !! n = None -> _nblock st1 * BLOCK_SIZE <= MAX_ENTRIES ->
  exists st' l', (insert_block n;; scatter ps id) st1 = Some ((), st') /\ Wf st' l' /\ zlen l' = zlen l + 1 /\
    ID_INIT :: contents (_blocks st') l' ≡ₚ id :: replicate B ID_INIT ++ contents (_blocks st) l.
Proof.
  intros HW HW1 Hb Hl Hi Hps Hn Hcap. destruct ps as [|p0 [|p1 [|p2 [|p3 [|]]]]]; try done.
  destruct (insert_block_spec st1 l n HW1 Hn Hcap) as (st2 & l2 & Hins & HW2 & Hpos & Hc2 & Hsub & Hz & Hnx & Hz1 & Hz2).
  run. rewrite Hins. pose proof (wf_ix _ _ HW1) as Hr.
  destruct (Hps 1%nat p1 eq_refl) as (? & ? & _), (Hps 2%nat p2 eq_refl) as (? & ? & _), (Hps 3%nat p3 eq_refl) as (? & ? & _).
  destruct (scatter_spec st2 l2 (_cur_block st1) n (_cur_index st1) p1 p2 p3 id HW2) with (a := _cur_index st) (p0 := p0)
    as (st3 & Hsc & HW3 & Hc3); auto.
  - rewrite Hpos. unfold zone_pos. rewrite Z.add_0_r. destruct (Z.ltb_spec (_cur_index st1) BLOCK_SIZE); [done|lia].
  - intros m Hm. unfold zone_pos. destruct (Z.ltb_spec (_cur_index st1 + m) BLOCK_SIZE); [apply Hz1|apply Hz2]; lia.
  - exists st3, l2. split; [done|]. split; [done|]. split; [done|].
    by rewrite Hc3, Hc2, Hb.
Qed.

(** The contents after [id] is added to [cs]: it replaces an identifier [d] that
    does not exist, after the list has grown by free positions, or not. *)
Definition added_to (exists_ : Id -> bool) (id : Id) (cs cs' : list Id) : Prop :=
  exists d k, d ∈ ID_INIT :: cs /\ alive exists_ d = false /\ d :: cs' ≡ₚ id :: replicate k ID_INIT ++ cs.

(** What exists later existed when [id] was added. *)
Lemma added_live exists_ later id cs cs' : added_to exists_ id cs cs' ->
  (forall v, v ∈ cs -> alive later v = true -> alive exists_ v = true) ->
  live later cs' ≡ₚ live later (id :: cs).
Proof.
  intros (d & k & Hin & Hd & HP) Hlater. apply (live_Permutation later) in HP.
  assert (alive later d = false) as Ed.
  { apply elem_of_cons in Hin as [->|Hin]; [apply alive_init|]. destruct (alive later d) eqn:E; [|done].
    rewrite (Hlater d) in Hd by done. done. }
  rewrite live_cons, Ed in HP. cbn [app] in HP. by rewrite HP, live_cons, live_init, live_cons.
Qed.

Lemma added_elem exists_ id cs cs' v : added_to exists_ id cs cs' -> v ∈ cs' -> v = id \/ v = ID_INIT \/ v ∈ cs.
Proof.
  intros (d & k & _ & _ & HP) Hv. assert (v ∈ id :: replicate k ID_INIT ++ cs) as H by (rewrite <-HP; by right).
  apply elem_of_cons in H as [H|H]; [by left|]. apply elem_of_app in H as [H|H]; [|by right; right].
  apply elem_of_replicate in H as [-> _]. by right; left.
Qed.

Lemma add_spec exists_ new_ id st l : Wf st l -> (forall n, new_ = Some n -> _blocks st !! n = None) ->
  exists rc st' l', add exists_ new_ id st = Some (rc, st') /\ Wf st' l' /\
    ((rc = 0 /\ added_to exists_ id (contents (_blocks st) l) (contents (_blocks st') l')) \/
     (rc = EAGAIN \/ rc = ENOMEM) /\ l' = l /\ _blocks st' = _blocks st) /\
    (rc = EAGAIN -> MAX_ENTRIES < zlen l * BLOCK_SIZE) /\ (rc = ENOMEM -> new_ = None).
Proof.
  intros HW Hnew. destruct (scan_spec exists_ id 4 st l HW) as (r & st1 & Hs & HW1 & Hnb & Hr).
  unfold add. run. rewrite Hs. destruct r as [ps|].
  2:{ destruct Hr as (v & Hin & Hv & Hc). exists 0, st1, l. split; [done|]. split; [done|]. split; [|done].
      left. split; [done|]. exists v, O. split; [by right|done]. }
  destruct Hr as (Hb & Hl & Hi & Hps).
  assert (u64 (_nblock st1 * BLOCK_SIZE) = zlen l * BLOCK_SIZE) as E.
  { rewrite (wf_nblock _ _ HW1). pose proof (wf_max _ _ HW1). apply wrapu_small. pose proof (zlen_nonneg l). nia. }
  run. rewrite E. destruct (Z.ltb_spec MAX_ENTRIES (zlen l * BLOCK_SIZE)).
  { exists EAGAIN, st1, l. split; [done|]. split; [done|]. split; [|done]. right. split; [by left|done]. }
  destruct new_ as [n|].
  2:{ exists ENOMEM, st1, l. split; [done|]. split; [done|]. split; [|done]. right. split; [by right|done]. }
  destruct (crowded_spec st st1 l exists_ id ps n HW HW1 Hb Hl) as (st' & l' & Hrun & HW' & _ & Hlive); [done|done| | |].
  - rewrite Hb. by apply Hnew.
  - rewrite (wf_nblock _ _ HW1). lia.
  - revert Hrun. run. intros Hrun. destruct (insert_block n st1) as [[[] st2]|]; [|done]. rewrite Hrun.
    exists 0, st', l'. split; [done|]. split; [done|]. split; [|done]. left. split; [done|].
    exists ID_INIT, B. split; [by left|]. split; [apply alive_init|done].
Qed.

(** ** apply() and the destructor *)

Section ApplySpec.
Context {W : Type} (exists_ : W -> Id -> bool) (fn : Id -> W -> option (Id * W)).

Lemma apply_ids_app cs1 cs2 : forall w, apply_ids exists_ fn (cs1 ++ cs2) w =
  ('(cs1, w) ← apply_ids exists_ fn cs1 w; '(cs2, w) ← apply_ids exists_ fn cs2 w; Some (cs1 ++ cs2, w)).
Proof.
  induction cs1 as [|v cs1 IH]; intros w; cbn [app apply_ids].
  - cbn. by destruct (apply_ids exists_ fn cs2 w) as [[]|].
  - cbn. destruct (if _ && _ then _ else _) as [[v' w']|]; [|done]. cbn. rewrite IH.
    destruct (apply_ids exists_ fn cs1 w') as [[cs1' w1]|]; [|done]. cbn.
    by destruct (apply_ids exists_ fn cs2 w1) as [[cs2' w2]|].
Qed.

Lemma apply_ids_length cs : forall w cs' w', apply_ids exists_ fn cs w = Some (cs', w') -> length cs' = length cs.
Proof.
  induction cs as [|v cs IH]; intros w cs' w'; cbn; [by intros [= <- <-]|].
  destruct (if _ && _ then _ else _) as [[v' w1]|]; [|done]. cbn.
  destruct (apply_ids exists_ fn cs w1) as [[cs1 w2]|] eqn:E; [|done]. cbn. intros [= <- <-]. cbn. f_equal. by eapply IH.
Qed.

(** apply() goes over the contents in the order of the chain. *)
Lemma apply_chain_spec l : forall fuel p h w cs w', NoDup l -> links h p l -> (length l <= fuel)%nat ->
  apply_ids exists_ fn (contents h l) w = Some (cs, w') ->
  exists h', apply_chain exists_ fn fuel p h w = Some (h', w') /\ links h' p l /\ contents h' l = cs /\
    (forall a, (fun b => length (ids b)) <$> h' !! a = (fun b => length (ids b)) <$> h !! a) /\
    (forall a, a ∉ l -> h' !! a = h !! a).
Proof.
  induction l as [|a l IH]; intros fuel p h w cs w' Hnd Hl Hf.
  - cbn in Hl. subst p. destruct fuel; cbn; intros [= <- <-]; exists h; by split_and!.
  - destruct Hl as (-> & b & Hb & Hl). destruct fuel as [|fuel]; cbn in Hf; [lia|].
    apply NoDup_cons in Hnd as [Ha Hnd]. unfold contents. cbn [map concat]. fold (contents h l).
    replace (ids_at h a) with (ids b) by (unfold ids_at; by rewrite Hb). rewrite apply_ids_app. intros E.
    destruct (apply_ids exists_ fn (ids b) w) as [[cs1 w1]|] eqn:E1; [|done]. cbn in E.
    destruct (apply_ids exists_ fn (contents h l) w1) as [[cs2 w2]|] eqn:E2; [|done]. cbn in E. injection E as <- <-.
    set (h1 := <[a := mkIdBlock cs1 (next b)]> h).
    destruct (IH fuel (next b) h1 w1 cs2 w2) as (h' & Hr & Hl' & Hc & Hlen & Hout);
      [done|by apply links_frame|lia|unfold h1; by rewrite contents_frame|].
    assert (h' !! a = Some (mkIdBlock cs1 (next b))) as Ha' by (rewrite Hout by done; apply lookup_insert_eq).
    exists h'. cbn. rewrite Hb. cbn. rewrite E1. cbn. fold h1. split; [done|]. split; [|split; [|split]].
    + split; [done|]. by exists (mkIdBlock cs1 (next b)).
    + unfold contents in *. cbn. f_equal; [unfold ids_at; by rewrite Ha'|done].
    + intros x. rewrite Hlen. unfold h1. destruct (decide (a = x)) as [<-|]; [|by rewrite lookup_insert_ne].
      rewrite lookup_insert_eq, Hb. cbn. f_equal. by eapply apply_ids_length.
    + intros x Hx. apply not_elem_of_cons in Hx as [? ?]. rewrite Hout by done. by apply lookup_insert_ne.
Qed.

Lemma chain_size st l : Wf st l -> size (_blocks st) = length l.
Proof.
  intros HW. rewrite <-(size_dom (D := gset nat)). replace (dom (_blocks st)) with (list_to_set l : gset nat).
  - apply size_list_to_set, (wf_nodup _ _ HW).
  - apply set_eq. intros a. by rewrite elem_of_list_to_set, elem_of_dom, (wf_dom _ _ HW).
Qed.

Lemma apply_spec st l w cs w' : Wf st l -> apply_ids exists_ fn (contents (_blocks st) l) w = Some (cs, w') ->
  exists st', apply exists_ fn w st = Some (w', st') /\ Wf st' l /\ contents (_blocks st') l = cs.
Proof.
  intros HW E. destruct (apply_chain_spec l (length l) (Some head_block) (_blocks st) w cs w')
    as (h' & Hr & Hl & Hc & Hlen & Hout); [apply (wf_nodup _ _ HW)|apply (wf_links _ _ HW)|done|done|].
  unfold apply. rewrite (chain_size st l HW), Hr. cbn. eexists. split; [done|]. split; [|done].
  assert (forall a, is_Some (h' !! a) <-> is_Some (_blocks st !! a)) as Hd.
  { intros a. specialize (Hlen a). destruct (h' !! a), (_blocks st !! a); try done; split; intros [? ?]; by eexists. }
  destruct HW. split; cbn; [done|done| | |done..].
  - intros a. by rewrite Hd.
  - intros a b Hb. specialize (Hlen a). rewrite Hb in Hlen. cbn in Hlen.
    destruct (_blocks st !! a) as [b'|] eqn:Hb'; [|done]. cbn in Hlen. injection Hlen as ->. by eapply wf_len0.
Qed.
End ApplySpec.

(** A function that changes nothing and notes what it is given. *)
Definition note (v : Id) (w : list Id) : option (Id * list Id) := Some (v, w ++ [v]).

Lemma apply_note exists_ cs : forall w, apply_ids (fun _ => exists_) note cs w = Some (cs, w ++ live exists_ cs).
Proof.
  induction cs as [|v cs IH]; intros w; [cbn; by rewrite app_nil_r|].
  rewrite live_cons. unfold alive. cbn [apply_ids]. destruct (negb _ && _); cbn; rewrite IH; cbn; [by rewrite <-app_assoc|done].
Qed.

Lemma delete_chain_spec l : forall fuel p h, NoDup l -> links h p l -> (length l <= fuel)%nat ->
  exists h', delete_chain fuel p h = Some h' /\ forall a, h' !! a = if decide (a ∈ l) then None else h !! a.
Proof.
  induction l as [|a l IH]; intros fuel p h Hnd Hl Hf.
  - cbn in Hl. subst p. exists h. destruct fuel; (split; [done|]); intros a; by rewrite decide_False by apply not_elem_of_nil.
  - destruct Hl as (-> & b & Hb & Hl). destruct fuel as [|fuel]; cbn in Hf; [lia|].
    apply NoDup_cons in Hnd as [Ha Hnd]. cbn. rewrite Hb. cbn.
    assert (links (delete a h) (next b) l) as Hl'.
    { clear -Ha Hl. revert Ha Hl. generalize (next b). induction l as [|c l IH]; intros p; cbn; [done|].
      intros Ha (-> & x & Hx & Hl). split; [done|]. exists x. rewrite lookup_delete_ne by set_solver.
      split; [done|]. apply IH; [set_solver|done]. }
    destruct (IH fuel (next b) (delete a h)) as (h' & -> & Hh); [done|done|lia|]. exists h'. split; [done|].
    intros x. rewrite Hh. destruct (decide (x = a)) as [->|Hne].
    + rewrite lookup_delete_eq, (decide_True (P := a ∈ a :: l)) by left. by case_decide.
    + rewrite lookup_delete_ne by done. do 2 case_decide; set_solver.
Qed.

Lemma dtor_spec st l : Wf st l -> exists b, dtor st = Some {[head_block := mkIdBlock b None]}.
Proof.
  intros HW. pose proof (wf_links _ _ HW) as Hl. destruct l as [|a l]; [done|].
  destruct Hl as ([= <-] & b & Hb & Hl). pose proof (wf_nodup _ _ HW) as Hnd. apply NoDup_cons in Hnd as [Ha Hnd].
  destruct (delete_chain_spec l (size (_blocks st)) (next b) (_blocks st)) as (h' & E & Hh); [done|done| |].
  { rewrite (chain_size st _ HW). cbn. lia. }
  unfold dtor. rewrite Hb. cbn. rewrite E. cbn. exists (ids b). f_equal. apply map_eq. intros x.
  destruct (decide (x = head_block)) as [->|Hne]; [by rewrite lookup_insert_eq|].
  rewrite !lookup_insert_ne, lookup_empty, Hh by done. case_decide as Hx; [done|].
  destruct (_blocks st !! x) eqn:Ex; [|done]. exfalso. apply Hx.
  assert (x ∈ head_block :: l) as Hin by (apply (wf_dom _ _ HW); by eexists). set_solver.
Qed.

(** ** Histories

    Identifiers are added, whether or not there is memory for a block, and cease
    to exist, for good.  A run gives the identifiers whose add() returned 0, the
    destroyed ones and the list. *)

Inductive op := Add (id : Id) (memory : bool) | Destroy (id : Id).

Definition exists_in (gone : list Id) (v : Id) : bool := bool_decide (v ∉ gone).

Fixpoint run_ops (os : list op) (added gone : list Id) (st : ListOfABAFreeId Id)
    : option (list Id * list Id * ListOfABAFreeId Id) :=
  match os with
  | [] => Some (added, gone, st)
  | Add id memory :: os =>
      let new_ := if memory then Some (fresh (dom (_blocks st) : gset nat)) else None in
      '(rc, st) ← add (exists_in gone) new_ id st;
      run_ops os (if rc =? 0 then added ++ [id] else added) gone st
  | Destroy id :: os => run_ops os added (id :: gone) st
  end.

Lemma live_app exists_ cs1 cs2 : live exists_ (cs1 ++ cs2) = live exists_ cs1 ++ live exists_ cs2.
Proof. apply filter_app. Qed.

Lemma live_destroy gone id cs : live (exists_in (id :: gone)) cs = filter (fun v => v <> id) (live (exists_in gone) cs).
Proof.
  unfold live, alive, exists_in. rewrite list_filter_filter. apply list_filter_iff. intros v.
  rewrite !andb_true_iff, !bool_decide_eq_true, not_elem_of_cons. tauto.
Qed.

Lemma Wf_ctor : Wf ctor [head_block].
Proof.
  split; cbn; [|by apply NoDup_singleton| | |by left|lia|done|change (zlen [head_block]) with 1; lia].
  - split; [done|]. by exists (mkIdBlock (replicate B ID_INIT) None).
  - intros a. rewrite lookup_insert_is_Some', lookup_empty, list_elem_of_singleton.
    split; [intros [<-|[? ?]]; done|intros ->; by left].
  - intros a b Hb. apply lookup_insert_Some in Hb as [[_ <-]|[_ Hb]]; [apply length_replicate|done].
Qed.

Lemma list_run_ok os : forall added gone st l, Wf st l ->
  live (exists_in gone) (contents (_blocks st) l) ≡ₚ live (exists_in gone) added ->
  exists added' gone' st' l', run_ops os added gone st = Some (added', gone', st') /\ Wf st' l' /\
    live (exists_in gone') (contents (_blocks st') l') ≡ₚ live (exists_in gone') added'.
Proof.
  induction os as [|[id memory|id] os IH]; intros added gone st l HW Hl; cbn [run_ops].
  - by exists added, gone, st, l.
  - set (new_ := if memory then _ else _).
    destruct (add_spec (exists_in gone) new_ id st l HW) as (rc & st' & l' & -> & HW' & Hrc & _).
    { intros n Hn. unfold new_ in Hn. destruct memory; [|done]. injection Hn as <-. apply not_elem_of_dom, is_fresh. }
    cbn. apply (IH _ _ _ l' HW'). destruct Hrc as [[-> Hrc]|(Hrc & -> & ->)].
    + change (0 =? 0) with true. cbn [negb]. rewrite (added_live _ (exists_in gone) _ _ _ Hrc) by done.
      rewrite live_cons, live_app, Hl, live_cons, app_nil_r. apply Permutation_app_comm.
    + by destruct Hrc as [-> | ->].
  - apply (IH _ _ st l HW). rewrite !live_destroy. by rewrite Hl.
Qed.

End Ops.

(** C19. The list after any history: no call is undefined, and apply() goes over
    exactly the identifiers that were added and still exist, each as often as it
    was added, however add() reused, split and scattered the blocks; at most one
    block is allocated above MAX_ENTRIES; and the destructor frees every block
    but the head. *)
Theorem list_keeps_existing_ids {Id} {Id_dec : EqDecision Id} BLOCK_SIZE MAX_ENTRIES (ID_INIT : Id) os :
  8 <= BLOCK_SIZE -> 0 <= MAX_ENTRIES -> MAX_ENTRIES + 2 * BLOCK_SIZE < 2 ^ 32 ->
  exists added gone st,
    run_ops BLOCK_SIZE MAX_ENTRIES ID_INIT os [] [] (ctor BLOCK_SIZE ID_INIT) = Some (added, gone, st) /\
    (exists visited st', apply ID_INIT (fun _ => exists_in gone) note [] st = Some (visited, st') /\
      visited ≡ₚ filter (fun v => v <> ID_INIT /\ v ∉ gone) added) /\
    (Z.of_nat (size (_blocks st)) - 1) * BLOCK_SIZE <= MAX_ENTRIES /\
    (exists b, dtor st = Some {[head_block := mkIdBlock b None]}).
Proof.
  intros Hbs Hmax Hsmall.
  assert (Wf BLOCK_SIZE MAX_ENTRIES (ctor BLOCK_SIZE ID_INIT) [head_block]) as H0 by (apply Wf_ctor; lia).
  destruct (list_run_ok BLOCK_SIZE MAX_ENTRIES ID_INIT Hbs Hmax Hsmall os [] [] _ _ H0) as (added & gone & st & l & Hr & HW & Hl).
  { rewrite live_dead; [done|]. unfold contents, ids_at. cbn. rewrite app_nil_r. apply Forall_replicate, alive_init. }
  exists added, gone, st. split; [done|]. split; [|split].
  - destruct (apply_spec BLOCK_SIZE MAX_ENTRIES ID_INIT (fun _ => exists_in gone) note st l [] _ _ HW (apply_note ID_INIT (exists_in gone) _ []))
      as (st' & Ha & HW' & Hc).
    exists (live ID_INIT (exists_in gone) (contents (_blocks st) l)), st'. split; [done|].
    rewrite Hl. unfold live, alive, exists_in. erewrite list_filter_iff; [done|]. intros v. cbn.
    rewrite andb_true_iff, negb_true_iff, bool_decide_eq_false, bool_decide_eq_true. tauto.
  - rewrite (chain_size BLOCK_SIZE MAX_ENTRIES st l HW). apply (wf_max _ _ _ _ HW).
  - by eapply dtor_spec.
Qed.

(** Sixty-four positions fill up with identifiers that stay, which makes the list
    grow and then refuse; the even ones are destroyed and replaced. *)
Definition sample_ops : list (op (Id := Z)) :=
  map (fun i => Add (Z.of_nat i) true) (seq 1 70) ++ map (fun i => Destroy (2 * Z.of_nat i)) (seq 1 35)
  ++ map (fun i => Add (100 + Z.of_nat i) false) (seq 1 20).

Theorem list_keeps_existing_ids_witness :
  exists added gone st,
    run_ops 8 64 0 sample_ops [] [] (ctor 8 0) = Some (added, gone, st) /\
    (exists visited st', apply 0 (fun _ => exists_in gone) note [] st = Some (visited, st') /\
      visited ≡ₚ filter (fun v => v <> 0 /\ v ∉ gone) added) /\
    (Z.of_nat (size (_blocks st)) - 1) * 8 <= 64 /\
    (exists b, dtor st = Some {[head_block := mkIdBlock b None]}).
Proof. apply (list_keeps_existing_ids 8 64 0 sample_ops); lia. Defined.

Example sample_run :
  (r ← run_ops 8 64 0 sample_ops [] [] (ctor 8 0);
   Some (length r.1.1, size (_blocks r.2))) = Some (86%nat, 9%nat).
Proof. vm_compute. reflexivity. Qed.

End AbaFreeList.
