(* ===== verification/BoundedQueue.v ===== *)
(** * BoundedQueue: the ring buffer of utility/containers/bounded_queue.h

    [BoundedQueue T] has the fields of the class; [_items] is the raw memory, a
    slot being [Some v] while an object is constructed in it.  Every operation
    returns [None] where the C++ would touch memory it must not touch (a NULL
    buffer, a slot out of range or without an object, the endless loop of
    [_mod] with capacity 0).  [repr q l] says that [q] is a well formed queue
    whose items are [l], top first; each operation is shown to implement the
    operation on lists. *)

From S2P Require Import Prelude.

Module BoundedQueue.

Inductive StorageOwnership := OWNS_STORAGE | NOT_OWN_STORAGE.

Record BoundedQueue (T : Type) := mkQueue {
  _count : Z;
  _cap : Z;
  _start : Z;
  _ownership : StorageOwnership;
  _items : option (list (option T)) }.
Arguments mkQueue {T}.
Arguments _count {T}.
Arguments _cap {T}.
Arguments _start {T}.
Arguments _ownership {T}.
Arguments _items {T}.

(** The subtraction loop of [_mod]; the fuel is the exact number of loop
    tests. *)
Fixpoint _mod_loop (fuel : nat) (off cap : Z) : option Z :=
  match fuel with
  | O => None
  | S n => if cap <=? off then _mod_loop n (off - cap) cap else Some off
  end.

Definition _mod (off cap : Z) : option Z :=
  _mod_loop (S (Z.to_nat (off / cap))) off cap.
Arguments _mod : simpl never.

Section Queue.
Context {T : Type} (T_default : T).

Implicit Types q : BoundedQueue T.

(** Constructors.  [malloc] is the C library's: it returns the (raw) slots
    or NULL. *)
Definition BoundedQueue_mem (mem : option (list (option T)))
    (memsize sizeof_T : Z) (ownership : StorageOwnership) : BoundedQueue T :=
  mkQueue 0 (u32 (memsize / sizeof_T)) 0 ownership mem.

Definition BoundedQueue_cap (malloc : Z -> option (list (option T)))
    (capacity : Z) : BoundedQueue T :=
  mkQueue 0 (u32 capacity) 0 OWNS_STORAGE (malloc capacity).

Definition BoundedQueue_empty : BoundedQueue T :=
  mkQueue 0 0 0 NOT_OWN_STORAGE None.

(** Memory accesses. *)
Definition construct_at (ix : Z) (v : T) q : option (BoundedQueue T) :=
  m ← _items q;
  if decide (Z.to_nat ix < length m)%nat then
    Some (mkQueue (_count q) (_cap q) (_start q) (_ownership q)
            (Some (<[Z.to_nat ix := Some v]> m)))
  else None.

Definition destroy_at (ix : Z) q : option (BoundedQueue T) :=
  m ← _items q;
  match m !! Z.to_nat ix with
  | Some (Some _) =>
      Some (mkQueue (_count q) (_cap q) (_start q) (_ownership q)
              (Some (<[Z.to_nat ix := None]> m)))
  | _ => None
  end.

Definition read_at (ix : Z) q : option T :=
  m ← _items q;
  match m !! Z.to_nat ix with Some (Some v) => Some v | _ => None end.

Definition set_count (c : Z) q :=
  mkQueue (u32 c) (_cap q) (_start q) (_ownership q) (_items q).
Definition set_start (s : Z) q :=
  mkQueue (_count q) (_cap q) s (_ownership q) (_items q).

Definition push (item : T) q : option (bool * BoundedQueue T) :=
  if _count q <? _cap q then
    ix ← _mod (u32 (_start q + _count q)) (_cap q);
    q ← construct_at ix item q;
    Some (true, set_count (_count q + 1) q)
  else Some (false, q).

Definition elim_push (item : T) q : option (BoundedQueue T) :=
  if _count q <? _cap q then
    ix ← _mod (u32 (_start q + _count q)) (_cap q);
    q ← construct_at ix item q;
    Some (set_count (_count q + 1) q)
  else
    _ ← read_at (_start q) q;
    q ← construct_at (_start q) item q;
    s ← _mod (u32 (_start q + 1)) (_cap q);
    Some (set_start s q).

(** push() of a default-constructed item; the result is the slot. *)
Definition push_new q : option (option Z * BoundedQueue T) :=
  if _count q <? _cap q then
    ix ← _mod (u32 (_start q + _count q)) (_cap q);
    q ← construct_at ix T_default (set_count (_count q + 1) q);
    Some (Some ix, q)
  else Some (None, q).

Definition push_top (item : T) q : option (bool * BoundedQueue T) :=
  if _count q <? _cap q then
    let s := if negb (_start q =? 0) then _start q - 1 else _cap q - 1 in
    let q := set_count (_count q + 1) (set_start s q) in
    q ← construct_at s item q;
    Some (true, q)
  else Some (false, q).

Definition push_top_new q : option (option Z * BoundedQueue T) :=
  if _count q <? _cap q then
    let s := if negb (_start q =? 0) then _start q - 1 else _cap q - 1 in
    let q := set_count (_count q + 1) (set_start s q) in
    q ← construct_at s T_default q;
    Some (Some s, q)
  else Some (None, q).

Definition pop q : option (bool * BoundedQueue T) :=
  if negb (_count q =? 0) then
    let q := set_count (_count q - 1) q in
    q ← destroy_at (_start q) q;
    s ← _mod (u32 (_start q + 1)) (_cap q);
    Some (true, set_start s q)
  else Some (false, q).

(** pop(T* item) *)
Definition pop_item q : option (option T * BoundedQueue T) :=
  if negb (_count q =? 0) then
    let q := set_count (_count q - 1) q in
    v ← read_at (_start q) q;
    q ← destroy_at (_start q) q;
    s ← _mod (u32 (_start q + 1)) (_cap q);
    Some (Some v, set_start s q)
  else Some (None, q).

Definition pop_bottom q : option (bool * BoundedQueue T) :=
  if negb (_count q =? 0) then
    let q := set_count (_count q - 1) q in
    ix ← _mod (u32 (_start q + _count q)) (_cap q);
    q ← destroy_at ix q;
    Some (true, q)
  else Some (false, q).

Definition pop_bottom_item q : option (option T * BoundedQueue T) :=
  if negb (_count q =? 0) then
    let q := set_count (_count q - 1) q in
    ix ← _mod (u32 (_start q + _count q)) (_cap q);
    v ← read_at ix q;
    q ← destroy_at ix q;
    Some (Some v, q)
  else Some (None, q).

(** The destructor loop of clear(): [n] iterations left, [i] the counter. *)
Fixpoint clear_loop (n : nat) (i : Z) q : option (BoundedQueue T) :=
  match n with
  | O => Some q
  | S n =>
      ix ← _mod (u32 (_start q + i)) (_cap q);
      q ← destroy_at ix q;
      clear_loop n (i + 1) q
  end.

Definition clear q : option (BoundedQueue T) :=
  q ← clear_loop (Z.to_nat (_count q)) 0 q;
  Some (set_start 0 (set_count 0 q)).

(** top() and bottom(): the inner option is the NULL pointer. *)
Definition top q : option (option T) :=
  if negb (_count q =? 0) then v ← read_at (_start q) q; Some (Some v)
  else Some None.

Definition top_at (index : Z) q : option (option T) :=
  if index <? _count q then
    ix ← _mod (u32 (_start q + index)) (_cap q);
    v ← read_at ix q; Some (Some v)
  else Some None.

Definition bottom q : option (option T) :=
  if negb (_count q =? 0) then
    ix ← _mod (u32 (_start q + _count q - 1)) (_cap q);
    v ← read_at ix q; Some (Some v)
  else Some None.

Definition bottom_at (index : Z) q : option (option T) :=
  if index <? _count q then
    ix ← _mod (u32 (_start q + _count q - index - 1)) (_cap q);
    v ← read_at ix q; Some (Some v)
  else Some None.

Definition empty q : bool := _count q =? 0.
Definition full q : bool := _cap q =? _count q.
Definition size q : Z := _count q.
Definition capacity q : Z := _cap q.
Definition max_capacity : Z := 2 ^ 32 - 1.
Definition initialized q : bool :=
  match _items q with Some _ => true | None => false end.

Definition swap q1 q2 : BoundedQueue T * BoundedQueue T := (q2, q1).

(** ** The abstraction *)

(** Capacities up to 2^31 keep [_start + _count] inside 32 bits. *)
Record repr q (l : list T) : Prop := mkRepr {
  repr_mem : exists m, _items q = Some m /\ zlen m = _cap q /\
                       Ring m (_start q) (Some <$> l);
  repr_count : _count q = zlen l;
  repr_cap : _cap q <= 2 ^ 31 }.
End Queue.
Arguments construct_at : simpl never.
Arguments destroy_at : simpl never.
Arguments read_at : simpl never.

(** ** The loop of [_mod] *)

Lemma _mod_loop_spec fuel off cap :
  0 < cap -> 0 <= off -> off / cap < Z.of_nat fuel ->
  _mod_loop fuel off cap = Some (off mod cap).
Proof.
  revert off. induction fuel as [|n IH]; intros off Hc Ho Hf.
  - pose proof (Z.div_pos off cap). lia.
  - cbn [_mod_loop]. destruct (Z.leb_spec cap off).
    + assert (off = (off - cap) + 1 * cap) as E by lia.
      rewrite IH; [|lia..|].
      * f_equal. rewrite E at 2. by rewrite Z_mod_plus_full.
      * rewrite E in Hf. rewrite Z_div_plus_full in Hf by lia. lia.
    + f_equal. symmetry. apply Z.mod_small. lia.
Qed.

Lemma _mod_spec off cap : 0 < cap -> 0 <= off -> _mod off cap = Some (off mod cap).
Proof.
  intros. apply _mod_loop_spec; [done..|].
  pose proof (Z.div_pos off cap). lia.
Qed.

(** ** Each operation implements the one on lists *)

Section Refinement.
Context {T : Type} (T_default : T).
Implicit Types (q : BoundedQueue T) (l : list T).

(** The slot of the [i]-th item. *)
Lemma slot_ix q l m i z :
  repr q l -> _items q = Some m -> 0 <= i <= zlen l -> 0 < _cap q ->
  z = _start q + i ->
  exists ix, _mod (u32 z) (_cap q) = Some ix /\
             Z.to_nat ix = ring_ix m (_start q) (Z.to_nat i).
Proof.
  intros [(m' & Hm' & Hlen & HR) Hc Hcap] Hm Hi Hp ->. assert (m' = m) as -> by congruence.
  pose proof (ring_start _ _ _ HR) as Hs. pose proof (ring_fits _ _ _ HR) as Hf.
  rewrite length_fmap in Hf. unfold zlen in *.
  rewrite wrapu_small by lia. rewrite _mod_spec by lia.
  eexists; split; [done|]. unfold ring_ix, zlen. rewrite Hlen, Z2Nat.id by lia.
  done.
Qed.

(** The slot of a live item holds that item. *)
Lemma slot_live q l m i v :
  repr q l -> _items q = Some m -> l !! i = Some v ->
  m !! ring_ix m (_start q) i = Some (Some v).
Proof.
  intros [(m' & Hm' & _ & HR) _ _] Hm Hi. assert (m' = m) as -> by congruence.
  apply (ring_at _ _ _ HR). by rewrite list_lookup_fmap, Hi.
Qed.

Lemma repr_len q l : repr q l -> zlen l <= _cap q.
Proof.
  intros [(m & Hm & Hlen & HR) _ _]. pose proof (ring_fits _ _ _ HR) as Hf.
  rewrite length_fmap in Hf. unfold zlen in *. lia.
Qed.

Lemma repr_start0 q l : repr q l -> 0 < _cap q -> 0 <= _start q < _cap q.
Proof.
  intros [(m & Hm & Hlen & HR) _ _] ?. pose proof (ring_start _ _ _ HR). lia.
Qed.

Lemma ring_ix_0 (m : list (option T)) s :
  0 <= s < zlen m -> ring_ix m s 0 = Z.to_nat s.
Proof. intros. unfold ring_ix. rewrite Z.mod_small by lia. f_equal. lia. Qed.

(** Writing one past the last item, and counting it. *)
Lemma repr_snoc q l m v ix :
  repr q l -> _items q = Some m -> zlen l < _cap q ->
  ix = ring_ix m (_start q) (Z.to_nat (zlen l)) ->
  repr (mkQueue (u32 (_count q + 1)) (_cap q) (_start q) (_ownership q)
          (Some (<[ix := Some v]> m))) (l ++ [v]).
Proof.
  intros [(m' & Hm' & Hlen & HR) Hc Hcap] Hm Hlt ->. assert (m' = m) as -> by congruence.
  split; cbn; [|rewrite zlen_app, wrapu_small; unfold zlen in *; cbn; lia|done].
  eexists; split; [done|]. split.
  { unfold zlen in *. rewrite length_insert. done. }
  rewrite fmap_app. cbn. unfold zlen at 1. rewrite Nat2Z.id.
  replace (length l) with (length (Some <$> l)) by apply length_fmap.
  apply Ring_snoc; [done|]. rewrite length_fmap. unfold zlen in *. lia.
Qed.

(** Dropping the first item. *)
Lemma repr_tail q x l m :
  repr q (x :: l) -> _items q = Some m ->
  repr (mkQueue (u32 (_count q - 1)) (_cap q) ((_start q + 1) mod _cap q)
          (_ownership q) (Some (<[Z.to_nat (_start q) := None]> m))) l.
Proof.
  intros HR0 Hm. pose proof (repr_len _ _ HR0) as Hle.
  destruct HR0 as [(m' & Hm' & Hlen & HR) Hc Hcap].
  assert (m' = m) as -> by congruence.
  rewrite zlen_cons in *. pose proof (zlen_nonneg l).
  pose proof (ring_start _ _ _ HR) as Hs.
  split; cbn; [|rewrite wrapu_small by lia; lia|done].
  eexists; split; [done|]. split.
  { unfold zlen in *. rewrite length_insert. done. }
  rewrite fmap_cons in HR.
  pose proof (Ring_tail _ _ _ _ HR) as HT. rewrite Hlen in HT.
  split.
  - unfold zlen in *. rewrite length_insert. apply HT.
  - rewrite length_insert. apply HT.
  - intros i y Hy. rewrite ring_ix_insert.
    rewrite list_lookup_insert_ne; [by apply HT|].
    rewrite <-(ring_ix_0 m) by lia. rewrite <-Hlen, ring_ix_step by lia.
    intros E. apply ring_ix_inj in E; [done|unfold zlen in *; lia|].
    pose proof (lookup_lt_Some _ _ _ Hy) as Hy'. rewrite length_fmap in Hy'.
    pose proof (ring_fits _ _ _ HR). cbn in *. rewrite length_fmap in *. lia.
Qed.

(** Dropping the last item. *)
Lemma repr_init q l x m ix :
  repr q (l ++ [x]) -> _items q = Some m ->
  ix = ring_ix m (_start q) (length l) ->
  repr (mkQueue (u32 (_count q - 1)) (_cap q) (_start q)
          (_ownership q) (Some (<[ix := None]> m))) l.
Proof.
  intros HR0 Hm ->. pose proof (repr_len _ _ HR0) as Hle.
  destruct HR0 as [(m' & Hm' & Hlen & HR) Hc Hcap].
  assert (m' = m) as -> by congruence.
  rewrite zlen_app in *. cbn in *. pose proof (zlen_nonneg l).
  split; cbn; [|rewrite wrapu_small; unfold zlen in *; cbn in *; lia|done].
  eexists; split; [done|]. split.
  { unfold zlen in *. rewrite length_insert. done. }
  rewrite fmap_app in HR. pose proof (Ring_prefix _ _ _ _ HR) as HT.
  split.
  - unfold zlen in *. rewrite length_insert. apply HT.
  - rewrite length_insert. apply HT.
  - intros i y Hy. rewrite ring_ix_insert.
    rewrite list_lookup_insert_ne; [by apply HT|].
    pose proof (lookup_lt_Some _ _ _ Hy) as Hy'. rewrite length_fmap in Hy'.
    intros E. apply ring_ix_inj in E; unfold zlen in *; cbn in *; lia.
Qed.
End Refinement.

(** ** The queue as an object with a list behind it *)

(** One call of the public interface. *)
Inductive op (T : Type) :=
| Push (v : T) | ElimPush (v : T) | PushNew | PushTop (v : T) | PushTopNew
| Pop | PopItem | PopBottom | PopBottomItem | Clear
| Top | TopAt (i : Z) | Bottom | BottomAt (i : Z) | Empty | Full | Size.
Arguments Push {T}. Arguments ElimPush {T}. Arguments PushNew {T}.
Arguments PushTop {T}. Arguments PushTopNew {T}. Arguments Pop {T}.
Arguments PopItem {T}. Arguments PopBottom {T}. Arguments PopBottomItem {T}.
Arguments Clear {T}. Arguments Top {T}. Arguments TopAt {T}.
Arguments Bottom {T}. Arguments BottomAt {T}. Arguments Empty {T}.
Arguments Full {T}. Arguments Size {T}.

(** What the call returns: an item pointer is read through. *)
Inductive res (T : Type) := RUnit | RBool (b : bool) | RItem (v : option T) | RNum (n : Z).
Arguments RUnit {T}. Arguments RBool {T}. Arguments RItem {T}. Arguments RNum {T}.

Section Interface.
Context {T : Type} (T_default : T).

Definition exec (o : op T) (q : BoundedQueue T) : option (res T * BoundedQueue T) :=
  match o with
  | Push v => '(b, q) ← push v q; Some (RBool b, q)
  | ElimPush v => q ← elim_push v q; Some (RUnit, q)
  | PushNew => '(p, q) ← push_new T_default q;
      match p with
      | Some ix => v ← read_at ix q; Some (RItem (Some v), q)
      | None => Some (RItem None, q)
      end
  | PushTop v => '(b, q) ← push_top v q; Some (RBool b, q)
  | PushTopNew => '(p, q) ← push_top_new T_default q;
      match p with
      | Some ix => v ← read_at ix q; Some (RItem (Some v), q)
      | None => Some (RItem None, q)
      end
  | Pop => '(b, q) ← pop q; Some (RBool b, q)
  | PopItem => '(v, q) ← pop_item q; Some (RItem v, q)
  | PopBottom => '(b, q) ← pop_bottom q; Some (RBool b, q)
  | PopBottomItem => '(v, q) ← pop_bottom_item q; Some (RItem v, q)
  | Clear => q ← clear q; Some (RUnit, q)
  | Top => v ← top q; Some (RItem v, q)
  | TopAt i => v ← top_at i q; Some (RItem v, q)
  | Bottom => v ← bottom q; Some (RItem v, q)
  | BottomAt i => v ← bottom_at i q; Some (RItem v, q)
  | Empty => Some (RBool (empty q), q)
  | Full => Some (RBool (full q), q)
  | Size => Some (RNum (size q), q)
  end.

(** The specification: a list of at most [cap] items, top first. *)
Definition spec (cap : Z) (o : op T) (l : list T) : res T * list T :=
  let room := bool_decide (zlen l < cap) in
  match o with
  | Push v => if room then (RBool true, l ++ [v]) else (RBool false, l)
  | ElimPush v => (RUnit, if room then l ++ [v] else tail l ++ [v])
  | PushNew =>
      if room then (RItem (Some T_default), l ++ [T_default]) else (RItem None, l)
  | PushTop v => if room then (RBool true, v :: l) else (RBool false, l)
  | PushTopNew =>
      if room then (RItem (Some T_default), T_default :: l) else (RItem None, l)
  | Pop => match l with [] => (RBool false, []) | _ :: l => (RBool true, l) end
  | PopItem => match l with [] => (RItem None, []) | v :: l => (RItem (Some v), l) end
  | PopBottom =>
      match l with [] => (RBool false, []) | _ => (RBool true, removelast l) end
  | PopBottomItem => (RItem (last l), removelast l)
  | Clear => (RUnit, [])
  | Top => (RItem (head l), l)
  | TopAt i => (RItem (l !! Z.to_nat i), l)
  | Bottom => (RItem (last l), l)
  | BottomAt i => (RItem (reverse l !! Z.to_nat i), l)
  | Empty => (RBool (bool_decide (l = [])), l)
  | Full => (RBool (bool_decide (zlen l = cap)), l)
  | Size => (RNum (zlen l), l)
  end.

Fixpoint exec_all (os : list (op T)) (q : BoundedQueue T)
  : option (list (res T) * BoundedQueue T) :=
  match os with
  | [] => Some ([], q)
  | o :: os => '(r, q) ← exec o q; '(rs, q) ← exec_all os q; Some (r :: rs, q)
  end.

Fixpoint spec_all (cap : Z) (os : list (op T)) (l : list T)
  : list (res T) * list T :=
  match os with
  | [] => ([], l)
  | o :: os =>
      let '(r, l) := spec cap o l in
      let '(rs, l) := spec_all cap os l in (r :: rs, l)
  end.

(** Index arguments are [size_t]s. *)
Definition op_ok (o : op T) : Prop :=
  match o with TopAt i | BottomAt i => 0 <= i | _ => True end.

Implicit Types (q : BoundedQueue T) (l : list T).

(** The refinement of one call, as a predicate on its outcome. *)
Definition implements (q : BoundedQueue T) (out : option (res T * BoundedQueue T))
    (sp : res T * list T) : Prop :=
  exists q', out = Some (sp.1, q') /\ _cap q' = _cap q /\ repr q' sp.2.

Lemma room_true q l : repr q l -> zlen l < _cap q -> (_count q <? _cap q) = true.
Proof. intros HR ?. rewrite (repr_count _ _ HR). lia. Qed.

Lemma room_false q l : repr q l -> ~ zlen l < _cap q -> (_count q <? _cap q) = false.
Proof. intros HR ?. rewrite (repr_count _ _ HR). lia. Qed.

Ltac get_mem HR m :=
  let Hm := fresh "Hm" in let Hl := fresh "Hlen" in let H := fresh "HRing" in
  pose proof (repr_mem _ _ HR) as (m & Hm & Hl & H);
  pose proof (repr_len _ _ HR); pose proof (repr_count _ _ HR);
  pose proof (repr_cap _ _ HR).

Lemma construct_at_ok q m v ix :
  _items q = Some m -> (Z.to_nat ix < length m)%nat ->
  construct_at ix v q =
    Some (mkQueue (_count q) (_cap q) (_start q) (_ownership q)
            (Some (<[Z.to_nat ix := Some v]> m))).
Proof. intros Hm Hlt. unfold construct_at. rewrite Hm. cbn. by rewrite decide_True. Qed.

Lemma read_at_ok q m v ix :
  _items q = Some m -> m !! Z.to_nat ix = Some (Some v) -> read_at ix q = Some v.
Proof. intros Hm Hv. unfold read_at. rewrite Hm. cbn. by rewrite Hv. Qed.

Lemma destroy_at_ok q m v ix :
  _items q = Some m -> m !! Z.to_nat ix = Some (Some v) ->
  destroy_at ix q =
    Some (mkQueue (_count q) (_cap q) (_start q) (_ownership q)
            (Some (<[Z.to_nat ix := None]> m))).
Proof. intros Hm Hv. unfold destroy_at. rewrite Hm. cbn. by rewrite Hv. Qed.

(** The shared "push at the bottom" step. *)
Lemma q_push_back_ok q l v :
  repr q l -> 0 < _cap q -> zlen l < _cap q ->
  exists ix q', _mod (u32 (_start q + _count q)) (_cap q) = Some ix /\
    construct_at ix v q = Some q' /\
    construct_at ix v (set_count (_count q + 1) q) =
      Some (set_count (_count q' + 1) q') /\
    read_at ix (set_count (_count q' + 1) q') = Some v /\
    _cap q' = _cap q /\ repr (set_count (_count q' + 1) q') (l ++ [v]).
Proof.
  intros HR Hp Hlt. get_mem HR m.
  destruct (slot_ix q l m (zlen l) (_start q + _count q)) as (ix & Hix & Hn);
    [done|done|pose proof (zlen_nonneg l); lia|done|lia|].
  assert (Z.to_nat ix < length m)%nat as Hb.
  { rewrite Hn. apply ring_ix_lt. lia. }
  exists ix; eexists; split; [done|].
  rewrite (construct_at_ok q m) by done. split; [done|].
  rewrite (construct_at_ok _ m) by done. split; [done|].
  split; [|split; [done|by apply (repr_snoc q)]].
  eapply read_at_ok; [done|]. by apply list_lookup_insert_eq.
Qed.

(** The shared "push at the top" step. *)
Lemma push_front_ok q l v s :
  repr q l -> 0 < _cap q -> zlen l < _cap q ->
  s = (if negb (_start q =? 0) then _start q - 1 else _cap q - 1) ->
  exists q', construct_at s v (set_count (_count q + 1) (set_start s q)) = Some q' /\
    read_at s q' = Some v /\ _cap q' = _cap q /\ repr q' (v :: l).
Proof.
  intros HR Hp Hlt ->. get_mem HR m. pose proof (zlen_nonneg l).
  assert ((length (Some <$> l) < length m)%nat) as Hr
    by (rewrite length_fmap; unfold zlen in *; lia).
  pose proof (Ring_cons m (_start q) (Some <$> l) (Some v) HRing Hr) as HC.
  cbn zeta in HC. rewrite Hlen in HC.
  replace (if negb (_start q =? 0) then _start q - 1 else _cap q - 1)
    with (if _start q =? 0 then _cap q - 1 else _start q - 1)
    by (destruct (_start q =? 0); reflexivity).
  set (s := if _start q =? 0 then _cap q - 1 else _start q - 1) in *.
  assert (Z.to_nat s < length m)%nat as Hb.
  { pose proof (repr_start0 _ _ HR Hp). unfold zlen in *.
    unfold s. destruct (Z.eqb_spec (_start q) 0); lia. }
  eexists; split; [by apply construct_at_ok|].
  split; [eapply read_at_ok; [done|]; by apply list_lookup_insert_eq|].
  split; [done|]. split; cbn; [|rewrite zlen_cons, wrapu_small; lia|done].
  eexists; split; [done|]. split; [|done].
  unfold zlen in *. by rewrite length_insert.
Qed.

(** The shared "pop at the top" step. *)
Lemma q_pop_front_ok q x l :
  repr q (x :: l) ->
  exists q' s, read_at (_start q) (set_count (_count q - 1) q) = Some x /\
    destroy_at (_start q) (set_count (_count q - 1) q) = Some q' /\
    _mod (u32 (_start q' + 1)) (_cap q') = Some s /\
    _cap (set_start s q') = _cap q /\ repr (set_start s q') l.
Proof.
  intros HR. get_mem HR m. pose proof (zlen_nonneg l). rewrite zlen_cons in *.
  pose proof (repr_start0 _ _ HR ltac:(lia)).
  pose proof (slot_live q _ m 0 x HR Hm eq_refl) as Hx.
  rewrite ring_ix_0 in Hx by lia.
  eexists _, _. split; [by eapply read_at_ok|].
  split; [by eapply destroy_at_ok|]. cbn.
  rewrite wrapu_small, _mod_spec by lia. split; [done|]. split; [done|].
  by apply (repr_tail q x).
Qed.

(** The shared "pop at the bottom" step. *)
Lemma q_pop_back_ok q x l :
  repr q (l ++ [x]) ->
  exists q' ix, _mod (u32 (_start q + _count (set_count (_count q - 1) q))) (_cap q)
      = Some ix /\
    read_at ix (set_count (_count q - 1) q) = Some x /\
    destroy_at ix (set_count (_count q - 1) q) = Some q' /\
    _cap q' = _cap q /\ repr q' l.
Proof.
  intros HR. get_mem HR m. pose proof (zlen_nonneg l).
  pose proof (repr_init q l x m _ HR Hm eq_refl) as HI.
  rewrite zlen_app in *. cbn in *.
  assert (zlen [x] = 1) as E1 by done. rewrite E1 in *.
  destruct (slot_ix q _ m (zlen l) (_start q + u32 (_count q - 1)) HR Hm)
    as (ix & Hix & Hn).
  { rewrite zlen_app, E1. lia. } { lia. }
  { rewrite wrapu_small by lia. lia. }
  assert (Z.to_nat (zlen l) = length l) as El by (unfold zlen; lia).
  rewrite El in Hn.
  assert (m !! Z.to_nat ix = Some (Some x)) as Hx.
  { rewrite Hn. eapply slot_live; [done|done|]. by apply list_lookup_middle. }
  eexists _, ix. split; [done|]. split; [by eapply read_at_ok|].
  split; [by eapply destroy_at_ok|]. split; [done|]. cbn. by rewrite Hn.
Qed.

(** Reading the [i]-th item from the top. *)
Lemma read_nth q l i z x :
  repr q l -> 0 <= i -> l !! Z.to_nat i = Some x ->
  u32 z = u32 (_start q + i) ->
  exists ix, _mod (u32 z) (_cap q) = Some ix /\ read_at ix q = Some x.
Proof.
  intros HR Hi Hx ->. get_mem HR m.
  pose proof (lookup_lt_Some _ _ _ Hx). unfold zlen in *.
  destruct (slot_ix q l m i (_start q + i) HR Hm) as (ix & Hix & Hn);
    [unfold zlen; lia|lia|done|].
  exists ix. split; [done|]. eapply read_at_ok; [done|].
  rewrite Hn. by eapply slot_live.
Qed.

(** clear() destroys each item once and resets the window. *)
Lemma clear_loop_ok q l k n :
  repr q l -> (k + n = length l)%nat ->
  forall m, _items q = Some m ->
  forall m', (forall i, (k <= i < length l)%nat ->
    m' !! ring_ix m (_start q) i = m !! ring_ix m (_start q) i) ->
  length m' = length m ->
  exists m'', clear_loop n (Z.of_nat k)
      (mkQueue (_count q) (_cap q) (_start q) (_ownership q) (Some m'))
    = Some (mkQueue (_count q) (_cap q) (_start q) (_ownership q) (Some m'')) /\
    length m'' = length m.
Proof.
  intros HR. revert k. induction n as [|n IH]; intros k Hk m Hm m' Hsame Hl.
  { exists m'. done. }
  cbn [clear_loop _start _cap].
  destruct (slot_ix q l m (Z.of_nat k) (_start q + Z.of_nat k) HR Hm)
    as (ix & Hix & Hn); [unfold zlen; lia| |done|].
  { pose proof (repr_len _ _ HR). unfold zlen in *. lia. }
  rewrite Hix. cbn. rewrite Nat2Z.id in Hn.
  destruct (lookup_lt_is_Some_2 l k ltac:(lia)) as [x Hx].
  erewrite (destroy_at_ok _ m') by (done ||
    (rewrite Hn, Hsame by lia; by eapply slot_live)).
  cbn. replace (Z.of_nat k + 1) with (Z.of_nat (S k)) by lia.
  apply (IH (S k) ltac:(lia) m Hm); [|by rewrite length_insert].
  intros i Hi. rewrite Hn, list_lookup_insert_ne; [apply Hsame; lia|].
  pose proof (repr_mem _ _ HR) as (m0 & ? & _ & HRing).
  assert (m0 = m) as -> by congruence.
  pose proof (ring_fits _ _ _ HRing) as Hf. rewrite length_fmap in Hf.
  intros E. apply ring_ix_inj in E; lia.
Qed.

Lemma clear_ok q l : repr q l -> exists q', clear q = Some q' /\
  _cap q' = _cap q /\ repr q' [].
Proof.
  intros HR. get_mem HR m. unfold clear.
  destruct (clear_loop_ok q l 0 (length l) HR eq_refl m Hm m) as (m'' & E & El);
    [done|done|].
  replace (Z.to_nat (_count q)) with (length l) by (unfold zlen in *; lia).
  destruct q as [c cp st ow it]; cbn in *. subst it. change (Z.of_nat 0) with 0 in E. rewrite E. cbn.
  eexists; split; [done|]. split; [done|]. split; cbn; [|done|done].
  eexists; split; [done|]. split; [unfold zlen in *; by rewrite El|].
  apply Ring_nil. pose proof (ring_start _ _ _ HRing). unfold zlen in *.
  rewrite El. lia.
Qed.

Ltac room HR :=
  case_bool_decide;
  [rewrite (room_true _ _ HR) by done | rewrite (room_false _ _ HR) by done].

Lemma count_nil q : repr q (@nil T) -> (_count q =? 0) = true.
Proof. intros HR. rewrite (repr_count _ _ HR). done. Qed.

Lemma count_pos q l : repr q l -> l <> [] -> (_count q =? 0) = false.
Proof.
  intros HR ?. rewrite (repr_count _ _ HR). destruct l; [done|].
  rewrite zlen_cons. pose proof (zlen_nonneg l). lia.
Qed.

Lemma exec_push q l v : repr q l -> 0 < _cap q ->
  implements q (exec (Push v) q) (spec (_cap q) (Push v) l).
Proof.
  intros HR Hp. cbn. unfold push. room HR; [|by exists q].
  destruct (q_push_back_ok q l v HR Hp H) as (ix & q' & -> & E & _ & _ & Hc & HR').
  cbn. rewrite E. by eexists.
Qed.

Lemma exec_push_new q l : repr q l -> 0 < _cap q ->
  implements q (exec PushNew q) (spec (_cap q) PushNew l).
Proof.
  intros HR Hp. cbn. unfold push_new. room HR; [|by exists q].
  destruct (q_push_back_ok q l T_default HR Hp H)
    as (ix & q' & -> & _ & E & Er & Hc & HR').
  cbn. rewrite E. cbn. rewrite Er. by eexists.
Qed.

Lemma exec_push_top q l v : repr q l -> 0 < _cap q ->
  implements q (exec (PushTop v) q) (spec (_cap q) (PushTop v) l).
Proof.
  intros HR Hp. cbn. unfold push_top. room HR; [|by exists q].
  destruct (push_front_ok q l v _ HR Hp H eq_refl) as (q' & -> & _ & Hc & HR').
  by exists q'.
Qed.

Lemma exec_push_top_new q l : repr q l -> 0 < _cap q ->
  implements q (exec PushTopNew q) (spec (_cap q) PushTopNew l).
Proof.
  intros HR Hp. cbn. unfold push_top_new. room HR; [|by exists q].
  destruct (push_front_ok q l T_default _ HR Hp H eq_refl) as (q' & -> & Er & Hc & HR').
  cbn. rewrite Er. by exists q'.
Qed.

(** elim_push on a full queue overwrites the oldest item and rotates. *)
Lemma exec_elim_push q l v : repr q l -> 0 < _cap q ->
  implements q (exec (ElimPush v) q) (spec (_cap q) (ElimPush v) l).
Proof.
  intros HR Hp. cbn. unfold elim_push. room HR.
  { destruct (q_push_back_ok q l v HR Hp H) as (ix & q' & -> & E & _ & _ & Hc & HR').
    cbn. rewrite E. by eexists. }
  get_mem HR m. pose proof (repr_start0 _ _ HR Hp).
  destruct l as [|x l]; [unfold zlen in *; cbn in *; lia|].
  pose proof (slot_live q _ m 0 x HR Hm eq_refl) as Hx.
  rewrite ring_ix_0 in Hx by lia.
  pose proof (lookup_lt_Some _ _ _ Hx).
  rewrite (read_at_ok q m x) by done. cbn.
  rewrite (construct_at_ok q m) by done. cbn.
  rewrite wrapu_small, _mod_spec by lia. cbn.
  eexists; split; [done|]. split; [done|].
  assert (Ring (<[Z.to_nat (_start q) := Some v]> m) (_start q)
            (Some <$> v :: l)) as HV.
  { pose proof (Ring_update m (_start q) (Some <$> x :: l) 0 (Some v) HRing) as HU.
    rewrite ring_ix_0 in HU by lia. apply HU. cbn. lia. }
  set (m1 := <[Z.to_nat (_start q) := Some v]> m) in *.
  assert (zlen m1 = _cap q) as Hl1.
  { unfold m1, zlen in *. by rewrite length_insert. }
  pose proof (Ring_tail _ _ _ _ HV) as HT. rewrite Hl1 in HT.
  rewrite zlen_cons in *.
  split; cbn; [|rewrite zlen_app; unfold zlen in *; cbn in *; lia|done].
  exists m1. split; [done|]. split; [done|]. rewrite fmap_app. cbn.
  split; [apply HT| |].
  - rewrite length_app, length_fmap. unfold zlen in *. cbn. lia.
  - intros i y Hy. apply lookup_app_Some in Hy as [Hy|[Hge Hy]]; [by apply HT|].
    apply list_lookup_singleton_Some in Hy as [Hi <-].
    rewrite length_fmap in *. rewrite <-Hl1, ring_ix_step by lia.
    replace (S i) with (length m1) by (unfold zlen in *; lia).
    unfold ring_ix. replace (Z.of_nat (length m1)) with (1 * zlen m1)
      by (unfold zlen; lia).
    rewrite Z_mod_plus_full, Z.mod_small by lia.
    apply list_lookup_insert_eq. done.
Qed.

Lemma exec_pop q l : repr q l ->
  implements q (exec Pop q) (spec (_cap q) Pop l) /\
  implements q (exec PopItem q) (spec (_cap q) PopItem l).
Proof.
  intros HR. cbn. unfold pop, pop_item. destruct l as [|x l].
  { rewrite (count_nil _ HR). split; by exists q. }
  rewrite (count_pos _ _ HR) by done. cbn.
  destruct (q_pop_front_ok q x l HR) as (q' & s & Er & Ed & Em & Hc & HR').
  cbn in Er, Ed. rewrite Er. cbn. rewrite Ed. cbn. rewrite Em. cbn.
  split; by eexists.
Qed.

Lemma exec_pop_bottom q l : repr q l ->
  implements q (exec PopBottom q) (spec (_cap q) PopBottom l) /\
  implements q (exec PopBottomItem q)
    (spec (_cap q) PopBottomItem l).
Proof.
  intros HR. cbn. unfold pop_bottom, pop_bottom_item.
  destruct l as [|x l _] using rev_ind.
  { rewrite (count_nil _ HR). split; by exists q. }
  rewrite (count_pos _ _ HR) by (by destruct l).
  destruct (q_pop_back_ok q x l HR) as (q' & ix & Em & Er & Ed & Hc & HR').
  cbn [negb]. cbn zeta. change (_start (set_count (_count q - 1) q)) with (_start q).
  change (_cap (set_count (_count q - 1) q)) with (_cap q).
  rewrite Em. cbn. cbn in Er, Ed. rewrite Er. cbn. rewrite Ed. cbn.
  rewrite last_snoc, removelast_last. split; [|by eexists].
  destruct (l ++ [x]) eqn:E; [by destruct l|]. by eexists.
Qed.

Lemma exec_reads q l i : repr q l -> 0 < _cap q -> 0 <= i ->
  implements q (exec Top q) (spec (_cap q) Top l) /\
  implements q (exec (TopAt i) q) (spec (_cap q) (TopAt i) l) /\
  implements q (exec Bottom q) (spec (_cap q) Bottom l) /\
  implements q (exec (BottomAt i) q)
    (spec (_cap q) (BottomAt i) l).
Proof.
  intros HR Hp Hi. pose proof (repr_count _ _ HR) as Hc.
  cbn. unfold top, top_at, bottom, bottom_at.
  assert (forall j z, 0 <= j -> u32 z = u32 (_start q + j) -> j < zlen l ->
    (ix ← _mod (u32 z) (_cap q); v ← read_at ix q; Some (Some v))
    = Some (l !! Z.to_nat j)) as Hrd.
  { intros j z Hj Hz Hlt. unfold zlen in Hlt.
    destruct (lookup_lt_is_Some_2 l (Z.to_nat j) ltac:(lia)) as [x Hx].
    destruct (read_nth q l j z x HR Hj Hx Hz) as (ix & -> & Er).
    cbn. rewrite Er. cbn. by rewrite Hx. }
  rewrite Hc. split_and!.
  - destruct l as [|x l]; [by exists q|]. get_mem HR m.
    pose proof (repr_start0 _ _ HR Hp).
    pose proof (slot_live q _ m 0 x HR Hm eq_refl) as Hx.
    rewrite ring_ix_0 in Hx by lia. rewrite zlen_cons.
    pose proof (zlen_nonneg l). rewrite (proj2 (Z.eqb_neq _ _)) by lia. cbn.
    rewrite (read_at_ok q m x) by done. by exists q.
  - destruct (Z.ltb_spec i (zlen l)).
    + rewrite (Hrd i) by done. by exists q.
    + rewrite lookup_ge_None_2 by (unfold zlen in *; lia). by exists q.
  - destruct (Z.eqb_spec (zlen l) 0) as [E|E].
    + destruct l; [by exists q|]. rewrite zlen_cons in E.
      pose proof (zlen_nonneg l). lia.
    + pose proof (zlen_nonneg l). cbn [negb].
      rewrite (Hrd (zlen l - 1)) by (lia || f_equal; lia).
      rewrite last_lookup. replace (Z.to_nat (zlen l - 1)) with (pred (length l))
        by (unfold zlen; lia). by exists q.
  - destruct (Z.ltb_spec i (zlen l)).
    + rewrite (Hrd (zlen l - i - 1)) by (lia || f_equal; lia).
      rewrite reverse_lookup by (unfold zlen in *; lia).
      replace (length l - S (Z.to_nat i))%nat with (Z.to_nat (zlen l - i - 1))
        by (unfold zlen; lia). by exists q.
    + rewrite (lookup_ge_None_2 (reverse l))
        by (rewrite length_reverse; unfold zlen in *; lia). by exists q.
Qed.

Lemma exec_refines q l o : repr q l -> 0 < _cap q -> op_ok o ->
  implements q (exec o q) (spec (_cap q) o l).
Proof.
  intros HR Hp Hok. pose proof (repr_count _ _ HR) as Hc.
  destruct o; cbn [op_ok] in Hok;
    eauto using exec_push, exec_elim_push, exec_push_new, exec_push_top,
      exec_push_top_new;
    try (apply exec_pop; done); try (apply exec_pop_bottom; done);
    try (by apply (exec_reads q l 0 HR Hp ltac:(lia)));
    try (by apply (exec_reads q l i HR Hp Hok)).
  - destruct (clear_ok q l HR) as (q' & E & ? & ?). cbn. rewrite E. by exists q'.
  - exists q. split; [|done]. cbn. unfold empty. rewrite Hc. do 3 f_equal.
    destruct l; [done|]. rewrite zlen_cons. pose proof (zlen_nonneg l).
    rewrite bool_decide_eq_false_2 by done. lia.
  - exists q. split; [|done]. cbn. unfold full. rewrite Hc. do 3 f_equal.
    case_bool_decide; lia.
  - exists q. split; [|done]. cbn. unfold size. by rewrite Hc.
Qed.
End Interface.

(** ** Properties *)

(** C23. Any sequence of calls on a queue built over [cap] raw slots
    (0 < cap <= 2^31) runs without touching memory it must not touch, and
    returns exactly what the list specification returns: a FIFO/LIFO of at most
    [cap] items whose [elim_push] drops the oldest item when full. *)
Theorem queue_refines_list {T} (T_default : T) (cap : Z) (os : list (op T)) :
  0 < cap <= 2 ^ 31 -> Forall op_ok os ->
  exists q', exec_all T_default os
      (BoundedQueue_cap (fun n => Some (replicate (Z.to_nat n) None)) cap)
    = Some ((spec_all T_default cap os []).1, q') /\
    repr q' (spec_all T_default cap os []).2.
Proof.
  intros Hcap Hos.
  set (q := BoundedQueue_cap _ cap).
  assert (_cap q = cap) as Hc by (cbn; apply wrapu_small; lia).
  assert (repr q []) as HR.
  { split; [|done|lia]. eexists; split; [done|].
    unfold zlen. rewrite length_replicate. split; [lia|].
    apply Ring_nil. unfold zlen. rewrite length_replicate. cbn. lia. }
  clearbody q. revert HR. generalize (@nil T) as l. revert q Hc.
  induction Hos as [|o os Ho Hos IH]; intros q Hc l HR; cbn; [by eexists|].
  destruct (exec_refines T_default q l o HR ltac:(lia) Ho) as (q1 & -> & Hc1 & HR1).
  cbn. rewrite Hc in HR1.
  destruct (IH q1 ltac:(congruence) _ HR1) as (q2 & -> & HR2).
  cbn. rewrite Hc in *. destruct (spec T_default cap o l) as [r l1]; cbn in *.
  destruct (spec_all T_default cap os l1) as [rs l2]; cbn in *. by eexists.
Qed.

Theorem queue_refines_list_witness :
  exists q', exec_all 0 [Push 1; Push 2; ElimPush 3; PushTop 4; PopBottomItem; BottomAt 0]
      (BoundedQueue_cap (fun n => Some (replicate (Z.to_nat n) None)) 2)
    = Some ((spec_all 0 2 [Push 1; Push 2; ElimPush 3; PushTop 4; PopBottomItem;
                           BottomAt 0] []).1, q') /\
    repr q' (spec_all 0 2 [Push 1; Push 2; ElimPush 3; PushTop 4; PopBottomItem;
                           BottomAt 0] []).2.
Proof.
  apply (queue_refines_list 0 2); [lia|]. repeat constructor; cbn; lia.
Defined.

(** [_mod] terminates and is the remainder for every positive capacity,
    but with a capacity above 2^31, which [max_capacity] allows, the sum
    [_start + _count] wraps at 2^32 before it: then the item is put in a slot
    other than the one [_count] places after the top (here 3 * 2^30 slots). *)
Theorem mod_slot_bounds :
  (forall off cap, 0 < cap -> 0 <= off -> _mod off cap = Some (off mod cap)) /\
  (exists cap start count : Z,
     cap <= max_capacity /\ 0 <= start < cap /\ 0 <= count < cap /\
     _mod (u32 (start + count)) cap <> Some ((start + count) mod cap)).
Proof.
  split; [exact _mod_spec|].
  exists (3 * 2 ^ 30), (2 ^ 31 + 2 ^ 29), (2 ^ 31). vm_compute. by split_and!.
Qed.

End BoundedQueue.
