(* ===== verification/Recorder.v ===== *)
(** * Stat and IntRecorder (var/recorder.h): the words of the agents

    A thread's samples are kept in one 64-bit word, their number in the upper 20
    bits and their sum in the lower 44.  Conversions and unsigned arithmetic wrap;
    so does the signed addition of Stat, which [recorder_exact] in
    RecorderSteps.v shows not to overflow. *)

From S2P Require Import Prelude.

Module Recorder.

Record Stat := mkStat { sum : Z; num : Z }.

Definition Stat_ctor : Stat := mkStat 0 0.
Definition get_average_int (s : Stat) : Z := if num s =? 0 then 0 else i64 (Z.quot (sum s) (num s)).
Definition stat_minus (s rhs : Stat) : Stat := mkStat (i64 (sum s - sum rhs)) (i64 (num s - num rhs)).
Definition stat_plus (s rhs : Stat) : Stat := mkStat (i64 (sum s + sum rhs)) (i64 (num s + num rhs)).

Definition SUM_BIT_WIDTH : Z := 44.
Definition MAX_SUM_PER_THREAD : Z := Z.shiftl 1 SUM_BIT_WIDTH - 1.
Definition MAX_NUM_PER_THREAD : Z := Z.shiftl 1 (64 - SUM_BIT_WIDTH) - 1.

Definition _get_sum (n : Z) : Z := Z.land n MAX_SUM_PER_THREAD.
Definition _get_num (n : Z) : Z := Z.shiftr n SUM_BIT_WIDTH.

Definition _extend_sign_bit (sum : Z) : Z :=
  i64 (Z.lor (u64 ((Z.shiftl 1 (64 - SUM_BIT_WIDTH + 1) - 1) * Z.land (Z.shiftl 1 (SUM_BIT_WIDTH - 1)) sum)) sum).

Definition _get_complement (n : Z) : Z := Z.land (u64 n) MAX_SUM_PER_THREAD.

Definition _compress (num sum : Z) : Z := Z.lor (u64 (Z.shiftl num SUM_BIT_WIDTH)) (Z.land sum MAX_SUM_PER_THREAD).

Definition _will_overflow (lhs rhs : Z) : bool :=
  ((0 <? lhs) && (0 <? rhs) && (Z.shiftr MAX_SUM_PER_THREAD 1 <? i64 (lhs + rhs)))
  || ((lhs <? 0) && (rhs <? 0) && (i64 (lhs + rhs) <? - Z.shiftr MAX_SUM_PER_THREAD 1 - 1)).

Definition AddToStat (lhs : Stat) (rhs : Z) : Stat :=
  mkStat (i64 (sum lhs + _extend_sign_bit (_get_sum rhs))) (i64 (num lhs + _get_num rhs)).

(** operator<<: the truncation of the sample to an int (a warning is logged). *)
Definition truncate (sample : Z) : Z :=
  if negb (i32 sample =? sample) then if 2 ^ 31 - 1 <? sample then 2 ^ 31 - 1 else - 2 ^ 31
  else sample.

(** The test in the loop, and the word that the loop tries to store. *)
Definition must_commit (n sample : Z) : bool :=
  (MAX_NUM_PER_THREAD <? u64 (_get_num n + 1)) || _will_overflow (_extend_sign_bit (_get_sum n)) sample.

Definition next_word (n sample : Z) : Z := _compress (u64 (_get_num n + 1)) (u64 (_get_sum n + _get_complement sample)).

(** ** What a word stands for *)

Definition enc (k s : Z) : Z := k * 2 ^ 44 + s mod 2 ^ 44.
Definition fits (k s : Z) : Prop := 0 <= k <= MAX_NUM_PER_THREAD /\ - 2 ^ 43 <= s < 2 ^ 43.
Definition dec (n : Z) : Stat := mkStat (_extend_sign_bit (_get_sum n)) (_get_num n).

Lemma MAX_SUM_mask z : Z.land z MAX_SUM_PER_THREAD = z mod 2 ^ 44.
Proof. apply (land_mask 44). lia. Qed.

Lemma lor_disjoint k a b : 0 <= k -> 0 <= b < 2 ^ k -> Z.lor (a * 2 ^ k) b = a * 2 ^ k + b.
Proof.
  intros Hk Hb. rewrite <-Z.add_lor_land. assert (Z.land (a * 2 ^ k) b = 0) as ->; [|lia].
  apply Z.bits_inj'. intros i Hi. rewrite Z.land_spec, Z.bits_0, <-Z.shiftl_mul_pow2, Z.shiftl_spec by lia.
  destruct (Z.ltb_spec i k).
  - by rewrite Z.testbit_neg_r by lia.
  - apply andb_false_intro2, Z.testbit_false; [lia|]. rewrite Z.div_small; [done|].
    split; [lia|]. eapply Z.lt_le_trans; [apply Hb|]. apply Z.pow_le_mono_r; lia.
Qed.

Lemma get_num_enc k s : _get_num (enc k s) = k.
Proof.
  unfold _get_num, enc, SUM_BIT_WIDTH. rewrite Z.shiftr_div_pow2 by lia.
  pose proof (Z.mod_pos_bound s (2 ^ 44) ltac:(lia)). rewrite Z.div_add_l, Z.div_small by lia. lia.
Qed.

Lemma get_sum_enc k s : _get_sum (enc k s) = s mod 2 ^ 44.
Proof.
  unfold _get_sum, enc. rewrite MAX_SUM_mask, Z.add_comm, Z_mod_plus_full. apply Z.mod_mod. lia.
Qed.

(** The sign bit is extended over the upper 20 bits. *)
Lemma extend_sign_bit_spec s : - 2 ^ 43 <= s < 2 ^ 43 -> _extend_sign_bit (s mod 2 ^ 44) = s.
Proof.
  intros Hs. unfold _extend_sign_bit, SUM_BIT_WIDTH. change (Z.shiftl 1 (64 - 44 + 1) - 1) with (2 ^ 21 - 1).
  change (Z.shiftl 1 (44 - 1)) with (2 ^ 43). set (x := s mod 2 ^ 44).
  pose proof (Z.mod_pos_bound s (2 ^ 44) ltac:(lia)) as Hx. fold x in Hx.
  assert (Z.land (2 ^ 43) x = if x <? 2 ^ 43 then 0 else 2 ^ 43) as ->.
  { rewrite Z.land_comm. apply Z.bits_inj'. intros i Hi. rewrite Z.land_spec, Z.pow2_bits_eqb by lia.
    destruct (Z.eqb_spec 43 i) as [<-|Hne].
    - rewrite andb_true_r. destruct (Z.ltb_spec x (2 ^ 43)).
      + rewrite Z.bits_0. apply Z.testbit_false; [lia|]. by rewrite Z.div_small by lia.
      + rewrite Z.pow2_bits_true by lia. apply Z.testbit_true; [lia|].
        assert (x / 2 ^ 43 = 1) as -> by (symmetry; apply Z.div_unique with (x - 2 ^ 43); lia). done.
    - rewrite andb_false_r. destruct (x <? 2 ^ 43); [by rewrite Z.bits_0|by rewrite Z.pow2_bits_false]. }
  destruct (Z.ltb_spec x (2 ^ 43)).
  - rewrite Z.mul_0_r. change (u64 0) with 0. rewrite Z.lor_0_l, i64_small by lia.
    unfold x in *. destruct (Z.lt_ge_cases s 0); [|apply Z.mod_small; lia].
    rewrite <-(Z_mod_plus_full s 1), Z.mod_small in H by lia. lia.
  - assert (s < 0 /\ x = s + 2 ^ 44) as [Hneg ->].
    { unfold x in *. destruct (Z.lt_ge_cases s 0); [|rewrite Z.mod_small in H; lia].
      split; [done|]. rewrite <-(Z_mod_plus_full s 1), Z.mod_small by lia. lia. }
    change (u64 ((2 ^ 21 - 1) * 2 ^ 43)) with ((2 ^ 20 - 1) * 2 ^ 44 + 2 ^ 43).
    replace (s + 2 ^ 44) with (1 * 2 ^ 43 + (s + 2 ^ 43)) by lia.
    rewrite <-(lor_disjoint 43 1) by lia. rewrite Z.lor_assoc.
    change (Z.lor ((2 ^ 20 - 1) * 2 ^ 44 + 2 ^ 43) (1 * 2 ^ 43)) with ((2 ^ 21 - 1) * 2 ^ 43).
    rewrite lor_disjoint by lia. unfold wraps. change (64 - 1) with 63.
    replace ((2 ^ 21 - 1) * 2 ^ 43 + (s + 2 ^ 43) + 2 ^ 63) with (s + 2 ^ 63 + 1 * 2 ^ 64) by lia.
    rewrite Z_mod_plus_full, Z.mod_small; lia.
Qed.

Lemma dec_enc k s : fits k s -> dec (enc k s) = mkStat s k.
Proof. intros [_ Hs]. unfold dec. by rewrite get_num_enc, get_sum_enc, extend_sign_bit_spec. Qed.

Definition int_sample (x : Z) : Prop := - 2 ^ 31 <= x < 2 ^ 31.

Lemma truncate_int x : int_sample (truncate x).
Proof.
  unfold truncate, int_sample. pose proof (wraps_range 32 x ltac:(lia)).
  destruct (Z.eqb_spec (i32 x) x) as [E|]; cbn [negb]; [rewrite <-E; lia|]. destruct (_ <? x); lia.
Qed.

Lemma will_overflow_spec s x : - 2 ^ 43 <= s < 2 ^ 43 -> int_sample x ->
  _will_overflow s x = negb (bool_decide (- 2 ^ 43 <= s + x < 2 ^ 43)).
Proof.
  unfold int_sample. intros Hs Hx. unfold _will_overflow. rewrite i64_small by lia.
  change (Z.shiftr MAX_SUM_PER_THREAD 1) with (2 ^ 43 - 1).
  case_bool_decide; cbn [negb]; lia.
Qed.

(** The loop stores the word of one more sample, or commits. *)
Lemma next_word_spec k s x : fits k s -> int_sample x -> must_commit (enc k s) x = false ->
  next_word (enc k s) x = enc (k + 1) (s + x) /\ fits (k + 1) (s + x).
Proof.
  intros [Hk Hs] Hx. unfold must_commit, next_word. rewrite get_num_enc, get_sum_enc, extend_sign_bit_spec by done.
  unfold fits in *. change MAX_NUM_PER_THREAD with (2 ^ 20 - 1) in *. rewrite wrapu_small by lia.
  rewrite will_overflow_spec, orb_false_iff, negb_false_iff, bool_decide_eq_true by done. intros [H1 H2].
  split; [|lia]. unfold _compress, _get_complement. rewrite !MAX_SUM_mask. unfold SUM_BIT_WIDTH.
  rewrite Z.shiftl_mul_pow2, wrapu_small by lia.
  rewrite lor_disjoint by (try apply Z.mod_pos_bound; lia). unfold enc. f_equal. unfold wrapu.
  rewrite !Z.mod_mod_divide by (by exists (2 ^ 20)).
  by rewrite <-Zplus_mod.
Qed.

Lemma must_commit_0 x : int_sample x -> must_commit 0 x = false.
Proof.
  unfold int_sample. intros Hx. change 0 with (enc 0 0). unfold must_commit.
  rewrite get_num_enc, get_sum_enc, extend_sign_bit_spec, will_overflow_spec by (unfold int_sample; lia).
  cbn. case_bool_decide; [done|lia].
Qed.


(** The word of a thread is exact at the full 64 bits: a sample is truncated
    to an int; the loop commits exactly when the number or the sum would leave its
    field, and otherwise the word it stores decodes to one more sample, with the
    sign extended; AddToStat adds the decoded word, without overflow below 2^62. *)
Theorem word_exact k s sample lhs :
  fits k s -> Z.abs (sum lhs) < 2 ^ 62 -> 0 <= num lhs < 2 ^ 62 ->
  let x := truncate sample in
  x = Z.max (- 2 ^ 31) (Z.min (2 ^ 31 - 1) sample) /\
  (must_commit (enc k s) x = true <-> ~ fits (k + 1) (s + x)) /\
  (must_commit (enc k s) x = false -> dec (next_word (enc k s) x) = mkStat (s + x) (k + 1)) /\
  must_commit 0 x = false /\ dec (next_word 0 x) = mkStat x 1 /\
  AddToStat lhs (enc k s) = mkStat (sum lhs + s) (num lhs + k).
Proof.
  intros Hf Hsum Hnum x. pose proof (truncate_int sample) as Hx. fold x in Hx. split_and!.
  - unfold x, truncate. pose proof (wraps_range 32 sample ltac:(lia)).
    destruct (Z.eqb_spec (i32 sample) sample); cbn [negb]; [lia|].
    destruct (Z.ltb_spec (2 ^ 31 - 1) sample); [lia|]. destruct (Z.lt_ge_cases sample (- 2 ^ 31)); [lia|].
    rewrite i32_small in n by lia. done.
  - pose proof Hf as [Hk Hs]. unfold must_commit. rewrite get_num_enc, get_sum_enc, extend_sign_bit_spec, will_overflow_spec by done.
    unfold fits in *. change MAX_NUM_PER_THREAD with (2 ^ 20 - 1) in *. rewrite wrapu_small by lia.
    rewrite orb_true_iff, Z.ltb_lt, negb_true_iff, bool_decide_eq_false. lia.
  - intros Hc. destruct (next_word_spec k s x Hf Hx Hc) as [-> Hf']. by apply dec_enc.
  - by apply must_commit_0.
  - change 0 with (enc 0 0) at 1. destruct (next_word_spec 0 0 x) as [-> Hf']; [by vm_compute|done|by apply must_commit_0|].
    by apply dec_enc.
  - pose proof Hf as [Hk Hs]. change MAX_NUM_PER_THREAD with (2 ^ 20 - 1) in *. unfold AddToStat.
    rewrite get_num_enc, get_sum_enc, extend_sign_bit_spec by done. by rewrite !i64_small by lia.
Qed.

Theorem word_exact_witness :
  let x := truncate (- 3000000000) in
  x = Z.max (- 2 ^ 31) (Z.min (2 ^ 31 - 1) (- 3000000000)) /\
  (must_commit (enc 7 (- 8796000000000)) x = true <-> ~ fits (7 + 1) (- 8796000000000 + x)) /\
  (must_commit (enc 7 (- 8796000000000)) x = false ->
    dec (next_word (enc 7 (- 8796000000000)) x) = mkStat (- 8796000000000 + x) (7 + 1)) /\
  must_commit 0 x = false /\ dec (next_word 0 x) = mkStat x 1 /\
  AddToStat (mkStat 5 1) (enc 7 (- 8796000000000)) = mkStat (5 + - 8796000000000) (1 + 7).
Proof.
  apply (word_exact 7 (- 8796000000000) (- 3000000000) (mkStat 5 1)).
  - by vm_compute.
  - by vm_compute.
  - by vm_compute.
Defined.

End Recorder.
