(* ===== verification/RecorderSteps.v ===== *)
(** * AgentCombiner (var/detail/combiner.h) and the threads of an IntRecorder

    Any number of threads record samples in their agents without a lock, and
    combine or reset all agents under the combiner's lock, one agent after the
    other, while the others go on recording.  A step is one access of a shared
    word, or what a thread does to the combiner under its lock when no other
    thread can see a part of it: a locked section touches at most one agent's
    word, except combine_agents and reset_all_agents, whose loops are steps.

    Threads are numbered; a thread's agent has its number, and an agent is in the
    list from its creation until its thread exits.  The agents' memory comes from
    AgentGroup, which gives each thread its own. *)

From S2P Require Import Prelude Recorder.

Module RecorderSteps.
Import Recorder.

(** _global_result, _agents in the order of the list, the elements and _lock. *)
Record AgentCombiner := mkCombiner {
  _global_result : Stat;
  _agents : list nat;
  element : gmap nat Z;
  _lock : option nat }.

(** The identities: Stat() and 0. *)
Definition AgentCombiner_ctor : AgentCombiner := mkCombiner Stat_ctor [] ∅ None.

Definition load (c : AgentCombiner) (a : nat) : Z := default 0 (element c !! a).
Definition store (a : nat) (v : Z) (c : AgentCombiner) : AgentCombiner :=
  mkCombiner (_global_result c) (_agents c) (<[a := v]> (element c)) (_lock c).
Definition set_global (s : Stat) (c : AgentCombiner) : AgentCombiner := mkCombiner s (_agents c) (element c) (_lock c).
Definition set_agents (l : list nat) (c : AgentCombiner) : AgentCombiner := mkCombiner (_global_result c) l (element c) (_lock c).
Definition set_lock (o : option nat) (c : AgentCombiner) : AgentCombiner := mkCombiner (_global_result c) (_agents c) (element c) o.

(** get_or_create_tls_agent, of a thread whose agent has no combiner yet. *)
Definition get_or_create_tls_agent (a : nat) (c : AgentCombiner) : AgentCombiner :=
  let c := store a 0 c in
  set_agents (_agents c ++ [a]) c.

(** The bodies of the loops of combine_agents and reset_all_agents. *)
Definition combine_one (a : nat) (ret : Stat) (c : AgentCombiner) : Stat := AddToStat ret (load c a).
Definition reset_one (a : nat) (tmp : Stat) (c : AgentCombiner) : Stat * AgentCombiner :=
  let prev := load c a in
  (AddToStat tmp prev, store a 0 c).

Definition commit_and_erase (a : nat) (c : AgentCombiner) : AgentCombiner :=
  let local := load c a in
  let c := set_global (AddToStat (_global_result c) local) c in
  set_agents (filter (fun b => b <> a) (_agents c)) c.

Definition commit_and_clear (a : nat) (c : AgentCombiner) : AgentCombiner :=
  let prev := load c a in
  let c := store a 0 c in
  set_global (AddToStat (_global_result c) prev) c.

(** Where a thread is: outside; in operator<< before the load, or in its loop with
    the expected word; in the loop of combine_agents or reset_all_agents, with the
    agents that are left. [since] is no part of the program: the number of samples
    that were not reset when the thread took the lock. *)
Inductive pc :=
  | Idle
  | Recording (sample : Z)
  | Trying (sample n : Z)
  | Combining (rest : list nat) (ret : Stat) (since : Z)
  | Resetting (rest : list nat) (tmp : Stat).

(** What has happened, for the theorems: the samples that were recorded, the
    results of the resets, and those of combine_agents with the numbers of samples
    at its start and at its end. *)
Record state := mkState {
  comb : AgentCombiner;
  pcs : gmap nat pc;
  recorded : list Z;
  resets : list Stat;
  values : list (Z * Stat * Z) }.

Definition at_pc (st : state) (i : nat) : pc := default Idle (pcs st !! i).
Definition pending (st : state) : Z := zlen (recorded st) - foldr Z.add 0 (map num (resets st)).

Definition goto (i : nat) (p : pc) (c : AgentCombiner) (st : state) : state :=
  mkState c (<[i := p]> (pcs st)) (recorded st) (resets st) (values st).
Definition add_recorded (x : Z) (st : state) : state :=
  mkState (comb st) (pcs st) (recorded st ++ [x]) (resets st) (values st).
Definition add_reset (s : Stat) (st : state) : state :=
  mkState (comb st) (pcs st) (recorded st) (resets st ++ [s]) (values st).
Definition add_value (v : Z * Stat * Z) (st : state) : state :=
  mkState (comb st) (pcs st) (recorded st) (resets st) (values st ++ [v]).

Definition initial : state := mkState AgentCombiner_ctor ∅ [] [] [].

Inductive step (i : nat) (st : state) : state -> Prop :=
  (* operator<< *)
  | step_create :
      at_pc st i = Idle -> i ∉ _agents (comb st) -> _lock (comb st) = None ->
      step i st (goto i Idle (get_or_create_tls_agent i (comb st)) st)
  | step_record sample :
      at_pc st i = Idle -> i ∈ _agents (comb st) ->
      step i st (goto i (Recording (truncate sample)) (comb st) st)
  | step_load sample :
      at_pc st i = Recording sample ->
      step i st (goto i (Trying sample (load (comb st) i)) (comb st) st)
  | step_commit sample n :
      at_pc st i = Trying sample n -> must_commit n sample = true -> _lock (comb st) = None ->
      step i st (goto i (Trying sample 0) (commit_and_clear i (comb st)) st)
  | step_cas sample n :
      at_pc st i = Trying sample n -> must_commit n sample = false -> load (comb st) i = n ->
      step i st (add_recorded sample (goto i Idle (store i (next_word n sample) (comb st)) st))
  | step_cas_fails sample n : (* spuriously, or because the word has changed *)
      at_pc st i = Trying sample n -> must_commit n sample = false ->
      step i st (goto i (Trying sample (load (comb st) i)) (comb st) st)
  (* combine_agents *)
  | step_combine :
      at_pc st i = Idle -> _lock (comb st) = None ->
      step i st (goto i (Combining (_agents (comb st)) (_global_result (comb st)) (pending st)) (set_lock (Some i) (comb st)) st)
  | step_combine_one a rest ret since :
      at_pc st i = Combining (a :: rest) ret since ->
      step i st (goto i (Combining rest (combine_one a ret (comb st)) since) (comb st) st)
  | step_combine_end ret since :
      at_pc st i = Combining [] ret since ->
      step i st (add_value (since, ret, pending st) (goto i Idle (set_lock None (comb st)) st))
  (* reset_all_agents *)
  | step_reset :
      at_pc st i = Idle -> _lock (comb st) = None ->
      step i st (goto i (Resetting (_agents (comb st)) (_global_result (comb st)))
                   (set_global Stat_ctor (set_lock (Some i) (comb st))) st)
  | step_reset_one a rest tmp :
      at_pc st i = Resetting (a :: rest) tmp ->
      step i st (goto i (Resetting rest (reset_one a tmp (comb st)).1) (reset_one a tmp (comb st)).2 st)
  | step_reset_end tmp :
      at_pc st i = Resetting [] tmp ->
      step i st (add_reset tmp (goto i Idle (set_lock None (comb st)) st))
  (* the thread exits: ~Agent *)
  | step_exit :
      at_pc st i = Idle -> i ∈ _agents (comb st) -> _lock (comb st) = None ->
      step i st (goto i Idle (commit_and_erase i (comb st)) st).

Inductive reachable : state -> Prop :=
  | reach_init : reachable initial
  | reach_step i st st' : reachable st -> step i st st' -> reachable st'.


(** The functions, when no other thread moves meanwhile. *)
Definition combine_agents (c : AgentCombiner) : Stat :=
  fold_left (fun ret a => combine_one a ret c) (_agents c) (_global_result c).

Definition reset_all_agents (c : AgentCombiner) : Stat * AgentCombiner :=
  fold_left (fun '(tmp, c) a => reset_one a tmp c) (_agents c) (_global_result c, set_global Stat_ctor c).

(** ** Sums over the agents *)

Definition total (l : list Z) : Z := foldr Z.add 0 l.
Definition words (p : Stat -> Z) (c : AgentCombiner) (l : list nat) : Z := total (map (fun a => p (dec (load c a))) l).

Lemma total_sum_app l1 l2 : total (l1 ++ l2) = total l1 + total l2.
Proof. induction l1; cbn; [done|]. unfold total in *. cbn. lia. Qed.

Lemma load_store a v c b : load (store a v c) b = if decide (a = b) then v else load c b.
Proof. unfold load, store. cbn. destruct (decide (a = b)) as [<-|]; [by rewrite lookup_insert_eq|by rewrite lookup_insert_ne]. Qed.

Lemma words_ext p c c' l : (forall a, a ∈ l -> load c a = load c' a) -> words p c l = words p c' l.
Proof.
  intros H. unfold words. f_equal. apply map_ext_in. intros a Ha. f_equal. f_equal. apply H. by apply list_elem_of_In.
Qed.

Lemma words_store p a v c l : NoDup l ->
  words p (store a v c) l = words p c l + if decide (a ∈ l) then p (dec v) - p (dec (load c a)) else 0.
Proof.
  induction l as [|b l IH]; intros Hnd; [by rewrite decide_False by apply not_elem_of_nil|].
  apply NoDup_cons in Hnd as [Hb Hnd]. specialize (IH Hnd). unfold words in *. cbn. fold (total (map (fun a0 => p (dec (load (store a v c) a0))) l)).
  rewrite IH. fold (total (map (fun a0 => p (dec (load c a0))) l)). rewrite load_store.
  destruct (decide (a = b)) as [<-|Hne].
  - rewrite (decide_True (P := a ∈ a :: l)) by left. rewrite (decide_False (P := a ∈ l)) by done. lia.
  - destruct (decide (a ∈ l)) as [Hl|Hl].
    + rewrite (decide_True (P := a ∈ b :: l)) by (by right). lia.
    + rewrite (decide_False (P := a ∈ b :: l)) by set_solver. lia.
Qed.

Lemma words_cons p c a l : words p c (a :: l) = p (dec (load c a)) + words p c l.
Proof. done. Qed.

Lemma words_app p c l1 l2 : words p c (l1 ++ l2) = words p c l1 + words p c l2.
Proof. unfold words. by rewrite map_app, total_sum_app. Qed.

Lemma filter_absent (a : nat) (l : list nat) : a ∉ l -> filter (fun b => b <> a) l = l.
Proof.
  induction l as [|b l IH]; intros Ha; [done|]. apply not_elem_of_cons in Ha as [Hne Ha].
  by rewrite filter_cons_True, IH by congruence.
Qed.

Lemma words_remove p c a l : NoDup l -> a ∈ l -> words p c (filter (fun b => b <> a) l) = words p c l - p (dec (load c a)).
Proof.
  induction l as [|b l IH]; intros Hnd Ha; [by apply not_elem_of_nil in Ha|].
  apply NoDup_cons in Hnd as [Hb Hnd]. rewrite filter_cons, words_cons. destruct (decide (b <> a)) as [Hne|He].
  - rewrite words_cons, IH by (done || set_solver). lia.
  - assert (b = a) as -> by (destruct (decide (b = a)); done).
    rewrite filter_absent by done. lia.
Qed.

(** ** Stats that stand for samples *)

Definition good (s : Stat) : Prop := 0 <= num s /\ Z.abs (sum s) <= 2 ^ 31 * num s.
Definition word_ok (n : Z) : Prop := exists k s, n = enc k s /\ fits k s /\ Z.abs s <= 2 ^ 31 * k.

Lemma word_ok_good n : word_ok n -> good (dec n).
Proof. intros (k & s & -> & Hf & Hs). rewrite dec_enc by done. destruct Hf. split; cbn; lia. Qed.

Lemma word_ok_0 : word_ok 0.
Proof. exists 0, 0. split; [done|]. split; [by vm_compute|]. lia. Qed.

Lemma dec_0 : dec 0 = Stat_ctor.
Proof. by vm_compute. Qed.

Lemma AddToStat_exact s n : good s -> word_ok n -> num s + num (dec n) < 2 ^ 31 ->
  AddToStat s n = mkStat (sum s + sum (dec n)) (num s + num (dec n)) /\ good (AddToStat s n).
Proof.
  intros [Hn Hs] Hw Hlt. pose proof (word_ok_good n Hw) as [Hn' Hs'].
  assert (AddToStat s n = mkStat (sum s + sum (dec n)) (num s + num (dec n))) as E.
  { unfold AddToStat. change (_extend_sign_bit (_get_sum n)) with (sum (dec n)). change (_get_num n) with (num (dec n)).
    f_equal; apply i64_small; lia. }
  split; [done|]. rewrite E. split; cbn [sum num]; lia.
Qed.

Lemma next_word_ok n x : word_ok n -> int_sample x -> must_commit n x = false ->
  word_ok (next_word n x) /\ dec (next_word n x) = mkStat (sum (dec n) + x) (num (dec n) + 1).
Proof.
  intros (k & s & -> & Hf & Hs) Hx Hc. destruct (next_word_spec k s x Hf Hx Hc) as [-> Hf'].
  rewrite !dec_enc by done. split; [|done]. exists (k + 1), (s + x). unfold int_sample in Hx. split_and!; [done|apply Hf'..|lia].
Qed.

Lemma words_num_nonneg c l : (forall a, a ∈ l -> word_ok (load c a)) -> 0 <= words num c l.
Proof.
  induction l as [|a l IH]; intros Hw; [done|]. rewrite words_cons.
  pose proof (word_ok_good _ (Hw a ltac:(left))) as [H _]. specialize (IH (fun b Hb => Hw b ltac:(by right))). lia.
Qed.

Lemma words_num_elem c l a : (forall b, b ∈ l -> word_ok (load c b)) -> a ∈ l -> num (dec (load c a)) <= words num c l.
Proof.
  intros Hw Ha. apply list_elem_of_split in Ha as (l1 & l2 & ->). rewrite words_app, words_cons.
  pose proof (words_num_nonneg c l1 ltac:(intros; apply Hw; set_solver)).
  pose proof (words_num_nonneg c l2 ltac:(intros; apply Hw; set_solver)). lia.
Qed.


Arguments words : simpl never.

(** ** The invariant *)

Definition pc_ok (c : AgentCombiner) (pend : Z) (i : nat) (p : pc) : Prop :=
  match p with
  | Idle => True
  | Recording x => int_sample x /\ i ∈ _agents c
  | Trying x n => int_sample x /\ i ∈ _agents c
  | Combining rest ret since =>
      _lock c = Some i /\ NoDup rest /\ (forall a, a ∈ rest -> a ∈ _agents c) /\ good ret /\
      since <= num ret + words num c rest <= pend
  | Resetting rest tmp =>
      _lock c = Some i /\ NoDup rest /\ (forall a, a ∈ rest -> a ∈ _agents c) /\ good tmp
  end.

Definition locked_pc (p : pc) : bool := match p with Combining _ _ _ | Resetting _ _ => true | _ => false end.

(** What a reset has taken and not returned yet. *)
Definition taken (st : state) : Stat :=
  match _lock (comb st) with
  | None => Stat_ctor
  | Some i => match at_pc st i with Resetting _ tmp => tmp | _ => Stat_ctor end
  end.

(** Sums and numbers alike. *)
Definition field (p : Stat -> Z) : Prop := p = sum \/ p = num.

Definition balanced (p : Stat -> Z) (st : state) : Prop :=
  p (_global_result (comb st)) + p (taken st) + words p (comb st) (_agents (comb st)) + total (map p (resets st))
    = total (map (fun x => p (mkStat x 1)) (recorded st)).

Record Inv (st : state) : Prop := mkInv {
  inv_nodup : NoDup (_agents (comb st));
  inv_words : forall a, a ∈ _agents (comb st) -> word_ok (load (comb st) a);
  inv_samples : Forall int_sample (recorded st);
  inv_global : good (_global_result (comb st));
  inv_resets : Forall good (resets st);
  inv_values : Forall (fun '(a, s, b) => a <= num s <= b) (values st);
  inv_pc : forall i, pc_ok (comb st) (pending st) i (at_pc st i);
  inv_lock : forall i, _lock (comb st) = Some i -> locked_pc (at_pc st i) = true;
  inv_total : forall p, field p -> balanced p st }.

Lemma total_ones l : total (map (fun x => num (mkStat x 1)) l) = zlen l.
Proof. induction l as [|x l IH]; [done|]. rewrite zlen_cons. cbn in *. unfold total in *. cbn. lia. Qed.

(** What is not reset, in the combiner and in the hands of a reset. *)
Lemma pending_eq st : Inv st ->
  pending st = num (_global_result (comb st)) + num (taken st) + words num (comb st) (_agents (comb st)).
Proof.
  intros I. pose proof (inv_total st I num ltac:(by right)) as Ht. unfold balanced in Ht. rewrite total_ones in Ht.
  unfold pending. fold (total (map num (resets st))). lia.
Qed.

Lemma resets_nonneg st : Inv st -> 0 <= total (map num (resets st)).
Proof.
  intros I. pose proof (inv_resets st I) as H. induction H as [|s l [Hs _] _ IH]; [done|]. unfold total in *. cbn. lia.
Qed.

Lemma pending_le st : Inv st -> pending st <= zlen (recorded st).
Proof. intros I. pose proof (resets_nonneg st I). unfold pending. fold (total (map num (resets st))). lia. Qed.

Lemma at_goto st c i p j : at_pc (goto i p c st) j = if decide (i = j) then p else at_pc st j.
Proof. unfold at_pc, goto. cbn. destruct (decide (i = j)) as [<-|]; [by rewrite lookup_insert_eq|by rewrite lookup_insert_ne]. Qed.

Lemma taken_good st : Inv st -> good (taken st).
Proof.
  intros I. unfold taken. destruct (_lock (comb st)) as [i|]; [|by vm_compute].
  pose proof (inv_pc st I i) as H. destruct (at_pc st i); try by vm_compute. apply H.
Qed.

(** A thread that does not hold the lock sees a change of the combiner only through
    the list of agents. *)
Lemma pc_ok_unlocked c c' pend pend' i p :
  _lock c <> Some i -> (i ∈ _agents c -> i ∈ _agents c') -> pc_ok c pend i p -> pc_ok c' pend' i p.
Proof.
  intros Hl Ha. destruct p; cbn; [done|..].
  - intros [? ?]. auto.
  - intros [? ?]. auto.
  - by intros [? _].
  - by intros [? _].
Qed.

Lemma unlocked_pc st i : Inv st -> locked_pc (at_pc st i) = false -> _lock (comb st) <> Some i.
Proof. intros I H E. pose proof (inv_lock st I i E). congruence. Qed.

(** A move of thread [i] to [p] with the combiner [c]: what must be shown. *)
Lemma Inv_goto st i p c : Inv st ->
  NoDup (_agents c) -> (forall a, a ∈ _agents c -> word_ok (load c a)) -> good (_global_result c) ->
  pc_ok c (pending st) i p ->
  (_lock (comb st) <> None -> _lock (comb st) <> Some i -> c = comb st) ->
  (forall j, j <> i -> j ∈ _agents (comb st) -> j ∈ _agents c) ->
  (_lock c = if locked_pc p then Some i else if decide (_lock (comb st) = Some i) then None else _lock (comb st)) ->
  (locked_pc p = true -> _lock (comb st) = None \/ _lock (comb st) = Some i) ->
  (forall q, field q -> balanced q (goto i p c st)) ->
  Inv (goto i p c st).
Proof.
  intros I Hnd Hw Hg Hp Hsame Hag Hlk Hex Hb. split; try done; try apply I.
  - intros j. rewrite at_goto. destruct (decide (i = j)) as [<-|Hne]; [done|]. cbn [goto comb].
    pose proof (inv_pc st I j) as Hj. change (pending (goto i p c st)) with (pending st).
    destruct (decide (_lock (comb st) = Some j)) as [E|E].
    + rewrite Hsame; [done| |]; congruence.
    + eapply pc_ok_unlocked; [exact E| |exact Hj]. intros. by apply Hag.
  - intros j. rewrite at_goto. cbn [goto comb]. rewrite Hlk. destruct (decide (i = j)) as [<-|Hne].
    + destruct (locked_pc p); [done|]. destruct (decide (_lock (comb st) = Some i)); [done|]. congruence.
    + destruct (locked_pc p) eqn:Ep; [congruence|]. destruct (decide _); [done|]. intros E. by apply (inv_lock st I).
Qed.

Lemma taken_goto_other st i p c : _lock c = _lock (comb st) -> _lock (comb st) <> Some i -> taken (goto i p c st) = taken st.
Proof.
  intros El Hne. unfold taken. cbn [goto comb]. rewrite El. destruct (_lock (comb st)) as [j|]; [|done].
  rewrite at_goto, decide_False; [done|congruence].
Qed.

Lemma taken_goto_self st i p c : _lock c = Some i ->
  taken (goto i p c st) = match p with Resetting _ tmp => tmp | _ => Stat_ctor end.
Proof. intros El. unfold taken. cbn [goto comb]. by rewrite El, at_goto, decide_True. Qed.

Lemma taken_unlocked st : _lock (comb st) = None -> taken st = Stat_ctor.
Proof. intros E. unfold taken. by rewrite E. Qed.

(** A move that leaves the combiner as it is. *)
Lemma Inv_local st i p : Inv st -> locked_pc (at_pc st i) = false -> locked_pc p = false ->
  pc_ok (comb st) (pending st) i p -> Inv (goto i p (comb st) st).
Proof.
  intros I Hi Hp Hok. pose proof (unlocked_pc st i I Hi) as Hne.
  apply Inv_goto; auto; try apply I.
  - rewrite Hp. by destruct (decide _).
  - congruence.
  - intros q Hq. unfold balanced. rewrite taken_goto_other by done. by apply (inv_total st I).
Qed.

(** A locked section: the lock is free before and after it. *)
Lemma Inv_section st i p c : Inv st -> _lock (comb st) = None -> _lock c = None -> locked_pc p = false ->
  NoDup (_agents c) -> (forall a, a ∈ _agents c -> word_ok (load c a)) -> good (_global_result c) ->
  pc_ok c (pending st) i p -> (forall j, j <> i -> j ∈ _agents (comb st) -> j ∈ _agents c) ->
  (forall q, field q -> q (_global_result c) + words q c (_agents c)
     = q (_global_result (comb st)) + words q (comb st) (_agents (comb st))) ->
  Inv (goto i p c st).
Proof.
  intros I El El' Hp Hnd Hw Hg Hok Hag Hb. apply Inv_goto; auto.
  - congruence.
  - rewrite Hp, El'. by destruct (decide _).
  - intros q Hq. pose proof (inv_total st I q Hq) as Ht. unfold balanced in *.
    rewrite taken_unlocked in * by done. cbn [goto comb recorded resets]. specialize (Hb q Hq). lia.
Qed.

Lemma words_agents_store q a v c c' : NoDup (_agents c) -> element c' = <[a := v]> (element c) ->
  words q c' (_agents c) = words q c (_agents c) + if decide (a ∈ _agents c) then q (dec v) - q (dec (load c a)) else 0.
Proof.
  intros Hnd E. rewrite <-(words_store q a v c) by done. apply words_ext. intros b _. unfold load. by rewrite E.
Qed.

Lemma field_zero q : field q -> q Stat_ctor = 0.
Proof. by intros [-> | ->]. Qed.

Lemma field_add q s n : field q -> good s -> word_ok n -> num s + num (dec n) < 2 ^ 31 ->
  q (AddToStat s n) = q s + q (dec n).
Proof. intros Hq Hs Hn Hlt. destruct (AddToStat_exact s n Hs Hn Hlt) as [-> _]. by destruct Hq as [-> | ->]. Qed.

Lemma create_Inv st i : Inv st -> at_pc st i = Idle -> i ∉ _agents (comb st) -> _lock (comb st) = None ->
  Inv (goto i Idle (get_or_create_tls_agent i (comb st)) st).
Proof.
  intros I Hi Hni El. apply Inv_section; cbn; auto.
  - apply NoDup_app. split; [apply I|]. split; [set_solver|apply NoDup_singleton].
  - intros a Ha. change (word_ok (load (store i 0 (comb st)) a)). rewrite load_store. destruct (decide (i = a)); [apply word_ok_0|].
    apply (inv_words st I). set_solver.
  - apply I.
  - set_solver.
  - intros q Hq. f_equal. change (words q (store i 0 (comb st)) (_agents (comb st) ++ [i]) = words q (comb st) (_agents (comb st))).
    rewrite words_app, words_store, decide_False by (apply I || done). rewrite words_cons, load_store, decide_True by done.
    rewrite dec_0, field_zero by done. unfold words. cbn. lia.
Qed.

(** In a locked section, an agent's words are among what is not reset. *)
Lemma commit_bound st a : Inv st -> zlen (recorded st) < 2 ^ 31 -> a ∈ _agents (comb st) ->
  num (_global_result (comb st)) + num (dec (load (comb st) a)) < 2 ^ 31 /\
  num (taken st) + num (dec (load (comb st) a)) < 2 ^ 31.
Proof.
  intros I Hlt Ha. pose proof (pending_eq st I). pose proof (pending_le st I).
  pose proof (words_num_elem (comb st) (_agents (comb st)) a (inv_words st I) Ha).
  destruct (taken_good st I), (inv_global st I). lia.
Qed.

Lemma commit_Inv st i x : Inv st -> zlen (recorded st) < 2 ^ 31 ->
  locked_pc (at_pc st i) = false -> int_sample x -> i ∈ _agents (comb st) -> _lock (comb st) = None ->
  Inv (goto i (Trying x 0) (commit_and_clear i (comb st)) st).
Proof.
  intros I Hlt Hi Hx Ha El. destruct (commit_bound st i I Hlt Ha) as [Hb _].
  destruct (AddToStat_exact _ _ (inv_global st I) (inv_words st I i Ha) Hb) as [_ Hg].
  apply Inv_section; cbn; auto.
  - apply I.
  - intros a Ha'. change (word_ok (load (store i 0 (comb st)) a)). rewrite load_store. destruct (decide (i = a)); [apply word_ok_0|].
    by apply (inv_words st I).
  - intros q Hq. rewrite field_add by first [done | by apply (inv_words st I) | apply I].
    change (words q (commit_and_clear i (comb st)) (_agents (comb st))) with (words q (store i 0 (comb st)) (_agents (comb st))).
    rewrite words_store, decide_True, dec_0, field_zero by (done || apply I). lia.
Qed.

Lemma exit_Inv st i : Inv st -> zlen (recorded st) < 2 ^ 31 -> locked_pc (at_pc st i) = false ->
  i ∈ _agents (comb st) -> _lock (comb st) = None -> Inv (goto i Idle (commit_and_erase i (comb st)) st).
Proof.
  intros I Hlt Hi Ha El. destruct (commit_bound st i I Hlt Ha) as [Hb _].
  destruct (AddToStat_exact _ _ (inv_global st I) (inv_words st I i Ha) Hb) as [_ Hg].
  apply Inv_section; cbn; auto.
  - apply NoDup_filter, I.
  - intros a Ha'. apply list_elem_of_filter in Ha' as [_ Ha']. by apply (inv_words st I).
  - intros j Hj Hj'. by apply list_elem_of_filter.
  - intros q Hq. rewrite field_add by first [done | by apply (inv_words st I) | apply I].
    change (words q (commit_and_erase i (comb st)) ?l) with (words q (comb st) l). rewrite words_remove by (done || apply I). lia.
Qed.

Lemma pending_record st i p c x : pending (add_recorded x (goto i p c st)) = pending st + 1.
Proof. unfold pending. cbn [add_recorded goto recorded resets]. rewrite zlen_app. change (zlen [x]) with 1. lia. Qed.

Lemma cas_Inv st i x : Inv st -> locked_pc (at_pc st i) = false -> int_sample x -> i ∈ _agents (comb st) ->
  must_commit (load (comb st) i) x = false ->
  Inv (add_recorded x (goto i Idle (store i (next_word (load (comb st) i) x) (comb st)) st)).
Proof.
  intros I Hi Hx Ha Hc. pose proof (unlocked_pc st i I Hi) as Hne.
  destruct (next_word_ok _ x (inv_words st I i Ha) Hx Hc) as [Hw Hd]. set (v := next_word _ _) in *.
  assert (forall q l, field q -> NoDup l -> words q (store i v (comb st)) l
    = words q (comb st) l + if decide (i ∈ l) then q (mkStat x 1) else 0) as Hwords.
  { intros q l Hq Hl. rewrite words_store by done. destruct (decide (i ∈ l)); [|done]. rewrite Hd. destruct Hq as [-> | ->]; cbn; lia. }
  split; cbn [add_recorded goto comb resets recorded values].
  - apply I.
  - intros a Ha'. rewrite load_store. destruct (decide (i = a)); [done|]. by apply (inv_words st I).
  - apply Forall_app. split; [apply I|]. by apply Forall_singleton.
  - apply I.
  - apply I.
  - apply I.
  - intros j. rewrite pending_record. change (at_pc (add_recorded _ ?s) j) with (at_pc s j).
    rewrite at_goto. destruct (decide (i = j)) as [<-|Hij]; [done|].
    pose proof (inv_pc st I j) as Hj. destruct (at_pc st j) as [|?|? ?|rest ret since|rest tmp]; cbn in *; try done.
    destruct Hj as (H1 & H2 & H3 & H4 & H5). split_and!; try done; rewrite Hwords by (by right || done); destruct (decide (i ∈ rest)); cbn; lia.
  - intros j Ej. cbn in Ej. change (at_pc (add_recorded _ ?s) j) with (at_pc s j). rewrite at_goto, decide_False by congruence.
    by apply (inv_lock st I).
  - intros q Hq. pose proof (inv_total st I q Hq) as Ht. unfold balanced in *.
    change (taken (add_recorded x ?s)) with (taken s). rewrite taken_goto_other by done.
    cbn [add_recorded goto comb resets recorded store _agents _global_result]. change (mkCombiner _ _ (<[i := v]> _) _) with (store i v (comb st)).
    rewrite Hwords, decide_True by (done || apply I). rewrite map_app, total_sum_app. unfold total at 3. cbn. lia.
Qed.

Lemma combine_start_Inv st i : Inv st -> at_pc st i = Idle -> _lock (comb st) = None ->
  Inv (goto i (Combining (_agents (comb st)) (_global_result (comb st)) (pending st)) (set_lock (Some i) (comb st)) st).
Proof.
  intros I Hi El. apply Inv_goto; auto; try apply I; try done.
  - split_and!; try done; try apply I.
    all: change (words num (set_lock _ _) ?l) with (words num (comb st) l); rewrite pending_eq, taken_unlocked by done; cbn; lia.
  - intros q Hq. pose proof (inv_total st I q Hq) as Ht. unfold balanced in *. rewrite taken_unlocked in Ht by done.
    by rewrite (taken_goto_self _ _ _ (set_lock (Some i) (comb st))).
Qed.

Lemma combine_one_Inv st i a rest ret since : Inv st -> zlen (recorded st) < 2 ^ 31 ->
  at_pc st i = Combining (a :: rest) ret since ->
  Inv (goto i (Combining rest (combine_one a ret (comb st)) since) (comb st) st).
Proof.
  intros I Hlt Hi. pose proof (inv_pc st I i) as Hok. rewrite Hi in Hok. destruct Hok as (El & Hnd & Hsub & Hg & Hs).
  apply NoDup_cons in Hnd as [Hra Hnd]. rewrite words_cons in Hs.
  pose proof (inv_words st I a (Hsub a ltac:(left))) as Hw. pose proof (pending_le st I).
  pose proof (words_num_nonneg (comb st) rest ltac:(intros; apply (inv_words st I); apply Hsub; by right)).
  destruct (AddToStat_exact ret _ Hg Hw ltac:(lia)) as [E Hg'].
  apply Inv_goto; auto; try apply I; try done.
  - unfold combine_one. split_and!; try done; [intros; apply Hsub; by right|rewrite E; cbn [num]; lia..].
  - intros q Hq. pose proof (inv_total st I q Hq) as Ht. unfold balanced in *. rewrite taken_goto_self by done.
    unfold taken in Ht. by rewrite El, Hi in Ht.
Qed.

Lemma reset_start_Inv st i : Inv st -> at_pc st i = Idle -> _lock (comb st) = None ->
  Inv (goto i (Resetting (_agents (comb st)) (_global_result (comb st))) (set_global Stat_ctor (set_lock (Some i) (comb st))) st).
Proof.
  intros I Hi El. apply Inv_goto; auto; try apply I; try done.
  - split_and!; try done; apply I.
  - intros q Hq. pose proof (inv_total st I q Hq) as Ht. unfold balanced in *. rewrite taken_unlocked in Ht by done.
    rewrite taken_goto_self by done. rewrite field_zero in Ht by done. cbn [goto comb set_global set_lock _global_result _agents element _lock recorded resets].
    rewrite field_zero by done. change (words q (set_global _ _) ?l) with (words q (comb st) l). lia.
Qed.

Lemma reset_one_Inv st i a rest tmp : Inv st -> zlen (recorded st) < 2 ^ 31 ->
  at_pc st i = Resetting (a :: rest) tmp ->
  Inv (goto i (Resetting rest (reset_one a tmp (comb st)).1) (reset_one a tmp (comb st)).2 st).
Proof.
  intros I Hlt Hi. pose proof (inv_pc st I i) as Hok. rewrite Hi in Hok. destruct Hok as (El & Hnd & Hsub & Hg).
  apply NoDup_cons in Hnd as [Hra Hnd]. pose proof (Hsub a ltac:(left)) as Ha.
  pose proof (inv_words st I a Ha) as Hw. destruct (commit_bound st a I Hlt Ha) as [_ Hb].
  assert (taken st = tmp) as Et by (unfold taken; by rewrite El, Hi). rewrite Et in Hb.
  destruct (AddToStat_exact tmp _ Hg Hw Hb) as [_ Hg']. cbn [reset_one fst snd].
  apply Inv_goto; auto; try apply I; try done.
  - intros b Hb'. rewrite load_store. destruct (decide (a = b)); [apply word_ok_0|]. by apply (inv_words st I).
  - split_and!; try done. intros; apply Hsub; by right.
  - intros q Hq. pose proof (inv_total st I q Hq) as Ht. unfold balanced in *. rewrite Et in Ht. rewrite taken_goto_self by done.
    cbn [goto comb resets recorded _global_result store _agents].
    rewrite words_store, decide_True, dec_0, (field_zero q), field_add by (done || apply I). lia.
Qed.

(** The lock is released: the result of a reset moves to the resets. *)
Lemma combine_end_Inv st i ret since : Inv st -> at_pc st i = Combining [] ret since ->
  Inv (add_value (since, ret, pending st) (goto i Idle (set_lock None (comb st)) st)).
Proof.
  intros I Hi. pose proof (inv_pc st I i) as Hok. rewrite Hi in Hok. destruct Hok as (El & _ & _ & _ & Hs).
  assert (Inv (goto i Idle (set_lock None (comb st)) st)) as I'.
  { apply Inv_goto; auto; try apply I; try done.
    - cbn. by rewrite decide_True.
    - intros q Hq. pose proof (inv_total st I q Hq) as Ht. unfold balanced in *.
      rewrite (taken_unlocked (goto _ _ _ _)) by done. unfold taken in Ht. by rewrite El, Hi in Ht. }
  split; try apply I'. cbn. apply Forall_app. split; [apply I|]. apply Forall_singleton. unfold words in Hs. cbn in Hs. lia.
Qed.

Lemma reset_end_Inv st i tmp : Inv st -> at_pc st i = Resetting [] tmp ->
  Inv (add_reset tmp (goto i Idle (set_lock None (comb st)) st)).
Proof.
  intros I Hi. pose proof (inv_pc st I i) as Hok. rewrite Hi in Hok. destruct Hok as (El & _ & _ & Hg).
  split; cbn [add_reset goto comb resets recorded values]; try apply I.
  - apply Forall_app. split; [apply I|]. by apply Forall_singleton.
  - intros j. change (at_pc (add_reset _ ?s) j) with (at_pc s j). rewrite at_goto. destruct (decide (i = j)) as [<-|Hne]; [done|].
    apply (pc_ok_unlocked (comb st) _ (pending st)); [rewrite El; congruence|done|apply (inv_pc st I)].
  - intros j [=].
  - intros q Hq. pose proof (inv_total st I q Hq) as Ht. unfold balanced in *.
    rewrite (taken_unlocked (add_reset _ _)), field_zero by done. unfold taken in Ht. rewrite El, Hi in Ht.
    cbn [add_reset goto comb resets recorded set_lock _global_result _agents]. rewrite map_app, total_sum_app.
    change (words q (set_lock _ _) ?l) with (words q (comb st) l). unfold total at 2. cbn. lia.
Qed.

Lemma step_Inv i st st' : Inv st -> zlen (recorded st) < 2 ^ 31 -> step i st st' -> Inv st'.
Proof.
  intros I Hlt Hstep. pose proof (inv_pc st I i) as Hok.
  assert (Hidle : at_pc st i = Idle -> locked_pc (at_pc st i) = false) by (by intros ->).
  destruct Hstep as [Hi Ha El|x Hi Ha|x Hi|x n Hi Hc El|x n Hi Hc <-|x n Hi Hc|Hi El|a rest ret since Hi|ret since Hi
    |Hi El|a rest tmp Hi|tmp Hi|Hi Ha El]; try (rewrite Hi in Hok; cbn in Hok).
  - by apply create_Inv.
  - apply Inv_local; auto. split; [apply truncate_int|done].
  - apply Inv_local; [done|by rewrite Hi|done|done].
  - apply commit_Inv; try done; [by rewrite Hi|apply Hok..].
  - apply cas_Inv; try done; [by rewrite Hi|apply Hok..].
  - apply Inv_local; [done|by rewrite Hi|done|done].
  - by apply combine_start_Inv.
  - by eapply combine_one_Inv.
  - by apply combine_end_Inv.
  - by apply reset_start_Inv.
  - by eapply reset_one_Inv.
  - by apply reset_end_Inv.
  - apply exit_Inv; auto.
Qed.

Lemma initial_Inv : Inv initial.
Proof.
  split; cbn; try done; [apply NoDup_nil_2|intros a Ha; by apply not_elem_of_nil in Ha|].
  intros q [-> | ->]; reflexivity.
Qed.

Lemma step_recorded i st st' : step i st st' -> zlen (recorded st) <= zlen (recorded st').
Proof. destruct 1; cbn [goto add_recorded add_reset add_value recorded]; rewrite ?zlen_app; unfold zlen; lia. Qed.

Lemma recorder_reachable_Inv st : reachable st -> zlen (recorded st) < 2 ^ 31 -> Inv st.
Proof.
  induction 1 as [|i st st' _ IH Hs]; intros Hlt; [apply initial_Inv|].
  pose proof (step_recorded i st st' Hs). eapply step_Inv; [apply IH; lia|lia|done].
Qed.


(** ** The functions as a whole *)

Lemma combine_spec c l : forall ret, good ret -> (forall a, a ∈ l -> word_ok (load c a)) -> num ret + words num c l < 2 ^ 31 ->
  fold_left (fun ret a => combine_one a ret c) l ret = mkStat (sum ret + words sum c l) (num ret + words num c l).
Proof.
  induction l as [|a l IH]; intros ret Hg Hw Hlt.
  - unfold words. cbn. rewrite !Z.add_0_r. by destruct ret.
  - cbn [fold_left]. rewrite !words_cons in *.
    pose proof (words_num_nonneg c l ltac:(intros; apply Hw; by right)).
    destruct (AddToStat_exact ret (load c a) Hg (Hw a ltac:(left)) ltac:(lia)) as [E Hg'].
    unfold combine_one at 2. rewrite IH; [rewrite E; cbn [sum num]; f_equal; lia|done|intros; apply Hw; by right|].
    rewrite E. cbn [num]. lia.
Qed.

Lemma reset_all_spec l : forall tmp c, NoDup l -> good tmp -> (forall a, a ∈ l -> word_ok (load c a)) -> num tmp + words num c l < 2 ^ 31 ->
  exists c', fold_left (fun '(tmp, c) a => reset_one a tmp c) l (tmp, c)
      = (mkStat (sum tmp + words sum c l) (num tmp + words num c l), c') /\
    _global_result c' = _global_result c /\ _agents c' = _agents c /\
    (forall a, load c' a = if decide (a ∈ l) then 0 else load c a).
Proof.
  induction l as [|a l IH]; intros tmp c Hnd Hg Hw Hlt.
  - exists c. unfold words. cbn. rewrite !Z.add_0_r. split; [by destruct tmp|]. split_and!; [done|done|].
    intros a. by rewrite decide_False by apply not_elem_of_nil.
  - apply NoDup_cons in Hnd as [Ha Hnd]. cbn [fold_left]. change (reset_one a tmp c) with (AddToStat tmp (load c a), store a 0 c). rewrite !words_cons in *.
    pose proof (words_num_nonneg c l ltac:(intros; apply Hw; by right)).
    destruct (AddToStat_exact tmp (load c a) Hg (Hw a ltac:(left)) ltac:(lia)) as [E Hg'].
    assert (forall p, words p (store a 0 c) l = words p c l) as Hl.
    { intros p. apply words_ext. intros b Hb. rewrite load_store, decide_False; [done|]. by intros ->. }
    destruct (IH (AddToStat tmp (load c a)) (store a 0 c)) as (c' & -> & Hgl & Hag & Hld); [done|done| | |].
    { intros b Hb. rewrite load_store, decide_False by (by intros ->). apply Hw. by right. }
    { rewrite Hl, E. cbn [num]. lia. }
    exists c'. rewrite !Hl, E. cbn [sum num]. split; [f_equal; f_equal; lia|]. split_and!; [done|done|].
    intros b. rewrite Hld, load_store. destruct (decide (b ∈ l)) as [Hb|Hb].
    + by rewrite decide_True by (by right).
    + destruct (decide (a = b)) as [<-|Hne]; [by rewrite decide_True by left|by rewrite decide_False by set_solver].
Qed.

Lemma words_zero p c l : field p -> (forall a, a ∈ l -> load c a = 0) -> words p c l = 0.
Proof.
  intros Hf. induction l as [|a l IH]; intros Hl; [done|].
  rewrite words_cons, Hl, dec_0, field_zero by (done || by left). rewrite IH; [done|]. intros b Hb. apply Hl. by right.
Qed.

(** C21. Whatever the interleaving of threads that record, combine, reset and exit,
    no sample is lost or counted twice, below 2^31 samples: when the lock is free,
    what combine_agents returns and the results of all resets add up to the samples
    recorded, in number and in sum, without overflow; reset_all_agents returns
    the same and leaves nothing; a value that was combined while others recorded
    counts a number of samples between those of its start and of its end; and a
    thread that holds the lock can always go on. *)
Theorem recorder_exact st :
  reachable st -> zlen (recorded st) < 2 ^ 31 ->
  (_lock (comb st) = None ->
    let s := combine_agents (comb st) in
    num s + total (map num (resets st)) = zlen (recorded st) /\
    sum s + total (map sum (resets st)) = total (recorded st) /\
    exists c', reset_all_agents (comb st) = (s, c') /\ combine_agents c' = Stat_ctor) /\
  Forall (fun '(since, s, now) => since <= num s <= now) (values st) /\
  (forall i, _lock (comb st) = Some i -> exists st', step i st st').
Proof.
  intros Hr Hlt. pose proof (recorder_reachable_Inv st Hr Hlt) as I. split; [|split; [apply I|]].
  - intros El s. pose proof (pending_eq st I) as Hp. pose proof (pending_le st I).
    rewrite taken_unlocked in Hp by done. cbn [num Stat_ctor] in Hp.
    assert (s = mkStat (sum (_global_result (comb st)) + words sum (comb st) (_agents (comb st)))
                       (num (_global_result (comb st)) + words num (comb st) (_agents (comb st)))) as Es.
    { unfold s, combine_agents. apply combine_spec; [apply I|apply (inv_words st I)|lia]. }
    pose proof (inv_total st I num ltac:(by right)) as Hn. pose proof (inv_total st I sum ltac:(by left)) as Hs.
    unfold balanced in Hn, Hs. rewrite taken_unlocked in Hn, Hs by done. rewrite total_ones in Hn.
    assert (map (fun x => sum (mkStat x 1)) (recorded st) = recorded st) as Er by apply map_id. rewrite Er in Hs. cbn [sum num Stat_ctor] in Hn, Hs.
    rewrite Es. cbn [sum num]. split; [lia|]. split; [lia|].
    destruct (reset_all_spec (_agents (comb st)) (_global_result (comb st)) (set_global Stat_ctor (comb st)))
      as (c' & E & Hg & Ha & Hl); [apply I|apply I|apply (inv_words st I)| |].
    { change (words num (set_global _ _) ?l) with (words num (comb st) l). lia. }
    exists c'. split; [exact E|]. unfold combine_agents. rewrite Ha, Hg. cbn [set_global _agents _global_result].
    assert (forall p, field p -> words p c' (_agents (comb st)) = 0) as Hz.
    { intros p Hf. apply words_zero; [done|]. intros a Ha'. by rewrite Hl, decide_True. }
    rewrite combine_spec; [rewrite !Hz by (by left + by right); done|by vm_compute| |].
    + intros a Ha'. rewrite Hl, decide_True by done. apply word_ok_0.
    + rewrite Hz by (by right). by vm_compute.
  - intros i El. pose proof (inv_lock st I i El) as Hi. destruct (at_pc st i) as [| | |[|a rest] ret since|[|a rest] tmp] eqn:E; try done.
    + eexists. by eapply step_combine_end.
    + eexists. by eapply step_combine_one.
    + eexists. by eapply step_reset_end.
    + eexists. by eapply step_reset_one.
Qed.


(** ** Runs

    The steps as a function, to run a schedule. *)
Inductive action := DoCreate | DoRecord (x : Z) | DoCombine | DoReset | DoExit | DoNext | DoFail.

Definition act (i : nat) (a : action) (st : state) : option state :=
  let c := comb st in
  let free := bool_decide (_lock c = None) in
  let mine := bool_decide (i ∈ _agents c) in
  match at_pc st i, a with
  | Idle, DoCreate => if negb mine && free then Some (goto i Idle (get_or_create_tls_agent i c) st) else None
  | Idle, DoRecord x => if mine then Some (goto i (Recording (truncate x)) c st) else None
  | Idle, DoCombine => if free then Some (goto i (Combining (_agents c) (_global_result c) (pending st)) (set_lock (Some i) c) st) else None
  | Idle, DoReset =>
      if free then Some (goto i (Resetting (_agents c) (_global_result c)) (set_global Stat_ctor (set_lock (Some i) c)) st) else None
  | Idle, DoExit => if mine && free then Some (goto i Idle (commit_and_erase i c) st) else None
  | Recording x, DoNext => Some (goto i (Trying x (load c i)) c st)
  | Trying x n, DoNext =>
      if must_commit n x then if free then Some (goto i (Trying x 0) (commit_and_clear i c) st) else None
      else if load c i =? n then Some (add_recorded x (goto i Idle (store i (next_word n x) c) st))
      else Some (goto i (Trying x (load c i)) c st)
  | Trying x n, DoFail => if must_commit n x then None else Some (goto i (Trying x (load c i)) c st)
  | Combining (a :: rest) ret since, DoNext => Some (goto i (Combining rest (combine_one a ret c) since) c st)
  | Combining [] ret since, DoNext => Some (add_value (since, ret, pending st) (goto i Idle (set_lock None c) st))
  | Resetting (a :: rest) tmp, DoNext => Some (goto i (Resetting rest (reset_one a tmp c).1) (reset_one a tmp c).2 st)
  | Resetting [] tmp, DoNext => Some (add_reset tmp (goto i Idle (set_lock None c) st))
  | _, _ => None
  end.

Fixpoint run (l : list (nat * action)) (st : state) : option state :=
  match l with [] => Some st | (i, a) :: l => st ← act i a st; run l st end.

Lemma act_step i a st st' : act i a st = Some st' -> step i st st'.
Proof.
  unfold act. destruct (at_pc st i) as [|x|x n|[|b rest] ret since|[|b rest] tmp] eqn:Hi; destruct a as [|y| | | | |]; try discriminate.
  - do 2 (case_bool_decide; try discriminate). intros [= <-]. by apply step_create.
  - case_bool_decide; [|discriminate]. intros [= <-]. by apply step_record.
  - case_bool_decide; [|discriminate]. intros [= <-]. by apply step_combine.
  - case_bool_decide; [|discriminate]. intros [= <-]. by apply step_reset.
  - do 2 (case_bool_decide; try discriminate). intros [= <-]. by apply step_exit.
  - intros [= <-]. by apply step_load.
  - destruct (must_commit n x) eqn:Hc.
    + case_bool_decide; [|discriminate]. intros [= <-]. by apply step_commit with n.
    + destruct (Z.eqb_spec (load (comb st) i) n); intros [= <-]; [by apply step_cas|by apply step_cas_fails with n].
  - destruct (must_commit n x) eqn:Hc; [discriminate|]. intros [= <-]. by apply step_cas_fails with n.
  - intros [= <-]. by apply step_combine_end.
  - intros [= <-]. by apply step_combine_one.
  - intros [= <-]. by apply step_reset_end.
  - intros [= <-]. by apply step_reset_one.
Qed.

Lemma run_reachable l : forall st st', reachable st -> run l st = Some st' -> reachable st'.
Proof.
  induction l as [|[i a] l IH]; intros st st' Hr; cbn; [by intros [= <-]|].
  destruct (act i a st) as [st1|] eqn:E; [|done]. cbn. apply IH. eapply reach_step; [done|by eapply act_step].
Qed.

(** Thread 0 records the largest sample until its word is committed, thread 1
    combines and resets while thread 0 goes on, and thread 0 exits. *)
Definition record (i : nat) (x : Z) : list (nat * action) := [(i, DoRecord x); (i, DoNext); (i, DoNext)].

Definition sample_schedule : list (nat * action) :=
  ([(0, DoCreate); (2, DoCreate)] ++ record 2 (- 3000000000)
  ++ concat (replicate 4097 (record 0 (2 ^ 31 - 1))) ++ [(0, DoNext)] ++ record 0 6
  ++ [(1, DoCombine); (1, DoNext)] ++ record 0 7 ++ [(1, DoNext); (1, DoNext)]
  ++ [(1, DoReset); (1, DoNext)] ++ record 0 8 ++ [(1, DoNext); (1, DoNext); (0, DoRecord 9); (0, DoNext); (0, DoFail); (0, DoNext); (0, DoExit)])%nat.

Definition sample_state : state := default initial (run sample_schedule initial).

Theorem recorder_exact_witness :
  run sample_schedule initial = Some sample_state /\
  (_lock (comb sample_state) = None ->
    let s := combine_agents (comb sample_state) in
    num s + total (map num (resets sample_state)) = zlen (recorded sample_state) /\
    sum s + total (map sum (resets sample_state)) = total (recorded sample_state) /\
    exists c', reset_all_agents (comb sample_state) = (s, c') /\ combine_agents c' = Stat_ctor) /\
  Forall (fun '(since, s, now) => since <= num s <= now) (values sample_state) /\
  (forall i, _lock (comb sample_state) = Some i -> exists st', step i sample_state st').
Proof.
  assert (run sample_schedule initial = Some sample_state) as E.
  { assert (match run sample_schedule initial with Some _ => true | None => false end = true) as H by (vm_compute; reflexivity).
    unfold sample_state. destruct (run sample_schedule initial); [reflexivity|discriminate H]. }
  split; [exact E|]. apply (recorder_exact sample_state).
  - exact (run_reachable sample_schedule initial sample_state reach_init E).
  - vm_compute. reflexivity.
Defined.

Example sample_values :
  (fun '(a, s, b) => (a, num s, b)) <$> values sample_state = [(4099, 4099, 4100)] /\
  num <$> resets sample_state = [4100].
Proof. vm_compute. done. Qed.

End RecorderSteps.
