(* ===== verification/StringNumber.v ===== *)
(** * StringNumber: utility/strings/string_number_conversions.cc

    Integers to decimal text and back.  A character is the integer value of its
    CHAR type (a signed [char] or a [char16]); the whitespace test, which is the
    locale's, is a parameter.  The conversions are generic in the width and the
    signedness of the integer type, as the templates are. *)

From S2P Require Import Prelude.

Module StringNumber.

Definition chr_0 := 48.
Definition chr_minus := 45.
Definition chr_plus := 43.

(** ** Integer to string *)

(** TestNegT and ToUnsignedT.  The negation is done in [INT], after promotion to
    int when that is wider; of the smallest value it is undefined otherwise. *)
Definition TestNeg (t : int_type) (value : Z) : bool :=
  if is_signed t then value <? 0 else false.

Definition ToUnsigned (t : int_type) (value : Z) : option Z :=
  if is_signed t && (value <? 0) then
    if (32 <=? width t) && (value =? ty_min t) then None else Some (wrapu (width t) (- value))
  else Some (wrapu (width t) value).

(** The buffer is filled from its end: [room] is [it - outbuf.begin()], [acc]
    the characters from [it] on.  [None]: DCHECK(it != outbuf.begin()) fails,
    after the decrement, or the decrement leaves the buffer. *)
Definition put_back (c : Z) (s : Z * list Z) : option (Z * list Z) :=
  let '(room, acc) := s in
  let room := room - 1 in
  if 0 <? room then Some (room, c :: acc) else None.

Fixpoint digits_loop (fuel : nat) (res : Z) (s : Z * list Z) : option (Z * list Z) :=
  match fuel with
  | O => None
  | S n =>
      s ← put_back (res mod 10 + chr_0) s;
      let res := res / 10 in
      if negb (res =? 0) then digits_loop n res s else Some s
  end.

Definition kOutputBufSize (t : int_type) : Z := 3 * (width t / 8) + 1.

Definition IntToString (t : int_type) (value : Z) : option (list Z) :=
  let is_neg := TestNeg t value in
  res ← ToUnsigned t value;
  s ← digits_loop (Z.to_nat (kOutputBufSize t)) res (kOutputBufSize t, []);
  s ← (if is_neg then put_back chr_minus s else Some s);
  Some s.2.

(** ** String to integer *)

Definition CharToDigit (BASE : Z) (c : Z) : option Z :=
  if BASE <=? 10 then
    if (48 <=? c) && (c <? 48 + BASE) then Some (c - 48) else None
  else
    if (48 <=? c) && (c <=? 57) then Some (c - 48)
    else if (97 <=? c) && (c <? 97 + BASE - 10) then Some (c - 97 + 10)
    else if (65 <=? c) && (c <? 65 + BASE - 10) then Some (c - 65 + 10)
    else None.

(** The classes Positive and Negative of IteratorRangeToNumber. *)
Inductive sign := Positive | Negative.

(** CheckBounds: [inr out] when the digit fits, [inl out] with the saturated
    output otherwise.  Division and remainder truncate, as in C. *)
Definition CheckBounds (t : int_type) (kBase : Z) (sg : sign) (output new_digit : Z)
  : Z + Z :=
  match sg with
  | Positive =>
      if (Z.quot (ty_max t) kBase <? output)
         || ((output =? Z.quot (ty_max t) kBase)
             && (Z.rem (ty_max t) kBase <? new_digit))
      then inl (ty_max t) else inr output
  | Negative =>
      if (output <? Z.quot (ty_min t) kBase)
         || ((output =? Z.quot (ty_min t) kBase)
             && (0 - Z.rem (ty_min t) kBase <? new_digit))
      then inl (ty_min t) else inr output
  end.

Definition Increment (t : int_type) (sg : sign) (increment output : Z) : Z :=
  match sg with
  | Positive => ty_wrap t (output + increment)
  | Negative => ty_wrap t (output - increment)
  end.

(** The digit loop of Base::Invoke; [first] is [current == begin]. *)
Fixpoint number_loop (t : int_type) (kBase : Z) (sg : sign) (first : bool)
    (l : list Z) (output : Z) : bool * Z :=
  match l with
  | [] => (true, output)
  | c :: l =>
      match CharToDigit kBase c with
      | None => (false, output)
      | Some new_digit =>
          if first then number_loop t kBase sg false l (Increment t sg new_digit output)
          else match CheckBounds t kBase sg output new_digit with
               | inl output => (false, output)
               | inr output =>
                   number_loop t kBase sg false l
                     (Increment t sg new_digit (ty_wrap t (output * kBase)))
               end
      end
  end.

(** The hexadecimal prefix is skipped when something follows it. *)
Definition skip_hex_prefix (kBase : Z) (l : list Z) : list Z :=
  match l with
  | c0 :: c1 :: _ :: _ =>
      if (kBase =? 16) && (c0 =? 48) && ((c1 =? 120) || (c1 =? 88))
      then drop 2 l else l
  | _ => l
  end.

Definition Base_Invoke (t : int_type) (kBase : Z) (sg : sign) (l : list Z) : bool * Z :=
  match l with
  | [] => (false, 0)
  | _ => number_loop t kBase sg true (skip_hex_prefix kBase l) 0
  end.

Section Parser.
Context (LocalIsWhitespace : Z -> bool).

Fixpoint skip_whitespace (valid : bool) (l : list Z) : bool * list Z :=
  match l with
  | c :: l' => if LocalIsWhitespace c then skip_whitespace false l' else (valid, l)
  | [] => (valid, [])
  end.

(** IteratorRangeToNumber::Invoke.  The output keeps its value [out0] when a
    minus sign meets an unsigned type. *)
Definition Invoke (t : int_type) (kBase : Z) (l : list Z) (out0 : Z) : bool * Z :=
  let '(valid, l) := skip_whitespace true l in
  match l with
  | c :: l' =>
      if c =? chr_minus then
        if negb (is_signed t) then (false, out0)
        else let '(ok, out) := Base_Invoke t kBase Negative l' in (ok && valid, out)
      else
        let l := if c =? chr_plus then l' else l in
        let '(ok, out) := Base_Invoke t kBase Positive l in (ok && valid, out)
  | [] => let '(ok, out) := Base_Invoke t kBase Positive [] in (ok && valid, out)
  end.

(** The public functions: base 10 on any of the integer types, base 16. *)
Definition StringToInt (l : list Z) (out0 : Z) := Invoke int_t 10 l out0.
Definition StringToUint (l : list Z) (out0 : Z) := Invoke unsigned_t 10 l out0.
Definition StringToInt64 (l : list Z) (out0 : Z) := Invoke int64_t 10 l out0.
Definition StringToUint64 (l : list Z) (out0 : Z) := Invoke uint64_t 10 l out0.
Definition StringToSizeT (l : list Z) (out0 : Z) := Invoke uint64_t 10 l out0.
Definition HexStringToInt (l : list Z) (out0 : Z) := Invoke int_t 16 l out0.
Definition HexStringToUInt (l : list Z) (out0 : Z) := Invoke unsigned_t 16 l out0.
Definition HexStringToInt64 (l : list Z) (out0 : Z) := Invoke int64_t 16 l out0.
Definition HexStringToUInt64 (l : list Z) (out0 : Z) := Invoke uint64_t 16 l out0.
End Parser.

(** isspace() of the C locale. *)
Definition isspace (c : Z) : bool := ((9 <=? c) && (c <=? 13)) || (c =? 32).

(** ** Hexadecimal dumps *)

Definition kHexChars : list Z :=
  [48; 49; 50; 51; 52; 53; 54; 55; 56; 57; 65; 66; 67; 68; 69; 70].

Definition hex_char (i : Z) : Z := nth (Z.to_nat i) kHexChars 0.
Arguments hex_char : simpl never.

(** [b] is a (signed) char: the shift is arithmetic. *)
Fixpoint HexEncode (bytes : list Z) : list Z :=
  match bytes with
  | [] => []
  | b :: bytes =>
      hex_char (Z.land (Z.shiftr (wraps 8 b) 4) 15)
      :: hex_char (Z.land (wraps 8 b) 15) :: HexEncode bytes
  end.

(** The loop of HexStringToBytesT over pairs of characters. *)
Fixpoint hex_pairs (input output : list Z) : bool * list Z :=
  match input with
  | c1 :: c2 :: input =>
      match CharToDigit 16 c1, CharToDigit 16 c2 with
      | Some msb, Some lsb =>
          hex_pairs input (output ++ [u8 (Z.lor (Z.shiftl msb 4) lsb)])
      | _, _ => (false, output)
      end
  | _ => (true, output)
  end.

Definition HexStringToBytes (input : list Z) : bool * list Z :=
  let count := zlen input in
  if (count =? 0) || negb (count mod 2 =? 0) then (false, [])
  else hex_pairs input [].

Example int_prints : IntToString int_t (1 - 2 ^ 31) =
  Some [45; 50; 49; 52; 55; 52; 56; 51; 54; 52; 55].
Proof. vm_compute. reflexivity. Qed.

Example hex_prefix : HexStringToInt isspace [45; 48; 120; 102; 102] 7 = (true, - 255).
Proof. vm_compute. reflexivity. Qed.

(** ** The reference: unbounded arithmetic *)

(** Accumulate digits without overflow; stop at [limit]. *)
Fixpoint mag_loop (base limit : Z) (l : list Z) (m : Z) : bool * Z :=
  match l with
  | [] => (true, m)
  | c :: l =>
      match CharToDigit base c with
      | None => (false, m)
      | Some d => if limit <? m * base + d then (false, limit)
                  else mag_loop base limit l (m * base + d)
      end
  end.

Definition limit (t : int_type) (sg : sign) : Z :=
  match sg with Positive => ty_max t | Negative => - ty_min t end.

Definition signed (sg : sign) (m : Z) : Z :=
  match sg with Positive => m | Negative => - m end.

(** The number written by a list of digits, most significant first. *)
Definition value (base : Z) (ds : list Z) : Z :=
  foldl (fun a d => a * base + d) 0 ds.

Lemma CharToDigit_range base c d :
  0 < base <= 36 -> CharToDigit base c = Some d -> 0 <= d < base.
Proof.
  unfold CharToDigit. intros Hb. repeat case_match; intros ?; simplify_eq; lia.
Qed.

(** The types that can be parsed into: the sign of the limit and room for one
    digit. *)
Lemma limit_bounds t sg :
  ty_ok t -> (sg = Negative -> is_signed t = true) ->
  36 <= limit t sg /\ ty_min t <= signed sg (limit t sg) <= ty_max t.
Proof.
  intros (k & Hk & Hw) Hs. unfold limit, signed, ty_min, ty_max.
  rewrite Hw. assert (2 ^ 7 <= 2 ^ (8 * k - 1)) by (apply Z.pow_le_mono_r; lia).
  assert (2 ^ (8 * k) = 2 * 2 ^ (8 * k - 1)).
  { rewrite <-Z.pow_succ_r by lia. f_equal. lia. }
  change (2 ^ 7) with 128 in *.
  destruct sg; [destruct (is_signed t); lia|]. rewrite Hs by done. lia.
Qed.

Lemma ty_zero t : ty_ok t -> ty_min t <= 0 /\ 36 <= ty_max t.
Proof.
  intros Ht. destruct (limit_bounds t Positive Ht ltac:(done)) as [H _].
  cbn in H. split; [|done]. destruct Ht as (k & Hk & Hw). unfold ty_min.
  assert (0 < 2 ^ (width t - 1)) by (apply Z.pow_pos_nonneg; lia).
  destruct (is_signed t); lia.
Qed.

(** The overflow test by division is exact. *)
Lemma CheckBounds_exact t base sg m d :
  ty_ok t -> (sg = Negative -> is_signed t = true) ->
  0 < base -> 0 <= d < base -> 0 <= m ->
  CheckBounds t base sg (signed sg m) d =
    if limit t sg <? m * base + d then inl (signed sg (limit t sg))
    else inr (signed sg m).
Proof.
  intros Ht Hs Hb Hd Hm. destruct (limit_bounds t sg Ht Hs) as [HL _].
  assert (forall L, 36 <= L ->
    ((L / base <? m) || ((m =? L / base) && (L mod base <? d)))
    = (L <? m * base + d)) as Key.
  { intros L HL'. pose proof (Z.div_mod L base ltac:(lia)).
    pose proof (Z.mod_pos_bound L base Hb).
    destruct (Z.ltb_spec L (m * base + d)).
    - destruct (Z.ltb_spec (L / base) m); [done|].
      assert (m = L / base) by nia. subst m. rewrite Z.eqb_refl. cbn. lia.
    - destruct (Z.ltb_spec (L / base) m); [nia|].
      destruct (Z.eqb_spec m (L / base)); cbn; [subst; lia|done]. }
  destruct sg; cbn [CheckBounds signed limit] in *.
  - rewrite Z.quot_div_nonneg, Z.rem_mod_nonneg by lia. rewrite Key by lia.
    by destruct (_ <? _).
  - set (L := - ty_min t) in *. replace (ty_min t) with (- L) by lia.
    rewrite Z.quot_opp_l, Z.rem_opp_l by lia.
    rewrite Z.quot_div_nonneg, Z.rem_mod_nonneg by lia.
    replace (- m <? - (L / base)) with (L / base <? m) by lia.
    replace (- m =? - (L / base)) with (m =? L / base) by lia.
    replace (0 - - (L mod base)) with (L mod base) by lia.
    rewrite Key by lia. by destruct (_ <? _).
Qed.

Lemma number_loop_exact t base sg l m first :
  ty_ok t -> (sg = Negative -> is_signed t = true) -> 1 < base <= 36 ->
  0 <= m <= limit t sg -> (first = true -> m = 0) ->
  number_loop t base sg first l (signed sg m) =
    let '(ok, m') := mag_loop base (limit t sg) l m in (ok, signed sg m').
Proof.
  intros Ht Hs Hb. revert m first. destruct (limit_bounds t sg Ht Hs) as [HL HR].
  induction l as [|c l IH]; intros m first Hm Hf; cbn; [done|].
  destruct (CharToDigit base c) as [d|] eqn:Ed; [|done].
  pose proof (CharToDigit_range base c d ltac:(lia) Ed) as Hd.
  assert (forall m', 0 <= m' -> m' + d <= limit t sg ->
            Increment t sg d (ty_wrap t (signed sg m')) = signed sg (m' + d)) as HI.
  { intros m' Hm' Hle. pose proof (ty_zero t Ht).
    rewrite (ty_wrap_id t (signed sg m')) by (done || (destruct sg; cbn in *; lia)).
    unfold Increment. destruct sg; cbn in *; rewrite ty_wrap_id by (done || lia); lia. }
  destruct first.
  - assert (m = 0) as -> by auto.
    replace (Increment t sg d (signed sg 0)) with (signed sg (0 * base + d)).
    2:{ pose proof (ty_zero t Ht). rewrite <-(ty_wrap_id t (signed sg 0))
          by (done || (unfold signed; destruct sg; cbn in *; lia)).
        by rewrite HI by lia. }
    rewrite IH by (done || lia). rewrite (proj2 (Z.ltb_ge _ _)) by lia. done.
  - rewrite CheckBounds_exact by (done || lia).
    destruct (Z.ltb_spec (limit t sg) (m * base + d)); [done|].
    replace (signed sg m * base) with (signed sg (m * base)) by (destruct sg; cbn; lia).
    rewrite HI by nia. apply IH; [nia|done].
Qed.

(** On digits the loop computes the value, or stops at the limit. *)
Lemma mag_loop_digits base L l ds m :
  0 < base <= 36 -> 0 <= m <= L -> mapM (CharToDigit base) l = Some ds ->
  let v := foldl (fun a d => a * base + d) m ds in
  m <= v /\ mag_loop base L l m = if v <=? L then (true, v) else (false, L).
Proof.
  intros Hb. revert m ds. induction l as [|c l IH]; intros m ds Hm Hds.
  { injection Hds as <-. cbn. destruct (Z.leb_spec m L); [done|lia]. }
  apply mapM_Some in Hds. inversion Hds as [|? d ? ds' Hd Hds']; subst.
  apply mapM_Some in Hds'. cbn. rewrite Hd.
  pose proof (CharToDigit_range base c d ltac:(lia) Hd).
  assert (forall x, 0 <= x -> x <= foldl (fun a d => a * base + d) x ds') as Hmono.
  { clear IH Hds. revert Hds'. generalize l. induction ds' as [|d' ds' IHd];
      intros l' Hl' x Hx; cbn; [lia|].
    destruct l' as [|c' l']; [done|]. apply mapM_Some in Hl'.
    inversion Hl'; subst.
    pose proof (CharToDigit_range base c' d' ltac:(lia) ltac:(done)).
    etrans; [|eapply IHd; [by apply mapM_Some|nia]]. nia. }
  pose proof (Hmono (m * base + d) ltac:(nia)).
  destruct (Z.ltb_spec L (m * base + d)).
  - split; [nia|]. by rewrite (proj2 (Z.leb_gt _ _)) by lia.
  - destruct (IH (m * base + d) ds' ltac:(nia) Hds') as [_ ->].
    split; [nia|done].
Qed.

(** If the loop succeeds every character was a digit. *)
Lemma mag_loop_true base L l m v :
  mag_loop base L l m = (true, v) -> exists ds, mapM (CharToDigit base) l = Some ds.
Proof.
  revert m. induction l as [|c l IH]; intros m; cbn; [by exists []|].
  destruct (CharToDigit base c) as [d|]; [|done].
  destruct (_ <? _); [done|]. intros [ds Hds]%IH. rewrite Hds. by eexists.
Qed.

(** ** Printing *)

(** A value of two bytes or more leaves two of the characters. *)
Lemma pow_fits k : 1 < k -> 2 ^ (8 * k) < 10 ^ (3 * k - 1).
Proof.
  intros Hk. rewrite Z.pow_mul_r by lia. change (2 ^ 8) with 256.
  replace k with (2 + (k - 2)) at 1 by lia. rewrite Z.pow_add_r by lia.
  replace (3 * k - 1) with (5 + 3 * (k - 2)) by lia. rewrite Z.pow_add_r, (Z.pow_mul_r 10 3) by lia.
  change (256 ^ 2) with 65536. change (10 ^ 5) with 100000. change (10 ^ 3) with 1000.
  assert (256 ^ (k - 2) <= 1000 ^ (k - 2)) by (apply Z.pow_le_mono_l; lia).
  assert (0 < 256 ^ (k - 2)) by (apply Z.pow_pos_nonneg; lia). lia.
Qed.

(** The digit loop puts the decimal digits of [res] before [acc]. *)
Lemma digits_loop_spec fuel res room acc :
  0 <= res < 10 ^ Z.of_nat fuel -> Z.of_nat fuel < room -> (0 < fuel)%nat ->
  exists l ds, digits_loop fuel res (room, acc) = Some (room - zlen l, l ++ acc) /\
    mapM (CharToDigit 10) l = Some ds /\ value 10 ds = res /\
    zlen l <= Z.of_nat fuel /\ l <> [] /\ Forall (fun c => 48 <= c <= 57) l.
Proof.
  revert res room acc. induction fuel as [|n IH]; intros res room acc Hres Hroom Hf; [lia|].
  cbn [digits_loop put_back]. rewrite (proj2 (Z.ltb_lt _ _)) by lia.
  cbn [mbind option_bind].
  pose proof (Z.mod_pos_bound res 10 ltac:(lia)).
  pose proof (Z.div_mod res 10 ltac:(lia)).
  pose proof (Z.div_pos res 10 ltac:(lia) ltac:(lia)).
  assert (CharToDigit 10 (res mod 10 + chr_0) = Some (res mod 10)) as Hc.
  { unfold CharToDigit, chr_0. cbn [Z.leb Z.compare].
    rewrite (proj2 (Z.leb_le 48 _)), (proj2 (Z.ltb_lt _ (48 + 10))) by lia.
    cbn. f_equal. lia. }
  destruct (Z.eqb_spec (res / 10) 0) as [E|E]; cbn [negb].
  - eexists [_], [_]. split; [unfold zlen; cbn; f_equal; f_equal; lia|].
    cbn [mapM]. rewrite Hc. cbn. split; [done|].
    unfold value. cbn. split; [lia|]. unfold zlen, chr_0. cbn.
    split_and!; [lia|done|]. repeat constructor; lia.
  - assert (0 < n)%nat.
    { destruct n; [|lia]. change (10 ^ Z.of_nat 1) with 10 in *. nia. }
    replace (Z.of_nat (S n)) with (Z.succ (Z.of_nat n)) in * by lia.
    rewrite Z.pow_succ_r in Hres by lia.
    destruct (IH (res / 10) (room - 1) ((res mod 10 + chr_0) :: acc))
      as (l & ds & -> & Hds & Hv & Hlen & Hne & Hall); [lia..|].
    exists (l ++ [res mod 10 + chr_0]), (ds ++ [res mod 10]).
    rewrite zlen_app. split; [rewrite <-app_assoc; unfold zlen; cbn; do 2 f_equal; lia|].
    split.
    { apply mapM_Some. apply Forall2_app; [by apply mapM_Some|].
      by constructor. }
    split. { unfold value in *. rewrite foldl_app, Hv. cbn. lia. }
    unfold zlen, chr_0 in *. cbn. split_and!; [lia|by destruct l|].
    apply Forall_app. split; [done|]. repeat constructor; lia.
Qed.

(** The values that IntToString prints: not the smallest of a signed type that
    is not narrower than int, whose negation is undefined, and none of -100 to
    -128 of a signed char, which fill the buffer. *)
Definition printable (t : int_type) (v : Z) : bool :=
  negb (is_signed t && if width t <? 16 then v <=? -100 else (32 <=? width t) && (v =? ty_min t)).

Lemma ToUnsigned_abs t v :
  ty_ok t -> ty_min t <= v <= ty_max t -> (is_signed t = true -> 32 <= width t -> v <> ty_min t) ->
  ToUnsigned t v = Some (Z.abs v).
Proof.
  intros Ht Hv Hmin. pose proof Ht as (k & Hk & Hw). unfold ToUnsigned, ty_min, ty_max in *. rewrite Hw in *.
  assert (2 ^ (8 * k) = 2 * 2 ^ (8 * k - 1)).
  { rewrite <-Z.pow_succ_r by lia. f_equal. lia. }
  assert (0 < 2 ^ (8 * k - 1)) by (apply Z.pow_pos_nonneg; lia).
  destruct (is_signed t); cbn [andb]; [|rewrite wrapu_small by lia; f_equal; lia].
  destruct (Z.ltb_spec v 0); [|rewrite wrapu_small by lia; f_equal; lia].
  replace ((32 <=? 8 * k) && (v =? - 2 ^ (8 * k - 1))) with false.
  - rewrite wrapu_small by lia. f_equal. lia.
  - destruct (Z.leb_spec 32 (8 * k)); [|done]. specialize (Hmin eq_refl ltac:(lia)). cbn. lia.
Qed.

(** Spare fuel changes nothing. *)
Lemma digits_loop_fuel n m res s r :
  digits_loop n res s = Some r -> (n <= m)%nat -> digits_loop m res s = Some r.
Proof.
  revert m res s. induction n as [|n IH]; intros m res s E Hle; [done|]. destruct m as [|m]; [lia|].
  cbn [digits_loop] in *. destruct (put_back _ s) as [s'|]; [|done].
  cbn in *. destruct (negb _); [|done]. apply IH; [done|lia].
Qed.

(** How many digits a printable value has, and that they and the minus leave
    the first character of the buffer. *)
Lemma digits_fit t v :
  ty_ok t -> ty_min t <= v <= ty_max t -> printable t v = true ->
  exists f : nat, (0 < f)%nat /\ Z.abs v < 10 ^ Z.of_nat f /\
    Z.of_nat f + (if v <? 0 then 1 else 0) <= 3 * (width t / 8).
Proof.
  intros (k & Hk & Hw) Hv Hp. unfold printable, ty_min, ty_max in *. rewrite Hw in *.
  rewrite (Z.mul_comm 8 k), Z.div_mul by lia.
  assert (2 ^ (8 * k) = 2 * 2 ^ (8 * k - 1)).
  { rewrite <-Z.pow_succ_r by lia. f_equal. lia. }
  destruct (decide (k = 1)) as [->|].
  - change (2 ^ (8 * 1 - 1)) with 128 in *. change (2 ^ (8 * 1)) with 256 in *. change (8 * 1 <? 16) with true in Hp.
    destruct (Z.ltb_spec v 0).
    + exists 2%nat. destruct (is_signed t); [|lia]. change (10 ^ Z.of_nat 2) with 100. cbn in Hp. lia.
    + exists 3%nat. change (10 ^ Z.of_nat 3) with 1000. destruct (is_signed t); lia.
  - exists (Z.to_nat (3 * k - 1)). rewrite Z2Nat.id by lia. pose proof (pow_fits k ltac:(lia)).
    split; [lia|]. split; [destruct (is_signed t); lia|]. destruct (v <? 0); lia.
Qed.

(** The printed text: an optional minus and the digits of the magnitude. *)
Lemma IntToString_spec t v :
  ty_ok t -> ty_min t <= v <= ty_max t -> printable t v = true ->
  exists l ds, IntToString t v = Some (if v <? 0 then chr_minus :: l else l) /\
    mapM (CharToDigit 10) l = Some ds /\ value 10 ds = Z.abs v /\
    zlen l + (if v <? 0 then 1 else 0) <= 3 * (width t / 8) /\ l <> [] /\ Forall (fun c => 48 <= c <= 57) l.
Proof.
  intros Ht Hv Hp. destruct (digits_fit t v Ht Hv Hp) as (f & Hf & Hlt & Hroom).
  unfold IntToString. rewrite ToUnsigned_abs; [|done|done|].
  2:{ intros Es H32 ->. unfold printable in Hp. rewrite Es, Z.eqb_refl, (proj2 (Z.ltb_ge _ _)), (proj2 (Z.leb_le _ _)) in Hp by lia. done. }
  cbn [mbind option_bind]. unfold kOutputBufSize. set (b := 3 * (width t / 8)) in *.
  destruct (digits_loop_spec f (Z.abs v) (b + 1) [])
    as (l & ds & E & Hds & Hval & Hlen & Hne & Hall); [lia|destruct (v <? 0); lia|lia|].
  rewrite (digits_loop_fuel f _ _ _ _ E) by (destruct (v <? 0); lia). cbn [mbind option_bind].
  assert (TestNeg t v = (v <? 0)) as ->.
  { unfold TestNeg, ty_min in *. destruct (is_signed t); [done|]. lia. }
  exists l, ds. rewrite app_nil_r. split; [|split_and!; done || lia].
  destruct (v <? 0); [|done]. cbn [put_back].
  rewrite (proj2 (Z.ltb_lt _ _)) by lia. done.
Qed.

(** What is not printable ends in the overflow or in the assertion. *)
Lemma IntToString_fails t v :
  ty_ok t -> ty_min t <= v <= ty_max t -> printable t v = false -> IntToString t v = None.
Proof.
  intros (k & Hk & Hw) Hv Hp. destruct t as [wd sg]. cbn in Hw. subst wd. unfold printable in Hp.
  cbn [width is_signed] in Hp. destruct sg; [|done]. apply negb_false_iff in Hp. cbn [andb] in Hp.
  destruct (Z.ltb_spec (8 * k) 16).
  - assert (k = 1) as -> by lia. apply Z.leb_le in Hp. cbn in Hv.
    assert (forallb (fun v => bool_decide (IntToString (mkInt (8 * 1) true) v = None)) (seqZ (-128) 29) = true)
      as Hf by (by vm_compute).
    rewrite forallb_forall in Hf. specialize (Hf v). rewrite <-list_elem_of_In, elem_of_seqZ in Hf.
    specialize (Hf ltac:(lia)). by apply bool_decide_eq_true in Hf.
  - apply andb_true_iff in Hp as [H32 ->%Z.eqb_eq]. unfold IntToString, ToUnsigned. cbn [width is_signed andb].
    rewrite H32, Z.eqb_refl. unfold ty_min. cbn [width is_signed].
    rewrite (proj2 (Z.ltb_lt _ 0)); [done|]. pose proof (Z.pow_pos_nonneg 2 (8 * k - 1)). lia.
Qed.

Lemma Base_Invoke_mag t base sg l :
  ty_ok t -> (sg = Negative -> is_signed t = true) -> 1 < base <= 36 -> l <> [] ->
  Base_Invoke t base sg l =
    let '(ok, m) := mag_loop base (limit t sg) (skip_hex_prefix base l) 0 in
    (ok, signed sg m).
Proof.
  intros Ht Hs Hb Hl. destruct (limit_bounds t sg Ht Hs).
  unfold Base_Invoke. destruct l; [done|].
  replace 0 with (signed sg 0) at 1 by (by destruct sg).
  apply number_loop_exact; done || lia.
Qed.

(** One signed body of digits. *)
Lemma Base_Invoke_accepts t base sg body w :
  ty_ok t -> 1 < base <= 36 -> (sg = Negative -> is_signed t = true) ->
  Base_Invoke t base sg body = (true, w) <->
  exists ds, body <> [] /\
    mapM (CharToDigit base) (skip_hex_prefix base body) = Some ds /\
    w = signed sg (value base ds) /\ value base ds <= limit t sg.
Proof.
  intros Ht Hb Hs. destruct (decide (body = [])) as [->|Hne].
  { split; [done|]. by intros (? & ? & _). }
  rewrite Base_Invoke_mag by done.
  destruct (limit_bounds t sg Ht Hs) as [HL _].
  split.
  - destruct (mag_loop _ _ _ _) as [ok m] eqn:E. intros [= -> <-].
    destruct (mag_loop_true _ _ _ _ _ E) as [ds Hds].
    destruct (mag_loop_digits base (limit t sg) _ ds 0 ltac:(lia) ltac:(lia) Hds)
      as [_ E']. rewrite E in E'. fold (value base ds) in E'.
    destruct (Z.leb_spec (value base ds) (limit t sg)); [|done].
    exists ds. simplify_eq. done.
  - intros (ds & _ & Hds & -> & Hle).
    destruct (mag_loop_digits base (limit t sg) _ ds 0 ltac:(lia) ltac:(lia) Hds)
      as [_ E']. fold (value base ds) in E'.
    rewrite E', (proj2 (Z.leb_le _ _)) by done. done.
Qed.

Lemma and_valid (b : bool) (p : bool * Z) v :
  (let '(ok, out) := p in (ok && b, out)) = (true, v) <-> b = true /\ p = (true, v).
Proof.
  destruct p as [ok out]. destruct ok, b; cbn;
    (split; [intros E; split; congruence|intros [E1 E2]; congruence]).
Qed.

Lemma skip_whitespace_false is_space l : (skip_whitespace is_space false l).1 = false.
Proof. induction l as [|c l0 IH]; cbn; [done|]. by destruct (is_space c). Qed.

Lemma Invoke_accepts_any is_space t base l out0 v :
  ty_ok t -> 1 < base <= 36 ->
  Invoke is_space t base l out0 = (true, v) <->
  exists sg body ds,
    (l = body /\ sg = Positive /\ head l <> Some chr_minus /\ head l <> Some chr_plus \/
     l = chr_plus :: body /\ sg = Positive \/
     l = chr_minus :: body /\ sg = Negative /\ is_signed t = true) /\
    from_option is_space false (head l) = false /\
    body <> [] /\
    mapM (CharToDigit base) (skip_hex_prefix base body) = Some ds /\
    v = signed sg (value base ds) /\ value base ds <= limit t sg.
Proof.
  intros Ht Hb.
  unfold Invoke.
  destruct l as [|c l]; cbn [skip_whitespace head from_option].
  { rewrite and_valid, Base_Invoke_accepts by done. split.
    - intros (_ & ds & ? & ?). done.
    - intros (sg & body & ds & [(<- & ?)|[(? & ?)|(? & ?)]] & _ & ? & _); done. }
  destruct (is_space c) eqn:Ec.
  { split; [|by intros (? & ? & ? & _ & ? & _)].
    pose proof (skip_whitespace_false is_space l) as Hv. destruct (skip_whitespace is_space false l) as [valid l'].
    cbn in Hv. subst valid. destruct l' as [|c' l'].
    - rewrite and_valid. by intros [? _].
    - destruct (c' =? chr_minus); [destruct (negb (is_signed t)); [done|]|];
        rewrite and_valid; by intros [? _]. }
  destruct (Z.eqb_spec c chr_minus) as [->|Hm].
  - destruct (is_signed t) eqn:Es; cbn [negb].
    + rewrite and_valid, Base_Invoke_accepts by done. split.
      * intros (_ & ds & ? & ? & ? & ?). exists Negative, l, ds.
        split; [by right; right|done].
      * intros (sg & body & ds & [(<- & -> & Hh & _)|[(? & ?)|(E & -> & _)]] & _ & Hd);
          [done|done|]. injection E as <-. split; [done|]. by exists ds.
    + split; [done|].
      intros (sg & body & ds & [(<- & -> & Hh & _)|[(? & ?)|(? & -> & ?)]] & Hd); done.
  - destruct (Z.eqb_spec c chr_plus) as [->|Hp]; rewrite and_valid, Base_Invoke_accepts by done.
    + split.
      * intros (_ & ds & ? & ? & ? & ?). exists Positive, l, ds.
        split; [by right; left|done].
      * intros (sg & body & ds & [(<- & -> & _ & ?)|[(E & ->)|(? & -> & _)]] & _ & Hd);
          [done| |done]. injection E as <-. split; [done|]. by exists ds.
    + split.
      * intros (_ & ds & ? & ? & ? & ?). exists Positive, (c :: l), ds.
        split; [left; split_and!; congruence|done].
      * intros (sg & body & ds & [(<- & -> & _)|[(? & ->)|(? & -> & _)]] & _ & Hd);
          [|congruence..]. split; [done|]. by exists ds.
Qed.

(** ** Properties *)

(** C35. The overflow checks by division are exact: with a sign that the type
    has, the digit loop of the parser returns what accumulation in unbounded
    integers with one comparison against the limit returns, for every type of
    whole bytes and every base up to 36.  So it never wraps, and saturates at
    [max] or [min] on overflow. *)
Theorem Base_Invoke_exact t base sg l :
  ty_ok t -> (sg = Negative -> is_signed t = true) -> 1 < base <= 36 -> l <> [] ->
  Base_Invoke t base sg l =
    let '(ok, m) := mag_loop base (limit t sg) (skip_hex_prefix base l) 0 in
    (ok, signed sg m).
Proof.
  apply Base_Invoke_mag.
Qed.

Theorem Base_Invoke_exact_witness :
  Base_Invoke int_t 10 Negative [50; 49; 52; 55; 52; 56; 51; 54; 52; 57] =
  (false, - 2 ^ 31).
Proof.
  rewrite (Base_Invoke_exact int_t 10 Negative); [vm_compute; reflexivity| | | |].
  - exists 4. vm_compute. auto.
  - reflexivity.
  - lia.
  - discriminate.
Defined.

(** C28. What the decimal and the hexadecimal parsers accept: exactly the
    texts that do not start with whitespace and consist of an optional sign (a
    minus only for a signed type), an optional 0x when the base is 16 and more
    follows, and at least one digit, whose value is in the range of the type;
    the output is that value. *)
Theorem Invoke_accepts is_space t base l out0 v :
  ty_ok t -> 1 < base <= 36 ->
  Invoke is_space t base l out0 = (true, v) <->
  exists sg body ds,
    (l = body /\ sg = Positive /\ head l <> Some chr_minus /\ head l <> Some chr_plus \/
     l = chr_plus :: body /\ sg = Positive \/
     l = chr_minus :: body /\ sg = Negative /\ is_signed t = true) /\
    from_option is_space false (head l) = false /\
    body <> [] /\
    mapM (CharToDigit base) (skip_hex_prefix base body) = Some ds /\
    v = signed sg (value base ds) /\ value base ds <= limit t sg.
Proof. apply Invoke_accepts_any. Qed.

Theorem Invoke_accepts_witness :
  Invoke isspace int_t 16 [45; 48; 120; 102; 102] 7 = (true, - 255).
Proof.
  apply (Invoke_accepts isspace int_t 16 _ 7 (-255)).
  - exists 4. vm_compute. auto.
  - lia.
  - exists Negative, [48; 120; 102; 102], [15; 15].
    split; [right; right; auto|]. vm_compute. repeat split; discriminate.
Defined.

(** C36. Print then parse, for every value of every integer type of whole bytes:
    a printable value is printed inside the buffer of 3 * sizeof(INT) + 1
    characters, no assertion fails, and the decimal parser of the same type
    reads it back; the others, the smallest value of int and wider signed types
    and -128 to -100 of a signed char, overflow or fail the assertion. *)
Theorem print_parse is_space t v out0 :
  ty_ok t -> ty_min t <= v <= ty_max t ->
  (forall c, c = chr_minus \/ 48 <= c <= 57 -> is_space c = false) ->
  if printable t v
  then exists l, IntToString t v = Some l /\ zlen l < kOutputBufSize t /\
         Invoke is_space t 10 l out0 = (true, v)
  else IntToString t v = None.
Proof.
  intros Ht Hv Hsp. destruct (printable t v) eqn:Hp; [|by apply IntToString_fails].
  destruct (IntToString_spec t v Ht Hv Hp) as (l & ds & -> & Hds & Hval & Hlen & Hne & Hall).
  destruct l as [|c l]; [done|]. pose proof (Forall_inv Hall) as Hc.
  assert (skip_hex_prefix 10 (c :: l) = c :: l) as Hx.
  { unfold skip_hex_prefix. cbn. by repeat case_match. }
  eexists; split; [done|]. unfold kOutputBufSize.
  split. { destruct (v <? 0); rewrite ?zlen_cons in *; lia. }
  apply Invoke_accepts_any; [done|lia|].
  unfold limit, signed, chr_plus, chr_minus in *.
  destruct (Z.ltb_spec v 0).
  - exists Negative, (c :: l), ds. rewrite Hx. cbn [head from_option].
    split_and!; [right; right|by apply Hsp; left|done|done|lia|lia].
    unfold ty_min in *. destruct (is_signed t); [done|lia].
  - exists Positive, (c :: l), ds. rewrite Hx. cbn [head from_option].
    split_and!; [left|by apply Hsp; right|done|done|lia|lia].
    split_and!; try done; intros [= ->]; lia.
Qed.

(** -9223372036854775807 *)
Theorem print_parse_witness :
  exists l, IntToString int64_t (1 - 2 ^ 63) = Some l /\ zlen l < kOutputBufSize int64_t /\
            Invoke isspace int64_t 10 l 0 = (true, 1 - 2 ^ 63).
Proof.
  apply (print_parse isspace int64_t (1 - 2 ^ 63)).
  - exists 8. vm_compute. auto.
  - vm_compute. split; discriminate.
  - unfold chr_minus, isspace. intros c Hc. lia.
Defined.

(** Hex dumps round trip: for every non-empty list of bytes,
    HexStringToBytes reads back what HexEncode wrote. *)
Theorem hex_roundtrip bytes :
  bytes <> [] -> Forall (fun b => 0 <= b < 256) bytes ->
  HexStringToBytes (HexEncode bytes) = (true, bytes).
Proof.
  intros Hne Hall. unfold HexStringToBytes.
  assert (zlen (HexEncode bytes) = 2 * zlen bytes) as ->.
  { clear. induction bytes as [|b bs IH]; [done|]. cbn. rewrite !zlen_cons, IH. lia. }
  rewrite (proj2 (Z.eqb_neq _ _)).
  2:{ destruct bytes; [done|]. rewrite zlen_cons. pose proof (zlen_nonneg bytes). lia. }
  rewrite Z.mul_comm, Z_mod_mult. cbn. clear Hne.
  enough (forall out, hex_pairs (HexEncode bytes) out = (true, out ++ bytes)) as Hg
    by apply Hg.
  assert (forall b, 0 <= b < 256 ->
    CharToDigit 16 (hex_char (Z.land (Z.shiftr (wraps 8 b) 4) 15)) = Some (b / 16) /\
    CharToDigit 16 (hex_char (Z.land (wraps 8 b) 15)) = Some (b mod 16) /\ u8 (Z.lor (Z.shiftl (b / 16) 4) (b mod 16)) = b)
    as Hb.
  { intros b Hb.
    assert (forallb (fun b =>
      match CharToDigit 16 (hex_char (Z.land (Z.shiftr (wraps 8 b) 4) 15)),
            CharToDigit 16 (hex_char (Z.land (wraps 8 b) 15)) with
      | Some x, Some y => (x =? b / 16) && (y =? b mod 16) &&
                          (u8 (Z.lor (Z.shiftl x 4) y) =? b)
      | _, _ => false end) (seqZ 0 256) = true) as Hf by (vm_compute; reflexivity).
    rewrite forallb_forall in Hf. specialize (Hf b).
    rewrite <-list_elem_of_In, elem_of_seqZ in Hf. specialize (Hf ltac:(lia)).
    destruct (CharToDigit 16 _) as [x|]; [|done].
    destruct (CharToDigit 16 _) as [y|]; [|done].
    apply andb_prop in Hf as [[Hx Hy]%andb_prop Hz].
    apply Z.eqb_eq in Hx, Hy, Hz. by subst x y. }
  induction Hall as [|b bs Hb' Hall IH]; intros out; cbn [HexEncode hex_pairs].
  { by rewrite app_nil_r. }
  destruct (Hb b Hb') as (E1 & E2 & E3). rewrite E1, E2, E3, IH.
  by rewrite <-app_assoc.
Qed.

Theorem hex_roundtrip_witness :
  HexStringToBytes (HexEncode [0; 171; 255]) = (true, [0; 171; 255]).
Proof. apply hex_roundtrip; [discriminate|]. repeat constructor; lia. Defined.

End StringNumber.
