(* ===== verification/Crc32c.v ===== *)
(** * crc32c (utility/crc32c.h and crc32c.cc)

    The CRC-32C of a string, four or eight bytes at a time.  A pointer is an
    address; the string is the readable memory, and reading outside of it is
    undefined, as is an index out of a table.  The SSE4.2 instructions, the
    compiler's flags and the processor's answer to cpuid are parameters. *)

From S2P Require Import Prelude.

Module Crc32c.

(** ** The tables *)

Definition table0_ : list Z := [
  0x00000000; 0xf26b8303; 0xe13b70f7; 0x1350f3f4; 0xc79a971f; 0x35f1141c;
  0x26a1e7e8; 0xd4ca64eb; 0x8ad958cf; 0x78b2dbcc; 0x6be22838; 0x9989ab3b;
  0x4d43cfd0; 0xbf284cd3; 0xac78bf27; 0x5e133c24; 0x105ec76f; 0xe235446c;
  0xf165b798; 0x030e349b; 0xd7c45070; 0x25afd373; 0x36ff2087; 0xc494a384;
  0x9a879fa0; 0x68ec1ca3; 0x7bbcef57; 0x89d76c54; 0x5d1d08bf; 0xaf768bbc;
  0xbc267848; 0x4e4dfb4b; 0x20bd8ede; 0xd2d60ddd; 0xc186fe29; 0x33ed7d2a;
  0xe72719c1; 0x154c9ac2; 0x061c6936; 0xf477ea35; 0xaa64d611; 0x580f5512;
  0x4b5fa6e6; 0xb93425e5; 0x6dfe410e; 0x9f95c20d; 0x8cc531f9; 0x7eaeb2fa;
  0x30e349b1; 0xc288cab2; 0xd1d83946; 0x23b3ba45; 0xf779deae; 0x05125dad;
  0x1642ae59; 0xe4292d5a; 0xba3a117e; 0x4851927d; 0x5b016189; 0xa96ae28a;
  0x7da08661; 0x8fcb0562; 0x9c9bf696; 0x6ef07595; 0x417b1dbc; 0xb3109ebf;
  0xa0406d4b; 0x522bee48; 0x86e18aa3; 0x748a09a0; 0x67dafa54; 0x95b17957;
  0xcba24573; 0x39c9c670; 0x2a993584; 0xd8f2b687; 0x0c38d26c; 0xfe53516f;
  0xed03a29b; 0x1f682198; 0x5125dad3; 0xa34e59d0; 0xb01eaa24; 0x42752927;
  0x96bf4dcc; 0x64d4cecf; 0x77843d3b; 0x85efbe38; 0xdbfc821c; 0x2997011f;
  0x3ac7f2eb; 0xc8ac71e8; 0x1c661503; 0xee0d9600; 0xfd5d65f4; 0x0f36e6f7;
  0x61c69362; 0x93ad1061; 0x80fde395; 0x72966096; 0xa65c047d; 0x5437877e;
  0x4767748a; 0xb50cf789; 0xeb1fcbad; 0x197448ae; 0x0a24bb5a; 0xf84f3859;
  0x2c855cb2; 0xdeeedfb1; 0xcdbe2c45; 0x3fd5af46; 0x7198540d; 0x83f3d70e;
  0x90a324fa; 0x62c8a7f9; 0xb602c312; 0x44694011; 0x5739b3e5; 0xa55230e6;
  0xfb410cc2; 0x092a8fc1; 0x1a7a7c35; 0xe811ff36; 0x3cdb9bdd; 0xceb018de;
  0xdde0eb2a; 0x2f8b6829; 0x82f63b78; 0x709db87b; 0x63cd4b8f; 0x91a6c88c;
  0x456cac67; 0xb7072f64; 0xa457dc90; 0x563c5f93; 0x082f63b7; 0xfa44e0b4;
  0xe9141340; 0x1b7f9043; 0xcfb5f4a8; 0x3dde77ab; 0x2e8e845f; 0xdce5075c;
  0x92a8fc17; 0x60c37f14; 0x73938ce0; 0x81f80fe3; 0x55326b08; 0xa759e80b;
  0xb4091bff; 0x466298fc; 0x1871a4d8; 0xea1a27db; 0xf94ad42f; 0x0b21572c;
  0xdfeb33c7; 0x2d80b0c4; 0x3ed04330; 0xccbbc033; 0xa24bb5a6; 0x502036a5;
  0x4370c551; 0xb11b4652; 0x65d122b9; 0x97baa1ba; 0x84ea524e; 0x7681d14d;
  0x2892ed69; 0xdaf96e6a; 0xc9a99d9e; 0x3bc21e9d; 0xef087a76; 0x1d63f975;
  0x0e330a81; 0xfc588982; 0xb21572c9; 0x407ef1ca; 0x532e023e; 0xa145813d;
  0x758fe5d6; 0x87e466d5; 0x94b49521; 0x66df1622; 0x38cc2a06; 0xcaa7a905;
  0xd9f75af1; 0x2b9cd9f2; 0xff56bd19; 0x0d3d3e1a; 0x1e6dcdee; 0xec064eed;
  0xc38d26c4; 0x31e6a5c7; 0x22b65633; 0xd0ddd530; 0x0417b1db; 0xf67c32d8;
  0xe52cc12c; 0x1747422f; 0x49547e0b; 0xbb3ffd08; 0xa86f0efc; 0x5a048dff;
  0x8ecee914; 0x7ca56a17; 0x6ff599e3; 0x9d9e1ae0; 0xd3d3e1ab; 0x21b862a8;
  0x32e8915c; 0xc083125f; 0x144976b4; 0xe622f5b7; 0xf5720643; 0x07198540;
  0x590ab964; 0xab613a67; 0xb831c993; 0x4a5a4a90; 0x9e902e7b; 0x6cfbad78;
  0x7fab5e8c; 0x8dc0dd8f; 0xe330a81a; 0x115b2b19; 0x020bd8ed; 0xf0605bee;
  0x24aa3f05; 0xd6c1bc06; 0xc5914ff2; 0x37faccf1; 0x69e9f0d5; 0x9b8273d6;
  0x88d28022; 0x7ab90321; 0xae7367ca; 0x5c18e4c9; 0x4f48173d; 0xbd23943e;
  0xf36e6f75; 0x0105ec76; 0x12551f82; 0xe03e9c81; 0x34f4f86a; 0xc69f7b69;
  0xd5cf889d; 0x27a40b9e; 0x79b737ba; 0x8bdcb4b9; 0x988c474d; 0x6ae7c44e;
  0xbe2da0a5; 0x4c4623a6; 0x5f16d052; 0xad7d5351].

Definition table1_ : list Z := [
  0x00000000; 0x13a29877; 0x274530ee; 0x34e7a899; 0x4e8a61dc; 0x5d28f9ab;
  0x69cf5132; 0x7a6dc945; 0x9d14c3b8; 0x8eb65bcf; 0xba51f356; 0xa9f36b21;
  0xd39ea264; 0xc03c3a13; 0xf4db928a; 0xe7790afd; 0x3fc5f181; 0x2c6769f6;
  0x1880c16f; 0x0b225918; 0x714f905d; 0x62ed082a; 0x560aa0b3; 0x45a838c4;
  0xa2d13239; 0xb173aa4e; 0x859402d7; 0x96369aa0; 0xec5b53e5; 0xfff9cb92;
  0xcb1e630b; 0xd8bcfb7c; 0x7f8be302; 0x6c297b75; 0x58ced3ec; 0x4b6c4b9b;
  0x310182de; 0x22a31aa9; 0x1644b230; 0x05e62a47; 0xe29f20ba; 0xf13db8cd;
  0xc5da1054; 0xd6788823; 0xac154166; 0xbfb7d911; 0x8b507188; 0x98f2e9ff;
  0x404e1283; 0x53ec8af4; 0x670b226d; 0x74a9ba1a; 0x0ec4735f; 0x1d66eb28;
  0x298143b1; 0x3a23dbc6; 0xdd5ad13b; 0xcef8494c; 0xfa1fe1d5; 0xe9bd79a2;
  0x93d0b0e7; 0x80722890; 0xb4958009; 0xa737187e; 0xff17c604; 0xecb55e73;
  0xd852f6ea; 0xcbf06e9d; 0xb19da7d8; 0xa23f3faf; 0x96d89736; 0x857a0f41;
  0x620305bc; 0x71a19dcb; 0x45463552; 0x56e4ad25; 0x2c896460; 0x3f2bfc17;
  0x0bcc548e; 0x186eccf9; 0xc0d23785; 0xd370aff2; 0xe797076b; 0xf4359f1c;
  0x8e585659; 0x9dface2e; 0xa91d66b7; 0xbabffec0; 0x5dc6f43d; 0x4e646c4a;
  0x7a83c4d3; 0x69215ca4; 0x134c95e1; 0x00ee0d96; 0x3409a50f; 0x27ab3d78;
  0x809c2506; 0x933ebd71; 0xa7d915e8; 0xb47b8d9f; 0xce1644da; 0xddb4dcad;
  0xe9537434; 0xfaf1ec43; 0x1d88e6be; 0x0e2a7ec9; 0x3acdd650; 0x296f4e27;
  0x53028762; 0x40a01f15; 0x7447b78c; 0x67e52ffb; 0xbf59d487; 0xacfb4cf0;
  0x981ce469; 0x8bbe7c1e; 0xf1d3b55b; 0xe2712d2c; 0xd69685b5; 0xc5341dc2;
  0x224d173f; 0x31ef8f48; 0x050827d1; 0x16aabfa6; 0x6cc776e3; 0x7f65ee94;
  0x4b82460d; 0x5820de7a; 0xfbc3faf9; 0xe861628e; 0xdc86ca17; 0xcf245260;
  0xb5499b25; 0xa6eb0352; 0x920cabcb; 0x81ae33bc; 0x66d73941; 0x7575a136;
  0x419209af; 0x523091d8; 0x285d589d; 0x3bffc0ea; 0x0f186873; 0x1cbaf004;
  0xc4060b78; 0xd7a4930f; 0xe3433b96; 0xf0e1a3e1; 0x8a8c6aa4; 0x992ef2d3;
  0xadc95a4a; 0xbe6bc23d; 0x5912c8c0; 0x4ab050b7; 0x7e57f82e; 0x6df56059;
  0x1798a91c; 0x043a316b; 0x30dd99f2; 0x237f0185; 0x844819fb; 0x97ea818c;
  0xa30d2915; 0xb0afb162; 0xcac27827; 0xd960e050; 0xed8748c9; 0xfe25d0be;
  0x195cda43; 0x0afe4234; 0x3e19eaad; 0x2dbb72da; 0x57d6bb9f; 0x447423e8;
  0x70938b71; 0x63311306; 0xbb8de87a; 0xa82f700d; 0x9cc8d894; 0x8f6a40e3;
  0xf50789a6; 0xe6a511d1; 0xd242b948; 0xc1e0213f; 0x26992bc2; 0x353bb3b5;
  0x01dc1b2c; 0x127e835b; 0x68134a1e; 0x7bb1d269; 0x4f567af0; 0x5cf4e287;
  0x04d43cfd; 0x1776a48a; 0x23910c13; 0x30339464; 0x4a5e5d21; 0x59fcc556;
  0x6d1b6dcf; 0x7eb9f5b8; 0x99c0ff45; 0x8a626732; 0xbe85cfab; 0xad2757dc;
  0xd74a9e99; 0xc4e806ee; 0xf00fae77; 0xe3ad3600; 0x3b11cd7c; 0x28b3550b;
  0x1c54fd92; 0x0ff665e5; 0x759baca0; 0x663934d7; 0x52de9c4e; 0x417c0439;
  0xa6050ec4; 0xb5a796b3; 0x81403e2a; 0x92e2a65d; 0xe88f6f18; 0xfb2df76f;
  0xcfca5ff6; 0xdc68c781; 0x7b5fdfff; 0x68fd4788; 0x5c1aef11; 0x4fb87766;
  0x35d5be23; 0x26772654; 0x12908ecd; 0x013216ba; 0xe64b1c47; 0xf5e98430;
  0xc10e2ca9; 0xd2acb4de; 0xa8c17d9b; 0xbb63e5ec; 0x8f844d75; 0x9c26d502;
  0x449a2e7e; 0x5738b609; 0x63df1e90; 0x707d86e7; 0x0a104fa2; 0x19b2d7d5;
  0x2d557f4c; 0x3ef7e73b; 0xd98eedc6; 0xca2c75b1; 0xfecbdd28; 0xed69455f;
  0x97048c1a; 0x84a6146d; 0xb041bcf4; 0xa3e32483].

Definition table2_ : list Z := [
  0x00000000; 0xa541927e; 0x4f6f520d; 0xea2ec073; 0x9edea41a; 0x3b9f3664;
  0xd1b1f617; 0x74f06469; 0x38513ec5; 0x9d10acbb; 0x773e6cc8; 0xd27ffeb6;
  0xa68f9adf; 0x03ce08a1; 0xe9e0c8d2; 0x4ca15aac; 0x70a27d8a; 0xd5e3eff4;
  0x3fcd2f87; 0x9a8cbdf9; 0xee7cd990; 0x4b3d4bee; 0xa1138b9d; 0x045219e3;
  0x48f3434f; 0xedb2d131; 0x079c1142; 0xa2dd833c; 0xd62de755; 0x736c752b;
  0x9942b558; 0x3c032726; 0xe144fb14; 0x4405696a; 0xae2ba919; 0x0b6a3b67;
  0x7f9a5f0e; 0xdadbcd70; 0x30f50d03; 0x95b49f7d; 0xd915c5d1; 0x7c5457af;
  0x967a97dc; 0x333b05a2; 0x47cb61cb; 0xe28af3b5; 0x08a433c6; 0xade5a1b8;
  0x91e6869e; 0x34a714e0; 0xde89d493; 0x7bc846ed; 0x0f382284; 0xaa79b0fa;
  0x40577089; 0xe516e2f7; 0xa9b7b85b; 0x0cf62a25; 0xe6d8ea56; 0x43997828;
  0x37691c41; 0x92288e3f; 0x78064e4c; 0xdd47dc32; 0xc76580d9; 0x622412a7;
  0x880ad2d4; 0x2d4b40aa; 0x59bb24c3; 0xfcfab6bd; 0x16d476ce; 0xb395e4b0;
  0xff34be1c; 0x5a752c62; 0xb05bec11; 0x151a7e6f; 0x61ea1a06; 0xc4ab8878;
  0x2e85480b; 0x8bc4da75; 0xb7c7fd53; 0x12866f2d; 0xf8a8af5e; 0x5de93d20;
  0x29195949; 0x8c58cb37; 0x66760b44; 0xc337993a; 0x8f96c396; 0x2ad751e8;
  0xc0f9919b; 0x65b803e5; 0x1148678c; 0xb409f5f2; 0x5e273581; 0xfb66a7ff;
  0x26217bcd; 0x8360e9b3; 0x694e29c0; 0xcc0fbbbe; 0xb8ffdfd7; 0x1dbe4da9;
  0xf7908dda; 0x52d11fa4; 0x1e704508; 0xbb31d776; 0x511f1705; 0xf45e857b;
  0x80aee112; 0x25ef736c; 0xcfc1b31f; 0x6a802161; 0x56830647; 0xf3c29439;
  0x19ec544a; 0xbcadc634; 0xc85da25d; 0x6d1c3023; 0x8732f050; 0x2273622e;
  0x6ed23882; 0xcb93aafc; 0x21bd6a8f; 0x84fcf8f1; 0xf00c9c98; 0x554d0ee6;
  0xbf63ce95; 0x1a225ceb; 0x8b277743; 0x2e66e53d; 0xc448254e; 0x6109b730;
  0x15f9d359; 0xb0b84127; 0x5a968154; 0xffd7132a; 0xb3764986; 0x1637dbf8;
  0xfc191b8b; 0x595889f5; 0x2da8ed9c; 0x88e97fe2; 0x62c7bf91; 0xc7862def;
  0xfb850ac9; 0x5ec498b7; 0xb4ea58c4; 0x11abcaba; 0x655baed3; 0xc01a3cad;
  0x2a34fcde; 0x8f756ea0; 0xc3d4340c; 0x6695a672; 0x8cbb6601; 0x29faf47f;
  0x5d0a9016; 0xf84b0268; 0x1265c21b; 0xb7245065; 0x6a638c57; 0xcf221e29;
  0x250cde5a; 0x804d4c24; 0xf4bd284d; 0x51fcba33; 0xbbd27a40; 0x1e93e83e;
  0x5232b292; 0xf77320ec; 0x1d5de09f; 0xb81c72e1; 0xccec1688; 0x69ad84f6;
  0x83834485; 0x26c2d6fb; 0x1ac1f1dd; 0xbf8063a3; 0x55aea3d0; 0xf0ef31ae;
  0x841f55c7; 0x215ec7b9; 0xcb7007ca; 0x6e3195b4; 0x2290cf18; 0x87d15d66;
  0x6dff9d15; 0xc8be0f6b; 0xbc4e6b02; 0x190ff97c; 0xf321390f; 0x5660ab71;
  0x4c42f79a; 0xe90365e4; 0x032da597; 0xa66c37e9; 0xd29c5380; 0x77ddc1fe;
  0x9df3018d; 0x38b293f3; 0x7413c95f; 0xd1525b21; 0x3b7c9b52; 0x9e3d092c;
  0xeacd6d45; 0x4f8cff3b; 0xa5a23f48; 0x00e3ad36; 0x3ce08a10; 0x99a1186e;
  0x738fd81d; 0xd6ce4a63; 0xa23e2e0a; 0x077fbc74; 0xed517c07; 0x4810ee79;
  0x04b1b4d5; 0xa1f026ab; 0x4bdee6d8; 0xee9f74a6; 0x9a6f10cf; 0x3f2e82b1;
  0xd50042c2; 0x7041d0bc; 0xad060c8e; 0x08479ef0; 0xe2695e83; 0x4728ccfd;
  0x33d8a894; 0x96993aea; 0x7cb7fa99; 0xd9f668e7; 0x9557324b; 0x3016a035;
  0xda386046; 0x7f79f238; 0x0b899651; 0xaec8042f; 0x44e6c45c; 0xe1a75622;
  0xdda47104; 0x78e5e37a; 0x92cb2309; 0x378ab177; 0x437ad51e; 0xe63b4760;
  0x0c158713; 0xa954156d; 0xe5f54fc1; 0x40b4ddbf; 0xaa9a1dcc; 0x0fdb8fb2;
  0x7b2bebdb; 0xde6a79a5; 0x3444b9d6; 0x91052ba8].

Definition table3_ : list Z := [
  0x00000000; 0xdd45aab8; 0xbf672381; 0x62228939; 0x7b2231f3; 0xa6679b4b;
  0xc4451272; 0x1900b8ca; 0xf64463e6; 0x2b01c95e; 0x49234067; 0x9466eadf;
  0x8d665215; 0x5023f8ad; 0x32017194; 0xef44db2c; 0xe964b13d; 0x34211b85;
  0x560392bc; 0x8b463804; 0x924680ce; 0x4f032a76; 0x2d21a34f; 0xf06409f7;
  0x1f20d2db; 0xc2657863; 0xa047f15a; 0x7d025be2; 0x6402e328; 0xb9474990;
  0xdb65c0a9; 0x06206a11; 0xd725148b; 0x0a60be33; 0x6842370a; 0xb5079db2;
  0xac072578; 0x71428fc0; 0x136006f9; 0xce25ac41; 0x2161776d; 0xfc24ddd5;
  0x9e0654ec; 0x4343fe54; 0x5a43469e; 0x8706ec26; 0xe524651f; 0x3861cfa7;
  0x3e41a5b6; 0xe3040f0e; 0x81268637; 0x5c632c8f; 0x45639445; 0x98263efd;
  0xfa04b7c4; 0x27411d7c; 0xc805c650; 0x15406ce8; 0x7762e5d1; 0xaa274f69;
  0xb327f7a3; 0x6e625d1b; 0x0c40d422; 0xd1057e9a; 0xaba65fe7; 0x76e3f55f;
  0x14c17c66; 0xc984d6de; 0xd0846e14; 0x0dc1c4ac; 0x6fe34d95; 0xb2a6e72d;
  0x5de23c01; 0x80a796b9; 0xe2851f80; 0x3fc0b538; 0x26c00df2; 0xfb85a74a;
  0x99a72e73; 0x44e284cb; 0x42c2eeda; 0x9f874462; 0xfda5cd5b; 0x20e067e3;
  0x39e0df29; 0xe4a57591; 0x8687fca8; 0x5bc25610; 0xb4868d3c; 0x69c32784;
  0x0be1aebd; 0xd6a40405; 0xcfa4bccf; 0x12e11677; 0x70c39f4e; 0xad8635f6;
  0x7c834b6c; 0xa1c6e1d4; 0xc3e468ed; 0x1ea1c255; 0x07a17a9f; 0xdae4d027;
  0xb8c6591e; 0x6583f3a6; 0x8ac7288a; 0x57828232; 0x35a00b0b; 0xe8e5a1b3;
  0xf1e51979; 0x2ca0b3c1; 0x4e823af8; 0x93c79040; 0x95e7fa51; 0x48a250e9;
  0x2a80d9d0; 0xf7c57368; 0xeec5cba2; 0x3380611a; 0x51a2e823; 0x8ce7429b;
  0x63a399b7; 0xbee6330f; 0xdcc4ba36; 0x0181108e; 0x1881a844; 0xc5c402fc;
  0xa7e68bc5; 0x7aa3217d; 0x52a0c93f; 0x8fe56387; 0xedc7eabe; 0x30824006;
  0x2982f8cc; 0xf4c75274; 0x96e5db4d; 0x4ba071f5; 0xa4e4aad9; 0x79a10061;
  0x1b838958; 0xc6c623e0; 0xdfc69b2a; 0x02833192; 0x60a1b8ab; 0xbde41213;
  0xbbc47802; 0x6681d2ba; 0x04a35b83; 0xd9e6f13b; 0xc0e649f1; 0x1da3e349;
  0x7f816a70; 0xa2c4c0c8; 0x4d801be4; 0x90c5b15c; 0xf2e73865; 0x2fa292dd;
  0x36a22a17; 0xebe780af; 0x89c50996; 0x5480a32e; 0x8585ddb4; 0x58c0770c;
  0x3ae2fe35; 0xe7a7548d; 0xfea7ec47; 0x23e246ff; 0x41c0cfc6; 0x9c85657e;
  0x73c1be52; 0xae8414ea; 0xcca69dd3; 0x11e3376b; 0x08e38fa1; 0xd5a62519;
  0xb784ac20; 0x6ac10698; 0x6ce16c89; 0xb1a4c631; 0xd3864f08; 0x0ec3e5b0;
  0x17c35d7a; 0xca86f7c2; 0xa8a47efb; 0x75e1d443; 0x9aa50f6f; 0x47e0a5d7;
  0x25c22cee; 0xf8878656; 0xe1873e9c; 0x3cc29424; 0x5ee01d1d; 0x83a5b7a5;
  0xf90696d8; 0x24433c60; 0x4661b559; 0x9b241fe1; 0x8224a72b; 0x5f610d93;
  0x3d4384aa; 0xe0062e12; 0x0f42f53e; 0xd2075f86; 0xb025d6bf; 0x6d607c07;
  0x7460c4cd; 0xa9256e75; 0xcb07e74c; 0x16424df4; 0x106227e5; 0xcd278d5d;
  0xaf050464; 0x7240aedc; 0x6b401616; 0xb605bcae; 0xd4273597; 0x09629f2f;
  0xe6264403; 0x3b63eebb; 0x59416782; 0x8404cd3a; 0x9d0475f0; 0x4041df48;
  0x22635671; 0xff26fcc9; 0x2e238253; 0xf36628eb; 0x9144a1d2; 0x4c010b6a;
  0x5501b3a0; 0x88441918; 0xea669021; 0x37233a99; 0xd867e1b5; 0x05224b0d;
  0x6700c234; 0xba45688c; 0xa345d046; 0x7e007afe; 0x1c22f3c7; 0xc167597f;
  0xc747336e; 0x1a0299d6; 0x782010ef; 0xa565ba57; 0xbc65029d; 0x6120a825;
  0x0302211c; 0xde478ba4; 0x31035088; 0xec46fa30; 0x8e647309; 0x5321d9b1;
  0x4a21617b; 0x9764cbc3; 0xf54642fa; 0x2803e842].

(** ** Reading memory *)

Definition table (t : list Z) (i : Z) : option Z :=
  if 0 <=? i then t !! Z.to_nat i else None.

Section Extend.
(** [buf] is at the address [base]. *)
Context (base : Z) (buf : list Z).

Definition load (p : Z) : option Z :=
  if base <=? p then buf !! Z.to_nat (p - base) else None.

Definition DecodeFixed32 (p : Z) : option Z :=
  b0 ← load p; b1 ← load (p + 1); b2 ← load (p + 2); b3 ← load (p + 3);
  Some (Z.lor (Z.lor (Z.lor b0 (Z.shiftl b1 8)) (Z.shiftl b2 16)) (Z.shiftl b3 24)).

Definition DecodeFixed64 (p : Z) : option Z :=
  lo ← DecodeFixed32 p; hi ← DecodeFixed32 (p + 4);
  Some (Z.lor (Z.shiftl hi 32) lo).

Definition LE_LOAD32 := DecodeFixed32.
Definition LE_LOAD64 := DecodeFixed64.

(** ** The functors: eight bytes *)

Definition slow_word (l p : Z) : option Z :=
  w ← LE_LOAD32 p;
  let c := u32 (Z.lxor l w) in
  t3 ← table table3_ (Z.land c 0xff);
  t2 ← table table2_ (Z.land (Z.shiftr c 8) 0xff);
  t1 ← table table1_ (Z.land (Z.shiftr c 16) 0xff);
  t0 ← table table0_ (Z.shiftr c 24);
  Some (Z.lxor (Z.lxor (Z.lxor t3 t2) t1) t0).

Definition Slow_CRC32 (l p : Z) : option (Z * Z) :=
  l ← slow_word l p;
  let p := p + 4 in
  l ← slow_word l p;
  Some (l, p + 4).

Section Fast.
Context (SSE4_2 LP64 : bool) (mm_crc32_u64 mm_crc32_u32 : Z -> Z -> Z).

Definition Fast_CRC32 (l p : Z) : option (Z * Z) :=
  if SSE4_2 then
    if LP64 then
      w ← LE_LOAD64 p;
      Some (mm_crc32_u64 l w, p + 8)
    else
      w ← LE_LOAD32 p;
      let l := mm_crc32_u32 (u32 l) w in
      let p := p + 4 in
      w ← LE_LOAD32 p;
      Some (mm_crc32_u32 (u32 l) w, p + 4)
  else Slow_CRC32 l p.
End Fast.

(** ** Extend *)

Definition ALIGN (n m : Z) : Z :=
  Z.land (u64 (n + (Z.shiftl 1 m - 1))) (u64 (Z.lnot (Z.shiftl 1 m - 1))).

Definition STEP1 (l p : Z) : option (Z * Z) :=
  b ← load p;
  t ← table table0_ (Z.lxor (Z.land l 0xff) b);
  Some (Z.lxor t (Z.shiftr l 8), p + 1).

(** [while (p != x) STEP1] *)
Fixpoint step_until (fuel : nat) (x l p : Z) : option (Z * Z) :=
  if p =? x then Some (l, p)
  else match fuel with
       | O => None
       | S fuel => '(l, p) ← STEP1 l p; step_until fuel x l p
       end.

(** A loop that calls the functor while at least [n] bytes are left. *)
Fixpoint words_while (CRC32 : Z -> Z -> option (Z * Z)) (fuel : nat) (n e l p : Z) : option (Z * Z) :=
  if n <=? e - p then
    match fuel with
    | O => None
    | S fuel => '(l, p) ← CRC32 l p; words_while CRC32 fuel n e l p
    end
  else Some (l, p).

Definition twice (CRC32 : Z -> Z -> option (Z * Z)) (l p : Z) : option (Z * Z) :=
  '(l, p) ← CRC32 l p; CRC32 l p.

Definition ExtendImpl (CRC32 : Z -> Z -> option (Z * Z)) (crc : Z) : option Z :=
  let fuel := S (length buf) in
  let p := base in
  let e := base + zlen buf in
  let l := Z.lxor crc 0xffffffff in
  let x := ALIGN p 4 in
  '(l, p) ← (if x <=? e then step_until fuel x l p else Some (l, p));
  '(l, p) ← words_while (twice CRC32) fuel 16 e l p;
  '(l, p) ← words_while CRC32 fuel 8 e l p;
  '(l, p) ← step_until fuel e l p;
  Some (u32 (Z.lxor l 0xffffffff)).

Section Choice.
Context (isSSE42 SSE4_2 LP64 : bool) (mm_crc32_u64 mm_crc32_u32 : Z -> Z -> Z).

Definition Choose_Extend : Z -> option Z :=
  if isSSE42 then ExtendImpl (Fast_CRC32 SSE4_2 LP64 mm_crc32_u64 mm_crc32_u32)
  else ExtendImpl Slow_CRC32.

Definition IsFastCrc32Supported : bool := if SSE4_2 then isSSE42 else false.

Definition Extend (crc : Z) : option Z := Choose_Extend crc.

Definition Value : option Z := Extend 0.
End Choice.
End Extend.

(** *** Masked checksums *)

Definition kMaskDelta : Z := 0xa282ead8.

Definition Mask (crc : Z) : Z :=
  u32 (Z.lor (Z.shiftr crc 15) (u32 (Z.shiftl crc 17)) + kMaskDelta).

Definition Unmask (masked_crc : Z) : Z :=
  let rot := u32 (masked_crc - kMaskDelta) in
  Z.lor (Z.shiftr rot 17) (u32 (Z.shiftl rot 15)).

(** ** The specification: one bit at a time

    The division by the polynomial 0x1EDC6F41 of CRC-32C, bits reflected. *)

Definition POLY : Z := 0x82f63b78.

Definition shift1 (l : Z) : Z := Z.lxor (Z.shiftr l 1) (if Z.odd l then POLY else 0).
Definition shift_bits (n : nat) (l : Z) : Z := Nat.iter n shift1 l.
Definition crc_byte (l b : Z) : Z := shift_bits 8 (Z.lxor l b).
Definition crc_bytes (l : Z) (data : list Z) : Z := foldl crc_byte l data.

Definition crc32c (crc : Z) (data : list Z) : Z :=
  Z.lxor (crc_bytes (Z.lxor crc 0xffffffff) data) 0xffffffff.

Definition is_byte (b : Z) : Prop := 0 <= b < 256.
Definition is_word (l : Z) : Prop := 0 <= l < 2 ^ 32.

(** *** Lemmas on the reference *)

Lemma lxor_swap a b c d :
  Z.lxor (Z.lxor a b) (Z.lxor c d) = Z.lxor (Z.lxor a c) (Z.lxor b d).
Proof. rewrite !Z.lxor_assoc. f_equal. rewrite <-!Z.lxor_assoc. f_equal. apply Z.lxor_comm. Qed.

Lemma odd_lxor a b : Z.odd (Z.lxor a b) = xorb (Z.odd a) (Z.odd b).
Proof. by rewrite <-!Z.bit0_odd, Z.lxor_spec. Qed.

Lemma shift1_lxor a b : shift1 (Z.lxor a b) = Z.lxor (shift1 a) (shift1 b).
Proof.
  unfold shift1. rewrite Z.shiftr_lxor, odd_lxor, lxor_swap. f_equal.
  by destruct (Z.odd a), (Z.odd b).
Qed.

Lemma shift_bits_S n l : shift_bits (S n) l = shift1 (shift_bits n l).
Proof. reflexivity. Qed.

Lemma shift_bits_lxor n a b : shift_bits n (Z.lxor a b) = Z.lxor (shift_bits n a) (shift_bits n b).
Proof. induction n as [|n IH]; [done|]. by rewrite !shift_bits_S, IH, shift1_lxor. Qed.

Lemma shift_bits_add m n l : shift_bits (m + n) l = shift_bits m (shift_bits n l).
Proof. apply Nat.iter_add. Qed.

Lemma shift1_double k : shift1 (2 * k) = k.
Proof.
  unfold shift1. rewrite Z.odd_mul. cbn [Z.odd andb]. rewrite Z.lxor_0_r.
  rewrite <-Z.div2_spec, Z.div2_div, Z.mul_comm. apply Z.div_mul. lia.
Qed.

Lemma shift_bits_shiftl n k : shift_bits n (Z.shiftl k (Z.of_nat n)) = k.
Proof.
  induction n as [|n IH]; [apply Z.shiftl_0_r|].
  rewrite <-Nat.add_1_r, shift_bits_add.
  replace (shift_bits 1 (Z.shiftl k (Z.of_nat (n + 1)))) with (Z.shiftl k (Z.of_nat n)); [done|].
  rewrite Nat2Z.inj_add, <-Z.shiftl_shiftl, (Z.shiftl_mul_pow2 _ (Z.of_nat 1)) by lia.
  rewrite Z.mul_comm. symmetry. apply shift1_double.
Qed.

Lemma shift_bits_0 l : shift_bits 0 l = l.
Proof. reflexivity. Qed.

(** Shifting by more bits than a number is to the left. *)
Lemma shift_bits_part m n k :
  shift_bits (m + n) (Z.shiftl k (Z.of_nat n)) = shift_bits m k.
Proof. by rewrite shift_bits_add, shift_bits_shiftl. Qed.

Lemma lxor_range n a b : 0 <= n -> 0 <= a < 2 ^ n -> 0 <= b < 2 ^ n -> 0 <= Z.lxor a b < 2 ^ n.
Proof.
  intros Hn Ha Hb. split; [apply Z.lxor_nonneg; lia|].
  assert (E : forall x, 0 <= x < 2 ^ n -> Z.land x (Z.ones n) = x)
    by (intros; rewrite Z.land_ones by lia; by apply Z.mod_small).
  rewrite <-(E a), <-(E b) by done.
  replace (Z.lxor (Z.land a (Z.ones n)) (Z.land b (Z.ones n))) with (Z.land (Z.lxor a b) (Z.ones n)).
  - rewrite Z.land_ones by lia. apply Z.mod_pos_bound, Z.pow_pos_nonneg; lia.
  - apply Z.bits_inj'. intros i Hi. rewrite Z.lxor_spec, !Z.land_spec, Z.lxor_spec.
    by destruct (Z.testbit a i), (Z.testbit b i), (Z.testbit (Z.ones n) i).
Qed.

Lemma word_lxor a b : is_word a -> is_word b -> is_word (Z.lxor a b).
Proof. by apply (lxor_range 32). Qed.

Lemma byte_word b : is_byte b -> is_word b.
Proof. unfold is_byte, is_word. lia. Qed.

Lemma shift1_word l : is_word l -> is_word (shift1 l).
Proof.
  intros H. apply word_lxor; [|destruct (Z.odd l); unfold is_word, POLY; lia].
  unfold is_word in *. rewrite Z.shiftr_div_pow2 by lia. change (2 ^ 1) with 2.
  split; [apply Z.div_pos; lia|apply Z.div_lt_upper_bound; lia].
Qed.

Lemma shift_bits_word n l : is_word l -> is_word (shift_bits n l).
Proof. intros H. induction n; [done|]. rewrite shift_bits_S. by apply shift1_word. Qed.

Lemma crc_byte_word l b : is_word l -> is_byte b -> is_word (crc_byte l b).
Proof. intros. by apply shift_bits_word, word_lxor, byte_word. Qed.

Lemma crc_bytes_word data l : is_word l -> Forall is_byte data -> is_word (crc_bytes l data).
Proof.
  intros H Hd. revert l H. induction Hd as [|b bs Hb _ IH]; intros l Hl; [done|].
  apply (IH (crc_byte l b)), crc_byte_word; done.
Qed.

#[local] Opaque shift_bits.

(** The bytes as a little-endian number. *)
Fixpoint le (bs : list Z) : Z :=
  match bs with [] => 0 | b :: bs => Z.lxor b (Z.shiftl (le bs) 8) end.

Lemma crc_bytes_le bs l : crc_bytes l bs = shift_bits (8 * length bs) (Z.lxor l (le bs)).
Proof.
  revert l. induction bs as [|b bs IH]; intros l.
  { cbn [length Nat.mul le]. by rewrite shift_bits_0, Z.lxor_0_r. }
 
  change (crc_bytes l (b :: bs)) with (crc_bytes (crc_byte l b) bs). rewrite IH.
  cbn [length le]. replace (8 * S (length bs))%nat with (8 * length bs + 8)%nat by lia.
  rewrite shift_bits_add. f_equal. rewrite <-Z.lxor_assoc, shift_bits_lxor.
  f_equal. symmetry. apply (shift_bits_shiftl 8).
Qed.

Lemma crc_bytes_cons l b bs : crc_bytes l (b :: bs) = crc_bytes (crc_byte l b) bs.
Proof. unfold crc_bytes. reflexivity. Qed.

Lemma crc_bytes_app l a b : crc_bytes l (a ++ b) = crc_bytes (crc_bytes l a) b.
Proof. apply foldl_app. Qed.

(** *** The tables are the reference on one byte *)

Definition table_for (n : nat) : list Z := map (fun i => shift_bits n (Z.of_nat i)) (seq 0 256).

Lemma tables_ok :
  table0_ = table_for 8 /\ table1_ = table_for 16 /\ table2_ = table_for 24 /\ table3_ = table_for 32.
Proof. split_and!; vm_compute; reflexivity. Qed.

Lemma table_lookup n i : is_byte i -> table (table_for n) i = Some (shift_bits n i).
Proof.
  unfold is_byte, table, table_for. intros Hi. destruct (Z.leb_spec 0 i); [|lia].
  rewrite list_lookup_fmap, lookup_seq_lt by lia. cbn. do 2 f_equal. lia.
Qed.

(** *** Splitting a number into bytes *)

Lemma land_byte l : is_byte (Z.land l 0xff).
Proof. rewrite (land_mask 8) by lia. apply Z.mod_pos_bound. lia. Qed.

Lemma split_low l : l = Z.lxor (Z.land l 0xff) (Z.shiftl (Z.shiftr l 8) 8).
Proof.
  change 0xff with (Z.ones 8). apply Z.bits_inj'. intros n Hn.
  rewrite Z.lxor_spec, Z.land_spec, Z.testbit_ones_nonneg by lia.
  destruct (Z.ltb_spec n 8).
  - rewrite Z.shiftl_spec_low by lia. by destruct (Z.testbit l n).
  - rewrite Z.shiftl_spec_high, Z.shiftr_spec by lia. rewrite andb_false_r. cbn. f_equal. lia.
Qed.

Lemma shiftr_word n l : 0 <= n <= 32 -> is_word l -> 0 <= Z.shiftr l n < 2 ^ (32 - n).
Proof.
  unfold is_word. intros Hn Hl. rewrite Z.shiftr_div_pow2 by lia.
  assert (2 ^ 32 = 2 ^ n * 2 ^ (32 - n)) as E by (rewrite <-Z.pow_add_r by lia; f_equal; lia).
  split; [apply Z.div_pos; lia|]. apply Z.div_lt_upper_bound; [apply Z.pow_pos_nonneg; lia|lia].
Qed.

Lemma byte_step l b :
  crc_byte l b = Z.lxor (shift_bits 8 (Z.lxor (Z.land l 0xff) b)) (Z.shiftr l 8).
Proof.
  unfold crc_byte. rewrite (split_low l) at 1.
  rewrite Z.lxor_assoc, (Z.lxor_comm (Z.shiftl _ _)), <-Z.lxor_assoc, shift_bits_lxor.
  f_equal. apply (shift_bits_shiftl 8).
Qed.

(** The four tables on the bytes of a word. *)
Lemma four_tables c :
  shift_bits 32 c =
  Z.lxor (Z.lxor (Z.lxor (shift_bits 32 (Z.land c 0xff)) (shift_bits 24 (Z.land (Z.shiftr c 8) 0xff)))
                 (shift_bits 16 (Z.land (Z.shiftr c 16) 0xff)))
         (shift_bits 8 (Z.shiftr c 24)).
Proof.
  rewrite (split_low c) at 1. rewrite shift_bits_lxor, (shift_bits_part 24 8), !Z.lxor_assoc. f_equal.
  rewrite (split_low (Z.shiftr c 8)) at 1. rewrite shift_bits_lxor, (shift_bits_part 16 8). f_equal.
  rewrite Z.shiftr_shiftr by lia. change (8 + 8) with 16.
  rewrite (split_low (Z.shiftr c 16)) at 1. rewrite shift_bits_lxor, (shift_bits_part 8 8). f_equal.
Qed.

(** A byte below a shifted number can be or-ed or xor-ed. *)
Lemma lor_le x b n : 0 <= n -> 0 <= x < 2 ^ n -> Z.lor x (Z.shiftl b n) = Z.lxor x (Z.shiftl b n).
Proof.
  intros Hn Hx. pose proof (land_disjoint x b n Hn Hx) as E.
  rewrite <-Z.add_nocarry_lxor, <-Z.add_lor_land, E by done. lia.
Qed.

(** *** Memory and steps *)

Section ExtendSpec.
Context (base : Z) (buf : list Z) (Hbuf : Forall is_byte buf).

(** At an address [p]: the string that begins there. *)
Definition at_ptr (p : Z) (rest : list Z) : Prop :=
  base <= p /\ drop (Z.to_nat (p - base)) buf = rest.

Lemma at_ptr_cons p b rest : at_ptr p (b :: rest) ->
  load base buf p = Some b /\ is_byte b /\ at_ptr (p + 1) rest.
Proof.
  intros [Hp Hd]. unfold load. destruct (Z.leb_spec base p); [|lia].
  assert (buf !! Z.to_nat (p - base) = Some b) as E.
  { rewrite <-(Nat.add_0_r (Z.to_nat _)), <-lookup_drop, Hd. done. }
  split; [done|]. split; [exact (Forall_lookup_1 _ _ _ _ Hbuf E)|].
  split; [lia|]. replace (Z.to_nat (p + 1 - base)) with (Z.to_nat (p - base) + 1)%nat by lia.
  rewrite <-drop_drop, Hd. done.
Qed.

Lemma at_ptr_bytes p rest : at_ptr p rest -> Forall is_byte rest.
Proof. intros [_ <-]. by apply Forall_drop. Qed.

Lemma at_ptr_end p rest : at_ptr p rest -> p <= base + zlen buf -> zlen rest = base + zlen buf - p.
Proof. intros [Hp <-] He. rewrite zlen_drop. lia. Qed.

(** A functor takes eight bytes as the reference does. *)
Definition functor_ok (CRC32 : Z -> Z -> option (Z * Z)) : Prop :=
  forall l p bs rest, is_word l -> length bs = 8%nat -> at_ptr p (bs ++ rest) ->
    CRC32 l p = Some (crc_bytes l bs, p + 8) /\ at_ptr (p + 8) rest.

Lemma STEP1_ok l p b rest : is_word l -> at_ptr p (b :: rest) ->
  STEP1 base buf l p = Some (crc_byte l b, p + 1) /\ at_ptr (p + 1) rest.
Proof.
  intros Hl Hp. destruct (at_ptr_cons p b rest Hp) as (E & Hb & Hr). split; [|done].
  unfold STEP1. rewrite E. cbn [mbind option_bind]. rewrite (proj1 tables_ok), table_lookup.
  - by rewrite byte_step.
  - apply (lxor_range 8); [lia|apply land_byte|exact Hb].
Qed.

Lemma step_until_ok fuel bs rest l p : (length bs <= fuel)%nat -> is_word l -> at_ptr p (bs ++ rest) ->
  step_until base buf fuel (p + zlen bs) l p = Some (crc_bytes l bs, p + zlen bs) /\
  at_ptr (p + zlen bs) rest.
Proof.
  revert bs l p. induction fuel as [|fuel IH]; intros bs l p Hf Hl Hp.
  - destruct bs; [|cbn in Hf; lia]. cbn. rewrite Z.add_0_r, Z.eqb_refl. done.
  - destruct bs as [|b bs]; [cbn; rewrite Z.add_0_r, Z.eqb_refl; done|].
    cbn [step_until]. rewrite zlen_cons. pose proof (zlen_nonneg bs).
    destruct (Z.eqb_spec p (p + (1 + zlen bs))); [lia|].
    destruct (STEP1_ok l p b (bs ++ rest)) as [-> Hp1]; [done..|]. cbn [mbind option_bind].
    rewrite Z.add_assoc. change (crc_bytes l (b :: bs)) with (crc_bytes (crc_byte l b) bs).
    apply IH; [cbn in Hf; lia| |done].
    apply crc_byte_word; [done|]. pose proof (at_ptr_bytes _ _ Hp) as Hb.
    by inversion Hb.
Qed.

(** The loops with a functor that takes [n] bytes at a time stop with less than
    [n] bytes left. *)
Lemma words_while_ok CRC32 n fuel bs l p : 0 < Z.of_nat n ->
  (forall l p bs rest, is_word l -> length bs = n -> at_ptr p (bs ++ rest) ->
     CRC32 l p = Some (crc_bytes l bs, p + Z.of_nat n) /\ at_ptr (p + Z.of_nat n) rest) ->
  (length bs <= fuel)%nat -> is_word l -> at_ptr p bs ->
  exists done rest, bs = done ++ rest /\
    words_while CRC32 fuel (Z.of_nat n) (p + zlen bs) l p = Some (crc_bytes l done, p + zlen done) /\
    at_ptr (p + zlen done) rest.
Proof.
  intros Hn HC. revert bs l p. induction fuel as [|fuel IH]; intros bs l p Hf Hl Hp.
  - destruct bs; [|cbn in Hf; lia]. exists [], []. cbn [words_while]. change (zlen []) with 0.
    rewrite Z.add_0_r. destruct (Z.leb_spec (Z.of_nat n) (p - p)); [lia|]. done.
  - cbn [words_while]. replace (p + zlen bs - p) with (zlen bs) by lia.
    destruct (Z.leb_spec (Z.of_nat n) (zlen bs)) as [Hle|Hle].
    + unfold zlen in Hle. destruct (HC l p (take n bs) (drop n bs)) as [-> Hp1];
        [done|rewrite length_take; lia|by rewrite take_drop|]. cbn [mbind option_bind].
      assert (zlen (take n bs) = Z.of_nat n) as Et by (unfold zlen; rewrite length_take; lia).
      destruct (IH (drop n bs) (crc_bytes l (take n bs)) (p + Z.of_nat n)) as (d & r & E & Ew & Hr).
      { rewrite length_drop. lia. }
      { apply crc_bytes_word; [done|]. apply Forall_take, (at_ptr_bytes _ _ Hp). }
      { done. }
      exists (take n bs ++ d), r. split; [by rewrite <-app_assoc, <-E, take_drop|].
      rewrite zlen_app, Et, crc_bytes_app, Z.add_assoc. split; [|done].
      rewrite <-Ew. f_equal. unfold zlen. rewrite length_drop. lia.
    + exists [], bs. change (zlen []) with 0. rewrite Z.add_0_r. done.
Qed.

(** *** Extend *)

Lemma align_range : 0 <= base -> base + 16 <= 2 ^ 64 -> base <= ALIGN base 4 <= base + 15.
Proof.
  intros H0 H1. unfold ALIGN. change (Z.shiftl 1 4 - 1) with 15.
  rewrite (wrapu_small 64 (base + 15)) by lia.
  replace (u64 (Z.lnot 15)) with (Z.shiftl (Z.ones 60) 4) by reflexivity.
  replace (Z.land (base + 15) (Z.shiftl (Z.ones 60) 4)) with (Z.shiftl (Z.shiftr (base + 15) 4) 4).
  - rewrite Z.shiftl_mul_pow2, Z.shiftr_div_pow2 by lia. change (2 ^ 4) with 16.
    pose proof (Z.div_mod (base + 15) 16 ltac:(lia)).
    pose proof (Z.mod_pos_bound (base + 15) 16 ltac:(lia)). lia.
  - apply Z.bits_inj'. intros n Hn. rewrite Z.land_spec.
    destruct (Z.ltb_spec n 4) as [Hlt|Hge].
    + rewrite !Z.shiftl_spec_low by lia. by rewrite andb_false_r.
    + rewrite !Z.shiftl_spec_high, Z.shiftr_spec by lia. rewrite Z.testbit_ones_nonneg by lia.
      replace (n - 4 + 4) with n by lia. destruct (Z.ltb_spec (n - 4) 60); [by rewrite andb_true_r|].
      rewrite andb_false_r. destruct (decide (base + 15 = 0)); [lia|].
      apply Z.bits_above_log2; [lia|]. apply Z.log2_lt_pow2; [lia|].
      pose proof (Z.pow_le_mono_r 2 64 n ltac:(lia) ltac:(lia)). lia.
Qed.

Lemma twice_ok CRC32 : functor_ok CRC32 -> forall l p bs rest,
  is_word l -> length bs = 16%nat -> at_ptr p (bs ++ rest) ->
  twice CRC32 l p = Some (crc_bytes l bs, p + 16) /\ at_ptr (p + 16) rest.
Proof.
  intros HC l p bs rest Hl Hb Hp. rewrite <-(take_drop 8 bs), <-app_assoc in Hp.
  pose proof (at_ptr_bytes _ _ Hp) as Hw. apply Forall_app in Hw as [Hw _].
  destruct (HC l p (take 8 bs) (drop 8 bs ++ rest)) as [E1 Hp1]; [done|rewrite length_take; lia|done|].
  destruct (HC (crc_bytes l (take 8 bs)) (p + 8) (drop 8 bs) rest) as [E2 Hp2];
    [by apply crc_bytes_word|rewrite length_drop; lia|done|].
  unfold twice. rewrite E1. cbn [mbind option_bind]. rewrite E2, <-crc_bytes_app, take_drop.
  by rewrite <-Z.add_assoc in *.
Qed.

(** The bytes before the aligned address, if the string reaches it. *)
Lemma align_ok fuel x l : base <= x -> (length buf <= fuel)%nat -> is_word l ->
  exists bs rest, buf = bs ++ rest /\
    (if x <=? base + zlen buf then step_until base buf fuel x l base else Some (l, base)) =
      Some (crc_bytes l bs, base + zlen bs) /\
    at_ptr (base + zlen bs) rest.
Proof.
  intros Hx Hf Hl.
  assert (at_ptr base buf) as Hp. { split; [lia|]. by rewrite Z.sub_diag. }
  destruct (Z.leb_spec x (base + zlen buf)) as [Hle|_].
  - exists (take (Z.to_nat (x - base)) buf), (drop (Z.to_nat (x - base)) buf).
    split; [by rewrite take_drop|].
    assert (x = base + zlen (take (Z.to_nat (x - base)) buf)) as E by (rewrite zlen_take; lia).
    rewrite E at 1. apply step_until_ok; [rewrite length_take; lia|done|by rewrite take_drop].
  - exists [], buf. change (zlen []) with 0. by rewrite Z.add_0_r.
Qed.

Lemma ExtendImpl_ok CRC32 crc :
  functor_ok CRC32 -> 0 <= base -> base + zlen buf + 16 <= 2 ^ 64 -> is_word crc ->
  ExtendImpl base buf CRC32 crc = Some (crc32c crc buf).
Proof.
  intros HC H0 H1 Hc. pose proof (zlen_nonneg buf).
  pose proof (align_range H0 ltac:(lia)) as Hx. unfold ExtendImpl.
  assert (is_word (Z.lxor crc 0xffffffff)) as Hl by (apply word_lxor; [done|unfold is_word; lia]).
  destruct (align_ok (S (length buf)) (ALIGN base 4) _ (proj1 Hx) ltac:(lia) Hl) as (b1 & r1 & E1 & -> & P1).
  cbn [mbind option_bind].
  assert (forall l a, is_word l -> Forall is_byte a -> is_word (crc_bytes l a)) as Hw
    by (intros; by apply crc_bytes_word).
  assert (base + zlen buf = base + zlen b1 + zlen r1) as -> by (rewrite E1, zlen_app; lia).
  pose proof Hbuf as Hf. rewrite E1 in Hf. apply Forall_app in Hf as [F1 F2].
  destruct (words_while_ok (twice CRC32) 16 (S (length buf)) r1 (crc_bytes (Z.lxor crc 0xffffffff) b1)
    (base + zlen b1)) as (b2 & r2 & E2 & W2 & P2); [lia|by apply twice_ok|rewrite E1, length_app; lia|auto|done|].
  change (Z.of_nat 16) with 16 in W2. rewrite W2. cbn [mbind option_bind]. rewrite E2, zlen_app, Z.add_assoc. rewrite E2 in F2. apply Forall_app in F2 as [F2 F3].
  destruct (words_while_ok CRC32 8 (S (length buf)) r2 (crc_bytes (crc_bytes (Z.lxor crc 0xffffffff) b1) b2)
    (base + zlen b1 + zlen b2)) as (b3 & r3 & E3 & W3 & P3);
    [lia|exact HC|rewrite E1, E2, !length_app; lia|auto|done|].
  change (Z.of_nat 8) with 8 in W3. rewrite W3. cbn [mbind option_bind]. rewrite E3, zlen_app, Z.add_assoc. rewrite E3 in F3. apply Forall_app in F3 as [F3 F4].
  destruct (step_until_ok (S (length buf)) r3 [] (crc_bytes (crc_bytes (crc_bytes (Z.lxor crc 0xffffffff) b1) b2) b3)
    (base + zlen b1 + zlen b2 + zlen b3)) as [-> _];
    [rewrite E1, E2, E3, !length_app; lia|auto|by rewrite app_nil_r|].
  cbn [mbind option_bind]. unfold crc32c. rewrite E1, E2, E3, !crc_bytes_app.
  f_equal. apply wrapu_small, word_lxor; [auto|unfold is_word; lia].
Qed.

(** *** The functors *)

Lemma shiftl_range b k n : 0 <= k -> is_byte b -> k + 8 = n -> 0 <= Z.shiftl b k < 2 ^ n.
Proof.
  unfold is_byte. intros Hk Hb <-. rewrite Z.shiftl_mul_pow2, Z.pow_add_r by lia.
  pose proof (Z.pow_pos_nonneg 2 k). nia.
Qed.

Lemma le_word a b c d : is_byte a -> is_byte b -> is_byte c -> is_byte d ->
  Z.lor (Z.lor (Z.lor a (Z.shiftl b 8)) (Z.shiftl c 16)) (Z.shiftl d 24) = le [a; b; c; d] /\
  is_word (le [a; b; c; d]).
Proof.
  intros Ha Hb Hc Hd. cbn [le]. rewrite Z.shiftl_0_l, Z.lxor_0_r.
  rewrite !Z.shiftl_lxor, !Z.shiftl_shiftl by lia. change (8 + 8) with 16. change (8 + 16) with 24.
  pose proof (shiftl_range b 8 16 ltac:(lia) Hb eq_refl) as Rb.
  pose proof (shiftl_range c 16 24 ltac:(lia) Hc eq_refl) as Rc.
  pose proof (shiftl_range d 24 32 ltac:(lia) Hd eq_refl) as Rd.
  assert (is_byte a) as Ra by done. unfold is_byte in Ra.
  pose proof (lxor_range 16 a (Z.shiftl b 8) ltac:(lia) ltac:(lia) Rb) as R2.
  assert (0 <= Z.lxor (Z.lxor a (Z.shiftl b 8)) (Z.shiftl c 16) < 2 ^ 24) as R3
    by (apply (lxor_range 24); lia).
  rewrite (lor_le a b 8) by lia. rewrite (lor_le (Z.lxor a (Z.shiftl b 8)) c 16) by lia. rewrite (lor_le _ d 24) by lia.
  rewrite !Z.lxor_assoc. split; [done|].
  rewrite <-!Z.lxor_assoc. apply (lxor_range 32); lia.
Qed.

Lemma LE_LOAD32_ok p a b c d rest : at_ptr p (a :: b :: c :: d :: rest) ->
  LE_LOAD32 base buf p = Some (le [a; b; c; d]) /\ is_word (le [a; b; c; d]) /\ at_ptr (p + 4) rest.
Proof.
  intros H. apply at_ptr_cons in H as (E0 & B0 & H). apply at_ptr_cons in H as (E1 & B1 & H).
  apply at_ptr_cons in H as (E2 & B2 & H). apply at_ptr_cons in H as (E3 & B3 & H).
  rewrite <-!Z.add_assoc in *. destruct (le_word a b c d B0 B1 B2 B3) as [E Hw]. split_and!; [|done..].
  unfold LE_LOAD32, DecodeFixed32.
  change (p + 2) with (p + (1 + 1)). change (p + 3) with (p + (1 + (1 + 1))).
  rewrite E0, E1, E2, E3. cbn [mbind option_bind]. by rewrite E.
Qed.

Lemma slow_word_ok l p a b c d rest : is_word l -> at_ptr p (a :: b :: c :: d :: rest) ->
  slow_word base buf l p = Some (crc_bytes l [a; b; c; d]) /\ at_ptr (p + 4) rest.
Proof.
  intros Hl Hp. destruct (LE_LOAD32_ok _ _ _ _ _ _ Hp) as (E & Hw & Hr). split; [|done].
  unfold slow_word. rewrite E. cbn [mbind option_bind].
  destruct tables_ok as (-> & -> & -> & ->).
  pose proof (word_lxor _ _ Hl Hw) as Hc. rewrite (wrapu_small 32) by exact Hc.
  rewrite !table_lookup by first [apply land_byte|by apply (shiftr_word 24)].
  cbn [mbind option_bind]. rewrite <-four_tables. f_equal. symmetry. apply (crc_bytes_le [a; b; c; d]).
Qed.

Ltac eight_bytes bs :=
  destruct bs as [|a [|b [|c [|d [|e [|f [|g [|h [|]]]]]]]]]; try done; cbn [app] in *.

Lemma Slow_CRC32_ok : functor_ok (Slow_CRC32 base buf).
Proof.
  intros l p bs rest Hl Hb Hp. eight_bytes bs.
  pose proof (at_ptr_bytes _ _ Hp) as Hf. repeat (apply Forall_cons in Hf as [? Hf]).
  destruct (slow_word_ok _ _ _ _ _ _ _ Hl Hp) as [E Hp1]. unfold Slow_CRC32. rewrite E.
  cbn [mbind option_bind].
  destruct (slow_word_ok (crc_bytes l [a; b; c; d]) (p + 4) e f g h rest) as [-> Hp2];
    [apply crc_bytes_word; [exact Hl|by rewrite !Forall_cons, Forall_nil]|exact Hp1|].
  cbn [mbind option_bind]. rewrite <-crc_bytes_app, <-!Z.add_assoc in *. done.
Qed.

(** Intel's description of the instructions: the CRC-32C of 64 or 32 bits. *)
Definition is_crc32 (n : Z) (instruction : Z -> Z -> Z) : Prop :=
  forall l w, is_word l -> 0 <= w < 2 ^ n -> instruction l w = shift_bits (Z.to_nat n) (Z.lxor l w).

Lemma le_app x y : le (x ++ y) = Z.lxor (le x) (Z.shiftl (le y) (8 * zlen x)).
Proof.
  induction x as [|b x IH]; [cbn; by rewrite Z.shiftl_0_r|].
  cbn [app le]. pose proof (zlen_nonneg x).
  rewrite IH, Z.shiftl_lxor, Z.shiftl_shiftl, Z.lxor_assoc, zlen_cons by lia.
  do 3 f_equal. lia.
Qed.

Lemma LE_LOAD64_ok p a b c d e f g h rest : at_ptr p (a :: b :: c :: d :: e :: f :: g :: h :: rest) ->
  LE_LOAD64 base buf p = Some (le [a; b; c; d; e; f; g; h]) /\
  0 <= le [a; b; c; d; e; f; g; h] < 2 ^ 64.
Proof.
  intros Hp. destruct (LE_LOAD32_ok _ _ _ _ _ _ Hp) as (E1 & W1 & Hp1).
  destruct (LE_LOAD32_ok _ _ _ _ _ _ Hp1) as (E2 & W2 & _).
  change [a; b; c; d; e; f; g; h] with ([a; b; c; d] ++ [e; f; g; h]). rewrite le_app.
  change (8 * zlen [a; b; c; d]) with 32. unfold is_word in *. split.
  - unfold LE_LOAD64, DecodeFixed64. fold (LE_LOAD32 base buf). rewrite E1. cbn [mbind option_bind].
    rewrite E2. cbn [mbind option_bind]. by rewrite Z.lor_comm, lor_le by lia.
  - apply (lxor_range 64); [lia|lia|]. rewrite Z.shiftl_mul_pow2 by lia. lia.
Qed.

Lemma Fast_CRC32_ok SSE4_2 LP64 mm64 mm32 : is_crc32 64 mm64 -> is_crc32 32 mm32 ->
  functor_ok (Fast_CRC32 base buf SSE4_2 LP64 mm64 mm32).
Proof.
  intros H64 H32. unfold Fast_CRC32. destruct SSE4_2; [|apply Slow_CRC32_ok].
  intros l p bs rest Hl Hb Hp. eight_bytes bs.
  destruct (LE_LOAD32_ok _ _ _ _ _ _ Hp) as (E1 & W1 & Hp1).
  destruct (LE_LOAD32_ok _ _ _ _ _ _ Hp1) as (E2 & W2 & Hp2). rewrite <-Z.add_assoc in Hp2.
  assert (C1 : mm32 l (le [a; b; c; d]) = crc_bytes l [a; b; c; d])
    by (rewrite H32, crc_bytes_le by done; done).
  split; [|exact Hp2]. destruct LP64.
  - destruct (LE_LOAD64_ok _ _ _ _ _ _ _ _ _ _ Hp) as [-> Hw]. cbn [mbind option_bind].
    by rewrite H64, crc_bytes_le by done.
  - rewrite E1. cbn [mbind option_bind]. rewrite E2. cbn [mbind option_bind]. rewrite <-Z.add_assoc.
    rewrite (wrapu_small 32 l), C1 by exact Hl. do 2 f_equal.
    pose proof (at_ptr_bytes _ _ Hp) as Hf. repeat (apply Forall_cons in Hf as [? Hf]).
    assert (is_word (crc_bytes l [a; b; c; d])) as Hl2
      by (apply crc_bytes_word; [exact Hl|by rewrite !Forall_cons, Forall_nil]).
    rewrite (wrapu_small 32), H32 by done. symmetry.
    change [a; b; c; d; e; f; g; h] with ([a; b; c; d] ++ [e; f; g; h]). rewrite crc_bytes_app.
    apply crc_bytes_le.
Qed.
End ExtendSpec.

(** *** The checksum is injective in a word *)

Lemma shift1_inj a b : is_word a -> is_word b -> shift1 a = shift1 b -> a = b.
Proof.
  intros Ha Hb E. apply Z.lxor_eq. assert (shift1 (Z.lxor a b) = 0) as E0.
  { rewrite shift1_lxor, E. apply Z.lxor_nilpotent. }
  pose proof (shiftr_word 1 _ ltac:(lia) (word_lxor _ _ Ha Hb)) as Hr.
  unfold shift1 in E0. apply Z.lxor_eq in E0.
  destruct (Z.odd (Z.lxor a b)) eqn:Ho; [unfold POLY in E0; lia|].
  rewrite Z.shiftr_div_pow2 in E0 by lia. pose proof (Z.div_mod (Z.lxor a b) (2 ^ 1) ltac:(lia)) as Hd.
  change (2 ^ 1) with 2 in *. rewrite Zmod_odd, Ho in Hd. lia.
Qed.

Lemma shift_bits_inj n a b : is_word a -> is_word b -> shift_bits n a = shift_bits n b -> a = b.
Proof.
  intros Ha Hb. induction n as [|n IH]; [by rewrite !shift_bits_0|]. rewrite !shift_bits_S. intros E.
  apply IH, shift1_inj; [by apply shift_bits_word..|done].
Qed.

Lemma lxor_cancel_l a b c : Z.lxor a b = Z.lxor a c -> b = c.
Proof.
  intros E. apply (f_equal (Z.lxor a)) in E. by rewrite <-!Z.lxor_assoc, Z.lxor_nilpotent in E.
Qed.

Lemma lxor_cancel_r a b c : Z.lxor b a = Z.lxor c a -> b = c.
Proof. rewrite !(Z.lxor_comm _ a). apply lxor_cancel_l. Qed.

Lemma crc_bytes_inj data a b : Forall is_byte data -> is_word a -> is_word b ->
  crc_bytes a data = crc_bytes b data -> a = b.
Proof.
  intros Hd. revert a b. induction Hd as [|x data Hx Hd IH]; intros a b Ha Hb E; [done|].
  rewrite !crc_bytes_cons in E.
  apply IH in E; [|by apply crc_byte_word..]. unfold crc_byte in E.
  apply shift_bits_inj in E; [|by apply word_lxor, byte_word..].
  by apply lxor_cancel_r in E.
Qed.

Lemma le_range bs : Forall is_byte bs -> 0 <= le bs < 2 ^ (8 * zlen bs).
Proof.
  induction 1 as [|b bs Hb Hbs IH]; [change (0 <= 0 < 1); lia|]. cbn [le]. rewrite zlen_cons. pose proof (zlen_nonneg bs).
  apply lxor_range; [lia| |].
  - unfold is_byte in Hb. pose proof (Z.pow_le_mono_r 2 8 (8 * (1 + zlen bs)) ltac:(lia) ltac:(lia)). lia.
  - rewrite Z.shiftl_mul_pow2 by lia. replace (8 * (1 + zlen bs)) with (8 * zlen bs + 8) by lia.
    rewrite Z.pow_add_r by lia. lia.
Qed.

Lemma le_inj x y : length x = length y -> Forall is_byte x -> Forall is_byte y -> le x = le y -> x = y.
Proof.
  revert y. induction x as [|a x IH]; intros [|b y] Hl Hx Hy E; try done.
  apply Forall_cons in Hx as [Ha Hx]. apply Forall_cons in Hy as [Hb Hy]. cbn [le] in E.
  assert (Hlow : forall c z, is_byte c -> Z.land (Z.lxor c (Z.shiftl z 8)) (Z.ones 8) = c).
  { intros c z Hc. apply Z.bits_inj'. intros n Hn.
    rewrite Z.land_spec, Z.lxor_spec, Z.testbit_ones_nonneg by lia. destruct (Z.ltb_spec n 8).
    - rewrite Z.shiftl_spec_low by lia. by rewrite xorb_false_r, andb_true_r.
    - rewrite andb_false_r. symmetry. rewrite <-(Z.mod_small c (2 ^ 8)) by exact Hc.
      apply Z.mod_pow2_bits_high. lia. }
  assert (a = b) as ->. { rewrite <-(Hlow a (le x) Ha), E. by apply Hlow. }
  f_equal. apply lxor_cancel_l in E. apply IH; [by injection Hl|done..|].
  apply (f_equal (fun z => Z.shiftr z 8)) in E. by rewrite !Z.shiftr_shiftl_l, !Z.shiftl_0_r in E by lia.
Qed.

(** *** Masks *)

Definition rotated (crc : Z) : Z := Z.shiftr crc 15 + Z.land crc (Z.ones 15) * 2 ^ 17.

Lemma rotate_range crc : is_word crc -> is_word (rotated crc).
Proof.
  intros H. pose proof (shiftr_word 15 crc ltac:(lia) H). unfold rotated, is_word in *.
  rewrite Z.land_ones by lia. pose proof (Z.mod_pos_bound crc (2 ^ 15) ltac:(lia)). lia.
Qed.

Lemma u32_shiftl x n : 0 <= n <= 32 -> u32 (Z.shiftl x n) = Z.shiftl (Z.land x (Z.ones (32 - n))) n.
Proof.
  intros Hn. unfold wrapu. rewrite Z.land_ones, !Z.shiftl_mul_pow2 by lia.
  replace (2 ^ 32) with (2 ^ (32 - n) * 2 ^ n) by (rewrite <-Z.pow_add_r by lia; f_equal; lia).
  apply Z.mul_mod_distr_r; apply Z.pow_nonzero; lia.
Qed.

Lemma Mask_rotated crc : is_word crc -> Mask crc = u32 (rotated crc + kMaskDelta).
Proof.
  intros H. unfold Mask, rotated. rewrite (u32_shiftl crc 17) by lia.
  by rewrite lor_shiftl by (first [lia|by apply (shiftr_word 15)]).
Qed.

Lemma Unmask_Mask crc : is_word crc -> Unmask (Mask crc) = crc.
Proof.
  intros H. pose proof (rotate_range crc H) as Hr. unfold is_word in *.
  pose proof (shiftr_word 15 crc ltac:(lia) H) as Hs.
  rewrite Mask_rotated by done. unfold Unmask. rewrite wrapu_sub_l.
  replace (rotated crc + kMaskDelta - kMaskDelta) with (rotated crc) by lia.
  rewrite wrapu_small by done. rewrite (u32_shiftl _ 15) by lia.
  rewrite lor_shiftl by (first [lia|by apply (shiftr_word 17)]). unfold rotated.
  rewrite !Z.land_ones, !Z.shiftr_div_pow2 in * by lia.
  rewrite Z.div_add, (Z.div_small (crc / 2 ^ 15)) by lia. change (32 - 15) with 17.
  rewrite Z.mod_add, (Z.mod_small (crc / 2 ^ 15)) by lia.
  pose proof (Z.div_mod crc (2 ^ 15) ltac:(lia)). lia.
Qed.

(** *** Facts for the properties *)

Lemma Extend_ok isSSE42 SSE4_2 LP64 mm64 mm32 base buf crc :
  is_crc32 64 mm64 -> is_crc32 32 mm32 ->
  Forall is_byte buf -> 0 <= base -> base + zlen buf + 16 <= 2 ^ 64 -> is_word crc ->
  Extend base buf isSSE42 SSE4_2 LP64 mm64 mm32 crc = Some (crc32c crc buf).
Proof.
  intros. unfold Extend, Choose_Extend. destruct isSSE42; apply ExtendImpl_ok; auto using Slow_CRC32_ok, Fast_CRC32_ok.
Qed.

Lemma all_ones_word : is_word 0xffffffff.
Proof. unfold is_word. lia. Qed.
Create HintDb crc.
#[local] Hint Resolve all_ones_word word_lxor crc_bytes_word : crc.

Lemma crc32c_word crc data : is_word crc -> Forall is_byte data -> is_word (crc32c crc data).
Proof. unfold crc32c. auto with crc. Qed.

Lemma le_is_word w : Forall is_byte w -> (length w <= 4)%nat -> is_word (le w).
Proof.
  intros Hw Hl. pose proof (le_range w Hw) as [? ?]. split; [done|].
  eapply Z.lt_le_trans; [done|]. apply Z.pow_le_mono_r; unfold zlen; lia.
Qed.

(** A window of at most four bytes is determined by the checksum. *)
Lemma crc32c_window_inj crc a w w' z : is_word crc ->
  Forall is_byte (a ++ w ++ z) -> Forall is_byte w' -> length w' = length w -> (length w <= 4)%nat ->
  crc32c crc (a ++ w' ++ z) = crc32c crc (a ++ w ++ z) -> w' = w.
Proof.
  intros Hc Hs Hw' Hl H4 E. apply Forall_app in Hs as [Ha Hs]. apply Forall_app in Hs as [Hw Hz].
  apply lxor_cancel_r in E. rewrite !crc_bytes_app in E.
  apply crc_bytes_inj in E; [|done|by auto 6 with crc..].
  rewrite (crc_bytes_le w), (crc_bytes_le w'), Hl in E.
  pose proof (le_is_word w Hw H4). pose proof (le_is_word w' Hw' ltac:(lia)).
  apply shift_bits_inj in E; [|by auto 6 with crc..].
  by apply lxor_cancel_l, le_inj in E.
Qed.

(** ** Properties *)

(** C37. Whatever the processor, the compiler's flags and the alignment of the
    string: Extend runs inside the string and computes the CRC-32C that is defined
    one bit at a time; from the checksum of a string it gives the checksum of the
    concatenation, which is again 32 bits wide. *)
Theorem Extend_is_crc32c isSSE42 SSE4_2 LP64 mm64 mm32 base buf crc :
  is_crc32 64 mm64 -> is_crc32 32 mm32 ->
  Forall is_byte buf -> 0 <= base -> base + zlen buf + 16 <= 2 ^ 64 -> is_word crc ->
  Extend base buf isSSE42 SSE4_2 LP64 mm64 mm32 crc = Some (crc32c crc buf) /\
  is_word (crc32c crc buf) /\
  (forall a, Forall is_byte a -> crc = crc32c 0 a -> crc32c crc buf = crc32c 0 (a ++ buf)).
Proof.
  intros H64 H32 Hbuf H0 H1 Hc.
  assert (is_word 0xffffffff) as Hf by (unfold is_word; lia). split_and!.
  - by apply Extend_ok.
  - by apply crc32c_word.
  - intros a Ha ->. unfold crc32c. rewrite crc_bytes_app. do 2 f_equal.
    by rewrite Z.lxor_assoc, Z.lxor_nilpotent, Z.lxor_0_r.
Qed.

Definition bitwise (n : nat) (l w : Z) : Z := shift_bits n (Z.lxor l w).

Lemma Extend_is_crc32c_witness :
  Extend 0x1003 (map Z.of_nat (seq 200 50)) true true true (bitwise 64) (bitwise 32) 7 =
    Some (crc32c 7 (map Z.of_nat (seq 200 50))) /\
  is_word (crc32c 7 (map Z.of_nat (seq 200 50))) /\
  (forall a, Forall is_byte a -> 7 = crc32c 0 a ->
     crc32c 7 (map Z.of_nat (seq 200 50)) = crc32c 0 (a ++ map Z.of_nat (seq 200 50))).
Proof.
  apply (Extend_is_crc32c true true true (bitwise 64) (bitwise 32) 0x1003 (map Z.of_nat (seq 200 50)) 7).
  - intros l w _ _. reflexivity.
  - intros l w _ _. reflexivity.
  - apply Forall_map, Forall_seq. intros j Hj. unfold is_byte. cbn in Hj |- *. lia.
  - lia.
  - vm_compute. discriminate.
  - unfold is_word. lia.
Defined.

(** C38. A masked checksum that was stored with a string finds every error of at
    most four adjacent bytes: Unmask gives back the checksum, and no other string
    that differs only in such a window has it. *)
Theorem stored_checksums_find_bursts isSSE42 SSE4_2 LP64 mm64 mm32 base base' a w w' z crc :
  is_crc32 64 mm64 -> is_crc32 32 mm32 -> is_word crc ->
  Forall is_byte (a ++ w ++ z) -> Forall is_byte w' ->
  0 <= base -> base + zlen (a ++ w ++ z) + 16 <= 2 ^ 64 ->
  0 <= base' -> base' + zlen (a ++ w ++ z) + 16 <= 2 ^ 64 ->
  length w' = length w -> (length w <= 4)%nat -> w' <> w ->
  exists c stored,
    Extend base (a ++ w ++ z) isSSE42 SSE4_2 LP64 mm64 mm32 crc = Some c /\
    stored = Mask c /\ is_word stored /\ Unmask stored = c /\
    exists c', Extend base' (a ++ w' ++ z) isSSE42 SSE4_2 LP64 mm64 mm32 crc = Some c' /\
      c' <> Unmask stored.
Proof.
  intros H64 H32 Hc Hs Hw' H0 H1 H2 H3 Hl H4 Hne.
  pose proof (crc32c_word crc _ Hc Hs) as Hcw.
  exists (crc32c crc (a ++ w ++ z)), (Mask (crc32c crc (a ++ w ++ z))). rewrite Unmask_Mask by done. split_and!.
  - by apply Extend_ok.
  - done.
  - apply wrapu_range. lia.
  - done.
  - exists (crc32c crc (a ++ w' ++ z)). split; [|by intros E%crc32c_window_inj].
    apply Extend_ok; try done.
    + apply Forall_app in Hs as [? Hs]. apply Forall_app in Hs as [? ?]. by repeat (apply Forall_app; split).
    + rewrite !zlen_app in *. unfold zlen in *. lia.
Qed.

Lemma stored_checksums_find_bursts_witness :
  exists c stored,
    Extend 0x1000 ([1; 2] ++ [3; 4; 5] ++ [6]) false false true (bitwise 64) (bitwise 32) 0 = Some c /\
    stored = Mask c /\ is_word stored /\ Unmask stored = c /\
    exists c', Extend 0x1001 ([1; 2] ++ [9; 4; 255] ++ [6]) false false true (bitwise 64) (bitwise 32) 0 = Some c' /\
      c' <> Unmask stored.
Proof.
  apply (stored_checksums_find_bursts false false true (bitwise 64) (bitwise 32) 0x1000 0x1001
    [1; 2] [3; 4; 5] [9; 4; 255] [6] 0).
  - intros l w _ _. reflexivity.
  - intros l w _ _. reflexivity.
  - unfold is_word. lia.
  - repeat constructor; unfold is_byte; lia.
  - repeat constructor; unfold is_byte; lia.
  - lia.
  - vm_compute. discriminate.
  - lia.
  - vm_compute. discriminate.
  - reflexivity.
  - cbn. lia.
  - discriminate.
Defined.

(** The check value of CRC-32C. *)
Example check_value : Value 0x1000 [49; 50; 51; 52; 53; 54; 55; 56; 57] false false true (bitwise 64) (bitwise 32) = Some 0xe3069283.
Proof. vm_compute. reflexivity. Qed.
End Crc32c.
