(* ===== verification/VersionedRef.v ===== *)
(** * The versioned reference of an ExecutionQueue (fiber/execution_queue.cc)

    A slot of the resource pool keeps its version and the number of references in
    one 64-bit word, _versioned_ref.  address() takes a reference when the version
    is that of the id, dereference() gives it back, stop() makes the version odd,
    and whoever then takes the word to zero references makes it even again and
    recycles the queue.

    A thread is between two accesses of a shared variable; [astep] runs it over
    the next one.  What the holder of a reference does with the queue is in
    ExecQueue.v: here it is [ABody], which ends when it likes. *)

From S2P Require Import Prelude.

Module VersionedRef.

(** ** Words *)

Definition _version_of_id (id : Z) : Z := u32 (Z.shiftr id 32).
Definition _version_of_vref (vref : Z) : Z := u32 (Z.shiftr vref 32).
Definition _ref_of_vref (vref : Z) : Z := i32 (Z.land vref 0xFFFFFFFF).
Definition _make_vref (version ref : Z) : Z := Z.lor (Z.shiftl version 32) (u32 ref).
Definition make_id (version slot : Z) : Z := Z.lor (Z.shiftl version 32) slot.

Definition EINVAL : Z := 22.
Definition ENOMEM : Z := 12.

(** ** Threads *)

Inductive aop := Execute | Stop.

Inductive apc :=
  | AIdle (rc : option Z)
  | AAddr (id : Z) (o : aop)                  (* address: before fetch_add *)
  | AUnref (ver1 : Z)                         (* address: before fetch_sub *)
  | AAddrCas (vref2 : Z)                      (* address: before the exchange *)
  | AHold (o : aop)                           (* a reference is held *)
  | ABody                                     (* in execute(), after stopped() *)
  | AStop (vref : Z)                          (* stop: before the exchange *)
  | AStopStore                                (* stop: before _stopped is set *)
  | ADeref (more : bool) (rc : Z)             (* before fetch_sub; another one follows *)
  | ADerefId (vref : Z) (more : bool) (rc : Z)
  | ADerefCas (vref id_ver : Z) (more : bool) (rc : Z)
  | ARecycle (more : bool) (rc : Z)           (* before _on_recycle *)
  | AInRecycle (more : bool) (rc : Z).        (* in _on_recycle *)

(** [recycled] is not in the code: _on_recycle has been called. *)
Record slot := mkSlot {
  _versioned_ref : Z; _this_id : Z; _stopped : bool; recycled : bool; apcs : list apc }.

Definition with_vref (s : slot) (v : Z) : slot :=
  mkSlot v (_this_id s) (_stopped s) (recycled s) (apcs s).
Definition with_pc (s : slot) (t : nat) (pc : apc) : slot :=
  mkSlot (_versioned_ref s) (_this_id s) (_stopped s) (recycled s) (<[t := pc]> (apcs s)).

(** After a dereference. *)
Definition after_deref (more : bool) (rc : Z) : apc :=
  if more then ADeref false rc else AIdle (Some rc).

(** The exchange of a word seen without references. *)
Definition recycle_cas (s : slot) (t : nat) (vref ver : Z) (ok fail : apc) : slot :=
  if _versioned_ref s =? u64 (vref - 1)
  then with_pc (with_vref s (_make_vref ver 0)) t ok
  else with_pc s t fail.

(** address(): after its fetch_sub. *)
Definition address_unref (s : slot) (t : nat) (ver1 : Z) : outcome slot :=
  let vref2 := _versioned_ref s in
  let s := with_vref s (u64 (vref2 - 1)) in
  let nref := _ref_of_vref vref2 in
  let fail := with_pc s t (AIdle (Some EINVAL)) in
  if 1 <? nref then Go fail
  else if nref =? 1 then
    let ver2 := _version_of_vref vref2 in
    if Z.odd ver2 then
      if (ver1 =? ver2) || (u32 (ver1 + 1) =? ver2) then Go (with_pc s t (AAddrCas vref2)) else Bad
    else if ver1 =? ver2 then Go fail else Bad
  else Bad.

(** dereference(): its fetch_sub. *)
Definition deref (s : slot) (t : nat) (more : bool) (rc : Z) : outcome slot :=
  let vref := _versioned_ref s in
  let s := with_vref s (u64 (vref - 1)) in
  let nref := _ref_of_vref vref in
  if 1 <? nref then Go (with_pc s t (after_deref more rc))
  else if nref =? 1 then Go (with_pc s t (ADerefId vref more rc))
  else Bad.

(** dereference(): the version that may be recycled. *)
Definition deref_id (s : slot) (t : nat) (vref : Z) (more : bool) (rc : Z) : outcome slot :=
  let ver := _version_of_vref vref in
  let id_ver := _version_of_id (_this_id s) in
  if (ver =? id_ver) || (ver =? u32 (id_ver + 1))
  then Go (with_pc s t (ADerefCas vref id_ver more rc))
  else Bad.

(** stop(): one round of its loop. *)
Definition stop_round (s : slot) (t : nat) (vref : Z) : slot :=
  let id_ver := _version_of_id (_this_id s) in
  if negb (_version_of_vref vref =? id_ver) then with_pc s t (ADeref false EINVAL)
  else if _versioned_ref s =? vref
  then with_pc (with_vref s (_make_vref (u32 (id_ver + 1)) (_ref_of_vref vref))) t AStopStore
  else with_pc s t (AStop (_versioned_ref s)).

Definition astep (t : nat) (s : slot) : outcome slot :=
  match apcs s !! t with
  | None | Some (AIdle _) | Some ABody | Some (AInRecycle _ _) => NoStep
  | Some (AAddr id o) =>
      let vref1 := _versioned_ref s in
      let s := with_vref s (u64 (vref1 + 1)) in
      let ver1 := _version_of_vref vref1 in
      Go (with_pc s t (if ver1 =? _version_of_id id then AHold o else AUnref ver1))
  | Some (AUnref ver1) => address_unref s t ver1
  | Some (AAddrCas vref2) =>
      Go (recycle_cas s t vref2 (u32 (_version_of_vref vref2 + 1))
            (ARecycle false EINVAL) (AIdle (Some EINVAL)))
  | Some (AHold Execute) =>
      Go (with_pc s t (if _stopped s then ADeref false EINVAL else ABody))
  | Some (AHold Stop) => Go (with_pc s t (AStop (_versioned_ref s)))
  | Some (AStop vref) => Go (stop_round s t vref)
  | Some AStopStore =>
      Go (with_pc (mkSlot (_versioned_ref s) (_this_id s) true (recycled s) (apcs s)) t (ADeref true 0))
  | Some (ADeref more rc) => deref s t more rc
  | Some (ADerefId vref more rc) => deref_id s t vref more rc
  | Some (ADerefCas vref id_ver more rc) =>
      Go (recycle_cas s t vref (u32 (id_ver + 2)) (ARecycle more rc) (after_deref more rc))
  | Some (ARecycle more rc) =>
      Go (with_pc (mkSlot (_versioned_ref s) (_this_id s) (_stopped s) true (apcs s)) t (AInRecycle more rc))
  end.

(** A thread that is idle calls execute() or stop() with an id. *)
Definition call (t : nat) (id : Z) (o : aop) (s : slot) : outcome slot :=
  match apcs s !! t with
  | Some (AIdle _) => Go (with_pc s t (AAddr id o))
  | _ => NoStep
  end.

(** The body of execute() or _on_recycle() returns. *)
Definition body_end (t : nat) (rc : Z) (s : slot) : outcome slot :=
  match apcs s !! t with
  | Some ABody => Go (with_pc s t (ADeref false rc))
  | Some (AInRecycle more rc) => Go (with_pc s t (after_deref more rc))
  | _ => NoStep
  end.

(** create(), when the pool gives the slot. *)
Definition create (slot_id : Z) (s : slot) : slot :=
  let vref := _versioned_ref s in
  mkSlot (u64 (vref + 1)) (make_id (_version_of_vref vref) slot_id) false false (apcs s).

(** The slot of a queue that [create] has just made with version [V]; _this_id was
    not written before. *)
Definition created (V slot_id : Z) (n : nat) : slot :=
  create slot_id (mkSlot (_make_vref V 0) 0 false false (replicate n (AIdle None))).

(** ** Words *)

Section Protocol.
Context (V sl : Z) (V_range : 0 <= V < 2 ^ 32) (V_even : Z.even V = true) (sl_range : 0 <= sl < 2 ^ 32).

(** The version of the stage [k]: 0 in use, 1 stopped, 2 recycled. *)
Definition ver (k : Z) : Z := u32 (V + k).
Definition word (k r : Z) : Z := ver k * 2 ^ 32 + r.

Lemma V_bound : V <= 2 ^ 32 - 2.
Proof. destruct (decide (V = 2 ^ 32 - 1)) as [->|]; [done|lia]. Qed.

Lemma ver_0 : ver 0 = V.
Proof. unfold ver. rewrite Z.add_0_r. apply wrapu_small. lia. Qed.

Lemma ver_1 : ver 1 = V + 1.
Proof. pose proof V_bound. apply wrapu_small. lia. Qed.

Lemma ver_2 : ver 2 = if V =? 2 ^ 32 - 2 then 0 else V + 2.
Proof.
  pose proof V_bound. unfold ver. destruct (Z.eqb_spec V (2 ^ 32 - 2)) as [->|]; [done|].
  apply wrapu_small. lia.
Qed.

Lemma ver_range k : 0 <= ver k < 2 ^ 32.
Proof. apply wrapu_range. lia. Qed.

Lemma ver_inj k k' : 0 <= k <= 2 -> 0 <= k' <= 2 -> ver k = ver k' -> k = k'.
Proof.
  pose proof V_bound. intros Hk Hk' E.
  assert (k = 0 \/ k = 1 \/ k = 2) as Ck by lia. assert (k' = 0 \/ k' = 1 \/ k' = 2) as Ck' by lia.
  destruct Ck as [-> |[-> | ->]], Ck' as [-> |[-> | ->]]; try done;
    rewrite ?ver_0, ?ver_1, ?ver_2 in E; destruct (Z.eqb_spec V (2 ^ 32 - 2)); lia.
Qed.

Lemma ver_odd k : 0 <= k <= 2 -> Z.odd (ver k) = (k =? 1).
Proof.
  intros Hk. assert (k = 0 \/ k = 1 \/ k = 2) as [-> |[-> | ->]] by lia;
    rewrite ?ver_0, ?ver_1, ?ver_2; try destruct (Z.eqb_spec V (2 ^ 32 - 2)); try done;
    rewrite ?Z.odd_add, <-?Z.negb_even, ?V_even; done.
Qed.

Lemma ver_succ k : u32 (ver k + 1) = ver (k + 1).
Proof. unfold ver. rewrite wrapu_add_l. f_equal. lia. Qed.

Lemma make_vref_word k r : 0 <= r < 2 ^ 31 -> _make_vref (ver k) r = word k r.
Proof.
  intros Hr. unfold _make_vref, word. rewrite (wrapu_small 32) by lia.
  rewrite Z.lor_comm, lor_shiftl by lia. lia.
Qed.

Lemma version_word k r : 0 <= r < 2 ^ 31 -> _version_of_vref (word k r) = ver k.
Proof.
  intros Hr. unfold _version_of_vref, word. pose proof (ver_range k).
  rewrite Z.shiftr_div_pow2, Z.div_add_l, Z.div_small, Z.add_0_r by lia. apply wrapu_small. lia.
Qed.

Lemma ref_word k r : 0 <= r < 2 ^ 31 -> _ref_of_vref (word k r) = r.
Proof.
  intros Hr. unfold _ref_of_vref, word. rewrite (land_mask 32) by lia.
  rewrite Z.add_comm, Z.mod_add, Z.mod_small by lia. apply i32_small. lia.
Qed.

Lemma word_add k r d : 0 <= r + d < 2 ^ 31 -> u64 (word k r + d) = word k (r + d).
Proof. intros. pose proof (ver_range k). unfold word. rewrite wrapu_small by lia. lia. Qed.

Lemma word_inj k k' r r' : 0 <= r < 2 ^ 31 -> 0 <= r' < 2 ^ 31 -> word k r = word k' r' ->
  ver k = ver k' /\ r = r'.
Proof. intros. unfold word in *. lia. Qed.

Lemma version_make_id : _version_of_id (make_id V sl) = V.
Proof.
  unfold _version_of_id, make_id. rewrite Z.lor_comm, lor_shiftl by lia.
  rewrite Z.shiftr_div_pow2, Z.div_add, Z.div_small by lia. apply wrapu_small. lia.
Qed.

(** ** The invariant *)

Definition b2z (b : bool) : Z := if b then 1 else 0.

(** The references that a thread holds, those that are not given back at once by
    address(), and the threads before the steps that the protocol has once. *)
Definition refs (pc : apc) : Z :=
  match pc with
  | AUnref _ | AHold _ | ABody | AStop _ => 1
  | AStopStore => 2
  | ADeref more _ => 1 + b2z more
  | ADerefId _ more _ | ADerefCas _ _ more _ | ARecycle more _ | AInRecycle more _ => b2z more
  | AIdle _ | AAddr _ _ | AAddrCas _ => 0
  end.

Definition users (pc : apc) : Z := match pc with AUnref _ => 0 | _ => refs pc end.
Definition storing (pc : apc) : Z := match pc with AStopStore => 1 | _ => 0 end.
Definition recycling (pc : apc) : Z := match pc with ARecycle _ _ => 1 | _ => 0 end.
Definition trying (pc : apc) : Z :=
  match pc with AAddrCas _ | ADerefId _ _ _ | ADerefCas _ _ _ _ => 1 | _ => 0 end.

(** An id whose version is still to come is in nobody's hands. *)
Definition good_id (id : Z) : Prop := _version_of_id id <> ver 1 /\ _version_of_id id <> ver 2.

Definition pc_ok (k : Z) (pc : apc) : Prop :=
  match pc with
  | AAddr id _ => good_id id
  | AUnref v => v = ver k \/ (k = 1 /\ v = ver 0)
  | AAddrCas vref | ADerefId vref _ _ => 1 <= k /\ vref = word 1 1
  | ADerefCas vref v _ _ => 1 <= k /\ vref = word 1 1 /\ v = V
  | _ => True
  end.

Record AInv (k : Z) (s : slot) : Prop := mkAInv {
  a_k : 0 <= k <= 2;
  a_small : 2 * zlen (apcs s) + 2 < 2 ^ 31;
  a_vref : _versioned_ref s = word k (sumz refs (apcs s) + b2z (k =? 0));
  a_id : _this_id s = make_id V sl;
  a_users : k = 2 -> sumz users (apcs s) = 0;
  a_stopped : sumz storing (apcs s) + b2z (_stopped s) = b2z (negb (k =? 0));
  a_recycled : sumz recycling (apcs s) + b2z (recycled s) = b2z (k =? 2);
  a_trying : k = 1 -> sumz refs (apcs s) = 0 -> 1 <= sumz trying (apcs s);
  a_pcs : Forall (pc_ok k) (apcs s)
}.

Lemma refs_nonneg pc : 0 <= refs pc <= 2.
Proof. destruct pc; cbn; try destruct more; cbn; lia. Qed.
Lemma users_refs pc : 0 <= users pc <= refs pc.
Proof. pose proof (refs_nonneg pc). destruct pc; cbn in *; lia. Qed.
Lemma storing_users pc : 0 <= storing pc <= users pc.
Proof. destruct pc; cbn; try destruct more; cbn; lia. Qed.
Lemma recycling_nonneg pc : 0 <= recycling pc.
Proof. by destruct pc. Qed.
Lemma trying_nonneg pc : 0 <= trying pc.
Proof. by destruct pc. Qed.

(** The sums of a state: their signs and how they compare. *)
Lemma sums_ok l : 0 <= sumz storing l <= sumz users l /\ sumz users l <= sumz refs l <= 2 * zlen l /\
  0 <= sumz recycling l /\ 0 <= sumz trying l.
Proof.
  split_and!; try apply sumz_le; try apply sumz_nonneg; try apply sumz_const_le; intros pc;
    pose proof (refs_nonneg pc); pose proof (users_refs pc); pose proof (storing_users pc);
    pose proof (recycling_nonneg pc); pose proof (trying_nonneg pc); lia.
Qed.

Lemma pc_ok_stop pc : pc_ok 0 pc -> pc_ok 1 pc.
Proof. destruct pc; cbn; intuition (subst; auto with lia). Qed.

Lemma pc_ok_recycle l : sumz refs l = 0 -> Forall (pc_ok 1) l -> Forall (pc_ok 2) l.
Proof.
  intros H0 Hf. rewrite Forall_lookup in *. intros i pc Hi. specialize (Hf i pc Hi).
  pose proof (sumz_elem refs l i pc (fun y => proj1 (refs_nonneg y)) Hi).
  destruct pc; cbn in *; intuition lia.
Qed.

Lemma pc_ok_at k s t pc : AInv k s -> apcs s !! t = Some pc -> pc_ok k pc.
Proof. intros I. exact (Forall_lookup_1 _ _ _ _ (a_pcs k s I)). Qed.

(** What the sums say of one thread. *)
Lemma thread_ok k s t pc : AInv k s -> apcs s !! t = Some pc ->
  refs pc <= sumz refs (apcs s) /\ users pc <= sumz users (apcs s) /\
  storing pc <= sumz storing (apcs s) /\ recycling pc <= sumz recycling (apcs s) /\
  trying pc <= sumz trying (apcs s) /\ (0 < users pc -> k <> 2) /\
  0 <= sumz refs (apcs s) + b2z (k =? 0) < 2 ^ 31 - 1.
Proof.
  intros I H. pose proof (sums_ok (apcs s)) as S. pose proof (a_small k s I). pose proof (a_users k s I).
  assert (users pc <= sumz users (apcs s)) by (eapply sumz_elem; [intros y; apply users_refs|done]).
  split_and!; try (eapply sumz_elem; [intros y|done]);
    try first [apply refs_nonneg|apply users_refs|apply storing_users|apply recycling_nonneg|apply trying_nonneg];
    try lia; destruct (k =? 0); cbn [b2z]; lia.
Qed.

(** One thread moves: the invariant by arithmetic on the sums. *)
Ltac moved I H :=
  match type of I with AInv _ ?s => pose proof (sums_ok (apcs s)) as ?S end; pose proof (thread_ok _ _ _ _ I H) as ?T;
  pose proof (pc_ok_at _ _ _ _ I H) as ?P;
  destruct I as [?Hk ?Hsmall ?Hv ?Hid ?Hu ?Hst ?Hr ?Ht ?Hf];
  constructor; cbn [_versioned_ref _this_id _stopped recycled apcs with_pc with_vref];
  rewrite ?(sumz_insert _ _ _ _ _ H); unfold zlen; rewrite ?length_insert; try assumption;
  cbn [refs users storing recycling trying pc_ok] in *.

Ltac consts :=
  try change (0 =? 0) with true in *; try change (1 =? 0) with false in *; try change (2 =? 0) with false in *;
  try change (0 =? 2) with false in *; try change (1 =? 2) with false in *; try change (2 =? 2) with true in *;
  cbn [b2z negb] in *.

Ltac arith :=
  consts; cbn [after_deref refs users storing recycling trying b2z negb pc_ok] in *;
  first [lia | by apply Forall_insert
        | match goal with Hv : _versioned_ref _ = _ |- _ => rewrite Hv end; f_equal; lia
        | intros ->; consts; lia ].

Lemma call_ok k s t id o s' : good_id id -> AInv k s -> call t id o s = Go s' -> AInv k s'.
Proof.
  unfold call. intros Hg I E. destruct (apcs s !! t) as [[]|] eqn:H; try done. injection E as <-.
  moved I H; arith.
Qed.

Lemma body_end_ok k s t rc s' : AInv k s -> body_end t rc s = Go s' -> AInv k s'.
Proof.
  unfold body_end. intros I E. destruct (apcs s !! t) as [[]|] eqn:H; try done; injection E as <-.
  - moved I H; arith.
  - destruct more; moved I H; arith.
Qed.

(** *** The accesses *)

Lemma addr_ok k s t id o : AInv k s -> apcs s !! t = Some (AAddr id o) ->
  AInv k (with_pc (with_vref s (u64 (_versioned_ref s + 1))) t
            (if _version_of_vref (_versioned_ref s) =? _version_of_id id then AHold o
             else AUnref (_version_of_vref (_versioned_ref s)))).
Proof.
  intros I H. destruct (thread_ok _ _ _ _ I H) as (_ & _ & _ & _ & _ & _ & Hb).
  pose proof (pc_ok_at _ _ _ _ I H) as [G1 G2].
  assert (E : u64 (_versioned_ref s + 1) = word k (sumz refs (apcs s) + b2z (k =? 0) + 1))
    by (rewrite (a_vref k s I); apply word_add; lia).
  assert (Ev : _version_of_vref (_versioned_ref s) = ver k)
    by (rewrite (a_vref k s I); apply version_word; lia).
  rewrite E, Ev. destruct (Z.eqb_spec (ver k) (_version_of_id id)) as [Ei|Ei].
  - assert (k <> 2) by (intros ->; congruence). moved I H; first [arith|f_equal; lia].
  - moved I H; try arith; try (f_equal; lia). apply Forall_insert; [done|]. by left.
Qed.

Lemma address_unref_ok k s t v : AInv k s -> apcs s !! t = Some (AUnref v) ->
  exists s', address_unref s t v = Go s' /\ AInv k s'.
Proof.
  intros I H. destruct (thread_ok _ _ _ _ I H) as (T1 & _ & _ & _ & _ & _ & Hb). cbn [refs] in T1.
  pose proof (pc_ok_at _ _ _ _ I H) as Pv. cbn in Pv.
  assert (E : u64 (_versioned_ref s - 1) = word k (sumz refs (apcs s) + b2z (k =? 0) + -1))
    by (rewrite (a_vref k s I); apply (word_add k _ (-1)); destruct (k =? 0); cbn [b2z] in *; lia).
  assert (Er : _ref_of_vref (_versioned_ref s) = sumz refs (apcs s) + b2z (k =? 0))
    by (rewrite (a_vref k s I); apply ref_word; lia).
  assert (Ev : _version_of_vref (_versioned_ref s) = ver k)
    by (rewrite (a_vref k s I); apply version_word; lia).
  pose proof (a_k k s I) as Hk. pose proof (a_vref k s I) as Hw.
  unfold address_unref. rewrite E, Er, Ev, (ver_odd k Hk). clear E.
  destruct (Z.ltb_spec 1 (sumz refs (apcs s) + b2z (k =? 0))).
  { eexists. split; [done|]. moved I H; first [arith|f_equal; lia]. }
  destruct (Z.eqb_spec k 0) as [->|K0]; cbn [b2z] in *; [lia|].
  destruct (Z.eqb_spec (sumz refs (apcs s) + 0) 1); [|lia].
  destruct (Z.eqb_spec k 1) as [->|K1].
  - assert (((v =? ver 1) || (u32 (v + 1) =? ver 1)) = true) as ->.
    { destruct Pv as [->|[_ ->]]; [by rewrite Z.eqb_refl|]. rewrite ver_succ. by rewrite Z.eqb_refl, orb_true_r. }
    eexists. split; [done|]. moved I H; first [arith|f_equal; arith|idtac].
    apply Forall_insert; [done|]. cbn. split; [lia|]. rewrite Hw. f_equal. lia.
  - assert (k = 2) as -> by lia. destruct Pv as [->|[? _]]; [|lia]. rewrite Z.eqb_refl.
    eexists. split; [done|]. moved I H; first [arith|f_equal; arith].
Qed.

Lemma deref_ok k s t more rc : AInv k s -> apcs s !! t = Some (ADeref more rc) ->
  exists s', deref s t more rc = Go s' /\ AInv k s'.
Proof.
  intros I H. destruct (thread_ok _ _ _ _ I H) as (T1 & _ & _ & _ & _ & T2 & Hb). cbn [refs users] in T1, T2.
  assert (0 <= b2z more) by (by destruct more).
  assert (E : u64 (_versioned_ref s - 1) = word k (sumz refs (apcs s) + b2z (k =? 0) + -1))
    by (rewrite (a_vref k s I); apply (word_add k _ (-1)); destruct (k =? 0); cbn [b2z] in *; lia).
  assert (Er : _ref_of_vref (_versioned_ref s) = sumz refs (apcs s) + b2z (k =? 0))
    by (rewrite (a_vref k s I); apply ref_word; lia).
  pose proof (a_k k s I) as Hk. pose proof (a_vref k s I) as Hw. specialize (T2 ltac:(lia)).
  unfold deref. rewrite E, Er. clear E.
  destruct (Z.ltb_spec 1 (sumz refs (apcs s) + b2z (k =? 0))).
  { eexists. split; [done|]. destruct more; moved I H; first [arith|f_equal; arith]. }
  destruct (Z.eqb_spec k 0) as [->|K0]; cbn [b2z] in *; [lia|]. assert (k = 1) as -> by lia.
  destruct (Z.eqb_spec (sumz refs (apcs s) + 0) 1); [|lia].
  destruct more; cbn [b2z] in *; [lia|].
  rewrite Hw. replace (sumz refs (apcs s) + 0) with 1 by lia.
  eexists. split; [done|]. moved I H; first [arith|f_equal; arith].
Qed.

Lemma deref_id_ok k s t vref more rc : AInv k s -> apcs s !! t = Some (ADerefId vref more rc) ->
  exists s', deref_id s t vref more rc = Go s' /\ AInv k s'.
Proof.
  intros I H. destruct (pc_ok_at _ _ _ _ I H) as [K ->]. unfold deref_id.
  rewrite version_word, (a_id k s I), version_make_id by lia. rewrite ver_1.
  rewrite (wrapu_small 32 (V + 1)) by (pose proof V_bound; lia).
  rewrite Z.eqb_refl, orb_true_r. eexists. split; [done|]. moved I H; arith.
Qed.

(** Who sees the word without references recycles, if it still is so. *)
Lemma recycle_cas_ok k s t pc v ok fail : AInv k s -> apcs s !! t = Some pc ->
  refs ok = refs pc -> refs fail = refs pc -> users ok = refs pc -> users fail = refs pc -> users pc = refs pc ->
  storing pc = 0 -> storing ok = 0 -> storing fail = 0 ->
  recycling pc = 0 -> recycling ok = 1 -> recycling fail = 0 ->
  trying pc = 1 -> trying ok = 0 -> trying fail = 0 ->
  (forall k, pc_ok k ok /\ pc_ok k fail) -> v = ver 2 ->
  exists k', AInv k' (recycle_cas s t (word 1 1) v ok fail).
Proof.
  intros I H R1 R2 U1 U2 U3 S1 S2 S3 C1 C2 C3 T1 T2 T3 Hp ->. unfold recycle_cas.
  pose proof (word_add 1 1 (-1) ltac:(lia)) as E. cbn [Z.add] in E. change (word 1 1 - 1) with (word 1 1 + -1).
  rewrite E. change (1 + -1) with 0. destruct (thread_ok _ _ _ _ I H) as (_ & _ & _ & _ & _ & _ & Hb).
  rewrite (a_vref k s I). destruct (Z.eqb_spec (word k (sumz refs (apcs s) + b2z (k =? 0))) (word 1 0)) as [Ew|Ew].
  - apply word_inj in Ew as [Ek Er]; [|lia..]. apply ver_inj in Ek as ->; [|apply (a_k k s I)|lia].
    exists 2. moved I H; consts; rewrite ?R1, ?U1, ?U3, ?S1, ?S2, ?C1, ?C2; try lia.
    + rewrite make_vref_word by lia. f_equal. lia.
    + apply Forall_insert; [by apply pc_ok_recycle; [lia|]|apply Hp].
  - exists k. moved I H; rewrite ?R2, ?U2, ?U3, ?S1, ?S3, ?C1, ?C3, ?T1, ?T3; try arith.
    + intros -> Hz. exfalso. apply Ew. f_equal. consts. lia.
    + apply Forall_insert; [done|apply Hp].
Qed.

Lemma stop_round_ok k s t vref : AInv k s -> apcs s !! t = Some (AStop vref) ->
  exists k', AInv k' (stop_round s t vref).
Proof.
  intros I H. destruct (thread_ok _ _ _ _ I H) as (_ & _ & _ & _ & _ & T2 & Hb).
  unfold stop_round. rewrite (a_id k s I), version_make_id.
  destruct (Z.eqb_spec (_version_of_vref vref) V) as [Ev|Ev]; cbn [negb].
  2: { exists k. moved I H; arith. }
  destruct (Z.eqb_spec (_versioned_ref s) vref) as [<-|]; [|exists k; moved I H; arith].
  rewrite (a_vref k s I), version_word in Ev by lia.
  assert (k = 0) as -> by (apply (ver_inj k 0); [apply (a_k k s I)|lia|by rewrite ver_0]).
  exists 1. rewrite (a_vref 0 s I), ref_word by lia. fold (ver 1).
  moved I H; try arith.
  - rewrite make_vref_word by lia. f_equal. consts. lia.
  - apply Forall_insert; [|done]. eapply Forall_impl; [done|apply pc_ok_stop].
Qed.

(** *** The protocol *)

Lemma created_ok n : 2 * Z.of_nat n + 2 < 2 ^ 31 -> AInv 0 (created V sl n).
Proof.
  intros Hn. assert (_make_vref V 0 = word 0 0) as E by (transitivity (_make_vref (ver 0) 0); [by rewrite ver_0|by apply make_vref_word]).
  unfold created, create. constructor; cbn [_versioned_ref _this_id _stopped recycled apcs];
    rewrite ?sumz_replicate; unfold zlen; rewrite ?length_replicate; cbn [refs users storing recycling trying]; try lia.
  - rewrite E, word_add by lia. f_equal. consts. lia.
  - by rewrite E, version_word, ver_0 by lia.
  - consts. lia.
  - consts. lia.
  - by apply Forall_replicate.
Qed.

(** No access fails a check, and each keeps the invariant. *)
Lemma astep_ok k s t : AInv k s ->
  astep t s <> Bad /\ (forall s', astep t s = Go s' -> exists k', AInv k' s').
Proof.
  intros I. unfold astep. destruct (apcs s !! t) as [pc|] eqn:H; [|done].
  assert (W : forall o : outcome slot, (exists s', o = Go s' /\ AInv k s') ->
            o <> Bad /\ (forall s', o = Go s' -> exists k', AInv k' s')).
  { intros o (s1 & -> & I1). split; [done|]. intros s' [= <-]. by exists k. }
  assert (W2 : forall s1, (exists k', AInv k' s1) ->
            Go s1 <> Bad /\ (forall s', Go s1 = Go s' -> exists k', AInv k' s')).
  { intros s1 I1. split; [done|]. by intros s' [= <-]. }
  destruct pc as [| | | |[]| | | | | | | |]; try done.
  - apply W2. exists k. by apply addr_ok.
  - apply W. by apply address_unref_ok.
  - apply W2. destruct (pc_ok_at _ _ _ _ I H) as [K ->]. rewrite version_word, ver_succ by lia.
    by apply (recycle_cas_ok k s t _ _ _ _ I H).
  - apply W2. exists k. destruct (_stopped s); moved I H; arith.
  - apply W2. exists k. moved I H; arith.
  - apply W2. by apply (stop_round_ok k).
  - apply W2. exists k. destruct (thread_ok _ _ _ _ I H) as (_ & _ & T3 & _). pose proof (a_stopped k s I) as Hst0. cbn in T3.
    destruct (_stopped s) eqn:Es; [destruct (negb (k =? 0)); cbn in Hst0; lia|].
    moved I H; arith.
  - apply W. by apply deref_ok.
  - apply W. by apply deref_id_ok.
  - apply W2. destruct (pc_ok_at _ _ _ _ I H) as (K & -> & ->).
    apply (recycle_cas_ok k s t _ _ _ _ I H); try done; by destruct more.
  - apply W2. exists k. destruct (thread_ok _ _ _ _ I H) as (_ & _ & _ & T4 & _). pose proof (a_recycled k s I) as Hr0. cbn in T4.
    destruct (recycled s) eqn:Er; [destruct (k =? 2); cbn in Hr0; lia|].
    moved I H; arith.
Qed.

(** A thread in the body of execute() has a reference: the queue is not recycled,
    and nobody is about to. *)
Lemma body_not_recycled k s t : AInv k s -> apcs s !! t = Some ABody ->
  recycled s = false /\ sumz recycling (apcs s) = 0.
Proof.
  intros I H. destruct (thread_ok _ _ _ _ I H) as (_ & _ & _ & _ & _ & T & _). specialize (T ltac:(cbn; lia)).
  pose proof (a_recycled k s I) as Hr. pose proof (sums_ok (apcs s)). destruct (Z.eqb_spec k 2); [done|].
  destruct (recycled s); cbn in Hr; lia.
Qed.

(** Who is about to recycle does so once, and no thread is in the body of
    execute(). *)
Lemma recycle_once k s t more rc : AInv k s -> apcs s !! t = Some (ARecycle more rc) ->
  recycled s = false /\ forall t', apcs s !! t' <> Some ABody.
Proof.
  intros I H. destruct (thread_ok _ _ _ _ I H) as (_ & _ & _ & T & _). cbn in T. split.
  - pose proof (a_recycled k s I) as Hr. destruct (recycled s); [|done]. destruct (k =? 2); cbn in Hr; lia.
  - intros t' H'. destruct (body_not_recycled k s t' I H'). lia.
Qed.

Lemma recycled_stopped k s : AInv k s -> recycled s = true -> _stopped s = true.
Proof.
  intros I H. pose proof (a_recycled k s I) as Hr. pose proof (a_stopped k s I) as Hs. rewrite H in Hr.
  pose proof (sums_ok (apcs s)). destruct (Z.eqb_spec k 2) as [->|]; [|cbn in Hr; lia].
  pose proof (a_users 2 s I eq_refl). destruct (_stopped s); [done|]. cbn in Hs. lia.
Qed.

(** When all calls have returned, a queue that was stopped has been recycled. *)
Lemma all_idle k s : AInv k s -> (forall t pc, apcs s !! t = Some pc -> exists rc, pc = AIdle rc) ->
  recycled s = _stopped s.
Proof.
  intros I H.
  assert (Z : forall f : apc -> Z, (forall rc, f (AIdle rc) = 0) -> sumz f (apcs s) = 0).
  { intros f Hf. apply sumz_0. intros t pc Ht. by destruct (H t pc Ht) as [rc ->]. }
  pose proof (a_recycled k s I) as Hr. pose proof (a_stopped k s I) as Hs. pose proof (a_k k s I).
  rewrite Z in Hr, Hs by done. pose proof (a_trying k s I) as Ht. rewrite !Z in Ht by done.
  assert (k = 0 \/ k = 1 \/ k = 2) as [-> |[-> | ->]] by lia; [|lia|]; by destruct (recycled s), (_stopped s).
Qed.

(** Every thread that is inside a call can go on. *)
Lemma astep_runs k s t pc : AInv k s -> apcs s !! t = Some pc ->
  (exists rc, pc = AIdle rc) \/ pc = ABody \/ (exists m rc, pc = AInRecycle m rc) \/ exists s', astep t s = Go s'.
Proof.
  intros I H. destruct (astep_ok k s t I) as [Hb _]. unfold astep in *. rewrite H in *.
  destruct pc as [| | | |[]| | | | | | | |]; eauto 6;
    match goal with |- context [?o = Go _] => destruct o eqn:E; [done| |eauto 6] end; exfalso; revert E.
  - unfold address_unref. by repeat case_match.
  - unfold deref. by repeat case_match.
  - unfold deref_id. by repeat case_match.
Qed.
End Protocol.

End VersionedRef.
