(* ===== verification/ExecQueue.v ===== *)
(** * The tasks of an ExecutionQueue (fiber/execution_queue.cc)

    Threads push tasks to the front of a list with one exchange of _head and link
    them to the older ones afterwards; who finds _head empty executes the tasks,
    or has a thread started that does, and takes over what was pushed meanwhile
    by reversing it.

    A thread is between two accesses of a shared variable, [bstep] runs it over
    the next one.  Shared are _head, _high_priority_tasks, _join_butex, the pool
    of nodes, the status and version of a node (under its mutex), and the next
    pointer of a node whose push is not finished; the other fields of a node
    belong to who pushes or executes it, and their accesses are in the step of
    the access before.  butex_wait may end early (EINTR).

    What the code leaves to others is the [choice] of a step: the node that the
    pool gives, the thread that runs the tasks, and whether the user's function
    asks for the next task or returns.  The mode with a resident pthread is not
    modelled. *)

From S2P Require Import Prelude VersionedRef.

Module ExecQueue.
Import VersionedRef.

(** ** Task nodes *)

Inductive TaskStatus := UNEXECUTED | EXECUTING | EXECUTED.

#[global] Instance TaskStatus_dec : EqDecision TaskStatus.
Proof. solve_decision. Defined.

(** A next pointer: UNCONNECTED, or a node or NULL. *)
Inductive next_ptr := UNCONNECTED | Ptr (p : option nat).

Section Tasks.
Context {T : Type}.

(** [task_mem] holds the task while there is one; [q] is whether the pointer to
    the queue is set. *)
Record TaskNode := mkNode {
  version : Z; status : TaskStatus; stop_task : bool; iterated : bool; high_priority : bool;
  in_place : bool; next : next_ptr; q : bool; task_mem : option T }.

Definition TaskNode_ctor : TaskNode :=
  mkNode 0 UNEXECUTED false false false false UNCONNECTED false None.

Definition set_status (x : TaskStatus) (n : TaskNode) : TaskNode :=
  mkNode (version n) x (stop_task n) (iterated n) (high_priority n) (in_place n) (next n) (q n) (task_mem n).
Definition set_iterated (n : TaskNode) : TaskNode :=
  mkNode (version n) (status n) (stop_task n) true (high_priority n) (in_place n) (next n) (q n) (task_mem n).
Definition set_next (x : next_ptr) (n : TaskNode) : TaskNode :=
  mkNode (version n) (status n) (stop_task n) (iterated n) (high_priority n) (in_place n) x (q n) (task_mem n).
Definition set_q (n : TaskNode) : TaskNode :=
  mkNode (version n) (status n) (stop_task n) (iterated n) (high_priority n) (in_place n) (next n) true (task_mem n).

Definition cancel (expected_version : Z) (n : TaskNode) : Z * TaskNode :=
  if negb (version n =? expected_version) then (-1, n)
  else match status n with
       | UNEXECUTED => (0, set_status EXECUTED n)
       | EXECUTED => (-1, n)
       | EXECUTING => (1, n)
       end.

Definition set_executed (n : TaskNode) : TaskNode := set_status EXECUTED n.

Definition peek_to_execute (n : TaskNode) : bool * TaskNode :=
  match status n with
  | UNEXECUTED => (true, set_status EXECUTING n)
  | _ => (false, n)
  end.

(** [None]: a CHECK fails, or a task is destroyed that is not there. *)
Definition clear_before_return (n : TaskNode) : option TaskNode :=
  let cleared := mkNode (version n + 1) UNEXECUTED (stop_task n) (iterated n) (high_priority n)
                        (in_place n) (next n) false None in
  if negb (stop_task n) && negb (match task_mem n with Some _ => iterated n | None => false end) then None
  else match status n with UNEXECUTED => None | _ => Some cleared end.

(** What is pushed: a task, or the stop task. *)
Record entry := mkEntry { e_task : option T; e_high : bool }.

(** The node of a new entry: execute() or _on_recycle(), then the beginning of
    start_execute(). *)
Definition init_node (e : entry) (place : bool) (n : TaskNode) : TaskNode :=
  mkNode (version n) UNEXECUTED (match e_task e with Some _ => false | None => true end) false
         (e_high e) place UNCONNECTED (q n) (e_task e).

(** ** Threads *)

(** TaskIteratorBase, not for a stopped queue. *)
Record iter := mkIter {
  _cur_node : option nat; _head_node : option nat; _high_priority : bool;
  _should_break : bool; _num_iterated : Z }.

(** Who executes: start_execute() in place, or _execute_tasks() with its
    variables; [own]: the thread that pushed runs it, no other could be started. *)
Inductive ctx :=
  | InPlace (node : nat)
  | Loop (head : nat) (cur_tail : option nat) (destroy_queue own : bool).

Inductive bpc :=
  | BIdle
  | BStart (e : entry) (place : bool)           (* before the node is allocated *)
  | BCount (n : nat) (e : entry)                (* before _high_priority_tasks grows *)
  | BExchange (n : nat) (e : entry)             (* before _head is exchanged *)
  | BLink (n prev : nat)                        (* before next is set *)
  | BSpawn (n : nat)                            (* before another thread is started *)
  | BDone (rc : Z)                              (* start_execute() has returned *)
  | XNew (c : ctx) (high : bool)                (* _execute *)
  | XIncr (c : ctx) (it : iter) (user : bool)   (* operator++, by the user or the constructor *)
  | XScan (c : ctx) (it : iter) (user : bool)   (* its loop *)
  | XUser (c : ctx) (it : iter)                 (* in the user's function *)
  | XDtor (c : ctx) (it : iter) (hd : option nat)
  | XEnd (c : ctx) (high : bool) (num : Z) (stop : bool)
  | MCas (c : ctx) (old : nat) (has_uniterated : bool)           (* _more_tasks *)
  | MReverse (c : ctx) (old p : nat) (tail : option nat) (new_tail : nat)
  | IReturn (n : nat)                           (* in place: no more tasks *)
  | LStart (n : nat) (own : bool)
  | LTop (c : ctx)
  | LPick (c : ctx)
  | LRelease (c : ctx)
  | LTail (c : ctx) (t : nat)
  | LReturn (c : ctx)
  | LDestroy (c : ctx)
  | LWake (c : ctx)
  | LFree (c : ctx)
  | JLoad (ver : Z) | JWait (ver : Z) | JBlocked (ver : Z).      (* join *)

(** ** The queue

    The last fields are not in the code: the nodes that are in the list, oldest
    first, with the numbers of their entries; what was pushed, in order; the
    handles of the tasks, with their numbers; what happened to the entries; and
    whether _on_recycle was called. *)

Inductive event :=
  | Deliver (k : nat) (v : option T)   (* the user's function gets the task *)
  | Skip (k : nat)                     (* a cancelled task is passed over *)
  | Cancelled (k : nat)                (* cancel() returns 0 *)
  | Stopped (k : nat).                 (* the user's function is told to stop *)

Record queue := mkQueue {
  nodes : gmap nat TaskNode; pool : gset nat; _head : option nat; _high_priority_tasks : Z;
  _join_butex : Z; slot_returned : bool; bpcs : list bpc;
  chain : list (nat * nat); pushed : list entry; handles : list (nat * Z * nat);
  log : list event; closed : bool }.

Definition with_nodes (s : queue) (x : gmap nat TaskNode) : queue :=
  mkQueue x (pool s) (_head s) (_high_priority_tasks s) (_join_butex s) (slot_returned s) (bpcs s)
          (chain s) (pushed s) (handles s) (log s) (closed s).
Definition with_node (s : queue) (n : nat) (x : TaskNode) : queue := with_nodes s (<[n := x]> (nodes s)).
Definition with_pool (s : queue) (x : gset nat) : queue :=
  mkQueue (nodes s) x (_head s) (_high_priority_tasks s) (_join_butex s) (slot_returned s) (bpcs s)
          (chain s) (pushed s) (handles s) (log s) (closed s).
Definition with_head (s : queue) (x : option nat) : queue :=
  mkQueue (nodes s) (pool s) x (_high_priority_tasks s) (_join_butex s) (slot_returned s) (bpcs s)
          (chain s) (pushed s) (handles s) (log s) (closed s).
Definition with_high (s : queue) (x : Z) : queue :=
  mkQueue (nodes s) (pool s) (_head s) x (_join_butex s) (slot_returned s) (bpcs s)
          (chain s) (pushed s) (handles s) (log s) (closed s).
Definition with_butex (s : queue) (x : Z) : queue :=
  mkQueue (nodes s) (pool s) (_head s) (_high_priority_tasks s) x (slot_returned s) (bpcs s)
          (chain s) (pushed s) (handles s) (log s) (closed s).
Definition with_returned (s : queue) : queue :=
  mkQueue (nodes s) (pool s) (_head s) (_high_priority_tasks s) (_join_butex s) true (bpcs s)
          (chain s) (pushed s) (handles s) (log s) (closed s).
Definition with_pcs (s : queue) (x : list bpc) : queue :=
  mkQueue (nodes s) (pool s) (_head s) (_high_priority_tasks s) (_join_butex s) (slot_returned s) x
          (chain s) (pushed s) (handles s) (log s) (closed s).
Definition at_pc (s : queue) (t : nat) (pc : bpc) : queue := with_pcs s (<[t := pc]> (bpcs s)).
Definition with_chain (s : queue) (x : list (nat * nat)) : queue :=
  mkQueue (nodes s) (pool s) (_head s) (_high_priority_tasks s) (_join_butex s) (slot_returned s) (bpcs s)
          x (pushed s) (handles s) (log s) (closed s).
Definition with_log (s : queue) (x : event) : queue :=
  mkQueue (nodes s) (pool s) (_head s) (_high_priority_tasks s) (_join_butex s) (slot_returned s) (bpcs s)
          (chain s) (pushed s) (handles s) (log s ++ [x]) (closed s).
Definition with_push (s : queue) (n : nat) (nd : TaskNode) : queue :=
  mkQueue (nodes s) (pool s) (_head s) (_high_priority_tasks s) (_join_butex s) (slot_returned s) (bpcs s)
          (chain s ++ [(n, length (pushed s))]) (pushed s ++ [mkEntry (task_mem nd) (high_priority nd)])
          (match task_mem nd with Some _ => handles s ++ [(n, version nd, length (pushed s))] | None => handles s end)
          (log s) (closed s).
Definition with_closed (s : queue) : queue :=
  mkQueue (nodes s) (pool s) (_head s) (_high_priority_tasks s) (_join_butex s) (slot_returned s) (bpcs s)
          (chain s) (pushed s) (handles s) (log s) true.

(** The number of the entry that a node holds. *)
Fixpoint number_of (l : list (nat * nat)) (n : nat) : nat :=
  match l with
  | [] => O
  | (m, k) :: l => if decide (m = n) then k else number_of l n
  end.

(** Dereference a pointer to a node. *)
Definition node {A} (s : queue) (n : nat) (f : TaskNode -> outcome A) : outcome A :=
  match nodes s !! n with Some nd => f nd | None => Bad end.

(** ** Steps

    [t] is the thread. *)

Inductive choice :=
  | Tau
  | GetNode (n : nat) (mem : bool)   (* the pool's node, and whether the task's memory is there *)
  | NoNode                           (* get_object gives NULL *)
  | RunBy (t : nat)                  (* the thread that is started *)
  | RunHere                          (* starting a thread fails *)
  | UserNext                         (* the user's function: ++it *)
  | UserReturn.

#[global] Instance choice_dec : EqDecision choice.
Proof. solve_decision. Defined.

Definition return_task_node (s : queue) (n : nat) : outcome queue :=
  node s n (fun nd =>
    match clear_before_return nd with
    | None => Bad
    | Some nd => Go (with_chain (with_pool (with_node s n nd) ({[n]} ∪ pool s))
                                (filter (fun p => p.1 <> n) (chain s)))
    end).

(** allocate_node(): the object of the pool, or a new one. *)
Definition get_object (s : queue) (n : nat) : option (TaskNode * queue) :=
  match nodes s !! n with
  | Some nd => if decide (n ∈ pool s) then Some (nd, with_pool s (pool s ∖ {[n]})) else None
  | None => Some (TaskNode_ctor, s)
  end.

(** execute() after stopped(), or _on_recycle(), up to the push. *)
Definition allocate (s : queue) (t : nat) (e : entry) (place : bool) (ch : choice) : outcome queue :=
  match ch with
  | NoNode => match e_task e with Some _ => Go (at_pc s t (BDone ENOMEM)) | None => Bad end
  | GetNode n mem =>
      match get_object s n with
      | None => NoStep
      | Some (nd, s) =>
          match e_task e, mem with
          | Some _, false =>
              match return_task_node (with_node s n nd) n with
              | Go s => Go (at_pc s t (BDone ENOMEM))
              | o => o
              end
          | _, _ =>
              let s := with_node s n (init_node e place nd) in
              Go (at_pc s t (if e_high e then BCount n e else BExchange n e))
          end
      end
  | _ => NoStep
  end.

(** start_execute(): the exchange of _head. *)
Definition exchange (s : queue) (t n : nat) : outcome queue :=
  node s n (fun nd =>
    let prev := _head s in
    let s := with_push (with_head s (Some n)) n nd in
    match prev with
    | Some p => Go (at_pc s t (BLink n p))
    | None =>
        let s := with_node s n (set_q (set_next (Ptr None) nd)) in
        Go (at_pc s t (if in_place nd then XNew (InPlace n) (high_priority nd) else BSpawn n))
    end).

Definition link (s : queue) (t n prev : nat) : outcome queue :=
  node s n (fun nd => Go (at_pc (with_node s n (set_next (Ptr (Some prev)) nd)) t (BDone 0))).

Definition spawn (s : queue) (t n : nat) (ch : choice) : outcome queue :=
  match ch with
  | RunBy t' =>
      match bpcs s !! t' with
      | Some BIdle => Go (at_pc (at_pc s t' (LStart n false)) t (BDone 0))
      | _ => NoStep
      end
  | RunHere => Go (at_pc s t (LStart n true))
  | _ => NoStep
  end.

(** *** The iterator *)

Definition ctx_head (c : ctx) : nat := match c with InPlace n => n | Loop h _ _ _ => h end.

(** operator bool *)
Definition iter_valid (s : queue) (it : iter) : outcome bool :=
  if _should_break it then Go false
  else match _cur_node it with
       | None => Go false
       | Some n => node s n (fun nd => Go (negb (stop_task nd)))
       end.

(** operator++ returns; the constructor is followed by [if (iter)]. *)
Definition after_incr (s : queue) (t : nat) (c : ctx) (it : iter) (user : bool) : outcome queue :=
  if user then Go (at_pc s t (XUser c it))
  else match iter_valid s it with
       | Go true => Go (at_pc s t (XUser c it))
       | Go false => Go (at_pc s t (XDtor c it (_head_node it)))
       | _ => Bad
       end.

Definition follow (x : next_ptr) : outcome (option nat) :=
  match x with UNCONNECTED => Bad | Ptr p => Go p end.

Definition with_cur (it : iter) (p : option nat) : iter :=
  mkIter p (_head_node it) (_high_priority it) (_should_break it) (_num_iterated it).
Definition with_break (it : iter) : iter :=
  mkIter (_cur_node it) (_head_node it) (_high_priority it) true (_num_iterated it).
Definition with_num (it : iter) (n : Z) : iter :=
  mkIter (_cur_node it) (_head_node it) (_high_priority it) (_should_break it) n.

(** operator++ up to its loop; should_break_for_high_priority_tasks. *)
Definition incr (s : queue) (t : nat) (c : ctx) (it : iter) (user : bool) : outcome queue :=
  match iter_valid s it, _cur_node it with
  | Go false, _ => after_incr s t c it user
  | Go true, Some n =>
      node s n (fun nd =>
        match (if iterated nd then follow (next nd) else Go (Some n)) with
        | Go p =>
            let it := with_cur it p in
            if negb (_high_priority it) && (0 <? _high_priority_tasks s)
            then after_incr s t c (with_break it) user
            else Go (at_pc s t (XScan c it user))
        | _ => Bad
        end)
  | _, _ => Bad
  end.

(** One round of the loop of operator++. *)
Definition scan (s : queue) (t : nat) (c : ctx) (it : iter) (user : bool) : outcome queue :=
  match _cur_node it with
  | None => after_incr s t c it user
  | Some n =>
      node s n (fun nd =>
        if stop_task nd then after_incr s t c it user
        else
          let go_on (s : queue) (it : iter) :=
            match follow (next nd) with
            | Go p => Go (at_pc s t (XScan c (with_cur it p) user))
            | _ => Bad
            end in
          if negb (Bool.eqb (_high_priority it) (high_priority nd)) then go_on s it
          else if iterated nd then go_on s it
          else
            let k := number_of (chain s) n in
            let it := with_num it (_num_iterated it + 1) in
            match peek_to_execute nd with
            | (true, nd) => after_incr (with_log (with_node s n (set_iterated nd)) (Deliver k (task_mem nd))) t c it user
            | (false, nd) => go_on (with_log (with_node s n (set_iterated nd)) (Skip k)) it
            end)
  end.

(** One round of the loop of the destructor, and what follows it. *)
Definition destruct_iter (s : queue) (t : nat) (c : ctx) (it : iter) (hd : option nat) : outcome queue :=
  if decide (hd = _cur_node it) then
    let done s := Go (at_pc s t (XEnd c (_high_priority it) (_num_iterated it) false)) in
    match _cur_node it with
    | Some n =>
        node s n (fun nd =>
          if _should_break it && Bool.eqb (high_priority nd) (_high_priority it) && iterated nd
          then done (with_node s n (set_executed nd)) else done s)
    | None => done s
    end
  else
    match hd with
    | None => Bad
    | Some n =>
        node s n (fun nd =>
          match follow (next nd) with
          | Go p =>
              let s := if iterated nd && Bool.eqb (high_priority nd) (_high_priority it)
                       then with_node s n (set_executed nd) else s in
              Go (at_pc s t (XDtor c it p))
          | _ => Bad
          end)
    end.

(** *** _execute *)

Definition execute (s : queue) (t : nat) (c : ctx) (high : bool) : outcome queue :=
  let head := ctx_head c in
  node s head (fun nd =>
    if stop_task nd then
      match next nd with
      | Ptr None =>
          let s := with_node s head (set_status EXECUTED (set_iterated nd)) in
          Go (at_pc (with_log s (Stopped (number_of (chain s) head))) t (XEnd c high 1 true))
      | _ => Bad
      end
    else Go (at_pc s t (XIncr c (mkIter (Some head) (Some head) high false 0) false))).

(** _execute has returned: the counter, and on to the next part of the caller. *)
Definition executed (s : queue) (t : nat) (c : ctx) (high : bool) (num : Z) (stop : bool) : outcome queue :=
  let s := if high then with_high s (_high_priority_tasks s - num) else s in
  match c with
  | InPlace n => node s n (fun nd => Go (at_pc s t (MCas c n (negb (iterated nd)))))
  | Loop h ct d own => Go (at_pc s t (LRelease (Loop h ct (d || stop) own)))
  end.

(** *** _more_tasks *)

Definition more_result (s : queue) (t : nat) (c : ctx) (new_tail : option nat) (more : bool) : outcome queue :=
  match c with
  | InPlace n => Go (at_pc s t (if more then BSpawn n else IReturn n))
  | Loop h ct d own =>
      let ct := match new_tail with Some _ => new_tail | None => ct end in
      if more then Go (at_pc s t (LTop (Loop h ct d own)))
      else if decide (ct = Some h) then
        node s h (fun nd => if iterated nd then Go (at_pc s t (LReturn (Loop h ct d own))) else Bad)
      else Bad
  end.

Definition more_tasks_cas (s : queue) (t : nat) (c : ctx) (old : nat) (has_uniterated : bool) : outcome queue :=
  node s old (fun nd =>
    match next nd with
    | Ptr None =>
        if decide (_head s = Some old) then
          if has_uniterated then more_result s t c None true
          else more_result (with_chain (with_head s None) []) t c None false
        else match _head s with
             | None => Bad
             | Some new_head => Go (at_pc s t (MReverse c old new_head None new_head))
             end
    | _ => Bad
    end).

(** One round of the loop that reverses; the last one links the old list. *)
Definition reverse_round (s : queue) (t : nat) (c : ctx) (old p : nat) (tail : option nat) (new_tail : nat) : outcome queue :=
  node s p (fun nd =>
    match next nd with
    | UNCONNECTED => Go s
    | Ptr None => Bad
    | Ptr (Some saved_next) =>
        let s := with_node s p (set_next (Ptr tail) nd) in
        if decide (saved_next = old) then
          node s old (fun od => more_result (with_node s old (set_next (Ptr (Some p)) od)) t c (Some new_tail) true)
        else Go (at_pc s t (MReverse c old saved_next (Some p) new_tail))
    end).

(** *** _execute_tasks *)

Definition finish (own : bool) : bpc := if own then BDone 0 else BIdle.

Definition return_head (s : queue) (h : nat) (f : nat -> queue -> outcome queue) : outcome queue :=
  node s h (fun nd =>
    match next nd with
    | Ptr (Some h') => match return_task_node s h with Go s => f h' s | _ => Bad end
    | _ => Bad
    end).

Definition loop_step (s : queue) (t : nat) (pc : bpc) : outcome queue :=
  match pc with
  | LStart n own => node s n (fun nd => if q nd then Go (at_pc s t (LTop (Loop n None false own))) else Bad)
  | LTop (Loop h ct d own) =>
      node s h (fun nd =>
        if iterated nd then return_head s h (fun h' s => Go (at_pc s t (LPick (Loop h' ct d own))))
        else Go (at_pc s t (LPick (Loop h ct d own))))
  | LPick c => Go (at_pc s t (XNew c (0 <? _high_priority_tasks s)))
  | LRelease (Loop h ct d own) =>
      node s h (fun nd =>
        match next nd with
        | UNCONNECTED => Bad
        | Ptr (Some _) =>
            if iterated nd then return_head s h (fun h' s => Go (at_pc s t (LRelease (Loop h' ct d own))))
            else match ct with
                 | None => Go (at_pc s t (LTail (Loop h ct d own) h))
                 | Some tl => Go (at_pc s t (MCas (Loop h ct d own) tl (negb (iterated nd))))
                 end
        | Ptr None =>
            match ct with
            | None => Go (at_pc s t (LTail (Loop h ct d own) h))
            | Some tl => Go (at_pc s t (MCas (Loop h ct d own) tl (negb (iterated nd))))
            end
        end)
  | LTail (Loop h ct d own) tl =>
      node s tl (fun nd =>
        match next nd with
        | UNCONNECTED => Bad
        | Ptr (Some n) => Go (at_pc s t (LTail (Loop h ct d own) n))
        | Ptr None => node s h (fun hd => Go (at_pc s t (MCas (Loop h (Some tl) d own) tl (negb (iterated hd)))))
        end)
  | LReturn (Loop h ct d own) =>
      match return_task_node s h with
      | Go s => Go (at_pc s t (if d then LDestroy (Loop h ct d own) else finish own))
      | _ => Bad
      end
  | _ => Bad
  end.

(** The end of _execute_tasks of a stopped queue. *)
Definition destroy_step (stopped : bool) (s : queue) (t : nat) (pc : bpc) : outcome queue :=
  match pc with
  | LDestroy c =>
      match _head s with
      | Some _ => Bad
      | None => if stopped then Go (at_pc (with_butex s (i32 (_join_butex s + 2))) t (LWake c)) else Bad
      end
  | LWake c =>
      let wake pc := match pc with JBlocked v => JLoad v | pc => pc end in
      Go (at_pc (with_pcs s (map wake (bpcs s))) t (LFree c))
  | LFree (Loop _ _ _ own) => Go (at_pc (with_returned s) t (finish own))
  | _ => Bad
  end.

(** *** All together; [stopped] is the queue's _stopped *)

Definition bstep (stopped : bool) (ch : choice) (t : nat) (s : queue) : outcome queue :=
  match bpcs s !! t with
  | None | Some BIdle | Some (BDone _) => NoStep
  | Some (BStart e place) => allocate s t e place ch
  | Some (BCount n e) => Go (at_pc (with_high s (_high_priority_tasks s + 1)) t (BExchange n e))
  | Some (BExchange n _) => exchange s t n
  | Some (BLink n prev) => link s t n prev
  | Some (BSpawn n) => spawn s t n ch
  | Some (XNew c high) => execute s t c high
  | Some (XIncr c it user) => incr s t c it user
  | Some (XScan c it user) => scan s t c it user
  | Some (XUser c it) =>
      match ch with
      | UserNext => Go (at_pc s t (XIncr c it true))
      | UserReturn => Go (at_pc s t (XDtor c it (_head_node it)))
      | _ => NoStep
      end
  | Some (XDtor c it hd) => destruct_iter s t c it hd
  | Some (XEnd c high num stop) => executed s t c high num stop
  | Some (MCas c old hu) => more_tasks_cas s t c old hu
  | Some (MReverse c old p tail nt) => reverse_round s t c old p tail nt
  | Some (IReturn n) =>
      match return_task_node s n with Go s => Go (at_pc s t (BDone 0)) | _ => Bad end
  | Some ((LDestroy _ | LWake _ | LFree _) as pc) => destroy_step stopped s t pc
  | Some ((LStart _ _ | LTop _ | LPick _ | LRelease _ | LTail _ _ | LReturn _) as pc) => loop_step s t pc
  | Some (JLoad ver) => Go (at_pc s t (if i32 ver =? _join_butex s then JWait ver else BIdle))
  | Some (JWait ver) => Go (at_pc s t (if i32 ver =? _join_butex s then JBlocked ver else JLoad ver))
  | Some (JBlocked ver) => match ch with Tau => Go (at_pc s t (JLoad ver)) | _ => NoStep end
  end.

(** A thread that does nothing else begins execute() or _on_recycle(); join(). *)
Definition start (t : nat) (pc : bpc) (s : queue) : outcome queue :=
  match bpcs s !! t with Some BIdle => Go (at_pc s t pc) | _ => NoStep end.

Definition start_execute (t : nat) (v : T) (high place : bool) : queue -> outcome queue :=
  start t (BStart (mkEntry (Some v) high) place).

Definition start_recycle (t : nat) (s : queue) : outcome queue :=
  start t (BStart (mkEntry None false) false) (with_closed s).

Definition start_join (t : nat) (ver : Z) : queue -> outcome queue := start t (JLoad ver).

(** execution_queue_cancel() with a handle. *)
Definition cancel_task (h : nat * Z * nat) (s : queue) : outcome (Z * queue) :=
  let '(n, ver, k) := h in
  node s n (fun nd =>
    let '(rc, nd) := cancel ver nd in
    let s := with_node s n nd in
    Go (rc, if rc =? 0 then with_log s (Cancelled k) else s)).

(** A queue that create() has just made: no nodes are used. *)
Definition new_queue (V : Z) (n : nat) : queue :=
  mkQueue ∅ ∅ None 0 (i32 V) false (replicate n BIdle) [] [] [] [] false.

End Tasks.
#[global] Arguments TaskNode T : clear implicits.
#[global] Arguments entry T : clear implicits.
#[global] Arguments bpc T : clear implicits.
#[global] Arguments queue T : clear implicits.
#[global] Arguments event T : clear implicits.
End ExecQueue.
