(* ===== verification/ExecQueueInv.v ===== *)
(** * The invariant of ExecQueue, and that every step keeps it

    [BInv a x y s]: the nodes in the list are [cn s], oldest first; the first [a]
    are linked forward and known to the one thread that executes tasks, and those
    from [x] to [y] have been reversed.  Everything else a node or a thread knows
    is stated below, each part on the fields it depends on. *)

From S2P Require Import Prelude VersionedRef ExecQueue.

Module ExecQueueInv.
Import VersionedRef ExecQueue.

Section Inv.
Context {T : Type} {V : Z}.
Implicit Types (s : queue T) (n k : nat) (nd : TaskNode T) (pc : bpc T).

(** ** What is counted *)

Definition cn s : list nat := (chain s).*1.

(** The thread that executes tasks, or is about to. *)
Definition token pc : Z :=
  match pc with
  | BSpawn _ | XNew _ _ | XIncr _ _ _ | XScan _ _ _ | XUser _ _ | XDtor _ _ _ | XEnd _ _ _ _
  | MCas _ _ _ | MReverse _ _ _ _ _ | LStart _ _ | LTop _ | LPick _ | LRelease _ | LTail _ _ => 1
  | _ => 0
  end.

(** Nodes that only one thread has. *)
Definition owns n pc : Z :=
  match pc with
  | BCount m _ | BExchange m _ | IReturn m | LReturn (Loop m _ _ _) => b2z (bool_decide (m = n))
  | _ => 0
  end.

Definition is_stop (e : entry T) : Z := match e_task e with Some _ => 0 | None => 1 end.
Definition pushes pc : Z :=
  match pc with BStart e _ | BCount _ e | BExchange _ e => 1 - is_stop e | _ => 0 end.
Definition pushes_stop pc : Z :=
  match pc with BStart e _ | BCount _ e | BExchange _ e => is_stop e | _ => 0 end.

(** What _high_priority_tasks counts beside the tasks in the list. *)
Definition counted pc : Z :=
  match pc with
  | BExchange _ e => b2z (e_high e)
  | XIncr _ it _ | XScan _ it _ | XUser _ it | XDtor _ it _ => if _high_priority it then _num_iterated it else 0
  | XEnd _ high num _ => if high then num else 0
  | _ => 0
  end.

Definition ctx_destroy (c0 : ctx) : bool := match c0 with Loop _ _ d _ => d | InPlace _ => false end.

(** The thread that has executed the stop task, until join() may return. *)
Definition ending pc : Z :=
  match pc with
  | XEnd c0 _ _ stop => b2z (ctx_destroy c0 || stop)
  | LRelease c0 | LTail c0 _ | MCas c0 _ _ | LReturn c0 => b2z (ctx_destroy c0)
  | LDestroy _ => 1
  | _ => 0
  end.
Definition waking pc : Z := match pc with LWake _ => 1 | _ => 0 end.
Definition freeing pc : Z := match pc with LWake _ | LFree _ => 1 | _ => 0 end.

Definition stop_event (ev : event T) : Z := match ev with Stopped _ => 1 | _ => 0 end.
Definition stops s : Z := sumz stop_event (log s).

Definition uses n (p : nat * nat) : Z := b2z (bool_decide (p.1 = n)).

(** ** Order *)

(** The entries that were taken from the list, in order. *)
Definition taken_of (ev : event T) : list nat :=
  match ev with Deliver k _ | Skip k | Stopped k => [k] | Cancelled _ => [] end.
Definition taken (l : list (event T)) : list nat := flat_map taken_of l.

Definition in_class (es : list (entry T)) (b : bool) k : bool :=
  match es !! k with Some e => Bool.eqb (e_high e) b | None => false end.

Definition waits (nds : gmap nat (TaskNode T)) (b : bool) (p : nat * nat) : bool :=
  match nds !! p.1 with Some nd => negb (iterated nd) && Bool.eqb (high_priority nd) b | None => false end.
Definition pending (nds : gmap nat (TaskNode T)) (ch : list (nat * nat)) (b : bool) : list nat :=
  map snd (List.filter (waits nds b) ch).

Definition Fifo s : Prop := forall b,
  List.filter (in_class (pushed s) b) (seq 0 (length (pushed s))) =
  List.filter (in_class (pushed s) b) (taken (log s)) ++ pending (nodes s) (chain s) b.

(** ** Nodes *)

Definition node_ok s n k : Prop := exists nd e,
  nodes s !! n = Some nd /\ pushed s !! k = Some e /\
  task_mem nd = e_task e /\ high_priority nd = e_high e /\
  (stop_task nd = true <-> e_task e = None) /\
  (if iterated nd then status nd <> UNEXECUTED
   else (status nd = UNEXECUTED /\ Cancelled k ∉ log s) \/ (status nd = EXECUTED /\ Cancelled k ∈ log s)).

Definition handle_ok s (h : nat * Z * nat) : Prop := exists nd,
  nodes s !! h.1.1 = Some nd /\ (h.1.2 <= version nd)%Z /\
  (h.1.2 = version nd -> (h.1.1 ∉ pool s) /\ ((h.1.1, h.2) ∈ chain s \/ status nd <> UNEXECUTED)).

(** The next pointer of the node at index [i]. *)
Definition pending_link (pcs : list (bpc T)) n (p : option nat) : Prop :=
  exists t p', p = Some p' /\ pcs !! t = Some (BLink n p').

Definition link_ok (pcs : list (bpc T)) (c : list nat) (a x y i n : nat) (nx : next_ptr) : Prop :=
  if decide (i < a)%nat then nx = Ptr (if decide (S i < a)%nat then c !! S i else None)
  else if decide (x <= i < y)%nat then nx = Ptr (if decide (S i < y)%nat then c !! S i else None)
  else (nx = Ptr (c !! pred i)) \/ (nx = UNCONNECTED /\ pending_link pcs n (c !! pred i)).

Definition Links (a x y : nat) s : Prop :=
  (a <= x <= y)%nat /\ (y <= length (cn s))%nat /\ (cn s <> [] -> 1 <= a)%nat /\
  forall i n nd, cn s !! i = Some n -> nodes s !! n = Some nd ->
    link_ok (bpcs s) (cn s) a x y i n (next nd).

(** ** Threads *)

Definition fresh (nds : gmap nat (TaskNode T)) n (e : entry T) : Prop := exists nd, nds !! n = Some nd /\
  task_mem nd = e_task e /\ high_priority nd = e_high e /\ (stop_task nd = true <-> e_task e = None) /\
  iterated nd = false /\ status nd = UNEXECUTED /\ next nd = UNCONNECTED /\
  (e_task e = None -> e_high e = false /\ in_place nd = false).

Definition limbo (nds : gmap nat (TaskNode T)) n : Prop := exists nd, nds !! n = Some nd /\
  iterated nd = true /\ status nd <> UNEXECUTED /\ (stop_task nd = true \/ task_mem nd <> None).

(** A thread that does not execute tasks. *)
Definition other_ok (nds : gmap nat (TaskNode T)) (c : list nat) pc : Prop :=
  match pc with
  | BStart e place => e_task e = None -> e_high e = false /\ place = false
  | BCount n e => fresh nds n e /\ e_high e = true
  | BExchange n e => fresh nds n e
  | BLink n p => exists i nd, c !! S i = Some n /\ c !! i = Some p /\ nds !! n = Some nd /\ next nd = UNCONNECTED
  | IReturn n => limbo nds n
  | LReturn (Loop n _ d _) => limbo nds n /\ (d = true -> c = [])
  | LDestroy (Loop _ _ _ _) => c = []
  | LFree (Loop _ _ _ _) | LWake (Loop _ _ _ _) => True
  | LReturn _ | LDestroy _ | LWake _ | LFree _ => False
  | _ => True
  end.

Definition at_node s n (P : TaskNode T -> Prop) : Prop := exists nd, nodes s !! n = Some nd /\ P nd.

(** The nodes of a class before index [j] have been passed by an iterator. *)
Definition passed s (b : bool) (j : nat) : Prop :=
  forall i n nd, (i < j)%nat -> cn s !! i = Some n -> nodes s !! n = Some nd ->
    high_priority nd = b -> iterated nd = true.

(** After the stop task. *)
Definition ended s h : Prop := cn s = [h] /\ at_node s h (fun nd => iterated nd = true /\ stop_task nd = true) /\ stops s = 1.

Definition ctx_ok (a : nat) s (c0 : ctx) : Prop :=
  match c0 with
  | InPlace n => cn s !! O = Some n /\ a = 1%nat /\ at_node s n (fun nd => stop_task nd = false /\ q nd = true)
  | Loop h ct d _ => cn s !! O = Some h /\ (forall t, ct = Some t -> cn s !! pred a = Some t) /\
                     (d = true -> ended s h)
  end.

Definition place_ok s (c0 : ctx) (b : bool) : Prop :=
  match c0 with InPlace n => at_node s n (fun nd => high_priority nd = b) | Loop _ _ _ _ => True end.

Definition cur_ok (a : nat) s (it : iter) : Prop :=
  match _cur_node it with
  | None => True
  | Some n => exists j, (j < a)%nat /\ cn s !! j = Some n /\ passed s (_high_priority it) j
  end.

Definition it_ok (a : nat) s (c0 : ctx) (it : iter) : Prop :=
  ctx_ok a s c0 /\ ctx_destroy c0 = false /\ place_ok s c0 (_high_priority it) /\
  _head_node it = cn s !! O /\ cur_ok a s it.

(** The head was not iterated, or there is a next node. *)
Definition head_ok (a : nat) s n : Prop :=
  forall nd, nodes s !! n = Some nd -> iterated nd = true -> (2 <= a)%nat.
Definition alone_ok (a : nat) s n : Prop :=
  forall nd, nodes s !! n = Some nd -> iterated nd = true -> a = 1%nat.

(** The thread that executes tasks. *)
Definition consumer_ok (a x y : nat) s pc : Prop :=
  match pc with
  | MReverse c0 old p tail nt =>
      ctx_ok a s c0 /\ ctx_destroy c0 = false /\ cn s !! pred a = Some old /\
      (a < x)%nat /\ cn s !! pred x = Some p /\ tail = (if decide (x < y)%nat then cn s !! x else None) /\
      cn s !! pred y = Some nt
  | _ => x = a /\ y = a /\
    match pc with
    | BSpawn n | LStart n _ => cn s !! O = Some n /\ head_ok a s n /\ at_node s n (fun nd => q nd = true)
    | XNew c0 high => ctx_ok a s c0 /\ ctx_destroy c0 = false /\ place_ok s c0 high /\
        (high = true -> at_node s (ctx_head c0) (fun nd => stop_task nd = false))
    | XIncr c0 it _ | XScan c0 it _ | XUser c0 it => it_ok a s c0 it
    | XDtor c0 it hd => it_ok a s c0 it /\
        match hd, _cur_node it with
        | None, Some _ => False
        | None, None => True
        | Some n, cur => exists i, (i < a)%nat /\ cn s !! i = Some n /\
            forall m, cur = Some m -> exists j, (i <= j < a)%nat /\ cn s !! j = Some m
        end
    | XEnd c0 high _ stop => ctx_ok a s c0 /\ ctx_destroy c0 = false /\ place_ok s c0 high /\
        (stop = true -> high = false /\ ended s (ctx_head c0) /\ forall n, c0 <> InPlace n)
    | LRelease (Loop h ct d own) => ctx_ok a s (Loop h ct d own)
    | LTail (Loop h ct d own) tl => ctx_ok a s (Loop h ct d own) /\ ct = None /\ alone_ok a s h /\
        exists j, (j < a)%nat /\ cn s !! j = Some tl
    | MCas c0 old hu => ctx_ok a s c0 /\ cn s !! pred a = Some old /\
        at_node s (ctx_head c0) (fun nd => hu = negb (iterated nd)) /\ (hu = false -> a = 1%nat) /\
        (forall h ct d own, c0 = Loop h ct d own -> ct = Some old)
    | LTop (Loop h ct d own) => ctx_ok a s (Loop h ct d own) /\ d = false /\ head_ok a s h
    | LPick (Loop h ct d own) => ctx_ok a s (Loop h ct d own) /\ d = false
    | _ => False
    end
  end.

Definition pc_ok (a x y : nat) s pc : Prop :=
  if decide (token pc = 1) then consumer_ok a x y s pc else other_ok (nodes s) (cn s) pc.

Definition one_linker (pcs : list (bpc T)) : Prop := forall t t' n p p',
  pcs !! t = Some (BLink n p) -> pcs !! t' = Some (BLink n p') -> t = t'.

Definition bumped s : bool := negb (_join_butex s =? i32 V).

(** ** The invariant *)

Record BInv (a x y : nat) s : Prop := mkBInv {
  i_usage : forall n, sumz (uses n) (chain s) + sumz (owns n) (bpcs s) + b2z (bool_decide (n ∈ pool s)) =
                      b2z (bool_decide (is_Some (nodes s !! n)));
  i_numbers : forall i j p p', (i < j)%nat -> chain s !! i = Some p -> chain s !! j = Some p' -> (p.2 < p'.2)%nat;
  i_head : _head s = last (cn s);
  i_token : sumz token (bpcs s) = match chain s with [] => 0 | _ => 1 end;
  i_links : Links a x y s;
  i_nodes : forall n k, (n, k) ∈ chain s -> node_ok s n k;
  i_pcs : forall t pc, bpcs s !! t = Some pc -> pc_ok a x y s pc;
  i_handles : Forall (handle_ok s) (handles s);
  i_fifo : Fifo s;
  i_high : _high_priority_tasks s = sumz counted (bpcs s) + zlen (pending (nodes s) (chain s) true);
  i_closed : sumz pushes_stop (bpcs s) + sumz is_stop (pushed s) = b2z (closed s);
  i_closing : closed s = true -> sumz pushes (bpcs s) = 0;
  i_stop_last : forall k e, pushed s !! k = Some e -> e_task e = None -> S k = length (pushed s) /\ e_high e = false;
  i_deliver : forall k v, Deliver k v ∈ log s ->
      (exists e, pushed s !! k = Some e /\ e_task e = v /\ v <> None) /\ Cancelled k ∉ log s;
  i_skip : forall k, Skip k ∈ log s -> (exists e, pushed s !! k = Some e /\ e_task e <> None) /\ Cancelled k ∈ log s;
  i_stopped : forall k, Stopped k ∈ log s -> (exists e, pushed s !! k = Some e /\ e_task e = None) /\
      last (taken (log s)) = Some k;
  i_cancelled : forall k, Cancelled k ∈ log s -> (k < length (pushed s))%nat;
  i_stops : stops s <= 1 /\ (stops s = 1 -> forall b, pending (nodes s) (chain s) b = []);
  i_ending : sumz ending (bpcs s) + b2z (bumped s) = stops s;
  i_butex : _join_butex s = i32 V \/ _join_butex s = i32 (i32 V + 2);
  i_freeing : sumz freeing (bpcs s) + b2z (slot_returned s) = b2z (bumped s);
  i_linkers : one_linker (bpcs s);
  i_joiners : forall t v, bpcs s !! t = Some (JBlocked v) -> i32 v = _join_butex s \/ 0 < sumz waking (bpcs s);
  i_bumped : bumped s = true -> chain s = []
}.


(** ** Moving one thread *)

Lemma token_nonneg pc : 0 <= token pc <= 1.
Proof. destruct pc; cbn; lia. Qed.
Lemma owns_nonneg n pc : 0 <= owns n pc <= 1.
Proof. unfold owns, b2z. repeat case_match; lia. Qed.
Lemma b2z_range b : 0 <= b2z b <= 1.
Proof. destruct b; cbn; lia. Qed.

(** Only one thread executes tasks. *)
Lemma token_unique a x y s t t' pc pc' : BInv a x y s -> bpcs s !! t = Some pc -> bpcs s !! t' = Some pc' ->
  token pc = 1 -> t' <> t -> token pc' = 0.
Proof.
  intros I H H' Ht Hne. pose proof (sumz_elem2 token (bpcs s) t t' pc pc') as E.
  specialize (E (fun z => proj1 (token_nonneg z)) ltac:(done) H H').
  pose proof (i_token _ _ _ _ I). pose proof (token_nonneg pc'). destruct (chain s); lia.
Qed.

Lemma token_chain a x y s t pc : BInv a x y s -> bpcs s !! t = Some pc -> token pc = 1 -> chain s <> [].
Proof.
  intros I H Ht E. pose proof (sumz_elem token (bpcs s) t pc (fun z => proj1 (token_nonneg z)) H).
  pose proof (i_token _ _ _ _ I) as Hs. rewrite E in Hs. lia.
Qed.

Lemma pc_ok_other a x y s pc : token pc = 0 -> other_ok (nodes s) (cn s) pc -> pc_ok a x y s pc.
Proof. intros H. unfold pc_ok. rewrite decide_False by lia. done. Qed.

Lemma pc_ok_token a x y s pc : token pc = 1 -> consumer_ok a x y s pc -> pc_ok a x y s pc.
Proof. intros H. unfold pc_ok. by rewrite decide_True by lia. Qed.

(** What two program counters have in common when the thread just moves. *)
Definition alike pc pc' : Prop :=
  token pc' = token pc /\ (forall n, owns n pc' = owns n pc) /\ pushes pc' = pushes pc /\
  pushes_stop pc' = pushes_stop pc /\ ending pc' = ending pc /\ waking pc' = waking pc /\ freeing pc' = freeing pc.

Definition not_link pc : Prop := match pc with BLink _ _ => False | _ => True end.

Lemma one_linker_move pcs t pc' : not_link pc' -> one_linker pcs -> one_linker (<[t := pc']> pcs).
Proof.
  intros Hl U t1 t2 n p1 p2 H1 H2.
  apply list_lookup_insert_Some in H1 as [(_ & -> & _)|[_ H1]]; [done|].
  apply list_lookup_insert_Some in H2 as [(_ & -> & _)|[_ H2]]; [done|]. by apply (U t1 t2 n p1 p2).
Qed.

Lemma pending_link_move s t pc pc' n p : bpcs s !! t = Some pc -> not_link pc ->
  pending_link (bpcs s) n p -> pending_link (<[t := pc']> (bpcs s)) n p.
Proof.
  intros H Hl (t1 & p1 & -> & H1). exists t1, p1. split; [done|].
  destruct (decide (t1 = t)) as [->|]; [|by rewrite list_lookup_insert_ne].
  rewrite H in H1. injection H1 as ->. done.
Qed.

Lemma Links_pcs a x y s s' : cn s' = cn s -> nodes s' = nodes s ->
  (forall n p, pending_link (bpcs s) n p -> pending_link (bpcs s') n p) -> Links a x y s -> Links a x y s'.
Proof.
  intros Ec En Hp (L1 & L2 & L3 & L4). unfold Links. rewrite Ec, En. split_and!; try apply L1; try done.
  intros i n nd Hi Hn. specialize (L4 i n nd Hi Hn). unfold link_ok in *.
  destruct (decide _); [done|]. destruct (decide _); [done|]. naive_solver.
Qed.

End Inv.

(** The parts of the invariant of a changed state, projections computed. *)
Ltac parts I :=
  destruct I; constructor; unfold bumped, stops in *;
  cbn [nodes pool _head _high_priority_tasks _join_butex slot_returned bpcs chain pushed handles log closed
       at_pc with_pcs with_high with_nodes with_node with_pool with_head with_butex with_returned with_chain
       with_log with_push with_closed].

Section Frame.
Context {T : Type} {V : Z}.
Implicit Types (s : queue T) (n k : nat) (nd : TaskNode T) (pc : bpc T).
#[local] Abbreviation BInv := (BInv (V := V)).
#[local] Abbreviation bumped := (bumped (V := V)).

Lemma move_high a x y s t pc pc' h : BInv a x y s -> bpcs s !! t = Some pc -> alike pc pc' -> not_link pc -> not_link pc' ->
  h - counted pc' = _high_priority_tasks s - counted pc ->
  (forall v, pc' = JBlocked v -> i32 v = _join_butex s) -> pc_ok a x y s pc' ->
  BInv a x y (at_pc (with_high s h) t pc').
Proof.
  intros I H (A1 & A2 & A3 & A4 & A5 & A6 & A7) Hl Hl' Hh Hj Hok. parts I; rewrite ?(sumz_insert _ _ _ _ _ H), ?A1, ?A3, ?A4, ?A5, ?A6, ?A7; try done; try lia.
  - intros n. rewrite (sumz_insert _ _ _ _ _ H), A2. rewrite <-i_usage0. lia.
  - eapply Links_pcs; [..|exact i_links0]; try done. intros n p. exact (pending_link_move s t pc pc' n p H Hl).
  - intros t' p' H'. apply list_lookup_insert_Some in H' as [(-> & -> & _)|[Hne H']]; [exact Hok|].
    exact (i_pcs0 t' p' H').
  - intros Hc. specialize (i_closing0 Hc). lia.
  - by apply one_linker_move.
  - intros t' v H'. apply list_lookup_insert_Some in H' as [(-> & -> & _)|[Hne H']]; [left; by apply Hj|].
    destruct (i_joiners0 t' v H') as [?|?]; [by left|right; lia].
Qed.

Lemma move a x y s t pc pc' : BInv a x y s -> bpcs s !! t = Some pc -> alike pc pc' -> not_link pc -> not_link pc' ->
  counted pc' = counted pc ->
  (forall v, pc' = JBlocked v -> i32 v = _join_butex s) -> pc_ok a x y s pc' ->
  BInv a x y (at_pc s t pc').
Proof.
  intros I H A Hl Hl' Hc Hj Hok.
  exact (move_high a x y s t pc pc' (_high_priority_tasks s) I H A Hl Hl' ltac:(lia) Hj Hok).
Qed.

(** ** Where a node is *)

Lemma elem_cn s n : n ∈ cn s <-> exists k, (n, k) ∈ chain s.
Proof.
  unfold cn. rewrite list_elem_of_fmap. split.
  - intros ([m k] & -> & H). by exists k.
  - intros [k H]. by exists (n, k).
Qed.

Lemma cn_lookup s i n : cn s !! i = Some n <-> exists k, chain s !! i = Some (n, k).
Proof.
  unfold cn. rewrite list_lookup_fmap. destruct (chain s !! i) as [[m k]|]; cbn; naive_solver.
Qed.

Lemma sumz_uses_elem n l : n ∈ l.*1 -> 1 <= sumz (uses n) l.
Proof.
  intros H. apply list_elem_of_lookup in H as [i Hi]. rewrite list_lookup_fmap in Hi.
  destruct (l !! i) as [[m k]|] eqn:E; [|done]. injection Hi as ->.
  pose proof (sumz_elem (uses n) l i (n, k) (fun y => proj1 (b2z_range _)) E) as Hs.
  unfold uses in Hs at 1. by rewrite bool_decide_eq_true_2 in Hs.
Qed.

Lemma sumz_uses_none n l : n ∉ l.*1 -> sumz (uses n) l = 0.
Proof.
  intros H. apply sumz_0. intros i [m k] E. unfold uses. rewrite bool_decide_eq_false_2; [done|].
  cbn. intros ->. apply H, list_elem_of_fmap. exists (n, k). split; [done|]. by eapply list_elem_of_lookup_2.
Qed.

(** A node in the list is in no thread's hands and not in the pool, and once in
    the list. *)
Lemma in_chain a x y s n : BInv a x y s -> n ∈ cn s ->
  is_Some (nodes s !! n) /\ (n ∉ pool s) /\ sumz (owns n) (bpcs s) = 0 /\ sumz (uses n) (chain s) = 1.
Proof.
  intros I H. pose proof (i_usage _ _ _ _ I n) as U. pose proof (sumz_uses_elem n _ H).
  pose proof (sumz_nonneg (owns n) (bpcs s) (fun z => proj1 (owns_nonneg n z))).
  do 2 case_bool_decide; cbn in U; split_and!; first [done|lia|exfalso; lia].
Qed.

Lemma owned a x y s t pc n : BInv a x y s -> bpcs s !! t = Some pc -> 0 < owns n pc ->
  is_Some (nodes s !! n) /\ (n ∉ pool s) /\ (n ∉ cn s) /\
  forall t' pc', t' <> t -> bpcs s !! t' = Some pc' -> owns n pc' = 0.
Proof.
  intros I H Hn. pose proof (i_usage _ _ _ _ I n) as U.
  pose proof (sumz_elem (owns n) (bpcs s) t pc (fun z => proj1 (owns_nonneg n z)) H).
  pose proof (sumz_nonneg (uses n) (chain s) (fun z => proj1 (b2z_range _))).
  pose proof (b2z_range (bool_decide (is_Some (nodes s !! n)))). pose proof (b2z_range (bool_decide (n ∈ pool s))).
  split_and!.
  - destruct (decide (is_Some (nodes s !! n))) as [?|Hn2]; [done|].
    rewrite (bool_decide_eq_false_2 _ Hn2) in U. cbn in U. lia.
  - intros Hp. rewrite (bool_decide_eq_true_2 _ Hp) in U. cbn in U. lia.
  - intros Hc. pose proof (sumz_uses_elem n _ Hc). lia.
  - intros t' pc' Hne H'.
    pose proof (sumz_elem2 (owns n) (bpcs s) t t' pc pc' (fun z => proj1 (owns_nonneg n z)) ltac:(done) H H').
    pose proof (owns_nonneg n pc'). lia.
Qed.

Lemma NoDup_cn a x y s : BInv a x y s -> NoDup (cn s).
Proof.
  intros I. assert (H : forall n, sumz (uses n) (chain s) <= 1).
  { intros n. pose proof (i_usage _ _ _ _ I n).
    pose proof (sumz_nonneg (owns n) (bpcs s) (fun z => proj1 (owns_nonneg n z))).
    pose proof (b2z_range (bool_decide (is_Some (nodes s !! n)))). pose proof (b2z_range (bool_decide (n ∈ pool s))). lia. }
  unfold cn. induction (chain s) as [|[m k] l IH]; [constructor|]. cbn. apply NoDup_cons. split.
  - intros Hm. specialize (H m). rewrite sumz_cons in H. pose proof (sumz_uses_elem m l Hm).
    unfold uses in H at 1. rewrite bool_decide_eq_true_2 in H by done. cbn in H. lia.
  - apply IH. intros n. specialize (H n). rewrite sumz_cons in H. pose proof (b2z_range (bool_decide ((m, k).1 = n))).
    unfold uses in H at 1. lia.
Qed.

Lemma cn_inj a x y s i j n : BInv a x y s -> cn s !! i = Some n -> cn s !! j = Some n -> i = j.
Proof. intros I. apply NoDup_lookup, (NoDup_cn _ _ _ _ I). Qed.

(** ** What a step of another thread leaves alone *)

(** Nodes that differ in what the list and cancel() change only. *)
Definition sim (nd nd' : TaskNode T) : Prop :=
  iterated nd' = iterated nd /\ stop_task nd' = stop_task nd /\ high_priority nd' = high_priority nd /\ q nd' = q nd.

Lemma other_keep nds c nds' c' pc :
  (forall m, 0 < owns m pc -> nds' !! m = nds !! m) ->
  (forall n p i nd, pc = BLink n p -> c !! S i = Some n -> c !! i = Some p -> nds !! n = Some nd -> next nd = UNCONNECTED ->
     exists i' nd', c' !! S i' = Some n /\ c' !! i' = Some p /\ nds' !! n = Some nd' /\ next nd' = UNCONNECTED) ->
  (ending pc = 1 -> c = [] -> c' = []) ->
  other_ok nds c pc -> other_ok nds' c' pc.
Proof.
  intros Ho Hl He. destruct pc; cbn in *; try done.
  - unfold fresh. rewrite Ho by (by rewrite bool_decide_eq_true_2). done.
  - unfold fresh. rewrite Ho by (by rewrite bool_decide_eq_true_2). done.
  - intros (i & nd & H1 & H2 & H3 & H4). by apply (Hl n prev i nd).
  - unfold limbo. rewrite Ho by (by rewrite bool_decide_eq_true_2). done.
  - destruct c0 as [|h ct d own]; [done|]. unfold limbo. rewrite Ho by (by rewrite bool_decide_eq_true_2).
    intros [Hlm Hd]. split; [done|]. intros ->. apply He; [done|by apply Hd].
  - destruct c0; [done|]. by apply He.
Qed.

Section Keep.
Context (a x y : nat) (s s' : queue T).
Context (K_len : (a <= x <= y)%nat /\ (y <= length (cn s))%nat).
Context (K_ex : forall m, m ∈ cn s -> is_Some (nodes s !! m)).
Context (K_cn : forall i m, cn s !! i = Some m -> cn s' !! i = Some m).
Context (K_sim : forall m nd, m ∈ cn s -> nodes s !! m = Some nd -> exists nd', nodes s' !! m = Some nd' /\ sim nd nd').
Context (K_stops : stops s' = stops s).
Context (K_ended : cn s' = cn s \/ stops s = 0).

Lemma lt_cn i n : (i < length (cn s))%nat -> cn s' !! i = Some n -> cn s !! i = Some n.
Proof.
  intros Hi H. destruct (lookup_lt_is_Some_2 (cn s) i Hi) as [m Hm]. pose proof (K_cn i m Hm). congruence.
Qed.

Lemma keep_at_node n P : (forall nd nd', sim nd nd' -> P nd -> P nd') -> n ∈ cn s -> at_node s n P -> at_node s' n P.
Proof.
  intros HP Hn (nd & H & Hp). destruct (K_sim n nd Hn H) as (nd' & H' & Hs). exists nd'. eauto.
Qed.

Lemma keep_back n nd' : n ∈ cn s -> nodes s' !! n = Some nd' -> exists nd, nodes s !! n = Some nd /\ sim nd nd'.
Proof.
  intros Hn H'. destruct (K_ex n Hn) as [nd H]. destruct (K_sim n nd Hn H) as (nd2 & H2 & Hs).
  exists nd. split; [done|]. congruence.
Qed.

Lemma keep_passed b j : (j <= length (cn s))%nat -> passed s b j -> passed s' b j.
Proof.
  intros Hj Hp i n nd' Hi Hn Hnd Hb. apply lt_cn in Hn; [|lia].
  destruct (keep_back n nd') as (nd & H & (E1 & E2 & E3 & E4)); [by eapply list_elem_of_lookup_2|done|].
  rewrite E1. apply (Hp i n nd); try done. congruence.
Qed.

Lemma keep_head a0 n : cn s !! O = Some n -> (head_ok a0 s n -> head_ok a0 s' n) /\ (alone_ok a0 s n -> alone_ok a0 s' n) /\
  (forall P : TaskNode T -> Prop, (forall nd nd', sim nd nd' -> P nd -> P nd') -> at_node s n P -> at_node s' n P) /\
  (ended s n -> ended s' n).
Proof.
  intros H0. assert (n ∈ cn s) as Hn by by eapply list_elem_of_lookup_2. split_and!.
  - intros Hh nd' H' Hi. destruct (keep_back n nd' Hn H') as (nd & H & (E1 & _)). apply (Hh nd H). congruence.
  - intros Hh nd' H' Hi. destruct (keep_back n nd' Hn H') as (nd & H & (E1 & _)). apply (Hh nd H). congruence.
  - intros P HP. by apply keep_at_node.
  - intros (E1 & E2 & E3). split_and!; [destruct K_ended; [congruence|lia]| |congruence].
    apply (keep_at_node n); [|done|done]. intros nd nd' (F1 & F2 & _) [? ?]. by rewrite F1, F2.
Qed.

Lemma keep_ctx c0 : ctx_ok a s c0 -> ctx_ok a s' c0.
Proof.
  destruct c0 as [n|h ct d own]; cbn.
  - intros (H0 & H1 & H2). split_and!; [by apply K_cn|done|].
    apply (keep_at_node n); [|by eapply list_elem_of_lookup_2|done].
    intros nd nd' (F1 & F2 & F3 & F4) [? ?]. by rewrite F2, F4.
  - intros (H0 & H1 & H2). split_and!; [by apply K_cn| |].
    + intros t E. by apply K_cn, H1.
    + intros E. by apply (keep_head a h), H2.
Qed.

Lemma keep_place c0 b : ctx_ok a s c0 -> place_ok s c0 b -> place_ok s' c0 b.
Proof.
  destruct c0 as [n|]; cbn; [|done]. intros (H0 & _). apply (keep_at_node n); [|by eapply list_elem_of_lookup_2].
  intros nd nd' (F1 & F2 & F3 & F4). congruence.
Qed.

Lemma keep_ctx_head c0 : ctx_ok a s c0 -> cn s !! O = Some (ctx_head c0).
Proof. destruct c0; cbn; tauto. Qed.

Lemma keep_it c0 it : it_ok a s c0 it -> it_ok a s' c0 it.
Proof.
  intros (H1 & H2 & H3 & H4 & H5). pose proof (keep_ctx_head c0 H1) as H0. split_and!; try done.
  - by apply keep_ctx.
  - by apply keep_place.
  - rewrite H4, H0. symmetry. by apply K_cn.
  - unfold cur_ok in *. destruct (_cur_node it) as [n|]; [|done]. destruct H5 as (j & ? & ? & ?).
    exists j. split_and!; [done|by apply K_cn|]. apply keep_passed; [lia|done].
Qed.

Lemma keep_consumer pc : consumer_ok a x y s pc -> consumer_ok a x y s' pc.
Proof.
  assert (Hst : forall n, cn s !! O = Some n -> forall P : TaskNode T -> Prop,
            (forall nd nd', sim nd nd' -> P nd -> P nd') -> at_node s n P -> at_node s' n P)
    by (intros n Hn; apply (keep_head a n Hn)).
  destruct pc; cbn [consumer_ok]; try done.
  - intros (Ex & Ey & H0 & H1 & H2). split_and!; [done|done|by apply K_cn|by apply keep_head|].
    apply (Hst n H0); [|done]. intros nd nd' (F1 & F2 & F3 & F4). congruence.
  - intros (Ex & Ey & H0 & H1 & H2 & H3). split_and!; [done|done|by apply keep_ctx|done|by apply keep_place|].
    intros E. apply (Hst _ (keep_ctx_head _ H0)); [|by apply H3]. intros nd nd' (F1 & F2 & F3 & F4). congruence.
  - intros (Ex & Ey & H). split_and!; [done|done|by apply keep_it].
  - intros (Ex & Ey & H). split_and!; [done|done|by apply keep_it].
  - intros (Ex & Ey & H). split_and!; [done|done|by apply keep_it].
  - intros (Ex & Ey & H & H'). split_and!; [done|done|by apply keep_it|].
    destruct hd as [n|]; [|done]. destruct H' as (i & ? & ? & Hm). exists i. split_and!; [done|by apply K_cn|].
    intros m E. destruct (Hm m E) as (j & ? & ?). exists j. split; [done|by apply K_cn].
  - intros (Ex & Ey & H0 & H1 & H2 & H3). split_and!; [done|done|by apply keep_ctx|done|by apply keep_place|].
    intros E. destruct (H3 E) as (? & ? & ?). split_and!; [done| |done]. by apply (keep_head a _ (keep_ctx_head _ H0)).
  - intros (Ex & Ey & H0 & H1 & H2 & H3 & H4). split_and!; [done|done|by apply keep_ctx|by apply K_cn| |done|done].
    apply (Hst _ (keep_ctx_head _ H0)); [|done]. intros nd nd' (F1 & F2 & F3 & F4). congruence.
  - intros (H0 & H1 & H2 & H3 & H4 & H5 & H6). split_and!; try done; try (by apply K_cn); [by apply keep_ctx|].
    rewrite H5. destruct (decide (x < y)%nat); [|done].
    destruct (lookup_lt_is_Some_2 (cn s) x) as [m Hm]; [lia|]. rewrite Hm. symmetry. by apply K_cn.
  - intros (Ex & Ey & H0 & H1 & H2). split_and!; [done|done|by apply K_cn|by apply keep_head|].
    apply (Hst n H0); [|done]. intros nd nd' (F1 & F2 & F3 & F4). congruence.
  - destruct c as [|h ct d own]; [tauto|]. intros (Ex & Ey & H0 & H1 & H2).
    split_and!; [done|done|by apply keep_ctx|done|]. by apply (keep_head a h (keep_ctx_head _ H0)).
  - destruct c as [|h ct d own]; [tauto|]. intros (Ex & Ey & H0 & H1). split_and!; [done|done|by apply keep_ctx|done].
  - destruct c as [|h ct d own]; [tauto|]. intros (Ex & Ey & H0). split_and!; [done|done|by apply keep_ctx].
  - destruct c as [|h ct d own]; [tauto|]. intros (Ex & Ey & H0 & H1 & H2 & j & ? & ?).
    split_and!; [done|done|by apply keep_ctx|done|by apply (keep_head a h (keep_ctx_head _ H0))|].
    exists j. split; [done|by apply K_cn].
Qed.
End Keep.

(** The other threads after a step of thread [t]. *)
Lemma keep_pcs a x y s s' t : BInv a x y s ->
  (forall i m, cn s !! i = Some m -> cn s' !! i = Some m) ->
  (forall m nd, m ∈ cn s -> nodes s !! m = Some nd -> exists nd', nodes s' !! m = Some nd' /\ sim nd nd') ->
  stops s' = stops s -> cn s' = cn s \/ stops s = 0 ->
  (forall t' m pc, t' <> t -> bpcs s !! t' = Some pc -> 0 < owns m pc -> nodes s' !! m = nodes s !! m) ->
  (forall t' n p nd, t' <> t -> bpcs s !! t' = Some (BLink n p) -> nodes s !! n = Some nd -> next nd = UNCONNECTED ->
     exists nd', nodes s' !! n = Some nd' /\ next nd' = UNCONNECTED) ->
  forall t' pc, t' <> t -> bpcs s !! t' = Some pc -> pc_ok a x y s' pc.
Proof.
  intros I Kc Ks Kst Ke Ko Kl t' pc Hne H. pose proof (i_pcs _ _ _ _ I t' pc H) as Hok. unfold pc_ok in *.
  destruct (decide (token pc = 1)) as [Ht|Ht].
  - destruct (i_links _ _ _ _ I) as (L1 & L2 & _). apply (keep_consumer a x y s s' (conj L1 L2)); try done.
    intros m Hm. by apply (in_chain a x y s m I).
  - apply (other_keep (nodes s) (cn s)); [by eauto| | |done].
    + intros n p i nd -> Hi Hp Hn Hu. destruct (Kl t' n p nd Hne H Hn Hu) as (nd' & ? & ?). exists i, nd'.
      split_and!; try apply Kc; done.
    + intros He Hc. destruct Ke as [->|Hz]; [done|]. exfalso.
      pose proof (sumz_elem ending (bpcs s) t' pc) as Hs. pose proof (i_ending _ _ _ _ I).
      pose proof (b2z_range (bumped s)). rewrite He in Hs.
      assert (forall p : bpc T, 0 <= ending p) by (intros p; destruct p; cbn; unfold b2z; repeat case_match; lia).
      specialize (Hs ltac:(done) H). lia.
Qed.

Lemma ending_nonneg pc : 0 <= ending pc <= 1.
Proof. unfold ending, b2z. repeat case_match; lia. Qed.

(** ** Nodes that change *)

Lemma dom_with_node (nds : gmap nat (TaskNode T)) n nd nd' m : nds !! n = Some nd ->
  bool_decide (is_Some (<[n := nd']> nds !! m)) = bool_decide (is_Some (nds !! m)).
Proof.
  intros H. apply bool_decide_ext. destruct (decide (n = m)) as [->|].
  - rewrite lookup_insert_eq, H. split; by eauto.
  - by rewrite lookup_insert_ne.
Qed.

Lemma pending_ext (nds nds' : gmap nat (TaskNode T)) ch b :
  (forall n k, (n, k) ∈ ch -> waits nds' b (n, k) = waits nds b (n, k)) -> pending nds' ch b = pending nds ch b.
Proof.
  intros H. unfold pending. f_equal. induction ch as [|[n k] ch IH]; [done|]. cbn [List.filter].
  rewrite H by left. rewrite IH; [done|]. intros m j Hm. apply H. by right.
Qed.

Lemma pending_same (nds : gmap nat (TaskNode T)) n nd nd' ch b : nds !! n = Some nd ->
  iterated nd' = iterated nd -> high_priority nd' = high_priority nd ->
  pending (<[n := nd']> nds) ch b = pending nds ch b.
Proof.
  intros H E1 E2. apply pending_ext. intros m k _. unfold waits. cbn [fst].
  destruct (decide (n = m)) as [->|]; [by rewrite lookup_insert_eq, H, E1, E2|by rewrite lookup_insert_ne].
Qed.

Lemma with_node_sim s n nd nd' m md : nodes s !! n = Some nd -> sim nd nd' -> nodes s !! m = Some md ->
  exists md', <[n := nd']> (nodes s) !! m = Some md' /\ sim md md'.
Proof.
  intros H Hs Hm. destruct (decide (n = m)) as [->|].
  - rewrite lookup_insert_eq. exists nd'. split; [done|]. congruence.
  - rewrite lookup_insert_ne by done. exists md. done.
Qed.

Lemma fresh_ne (nds : gmap nat (TaskNode T)) m e n nd nd' : nds !! n = Some nd -> iterated nd = true ->
  fresh nds m e -> fresh (<[n := nd']> nds) m e.
Proof.
  intros H Hi (md & Hm & F). exists md. destruct (decide (n = m)) as [->|]; [|by rewrite lookup_insert_ne].
  rewrite H in Hm. injection Hm as ->. destruct F as (_ & _ & _ & Hf & _). congruence.
Qed.

Lemma limbo_set (nds : gmap nat (TaskNode T)) m n nd st : nds !! n = Some nd -> st <> UNEXECUTED ->
  limbo nds m -> limbo (<[n := set_status st nd]> nds) m.
Proof.
  intros H Hs (md & Hm & F1 & F2 & F3). unfold limbo. destruct (decide (n = m)) as [->|].
  - rewrite lookup_insert_eq. rewrite H in Hm. injection Hm as ->. exists (set_status st md). done.
  - rewrite lookup_insert_ne by done. exists md. done.
Qed.

(** *** The status of a node that was iterated *)

Lemma set_status_pcs a x y s n nd st t pc : BInv a x y s -> nodes s !! n = Some nd -> iterated nd = true ->
  st <> UNEXECUTED -> bpcs s !! t = Some pc -> pc_ok a x y (with_node s n (set_status st nd)) pc.
Proof.
  intros I H Hi Hst Ht. pose proof (i_pcs _ _ _ _ I t pc Ht) as Hok. unfold pc_ok in *. destruct (decide _) as [Htk|Htk].
  - destruct (i_links _ _ _ _ I) as (L1 & L2 & _). apply (keep_consumer a x y s _ (conj L1 L2)); try done; [|..|by left].
    + intros m Hm. by apply (in_chain a x y s m I).
    + intros m md _ Hm. by apply (with_node_sim s n nd).
  - revert Hok. change (cn (with_node s n (set_status st nd))) with (cn s). cbn [nodes with_node with_nodes].
    destruct pc as [| |m|m|m p| | | | | | | | | | |m| | | | | |c| | | | | |]; cbn; try done.
    + intros [? ?]. split; [by eapply fresh_ne|done].
    + by eapply fresh_ne.
    + intros (i & md & ? & ? & Hm & ?). exists i.
      destruct (with_node_sim s n nd (set_status st nd) m md H ltac:(done) Hm) as (md' & Hm' & _).
      exists md'. split_and!; try done. destruct (decide (n = m)) as [->|].
      * rewrite lookup_insert_eq in Hm'. injection Hm' as <-. rewrite H in Hm. by injection Hm as ->.
      * rewrite lookup_insert_ne in Hm' by done. congruence.
    + by apply limbo_set.
    + destruct c; [done|]. intros [? ?]. split; [by apply limbo_set|done].
Qed.

Lemma Links_nodes a x y s n nd nd' : nodes s !! n = Some nd -> next nd' = next nd ->
  Links a x y s -> Links a x y (with_node s n nd').
Proof.
  intros H E (L1 & L2 & L3 & L4). split_and!; try apply L1; try done. intros i m md Hi Hm.
  cbn [nodes with_node with_nodes] in Hm. change (cn (with_node s n nd')) with (cn s) in *.
  destruct (decide (n = m)) as [->|].
  - rewrite lookup_insert_eq in Hm. injection Hm as <-. rewrite E. by apply L4.
  - rewrite lookup_insert_ne in Hm by done. by apply L4.
Qed.

Lemma set_status_ok a x y s n nd st : BInv a x y s -> nodes s !! n = Some nd -> iterated nd = true ->
  st <> UNEXECUTED -> BInv a x y (with_node s n (set_status st nd)).
Proof.
  intros I H Hi Hst. pose proof (set_status_pcs a x y s n nd st) as K.
  specialize (fun t pc => K t pc I H Hi Hst). parts I; rewrite ?(pending_same _ n nd) by done; try done.
  - intros m. by rewrite (dom_with_node _ n nd).
  - by apply (Links_nodes a x y s n nd).
  - intros m k Hm. destruct (i_nodes0 m k Hm) as (md & e & E1 & E2 & F).
    unfold node_ok. cbn [nodes with_node with_nodes pushed log]. destruct (decide (n = m)) as [->|].
    + rewrite H in E1. injection E1 as <-. exists (set_status st nd), e. rewrite lookup_insert_eq.
      cbn. rewrite Hi. split_and!; try done; by apply F.
    + exists md, e. rewrite lookup_insert_ne by done. done.
  - apply (Forall_impl _ _ _ i_handles0). intros [[m v] k] (md & E1 & E2 & E3).
    unfold handle_ok. cbn [nodes with_node with_nodes pool chain]. cbn [fst snd] in *. destruct (decide (n = m)) as [->|].
    + rewrite H in E1. injection E1 as <-. exists (set_status st nd). rewrite lookup_insert_eq.
      split_and!; try done. intros Ev. destruct (E3 Ev) as [? _]. split; [done|]. by right.
    + exists md. rewrite lookup_insert_ne by done. done.
  - intros b. specialize (i_fifo0 b). cbn [nodes with_node with_nodes pushed log chain]. by rewrite (pending_same _ n nd).
  - destruct i_stops0 as [? H2]. split; [done|]. intros E b. rewrite (pending_same _ n nd) by done. by apply H2.
Qed.

(** *** Order *)

Lemma taken_app (l1 l2 : list (event T)) : taken (l1 ++ l2) = taken l1 ++ taken l2.
Proof. apply flat_map_app. Qed.

Lemma elem_taken (l : list (event T)) k : k ∈ taken l <-> (exists v, Deliver k v ∈ l) \/ Skip k ∈ l \/ Stopped k ∈ l.
Proof.
  unfold taken. rewrite list_elem_of_In, in_flat_map. split.
  - intros (ev & H & Hk). apply list_elem_of_In in H. destruct ev; cbn in Hk; destruct Hk as [->|[]] || done; eauto.
  - intros [[v H]|[H|H]]; apply list_elem_of_In in H; eexists; (split; [exact H|by left]).
Qed.

Lemma stops_elem (l : list (event T)) : (exists k, Stopped k ∈ l) <-> 1 <= sumz stop_event l.
Proof.
  split.
  - intros [k H]. apply list_elem_of_lookup in H as [i Hi].
    apply (sumz_elem stop_event l i (Stopped k)); [|done]. by intros [].
  - intros H. destruct (sumz_pos stop_event l) as (i & ev & Hi & Hp); [lia|]. destruct ev as [| | |k]; try done.
    exists k. by eapply list_elem_of_lookup_2.
Qed.

Lemma elem_pending (nds : gmap nat (TaskNode T)) ch b k : k ∈ pending nds ch b <-> exists n, (n, k) ∈ ch /\ waits nds b (n, k) = true.
Proof.
  unfold pending. rewrite list_elem_of_In, in_map_iff. split.
  - intros ([n k'] & <- & H). apply filter_In in H as [H1 H2]. apply list_elem_of_In in H1. by exists n.
  - intros (n & H1 & H2). exists (n, k). split; [done|]. apply filter_In. by rewrite <-list_elem_of_In.
Qed.

Lemma node_class a x y s n k nd : BInv a x y s -> (n, k) ∈ chain s -> nodes s !! n = Some nd ->
  in_class (pushed s) (high_priority nd) k = true.
Proof.
  intros I Hc Hn. destruct (i_nodes _ _ _ _ I n k Hc) as (md & e & E1 & E2 & E3 & E4 & _).
  unfold in_class. rewrite E2. rewrite E1 in Hn. injection Hn as ->. by rewrite E4, eqb_reflx.
Qed.

(** An entry that waits was not taken. *)
Lemma waiting_not_taken a x y s n k nd : BInv a x y s -> (n, k) ∈ chain s -> nodes s !! n = Some nd ->
  iterated nd = false -> k ∉ taken (log s).
Proof.
  intros I Hc Hn Hi Hk. pose proof (i_fifo _ _ _ _ I (high_priority nd)) as F.
  assert (N : NoDup (List.filter (in_class (pushed s) (high_priority nd)) (seq 0 (length (pushed s)))))
    by apply NoDup_ListNoDup, List.NoDup_filter, NoDup_ListNoDup, NoDup_seq.
  rewrite F in N. apply NoDup_app in N as (_ & N & _). apply (N k).
  - apply list_elem_of_In, filter_In. split; [by apply list_elem_of_In|]. by apply (node_class a x y s n).
  - apply elem_pending. exists n. split; [done|]. unfold waits. cbn. by rewrite Hn, Hi, eqb_reflx.
Qed.

(** While an entry waits nobody was told to stop. *)
Lemma waiting_not_stopped a x y s n k nd : BInv a x y s -> (n, k) ∈ chain s -> nodes s !! n = Some nd ->
  iterated nd = false -> stops s = 0 /\ forall j, Stopped j ∉ log s.
Proof.
  intros I Hc Hn Hi. destruct (i_stops _ _ _ _ I) as [H1 H2].
  assert (stops s <> 1).
  { intros E. specialize (H2 E (high_priority nd)).
    assert (k ∈ pending (nodes s) (chain s) (high_priority nd)) as Hk; [|by rewrite H2 in Hk; apply elem_of_nil in Hk].
    apply elem_pending. exists n. split; [done|]. unfold waits. cbn. by rewrite Hn, Hi, eqb_reflx. }
  assert (0 <= stops s) by (apply sumz_nonneg; by intros []). split; [lia|].
  intros j Hj. assert (1 <= stops s) by (apply stops_elem; by exists j). lia.
Qed.

(** The entries of one node. *)
Lemma number_inj a x y s n k k' : BInv a x y s -> (n, k) ∈ chain s -> (n, k') ∈ chain s -> k = k'.
Proof.
  intros I H H'. apply list_elem_of_lookup in H as [i Hi]. apply list_elem_of_lookup in H' as [j Hj].
  assert (i = j) as <-; [|congruence]. apply (cn_inj a x y s i j n I); apply cn_lookup; eauto.
Qed.

Lemma node_inj a x y s n n' k : BInv a x y s -> (n, k) ∈ chain s -> (n', k) ∈ chain s -> n = n'.
Proof.
  intros I H H'. apply list_elem_of_lookup in H as [i Hi]. apply list_elem_of_lookup in H' as [j Hj].
  pose proof (i_numbers _ _ _ _ I) as N. assert (~ (i < j)%nat /\ ~ (j < i)%nat).
  { split; intros Hlt; [pose proof (N i j _ _ Hlt Hi Hj)|pose proof (N j i _ _ Hlt Hj Hi)]; cbn in *; lia. }
  assert (i = j) as <- by lia. congruence.
Qed.

(** *** cancel() *)

Lemma cancel_unexecuted_ok a x y s n k nd v : BInv a x y s -> (n, v, k) ∈ handles s -> nodes s !! n = Some nd ->
  v = version nd -> status nd = UNEXECUTED ->
  BInv a x y (with_log (with_node s n (set_status EXECUTED nd)) (Cancelled k)).
Proof.
  intros I Hh Hn Hv Hs.
  destruct (proj1 (Forall_forall _ _) (i_handles _ _ _ _ I) _ Hh) as (md & E & _ & Hc). cbn [fst snd] in *.
  rewrite Hn in E. injection E as <-. destruct (Hc Hv) as [Hp [Hch|]]; [|done]. clear Hc.
  destruct (i_nodes _ _ _ _ I n k Hch) as (md & e & E1 & E2 & E3 & E4 & E5 & E6).
  rewrite Hn in E1. injection E1 as <-. destruct (iterated nd) eqn:Hi; [done|].
  pose proof (waiting_not_taken _ _ _ _ _ _ _ I Hch Hn Hi) as Hnt.
  assert (Hin : n ∈ cn s) by (apply elem_cn; by exists k).
  set (s' := with_log _ _).
  assert (K : forall t pc, bpcs s !! t = Some pc -> pc_ok a x y s' pc).
  { intros t pc Ht. refine (keep_pcs a x y s s' (S (length (bpcs s))) I _ _ _ (or_introl eq_refl) _ _ t pc _ Ht); try done.
    - intros m md _ Hm. by apply (with_node_sim s n nd).
    - unfold stops, s'. cbn [log with_log with_node with_nodes]. rewrite sumz_app. cbn. lia.
    - intros t' m pc' _ Ht' Ho. unfold s'. cbn. apply lookup_insert_ne. intros ->.
      destruct (owned _ _ _ _ _ _ _ I Ht' Ho) as (_ & _ & ? & _). done.
    - intros t' m p md _ _ Hm Hu. unfold s'. cbn. destruct (decide (n = m)) as [->|].
      + exists (set_status EXECUTED nd). rewrite lookup_insert_eq. rewrite Hn in Hm. by injection Hm as ->.
      + exists md. by rewrite lookup_insert_ne.
    - apply lookup_lt_Some in Ht. lia. }
  subst s'. pose proof I as I0.
  parts I; rewrite ?(pending_same _ n nd), ?taken_app, ?sumz_app, ?app_nil_r by done; try done.
  - intros m. by rewrite (dom_with_node _ n nd).
  - by apply (Links_nodes a x y s n nd).
  - intros m j Hm. destruct (i_nodes0 m j Hm) as (md & e' & F1 & F2 & F3 & F4 & F5 & F6).
    unfold node_ok. cbn [nodes with_node with_nodes with_log pushed log]. destruct (decide (n = m)) as [->|Hne].
    + rewrite (number_inj a x y s m j k I0 Hm Hch). rewrite Hn in F1. injection F1 as <-.
      exists (set_status EXECUTED nd), e. rewrite lookup_insert_eq. cbn. rewrite Hi. split_and!; try done; try apply E5.
      right. split; [done|]. apply elem_of_app. right. by left.
    + exists md, e'. rewrite lookup_insert_ne by done. split_and!; try done; try apply F5.
      destruct (iterated md); [done|]. assert (j <> k) by (intros ->; by apply Hne, (node_inj a x y s n m k)).
      destruct F6 as [[? Hx]|[? Hx]]; [left|right]; (split; [done|]).
      * intros [?|Hy%list_elem_of_singleton]%elem_of_app; [done|]. congruence.
      * apply elem_of_app. by left.
  - apply (Forall_impl _ _ _ i_handles0). intros [[m w] j] (md & F1 & F2 & F3).
    unfold handle_ok. cbn [nodes with_node with_nodes with_log pool chain]. cbn [fst snd] in *. destruct (decide (n = m)) as [->|].
    + rewrite Hn in F1. injection F1 as <-. exists (set_status EXECUTED nd). rewrite lookup_insert_eq.
      split_and!; try done. intros Ew. destruct (F3 Ew) as [? _]. split; [done|]. by right.
    + exists md. rewrite lookup_insert_ne by done. done.
  - intros b. specialize (i_fifo0 b). cbn [nodes with_node with_nodes with_log pushed log chain].
    rewrite taken_app. cbn [taken flat_map taken_of app]. rewrite app_nil_r. by rewrite (pending_same _ n nd).
  - intros j w Hj. apply elem_of_app in Hj as [Hj|Hj%list_elem_of_singleton]; [|done].
    destruct (i_deliver0 j w Hj) as [? Hx]. split; [done|].
    intros [?|Hy%list_elem_of_singleton]%elem_of_app; [done|]. injection Hy as ->. apply Hnt, elem_taken. left. by exists w.
  - intros j Hj. apply elem_of_app in Hj as [Hj|Hj%list_elem_of_singleton]; [|done].
    destruct (i_skip0 j Hj) as [? Hx]. split; [done|]. apply elem_of_app. by left.
  - intros j Hj. apply elem_of_app in Hj as [Hj|Hj%list_elem_of_singleton]; [|done].
    by apply i_stopped0.
  - intros j Hj. apply elem_of_app in Hj as [Hj|Hj%list_elem_of_singleton]; [by apply i_cancelled0|].
    injection Hj as ->. by apply lookup_lt_Some in E2.
  - cbn [sumz foldr stop_event]. destruct i_stops0 as [? H2]. split; [lia|]. intros E b.
    rewrite (pending_same _ n nd) by done. apply H2. lia.
  - cbn [sumz foldr stop_event]. lia.
Qed.

Lemma cancel_ok a x y s h : BInv a x y s -> h ∈ handles s ->
  exists rc s', cancel_task h s = Go (rc, s') /\ BInv a x y s' /\ bpcs s' = bpcs s.
Proof.
  destruct h as [[n v] k]. intros I Hh.
  destruct (proj1 (Forall_forall _ _) (i_handles _ _ _ _ I) _ Hh) as (nd & Hn & _ & _). cbn [fst snd] in *.
  assert (Es : with_node s n nd = s).
  { unfold with_node. rewrite insert_id by done. by destruct s. }
  unfold cancel_task, node. rewrite Hn. unfold cancel.
  destruct (Z.eqb_spec (version nd) v) as [Ev|]; cbn [negb]; [|rewrite Es; by exists (-1), s].
  destruct (status nd) eqn:Hs; cbn [Z.eqb]; rewrite ?Es; [|by exists 1, s|by exists (-1), s].
  exists 0. eexists. split; [done|]. split; [by apply (cancel_unexecuted_ok a x y s n k nd v)|done].
Qed.

(** *** An entry is taken *)

Lemma pending_app (nds : gmap nat (TaskNode T)) l1 l2 b : pending nds (l1 ++ l2) b = pending nds l1 b ++ pending nds l2 b.
Proof. unfold pending. by rewrite List.filter_app, map_app. Qed.

Lemma pending_none (nds : gmap nat (TaskNode T)) l b : (forall p, p ∈ l -> waits nds b p = false) -> pending nds l b = [].
Proof.
  intros H. unfold pending. induction l as [|p l IH]; [done|]. cbn [List.filter]. rewrite (H p) by left.
  apply IH. intros p' Hp. apply H. by right.
Qed.

Lemma pending_cons (nds : gmap nat (TaskNode T)) p l b : pending nds (p :: l) b = (if waits nds b p then [p.2] else []) ++ pending nds l b.
Proof. unfold pending. cbn [List.filter]. by destruct (waits nds b p). Qed.

Definition marked (nd nd' : TaskNode T) : Prop :=
  version nd' = version nd /\ stop_task nd' = stop_task nd /\ high_priority nd' = high_priority nd /\
  next nd' = next nd /\ q nd' = q nd /\ task_mem nd' = task_mem nd /\ iterated nd' = true /\ status nd' <> UNEXECUTED.

Lemma pending_mark a x y s i n k nd nd' : BInv a x y s -> chain s !! i = Some (n, k) -> nodes s !! n = Some nd ->
  iterated nd = false -> marked nd nd' -> passed s (high_priority nd) i ->
  pending (nodes s) (chain s) (high_priority nd) = k :: pending (<[n := nd']> (nodes s)) (chain s) (high_priority nd) /\
  forall b, b <> high_priority nd -> pending (<[n := nd']> (nodes s)) (chain s) b = pending (nodes s) (chain s) b.
Proof.
  intros I Hc Hn Hi (_ & _ & M3 & _ & _ & _ & M7 & _) Hp.
  assert (Hw : forall m j b, (m, j) ∈ chain s -> m <> n -> waits (<[n := nd']> (nodes s)) b (m, j) = waits (nodes s) b (m, j)).
  { intros m j b _ Hne. unfold waits. cbn. by rewrite lookup_insert_ne. }
  assert (Hne : forall j m l, chain s !! j = Some (m, l) -> j <> i -> m <> n).
  { intros j m l Hj Hji ->. apply Hji. apply (cn_inj a x y s j i n I); apply cn_lookup; eauto. }
  assert (Hn0 : waits (nodes s) (high_priority nd) (n, k) = true) by (unfold waits; cbn; by rewrite Hn, Hi, eqb_reflx).
  assert (Hn1 : forall b, waits (<[n := nd']> (nodes s)) b (n, k) = false)
    by (intros b; unfold waits; cbn; by rewrite lookup_insert_eq, M7).
  assert (Hpre : forall b, pending (<[n := nd']> (nodes s)) (take i (chain s)) b = pending (nodes s) (take i (chain s)) b).
  { intros b. apply pending_ext. intros m j Hm. apply list_elem_of_lookup in Hm as [j' Hj'].
    apply lookup_take_Some in Hj' as [Hj' ?]. apply Hw; [by eapply list_elem_of_lookup_2|]. eapply Hne; [done|lia]. }
  assert (Hpost : forall b, pending (<[n := nd']> (nodes s)) (drop (S i) (chain s)) b = pending (nodes s) (drop (S i) (chain s)) b).
  { intros b. apply pending_ext. intros m j Hm. apply list_elem_of_lookup in Hm as [j' Hj'].
    rewrite lookup_drop in Hj'. apply Hw; [by eapply list_elem_of_lookup_2|]. eapply Hne; [done|lia]. }
  rewrite <-(take_drop_middle (chain s) i (n, k) Hc). split.
  - rewrite !pending_app, !pending_cons, Hn0, Hn1, Hpre, Hpost.
    assert (pending (nodes s) (take i (chain s)) (high_priority nd) = []) as ->; [|done].
    apply pending_none. intros [m j] Hm. apply list_elem_of_lookup in Hm as [j' Hj'].
    apply lookup_take_Some in Hj' as [Hj' ?]. unfold waits. cbn. destruct (nodes s !! m) as [md|] eqn:Em; [|done].
    destruct (Bool.eqb (high_priority md) (high_priority nd)) eqn:Eb; [|by rewrite andb_false_r].
    apply eqb_prop in Eb. rewrite (Hp j' m md); try done. apply cn_lookup. eauto.
  - intros b Hb. rewrite !pending_app, !pending_cons, Hpre, Hpost, Hn1. do 2 f_equal.
    unfold waits. cbn. rewrite Hn. destruct (Bool.eqb (high_priority nd) b) eqn:Eb; [|by rewrite andb_false_r].
    apply eqb_prop in Eb. congruence.
Qed.

Definition event_ok s pc pc' n k (nd : TaskNode T) (ev : event T) : Prop :=
  match ev with
  | Deliver j v => j = k /\ v = task_mem nd /\ stop_task nd = false /\ status nd = UNEXECUTED /\ ending pc' = ending pc
  | Skip j => j = k /\ stop_task nd = false /\ status nd <> UNEXECUTED /\ ending pc' = ending pc
  | Stopped j => j = k /\ stop_task nd = true /\ chain s = [(n, k)] /\ ending pc' = ending pc + 1
  | Cancelled _ => False
  end.

Lemma event_facts s pc pc' n k nd ev : event_ok s pc pc' n k nd ev ->
  taken_of ev = [k] /\ (forall j, ev <> Cancelled j) /\ ending pc' = ending pc + stop_event ev /\
  (stop_event ev = 0 \/ chain s = [(n, k)]).
Proof.
  destruct ev; cbn; intros; destruct_and?; subst; split_and!; try done; try lia; try (by left); by right.
Qed.

Lemma limbo_mark (nds : gmap nat (TaskNode T)) m n nd nd' : nds !! n = Some nd -> iterated nd = false ->
  limbo nds m -> limbo (<[n := nd']> nds) m.
Proof.
  intros H Hi (md & Hm & F). exists md. destruct (decide (n = m)) as [->|]; [|by rewrite lookup_insert_ne].
  rewrite H in Hm. injection Hm as ->. destruct F as [? _]. congruence.
Qed.

(** The other threads, when the thread that executes tasks changes a node of the
    list but not its next pointer. *)
Lemma others_ok a x y s t pc n nd nd' c' a' x' y' s' :
  BInv a x y s -> bpcs s !! t = Some pc -> token pc = 1 -> n ∈ cn s -> nodes s !! n = Some nd ->
  next nd' = next nd -> nodes s' = <[n := nd']> (nodes s) -> cn s' = cn s -> c' = cn s ->
  forall t' p, t' <> t -> bpcs s !! t' = Some p -> pc_ok a' x' y' s' p.
Proof.
  intros I H Ht Hc Hn Hnx En Ec _ t' p Hne Hp. unfold pc_ok.
  pose proof (token_unique a x y s t t' pc p I H Hp Ht Hne) as H0. rewrite decide_False by lia.
  pose proof (i_pcs _ _ _ _ I t' p Hp) as Hok. unfold pc_ok in Hok. rewrite decide_False in Hok by lia.
  rewrite Ec, En. apply (other_keep (nodes s) (cn s)); try done.
  - intros m Ho. apply lookup_insert_ne. intros ->. destruct (owned _ _ _ _ _ _ _ I Hp Ho) as (_ & _ & ? & _). done.
  - intros m q i md _ Hi Hq Hm Hu. exists i. destruct (decide (n = m)) as [->|].
    + exists nd'. rewrite lookup_insert_eq. split_and!; try done. congruence.
    + exists md. rewrite lookup_insert_ne by done. done.
Qed.

Lemma mark_ok a x y s t pc pc' i n k nd nd' ev :
  BInv a x y s -> bpcs s !! t = Some pc -> token pc = 1 -> token pc' = 1 -> chain s !! i = Some (n, k) ->
  nodes s !! n = Some nd -> iterated nd = false -> marked nd nd' -> passed s (high_priority nd) i ->
  event_ok s pc pc' n k nd ev -> pushes pc' = pushes pc -> pushes_stop pc' = pushes_stop pc ->
  waking pc' = waking pc -> freeing pc' = freeing pc -> (forall m, owns m pc' = owns m pc) ->
  counted pc' = counted pc + b2z (high_priority nd) ->
  let s' := at_pc (with_log (with_node s n nd') ev) t pc' in
  pc_ok a x y s' pc' -> BInv a x y s'.
Proof.
  intros I H Ht Ht' Hc Hn Hi M Hp He W1 W2 W3 W4 W5 W6 s' Hok.
  assert (Hch : (n, k) ∈ chain s) by by eapply list_elem_of_lookup_2.
  assert (Hin : n ∈ cn s) by (apply elem_cn; by exists k).
  assert (Hl : not_link pc) by by destruct pc.
  destruct (event_facts _ _ _ _ _ _ _ He) as (E1 & E2 & E3 & E4).
  destruct (waiting_not_stopped _ _ _ _ _ _ _ I Hch Hn Hi) as [Hs0 Hs1].
  destruct (pending_mark _ _ _ _ _ _ _ _ _ I Hc Hn Hi M Hp) as [P1 P2].
  destruct (i_nodes _ _ _ _ I n k Hch) as (md & e & F1 & F2 & F3 & F4 & F5 & F6).
  rewrite Hn in F1. injection F1 as <-. rewrite Hi in F6. destruct M as (M1 & M2 & M3 & M4 & M5 & M6 & M7 & M8).
  assert (K : forall t' p, t' <> t -> bpcs s !! t' = Some p -> pc_ok a x y s' p)
    by (by apply (others_ok a x y s t pc n nd nd' (cn s))).
  assert (J : not (exists v, pc' = JBlocked v)) by (by intros [v ->]).
  pose proof I as I0. subst s'.
  parts I; rewrite ?taken_app, ?sumz_app, ?(sumz_insert _ _ _ _ _ H), ?W1, ?W2, ?W3, ?W4, ?Ht, ?Ht'; try done; try lia.
  - intros m. rewrite (dom_with_node _ n nd), (sumz_insert _ _ _ _ _ H), W5 by done. specialize (i_usage0 m). lia.
  - apply (Links_pcs a x y (with_node s n nd')); try done; [|by apply (Links_nodes a x y s n nd)].
    exact (fun m p => pending_link_move s t pc pc' m p H Hl).
  - intros m j Hm. destruct (i_nodes0 m j Hm) as (md & e' & G1 & G2 & G3 & G4 & G5 & G6).
    unfold node_ok. cbn [nodes with_node with_nodes with_log at_pc with_pcs pushed log]. destruct (decide (n = m)) as [->|Hne].
    + rewrite (number_inj a x y s m j k I0 Hm Hch). exists nd', e. rewrite lookup_insert_eq, M7. split_and!; congruence.
    + exists md, e'. rewrite lookup_insert_ne by done. split_and!; try done; try apply G5.
      destruct (iterated md); [done|].
      destruct G6 as [[? Hx]|[? Hx]]; [left|right]; (split; [done|]).
      * intros [?|Hy%list_elem_of_singleton]%elem_of_app; [done|]. by apply (E2 j).
      * apply elem_of_app. by left.
  - intros t' p Hp'. apply list_lookup_insert_Some in Hp' as [(-> & -> & _)|[Hne Hp']]; [exact Hok|].
    by apply (K t' p).
  - apply (Forall_impl _ _ _ i_handles0). intros [[m w] j] (md & G1 & G2 & G3).
    unfold handle_ok. cbn [nodes with_node with_nodes with_log at_pc with_pcs pool chain]. cbn [fst snd] in *.
    destruct (decide (n = m)) as [->|].
    + rewrite Hn in G1. injection G1 as <-. exists nd'. rewrite lookup_insert_eq, M1.
      split_and!; try done. intros Ew. destruct (G3 Ew) as [? _]. split; [done|]. by right.
    + exists md. rewrite lookup_insert_ne by done. done.
  - intros b. specialize (i_fifo0 b). cbn [nodes with_node with_nodes with_log at_pc with_pcs pushed log chain].
    rewrite taken_app. cbn [taken flat_map]. rewrite app_nil_r, E1, List.filter_app, i_fifo0, <-app_assoc. f_equal.
    cbn [List.filter]. destruct (decide (b = high_priority nd)) as [->|Hb].
    + rewrite P1. by rewrite (node_class a x y s n k nd I0 Hch Hn).
    + rewrite (P2 b Hb). unfold in_class. rewrite F2, <-F4.
      destruct (Bool.eqb (high_priority nd) b) eqn:Eb; [|done]. apply eqb_prop in Eb. congruence.
  - rewrite W6, i_high0. destruct (high_priority nd); cbn [b2z].
    + rewrite P1. rewrite zlen_cons. lia.
    + rewrite (P2 true) by done. lia.
  - intros Hcl. specialize (i_closing0 Hcl). lia.
  - intros j v Hj. apply elem_of_app in Hj as [Hj|Hj%list_elem_of_singleton].
    + destruct (i_deliver0 j v Hj) as [? Hx]. split; [done|].
      intros [?|Hy%list_elem_of_singleton]%elem_of_app; [done|]. by apply (E2 j).
    + subst ev. cbn in He. destruct He as (-> & -> & He1 & He2 & _). split.
      * exists e. split_and!; [done|done|]. intros Ee. rewrite F3 in Ee. apply F5 in Ee. congruence.
      * destruct F6 as [[_ Hx]|[Hx _]]; [|congruence].
        intros [?|Hy%list_elem_of_singleton]%elem_of_app; done.
  - intros j Hj. apply elem_of_app in Hj as [Hj|Hj%list_elem_of_singleton].
    + destruct (i_skip0 j Hj) as [? Hx]. split; [done|]. apply elem_of_app. by left.
    + subst ev. cbn in He. destruct He as (-> & He1 & He2 & _). split.
      * exists e. split; [done|]. intros Ee. apply F5 in Ee. congruence.
      * destruct F6 as [[? _]|[_ Hx]]; [done|]. apply elem_of_app. by left.
  - intros j Hj. apply elem_of_app in Hj as [Hj|Hj%list_elem_of_singleton]; [by destruct (Hs1 j)|].
    subst ev. cbn in He. destruct He as (-> & He1 & _). split; [exists e; split; [done|by apply F5]|].
    cbn. by rewrite last_snoc.
  - intros j Hj. apply elem_of_app in Hj as [Hj|Hj%list_elem_of_singleton]; [by apply i_cancelled0|by destruct (E2 j)].
  - cbn [sumz foldr]. assert (0 <= stop_event ev <= 1) by (destruct ev; cbn; lia). split; [lia|]. intros Es b.
    destruct E4 as [E4|E4]; [lia|]. rewrite E4. apply pending_none. intros p Hp'%list_elem_of_singleton. subst p.
    unfold waits. cbn. by rewrite lookup_insert_eq, M7.
  - cbn [sumz foldr]. lia.
  - apply one_linker_move; [by destruct pc'|done].
  - intros t' v Hp'. apply list_lookup_insert_Some in Hp' as [(-> & Hv & _)|[Hne Hp']]; [by destruct J; exists v|].
    destruct (i_joiners0 t' v Hp') as [?|?]; [by left|right; lia].
Qed.

(** *** A node is linked *)

Lemma link_ok_step a x y s t n p : BInv a x y s -> bpcs s !! t = Some (BLink n p) ->
  exists s', link s t n p = Go s' /\ BInv a x y s'.
Proof.
  intros I H. pose proof (i_pcs _ _ _ _ I t _ H) as (i & nd & Hi & Hp & Hn & Hu).
  unfold link, node. rewrite Hn. eexists. split; [done|]. set (nd' := set_next _ nd). set (s' := at_pc _ _ _).
  assert (Hin : n ∈ cn s) by by eapply list_elem_of_lookup_2.
  assert (K : forall t' pc, t' <> t -> bpcs s !! t' = Some pc -> pc_ok a x y s' pc).
  { apply (keep_pcs a x y s s' t I); try done; [|by left|..].
    - intros m md _ Hm. by apply (with_node_sim s n nd).
    - intros t' m pc' _ Ht' Ho. apply lookup_insert_ne. intros ->.
      destruct (owned _ _ _ _ _ _ _ I Ht' Ho) as (_ & _ & ? & _). done.
    - intros t' m q md Hne Ht' Hm Hum. exists md. split; [|done]. unfold s'. cbn.
      rewrite lookup_insert_ne; [done|]. intros ->. apply Hne. by apply (i_linkers _ _ _ _ I t' t m q p). }
  pose proof I as I0. subst s'.
  parts I; rewrite ?(pending_same _ n nd), ?(sumz_insert _ _ _ _ _ H) by done; cbn [token pushes pushes_stop counted ending waking freeing];
    try done; try lia.
  - intros m. rewrite (dom_with_node _ n nd), (sumz_insert _ _ _ _ _ H) by done. cbn [owns]. rewrite <-i_usage0. lia.
  - destruct i_links0 as (L1 & L2 & L3 & L4). split_and!; try apply L1; try done.
    intros j m md Hj Hm. cbn [nodes with_node with_nodes at_pc with_pcs bpcs] in *.
    change (cn (at_pc (with_node s n nd') t (BDone 0))) with (cn s) in *. destruct (decide (n = m)) as [->|Hne].
    + rewrite lookup_insert_eq in Hm. injection Hm as <-. assert (j = S i) as -> by by apply (cn_inj a x y s j (S i) m I0).
      specialize (L4 (S i) m nd Hi Hn). unfold link_ok in *. rewrite Hu in L4.
      destruct (decide _); [done|]. destruct (decide _); [done|]. left. cbn. by rewrite Hp.
    + rewrite lookup_insert_ne in Hm by done. specialize (L4 j m md Hj Hm). unfold link_ok in *.
      destruct (decide _); [done|]. destruct (decide _); [done|]. destruct L4 as [L4|(L4 & t1 & p1 & E1 & E2)]; [by left|].
      right. split; [done|]. exists t1, p1. split; [done|]. rewrite list_lookup_insert_ne; [done|].
      intros ->. rewrite H in E2. injection E2 as ->. done.
  - intros m k Hm. destruct (i_nodes0 m k Hm) as (md & e & E1 & E2 & F).
    unfold node_ok. cbn [nodes with_node with_nodes at_pc with_pcs pushed log]. destruct (decide (n = m)) as [->|].
    + rewrite Hn in E1. injection E1 as <-. exists nd', e. rewrite lookup_insert_eq. done.
    + exists md, e. rewrite lookup_insert_ne by done. done.
  - intros t' pc Hp'. apply list_lookup_insert_Some in Hp' as [(_ & <- & _)|[Hne Hp']];
      [by apply pc_ok_other|by apply (K t' pc)].
  - apply (Forall_impl _ _ _ i_handles0). intros [[m v] k] (md & E1 & E2 & E3).
    unfold handle_ok. cbn [nodes with_node with_nodes at_pc with_pcs pool chain]. cbn [fst snd] in *. destruct (decide (n = m)) as [->|].
    + rewrite Hn in E1. injection E1 as <-. exists nd'. rewrite lookup_insert_eq. done.
    + exists md. rewrite lookup_insert_ne by done. done.
  - intros b. specialize (i_fifo0 b). cbn [nodes with_node with_nodes at_pc with_pcs pushed log chain]. by rewrite (pending_same _ n nd).
  - intros Hc. specialize (i_closing0 Hc). lia.
  - destruct i_stops0 as [? H2]. split; [done|]. intros E b. rewrite (pending_same _ n nd) by done. by apply H2.
  - by apply one_linker_move.
  - intros t' v Hp'. apply list_lookup_insert_Some in Hp' as [(_ & ? & _)|[Hne Hp']]; [done|].
    destruct (i_joiners0 t' v Hp') as [?|?]; [by left|right; lia].
Qed.

(** *** A node is pushed *)

Lemma is_stop_range (e : entry T) : 0 <= is_stop e <= 1.
Proof. unfold is_stop. case_match; lia. Qed.
Lemma pushes_nonneg pc : 0 <= pushes pc.
Proof. unfold pushes. case_match; try lia; pose proof (is_stop_range e); lia. Qed.
Lemma pushes_stop_nonneg pc : 0 <= pushes_stop pc.
Proof. unfold pushes_stop. case_match; try lia; pose proof (is_stop_range e); lia. Qed.

(** While something is to be pushed, the stop task was not. *)
Lemma pusher_first a x y s t pc : BInv a x y s -> bpcs s !! t = Some pc -> pushes pc + pushes_stop pc = 1 ->
  (forall k e, pushed s !! k = Some e -> e_task e <> None) /\ stops s = 0 /\ forall k, Stopped k ∉ log s.
Proof.
  intros I H Hp. pose proof (sumz_elem pushes (bpcs s) t pc pushes_nonneg H).
  pose proof (sumz_elem pushes_stop (bpcs s) t pc pushes_stop_nonneg H).
  pose proof (sumz_nonneg is_stop (pushed s) (fun e : entry T => proj1 (is_stop_range e))).
  pose proof (sumz_nonneg pushes_stop (bpcs s) pushes_stop_nonneg).
  pose proof (pushes_nonneg pc). pose proof (pushes_stop_nonneg pc).
  pose proof (i_closed _ _ _ _ I) as Hc. pose proof (i_closing _ _ _ _ I) as Hc2. pose proof (b2z_range (closed s)).
  assert (Hz : sumz is_stop (pushed s) = 0) by (destruct (closed s); [specialize (Hc2 eq_refl)|cbn in Hc]; cbn in *; lia).
  assert (Ht : forall k e, pushed s !! k = Some e -> e_task e <> None).
  { intros k e He E. pose proof (sumz_elem is_stop (pushed s) k e (fun e : entry T => proj1 (is_stop_range e)) He) as Hs.
    unfold is_stop in Hs at 1. rewrite E in Hs. lia. }
  assert (Hs : forall k, Stopped k ∉ log s).
  { intros k Hk. destruct (i_stopped _ _ _ _ I k Hk) as [(e & He & E) _]. by apply (Ht k e). }
  split_and!; [done| |done]. destruct (decide (1 <= stops s)) as [E|E].
  - apply stops_elem in E as [k Hk]. by destruct (Hs k).
  - assert (0 <= stops s) by (apply sumz_nonneg; by intros []). lia.
Qed.

Lemma taken_lt a x y s k : BInv a x y s -> k ∈ taken (log s) -> (k < length (pushed s))%nat.
Proof.
  intros I Hk. apply elem_taken in Hk as [[v H]|[H|H]];
    [apply (i_deliver _ _ _ _ I) in H|apply (i_skip _ _ _ _ I) in H|apply (i_stopped _ _ _ _ I) in H];
    destruct H as [(e & He & _) _]; by apply lookup_lt_Some in He.
Qed.

Lemma in_class_app (es : list (entry T)) e b k : (k < length es)%nat -> in_class (es ++ [e]) b k = in_class es b k.
Proof. intros H. unfold in_class. by rewrite lookup_app_l. Qed.

Lemma fifo_push a x y s n e nds' : BInv a x y s ->
  (forall b, pending nds' (chain s) b = pending (nodes s) (chain s) b) ->
  (exists nd, nds' !! n = Some nd /\ iterated nd = false /\ high_priority nd = e_high e) ->
  forall b, List.filter (in_class (pushed s ++ [e]) b) (seq 0 (length (pushed s ++ [e]))) =
    List.filter (in_class (pushed s ++ [e]) b) (taken (log s)) ++ pending nds' (chain s ++ [(n, length (pushed s))]) b.
Proof.
  intros I Hp (nd & Hn & Hi & Hh) b. rewrite length_app. cbn [length]. rewrite seq_app, List.filter_app.
  rewrite pending_app, Hp, app_assoc.
  assert (E : forall l, (forall k, k ∈ l -> (k < length (pushed s))%nat) ->
            List.filter (in_class (pushed s ++ [e]) b) l = List.filter (in_class (pushed s) b) l).
  { intros l Hl. apply List.filter_ext_in. intros k Hk. apply in_class_app, Hl. by apply list_elem_of_In. }
  rewrite (E (seq 0 (length (pushed s)))), (E (taken (log s))).
  - rewrite (i_fifo _ _ _ _ I b). f_equal. cbn [seq List.filter]. rewrite pending_cons.
    assert (in_class (pushed s ++ [e]) b (length (pushed s)) = Bool.eqb (e_high e) b) as Ek
      by (unfold in_class; by rewrite lookup_app_r, Nat.sub_diag by lia).
    rewrite Nat.add_0_l, Ek. unfold waits. cbn. by rewrite Hn, Hi, Hh, app_nil_r.
  - intros k Hk. by apply (taken_lt a x y s k I).
  - intros k Hk. apply elem_of_seq in Hk. lia.
Qed.

(** What an exchange of _head leaves behind, the next pointer aside. *)
Lemma pushed_ok a x y a' x' y' s t n e nd nd' pc' :
  let s' := at_pc (with_node (with_push (with_head s (Some n)) n nd) n nd') t pc' in
  BInv a x y s -> bpcs s !! t = Some (BExchange n e) -> nodes s !! n = Some nd ->
  version nd' = version nd -> status nd' = status nd -> iterated nd' = iterated nd ->
  high_priority nd' = high_priority nd -> stop_task nd' = stop_task nd -> task_mem nd' = task_mem nd ->
  token pc' = (match chain s with [] => 1 | _ => 0 end) -> (forall m, owns m pc' = 0) ->
  pushes pc' = 0 -> pushes_stop pc' = 0 -> counted pc' = 0 -> ending pc' = 0 -> waking pc' = 0 -> freeing pc' = 0 ->
  (forall v, pc' <> JBlocked v) -> Links a' x' y' s' -> one_linker (bpcs s') ->
  (forall t' pc, bpcs s' !! t' = Some pc -> pc_ok a' x' y' s' pc) ->
  BInv a' x' y' s'.
Proof.
  intros s' I H Hn D1 D2 D3 D4 D5 D6 W1 W2 W3 W4 W5 W6 W7 W8 HJ HL HU HP.
  pose proof (i_pcs _ _ _ _ I t _ H) as (md & Em & F1 & F2 & F3 & F4 & F5 & F6 & F7).
  rewrite Hn in Em. injection Em as <-.
  destruct (owned a x y s t _ n I H) as (_ & Hpool & Hncn & Hne); [cbn; by rewrite bool_decide_eq_true_2|].
  assert (He : mkEntry (task_mem nd) (high_priority nd) = e) by (destruct e; cbn in *; congruence).
  destruct (pusher_first a x y s t _ I H) as (Hnt & Hs0 & Hns); [cbn; lia|].
  assert (Hlt : forall j, (exists m, (m, j) ∈ chain s) -> (j < length (pushed s))%nat).
  { intros j [m Hm]. destruct (i_nodes _ _ _ _ I m j Hm) as (_ & e1 & _ & E & _). by apply lookup_lt_Some in E. }
  pose proof I as I0. subst s'.
  parts I; rewrite ?He, ?sumz_app, ?(sumz_insert _ _ _ _ _ H), ?W1, ?W3, ?W4, ?W5, ?W6, ?W7, ?W8;
    cbn [token pushes pushes_stop counted ending waking freeing]; try done; try lia.
  - intros m. rewrite (dom_with_node _ n nd), (sumz_insert _ _ _ _ _ H), sumz_app, W2 by done.
    specialize (i_usage0 m). cbn [owns sumz foldr]. unfold uses at 2. cbn [fst]. lia.
  - intros i j p p' Hij Hi Hj. apply lookup_app_Some in Hi as [Hi|[Hi1 Hi2]]; apply lookup_app_Some in Hj as [Hj|[Hj1 Hj2]].
    + by apply (i_numbers0 i j).
    + apply list_lookup_singleton_Some in Hj2 as [_ <-]. cbn. apply Hlt. exists p.1. destruct p. by eapply list_elem_of_lookup_2.
    + apply lookup_lt_Some in Hj. lia.
    + apply list_lookup_singleton_Some in Hi2 as [? _]. apply list_lookup_singleton_Some in Hj2 as [? _]. lia.
  - unfold cn. cbn [chain with_node with_nodes with_push with_head at_pc with_pcs]. rewrite fmap_app.
    symmetry. apply (last_snoc n).
  - rewrite i_token0. destruct (chain s); cbn; lia.
  - intros m j Hm. unfold node_ok. cbn [nodes with_node with_nodes with_push with_head at_pc with_pcs pushed log]. rewrite He.
    apply elem_of_app in Hm as [Hm|Hm%list_elem_of_singleton].
    + destruct (i_nodes0 m j Hm) as (md & e1 & E1 & E2 & E3). exists md, e1.
      rewrite lookup_insert_ne by (intros ->; apply Hncn, elem_cn; by exists j).
      split; [done|]. split; [|done]. rewrite lookup_app_l; [done|]. by apply lookup_lt_Some in E2.
    + injection Hm as -> ->. exists nd', e. rewrite lookup_insert_eq, lookup_app_r, Nat.sub_diag by lia.
      rewrite D3, F4. split_and!; try done; try congruence. left. split; [congruence|].
      intros Hx. apply i_cancelled0 in Hx. lia.
  - assert (forall h, handle_ok s h -> handle_ok (at_pc (with_node (with_push (with_head s (Some n)) n nd) n nd') t pc') h) as Hh.
    { intros [[m w] j] (md & E1 & E2 & E3). unfold handle_ok.
      cbn [nodes with_node with_nodes with_push with_head at_pc with_pcs pool chain]. cbn [fst snd] in *.
      assert (exists md', <[n:=nd']> (nodes s) !! m = Some md' /\ version md' = version md /\ status md' = status md) as (md' & E4 & E5 & E6).
      { destruct (decide (n = m)) as [->|]; [|exists md; by rewrite lookup_insert_ne].
        exists nd'. rewrite lookup_insert_eq. rewrite Hn in E1. by injection E1 as ->. }
      exists md'. rewrite E5, E6. split_and!; try done. intros Ew. destruct (E3 Ew) as [? [?|?]]; split; try done; [|by right].
      left. apply elem_of_app. by left. }
    assert (Forall (handle_ok (at_pc (with_node (with_push (with_head s (Some n)) n nd) n nd') t pc')) (handles s)) as Hf
      by by apply (Forall_impl _ _ _ i_handles0).
    destruct (task_mem nd); [|done]. apply Forall_app. split; [done|]. apply Forall_singleton.
    exists nd'. cbn. rewrite lookup_insert_eq, D1. split_and!; [done|lia|]. intros _. split; [done|].
    left. apply elem_of_app. right. by apply list_elem_of_singleton.
  - intros b. cbn [nodes with_node with_nodes with_push with_head at_pc with_pcs pushed log chain]. rewrite He.
    apply (fifo_push a x y s); [done| |].
    + intros b'. by apply (pending_same _ n nd).
    + exists nd'. rewrite lookup_insert_eq. split_and!; congruence.
  - rewrite i_high0, pending_app, zlen_app, (pending_same _ n nd), pending_cons by done. unfold waits. cbn [fst].
    rewrite lookup_insert_eq, D3, F4, D4, F2. unfold zlen. destruct (e_high e); cbn; lia.
  - cbn [sumz foldr]. lia.
  - intros Hc. specialize (i_closing0 Hc). pose proof (sumz_elem pushes (bpcs s) t _ pushes_nonneg H) as Hx.
    cbn in Hx. pose proof (is_stop_range e). lia.
  - intros j e1 Hj Ht. rewrite length_app. cbn [length]. apply lookup_app_Some in Hj as [Hj|[Hj1 Hj2]].
    + by destruct (Hnt j e1 Hj).
    + apply list_lookup_singleton_Some in Hj2 as [Hj2 <-]. split; [lia|]. by apply F7.
  - intros j v Hj. destruct (i_deliver0 j v Hj) as [(e1 & E1 & E2) ?]. split; [|done]. exists e1.
    rewrite lookup_app_l by (by apply lookup_lt_Some in E1). done.
  - intros j Hj. destruct (i_skip0 j Hj) as [(e1 & E1 & E2) ?]. split; [|done]. exists e1.
    rewrite lookup_app_l by (by apply lookup_lt_Some in E1). done.
  - intros j Hj. by destruct (Hns j).
  - intros j Hj. rewrite length_app. apply i_cancelled0 in Hj. lia.
  - intros t' v Hp'. apply list_lookup_insert_Some in Hp' as [(_ & Hv & _)|[Hne' Hp']]; [by destruct (HJ v)|].
    destruct (i_joiners0 t' v Hp') as [?|?]; [by left|right; lia].
  - intros Hb. pose proof (i_ending _ _ _ _ I0) as He1. pose proof (sumz_nonneg ending (bpcs s) (fun p => proj1 (ending_nonneg p))).
    unfold bumped, stops in He1. rewrite Hb in He1. cbn in He1. lia.
Qed.

(** What the others see of an exchange. *)
Lemma push_others a x y s t n e nd nd' pc' t' pc :
  let s' := at_pc (with_node (with_push (with_head s (Some n)) n nd) n nd') t pc' in
  BInv a x y s -> bpcs s !! t = Some (BExchange n e) -> nodes s !! n = Some nd ->
  t' <> t -> bpcs s !! t' = Some pc -> pc_ok a x y s' pc.
Proof.
  intros s' I H Hn Hne Hp.
  destruct (owned a x y s t _ n I H) as (_ & _ & Hncn & Hno); [cbn; by rewrite bool_decide_eq_true_2|].
  destruct (pusher_first a x y s t _ I H) as (_ & Hs0 & _); [cbn; lia|].
  refine (keep_pcs a x y s s' t I _ _ _ (or_intror Hs0) _ _ t' pc Hne Hp); try done.
  - intros i m Hi. unfold s', cn. cbn [chain with_node with_nodes with_push with_head at_pc with_pcs].
    rewrite fmap_app, lookup_app_l; [done|]. by apply lookup_lt_Some in Hi.
  - intros m md Hm Em. exists md. unfold s'. cbn. rewrite lookup_insert_ne by (by intros ->). done.
  - intros t1 m pc1 Ht1 H1 Ho. unfold s'. cbn. apply lookup_insert_ne. intros ->.
    specialize (Hno t1 pc1 Ht1 H1). lia.
  - intros t1 m p md Ht1 H1 Em Hu. exists md. split; [|done]. unfold s'. cbn. rewrite lookup_insert_ne; [done|].
    intros ->. apply Hncn. pose proof (i_pcs _ _ _ _ I t1 _ H1) as (i & ? & Hi & _).
    by eapply list_elem_of_lookup_2.
Qed.

Lemma link_ok_app (pcs pcs' : list (bpc T)) c l a x y i n nx : (i < length c)%nat -> (a <= x <= y)%nat -> (y <= length c)%nat ->
  (forall p, pending_link pcs n p -> pending_link pcs' n p) ->
  link_ok pcs c a x y i n nx -> link_ok pcs' (c ++ l) a x y i n nx.
Proof.
  intros Hi Ha Hy Hp. unfold link_ok. destruct (decide _).
  - intros ->. destruct (decide _); [|done]. by rewrite lookup_app_l by lia.
  - destruct (decide _).
    + intros ->. destruct (decide _); [|done]. by rewrite lookup_app_l by lia.
    + rewrite lookup_app_l by lia. intros [?|[? ?]]; [by left|right]. split; [done|by apply Hp].
Qed.

Lemma exchange_ok a x y s t n e : BInv a x y s -> bpcs s !! t = Some (BExchange n e) ->
  exists s' a' x' y', exchange s t n = Go s' /\ BInv a' x' y' s'.
Proof.
  intros I H. pose proof (i_pcs _ _ _ _ I t _ H) as (nd & Hn & F1 & F2 & F3 & F4 & F5 & F6 & F7).
  destruct (owned a x y s t _ n I H) as (_ & Hpool & Hncn & Hne); [cbn; by rewrite bool_decide_eq_true_2|].
  unfold exchange, node. rewrite Hn, (i_head _ _ _ _ I). destruct (last (cn s)) as [p|] eqn:Hlast.
  - eexists _, a, x, y. split; [done|].
    assert (Es : with_push (with_head s (Some n)) n nd = with_node (with_push (with_head s (Some n)) n nd) n nd)
      by (unfold with_node, with_nodes; cbn; by rewrite insert_id).
    rewrite Es. pose proof (i_links _ _ _ _ I) as (L1 & L2 & L3 & L4).
    assert (Hc : chain s <> []) by (intros E; unfold cn in Hlast; by rewrite E in Hlast).
    rewrite last_lookup in Hlast. assert (Hl0 : (0 < length (cn s))%nat) by (apply lookup_lt_Some in Hlast; lia).
    apply (pushed_ok a x y a x y s t n e nd nd); try done.
    + by destruct (chain s).
    + split_and!; try lia.
      * unfold cn. cbn. rewrite fmap_app, length_app. unfold cn in L2. cbn. lia.
      * intros _. apply L3. intros E. rewrite E in Hl0. cbn in Hl0. lia.
      * intros j m md Hj Hm.
        assert (Ec : cn (at_pc (with_node (with_push (with_head s (Some n)) n nd) n nd) t (BLink n p)) = cn s ++ [n])
          by (unfold cn; cbn; by rewrite fmap_app).
        rewrite Ec in *. cbn [nodes with_node with_nodes with_push with_head at_pc with_pcs bpcs] in *.
        rewrite insert_id in Hm by done. apply lookup_app_Some in Hj as [Hj|[Hj1 Hj2]].
        -- apply (link_ok_app (bpcs s)); try done; [by apply lookup_lt_Some in Hj| |by apply L4].
           intros p'. by apply (pending_link_move s t (BExchange n e)).
        -- apply list_lookup_singleton_Some in Hj2 as [Hj2 <-]. rewrite Hn in Hm. injection Hm as <-.
           unfold link_ok. rewrite decide_False by lia. rewrite decide_False by lia. right. split; [done|].
           exists t, p. rewrite list_lookup_insert_eq by (by apply lookup_lt_Some in H). split; [|done].
           rewrite lookup_app_l by lia. rewrite <-Hlast. f_equal. lia.
    + intros t1 t2 m p1 p2 H1 H2. cbn in H1, H2.
      assert (U : forall t' p', t' <> t -> bpcs s !! t' = Some (BLink m p') -> m <> n).
      { intros t' p' Ht' H' ->. apply Hncn. pose proof (i_pcs _ _ _ _ I t' _ H') as (i & ? & Hi & _).
        by eapply list_elem_of_lookup_2. }
      apply list_lookup_insert_Some in H1 as [(-> & E1 & _)|[N1 H1]];
        apply list_lookup_insert_Some in H2 as [(-> & E2 & _)|[N2 H2]]; [done|..].
      * injection E1 as -> ->. by destruct (U t2 p2 ltac:(done) H2).
      * injection E2 as -> ->. by destruct (U t1 p1 ltac:(done) H1).
      * by apply (i_linkers _ _ _ _ I t1 t2 m p1 p2).
    + intros t' pc Hp'. cbn in Hp'. apply list_lookup_insert_Some in Hp' as [(_ & <- & _)|[Hne' Hp']].
      * apply pc_ok_other; [done|]. exists (pred (length (cn s))), nd.
        assert (Ec : cn (at_pc (with_node (with_push (with_head s (Some n)) n nd) n nd) t (BLink n p)) = cn s ++ [n])
          by (unfold cn; cbn; by rewrite fmap_app).
        rewrite Ec. cbn [nodes with_node with_nodes with_push with_head at_pc with_pcs bpcs].
        rewrite insert_id by done. split_and!; try done.
        -- rewrite lookup_app_r by lia. replace (S (pred (length (cn s))) - length (cn s))%nat with O by lia. done.
        -- by rewrite lookup_app_l by lia.
      * by apply (push_others a x y s t n e nd nd (BLink n p) t' pc).
  - apply last_None in Hlast. assert (Hc : chain s = []) by (unfold cn in Hlast; by destruct (chain s)).
    eexists _, 1%nat, 1%nat, 1%nat. split; [done|].
    set (nd' := set_q (set_next (Ptr None) nd)).
    set (pc' := if in_place nd then XNew (InPlace n) (high_priority nd) else BSpawn n).
    assert (Ec : cn (at_pc (with_node (with_push (with_head s (Some n)) n nd) n nd') t pc') = [n])
      by (unfold cn; cbn; by rewrite Hc).
    apply (pushed_ok a x y 1 1 1 s t n e nd nd'); try done; try (by subst pc'; destruct (in_place nd)).
    + subst pc'. rewrite Hc. by destruct (in_place nd).
    + split_and!; try lia; rewrite Ec; [cbn; lia|].
      intros j m md Hj Hm. apply list_lookup_singleton_Some in Hj as [-> <-].
      cbn [nodes with_node with_nodes with_push with_head at_pc with_pcs] in Hm. rewrite lookup_insert_eq in Hm.
      by injection Hm as <-.
    + apply one_linker_move; [by subst pc'; destruct (in_place nd)|by apply (i_linkers _ _ _ _ I)].
    + intros t' pc Hp'. cbn in Hp'. apply list_lookup_insert_Some in Hp' as [(_ & <- & _)|[Hne' Hp']].
      * apply pc_ok_token; [by subst pc'; destruct (in_place nd)|].
        assert (A : forall P : TaskNode T -> Prop, P nd' ->
                  at_node (at_pc (with_node (with_push (with_head s (Some n)) n nd) n nd') t pc') n P).
        { intros P HP. exists nd'. split; [|done]. cbn. by rewrite lookup_insert_eq. }
        subst pc'. destruct (in_place nd) eqn:Eip.
        -- assert (stop_task nd = false) as Es.
           { destruct (stop_task nd); [|done]. destruct (F7 (proj1 F3 eq_refl)). congruence. }
           cbn [consumer_ok]. split_and!; try done.
           ++ cbn [ctx_ok]. split_and!; [by rewrite Ec|done|by apply A].
           ++ by apply A.
           ++ intros _. by apply A.
        -- cbn [consumer_ok]. split_and!; try done; [by rewrite Ec| |by apply A].
           intros md Hm Hi. cbn in Hm. rewrite lookup_insert_eq in Hm. injection Hm as <-. cbn in Hi. congruence.
      * pose proof (token_chain a x y s t' pc I Hp') as Ht0. pose proof (i_pcs _ _ _ _ I t' pc Hp') as Hok.
        pose proof (push_others a x y s t n e nd nd' pc' t' pc I H Hn (not_eq_sym Hne') Hp') as Hok'.
        unfold pc_ok in *. destruct (decide _) as [Htk|]; [by destruct (Ht0 Htk)|done].
Qed.

(** *** The thread that executes tasks changes next pointers of the list *)

Definition renext s (nds' : gmap nat (TaskNode T)) : Prop :=
  (forall m, m ∉ cn s -> nds' !! m = nodes s !! m) /\
  (forall m md, nodes s !! m = Some md -> exists nx, nds' !! m = Some (set_next nx md) /\
     (next md = UNCONNECTED -> nx = UNCONNECTED)) /\
  (forall m, nodes s !! m = None -> nds' !! m = None).

Lemma renext_refl s : renext s (nodes s).
Proof. split_and!; try done. intros m md H. exists (next md). split; [|done]. rewrite H. by destruct md. Qed.

Lemma renext_set s nds n nd nx : renext s nds -> n ∈ cn s -> nds !! n = Some nd ->
  (forall md, nodes s !! n = Some md -> next md <> UNCONNECTED) -> renext s (<[n := set_next nx nd]> nds).
Proof.
  intros (R1 & R2 & R3) Hn Hnd Hu. split_and!.
  - intros m Hm. rewrite lookup_insert_ne by (by intros ->). by apply R1.
  - intros m md Hm. destruct (decide (n = m)) as [->|]; [|rewrite lookup_insert_ne by done; by apply R2].
    rewrite lookup_insert_eq. destruct (R2 m md Hm) as (nx' & E & _). rewrite Hnd in E. injection E as ->.
    exists nx. split; [done|]. intros E. by destruct (Hu md Hm).
  - intros m Hm. rewrite lookup_insert_ne; [by apply R3|]. intros ->. rewrite R3 in Hnd by done. done.
Qed.

Lemma renext_pending s nds' ch b : renext s nds' -> pending nds' ch b = pending (nodes s) ch b.
Proof.
  intros (R1 & R2 & R3). apply pending_ext. intros n k _. unfold waits. cbn [fst].
  destruct (nodes s !! n) as [nd|] eqn:E; [|by rewrite R3].
  destruct (R2 n nd E) as (nx & -> & _). done.
Qed.

Lemma renext_ok a x y a' x' y' s t pc pc' nds' : BInv a x y s -> bpcs s !! t = Some pc ->
  token pc = 1 -> alike pc pc' -> counted pc' = counted pc -> renext s nds' ->
  let s' := at_pc (with_nodes s nds') t pc' in
  Links a' x' y' s' -> consumer_ok a' x' y' s' pc' -> BInv a' x' y' s'.
Proof.
  intros I H Ht (A1 & A2 & A3 & A4 & A5 & A6 & A7) Ac R s' HL Hok. pose proof R as (R1 & R2 & R3).
  assert (Hl : not_link pc') by (rewrite Ht in A1; by destruct pc').
  assert (HJ : forall v, pc' <> JBlocked v) by (intros v ->; cbn in A1; lia).
  assert (K : forall t' pc1, t' <> t -> bpcs s !! t' = Some pc1 -> pc_ok a' x' y' s' pc1).
  { intros t' p Hne Hp. pose proof (token_unique a x y s t t' pc p I H Hp Ht Hne) as H0.
    apply pc_ok_other; [done|]. pose proof (i_pcs _ _ _ _ I t' p Hp) as Ho. unfold pc_ok in Ho.
    rewrite decide_False in Ho by lia. apply (other_keep (nodes s) (cn s)); try done.
    - intros m Hm. apply R1. by destruct (owned a x y s t' p m I Hp Hm) as (_ & _ & ? & _).
    - intros m q i md _ Hi Hq Hm Hu. destruct (R2 m md Hm) as (nx & E & Hx). exists i, (set_next nx md).
      split_and!; try done. by apply Hx. }
  subst s'. parts I; rewrite ?(sumz_insert _ _ _ _ _ H), ?(renext_pending s), ?A1, ?A3, ?A4, ?A5, ?A6, ?A7, ?Ac by done; try done; try lia.
  - intros m. rewrite (sumz_insert _ _ _ _ _ H), A2.
    assert (bool_decide (is_Some (nds' !! m)) = bool_decide (is_Some (nodes s !! m))) as ->; [|specialize (i_usage0 m); lia].
    apply bool_decide_ext. destruct (nodes s !! m) as [md|] eqn:E; [|by rewrite R3].
    destruct (R2 m md E) as (nx & -> & _). split; by eauto.
  - intros m k Hm. destruct (i_nodes0 m k Hm) as (md & e & E1 & E2 & F). destruct (R2 m md E1) as (nx & E & _).
    exists (set_next nx md), e. done.
  - intros t' p Hp'. apply list_lookup_insert_Some in Hp' as [(-> & -> & _)|[Hne Hp']];
      [apply pc_ok_token; [lia|done]|by apply (K t' p)].
  - apply (Forall_impl _ _ _ i_handles0). intros [[m v] k] (md & E1 & E2 & E3).
    destruct (R2 m md E1) as (nx & E & _). exists (set_next nx md). done.
  - intros b. specialize (i_fifo0 b). cbn [nodes with_nodes at_pc with_pcs pushed log chain]. by rewrite (renext_pending s).
  - intros Hc. specialize (i_closing0 Hc). lia.
  - destruct i_stops0 as [? H2]. split; [done|]. intros E b. rewrite (renext_pending s) by done. by apply H2.
  - by apply one_linker_move.
  - intros t' v Hp'. apply list_lookup_insert_Some in Hp' as [(_ & Hv & _)|[Hne Hp']]; [by destruct (HJ v)|].
    destruct (i_joiners0 t' v Hp') as [?|?]; [by left|right; lia].
Qed.

(** The same without changes: [a], [x] and [y] may be seen anew. *)
Lemma move_token a x y a' x' y' s t pc pc' : BInv a x y s -> bpcs s !! t = Some pc ->
  token pc = 1 -> alike pc pc' -> counted pc' = counted pc ->
  Links a' x' y' (at_pc s t pc') -> consumer_ok a' x' y' s pc' -> BInv a' x' y' (at_pc s t pc').
Proof.
  intros I H Ht A Ac HL Hok.
  exact (renext_ok a x y a' x' y' s t pc pc' (nodes s) I H Ht A Ac (renext_refl s) HL Hok).
Qed.

End Frame.
End ExecQueueInv.
