(* ===== verification/ExecQueueSteps.v ===== *)
(** * The steps of an ExecutionQueue's tasks keep the invariant

    One lemma for each step of ExecQueue.v: it does not fail a CHECK, and the
    state after it satisfies the invariant of ExecQueueInv.v. *)

From S2P Require Import Prelude VersionedRef ExecQueue ExecQueueInv.

Module ExecQueueSteps.
Import VersionedRef ExecQueue ExecQueueInv.

Section Steps.
Context {T : Type} {V : Z}.
Implicit Types (s : queue T) (n k : nat) (nd : TaskNode T) (pc : bpc T).
#[local] Abbreviation BInv := (BInv (V := V)).
#[local] Abbreviation bumped := (bumped (V := V)).

Definition Good (o : outcome (queue T)) : Prop := exists s' a x y, o = Go s' /\ BInv a x y s'.

Lemma Good_Go a x y s : BInv a x y s -> Good (Go s).
Proof. by exists s, a, x, y. Qed.

(** ** What the thread that executes tasks knows *)

Lemma consumer a x y s t pc : BInv a x y s -> bpcs s !! t = Some pc -> token pc = 1 -> consumer_ok a x y s pc.
Proof.
  intros I H Ht. pose proof (i_pcs _ _ _ _ I t pc H) as Hok. unfold pc_ok in Hok. by rewrite decide_True in Hok by lia.
Qed.

Lemma other a x y s t pc : BInv a x y s -> bpcs s !! t = Some pc -> token pc = 0 -> other_ok (nodes s) (cn s) pc.
Proof.
  intros I H Ht. pose proof (i_pcs _ _ _ _ I t pc H) as Hok. unfold pc_ok in Hok. by rewrite decide_False in Hok by lia.
Qed.

Lemma at_index a x y s i n : BInv a x y s -> cn s !! i = Some n -> exists nd k,
  nodes s !! n = Some nd /\ chain s !! i = Some (n, k) /\ (n, k) ∈ chain s /\ node_ok s n k.
Proof.
  intros I H. apply cn_lookup in H as [k H]. pose proof (list_elem_of_lookup_2 _ _ _ H) as Hc.
  pose proof (i_nodes _ _ _ _ I n k Hc) as Hok. pose proof Hok as (nd & _ & Hn & _). exists nd, k. done.
Qed.

(** The next pointers that it follows. *)
Lemma next_of a x y s i n nd : BInv a x y s -> cn s !! i = Some n -> (i < a)%nat -> nodes s !! n = Some nd ->
  next nd = Ptr (if decide (S i < a)%nat then cn s !! S i else None).
Proof.
  intros I Hi Ha Hn. destruct (i_links _ _ _ _ I) as (_ & _ & _ & L). specialize (L i n nd Hi Hn).
  unfold link_ok in L. by rewrite decide_True in L by done.
Qed.

Lemma linked_length a x y s : BInv a x y s -> (a <= length (cn s))%nat.
Proof. intros I. destruct (i_links _ _ _ _ I) as (? & ? & _). lia. Qed.

Lemma linked_some a x y s i : BInv a x y s -> (i < a)%nat -> exists n, cn s !! i = Some n.
Proof.
  intros I H. destruct (lookup_lt_is_Some_2 (cn s) i) as [n Hn]; [|by exists n].
  pose proof (linked_length _ _ _ _ I). lia.
Qed.

Lemma head_linked a x y s n : BInv a x y s -> cn s !! O = Some n -> (1 <= a)%nat.
Proof. intros I H. destruct (i_links _ _ _ _ I) as (_ & _ & L & _). apply L. intros E. by rewrite E in H. Qed.

(** *** The stop task is the last one *)

Lemma stop_alone a x y s i n k nd : BInv a x y s -> chain s !! i = Some (n, k) -> nodes s !! n = Some nd ->
  stop_task nd = true -> length (chain s) = S i /\ high_priority nd = false /\ sumz pushes (bpcs s) = 0 /\
  sumz pushes_stop (bpcs s) = 0 /\ closed s = true.
Proof.
  intros I Hc Hn Hst. destruct (i_nodes _ _ _ _ I n k) as (md & e & E1 & E2 & E3 & E4 & E5 & _);
    [by eapply list_elem_of_lookup_2|]. rewrite Hn in E1. injection E1 as <-. apply E5 in Hst.
  destruct (i_stop_last _ _ _ _ I k e E2 Hst) as [Hk Hh].
  pose proof (sumz_elem is_stop (pushed s) k e (fun e => proj1 (is_stop_range e)) E2) as Hs.
  unfold is_stop in Hs at 1. rewrite Hst in Hs. pose proof (i_closed _ _ _ _ I) as Hcl.
  pose proof (sumz_nonneg pushes_stop (bpcs s) pushes_stop_nonneg). pose proof (b2z_range (closed s)).
  assert (closed s = true) as Ecl by (destruct (closed s); [done|]; cbn in Hcl; lia).
  rewrite Ecl in Hcl. cbn in Hcl. split_and!; try done; try congruence; try lia; [|by apply (i_closing _ _ _ _ I)].
  destruct (decide (length (chain s) = S i)) as [|Hl]; [done|]. pose proof (lookup_lt_Some _ _ _ Hc).
  destruct (lookup_lt_is_Some_2 (chain s) (S i)) as [[m j] Hm]; [lia|].
  pose proof (i_numbers _ _ _ _ I i (S i) _ _ ltac:(lia) Hc Hm) as Hlt. cbn in Hlt.
  destruct (i_nodes _ _ _ _ I m j) as (_ & e' & _ & E & _); [by eapply list_elem_of_lookup_2|].
  apply lookup_lt_Some in E. lia.
Qed.

(** Before somebody is told to stop, the stop task waits. *)
Lemma stop_waits a x y s t pc i n k nd : BInv a x y s -> bpcs s !! t = Some pc -> token pc = 1 -> ending pc = 0 ->
  chain s !! i = Some (n, k) -> nodes s !! n = Some nd -> stop_task nd = true -> iterated nd = false.
Proof.
  intros I H Ht He Hc Hn Hst. destruct (iterated nd) eqn:Hi; [exfalso|done].
  assert (Hch : (n, k) ∈ chain s) by by eapply list_elem_of_lookup_2.
  destruct (i_nodes _ _ _ _ I n k Hch) as (md & e & E1 & E2 & E3 & E4 & E5 & _). rewrite Hn in E1. injection E1 as <-.
  pose proof (proj1 E5 Hst) as Hnone. pose proof (node_class a x y s n k nd I Hch Hn) as Hcl.
  assert (Hk : k ∈ taken (log s)).
  { assert (Hk : k ∈ List.filter (in_class (pushed s) (high_priority nd)) (seq 0 (length (pushed s)))).
    { apply list_elem_of_In, filter_In. split; [|done]. apply list_elem_of_In, elem_of_seq.
      apply lookup_lt_Some in E2. lia. }
    rewrite (i_fifo _ _ _ _ I) in Hk. apply elem_of_app in Hk as [Hk|Hk].
    - apply list_elem_of_In, filter_In in Hk as [Hk _]. by apply list_elem_of_In.
    - apply elem_pending in Hk as (m & Hm & Hw). rewrite (node_inj a x y s m n k I Hm Hch) in Hw.
      unfold waits in Hw. cbn in Hw. by rewrite Hn, Hi in Hw. }
  assert (1 <= stops s).
  { apply elem_taken in Hk as [[v Hk]|[Hk|Hk]]; [| |apply stops_elem; by exists k].
    - destruct (i_deliver _ _ _ _ I k v Hk) as [(e' & F1 & F2 & F3) _]. congruence.
    - destruct (i_skip _ _ _ _ I k Hk) as [(e' & F1 & F2) _]. congruence. }
  pose proof (i_ending _ _ _ _ I) as Hen. assert (bumped s = false) as Hb.
  { destruct (bumped s) eqn:Eb; [|done]. pose proof (i_bumped _ _ _ _ I Eb) as Ec. by rewrite Ec in Hc. }
  rewrite Hb in Hen. cbn in Hen. destruct (sumz_pos ending (bpcs s)) as (t' & p & Hp & Hpos); [lia|].
  assert (t' <> t) as Hne by (intros ->; rewrite H in Hp; injection Hp as <-; lia).
  pose proof (token_unique a x y s t t' pc p I H Hp Ht Hne) as Ht'.
  pose proof (other a x y s t' p I Hp Ht') as Ho.
  assert (cn s = []) as Ecn.
  { destruct p; cbn in *; try lia; destruct c; cbn in *; try lia; try done. destruct Ho as [_ Ho]. apply Ho.
    by destruct destroy_queue. }
  unfold cn in Ecn. apply fmap_nil_inv in Ecn. by rewrite Ecn in Hc.
Qed.

(** ** Steps that only move a thread *)

(** A thread with the token that moves. *)
Lemma go a x y s t pc pc' : BInv a x y s -> bpcs s !! t = Some pc -> token pc = 1 -> alike pc pc' ->
  counted pc' = counted pc -> consumer_ok a x y s pc' -> BInv a x y (at_pc s t pc').
Proof.
  intros I H Ht A Hc Hok. pose proof A as (A1 & _). rewrite Ht in A1.
  apply (move a x y s t pc pc' I H A); try done; [by destruct pc|by destruct pc'|by intros v ->|].
  by apply pc_ok_token.
Qed.

Lemma count_ok a x y s t n e : BInv a x y s -> bpcs s !! t = Some (BCount n e) ->
  BInv a x y (at_pc (with_high s (_high_priority_tasks s + 1)) t (BExchange n e)).
Proof.
  intros I H. destruct (other a x y s t _ I H eq_refl) as [Hf Hh].
  apply (move_high a x y s t _ _ _ I H); try done. cbn. rewrite Hh. cbn. lia.
Qed.

Lemma join_ok a x y s t pc : BInv a x y s -> bpcs s !! t = Some pc ->
  match pc with
  | JLoad ver => BInv a x y (at_pc s t (if i32 ver =? _join_butex s then JWait ver else BIdle))
  | JWait ver => BInv a x y (at_pc s t (if i32 ver =? _join_butex s then JBlocked ver else JLoad ver))
  | JBlocked ver => BInv a x y (at_pc s t (JLoad ver))
  | _ => True
  end.
Proof.
  intros I H. destruct pc; try done; try (match goal with |- context [?u =? ?w] => destruct (Z.eqb_spec u w) as [E|E] end);
    apply (move a x y s t _ _ I H); try done; try (by intros v [= <-]); by apply pc_ok_other.
Qed.

(** ** The iterator *)

Lemma it_ok_ctx a s c0 it : it_ok a s c0 it -> cn s !! O = Some (ctx_head c0).
Proof. intros (H & _). destruct c0; cbn in *; tauto. Qed.

(** The destructor begins at the head. *)
Lemma dtor_start a x y s c0 it user : x = a -> y = a -> (1 <= a)%nat -> it_ok a s c0 it ->
  consumer_ok a x y s (XDtor c0 it (_head_node it)) /\ consumer_ok a x y s (XUser c0 it) /\
  consumer_ok a x y s (XScan c0 it user) /\ consumer_ok a x y s (XIncr c0 it user).
Proof.
  intros Ex Ey Ha H. split_and!; try done. pose proof (it_ok_ctx _ _ _ _ H) as H0.
  pose proof H as (_ & _ & _ & Hh & Hc). split_and!; try done.
  rewrite Hh, H0. exists O. split_and!; [lia|done|]. intros m E. unfold cur_ok in Hc. rewrite E in Hc.
  destruct Hc as (j & ? & ? & _). exists j. split; [lia|done].
Qed.

(** operator bool on a node of the list. *)
Lemma iter_valid_ok a x y s c0 it : BInv a x y s -> it_ok a s c0 it -> exists b, iter_valid s it = Go b /\
  (b = true -> _should_break it = false /\ exists n nd, _cur_node it = Some n /\ nodes s !! n = Some nd /\ stop_task nd = false).
Proof.
  intros I (_ & _ & _ & _ & Hc). unfold iter_valid, cur_ok in *. destruct (_should_break it); [by exists false|].
  destruct (_cur_node it) as [n|]; [|by exists false]. destruct Hc as (j & _ & Hj & _).
  destruct (at_index a x y s j n I Hj) as (nd & k & Hn & _). unfold node. rewrite Hn. exists (negb (stop_task nd)).
  split; [done|]. intros E. split; [done|]. exists n, nd. split_and!; try done. by destruct (stop_task nd).
Qed.

(** A state whose thread [t] is still in operator++. *)
Lemma after_incr_ok a x y s t pc c0 it user : x = a -> y = a -> BInv a x y s -> bpcs s !! t = Some pc ->
  alike pc (XUser c0 it) -> counted pc = counted (XUser c0 it : bpc T) -> it_ok a s c0 it -> Good (after_incr s t c0 it user).
Proof.
  intros Ex Ey I H A Hc Hit. pose proof (head_linked _ _ _ _ _ I (it_ok_ctx _ _ _ _ Hit)) as Ha.
  destruct (dtor_start a x y s c0 it user Ex Ey Ha Hit) as (K1 & K2 & _).
  assert (Ht : token pc = 1) by (destruct A as [E _]; by rewrite <-E).
  assert (G1 : Good (Go (at_pc s t (XUser c0 it)))) by (apply (Good_Go a x y); by apply (go a x y s t pc)).
  assert (G2 : Good (Go (at_pc s t (XDtor c0 it (_head_node it))))) by (apply (Good_Go a x y); by apply (go a x y s t pc)).
  unfold after_incr. destruct user; [done|]. destruct (iter_valid_ok a x y s c0 it I Hit) as (b & -> & _). by destruct b.
Qed.

(** The node after one of the list, for a class that has passed this one. *)
Lemma cur_next a x y s it j n nd : BInv a x y s -> (j < a)%nat -> cn s !! j = Some n -> nodes s !! n = Some nd ->
  passed s (_high_priority it) j -> (high_priority nd = _high_priority it -> iterated nd = true) ->
  exists p, next nd = Ptr p /\ cur_ok a s (with_cur it p).
Proof.
  intros I Hj Hn Hnd Hp Hi. rewrite (next_of a x y s j n nd I Hn Hj Hnd). eexists. split; [done|].
  unfold cur_ok, with_cur. cbn. case_decide; [|done]. destruct (linked_some a x y s (S j) I) as [m Hm]; [done|].
  rewrite Hm. exists (S j). split_and!; [done|done|]. intros i n' nd' Hlt Hn' Hnd' Hb.
  destruct (decide (i = j)) as [->|]; [|apply (Hp i n'); first [lia|done]].
  rewrite Hn in Hn'. injection Hn' as <-. rewrite Hnd in Hnd'. injection Hnd' as <-. by apply Hi.
Qed.

Lemma it_ok_cur a s c0 it p : it_ok a s c0 it -> cur_ok a s (with_cur it p) -> it_ok a s c0 (with_cur it p).
Proof. intros (H1 & H2 & H3 & H4 & H5) H. by split_and!. Qed.

Lemma incr_ok a x y s t c0 it user : BInv a x y s -> bpcs s !! t = Some (XIncr c0 it user) -> Good (incr s t c0 it user).
Proof.
  intros I H. pose proof (consumer _ _ _ _ _ _ I H eq_refl) as (Ex & Ey & Hit).
  unfold incr. destruct (iter_valid_ok a x y s c0 it I Hit) as ([|] & -> & Hv).
  2: by apply (after_incr_ok a x y s t (XIncr c0 it user)).
  destruct (Hv eq_refl) as (Hb & n & nd & Ec & Hn & Hst). rewrite Ec. unfold node. rewrite Hn.
  pose proof Hit as (_ & _ & _ & _ & Hc). unfold cur_ok in Hc. rewrite Ec in Hc. destruct Hc as (j & Hj & Hn' & Hp).
  assert (exists p, (if iterated nd then follow (next nd) else Go (Some n)) = Go p /\ it_ok a s c0 (with_cur it p)) as (p & -> & Hit').
  { destruct (iterated nd) eqn:Hi.
    - destruct (cur_next a x y s it j n nd I Hj Hn' Hn Hp) as (p & -> & Hcur); [done|]. exists p. split; [done|]. by apply it_ok_cur.
    - exists (Some n). split; [done|]. apply it_ok_cur; [done|]. by exists j. }
  cbn zeta. destruct (negb _ && _).
  - by apply (after_incr_ok a x y s t (XIncr c0 it user)).
  - apply (Good_Go a x y). by apply (go a x y s t (XIncr c0 it user)).
Qed.

Lemma number_of_spec a x y s n k : BInv a x y s -> (n, k) ∈ chain s -> number_of (chain s) n = k.
Proof.
  intros I H. pose proof (fun j => number_inj a x y s n j k I) as U. revert U H.
  generalize (chain s) as l. induction l as [|[m j] l IH]; intros U H; [by apply elem_of_nil in H|]. cbn.
  case_decide as E; [subst m; apply U; [by left|done]|]. apply IH.
  - intros j' H1 H2. apply U; by right.
  - apply elem_of_cons in H as [H|H]; [by injection H as -> ->|done].
Qed.

(** An iterator after a node was taken. *)
Lemma mark_it a s n nd nd' ev c0 it : it_ok a s c0 it -> nodes s !! n = Some nd -> marked nd nd' ->
  it_ok a (with_log (with_node s n nd') ev) c0 it.
Proof.
  intros (H1 & H2 & H3 & H4 & H5) Hn (M1 & M2 & M3 & M4 & M5 & M6 & M7 & M8). set (s' := with_log _ _).
  assert (At : forall m P, (P nd -> P nd') -> at_node s m P -> at_node s' m P).
  { intros m P HP (md & Hm & Hp). unfold at_node, s'. cbn. destruct (decide (n = m)) as [->|].
    - rewrite lookup_insert_eq. rewrite Hn in Hm. injection Hm as ->. eauto.
    - rewrite lookup_insert_ne by done. eauto. }
  split_and!; try done.
  - destruct c0 as [m|h ct d own]; cbn in *.
    + destruct H1 as (? & ? & ?). split_and!; try done. apply At; [|done]. by rewrite M2, M5.
    + destruct H1 as (? & ? & ?). split_and!; try done. by rewrite H2.
  - destruct c0 as [m|]; cbn in *; [|done]. apply At; [|done]. by rewrite M3.
  - unfold cur_ok in *. destruct (_cur_node it) as [m|]; [|done]. destruct H5 as (j & ? & ? & Hp). exists j. split_and!; try done.
    intros i m' md Hi Hm' Hmd Hb. cbn in Hmd. destruct (decide (n = m')) as [->|].
    + rewrite lookup_insert_eq in Hmd. by injection Hmd as <-.
    + rewrite lookup_insert_ne in Hmd by done. by apply (Hp i m').
Qed.

Lemma it_ok_num a s c0 it m : it_ok a s c0 it -> it_ok a s c0 (with_num it m).
Proof. done. Qed.

Lemma marked_peek nd : status nd = UNEXECUTED -> marked nd (set_iterated (set_status EXECUTING nd)).
Proof. intros _. by unfold marked; split_and!. Qed.

Lemma marked_skip nd : status nd <> UNEXECUTED -> marked nd (set_iterated nd).
Proof. intros H. by unfold marked; split_and!. Qed.

(** The node is taken and given to the user. *)
Lemma deliver_ok a x y s t c0 it user n k nd j : x = a -> y = a -> BInv a x y s -> bpcs s !! t = Some (XScan c0 it user) ->
  it_ok a s c0 it -> _cur_node it = Some n -> (j < a)%nat -> chain s !! j = Some (n, k) -> nodes s !! n = Some nd ->
  passed s (_high_priority it) j -> stop_task nd = false -> _high_priority it = high_priority nd ->
  iterated nd = false -> status nd = UNEXECUTED ->
  Good (after_incr (with_log (with_node s n (set_iterated (set_status EXECUTING nd))) (Deliver k (task_mem nd)))
          t c0 (with_num it (_num_iterated it + 1)) user).
Proof.
  intros Ex Ey I H Hit Ec Hj Hc Hn Hp Hst Hb Hi Hs. pose proof (marked_peek nd Hs) as M.
  set (nd' := set_iterated _) in *. set (it' := with_num _ _).
  pose proof (it_ok_num _ _ _ _ (_num_iterated it + 1) (mark_it a s n nd nd' (Deliver k (task_mem nd)) c0 it Hit Hn M)) as Hit'.
  fold it' in Hit'. destruct (dtor_start a x y _ c0 it' user Ex Ey ltac:(lia) Hit') as (K1 & K2 & _).
  assert (G : forall pc', alike (XScan c0 it user) pc' -> counted pc' = counted (XUser c0 it' : bpc T) ->
    consumer_ok a x y (with_log (with_node s n nd') (Deliver k (task_mem nd))) pc' ->
    Good (Go (at_pc (with_log (with_node s n nd') (Deliver k (task_mem nd))) t pc'))).
  { intros pc' (A1 & A2 & A3 & A4 & A5 & A6 & A7) Hcount Hok. apply (Good_Go a x y).
    apply (mark_ok a x y s t (XScan c0 it user) pc' j n k nd nd'); try done; [by rewrite <-Hb|..].
    - rewrite Hcount. cbn. rewrite Hb. destruct (high_priority nd); cbn; lia.
    - by apply pc_ok_token. }
  assert (exists b, iter_valid (with_log (with_node s n nd') (Deliver k (task_mem nd))) it' = Go b) as [b Ev].
  { unfold iter_valid, it', node. cbn. rewrite Ec. destruct (_should_break it); [by eauto|].
    rewrite lookup_insert_eq. by eauto. }
  unfold after_incr. rewrite Ev. destruct user; [by apply G|]. destruct b; by apply G.
Qed.

(** The node was cancelled, and is taken. *)
Lemma skip_ok a x y s t c0 it user n k nd j p : x = a -> y = a -> BInv a x y s -> bpcs s !! t = Some (XScan c0 it user) ->
  it_ok a s c0 it -> (j < a)%nat -> chain s !! j = Some (n, k) -> nodes s !! n = Some nd ->
  passed s (_high_priority it) j -> stop_task nd = false -> _high_priority it = high_priority nd ->
  iterated nd = false -> status nd <> UNEXECUTED -> next nd = Ptr p ->
  (p = None \/ exists m, p = Some m /\ cn s !! S j = Some m /\ (S j < a)%nat) ->
  BInv a x y (at_pc (with_log (with_node s n (set_iterated nd)) (Skip k)) t
    (XScan c0 (with_cur (with_num it (_num_iterated it + 1)) p) user)).
Proof.
  intros Ex Ey I H Hit Hj Hc Hn Hp Hst Hb Hi Hs Hx Hpx. pose proof (marked_skip nd Hs) as M.
  apply (mark_ok a x y s t (XScan c0 it user) _ j n k nd (set_iterated nd)); try done; [by rewrite <-Hb| |].
  - cbn. rewrite Hb. destruct (high_priority nd); cbn; lia.
  - apply pc_ok_token; [done|]. split_and!; try done. apply it_ok_cur; [by apply it_ok_num, (mark_it a s n nd)|].
    unfold cur_ok. cbn. destruct Hpx as [->|(m & -> & Hm & Ha)]; [done|]. exists (S j). split_and!; [done|done|].
    intros i n' nd' Hlt Hn' Hnd' Hb'. cbn in Hnd'. destruct (decide (n = n')) as [->|Hne].
    + rewrite lookup_insert_eq in Hnd'. by injection Hnd' as <-.
    + rewrite lookup_insert_ne in Hnd' by done. apply (Hp i n'); try done. assert (i <> j); [|lia].
      intros ->. apply Hne. assert (cn s !! j = Some n) as E by (apply cn_lookup; by exists k).
      change (cn s !! j = Some n') in Hn'. congruence.
Qed.

Lemma scan_ok a x y s t c0 it user : BInv a x y s -> bpcs s !! t = Some (XScan c0 it user) -> Good (scan s t c0 it user).
Proof.
  intros I H. pose proof (consumer _ _ _ _ _ _ I H eq_refl) as (Ex & Ey & Hit).
  pose proof Hit as (_ & _ & _ & _ & Hc). unfold scan, cur_ok in *. destruct (_cur_node it) as [n|] eqn:Ec.
  2: by apply (after_incr_ok a x y s t (XScan c0 it user)).
  destruct Hc as (j & Hj & Hn' & Hp). destruct (at_index a x y s j n I Hn') as (nd & k & Hn & Hch & Hin & _).
  unfold node. rewrite Hn. destruct (stop_task nd) eqn:Hst; [by apply (after_incr_ok a x y s t (XScan c0 it user))|].
  assert (Hgo : (high_priority nd = _high_priority it -> iterated nd = true) ->
    Good match follow (next nd) with Go p => Go (at_pc s t (XScan c0 (with_cur it p) user)) | _ => Bad end).
  { intros Hi. destruct (cur_next a x y s it j n nd I Hj Hn' Hn Hp Hi) as (p & -> & Hcur). cbn [follow].
    apply (Good_Go a x y). apply (go a x y s t (XScan c0 it user)); try done. split_and!; try done. by apply it_ok_cur. }
  cbn zeta. destruct (Bool.eqb (_high_priority it) (high_priority nd)) eqn:Eb; cbn [negb].
  2: { apply Hgo. intros E. rewrite E, eqb_reflx in Eb. done. }
  apply eqb_prop in Eb. destruct (iterated nd) eqn:Hi; [by apply Hgo|].
  rewrite (number_of_spec a x y s n k I Hin). unfold peek_to_execute.
  destruct (status nd) eqn:Hs; [by apply (deliver_ok a x y s t c0 it user n k nd j)|..];
    (rewrite (next_of a x y s j n nd I Hn' Hj Hn); cbn [follow]; apply (Good_Go a x y);
     apply (skip_ok a x y s t c0 it user n k nd j); try done; [congruence|by apply (next_of a x y s j n nd)|];
     case_decide; [|by left]; right; destruct (linked_some a x y s (S j) I) as [m Hm]; [done|]; by exists m).
Qed.

Lemma user_ok a x y s t c0 it ch : BInv a x y s -> bpcs s !! t = Some (XUser c0 it) ->
  BInv a x y (at_pc s t (XIncr c0 it true)) /\ BInv a x y (at_pc s t (XDtor c0 it (_head_node it))) /\ ch = ch :> choice.
Proof.
  intros I H. pose proof (consumer _ _ _ _ _ _ I H eq_refl) as (Ex & Ey & Hit).
  pose proof (head_linked _ _ _ _ _ I (it_ok_ctx _ _ _ _ Hit)) as Ha.
  destruct (dtor_start a x y s c0 it true Ex Ey Ha Hit) as (K1 & _ & _ & K4).
  split_and!; [by apply (go a x y s t (XUser c0 it))..|done].
Qed.

(** *** The end of an iterator *)

(** A node that was iterated becomes EXECUTED; [b] says whether. *)
Lemma executed_if a x y s n nd (b : bool) : BInv a x y s -> nodes s !! n = Some nd -> (b = true -> iterated nd = true) ->
  BInv a x y (if b then with_node s n (set_executed nd) else s).
Proof. intros I Hn Hb. destruct b; [|done]. apply set_status_ok; [done|done|by apply Hb|done]. Qed.

Lemma dtor_ok a x y s t c0 it hd : BInv a x y s -> bpcs s !! t = Some (XDtor c0 it hd) -> Good (destruct_iter s t c0 it hd).
Proof.
  intros I H. pose proof (consumer _ _ _ _ _ _ I H eq_refl) as (Ex & Ey & Hit & Hhd).
  assert (Hend : forall s', BInv a x y s' -> bpcs s' = bpcs s ->
            BInv a x y (at_pc s' t (XEnd c0 (_high_priority it) (_num_iterated it) false))).
  { intros s' I' E. assert (H' : bpcs s' !! t = Some (XDtor c0 it hd)) by (by rewrite E).
    pose proof (consumer _ _ _ _ _ _ I' H' eq_refl) as (_ & _ & (K1 & K2 & K3 & _) & _).
    apply (go a x y s' t (XDtor c0 it hd)); try done. split_and!; try done. cbn. by rewrite K2. }
  pose proof Hit as (_ & _ & _ & _ & Hc). unfold destruct_iter. destruct (decide (hd = _cur_node it)) as [->|Hne].
  - destruct (_cur_node it) as [n|] eqn:Ec; [|by apply (Good_Go a x y), Hend].
    unfold cur_ok in Hc. rewrite Ec in Hc. destruct Hc as (j & _ & Hj & _).
    destruct (at_index a x y s j n I Hj) as (nd & k & Hn & _). unfold node. rewrite Hn.
    destruct (_should_break it && _ && iterated nd) eqn:Hb; apply (Good_Go a x y), Hend; try done.
    apply (executed_if a x y s n nd true I Hn). intros _. by apply andb_prop in Hb as [_ Hb].
  - destruct hd as [n|]; [|by destruct (_cur_node it)]. destruct Hhd as (i & Hi & Hn' & Hm).
    destruct (at_index a x y s i n I Hn') as (nd & k & Hn & _). unfold node. rewrite Hn.
    rewrite (next_of a x y s i n nd I Hn' Hi Hn). cbn [follow].
    set (b := iterated nd && _). set (s' := if b then _ else s).
    assert (I' : BInv a x y s') by (apply executed_if; [done|done|]; intros Hb; by apply andb_prop in Hb as [Hb _]).
    assert (E : bpcs s' = bpcs s /\ cn s' = cn s) by (subst s'; by destruct b). destruct E as [Eb Ecn].
    assert (H' : bpcs s' !! t = Some (XDtor c0 it (Some n))) by (by rewrite Eb).
    pose proof (consumer _ _ _ _ _ _ I' H' eq_refl) as (_ & _ & Hit' & _).
    apply (Good_Go a x y), (go a x y s' t (XDtor c0 it (Some n))); try done. split_and!; try done.
    rewrite Ecn. destruct (_cur_node it) as [m|] eqn:Ec.
    + destruct (Hm m eq_refl) as (j & Hj & Hmj). assert (i <> j) as Hij by congruence.
      rewrite decide_True by lia. destruct (linked_some a x y s (S i) I) as [m' Hm']; [lia|]. rewrite Hm'.
      exists (S i). split_and!; [lia|done|]. intros m2 [= <-]. exists j. split; [lia|done].
    + case_decide; [|done]. destruct (linked_some a x y s (S i) I) as [m' Hm']; [lia|]. rewrite Hm'.
      exists (S i). by split_and!.
Qed.

(** ** _execute *)

(** The head may be the stop task in a round of low priority only. *)
Lemma execute_ok a x y s t c0 high : BInv a x y s -> bpcs s !! t = Some (XNew c0 high) -> Good (execute s t c0 high).
Proof.
  intros I H. pose proof (consumer _ _ _ _ _ _ I H eq_refl) as (Ex & Ey & Hctx & Hd & Hpl & Hhi).
  assert (H0 : cn s !! O = Some (ctx_head c0)) by (destruct c0; cbn in *; tauto).
  pose proof (head_linked _ _ _ _ _ I H0) as Ha. set (h := ctx_head c0) in *.
  destruct (at_index a x y s O h I H0) as (nd & k & Hn & Hch & Hin & _).
  unfold execute. fold h. unfold node. rewrite Hn. destruct (stop_task nd) eqn:Hst.
  - destruct (stop_alone a x y s O h k nd I Hch Hn Hst) as (Hl & Hlo & _).
    pose proof (stop_waits a x y s t _ O h k nd I H eq_refl eq_refl Hch Hn Hst) as Hi.
    assert (chain s = [(h, k)]) as Hc1 by (destruct (chain s) as [|p [|]]; cbn in *; congruence).
    assert (high = false) as ->.
    { destruct high; [|done]. destruct (Hhi eq_refl) as (md & Hm & E). congruence. }
    assert (forall m, c0 <> InPlace m) as Hnip.
    { intros m ->. destruct Hctx as (_ & _ & (md & Hm & E & _)). cbn in h. subst h. congruence. }
    rewrite (next_of a x y s O h nd I H0 ltac:(lia) Hn).
    assert (a = 1%nat) as Ea.
    { pose proof (linked_length _ _ _ _ I) as Hla. unfold cn in Hla. rewrite length_fmap, Hl in Hla. lia. }
    rewrite decide_False by lia. cbn [chain with_node with_nodes]. rewrite (number_of_spec a x y s h k I Hin).
    destruct (waiting_not_stopped a x y s h k nd I Hin Hn Hi) as [Hs0 _].
    set (nd' := set_status EXECUTED (set_iterated nd)).
    assert (M : marked nd nd') by by split_and!.
    assert (Hen : ended (with_log (with_node s h nd') (Stopped k)) h).
    { split_and!; [unfold cn; cbn; by rewrite Hc1| |].
      - exists nd'. cbn. rewrite lookup_insert_eq. by split_and!.
      - unfold stops in *. cbn [log with_log with_node with_nodes]. rewrite sumz_app. cbn. lia. }
    apply (Good_Go a x y). apply (mark_ok a x y s t (XNew c0 false) _ O h k nd nd'); try done.
    + intros i m md Hlt; lia.
    + cbn. split_and!; try done. by destruct (ctx_destroy c0).
    + cbn. rewrite Hlo. done.
    + apply pc_ok_token; [done|]. split_and!; try done.
      * destruct c0 as [m|h' ct d own]; [by destruct (Hnip m)|]. cbn in *. destruct Hctx as (? & ? & ?). by split_and!.
      * destruct c0 as [m|]; [by destruct (Hnip m)|done].
  - apply (Good_Go a x y), (go a x y s t (XNew c0 high)); try done; [by destruct high|]. split_and!; try done.
    unfold it_ok. cbn. split_and!; try done. exists O. split_and!; try done. intros i m md Hlt; lia.
Qed.

(** _execute has returned. *)
Lemma executed_ok a x y s t c0 high num stop : BInv a x y s -> bpcs s !! t = Some (XEnd c0 high num stop) ->
  Good (executed s t c0 high num stop).
Proof.
  intros I H. pose proof (consumer _ _ _ _ _ _ I H eq_refl) as (Ex & Ey & Hctx & Hd & Hpl & Hstop).
  assert (G : forall pc', alike (XEnd c0 high num stop) pc' -> not_link pc' -> counted pc' = 0 -> (forall v, pc' <> JBlocked v) ->
    consumer_ok a x y s pc' -> Good (Go (at_pc (if high then with_high s (_high_priority_tasks s - num) else s) t pc'))).
  { intros pc' A Hl Hc HJ Hok. apply (Good_Go a x y). assert (token pc' = 1) as Ht by apply A.
    destruct high.
    - apply (move_high a x y s t (XEnd c0 true num stop)); try done; [cbn; lia|by intros v ?; destruct (HJ v)|by apply pc_ok_token].
    - by apply (go a x y s t (XEnd c0 false num stop)). }
  unfold executed. destruct c0 as [n|h ct d own].
  - pose proof Hctx as (H0 & Ha & Hat). destruct (at_index a x y s O n I H0) as (nd & k & Hn & _).
    assert (stop = false) as ->.
    { destruct stop; [|done]. destruct (Hstop eq_refl) as (_ & _ & Hip). by destruct (Hip n). }
    assert (nodes (if high then with_high s (_high_priority_tasks s - num) else s) !! n = Some nd) as Hn' by (by destruct high).
    unfold node. rewrite Hn'. apply G; try done. cbn. split_and!; try done; [by rewrite Ha|by exists nd].
  - cbn in Hd. subst d. apply G; try done. cbn. split_and!; try done; try apply Hctx. intros ->.
    by destruct (Hstop eq_refl) as (_ & Hen & _).
Qed.

(** ** A node goes back to the pool *)

Definition cleared nd : TaskNode T :=
  mkNode (version nd + 1) UNEXECUTED (stop_task nd) (iterated nd) (high_priority nd) (in_place nd) (next nd) false None.

Definition returned s n nd : queue T :=
  with_chain (with_pool (with_node s n (cleared nd)) ({[n]} ∪ pool s)) (filter (fun p => p.1 <> n) (chain s)).

Lemma return_task_node_eq s n nd : nodes s !! n = Some nd -> iterated nd = true -> status nd <> UNEXECUTED ->
  (stop_task nd = true \/ task_mem nd <> None) -> return_task_node s n = Go (returned s n nd).
Proof.
  intros Hn Hi Hs Hm. unfold return_task_node, node. rewrite Hn. unfold clear_before_return.
  assert ((negb (stop_task nd) && negb match task_mem nd with Some _ => iterated nd | None => false end) = false) as ->.
  { destruct Hm as [->|Hm]; [done|]. destruct (task_mem nd); [|done]. rewrite Hi. by rewrite andb_false_r. }
  by destruct (status nd).
Qed.

Lemma filter_chain_none (l : list (nat * nat)) n : n ∉ l.*1 -> filter (fun p => p.1 <> n) l = l.
Proof.
  induction l as [|[m k] l IH]; [done|]. cbn [fmap list_fmap fst]. intros [H1 H2]%not_elem_of_cons.
  rewrite filter_cons_True by (cbn; congruence). by rewrite IH.
Qed.

(** Handles when the node [n] is cleared. *)
Lemma handle_cleared s s' n nd h : handle_ok s h -> nodes s !! n = Some nd -> nodes s' = <[n := cleared nd]> (nodes s) ->
  pool s' = {[n]} ∪ pool s -> (forall m k, m <> n -> (m, k) ∈ chain s -> (m, k) ∈ chain s') -> handle_ok s' h.
Proof.
  destruct h as [[m v] j]. intros (md & E1 & E2 & E3) Hn En Ep Hc. unfold handle_ok. cbn [fst snd] in *. rewrite En, Ep.
  destruct (decide (n = m)) as [->|Hne].
  - rewrite lookup_insert_eq. rewrite Hn in E1. injection E1 as <-. exists (cleared nd). cbn. split_and!; [done|lia|lia].
  - rewrite lookup_insert_ne by done. exists md. split_and!; try done. intros Ev. destruct (E3 Ev) as [Hp Hx]. split.
    + intros Hu. apply elem_of_union in Hu as [Hu|Hu]; [apply elem_of_singleton in Hu; congruence|done].
    + destruct Hx as [Hx|Hx]; [left; by apply Hc|by right].
Qed.

Lemma usage_cleared s n nd m : nodes s !! n = Some nd -> n ∉ pool s ->
  b2z (bool_decide (m ∈ {[n]} ∪ pool s)) = b2z (bool_decide (n = m)) + b2z (bool_decide (m ∈ pool s)) /\
  bool_decide (is_Some (<[n := cleared nd]> (nodes s) !! m)) = bool_decide (is_Some (nodes s !! m)).
Proof.
  intros Hn Hp. split; [|by apply (dom_with_node _ n nd)]. destruct (decide (n = m)) as [->|Hne].
  - rewrite (bool_decide_eq_true_2 (m = m)) by done. rewrite (bool_decide_eq_false_2 (m ∈ pool s)) by done.
    rewrite bool_decide_eq_true_2; [done|]. set_solver.
  - rewrite (bool_decide_eq_false_2 (n = m)) by done. cbn [b2z]. rewrite Z.add_0_l. f_equal. apply bool_decide_ext. set_solver.
Qed.

(** The node that one thread has. *)
Lemma return_owned a x y s t pc pc' n nd : BInv a x y s -> bpcs s !! t = Some pc -> token pc = 0 -> token pc' = 0 ->
  (forall m, owns m pc = b2z (bool_decide (n = m))) -> (forall m, owns m pc' = 0) ->
  nodes s !! n = Some nd -> iterated nd = true ->
  pushes pc' = pushes pc -> pushes_stop pc' = pushes_stop pc -> counted pc' = counted pc -> ending pc' = ending pc ->
  waking pc' = waking pc -> freeing pc' = freeing pc -> not_link pc -> not_link pc' -> (forall v, pc' <> JBlocked v) ->
  other_ok (nodes (returned s n nd)) (cn s) pc' ->
  BInv a x y (at_pc (returned s n nd) t pc').
Proof.
  intros I H Ht Ht' Ho Ho' Hn Hi W1 W2 W3 W4 W5 W6 Hl Hl' HJ Hok.
  destruct (owned a x y s t pc n I H) as (_ & Hp & Hcn & Hne); [rewrite Ho, bool_decide_eq_true_2 by done; cbn; lia|].
  unfold returned. rewrite (filter_chain_none (chain s) n Hcn). set (s' := at_pc _ t pc').
  assert (Hm : forall m, m ∈ cn s -> <[n := cleared nd]> (nodes s) !! m = nodes s !! m)
    by (intros m Hm; rewrite lookup_insert_ne; [done|by intros ->]).
  assert (K : forall t' p, t' <> t -> bpcs s !! t' = Some p -> pc_ok a x y s' p).
  { apply (keep_pcs a x y s s' t I); try done; [|by left|..].
    - intros m md Hin Em. exists md. split; [|done]. by apply eq_trans with (nodes s !! m); [apply Hm|].
    - intros t' m p Hne' Hp' Hom. apply lookup_insert_ne. intros ->. specialize (Hne t' p Hne' Hp'). lia.
    - intros t' m p md Hne' Hp' Em Hu. exists md. split; [|done]. cbn. rewrite Hm; [done|].
      pose proof (i_pcs _ _ _ _ I t' _ Hp') as (i & ? & Hx & _). by eapply list_elem_of_lookup_2. }
  assert (P : forall b, pending (<[n := cleared nd]> (nodes s)) (chain s) b = pending (nodes s) (chain s) b)
    by (intros b; by apply (pending_same _ n nd)).
  subst s'. parts I; rewrite ?P, ?(sumz_insert _ _ _ _ _ H), ?W1, ?W2, ?W3, ?W4, ?W5, ?W6, ?Ht, ?Ht'; try done; try lia.
  - intros m. destruct (usage_cleared s n nd m Hn Hp) as [-> ->].
    rewrite (sumz_insert _ _ _ _ _ H), Ho, Ho'. specialize (i_usage0 m). lia.
  - destruct i_links0 as (L1 & L2 & L3 & L4). split_and!; try apply L1; try done.
    intros i m md Hj Em. cbn in Em, Hj. change (cn s !! i = Some m) in Hj.
    rewrite Hm in Em by (by eapply list_elem_of_lookup_2). specialize (L4 i m md Hj Em). cbn [bpcs at_pc with_pcs].
    unfold link_ok in *. destruct (decide _); [done|]. destruct (decide _); [done|]. destruct L4 as [L4|[L4 L5]]; [by left|].
    right. split; [done|]. by apply (pending_link_move s t pc).
  - intros m k Hk. destruct (i_nodes0 m k Hk) as (md & e & E1 & E2). exists md, e. cbn. rewrite Hm; [done|].
    apply elem_cn. by exists k.
  - intros t' p Hp'. apply list_lookup_insert_Some in Hp' as [(-> & -> & _)|[Hne' Hp']]; [by apply pc_ok_other|by apply (K t' p)].
  - apply (Forall_impl _ _ _ i_handles0). intros h Hh. by apply (handle_cleared s _ n nd).
  - intros b. specialize (i_fifo0 b). cbn [nodes with_node with_nodes with_pool with_chain at_pc with_pcs pushed log chain]. by rewrite P.
  - intros Hc. specialize (i_closing0 Hc). lia.
  - destruct i_stops0 as [? H2]. split; [done|]. intros E b. rewrite P. by apply H2.
  - by apply one_linker_move.
  - intros t' v Hp'. apply list_lookup_insert_Some in Hp' as [(_ & Hv & _)|[Hne' Hp']]; [by destruct (HJ v)|].
    destruct (i_joiners0 t' v Hp') as [?|?]; [by left|right; lia].
Qed.

(** *** The head of a longer list *)

(** The rest of the list, and what it says of the node [h] before it. *)
Lemma split_head a x y s h : BInv a x y s -> cn s !! O = Some h ->
  exists k l, chain s = (h, k) :: l /\ (h ∉ l.*1) /\ cn s = h :: l.*1 /\ filter (fun p => p.1 <> h) (chain s) = l.
Proof.
  intros I H. pose proof (NoDup_cn a x y s I) as N. unfold cn in *.
  destruct (chain s) as [|[m k] l]; [done|]. injection H as ->. apply NoDup_cons in N as [N1 N2].
  exists k, l. split_and!; try done. rewrite filter_cons_False by (cbn; tauto). by apply filter_chain_none.
Qed.

Lemma link_ok_tail (pcs pcs' : list (bpc T)) (h : nat) (c : list nat) a i n nx : (1 <= a)%nat -> (S i < length (h :: c))%nat ->
  (forall p, pending_link (T := T) pcs n p -> pending_link pcs' n p) ->
  link_ok pcs (h :: c) (S a) (S a) (S a) (S i) n nx -> link_ok pcs' c a a a i n nx.
Proof.
  intros Ha Hi Hp. unfold link_ok. destruct (decide (S i < S a)%nat).
  - intros ->. rewrite (decide_True (P := (i < a)%nat)) by lia. do 2 case_decide; first [lia|done].
  - rewrite (decide_False (P := (S a <= S i < S a)%nat)) by lia. rewrite (decide_False (P := (i < a)%nat)) by lia.
    rewrite (decide_False (P := (a <= i < a)%nat)) by lia.
    assert (pred (S i) = S (pred i)) as -> by lia. cbn [lookup list_lookup].
    intros [?|[? ?]]; [by left|right]. split; [done|by apply Hp].
Qed.

(** The other threads when the head leaves the list. *)
Lemma popped_others a s t pc h nd l s' t' p : BInv (S a) (S a) (S a) s -> (1 <= a)%nat -> bpcs s !! t = Some pc -> token pc = 1 ->
  cn s = h :: l -> nodes s !! h = Some nd -> nodes s' = <[h := cleared nd]> (nodes s) -> cn s' = l ->
  t' <> t -> bpcs s !! t' = Some p -> pc_ok a a a s' p.
Proof.
  intros I Ha H Ht Hc Hn En Ec Hne Hp. pose proof (token_unique _ _ _ s t t' pc p I H Hp Ht Hne) as H0.
  pose proof (other _ _ _ s t' p I Hp H0) as Ho. apply pc_ok_other; [done|]. rewrite En, Ec.
  apply (other_keep (nodes s) (cn s)); try done.
  - intros m Hm. apply lookup_insert_ne. intros ->.
    destruct (owned _ _ _ s t' p m I Hp Hm) as (_ & _ & Hx & _). apply Hx. rewrite Hc. by left.
  - intros m q i md -> Hi Hq Hm Hu. destruct i as [|i].
    + exfalso. rewrite (next_of _ _ _ s 1 m md I Hi ltac:(lia) Hm) in Hu. done.
    + rewrite Hc in Hi, Hq. cbn in Hi, Hq. exists i, md. split_and!; try done. rewrite lookup_insert_ne; [done|].
      intros ->. pose proof (NoDup_cn _ _ _ s I) as N. rewrite Hc in N. apply NoDup_cons in N as [N _]. apply N.
      by eapply list_elem_of_lookup_2.
  - rewrite Hc. done.
Qed.

Lemma pop_ok a s t pc pc' h nd : BInv (S a) (S a) (S a) s -> (1 <= a)%nat -> bpcs s !! t = Some pc -> token pc = 1 ->
  cn s !! O = Some h -> nodes s !! h = Some nd -> iterated nd = true ->
  alike pc pc' -> counted pc' = counted pc -> consumer_ok a a a (returned s h nd) pc' ->
  BInv a a a (at_pc (returned s h nd) t pc').
Proof.
  intros I Ha H Ht H0 Hn Hi (A1 & A2 & A3 & A4 & A5 & A6 & A7) Ac Hok.
  destruct (split_head _ _ _ s h I H0) as (k & l & Hch & Hhl & Hcn & Hf).
  destruct (in_chain _ _ _ s h I) as (_ & Hp & _ & _); [by eapply list_elem_of_lookup_2|].
  pose proof (linked_length _ _ _ s I) as Hlen. rewrite Hcn in Hlen. cbn [length] in Hlen.
  assert (Hl : not_link pc') by (rewrite Ht in A1; by destruct pc').
  assert (Hl0 : not_link pc) by (by destruct pc).
  assert (HJ : forall v, pc' <> JBlocked v) by (intros v ->; cbn in A1; lia).
  unfold returned in *. rewrite Hf in *. set (s' := at_pc _ t pc').
  assert (Ecn : cn s' = l.*1) by done.
  assert (K : forall t' p, t' <> t -> bpcs s !! t' = Some p -> pc_ok a a a s' p)
    by (intros t' p; by apply (popped_others a s t pc h nd (l.*1) s' t' p)).
  assert (P : forall b, pending (<[h := cleared nd]> (nodes s)) l b = pending (nodes s) (chain s) b).
  { intros b. rewrite Hch, pending_cons. unfold waits at 1. cbn [fst]. rewrite Hn, Hi. cbn [negb andb app].
    apply pending_ext. intros m j Hm. unfold waits. cbn [fst]. rewrite lookup_insert_ne; [done|].
    intros ->. apply Hhl, list_elem_of_fmap. by exists (m, j). }
  assert (Hne : forall m j, (m, j) ∈ l -> m <> h).
  { intros m j Hm ->. apply Hhl, list_elem_of_fmap. by exists (h, j). }
  pose proof I as I0. subst s'.
  parts I; rewrite ?P, ?(sumz_insert _ _ _ _ _ H), ?A1, ?A3, ?A4, ?A5, ?A6, ?A7, ?Ac; try done; try lia.
  - intros m. destruct (usage_cleared s h nd m Hn Hp) as [-> ->]. rewrite (sumz_insert _ _ _ _ _ H), A2.
    specialize (i_usage0 m). rewrite Hch, sumz_cons in i_usage0. unfold uses in i_usage0 at 1. cbn [fst] in i_usage0. lia.
  - intros i j p p' Hij E1 E2. rewrite Hch in i_numbers0. by apply (i_numbers0 (S i) (S j) p p'); [lia|..].
  - rewrite i_head0, Hcn. unfold cn. cbn [chain with_chain at_pc with_pcs]. by destruct (l.*1); [cbn in Hlen; lia|].
  - rewrite i_token0, Hch. rewrite length_fmap in Hlen. destruct l; [cbn in Hlen; lia|lia].
  - destruct i_links0 as (L1 & L2 & L3 & L4). unfold Links. rewrite Ecn.
    split_and!; [lia|lia|lia|done|]. intros i m md Hj Em.
    cbn [nodes with_node with_nodes with_pool with_chain at_pc with_pcs bpcs] in *.
    rewrite lookup_insert_ne in Em by (intros ->; apply Hhl; by eapply list_elem_of_lookup_2).
    specialize (L4 (S i) m md). rewrite Hcn in L4. specialize (L4 Hj Em). pose proof (lookup_lt_Some _ _ _ Hj).
    apply (link_ok_tail (bpcs s) _ h); [done|cbn; lia| |done]. intros q. by apply (pending_link_move s t pc).
  - intros m j Hm. destruct (i_nodes0 m j) as (md & e & E1 & E2); [rewrite Hch; by right|]. exists md, e.
    cbn. rewrite lookup_insert_ne by (apply not_eq_sym; by apply (Hne m j)). done.
  - intros t' p Hp'. apply list_lookup_insert_Some in Hp' as [(-> & -> & _)|[Hne' Hp']];
      [apply pc_ok_token; [lia|done]|by apply (K t' p)].
  - apply (Forall_impl _ _ _ i_handles0). intros hd Hh. apply (handle_cleared s _ h nd); try done.
    intros m j Hm Hj. cbn. rewrite Hch in Hj. apply elem_of_cons in Hj as [Hj|Hj]; [congruence|done].
  - intros b. specialize (i_fifo0 b). cbn [nodes with_node with_nodes with_pool with_chain at_pc with_pcs pushed log chain]. by rewrite P.
  - intros Hc. specialize (i_closing0 Hc). lia.
  - destruct i_stops0 as [? H2]. split; [done|]. intros E b. rewrite P. by apply H2.
  - by apply one_linker_move.
  - intros t' v Hp'. apply list_lookup_insert_Some in Hp' as [(_ & Hv & _)|[Hne' Hp']]; [by destruct (HJ v)|].
    destruct (i_joiners0 t' v Hp') as [?|?]; [by left|right; lia].
  - intros Hb. specialize (i_bumped0 Hb). congruence.
Qed.

(** ** _more_tasks *)

(** The only node leaves the list, and the list is empty: nobody executes tasks. *)
Lemma release_ok a x y s t pc pc' h nd : BInv a x y s -> bpcs s !! t = Some pc -> token pc = 1 ->
  cn s = [h] -> nodes s !! h = Some nd -> iterated nd = true ->
  token pc' = 0 -> (forall m, owns m pc = 0) -> (forall m, owns m pc' = b2z (bool_decide (h = m))) ->
  pushes pc' = pushes pc -> pushes_stop pc' = pushes_stop pc -> counted pc' = counted pc -> ending pc' = ending pc ->
  waking pc' = waking pc -> freeing pc' = freeing pc -> not_link pc' -> (forall v, pc' <> JBlocked v) ->
  (limbo (nodes s) h -> other_ok (nodes s) [] pc') ->
  BInv 0 0 0 (at_pc (with_chain (with_head s None) []) t pc').
Proof.
  intros I H Ht Hc Hn Hi Ht' Ho Ho' W1 W2 W3 W4 W5 W6 Hl HJ Hok.
  assert (exists k, chain s = [(h, k)]) as [k Hch].
  { unfold cn in Hc. destruct (chain s) as [|[m k] [|]]; try done. cbn in Hc. injection Hc as ->. by exists k. }
  destruct (i_nodes _ _ _ _ I h k) as (md & e & E1 & E2 & E3 & E4 & E5 & E6); [rewrite Hch; by left|].
  rewrite Hn in E1. injection E1 as <-. rewrite Hi in E6.
  assert (Hlm : limbo (nodes s) h).
  { exists nd. split_and!; try done. destruct (stop_task nd) eqn:Es; [by left|right]. rewrite E3. intros E.
    apply E5 in E. congruence. }
  specialize (Hok Hlm).
  assert (P : forall b, pending (nodes s) (chain s) b = []).
  { intros b. rewrite Hch, pending_cons. unfold waits. cbn [fst]. by rewrite Hn, Hi. }
  assert (HL : forall t' m q, bpcs s !! t' <> Some (BLink m q)).
  { intros t' m q Hp. pose proof (i_pcs _ _ _ _ I t' _ Hp) as (i & ? & Hx & _). by rewrite Hc in Hx. }
  pose proof I as I0. parts I; rewrite ?P, ?(sumz_insert _ _ _ _ _ H), ?W1, ?W2, ?W3, ?W4, ?W5, ?W6, ?Ht, ?Ht'; try done; try lia.
  - intros m. rewrite (sumz_insert _ _ _ _ _ H), Ho, Ho'. specialize (i_usage0 m). rewrite Hch, sumz_cons in i_usage0.
    unfold uses in i_usage0 at 1. cbn [fst sumz foldr] in *. lia.
  - rewrite i_token0, Hch. lia.
  - by intros m j Hm%elem_of_nil.
  - intros t' p Hp'. apply list_lookup_insert_Some in Hp' as [(-> & -> & _)|[Hne' Hp']]; [by apply pc_ok_other|].
    pose proof (token_unique _ _ _ s t t' pc p I0 H Hp' Ht (not_eq_sym Hne')) as H0. apply pc_ok_other; [done|].
    apply (other_keep (nodes s) (cn s)); try done; [|by apply (other a x y s t')].
    intros m q i md -> _ _ _ _. by destruct (HL t' m q).
  - apply (Forall_impl _ _ _ i_handles0). intros [[m v] j] (md & F1 & F2 & F3). exists md. cbn [fst snd] in *. split_and!; try done.
    intros Ev. destruct (F3 Ev) as [Fp Fx]. split; [done|]. right. destruct Fx as [Fx|Fx]; [|done].
    rewrite Hch in Fx. apply list_elem_of_singleton in Fx. injection Fx as -> ->. cbn in F1. rewrite Hn in F1. by injection F1 as <-.
  - intros b. specialize (i_fifo0 b). rewrite P in i_fifo0. done.
  - rewrite i_high0, P. cbn. lia.
  - intros Hcl. specialize (i_closing0 Hcl). lia.
  - destruct i_stops0 as [? H2]. done.
  - by apply one_linker_move.
  - intros t' v Hp'. apply list_lookup_insert_Some in Hp' as [(_ & Hv & _)|[Hne' Hp']]; [by destruct (HJ v)|].
    destruct (i_joiners0 t' v Hp') as [?|?]; [by left|right; lia].
Qed.

(** After the stop task the head is the only node. *)
Lemma destroy_alone a s h ct d own : ctx_ok a s (Loop h ct d own) -> d = true ->
  cn s = [h] /\ at_node s h (fun nd => iterated nd = true /\ stop_task nd = true).
Proof. intros (_ & _ & Hd) E. destruct (Hd E) as (? & ? & _). done. Qed.

(** What follows [_more_tasks]: there is more. *)
Lemma more_ok a x y s t pc c0 nt : (forall pc', alike pc pc' -> counted pc' = counted pc -> consumer_ok a x y s pc' -> BInv a x y (at_pc s t pc')) ->
  alike pc (LTop (Loop 0 None false false)) -> counted pc = 0 -> x = a -> y = a ->
  cn s !! O = Some (ctx_head c0) -> ctx_destroy c0 = false -> head_ok a s (ctx_head c0) ->
  match c0 with
  | InPlace n => at_node s n (fun nd => q nd = true)
  | Loop _ ct _ _ => forall m, match nt with Some _ => nt | None => ct end = Some m -> cn s !! pred a = Some m
  end -> Good (more_result s t c0 nt true).
Proof.
  intros G A Hc Ex Ey H0 Hd Hh Hct. unfold more_result. destruct c0 as [n|h ct d own].
  - apply (Good_Go a x y), G; [exact A|done|]. by split_and!.
  - apply (Good_Go a x y), G; [exact A|done|]. cbn in Hd. subst d. by split_and!.
Qed.

Lemma more_tasks_cas_ok a x y s t c0 old hu : BInv a x y s -> bpcs s !! t = Some (MCas c0 old hu) -> Good (more_tasks_cas s t c0 old hu).
Proof.
  intros I H. pose proof (consumer _ _ _ _ _ _ I H eq_refl) as (Ex & Ey & Hctx & Hold & Hhu & Ha1 & Hct).
  assert (H0 : cn s !! O = Some (ctx_head c0)) by (destruct c0; cbn in *; tauto).
  pose proof (head_linked _ _ _ _ _ I H0) as Ha. pose proof (linked_length _ _ _ _ I) as Hlen.
  destruct (at_index a x y s (pred a) old I Hold) as (nd & k & Hn & _).
  unfold more_tasks_cas, node. rewrite Hn, (next_of a x y s (pred a) old nd I Hold ltac:(lia) Hn), decide_False by lia.
  assert (Hdest : ctx_destroy c0 = true -> hu = false /\ length (cn s) = 1%nat).
  { intros Hd. destruct c0 as [|h ct d own]; [done|]. destruct (destroy_alone a s h ct d own Hctx Hd) as (Ecn & (md & Hm & Hi & _)).
    destruct Hhu as (md' & Hm' & ->). cbn in Hm'. rewrite Hm in Hm'. injection Hm' as <-. by rewrite Hi, Ecn. }
  rewrite (i_head _ _ _ _ I), last_lookup. destruct (decide (cn s !! pred (length (cn s)) = Some old)) as [Hlast|Hlast].
  - assert (length (cn s) = a) as El.
    { pose proof (cn_inj a x y s _ _ old I Hlast Hold). lia. }
    destruct hu.
    + apply (more_ok a x y s t (MCas c0 old true)); try done.
      * intros pc' A Hc Hok. by apply (go a x y s t (MCas c0 old true)).
      * unfold alike. cbn. split_and!; try done. destruct (ctx_destroy c0) eqn:Hd; [|done]. by destruct (Hdest eq_refl).
      * destruct (ctx_destroy c0); [|done]. by destruct (Hdest eq_refl).
      * destruct Hhu as (md & Hm & E). intros md' Hm' Hi. rewrite Hm in Hm'. injection Hm' as <-. by rewrite Hi in E.
      * destruct c0 as [n|h ct d own]; [destruct Hctx as (_ & _ & md & Hm & _ & Hq); by exists md|]. by apply Hctx.
    + specialize (Ha1 eq_refl). assert (Ecn : cn s = [ctx_head c0]).
      { destruct (cn s) as [|m [|]]; cbn in *; try lia. congruence. }
      assert (old = ctx_head c0) as -> by (rewrite Ha1 in Hold; cbn in *; congruence).
      destruct Hhu as (md & Hm & Hi). rewrite Hn in Hm. injection Hm as <-.
      assert (Hit : iterated nd = true) by (by destruct (iterated nd)).
      unfold more_result. destruct c0 as [n|h ct d own]; cbn [ctx_head] in *.
      * apply (Good_Go 0 0 0). apply (release_ok a x y s t (MCas (InPlace n) n false) _ n nd); try done.
      * rewrite (Hct h ct d own eq_refl), decide_True by done. unfold node. cbn [nodes with_chain with_head]. rewrite Hn, Hit.
        apply (Good_Go 0 0 0). apply (release_ok a x y s t (MCas (Loop h ct d own) h false) _ h nd); try done.
  - destruct (cn s !! pred (length (cn s))) as [nh|] eqn:Enh.
    2: { apply lookup_ge_None in Enh. lia. }
    assert (a < length (cn s))%nat as Hlt.
    { assert (a <> length (cn s)); [|lia]. intros E. rewrite <-E in Enh. congruence. }
    set (L := length (cn s)) in *.
    assert (HD : ctx_destroy c0 = false) by (destruct (ctx_destroy c0); [destruct (Hdest eq_refl); lia|done]).
    apply (Good_Go a L L). apply (move_token a x y a L L s t (MCas c0 old hu)); try done.
    + unfold alike. cbn. by rewrite HD.
    + destruct (i_links _ _ _ _ I) as (L1 & L2 & L3 & L4). split_and!; [lia|lia|done|done|].
      intros i m md Hj Em. change (cn s !! i = Some m) in Hj. specialize (L4 i m md Hj Em). subst x y.
      unfold link_ok in *. cbn [bpcs at_pc with_pcs]. destruct (decide (i < a)%nat); [done|].
      rewrite (decide_False (P := (a <= i < a)%nat)) in L4 by lia. rewrite (decide_False (P := (L <= i < L)%nat)) by lia.
      destruct L4 as [L4|[L4 L5]]; [by left|right]. split; [done|]. by apply (pending_link_move s t (MCas c0 old hu)).
    + split_and!; try done. by rewrite decide_False by lia.
Qed.

(** *** The list is reversed *)

(** The node before those that were reversed. *)
Lemma reverse_link a x y s p nd : BInv a x y s -> (a < x)%nat -> cn s !! pred x = Some p -> nodes s !! p = Some nd -> (1 <= a)%nat ->
  (next nd = UNCONNECTED /\ pending_link (bpcs s) p (cn s !! pred (pred x))) \/
  exists sv, next nd = Ptr (Some sv) /\ cn s !! pred (pred x) = Some sv.
Proof.
  intros I Hax Hp Hn Ha. destruct (i_links _ _ _ _ I) as (L1 & L2 & _ & L4). specialize (L4 _ p nd Hp Hn).
  unfold link_ok in L4. rewrite decide_False in L4 by lia. rewrite decide_False in L4 by lia.
  destruct L4 as [L4|[? ?]]; [right|by left].
  destruct (lookup_lt_is_Some_2 (cn s) (pred (pred x))) as [sv Hsv]; [lia|]. exists sv. by rewrite L4, Hsv.
Qed.

(** One more node has been reversed. *)
Lemma reversed_links a x y s p nd pcs : BInv a x y s -> (a < x)%nat -> cn s !! pred x = Some p -> nodes s !! p = Some nd ->
  (forall n q, pending_link (bpcs s) n q -> pending_link pcs n q) ->
  Links a (pred x) y (with_pcs (with_node s p (set_next (Ptr (if decide (x < y)%nat then cn s !! x else None)) nd)) pcs).
Proof.
  intros I Hax Hp Hn Hq. destruct (i_links _ _ _ _ I) as (L1 & L2 & L3 & L4). split_and!; [lia|lia|done|done|].
  intros i m md Hi Em. change (cn s !! i = Some m) in Hi. cbn [nodes with_pcs with_node with_nodes bpcs] in *.
  change (cn (with_pcs (with_node s p _) pcs)) with (cn s). destruct (decide (p = m)) as [->|Hne].
  - rewrite lookup_insert_eq in Em. injection Em as <-. assert (i = pred x) as -> by by apply (cn_inj a x y s _ _ m I).
    unfold link_ok. rewrite decide_False by lia. rewrite decide_True by lia. cbn [next set_next].
    by replace (S (pred x)) with x by lia.
  - rewrite lookup_insert_ne in Em by done. specialize (L4 i m md Hi Em). unfold link_ok in *.
    assert (i <> pred x) as Hix by (intros ->; congruence).
    destruct (decide (i < a)%nat); [done|].
    destruct (decide (x <= i < y)%nat); [by rewrite (decide_True (P := (pred x <= i < y)%nat)) by lia|].
    rewrite (decide_False (P := (pred x <= i < y)%nat)) by lia.
    destruct L4 as [L4|[L4 L5]]; [by left|right]. split; [done|by apply Hq].
Qed.

(** The old list is linked with the reversed one. *)
Lemma joined_links a y s nds old od p pcs : (forall i n nd, cn s !! i = Some n -> nds !! n = Some nd ->
    link_ok pcs (cn s) a a y i n (next nd)) -> (1 <= a < y)%nat -> (y <= length (cn s))%nat -> NoDup (cn s) ->
  cn s !! pred a = Some old -> cn s !! a = Some p ->
  Links y y y (with_pcs (with_nodes s (<[old := set_next (Ptr (Some p)) od]> nds)) pcs).
Proof.
  intros L Ha Hy N Hold Hp. split_and!; [lia|lia|done|lia|]. intros i m md Hi Em. change (cn s !! i = Some m) in Hi.
  cbn [nodes with_pcs with_nodes bpcs] in *. change (cn (with_pcs (with_nodes s _) pcs)) with (cn s).
  destruct (decide (old = m)) as [->|Hne].
  - rewrite lookup_insert_eq in Em. injection Em as <-. assert (i = pred a) as -> by by apply (NoDup_lookup (cn s) _ _ m).
    unfold link_ok. rewrite decide_True by lia. rewrite decide_True by lia. cbn [next set_next].
    replace (S (pred a)) with a by lia. by rewrite Hp.
  - rewrite lookup_insert_ne in Em by done. specialize (L i m md Hi Em). unfold link_ok in *.
    assert (i <> pred a) as Hix by (intros ->; congruence).
    destruct (decide (i < a)%nat).
    + rewrite decide_True in L by lia. rewrite decide_True by lia. by rewrite decide_True by lia.
    + destruct (decide (i < y)%nat); [rewrite decide_True in L by lia; done|].
      rewrite (decide_False (P := (a <= i < y)%nat)) in L by lia. by rewrite (decide_False (P := (y <= i < y)%nat)) by lia.
Qed.

Lemma reverse_ok a x y s t c0 old p tail nt : BInv a x y s -> bpcs s !! t = Some (MReverse c0 old p tail nt) ->
  Good (reverse_round s t c0 old p tail nt).
Proof.
  intros I H. pose proof (consumer _ _ _ _ _ _ I H eq_refl) as (Hctx & Hd & Hold & Hax & Hp & -> & Hnt).
  assert (H0 : cn s !! O = Some (ctx_head c0)) by (destruct c0; cbn in *; tauto).
  pose proof (head_linked _ _ _ _ _ I H0) as Ha. pose proof (i_links _ _ _ _ I) as (L1 & L2 & _).
  destruct (at_index a x y s _ p I Hp) as (nd & k & Hn & _ & Hin & _).
  assert (Hpc : p ∈ cn s) by by eapply list_elem_of_lookup_2.
  unfold reverse_round, node. rewrite Hn.
  destruct (reverse_link a x y s p nd I Hax Hp Hn Ha) as [[-> _]|(sv & Hx & Hsv)]; [by apply (Good_Go a x y)|].
  rewrite Hx. set (tl := if decide (x < y)%nat then _ else _) in *. set (nx := Ptr tl).
  set (pc := MReverse c0 old p tl nt) in *.
  assert (HQ : forall pc' n q, pending_link (bpcs s) n q -> pending_link (<[t := pc']> (bpcs s)) n q)
    by (intros pc' n q; by apply (pending_link_move s t pc)).
  assert (R : renext s (<[p := set_next nx nd]> (nodes s))).
  { apply renext_set; [apply renext_refl|done|done|]. intros md Hm. rewrite Hn in Hm. injection Hm as <-. by rewrite Hx. }
  assert (A : alike pc (LTop (Loop 0 None false false))) by done.
  assert (E0 : forall nds m P, renext s nds -> (forall nd nx, P nd -> P (set_next nx nd)) -> at_node s m P ->
            at_node (with_nodes s nds) m P).
  { intros nds m P R' HP (md & Hm & HPm). destruct (proj1 (proj2 R') m md Hm) as (nx' & E & _). exists (set_next nx' md). eauto. }
  destruct (decide (sv = old)) as [->|Hne].
  - assert (pred (pred x) = pred a) as Exa by by apply (cn_inj a x y s _ _ old I).
    assert (pred x = a) as Epx by lia. rewrite Epx in Hp.
    assert (old <> p) as Hop by (intros ->; pose proof (cn_inj a x y s _ _ p I Hold Hp); lia).
    destruct (at_index a x y s _ old I Hold) as (od & k2 & Hod & _).
    assert (Ho' : <[p := set_next nx nd]> (nodes s) !! old = Some od) by by rewrite lookup_insert_ne.
    change (nodes (with_node s p (set_next nx nd))) with (<[p := set_next nx nd]> (nodes s)). rewrite Ho'.
    set (nds := <[old := set_next (Ptr (Some p)) od]> (<[p := set_next nx nd]> (nodes s))).
    change (with_node (with_node s p (set_next nx nd)) old _) with (with_nodes s nds).
    assert (R' : renext s nds).
    { apply renext_set; [done|by eapply list_elem_of_lookup_2|done|]. intros md Hm. rewrite Hod in Hm. injection Hm as <-.
      rewrite (next_of a x y s _ old od I Hold ltac:(lia) Hod). done. }
    assert (HL : forall pc', Links y y y (at_pc (with_nodes s nds) t pc')).
    { intros pc'. pose proof (reversed_links a x y s p nd (<[t := pc']> (bpcs s)) I Hax) as (_ & _ & _ & L4);
        [by rewrite Epx|done|apply HQ|]. rewrite Epx in L4.
      apply (joined_links a y s (<[p := set_next nx nd]> (nodes s)) old od p); try done; [lia|exact (NoDup_cn a x y s I)]. }
    apply (more_ok y y y (with_nodes s nds) t pc); try done.
    + intros pc' A' Hc' Hok. apply (renext_ok a x y y y y s t pc pc' nds I H eq_refl A' Hc' R' (HL pc') Hok).
    + intros md _ _. lia.
    + destruct c0 as [n|h ct d own]; [|by intros m [= <-]]. apply E0; [done|done|].
      destruct Hctx as (_ & _ & md & Hm & _ & Hq). by exists md.
  - assert (pred x <> a) as Hxa by (intros E; rewrite E in Hsv; congruence).
    apply (Good_Go a (pred x) y).
    apply (renext_ok a x y a (pred x) y s t pc _ (<[p := set_next nx nd]> (nodes s)) I H eq_refl); try done.
    + exact (reversed_links a x y s p nd _ I Hax Hp Hn (HQ _)).
    + split_and!; try done; [|lia|by rewrite decide_True by lia].
      destruct c0 as [n|h ct d own]; cbn in Hctx |- *; destruct_and!; split_and!; try done; [by apply E0|].
      intros E. cbn in Hd. congruence.
Qed.

(** ** _execute_tasks *)

Lemma return_head_ok a x y s t pc h nd f : BInv a x y s -> x = a -> y = a -> bpcs s !! t = Some pc -> token pc = 1 -> ending pc = 0 ->
  cn s !! O = Some h -> nodes s !! h = Some nd -> iterated nd = true -> (2 <= a)%nat ->
  (forall h' s', cn s !! 1%nat = Some h' -> cn s' = tail (cn s) -> alike pc (f h') -> counted (f h') = counted pc -> 
     consumer_ok (pred a) (pred a) (pred a) s' (f h')) ->
  (forall h', alike pc (f h') /\ counted (f h') = counted pc) ->
  Good (return_head s h (fun h' s => Go (at_pc s t (f h')))).
Proof.
  intros I -> -> H Ht He H0 Hn Hi Ha Hok Hf. destruct a as [|a]; [lia|].
  destruct (at_index _ _ _ s O h I H0) as (nd' & k & Hn' & _ & _ & (md & e & E1 & E2 & E3 & E4 & E5 & E6)).
  rewrite Hn in Hn'. injection Hn' as <-. rewrite Hn in E1. injection E1 as <-. rewrite Hi in E6.
  unfold return_head, node. rewrite Hn, (next_of _ _ _ s O h nd I H0 ltac:(lia) Hn), decide_True by lia.
  destruct (linked_some _ _ _ s 1 I) as [h' Hh']; [lia|]. rewrite Hh'.
  rewrite (return_task_node_eq s h nd Hn Hi E6).
  - destruct (Hf h') as [A Hc]. apply (Good_Go a a a). apply (pop_ok a s t pc (f h') h nd); try done; [lia|].
    apply Hok; try done. destruct (split_head _ _ _ s h I H0) as (k' & l & F1 & F2 & F3 & F4).
    unfold returned. unfold cn. cbn [chain with_chain]. rewrite F4, F1. done.
  - destruct (stop_task nd) eqn:Es; [by left|right]. rewrite E3. intros E. apply E5 in E. congruence.
Qed.

Lemma ctx_tail a s s' h h' ct d own : ctx_ok a s (Loop h ct d own) -> (2 <= a)%nat -> (a <= length (cn s))%nat -> cn s !! 1%nat = Some h' ->
  cn s' = tail (cn s) -> ctx_ok (pred a) s' (Loop h' ct d own).
Proof.
  intros (H0 & Hct & Hd) Ha Hl Hh' Et. assert (L : forall i, cn s' !! i = cn s !! S i) by (intros i; rewrite Et; by destruct (cn s)).
  split_and!.
  - by rewrite L.
  - intros tl E. rewrite L. specialize (Hct tl E). rewrite <-Hct. f_equal. lia.
  - intros E. destruct (Hd E) as (E1 & _). rewrite E1 in Hl. cbn in Hl. lia.
Qed.

Lemma start_loop_ok a x y s t n own : BInv a x y s -> bpcs s !! t = Some (LStart n own) -> Good (loop_step s t (LStart n own)).
Proof.
  intros I H. pose proof (consumer _ _ _ _ _ _ I H eq_refl) as (Ex & Ey & H0 & Hh & (nd & Hn & Hq)).
  cbn [loop_step]. unfold node. rewrite Hn, Hq. apply (Good_Go a x y), (go a x y s t (LStart n own)); try done.
Qed.

Lemma top_ok a x y s t c0 : BInv a x y s -> bpcs s !! t = Some (LTop c0) -> Good (loop_step s t (LTop c0)).
Proof.
  intros I H. pose proof (consumer _ _ _ _ _ _ I H eq_refl) as (Ex & Ey & Hok). destruct c0 as [|h ct d own]; [done|].
  destruct Hok as (Hctx & -> & Hh). pose proof Hctx as (H0 & _).
  destruct (at_index a x y s O h I H0) as (nd & k & Hn & _). cbn [loop_step]. unfold node. rewrite Hn.
  destruct (iterated nd) eqn:Hi.
  - specialize (Hh nd Hn Hi). apply (return_head_ok a x y s t _ h nd (fun h' => LPick (Loop h' ct false own)) I Ex Ey H); try done.
    intros h' s' Hh' Et _ _. split_and!; try done; apply (ctx_tail a s s' h); try done; by apply (linked_length a x y).
  - apply (Good_Go a x y), (go a x y s t (LTop (Loop h ct false own))); try done.
Qed.

(** A head that is the stop task: no task of high priority is counted. *)
Lemma stop_counter a x y s t pc h k nd : BInv a x y s -> bpcs s !! t = Some pc -> token pc = 1 -> counted pc = 0 ->
  chain s !! O = Some (h, k) -> nodes s !! h = Some nd -> stop_task nd = true -> _high_priority_tasks s = 0.
Proof.
  intros I H Ht Hc Hch Hn Hs. destruct (stop_alone a x y s O h k nd I Hch Hn Hs) as (Hl & Hhi & Hp1 & Hp2 & _).
  rewrite (i_high _ _ _ _ I). assert (pending (nodes s) (chain s) true = []) as ->.
  { destruct (chain s) as [|p [|]]; cbn in Hl; try lia. injection Hch as ->. rewrite pending_cons.
    unfold waits. cbn [fst]. by rewrite Hn, Hhi, andb_false_r. }
  rewrite sumz_0; [done|]. intros t' p Hp. destruct (decide (t' = t)) as [->|Hne]; [congruence|].
  pose proof (token_unique a x y s t t' pc p I H Hp Ht Hne) as H0.
  pose proof (sumz_elem pushes (bpcs s) t' p pushes_nonneg Hp). pose proof (sumz_elem pushes_stop (bpcs s) t' p pushes_stop_nonneg Hp).
  destruct p; cbn in *; try done. pose proof (is_stop_range e). lia.
Qed.

Lemma pick_ok a x y s t c0 : BInv a x y s -> bpcs s !! t = Some (LPick c0) -> Good (loop_step s t (LPick c0)).
Proof.
  intros I H. pose proof (consumer _ _ _ _ _ _ I H eq_refl) as (Ex & Ey & Hok). destruct c0 as [|h ct d own]; [done|].
  destruct Hok as (Hctx & ->). pose proof Hctx as (H0 & _).
  destruct (at_index a x y s O h I H0) as (nd & k & Hn & Hch & _). cbn [loop_step].
  apply (Good_Go a x y), (go a x y s t (LPick (Loop h ct false own))); try done. split_and!; try done.
  intros Hhi. exists nd. split; [done|]. destruct (stop_task nd) eqn:Hs; [|done].
  by rewrite (stop_counter a x y s t _ h k nd I H eq_refl eq_refl Hch Hn Hs) in Hhi.
Qed.

Lemma release_step_ok a x y s t c0 : BInv a x y s -> bpcs s !! t = Some (LRelease c0) -> Good (loop_step s t (LRelease c0)).
Proof.
  intros I H. pose proof (consumer _ _ _ _ _ _ I H eq_refl) as (Ex & Ey & Hok). destruct c0 as [|h ct d own]; [done|].
  pose proof Hok as (H0 & Hct & Hd). pose proof (head_linked _ _ _ _ _ I H0) as Ha.
  destruct (at_index a x y s O h I H0) as (nd & k & Hn & _). cbn [loop_step]. unfold node. rewrite Hn.
  rewrite (next_of a x y s O h nd I H0 ltac:(lia) Hn).
  assert (Hgo : alone_ok a s h -> Good match ct with
      | None => Go (at_pc s t (LTail (Loop h ct d own) h))
      | Some tl => Go (at_pc s t (MCas (Loop h ct d own) tl (negb (iterated nd)))) end).
  { intros Hal. destruct ct as [tl|]; apply (Good_Go a x y); (eapply go; [done|exact H|done|done|done|]).
    - split_and!; try done; [by apply Hct|by exists nd| |by intros ? ? ? ? [= -> -> -> ->]].
      intros E. apply (Hal nd Hn). by destruct (iterated nd).
    - split_and!; try done. exists O. split; [lia|done]. }
  destruct (decide (1 < a)%nat) as [Ha1|Ha1].
  - destruct (linked_some a x y s 1 I Ha1) as [h' Hh']. rewrite Hh'. destruct (iterated nd) eqn:Hi.
    + assert (d = false) as ->.
      { destruct d; [|done]. destruct (Hd eq_refl) as (E & _). by rewrite E in Hh'. }
      apply (return_head_ok a x y s t _ h nd (fun h' => LRelease (Loop h' ct false own)) I Ex Ey H); try done.
      intros h2 s' Hh2 Et _ _. split_and!; try done. apply (ctx_tail a s s' h); try done. by apply (linked_length a x y).
    + apply Hgo. intros md Hm Hi'. congruence.
  - apply Hgo. intros md _ _. lia.
Qed.

Lemma tail_ok a x y s t c0 tl : BInv a x y s -> bpcs s !! t = Some (LTail c0 tl) -> Good (loop_step s t (LTail c0 tl)).
Proof.
  intros I H. pose proof (consumer _ _ _ _ _ _ I H eq_refl) as (Ex & Ey & Hok). destruct c0 as [|h ct d own]; [done|].
  destruct Hok as (Hctx & -> & Hal & j & Hj & Hjt). pose proof Hctx as (H0 & _ & Hd).
  destruct (at_index a x y s j tl I Hjt) as (nd & k & Hn & _). destruct (at_index a x y s O h I H0) as (hd & kh & Hhd & _).
  cbn [loop_step]. unfold node. rewrite Hn, (next_of a x y s j tl nd I Hjt Hj Hn). case_decide as Hlt.
  - destruct (linked_some a x y s (S j) I Hlt) as [m Hm]. rewrite Hm.
    apply (Good_Go a x y), (go a x y s t (LTail (Loop h None d own) tl)); try done. split_and!; try done. by exists (S j).
  - rewrite Hhd. assert (cn s !! pred a = Some tl) as Hp by (rewrite <-Hjt; f_equal; lia).
    apply (Good_Go a x y), (go a x y s t (LTail (Loop h None d own) tl)); try done. cbn. split_and!; try done.
    + by intros t0 [= <-].
    + by exists hd.
    + intros E. apply (Hal hd Hhd). by destruct (iterated hd).
    + by intros ? ? ? ? [= -> -> -> ->].
Qed.

Lemma in_place_return_ok a x y s t n : BInv a x y s -> bpcs s !! t = Some (IReturn n) ->
  exists s', return_task_node s n = Go s' /\ BInv a x y (at_pc s' t (BDone 0)).
Proof.
  intros I H. destruct (other a x y s t _ I H eq_refl) as (nd & Hn & Hi & Hs & Hm).
  rewrite (return_task_node_eq s n nd Hn Hi Hs Hm). eexists. split; [done|].
  by apply (return_owned a x y s t (IReturn n) (BDone 0) n nd).
Qed.

Lemma return_last_ok a x y s t c0 : BInv a x y s -> bpcs s !! t = Some (LReturn c0) -> Good (loop_step s t (LReturn c0)).
Proof.
  intros I H. pose proof (other a x y s t _ I H eq_refl) as Hok. destruct c0 as [|h ct d own]; [done|].
  destruct Hok as ((nd & Hn & Hi & Hs & Hm) & Hd). cbn [loop_step].
  rewrite (return_task_node_eq s h nd Hn Hi Hs Hm). apply (Good_Go a x y).
  apply (return_owned a x y s t (LReturn (Loop h ct d own)) _ h nd); try done; try (by destruct d, own); try (by intros; destruct d, own).
  destruct d; [by apply Hd|by destruct own].
Qed.

(** ** Steps that leave the list alone *)

(** Threads move, and what join() and the pool of queues see may change. *)
Lemma threads_ok a x y s pcs butex ret cl : BInv a x y s ->
  (forall n, sumz (owns n) pcs = sumz (owns n) (bpcs s)) -> sumz token pcs = sumz token (bpcs s) ->
  sumz counted pcs = sumz counted (bpcs s) -> (forall n p, pending_link (bpcs s) n p -> pending_link pcs n p) ->
  (forall t pc, pcs !! t = Some pc -> pc_ok a x y s pc) ->
  sumz pushes_stop pcs + sumz is_stop (pushed s) = b2z cl -> (cl = true -> sumz pushes pcs = 0) ->
  sumz ending pcs + b2z (negb (butex =? i32 V)) = stops s -> butex = i32 V \/ butex = i32 (i32 V + 2) ->
  sumz freeing pcs + b2z ret = b2z (negb (butex =? i32 V)) -> one_linker pcs ->
  (forall t v, pcs !! t = Some (JBlocked v) -> i32 v = butex \/ 0 < sumz waking pcs) ->
  (negb (butex =? i32 V) = true -> chain s = []) ->
  BInv a x y (mkQueue (nodes s) (pool s) (_head s) (_high_priority_tasks s) butex ret pcs
                      (chain s) (pushed s) (handles s) (log s) cl).
Proof.
  intros I H1 H2 H3 H4 H5 H6 H7 H8 H9 H10 H11 H12 H13. parts I; try done; try lia.
  - intros n. rewrite H1. apply i_usage0.
  - apply (Links_pcs a x y s); done.
Qed.

Lemma waking_nonneg pc : 0 <= waking pc.
Proof. by destruct pc. Qed.
Lemma freeing_nonneg pc : 0 <= freeing pc.
Proof. by destruct pc. Qed.

Lemma pcs_insert_ok a x y s t pc' : BInv a x y s -> pc_ok a x y s pc' ->
  forall t' pc, <[t := pc']> (bpcs s) !! t' = Some pc -> pc_ok a x y s pc.
Proof.
  intros I Hok t' pc H. apply list_lookup_insert_Some in H as [(-> & -> & _)|[_ H]]; [done|]. by apply (i_pcs _ _ _ _ I t').
Qed.

(** One thread [t] moves. *)
Lemma moves_ok a x y s t pc pc' butex ret cl : BInv a x y s -> bpcs s !! t = Some pc ->
  (forall n, owns n pc' = owns n pc) -> token pc' = token pc -> counted pc' = counted pc -> not_link pc -> not_link pc' ->
  (forall v, pc' <> JBlocked v) -> waking pc = 0 -> pc_ok a x y s pc' ->
  b2z cl = b2z (closed s) + pushes_stop pc' - pushes_stop pc ->
  (cl = true -> sumz pushes (bpcs s) + pushes pc' = pushes pc) ->
  ending pc' + b2z (negb (butex =? i32 V)) = ending pc + b2z (bumped s) ->
  butex = i32 V \/ butex = i32 (i32 V + 2) ->
  freeing pc' + b2z ret + b2z (bumped s) = freeing pc + b2z (slot_returned s) + b2z (negb (butex =? i32 V)) ->
  (butex = _join_butex s \/ waking pc' = 1) -> (negb (butex =? i32 V) = true -> chain s = []) ->
  BInv a x y (mkQueue (nodes s) (pool s) (_head s) (_high_priority_tasks s) butex ret (<[t := pc']> (bpcs s))
                      (chain s) (pushed s) (handles s) (log s) cl).
Proof.
  intros I H A1 A2 A3 A4 A5 HJ A6 Hok H1 H2 H3 H4 H5 H6 H7.
  apply (threads_ok _ _ _ _ _ _ _ _ I); rewrite ?(sumz_insert _ _ _ _ _ H), ?A2, ?A3; try done; try lia.
  - intros n. rewrite (sumz_insert _ _ _ _ _ H), A1. lia.
  - intros n q. by apply (pending_link_move s t pc).
  - by apply pcs_insert_ok.
  - pose proof (i_closed _ _ _ _ I). lia.
  - intros E. specialize (H2 E). lia.
  - pose proof (i_ending _ _ _ _ I). lia.
  - pose proof (i_freeing _ _ _ _ I). lia.
  - apply one_linker_move; [done|]. apply (i_linkers _ _ _ _ I).
  - intros t' v Ht. apply list_lookup_insert_Some in Ht as [(_ & E & _)|[_ Ht]]; [by destruct (HJ v)|].
    pose proof (sumz_nonneg waking (bpcs s) waking_nonneg). destruct H6 as [->|H6]; [|right; lia].
    destruct (i_joiners _ _ _ _ I t' v Ht) as [?|?]; [by left|right]. pose proof (waking_nonneg pc'). lia.
Qed.

(** The same when only program counters change. *)
Lemma at_pc_ok a x y s t pc pc' : BInv a x y s -> bpcs s !! t = Some pc ->
  (forall n, owns n pc' = owns n pc) -> token pc' = token pc -> counted pc' = counted pc -> not_link pc -> not_link pc' ->
  (forall v, pc' <> JBlocked v) -> waking pc = 0 -> pc_ok a x y s pc' -> pushes_stop pc' = pushes_stop pc ->
  (closed s = true -> pushes pc' <= pushes pc) -> 0 <= pushes pc' -> ending pc' = ending pc -> freeing pc' = freeing pc ->
  BInv a x y (at_pc s t pc').
Proof.
  intros I H A1 A2 A3 A4 A5 HJ A6 Hok H1 H2 H2' H3 H5.
  apply (moves_ok a x y s t pc pc' (_join_butex s) (slot_returned s) (closed s) I H); try done; unfold bumped in *; try lia.
  - intros E. specialize (H2 E). pose proof (i_closing _ _ _ _ I E) as Hc.
    pose proof (sumz_elem pushes (bpcs s) t pc pushes_nonneg H). lia.
  - apply (i_butex _ _ _ _ I).
  - apply (i_bumped _ _ _ _ I).
Qed.

Lemma start_ok a x y s t e place : BInv a x y s -> bpcs s !! t = Some BIdle -> closed s = false -> e_task e <> None ->
  BInv a x y (at_pc s t (BStart e place)).
Proof.
  intros I H Hc He. apply (at_pc_ok a x y s t BIdle); try done; try congruence.
  - cbn. unfold is_stop. by destruct (e_task e).
  - apply (pushes_nonneg (BStart e place)).
Qed.

Lemma start_stop_ok a x y s t : BInv a x y s -> bpcs s !! t = Some BIdle -> closed s = false -> sumz pushes (bpcs s) = 0 ->
  BInv a x y (at_pc (with_closed s) t (BStart (mkEntry None false) false)).
Proof.
  intros I H Hc Hp. apply (moves_ok a x y s t BIdle _ (_join_butex s) (slot_returned s) true I H); try done.
  - by rewrite Hc.
  - intros _. cbn. lia.
  - apply (i_butex _ _ _ _ I).
  - by left.
  - apply (i_bumped _ _ _ _ I).
Qed.

(** execute() fails before it pushes. *)
Lemma no_node_ok a x y s t e place : BInv a x y s -> bpcs s !! t = Some (BStart e place) -> e_task e <> None ->
  BInv a x y (at_pc s t (BDone ENOMEM)).
Proof.
  intros I H He. apply (at_pc_ok a x y s t (BStart e place)); try done.
  - cbn. unfold is_stop. by destruct (e_task e).
  - intros _. apply (pushes_nonneg (BStart e place)).
Qed.

Lemma done_ok a x y s t rc : BInv a x y s -> bpcs s !! t = Some (BDone rc) -> BInv a x y (at_pc s t BIdle).
Proof. intros I H. by apply (at_pc_ok a x y s t (BDone rc)). Qed.

Lemma start_join_ok a x y s t v : BInv a x y s -> bpcs s !! t = Some BIdle -> BInv a x y (at_pc s t (JLoad v)).
Proof. intros I H. by apply (at_pc_ok a x y s t BIdle). Qed.

(** *** A stopped queue *)

Lemma butex_differs : negb (i32 (i32 V + 2) =? i32 V) = true.
Proof.
  destruct (Z.eqb_spec (i32 (i32 V + 2)) (i32 V)) as [E|]; [exfalso|done].
  rewrite wraps_add_l in E. unfold wraps in E. change (2 ^ (32 - 1)) with 2147483648 in E. change (2 ^ 32) with 4294967296 in E. Z.to_euclidean_division_equations. lia.
Qed.

(** The thread between the stop task and the wake-up. *)
Lemma ending_facts a x y s t pc : BInv a x y s -> bpcs s !! t = Some pc -> ending pc = 1 ->
  closed s = true /\ bumped s = false /\ stops s = 1.
Proof.
  intros I H He. pose proof (sumz_elem ending (bpcs s) t pc (fun p => proj1 (ending_nonneg p)) H).
  pose proof (i_ending _ _ _ _ I). pose proof (b2z_range (bumped s)). destruct (i_stops _ _ _ _ I) as [Hs _].
  assert (stops s = 1) as Hs1 by lia. split_and!; [|destruct (bumped s); [cbn in *; lia|done]|done].
  assert (1 <= stops s) as Hk by lia. apply stops_elem in Hk as [k Hk]. destruct (i_stopped _ _ _ _ I k Hk) as [(e & E & Hn) _].
  pose proof (sumz_elem is_stop (pushed s) k e (fun e => proj1 (is_stop_range e)) E) as Hx. unfold is_stop in Hx at 1. rewrite Hn in Hx.
  pose proof (sumz_nonneg pushes_stop (bpcs s) pushes_stop_nonneg). pose proof (i_closed _ _ _ _ I).
  destruct (closed s); [done|cbn in *; lia].
Qed.

Lemma destroy_ok a x y s t c0 (stopped : bool) : BInv a x y s -> bpcs s !! t = Some (LDestroy c0) -> (closed s = true -> stopped = true) ->
  Good (destroy_step stopped s t (LDestroy c0)).
Proof.
  intros I H Hst. pose proof (other a x y s t _ I H eq_refl) as Hok. destruct c0 as [|h ct d own]; [done|]. cbn in Hok.
  destruct (ending_facts a x y s t _ I H eq_refl) as (Hc & Hb & Hs). cbn [destroy_step].
  rewrite (i_head _ _ _ _ I), Hok, (Hst Hc). cbn [last]. apply (Good_Go a x y).
  assert (_join_butex s = i32 V) as Ej by (unfold bumped in Hb; destruct (Z.eqb_spec (_join_butex s) (i32 V)); done).
  apply (moves_ok a x y s t _ (LWake (Loop h ct d own)) (i32 (_join_butex s + 2)) (slot_returned s) (closed s) I H); try done.
  - rewrite Hc. cbn. lia.
  - intros _. cbn. pose proof (i_closing _ _ _ _ I Hc). lia.
  - rewrite Ej, butex_differs, Hb. done.
  - rewrite Ej. by right.
  - rewrite Ej, butex_differs, Hb. cbn. lia.
  - by right.
  - intros _. unfold cn in Hok. by apply fmap_nil_inv in Hok.
Qed.

Lemma free_ok a x y s t c0 (stopped : bool) : BInv a x y s -> bpcs s !! t = Some (LFree c0) -> Good (destroy_step stopped s t (LFree c0)).
Proof.
  intros I H. pose proof (other a x y s t _ I H eq_refl) as Hok. destruct c0 as [|h ct d own]; [done|]. cbn [destroy_step].
  pose proof (sumz_elem freeing (bpcs s) t _ freeing_nonneg H) as Hf. cbn in Hf. pose proof (i_freeing _ _ _ _ I) as Hr.
  assert (slot_returned s = false) as Er by (destruct (slot_returned s), (bumped s); cbn in *; try lia; done).
  apply (Good_Go a x y).
  apply (moves_ok a x y s t _ (finish own) (_join_butex s) true (closed s) I H); try done; try (by destruct own); try (by intros; destruct own).
  - destruct own; cbn; lia.
  - intros Hc. pose proof (i_closing _ _ _ _ I Hc). destruct own; cbn; lia.
  - apply (i_butex _ _ _ _ I).
  - rewrite Er. unfold bumped. destruct own; cbn; lia.
  - by left.
  - apply (i_bumped _ _ _ _ I).
Qed.

Definition woken pc : bpc T := match pc with JBlocked v => JLoad v | pc => pc end.

Lemma sumz_woken (f : bpc T -> Z) pcs : (forall v, f (JLoad v) = f (JBlocked v)) -> sumz f (map woken pcs) = sumz f pcs.
Proof.
  intros Hf. induction pcs as [|pc pcs IH]; [done|]. cbn [map]. rewrite !sumz_cons, IH. f_equal. by destruct pc; cbn.
Qed.

Lemma lookup_woken pcs t pc : map woken pcs !! t = Some pc -> exists pc0, pcs !! t = Some pc0 /\ pc = woken pc0.
Proof. intros H. apply list_lookup_fmap_Some in H as (pc0 & -> & H). by exists pc0. Qed.

Lemma wake_ok a x y s t c0 (stopped : bool) : BInv a x y s -> bpcs s !! t = Some (LWake c0) -> Good (destroy_step stopped s t (LWake c0)).
Proof.
  intros I H. pose proof (other a x y s t _ I H eq_refl) as Hok. destruct c0 as [|h ct d own]; [done|]. cbn [destroy_step].
  change (map _ (bpcs s)) with (map woken (bpcs s)). apply (Good_Go a x y).
  assert (H' : map woken (bpcs s) !! t = Some (LWake (Loop h ct d own)))
    by (change (map woken (bpcs s)) with (woken <$> bpcs s); by rewrite list_lookup_fmap, H).
  apply (threads_ok a x y s (<[t := LFree (Loop h ct d own)]> (map woken (bpcs s))) (_join_butex s) (slot_returned s) (closed s) I);
    rewrite ?(sumz_insert _ _ _ _ _ H'), ?sumz_woken by done; cbn [token counted pushes pushes_stop ending freeing waking]; try lia.
  - intros n. rewrite (sumz_insert _ _ _ _ _ H'), sumz_woken by done. cbn. lia.
  - intros n q (t1 & p1 & -> & H1). exists t1, p1. split; [done|].
    assert (t <> t1) by (intros ->; rewrite H in H1; done). rewrite list_lookup_insert_ne by done.
    change (map woken (bpcs s)) with (woken <$> bpcs s). by rewrite list_lookup_fmap, H1.
  - intros t1 p1 H1. apply list_lookup_insert_Some in H1 as [(_ & <- & _)|[_ H1]]; [done|].
    apply lookup_woken in H1 as (p0 & H1 & ->). pose proof (i_pcs _ _ _ _ I t1 p0 H1) as Hp. by destruct p0.
  - pose proof (i_closed _ _ _ _ I). lia.
  - intros Hc. pose proof (i_closing _ _ _ _ I Hc). lia.
  - pose proof (i_ending _ _ _ _ I). unfold bumped in *. lia.
  - apply (i_butex _ _ _ _ I).
  - pose proof (i_freeing _ _ _ _ I). unfold bumped in *. lia.
  - apply one_linker_move; [done|]. intros t1 t2 n p1 p2 H1 H2.
    apply lookup_woken in H1 as (q1 & H1 & E1). apply lookup_woken in H2 as (q2 & H2 & E2).
    destruct q1; try done. destruct q2; try done. cbn in E1, E2. injection E1 as -> ->. injection E2 as -> ->.
    by apply (i_linkers _ _ _ _ I t1 t2 _ _ _ H1 H2).
  - intros t1 v H1. apply list_lookup_insert_Some in H1 as [(_ & E & _)|[_ H1]]; [done|].
    apply lookup_woken in H1 as (p0 & _ & E). by destruct p0.
  - apply (i_bumped _ _ _ _ I).
Qed.

(** Another thread is started. *)
Lemma spawn_ok a x y s t t' n : BInv a x y s -> bpcs s !! t = Some (BSpawn n) -> bpcs s !! t' = Some BIdle ->
  BInv a x y (at_pc (at_pc s t' (LStart n false)) t (BDone 0)).
Proof.
  intros I H H'. pose proof (consumer _ _ _ _ _ _ I H eq_refl) as Hok. assert (t' <> t) as Hne by (intros ->; congruence).
  assert (H2 : <[t' := LStart n false]> (bpcs s) !! t = Some (BSpawn n)) by by rewrite list_lookup_insert_ne.
  apply (threads_ok a x y s (<[t := BDone 0]> (<[t' := LStart n false]> (bpcs s))) (_join_butex s) (slot_returned s) (closed s) I);
    rewrite ?(sumz_insert _ _ _ _ _ H2), ?(sumz_insert _ _ _ _ _ H'); cbn [token counted pushes pushes_stop ending freeing waking]; try lia.
  - intros m. rewrite (sumz_insert _ _ _ _ _ H2), (sumz_insert _ _ _ _ _ H'). cbn. lia.
  - intros m q (t1 & p1 & -> & H1). exists t1, p1. split; [done|].
    rewrite !list_lookup_insert_ne; [done|intros ->; congruence..].
  - intros t1 p1 H1. apply list_lookup_insert_Some in H1 as [(_ & <- & _)|[_ H1]]; [done|].
    apply list_lookup_insert_Some in H1 as [(_ & <- & _)|[_ H1]]; [by apply pc_ok_token|by apply (i_pcs _ _ _ _ I t1)].
  - pose proof (i_closed _ _ _ _ I). lia.
  - intros Hc. pose proof (i_closing _ _ _ _ I Hc). lia.
  - pose proof (i_ending _ _ _ _ I). unfold bumped in *. lia.
  - apply (i_butex _ _ _ _ I).
  - pose proof (i_freeing _ _ _ _ I). unfold bumped in *. lia.
  - do 2 (apply one_linker_move; [done|]). apply (i_linkers _ _ _ _ I).
  - intros t1 v H1. apply list_lookup_insert_Some in H1 as [(_ & E & _)|[_ H1]]; [done|].
    apply list_lookup_insert_Some in H1 as [(_ & E & _)|[_ H1]]; [done|].
    destruct (i_joiners _ _ _ _ I t1 v H1) as [?|?]; [by left|right; lia].
  - apply (i_bumped _ _ _ _ I).
Qed.

(** The thread runs the tasks itself. *)
Lemma run_here_ok a x y s t n : BInv a x y s -> bpcs s !! t = Some (BSpawn n) -> BInv a x y (at_pc s t (LStart n true)).
Proof.
  intros I H. pose proof (consumer _ _ _ _ _ _ I H eq_refl) as Hok. by apply (go a x y s t (BSpawn n)).
Qed.

(** ** The node of a new task *)

Lemma get_object_ok a x y s n nd s1 : BInv a x y s -> get_object s n = Some (nd, s1) ->
  s1 = with_pool s (pool s1) /\ (n ∉ cn s) /\ (n ∉ pool s1) /\ sumz (owns n) (bpcs s) = 0 /\
  (forall m, m <> n -> (m ∈ pool s1 <-> m ∈ pool s)) /\
  (forall v k, (n, v, k) ∈ handles s -> v < version nd).
Proof.
  intros I E. unfold get_object in E. pose proof (i_usage _ _ _ _ I n) as U.
  pose proof (sumz_nonneg (owns n) (bpcs s) (fun z => proj1 (owns_nonneg n z))) as Ho.
  pose proof (sumz_nonneg (uses n) (chain s) (fun z => proj1 (b2z_range _))) as Hu.
  assert (Hc : n ∈ cn s -> 1 <= sumz (uses n) (chain s)) by apply sumz_uses_elem.
  destruct (nodes s !! n) as [nd0|] eqn:En.
  - destruct (decide (n ∈ pool s)) as [Hp|]; [|done]. injection E as <- <-. cbn [pool with_pool].
    rewrite (bool_decide_eq_true_2 (n ∈ pool s)) in U by done.
    rewrite (bool_decide_eq_true_2 (is_Some _)) in U by (by eexists). cbn in U.
    split_and!; try done; try set_solver; try lia; [intros Hx; specialize (Hc Hx); lia|].
    intros v k Hh. destruct (proj1 (Forall_forall _ _) (i_handles _ _ _ _ I) _ Hh) as (md & F1 & F2 & F3). cbn [fst snd] in *.
    rewrite En in F1. injection F1 as <-. destruct (decide (v = version nd0)) as [Ev|]; [|lia].
    by destruct (F3 Ev) as [F4 _].
  - injection E as <- <-. rewrite (bool_decide_eq_false_2 (is_Some _)) in U by (by intros [? ?]). cbn in U.
    pose proof (b2z_range (bool_decide (n ∈ pool s))).
    split_and!; try done; try lia; [by destruct s|intros Hx; specialize (Hc Hx); lia| |].
    + intros Hp. rewrite (bool_decide_eq_true_2 (n ∈ pool s)) in U by done. cbn in U. lia.
    + intros v k Hh. destruct (proj1 (Forall_forall _ _) (i_handles _ _ _ _ I) _ Hh) as (md & F1 & _). cbn in F1. congruence.
Qed.

Lemma new_node_ok a x y s t e place n nd s1 : BInv a x y s -> bpcs s !! t = Some (BStart e place) -> get_object s n = Some (nd, s1) ->
  BInv a x y (at_pc (with_node s1 n (init_node e place nd)) t (if e_high e then BCount n e else BExchange n e)).
Proof.
  intros I H E. destruct (get_object_ok a x y s n nd s1 I E) as (-> & Hcn & Hp1 & Ho & Hpool & Hv). cbn [pool with_pool] in Hpool.
  pose proof (other a x y s t _ I H eq_refl) as Hst. cbn in Hst.
  set (nd' := init_node e place nd). set (pc' := if e_high e then _ else _). set (s' := at_pc _ t pc').
  assert (Hnn : forall m, m <> n -> nodes s' !! m = nodes s !! m) by (intros m Hm; cbn; by rewrite lookup_insert_ne).
  assert (Hne : forall m, m ∈ cn s -> m <> n) by (intros m Hm ->; done).
  assert (K : forall t' p, t' <> t -> bpcs s !! t' = Some p -> pc_ok a x y s' p).
  { apply (keep_pcs a x y s s' t I); try done; [|by left|..].
    - intros m md Hin Em. exists md. split; [|done]. rewrite Hnn; [done|by apply Hne].
    - intros t' m p Hne' Hp' Hom. apply Hnn. intros ->.
      pose proof (sumz_elem (owns n) (bpcs s) t' p (fun z => proj1 (owns_nonneg n z)) Hp'). lia.
    - intros t' m p md Hne' Hp' Em Hu. exists md. split; [|done]. rewrite Hnn; [done|].
      pose proof (i_pcs _ _ _ _ I t' _ Hp') as (i & ? & Hx & _). apply Hne. by eapply list_elem_of_lookup_2. }
  assert (P : forall b, pending (<[n := nd']> (nodes s)) (chain s) b = pending (nodes s) (chain s) b).
  { intros b. apply pending_ext. intros m k Hm. unfold waits. cbn [fst]. rewrite lookup_insert_ne; [done|].
    apply not_eq_sym, Hne, elem_cn. by exists k. }
  assert (W : token pc' = 0 /\ (forall m, owns m pc' = b2z (bool_decide (n = m))) /\ pushes pc' = pushes (BStart e place) /\
    pushes_stop pc' = pushes_stop (BStart e place) /\ ending pc' = 0 /\ waking pc' = 0 /\ freeing pc' = 0 /\ counted pc' = 0 /\
    not_link pc' /\ (forall v, pc' <> JBlocked v) /\ pc_ok a x y s' pc').
  { assert (fresh (nodes s') n e) as Hf.
    { exists nd'. cbn. rewrite lookup_insert_eq. split_and!; try done. by destruct (e_task e). }
    subst pc'. destruct (e_high e) eqn:Eh; split_and!; try done. cbn. by rewrite Eh. }
  destruct W as (W1 & W2 & W3 & W4 & W5 & W6 & W7 & W8 & Hl & HJ & Hok).
  pose proof I as I0. subst s'.
  parts I; rewrite ?P, ?(sumz_insert _ _ _ _ _ H), ?W1, ?W3, ?W4, ?W5, ?W6, ?W7, ?W8; try done; try (cbn; lia).
  - intros m. rewrite (sumz_insert _ _ _ _ _ H), W2. specialize (i_usage0 m). cbn [owns]. destruct (decide (n = m)) as [->|Hm].
    + rewrite (bool_decide_eq_true_2 (m = m)), (bool_decide_eq_false_2 _ Hp1), (sumz_uses_none m (chain s) Hcn), Ho by done.
      rewrite lookup_insert_eq, bool_decide_eq_true_2 by (by eexists). done.
    + rewrite (bool_decide_eq_false_2 (n = m)), lookup_insert_ne by done.
      rewrite (bool_decide_ext (m ∈ pool s1) (m ∈ pool s)) by (by apply Hpool). cbn [b2z]. lia.
  - destruct i_links0 as (L1 & L2 & L3 & L4). split_and!; try apply L1; try done.
    intros i m md Hj Em. change (cn s !! i = Some m) in Hj. change (<[n := nd']> (nodes s) !! m = Some md) in Em.
    rewrite lookup_insert_ne in Em by (apply not_eq_sym, Hne; by eapply list_elem_of_lookup_2).
    specialize (L4 i m md Hj Em). cbn [bpcs at_pc with_pcs].
    unfold link_ok in *. destruct (decide _); [done|]. destruct (decide _); [done|]. destruct L4 as [L4|[L4 L5]]; [by left|].
    right. split; [done|]. by apply (pending_link_move s t (BStart e place)).
  - intros m k Hk. destruct (i_nodes0 m k Hk) as (md & e1 & E1 & E2). exists md, e1. split; [|done].
    rewrite Hnn; [done|]. apply Hne, elem_cn. by exists k.
  - intros t' p Hp'. apply list_lookup_insert_Some in Hp' as [(-> & -> & _)|[Hne' Hp']]; [done|by apply (K t' p)].
  - apply Forall_forall. intros [[m v] k] Hh. destruct (proj1 (Forall_forall _ _) i_handles0 _ Hh) as (md & F1 & F2 & F3).
    unfold handle_ok. cbn [nodes with_node with_nodes with_pool at_pc with_pcs pool chain fst snd] in *. destruct (decide (n = m)) as [->|Hm].
    + exists nd'. rewrite lookup_insert_eq. specialize (Hv v k Hh). cbn. split_and!; [done|lia|lia].
    + exists md. rewrite lookup_insert_ne by done. split_and!; try done. intros Ev. destruct (F3 Ev) as [Fp Fx].
      split; [|done]. by rewrite Hpool.
  - intros b. specialize (i_fifo0 b). cbn [nodes with_node with_nodes with_pool with_chain at_pc with_pcs pushed log chain]. by rewrite P.
  - intros Hc. specialize (i_closing0 Hc). lia.
  - destruct i_stops0 as [? H2]. split; [done|]. intros Es b. rewrite P. by apply H2.
  - by apply one_linker_move.
  - intros t' v Hp'. apply list_lookup_insert_Some in Hp' as [(_ & Ev & _)|[Hne' Hp']]; [by destruct (HJ v)|].
    destruct (i_joiners0 t' v Hp') as [?|?]; [by left|right; cbn; lia].
Qed.

(** ** All steps *)

(** What allocate() may find: memory for the stop task, and for a task that has
    a node. *)
Definition choice_ok pc (ch : choice) : Prop :=
  match pc, ch with
  | BStart e _, GetNode _ mem => mem = true \/ e_task e = None
  | BStart e _, NoNode => e_task e <> None
  | _, _ => True
  end.

(** A choice with which the thread does not move. *)
Definition no_move s pc (ch : choice) : Prop :=
  match pc with
  | BIdle | BDone _ => True
  | BStart _ _ => match ch with GetNode n _ => get_object s n = None | NoNode => False | _ => True end
  | BSpawn _ => match ch with RunHere => False | _ => True end
  | XUser _ _ => match ch with UserNext | UserReturn => False | _ => True end
  | JBlocked _ => match ch with Tau => False | _ => True end
  | _ => False
  end.

Lemma allocate_ok a x y s t e place ch : BInv a x y s -> bpcs s !! t = Some (BStart e place) -> choice_ok (BStart e place) ch ->
  (allocate s t e place ch = NoStep /\ no_move s (BStart e place) ch) \/ Good (allocate s t e place ch).
Proof.
  intros I H Hch. destruct ch as [|n mem| | | | |]; cbn [allocate no_move]; try by left.
  - destruct (get_object s n) as [[nd s1]|] eqn:E; [right|by left].
    pose proof (new_node_ok a x y s t e place n nd s1 I H E) as I'. cbn in Hch.
    destruct (e_task e), mem; try (by apply (Good_Go a x y)). by destruct Hch.
  - right. cbn in Hch. destruct (e_task e) eqn:Et; [|done]. apply (Good_Go a x y), (no_node_ok a x y s t e place); congruence.
Qed.

Lemma bstep_ok a x y s t pc stopped ch : BInv a x y s -> (closed s = true -> stopped = true) -> bpcs s !! t = Some pc ->
  choice_ok pc ch -> (bstep stopped ch t s = NoStep /\ no_move s pc ch) \/ Good (bstep stopped ch t s).
Proof.
  intros I Hst H Hch. unfold bstep. rewrite H. destruct pc; try (by left); try (right; done).
  - by apply (allocate_ok a x y).
  - right. apply (Good_Go a x y), count_ok; eauto.
  - right. destruct (exchange_ok a x y s t n e I H) as (s' & a' & x' & y' & -> & I'). by apply (Good_Go a' x' y').
  - right. destruct (link_ok_step a x y s t n prev I H) as (s' & -> & I'). by apply (Good_Go a x y).
  - destruct ch as [| | |t'| | |]; cbn [spawn]; try (by left).
    + destruct (bpcs s !! t') as [[]|] eqn:H'; try (by left). right. by apply (Good_Go a x y), (spawn_ok a x y s t t' n).
    + right. by apply (Good_Go a x y), (run_here_ok a x y s t n).
  - right. by apply (execute_ok a x y).
  - right. by apply (incr_ok a x y).
  - right. by apply (scan_ok a x y).
  - destruct (user_ok a x y s t c it ch I H) as (I1 & I2 & _). destruct ch; try (by left); right; by apply (Good_Go a x y).
  - right. by apply (dtor_ok a x y).
  - right. by apply (executed_ok a x y).
  - right. by apply (more_tasks_cas_ok a x y).
  - right. by apply (reverse_ok a x y).
  - right. destruct (in_place_return_ok a x y s t n I H) as (s' & -> & I'). by apply (Good_Go a x y).
  - right. by apply (start_loop_ok a x y).
  - right. by apply (top_ok a x y).
  - right. by apply (pick_ok a x y).
  - right. by apply (release_step_ok a x y).
  - right. by apply (tail_ok a x y).
  - right. by apply (return_last_ok a x y).
  - right. by apply (destroy_ok a x y).
  - right. by apply (wake_ok a x y).
  - right. by apply (free_ok a x y).
  - right. apply (Good_Go a x y). by apply (join_ok a x y s t _ I H).
  - right. apply (Good_Go a x y). by apply (join_ok a x y s t _ I H).
  - destruct ch; try (by left). right. apply (Good_Go a x y). by apply (join_ok a x y s t _ I H).
Qed.

(** A queue without tasks. *)
Lemma new_queue_ok n : BInv 0 0 0 (new_queue V n : queue T).
Proof.
  assert (Z0 : forall f : bpc T -> Z, f BIdle = 0 -> sumz f (replicate n BIdle) = 0)
    by (intros f Hf; rewrite sumz_replicate, Hf; lia).
  assert (L : forall t pc, replicate n (BIdle (T := T)) !! t = Some pc -> pc = BIdle)
    by (intros t pc H; by apply lookup_replicate in H as [? _]).
  constructor; unfold ExecQueueInv.bumped, stops, new_queue;
    cbn [nodes pool _head _high_priority_tasks _join_butex slot_returned bpcs chain pushed handles log closed];
    rewrite ?Z.eqb_refl, ?Z0 by done; try done; try (by left).
  - intros m. rewrite Z0 by done. cbn. rewrite lookup_empty. do 2 case_bool_decide; try done.
  - by intros m k Hm%elem_of_nil.
  - intros t pc H. by rewrite (L t pc H).
  - by intros k v Hk%elem_of_nil.
  - by intros k Hk%elem_of_nil.
  - by intros k Hk%elem_of_nil.
  - by intros k Hk%elem_of_nil.
  - intros t t' m p p' H. by apply L in H.
  - intros t v H. by apply L in H.
Qed.

End Steps.
End ExecQueueSteps.
