(* ===== verification/ExecutionQueue.v ===== *)
(** * ExecutionQueue (fiber/execution_queue.h)

    The queue of VersionedRef.v and ExecQueue.v put together: execute() is
    address(), the check of _stopped, the push of a task and the dereference; the
    dereference that finds the queue stopped and unused pushes the stop task.
    Each thread has a program counter in either part.

    The theorems hold in every state that one queue of a slot can reach, from
    create() on, in any interleaving of its threads. *)

From S2P Require Import Prelude VersionedRef ExecQueue ExecQueueInv ExecQueueSteps.

Module ExecutionQueue.
Import VersionedRef ExecQueue ExecQueueInv ExecQueueSteps.

Section Queue.
Context {T : Type}.

Record exec := mkExec { q_slot : slot; q_tasks : queue T }.

Inductive action :=
  | Call (t : nat) (id : Z) (o : aop)               (* a thread calls execute() or stop() *)
  | RunRef (t : nat) (v : T) (high place : bool)    (* an access of the reference; the task of execute() *)
  | RunTasks (t : nat) (ch : choice)                (* an access of the tasks *)
  | Finish (t : nat)                                (* execute() or _on_recycle() is done with the tasks *)
  | Cancel (h : nat * Z * nat)                      (* a handle is cancelled *)
  | Join (t : nat) (ver : Z).                       (* a thread joins the queue *)

Definition idle_ref (s : exec) (t : nat) : bool :=
  match apcs (q_slot s) !! t with Some (AIdle _) => true | _ => false end.
Definition idle_tasks (s : exec) (t : nat) : bool :=
  match bpcs (q_tasks s) !! t with Some BIdle => true | _ => false end.

Definition with_tasks (sl : slot) (o : outcome (queue T)) : outcome exec :=
  match o with Go q => Go (mkExec sl q) | NoStep => NoStep | Bad => Bad end.

(** The thread that is started does nothing else. *)
Definition started_idle (s : exec) (ch : choice) : bool :=
  match ch with RunBy t => idle_ref s t | _ => true end.

Definition exec_step (a : action) (s : exec) : outcome exec :=
  match a with
  | Call t id o =>
      if idle_tasks s t
      then match call t id o (q_slot s) with Go sl => Go (mkExec sl (q_tasks s)) | NoStep => NoStep | Bad => Bad end
      else NoStep
  | RunRef t v high place =>
      match astep t (q_slot s) with
      | Go sl =>
          with_tasks sl
            match apcs sl !! t with
            | Some ABody => start_execute t v high place (q_tasks s)
            | Some (AInRecycle _ _) => start_recycle t (q_tasks s)
            | _ => Go (q_tasks s)
            end
      | NoStep => NoStep
      | Bad => Bad
      end
  | RunTasks t ch =>
      if started_idle s ch then with_tasks (q_slot s) (bstep (_stopped (q_slot s)) ch t (q_tasks s)) else NoStep
  | Finish t =>
      match bpcs (q_tasks s) !! t with
      | Some (BDone rc) =>
          match body_end t rc (q_slot s) with
          | Go sl => Go (mkExec sl (at_pc (q_tasks s) t BIdle))
          | NoStep => NoStep
          | Bad => Bad
          end
      | _ => NoStep
      end
  | Cancel h => match cancel_task h (q_tasks s) with Go (_, q) => Go (mkExec (q_slot s) q) | NoStep => NoStep | Bad => Bad end
  | Join t ver => if idle_ref s t then with_tasks (q_slot s) (start_join t ver (q_tasks s)) else NoStep
  end.

(** ** What the callers and the allocators keep to

    An id that nobody was given yet is not used; a handle is one that execute()
    has given; allocation as in [choice_ok]. *)

Definition action_ok (V : Z) (s : exec) (a : action) : Prop :=
  match a with
  | Call _ id _ => good_id V id
  | RunTasks t ch => forall pc, bpcs (q_tasks s) !! t = Some pc -> choice_ok pc ch
  | Cancel h => h ∈ handles (q_tasks s)
  | _ => True
  end.

(** The queue that create() has just made in a slot of version [V], for [n] threads. *)
Definition new_exec (V sl : Z) (n : nat) : exec := mkExec (created V sl n) (new_queue V n).

Inductive reach (V sl : Z) (n : nat) : exec -> Prop :=
  | reach_new : reach V sl n (new_exec V sl n)
  | reach_step s a s' : reach V sl n s -> action_ok V s a -> exec_step a s = Go s' -> reach V sl n s'.

(** ** Both program counters of a thread *)

Definition call_ctx (c : ctx) : bool := match c with InPlace _ => true | Loop _ _ _ own => own end.

(** In execute() or _on_recycle(). *)
Definition in_call (pc : bpc T) : bool :=
  match pc with
  | BIdle | JLoad _ | JWait _ | JBlocked _ => false
  | BStart _ _ | BCount _ _ | BExchange _ _ | BLink _ _ | BSpawn _ | BDone _ | IReturn _ => true
  | LStart _ own => own
  | XNew c _ | XIncr c _ _ | XScan c _ _ | XUser c _ | XDtor c _ _ | XEnd c _ _ _ | MCas c _ _ | MReverse c _ _ _ _
  | LTop c | LPick c | LRelease c | LTail c _ | LReturn c | LDestroy c | LWake c | LFree c => call_ctx c
  end.

Definition in_body (pc : apc) : bool := match pc with ABody | AInRecycle _ _ => true | _ => false end.

(** A thread in join(), or that was started, does nothing else. *)
Definition coupled (pa : apc) (pb : bpc T) : Prop :=
  in_call pb = in_body pa /\ (0 < pushes pb -> pa = ABody) /\ (in_call pb = false -> pb = BIdle \/ exists rc, pa = AIdle rc).

Record EInv (V sl k : Z) (a x y : nat) (s : exec) : Prop := mkEInv {
  e_ref : AInv V sl k (q_slot s);
  e_tasks : BInv (V := V) a x y (q_tasks s);
  e_length : length (apcs (q_slot s)) = length (bpcs (q_tasks s));
  e_coupled : forall t pa pb, apcs (q_slot s) !! t = Some pa -> bpcs (q_tasks s) !! t = Some pb -> coupled pa pb;
  e_closed : closed (q_tasks s) = recycled (q_slot s)
}.

(** *** What a step of the tasks does to the program counters *)

Definition follows (pb pb' : bpc T) : Prop := in_call pb' = in_call pb /\ pushes pb' <= pushes pb.

Section Frames.
Context (ch0 : choice).

Definition Frame (s s' : queue T) : Prop := closed s' = closed s /\ length (bpcs s') = length (bpcs s) /\
  (forall t pb', bpcs s' !! t = Some pb' -> exists pb, bpcs s !! t = Some pb /\ follows pb pb') /\
  forall t, bpcs s !! t = Some BIdle -> ch0 <> RunBy t -> bpcs s' !! t = Some BIdle.

Lemma follows_refl pb : follows pb pb.
Proof. split; [done|lia]. Qed.

Lemma Frame_at s s1 t pb pb' : bpcs s !! t = Some pb -> bpcs s1 = bpcs s -> closed s1 = closed s -> follows pb pb' -> pb <> BIdle ->
  Frame s (at_pc s1 t pb').
Proof.
  intros H E Ec Hf Hb. split_and!; [done|cbn; by rewrite E, length_insert|..]; cbn; rewrite E.
  - intros t' p H'. apply list_lookup_insert_Some in H' as [(<- & <- & _)|[_ H']]; [by exists pb|]. exists p. split; [done|apply follows_refl].
  - intros t' H' _. rewrite list_lookup_insert_ne; [done|]. intros ->. congruence.
Qed.

Lemma Frame_keep s s1 : bpcs s1 = bpcs s -> closed s1 = closed s -> Frame s s1.
Proof.
  intros E Ec. split_and!; [done|by rewrite E|..]; rewrite E; [|done]. intros t p H. exists p. split; [done|apply follows_refl].
Qed.

Lemma return_task_node_frame (s : queue T) n s1 : return_task_node s n = Go s1 -> bpcs s1 = bpcs s /\ closed s1 = closed s.
Proof. unfold return_task_node, node. intros E. repeat case_match; try done. by injection E as <-. Qed.

Lemma Frame_return (s s1 : queue T) t pb pb' n : bpcs s !! t = Some pb -> return_task_node s n = Go s1 -> follows pb pb' -> pb <> BIdle -> Frame s (at_pc s1 t pb').
Proof. intros H E Hf Hb. destruct (return_task_node_frame s n s1 E). by eapply Frame_at. Qed.

Lemma allocate_frame (s : queue T) t e place ch s' : bpcs s !! t = Some (BStart e place) -> allocate s t e place ch = Go s' -> Frame s s'.
Proof.
  intros H. unfold allocate. destruct ch as [|n mem| | | | |]; try done.
  - destruct (get_object s n) as [[nd s1]|] eqn:Eg; [|done].
    assert (bpcs s1 = bpcs s /\ closed s1 = closed s) as [Eb Ec]
      by (unfold get_object in Eg; repeat case_match; try done; by injection Eg as <- <-).
    assert (follows (BStart e place) (BDone ENOMEM)) by (split; [done|apply (pushes_nonneg (BStart e place))]).
    assert (follows (BStart e place) (if e_high e then BCount n e else BExchange n e)) by (destruct (e_high e); split; cbn; first [done|lia]).
    assert (G : forall s2, bpcs s2 = bpcs s1 -> closed s2 = closed s1 -> forall pc, follows (BStart e place) pc -> Frame s (at_pc s2 t pc)).
    { intros s2 E1 E2 pc Hf. eapply Frame_at; [exact H|congruence|congruence|done|done]. }
    destruct (e_task e), mem; try (intros E; injection E as <-; by apply G).
    destruct (return_task_node _ n) eqn:Er; try done. intros E. injection E as <-.
    destruct (return_task_node_frame _ _ _ Er). by apply G.
  - intros E. destruct (e_task e); [|done]. injection E as <-. eapply Frame_at; [exact H|done|done| |done].
    split; [done|apply (pushes_nonneg (BStart e place))].
Qed.

Lemma more_result_frame (s s1 : queue T) t pb c nt more s' : bpcs s !! t = Some pb -> bpcs s1 = bpcs s -> closed s1 = closed s ->
  in_call pb = call_ctx c -> pushes pb = 0 -> pb <> BIdle -> more_result s1 t c nt more = Go s' -> Frame s s'.
Proof.
  intros H E1 E2 Hi Hp Hb. unfold more_result, node.
  assert (G : forall pc, in_call pc = call_ctx c -> pushes pc = 0 -> Frame s (at_pc s1 t pc)).
  { intros pc Hi' Hp'. eapply Frame_at; [exact H|done|done| |done]. split; [congruence|lia]. }
  destruct c as [n|h ct d own]; [destruct more; intros E; injection E as <-; by apply G|].
  destruct more; [intros E; injection E as <-; by apply G|].
  destruct (decide _); [|done]. destruct (nodes s1 !! h) as [nd|]; [|done]. destruct (iterated nd); [|done].
  intros E. injection E as <-. by apply G.
Qed.

Lemma after_incr_frame (s s1 : queue T) t pb c it user s' : bpcs s !! t = Some pb -> bpcs s1 = bpcs s -> closed s1 = closed s ->
  in_call pb = call_ctx c -> pushes pb = 0 -> pb <> BIdle -> after_incr s1 t c it user = Go s' -> Frame s s'.
Proof.
  intros H E1 E2 Hi Hp Hb. unfold after_incr.
  assert (G : forall pc, in_call pc = call_ctx c -> pushes pc = 0 -> Frame s (at_pc s1 t pc)).
  { intros pc Hi' Hp'. eapply Frame_at; [exact H|done|done| |done]. split; [congruence|lia]. }
  destruct user; [intros E; injection E as <-; by apply G|]. destruct (iter_valid s1 it) as [| |[]]; try done;
    intros E; injection E as <-; by apply G.
Qed.

Lemma scan_frame (s : queue T) t c it user s' : bpcs s !! t = Some (XScan c it user) -> scan s t c it user = Go s' -> Frame s s'.
Proof.
  intros H. unfold scan, node, peek_to_execute. intros E.
  repeat (match type of E with (match ?o with _ => _ end) = _ => destruct o eqn:?; try discriminate E end);
    try (by eapply after_incr_frame; [exact H|..|exact E]); injection E as <-; eapply Frame_at; try done; exact (follows_refl _).
Qed.

Lemma iterator_frame (s : queue T) t c it user hd s' :
  (bpcs s !! t = Some (XIncr c it user) -> incr s t c it user = Go s' -> Frame s s') /\
  (bpcs s !! t = Some (XDtor c it hd) -> destruct_iter s t c it hd = Go s' -> Frame s s').
Proof.
  split; intros H E.
  - unfold incr, node in E.
    repeat (match type of E with (match ?o with _ => _ end) = _ => destruct o eqn:?; try discriminate E end);
      try (by eapply after_incr_frame; [exact H|..|exact E]); injection E as <-; eapply Frame_at; try done; exact (follows_refl _).
  - unfold destruct_iter, node in E.
    repeat (match type of E with (match ?o with _ => _ end) = _ => destruct o eqn:?; try discriminate E end);
      injection E as <-; eapply Frame_at; try done; try exact (follows_refl _); by case_match.
Qed.

Lemma loop_frame (s : queue T) t pc s' : bpcs s !! t = Some pc -> loop_step s t pc = Go s' -> Frame s s'.
Proof.
  intros H E. destruct pc; try done; try (destruct c as [|h ct d own]); try done; cbn [loop_step] in E; unfold return_head, node in E;
    repeat (match type of E with (match ?o with _ => _ end) = _ => destruct o eqn:?; try discriminate E end);
    injection E as <-; try (eapply Frame_return; [exact H|eassumption| |done]); try (eapply Frame_at; [exact H|done|done| |done]);
    split; try done; cbn; repeat case_match; try done; by destruct own.
Qed.

Lemma destroy_frame st (s : queue T) t pc s' : bpcs s !! t = Some pc -> destroy_step st s t pc = Go s' -> Frame s s'.
Proof.
  intros H E. destruct pc; try done; cbn [destroy_step] in E.
  - repeat (match type of E with (match ?o with _ => _ end) = _ => destruct o eqn:?; try discriminate E end).
    injection E as <-. by eapply Frame_at.
  - injection E as <-. split_and!; [done|cbn; by rewrite length_insert, length_map|..]; cbn;
      change (map _ (bpcs s)) with (woken <$> bpcs s).
    + intros t' p H'. apply list_lookup_insert_Some in H' as [(<- & <- & _)|[_ H']]; [by exists (LWake c)|].
      apply lookup_woken in H' as (p0 & H' & ->). exists p0. split; [done|]. by destruct p0.
    + intros t' H' _. rewrite list_lookup_insert_ne by (intros ->; congruence). by rewrite list_lookup_fmap, H'.
  - destruct c as [|h ct d own]; [done|]. injection E as <-. eapply Frame_at; [exact H|done|done| |done]. by destruct own.
Qed.

Lemma tasks_frame (s : queue T) t c old hu p tl nt s' :
  (bpcs s !! t = Some (MCas c old hu) -> more_tasks_cas s t c old hu = Go s' -> Frame s s') /\
  (bpcs s !! t = Some (MReverse c old p tl nt) -> reverse_round s t c old p tl nt = Go s' -> Frame s s').
Proof.
  split; intros H E.
  - unfold more_tasks_cas, node in E.
    repeat (match type of E with (match ?o with _ => _ end) = _ => destruct o eqn:?; try discriminate E end);
      try (by eapply more_result_frame; [exact H|..|exact E]); injection E as <-; eapply Frame_at; try done; exact (follows_refl _).
  - unfold reverse_round, node in E.
    repeat (match type of E with (match ?o with _ => _ end) = _ => destruct o eqn:?; try discriminate E end);
      try (by eapply more_result_frame; [exact H|..|exact E]); injection E as <-; [by apply Frame_keep|].
    eapply Frame_at; try done; exact (follows_refl _).
Qed.

Lemma bstep_frame st t (s s' : queue T) : bstep st ch0 t s = Go s' -> Frame s s'.
Proof.
  unfold bstep. destruct (bpcs s !! t) as [pc|] eqn:H; [|done].
  assert (G : forall s1 pc', bpcs s1 = bpcs s -> closed s1 = closed s -> follows pc pc' -> pc <> BIdle -> Go (at_pc s1 t pc') = Go s' -> Frame s s').
  { intros s1 pc' E1 E2 Hf Hb [= <-]. by eapply Frame_at. }
  destruct pc; try done.
  - by apply allocate_frame.
  - apply G; try done.
  - unfold exchange, node. intros E.
    repeat (match type of E with (match ?o with _ => _ end) = _ => destruct o eqn:?; try discriminate E end);
      (eapply G; [| | | |exact E]; try done); split; try done; cbn; unfold is_stop; repeat case_match; try done; lia.
  - unfold link, node. intros E. destruct (nodes s !! n); [|done]. eapply G; [| | | |exact E]; done.
  - unfold spawn. destruct ch0 as [| | |t'| | |] eqn:Ech; try done.
    + destruct (bpcs s !! t') as [[]|] eqn:H'; try done. intros [= <-].
      split_and!; [done|cbn; by rewrite !length_insert|..]; cbn.
      * intros t1 p1 H1. apply list_lookup_insert_Some in H1 as [(<- & <- & _)|[_ H1]]; [by exists (BSpawn n)|].
        apply list_lookup_insert_Some in H1 as [(<- & <- & _)|[_ H1]]; [by exists BIdle|]. exists p1. split; [done|apply follows_refl].
      * intros t1 H1 Hch. rewrite list_lookup_insert_ne by (intros E; subst; congruence).
        rewrite list_lookup_insert_ne by (intros E; subst; congruence). done.
    + by apply G.
  - unfold execute, node. intros E.
    repeat (match type of E with (match ?o with _ => _ end) = _ => destruct o eqn:?; try discriminate E end);
      (eapply G; [| | | |exact E]; try done); exact (follows_refl _).
  - by apply (iterator_frame s t c it user None).
  - by apply scan_frame.
  - destruct ch0; try done; apply G; try done; exact (follows_refl _).
  - by apply (iterator_frame s t c it false hd).
  - unfold executed, node. cbv zeta. set (s1 := if high then _ else s).
    assert (bpcs s1 = bpcs s /\ closed s1 = closed s) as [E1 E2] by (subst s1; by destruct high). destruct c as [n|h ct d own].
    + destruct (nodes s1 !! n); [|done]. apply G; try done; exact (follows_refl _).
    + apply G; try done; exact (follows_refl _).
  - by apply (tasks_frame s t c old has_uniterated 0 None 0).
  - by apply (tasks_frame s t c old false p tail new_tail).
  - destruct (return_task_node s n) as [| |s1] eqn:Er; try done. intros [= <-]. by eapply Frame_return.
  - by apply loop_frame.
  - by apply loop_frame.
  - by apply loop_frame.
  - by apply loop_frame.
  - by apply loop_frame.
  - by apply loop_frame.
  - by apply destroy_frame.
  - by apply destroy_frame.
  - by apply destroy_frame.
  - apply G; try done; by case_match.
  - apply G; try done; by case_match.
  - destruct ch0; try done. by apply G.
Qed.

End Frames.

(** *** What an access of the reference does to the program counters *)

Lemma astep_frame t (s s' : slot) : astep t s = Go s' -> exists pa pa', apcs s !! t = Some pa /\ apcs s' = <[t := pa']> (apcs s) /\
  in_body pa = false /\ (forall rc, pa <> AIdle rc) /\
  match pa' with
  | ABody => pa = AHold Execute /\ _stopped s = false /\ recycled s' = recycled s
  | AInRecycle m rc => pa = ARecycle m rc /\ recycled s' = true
  | _ => recycled s' = recycled s
  end.
Proof.
  unfold astep. destruct (apcs s !! t) as [pa|] eqn:H; [|done].
  assert (G : forall s1 pa', apcs s1 = apcs s -> recycled s1 = recycled s -> in_body pa = false -> (forall rc, pa <> AIdle rc) ->
    in_body pa' = false -> Go (with_pc s1 t pa') = Go s' ->
    exists pa0 pa', Some pa = Some pa0 /\ apcs s' = <[t := pa']> (apcs s) /\ in_body pa0 = false /\ (forall rc, pa0 <> AIdle rc) /\
    match pa' with
    | ABody => pa0 = AHold Execute /\ _stopped s = false /\ recycled s' = recycled s
    | AInRecycle m rc => pa0 = ARecycle m rc /\ recycled s' = true
    | _ => recycled s' = recycled s
    end).
  { intros s1 pa' E1 E2 Hb Hi Hb' [= <-]. exists pa, pa'. cbn. rewrite E1, E2. by destruct pa'. }
  destruct pa; try done.
  - apply G; try done. by case_match.
  - unfold address_unref. intros E.
    repeat (match type of E with (if ?o then _ else _) = _ => destruct o eqn:?; try discriminate E end);
      (eapply G; [..|exact E]; done).
  - unfold recycle_cas. case_match; by apply G.
  - destruct o; [|by apply G]. destruct (_stopped s) eqn:Est; [by apply G|]. intros [= <-].
    by exists (AHold Execute), ABody.
  - unfold stop_round. repeat case_match; by apply G.
  - intros [= <-]. by exists AStopStore, (ADeref true 0).
  - unfold deref. intros E.
    repeat (match type of E with (if ?o then _ else _) = _ => destruct o eqn:?; try discriminate E end);
      (eapply G; [..|exact E]; try done). by destruct more.
  - unfold deref_id. case_match; [|done]. by apply G.
  - unfold recycle_cas. case_match; apply G; try done. by destruct more.
  - intros [= <-]. by exists (ARecycle more rc), (AInRecycle more rc).
Qed.

Section Invariant.
Context (V sl : Z) (V_range : 0 <= V < 2 ^ 32) (V_even : Z.even V = true) (sl_range : 0 <= sl < 2 ^ 32).

Definition EOk (s : exec) : Prop := exists k a x y, EInv V sl k a x y s.

Lemma new_exec_ok n : 2 * Z.of_nat n + 2 < 2 ^ 31 -> EOk (new_exec V sl n).
Proof.
  intros Hn. exists 0, O, O, O. constructor; cbn.
  - by apply created_ok.
  - apply new_queue_ok.
  - by rewrite !length_replicate.
  - intros t pa pb H1 H2. apply lookup_replicate in H1 as [-> _]. apply lookup_replicate in H2 as [-> _].
    split_and!; [done|cbn; lia|by left].
  - done.
Qed.

Lemma idle_tasks_spec (s : exec) t : idle_tasks s t = true -> bpcs (q_tasks s) !! t = Some BIdle.
Proof. unfold idle_tasks. by repeat case_match. Qed.

Lemma idle_ref_spec (s : exec) t : idle_ref s t = true -> exists rc, apcs (q_slot s) !! t = Some (AIdle rc).
Proof. unfold idle_ref. repeat case_match; try done. by eexists. Qed.

Lemma other_thread (s : exec) t pb : length (apcs (q_slot s)) = length (bpcs (q_tasks s)) ->
  bpcs (q_tasks s) !! t = Some pb -> exists pa, apcs (q_slot s) !! t = Some pa.
Proof. intros E H. apply lookup_lt_Some in H. apply lookup_lt_is_Some_2. lia. Qed.

Lemma coupled_idle pa : in_body pa = false -> coupled pa BIdle.
Proof. intros H. split_and!; [done|cbn; lia|by left]. Qed.

(** *** Each action *)

Lemma call_keeps s t id o s' : EOk s -> good_id V id -> exec_step (Call t id o) s = Go s' -> EOk s'.
Proof.
  intros (k & a & x & y & [I1 I2 El Ec Ecl]) Hg E. cbn [exec_step] in E. destruct (idle_tasks s t) eqn:Hi; [|done].
  apply idle_tasks_spec in Hi. destruct (call t id o (q_slot s)) as [| |sl'] eqn:Ea; try done. injection E as <-.
  exists k, a, x, y. pose proof (call_ok V sl k _ _ _ _ _ Hg I1 Ea) as I1'.
  unfold call in Ea. destruct (apcs (q_slot s) !! t) as [[]|] eqn:Hp; try done. injection Ea as <-.
  constructor; cbn [q_slot q_tasks]; try done.
  - cbn. by rewrite length_insert.
  - intros t' pa pb H1 H2. cbn in H1. apply list_lookup_insert_Some in H1 as [(<- & <- & _)|[_ H1]]; [|by apply (Ec t')].
    rewrite Hi in H2. injection H2 as <-. by apply coupled_idle.
Qed.

(** No task is being pushed while a thread is about to recycle the queue. *)
Lemma no_pusher k a x y s : EInv V sl k a x y s -> (forall t, apcs (q_slot s) !! t <> Some ABody) ->
  sumz pushes (bpcs (q_tasks s)) = 0.
Proof.
  intros I Hb. apply sumz_0. intros t pb H. destruct (other_thread s t pb (e_length _ _ _ _ _ _ _ I) H) as [pa Hpa].
  destruct (e_coupled _ _ _ _ _ _ _ I t pa pb Hpa H) as (_ & Hp & _). pose proof (pushes_nonneg pb).
  destruct (decide (0 < pushes pb)) as [Hlt|]; [|lia]. specialize (Hp Hlt). subst pa. by destruct (Hb t).
Qed.

(** The state after an access of the reference by [t]. *)
Lemma ref_moves k k' a x y s t sl' pa pa' pb q : EInv V sl k a x y s -> AInv V sl k' sl' ->
  apcs (q_slot s) !! t = Some pa -> apcs sl' = <[t := pa']> (apcs (q_slot s)) -> bpcs (q_tasks s) !! t = Some pb ->
  BInv (V := V) a x y q -> closed q = recycled sl' -> (exists pb', bpcs q = <[t := pb']> (bpcs (q_tasks s)) /\ coupled pa' pb') ->
  EOk (mkExec sl' q).
Proof.
  intros [I1 I2 El Ec Ecl] I1' Ha Ea Hb Iq Hc (pb' & Eb & Hcp). exists k', a, x, y. constructor; cbn [q_slot q_tasks]; try done.
  - by rewrite Ea, Eb, !length_insert.
  - intros t' p1 p2 H1 H2. rewrite Ea in H1. rewrite Eb in H2.
    apply list_lookup_insert_Some in H1 as [(<- & <- & _)|[Hne H1]].
    + rewrite list_lookup_insert_eq in H2 by (by apply lookup_lt_Some in Hb). by injection H2 as <-.
    + rewrite list_lookup_insert_ne in H2 by done. by apply (Ec t').
Qed.

Lemma run_ref_keeps s t v high place : EOk s -> exec_step (RunRef t v high place) s = NoStep \/
  exists s', exec_step (RunRef t v high place) s = Go s' /\ EOk s'.
Proof.
  intros (k & a & x & y & I). pose proof I as [I1 I2 El Ec Ecl]. cbn [exec_step].
  destruct (astep_ok V sl V_range V_even sl_range k (q_slot s) t I1) as [Hb Hk].
  destruct (astep t (q_slot s)) as [| |sl'] eqn:Ea; [done|by left|]. destruct (Hk sl' eq_refl) as [k' I1'].
  destruct (astep_frame t (q_slot s) sl' Ea) as (pa & pa' & Hpa & Ea' & Hnb & Hni & Hcase).
  assert (Hlt : (t < length (apcs (q_slot s)))%nat) by by apply lookup_lt_Some in Hpa.
  rewrite Ea', list_lookup_insert_eq by done.
  destruct (lookup_lt_is_Some_2 (bpcs (q_tasks s)) t) as [pb Hpb]; [lia|].
  destruct (Ec t pa pb Hpa Hpb) as (Hin & _ & Hid). rewrite Hnb in Hin.
  assert (pb = BIdle) as -> by (destruct (Hid Hin) as [?|[rc ?]]; [done|by destruct (Hni rc)]).
  assert (Hsame : in_body pa' = false -> recycled sl' = recycled (q_slot s) -> EOk (mkExec sl' (q_tasks s))).
  { intros Hnb' Hr. apply (ref_moves k k' a x y s t sl' pa pa' BIdle (q_tasks s) I I1' Hpa Ea' Hpb I2); [congruence|].
    exists BIdle. split; [by rewrite list_insert_id|by apply coupled_idle]. }
  destruct pa'; try (right; eexists; split; [done|by apply Hsame]).
  - destruct Hcase as (-> & Hs & Hr). unfold start_execute, start. rewrite Hpb. right. cbn [with_tasks].
    assert (Hpa' : apcs sl' !! t = Some ABody) by by rewrite Ea', list_lookup_insert_eq.
    destruct (body_not_recycled V sl k' sl' t I1' Hpa') as [Hnr _]. eexists. split; [done|].
    eapply (ref_moves k k' a x y s t); try done; [apply (start_ok a x y); try done; congruence|cbn; congruence|].
    eexists. split; [done|]. by split_and!.
  - destruct Hcase as (-> & Hr). unfold start_recycle, start. cbn [bpcs with_closed]. rewrite Hpb. right. cbn [with_tasks].
    destruct (recycle_once V sl k (q_slot s) t more rc I1 Hpa) as [Hnr Hnb']. eexists. split; [done|].
    eapply (ref_moves k k' a x y s t); try done; [apply (start_stop_ok a x y); try done; [congruence|by apply (no_pusher k a x y)]|].
    eexists. split; [done|]. split_and!; [done|cbn; lia|done].
Qed.

Lemma run_tasks_keeps s t ch : EOk s -> action_ok V s (RunTasks t ch) -> exec_step (RunTasks t ch) s = NoStep \/
  exists s', exec_step (RunTasks t ch) s = Go s' /\ EOk s'.
Proof.
  intros (k & a & x & y & I) Hch. pose proof I as [I1 I2 El Ec Ecl]. cbn [exec_step action_ok] in *.
  destruct (started_idle s ch) eqn:Hst; [|by left].
  assert (Hcs : closed (q_tasks s) = true -> _stopped (q_slot s) = true)
    by (intros E; apply (recycled_stopped V sl k); congruence).
  destruct (bpcs (q_tasks s) !! t) as [pb0|] eqn:Hb0; [|left; unfold bstep; by rewrite Hb0].
  destruct (bstep_ok a x y (q_tasks s) t pb0 (_stopped (q_slot s)) ch I2 Hcs Hb0 (Hch pb0 eq_refl)) as [[-> _]|(q & a' & x' & y' & E & I2')]; [by left|].
  rewrite E. right. eexists. split; [done|]. exists k, a', x', y'.
  destruct (bstep_frame _ _ _ _ _ E) as (F1 & F2 & F3 & F4). constructor; cbn [q_slot q_tasks]; try done; try congruence.
  intros t' pa pb' Ha Hb. destruct (F3 t' pb' Hb) as (pb & Hb1 & G1 & G2). destruct (Ec t' pa pb Ha Hb1) as (G3 & G4 & G5).
  split_and!; [congruence|intros Hlt; apply G4; lia|]. intros Hin. rewrite G1 in Hin.
  destruct (G5 Hin) as [->|?]; [|by right]. destruct (decide (ch = RunBy t')) as [->|Hne].
  - right. cbn in Hst. apply idle_ref_spec in Hst as [rc Hst]. rewrite Hst in Ha. injection Ha as <-. by exists rc.
  - left. specialize (F4 t' Hb1 Hne). congruence.
Qed.

Lemma finish_keeps s t : EOk s -> exec_step (Finish t) s = NoStep \/ exists s', exec_step (Finish t) s = Go s' /\ EOk s'.
Proof.
  intros (k & a & x & y & I). pose proof I as [I1 I2 El Ec Ecl]. cbn [exec_step].
  destruct (bpcs (q_tasks s) !! t) as [pb|] eqn:Hpb; [|by left]. destruct pb; try (by left).
  destruct (other_thread s t _ El Hpb) as [pa Hpa]. destruct (Ec t pa _ Hpa Hpb) as (Hin & _). cbn in Hin.
  destruct (body_end t rc (q_slot s)) as [| |sl'] eqn:Eb;
    [by unfold body_end in Eb; rewrite Hpa in Eb; destruct pa|by left|]. right. eexists. split; [done|].
  pose proof (body_end_ok V sl k _ _ _ _ I1 Eb) as I1'. unfold body_end in Eb. rewrite Hpa in Eb.
  assert (exists pa', in_body pa' = false /\ sl' = with_pc (q_slot s) t pa') as (pa' & Hnb & ->).
  { destruct pa; try done; injection Eb as <-; [by exists (ADeref false rc)|exists (after_deref more rc0)]. by destruct more. }
  eapply (ref_moves k k a x y s t); try done; [by apply (done_ok a x y _ t rc)|].
  eexists. split; [done|by apply coupled_idle].
Qed.

Lemma cancel_keeps s h : EOk s -> h ∈ handles (q_tasks s) -> exists s', exec_step (Cancel h) s = Go s' /\ EOk s'.
Proof.
  intros (k & a & x & y & I) Hh. pose proof I as [I1 I2 El Ec Ecl]. cbn [exec_step].
  destruct (cancel_ok a x y (q_tasks s) h I2 Hh) as (rc & q & E & I2' & Eb). rewrite E. eexists. split; [done|].
  assert (closed q = closed (q_tasks s)) as Ecq.
  { destruct h as [[n v] j]. unfold cancel_task, node in E. destruct (nodes (q_tasks s) !! n) as [nd|]; [|done].
    destruct (cancel v nd) as [r nd']. injection E as <- <-. by destruct (r =? 0). }
  exists k, a, x, y. constructor; cbn [q_slot q_tasks]; try done; try congruence.
  intros t' pa pb Ha Hb. rewrite Eb in Hb. by apply (Ec t').
Qed.

Lemma join_keeps s t ver s' : EOk s -> exec_step (Join t ver) s = Go s' -> EOk s'.
Proof.
  intros (k & a & x & y & I) E. pose proof I as [I1 I2 El Ec Ecl]. cbn [exec_step] in E.
  destruct (idle_ref s t) eqn:Hi; [|done]. apply idle_ref_spec in Hi as [rc Hi]. unfold start_join, start in E.
  destruct (bpcs (q_tasks s) !! t) as [[]|] eqn:Hb; try done. injection E as <-. exists k, a, x, y.
  constructor; cbn [q_slot q_tasks]; try done.
  - by apply start_join_ok.
  - cbn. by rewrite length_insert.
  - intros t' pa pb H1 H2. cbn in H2. apply list_lookup_insert_Some in H2 as [(<- & <- & _)|[_ H2]]; [|by apply (Ec t')].
    rewrite Hi in H1. injection H1 as <-. split_and!; [done|cbn; lia|]. intros _. right. by exists rc.
Qed.

(** No action fails, and each keeps the invariant. *)
Lemma exec_step_ok s a : EOk s -> action_ok V s a -> exec_step a s <> Bad /\ (forall s', exec_step a s = Go s' -> EOk s').
Proof.
  intros Hs Ha.
  assert (W : exec_step a s = NoStep \/ (exists s', exec_step a s = Go s' /\ EOk s') ->
            exec_step a s <> Bad /\ (forall s', exec_step a s = Go s' -> EOk s')).
  { intros [->|(s1 & -> & H1)]; [done|]. split; [done|]. by intros s' [= <-]. }
  destruct a as [t id o|t v high place|t ch|t|h|t ver].
  - split; [|intros s'; by apply call_keeps]. cbn [exec_step]. unfold call. by repeat case_match.
  - by apply W, run_ref_keeps.
  - by apply W, run_tasks_keeps.
  - by apply W, finish_keeps.
  - apply W. right. by apply cancel_keeps.
  - split; [|intros s'; by apply join_keeps]. cbn [exec_step]. unfold start_join, start. by repeat case_match.
Qed.

Lemma reach_ok n s : 2 * Z.of_nat n + 2 < 2 ^ 31 -> reach V sl n s -> EOk s.
Proof.
  intros Hn H. induction H as [|s a s' _ IH Ha E]; [by apply new_exec_ok|]. by apply (exec_step_ok s a).
Qed.
End Invariant.

(** ** Progress *)

Definition blocked (s : exec) (t : nat) : bool :=
  match bpcs (q_tasks s) !! t with Some (JBlocked _) => true | _ => false end.

(** The thread is in no call, or waits in join(). *)
Definition resting (s : exec) (t : nat) : bool := idle_ref s t && (idle_tasks s t || blocked s t).

(** The thread waits in _more_tasks for a push to be linked. *)
Definition spinning (s : exec) (t : nat) : bool :=
  match bpcs (q_tasks s) !! t with
  | Some (MReverse _ _ p _ _) =>
      match nodes (q_tasks s) !! p with
      | Some nd => match next nd with UNCONNECTED => true | _ => false end
      | None => false
      end
  | _ => false
  end.

Definition runs (a : action) (t : nat) : Prop :=
  match a with RunRef t' _ _ _ | RunTasks t' _ | Finish t' => t' = t | _ => False end.

Section Progress.
Context (V sl : Z) (V_range : 0 <= V < 2 ^ 32) (V_even : Z.even V = true) (sl_range : 0 <= sl < 2 ^ 32).

Lemma ref_runs s t (v : T) : EOk V sl s -> idle_tasks s t = true -> idle_ref s t = false ->
  exists s', exec_step (RunRef t v false false) s = Go s'.
Proof.
  intros (k & a & x & y & I) Hb Ha. apply idle_tasks_spec in Hb. pose proof I as [I1 I2 El Ec Ecl].
  destruct (other_thread s t _ El Hb) as [pa Hpa]. destruct (Ec t pa _ Hpa Hb) as (Hin & _). cbn in Hin.
  unfold idle_ref in Ha. rewrite Hpa in Ha.
  destruct (astep_runs V sl V_range V_even sl_range k (q_slot s) t pa I1 Hpa) as [[rc ->]|[->|[(m & rc & ->)|[sl' E]]]]; try done.
  cbn [exec_step]. rewrite E. unfold start_execute, start_recycle, start. cbn [bpcs with_closed]. rewrite Hb.
  destruct (apcs sl' !! t) as [[]|]; by eexists.
Qed.

(** A choice with which a thread moves. *)
Lemma choice_exists (q : queue T) t pb : bpcs q !! t = Some pb ->
  match pb with BIdle | BDone _ | JBlocked _ => True
  | _ => exists ch, choice_ok pb ch /\ ~ no_move q pb ch /\ (forall t', ch <> RunBy t') end.
Proof.
  intros H. destruct pb; try done; try (exists Tau; split_and!; [done|by intros []|done]).
  - destruct (exist_fresh (dom (nodes q))) as [n Hn]. apply not_elem_of_dom in Hn.
    exists (GetNode n true). split_and!; [by left| |done]. cbn. unfold get_object. by rewrite Hn.
  - exists RunHere. by split_and!; [|intros []|].
  - exists UserReturn. by split_and!; [|intros []|].
Qed.

Lemma tasks_run s t pb : EOk V sl s -> bpcs (q_tasks s) !! t = Some pb ->
  match pb with BIdle | BDone _ | JBlocked _ => True
  | _ => exists ch s', action_ok V s (RunTasks t ch) /\ exec_step (RunTasks t ch) s = Go s' end.
Proof.
  intros Hs H. pose proof (choice_exists (q_tasks s) t pb H) as Hch.
  assert (G : (exists ch, choice_ok pb ch /\ ~ no_move (q_tasks s) pb ch /\ (forall t', ch <> RunBy t')) ->
    exists ch s', action_ok V s (RunTasks t ch) /\ exec_step (RunTasks t ch) s = Go s'); [|by destruct pb; try done; apply G].
  intros (ch & C1 & C2 & C3).
  assert (Ha : action_ok V s (RunTasks t ch)) by (intros pc Hpc; rewrite H in Hpc; by injection Hpc as <-).
  exists ch. destruct Hs as (k & a & x & y & I). pose proof I as [I1 I2 El Ec Ecl]. cbn [exec_step].
  assert (started_idle s ch = true) as -> by (destruct ch; try done; by destruct (C3 t0)).
  assert (Hcs : closed (q_tasks s) = true -> _stopped (q_slot s) = true)
    by (intros E; apply (recycled_stopped V sl k); congruence).
  destruct (bstep_ok a x y (q_tasks s) t pb (_stopped (q_slot s)) ch I2 Hcs H C1) as [[_ Hn]|(q & a' & x' & y' & E & _)]; [by destruct (C2 Hn)|].
  rewrite E. by eexists.
Qed.

(** A thread that spins waits for one that does not. *)
Lemma spins_for s t : EOk V sl s -> spinning s t = true ->
  exists t' n p, bpcs (q_tasks s) !! t' = Some (BLink n p).
Proof.
  intros (k & a & x & y & I) H. pose proof I as [_ I2 _ _ _]. unfold spinning in H.
  destruct (bpcs (q_tasks s) !! t) as [pb|] eqn:Hb; [|done]. destruct pb; try done.
  pose proof (consumer _ _ _ _ _ _ I2 Hb eq_refl) as (Hctx & Hd & Hold & Hax & Hp & _).
  assert (H0 : cn (q_tasks s) !! O = Some (ctx_head c)) by (destruct c; cbn in *; tauto).
  pose proof (head_linked _ _ _ _ _ I2 H0) as Ha1. destruct (nodes (q_tasks s) !! p) as [nd|] eqn:Hn; [|done].
  destruct (reverse_link _ _ _ _ p nd I2 Hax Hp Hn Ha1) as [[_ (t' & p' & _ & Hl)]|(sv & Hx & _)]; [by exists t', p, p'|].
  by rewrite Hx in H.
Qed.

Lemma some_thread_runs s (v : T) : EOk V sl s -> (exists t, (t < length (apcs (q_slot s)))%nat /\ resting s t = false) ->
  exists t a s', runs a t /\ resting s t = false /\ spinning s t = false /\ action_ok V s a /\ exec_step a s = Go s'.
Proof.
  intros Hs (t & Ht & Hr).
  assert (W : exists t, (t < length (apcs (q_slot s)))%nat /\ resting s t = false /\ spinning s t = false).
  { destruct (spinning s t) eqn:Hsp; [|by exists t]. destruct (spins_for s t Hs Hsp) as (t' & n & p & Hl).
    destruct Hs as (k & a & x & y & I). exists t'. split_and!.
    - rewrite (e_length _ _ _ _ _ _ _ I). by apply lookup_lt_Some in Hl.
    - unfold resting, idle_tasks, blocked. rewrite Hl. by rewrite andb_false_r.
    - unfold spinning. by rewrite Hl. }
  clear t Ht Hr. destruct W as (t & Ht & Hr & Hsp). exists t.
  destruct (idle_tasks s t) eqn:Hit.
  { assert (idle_ref s t = false) as Hir by (unfold resting in Hr; rewrite Hit in Hr; by destruct (idle_ref s t)).
    destruct (ref_runs s t v Hs Hit Hir) as [s' E]. by exists (RunRef t v false false), s'. }
  assert (Hs0 := Hs). destruct Hs as (k & a & x & y & I). pose proof I as [I1 I2 El Ec Ecl].
  destruct (lookup_lt_is_Some_2 (bpcs (q_tasks s)) t) as [pb Hb]; [lia|].
  destruct (lookup_lt_is_Some_2 (apcs (q_slot s)) t Ht) as [pa Ha]. destruct (Ec t pa pb Ha Hb) as (Hin & _ & Hid).
  pose proof (tasks_run s t pb Hs0 Hb) as Hrun. unfold idle_tasks in Hit. rewrite Hb in Hit.
  assert (G : (exists ch s', action_ok V s (RunTasks t ch) /\ exec_step (RunTasks t ch) s = Go s') -> exists a s', runs a t /\
    resting s t = false /\ spinning s t = false /\ action_ok V s a /\ exec_step a s = Go s').
  { intros (ch & s' & Hok & E). by exists (RunTasks t ch), s'. }
  destruct pb; try done; try (by apply G).
  - destruct (finish_keeps V sl s t Hs0) as [E|(s' & E & _)]; [|by exists (Finish t), s'].
    cbn [exec_step] in E. rewrite Hb in E. unfold body_end in E. rewrite Ha in E. cbn in Hin. by destruct pa.
  - destruct (Hid eq_refl) as [?|[rc ->]]; [done|]. unfold resting, idle_ref, blocked in Hr. rewrite Ha, Hb in Hr.
    by rewrite orb_true_r in Hr.
Qed.

(** *** When all threads rest *)

Lemma resting_sums k a x y s (f : bpc T -> Z) : EInv V sl k a x y s -> (forall t, (t < length (apcs (q_slot s)))%nat -> resting s t = true) ->
  f BIdle = 0 -> (forall v, f (JBlocked v) = 0) -> sumz f (bpcs (q_tasks s)) = 0.
Proof.
  intros I Hr F1 F2. apply sumz_0. intros t pb Hb. specialize (Hr t). rewrite (e_length _ _ _ _ _ _ _ I) in Hr.
  specialize (Hr (lookup_lt_Some _ _ _ Hb)). apply andb_prop in Hr as [_ Hr]. unfold idle_tasks, blocked in Hr.
  rewrite Hb in Hr. by destruct pb.
Qed.

(** What create() finds in the slot of a queue that was joined. *)
Definition ready (s : exec) : Prop :=
  _versioned_ref (q_slot s) = _make_vref (u32 (V + 2)) 0 /\ _join_butex (q_tasks s) = i32 (V + 2) /\
  slot_returned (q_tasks s) = true.

Lemma drained_ok s : EOk V sl s -> (forall t, (t < length (apcs (q_slot s)))%nat -> resting s t = true) ->
  (forall k, (k < length (pushed (q_tasks s)))%nat -> k ∈ taken (log (q_tasks s))) /\
  _head (q_tasks s) = None /\ _high_priority_tasks (q_tasks s) = 0 /\
  (_stopped (q_slot s) = true -> ready s /\
     (exists k, last (taken (log (q_tasks s))) = Some k /\ S k = length (pushed (q_tasks s)) /\ Stopped k ∈ log (q_tasks s)) /\
     forall t v, bpcs (q_tasks s) !! t = Some (JBlocked v) -> i32 v = i32 (V + 2)).
Proof.
  intros (k & a & x & y & I) Hr. pose proof I as [I1 I2 El Ec Ecl].
  pose proof (fun f => resting_sums k a x y s f I Hr) as Z0.
  assert (Hc : chain (q_tasks s) = []).
  { pose proof (i_token _ _ _ _ I2) as Ht. rewrite Z0 in Ht by done. by destruct (chain (q_tasks s)). }
  assert (Htk : forall j, (j < length (pushed (q_tasks s)))%nat -> j ∈ taken (log (q_tasks s))).
  { intros j Hj. destruct (lookup_lt_is_Some_2 _ _ Hj) as [e He]. pose proof (i_fifo _ _ _ _ I2 (e_high e)) as F.
    rewrite Hc, app_nil_r in F.
    assert (Hin : j ∈ List.filter (in_class (pushed (q_tasks s)) (e_high e)) (seq 0 (length (pushed (q_tasks s))))).
    { apply list_elem_of_In, filter_In. split; [apply list_elem_of_In, elem_of_seq; lia|].
      unfold in_class. by rewrite He, eqb_reflx. }
    rewrite F in Hin. apply list_elem_of_In, filter_In in Hin as [Hin _]. by apply list_elem_of_In. }
  split_and!; [done|by rewrite (i_head _ _ _ _ I2); unfold cn; rewrite Hc|by rewrite (i_high _ _ _ _ I2), Hc, Z0 by done|].
  intros Hst.
  assert (Hidle : forall t pa, apcs (q_slot s) !! t = Some pa -> exists rc, pa = AIdle rc).
  { intros t pa Ha. specialize (Hr t (lookup_lt_Some _ _ _ Ha)). apply andb_prop in Hr as [Hr _].
    apply idle_ref_spec in Hr as [rc Hr]. exists rc. congruence. }
  pose proof (all_idle V sl k (q_slot s) I1 Hidle) as Hrec. rewrite Hst in Hrec. rewrite Hrec in Ecl.
  assert (HzA : forall f : apc -> Z, (forall rc, f (AIdle rc) = 0) -> sumz f (apcs (q_slot s)) = 0)
    by (intros f Hf; apply sumz_0; intros t pa Ha; destruct (Hidle t pa Ha) as [rc ->]; apply Hf).
  assert (k = 2) as ->.
  { pose proof (a_recycled V sl k _ I1) as Hk. rewrite Hrec, HzA in Hk by done. destruct (Z.eqb_spec k 2); [done|cbn in Hk; lia]. }
  pose proof (i_closed _ _ _ _ I2) as Hcl. rewrite Ecl, Z0 in Hcl by done. cbn in Hcl.
  destruct (sumz_pos is_stop (pushed (q_tasks s))) as (j & e & He & Hpos); [lia|].
  assert (Hnone : e_task e = None) by (unfold is_stop in Hpos; by destruct (e_task e)).
  destruct (i_stop_last _ _ _ _ I2 j e He Hnone) as [Hlast _].
  assert (Hsj : Stopped j ∈ log (q_tasks s)).
  { pose proof (Htk j ltac:(lia)) as Hj. apply elem_taken in Hj as [[v Hj]|[Hj|Hj]]; [| |done].
    - destruct (i_deliver _ _ _ _ I2 j v Hj) as [(e' & F1 & F2 & F3) _]. congruence.
    - destruct (i_skip _ _ _ _ I2 j Hj) as [(e' & F1 & F2) _]. congruence. }
  assert (Hstops : stops (q_tasks s) = 1).
  { destruct (i_stops _ _ _ _ I2) as [H1 _]. assert (1 <= stops (q_tasks s)) by (apply stops_elem; by exists j). lia. }
  pose proof (i_ending _ _ _ _ I2) as Hen. rewrite Hstops, Z0 in Hen by done.
  assert (Hb : bumped (V := V) (q_tasks s) = true) by (by destruct (bumped (V := V) (q_tasks s))).
  assert (Hbx : _join_butex (q_tasks s) = i32 (V + 2)).
  { rewrite <-(wraps_add_l 32 V 2). destruct (i_butex _ _ _ _ I2) as [E|E]; [|done]. unfold ExecQueueInv.bumped in Hb.
    rewrite E, Z.eqb_refl in Hb. done. }
  split_and!.
  - split_and!; [|done|].
    + rewrite (a_vref V sl 2 _ I1), HzA by done. symmetry. exact (make_vref_word V 2 0 ltac:(lia)).
    + pose proof (i_freeing _ _ _ _ I2) as Hf. rewrite Hb, Z0 in Hf by done. by destruct (slot_returned (q_tasks s)).
  - exists j. split_and!; [|done|done]. by apply (i_stopped _ _ _ _ I2 j Hsj).
  - intros t v Hv. destruct (i_joiners _ _ _ _ I2 t v Hv) as [->|Hw]; [done|]. rewrite Z0 in Hw by done. lia.
Qed.
End Progress.

(** ** What the queue promises *)

Lemma NoDup_classes (f : nat -> bool) (l : list nat) : NoDup (List.filter f l) ->
  NoDup (List.filter (fun k => negb (f k)) l) -> NoDup l.
Proof.
  induction l as [|k l IH]; [constructor|]. cbn [List.filter].
  assert (H : forall g : nat -> bool, g k = true -> (k ∉ List.filter g l) -> k ∉ l).
  { intros g Hg Hk Hin. apply Hk. apply list_elem_of_In, filter_In. by rewrite <-list_elem_of_In. }
  destruct (f k) eqn:E; cbn [negb].
  - intros [H1 H2]%NoDup_cons H3. apply NoDup_cons. split; [by apply (H f)|by apply IH].
  - intros H1 [H2 H3]%NoDup_cons. apply NoDup_cons. split; [|by apply IH].
    apply (H (fun k => negb (f k))); [by rewrite E|done].
Qed.

Lemma taken_once V a x y (s : queue T) : BInv (V := V) a x y s -> NoDup (taken (log s)).
Proof.
  intros I.
  assert (H : forall b, NoDup (List.filter (in_class (pushed s) b) (taken (log s)))).
  { intros b. pose proof (i_fifo _ _ _ _ I b) as F.
    assert (N : NoDup (List.filter (in_class (pushed s) b) (seq 0 (length (pushed s)))))
      by apply NoDup_ListNoDup, List.NoDup_filter, NoDup_ListNoDup, NoDup_seq.
    rewrite F in N. by apply NoDup_app in N as (N & _). }
  apply (NoDup_classes (in_class (pushed s) true)); [apply H|].
  rewrite (List.filter_ext_in _ (in_class (pushed s) false)); [apply H|].
  intros k Hk. apply list_elem_of_In in Hk. pose proof (taken_lt a x y s k I Hk) as Hlt.
  unfold in_class. destruct (lookup_lt_is_Some_2 _ _ Hlt) as [e ->]. by destruct (e_high e).
Qed.

(** What an iterator gives to the user is there. *)
Lemma user_task V a x y (s : queue T) t c it : BInv (V := V) a x y s -> bpcs s !! t = Some (XUser c it) -> iter_valid s it = Go true ->
  exists m nd v, _cur_node it = Some m /\ nodes s !! m = Some nd /\ task_mem nd = Some v.
Proof.
  intros I H Hv. pose proof (consumer _ _ _ _ _ _ I H eq_refl) as (Ex & Ey & Hit).
  destruct (iter_valid_ok a x y s c it I Hit) as (b & E & Hb). rewrite Hv in E. injection E as <-.
  destruct (Hb eq_refl) as (_ & m & nd & Hc & Hn & Hs). pose proof Hit as (_ & _ & _ & _ & Hcur).
  unfold cur_ok in Hcur. rewrite Hc in Hcur. destruct Hcur as (j & _ & Hj & _).
  destruct (at_index a x y s j m I Hj) as (nd' & k & Hn' & _ & _ & (md & e & E1 & E2 & E3 & E4 & E5 & _)).
  rewrite Hn in E1. injection E1 as <-. exists m, nd. destruct (task_mem nd) as [v|] eqn:Em; [by exists v|].
  symmetry in E3. apply E5 in E3. congruence.
Qed.

(** C5. In every state that an execution queue reaches, whatever calls of execute(),
    stop(), join(), cancel() its threads interleave: no action fails a CHECK,
    reaches LOG(FATAL) or touches a node that is not there; one thread at most is
    in the user's function; and the iterator it has gives a task that is there. *)
Theorem exec_queue_safe (V sl : Z) (n : nat) (s : exec) :
  0 <= V < 2 ^ 32 -> Z.even V = true -> 0 <= sl < 2 ^ 32 -> 2 * Z.of_nat n + 2 < 2 ^ 31 -> reach V sl n s ->
  (forall a, action_ok V s a -> exec_step a s <> Bad) /\
  (forall t t' c c' it it', bpcs (q_tasks s) !! t = Some (XUser c it) ->
     bpcs (q_tasks s) !! t' = Some (XUser c' it') -> t = t') /\
  (forall t c it, bpcs (q_tasks s) !! t = Some (XUser c it) -> iter_valid (q_tasks s) it = Go true ->
     exists m nd v, _cur_node it = Some m /\ nodes (q_tasks s) !! m = Some nd /\ task_mem nd = Some v).
Proof.
  intros HV He Hsl Hn H. pose proof (reach_ok V sl HV He Hsl n s Hn H) as Hok. split_and!.
  - intros a Ha. by apply (exec_step_ok V sl HV He Hsl s a).
  - destruct Hok as (k & a & x & y & [_ I _ _ _]). intros t t' c c' it it' H1 H2.
    destruct (decide (t' = t)) as [->|Hne]; [done|].
    by pose proof (token_unique a x y _ t t' _ _ I H1 H2 eq_refl Hne).
  - destruct Hok as (k & a & x & y & [_ I _ _ _]). intros t c it. by apply (user_task V a x y).
Qed.

(** C3. The entries of each priority are taken in the order in which they were
    pushed, each once; a task that is taken is given to the user if and only if it
    was not cancelled, with the value that was pushed; and the stop task is taken
    after all others. *)
Theorem exec_queue_fifo (V sl : Z) (n : nat) (s : exec) :
  0 <= V < 2 ^ 32 -> Z.even V = true -> 0 <= sl < 2 ^ 32 -> 2 * Z.of_nat n + 2 < 2 ^ 31 -> reach V sl n s ->
  let es := pushed (q_tasks s) in let l := log (q_tasks s) in
  NoDup (taken l) /\
  (forall b, List.filter (in_class es b) (taken l) `prefix_of` List.filter (in_class es b) (seq 0 (length es))) /\
  (forall k v, Deliver k v ∈ l -> (Cancelled k ∉ l) /\ v <> None /\ exists e, es !! k = Some e /\ e_task e = v) /\
  (forall k, Skip k ∈ l -> Cancelled k ∈ l) /\
  (forall k, Stopped k ∈ l -> S k = length es /\ last (taken l) = Some k).
Proof.
  intros HV He Hsl Hn H. destruct (reach_ok V sl HV He Hsl n s Hn H) as (k & a & x & y & [_ I _ _ _]). cbn zeta. split_and!.
  - by apply (taken_once V a x y).
  - intros b. rewrite (i_fifo _ _ _ _ I b). by apply prefix_app_r.
  - intros j v Hj. destruct (i_deliver _ _ _ _ I j v Hj) as [(e & E1 & E2 & E3) E4]. split_and!; try done. by exists e.
  - intros j Hj. by apply (i_skip _ _ _ _ I j Hj).
  - intros j Hj. destruct (i_stopped _ _ _ _ I j Hj) as [(e & E1 & E2) E3].
    split; [by apply (i_stop_last _ _ _ _ I j e E1 E2)|done].
Qed.

(** C6. As long as a thread is in a call some thread can go on, one that neither
    spins nor waits; and when all calls have returned or wait in join(), every
    entry has been taken.  If stop() was called the stop task came last, the slot
    is as create() wants it for the next queue, and who still waits in join()
    waits for that one. *)
Theorem exec_queue_drains (V sl : Z) (n : nat) (s : exec) (v : T) :
  0 <= V < 2 ^ 32 -> Z.even V = true -> 0 <= sl < 2 ^ 32 -> 2 * Z.of_nat n + 2 < 2 ^ 31 -> reach V sl n s ->
  ((exists t, (t < length (apcs (q_slot s)))%nat /\ resting s t = false) ->
   exists t a s', runs a t /\ resting s t = false /\ spinning s t = false /\ action_ok V s a /\ exec_step a s = Go s') /\
  ((forall t, (t < length (apcs (q_slot s)))%nat -> resting s t = true) ->
   (forall k, (k < length (pushed (q_tasks s)))%nat -> k ∈ taken (log (q_tasks s))) /\
   _head (q_tasks s) = None /\ _high_priority_tasks (q_tasks s) = 0 /\
   (_stopped (q_slot s) = true -> ready V s /\
      (exists k, last (taken (log (q_tasks s))) = Some k /\ S k = length (pushed (q_tasks s)) /\ Stopped k ∈ log (q_tasks s)) /\
      forall t v, bpcs (q_tasks s) !! t = Some (JBlocked v) -> i32 v = i32 (V + 2))).
Proof.
  intros HV He Hsl Hn H. pose proof (reach_ok V sl HV He Hsl n s Hn H) as Hok. split.
  - by apply (some_thread_runs V sl HV He Hsl).
  - by apply (drained_ok V sl).
Qed.

(** When there is no memory for a task, the node that was allocated is returned
    with a task that was never there. *)
Lemma no_memory_fails (s s1 : queue T) t e place n nd : e_task e <> None -> get_object s n = Some (nd, s1) ->
  status nd = UNEXECUTED -> allocate s t e place (GetNode n false) = Bad.
Proof.
  intros He Hg Hs. unfold allocate. rewrite Hg. destruct (e_task e); [|done]. unfold return_task_node, node.
  cbn [nodes with_node with_nodes]. rewrite lookup_insert_eq. unfold clear_before_return. rewrite Hs. by destruct (negb (stop_task nd) && _).
Qed.

(** ** A run *)

Fixpoint run (l : list action) (s : exec) : outcome exec :=
  match l with
  | [] => Go s
  | a :: l => match exec_step a s with Go s => run l s | o => o end
  end.

Fixpoint allowed (V : Z) (l : list action) (s : exec) : Prop :=
  match l with
  | [] => True
  | a :: l => action_ok V s a /\ match exec_step a s with Go s => allowed V l s | _ => False end
  end.

Lemma run_reach V sl n l s : reach V sl n s -> allowed V l s -> exists s', run l s = Go s' /\ reach V sl n s'.
Proof.
  revert s. induction l as [|a l IH]; intros s H Ha; [by exists s|]. cbn in *. destruct Ha as [Ha Hl].
  destruct (exec_step a s) as [| |s'] eqn:E; try done. apply IH; [|done]. by apply (reach_step V sl n s a).
Qed.

End Queue.
#[global] Arguments action T : clear implicits.
#[global] Arguments exec T : clear implicits.

(** Two threads execute a task each, the second of high priority, and the first
    stops the queue; a third one runs the tasks. *)
Definition an_id : Z := make_id 4 7.
Definition ref (t : nat) : action nat := RunRef t 100%nat false false.
Definition tau (t : nat) : action nat := RunTasks t Tau.
Definition pushing : list (action nat) :=
  [Call 0 an_id Execute; ref 0; ref 0; RunTasks 0 (GetNode 0 true); tau 0; RunTasks 0 (RunBy 2); Finish 0; ref 0;
   Call 1 an_id Execute; ref 1; RunRef 1 101%nat true false; RunTasks 1 (GetNode 1 true); tau 1; tau 1; tau 1; Finish 1; ref 1;
   Call 0 an_id Stop; ref 0; ref 0; ref 0; ref 0; ref 0; ref 0; ref 0; ref 0; ref 0;
   RunTasks 0 (GetNode 2 true); tau 0; tau 0; Finish 0]%nat.
Definition executing : list (action nat) :=
  (repeat (tau 2) 21 ++ RunTasks 2 UserReturn :: repeat (tau 2) 10 ++ RunTasks 2 UserReturn :: repeat (tau 2) 16)%nat.

Ltac allow := vm_compute; repeat (split; [first [exact I | (split; congruence) | (intros ? [= <-]; first [exact I|by left])]|]); exact I.

Lemma pushing_reach : exists s, run (pushing ++ repeat (tau 2) 21) (new_exec 4 7 3) = Go s /\ reach 4 7 3 s.
Proof. apply run_reach; [constructor|]. allow. Qed.

Lemma executing_reach : exists s, run (pushing ++ executing) (new_exec 4 7 3) = Go s /\ reach 4 7 3 s.
Proof. apply run_reach; [constructor|]. allow. Qed.

Definition result (o : outcome (exec nat)) : exec nat := match o with Go s => s | _ => new_exec 4 7 3 end.

Lemma exec_queue_safe_witness : let s := result (run (pushing ++ repeat (tau 2) 21) (new_exec 4 7 3)) in
  (exists c it, bpcs (q_tasks s) !! 2%nat = Some (XUser c it)) /\ exec_step (RunTasks 2 UserReturn) s <> Bad.
Proof.
  cbv zeta. split; [vm_compute; do 2 eexists; reflexivity|].
  destruct pushing_reach as (s & -> & H). cbn [result].
  destruct (exec_queue_safe 4 7 3 s) as (G & _); [done..|]. apply G. intros pc Hpc. by destruct pc.
Defined.

Lemma exec_queue_fifo_witness : let s := result (run (pushing ++ executing) (new_exec 4 7 3)) in
  log (q_tasks s) = [Deliver 1 (Some 101%nat); Deliver 0 (Some 100%nat); Stopped 2] /\ NoDup (taken (log (q_tasks s))).
Proof.
  cbv zeta. split; [vm_compute; reflexivity|]. destruct executing_reach as (s & -> & H). cbn [result].
  by apply (exec_queue_fifo 4 7 3 s).
Defined.

Lemma exec_queue_drains_witness :
  ready 4 (result (run (pushing ++ executing) (new_exec 4 7 3))) /\
  exists t a s', runs a t /\ exec_step a (result (run pushing (new_exec 4 7 3))) = Go s'.
Proof.
  split; [|exists 2%nat, (tau 2); eexists; split; [done|vm_compute; reflexivity]].
  assert (R : forall t, (t < 3)%nat -> resting (result (run (pushing ++ executing) (new_exec 4 7 3))) t = true)
    by (intros [|[|[|t]]] Ht; [vm_compute; reflexivity..|lia]).
  assert (L : length (apcs (q_slot (result (run (pushing ++ executing) (new_exec 4 7 3))))) = 3%nat) by (vm_compute; reflexivity).
  assert (St : _stopped (q_slot (result (run (pushing ++ executing) (new_exec 4 7 3)))) = true) by (vm_compute; reflexivity).
  destruct executing_reach as (s & E & H). rewrite E in *. clear E. cbn [result] in *.
  destruct (exec_queue_drains 4 7 3 s 0%nat) as (_ & G); [done..|].
  destruct G as (_ & _ & _ & G); [rewrite L; exact R|]. by apply G.
Defined.

End ExecutionQueue.
