(* ===== verification/ButexSpec.v ===== *)
(** * ButexSpec: what butex.h promises

    The calls of butex.h and fiber_interrupt() as a labelled transition system: a
    butex is a value and a queue of threads; waiting takes effect, waking takes
    effect, and being timed out or interrupted takes effect, each in one step
    between the call and the return.  Butex shows that butex.cc does that
    ([butex_refines_spec] in ButexRefines); the locks of FiberMutex are proved on
    it.

    A thread that [Pthread] and [PthreadTask] describe sleeps in the futex system
    call: what it returns after it was woken depends on the kernel, see
    [result_ok]. *)

From stdpp Require Import functions.
From S2P Require Import Prelude.

Module ButexSpec.

Definition EINTR : Z := 4.
Definition EWOULDBLOCK : Z := 11.
Definition ETIMEDOUT : Z := 110.

(** What runs a thread: a fiber; a fiber that has a pthread's stack
    (is_current_pthread_task); a pthread that is no worker (no TaskGroup). *)
Inductive kind := Fiber | PthreadTask | Pthread.

#[global] Instance kind_dec : EqDecision kind.
Proof. solve_decision. Defined.

(** The calls; butexes and threads are numbers.  [timed]: there is an abstime. *)
Inductive op :=
  | Wait (b : nat) (expected : Z) (timed : bool)
  | Wake (b : nat)
  | WakeAll (b : nat)
  | WakeExcept (b : nat) (excluded : option nat)
  | Requeue (b m : nat)
  | Interrupt (t : nat).

(** What happens at the interface: a call, its return with a result (for [Wait]
    0 or the errno), or an atomic access of a value by a user. *)
Inductive label :=
  | Tau
  | Call (t : nat) (o : op)
  | Return (t : nat) (r : Z)
  | Access (t b : nat) (old new : Z).

(** ** States *)

(** Why a thread waits no more. *)
Inductive cause := Woken | TimedOut | Unmatched | Interrupted.

Inductive status :=
  | AOut
  | AWaiting (b : nat) (v : Z) (timed : bool)    (* butex_wait is called *)
  | AQueued (b : nat) (timed : bool)             (* it sleeps *)
  | AReleased (c : cause) (timed : bool)         (* it sleeps no more *)
  | ACalled (o : op)                             (* another function is called *)
  | AReplying (n : Z).                           (* and took effect *)

(** [pending t]: an interruption that thread [t] has not noticed. *)
Record astate := mkAState {
  avalue : nat -> Z; queue : nat -> list nat; statuses : nat -> status; pending : nat -> bool }.

Definition with_status (t : nat) (x : status) (a : astate) : astate :=
  mkAState (avalue a) (queue a) (<[t := x]> (statuses a)) (pending a).
Definition with_queue (b : nat) (x : list nat) (a : astate) : astate :=
  mkAState (avalue a) (<[b := x]> (queue a)) (statuses a) (pending a).
Definition with_pending (t : nat) (x : bool) (a : astate) : astate :=
  mkAState (avalue a) (queue a) (statuses a) (<[t := x]> (pending a)).
Definition with_avalue (b : nat) (x : Z) (a : astate) : astate :=
  mkAState (<[b := x]> (avalue a)) (queue a) (statuses a) (pending a).

(** A sleeping thread stops to. *)
Definition release (c : cause) (t : nat) (a : astate) : astate :=
  match statuses a t with
  | AQueued _ timed => with_status t (AReleased c timed) a
  | _ => a
  end.

Definition release_all (c : cause) (l : list nat) (a : astate) : astate := foldr (release c) a l.

(** A sleeping thread goes to another butex. *)
Definition move (m : nat) (t : nat) (a : astate) : astate :=
  match statuses a t with
  | AQueued _ timed => with_status t (AQueued m timed) a
  | _ => a
  end.

Definition move_all (m : nat) (l : list nat) (a : astate) : astate := foldr (move m) a l.

Definition remove (t : nat) (l : list nat) : list nat := filter (fun t' => t' <> t) l.

Section Spec.
Context (kind_of : nat -> kind).

(** The effect of a wake function, and the number it returns.  butex_wake_except
    leaves the excluded fiber alone. *)
Definition effect (o : op) (a : astate) : option (Z * astate) :=
  match o with
  | Wake b =>
      match queue a b with
      | [] => Some (0, a)
      | w :: l => Some (1, release Woken w (with_queue b l a))
      end
  | WakeAll b => Some (zlen (queue a b), release_all Woken (queue a b) (with_queue b [] a))
  | WakeExcept b excluded =>
      let spared w := kind_of w = Fiber /\ excluded = Some w in
      let l := filter (fun w => ~ spared w) (queue a b) in
      Some (zlen l, release_all Woken l (with_queue b (filter spared (queue a b)) a))
  | Requeue b m =>
      if decide (b = m) then None
      else match queue a b with
           | [] => Some (0, a)
           | w :: l => Some (1, release Woken w (move_all m l (with_queue m (queue a m ++ l) (with_queue b [] a))))
           end
  | Interrupt t => Some (0, with_pending t true a)
  | Wait _ _ _ => None
  end.

(** The result of a wait that has ended because of [c]; [i] is whether an
    interruption was pending.  A pthread that was woken may return that the
    futex's time was over, or that its word had changed. *)
Definition result_ok (k : kind) (c : cause) (timed i : bool) (r : Z) : Prop :=
  match c with
  | TimedOut => r = ETIMEDOUT
  | Unmatched => r = EWOULDBLOCK
  | Woken =>
      r = (if i then EINTR else 0) \/
      (k <> Fiber /\ (r = EINTR \/ r = EWOULDBLOCK \/ (r = ETIMEDOUT /\ timed = true)))
  | Interrupted =>
      r = EINTR \/ (k <> Fiber /\ (r = EWOULDBLOCK \/ (r = ETIMEDOUT /\ timed = true)))
  end.

Inductive astep : astate -> label -> astate -> Prop :=
  | a_call_wait a t b v timed :
      statuses a t = AOut ->
      astep a (Call t (Wait b v timed)) (with_status t (AWaiting b v timed) a)
  | a_call a t o :
      statuses a t = AOut -> (forall b v timed, o <> Wait b v timed) ->
      (forall t', o = Interrupt t' -> kind_of t' <> Pthread) ->
      astep a (Call t o) (with_status t (ACalled o) a)
  | a_access a t b x :
      statuses a t = AOut ->
      astep a (Access t b (avalue a b) x) (with_avalue b x a)
  | a_effect a t o n a' :
      statuses a t = ACalled o -> effect o a = Some (n, a') ->
      astep a Tau (with_status t (AReplying n) a')
  | a_reply a t n :
      statuses a t = AReplying n -> astep a (Return t n) (with_status t AOut a)
  (* butex_wait *)
  | a_unmatched a t b v timed :
      statuses a t = AWaiting b v timed -> avalue a b <> v ->
      astep a (Return t EWOULDBLOCK) (with_status t AOut a)
  | a_due a t b v :
      statuses a t = AWaiting b v true -> kind_of t = Fiber ->
      astep a (Return t ETIMEDOUT) (with_status t AOut a)
  | a_mismatch a t b v timed :
      statuses a t = AWaiting b v timed -> avalue a b <> v ->
      astep a Tau (with_status t (AReleased Unmatched timed) a)
  | a_enqueue a t b v timed :
      statuses a t = AWaiting b v timed -> avalue a b = v ->
      astep a Tau (with_queue b (queue a b ++ [t]) (with_status t (AQueued b timed) a))
  | a_timeout a t b :
      statuses a t = AQueued b true ->
      astep a Tau (release TimedOut t (with_queue b (remove t (queue a b)) a))
  | a_interrupted a t b timed :
      statuses a t = AQueued b timed -> pending a t = true ->
      astep a Tau (release Interrupted t (with_queue b (remove t (queue a b)) a))
  | a_consume a t timed :
      kind_of t = PthreadTask -> statuses a t = AReleased Interrupted timed ->
      astep a Tau (with_pending t false a)
  | a_return a t c timed r :
      statuses a t = AReleased c timed -> result_ok (kind_of t) c timed (pending a t) r ->
      astep a (Return t r) (with_pending t false (with_status t AOut a)).

(** Silent steps, then one that is seen. *)
Definition tau_step (a a' : astate) : Prop := astep a Tau a'.

Inductive aexec (a : astate) : label -> astate -> Prop :=
  | aexec_tau a' : rtc tau_step a a' -> aexec a Tau a'
  | aexec_label l a1 a' : l <> Tau -> rtc tau_step a a1 -> astep a1 l a' -> aexec a l a'.

End Spec.

Definition ainitial : astate := mkAState (fun _ => 0) (fun _ => []) (fun _ => AOut) (fun _ => false).

End ButexSpec.
