(* ===== verification/Butex.v ===== *)
(** * Butex: waiting and waking (fiber/butex.cc)

    A butex is a word with a list of waiters under a lock.  A thread that waits
    links a waiter that is on its own stack; who wakes it, the timer, or who
    interrupts it, uses that waiter afterwards, outside the lock.

    A thread is between two accesses of a shared variable, [step] runs it over
    the next one.  A section under waiter_lock that touches nothing but the
    waiters of the list is one step; wait_for_butex and the same part of
    butex_wait_from_pthread, which also read the value and TaskMeta::interrupted,
    hold the lock over several steps.  A fiber that is switched out is
    [FSuspended] until somebody makes it ready.

    What the code leaves to others is the [choice] of a step: who runs, what the
    futex system call returns, when a time is over, and when the timer runs a
    task.  The TimerThread is here what timer_thread.h promises: a task runs at
    most once, unschedule() removes one that did not run yet and tells whether it
    is running. *)

From stdpp Require Import functions.
From S2P Require Import Prelude ButexSpec.

Module Butex.
Import ButexSpec.

(** ** Data *)

Inductive WaiterState :=
  | WAITER_STATE_NONE | WAITER_STATE_READY | WAITER_STATE_TIMEDOUT
  | WAITER_STATE_UNMATCHEDVALUE | WAITER_STATE_INTERRUPTED.

(** ButexWaiter::container: not yet written, or a butex or NULL. *)
Inductive container_ptr := Unwritten | At (p : option nat).

#[global] Instance container_ptr_dec : EqDecision container_ptr.
Proof. solve_decision. Defined.

(** A ButexWaiter, with the fields of ButexFiberWaiter and of ButexPthreadWaiter;
    [tid] is [None] for a pthread.  [abstime] is whether there is one. *)
Record ButexWaiter := mkWaiter {
  tid : option nat; container : container_ptr;
  sleep_id : Z; waiter_state : WaiterState; expected_value : Z; initial_butex : nat; abstime : bool;
  sig : Z }.

Definition PTHREAD_NOT_SIGNALLED : Z := 0.
Definition PTHREAD_SIGNALLED : Z := 1.

Definition set_container (c : container_ptr) (w : ButexWaiter) : ButexWaiter :=
  mkWaiter (tid w) c (sleep_id w) (waiter_state w) (expected_value w) (initial_butex w) (abstime w) (sig w).
Definition set_sleep_id (x : Z) (w : ButexWaiter) : ButexWaiter :=
  mkWaiter (tid w) (container w) x (waiter_state w) (expected_value w) (initial_butex w) (abstime w) (sig w).
Definition set_waiter_state (x : WaiterState) (w : ButexWaiter) : ButexWaiter :=
  mkWaiter (tid w) (container w) (sleep_id w) x (expected_value w) (initial_butex w) (abstime w) (sig w).
Definition set_sig (x : Z) (w : ButexWaiter) : ButexWaiter :=
  mkWaiter (tid w) (container w) (sleep_id w) (waiter_state w) (expected_value w) (initial_butex w) (abstime w) x.

(** A waiter is named by the thread whose stack it is on; [waiter_lock] is the
    thread that holds the lock over several steps. *)
Record Butex := mkButex { value : Z; waiters : list nat; waiter_lock : option nat }.

Definition set_value (x : Z) (b : Butex) : Butex := mkButex x (waiters b) (waiter_lock b).
Definition set_waiters (x : list nat) (b : Butex) : Butex := mkButex (value b) x (waiter_lock b).
Definition set_lock (x : option nat) (b : Butex) : Butex := mkButex (value b) (waiters b) x.

(** The fields of TaskMeta that are used here. *)
Record TaskMeta := mkMeta { current_waiter : option nat; interrupted : bool; version_lock : option nat }.

Definition set_current_waiter (x : option nat) (m : TaskMeta) : TaskMeta :=
  mkMeta x (interrupted m) (version_lock m).
Definition set_interrupted (x : bool) (m : TaskMeta) : TaskMeta :=
  mkMeta (current_waiter m) x (version_lock m).
Definition set_version_lock (x : option nat) (m : TaskMeta) : TaskMeta :=
  mkMeta (current_waiter m) (interrupted m) x.

(** ** Threads *)

(** What a thread does with the waiters it has taken out of a list, in order. *)
Inductive micro := Signal (w : nat) | Unsleep (w : nat) | MakeReady (w : nat).

(** Where erase_from_butex is: before the load of container, before the lock of
    the butex it saw, before the wake-up. *)
Inductive erasing := ELoad | ELock (b : nat) | EWake.

(** Before:
    - WCheck: the first load of the value in butex_wait;
    - FDue: the time is compared; FPublish: current_waiter is set; FLock, FValue,
      FInterrupted, FEnqueue: the lock, the two loads and the rest of
      wait_for_butex; FStop: (in) erase_from_butex, called there when the timer
      thread has stopped; FReady: its ready_to_run; FSuspended: switched out;
      FUnsleep, FTake, FFlag, FClear: the rest of butex_wait;
    - PPublish .. PAppend: the same in butex_wait_from_pthread; PClearEarly: it
      clears [interrupted]; PFutex, PSig, PErase, PSig2: wait_pthread; PTake,
      PFlag, PClear: the rest, with the result so far;
    - KLock: the section of a wake function; KDo: what is left to do, and the
      number to return;
    - IExchange, ISet, IErase, IBack: TaskGroup::interrupt. *)
Inductive pc :=
  | Out
  | WCheck (b : nat) (v : Z) (timed : bool)
  | FDue (b : nat) | FPublish (b : nat) | FLock (b : nat) | FValue (b : nat) | FInterrupted (b : nat)
  | FEnqueue (b : nat) | FStop (b : nat) (e : erasing) | FReady | FSuspended
  | FUnsleep | FTake | FFlag | FClear
  | PPublish (b : nat) (v : Z) (timed : bool) | PLock (b : nat) (v : Z) (timed : bool)
  | PValue (b : nat) (v : Z) (timed : bool) | PInterrupted (b : nat) (timed : bool)
  | PAppend (b : nat) (timed : bool) | PClearEarly
  | PFutex (timed : bool) | PSig (r : Z) (timed : bool) | PErase (e : erasing) | PSig2
  | PTake (r : Z) | PFlag (r : Z) | PClear (r : Z)
  | KLock (o : op) | KDo (l : list micro) (n : Z)
  | IExchange (t : nat) | ISet (t : nat) (w : option nat) | IErase (t w : nat) (e : erasing) | IBack (t w : nat).

(** A task of the timer thread: not run yet, or running. *)
Inductive timer_task := Scheduled (arg : nat) | Running (arg : nat).

(** [frames t] is the waiter on the stack of thread [t]; [ready t]: the fiber is
    in a run queue; [tasks] are the tasks of the timer thread that are not over,
    [callback] where the running one is. *)
Record state := mkState {
  butexes : nat -> Butex; frames : nat -> option ButexWaiter; metas : nat -> TaskMeta;
  ready : nat -> bool; pcs : nat -> pc;
  tasks : Z -> option timer_task; next_task : Z; timer_stopped : bool;
  callback : option (Z * nat * erasing) }.

Definition with_butexes (s : state) (x : nat -> Butex) : state :=
  mkState x (frames s) (metas s) (ready s) (pcs s) (tasks s) (next_task s) (timer_stopped s) (callback s).
Definition with_frames (s : state) (x : nat -> option ButexWaiter) : state :=
  mkState (butexes s) x (metas s) (ready s) (pcs s) (tasks s) (next_task s) (timer_stopped s) (callback s).
Definition with_metas (s : state) (x : nat -> TaskMeta) : state :=
  mkState (butexes s) (frames s) x (ready s) (pcs s) (tasks s) (next_task s) (timer_stopped s) (callback s).
Definition with_ready (s : state) (x : nat -> bool) : state :=
  mkState (butexes s) (frames s) (metas s) x (pcs s) (tasks s) (next_task s) (timer_stopped s) (callback s).
Definition with_pcs (s : state) (x : nat -> pc) : state :=
  mkState (butexes s) (frames s) (metas s) (ready s) x (tasks s) (next_task s) (timer_stopped s) (callback s).
Definition with_tasks (s : state) (x : Z -> option timer_task) : state :=
  mkState (butexes s) (frames s) (metas s) (ready s) (pcs s) x (next_task s) (timer_stopped s) (callback s).
Definition with_next_task (s : state) (x : Z) : state :=
  mkState (butexes s) (frames s) (metas s) (ready s) (pcs s) (tasks s) x (timer_stopped s) (callback s).
Definition with_timer_stopped (s : state) : state :=
  mkState (butexes s) (frames s) (metas s) (ready s) (pcs s) (tasks s) (next_task s) true (callback s).
Definition with_callback (s : state) (x : option (Z * nat * erasing)) : state :=
  mkState (butexes s) (frames s) (metas s) (ready s) (pcs s) (tasks s) (next_task s) (timer_stopped s) x.

Definition on_butex (b : nat) (f : Butex -> Butex) (s : state) : state :=
  with_butexes s (<[b := f (butexes s b)]> (butexes s)).
Definition on_meta (t : nat) (f : TaskMeta -> TaskMeta) (s : state) : state :=
  with_metas s (<[t := f (metas s t)]> (metas s)).
Definition at_pc (t : nat) (p : pc) (s : state) : state := with_pcs s (<[t := p]> (pcs s)).
Definition set_frame (t : nat) (w : option ButexWaiter) (s : state) : state :=
  with_frames s (<[t := w]> (frames s)).

(** Dereference a pointer to a waiter: its frame must be there. *)
Definition frame (w : nat) (s : state) : outcome ButexWaiter :=
  match frames s w with Some x => Go x | None => Bad end.
Definition on_frame (w : nat) (f : ButexWaiter -> ButexWaiter) (s : state) : outcome state :=
  x ← frame w s; Go (set_frame w (Some (f x)) s).

Section Steps.

(** What runs each thread; and what an atomic<Butex*> on the stack holds before
    it is written, [Unwritten] or a lucky value. *)
Context (kind_of : nat -> kind) (fresh_container : container_ptr).

(** ** The timer thread *)

(** TimerThread::schedule; 0 is INVALID_TASK_ID. *)
Definition schedule (arg : nat) (s : state) : Z * state :=
  if timer_stopped s then (0, s)
  else (next_task s, with_next_task (with_tasks s (<[next_task s := Some (Scheduled arg)]> (tasks s)))
                                    (next_task s + 1)).

(** TimerThread::unschedule: 0 if the task is removed, 1 if it is running, -1 if
    it is over. *)
Definition unschedule (id : Z) (s : state) : Z * state :=
  match tasks s id with
  | Some (Scheduled _) => (0, with_tasks s (<[id := None]> (tasks s)))
  | Some (Running _) => (1, s)
  | None => (-1, s)
  end.

Definition unsleep_if_necessary (w : nat) (s : state) : outcome (Z * state) :=
  x ← frame w s;
  if sleep_id x =? 0 then Go (0, s)
  else let '(r, s) := unschedule (sleep_id x) s in
       if 0 <? r then Go (-1, s)
       else s ← on_frame w (set_sleep_id 0) s; Go (0, s).

(** ** Waking *)

(** ready_to_run: a fiber that runs, or is in a run queue, must not get there
    again. *)
Definition ready_to_run (w : nat) (s : state) : outcome state :=
  match pcs s w with
  | FSuspended => if ready s w then Bad else Go (with_ready s (<[w := true]> (ready s)))
  | _ => Bad
  end.

Definition wakeup_pthread (w : nat) (s : state) : outcome state := on_frame w (set_sig PTHREAD_SIGNALLED) s.

Definition run_micro (m : micro) (s : state) : outcome state :=
  match m with
  | Signal w => wakeup_pthread w s
  | Unsleep w => r ← unsleep_if_necessary w s; Go (snd r)
  | MakeReady w => x ← frame w s; ready_to_run w s
  end.

(** Lock b->waiter_lock. *)
Definition locked {A} (b : nat) (s : state) (r : outcome A) : outcome A :=
  match waiter_lock (butexes s b) with Some _ => NoStep | None => r end.

(** container.store of a waiter that is taken out of a list or moved. *)
Definition detach (c : option nat) (w : nat) (s : state) : outcome state := on_frame w (set_container (At c)) s.

Fixpoint detach_all (c : option nat) (l : list nat) (s : state) : outcome state :=
  match l with
  | [] => Go s
  | w :: l => s ← detach c w s; detach_all c l s
  end.

(** Whether a waiter is a fiber's: its tid. *)
Definition tid_of (s : state) (w : nat) : option nat :=
  match frames s w with Some x => tid x | None => None end.

Definition fiber_waiters (s : state) (l : list nat) : list nat :=
  filter (fun w => tid_of s w <> None) l.
Definition pthread_waiters (s : state) (l : list nat) : list nat :=
  filter (fun w => tid_of s w = None) l.

(** What butex_wake and butex_requeue do with the first waiter. *)
Definition wake_front (s : state) (w : nat) : list micro :=
  match tid_of s w with None => [Signal w] | Some _ => [Unsleep w; MakeReady w] end.

Definition unsleep_and_make_ready (w : nat) : list micro := [Unsleep w; MakeReady w].

(** butex_wake_all: the pthreads, the fibers from the last to the second, and in
    the end the first, whose timer was stopped before. *)
Definition wake_all_script (s : state) (l : list nat) : list micro :=
  map Signal (pthread_waiters s l) ++
  match fiber_waiters s l with
  | [] => []
  | next :: rest => Unsleep next :: concat (map unsleep_and_make_ready (rev rest)) ++ [MakeReady next]
  end.

(** butex_wake_except: the pthreads, and the fibers from the last to the first. *)
Definition wake_except_script (s : state) (l : list nat) : list micro :=
  map Signal (pthread_waiters s l) ++
  concat (map unsleep_and_make_ready (rev (fiber_waiters s l))).

Definition is_excluded (s : state) (excluded : option nat) (w : nat) : Prop :=
  tid_of s w <> None /\ tid_of s w = excluded.
#[global] Instance is_excluded_dec s e w : Decision (is_excluded s e w).
Proof. unfold is_excluded. apply _. Defined.

(** The section of butex_wake, butex_wake_all, butex_wake_except, butex_requeue:
    what is left to do, and the number of waiters taken out. *)
Definition wake_section (o : op) (s : state) : outcome (list micro * Z * state) :=
  match o with
  | Wake b =>
      locked b s
        match waiters (butexes s b) with
        | [] => Go ([], 0, s)
        | front :: l =>
            s' ← detach None front (on_butex b (set_waiters l) s);
            Go (wake_front s front, 1, s')
        end
  | WakeAll b =>
      locked b s
        (let l := waiters (butexes s b) in
         s' ← detach_all None l (on_butex b (set_waiters []) s);
         Go (wake_all_script s l, zlen l, s'))
  | WakeExcept b excluded =>
      locked b s
        (let l := filter (fun w => ~ is_excluded s excluded w) (waiters (butexes s b)) in
         let kept := filter (is_excluded s excluded) (waiters (butexes s b)) in
         s' ← detach_all None l (on_butex b (set_waiters kept) s);
         Go (wake_except_script s l, zlen l, s'))
  | Requeue b m =>
      if decide (b = m) then NoStep   (* double_lock of one lock *)
      else locked b s (locked m s
        match waiters (butexes s b) with
        | [] => Go ([], 0, s)
        | front :: l =>
            s' ← detach None front (on_butex b (set_waiters []) (on_butex m (fun x => set_waiters (waiters x ++ l) x) s));
            s' ← detach_all (Some m) l s';
            Go (wake_front s front, 1, s')
        end)
  | _ => NoStep
  end.

(** ** erase_from_butex

    One access; [inr] is its result. *)
Definition erase_from_butex (w : nat) (wakeup : bool) (st : WaiterState) (e : erasing) (s : state) :
    outcome (state * (erasing + bool)) :=
  match e with
  | ELoad =>
      x ← frame w s;
      match container x with
      | Unwritten => Bad
      | At None => Go (s, inr false)
      | At (Some b) => Go (s, inl (ELock b))
      end
  | ELock b =>
      locked b s
        (x ← frame w s;
         if decide (container x = At (Some b)) then
           let s := on_butex b (fun y => set_waiters (filter (fun w' => w' <> w) (waiters y)) y) s in
           s ← on_frame w (fun x => set_container (At None)
                  (match tid x with Some _ => set_waiter_state st x | None => x end)) s;
           Go (s, if wakeup then inl EWake else inr true)
         else Go (s, inl ELoad))
  | EWake =>
      x ← frame w s;
      s ← match tid x with Some _ => ready_to_run w s | None => wakeup_pthread w s end;
      Go (s, inr true)
  end.

(** ** Steps *)

(** What the code leaves open. *)
Inductive choice :=
  | Run (t : nat)
  | Overdue (t : nat)             (* the time of the wait is over *)
  | Futex (t : nat) (r : Z)       (* what futex_wait_private returns: 0 or the errno *)
  | Issue (t : nat) (o : op)
  | Atomic (t b : nat) (new : Z)
  | TimerRuns (id : Z)
  | TimerStep
  | TimerStops.

Definition go (t : nat) (p : pc) (s : state) : outcome (label * state) := Go (Tau, at_pc t p s).

(** Return from a wait function, whose waiter is gone. *)
Definition return_wait (t : nat) (r : Z) (s : state) : outcome (label * state) :=
  Go (Return t r, at_pc t Out (set_frame t None s)).

(** A locked section of which the lock is kept, or given back. *)
Definition lock (t b : nat) (s : state) : state := on_butex b (set_lock (Some t)) s.
Definition unlock (b : nat) (s : state) : state := on_butex b (set_lock None) s.

(** *** butex_wait, up to sched() *)

(** The first load; then the waiter is made. *)
Definition butex_wait (t b : nat) (v : Z) (timed : bool) (s : state) : outcome (label * state) :=
  if negb (value (butexes s b) =? v) then Go (Return t EWOULDBLOCK, at_pc t Out s)
  else match kind_of t with
       | Fiber =>
           go t (if timed then FDue b else FPublish b)
              (set_frame t (Some (mkWaiter (Some t) (At None) 0 WAITER_STATE_READY v b timed 0)) s)
       | k =>
           go t (match k with PthreadTask => PPublish b v timed | _ => PLock b v timed end)
              (set_frame t (Some (mkWaiter None fresh_container 0 WAITER_STATE_NONE v b timed PTHREAD_NOT_SIGNALLED)) s)
       end.

(** wait_for_butex *)
Definition wait_for_butex (t : nat) (p : pc) (s : state) : outcome (label * state) :=
  match p with
  | FLock b => locked b s (go t (FValue b) (lock t b s))
  | FValue b =>
      x ← frame t s;
      if negb (value (butexes s b) =? expected_value x)
      then s ← on_frame t (set_waiter_state WAITER_STATE_UNMATCHEDVALUE) s; go t FReady (unlock b s)
      else go t (FInterrupted b) s
  | FInterrupted b =>
      x ← frame t s;
      match waiter_state x with
      | WAITER_STATE_READY =>
          if interrupted (metas s t) then go t FReady (unlock b s) else go t (FEnqueue b) s
      | _ => go t FReady (unlock b s)
      end
  | FEnqueue b =>
      s ← on_frame t (set_container (At (Some b))) (on_butex b (fun y => set_waiters (waiters y ++ [t]) y) s);
      x ← frame t s;
      if abstime x then
        let '(id, s) := schedule t s in
        s ← on_frame t (set_sleep_id id) s;
        if id =? 0 then go t (FStop b ELoad) s else go t FSuspended (unlock b s)
      else go t FSuspended (unlock b s)
  | FStop b e =>
      r ← erase_from_butex t true WAITER_STATE_TIMEDOUT e s;
      match r with
      | (s, inl e) => go t (FStop b e) s
      | (s, inr _) => go t FSuspended (unlock b s)
      end
  | FReady =>
      x ← frame t s;
      go t FSuspended (with_ready s (<[t := true]> (ready s)))
  | _ => NoStep
  end.

(** *** butex_wait, after sched() *)

Definition wait_result (st : WaiterState) (is_interrupted : bool) : Z :=
  match st with
  | WAITER_STATE_TIMEDOUT => ETIMEDOUT
  | WAITER_STATE_UNMATCHEDVALUE => EWOULDBLOCK
  | _ => if is_interrupted then EINTR else 0
  end.

(** The loop that takes current_waiter back: an exchange with NULL. *)
Definition take_back (t : nat) (next : pc) (s : state) : outcome (label * state) :=
  match current_waiter (metas s t) with
  | Some _ => go t next (on_meta t (set_current_waiter None) s)
  | None => Go (Tau, s)
  end.

Definition after_sched (t : nat) (p : pc) (s : state) : outcome (label * state) :=
  match p with
  | FSuspended =>
      if ready s t then go t FUnsleep (with_ready s (<[t := false]> (ready s))) else NoStep
  | FUnsleep =>
      '(r, s) ← unsleep_if_necessary t s;
      if r <? 0 then Go (Tau, s) else go t FTake s
  | FTake => take_back t FFlag s
  | FFlag =>
      if interrupted (metas s t) then go t FClear s
      else x ← frame t s; return_wait t (wait_result (waiter_state x) false) s
  | FClear =>
      x ← frame t s; return_wait t (wait_result (waiter_state x) true) (on_meta t (set_interrupted false) s)
  | _ => NoStep
  end.

(** *** butex_wait_from_pthread *)

(** Its end, with the result so far. *)
Definition pthread_result (t : nat) (r : Z) (s : state) : outcome (label * state) :=
  match kind_of t with PthreadTask => go t (PTake r) s | _ => return_wait t r s end.

Definition butex_wait_from_pthread (t : nat) (p : pc) (s : state) : outcome (label * state) :=
  match p with
  | PPublish b v timed => go t (PLock b v timed) (on_meta t (set_current_waiter (Some t)) s)
  | PLock b v timed => locked b s (go t (PValue b v timed) (lock t b s))
  | PValue b v timed =>
      if negb (value (butexes s b) =? v) then pthread_result t EWOULDBLOCK (unlock b s)
      else match kind_of t with
           | PthreadTask => go t (PInterrupted b timed) s
           | _ => go t (PAppend b timed) s
           end
  | PInterrupted b timed =>
      if interrupted (metas s t) then go t PClearEarly (unlock b s) else go t (PAppend b timed) s
  | PAppend b timed =>
      s ← on_frame t (set_container (At (Some b))) (on_butex b (fun y => set_waiters (waiters y ++ [t]) y) s);
      go t (PFutex timed) (unlock b s)
  | PClearEarly => pthread_result t EINTR (on_meta t (set_interrupted false) s)
  | PTake r => take_back t (PFlag r) s
  | PFlag r => if interrupted (metas s t) then go t (PClear r) s else return_wait t r s
  | PClear r => return_wait t (if r =? 0 then EINTR else r) (on_meta t (set_interrupted false) s)
  | _ => NoStep
  end.

(** wait_pthread; [Overdue]: the timeout is too short for the system call. *)
Definition futex_returns (timed : bool) (x : ButexWaiter) (r : Z) : Prop :=
  r = 0 \/ r = EINTR \/ (r = EWOULDBLOCK /\ sig x <> PTHREAD_NOT_SIGNALLED) \/ (r = ETIMEDOUT /\ timed = true).
#[global] Instance futex_returns_dec timed x r : Decision (futex_returns timed x r).
Proof. unfold futex_returns. apply _. Defined.

Definition wait_pthread (t : nat) (p : pc) (s : state) : outcome (label * state) :=
  x ← frame t s;
  match p with
  | PSig r timed =>
      if negb (sig x =? PTHREAD_NOT_SIGNALLED) then pthread_result t r s
      else if r =? ETIMEDOUT then go t (PErase ELoad) s
      else go t (PFutex timed) s
  | PErase e =>
      r ← erase_from_butex t false WAITER_STATE_TIMEDOUT e s;
      match r with
      | (s, inl e) => go t (PErase e) s
      | (s, inr true) => pthread_result t ETIMEDOUT s
      | (s, inr false) => go t PSig2 s
      end
  | PSig2 =>
      if sig x =? PTHREAD_NOT_SIGNALLED then go t (PFutex false) s else pthread_result t ETIMEDOUT s
  | _ => NoStep
  end.

(** *** TaskGroup::interrupt *)

Definition interrupt (i : nat) (p : pc) (s : state) : outcome (label * state) :=
  match p with
  | IExchange t =>
      match version_lock (metas s t) with
      | Some _ => NoStep
      | None =>
          go i (ISet t (current_waiter (metas s t)))
             (on_meta t (fun m => set_current_waiter None (set_version_lock (Some i) m)) s)
      end
  | ISet t w =>
      let s := on_meta t (fun m => set_interrupted true (set_version_lock None m)) s in
      match w with
      | Some w => go i (IErase t w ELoad) s
      | None => Go (Return i 0, at_pc i Out s)
      end
  | IErase t w e =>
      r ← erase_from_butex w true WAITER_STATE_INTERRUPTED e s;
      match r with
      | (s, inl e) => go i (IErase t w e) s
      | (s, inr _) => go i (IBack t w) s
      end
  | IBack t w =>
      match version_lock (metas s t) with
      | Some _ => NoStep
      | None => Go (Return i 0, at_pc i Out (on_meta t (set_current_waiter (Some w)) s))
      end
  | _ => NoStep
  end.

(** *** The wake functions *)

Definition wake (t : nat) (p : pc) (s : state) : outcome (label * state) :=
  match p with
  | KLock o =>
      r ← wake_section o s;
      let '(l, n, s) := r in
      match l with
      | [] => Go (Return t n, at_pc t Out s)
      | l => go t (KDo l n) s
      end
  | KDo [] n => Go (Return t n, at_pc t Out s)
  | KDo (m :: l) n => s ← run_micro m s; go t (KDo l n) s
  | _ => NoStep
  end.

(** *** The timer thread and all together *)

Definition timer_step (s : state) : outcome (label * state) :=
  match callback s with
  | None => NoStep
  | Some (id, w, e) =>
      r ← erase_from_butex w true WAITER_STATE_TIMEDOUT e s;
      match r with
      | (s, inl e) => Go (Tau, with_callback s (Some (id, w, e)))
      | (s, inr _) => Go (Tau, with_callback (with_tasks s (<[id := None]> (tasks s))) None)
      end
  end.

Definition begin (t : nat) (o : op) (s : state) : outcome (label * state) :=
  match pcs s t with
  | Out =>
      match o with
      | Wait b v timed => Go (Call t o, at_pc t (WCheck b v timed) s)
      | Interrupt t' =>
          match kind_of t' with
          | Pthread => NoStep   (* not a fiber *)
          | _ => Go (Call t o, at_pc t (IExchange t') s)
          end
      | _ => Go (Call t o, at_pc t (KLock o) s)
      end
  | _ => NoStep
  end.

Definition run_thread (t : nat) (s : state) : outcome (label * state) :=
  match pcs s t with
  | Out | FDue _ | PFutex _ =>
      match pcs s t with FDue b => go t (FPublish b) s | _ => NoStep end
  | WCheck b v timed => butex_wait t b v timed s
  | FPublish b => go t (FLock b) (on_meta t (set_current_waiter (Some t)) s)
  | (FLock _ | FValue _ | FInterrupted _ | FEnqueue _ | FStop _ _ | FReady) as p => wait_for_butex t p s
  | (FSuspended | FUnsleep | FTake | FFlag | FClear) as p => after_sched t p s
  | (PSig _ _ | PErase _ | PSig2) as p => wait_pthread t p s
  | (PPublish _ _ _ | PLock _ _ _ | PValue _ _ _ | PInterrupted _ _ | PAppend _ _ | PClearEarly
     | PTake _ | PFlag _ | PClear _) as p => butex_wait_from_pthread t p s
  | (KLock _ | KDo _ _) as p => wake t p s
  | (IExchange _ | ISet _ _ | IErase _ _ _ | IBack _ _) as p => interrupt t p s
  end.

Definition step (c : choice) (s : state) : outcome (label * state) :=
  match c with
  | Run t => run_thread t s
  | Overdue t =>
      match pcs s t with
      | FDue _ => return_wait t ETIMEDOUT s
      | PFutex true => go t (PErase ELoad) s
      | _ => NoStep
      end
  | Futex t r =>
      match pcs s t with
      | PFutex timed => x ← frame t s; if decide (futex_returns timed x r) then go t (PSig r timed) s else NoStep
      | _ => NoStep
      end
  | Issue t o => begin t o s
  | Atomic t b new =>
      match pcs s t with
      | Out => Go (Access t b (value (butexes s b)) new, on_butex b (set_value new) s)
      | _ => NoStep
      end
  | TimerRuns id =>
      match callback s, tasks s id with
      | None, Some (Scheduled w) =>
          Go (Tau, with_callback (with_tasks s (<[id := Some (Running w)]> (tasks s))) (Some (id, w, ELoad)))
      | _, _ => NoStep
      end
  | TimerStep => timer_step s
  | TimerStops => Go (Tau, with_timer_stopped s)
  end.

Fixpoint run_all (l : list choice) (s : state) : outcome (list label * state) :=
  match l with
  | [] => Go ([], s)
  | c :: l => '(a, s) ← step c s; '(ls, s) ← run_all l s; Go (a :: ls, s)
  end.

End Steps.

(** No thread is in a function of butex.cc, and no butex has waiters. *)
Definition initial : state :=
  mkState (fun _ => mkButex 0 [] None) (fun _ => None) (fun _ => mkMeta None false None)
          (fun _ => false) (fun _ => Out) (fun _ => None) 1 false None.

End Butex.
