(* ===== verification/ButexInv.v ===== *)
(** * ButexInv: the invariant of butex.cc and its relation to the specification

    [Sim s g a]: the state [s] of Butex, the state [a] of ButexSpec, and who is
    responsible for what ([ghost]): the actor that will wake a thread which was
    taken out of a list, the thread that took its current_waiter, and its task in
    the timer thread. *)

From stdpp Require Import functions.
From S2P Require Import Prelude ButexSpec Butex.

Module ButexInv.
Import ButexSpec Butex.

(** ** Who does what *)

Inductive actor := Thr (t : nat) | Timer.

#[global] Instance actor_dec : EqDecision actor.
Proof. solve_decision. Defined.

(** [taker w]: the thread, and whether it has set [interrupted]. *)
Record ghost := mkGhost {
  by_ : nat -> option actor; taker : nat -> option (nat * bool); task : nat -> option Z }.

Definition todo_micro (m : micro) : option nat :=
  match m with Signal w | MakeReady w => Some w | Unsleep _ => None end.

Definition todo_pc (p : pc) : list nat :=
  match p with
  | KDo l _ => omap todo_micro l
  | IErase _ w EWake => [w]
  | _ => []
  end.

Definition todo (s : state) (x : actor) : list nat :=
  match x with
  | Thr t => todo_pc (pcs s t)
  | Timer => match callback s with Some (_, w, EWake) => [w] | _ => [] end
  end.

(** The waiter that a thread has taken. *)
Definition takes (p : pc) : option (nat * bool) :=
  match p with
  | ISet _ (Some w) => Some (w, false)
  | IErase _ w _ | IBack _ w => Some (w, true)
  | _ => None
  end.

(** The butex, or the TaskMeta, of which a thread holds the lock. *)
Definition holds (p : pc) : option nat :=
  match p with
  | FValue b | FInterrupted b | FEnqueue b | FStop b _
  | PValue b _ _ | PInterrupted b _ | PAppend b _ => Some b
  | _ => None
  end.

Definition vholds (p : pc) : option nat := match p with ISet t _ => Some t | _ => None end.

(** The butex whose queue a thread is about to join: its value was right. *)
Definition coming (p : pc) : option nat :=
  match p with FInterrupted b | FEnqueue b | PInterrupted b _ | PAppend b _ => Some b | _ => None end.

Definition queued_at (f : option ButexWaiter) : option nat :=
  match f with Some x => match container x with At c => c | Unwritten => None end | None => None end.

Definition task_arg (x : option timer_task) : option nat :=
  match x with Some (Scheduled w | Running w) => Some w | None => None end.

(** ** Groups of facts *)

(** The lists of the butexes: [at_ w] is where a waiter says that it is. *)
Record Lists (bx : nat -> Butex) (at_ hold com : nat -> option nat) (a : astate) : Prop := mkLists {
  L_value b : avalue a b = value (bx b);
  L_queue b : queue a b = waiters (bx b) ++
    match waiter_lock (bx b) with Some t => if decide (com t = Some b) then [t] else [] | None => [] end;
  L_nodup b : NoDup (waiters (bx b));
  L_at b w : w ∈ waiters (bx b) <-> at_ w = Some b;
  L_lock b t : waiter_lock (bx b) = Some t <-> hold t = Some b }.

Record Wakers (td : actor -> list nat) (by_ : nat -> option actor) : Prop := mkWakers {
  W_by x w : w ∈ td x <-> by_ w = Some x;
  W_nodup x : NoDup (td x) }.

Record Takers (tk : nat -> option (nat * bool)) (vh vl : nat -> option nat)
    (taker : nat -> option (nat * bool)) : Prop := mkTakers {
  T_taker i w ph : tk i = Some (w, ph) <-> taker w = Some (i, ph);
  T_lock i t : vl t = Some i <-> vh i = Some t }.

(** [sl w] is the id that the waiter remembers, which may be over. *)
Definition sleeping (f : option ButexWaiter) : Z := match f with Some x => sleep_id x | None => 0 end.

Record Tasks (ts : Z -> option timer_task) (cb : option (Z * nat)) (next : Z)
    (task : nat -> option Z) (sl : nat -> Z) : Prop := mkTasks {
  K_task id w : task_arg (ts id) = Some w <-> task w = Some id;
  K_running id w : ts id = Some (Running w) <-> cb = Some (id, w);
  K_next : 0 < next;
  K_ids id : ts id <> None -> 0 < id < next;
  K_sleep w : sl w <> 0 -> sl w < next /\ forall w', task w' = Some (sl w) -> w' = w }.

(** ** Groups that a step does not touch *)

Lemma Lists_ext bx at_ hold com a bx' at' hold' com' a' :
  Lists bx at_ hold com a ->
  (forall b, bx' b = bx b) -> (forall w, at' w = at_ w) -> (forall t, hold' t = hold t) ->
  (forall t, com' t = com t) -> (forall b, avalue a' b = avalue a b) -> (forall b, queue a' b = queue a b) ->
  Lists bx' at' hold' com' a'.
Proof.
  intros [V Q N A L] Eb Ea Eh Ec Ev Eq. split; intros b; rewrite ?Eb, ?Ev, ?Eq; [done| |done| |].
  - rewrite Q. destruct (waiter_lock (bx b)); by rewrite ?Ec.
  - intros w. rewrite Ea. apply A.
  - intros t. rewrite Eh. apply L.
Qed.

Lemma Wakers_ext td bx td' by' :
  Wakers td bx -> (forall x, td' x = td x) -> (forall w, by' w = bx w) -> Wakers td' by'.
Proof. intros [B N] Et Eb. split; intros x; rewrite Et; [intros w; by rewrite Eb|done]. Qed.

Lemma Takers_ext tk vh vl tkr tk' vh' vl' tkr' :
  Takers tk vh vl tkr -> (forall i, tk' i = tk i) -> (forall i, vh' i = vh i) -> (forall t, vl' t = vl t) ->
  (forall w, tkr' w = tkr w) -> Takers tk' vh' vl' tkr'.
Proof. intros [T L] E1 E2 E3 E4. split; intros; rewrite ?E1, ?E2, ?E3, ?E4; auto. Qed.

Lemma at_same {A B} (f : A -> B) (m : nat -> A) t x :
  f x = f (m t) -> forall t', f ((<[t := x]> m) t') = f (m t').
Proof. intros E t'. destruct (decide (t' = t)) as [->|]; [by rewrite fn_lookup_insert|by rewrite fn_lookup_insert_ne]. Qed.

Lemma at_other `{EqDecision K} {A} (m : K -> A) t x t' : t' <> t -> (<[t := x]> m) t' = m t'.
Proof. intros. by rewrite fn_lookup_insert_ne. Qed.

Lemma at_it `{EqDecision K} {A} (m : K -> A) t x : (<[t := x]> m) t = x.
Proof. by rewrite fn_lookup_insert. Qed.

Lemma Tasks_ext ts cb n tk sl ts' cb' n' tk' sl' :
  Tasks ts cb n tk sl -> (forall i, ts' i = ts i) -> cb' = cb -> n' = n -> (forall w, tk' w = tk w) ->
  (forall w, sl' w = sl w \/ sl' w = 0) -> Tasks ts' cb' n' tk' sl'.
Proof.
  intros [K R N I S] E1 -> -> E4 E5. split; intros *; rewrite ?E4, ?E1; auto.
  destruct (E5 w) as [E|E]; rewrite E; [|done]. intros Hn. destruct (S w Hn) as [S1 S2].
  split; [done|]. intros w'. rewrite E4. auto.
Qed.

(** A new task for [t], a waiter that has none; one that did not run is removed. *)
Lemma Tasks_schedule ts cb n tk sl t sl' :
  Tasks ts cb n tk sl -> tk t = None -> (forall w, w <> t -> sl' w = sl w) -> sl' t = n ->
  Tasks (<[n := Some (Scheduled t)]> ts) cb (n + 1) (<[t := Some n]> tk) sl'.
Proof.
  intros [K R N I S] Ht Es Est. assert (ts n = None) as En.
  { destruct (ts n) as [y|] eqn:E; [|done]. exfalso. assert (0 < n < n) by (apply I; congruence). lia. }
  assert (forall w, tk w <> Some n) as Hn by (intros w; rewrite <- K, En; done).
  split.
  - intros id w. destruct (decide (id = n)) as [->|Hne]; rewrite ?at_it, ?at_other by done; cbn.
    + destruct (decide (w = t)) as [->|Hw]; rewrite ?at_it, ?at_other by done; cbn; [done|].
      rewrite <- K, En. cbn. split; congruence.
    + destruct (decide (w = t)) as [->|Hw]; rewrite ?at_it, ?at_other by done; [|apply K].
      rewrite K, Ht. split; congruence.
  - intros id w. destruct (decide (id = n)) as [->|Hne]; rewrite ?at_it, ?at_other by done; [|apply R].
    split; [done|]. intros E. apply R in E. congruence.
  - lia.
  - intros id. destruct (decide (id = n)) as [->|Hne]; rewrite ?at_it, ?at_other by done; [lia|].
    intros Hi. specialize (I id Hi). lia.
  - intros w. destruct (decide (w = t)) as [->|Hw].
    + rewrite Est. split; [lia|]. intros w'. destruct (decide (w' = t)) as [->|]; [done|]. rewrite at_other by done.
      intros E. by apply Hn in E.
    + rewrite Es by done. intros Hz. destruct (S w Hz) as [S1 S2]. split; [lia|]. intros w'.
      destruct (decide (w' = t)) as [->|]; [rewrite at_it; intros [= E]; lia|rewrite at_other by done; auto].
Qed.

Lemma Tasks_remove ts cb n tk sl id w :
  Tasks ts cb n tk sl -> ts id = Some (Scheduled w) -> Tasks (<[id := None]> ts) cb n (<[w := None]> tk) sl.
Proof.
  intros [K R N I S] E. assert (tk w = Some id) as Ek by (apply K; by rewrite E).
  split; try done.
  - intros id' w'. destruct (decide (id' = id)) as [->|Hne]; rewrite ?at_it, ?at_other by done; cbn.
    + destruct (decide (w' = w)) as [->|Hw]; rewrite ?at_it, ?at_other by done; [done|].
      rewrite <- K, E. cbn. split; congruence.
    + destruct (decide (w' = w)) as [->|Hw]; rewrite ?at_it, ?at_other by done; [|apply K].
      rewrite K, Ek. split; congruence.
  - intros id' w'. destruct (decide (id' = id)) as [->|Hne]; rewrite ?at_it, ?at_other by done; [|apply R].
    split; [done|]. intros E'. apply R in E'. congruence.
  - intros id'. destruct (decide (id' = id)) as [->|Hne]; rewrite ?at_it, ?at_other by done; auto.
  - intros w' Hz. destruct (S w' Hz) as [S1 S2]. split; [done|]. intros u.
    destruct (decide (u = w)) as [->|]; [by rewrite at_it|rewrite at_other by done; auto].
Qed.

Lemma frame_eq w s x : frames s w = Some x -> frame w s = Go x.
Proof. intros E. unfold frame. by rewrite E. Qed.

Lemma on_frame_eq w f s x : frames s w = Some x -> on_frame w f s = Go (set_frame w (Some (f x)) s).
Proof. intros E. unfold on_frame. by rewrite (frame_eq _ _ _ E). Qed.

(** ** The lock of a butex over several steps *)

Section Locks.
Context (bx : nat -> Butex) (at_ hold com hold' com' : nat -> option nat) (a : astate) (t b : nat).
Hypothesis HL : Lists bx at_ hold com a.
Hypothesis Hh : forall t', t' <> t -> hold' t' = hold t'.
Hypothesis Hc : forall t', t' <> t -> com' t' = com t'.

Lemma holds_one b' : hold t = Some b -> waiter_lock (bx b') = Some t -> b' = b.
Proof. intros E1 E2. apply (L_lock _ _ _ _ _ HL) in E2. congruence. Qed.

Lemma Lists_lock : waiter_lock (bx b) = None -> hold t = None -> hold' t = Some b -> com' t = None ->
  Lists (<[b := set_lock (Some t) (bx b)]> bx) at_ hold' com' a.
Proof.
  intros E1 E2 E3 E4. destruct HL as [V Q N A L].
  split; intros b'; (destruct (decide (b' = b)) as [->|Hne]; rewrite ?at_it, ?at_other by done; cbn; auto).
  - rewrite Q, E1, E4. by rewrite decide_False.
  - rewrite Q. destruct (waiter_lock (bx b')) as [u|] eqn:E; [|done]. destruct (decide (u = t)) as [->|]; [|by rewrite Hc].
    apply L in E. congruence.
  - intros u. destruct (decide (u = t)) as [->|Hu]; [by rewrite E3|]. rewrite Hh by done. rewrite <- L, E1. split; congruence.
  - intros u. destruct (decide (u = t)) as [->|Hu]; [|rewrite Hh by done; auto]. rewrite E3. rewrite L, E2. split; congruence.
Qed.

(** The value was right. *)
Lemma Lists_come st : hold t = Some b -> hold' t = Some b -> com t = None -> com' t = Some b ->
  Lists bx at_ hold' com' (with_queue b (queue a b ++ [t]) (with_status t st a)).
Proof.
  intros E1 E2 E3 E4. pose proof holds_one as Hone. destruct HL as [V Q N A L].
  split; cbn; auto.
  - intros b'. assert (waiter_lock (bx b) = Some t) as El by by apply L.
    destruct (decide (b' = b)) as [->|Hne]; rewrite ?at_it, ?at_other by done.
    + rewrite Q, El, E3, E4. rewrite decide_False, decide_True by done. by rewrite app_nil_r.
    + rewrite Q. destruct (waiter_lock (bx b')) as [u|] eqn:E; [|done]. destruct (decide (u = t)) as [->|]; [|by rewrite Hc].
      exfalso. apply Hne. by apply Hone.
  - intros b' u. destruct (decide (u = t)) as [->|Hu]; [rewrite E2, <- E1; auto|rewrite Hh by done; auto].
Qed.

Lemma Lists_go_on : hold' t = hold t -> com' t = com t -> Lists bx at_ hold' com' a.
Proof.
  intros E1 E2. eapply Lists_ext; [exact HL|done|done| | |done|done];
    intros u; (destruct (decide (u = t)) as [->|]; auto).
Qed.

(** The lock is given back; [l] is what the waiters are then, and who was coming
    is there or leaves. *)
Lemma Lists_unlock at' l a' :
  hold t = Some b -> hold' t = None -> com' t = None ->
  (forall b, avalue a' b = avalue a b) -> (forall b', b' <> b -> queue a' b' = queue a b') ->
  queue a' b = l -> NoDup l -> (forall w, w ∈ l <-> at' w = Some b) ->
  (forall b' w, b' <> b -> at_ w = Some b' <-> at' w = Some b') ->
  Lists (<[b := set_lock None (set_waiters l (bx b))]> bx) at' hold' com' a'.
Proof.
  intros E1 E2 E3 Ev Eq El Hn Hl Hat. pose proof holds_one as Hone. destruct HL as [V Q N A L].
  split; intros b'; (destruct (decide (b' = b)) as [->|Hne]; rewrite ?at_it, ?at_other by done; cbn; auto).
  - by rewrite Ev.
  - by rewrite Ev.
  - by rewrite app_nil_r.
  - rewrite Eq, Q by done. destruct (waiter_lock (bx b')) as [u|] eqn:E; [|done].
    destruct (decide (u = t)) as [->|]; [|by rewrite Hc]. exfalso. apply Hne. by apply Hone.
  - intros w. rewrite A. by apply Hat.
  - intros u. destruct (decide (u = t)) as [->|Hu]; [by rewrite E2|]. rewrite Hh, <- L by done.
    assert (waiter_lock (bx b) = Some t) as -> by by apply L. split; congruence.
  - intros u. destruct (decide (u = t)) as [->|Hu]; [|rewrite Hh by done; auto]. rewrite E2. split; [|done].
    intros E. exfalso. apply Hne. by apply Hone.
Qed.

(** The thread is in the list, and keeps the lock. *)
Lemma Lists_join at' : hold t = Some b -> hold' t = Some b -> com t = Some b -> com' t = None ->
  at_ t = None -> at' t = Some b -> (forall w, w <> t -> at' w = at_ w) ->
  Lists (<[b := set_waiters (waiters (bx b) ++ [t]) (bx b)]> bx) at' hold' com' a.
Proof.
  intros E1 E2 E3 E4 E5 E6 Ha. pose proof holds_one as Hone. destruct HL as [V Q N A L].
  assert (waiter_lock (bx b) = Some t) as El by by apply L.
  assert (t ∉ waiters (bx b)) as Hn by (rewrite A, E5; done).
  split; intros b'; (destruct (decide (b' = b)) as [->|Hne]; rewrite ?at_it, ?at_other by done; cbn; auto).
  - rewrite Q, El, E3, E4. rewrite decide_True, decide_False, app_nil_r by done. done.
  - rewrite Q. destruct (waiter_lock (bx b')) as [u|] eqn:E; [|done].
    destruct (decide (u = t)) as [->|]; [|by rewrite Hc]. exfalso. apply Hne. by apply Hone.
  - apply NoDup_app. split; [done|]. split; [set_solver|apply NoDup_singleton].
  - intros w. destruct (decide (w = t)) as [->|Hw]; [rewrite E6; set_solver|]. rewrite Ha, <- A by done. set_solver.
  - intros w. destruct (decide (w = t)) as [->|Hw]; [rewrite A, E5, E6; split; congruence|]. by rewrite Ha, <- A by done.
  - intros u. destruct (decide (u = t)) as [->|Hu]; [by rewrite E2, El|]. by rewrite Hh, <- L by done.
  - intros u. destruct (decide (u = t)) as [->|Hu]; [rewrite E2, L, E1; done|]. by rewrite Hh, <- L by done.
Qed.

End Locks.

(** ** A thread *)

Record view := mkView {
  v_pc : pc; v_frame : option ButexWaiter; v_cur : option nat; v_intr : bool; v_ready : bool;
  v_status : status; v_by : option actor; v_taker : option (nat * bool); v_task : option Z }.

Section Threads.
Context (kind_of : nat -> kind).

Fixpoint script_ok (l : list micro) : Prop :=
  match l with
  | [] => True
  | Signal w :: l => kind_of w <> Fiber /\ script_ok l
  | MakeReady w :: l => kind_of w = Fiber /\ script_ok l
  | Unsleep w :: l => kind_of w = Fiber /\ w ∈ omap todo_micro l /\ script_ok l
  end.

Definition is_wake (o : op) : Prop :=
  match o with Wait _ _ _ | Interrupt _ => False | _ => True end.

(** No waiter: nobody has anything to do with the thread. *)
Definition idle (v : view) : Prop :=
  v_frame v = None /\ v_cur v = None /\ v_ready v = false /\ v_by v = None /\ v_taker v = None /\ v_task v = None.

(** Its waiter is not in a list and nobody is to wake it. *)
Definition unqueued (x : ButexWaiter) (v : view) : Prop :=
  container x = At None /\ v_ready v = false /\ v_by v = None.

(** current_waiter is set, or was taken; who took it sets [interrupted] first. *)
Definition published (t : nat) (v : view) : Prop :=
  (v_cur v = Some t /\ v_taker v = None) \/ (v_cur v = None /\ exists j, v_taker v = Some j).
Definition flagged (v : view) : Prop := forall i, v_taker v = Some (i, true) -> v_intr v = true.
Definition unpublished (v : view) : Prop := v_cur v = None /\ v_taker v = None.

Definition fiber_waiter (t : nat) (x : ButexWaiter) : Prop := kind_of t = Fiber /\ tid x = Some t.

(** A fiber's waiter that was not in a list yet. *)
Definition fiber_new (t : nat) (x : ButexWaiter) (v : view) : Prop :=
  fiber_waiter t x /\ unqueued x v /\ sleep_id x = 0 /\ waiter_state x = WAITER_STATE_READY /\ v_task v = None.

(** Why a fiber is released. *)
Definition fiber_cause (c : cause) (st : WaiterState) (i : bool) : Prop :=
  match st with
  | WAITER_STATE_NONE => False
  | WAITER_STATE_READY => c = Woken \/ (c = Interrupted /\ i = true)
  | WAITER_STATE_TIMEDOUT => c = TimedOut
  | WAITER_STATE_UNMATCHEDVALUE => c = Unmatched
  | WAITER_STATE_INTERRUPTED => c = Interrupted /\ i = true
  end.

Definition fiber_released (t : nat) (x : ButexWaiter) (v : view) : Prop :=
  exists c, v_status v = AReleased c (abstime x) /\ fiber_cause c (waiter_state x) (v_intr v).

(** The timer has the waiter only while this is so. *)
Definition timed_by (x : ButexWaiter) (v : view) : Prop :=
  forall id, v_task v = Some id -> sleep_id x = id /\ abstime x = true.

Definition pthread_waiter (t : nat) (x : ButexWaiter) (v : view) : Prop :=
  kind_of t <> Fiber /\ tid x = None /\ v_ready v = false /\ v_task v = None.
Definition pthread_published (t : nat) (v : view) : Prop :=
  match kind_of t with PthreadTask => published t v | _ => unpublished v end.

(** The result of a pthread so far. *)
Definition result_so_far (c : cause) (timed i : bool) (r : Z) : Prop :=
  match c with
  | Unmatched => r = EWOULDBLOCK
  | TimedOut => r = ETIMEDOUT
  | Woken => r = 0 \/ r = EINTR \/ r = EWOULDBLOCK \/ (r = ETIMEDOUT /\ timed = true)
  | Interrupted => (r = 0 /\ i = true) \/ r = EINTR \/ r = EWOULDBLOCK \/ (r = ETIMEDOUT /\ timed = true)
  end.

Definition pthread_done (r : Z) (x : ButexWaiter) (v : view) : Prop :=
  container x = At None /\ v_by v = None /\
  exists c timed, v_status v = AReleased c timed /\ result_so_far c timed (v_intr v) r.

(** In wait_pthread: in a list, or to be woken, or signalled. *)
Definition pthread_asleep (t : nat) (x : ButexWaiter) (v : view) (timed : bool) : Prop :=
  pthread_waiter t x v /\ pthread_published t v /\ flagged v /\
  exists timed0, (timed = true -> timed0 = true) /\
    match container x with
    | Unwritten => False
    | At (Some b) => v_status v = AQueued b timed0 /\ sig x = PTHREAD_NOT_SIGNALLED /\ v_by v = None
    | At None =>
        (exists c, v_status v = AReleased c timed0 /\ (c = Woken \/ (c = Interrupted /\ v_intr v = true))) /\
        ((sig x = PTHREAD_NOT_SIGNALLED /\ exists y, v_by v = Some y) \/
         (sig x = PTHREAD_SIGNALLED /\ v_by v = None))
    end.

Definition with_waiter (v : view) (P : ButexWaiter -> Prop) : Prop := exists x, v_frame v = Some x /\ P x.

Definition thread_ok (t : nat) (v : view) : Prop :=
  match v_pc v with
  | Out => idle v /\ v_status v = AOut
  | WCheck b e timed => idle v /\ v_status v = AWaiting b e timed
  | FDue b => with_waiter v (fun x => fiber_new t x v /\ unpublished v /\ v_status v = AWaiting b (expected_value x) (abstime x) /\ abstime x = true)
  | FPublish b =>
      with_waiter v (fun x => fiber_new t x v /\ unpublished v /\ v_status v = AWaiting b (expected_value x) (abstime x))
  | FLock b | FValue b =>
      with_waiter v (fun x => fiber_new t x v /\ published t v /\ flagged v /\
        v_status v = AWaiting b (expected_value x) (abstime x))
  | FInterrupted b | FEnqueue b =>
      with_waiter v (fun x => fiber_new t x v /\ published t v /\ flagged v /\ v_status v = AQueued b (abstime x))
  | FStop b e =>
      with_waiter v (fun x => fiber_waiter t x /\ published t v /\ flagged v /\ container x = At (Some b) /\
        v_ready v = false /\ v_by v = None /\ v_task v = None /\ waiter_state x = WAITER_STATE_READY /\
        v_status v = AQueued b (abstime x) /\ (e = ELoad \/ e = ELock b))
  | FReady =>
      with_waiter v (fun x => fiber_waiter t x /\ unqueued x v /\ v_task v = None /\ published t v /\ flagged v /\
        fiber_released t x v)
  | FSuspended =>
      with_waiter v (fun x => fiber_waiter t x /\ published t v /\ flagged v /\ timed_by x v /\
        match container x with
        | Unwritten => False
        | At (Some b) => v_status v = AQueued b (abstime x) /\ waiter_state x = WAITER_STATE_READY /\
                         v_ready v = false /\ v_by v = None
        | At None => fiber_released t x v /\
            ((v_ready v = true /\ v_by v = None) \/ (v_ready v = false /\ exists y, v_by v = Some y))
        end)
  | FUnsleep =>
      with_waiter v (fun x => fiber_waiter t x /\ unqueued x v /\ timed_by x v /\ published t v /\ flagged v /\
        fiber_released t x v)
  | FTake =>
      with_waiter v (fun x => fiber_waiter t x /\ unqueued x v /\ v_task v = None /\ published t v /\ flagged v /\
        fiber_released t x v)
  | FFlag => with_waiter v (fun x => fiber_waiter t x /\ unqueued x v /\ v_task v = None /\ unpublished v /\ fiber_released t x v)
  | FClear =>
      with_waiter v (fun x => fiber_waiter t x /\ unqueued x v /\ v_task v = None /\ unpublished v /\ fiber_released t x v /\
        v_intr v = true)
  | PPublish b e timed =>
      with_waiter v (fun x => pthread_waiter t x v /\ kind_of t = PthreadTask /\ unqueued x v /\
        sig x = PTHREAD_NOT_SIGNALLED /\ unpublished v /\ v_status v = AWaiting b e timed)
  | PLock b e timed | PValue b e timed =>
      with_waiter v (fun x => pthread_waiter t x v /\ unqueued x v /\ sig x = PTHREAD_NOT_SIGNALLED /\
        pthread_published t v /\ flagged v /\ v_status v = AWaiting b e timed)
  | PInterrupted b timed =>
      with_waiter v (fun x => pthread_waiter t x v /\ kind_of t = PthreadTask /\ unqueued x v /\
        sig x = PTHREAD_NOT_SIGNALLED /\ pthread_published t v /\ flagged v /\ v_status v = AQueued b timed)
  | PAppend b timed =>
      with_waiter v (fun x => pthread_waiter t x v /\ unqueued x v /\ sig x = PTHREAD_NOT_SIGNALLED /\
        pthread_published t v /\ flagged v /\ v_status v = AQueued b timed)
  | PClearEarly =>
      with_waiter v (fun x => pthread_waiter t x v /\ kind_of t = PthreadTask /\ unqueued x v /\ published t v /\
        exists timed, v_status v = AReleased Interrupted timed)
  | PFutex timed => with_waiter v (fun x => pthread_asleep t x v timed)
  | PSig r timed =>
      with_waiter v (fun x => pthread_asleep t x v (timed || (r =? ETIMEDOUT)) /\
        (r = 0 \/ r = EINTR \/ r = EWOULDBLOCK \/ r = ETIMEDOUT))
  | PErase e => with_waiter v (fun x => pthread_asleep t x v true /\ e <> EWake)
  | PSig2 => with_waiter v (fun x => pthread_asleep t x v true /\ container x = At None)
  | PTake r => with_waiter v (fun x => pthread_waiter t x v /\ pthread_published t v /\ pthread_done r x v)
  | PFlag r => with_waiter v (fun x => pthread_waiter t x v /\ kind_of t = PthreadTask /\ unpublished v /\ pthread_done r x v)
  | PClear r =>
      with_waiter v (fun x => pthread_waiter t x v /\ kind_of t = PthreadTask /\ unpublished v /\ v_intr v = true /\
        pthread_done r x v)
  | KLock o => idle v /\ v_status v = ACalled o /\ is_wake o
  | KDo l n => idle v /\ v_status v = AReplying n /\ script_ok l
  | IExchange t' => idle v /\ v_status v = ACalled (Interrupt t') /\ kind_of t' <> Pthread
  | ISet t' w => idle v /\ v_status v = ACalled (Interrupt t') /\ kind_of t' <> Pthread /\ (w = None \/ w = Some t')
  | IErase t' w _ | IBack t' w => idle v /\ v_status v = AReplying 0 /\ w = t'
  end.

Definition view_of (s : state) (g : ghost) (a : astate) (t : nat) : view :=
  mkView (pcs s t) (frames s t) (current_waiter (metas s t)) (interrupted (metas s t)) (ready s t)
         (statuses a t) (by_ g t) (taker g t) (task g t).

Record Sim (s : state) (g : ghost) (a : astate) : Prop := mkSim {
  S_threads t : thread_ok t (view_of s g a t);
  S_pending t : pending a t = interrupted (metas s t);
  S_no_meta t : kind_of t = Pthread -> interrupted (metas s t) = false;
  S_lists : Lists (butexes s) (fun t => queued_at (frames s t)) (fun t => holds (pcs s t))
                  (fun t => coming (pcs s t)) a;
  S_wakers : Wakers (todo s) (by_ g);
  S_takers : Takers (fun t => takes (pcs s t)) (fun t => vholds (pcs s t))
                    (fun t => version_lock (metas s t)) (taker g);
  S_tasks : Tasks (tasks s) (fst <$> callback s) (next_task s) (task g) (fun w => sleeping (frames s w)) }.

(** What a thread has to do does not change. *)
Definition same_duties (p p' : pc) : Prop :=
  todo_pc p' = todo_pc p /\ takes p' = takes p /\ vholds p' = vholds p.

Lemma Wakers_pc s s' g t p :
  Wakers (todo s) (by_ g) -> pcs s' = <[t := p]> (pcs s) -> callback s' = callback s ->
  todo_pc p = todo_pc (pcs s t) -> Wakers (todo s') (by_ g).
Proof.
  intros W Ep Ec Et. eapply Wakers_ext; [exact W| |done]. intros [t'|]; cbn.
  - rewrite Ep. by apply (at_same todo_pc).
  - by rewrite Ec.
Qed.

Lemma Takers_pc s s' g t p :
  Takers (fun t => takes (pcs s t)) (fun t => vholds (pcs s t)) (fun t => version_lock (metas s t)) (taker g) ->
  pcs s' = <[t := p]> (pcs s) -> (forall t', version_lock (metas s' t') = version_lock (metas s t')) ->
  takes p = takes (pcs s t) -> vholds p = vholds (pcs s t) ->
  Takers (fun t => takes (pcs s' t)) (fun t => vholds (pcs s' t)) (fun t => version_lock (metas s' t)) (taker g).
Proof.
  intros T Ep Ev E1 E2. eapply Takers_ext; [exact T|intros i; rewrite Ep|intros i; rewrite Ep|done|done].
  - by apply (at_same takes).
  - by apply (at_same vholds).
Qed.

Lemma Lists_pc s s' a a' t p :
  Lists (butexes s) (fun t => queued_at (frames s t)) (fun t => holds (pcs s t)) (fun t => coming (pcs s t)) a ->
  (forall b, butexes s' b = butexes s b) -> (forall w, queued_at (frames s' w) = queued_at (frames s w)) ->
  pcs s' = <[t := p]> (pcs s) -> holds p = holds (pcs s t) -> coming p = coming (pcs s t) ->
  (forall b, avalue a' b = avalue a b) -> (forall b, queue a' b = queue a b) ->
  Lists (butexes s') (fun t => queued_at (frames s' t)) (fun t => holds (pcs s' t)) (fun t => coming (pcs s' t)) a'.
Proof.
  intros L Eb Ea Ep Eh Ec Ev Eq.
  eapply Lists_ext; [exact L|done|done|intros i; rewrite Ep|intros i; rewrite Ep|done|done].
  - by apply (at_same holds).
  - by apply (at_same coming).
Qed.

(** Other threads see nothing of a step of [t]. *)
Definition others_same (t : nat) (s s' : state) (g g' : ghost) (a a' : astate) : Prop :=
  forall t', t' <> t ->
    pcs s' t' = pcs s t' /\ frames s' t' = frames s t' /\ current_waiter (metas s' t') = current_waiter (metas s t') /\
    interrupted (metas s' t') = interrupted (metas s t') /\ ready s' t' = ready s t' /\
    statuses a' t' = statuses a t' /\ by_ g' t' = by_ g t' /\ taker g' t' = taker g t' /\ task g' t' = task g t'.

Lemma Threads_own t s s' g g' a a' :
  (forall t', thread_ok t' (view_of s g a t')) -> others_same t s s' g g' a a' ->
  thread_ok t (view_of s' g' a' t) -> forall t', thread_ok t' (view_of s' g' a' t').
Proof.
  intros H O Ht t'. destruct (decide (t' = t)) as [->|Hne]; [done|]. specialize (H t').
  destruct (O t' Hne) as (E1 & E2 & E3 & E4 & E5 & E6 & E7 & E8 & E9).
  unfold view_of in *. by rewrite E1, E2, E3, E4, E5, E6, E7, E8, E9.
Qed.

(** The invariant does not tell states apart that have the same contents. *)
Lemma Sim_ext s s' g a :
  Sim s g a -> (forall b, butexes s' b = butexes s b) -> (forall t, frames s' t = frames s t) ->
  (forall t, metas s' t = metas s t) -> (forall t, ready s' t = ready s t) -> (forall t, pcs s' t = pcs s t) ->
  (forall id, tasks s' id = tasks s id) -> next_task s' = next_task s -> callback s' = callback s -> Sim s' g a.
Proof.
  intros [H1 H2 H7 H3 H4 H5 H6] Eb Ef Em Er Ep Et En Ec. split.
  - intros t. specialize (H1 t). unfold view_of in *. by rewrite Ep, Ef, Em, Er.
  - intros t. by rewrite Em.
  - intros t. rewrite Em. auto.
  - eapply Lists_ext; [exact H3|done|intros; by rewrite ?Ef, ?Ep..|done|done].
  - eapply Wakers_ext; [exact H4| |done]. intros []; cbn; by rewrite ?Ep, ?Ec.
  - eapply Takers_ext; [exact H5|intros; by rewrite ?Ep, ?Em..|done].
  - eapply Tasks_ext; [exact H6|done|by rewrite Ec|done|done|]. intros w. left. by rewrite Ef.
Qed.

(** A step of [t] that touches its own waiter, TaskMeta, task and place in the
    run queue, and leaves its duties. *)
Lemma own_step_lists t p s s' g g' a a' :
  Sim s g a ->
  Lists (butexes s') (fun t => queued_at (frames s' t)) (fun t => holds (pcs s' t)) (fun t => coming (pcs s' t)) a' ->
  Tasks (tasks s') (fst <$> callback s') (next_task s') (task g') (fun w => sleeping (frames s' w)) ->
  by_ g' = by_ g -> taker g' = taker g -> callback s' = callback s ->
  pcs s' = <[t := p]> (pcs s) -> same_duties (pcs s t) p ->
  version_lock (metas s' t) = version_lock (metas s t) ->
  (forall t', t' <> t -> frames s' t' = frames s t' /\ metas s' t' = metas s t' /\ ready s' t' = ready s t' /\
     statuses a' t' = statuses a t' /\ pending a' t' = pending a t' /\ task g' t' = task g t') ->
  pending a' t = interrupted (metas s' t) ->
  interrupted (metas s' t) = interrupted (metas s t) \/ interrupted (metas s' t) = false ->
  thread_ok t (view_of s' g' a' t) -> Sim s' g' a'.
Proof.
  intros [H1 H2 H7 H3 H4 H5 H6] HL HT Eby Etk Ec Ep (D1 & D2 & D3) Ev O Hp Hi Ht.
  assert (forall t', t' <> t -> pcs s' t' = pcs s t') as Op by (intros; rewrite Ep; by apply at_other).
  split; try done.
  - eapply Threads_own; [exact H1| |exact Ht]. intros t' Hne. destruct (O t' Hne) as (E1 & E2 & E3 & E4 & E5 & E6).
    rewrite E1, E2, E3, E4, E6, Op, Eby, Etk by done. done.
  - intros t'. destruct (decide (t' = t)) as [->|Hne]; [done|]. destruct (O t' Hne) as (_ & -> & _ & _ & -> & _). done.
  - intros t' Ek. destruct (decide (t' = t)) as [->|Hne]; [destruct Hi as [->| ->]; auto|].
    destruct (O t' Hne) as (_ & -> & _). auto.
  - rewrite Eby. by apply (Wakers_pc s s' g t p).
  - rewrite Etk. apply (Takers_pc s s' g t p); try done. intros t'. destruct (decide (t' = t)) as [->|Hne]; [done|].
    by destruct (O t' Hne) as (_ & -> & _).
Qed.

(** The same where no butex and no task changes. *)
Lemma own_step t p s s' g a a' :
  Sim s g a ->
  (forall b, butexes s' b = butexes s b) -> (forall id, tasks s' id = tasks s id) ->
  next_task s' = next_task s -> callback s' = callback s ->
  pcs s' = <[t := p]> (pcs s) ->
  queued_at (frames s' t) = queued_at (frames s t) ->
  sleeping (frames s' t) = sleeping (frames s t) \/ sleeping (frames s' t) = 0 ->
  holds p = holds (pcs s t) -> coming p = coming (pcs s t) -> same_duties (pcs s t) p ->
  version_lock (metas s' t) = version_lock (metas s t) ->
  (forall t', t' <> t -> frames s' t' = frames s t' /\ metas s' t' = metas s t' /\ ready s' t' = ready s t' /\
     statuses a' t' = statuses a t' /\ pending a' t' = pending a t') ->
  (forall b, avalue a' b = avalue a b) -> (forall b, queue a' b = queue a b) ->
  pending a' t = interrupted (metas s' t) ->
  interrupted (metas s' t) = interrupted (metas s t) \/ interrupted (metas s' t) = false ->
  thread_ok t (view_of s' g a' t) -> Sim s' g a'.
Proof.
  intros H Eb Et En Ec Ep Eq Esl Eh Eco D Ev O Av Aq Hp Hi Ht.
  apply (own_step_lists t p s s' g g a a'); try done.
  - eapply (Lists_pc s s' a a' t p); try done; [apply H|]. intros w. destruct (decide (w = t)) as [->|Hne]; [done|].
    by destruct (O w Hne) as (-> & _).
  - eapply Tasks_ext; [apply H|done|by rewrite Ec|done|done|]. intros w. destruct (decide (w = t)) as [->|Hne]; [done|].
    left. by destruct (O w Hne) as (-> & _).
  - intros t' Hne. destruct (O t' Hne) as (? & ? & ? & ? & ?). done.
Qed.

End Threads.
End ButexInv.
