(* ===== verification/ButexSteps.v ===== *)
(** * ButexSteps: every step of butex.cc keeps the invariant

    and is a step, or none, of the specification. *)

From stdpp Require Import functions.
From S2P Require Import Prelude ButexSpec Butex ButexInv.

Module ButexSteps.
Import ButexSpec Butex ButexInv.

Section Basics.
Context {kind_of : nat -> kind}.

Local Abbreviation Sim := (Sim kind_of).

(** The outcome is allowed: no undefined behaviour, and the specification can do
    what is seen. *)
Definition post (a : astate) (r : outcome (label * state)) : Prop :=
  match r with
  | Bad => False
  | NoStep => True
  | Go (l, s') => exists g' a', aexec kind_of a l a' /\ Sim s' g' a'
  end.

Lemma post_tau a s' g' : Sim s' g' a -> post a (Go (Tau, s')).
Proof. intros H. exists g', a. split; [by constructor|done]. Qed.

Lemma post_tau1 a a' s' g' : astep kind_of a Tau a' -> Sim s' g' a' -> post a (Go (Tau, s')).
Proof. intros Ha H. exists g', a'. split; [constructor; by apply rtc_once|done]. Qed.

Lemma post_label a l a' s' g' : l <> Tau -> astep kind_of a l a' -> Sim s' g' a' -> post a (Go (l, s')).
Proof. intros Hl Ha H. exists g', a'. split; [by eapply aexec_label|done]. Qed.

Lemma post_label2 a l a1 a' s' g' :
  l <> Tau -> astep kind_of a Tau a1 -> astep kind_of a1 l a' -> Sim s' g' a' -> post a (Go (l, s')).
Proof. intros Hl H1 H2 H. exists g', a'. split; [by eapply aexec_label; [|apply rtc_once|]|done]. Qed.

(** What the invariant says of thread [t]. *)
Lemma thread_at s g a t p : Sim s g a -> pcs s t = p ->
  thread_ok kind_of t (mkView p (frames s t) (current_waiter (metas s t)) (interrupted (metas s t)) (ready s t)
                       (statuses a t) (by_ g t) (taker g t) (task g t)).
Proof. intros H <-. apply (S_threads _ _ _ _ H). Qed.

End Basics.

Arguments post : clear implicits.

Ltac view_in H :=
  cbv [thread_ok with_waiter idle unpublished unqueued fiber_new fiber_waiter pthread_waiter v_pc v_frame v_cur v_intr
       v_ready v_status v_by v_taker v_task] in H.
Ltac view_goal :=
  cbv [thread_ok with_waiter idle unpublished unqueued fiber_new fiber_waiter pthread_waiter pthread_done v_pc v_frame v_cur
       v_intr v_ready v_status v_by v_taker v_task].
Ltac thread H Ep Ht := pose proof (thread_at _ _ _ _ _ H Ep) as Ht; view_in Ht.

Ltac others :=
  let t' := fresh "t'" in let Hne := fresh "Hne" in
  intros t' Hne; cbn; rewrite ?(at_other _ _ _ t' Hne); split_and!; reflexivity.
Ltac own t p :=
  eapply (own_step _ t p); [eassumption|done|done|done|done|reflexivity|..];
  [cbn; rewrite ?at_it; try done|cbn; rewrite ?at_it; try (by left); try (by right)|cbn; try done|cbn; try done|try done|cbn; rewrite ?at_it; try done|try others|try done|try done|
   cbn; rewrite ?at_it; try done|cbn; rewrite ?at_it; try (by left); try (by right)|unfold view_of; cbn; rewrite ?at_it].

(** [own_step_lists], with what does not change. *)
Ltac own_lists t p a' :=
  eapply (own_step_lists _ t p _ _ _ _ _ a');
  [eassumption|..|reflexivity|reflexivity|reflexivity|reflexivity|
   |cbn; rewrite ?at_it; try done|try others|cbn; rewrite ?at_it; try done|cbn; rewrite ?at_it; try (by left); try (by right)|
   unfold view_of; cbn; rewrite ?at_it].

(** ** Lists *)

Lemma remove_nin t l : t ∉ l -> remove t l = l.
Proof.
  intros H. unfold remove. induction l as [|u l IH]; [done|]. rewrite filter_cons_True by set_solver.
  rewrite IH by set_solver. done.
Qed.

Lemma remove_app t l k : remove t (l ++ k) = remove t l ++ remove t k.
Proof. apply filter_app. Qed.

Lemma remove_self t : remove t [t] = [].
Proof. unfold remove. by rewrite filter_cons_False by naive_solver. Qed.

Section Steps.
Context {kind_of : nat -> kind}.

Local Abbreviation Sim := (Sim kind_of).
Local Abbreviation step := (step kind_of (At None)).
Local Abbreviation post := (post kind_of).

(** ** Calls *)

Lemma begin_ok s g a t o : Sim s g a -> post a (begin kind_of t o s).
Proof.
  intros H. unfold begin. destruct (pcs s t) eqn:Ep; try done.
  thread H Ep Ht. destruct Ht as [Hi Hs].
  assert (forall p st, holds p = None -> coming p = None -> same_duties (pcs s t) p ->
    thread_ok kind_of t (view_of (at_pc t p s) g (with_status t st a) t) ->
    Sim (at_pc t p s) g (with_status t st a)) as K.
  { intros p st E1 E2 E3 Hok. own t p; [by rewrite E1, Ep|by rewrite E2, Ep|apply (S_pending _ _ _ _ H)|].
    unfold view_of in Hok. cbn in Hok. by rewrite !at_it in Hok. }
  assert (forall p o, same_duties (pcs s t) p -> holds p = None -> coming p = None ->
    thread_ok kind_of t (mkView p None None (interrupted (metas s t)) false (ACalled o) None None None) ->
    (forall b v timed, o <> Wait b v timed) -> (forall t', o = Interrupt t' -> kind_of t' <> Pthread) ->
    post a (Go (Call t o, at_pc t p s))) as K2.
  { intros p o' E1 E2 E3 Hok F1 F2. eapply post_label; [done|by apply a_call|]. apply K; try done.
    unfold view_of; cbn. rewrite !at_it. destruct Hi as (-> & -> & -> & -> & -> & ->). done. }
  destruct o.
  - eapply post_label; [done|by apply a_call_wait|]. apply K; try (by rewrite Ep); try done.
    unfold view_of; cbn; rewrite !at_it. done.
  - apply K2; try (by rewrite Ep); try done; done.
  - apply K2; try (by rewrite Ep); try done; done.
  - apply K2; try (by rewrite Ep); try done; done.
  - apply K2; try (by rewrite Ep); try done; done.
  - destruct (kind_of t0) eqn:Ek; try done.
    + apply K2; try (by rewrite Ep); try done; [cbn|by intros ? [= <-] ?; congruence].
      split; [done|]. split; [done|congruence].
    + apply K2; try (by rewrite Ep); try done; [cbn|by intros ? [= <-] ?; congruence].
      split; [done|]. split; [done|congruence].
Qed.

Lemma atomic_ok s g a t b x : Sim s g a -> post a (step (Atomic t b x) s).
Proof.
  intros H. cbn. destruct (pcs s t) eqn:Ep; try done.
  thread H Ep Ht. destruct Ht as [Hi Hs].
  rewrite <- (L_value _ _ _ _ _ (S_lists _ _ _ _ H) b).
  eapply post_label; [done|by apply a_access|].
  destruct H as [H1 H2 H7 [V Q N A L] H4 H5 H6]. split; try done.
  split; cbn; intros b'; destruct (decide (b' = b)) as [->|Hne]; rewrite ?at_it, ?at_other by done; cbn; auto.
Qed.

(** ** butex_wait up to sched() *)

Lemma butex_wait_ok s g a t b v timed :
  Sim s g a -> pcs s t = WCheck b v timed -> post a (butex_wait kind_of (At None) t b v timed s).
Proof.
  intros H Ep. thread H Ep Ht. destruct Ht as [(Hf & Hc & Hr & Hb & Htk & Hts) Hs]. unfold butex_wait.
  pose proof (L_value _ _ _ _ _ (S_lists _ _ _ _ H) b) as Hv.
  pose proof (S_pending _ _ _ _ H t) as Hp.
  destruct (Z.eqb_spec (value (butexes s b)) v) as [E|E]; cbn [negb].
  - assert (forall p w, Sim (at_pc t p (set_frame t (Some w) s)) g a ->
      post a (go t p (set_frame t (Some w) s))) as K by (intros; by apply (post_tau _ _ g)).
    destruct (kind_of t) eqn:Ek; [destruct timed|..]; apply K.
    + own t (FDue b); [by rewrite Hf|by rewrite Ep|by rewrite Ep|by rewrite Ep|]. view_goal. by eexists.
    + own t (FPublish b); [by rewrite Hf|by rewrite Ep|by rewrite Ep|by rewrite Ep|]. view_goal. by eexists.
    + own t (PPublish b v timed); [by rewrite Hf|by rewrite Ep|by rewrite Ep|by rewrite Ep|].
      view_goal. eexists. rewrite Ek. split; done.
    + own t (PLock b v timed); [by rewrite Hf|by rewrite Ep|by rewrite Ep|by rewrite Ep|].
      view_goal. eexists. unfold pthread_published, flagged. cbn. rewrite Ek, Htk. done.
  - eapply post_label; [done|eapply a_unmatched; [done|congruence]|].
    own t Out; [by rewrite Ep|by rewrite Ep|by rewrite Ep|]. view_goal. done.
Qed.

Lemma due_ok s g a t b : Sim s g a -> pcs s t = FDue b -> post a (go t (FPublish b) s) /\ post a (return_wait t ETIMEDOUT s).
Proof.
  intros H Ep. thread H Ep Ht. destruct Ht as (x & Hf & ((Hk & Hx) & (Hc & Hr & Hb) & Hsl & Hw & Hts) & (Hcu & Htk) & Hs & Ha).
  pose proof (S_pending _ _ _ _ H t) as Hp. rewrite Ha in Hs. split.
  - apply (post_tau _ _ g). own t (FPublish b); [by rewrite Ep|by rewrite Ep|by rewrite Ep|]. view_goal.
    exists x. by rewrite Ha.
  - eapply post_label; [done|by eapply a_due|].
    own t Out; [rewrite Hf; cbn; by rewrite Hc|by rewrite Ep|by rewrite Ep|by rewrite Ep|]. view_goal. done.
Qed.

Lemma publish_ok s g a t b :
  Sim s g a -> pcs s t = FPublish b -> post a (go t (FLock b) (on_meta t (set_current_waiter (Some t)) s)).
Proof.
  intros H Ep. thread H Ep Ht. destruct Ht as (x & Hf & ((Hk & Hx) & (Hc & Hr & Hb) & Hsl & Hw & Hts) & (Hcu & Htk) & Hs).
  pose proof (S_pending _ _ _ _ H t) as Hp.
  apply (post_tau _ _ g). own t (FLock b); [by rewrite Ep|by rewrite Ep|by rewrite Ep|]. view_goal.
  exists x. unfold published, flagged. cbn. rewrite Htk. split_and!; try done. by left.
Qed.

(** ** wait_for_butex *)

Lemma Tasks_frame s g a t f : Sim s g a -> sleeping f = sleeping (frames s t) \/ sleeping f = 0 ->
  Tasks (tasks s) (fst <$> callback s) (next_task s) (task g) (fun w => sleeping ((<[t := f]> (frames s)) w)).
Proof.
  intros H E. eapply Tasks_ext; [apply H|done|done|done|done|]. intros w.
  destruct (decide (w = t)) as [->|]; [by rewrite at_it|left; by rewrite at_other].
Qed.

Lemma locked_post {A} b s (r : outcome A) (Q : outcome A -> Prop) :
  Q NoStep -> (waiter_lock (butexes s b) = None -> Q r) -> Q (locked b s r).
Proof. intros H1 H2. unfold locked. destruct (waiter_lock (butexes s b)); auto. Qed.

Lemma at_pc_other s t p t' : t' <> t -> pcs (at_pc t p s) t' = pcs s t'.
Proof. apply at_other. Qed.

(** Taking the lock. *)
Lemma lock_ok s g a t b p :
  Sim s g a -> waiter_lock (butexes s b) = None ->
  holds (pcs s t) = None -> coming (pcs s t) = None -> holds p = Some b -> coming p = None -> same_duties (pcs s t) p ->
  thread_ok kind_of t (mkView p (frames s t) (current_waiter (metas s t)) (interrupted (metas s t)) (ready s t)
                       (statuses a t) (by_ g t) (taker g t) (task g t)) ->
  post a (go t p (lock t b s)).
Proof.
  intros H El E1 E2 E3 E4 D Hok. apply (post_tau _ _ g). own_lists t p a; try done; try apply H.
  eapply (Lists_lock _ _ _ _ _ _ _ t b (S_lists _ _ _ _ H)); try done; cbn; rewrite ?at_it; try done;
    intros; by rewrite at_other.
Qed.

Lemma flock_ok s g a t b :
  Sim s g a -> pcs s t = FLock b -> post a (wait_for_butex t (FLock b) s).
Proof.
  intros H Ep. apply (locked_post _ _ _ (post a)); [done|]. intros El. pose proof (thread_at _ _ _ _ _ H Ep) as Ht.
  apply (lock_ok s g a); try (by rewrite Ep); done.
Qed.

Lemma plock_ok s g a t b v timed :
  Sim s g a -> pcs s t = PLock b v timed -> post a (butex_wait_from_pthread kind_of t (PLock b v timed) s).
Proof.
  intros H Ep. apply (locked_post _ _ _ (post a)); [done|]. intros El. pose proof (thread_at _ _ _ _ _ H Ep) as Ht.
  apply (lock_ok s g a); try (by rewrite Ep); done.
Qed.

(** The value was right: the thread is in the queue of the specification. *)
Lemma come_ok s g a t b v timed p :
  Sim s g a -> statuses a t = AWaiting b v timed -> value (butexes s b) = v ->
  holds (pcs s t) = Some b -> coming (pcs s t) = None -> holds p = Some b -> coming p = Some b -> same_duties (pcs s t) p ->
  thread_ok kind_of t (mkView p (frames s t) (current_waiter (metas s t)) (interrupted (metas s t)) (ready s t)
                       (AQueued b timed) (by_ g t) (taker g t) (task g t)) ->
  post a (go t p s).
Proof.
  intros H Hs Hv E1 E2 E3 E4 D Hok. pose proof (L_value _ _ _ _ _ (S_lists _ _ _ _ H) b) as Hav.
  eapply (post_tau1 _ _ _ g); [eapply a_enqueue; [done|congruence]|].
  own_lists t p (with_queue b (queue a b ++ [t]) (with_status t (AQueued b timed) a)); try done; try apply H.
  eapply (Lists_come _ _ _ _ _ _ _ t b (S_lists _ _ _ _ H)); try done; cbn; rewrite ?at_it; try done;
    intros; by rewrite at_other.
Qed.

(** The lock is given back before the thread was in the list. *)
Lemma Lists_unlock_same s a a' t b p s' :
  Lists (butexes s) (fun t => queued_at (frames s t)) (fun t => holds (pcs s t)) (fun t => coming (pcs s t)) a ->
  holds (pcs s t) = Some b -> holds p = None -> coming p = None ->
  butexes s' = <[b := set_lock None (butexes s b)]> (butexes s) -> pcs s' = <[t := p]> (pcs s) ->
  (forall w, queued_at (frames s' w) = queued_at (frames s w)) ->
  (forall b, avalue a' b = avalue a b) -> (forall b', b' <> b -> queue a' b' = queue a b') ->
  queue a' b = waiters (butexes s b) ->
  Lists (butexes s') (fun t => queued_at (frames s' t)) (fun t => holds (pcs s' t)) (fun t => coming (pcs s' t)) a'.
Proof.
  intros HL E1 E2 E3 -> -> Eq Ev Eo Eb.
  pose proof (Lists_unlock _ _ _ _ (fun u => holds ((<[t := p]> (pcs s)) u)) (fun u => coming ((<[t := p]> (pcs s)) u)) _ t b HL) as K.
  assert (set_lock None (set_waiters (waiters (butexes s b)) (butexes s b)) = set_lock None (butexes s b)) as Ex.
  { by destruct (butexes s b). }
  rewrite <- Ex. apply K; rewrite ?at_it; try done.
  - intros. by rewrite at_other.
  - intros. by rewrite at_other.
  - apply HL.
  - intros w. rewrite Eq. apply HL.
  - intros b' w _. by rewrite Eq.
Qed.

Lemma fvalue_ok s g a t b :
  Sim s g a -> pcs s t = FValue b -> post a (wait_for_butex t (FValue b) s).
Proof.
  intros H Ep. thread H Ep Ht. destruct Ht as (x & Hf & ((Hk & Hx) & (Hc & Hr & Hb) & Hsl & Hw & Hts) & Hpub & Hfl & Hs).
  cbn [wait_for_butex]. unfold frame, on_frame. rewrite Hf. cbn [mbind outcome_bind].
  destruct (Z.eqb_spec (value (butexes s b)) (expected_value x)) as [E|E]; cbn [negb].
  - eapply come_ok; try done; try (by rewrite Ep). view_goal. exists x. done.
  - unfold frame. rewrite Hf. cbn [mbind outcome_bind].
    pose proof (L_value _ _ _ _ _ (S_lists _ _ _ _ H) b) as Hav. pose proof (S_pending _ _ _ _ H t) as Hp.
    eapply (post_tau1 _ _ _ g); [eapply a_mismatch; [done|congruence]|].
    own_lists t FReady (with_status t (AReleased Unmatched (abstime x)) a); try done; try apply H; try (by rewrite Ep).
    + eapply (Lists_unlock_same s a _ t b FReady); [apply H|by rewrite Ep|done..| |done|done|].
      * intros w. cbn. destruct (decide (w = t)) as [->|]; [rewrite at_it, Hf; done|by rewrite at_other].
      * cbn. rewrite (L_queue _ _ _ _ _ (S_lists _ _ _ _ H)).
        rewrite (proj2 (L_lock _ _ _ _ _ (S_lists _ _ _ _ H) b t)) by (by rewrite Ep).
        rewrite Ep. cbn. by rewrite app_nil_r.
    + apply (Tasks_frame s g a t); [done|]. rewrite Hf. by left.
    + view_goal. eexists. split; [done|]. cbn. split_and!; try done. by eexists.
Qed.

(** Releasing a thread that sleeps. *)
Lemma release_eq c t a b timed : statuses a t = AQueued b timed ->
  release c t (with_queue b (remove t (queue a b)) a) =
  with_status t (AReleased c timed) (with_queue b (remove t (queue a b)) a).
Proof. intros E. unfold release. cbn. by rewrite E. Qed.

Lemma queue_coming s g a t b : Sim s g a -> holds (pcs s t) = Some b ->
  queue a b = waiters (butexes s b) ++ (if decide (coming (pcs s t) = Some b) then [t] else []).
Proof.
  intros H E. rewrite (L_queue _ _ _ _ _ (S_lists _ _ _ _ H)).
  by rewrite (proj2 (L_lock _ _ _ _ _ (S_lists _ _ _ _ H) b t)).
Qed.

(** Not joining the queue after all. *)
Lemma leave_ok s g a t b timed p :
  Sim s g a -> statuses a t = AQueued b timed -> interrupted (metas s t) = true ->
  queued_at (frames s t) = None ->
  holds (pcs s t) = Some b -> coming (pcs s t) = Some b -> holds p = None -> coming p = None -> same_duties (pcs s t) p ->
  thread_ok kind_of t (mkView p (frames s t) (current_waiter (metas s t)) (interrupted (metas s t)) (ready s t)
                       (AReleased Interrupted timed) (by_ g t) (taker g t) (task g t)) ->
  post a (go t p (unlock b s)).
Proof.
  intros H Hs Hi Hq E1 E2 E3 E4 D Hok. pose proof (S_pending _ _ _ _ H t) as Hp.
  eapply (post_tau1 _ _ _ g); [eapply a_interrupted; [done|congruence]|]. rewrite (release_eq _ _ _ _ _ Hs).
  own_lists t p (with_status t (AReleased Interrupted timed) (with_queue b (remove t (queue a b)) a)); try done; try apply H.
  eapply (Lists_unlock_same s a _ t b p); try done; [apply H|intros b' Hb'; cbn; by rewrite at_other|].
  cbn. rewrite at_it, (queue_coming s g a t b H E1), E2, decide_True, remove_app, remove_self, app_nil_r by done.
  apply remove_nin. rewrite (L_at _ _ _ _ _ (S_lists _ _ _ _ H)). cbn. by rewrite Hq.
Qed.

(** Going on with the lock. *)
Lemma go_on_ok s g a t p :
  Sim s g a -> holds p = holds (pcs s t) -> coming p = coming (pcs s t) -> same_duties (pcs s t) p ->
  thread_ok kind_of t (mkView p (frames s t) (current_waiter (metas s t)) (interrupted (metas s t)) (ready s t)
                       (statuses a t) (by_ g t) (taker g t) (task g t)) ->
  post a (go t p s).
Proof.
  intros H E1 E2 D Hok. apply (post_tau _ _ g). pose proof (S_pending _ _ _ _ H t) as Hp. own t p. exact Hok.
Qed.

Lemma finterrupted_ok s g a t b :
  Sim s g a -> pcs s t = FInterrupted b -> post a (wait_for_butex t (FInterrupted b) s).
Proof.
  intros H Ep. thread H Ep Ht. destruct Ht as (x & Hf & ((Hk & Hx) & (Hc & Hr & Hb) & Hsl & Hw & Hts) & Hpub & Hfl & Hs).
  cbn [wait_for_butex]. unfold frame. rewrite Hf. cbn [mbind outcome_bind]. rewrite Hw.
  destruct (interrupted (metas s t)) eqn:Ei.
  - eapply leave_ok; try done; try (by rewrite Ep); [by rewrite Hf; cbn; rewrite Hc|].
    view_goal. exists x. split_and!; try done; [unfold flagged; cbn; auto|]. exists Interrupted. cbn. rewrite Hw, Ei. split; [done|by right].
  - apply (go_on_ok s g a); try (by rewrite Ep); [done|]. view_goal. exists x. by rewrite Ei.
Qed.

Lemma fready_ok s g a t :
  Sim s g a -> pcs s t = FReady -> post a (wait_for_butex t FReady s).
Proof.
  intros H Ep. thread H Ep Ht. destruct Ht as (x & Hf & (Hk & Hx) & (Hc & Hr & Hb) & Hts & Hpub & Hfl & Hrel).
  cbn [wait_for_butex]. unfold frame. rewrite Hf. cbn [mbind outcome_bind].
  apply (post_tau _ _ g). pose proof (S_pending _ _ _ _ H t) as Hp. own t FSuspended; [by rewrite Ep|by rewrite Ep|by rewrite Ep|].
  view_goal. exists x. split_and!; try done; [unfold timed_by; cbn; congruence|]. rewrite Hc. split; [exact Hrel|]. by left.
Qed.

Lemma fstop_ok s g a t b e :
  Sim s g a -> pcs s t = FStop b e -> post a (wait_for_butex t (FStop b e) s).
Proof.
  intros H Ep. thread H Ep Ht.
  destruct Ht as (x & Hf & (Hk & Hx) & Hpub & Hfl & Hc & Hr & Hb & Hts & Hw & Hs & [-> | ->]);
    cbn [wait_for_butex erase_from_butex]; unfold frame.
  - rewrite Hf. cbn [mbind outcome_bind]. rewrite Hc. cbn [mbind outcome_bind]. apply (go_on_ok s g a); try (by rewrite Ep); [done|]. view_goal.
    exists x. split_and!; try done. by right.
  - unfold locked. rewrite (proj2 (L_lock _ _ _ _ _ (S_lists _ _ _ _ H) b t)) by (by rewrite Ep). done.
Qed.

(** Joining the list and giving the lock back. *)
Lemma join_lists s s' g a t b p :
  Sim s g a -> holds (pcs s t) = Some b -> coming (pcs s t) = Some b -> holds p = None -> coming p = None ->
  queued_at (frames s t) = None -> queued_at (frames s' t) = Some b ->
  (forall w, w <> t -> frames s' w = frames s w) -> pcs s' = <[t := p]> (pcs s) ->
  butexes s' b = set_lock None (set_waiters (waiters (butexes s b) ++ [t]) (butexes s b)) ->
  (forall b', b' <> b -> butexes s' b' = butexes s b') ->
  Lists (butexes s') (fun t => queued_at (frames s' t)) (fun t => holds (pcs s' t)) (fun t => coming (pcs s' t)) a.
Proof.
  intros H E1 E2 E3 E4 E5 E6 Ef Ep Eb Eo. pose proof (queue_coming s g a t b H E1) as Eq. rewrite E2, decide_True in Eq by done.
  pose proof (S_lists _ _ _ _ H) as HL.
  assert (t ∉ waiters (butexes s b)) as Hn by (rewrite (L_at _ _ _ _ _ HL), E5; done).
  eapply Lists_ext.
  - eapply (Lists_unlock _ _ _ _ (fun u => holds (pcs s' u)) (fun u => coming (pcs s' u)) a t b HL
      _ _ (fun w => queued_at (frames s' w)) (waiters (butexes s b) ++ [t]) a); rewrite ?Ep, ?at_it; try done.
    + apply NoDup_app. split; [apply HL|]. split; [set_solver|apply NoDup_singleton].
    + intros w. destruct (decide (w = t)) as [->|Hw]; [set_solver|]. rewrite Ef by done.
      rewrite elem_of_app, (L_at _ _ _ _ _ HL). set_solver.
    + intros b' w Hb'. destruct (decide (w = t)) as [->|Hw]; [rewrite E5, E6; split; congruence|]. by rewrite Ef.
  - intros b'. destruct (decide (b' = b)) as [->|]; [by rewrite at_it|by rewrite at_other, Eo].
  - done.
  - done.
  - done.
  - done.
  - done.
  Unshelve. all: intros; by rewrite Ep, at_other.
Qed.

Lemma fenqueue_ok s g a t b :
  Sim s g a -> pcs s t = FEnqueue b -> post a (wait_for_butex t (FEnqueue b) s).
Proof.
  intros H Ep. thread H Ep Ht. destruct Ht as (x & Hf & ((Hk & Hx) & (Hc & Hr & Hb) & Hsl & Hw & Hts) & Hpub & Hfl & Hs).
  pose proof (S_pending _ _ _ _ H t) as Hp.
  cbn [wait_for_butex]. rewrite (on_frame_eq _ _ _ x) by done. cbn [mbind outcome_bind].
  set (s1 := set_frame t _ _). assert (frames s1 t = Some (set_container (At (Some b)) x)) as Hf1 by apply at_it.
  rewrite (frame_eq _ _ _ Hf1). cbn [mbind outcome_bind abstime set_container].
  assert (forall s', butexes s' b = set_lock None (set_waiters (waiters (butexes s b) ++ [t]) (butexes s b)) ->
      (forall b', b' <> b -> butexes s' b' = butexes s b') -> pcs s' = <[t := FSuspended]> (pcs s) ->
      (forall w, w <> t -> frames s' w = frames s w) -> queued_at (frames s' t) = Some b ->
      Lists (butexes s') (fun t => queued_at (frames s' t)) (fun t => holds (pcs s' t)) (fun t => coming (pcs s' t)) a) as HL.
  { intros s' F1 F2 F3 F4 F5. eapply (join_lists s s' g a t b FSuspended); try done; try (by rewrite Ep).
    by rewrite Hf; cbn; rewrite Hc. }
  assert (forall id i, thread_ok kind_of t (mkView FSuspended
    (Some (set_sleep_id id (set_container (At (Some b)) x))) (current_waiter (metas s t))
    (interrupted (metas s t)) (ready s t) (statuses a t) (by_ g t) (taker g t) i) <-> (forall j, i = Some j -> id = j /\ abstime x = true)) as HS.
  { intros id i. view_goal. split.
    - intros (y & [= <-] & _ & _ & _ & Ht & _). exact Ht.
    - intros Hi. eexists. split; [done|]. cbn. split_and!; try done. }
  destruct (abstime x) eqn:Ea.
  - unfold schedule. destruct (timer_stopped s1); rewrite (on_frame_eq _ _ _ (set_container (At (Some b)) x)) by exact Hf1;
      cbn [mbind outcome_bind].
    + apply (post_tau _ _ g). own_lists t (FStop b ELoad) a; try done; try apply H; try (by rewrite Ep).
      * eapply (Lists_join _ _ _ _ _ _ _ t b (S_lists _ _ _ _ H)); cbn; rewrite ?at_it, ?Ep; try done;
          try (intros; by rewrite ?at_other). by rewrite Hf; cbn; rewrite Hc.
      * eapply Tasks_ext; [apply H|done..|]. intros w. cbn.
        destruct (decide (w = t)) as [->|]; [rewrite at_it; by right|left; by rewrite !at_other].
      * view_goal. eexists. split; [done|]. cbn. rewrite Ea. split_and!; try done. by left.
    + replace (next_task s1 =? 0) with false by (symmetry; apply Z.eqb_neq; pose proof (K_next _ _ _ _ _ (S_tasks _ _ _ _ H)); cbn; lia).
      apply (post_tau _ _ (mkGhost (by_ g) (taker g) (<[t := Some (next_task s)]> (task g)))).
      own_lists t FSuspended a; try done; try apply H; try (by rewrite Ep).
      * apply HL; cbn; rewrite ?at_it; try done; intros; by rewrite ?at_other.
      * eapply Tasks_schedule; [apply H|done|intros w Hne; cbn; by rewrite !at_other|cbn; by rewrite at_it].
      * apply HS. by intros j [= <-].
  - apply (post_tau _ _ g). own_lists t FSuspended a; try done; try apply H; try (by rewrite Ep).
    + apply HL; try done; cbn; rewrite ?at_it; try done; intros; by rewrite ?at_other.
    + apply (Tasks_frame s g a t); [done|]. rewrite Hf. by left.
    + replace (set_container (At (Some b)) x) with (set_sleep_id 0 (set_container (At (Some b)) x)).
      * apply HS. congruence.
      * rewrite <- Hsl. by destruct x.
Qed.

(** ** Stopping the timer of a waiter *)

Inductive unsleeps (s : state) (g : ghost) (w : nat) (x : ButexWaiter) : Z * state -> Prop :=
  | u_running : task g w <> None -> unsleeps s g w x (-1, s)
  | u_never : sleep_id x = 0 -> task g w = None -> unsleeps s g w x (0, s)
  | u_stopped ts :
      Tasks ts (fst <$> callback s) (next_task s) (<[w := None]> (task g)) (fun u => sleeping (frames s u)) ->
      unsleeps s g w x (0, set_frame w (Some (set_sleep_id 0 x)) (with_tasks s ts)).

Lemma unsleep_ok s g a w x :
  Sim s g a -> frames s w = Some x -> (forall id, task g w = Some id -> sleep_id x = id) ->
  exists r, unsleep_if_necessary w s = Go r /\ unsleeps s g w x r.
Proof.
  intros H Hf Ht. pose proof (S_tasks _ _ _ _ H) as [K R N I S].
  unfold unsleep_if_necessary. rewrite (frame_eq _ _ _ Hf). cbn [mbind outcome_bind].
  assert (forall id, task g w = Some id -> 0 < id /\ id = sleep_id x) as Hid.
  { intros id E. split; [|by rewrite (Ht id E)]. apply K in E. destruct (tasks s id) eqn:E2; [|done].
    assert (0 < id < next_task s) by (apply I; congruence). lia. }
  destruct (Z.eqb_spec (sleep_id x) 0) as [E0|E0].
  { eexists. split; [done|]. apply u_never; [done|]. destruct (task g w) as [id|] eqn:E; [|done].
    destruct (Hid id eq_refl). lia. }
  destruct (S w) as [_ S2]; [by rewrite Hf|]. rewrite Hf in S2. cbn [sleeping] in S2.
  assert (forall u, task_arg (tasks s (sleep_id x)) = Some u -> task g w = Some (sleep_id x) /\ u = w) as HS.
  { intros u E. apply K in E. rewrite <- (S2 u E). split; [done|]. reflexivity. }
  unfold unschedule. destruct (tasks s (sleep_id x)) as [[u|u]|] eqn:E.
  - destruct (HS u eq_refl) as [E1 ->]. rewrite (on_frame_eq _ _ _ x) by done. eexists. split; [done|].
    apply u_stopped. apply (Tasks_remove _ _ _ _ _ (sleep_id x) w); [apply H|done].
  - destruct (HS u eq_refl) as [E1 ->]. eexists. split; [done|]. apply u_running. congruence.
  - rewrite (on_frame_eq _ _ _ x) by done. eexists. split; [done|].
    assert (task g w = None) as En.
    { destruct (task g w) as [id|] eqn:E1; [|done]. destruct (Hid id eq_refl) as [_ ->]. apply K in E1. by rewrite E in E1. }
    replace (set_frame w _ s) with (set_frame w (Some (set_sleep_id 0 x)) (with_tasks s (tasks s))) by (by destruct s).
    apply u_stopped. eapply Tasks_ext; [apply H|done..| |by left]. intros u.
    destruct (decide (u = w)) as [->|]; [by rewrite at_it|by rewrite at_other].
Qed.

(** ** butex_wait after sched() *)

Lemma suspended_ok s g a t : Sim s g a -> pcs s t = FSuspended -> post a (after_sched t FSuspended s).
Proof.
  intros H Ep. thread H Ep Ht. destruct Ht as (x & Hf & (Hk & Hx) & Hpub & Hfl & Htm & Hc).
  cbn [after_sched]. destruct (ready s t) eqn:Er; [|done].
  destruct (container x) as [|[b|]] eqn:Ec; [done| |]; [by destruct Hc as (_ & _ & ? & _)|].
  destruct Hc as (Hrel & [[_ Hb]|[? _]]); [|done].
  apply (post_tau _ _ g). pose proof (S_pending _ _ _ _ H t) as Hp.
  own t FUnsleep; [by rewrite Ep|by rewrite Ep|by rewrite Ep|]. view_goal. exists x. by split_and!.
Qed.

Lemma funsleep_ok s g a t : Sim s g a -> pcs s t = FUnsleep -> post a (after_sched t FUnsleep s).
Proof.
  intros H Ep. thread H Ep Ht. destruct Ht as (x & Hf & (Hk & Hx) & (Hc & Hr & Hb) & Htm & Hpub & Hfl & Hrel).
  cbn [after_sched]. destruct (unsleep_ok s g a t x H Hf) as (r & -> & Hu); [intros id E; by apply (Htm id)|].
  pose proof (S_pending _ _ _ _ H t) as Hp.
  cbn [mbind outcome_bind]. destruct Hu as [Hn|E0 Hn|ts HT].
  - by apply (post_tau _ _ g).
  - apply (go_on_ok s g a); try (by rewrite Ep); [done|]. view_goal. exists x. by split_and!.
  - apply (post_tau _ _ (mkGhost (by_ g) (taker g) (<[t := None]> (task g)))).
    own_lists t FTake a; try done; try (by rewrite Ep).
    + eapply (Lists_pc s _ a a t FTake (S_lists _ _ _ _ H)); try done; [|by rewrite Ep|by rewrite Ep].
      intros w. cbn. destruct (decide (w = t)) as [->|]; [by rewrite at_it, Hf; cbn; rewrite Hc|by rewrite at_other].
    + cbn. eapply Tasks_ext; [exact HT|done|done|done|done|]. intros w.
      destruct (decide (w = t)) as [->|]; [rewrite at_it; by right|left; by rewrite at_other].
    + view_goal. eexists. split; [done|]. by split_and!.
Qed.

(** The loop that takes current_waiter back. *)
Lemma take_back_ok s g a t p :
  Sim s g a -> published t (view_of s g a t) ->
  (taker g t = None -> thread_ok kind_of t (mkView p (frames s t) None (interrupted (metas s t)) (ready s t)
     (statuses a t) (by_ g t) None (task g t))) ->
  holds p = holds (pcs s t) -> coming p = coming (pcs s t) -> same_duties (pcs s t) p ->
  post a (take_back t p s).
Proof.
  intros H Hpub Hok E1 E2 D. unfold take_back. destruct Hpub as [[Hc Htk]|[Hc Htk]]; cbn in *; rewrite Hc.
  - apply (post_tau _ _ g). pose proof (S_pending _ _ _ _ H t) as Hp. own t p. rewrite Htk. by apply Hok.
  - by apply (post_tau _ _ g).
Qed.

Lemma ftake_ok s g a t : Sim s g a -> pcs s t = FTake -> post a (after_sched t FTake s).
Proof.
  intros H Ep. thread H Ep Ht. destruct Ht as (x & Hf & (Hk & Hx) & (Hc & Hr & Hb) & Hts & Hpub & Hfl & Hrel).
  cbn [after_sched]. eapply take_back_ok; try done; try (by rewrite Ep). intros _. view_goal. exists x. by split_and!.
Qed.

(** Returning from a wait. *)
Lemma returned_ok s s' g a a' t :
  Sim s g a -> (s' = s \/ s' = on_meta t (set_interrupted false) s) ->
  queued_at (frames s t) = None -> holds (pcs s t) = None -> coming (pcs s t) = None -> same_duties (pcs s t) Out ->
  current_waiter (metas s t) = None -> ready s t = false -> by_ g t = None -> taker g t = None -> task g t = None ->
  (forall t', t' <> t -> statuses a' t' = statuses a t' /\ pending a' t' = pending a t') ->
  statuses a' t = AOut -> pending a' t = interrupted (metas s' t) ->
  (forall b, avalue a' b = avalue a b) -> (forall b, queue a' b = queue a b) ->
  Sim (at_pc t Out (set_frame t None s')) g a'.
Proof.
  intros H Hs' Hq E1 E2 D C1 C2 C3 C4 C5 Ho Hst Hp Hv Hqu.
  eapply (own_step kind_of t Out s); [exact H|..]; try (by destruct Hs' as [-> | ->]).
  - cbn. rewrite at_it. by rewrite Hq.
  - cbn. rewrite at_it. by right.
  - destruct Hs' as [-> | ->]; cbn; rewrite ?at_it; done.
  - intros t' Hne. destruct (Ho t' Hne) as [-> ->]. destruct Hs' as [-> | ->]; cbn; rewrite ?at_other by done; done.
  - destruct Hs' as [-> | ->]; cbn; rewrite ?at_it; auto.
  - unfold view_of. cbn. rewrite !at_it. destruct Hs' as [-> | ->]; cbn; rewrite ?at_it; done.
Qed.

Lemma fiber_result c st i timed :
  fiber_cause c st i -> result_ok Fiber c timed i (wait_result st i).
Proof.
  destruct st; cbn; try done.
  - intros [-> | [-> ->]]; [by left|by left].
  - by intros ->.
  - by intros ->.
  - intros [-> ->]. by left.
Qed.

Lemma fflag_ok s g a t : Sim s g a -> pcs s t = FFlag -> post a (after_sched t FFlag s).
Proof.
  intros H Ep. thread H Ep Ht. destruct Ht as (x & Hf & (Hk & Hx) & (Hc & Hr & Hb) & Hts & [Hcu Htk] & Hrel).
  pose proof (S_pending _ _ _ _ H t) as Hp.
  cbn [after_sched]. destruct (interrupted (metas s t)) eqn:Ei.
  - apply (go_on_ok s g a); try (by rewrite Ep); [done|]. view_goal. exists x. rewrite Ei in *. by split_and!.
  - rewrite (frame_eq _ _ _ Hf). cbn [mbind outcome_bind]. destruct Hrel as (c & Hs & Hcause). cbn in Hs, Hcause.
    eapply post_label; [done|eapply a_return; [exact Hs|]|].
    + rewrite Hk, Hp. by apply fiber_result.
    + apply (returned_ok s s g a); try done; cbn; rewrite ?at_it; try (by rewrite Ep); try done.
      * by left.
      * by rewrite Hf; cbn; rewrite Hc.
      * intros t' Hne. by rewrite !at_other.
Qed.

Lemma fclear_ok s g a t : Sim s g a -> pcs s t = FClear -> post a (after_sched t FClear s).
Proof.
  intros H Ep. thread H Ep Ht. destruct Ht as (x & Hf & (Hk & Hx) & (Hc & Hr & Hb) & Hts & [Hcu Htk] & Hrel & Hi).
  pose proof (S_pending _ _ _ _ H t) as Hp.
  cbn [after_sched]. rewrite (frame_eq _ _ _ Hf). cbn [mbind outcome_bind]. destruct Hrel as (c & Hs & Hcause). cbn in Hs, Hcause.
  eapply post_label; [done|eapply a_return; [exact Hs|]|].
  - rewrite Hk, Hp, Hi. rewrite Hi in Hcause. by apply fiber_result.
  - apply (returned_ok s (on_meta t (set_interrupted false) s) g a); try done; cbn; rewrite ?at_it; try (by rewrite Ep); try done.
    + by right.
    + by rewrite Hf; cbn; rewrite Hc.
    + intros t' Hne. by rewrite !at_other.
Qed.

(** ** butex_wait_from_pthread *)

Lemma not_fiber t : kind_of t <> Fiber -> kind_of t = PthreadTask \/ kind_of t = Pthread.
Proof. destruct (kind_of t); auto; done. Qed.

Lemma pthread_result_allowed t c timed i r :
  kind_of t <> Fiber -> result_so_far c timed i r -> (kind_of t = Pthread -> i = false) ->
  result_ok (kind_of t) c timed i (if i then if r =? 0 then EINTR else r else r).
Proof.
  intros Hk Hr Hi. destruct c; cbn in *.
  - destruct Hr as [-> |[-> |[-> |[-> ->]]]]; destruct i; cbn; auto 10.
  - subst r. by destruct i.
  - subst r. by destruct i.
  - destruct Hr as [[-> ->]|[-> |[-> |[-> ->]]]]; cbn; [auto|..]; destruct i; cbn; auto 10.
Qed.

(** The result is known: a fiber on a pthread goes on, a pthread returns. *)
Lemma pthread_result_ok s g a a1 t r :
  kind_of t <> Fiber -> rtc (tau_step kind_of) a a1 -> Sim (at_pc t (PTake r) s) g a1 ->
  post a (pthread_result kind_of t r s).
Proof.
  intros Hk Ha H. unfold pthread_result. destruct (not_fiber t Hk) as [Ek|Ek]; rewrite Ek.
  { exists g, a1. split; [by constructor|done]. }
  assert (pcs (at_pc t (PTake r) s) t = PTake r) as Ep by apply at_it. thread H Ep Ht.
  destruct Ht as (x & Hf & (_ & Hx & Hr & Hts) & Hpub & Hd).
  unfold pthread_published in Hpub. rewrite Ek in Hpub. destruct Hpub as [Hcu Htk]. cbn [v_cur v_taker] in Hcu, Htk.
  destruct Hd as (Hc & Hb & c & timed & Hs & Hres). cbn in Hb, Hs, Hres.
  pose proof (S_no_meta _ _ _ _ H t Ek) as Hi. pose proof (S_pending _ _ _ _ H t) as Hp. cbn in Hi, Hp.
  rewrite Hi in Hres, Hp.
  exists g, (with_pending t false (with_status t AOut a1)). split.
  - eapply aexec_label; [done|exact Ha|]. eapply a_return; [exact Hs|]. rewrite Hp.
    apply (pthread_result_allowed t c timed false r); done.
  - assert (Sim (at_pc t Out (set_frame t None (at_pc t (PTake r) s))) g (with_pending t false (with_status t AOut a1))) as K.
    { apply (returned_ok (at_pc t (PTake r) s) (at_pc t (PTake r) s) g a1); try done; rewrite ?Ep; cbn; rewrite ?at_it; try done.
      - by left.
      - cbn in Hf. by rewrite Hf; cbn; rewrite Hc.
      - intros t' Hne. by rewrite !at_other. }
    eapply Sim_ext; [exact K|done|done|done|done| |done|done|done]. intros u. cbn.
    destruct (decide (u = t)) as [->|]; [by rewrite !at_it|by rewrite !at_other].
Qed.

Lemma ppublish_ok s g a t b v timed :
  Sim s g a -> pcs s t = PPublish b v timed -> post a (butex_wait_from_pthread kind_of t (PPublish b v timed) s).
Proof.
  intros H Ep. thread H Ep Ht. destruct Ht as (x & Hf & (Hk & Hx & Hr & Hts) & Ek & (Hc & Hrd & Hb) & Hsig & [Hcu Htk] & Hs).
  apply (post_tau _ _ g). pose proof (S_pending _ _ _ _ H t) as Hp.
  own t (PLock b v timed); [by rewrite Ep|by rewrite Ep|by rewrite Ep|]. view_goal. exists x.
  unfold pthread_published, published, flagged. rewrite Ek, Htk. cbn. split_and!; try done. by left.
Qed.

Lemma pvalue_ok s g a t b v timed :
  Sim s g a -> pcs s t = PValue b v timed -> post a (butex_wait_from_pthread kind_of t (PValue b v timed) s).
Proof.
  intros H Ep. thread H Ep Ht. destruct Ht as (x & Hf & (Hk & Hx & Hr & Hts) & (Hc & Hrd & Hb) & Hsig & Hpub & Hfl & Hs).
  cbn [butex_wait_from_pthread]. destruct (Z.eqb_spec (value (butexes s b)) v) as [E|E]; cbn [negb].
  - destruct (not_fiber t Hk) as [Ek|Ek]; rewrite Ek; eapply come_ok; try done; try (by rewrite Ep);
      view_goal; exists x; by split_and!.
  - pose proof (L_value _ _ _ _ _ (S_lists _ _ _ _ H) b) as Hav. pose proof (S_pending _ _ _ _ H t) as Hp.
    apply (pthread_result_ok _ g a (with_status t (AReleased Unmatched timed) a)); [done|apply rtc_once; eapply a_mismatch; [done|congruence]|].
    own_lists t (PTake EWOULDBLOCK) (with_status t (AReleased Unmatched timed) a); try done; try apply H; try (by rewrite Ep).
    + eapply (Lists_unlock_same s a _ t b (PTake EWOULDBLOCK)); [apply H|by rewrite Ep|done..|].
      assert (holds (pcs s t) = Some b) as Eh by (by rewrite Ep). cbn. rewrite (queue_coming s g a t b H Eh), Ep. cbn.
      by rewrite app_nil_r.
    + view_goal. exists x. split_and!; try done. by exists Unmatched, timed.
Qed.

Lemma pinterrupted_ok s g a t b timed :
  Sim s g a -> pcs s t = PInterrupted b timed -> post a (butex_wait_from_pthread kind_of t (PInterrupted b timed) s).
Proof.
  intros H Ep. thread H Ep Ht.
  destruct Ht as (x & Hf & (Hk & Hx & Hr & Hts) & Ek & (Hc & Hrd & Hb) & Hsig & Hpub & Hfl & Hs).
  cbn [butex_wait_from_pthread]. destruct (interrupted (metas s t)) eqn:Ei.
  - eapply leave_ok; try done; try (by rewrite Ep); [by rewrite Hf; cbn; rewrite Hc|].
    view_goal. exists x. unfold pthread_published in Hpub. rewrite Ek in Hpub. split_and!; try done. by exists timed.
  - apply (go_on_ok s g a); try (by rewrite Ep); [done|]. view_goal. exists x. rewrite Ei. by split_and!.
Qed.

Lemma pappend_ok s g a t b timed :
  Sim s g a -> pcs s t = PAppend b timed -> post a (butex_wait_from_pthread kind_of t (PAppend b timed) s).
Proof.
  intros H Ep. thread H Ep Ht.
  destruct Ht as (x & Hf & (Hk & Hx & Hr & Hts) & (Hc & Hrd & Hb) & Hsig & Hpub & Hfl & Hs).
  pose proof (S_pending _ _ _ _ H t) as Hp.
  cbn [butex_wait_from_pthread]. rewrite (on_frame_eq _ _ _ x) by done. cbn [mbind outcome_bind].
  apply (post_tau _ _ g). own_lists t (PFutex timed) a; try done; try (by rewrite Ep).
  - eapply (join_lists s _ g a t b (PFutex timed)); cbn; rewrite ?at_it; try done; try (by rewrite Ep); try (intros; by rewrite ?at_other).
    by rewrite Hf; cbn; rewrite Hc.
  - apply (Tasks_frame s g a t); [done|]. rewrite Hf. by left.
  - view_goal. eexists. split; [done|]. unfold pthread_asleep. view_goal. split_and!; try done. exists timed. cbn. done.
Qed.

Lemma pclearearly_ok s g a t :
  Sim s g a -> pcs s t = PClearEarly -> post a (butex_wait_from_pthread kind_of t PClearEarly s).
Proof.
  intros H Ep. thread H Ep Ht.
  destruct Ht as (x & Hf & (Hk & Hx & Hr & Hts) & Ek & (Hc & Hrd & Hb) & Hpub & timed & Hs).
  cbn [butex_wait_from_pthread]. 
  apply (pthread_result_ok _ g a (with_pending t false a)); [done|apply rtc_once; by eapply a_consume|].
  own t (PTake EINTR); [by rewrite Ep|by rewrite Ep|by rewrite Ep|]. view_goal. exists x.
  unfold pthread_published. rewrite Ek. split_and!; try done. exists Interrupted, timed. cbn. auto.
Qed.

Lemma ptake_ok s g a t r :
  Sim s g a -> pcs s t = PTake r -> kind_of t = PthreadTask -> post a (butex_wait_from_pthread kind_of t (PTake r) s).
Proof.
  intros H Ep Ek. thread H Ep Ht. destruct Ht as (x & Hf & (Hk & Hx & Hr & Hts) & Hpub & Hc & Hb & Hd).
  unfold pthread_published in Hpub. rewrite Ek in Hpub.
  cbn [butex_wait_from_pthread]. eapply take_back_ok; try done; try (by rewrite Ep). intros _. view_goal. exists x. by split_and!.
Qed.

Lemma pflag_ok s g a t r :
  Sim s g a -> pcs s t = PFlag r -> post a (butex_wait_from_pthread kind_of t (PFlag r) s).
Proof.
  intros H Ep. thread H Ep Ht.
  destruct Ht as (x & Hf & (Hk & Hx & Hr & Hts) & Ek & [Hcu Htk] & Hc & Hb & c & timed & Hs & Hres). cbn in Hb, Hs, Hres.
  pose proof (S_pending _ _ _ _ H t) as Hp.
  cbn [butex_wait_from_pthread]. destruct (interrupted (metas s t)) eqn:Ei.
  - apply (go_on_ok s g a); try (by rewrite Ep); [done|]. view_goal. exists x. rewrite Ei. split_and!; try done. by exists c, timed.
  - eapply post_label; [done|eapply a_return; [exact Hs|]|].
    + rewrite Hp. apply (pthread_result_allowed t c timed false r); done.
    + apply (returned_ok s s g a); try done; cbn; rewrite ?at_it; try (by rewrite Ep); try done.
      * by left.
      * by rewrite Hf; cbn; rewrite Hc.
      * intros t' Hne. by rewrite !at_other.
Qed.

Lemma pclear_ok s g a t r :
  Sim s g a -> pcs s t = PClear r -> post a (butex_wait_from_pthread kind_of t (PClear r) s).
Proof.
  intros H Ep. thread H Ep Ht.
  destruct Ht as (x & Hf & (Hk & Hx & Hr & Hts) & Ek & [Hcu Htk] & Hi & Hc & Hb & c & timed & Hs & Hres). cbn in Hb, Hs, Hres.
  pose proof (S_pending _ _ _ _ H t) as Hp. rewrite Hi in Hp, Hres.
  cbn [butex_wait_from_pthread]. eapply post_label; [done|eapply a_return; [exact Hs|]|].
  - rewrite Hp. apply (pthread_result_allowed t c timed true r); [done..|congruence].
  - apply (returned_ok s (on_meta t (set_interrupted false) s) g a); try done; cbn; rewrite ?at_it; try (by rewrite Ep); try done.
    + by right.
    + by rewrite Hf; cbn; rewrite Hc.
    + intros t' Hne. by rewrite !at_other.
Qed.

(** ** wait_pthread *)

Lemma futex_ok s g a t timed r x :
  Sim s g a -> pcs s t = PFutex timed -> frames s t = Some x -> futex_returns timed x r -> post a (go t (PSig r timed) s).
Proof.
  intros H Ep Hf Hr. thread H Ep Ht. destruct Ht as (x' & Hf' & Hsl). rewrite Hf in Hf'. injection Hf' as <-.
  apply (go_on_ok s g a); try (by rewrite Ep); [done|]. view_goal. exists x. split; [done|]. split.
  - destruct Hsl as (P1 & P2 & P3 & timed0 & Ht0 & Hc). unfold pthread_asleep. split_and!; try done.
    exists timed0. split; [|exact Hc].
    destruct (Z.eqb_spec r ETIMEDOUT) as [->|]; [|by rewrite orb_false_r].
    intros _. apply Ht0. destruct Hr as [?|[?|[[? _]|[_ ?]]]]; done.
  - destruct Hr as [->|[->|[[-> _]|[-> _]]]]; auto.
Qed.

Lemma overdue_ok s g a t : Sim s g a -> pcs s t = PFutex true -> post a (go t (PErase ELoad) s).
Proof.
  intros H Ep. thread H Ep Ht. destruct Ht as (x & Hf & Hsl).
  apply (go_on_ok s g a); try (by rewrite Ep); [done|]. view_goal. exists x. split; [done|]. by split.
Qed.

(** The thread was woken, and its result is known. *)
Lemma awake_ok s g a t r x timed :
  Sim s g a -> todo_pc (pcs s t) = [] -> takes (pcs s t) = None -> vholds (pcs s t) = None ->
  holds (pcs s t) = None -> coming (pcs s t) = None -> frames s t = Some x ->
  pthread_asleep kind_of t x (view_of s g a t) timed -> sig x <> PTHREAD_NOT_SIGNALLED ->
  (r = 0 \/ r = EINTR \/ r = EWOULDBLOCK \/ (r = ETIMEDOUT /\ timed = true)) ->
  post a (pthread_result kind_of t r s).
Proof.
  intros H D1 D2 D3 D4 D5 Hf Hsl Hsig Hr. destruct Hsl as ((Hk & Hx & Hrd & Hts) & Hpub & Hfl & timed0 & Ht0 & Hc).
  cbn in Hrd, Hts. pose proof (S_pending _ _ _ _ H t) as Hp.
  destruct (container x) as [|[b|]] eqn:Ec; [done|by destruct Hc as (_ & ? & _)|].
  destruct Hc as ((c & Hs & Hcause) & [[? _]|[_ Hb]]); [done|]. cbn in Hs, Hcause, Hb.
  apply (pthread_result_ok s g a a); [done|done|].
  own t (PTake r); try (by split_and!). view_goal. exists x. split_and!; try done.
  exists c, timed0. split; [done|].
  destruct Hcause as [-> |[-> Hi]]; cbn; (destruct Hr as [->|[->|[->|[-> Et]]]]; [| | |apply Ht0 in Et]); auto 10.
Qed.

Lemma psig_ok s g a t r timed :
  Sim s g a -> pcs s t = PSig r timed -> post a (wait_pthread kind_of t (PSig r timed) s).
Proof.
  intros H Ep. pose proof (S_threads _ _ _ _ H t) as Hv. unfold thread_ok in Hv. cbn [v_pc view_of] in Hv. rewrite Ep in Hv.
  destruct Hv as (x & Hf & Hsl & Hr). cbn in Hf.
  unfold wait_pthread. rewrite (frame_eq _ _ _ Hf). cbn [mbind outcome_bind].
  destruct (Z.eqb_spec (sig x) PTHREAD_NOT_SIGNALLED) as [E|E]; cbn [negb].
  - destruct (Z.eqb_spec r ETIMEDOUT) as [->|Er].
    + apply (go_on_ok s g a); try (by rewrite Ep); [done|]. view_goal. exists x. split; [done|]. split; [|done].
      destruct Hsl as (P1 & P2 & P3 & timed0 & Ht0 & Hc). unfold pthread_asleep. split_and!; try done.
      exists timed0. split; [|exact Hc]. intros _. apply Ht0. by rewrite orb_true_r.
    + apply (go_on_ok s g a); try (by rewrite Ep); [done|]. view_goal. exists x. split; [done|].
      rewrite orb_false_r in Hsl. exact Hsl.
  - apply (awake_ok s g a t r x (timed || (r =? ETIMEDOUT))); try (by rewrite Ep); try done.
    destruct Hr as [->|[->|[->| ->]]]; auto 10. right. right. right. by rewrite orb_true_r.
Qed.

Lemma psig2_ok s g a t : Sim s g a -> pcs s t = PSig2 -> post a (wait_pthread kind_of t PSig2 s).
Proof.
  intros H Ep. pose proof (S_threads _ _ _ _ H t) as Hv. unfold thread_ok in Hv. cbn [v_pc view_of] in Hv. rewrite Ep in Hv.
  destruct Hv as (x & Hf & Hsl & Hc). cbn in Hf.
  unfold wait_pthread. rewrite (frame_eq _ _ _ Hf). cbn [mbind outcome_bind].
  destruct (Z.eqb_spec (sig x) PTHREAD_NOT_SIGNALLED) as [E|E].
  - apply (go_on_ok s g a); try (by rewrite Ep); [done|]. view_goal. exists x. split; [done|].
    destruct Hsl as (P1 & P2 & P3 & timed0 & Ht0 & Hcc). unfold pthread_asleep. split_and!; try done.
    exists timed0. split; [done|exact Hcc].
  - apply (awake_ok s g a t ETIMEDOUT x true); try (by rewrite Ep); try done. auto 10.
Qed.

End Steps.
End ButexSteps.
