(* ===== verification/ButexWakes.v ===== *)
(** * ButexWakes: timers, interruptions and wake-ups

    The steps of butex.cc by which other threads, and the timer thread, take
    waiters out of the lists and wake them, keep the invariant. *)

From stdpp Require Import functions.
From S2P Require Import Prelude ButexSpec Butex ButexInv ButexSteps.

Module ButexWakes.
Import ButexSpec Butex ButexInv ButexSteps.

(** ** Lists of waiters *)

Lemma filter_in_ext (P Q : nat -> Prop) `{!forall x, Decision (P x), !forall x, Decision (Q x)} (l : list nat) :
  (forall x, x ∈ l -> P x <-> Q x) -> filter P l = filter Q l.
Proof.
  induction l as [|x l IH]; [done|]. intros Hx. rewrite !filter_cons, IH by (intros; apply Hx; set_solver).
  pose proof (Hx x ltac:(set_solver)). destruct (decide (P x)), (decide (Q x)); naive_solver.
Qed.

Lemma filter_split (P : nat -> Prop) `{!forall x, Decision (P x)} (l : list nat) :
  filter P l ++ filter (fun x => ~ P x) l ≡ₚ l.
Proof.
  induction l as [|x l IH]; [done|]. rewrite !filter_cons. destruct (decide (P x)).
  - rewrite decide_False by naive_solver. cbn. by rewrite IH.
  - rewrite decide_True by done. rewrite <- Permutation_middle. by rewrite IH.
Qed.

Lemma detach_all_frames c l s :
  (forall w, w ∈ l -> frames s w <> None) ->
  exists f, detach_all c l s = Go (with_frames s f) /\
    forall w, f w = if decide (w ∈ l) then set_container (At c) <$> frames s w else frames s w.
Proof.
  revert s. induction l as [|u l IH]; intros s Hl.
  - exists (frames s). split; [by destruct s|done].
  - destruct (frames s u) as [x|] eqn:Ex; [|by destruct (Hl u); [set_solver|]].
    cbn [detach_all]. unfold detach. rewrite (on_frame_eq _ _ _ x) by done. cbn [mbind outcome_bind].
    destruct (IH (set_frame u (Some (set_container (At c) x)) s)) as (f & -> & Hf).
    { intros w Hw. cbn. destruct (decide (w = u)) as [->|]; [by rewrite at_it|rewrite at_other by done]. apply Hl. set_solver. }
    exists f. split; [done|]. intros w. rewrite Hf. cbn. destruct (decide (w = u)) as [->|Hw].
    + rewrite at_it, (decide_True (P := u ∈ u :: l)) by set_solver. rewrite Ex. by destruct (decide (u ∈ l)).
    + rewrite at_other by done. destruct (decide (w ∈ l)); [rewrite decide_True by set_solver|rewrite decide_False by set_solver]; done.
Qed.

Lemma release_all_spec c l a :
  queue (release_all c l a) = queue a /\ avalue (release_all c l a) = avalue a /\ pending (release_all c l a) = pending a /\
  forall u, statuses (release_all c l a) u =
    if decide (u ∈ l) then match statuses a u with AQueued _ timed => AReleased c timed | x => x end else statuses a u.
Proof.
  induction l as [|w l (E1 & E2 & E3 & E4)]; [done|].
  change (release_all c (w :: l) a) with (release c w (release_all c l a)). unfold release.
  pose proof (E4 w) as Ew.
  assert (forall u, u ∈ w :: l <-> u = w \/ u ∈ l) as Hin by (intros; set_solver).
  assert (forall u st, (u ∈ l -> st = match statuses a u with AQueued _ timed => AReleased c timed | x => x end) ->
    (u ∉ l -> u = w -> st = match statuses a u with AQueued _ timed => AReleased c timed | x => x end) ->
    (u ∉ l -> u <> w -> st = statuses a u) ->
    st = if decide (u ∈ w :: l) then match statuses a u with AQueued _ timed => AReleased c timed | x => x end else statuses a u) as K.
  { intros u st K1 K2 K3. destruct (decide (u ∈ w :: l)) as [Hu|Hu]; rewrite Hin in Hu;
      destruct (decide (u ∈ l)); [auto|apply K2; naive_solver|naive_solver|apply K3; naive_solver]. }
  destruct (statuses (release_all c l a) w) as [|b v timed|b timed|c' timed|o|n];
    (split; [done|split; [done|split; [done|]]]); intros u; apply K; cbn.
  all: try (intros Hu; rewrite E4, decide_True by done; done).
  all: try (intros Hu Hn; rewrite E4, decide_False by done; done).
  all: try (intros Hu ->; rewrite decide_False in Ew by done; rewrite E4, decide_False by done; by rewrite <- Ew).
  - intros Hu. destruct (decide (u = w)) as [->|]; [rewrite at_it|rewrite at_other, E4, decide_True by done; done].
    rewrite decide_True in Ew by done. by destruct (statuses a w).
  - intros Hu ->. rewrite at_it. rewrite decide_False in Ew by done. by rewrite <- Ew.
  - intros Hu Hn. by rewrite at_other, E4, decide_False.
Qed.

Section Wakes.
Context {kind_of : nat -> kind}.

Local Abbreviation Sim := (Sim kind_of).
Local Abbreviation step := (step kind_of (At None)).
Local Abbreviation post := (post kind_of).

(** ** Taking waiters out of a list *)

Definition pthread_wait_pc (p : pc) : Prop :=
  match p with PFutex _ | PSig _ _ | PErase _ | PSig2 => True | _ => False end.

(** A pthread in wait_pthread of which the waiter changes. *)
Lemma pthread_wait_update w v v' x x' :
  pthread_wait_pc (v_pc v) -> v_pc v' = v_pc v -> v_frame v = Some x -> v_frame v' = Some x' ->
  (v_pc v = PSig2 -> container x' = At None) ->
  (forall timed, pthread_asleep kind_of w x v timed -> pthread_asleep kind_of w x' v' timed) ->
  thread_ok kind_of w v -> thread_ok kind_of w v'.
Proof.
  intros Hp Ep Ef Ef' H2 Hs. unfold thread_ok. rewrite Ep. unfold with_waiter. rewrite Ef, Ef'.
  destruct (v_pc v); try done.
  - intros (y & [= <-] & H). eauto.
  - intros (y & [= <-] & H & Hr). eauto.
  - intros (y & [= <-] & H & Hr). eauto.
  - intros (y & [= <-] & H & Hr). exists x'. auto.
Qed.

(** What a waiter becomes. *)
Definition dequeue (c : cause) (x : ButexWaiter) : ButexWaiter :=
  set_container (At None)
    match c, tid x with
    | TimedOut, Some _ => set_waiter_state WAITER_STATE_TIMEDOUT x
    | Interrupted, Some _ => set_waiter_state WAITER_STATE_INTERRUPTED x
    | _, _ => x
    end.

(** Who may be taken out, and why. *)
Definition may_leave (c : cause) (v : view) : Prop :=
  match c with
  | Woken => True
  | TimedOut => v_task v <> None
  | Interrupted => v_intr v = true
  | Unmatched => False
  end.

(** A thread in a list: its status, and what it is when it is taken out. *)
Lemma queued_thread w v x b :
  thread_ok kind_of w v -> v_frame v = Some x -> container x = At (Some b) ->
  exists timed, v_status v = AQueued b timed /\ v_by v = None /\ v_ready v = false /\ flagged v /\
    (v_task v <> None -> timed = true) /\
    ((exists e, v_pc v = FStop b e) \/ v_pc v = FSuspended \/ (pthread_wait_pc (v_pc v) /\ v_pc v <> PSig2)).
Proof.
  intros Hv Ef Ec. unfold thread_ok in Hv.
  destruct (v_pc v) eqn:Ep; unfold with_waiter in Hv;
    try (by destruct Hv as [(Hf & _) _]; congruence);
    try (by destruct Hv as (y & Hy & ((_ & (Hc & _) & _) & _)); congruence);
    try (by destruct Hv as (y & Hy & _ & (Hc & _) & _); congruence);
    try (by destruct Hv as (y & Hy & _ & _ & (Hc & _) & _); congruence);
    try (by destruct Hv as (y & Hy & _ & _ & (Hc & _)); congruence);
    try (by destruct Hv as (y & Hy & _ & _ & _ & (Hc & _)); congruence);
    try (by destruct Hv as (y & Hy & _ & _ & _ & _ & (Hc & _)); congruence).
  all: destruct Hv as (y & Hy & Hv); rewrite Ef in Hy; injection Hy as <-.
  - destruct Hv as (_ & _ & Hfl & Hc & Hr & Hb & Ht & _ & Hs & _). assert (b0 = b) as -> by congruence.
    exists (abstime x). split_and!; try done. left. by eexists.
  - destruct Hv as (_ & _ & Hfl & Ht & Hc). rewrite Ec in Hc. destruct Hc as (Hs & _ & Hr & Hb).
    exists (abstime x). split_and!; try done; [|auto].
    destruct (v_task v) as [id|] eqn:E; [|done]. intros _. by apply (Ht id).
  - destruct Hv as ((_ & _ & Hr & Ht) & _ & Hfl & timed0 & _ & Hc). rewrite Ec in Hc. destruct Hc as (Hs & _ & Hb).
    exists timed0. split_and!; try done. right. right. by split.
  - destruct Hv as (((_ & _ & Hr & Ht) & _ & Hfl & timed0 & _ & Hc) & _). rewrite Ec in Hc. destruct Hc as (Hs & _ & Hb).
    exists timed0. split_and!; try done. right. right. by split.
  - destruct Hv as (((_ & _ & Hr & Ht) & _ & Hfl & timed0 & _ & Hc) & _). rewrite Ec in Hc. destruct Hc as (Hs & _ & Hb).
    exists timed0. split_and!; try done. right. right. by split.
  - destruct Hv as (_ & Hc). congruence.
Qed.

Lemma dequeued_thread w v x b c y timed :
  thread_ok kind_of w v -> v_frame v = Some x -> container x = At (Some b) ->
  v_status v = AQueued b timed -> (forall e, v_pc v <> FStop b e) -> may_leave c v ->
  thread_ok kind_of w (mkView (v_pc v) (Some (dequeue c x)) (v_cur v) (v_intr v) (v_ready v)
                         (AReleased c timed) (Some y) (v_taker v) (v_task v)).
Proof.
  intros Hv Ef Ec Hs Hnf Hc.
  destruct (queued_thread w v x b Hv Ef Ec) as (timed' & Hs' & Hb & Hr & _ & Ht & Hp).
  assert (timed' = timed) as -> by congruence.
  destruct Hp as [[e Hp]|[Hp|[Hp Hn]]]; [by destruct (Hnf e)| |].
  - unfold thread_ok in *. rewrite Hp in *. cbn. destruct Hv as (x' & Hx' & Hv). rewrite Ef in Hx'. injection Hx' as <-.
    destruct Hv as ((Hk & Hx) & Hpub & Hfl & Htm & Hcc). rewrite Ec in Hcc. destruct Hcc as (Hs2 & Hw & _ & _).
    assert (abstime x = timed) as <- by congruence.
    exists (dequeue c x). split; [done|]. unfold dequeue, fiber_waiter, timed_by. rewrite Hx.
    split_and!; try (by destruct c).
    destruct c; cbn; [| |done|]; (split; [|by right; eauto]); eexists; (split; [done|]); cbn; [|done|done].
    rewrite Hw. by left.
  - eapply (pthread_wait_update w v _ x); [exact Hp|done|exact Ef|done| | |exact Hv].
    + by intros E.
    + intros timed1 ((Hk & Hx & Hr' & Ht') & Hpub & Hfl & timed0 & Ht0 & Hcc).
      unfold pthread_asleep, pthread_waiter. cbn. unfold dequeue. rewrite Hx. rewrite Ec in Hcc.
      destruct Hcc as (Hs2 & Hsig & _). assert (timed0 = timed) as -> by congruence.
      split_and!; try done; [by destruct c..|]. exists timed. split; [done|].
      destruct c; cbn in *; [|done|done|]; (split; [eexists; split; [done|]; auto|]); left; split; [done|eauto|done|eauto].
Qed.

(** The state after some waiters of [b] were taken out, by [y]. *)
Lemma Sim_dequeue s s' g g' a a' b (l : list nat) c y :
  Sim s g a -> waiter_lock (butexes s b) = None ->
  (forall w, w ∈ l -> w ∈ waiters (butexes s b)) ->
  (forall w, w ∈ l -> may_leave c (view_of s g a w)) ->
  (forall w, w ∈ l -> frames s' w = dequeue c <$> frames s w) ->
  (forall w, w ∉ l -> queued_at (frames s' w) = queued_at (frames s w) /\ sleeping (frames s' w) = sleeping (frames s w)) ->
  (value (butexes s' b) = value (butexes s b) /\ waiter_lock (butexes s' b) = None /\
   NoDup (waiters (butexes s' b)) /\
   forall w, w ∈ waiters (butexes s' b) <-> w ∈ waiters (butexes s b) /\ w ∉ l) ->
  (forall b', b' <> b -> butexes s' b' = butexes s b') ->
  (forall u, current_waiter (metas s' u) = current_waiter (metas s u) /\ interrupted (metas s' u) = interrupted (metas s u)) ->
  (forall u, ready s' u = ready s u) -> (forall id, tasks s' id = tasks s id) -> next_task s' = next_task s ->
  (fst <$> callback s') = (fst <$> callback s) ->
  (forall u, holds (pcs s' u) = holds (pcs s u) /\ coming (pcs s' u) = coming (pcs s u)) ->
  (forall w, w ∈ l -> pcs s' w = pcs s w) ->
  (forall w timed, w ∈ l -> statuses a w = AQueued b timed -> statuses a' w = AReleased c timed) ->
  queue a' b = waiters (butexes s' b) -> (forall b', b' <> b -> queue a' b' = queue a b') ->
  (forall b', avalue a' b' = avalue a b') -> (forall u, pending a' u = pending a u) ->
  (forall w, w ∈ l -> by_ g' w = Some y) -> (forall w, taker g' w = taker g w) -> (forall w, task g' w = task g w) ->
  (forall u, u ∉ l -> thread_ok kind_of u (view_of s' g' a' u)) ->
  Wakers (todo s') (by_ g') ->
  Takers (fun t => takes (pcs s' t)) (fun t => vholds (pcs s' t)) (fun t => version_lock (metas s' t)) (taker g') ->
  Sim s' g' a'.
Proof.
  intros H El Hin Hml Hf Hfo (Ev & Ek & End & Ew) Ebo Em Er Ets En Ec Eh Ep Hst Hq Hqo Hav Hpe Hby Htk Htsk Hth HW HT.
  pose proof (S_lists _ _ _ _ H) as HL.
  assert (forall w, w ∈ l -> exists x, frames s w = Some x /\ container x = At (Some b)) as Hx.
  { intros w Hw. apply Hin in Hw. apply (L_at _ _ _ _ _ HL) in Hw. cbn in Hw. destruct (frames s w) as [x|]; [|done].
    exists x. split; [done|]. cbn in Hw. destruct (container x); [done|]. congruence. }
  assert (forall x, queued_at (dequeue c <$> Some x) = None) as Hq0.
  { intros x. cbn. by destruct c, (tid x). }
  assert (forall x, sleeping (dequeue c <$> Some x) = sleeping (Some x)) as Hs0.
  { intros x. cbn. unfold dequeue. by destruct c, (tid x). }
  split; try done.
  - intros u. destruct (decide (u ∈ l)) as [Hu|Hu]; [|by apply Hth].
    destruct (Hx u Hu) as (x & Hxf & Hxc). pose proof (S_threads _ _ _ _ H u) as Hv.
    destruct (queued_thread u _ x b Hv Hxf Hxc) as (timed & Hs & _ & _ & _ & _ & Hp).
    cbn in Hs. destruct (Em u) as [Em1 Em2].
    unfold view_of. rewrite Ep, Hf, Hxf, Em1, Em2, Er, (Hst u timed Hu Hs), Hby, Htk, Htsk by done.
    apply (dequeued_thread u (view_of s g a u) x b c y timed); try done; [|by apply Hml].
    intros e Hfs. cbn in Hfs. assert (waiter_lock (butexes s b) = Some u) by (apply HL; by rewrite Hfs). congruence.
  - intros u. destruct (Em u) as [_ ->]. rewrite Hpe. apply (S_pending _ _ _ _ H).
  - intros u Eu. destruct (Em u) as [_ ->]. by apply (S_no_meta _ _ _ _ H).
  - assert (forall w, queued_at (frames s' w) = if decide (w ∈ l) then None else queued_at (frames s w)) as Hqa.
    { intros w. destruct (decide (w ∈ l)) as [Hw|Hw]; [|by apply Hfo]. rewrite Hf by done.
      destruct (Hx w Hw) as (x & -> & _). apply Hq0. }
    split; intros b'; (destruct (decide (b' = b)) as [->|Hne]; [|rewrite ?(Ebo _ Hne)]).
    + rewrite Hav, Ev. apply HL.
    + rewrite Hav. apply HL.
    + rewrite Ek, Hq. by rewrite app_nil_r.
    + rewrite Hqo, (L_queue _ _ _ _ _ HL) by done. f_equal. destruct (waiter_lock (butexes s b')) as [u|]; [|done].
      by destruct (Eh u) as [_ ->].
    + done.
    + apply HL.
    + intros w. rewrite Ew, Hqa, (L_at _ _ _ _ _ HL). destruct (decide (w ∈ l)); naive_solver.
    + intros w. rewrite Hqa, (L_at _ _ _ _ _ HL). destruct (decide (w ∈ l)) as [Hw|]; [|done].
      destruct (Hx w Hw) as (x & Hxf & Hxc). rewrite Hxf. cbn. rewrite Hxc. split; congruence.
    + intros u. destruct (Eh u) as [-> _]. rewrite Ek, <- (L_lock _ _ _ _ _ HL), El. done.
    + intros u. destruct (Eh u) as [-> _]. apply HL.
  - eapply Tasks_ext; [apply H|done..|]. intros w. left. destruct (decide (w ∈ l)) as [Hw|Hw]; [|by apply Hfo].
    rewrite Hf by done. destruct (Hx w Hw) as (x & -> & _). apply Hs0.
Qed.

(** ** Waking a thread that was taken out *)

Lemma by_thread w v y :
  thread_ok kind_of w v -> v_by v = Some y ->
  exists x, v_frame v = Some x /\ container x = At None /\
    ((kind_of w = Fiber /\ tid x = Some w /\ v_pc v = FSuspended /\ v_ready v = false) \/
     (kind_of w <> Fiber /\ tid x = None /\ pthread_wait_pc (v_pc v))).
Proof.
  intros Hv Eb. unfold thread_ok in Hv.
  destruct (v_pc v) eqn:Ep; unfold with_waiter in Hv;
    try (by destruct Hv as [(_ & _ & _ & Hb & _) _]; congruence);
    try (by destruct Hv as (x & Hx & ((_ & (_ & _ & Hb) & _) & _)); congruence);
    try (by destruct Hv as (x & Hx & _ & (_ & _ & Hb) & _); congruence);
    try (by destruct Hv as (x & Hx & _ & _ & (_ & _ & Hb) & _); congruence);
    try (by destruct Hv as (x & Hx & _ & _ & (_ & Hb & _)); congruence);
    try (by destruct Hv as (x & Hx & _ & _ & _ & (_ & Hb & _)); congruence);
    try (by destruct Hv as (x & Hx & _ & _ & _ & _ & (_ & Hb & _)); congruence).
  - destruct Hv as (x & Hx & (Hk & Hti) & _ & _ & _ & Hc). exists x. destruct (container x) as [|[b|]]; [done| |].
    + destruct Hc as (_ & _ & _ & Hb). congruence.
    + destruct Hc as (_ & [[_ Hb]|[Hr _]]); [congruence|]. auto 10.
  - destruct Hv as (x & Hx & (Hk & Hti & _) & _ & _ & timed0 & _ & Hc). exists x. destruct (container x) as [|[b|]]; [done| |].
    + destruct Hc as (_ & _ & Hb). congruence.
    + split_and!; try done. right. done.
  - destruct Hv as (x & Hx & ((Hk & Hti & _) & _ & _ & timed0 & _ & Hc) & _). exists x. destruct (container x) as [|[b|]]; [done| |].
    + destruct Hc as (_ & _ & Hb). congruence.
    + split_and!; try done. right. done.
  - destruct Hv as (x & Hx & ((Hk & Hti & _) & _ & _ & timed0 & _ & Hc) & _). exists x. destruct (container x) as [|[b|]]; [done| |].
    + destruct Hc as (_ & _ & Hb). congruence.
    + split_and!; try done. right. done.
  - destruct Hv as (x & Hx & ((Hk & Hti & _) & _ & _ & timed0 & _ & Hc) & _). exists x. destruct (container x) as [|[b|]]; [done| |].
    + destruct Hc as (_ & _ & Hb). congruence.
    + split_and!; try done. right. done.
Qed.

(** It is in a run queue, or signalled. *)
Definition is_awake (w : nat) (v v' : view) : Prop :=
  (kind_of w = Fiber /\ v_ready v' = true /\ v_frame v' = v_frame v) \/
  (kind_of w <> Fiber /\ v_ready v' = v_ready v /\
   exists x, v_frame v = Some x /\ v_frame v' = Some (set_sig PTHREAD_SIGNALLED x)).

Lemma awake_thread w v v' y :
  thread_ok kind_of w v -> v_by v = Some y -> is_awake w v v' -> v_pc v' = v_pc v -> v_cur v' = v_cur v ->
  v_intr v' = v_intr v -> v_status v' = v_status v -> v_by v' = None -> v_taker v' = v_taker v ->
  (v_task v' = v_task v \/ v_task v' = None) -> thread_ok kind_of w v'.
Proof.
  intros Hv Eb Ha Ep Ecu Ei Es Eby Et Ets.
  destruct (by_thread w v y Hv Eb) as (x & Hx & Hc & [(Hk & Hti & Hp & Hr)|(Hk & Hti & Hp)]).
  - destruct Ha as [(_ & Har & Haf)|(? & _)]; [|done]. unfold thread_ok in *. rewrite Ep. rewrite Hp in *.
    destruct Hv as (x' & Hx' & Hv). rewrite Hx in Hx'. injection Hx' as <-. rewrite Hc in Hv.
    destruct Hv as (Hf & Hpub & Hfl & Htm & Hrel & _). exists x. rewrite Haf. split; [done|]. rewrite Hc.
    unfold published, flagged, timed_by, fiber_released in *. rewrite Ecu, Ei, Es, Et, Eby, Har.
    split_and!; try done; [|by left]. intros id. destruct Ets as [->| ->]; [apply Htm|done].
  - destruct Ha as [(? & _)|(_ & Har & x' & Hx' & Haf)]; [done|]. rewrite Hx in Hx'. injection Hx' as <-.
    eapply (pthread_wait_update w v v' x); [done..|intros; done| |exact Hv].
    intros timed ((_ & _ & Hr & Hts) & Hpub & Hfl & timed0 & Ht0 & Hcc). rewrite Hc in Hcc. destruct Hcc as ((c & Hs & Hca) & _).
    unfold pthread_asleep, pthread_waiter, pthread_published, published, unpublished, flagged in *. cbn. rewrite Hc.
    rewrite Ecu, Ei, Es, Et, Eby, Har. split_and!; try done; [destruct Ets as [->| ->]; done|].
    exists timed0. split; [done|]. split; [by exists c|]. by right.
Qed.

(** The end of a callback of the timer thread. *)
Lemma Tasks_finish ts id w n tk sl :
  Tasks ts (Some (id, w)) n tk sl -> Tasks (<[id := None]> ts) None n (<[w := None]> tk) sl.
Proof.
  intros [K R N I S]. assert (ts id = Some (Running w)) as E by by apply R.
  assert (tk w = Some id) as Ek by (apply K; by rewrite E).
  split; try done.
  - intros id' w'. destruct (decide (id' = id)) as [->|Hne]; rewrite ?at_it, ?at_other by done; cbn.
    + destruct (decide (w' = w)) as [->|Hw]; rewrite ?at_it, ?at_other by done; [done|].
      rewrite <- K, E. cbn. split; congruence.
    + destruct (decide (w' = w)) as [->|Hw]; rewrite ?at_it, ?at_other by done; [|apply K].
      rewrite K, Ek. split; congruence.
  - intros id' w'. destruct (decide (id' = id)) as [->|Hne]; rewrite ?at_it, ?at_other by done; [done|].
    rewrite R. split; congruence.
  - intros id'. destruct (decide (id' = id)) as [->|Hne]; rewrite ?at_it, ?at_other by done; auto.
  - intros w' Hz. destruct (S w' Hz) as [S1 S2]. split; [done|]. intros u.
    destruct (decide (u = w)) as [->|]; [by rewrite at_it|rewrite at_other by done; auto].
Qed.

(** A thread that has a task is a fiber in butex_wait. *)
Lemma task_thread w v id :
  thread_ok kind_of w v -> v_task v = Some id ->
  exists x, v_frame v = Some x /\ kind_of w = Fiber /\ tid x = Some w /\ container x <> Unwritten /\ sleep_id x = id /\
    abstime x = true /\ (v_pc v = FSuspended \/ v_pc v = FUnsleep).
Proof.
  intros Hv Et. unfold thread_ok in Hv.
  destruct (v_pc v) eqn:Ep; unfold with_waiter in Hv;
    try (by destruct Hv as [(_ & _ & _ & _ & _ & Ht) _]; congruence);
    try (by destruct Hv as (x & Hx & ((_ & _ & _ & _ & Ht) & _)); congruence);
    try (by destruct Hv as (x & Hx & _ & _ & Ht & _); congruence);
    try (by destruct Hv as (x & Hx & (_ & _ & _ & Ht) & _); congruence);
    try (by destruct Hv as (x & Hx & ((_ & _ & _ & Ht) & _) & _); congruence).
  - destruct Hv as (x & _ & _ & _ & _ & _ & _ & _ & Ht & _). congruence.
  - destruct Hv as (x & Hx & (Hk & Hti) & _ & _ & Htm & Hc). destruct (Htm id Et) as [<- Ha]. exists x. split_and!; auto.
    by destruct (container x).
  - destruct Hv as (x & Hx & (Hk & Hti) & (Hc & _) & Htm & _). destruct (Htm id Et) as [<- Ha]. exists x. split_and!; auto.
    by rewrite Hc.
Qed.

(** ** The timer thread *)

Lemma timer_runs_ok s g a id : Sim s g a -> post a (step (TimerRuns id) s).
Proof.
  intros H. cbn. destruct (callback s) as [[[id' w'] e']|] eqn:Ec; [done|].
  destruct (tasks s id) as [[w|w]|] eqn:E; [|done|done].
  apply (post_tau _ _ g). destruct H as [H1 H2 H7 H3 H4 H5 H6]. split; try done.
  - destruct H4 as [B N]. split; cbn.
    + intros [u|] v; [apply (B (Thr u))|]. cbn. rewrite <- (B Timer). cbn. by rewrite Ec.
    + intros [u|]; [apply (N (Thr u))|]. cbn. constructor.
  - rewrite Ec in H6. destruct H6 as [K R N I S]. split; cbn; try done.
    + intros id' w'. destruct (decide (id' = id)) as [->|Hne]; rewrite ?at_it, ?at_other by done; [|apply K].
      rewrite <- K, E. done.
    + intros id' w'. destruct (decide (id' = id)) as [->|Hne]; rewrite ?at_it, ?at_other by done.
      * split; [by intros [= ->]|by intros [= ->]].
      * rewrite R. split; [done|congruence].
    + intros id'. destruct (decide (id' = id)) as [->|Hne]; rewrite ?at_it, ?at_other by done; [|auto].
      intros _. apply I. congruence.
Qed.

Lemma timer_stops_ok s g a : Sim s g a -> post a (step TimerStops s).
Proof. intros H. apply (post_tau _ _ g). by destruct H. Qed.

(** The waiter of the callback. *)
Lemma callback_waiter s g a id w e :
  Sim s g a -> callback s = Some (id, w, e) ->
  task g w = Some id /\ exists x, frames s w = Some x /\ kind_of w = Fiber /\ tid x = Some w /\ container x <> Unwritten.
Proof.
  intros H Ec. pose proof (S_tasks _ _ _ _ H) as [K R N I S]. rewrite Ec in R. cbn in R.
  assert (tasks s id = Some (Running w)) as E by by apply R.
  assert (task g w = Some id) as Et by (apply K; by rewrite E).
  split; [done|]. destruct (task_thread w _ id (S_threads _ _ _ _ H w) Et) as (x & Hf & Hk & Hti & Hc & _). eauto.
Qed.

(** The callback is over, for [w] that is the same otherwise, or awake. *)
Lemma timer_done_ok s g a id w e s1 g1 :
  Sim s g a -> callback s = Some (id, w, e) ->
  (e <> EWake /\ s1 = s /\ (forall u, by_ g1 u = by_ g u) \/
   e = EWake /\ ready s w = false /\ s1 = with_ready s (<[w := true]> (ready s)) /\ (forall u, by_ g1 u = if decide (u = w) then None else by_ g u)) ->
  taker g1 = taker g -> task g1 = <[w := None]> (task g) ->
  Sim (with_callback (with_tasks s1 (<[id := None]> (tasks s1))) None) g1 a.
Proof.
  intros H Ec Hs Etk Ets. destruct (callback_waiter s g a id w e H Ec) as (Et & x & Hf & Hk & Hti & Hxc).
  pose proof (S_threads _ _ _ _ H w) as Hv. pose proof H as [H1 H2 H7 H3 H4 H5 H6]. rewrite Ec in H6.
  assert (e = EWake -> by_ g w = Some Timer) as Hb.
  { intros ->. apply (W_by _ _ H4 Timer). cbn. rewrite Ec. set_solver. }
  split.
  - intros u. destruct (decide (u = w)) as [->|Hu].
    + destruct Hs as [(He & -> & Eb)|(-> & Er & -> & Eb)].
      * unfold view_of in *. cbn. rewrite Etk, Ets, Eb, at_it.
        unfold thread_ok in *. cbn [v_pc] in *. destruct (task_thread w _ id (H1 w) Et) as (x' & Hf' & _ & _ & _ & _ & _ & Hp).
        cbn in Hf', Hp. destruct Hp as [Hp|Hp]; rewrite Hp in *; destruct Hv as (x2 & Hx2 & Hv); exists x2; (split; [done|]);
          unfold timed_by in *; cbn in *; naive_solver.
      * eapply (awake_thread w (view_of s g a w)); [done|by apply Hb|left; split_and!; [done|cbn; by rewrite at_it|done]|done..| | |]; cbn.
        -- by rewrite Eb, decide_True.
        -- by rewrite Etk.
        -- right. by rewrite Ets, at_it.
    + specialize (H1 u). unfold view_of in *.
      destruct Hs as [(He & -> & Eb)|(-> & Er & -> & Eb)]; cbn; rewrite Eb, Etk, Ets, ?at_other by done; [done|].
      by rewrite decide_False.
  - destruct Hs as [(He & -> & Eb)|(-> & Er & -> & Eb)]; done.
  - destruct Hs as [(He & -> & Eb)|(-> & Er & -> & Eb)]; done.
  - destruct Hs as [(He & -> & Eb)|(-> & Er & -> & Eb)]; done.
  - destruct H4 as [B N]. split.
    + intros [u|] v.
      * replace (todo _ (Thr u)) with (todo s (Thr u)) by (destruct Hs as [(_ & -> & _)|(_ & _ & -> & _)]; done).
        rewrite (B (Thr u)). destruct Hs as [(He & -> & Eb)|(-> & Er & -> & Eb)]; rewrite Eb; [done|].
        case_decide; [subst; rewrite Hb by done; split; congruence|done].
      * cbn. split; [set_solver|]. intros Ev. exfalso.
        destruct Hs as [(He & -> & Eb)|(-> & Er & -> & Eb)]; rewrite Eb in Ev.
        -- apply (B Timer) in Ev. cbn in Ev. rewrite Ec in Ev. destruct e; set_solver.
        -- case_decide; [done|]. apply (B Timer) in Ev. cbn in Ev. rewrite Ec in Ev. set_solver.
    + intros [u|]; [|constructor].
      replace (todo _ (Thr u)) with (todo s (Thr u)) by (destruct Hs as [(_ & -> & _)|(_ & _ & -> & _)]; done). apply N.
  - rewrite Etk. destruct Hs as [(He & -> & Eb)|(-> & Er & -> & Eb)]; done.
  - rewrite Ets. destruct Hs as [(He & -> & Eb)|(-> & Er & -> & Eb)]; cbn; by apply Tasks_finish.
Qed.

(** ** The section of erase_from_butex *)

Definition erased (w b : nat) (c : cause) (x : ButexWaiter) (s : state) : state :=
  set_frame w (Some (dequeue c x)) (on_butex b (fun y => set_waiters (filter (fun w' => w' <> w) (waiters y)) y) s).

Definition left_queue (c : cause) (w b : nat) (timed : bool) (a : astate) : astate :=
  with_status w (AReleased c timed) (with_queue b (remove w (queue a b)) a).

Lemma erase_core s g a w x b c y timed ps cb :
  Sim s g a -> frames s w = Some x -> container x = At (Some b) -> waiter_lock (butexes s b) = None ->
  may_leave c (view_of s g a w) -> statuses a w = AQueued b timed ->
  (forall u, holds (ps u) = holds (pcs s u) /\ coming (ps u) = coming (pcs s u)) -> ps w = pcs s w ->
  (fst <$> cb) = (fst <$> callback s) ->
  let s' := with_callback (with_pcs (erased w b c x s) ps) cb in
  let g' := mkGhost (<[w := Some y]> (by_ g)) (taker g) (task g) in
  let a' := left_queue c w b timed a in
  (forall u, u <> w -> thread_ok kind_of u (view_of s' g' a' u)) ->
  Wakers (todo s') (by_ g') ->
  Takers (fun t => takes (pcs s' t)) (fun t => vholds (pcs s' t)) (fun t => version_lock (metas s' t)) (taker g') ->
  Sim s' g' a'.
Proof.
  intros H Hf Hc El Hml Hs Eh Ew Ecb s' g' a' Hth HW HT. pose proof (S_lists _ _ _ _ H) as HL.
  assert (w ∈ waiters (butexes s b)) as Hin by (apply HL; by rewrite Hf; cbn; rewrite Hc).
  assert (queue a b = waiters (butexes s b)) as Hqb by (rewrite (L_queue _ _ _ _ _ HL), El; apply app_nil_r).
  eapply (Sim_dequeue s s' g g' a a' b [w] c y); try done; subst s' g' a'; cbn.
  - intros u ->%list_elem_of_singleton. done.
  - intros u ->%list_elem_of_singleton. done.
  - intros u ->%list_elem_of_singleton. by rewrite at_it, Hf.
  - intros u Hu. rewrite at_other by set_solver. done.
  - rewrite at_it. cbn. split_and!; try done; [by apply NoDup_filter, HL|].
    intros u. rewrite list_elem_of_filter. set_solver.
  - intros b' Hb'. by rewrite at_other.
  - intros u ->%list_elem_of_singleton. done.
  - intros u timed' ->%list_elem_of_singleton E. rewrite at_it. congruence.
  - by rewrite !at_it, Hqb.
  - intros b' Hb'. by rewrite at_other.
  - intros u ->%list_elem_of_singleton. by rewrite at_it.
  - intros u Hu. apply Hth. set_solver.
Qed.

(** What erase_from_butex does in the section. *)
Lemma erase_section w wakeup st c b s x :
  frames s w = Some x -> waiter_lock (butexes s b) = None -> container x = At (Some b) ->
  (c = TimedOut /\ st = WAITER_STATE_TIMEDOUT \/ c = Interrupted /\ st = WAITER_STATE_INTERRUPTED) ->
  erase_from_butex w wakeup st (ELock b) s = Go (erased w b c x s, if wakeup then inl EWake else inr true).
Proof.
  intros Hf El Hc Hst. cbn. unfold locked. rewrite El, (frame_eq _ _ _ Hf). cbn [mbind outcome_bind].
  rewrite decide_True by done. rewrite (on_frame_eq _ _ _ x) by done. cbn [mbind outcome_bind].
  unfold erased, dequeue. destruct Hst as [[-> ->]|[-> ->]]; by destruct (tid x).
Qed.

Lemma erase_section_moved w wakeup st b s x :
  frames s w = Some x -> waiter_lock (butexes s b) = None -> container x <> At (Some b) ->
  erase_from_butex w wakeup st (ELock b) s = Go (s, inl ELoad).
Proof.
  intros Hf El Hc. cbn. unfold locked. rewrite El, (frame_eq _ _ _ Hf). cbn [mbind outcome_bind]. by rewrite decide_False.
Qed.

Lemma erase_section_locked w wakeup st b s u :
  waiter_lock (butexes s b) = Some u -> erase_from_butex w wakeup st (ELock b) s = NoStep.
Proof. intros El. cbn. unfold locked. by rewrite El. Qed.

Lemma erase_load w wakeup st s x :
  frames s w = Some x -> container x <> Unwritten ->
  erase_from_butex w wakeup st ELoad s =
    Go (s, match container x with At (Some b) => inl (ELock b) | _ => inr false end).
Proof.
  intros Hf Hc. cbn. rewrite (frame_eq _ _ _ Hf). cbn [mbind outcome_bind]. by destruct (container x) as [|[b|]].
Qed.

(** The callback goes on, with nothing done. *)
Lemma timer_goes_on s g a id w e e' :
  Sim s g a -> callback s = Some (id, w, e) -> e <> EWake -> e' <> EWake -> Sim (with_callback s (Some (id, w, e'))) g a.
Proof.
  intros [H1 H2 H7 H3 H4 H5 H6] Ec He He'. split; try done.
  - eapply Wakers_ext; [exact H4| |done]. intros [u|]; [done|]. cbn. rewrite Ec. by destruct e, e'.
  - cbn. by rewrite Ec in H6.
Qed.

Lemma timer_step_ok s g a : Sim s g a -> post a (timer_step s).
Proof.
  intros H. unfold timer_step. destruct (callback s) as [[[id w] e]|] eqn:Ec; [|done].
  destruct (callback_waiter s g a id w e H Ec) as (Et & x & Hf & Hk & Hti & Hxc).
  destruct e as [|b|].
  - rewrite (erase_load _ _ _ _ x) by done. cbn [mbind outcome_bind].
    destruct (container x) as [|[b|]] eqn:Hc; [done| |].
    + apply (post_tau _ _ g). by apply (timer_goes_on s g a id w ELoad).
    + apply (post_tau _ _ (mkGhost (by_ g) (taker g) (<[w := None]> (task g)))).
      apply (timer_done_ok s g a id w ELoad s); try done. by left.
  - destruct (waiter_lock (butexes s b)) as [u|] eqn:El; [by rewrite (erase_section_locked _ _ _ _ _ u)|].
    destruct (decide (container x = At (Some b))) as [Hc|Hc].
    2:{ rewrite (erase_section_moved _ _ _ _ _ x) by done. cbn [mbind outcome_bind].
        apply (post_tau _ _ g). by apply (timer_goes_on s g a id w (ELock b)). }
    rewrite (erase_section _ _ _ TimedOut _ _ x) by auto. cbn [mbind outcome_bind].
    destruct (queued_thread w _ x b (S_threads _ _ _ _ H w) Hf Hc) as (timed & Hs & Hb & _ & _ & Htm & _). cbn in Hs, Hb.
    assert (timed = true) as -> by (apply Htm; cbn; congruence).
    eapply (post_tau1 _ (left_queue TimedOut w b true a) _ (mkGhost (<[w := Some Timer]> (by_ g)) (taker g) (task g))).
    { unfold left_queue. rewrite <- (release_eq TimedOut w a b true Hs). by apply a_timeout. }
    apply (erase_core s g a w x b TimedOut Timer true (pcs s) (Some (id, w, EWake))); try done.
    + cbn. by rewrite Et.
    + by rewrite Ec.
    + intros u Hu. unfold view_of. cbn. rewrite !at_other by done. apply (S_threads _ _ _ _ H).
    + destruct (S_wakers _ _ _ _ H) as [B N]. split.
      * intros [u|] v; cbn.
        -- destruct (decide (v = w)) as [->|Hv]; [rewrite at_it|rewrite at_other by done; apply (B (Thr u))].
           rewrite (B (Thr u) w), Hb. split; congruence.
        -- destruct (decide (v = w)) as [->|Hv]; [rewrite at_it; set_solver|rewrite at_other by done].
           rewrite <- (B Timer v). cbn. rewrite Ec. set_solver.
      * intros [u|]; cbn; [apply (N (Thr u))|apply NoDup_singleton].
    + apply (S_takers _ _ _ _ H).
  - cbn [erase_from_butex]. rewrite (frame_eq _ _ _ Hf). cbn [mbind outcome_bind]. rewrite Hti.
    assert (by_ g w = Some Timer) as Hb.
    { apply (W_by _ _ (S_wakers _ _ _ _ H) Timer). cbn. rewrite Ec. set_solver. }
    destruct (by_thread w _ Timer (S_threads _ _ _ _ H w) Hb) as (x' & Hf' & _ & [(_ & _ & Hp & Hr)|(? & _)]); [|done].
    cbn in Hp, Hr. unfold ready_to_run. rewrite Hp, Hr. cbn [mbind outcome_bind].
    apply (post_tau _ _ (mkGhost (<[w := None]> (by_ g)) (taker g) (<[w := None]> (task g)))).
    apply (timer_done_ok s g a id w EWake (with_ready s (<[w:=true]> (ready s)))); try done.
    right. split_and!; try done. intros u. cbn. case_decide; [subst; by rewrite at_it|by rewrite at_other].
Qed.

(** ** A thread wakes another *)

Inductive awoken (s : state) (w : nat) : state -> Prop :=
  | awoken_fiber : kind_of w = Fiber -> awoken s w (with_ready s (<[w := true]> (ready s)))
  | awoken_pthread x : kind_of w <> Fiber -> frames s w = Some x ->
      awoken s w (set_frame w (Some (set_sig PTHREAD_SIGNALLED x)) s).

(** Who is to wake [w] can do so. *)
Lemma can_wake s g a w y :
  Sim s g a -> by_ g w = Some y ->
  exists x s1, frames s w = Some x /\ awoken s w s1 /\
    (kind_of w = Fiber /\ tid x = Some w /\ ready_to_run w s = Go s1 \/
     kind_of w <> Fiber /\ tid x = None /\ wakeup_pthread w s = Go s1).
Proof.
  intros H Hb. destruct (by_thread w _ y (S_threads _ _ _ _ H w) Hb) as (x & Hf & Hc & [(Hk & Hti & Hp & Hr)|(Hk & Hti & Hp)]).
  - exists x, (with_ready s (<[w := true]> (ready s))). split_and!; try done; [by constructor|]. left. split_and!; try done.
    unfold ready_to_run. cbn in Hp, Hr. by rewrite Hp, Hr.
  - exists x, (set_frame w (Some (set_sig PTHREAD_SIGNALLED x)) s). split_and!; try done; [by constructor|]. right. split_and!; try done.
    unfold wakeup_pthread. by rewrite (on_frame_eq _ _ _ x).
Qed.

Lemma wake_sim s g a i w s1 p rest :
  Sim s g a -> awoken s w s1 -> todo_pc (pcs s i) = w :: rest -> todo_pc p = rest -> idle (view_of s g a i) ->
  takes p = takes (pcs s i) -> vholds p = vholds (pcs s i) -> holds p = holds (pcs s i) -> coming p = coming (pcs s i) ->
  thread_ok kind_of i (mkView p (frames s i) (current_waiter (metas s i)) (interrupted (metas s i)) (ready s i)
                       (statuses a i) (by_ g i) (taker g i) (task g i)) ->
  Sim (at_pc i p s1) (mkGhost (<[w := None]> (by_ g)) (taker g) (task g)) a.
Proof.
  intros H Hs1 Ht Hp Hi E1 E2 E3 E4 Hok. pose proof H as [H1 H2 H7 H3 H4 H5 H6].
  assert (by_ g w = Some (Thr i)) as Hb by (apply (W_by _ _ H4 (Thr i)); cbn; rewrite Ht; set_solver).
  assert (w <> i) as Hwi by (intros ->; destruct Hi as (_ & _ & _ & Hn & _); cbn in Hn; congruence).
  pose proof (W_nodup _ _ H4 (Thr i)) as Hnd. cbn in Hnd. rewrite Ht in Hnd. apply NoDup_cons in Hnd as [Hnin Hnd].
  assert (pcs s1 = pcs s /\ metas s1 = metas s /\ butexes s1 = butexes s /\ tasks s1 = tasks s /\ next_task s1 = next_task s /\
    callback s1 = callback s) as (F1 & F2 & F3 & F4 & F5 & F6) by (by destruct Hs1).
  assert (forall u, u <> w -> frames s1 u = frames s u /\ ready s1 u = ready s u) as Fo.
  { intros u Hu. destruct Hs1; cbn; by rewrite ?at_other. }
  assert (queued_at (frames s1 w) = queued_at (frames s w) /\ sleeping (frames s1 w) = sleeping (frames s w)) as [Fq Fs].
  { destruct Hs1 as [|x Hk Hf]; cbn; [done|]. rewrite at_it, Hf. done. }
  split.
  - intros u. destruct (decide (u = w)) as [->|Hu].
    + eapply (awake_thread w (view_of s g a w) _ (Thr i)); [apply H1|done|..]; unfold view_of; cbn; rewrite ?F1, ?F2; try done.
      * destruct Hs1 as [Hk|x Hk Hf]; [left; split_and!; [done|cbn; by rewrite at_it|done]|right].
        split; [done|]. split; [done|]. exists x. split; [done|]. cbn. by rewrite at_it.
      * by rewrite at_other.
      * by rewrite at_it.
      * by left.
    + destruct (Fo u Hu) as [Fo1 Fo2]. unfold view_of. cbn. rewrite Fo1, Fo2, F1, F2, (at_other _ w _ u) by done.
      destruct (decide (u = i)) as [->|Hui]; [by rewrite at_it|rewrite at_other by done; apply H1].
  - intros u. cbn. rewrite F2. apply H2.
  - intros u. cbn. rewrite F2. apply H7.
  - eapply (Lists_pc s _ a a i p H3); cbn; rewrite ?F1, ?F3; try done. intros u.
    destruct (decide (u = w)) as [->|Hu]; [done|]. by destruct (Fo u Hu) as [-> _].
  - destruct H4 as [B N]. split.
    + intros y v. cbn. destruct (decide (y = Thr i)) as [->|Hy].
      * cbn. rewrite F1, at_it, Hp. destruct (decide (v = w)) as [->|Hv]; [rewrite at_it; set_solver|rewrite at_other by done].
        rewrite <- (B (Thr i) v). cbn. rewrite Ht. set_solver.
      * replace (todo _ y) with (todo s y) by (destruct y as [u|]; cbn; [rewrite F1, at_other by congruence|rewrite F6]; done).
        destruct (decide (v = w)) as [->|Hv]; [rewrite at_it, (B y), Hb; split; congruence|by rewrite at_other].
    + intros y. destruct (decide (y = Thr i)) as [->|Hy]; [cbn; by rewrite F1, at_it, Hp|].
      replace (todo _ y) with (todo s y) by (destruct y as [u|]; cbn; [rewrite F1, at_other by congruence|rewrite F6]; done). apply N.
  - apply (Takers_pc s _ g i p H5); cbn; by rewrite ?F1, ?F2.
  - cbn. rewrite F4, F5, F6. eapply Tasks_ext; [exact H6|done..|]. intros u. left.
    destruct (decide (u = w)) as [->|Hu]; [done|]. by destruct (Fo u Hu) as [-> _].
Qed.

(** ** TaskGroup::interrupt *)

(** current_waiter is set, or taken, or there is no waiter in it. *)
Lemma published_or_not t v : thread_ok kind_of t v -> published t v \/ unpublished v.
Proof.
  intros Hv. unfold thread_ok in Hv. assert (forall v, pthread_published kind_of t v -> published t v \/ unpublished v) as K.
  { intros u. unfold pthread_published. destruct (kind_of t); auto. }
  destruct (v_pc v); unfold with_waiter, idle, pthread_asleep in Hv;
    first [right; by split; apply Hv|destruct Hv as (x & Hx & Hv); destruct_and? Hv; auto].
Qed.

(** Another state of current_waiter, or one more interruption. *)
Lemma republish t v v' :
  v_pc v' = v_pc v -> v_frame v' = v_frame v -> v_ready v' = v_ready v -> v_status v' = v_status v ->
  v_by v' = v_by v -> v_task v' = v_task v ->
  (published t v -> published t v') -> (unpublished v -> unpublished v') -> (flagged v -> flagged v') ->
  (v_intr v = true -> v_intr v' = true) -> thread_ok kind_of t v -> thread_ok kind_of t v'.
Proof.
  intros E1 E2 E3 E4 E5 E6 Hp Hu Hf Hi.
  assert (idle v -> idle v') as Hid.
  { intros (F1 & F2 & F3 & F4 & F5 & F6). destruct (Hu (conj F2 F5)) as [U1 U2]. unfold idle. by rewrite E2, E3, E5, E6. }
  assert (pthread_published kind_of t v -> pthread_published kind_of t v') as Hpp.
  { unfold pthread_published. destruct (kind_of t); auto. }
  assert (forall x, unqueued x v -> unqueued x v') as Huq by (intros x; unfold unqueued; by rewrite E3, E5).
  assert (forall x, fiber_new kind_of t x v -> fiber_new kind_of t x v') as Hfn.
  { intros x (F1 & F2 & F3 & F4 & F5). unfold fiber_new. rewrite E6. auto 10. }
  assert (forall x, timed_by x v -> timed_by x v') as Htb by (intros x; unfold timed_by; by rewrite E6).
  assert (forall x, pthread_waiter kind_of t x v -> pthread_waiter kind_of t x v') as Hpw.
  { intros x. unfold pthread_waiter. by rewrite E3, E6. }
  assert (forall x, fiber_released t x v -> fiber_released t x v') as Hfr.
  { intros x (c & F1 & F2). exists c. rewrite E4. split; [done|]. destruct (waiter_state x); cbn in *; naive_solver. }
  assert (forall r x, pthread_done r x v -> pthread_done r x v') as Hpd.
  { intros r x (F1 & F2 & c & timed & F3 & F4). split; [done|]. rewrite E4, E5. split; [done|]. exists c, timed. split; [done|].
    destruct c; cbn in *; naive_solver. }
  assert (forall x timed, pthread_asleep kind_of t x v timed -> pthread_asleep kind_of t x v' timed) as Hpa.
  { intros x timed (F1 & F2 & F3 & timed0 & F4 & F5). unfold pthread_asleep. rewrite E4, E5. split_and!; auto. exists timed0.
    split; [done|]. destruct (container x) as [|[b|]]; [done..|]. destruct F5 as ((c & F5 & F6) & F7). split; [|done].
    exists c. naive_solver. }
  unfold thread_ok. rewrite E1, E4. unfold with_waiter. rewrite E2.
  destruct (v_pc v); first [intros [? ?]; split; by auto|intros (x & Hx & H); exists x; split; [done|];
    rewrite ?E3, ?E5, ?E6; destruct_and? H; split_and?; auto].
  (* FSuspended *)
  match goal with H : match container x with _ => _ end |- _ => rename H into Hc end.
  destruct (container x) as [|[b|]]; [done..|]. destruct Hc; auto.
Qed.

Lemma taken_frame t v j :
  thread_ok kind_of t v -> v_taker v = Some j -> exists x, v_frame v = Some x /\ container x <> Unwritten.
Proof.
  intros Hv Et. unfold thread_ok in Hv.
  destruct (v_pc v); unfold with_waiter, idle in Hv; try (by destruct_and? Hv; congruence);
    destruct Hv as (x & Hx & Hv); exists x; (split; [done|]); intros Eu;
    unfold fiber_new, unqueued, pthread_done, pthread_asleep in Hv; rewrite ?Eu in Hv; destruct_and? Hv; try done.
  all: naive_solver.
Qed.

Lemma not_idle_published t v w : thread_ok kind_of t v -> v_cur v = Some w -> w = t /\ v_taker v = None.
Proof.
  intros Hv Ec. destruct (published_or_not t v Hv) as [[[E1 E2]|[E1 _]]|[E1 _]]; split; congruence.
Qed.

Lemma iexchange_ok s g a i t :
  Sim s g a -> pcs s i = IExchange t -> post a (interrupt i (IExchange t) s).
Proof.
  intros H Ep. thread H Ep Hi. destruct Hi as ((Hf & Hc & Hr & Hb & Htk & Hts) & Hs & Hk).
  cbn [interrupt]. destruct (version_lock (metas s t)) eqn:El; [done|].
  pose proof (S_threads _ _ _ _ H t) as Hv. set (m := fun m => _).
  apply (post_tau _ _ (mkGhost (by_ g) (match current_waiter (metas s t) with Some w => <[w := Some (i, false)]> (taker g) | None => taker g end) (task g))).
  assert (forall w, current_waiter (metas s t) = Some w -> w = t /\ taker g t = None /\ t <> i) as Hw.
  { intros w Ew. destruct (not_idle_published t _ w Hv Ew) as [-> Et]. split_and!; try done. intros ->. congruence. }
  destruct H as [H1 H2 H7 H3 H4 H5 H6]. split; try done.
  - intros u. cbn. destruct (decide (u = i)) as [->|Hu].
    + unfold view_of. cbn. rewrite at_it. view_goal. rewrite Hf, Hr, Hs, Hb, Hts.
      assert ((<[t:=m (metas s t)]> (metas s)) i = metas s i \/ current_waiter ((<[t:=m (metas s t)]> (metas s)) i) = None) as Hm.
      { destruct (decide (i = t)) as [->|]; [right; by rewrite at_it|left; by rewrite at_other]. }
      split_and!; try done.
      * destruct Hm as [->|]; done.
      * destruct (current_waiter (metas s t)) as [w|] eqn:Ew; [|done]. destruct (Hw w eq_refl) as (-> & _ & ?). by rewrite at_other.
      * destruct (current_waiter (metas s t)) as [w|] eqn:Ew; [|by left]. destruct (Hw w eq_refl) as (-> & _). by right.
    + specialize (H1 u). unfold view_of in *. cbn. rewrite at_other by done.
      destruct (decide (u = t)) as [->|Hut].
      * rewrite at_it. cbn. destruct (current_waiter (metas s t)) as [w|] eqn:Ew; [|done].
        destruct (Hw w eq_refl) as (-> & Et & _). rewrite at_it.
        eapply republish; [..|exact H1]; try done; unfold published, unpublished, flagged; cbn; try done; [|by intros []].
        right. split; [done|]. by exists (i, false).
      * rewrite at_other by done. destruct (current_waiter (metas s t)) as [w|] eqn:Ew; [|done].
        destruct (Hw w eq_refl) as (-> & Et & _). by rewrite at_other.
  - intros u. cbn. destruct (decide (u = t)) as [->|]; [rewrite at_it; apply H2|rewrite at_other by done; apply H2].
  - intros u Eu. cbn. destruct (decide (u = t)) as [->|]; [rewrite at_it; by apply (H7 t)|rewrite at_other by done; by apply H7].
  - eapply (Lists_pc s _ a a i (ISet t (current_waiter (metas s t))) H3); try done; by rewrite Ep.
  - apply (Wakers_pc s _ _ i (ISet t (current_waiter (metas s t))) H4); try done; by rewrite Ep.
  - destruct H5 as [T L]. split.
    + intros j w ph. cbn. destruct (decide (j = i)) as [->|Hj].
      * rewrite at_it. cbn. destruct (current_waiter (metas s t)) as [w'|] eqn:Ew.
        -- destruct (Hw w' eq_refl) as (-> & Et & _). destruct (decide (w = t)) as [->|]; [rewrite at_it; naive_solver|].
           rewrite at_other, <- T, Ep by done. cbn. naive_solver.
        -- rewrite <- T, Ep. done.
      * rewrite at_other by done. rewrite T. destruct (current_waiter (metas s t)) as [w'|] eqn:Ew; [|done].
        destruct (Hw w' eq_refl) as (-> & Et & _). destruct (decide (w = t)) as [->|]; [rewrite at_it, Et; split; congruence|].
        by rewrite at_other.
    + intros j u. cbn. destruct (decide (u = t)) as [->|Hu]; [rewrite at_it|rewrite at_other by done]; cbn.
      * destruct (decide (j = i)) as [->|Hj]; [rewrite at_it; done|rewrite at_other, <- L, El by done; split; congruence].
      * rewrite L. destruct (decide (j = i)) as [->|Hj]; [rewrite at_it, Ep; cbn; split; congruence|by rewrite at_other].
Qed.

(** [interrupted] is set; who took current_waiter has done so from now on. *)
Lemma iset_ok s g a i t w :
  Sim s g a -> pcs s i = ISet t w -> post a (interrupt i (ISet t w) s).
Proof.
  intros H Ep. thread H Ep Hi. destruct Hi as ((Hf & Hc & Hr & Hb & Htk & Hts) & Hs & Hk & Hw).
  cbn [interrupt]. set (m := fun m => _). pose proof (S_threads _ _ _ _ H t) as Hv.
  pose proof (S_pending _ _ _ _ H) as HP.
  assert (w <> None -> taker g t = Some (i, false)) as Htw.
  { intros Hn. destruct Hw as [->| ->]; [done|]. apply (T_taker _ _ _ _ (S_takers _ _ _ _ H)). by rewrite Ep. }
  assert (w <> None -> t <> i) as Hti by (intros Hn ->; rewrite Htw in Htk; done).
  set (a1 := with_status i (AReplying 0) (with_pending t true a)).
  set (p := match w with Some w => IErase t w ELoad | None => Out end).
  set (a2 := match w with Some _ => a1 | None => with_status i AOut a1 end).
  set (g' := mkGhost (by_ g) (match w with Some _ => <[t := Some (i, true)]> (taker g) | None => taker g end) (task g)).
  assert (astep kind_of a Tau a1) as Ha1 by (by eapply a_effect).
  assert (statuses a1 i = AReplying 0) as Ha1i by apply at_it.
  assert (Sim (at_pc i p (on_meta t m s)) g' a2) as K.
  { assert (forall u, u <> i -> statuses a2 u = statuses a u) as Hst.
    { intros u Hu. subst a2. destruct w; cbn; rewrite ?at_other by done; done. }
    assert (forall u, pending a2 u = if decide (u = t) then true else pending a u) as Hpe.
    { intros u. subst a2. destruct w; cbn; (case_decide; [subst; by rewrite at_it|by rewrite at_other]). }
    destruct H as [H1 H2 H7 H3 H4 H5 H6]. split; try done.
    - intros u. cbn. destruct (decide (u = i)) as [->|Hu].
      + assert (current_waiter ((<[t:=m (metas s t)]> (metas s)) i) = None) as Hm.
        { destruct (decide (i = t)) as [->|]; [by rewrite at_it|by rewrite at_other]. }
        assert (taker g' i = None) as Htk'.
        { cbn. destruct w; [|done]. rewrite at_other; [done|]. intros ->. by destruct Hti. }
        unfold view_of. cbn [pcs at_pc with_pcs frames metas on_meta with_metas ready by_ task]. rewrite at_it, Hm, Htk'. cbn [by_ task g'].
        rewrite Hf, Hr, Hb, Hts. subst p a2. destruct Hw as [->| ->]; view_goal; cbn; rewrite ?at_it; done.
      + specialize (H1 u). unfold view_of in *. cbn [pcs at_pc with_pcs frames metas on_meta with_metas ready by_ taker task g'].
        rewrite at_other, Hst by done. destruct (decide (u = t)) as [->|Hut].
        * rewrite at_it. cbn. eapply republish; [..|exact H1]; try done; destruct w as [w|]; try done.
          -- unfold published. cbn. rewrite at_it, Htw by done. intros [[? ?]|[? _]]; [done|]. right. eauto.
          -- unfold unpublished. cbn. rewrite Htw by done. by intros [].
        * rewrite at_other by done. destruct w; [rewrite at_other by done|]; done.
    - intros u. rewrite Hpe. cbn. destruct (decide (u = t)) as [->|]; [by rewrite at_it|rewrite at_other by done; apply H2].
    - intros u Eu. cbn. destruct (decide (u = t)) as [->|]; [done|rewrite at_other by done; by apply H7].
    - eapply (Lists_pc s _ a a2 i p H3); try done; subst p a2; destruct w; try done; by rewrite Ep.
    - apply (Wakers_pc s _ _ i p H4); try done. subst p. destruct w; by rewrite Ep.
    - destruct H5 as [T L]. split.
      + intros j u ph. cbn. destruct (decide (j = i)) as [->|Hj].
        * rewrite at_it. subst p. destruct Hw as [->| ->]; cbn.
          -- rewrite <- T, Ep. done.
          -- destruct (decide (u = t)) as [->|]; [rewrite at_it; naive_solver|].
             rewrite at_other, <- T, Ep by done. cbn. naive_solver.
        * rewrite at_other by done. rewrite T. destruct w as [w|]; [|done].
          destruct (decide (u = t)) as [->|]; [rewrite at_it, Htw by done; split; congruence|]. by rewrite at_other.
      + intros j u. cbn. destruct (decide (u = t)) as [->|Hu]; [rewrite at_it|rewrite at_other by done]; cbn.
        * split; [done|]. destruct (decide (j = i)) as [->|Hj]; [rewrite at_it; subst p; destruct w; done|].
          rewrite at_other by done. intros Ej. apply L in Ej. rewrite (proj2 (L i t)) in Ej by (by rewrite Ep). congruence.
        * rewrite L. destruct (decide (j = i)) as [->|Hj]; [rewrite at_it, Ep; subst p; cbn; destruct w; cbn; split; congruence|by rewrite at_other]. }
  subst p a2. destruct w as [w|].
  - by apply (post_tau1 _ a1 _ g').
  - eapply (post_label2 _ _ a1 _ _ g'); [done|done| |exact K]. by apply a_reply.
Qed.

(** A step of the one who interrupts that touches nothing but its own place. *)
Lemma ierase_goes_on s g a i t w e e' :
  Sim s g a -> pcs s i = IErase t w e -> e <> EWake -> e' <> EWake -> Sim (at_pc i (IErase t w e') s) g a.
Proof.
  intros H Ep He He'. thread H Ep Hi. pose proof (S_pending _ _ _ _ H i) as Hp.
  own i (IErase t w e'); try (by rewrite Ep); [rewrite Ep; by destruct e, e'|]. view_goal. done.
Qed.

Lemma ierase_ok s g a i t w e :
  Sim s g a -> pcs s i = IErase t w e -> post a (interrupt i (IErase t w e) s).
Proof.
  intros H Ep. thread H Ep Hi. destruct Hi as ((Hf & Hc & Hr & Hb & Htk & Hts) & Hs & ->).
  assert (taker g t = Some (i, true)) as Htt by (apply (T_taker _ _ _ _ (S_takers _ _ _ _ H)); by rewrite Ep).
  pose proof (S_threads _ _ _ _ H t) as Hv. pose proof (S_pending _ _ _ _ H i) as Hp.
  destruct (taken_frame t _ _ Hv Htt) as (x & Hx & Hxc). cbn in Hx.
  assert (t <> i) as Hti by (intros ->; congruence).
  cbn [interrupt]. destruct e as [|b|].
  - rewrite (erase_load _ _ _ _ x) by done. cbn [mbind outcome_bind].
    destruct (container x) as [|[b|]] eqn:Hcx; [done| |]; apply (post_tau _ _ g).
    + by apply (ierase_goes_on s g a i t t ELoad).
    + own i (IBack t t); try (by rewrite Ep). view_goal. done.
  - destruct (waiter_lock (butexes s b)) as [u|] eqn:El; [by rewrite (erase_section_locked _ _ _ _ _ u)|].
    destruct (decide (container x = At (Some b))) as [Hcx|Hcx].
    2:{ rewrite (erase_section_moved _ _ _ _ _ x) by done. cbn [mbind outcome_bind].
        apply (post_tau _ _ g). by apply (ierase_goes_on s g a i t t (ELock b)). }
    rewrite (erase_section _ _ _ Interrupted _ _ x) by auto. cbn [mbind outcome_bind].
    destruct (queued_thread t _ x b Hv Hx Hcx) as (timed & Hst & Hbt & _ & Hfl & _). cbn in Hst, Hbt.
    assert (interrupted (metas s t) = true) as Hit by by apply (Hfl i).
    eapply (post_tau1 _ (left_queue Interrupted t b timed a) _ (mkGhost (<[t := Some (Thr i)]> (by_ g)) (taker g) (task g))).
    { unfold left_queue. rewrite <- (release_eq Interrupted t a b timed Hst). eapply a_interrupted; [done|].
      by rewrite (S_pending _ _ _ _ H). }
    change (at_pc i (IErase t t EWake) (erased t b Interrupted x s)) with
      (with_callback (with_pcs (erased t b Interrupted x s) (<[i := IErase t t EWake]> (pcs s))) (callback s)).
    apply (erase_core s g a t x b Interrupted (Thr i) timed (<[i := IErase t t EWake]> (pcs s)) (callback s)); try done.
    + intros u. destruct (decide (u = i)) as [->|]; [by rewrite at_it, Ep|by rewrite at_other].
    + by rewrite at_other.
    + intros u Hu. unfold view_of. cbn. rewrite !(at_other _ t _ u) by done.
      destruct (decide (u = i)) as [->|Hui]; [rewrite at_it; view_goal; done|rewrite at_other by done; apply (S_threads _ _ _ _ H)].
    + destruct (S_wakers _ _ _ _ H) as [B N]. split.
      * intros y v. cbn. destruct (decide (y = Thr i)) as [->|Hy].
        -- cbn. rewrite at_it. cbn. destruct (decide (v = t)) as [->|Hvt]; [rewrite at_it; set_solver|rewrite at_other by done].
           rewrite <- (B (Thr i) v). cbn. rewrite Ep. set_solver.
        -- replace (todo _ y) with (todo s y) by (destruct y as [u|]; cbn; [rewrite at_other by congruence|]; done).
           rewrite (B y v). destruct (decide (v = t)) as [->|Hvt]; [rewrite at_it, Hbt; split; congruence|by rewrite at_other].
      * intros y. destruct (decide (y = Thr i)) as [->|Hy]; [cbn; rewrite at_it; apply NoDup_singleton|].
        replace (todo _ y) with (todo s y) by (destruct y as [u|]; cbn; [rewrite at_other by congruence|]; done). apply N.
    + apply (Takers_pc s _ g i (IErase t t EWake) (S_takers _ _ _ _ H)); try done; by rewrite Ep.
  - cbn [erase_from_butex]. rewrite (frame_eq _ _ _ Hx). cbn [mbind outcome_bind].
    assert (by_ g t = Some (Thr i)) as Hb' by (apply (W_by _ _ (S_wakers _ _ _ _ H) (Thr i)); cbn; rewrite Ep; set_solver).
    destruct (can_wake s g a t (Thr i) H Hb') as (x' & s1 & Hx' & Hs1 & Hcase). assert (x' = x) as -> by congruence.
    replace (match tid x with Some _ => ready_to_run t s | None => wakeup_pthread t s end) with (Go s1)
      by (destruct Hcase as [(_ & -> & ->)|(_ & -> & ->)]; done).
    cbn [mbind outcome_bind]. apply (post_tau _ _ (mkGhost (<[t := None]> (by_ g)) (taker g) (task g))).
    apply (wake_sim s g a i t s1 _ []); try done; try (by rewrite Ep).
Qed.

Lemma iback_ok s g a i t w :
  Sim s g a -> pcs s i = IBack t w -> post a (interrupt i (IBack t w) s).
Proof.
  intros H Ep. thread H Ep Hi. destruct Hi as ((Hf & Hc & Hr & Hb & Htk & Hts) & Hs & ->).
  cbn [interrupt]. destruct (version_lock (metas s t)) eqn:El; [done|].
  assert (taker g t = Some (i, true)) as Htt by (apply (T_taker _ _ _ _ (S_takers _ _ _ _ H)); by rewrite Ep).
  assert (t <> i) as Hti by (intros ->; congruence).
  set (g' := mkGhost (by_ g) (<[t := None]> (taker g)) (task g)).
  apply (post_label a _ (with_status i AOut a) _ g'); [done|by apply a_reply|].
  destruct H as [H1 H2 H7 H3 H4 H5 H6]. split; try done.
  - intros u. unfold view_of. cbn. destruct (decide (u = i)) as [->|Hu].
    + rewrite !at_it, !at_other by done. view_goal. by rewrite Hf, Hc, Hr, Hb, Htk, Hts.
    + rewrite !(at_other _ i _ u) by done. specialize (H1 u). unfold view_of in H1.
      destruct (decide (u = t)) as [->|Hut]; [|by rewrite !at_other].
      rewrite !at_it. cbn. eapply republish; [..|exact H1]; try done; unfold published, unpublished, flagged; cbn; try done.
      * intros _. by left.
      * rewrite Htt. by intros [].
  - intros u. cbn. destruct (decide (u = t)) as [->|]; [rewrite at_it; apply H2|rewrite at_other by done; apply H2].
  - intros u Eu. cbn. destruct (decide (u = t)) as [->|]; [rewrite at_it; by apply (H7 t)|rewrite at_other by done; by apply H7].
  - eapply (Lists_pc s _ a _ i Out H3); try done; by rewrite Ep.
  - apply (Wakers_pc s _ _ i Out H4); try done; by rewrite Ep.
  - destruct H5 as [T L]. split.
    + intros j u ph. cbn. destruct (decide (j = i)) as [->|Hj].
      * rewrite at_it. cbn. destruct (decide (u = t)) as [->|]; [by rewrite at_it|].
        rewrite at_other, <- T, Ep by done. cbn. naive_solver.
      * rewrite at_other by done. rewrite T.
        destruct (decide (u = t)) as [->|]; [rewrite at_it, Htt; split; congruence|]. by rewrite at_other.
    + intros j u. cbn. destruct (decide (u = t)) as [->|Hu]; [rewrite at_it; cbn|rewrite at_other by done]; rewrite L;
        (destruct (decide (j = i)) as [->|Hj]; [by rewrite at_it, Ep|by rewrite at_other]).
Qed.

(** ** The wake functions after their section *)

(** The timer of a waiter was stopped by who will wake it. *)
Lemma stopped_thread w v x y :
  thread_ok kind_of w v -> v_by v = Some y -> v_frame v = Some x -> kind_of w = Fiber ->
  thread_ok kind_of w (mkView (v_pc v) (Some (set_sleep_id 0 x)) (v_cur v) (v_intr v) (v_ready v) (v_status v)
                         (v_by v) (v_taker v) None).
Proof.
  intros Hv Hb Hf Hk. destruct (by_thread w v y Hv Hb) as (x' & Hf' & Hc & [(_ & Hti & Hp & Hr)|(? & _)]); [|done].
  assert (x' = x) as -> by congruence.
  unfold thread_ok in *. rewrite Hp in *. cbn. destruct Hv as (x2 & Hx2 & Hv). assert (x2 = x) as -> by congruence.
  destruct Hv as (Hfw & Hpub & Hfl & Htm & Hcc). exists (set_sleep_id 0 x). split; [done|]. by split_and!.
Qed.

Lemma unsleep_step_ok s g a t w l n :
  Sim s g a -> pcs s t = KDo (Unsleep w :: l) n -> post a (wake t (KDo (Unsleep w :: l) n) s).
Proof.
  intros H Ep. thread H Ep Ht. destruct Ht as ((Hf & Hc & Hr & Hb & Htk & Hts) & Hs & Hscr).
  cbn [script_ok] in Hscr. destruct Hscr as (Hk & Hin & Hscr).
  assert (by_ g w = Some (Thr t)) as Hbw by (apply (W_by _ _ (S_wakers _ _ _ _ H) (Thr t)); cbn; by rewrite Ep).
  assert (w <> t) as Hwt by (intros ->; congruence).
  destruct (by_thread w _ (Thr t) (S_threads _ _ _ _ H w) Hbw) as (x & Hfw & Hcx & [(_ & Hti & Hp & Hrw)|(? & _)]); [|done].
  cbn in Hfw, Hp. cbn [wake run_micro].
  destruct (unsleep_ok s g a w x H Hfw) as (r & -> & Hu).
  { intros id E. destruct (task_thread w _ id (S_threads _ _ _ _ H w) E) as (x' & Hx' & _ & _ & _ & Hid & _). cbn in Hx'. congruence. }
  cbn [mbind outcome_bind]. assert (Sim (at_pc t (KDo l n) s) g a) as K.
  { pose proof (S_pending _ _ _ _ H t) as Hpe. own t (KDo l n); try (by rewrite Ep). view_goal. done. }
  destruct Hu as [Hn|E0 Hn|ts HT]; cbn [snd]; [by apply (post_tau _ _ g)|by apply (post_tau _ _ g)|].
  apply (post_tau _ _ (mkGhost (by_ g) (taker g) (<[w := None]> (task g)))).
  destruct K as [H1 H2 H7 H3 H4 H5 H6]. split; try done.
  - intros u. specialize (H1 u). unfold view_of in *. cbn in *. destruct (decide (u = w)) as [->|Hu]; [|by rewrite !(at_other _ w _ u)].
    rewrite !at_it, (at_other _ t) by done. rewrite at_other in H1 by done. by apply (stopped_thread w _ x (Thr t) H1).
  - eapply Lists_ext; [exact H3|done| |done..]. intros u. cbn.
    destruct (decide (u = w)) as [->|Hu]; [rewrite at_it, Hfw; done|by rewrite at_other].
  - cbn. eapply Tasks_ext; [exact HT|done..|]. intros u.
    destruct (decide (u = w)) as [->|Hu]; [rewrite at_it; by right|left; by rewrite at_other].
Qed.

Lemma kdo_ok s g a t l n : Sim s g a -> pcs s t = KDo l n -> post a (wake t (KDo l n) s).
Proof.
  intros H Ep. thread H Ep Ht. destruct Ht as ((Hf & Hc & Hr & Hb & Htk & Hts) & Hs & Hscr).
  pose proof (S_pending _ _ _ _ H t) as Hpe.
  destruct l as [|[w|w|w] l].
  - cbn [wake]. apply (post_label a _ (with_status t AOut a) _ g); [done|by apply a_reply|].
    own t Out; try (by rewrite Ep). view_goal. done.
  - assert (by_ g w = Some (Thr t)) as Hbw by (apply (W_by _ _ (S_wakers _ _ _ _ H) (Thr t)); cbn; rewrite Ep; set_solver).
    destruct Hscr as [Hk Hscr]. destruct (can_wake s g a w (Thr t) H Hbw) as (x & s1 & Hx & Hs1 & [(? & _)|(_ & _ & E)]); [done|].
    cbn [wake run_micro]. rewrite E. cbn [mbind outcome_bind].
    apply (post_tau _ _ (mkGhost (<[w := None]> (by_ g)) (taker g) (task g))).
    by apply (wake_sim s g a t w s1 _ (omap todo_micro l)); rewrite ?Ep.
  - by apply (unsleep_step_ok s g).
  - assert (by_ g w = Some (Thr t)) as Hbw by (apply (W_by _ _ (S_wakers _ _ _ _ H) (Thr t)); cbn; rewrite Ep; set_solver).
    destruct Hscr as [Hk Hscr]. destruct (can_wake s g a w (Thr t) H Hbw) as (x & s1 & Hx & Hs1 & [(_ & _ & E)|(? & _)]); [|done].
    cbn [wake run_micro]. rewrite (frame_eq _ _ _ Hx). cbn [mbind outcome_bind]. rewrite E. cbn [mbind outcome_bind].
    apply (post_tau _ _ (mkGhost (<[w := None]> (by_ g)) (taker g) (task g))).
    by apply (wake_sim s g a t w s1 _ (omap todo_micro l)); rewrite ?Ep.
Qed.

(** ** The sections of the wake functions *)

Lemma section_sim s g a t o b (l kept : list nat) script n f :
  Sim s g a -> pcs s t = KLock o -> waiter_lock (butexes s b) = None ->
  NoDup kept -> (forall w, w ∈ kept <-> w ∈ waiters (butexes s b) /\ w ∉ l) -> (forall w, w ∈ l -> w ∈ waiters (butexes s b)) ->
  omap todo_micro script ≡ₚ l -> NoDup l -> script_ok kind_of script ->
  (forall w, f w = if decide (w ∈ l) then set_container (At None) <$> frames s w else frames s w) ->
  Sim (at_pc t (KDo script n) (with_frames (on_butex b (set_waiters kept) s) f))
      (mkGhost (fun w => if decide (w ∈ l) then Some (Thr t) else by_ g w) (taker g) (task g))
      (with_status t (AReplying n) (release_all Woken l (with_queue b kept a))).
Proof.
  intros H Ep El Hnk Hk Hin Hsc Hnl Hok Hf. thread H Ep Ht. destruct Ht as ((Hft & Hc & Hr & Hb & Htk & Hts) & Hs & Ho).
  pose proof (S_lists _ _ _ _ H) as HL.
  assert (t ∉ l) as Htl.
  { intros Hl. apply Hin, (L_at _ _ _ _ _ HL) in Hl. cbn in Hl. by rewrite Hft in Hl. }
  destruct (release_all_spec Woken l (with_queue b kept a)) as (R1 & R2 & R3 & R4).
  eapply (Sim_dequeue s _ g _ a _ b l Woken (Thr t)); try done; cbn.
  - intros w Hw. rewrite Hf, decide_True by done. destruct (frames s w); done.
  - intros w Hw. by rewrite Hf, decide_False.
  - by rewrite at_it.
  - intros b' Hb'. by rewrite at_other.
  - intros u. destruct (decide (u = t)) as [->|]; [by rewrite at_it, Ep|by rewrite at_other].
  - intros w Hw. rewrite at_other; [done|]. by intros ->.
  - intros w timed Hw Hst. rewrite at_other by (by intros ->). rewrite R4, decide_True by done. cbn. by rewrite Hst.
  - rewrite R1. cbn. by rewrite !at_it.
  - intros b' Hb'. rewrite R1. cbn. by rewrite at_other.
  - intros b'. by rewrite R2.
  - intros u. by rewrite R3.
  - intros w Hw. by rewrite decide_True.
  - intros u Hu. unfold view_of. cbn. rewrite Hf, !(decide_False (P := u ∈ l)) by done.
    destruct (decide (u = t)) as [->|Hut].
    + rewrite !at_it. view_goal. done.
    + rewrite !at_other by done. rewrite R4, decide_False by done. apply (S_threads _ _ _ _ H).
  - destruct (S_wakers _ _ _ _ H) as [B N]. split.
    + intros y v. cbn. destruct (decide (y = Thr t)) as [->|Hy].
      * cbn. rewrite at_it. cbn. rewrite Hsc. destruct (decide (v ∈ l)); [done|]. rewrite <- (B (Thr t) v). cbn. rewrite Ep. set_solver.
      * replace (todo _ y) with (todo s y) by (destruct y as [u|]; cbn; [rewrite at_other by congruence|]; done).
        destruct (decide (v ∈ l)) as [Hv|Hv]; [|apply B]. split; [|congruence]. intros Hy'. apply B in Hy'.
        apply Hin, (L_at _ _ _ _ _ HL) in Hv. cbn in Hv.
        destruct (by_thread v _ y (S_threads _ _ _ _ H v) Hy') as (x & Hx & Hcx & _). cbn in Hx. rewrite Hx in Hv. cbn in Hv.
        by rewrite Hcx in Hv.
    + intros y. destruct (decide (y = Thr t)) as [->|Hy]; [cbn; rewrite at_it; cbn; by rewrite Hsc|].
      replace (todo _ y) with (todo s y) by (destruct y as [u|]; cbn; [rewrite at_other by congruence|]; done). apply N.
  - apply (Takers_pc s (at_pc t (KDo script n) s) g t (KDo script n) (S_takers _ _ _ _ H)); try done; by rewrite Ep.
Qed.

(** A section after which there is nothing left to do returns. *)
Lemma section_post s' g' a a1 t script n :
  astep kind_of a Tau (with_status t (AReplying n) a1) ->
  Sim (at_pc t (KDo script n) s') g' (with_status t (AReplying n) a1) ->
  post a match script with [] => Go (Return t n, at_pc t Out s') | l => go t (KDo l n) s' end.
Proof.
  intros Ha H. destruct script as [|m script]; [|by eapply post_tau1].
  assert (pcs (at_pc t (KDo [] n) s') t = KDo [] n) as Ep by apply at_it.
  thread H Ep Ht. destruct Ht as ((Hft & Hc & Hr & Hb & Htk & Hts) & _). pose proof (S_pending _ _ _ _ H t) as Hp.
  eapply (post_label2 _ _ _ (with_status t AOut (with_status t (AReplying n) a1)) _ g'); [done|exact Ha|apply a_reply; apply at_it|].
  assert (Sim (at_pc t Out (at_pc t (KDo [] n) s')) g' (with_status t AOut (with_status t (AReplying n) a1))) as K.
  { own t Out; rewrite ?at_it; try done. by rewrite Ep. }
  eapply Sim_ext; [exact K|done..| |done|done|done]. intros u. cbn.
  destruct (decide (u = t)) as [->|]; [by rewrite !at_it|by rewrite !at_other].
Qed.

(** ** Which waiters are woken *)

(** tid of a waiter in a list. *)
Lemma tid_queued s g a w b : Sim s g a -> w ∈ waiters (butexes s b) ->
  tid_of s w = (if decide (kind_of w = Fiber) then Some w else None) /\ frames s w <> None.
Proof.
  intros H Hw. apply (L_at _ _ _ _ _ (S_lists _ _ _ _ H)) in Hw. cbn in Hw. pose proof (S_threads _ _ _ _ H w) as Hv.
  unfold tid_of. destruct (frames s w) as [x|] eqn:Ef; [|done]. split; [|done].
  assert (container x = At (Some b)) as Hc by (cbn in Hw; destruct (container x); congruence).
  destruct (queued_thread w _ x b Hv Ef Hc) as (_ & _ & _ & _ & _ & _ & Hp). unfold thread_ok in Hv.
  destruct Hp as [[e Hp]|[Hp|[Hp Hn]]].
  - rewrite Hp in Hv. destruct Hv as (y & Hy & [Hk Ht] & _). cbn in Hy. rewrite Ef in Hy. injection Hy as <-. by rewrite decide_True.
  - rewrite Hp in Hv. destruct Hv as (y & Hy & [Hk Ht] & _). cbn in Hy. rewrite Ef in Hy. injection Hy as <-. by rewrite decide_True.
  - assert (exists timed, pthread_asleep kind_of w x (view_of s g a w) timed) as (timed & (Hk & Ht & _) & _).
    { destruct (v_pc (view_of s g a w)); try done; destruct Hv as (y & Hy & Hv); cbn in Hy; rewrite Ef in Hy; injection Hy as <-;
        (eexists; first [exact Hv|exact (proj1 Hv)]). }
    by rewrite decide_False.
Qed.

(** A script: every waiter is woken once, and only fibers are put in a run queue. *)
Definition wakes (script : list micro) (l : list nat) : Prop :=
  omap todo_micro script ≡ₚ l /\ script_ok kind_of script.

Lemma omap_signal (l : list nat) : omap todo_micro (map Signal l) = l.
Proof. induction l as [|x l IH]; [done|]. cbn. by rewrite IH. Qed.

Lemma omap_make_ready (l : list nat) : omap todo_micro (concat (map unsleep_and_make_ready l)) = l.
Proof. induction l as [|x l IH]; [done|]. cbn. by rewrite IH. Qed.

Lemma script_ok_app l k : script_ok kind_of l -> script_ok kind_of k -> script_ok kind_of (l ++ k).
Proof.
  induction l as [|[w|w|w] l IH]; [done|..]; cbn.
  - intros [? ?] ?. auto.
  - intros (? & ? & ?) ?. split; [done|]. split; [|auto]. rewrite omap_app. set_solver.
  - intros [? ?] ?. auto.
Qed.

Lemma script_signals l : Forall (fun w => kind_of w <> Fiber) l -> script_ok kind_of (map Signal l).
Proof. by induction 1. Qed.

Lemma script_make_ready l : Forall (fun w => kind_of w = Fiber) l -> script_ok kind_of (concat (map unsleep_and_make_ready l)).
Proof. induction 1; [done|]. cbn. split_and!; try done. set_solver. Qed.

Section Scripts.
Context (s : state) (l : list nat).
Hypothesis tids : forall w, w ∈ l -> tid_of s w = (if decide (kind_of w = Fiber) then Some w else None).

Lemma fiber_waiters_eq : fiber_waiters s l = filter (fun w => kind_of w = Fiber) l.
Proof.
  apply filter_in_ext. intros w Hw. rewrite (tids w Hw). by case_decide.
Qed.

Lemma pthread_waiters_eq : pthread_waiters s l = filter (fun w => ~ kind_of w = Fiber) l.
Proof.
  apply filter_in_ext. intros w Hw. rewrite (tids w Hw). by case_decide.
Qed.

Lemma all_waiters : pthread_waiters s l ++ fiber_waiters s l ≡ₚ l.
Proof. rewrite fiber_waiters_eq, pthread_waiters_eq. rewrite Permutation_app_comm. apply filter_split. Qed.

Lemma fibers_are : Forall (fun w => kind_of w = Fiber) (fiber_waiters s l).
Proof. rewrite fiber_waiters_eq, Forall_forall. intros w Hw. by apply list_elem_of_filter in Hw as []. Qed.

Lemma pthreads_are : Forall (fun w => kind_of w <> Fiber) (pthread_waiters s l).
Proof. rewrite pthread_waiters_eq, Forall_forall. intros w Hw. by apply list_elem_of_filter in Hw as []. Qed.

Lemma wake_all_wakes : wakes (wake_all_script s l) l.
Proof.
  unfold wake_all_script. pose proof all_waiters as Ha. pose proof fibers_are as Hf. pose proof (script_signals _ pthreads_are) as Hp.
  destruct (fiber_waiters s l) as [|next rest].
  - split; rewrite app_nil_r in *; [by rewrite omap_signal|done].
  - inversion Hf as [|? ? Hn Hr]; subst. assert (Forall (fun w => kind_of w = Fiber) (rev rest)) as Hrr.
    { by apply List.Forall_rev. }
    split.
    + rewrite omap_app, omap_signal. cbn. rewrite omap_app, omap_make_ready. cbn. rewrite <- Ha at 2. f_equiv.
      rewrite Permutation_app_comm. cbn. f_equiv. symmetry. apply Permutation_rev.
    + apply script_ok_app; [done|]. cbn. split; [done|]. split; [rewrite omap_app; set_solver|].
      apply script_ok_app; [by apply script_make_ready|done].
Qed.

Lemma wake_except_wakes : wakes (wake_except_script s l) l.
Proof.
  unfold wake_except_script. pose proof all_waiters as Ha. split.
  - rewrite omap_app, omap_signal, omap_make_ready. etrans; [|exact Ha]. f_equiv. symmetry. apply Permutation_rev.
  - apply script_ok_app; [apply script_signals, pthreads_are|]. apply script_make_ready.
    apply List.Forall_rev, fibers_are.
Qed.
End Scripts.

Lemma wake_front_wakes s w : tid_of s w = (if decide (kind_of w = Fiber) then Some w else None) -> wakes (wake_front s w) [w].
Proof. intros E. unfold wake_front. rewrite E. case_decide; cbn; split; cbn; try done. split_and!; try done. set_solver. Qed.

End Wakes.
End ButexWakes.
