(* ===== verification/ButexRefines.v ===== *)
(** * ButexRefines: butex.cc does what ButexSpec says

    The sections of the wake functions, then every step, every state that is
    reached and every trace.  At the end, executions that show what the
    specification has to allow. *)

From stdpp Require Import functions.
From S2P Require Import Prelude ButexSpec Butex ButexInv ButexSteps ButexWakes.

Module ButexRefines.
Import ButexSpec Butex ButexInv ButexSteps ButexWakes.

(** ** Waiters that move *)

Lemma move_all_spec m l a :
  queue (move_all m l a) = queue a /\ avalue (move_all m l a) = avalue a /\ pending (move_all m l a) = pending a /\
  forall u, statuses (move_all m l a) u =
    match statuses a u with
    | AQueued b timed => AQueued (if decide (u ∈ l) then m else b) timed
    | x => x
    end.
Proof.
  induction l as [|w l (E1 & E2 & E3 & E4)]; [cbn; split_and!; try done; intros u; by destruct (statuses a u)|].
  change (move_all m (w :: l) a) with (move m w (move_all m l a)). unfold move. pose proof (E4 w) as Ew.
  assert (forall u, u <> w -> statuses (move_all m l a) u =
    match statuses a u with AQueued b timed => AQueued (if decide (u ∈ w :: l) then m else b) timed | x => x end) as K.
  { intros u Hu. rewrite E4. destruct (statuses a u); try done. f_equal.
    destruct (decide (u ∈ l)), (decide (u ∈ w :: l)); set_solver. }
  destruct (statuses (move_all m l a) w) eqn:Es; (split_and!; [done..|]); intros u; cbn;
    (destruct (decide (u = w)) as [->|Hu]; [rewrite ?at_it|rewrite ?at_other by done; by apply K]).
  all: destruct (statuses a w); try congruence.
  injection Ew as -> ->. by rewrite decide_True by set_solver.
Qed.

Lemma requeue_same a b m w l : b <> m -> forall t n u,
  let a1 := with_status t (AReplying n) (release Woken w (move_all m l (with_queue m (queue a m ++ l) (with_queue b [] a)))) in
  let a2 := with_status t (AReplying n) (release_all Woken [w] (with_queue b []
              (move_all m l (with_queue b [w] (with_queue m (queue a m ++ l) a))))) in
  avalue a1 u = avalue a2 u /\ queue a1 u = queue a2 u /\ statuses a1 u = statuses a2 u /\ pending a1 u = pending a2 u.
Proof.
  intros Hbm t n u. change (release Woken w ?x) with (release_all Woken [w] x). cbv zeta.
  set (x1 := move_all m l (with_queue m _ _)). set (x2 := move_all m l (with_queue b _ _)).
  destruct (release_all_spec Woken [w] x1) as (P1 & P2 & P3 & P4).
  destruct (release_all_spec Woken [w] (with_queue b [] x2)) as (Q1 & Q2 & Q3 & Q4).
  unfold with_status. cbn [avalue queue statuses pending]. rewrite P1, P2, P3, Q1, Q2, Q3. subst x1 x2.
  destruct (move_all_spec m l (with_queue m (queue a m ++ l) (with_queue b [] a))) as (A1 & A2 & A3 & A4).
  destruct (move_all_spec m l (with_queue b [w] (with_queue m (queue a m ++ l) a))) as (B1 & B2 & B3 & B4).
  cbn [with_queue avalue queue statuses pending] in *. rewrite A1, A2, A3, B1, B2, B3. split_and!; try done.
  - destruct (decide (u = b)) as [->|]; rewrite ?at_it, ?at_other by done; rewrite ?at_it, ?at_other by done; [by rewrite ?at_it|].
    destruct (decide (u = m)) as [->|]; rewrite ?at_it, ?at_other by done; by rewrite ?at_it, ?at_other by done.
  - destruct (decide (u = t)) as [->|]; rewrite ?at_it, ?at_other by done; [by rewrite ?at_it|].
    rewrite ?at_other by done. by rewrite P4, Q4, A4, B4.
Qed.

Section Refines.
Context {kind_of : nat -> kind}.

Local Abbreviation Sim := (Sim kind_of).
Local Abbreviation step := (step kind_of (At None)).
Local Abbreviation post := (post kind_of).

(** ** The sections of butex_wake, butex_wake_all and butex_wake_except *)

Lemma nothing_ok s g a t o :
  Sim s g a -> pcs s t = KLock o -> effect kind_of o a = Some (0, a) -> post a (Go (Return t 0, at_pc t Out s)).
Proof.
  intros H Ep He. thread H Ep Ht. destruct Ht as (Hi & Hs & _). pose proof (S_pending _ _ _ _ H t) as Hp.
  eapply (post_label2 _ _ _ (with_status t AOut (with_status t (AReplying 0) a)) _ g);
    [done|by eapply a_effect|apply a_reply; apply at_it|].
  own t Out; try (by rewrite Ep). view_goal. done.
Qed.

Lemma take_out_ok s g a t o b l kept script n :
  Sim s g a -> pcs s t = KLock o -> waiter_lock (butexes s b) = None ->
  NoDup kept -> (forall w, w ∈ kept <-> w ∈ waiters (butexes s b) /\ w ∉ l) ->
  (forall w, w ∈ l -> w ∈ waiters (butexes s b)) -> NoDup l -> wakes (kind_of := kind_of) script l ->
  effect kind_of o a = Some (n, release_all Woken l (with_queue b kept a)) ->
  post a (r ← (s' ← detach_all None l (on_butex b (set_waiters kept) s); Go (script, n, s'));
          let '(k, m, s') := r in
          match k with [] => Go (Return t m, at_pc t Out s') | k => go t (KDo k m) s' end).
Proof.
  intros H Ep El Hn Hk Hin Hnl [Hsc Hok] He. thread H Ep Ht. destruct Ht as (_ & Hs & _).
  destruct (detach_all_frames None l (on_butex b (set_waiters kept) s)) as (f & -> & Hf).
  { intros w Hw. apply Hin in Hw. apply (tid_queued s g a w b H) in Hw. apply Hw. }
  cbn [mbind outcome_bind]. eapply section_post; [by eapply a_effect|].
  by eapply section_sim.
Qed.

Lemma queue_free s g a b : Sim s g a -> waiter_lock (butexes s b) = None -> queue a b = waiters (butexes s b).
Proof. intros H E. rewrite (L_queue _ _ _ _ _ (S_lists _ _ _ _ H)), E. by rewrite app_nil_r. Qed.

Lemma klock_wake_ok s g a t b : Sim s g a -> pcs s t = KLock (Wake b) -> post a (wake t (KLock (Wake b)) s).
Proof.
  intros H Ep. cbn [wake wake_section]. unfold locked. destruct (waiter_lock (butexes s b)) eqn:El; [done|].
  pose proof (queue_free s g a b H El) as Eq. pose proof (L_nodup _ _ _ _ _ (S_lists _ _ _ _ H) b) as Hn.
  destruct (waiters (butexes s b)) as [|w l] eqn:Ew.
  - apply (nothing_ok s g a t (Wake b)); try done. cbn. by rewrite Eq.
  - apply NoDup_cons in Hn as [Hw Hl].
    eapply (take_out_ok s g a t (Wake b) b [w] l (wake_front s w) 1) in H as K; try done.
    + cbn [detach_all] in K. by destruct (detach None w _).
    + intros u. rewrite Ew. set_solver.
    + intros u. rewrite Ew. set_solver.
    + apply NoDup_singleton.
    + apply wake_front_wakes. apply (tid_queued s g a w b H). rewrite Ew. set_solver.
    + cbn. by rewrite Eq.
Qed.

Lemma tids_queued s g a (l : list nat) b : Sim s g a -> (forall w, w ∈ l -> w ∈ waiters (butexes s b)) ->
  forall w, w ∈ l -> tid_of s w = (if decide (kind_of w = Fiber) then Some w else None).
Proof. intros H Hl w Hw. by apply (tid_queued s g a w b H), Hl. Qed.

Lemma klock_wake_all_ok s g a t b : Sim s g a -> pcs s t = KLock (WakeAll b) -> post a (wake t (KLock (WakeAll b)) s).
Proof.
  intros H Ep. cbn [wake wake_section]. unfold locked. destruct (waiter_lock (butexes s b)) eqn:El; [done|].
  eapply (take_out_ok s g a t (WakeAll b) b); try done.
  - apply NoDup_nil. done.
  - set_solver.
  - apply H.
  - eapply wake_all_wakes, (tids_queued s g a _ b); done.
  - cbn. by rewrite (queue_free s g a b H El).
Qed.

Lemma spared_eq s g a b excluded w : Sim s g a -> w ∈ waiters (butexes s b) ->
  is_excluded s excluded w <-> kind_of w = Fiber /\ excluded = Some w.
Proof.
  intros H Hw. unfold is_excluded. destruct (tid_queued s g a w b H Hw) as [-> _]. case_decide; naive_solver.
Qed.

Lemma klock_wake_except_ok s g a t b e :
  Sim s g a -> pcs s t = KLock (WakeExcept b e) -> post a (wake t (KLock (WakeExcept b e)) s).
Proof.
  intros H Ep. cbn [wake wake_section]. unfold locked. destruct (waiter_lock (butexes s b)) eqn:El; [done|].
  pose proof (L_nodup _ _ _ _ _ (S_lists _ _ _ _ H) b) as Hn.
  assert (forall w, w ∈ filter (fun w => ~ is_excluded s e w) (waiters (butexes s b)) -> w ∈ waiters (butexes s b)) as Hin.
  { intros w Hw. by apply list_elem_of_filter in Hw as []. }
  eapply (take_out_ok s g a t (WakeExcept b e) b); try done.
  - by apply NoDup_filter.
  - intros w. rewrite !list_elem_of_filter. destruct (decide (is_excluded s e w)); naive_solver.
  - by apply NoDup_filter.
  - by eapply wake_except_wakes, (tids_queued s g a _ b).
  - cbn. rewrite (queue_free s g a b H El).
    assert (forall w, w ∈ waiters (butexes s b) -> is_excluded s e w <-> kind_of w = Fiber /\ e = Some w) as Hsp.
    { intros w. by apply (spared_eq s g a). }
    rewrite (filter_in_ext (fun w => ~ is_excluded s e w) (fun w => ~ (kind_of w = Fiber /\ e = Some w))) by (intros w Hw; by rewrite (Hsp w Hw)).
    rewrite (filter_in_ext (is_excluded s e) (fun w => kind_of w = Fiber /\ e = Some w)) by (intros w Hw; by rewrite (Hsp w Hw)). done.
Qed.

(** ** The section of butex_requeue *)

(** The specification does not tell states apart that have the same contents. *)
Lemma Sim_spec_ext s g a a' :
  Sim s g a -> (forall b, avalue a' b = avalue a b) -> (forall b, queue a' b = queue a b) ->
  (forall t, statuses a' t = statuses a t) -> (forall t, pending a' t = pending a t) -> Sim s g a'.
Proof.
  intros [H1 H2 H7 H3 H4 H5 H6] Ev Eq Es Ep. split; try done.
  - intros t. specialize (H1 t). unfold view_of in *. by rewrite Es.
  - intros t. by rewrite Ep.
  - by eapply Lists_ext.
Qed.

Lemma moved_thread w v x b m timed :
  thread_ok kind_of w v -> v_frame v = Some x -> container x = At (Some b) -> v_status v = AQueued b timed ->
  (forall e, v_pc v <> FStop b e) ->
  thread_ok kind_of w (mkView (v_pc v) (Some (set_container (At (Some m)) x)) (v_cur v) (v_intr v) (v_ready v)
                         (AQueued m timed) (v_by v) (v_taker v) (v_task v)).
Proof.
  intros Hv Ef Ec Hs Hnf. destruct (queued_thread w v x b Hv Ef Ec) as (timed' & Hs' & Hb & Hr & _ & Ht & Hp).
  destruct Hp as [[e Hp]|[Hp|[Hp Hn]]]; [by destruct (Hnf e)| |].
  - unfold thread_ok in *. rewrite Hp in *. cbn. destruct Hv as (x' & Hx' & Hv). rewrite Ef in Hx'. injection Hx' as <-.
    destruct Hv as ((Hk & Hx) & Hpub & Hfl & Htm & Hcc). rewrite Ec in Hcc. destruct Hcc as (Hs2 & Hw & _ & _).
    assert (abstime x = timed) as <- by congruence.
    eexists. split; [done|]. unfold fiber_waiter, timed_by. cbn. done.
  - eapply (pthread_wait_update w v _ x); [exact Hp|done|exact Ef|done|done| |exact Hv].
    intros timed1 (Hpw & Hpub & Hfl & timed0 & Ht0 & Hcc). rewrite Ec in Hcc. destruct Hcc as (Hs2 & Hsig & Hb2).
    assert (timed0 = timed) as -> by congruence. split_and!; try done. exists timed. done.
Qed.

(** All but the first waiter go to [m]. *)
Lemma Sim_move s g a b m w l f :
  Sim s g a -> b <> m -> waiter_lock (butexes s b) = None -> waiter_lock (butexes s m) = None ->
  waiters (butexes s b) = w :: l ->
  (forall u, f u = if decide (u ∈ l) then set_container (At (Some m)) <$> frames s u else frames s u) ->
  Sim (with_frames (on_butex b (set_waiters [w]) (on_butex m (fun x => set_waiters (waiters x ++ l) x) s)) f) g
      (move_all m l (with_queue b [w] (with_queue m (queue a m ++ l) a))).
Proof.
  intros H Hbm Eb Em Ew Hf. pose proof (S_lists _ _ _ _ H) as HL.
  destruct (move_all_spec m l (with_queue b [w] (with_queue m (queue a m ++ l) a))) as (R1 & R2 & R3 & R4).
  assert (forall u, u ∈ l -> exists x, frames s u = Some x /\ container x = At (Some b)) as Hx.
  { intros u Hu. assert (u ∈ waiters (butexes s b)) as Hub by (rewrite Ew; set_solver).
    apply (L_at _ _ _ _ _ HL) in Hub. cbn in Hub. destruct (frames s u) as [x|]; [|done].
    exists x. split; [done|]. cbn in Hub. destruct (container x); [done|]. congruence. }
  pose proof (L_nodup _ _ _ _ _ HL b) as Hn. rewrite Ew in Hn. apply NoDup_cons in Hn as [Hwl Hn].
  assert (forall u, queued_at (f u) = if decide (u ∈ l) then Some m else queued_at (frames s u)) as Hqa.
  { intros u. rewrite Hf. destruct (decide (u ∈ l)) as [Hu|]; [|done]. by destruct (Hx u Hu) as (x & -> & _). }
  split; try apply H.
  - intros u. pose proof (S_threads _ _ _ _ H u) as Hv. unfold view_of. cbn. rewrite Hf, R4. cbn.
    destruct (decide (u ∈ l)) as [Hu|Hu].
    + destruct (Hx u Hu) as (x & Hxf & Hxc). destruct (queued_thread u _ x b Hv Hxf Hxc) as (timed & Hs & _).
      cbn in Hs. rewrite Hs, Hxf. apply (moved_thread u (view_of s g a u) x b m timed); try done.
      intros e Hfs. cbn in Hfs. assert (waiter_lock (butexes s b) = Some u) by (apply HL; by rewrite Hfs). congruence.
    + replace (match statuses a u with AQueued b0 timed => AQueued b0 timed | x => x end) with (statuses a u)
        by (by destruct (statuses a u)). exact Hv.
  - intros u. rewrite R3. apply (S_pending _ _ _ _ H).
  - cbn. split; intros b'.
    + rewrite R2. cbn. rewrite (L_value _ _ _ _ _ HL b'). unfold on_butex. cbn.
      destruct (decide (b' = b)) as [->|]; rewrite ?at_it, ?at_other by done; [done|].
      destruct (decide (b' = m)) as [->|]; rewrite ?at_it, ?at_other by done; done.
    + rewrite R1. cbn. destruct (decide (b' = b)) as [->|]; rewrite ?at_it, ?at_other by done; cbn.
      * by rewrite Eb.
      * destruct (decide (b' = m)) as [->|]; rewrite ?at_it, ?at_other by done; cbn; [|apply HL].
        rewrite !at_it. cbn. rewrite Em, app_nil_r. by rewrite (queue_free s g a m H Em).
    + destruct (decide (b' = b)) as [->|]; rewrite ?at_it, ?at_other by done; cbn; [apply NoDup_singleton|].
      destruct (decide (b' = m)) as [->|]; rewrite ?at_it, ?at_other by done; cbn; [|apply HL].
      apply NoDup_app. split; [apply HL|]. split; [|done]. intros u Hu Hu2. destruct (Hx u Hu2) as (x & Hxf & Hxc).
      apply (L_at _ _ _ _ _ HL) in Hu. cbn in Hu. rewrite Hxf in Hu. cbn in Hu. rewrite Hxc in Hu. congruence.
    + intros u. rewrite Hqa. pose proof (L_at _ _ _ _ _ HL b' u) as A. pose proof (L_at _ _ _ _ _ HL b u) as Ab. rewrite Ew in Ab.
      cbn in A, Ab. destruct (decide (b' = b)) as [->|]; rewrite ?at_it, ?at_other by done; cbn.
      * destruct (decide (u ∈ l)) as [Hu|Hu]; [|rewrite <- Ab; set_solver]. split; [|congruence].
        intros Huw. apply list_elem_of_singleton in Huw as ->. done.
      * destruct (decide (b' = m)) as [->|]; rewrite ?at_it, ?at_other by done; cbn.
        -- rewrite elem_of_app, A. destruct (decide (u ∈ l)); naive_solver.
        -- rewrite A. destruct (decide (u ∈ l)) as [Hu|]; [|done]. destruct (Hx u Hu) as (x & Hxf & Hxc).
           rewrite Hxf. cbn. rewrite Hxc. split; congruence.
    + intros u. rewrite <- (L_lock _ _ _ _ _ HL b' u).
      destruct (decide (b' = b)) as [->|]; rewrite ?at_it, ?at_other by done; cbn; [done|].
      by destruct (decide (b' = m)) as [->|]; rewrite ?at_it, ?at_other by done.
  - eapply Tasks_ext; [apply H|done..|]. intros u. left. cbn. rewrite Hf. destruct (decide (u ∈ l)) as [Hu|]; [|done].
    by destruct (Hx u Hu) as (x & -> & _).
Qed.

Lemma klock_requeue_ok s g a t b m :
  Sim s g a -> pcs s t = KLock (Requeue b m) -> post a (wake t (KLock (Requeue b m)) s).
Proof.
  intros H Ep. cbn [wake wake_section]. destruct (decide (b = m)) as [|Hbm]; [done|]. unfold locked.
  destruct (waiter_lock (butexes s b)) eqn:Eb; [done|]. destruct (waiter_lock (butexes s m)) eqn:Em; [done|].
  thread H Ep Ht. destruct Ht as (_ & Hs & _). pose proof (queue_free s g a b H Eb) as Eq.
  pose proof (L_nodup _ _ _ _ _ (S_lists _ _ _ _ H) b) as Hn. pose proof (tid_queued (kind_of := kind_of) s g a) as Htid.
  destruct (waiters (butexes s b)) as [|w l] eqn:Ew.
  { apply (nothing_ok s g a t (Requeue b m)); try done. cbn. by rewrite decide_False, Eq. }
  apply NoDup_cons in Hn as [Hwl Hn].
  assert (forall u, u ∈ w :: l -> frames s u <> None) as Hfr.
  { intros u Hu. apply (Htid u b H). by rewrite Ew. }
  assert (wakes (kind_of := kind_of) (wake_front s w) [w]) as [Hsc Hok].
  { apply wake_front_wakes, (Htid w b H). rewrite Ew. set_solver. }
  destruct (frames s w) as [x|] eqn:Ex; [|by destruct (Hfr w); [set_solver|]].
  unfold detach. rewrite (on_frame_eq _ _ _ x) by done. cbn [mbind outcome_bind].
  edestruct (detach_all_frames (Some m) l) as (f & -> & Hf).
  { intros u Hu. cbn. rewrite at_other by (by intros ->). apply Hfr. set_solver. }
  cbn [mbind outcome_bind].
  eapply section_post; [eapply a_effect; [done|cbn; rewrite decide_False, Eq by done; done]|].
  set (f1 := fun u => if decide (u ∈ l) then set_container (At (Some m)) <$> frames s u else frames s u).
  pose proof (Sim_move s g a b m w l f1 H Hbm Eb Em Ew (fun _ => eq_refl)) as Hm.
  eapply (section_sim _ g _ t (Requeue b m) b [w] [] (wake_front s w) 1
    (fun u => if decide (u ∈ [w]) then set_container (At None) <$> f1 u else f1 u)) in Hm; try done.
  - eapply Sim_ext; [eapply Sim_spec_ext; [exact Hm|..]|..]; try done.
    5: { intros b'. cbn. destruct (decide (b' = b)) as [->|]; rewrite ?at_it, ?at_other by done; [done|].
         destruct (decide (b' = m)) as [->|]; rewrite ?at_it, ?at_other by done; by rewrite ?at_it. }
    5: { intros u. cbn. unfold f1. rewrite Hf. cbn. destruct (decide (u = w)) as [->|Hu].
         - rewrite decide_False, decide_True, (decide_False (P := w ∈ l)), at_it, Ex by set_solver. done.
         - rewrite at_other, (decide_False (P := u ∈ [w])) by set_solver. done. }
    all: intros u; apply (requeue_same a b m w l Hbm t 1 u).
  - cbn. rewrite at_it. cbn. by rewrite at_other.
  - by apply NoDup_nil.
  - intros u. cbn. rewrite at_it. set_solver.
  - intros u. cbn. rewrite at_it. set_solver.
  - apply NoDup_singleton.
Qed.

Lemma klock_ok s g a t o : Sim s g a -> pcs s t = KLock o -> post a (wake t (KLock o) s).
Proof.
  intros H Ep. destruct o; [done|..|done].
  - by apply (klock_wake_ok s g).
  - by apply (klock_wake_all_ok s g).
  - by apply (klock_wake_except_ok s g).
  - by apply (klock_requeue_ok s g).
Qed.

(** ** A pthread whose time is over takes its waiter out *)

Lemma Lists_leave s s' a a' t b p :
  Lists (butexes s) (fun t => queued_at (frames s t)) (fun t => holds (pcs s t)) (fun t => coming (pcs s t)) a ->
  waiter_lock (butexes s b) = None -> queued_at (frames s t) = Some b ->
  butexes s' = <[b := set_waiters (filter (fun w' => w' <> t) (waiters (butexes s b))) (butexes s b)]> (butexes s) ->
  pcs s' = <[t := p]> (pcs s) -> holds p = holds (pcs s t) -> coming p = coming (pcs s t) ->
  queued_at (frames s' t) = None -> (forall w, w <> t -> frames s' w = frames s w) ->
  (forall b, avalue a' b = avalue a b) -> queue a' b = remove t (queue a b) ->
  (forall b', b' <> b -> queue a' b' = queue a b') ->
  Lists (butexes s') (fun t => queued_at (frames s' t)) (fun t => holds (pcs s' t)) (fun t => coming (pcs s' t)) a'.
Proof.
  intros [V Q N A L] El Eq -> -> Eh Ec Eq' Ef Ev Eqb Eqo.
  pose proof (at_same holds (pcs s) t p Eh) as Hh. pose proof (at_same coming (pcs s) t p Ec) as Hc.
  split; intros b'; (destruct (decide (b' = b)) as [->|Hb]; rewrite ?at_it, ?at_other by done; cbn).
  - rewrite Ev. apply V.
  - rewrite Ev. apply V.
  - rewrite Eqb, Q, El, !app_nil_r. done.
  - rewrite Eqo, Q by done. destruct (waiter_lock (butexes s b')); [by rewrite Hc|done].
  - by apply NoDup_filter.
  - apply N.
  - intros w. rewrite list_elem_of_filter, A. destruct (decide (w = t)) as [->|Hw]; [rewrite Eq'; naive_solver|].
    rewrite Ef by done. naive_solver.
  - intros w. rewrite A. destruct (decide (w = t)) as [->|Hw]; [|by rewrite Ef]. rewrite Eq', Eq. split; congruence.
  - intros u. rewrite Hh. apply L.
  - intros u. rewrite Hh. apply L.
Qed.

Lemma perase_ok s g a t e : Sim s g a -> pcs s t = PErase e -> post a (wait_pthread kind_of t (PErase e) s).
Proof.
  intros H Ep. pose proof (S_threads _ _ _ _ H t) as Hv. unfold thread_ok in Hv. cbn [v_pc view_of] in Hv. rewrite Ep in Hv.
  destruct Hv as (x & Hf & Hsl & He). cbn in Hf.
  assert (forall p, holds p = None -> coming p = None -> same_duties (PErase e) p ->
    thread_ok kind_of t (mkView p (frames s t) (current_waiter (metas s t)) (interrupted (metas s t)) (ready s t)
      (statuses a t) (by_ g t) (taker g t) (task g t)) -> post a (go t p s)) as Hgo.
  { intros p E1 E2 D Hok. apply (go_on_ok s g a); by rewrite ?Ep. }
  pose proof Hsl as ((Hk & Hx & Hrd & Hts) & Hpub & Hfl & timed0 & Ht0 & Hc). cbn in Hrd, Hts, Hc.
  assert (timed0 = true) as -> by auto.
  unfold wait_pthread. rewrite (frame_eq _ _ _ Hf). cbn [mbind outcome_bind].
  destruct e as [|b|]; [| |done].
  - rewrite (erase_load _ _ _ _ x) by (by destruct (container x)). cbn [mbind outcome_bind].
    destruct (container x) as [|[b|]] eqn:Ec; [done|..]; (apply Hgo; [done..|]; view_goal; by exists x).
  - destruct (waiter_lock (butexes s b)) as [u|] eqn:El; [by rewrite (erase_section_locked _ _ _ _ _ u)|].
    destruct (decide (container x = At (Some b))) as [Ec|Ec].
    2:{ rewrite (erase_section_moved _ _ _ _ _ x) by done. cbn [mbind outcome_bind].
        apply Hgo; [done..|]. view_goal. by exists x. }
    rewrite (erase_section _ _ _ TimedOut _ _ x) by auto. cbn [mbind outcome_bind]. rewrite Ec in Hc.
    destruct Hc as (Hs & Hsig & Hb).
    apply (pthread_result_ok _ g a (left_queue TimedOut t b true a)); [done|..].
    { apply rtc_once. unfold tau_step, left_queue. rewrite <- (release_eq TimedOut t a b true Hs). by apply a_timeout. }
    pose proof (S_pending _ _ _ _ H t) as Hp.
    own_lists t (PTake ETIMEDOUT) (left_queue TimedOut t b true a); try (by rewrite Ep); try done.
    + eapply (Lists_leave s _ a _ t b (PTake ETIMEDOUT)); [apply H|done|by rewrite Hf; cbn; rewrite Ec|done|done|..];
        try (by rewrite Ep); try done.
      * cbn. by rewrite at_it.
      * intros w Hw. cbn. by rewrite at_other.
      * cbn. by rewrite at_it.
      * intros b' Hb'. cbn. by rewrite at_other.
    + eapply (Tasks_frame s g a t); [exact H|]. left. rewrite Hf. cbn. unfold dequeue. by rewrite Hx.
    + view_goal. eexists. split; [done|]. unfold dequeue. rewrite Hx. split_and!; try done.
      exists TimedOut, true. done.
Qed.

(** ** Every step *)

Lemma ptake_any_ok s g a t r :
  Sim s g a -> pcs s t = PTake r -> post a (butex_wait_from_pthread kind_of t (PTake r) s).
Proof.
  intros H Ep. destruct (kind_of t) eqn:Ek.
  - pose proof (thread_at _ _ _ _ _ H Ep) as (x & _ & (Hk & _) & _). done.
  - by apply (ptake_ok s g).
  - pose proof (thread_at _ _ _ _ _ H Ep) as (x & _ & _ & Hpub & _). unfold pthread_published in Hpub.
    rewrite Ek in Hpub. destruct Hpub as [Hcu _]. cbn in Hcu. cbn. unfold take_back. rewrite Hcu. by apply (post_tau _ _ g).
Qed.

Lemma run_thread_ok s g a t : Sim s g a -> post a (run_thread kind_of (At None) t s).
Proof.
  intros H. unfold run_thread. destruct (pcs s t) eqn:Ep; try done.
  - by apply (butex_wait_ok s g).
  - by apply (due_ok s g).
  - by apply (publish_ok s g).
  - by apply (flock_ok s g).
  - by apply (fvalue_ok s g).
  - by apply (finterrupted_ok s g).
  - by apply (fenqueue_ok s g).
  - by apply (fstop_ok s g).
  - by apply (fready_ok s g).
  - by apply (suspended_ok s g).
  - by apply (funsleep_ok s g).
  - by apply (ftake_ok s g).
  - by apply (fflag_ok s g).
  - by apply (fclear_ok s g).
  - by apply (ppublish_ok s g).
  - by apply (plock_ok s g).
  - by apply (pvalue_ok s g).
  - by apply (pinterrupted_ok s g).
  - by apply (pappend_ok s g).
  - by apply (pclearearly_ok s g).
  - by apply (psig_ok s g).
  - by apply (perase_ok s g).
  - by apply (psig2_ok s g).
  - by apply (ptake_any_ok s g).
  - by apply (pflag_ok s g).
  - by apply (pclear_ok s g).
  - by apply (klock_ok s g).
  - by apply (kdo_ok s g).
  - by apply (iexchange_ok s g).
  - by apply (iset_ok s g).
  - by apply (ierase_ok s g).
  - by apply (iback_ok s g).
Qed.

Lemma step_ok s g a c : Sim s g a -> post a (step c s).
Proof.
  intros H. destruct c as [t|t|t r|t o|t b x|id| |].
  - by apply (run_thread_ok s g).
  - cbn. destruct (pcs s t) as [] eqn:Ep; try done.
    + by eapply (due_ok s g).
    + destruct timed; [by apply (overdue_ok s g)|done].
  - cbn. destruct (pcs s t) eqn:Ep; try done. unfold frame.
    destruct (frames s t) as [x|] eqn:Ef; cbn [mbind outcome_bind].
    + case_decide; [|done]. by apply (futex_ok s g a t timed r x).
    + pose proof (thread_at _ _ _ _ _ H Ep) as (x & Hx & _). cbn in Hx. congruence.
  - by apply (begin_ok s g).
  - by apply (atomic_ok s g).
  - by apply (timer_runs_ok s g).
  - by apply (timer_step_ok s g).
  - by apply (timer_stops_ok s g).
Qed.

Definition initial_ghost : ghost := mkGhost (fun _ => None) (fun _ => None) (fun _ => None).

Lemma Sim_initial : Sim initial initial_ghost ainitial.
Proof.
  split; cbn; try done.
  - split; cbn; try done; [intros b; apply NoDup_nil_2|]. intros b w. by rewrite elem_of_nil.
  - split; cbn; [|intros [t|]; apply NoDup_nil_2]. intros [t|] w; cbn; (split; [set_solver|done]).
Qed.

(** ** Executions *)

(** The specification can do what is seen. *)
Inductive aruns : astate -> list label -> astate -> Prop :=
  | aruns_nil a : aruns a [] a
  | aruns_cons a l a1 ls a' : aexec kind_of a l a1 -> aruns a1 ls a' -> aruns a (l :: ls) a'.

Lemma run_all_ok l s g a : Sim s g a ->
  match run_all kind_of (At None) l s with
  | Bad => False
  | NoStep => True
  | Go (ls, s') => exists g' a', aruns a ls a' /\ Sim s' g' a'
  end.
Proof.
  revert s g a. induction l as [|c l IH]; intros s g a H; cbn.
  - exists g, a. split; [constructor|done].
  - pose proof (step_ok s g a c H) as Hs. destruct (step c s) as [| |[x s1]]; cbn in *; [done|done|].
    destruct Hs as (g1 & a1 & Ha & H1). specialize (IH s1 g1 a1 H1).
    destruct (run_all kind_of (At None) l s1) as [| |[ls s']]; cbn in *; [done|done|].
    destruct IH as (g' & a' & Hr & H'). exists g', a'. split; [by econstructor|done].
Qed.

(** Between the calls: what the words, the queues and the TaskMetas hold. *)
Definition agrees (s : state) (a : astate) : Prop :=
  (forall b, avalue a b = value (butexes s b)) /\
  (forall b, waiter_lock (butexes s b) = None -> queue a b = waiters (butexes s b)) /\
  (forall t, pending a t = interrupted (metas s t)) /\
  (forall t, pcs s t = Out <-> statuses a t = AOut).

Lemma Sim_out s g a t : Sim s g a -> pcs s t = Out <-> statuses a t = AOut.
Proof.
  intros H. split; intros E.
  - by destruct (thread_at _ _ _ _ _ H E) as [_ ?].
  - pose proof (S_threads _ _ _ _ H t) as Hv. unfold thread_ok in Hv. cbn in Hv. rewrite E in Hv.
    destruct (pcs s t) eqn:Ep; try done; exfalso; unfold with_waiter in Hv; cbn in Hv;
      unfold fiber_released, pthread_asleep, pthread_done in Hv; cbn in Hv; try naive_solver.
    all: repeat match goal with
           | H : _ /\ _ |- _ => destruct H
           | H : exists _, _ |- _ => destruct H
           | H : match container ?x with _ => _ end |- _ => destruct (container x) as [|[?|]]
           end; try done; congruence.
Qed.

Lemma Sim_agrees s g a : Sim s g a -> agrees s a.
Proof.
  intros H. split_and!.
  - apply H.
  - intros b. by apply (queue_free s g).
  - apply H.
  - intros t. by apply (Sim_out s g).
Qed.

(** C7. butex.cc and TaskGroup::interrupt do nothing but what ButexSpec allows.
    However any number of threads (fibers, fibers on the stack of a pthread, and
    pthreads) call butex_wait, butex_wake, butex_wake_all, butex_wake_except,
    butex_requeue and fiber_interrupt and write the words, and whatever the futex,
    the clock and the timer thread do: no step is undefined (a waiter that is gone
    is never used, no fiber gets twice in a run queue), and the specification can
    make the same calls, returns and accesses, with the same words, queues and
    interruptions in the end.  That container of a pthread's waiter is NULL until
    it is written, is assumed: see [container_read_before_written]. *)
Theorem butex_refines_spec l :
  match run_all kind_of (At None) l initial with
  | Bad => False
  | NoStep => True
  | Go (ls, s) => exists a, aruns ainitial ls a /\ agrees s a
  end.
Proof.
  pose proof (run_all_ok l initial initial_ghost ainitial Sim_initial) as H.
  destruct (run_all kind_of (At None) l initial) as [| |[ls s]]; [done|done|].
  destruct H as (g & a & Hr & H). exists a. split; [done|]. by apply (Sim_agrees s g).
Qed.

(** ** Nobody sleeps who was woken *)

(** The thread has nothing to do until something happens outside of it. *)
Definition at_rest (s : state) (t : nat) : Prop :=
  match pcs s t with
  | Out => True
  | FSuspended => ready s t = false
  | PFutex _ => exists x, frames s t = Some x /\ sig x = PTHREAD_NOT_SIGNALLED
  | _ => False
  end.

Definition quiet (s : state) : Prop := (forall t, at_rest s t) /\ callback s = None.

Lemma quiet_by s g a w : Sim s g a -> quiet s -> by_ g w = None.
Proof.
  intros H [Hr Hc]. destruct (by_ g w) as [y|] eqn:E; [|done]. exfalso.
  apply (W_by _ _ (S_wakers _ _ _ _ H)) in E. destruct y as [u|]; cbn in E.
  - specialize (Hr u). unfold at_rest in Hr. destruct (pcs s u); set_solver.
  - rewrite Hc in E. set_solver.
Qed.

Lemma quiet_lock s g a b : Sim s g a -> quiet s -> waiter_lock (butexes s b) = None.
Proof.
  intros H [Hr _]. destruct (waiter_lock (butexes s b)) as [t|] eqn:E; [|done]. exfalso.
  apply (L_lock _ _ _ _ _ (S_lists _ _ _ _ H)) in E. specialize (Hr t). unfold at_rest in Hr.
  destruct (pcs s t); done.
Qed.

Lemma quiet_sleeper s g a t : Sim s g a -> quiet s -> pcs s t <> Out ->
  exists b timed, statuses a t = AQueued b timed /\ t ∈ waiters (butexes s b).
Proof.
  intros H Hq Ho. pose proof (quiet_by s g a t H Hq) as Hby. pose proof (S_threads _ _ _ _ H t) as Hv.
  assert (forall x b, frames s t = Some x -> container x = At (Some b) -> t ∈ waiters (butexes s b)) as Hw.
  { intros x b Hf Hc. apply (L_at _ _ _ _ _ (S_lists _ _ _ _ H)). by rewrite Hf; cbn; rewrite Hc. }
  destruct Hq as [Hr _]. specialize (Hr t). unfold at_rest in Hr. unfold thread_ok in Hv. cbn [v_pc view_of] in Hv.
  destruct (pcs s t); try done.
  - destruct Hv as (x & Hf & _ & _ & _ & _ & Hc). cbn in Hf, Hc. destruct (container x) as [|[b|]] eqn:Ec; [done|..].
    + exists b, (abstime x). split; [apply Hc|by apply (Hw x)].
    + destruct Hc as [_ [[? _]|[_ [y ?]]]]; congruence.
  - destruct Hv as (x & Hf & _ & _ & _ & timed0 & _ & Hc). cbn in Hf, Hc. destruct Hr as (x' & Hf' & Hsig).
    assert (x' = x) as -> by congruence. destruct (container x) as [|[b|]] eqn:Ec; [done|..].
    + exists b, timed0. split; [apply Hc|by apply (Hw x)].
    + destruct Hc as [_ [[_ [y ?]]|[Hs _]]]; [congruence|by rewrite Hsig in Hs].
Qed.

(** C12. No wake-up gets lost inside of butex.cc: when nothing moves any more (every
    thread is outside, or sleeps without having been made ready or signalled, and
    the timer thread runs no task), who is still in butex_wait is in the queue of a
    butex, in the code as in the specification: nobody has woken it. *)
Theorem no_waiter_left_behind l ls s :
  run_all kind_of (At None) l initial = Go (ls, s) -> quiet s ->
  exists a, aruns ainitial ls a /\
    forall t, pcs s t <> Out -> exists b timed, statuses a t = AQueued b timed /\ t ∈ queue a b /\ t ∈ waiters (butexes s b).
Proof.
  intros E Hq. pose proof (run_all_ok l initial initial_ghost ainitial Sim_initial) as H. rewrite E in H.
  destruct H as (g & a & Hr & H). exists a. split; [done|]. intros t Ho.
  destruct (quiet_sleeper s g a t H Hq Ho) as (b & timed & Hs & Hw). exists b, timed.
  rewrite (queue_free s g a b H (quiet_lock s g a b H Hq)). done.
Qed.

End Refines.

(** ** What the specification has to allow *)

Definition all_fibers (t : nat) : kind := Fiber.

(** Fiber 0 waits. *)
Definition waits : list choice := Issue 0 (Wait 0 0 false) :: repeat (Run 0%nat) 6.

Lemma no_waiter_left_behind_witness :
  match run_all all_fibers (At None) waits initial with
  | Go (ls, s) =>
      exists a, aruns (kind_of := all_fibers) ainitial ls a /\ exists b timed, statuses a 0%nat = AQueued b timed
  | _ => False
  end.
Proof.
  destruct (run_all all_fibers (At None) waits initial) as [| |[ls s]] eqn:E;
    [vm_compute in E; discriminate E|vm_compute in E; discriminate E|].
  assert (s = match run_all all_fibers (At None) waits initial with Go (_, x) => x | _ => initial end) as Es by by rewrite E.
  assert (quiet s) as Hq.
  { rewrite Es. split; [intros [|t]; vm_compute; done|reflexivity]. }
  destruct (no_waiter_left_behind waits ls s E Hq) as (a & Hr & Ha). exists a. split; [exact Hr|].
  destruct (Ha 0%nat) as (b & timed & Hs & _); [rewrite Es; vm_compute; discriminate|]. by exists b, timed.
Defined.

Definition pthread_0 (k : kind) (t : nat) : kind := match t with O => k | _ => Fiber end.

(** Fiber 0 waits, and is about to publish its waiter; fiber 1 interrupts it, and
    has exchanged current_waiter; fiber 0 goes to sleep; fiber 1 sets
    [interrupted], and has nobody to wake. *)
Definition interrupted_too_early : list choice :=
  [Issue 0 (Wait 0 0 false); Run 0; Issue 1 (Interrupt 0); Run 1; Run 0; Run 0; Run 0; Run 0; Run 0; Run 1]%nat.

(** Here fiber 0 has seen that it is not interrupted, and is in no list yet. *)
Definition interrupted_too_late : list choice :=
  [Issue 0 (Wait 0 0 false); Run 0; Run 0; Run 0; Run 0; Run 0; Issue 1 (Interrupt 0); Run 1; Run 1; Run 1; Run 0; Run 1]%nat.

(** C39. fiber_interrupt does not wake a fiber reliably, as fiber.h promises: in both
    executions fiber 1 calls fiber_interrupt of fiber 0 after that has called
    butex_wait, and returns 0, and fiber 0 sleeps in the end, without a time limit,
    interrupted and in the queue, and nobody is to wake it. *)
Theorem interruption_lost :
  Forall (fun l => exists ls s, run_all all_fibers (At None) l initial = Go (ls, s) /\ quiet s /\
    Call 0 (Wait 0 0 false) ∈ ls /\ Call 1 (Interrupt 0) ∈ ls /\ Return 1 0 ∈ ls /\
    pcs s 0%nat = FSuspended /\ waiters (butexes s 0) = [0%nat] /\ interrupted (metas s 0) = true)
    [interrupted_too_early; interrupted_too_late].
Proof.
  repeat constructor; (eexists; eexists; split; [vm_compute; reflexivity|]);
    (split; [split; [intros [|[|t]]; vm_compute; done|done]|]); split_and!; try (vm_compute; done); set_solver.
Qed.

(** butex_wait_from_pthread sets current_waiter before the first store of
    container: who interrupts the thread then reads what was on its stack. *)
Example container_read_before_written :
  run_all (pthread_0 PthreadTask) Unwritten
    [Issue 0 (Wait 0 0 false); Run 0; Run 0; Issue 1 (Interrupt 0); Run 1; Run 1; Run 1]%nat initial = Bad.
Proof. reflexivity. Qed.

(** A pthread that is woken when its time is over returns ETIMEDOUT; the wake-up
    is used up. *)
Example wake_up_used_by_timeout :
  exists s, run_all (pthread_0 Pthread) (At None)
    [Issue 0 (Wait 0 0 true); Run 0; Run 0; Run 0; Run 0; Overdue 0; Issue 1 (Wake 0); Run 1; Run 0; Run 1; Run 1; Run 0]%nat initial =
  Go ([Call 0 (Wait 0 0 true); Tau; Tau; Tau; Tau; Tau; Call 1 (Wake 0); Tau; Tau; Tau; Return 1 1; Return 0 ETIMEDOUT], s).
Proof. eexists. vm_compute. reflexivity. Qed.

(** When the timer thread has stopped, wait_for_butex calls erase_from_butex
    while it holds waiter_lock, which that locks. *)
Example deadlock_when_timer_stopped :
  exists ls s, run_all all_fibers (At None)
    [TimerStops; Issue 0 (Wait 0 0 true); Run 0; Run 0; Run 0; Run 0; Run 0; Run 0; Run 0; Run 0]%nat initial = Go (ls, s) /\
  waiter_lock (butexes s 0) = Some 0%nat /\ step all_fibers (At None) (Run 0) s = NoStep.
Proof. eexists. eexists. split; [vm_compute; reflexivity|]. split; reflexivity. Qed.

End ButexRefines.
