(* ===== verification/FiberSync.v ===== *)
(** * FiberSync: mutexes, condition variables and countdown events

    fiber_mutex_*, fiber_cond_* and CountdownEvent are users of butexes: what a
    thread does in one of them is a program ([pc]) of atomic accesses of a word,
    calls of butex.h, and, for a condition variable, accesses of its field m.
    [client] runs these programs against what happens at butex.h ([label]), and
    knows which mutexes each thread holds.  [imove] puts it on the machine of
    Butex, [jstep] on the specification ButexSpec.

    Sampling for the contention profiler, which touches no word, and the logs of
    CountdownEvent are left out. *)

From stdpp Require Import functions.
From S2P Require Import Prelude ButexSpec Butex.

Module FiberSync.
Import ButexSpec.

#[global] Instance op_dec : EqDecision op.
Proof. solve_decision. Defined.

Definition EBUSY : Z := 16.
Definition EINVAL : Z := 22.

(** ** The word of a mutex: byte 0 is [locked], byte 1 is [contended] *)

Definition FIBER_MUTEX_LOCKED : Z := 1.
Definition FIBER_MUTEX_CONTENDED : Z := 257.

Definition locked_byte (v : Z) : Z := Z.land v 255.
(** locked.exchange(1) *)
Definition set_locked (v : Z) : Z := Z.lor (Z.land v (Z.lnot 255)) 1.

(** ** Functions and where a thread is in one *)

Inductive fn :=
  | fiber_mutex_lock (m : nat) | fiber_mutex_trylock (m : nat) | fiber_mutex_timedlock (m : nat)
  | fiber_mutex_unlock (m : nat)
  | fiber_cond_wait (c m : nat) | fiber_cond_timedwait (c m : nat)
  | fiber_cond_signal (c : nat) | fiber_cond_broadcast (c : nat)
  | event_wait (b : nat) | event_timed_wait (b : nat) | event_signal (b : nat) (sig : Z)
  | event_add_count (b : nat) (v : Z) | event_reset (b : nat) (v : Z)
  | fiber_interrupt (t : nat).

#[global] Instance fn_dec : EqDecision fn.
Proof. solve_decision. Defined.

(** What follows an unlock: nothing, or butex_wait in a function of the condition
    variable [c], with the sequence number that was read. *)
Definition then_wait : Type := option (nat * Z * bool).

(** Before:
    - MFast: locked.exchange(1); MExchange, MWait, MIn: the exchange, the call of
      butex_wait and its return in mutex_lock_contended or
      mutex_timedlock_contended, which return to fiber_cond_wait with [rc1];
    - MUnlock, MWake, MWaking: the exchange, the call of butex_wake and its return
      in fiber_mutex_unlock;
    - CLoad, CCheck, CBind, CWait, CIn: the load of the sequence number, the load
      and the compare-exchange of m, the call of butex_wait and its return in
      fiber_cond_wait and fiber_cond_timedwait;
    - SAdd, SWake, SWaking: fiber_cond_signal; BLoad, BAdd, BRequeue,
      BRequeueing: fiber_cond_broadcast;
    - DLoad, DWait, DIn: CountdownEvent::wait; DSub, DWakeAll, DWaking: signal;
      DAdd: add_count; DReset: reset;
    - Done: the return. *)
Inductive pc :=
  | Idle
  | MFast (f : fn) (m : nat)
  | MExchange (f : fn) (m : nat) (timed : bool) (rc1 : Z)
  | MWait (f : fn) (m : nat) (timed : bool) (rc1 : Z)
  | MIn (f : fn) (m : nat) (timed : bool) (rc1 : Z)
  | MUnlock (f : fn) (m : nat) (next : then_wait)
  | MWake (f : fn) (m : nat) (next : then_wait)
  | MWaking (f : fn) (m : nat) (next : then_wait)
  | CLoad (f : fn) (c m : nat) (timed : bool)
  | CCheck (f : fn) (c m : nat) (e : Z) (timed : bool)
  | CBind (f : fn) (c m : nat) (e : Z) (timed : bool)
  | CWait (f : fn) (c m : nat) (e : Z) (timed : bool)
  | CIn (f : fn) (c m : nat) (timed : bool)
  | SAdd (f : fn) (c : nat) | SWake (f : fn) (c : nat) | SWaking (f : fn) (c : nat)
  | BLoad (f : fn) (c : nat) | BAdd (f : fn) (c m : nat) | BRequeue (f : fn) (c m : nat) | BRequeueing (f : fn) (c m : nat)
  | DLoad (f : fn) (b : nat) (timed : bool)
  | DWait (f : fn) (b : nat) (seen_counter : Z) (timed : bool)
  | DIn (f : fn) (b : nat) (timed : bool)
  | DSub (f : fn) (b : nat) (sig : Z) | DWakeAll (f : fn) (b : nat) | DWaking (f : fn) (b : nat)
  | DAdd (f : fn) (b : nat) (v : Z) | DReset (f : fn) (b : nat) (v : Z)
  | ICall (f : fn) (t : nat) | IIn (f : fn) (t : nat)
  | Done (f : fn) (r : Z).

(** [held t]: the mutexes that [t] has locked; [bound c]: the field m of a
    condition variable. *)
Record cstate := mkClient { pcs : nat -> pc; held : nat -> list nat; bound : nat -> option nat }.

Definition goto (t : nat) (p : pc) (k : cstate) : cstate := mkClient (<[t := p]> (pcs k)) (held k) (bound k).
Definition set_held (t : nat) (l : list nat) (k : cstate) : cstate := mkClient (pcs k) (<[t := l]> (held k)) (bound k).
Definition bind (c m : nat) (k : cstate) : cstate := mkClient (pcs k) (held k) (<[c := Some m]> (bound k)).

(** ** The programs *)

Definition begin (f : fn) : pc :=
  match f with
  | fiber_mutex_lock m | fiber_mutex_trylock m | fiber_mutex_timedlock m => MFast f m
  | fiber_mutex_unlock m => MUnlock f m None
  | fiber_cond_wait c m => CLoad f c m false
  | fiber_cond_timedwait c m => CLoad f c m true
  | fiber_cond_signal c => SAdd f c
  | fiber_cond_broadcast c => BLoad f c
  | event_wait b => DLoad f b false
  | event_timed_wait b => DLoad f b true
  | event_signal b sig => DSub f b sig
  | event_add_count b v => if v <=? 0 then Done f 0 else DAdd f b v
  | event_reset b v => if v <? 0 then Done f 0 else DReset f b v
  | fiber_interrupt t => ICall f t
  end.

(** After fiber_mutex_unlock. *)
Definition unlocked (f : fn) (m : nat) (next : then_wait) : pc :=
  match next with Some (c, e, timed) => CWait f c m e timed | None => Done f 0 end.

(** Whether a thread gets a mutex by an access, or gives it. *)
Inductive change := Same | Take (m : nat) | Give (m : nat).

(** The atomic access of a word: which, the value that is stored, what is next. *)
Definition mutex_access (p : pc) (old : Z) : option (nat * Z * pc * change) :=
  match p with
  | MFast f m =>
      if locked_byte old =? 0 then Some (m, set_locked old, Done f 0, Take m)
      else Some (m, set_locked old,
                 match f with
                 | fiber_mutex_trylock _ => Done f EBUSY
                 | fiber_mutex_timedlock _ => MExchange f m true 0
                 | _ => MExchange f m false 0
                 end, Same)
  | MExchange f m timed rc1 =>
      if Z.land old FIBER_MUTEX_LOCKED =? 0 then Some (m, FIBER_MUTEX_CONTENDED, Done f rc1, Take m)
      else Some (m, FIBER_MUTEX_CONTENDED, MWait f m timed rc1, Same)
  | MUnlock f m next =>
      Some (m, 0, if old =? FIBER_MUTEX_LOCKED then unlocked f m next else MWake f m next, Give m)
  | _ => None
  end.

Definition cond_access (p : pc) (old : Z) : option (nat * Z * pc * change) :=
  match p with
  | CLoad f c m timed => Some (c, old, CCheck f c m old timed, Same)
  | SAdd f c => Some (c, wraps 32 (old + 1), SWake f c, Same)
  | BAdd f c m => Some (c, wraps 32 (old + 1), BRequeue f c m, Same)
  | _ => None
  end.

Definition event_access (p : pc) (old : Z) : option (nat * Z * pc * change) :=
  match p with
  | DLoad f b timed => Some (b, old, if old <=? 0 then Done f 0 else DWait f b old timed, Same)
  | DSub f b sig => Some (b, wraps 32 (old - sig), if sig <? old then Done f 0 else DWakeAll f b, Same)
  | DAdd f b v => Some (b, wraps 32 (old + v), Done f 0, Same)
  | DReset f b v => Some (b, v, Done f 0, Same)
  | _ => None
  end.

Definition access (p : pc) (old : Z) : option (nat * Z * pc * change) :=
  match p with
  | CLoad _ _ _ _ | SAdd _ _ | BAdd _ _ _ => cond_access p old
  | DLoad _ _ _ | DSub _ _ _ | DAdd _ _ _ | DReset _ _ _ => event_access p old
  | _ => mutex_access p old
  end.

(** The call of butex.h or of fiber_interrupt. *)
Definition mutex_calls (p : pc) : option (op * pc) :=
  match p with
  | MWait f m timed rc1 => Some (Wait m FIBER_MUTEX_CONTENDED timed, MIn f m timed rc1)
  | MWake f m next => Some (Wake m, MWaking f m next)
  | _ => None
  end.

Definition cond_calls (p : pc) : option (op * pc) :=
  match p with
  | CWait f c m e timed => Some (Wait c e timed, CIn f c m timed)
  | SWake f c => Some (Wake c, SWaking f c)
  | BRequeue f c m => Some (Requeue c m, BRequeueing f c m)
  | _ => None
  end.

Definition event_calls (p : pc) : option (op * pc) :=
  match p with
  | DWait f b e timed => Some (Wait b e timed, DIn f b timed)
  | DWakeAll f b => Some (WakeAll b, DWaking f b)
  | _ => None
  end.

Definition calls (p : pc) : option (op * pc) :=
  match p with
  | CWait _ _ _ _ _ | SWake _ _ | BRequeue _ _ _ => cond_calls p
  | DWait _ _ _ _ | DWakeAll _ _ => event_calls p
  | ICall f t => Some (Interrupt t, IIn f t)
  | _ => mutex_calls p
  end.

(** butex_wait() < 0 && errno != EWOULDBLOCK && errno != EINTR *)
Definition wait_failed (r : Z) : bool := negb (r =? 0) && negb (r =? EWOULDBLOCK) && negb (r =? EINTR).

(** Its return. *)
Definition mutex_returned (p : pc) (r : Z) : option pc :=
  match p with
  | MIn f m timed rc1 => Some (if wait_failed r then Done f r else MExchange f m timed rc1)
  | MWaking f m next => Some (unlocked f m next)
  | _ => None
  end.

Definition cond_returned (p : pc) (r : Z) : option pc :=
  match p with
  | CIn f c m timed => Some (MExchange f m false (if wait_failed r then r else 0))
  | SWaking f _ | BRequeueing f _ _ => Some (Done f 0)
  | _ => None
  end.

Definition event_returned (p : pc) (r : Z) : option pc :=
  match p with
  | DIn f b timed => Some (if wait_failed r then Done f r else DLoad f b timed)
  | DWaking f _ => Some (Done f 0)
  | _ => None
  end.

Definition returned (p : pc) (r : Z) : option pc :=
  match p with
  | CIn _ _ _ _ | SWaking _ _ | BRequeueing _ _ _ => cond_returned p r
  | DIn _ _ _ | DWaking _ _ => event_returned p r
  | IIn f _ => Some (Done f r)
  | _ => mutex_returned p r
  end.

(** An access of the field m of a condition variable. *)
Definition condition (p : pc) (k : cstate) : option (pc * cstate) :=
  match p with
  | CCheck f c m e timed =>
      Some (if decide (bound k c = Some m) then MUnlock f m (Some (c, e, timed)) else CBind f c m e timed, k)
  | CBind f c m e timed =>
      Some match bound k c with
           | None => (MUnlock f m (Some (c, e, timed)), bind c m k)
           | Some _ => (Done f EINVAL, k)
           end
  | BLoad f c => Some (match bound k c with Some m => BAdd f c m | None => Done f 0 end, k)
  | _ => None
  end.

(** ** Threads *)

(** What each word is used for. *)
Inductive role := Mutex | Sequence | Counter.
#[global] Instance role_dec : EqDecision role.
Proof. solve_decision. Defined.

Inductive event := Begin (t : nat) (f : fn) | End (t : nat) (f : fn) (r : Z) | Field (t : nat) | At_butex (l : label).

Section Sync.
Context (kind_of : nat -> kind) (role_of : nat -> role).

(** [any_timedlock]: fiber_mutex_timedlock may be called by any thread, and not
    by fibers only. *)
Context (any_timedlock : bool).

(** The use that is allowed: who unlocks, or waits on a condition variable, has
    the mutex; arguments are in range, and a count is not reset to 0. *)
Definition allowed (k : cstate) (t : nat) (f : fn) : Prop :=
  match f with
  | fiber_mutex_lock m | fiber_mutex_trylock m => role_of m = Mutex
  | fiber_mutex_timedlock m => role_of m = Mutex /\ (any_timedlock = true \/ kind_of t = Fiber)
  | fiber_mutex_unlock m => m ∈ held k t
  | fiber_cond_wait c m | fiber_cond_timedwait c m => m ∈ held k t /\ role_of c = Sequence
  | fiber_cond_signal c | fiber_cond_broadcast c => role_of c = Sequence
  | event_wait b | event_timed_wait b => role_of b = Counter
  | event_signal b sig => role_of b = Counter /\ 0 <= sig < 2 ^ 31
  | event_add_count b v => role_of b = Counter /\ v < 2 ^ 31
  | event_reset b v => role_of b = Counter /\ v < 2 ^ 31 /\ v <> 0
  | fiber_interrupt t' => kind_of t' <> Pthread
  end.
#[global] Instance allowed_dec k t f : Decision (allowed k t f).
Proof. destruct f; cbn; apply _. Defined.

(** A count stays below 2^31. *)
Definition in_range (p : pc) (old : Z) : Prop :=
  match p with DAdd _ _ v => old + v < 2 ^ 31 | _ => True end.
#[global] Instance in_range_dec p old : Decision (in_range p old).
Proof. destruct p; cbn; apply _. Defined.

Definition changed (t : nat) (c : change) (k : cstate) : cstate :=
  match c with
  | Same => k
  | Take m => set_held t (m :: held k t) k
  | Give m => set_held t (filter (fun m' => m' <> m) (held k t)) k
  end.

Definition client (e : event) (k : cstate) : option cstate :=
  match e with
  | Begin t f =>
      match pcs k t with
      | Idle => if decide (allowed k t f) then Some (goto t (begin f) k) else None
      | _ => None
      end
  | End t f r =>
      match pcs k t with
      | Done f' r' => if decide (f = f' /\ r = r') then Some (goto t Idle k) else None
      | _ => None
      end
  | Field t => '(p, k) ← condition (pcs k t) k; Some (goto t p k)
  | At_butex Tau => Some k
  | At_butex (Call t o) => '(o', p) ← calls (pcs k t); if decide (o = o') then Some (goto t p k) else None
  | At_butex (Return t r) => p ← returned (pcs k t) r; Some (goto t p k)
  | At_butex (Access t b old new) =>
      '(b', new', p, c) ← access (pcs k t) old;
      if decide (b = b' /\ new = new' /\ in_range (pcs k t) old) then Some (goto t p (changed t c k)) else None
  end.

(** ** On butex.cc, and on its specification *)

Inductive move := Do (c : Butex.choice) | Own (e : event).

Definition own_event (e : event) : Prop := match e with At_butex _ => False | _ => True end.
#[global] Instance own_event_dec e : Decision (own_event e).
Proof. destruct e; cbn; apply _. Defined.

Definition imove (m : move) (x : Butex.state * cstate) : option (Butex.state * cstate) :=
  let '(s, k) := x in
  match m with
  | Do c =>
      match Butex.step kind_of (Butex.At None) c s with
      | Go (l, s') => k' ← client (At_butex l) k; Some (s', k')
      | _ => None
      end
  | Own e => if decide (own_event e) then k' ← client e k; Some (s, k') else None
  end.

Fixpoint iruns (l : list move) (x : Butex.state * cstate) : option (Butex.state * cstate) :=
  match l with [] => Some x | m :: l => x ← imove m x; iruns l x end.

Inductive jstep : astate * cstate -> astate * cstate -> Prop :=
  | j_butex a k l a' k' : astep kind_of a l a' -> client (At_butex l) k = Some k' -> jstep (a, k) (a', k')
  | j_own a k e k' : own_event e -> client e k = Some k' -> jstep (a, k) (a, k').

End Sync.

Definition cinitial : cstate := mkClient (fun _ => Idle) (fun _ => []) (fun _ => None).

End FiberSync.
