(* ===== verification/FiberSyncInv.v ===== *)
(** * FiberSyncInv: mutual exclusion, and nobody is forgotten

    The invariant of the programs of FiberSync on the specification of a butex. *)

From stdpp Require Import functions.
From S2P Require Import Prelude ButexSpec ButexInv ButexSteps ButexWakes ButexRefines FiberSync.
From S2P Require Butex.

Module FiberSyncInv.
Import ButexSpec FiberSync.
Import ButexInv (at_it, at_other).
Import ButexWakes (release_all_spec).
Import ButexRefines (move_all_spec).

(** ** The queues of the specification *)

Record queues (a : astate) : Prop := mkQueues {
  Q_in b t : t ∈ queue a b <-> exists timed, statuses a t = AQueued b timed;
  Q_nodup b : NoDup (queue a b);
  Q_timed t timed : statuses a t = AReleased TimedOut timed -> timed = true }.

Definition asleep (st : status) : Prop := match st with AQueued _ _ => True | _ => False end.

Lemma not_asleep st b timed : ~ asleep st -> st <> AQueued b timed.
Proof. intros H ->. by apply H. Qed.

Lemma queues_status t st a : queues a -> ~ asleep (statuses a t) -> ~ asleep st ->
  (forall timed, st = AReleased TimedOut timed -> timed = true) -> queues (with_status t st a).
Proof.
  intros [Q N T] H1 H2 H3. split; [|done|]; cbn.
  - intros b u. rewrite Q. destruct (decide (u = t)) as [->|Hu]; [rewrite at_it|by rewrite at_other].
    split; intros [timed E]; rewrite E in *; first [by destruct H1|by destruct H2].
  - intros u timed. destruct (decide (u = t)) as [->|Hu]; [rewrite at_it; apply H3|rewrite at_other by done; apply T].
Qed.

(** Some threads of a queue are released. *)
Lemma queues_release c b (l kept : list nat) a :
  queues a -> (forall t timed, c = TimedOut -> t ∈ l -> statuses a t = AQueued b timed -> timed = true) ->
  (forall t, t ∈ l -> t ∈ queue a b) -> NoDup kept -> (forall t, t ∈ kept <-> t ∈ queue a b /\ t ∉ l) ->
  queues (release_all c l (with_queue b kept a)).
Proof.
  intros [Q N T] Ht Hl Hn Hk. destruct (release_all_spec c l (with_queue b kept a)) as (E1 & _ & _ & E4).
  cbn in E4. split.
  - intros b' t. rewrite E1, E4. cbn. destruct (decide (b' = b)) as [->|Hb]; rewrite ?at_it, ?at_other by done.
    + rewrite Hk. destruct (decide (t ∈ l)) as [H|H].
      * split; [naive_solver|]. intros [timed E]. apply Hl, Q in H as [timed' E']. by rewrite E' in E.
      * rewrite Q. naive_solver.
    + rewrite Q. destruct (decide (t ∈ l)) as [H|H]; [|done]. apply Hl, Q in H as [timed' E']. rewrite E'.
      split; intros [timed E]; [by injection E|done].
  - intros b'. rewrite E1. cbn. destruct (decide (b' = b)) as [->|Hb]; by rewrite ?at_it, ?at_other by done.
  - intros t timed. rewrite E4. destruct (decide (t ∈ l)) as [H|H]; [|apply T].
    pose proof H as H'. apply Hl, Q in H' as [timed' E']. rewrite E'. intros [= -> <-]. by apply (Ht t timed').
Qed.

(** The effect of a wake function: who is woken, and who goes to another queue. *)
Lemma queues_requeue b m w l a :
  queues a -> b <> m -> queue a b = w :: l ->
  queues (release Woken w (move_all m l (with_queue m (queue a m ++ l) (with_queue b [] a)))).
Proof.
  intros H Hbm Eq. pose proof H as [Q N T]. change (release Woken w ?x) with (release_all Woken [w] x).
  set (x := move_all m l _).
  destruct (release_all_spec Woken [w] x) as (E1 & _ & _ & E4).
  destruct (move_all_spec m l (with_queue m (queue a m ++ l) (with_queue b [] a))) as (F1 & _ & _ & F4).
  fold x in F1, F4. rewrite F1 in E1. cbn in F4. cbn [with_queue queue] in E1. pose proof (N b) as Nb. rewrite Eq in Nb.
  apply NoDup_cons in Nb as [Hw Nl].
  assert (forall u, u ∈ w :: l -> exists timed, statuses a u = AQueued b timed) as Hq by (intros u; rewrite <- Eq; apply Q).
  assert (forall b' u timed, statuses a u = AQueued b' timed -> u ∈ w :: l <-> b' = b) as Hqb.
  { intros b' u timed E. split; [intros [timed' E']%Hq; congruence|intros ->]. rewrite <- Eq. apply Q. by exists timed. }
  assert (forall u, statuses (release_all Woken [w] x) u =
    match statuses a u with
    | AQueued b' timed => if decide (u = w) then AReleased Woken timed else AQueued (if decide (b' = b) then m else b') timed
    | st => st
    end) as Es.
  { intros u. rewrite E4, F4. destruct (decide (u = w)) as [->|Hu].
    - rewrite decide_True by set_solver. destruct (Hq w) as [timed ->]; [set_solver|done].
    - rewrite decide_False by set_solver. destruct (statuses a u) as [| |b' timed| | |] eqn:E; try done.
      f_equal. pose proof (Hqb b' u timed E). destruct (decide (u ∈ l)), (decide (b' = b)); set_solver. }
  split.
  - intros b' u. rewrite E1, Es. cbn. destruct (decide (b' = m)) as [->|Hm].
    + rewrite at_it, elem_of_app, Q. destruct (statuses a u) as [| |b1 timed| | |] eqn:E; try (by split; [intros [[? ?]|Hu]; [done|]; destruct (Hq u) as [? ?]; [set_solver|congruence]|intros [? ?]]).
      pose proof (Hqb b1 u timed E) as Hb1. destruct (decide (u = w)) as [->|Hu].
      * split; [|by intros [? ?]]. intros [[? [= -> ->]]|?]; [|done]. exfalso. apply Hbm. symmetry. apply Hb1. set_solver.
      * destruct (decide (b1 = b)) as [->|Hb].
        -- split; [by eexists|]. intros _. right. apply proj2 in Hb1. specialize (Hb1 eq_refl). set_solver.
        -- split; [intros [[? [= -> ->]]|Hu2]; [by eexists|]|intros [? [= -> ->]]; left; by eexists].
           exfalso. apply Hb, Hb1. set_solver.
    + rewrite at_other by done. destruct (decide (b' = b)) as [->|Hb].
      * rewrite at_it. split; [by intros ?%elem_of_nil|]. intros [timed E].
        destruct (statuses a u) as [| |b1 timed1| | |] eqn:E'; try done. destruct (decide (u = w)); [done|].
        destruct (decide (b1 = b)); congruence.
      * rewrite at_other, Q by done. destruct (statuses a u) as [| |b1 timed1| | |] eqn:E'; try done.
        pose proof (Hqb b1 u timed1 E') as Hb1. destruct (decide (u = w)) as [->|].
        -- split; [intros [? [= -> ->]]|by intros [? ?]]. exfalso. apply Hb, Hb1. set_solver.
        -- destruct (decide (b1 = b)) as [->|]; [|done]. split; intros [? [= ]]; congruence.
  - intros b'. rewrite E1. cbn. destruct (decide (b' = m)) as [->|Hm]; rewrite ?at_it, ?at_other by done.
    + apply NoDup_app. split; [done|]. split; [|done]. intros u [timed Hu]%Q Hl. destruct (Hq u) as [? ?]; [set_solver|]. congruence.
    + destruct (decide (b' = b)) as [->|]; rewrite ?at_it, ?at_other by done; [apply NoDup_nil_2|done].
  - intros u timed. rewrite Es. pose proof (T u timed). destruct (statuses a u) as [| |b1 timed1| | |] eqn:E'; try done.
    by destruct (decide (u = w)).
Qed.

Section Effects.
Context {kind_of : nat -> kind}.

Lemma effect_queues o a n a' : queues a -> effect kind_of o a = Some (n, a') -> queues a'.
Proof.
  intros H He. destruct o as [| b|b|b e|b m|t]; cbn in He; [done|..].
  - destruct (queue a b) as [|w l] eqn:Eq; injection He as <- <-; [done|].
    change (release Woken w ?x) with (release_all Woken [w] x). pose proof (Q_nodup _ H b) as N. rewrite Eq in N.
    apply NoDup_cons in N as [Hw N]. apply queues_release; try done; rewrite Eq; set_solver.
  - injection He as <- <-. apply queues_release; try done; [apply NoDup_nil_2|set_solver].
  - injection He as <- <-. apply queues_release; try done.
    + intros t Ht. by apply list_elem_of_filter in Ht as [].
    + apply NoDup_filter, H.
    + intros t. rewrite !list_elem_of_filter. destruct (decide (kind_of t = Fiber /\ e = Some t)); naive_solver.
  - destruct (decide (b = m)) as [|Hbm]; [done|]. destruct (queue a b) as [|w l] eqn:Eq; injection He as <- <-; [done|].
    by apply queues_requeue.
  - injection He as <- <-. destruct H. by split.
Qed.

(** Only threads that sleep are touched. *)
Lemma release_awake c t u a : ~ asleep (statuses a u) -> statuses (release c t a) u = statuses a u.
Proof.
  intros H. unfold release. destruct (statuses a t) eqn:E; try done. cbn.
  apply at_other. intros ->. rewrite E in H. by apply H.
Qed.

Lemma release_all_awake c l u a : ~ asleep (statuses a u) -> statuses (release_all c l a) u = statuses a u.
Proof.
  intros H. destruct (release_all_spec c l a) as (_ & _ & _ & E). rewrite E. case_decide; [|done].
  by destruct (statuses a u).
Qed.

Lemma effect_awake o a n a' u :
  effect kind_of o a = Some (n, a') -> ~ asleep (statuses a u) -> statuses a' u = statuses a u.
Proof.
  intros He H. destruct o as [| b|b|b e|b m|t]; cbn in He; [done|..].
  - destruct (queue a b); injection He as <- <-; [done|]. by apply (release_awake Woken n0 u (with_queue b l a)).
  - injection He as <- <-. by apply (release_all_awake _ _ u (with_queue _ _ a)).
  - injection He as <- <-. by apply (release_all_awake _ _ u (with_queue _ _ a)).
  - destruct (decide (b = m)); [done|]. destruct (queue a b) as [|w l]; injection He as <- <-; [done|].
    destruct (move_all_spec m l (with_queue m (queue a m ++ l) (with_queue b [] a))) as (_ & _ & _ & E). cbn in E.
    rewrite release_awake; rewrite E; by destruct (statuses a u).
  - by injection He as <- <-.
Qed.

Lemma effect_avalue o a n a' : effect kind_of o a = Some (n, a') -> avalue a' = avalue a.
Proof.
  intros He. destruct o as [| b|b|b e|b m|t]; cbn in He; [done|..].
  - destruct (queue a b) as [|w l]; injection He as <- <-; [done|].
    change (release Woken w ?x) with (release_all Woken [w] x). by rewrite (proj1 (proj2 (release_all_spec _ _ _))).
  - injection He as <- <-. by rewrite (proj1 (proj2 (release_all_spec _ _ _))).
  - injection He as <- <-. by rewrite (proj1 (proj2 (release_all_spec _ _ _))).
  - destruct (decide (b = m)); [done|]. destruct (queue a b) as [|w l]; injection He as <- <-; [done|].
    change (release Woken w ?x) with (release_all Woken [w] x).
    by rewrite (proj1 (proj2 (release_all_spec _ _ _))), (proj1 (proj2 (move_all_spec _ _ _))).
  - by injection He as <- <-.
Qed.

(** What happens to a thread that sleeps. *)
Lemma effect_asleep o a n a' u b timed :
  queues a -> effect kind_of o a = Some (n, a') -> statuses a u = AQueued b timed ->
  statuses a' u = AQueued b timed \/ statuses a' u = AReleased Woken timed \/
  exists m, o = Requeue b m /\ statuses a' u = AQueued m timed.
Proof.
  intros Hq He Hs.
  assert (forall l x, statuses x u = statuses a u ->
    statuses (release_all Woken l x) u = AQueued b timed \/ statuses (release_all Woken l x) u = AReleased Woken timed) as Hr.
  { intros l x E. destruct (release_all_spec Woken l x) as (_ & _ & _ & E4). rewrite E4, E, Hs. case_decide; auto. }
  destruct o as [| b0|b0|b0 e|b0 m|t]; cbn in He; [done|..].
  - destruct (queue a b0) as [|w l]; injection He as <- <-; [by left|].
    change (release Woken w ?x) with (release_all Woken [w] x). destruct (Hr [w] (with_queue b0 l a)) as [?|?]; auto.
  - injection He as <- <-. destruct (Hr (queue a b0) (with_queue b0 [] a)) as [?|?]; auto.
  - injection He as <- <-. edestruct Hr as [?|?]; [|by left|right; by left]. done.
  - destruct (decide (b0 = m)); [done|]. destruct (queue a b0) as [|w l] eqn:Eq; injection He as <- <-; [by left|].
    change (release Woken w ?x) with (release_all Woken [w] x). set (x := move_all m l _).
    destruct (release_all_spec Woken [w] x) as (_ & _ & _ & E4). rewrite E4.
    destruct (move_all_spec m l (with_queue m (queue a m ++ l) (with_queue b0 [] a))) as (_ & _ & _ & F4).
    fold x in F4. rewrite F4. cbn. rewrite Hs. destruct (decide (u ∈ [w])); [by right; left|].
    destruct (decide (u ∈ l)) as [Hl|]; [|by left]. right. right. exists m. split; [|done].
    assert (u ∈ queue a b0) as [timed' Hu]%(Q_in _ Hq) by (rewrite Eq; set_solver). congruence.
  - injection He as <- <-. by left.
Qed.

(** A queue that is not empty afterwards was not before, or somebody was woken. *)
Lemma effect_queue o a n a' b :
  queues a -> effect kind_of o a = Some (n, a') -> queue a' b <> [] -> (forall b e, o <> WakeExcept b e) ->
  (queue a b <> [] /\ o <> Wake b /\ o <> WakeAll b) \/
  exists w c timed, statuses a w = AQueued c timed /\ statuses a' w = AReleased Woken timed /\
    ((o = Wake b /\ c = b) \/ o = Requeue c b).
Proof.
  intros Hq He Hne Hx. destruct o as [| b0|b0|b0 e|b0 m|t]; cbn in He; [done|..].
  - destruct (queue a b0) as [|w l] eqn:Eq; injection He as <- <-.
    { left. split_and!; try done. congruence. }
    assert (w ∈ queue a b0) as [timed Hw]%(Q_in _ Hq) by (rewrite Eq; set_solver).
    change (release Woken w ?x) with (release_all Woken [w] x) in *.
    destruct (release_all_spec Woken [w] (with_queue b0 l a)) as (E1 & _ & _ & E4). rewrite E1 in Hne. cbn in Hne.
    destruct (decide (b = b0)) as [->|Hb].
    + right. exists w, b0, timed. rewrite E4, decide_True by set_solver. cbn. rewrite Hw. auto.
    + rewrite at_other in Hne by done. left. split_and!; congruence.
  - injection He as <- <-. rewrite (proj1 (release_all_spec _ _ _)) in Hne. cbn in Hne.
    destruct (decide (b = b0)) as [->|Hb]; [by rewrite at_it in Hne|]. rewrite at_other in Hne by done. left. split_and!; congruence.
  - by destruct (Hx b0 e).
  - destruct (decide (b0 = m)) as [|Hbm]; [done|]. destruct (queue a b0) as [|w l] eqn:Eq; injection He as <- <-; [by left|].
    assert (w ∈ queue a b0) as [timed Hw]%(Q_in _ Hq) by (rewrite Eq; set_solver).
    pose proof (Q_nodup _ Hq b0) as N. rewrite Eq in N. apply NoDup_cons in N as [Hwl _].
    change (release Woken w ?x) with (release_all Woken [w] x) in *. set (x := move_all m l _) in *.
    destruct (release_all_spec Woken [w] x) as (E1 & _ & _ & E4).
    destruct (move_all_spec m l (with_queue m (queue a m ++ l) (with_queue b0 [] a))) as (F1 & _ & _ & F4). fold x in F1, F4.
    rewrite E1, F1 in Hne. cbn in Hne, F4. destruct (decide (b = m)) as [->|Hm].
    + right. exists w, b0, timed. rewrite E4, decide_True, F4, Hw by set_solver. auto.
    + rewrite at_other in Hne by done. destruct (decide (b = b0)) as [->|Hb]; [by rewrite at_it in Hne|].
      rewrite at_other in Hne by done. by left.
  - injection He as <- <-. by left.
Qed.

Lemma astep_queues a l a' : queues a -> astep kind_of a l a' -> queues a'.
Proof.
  intros H Ha.
  assert (forall c t b timed, statuses a t = AQueued b timed -> (c = TimedOut -> timed = true) ->
    queues (release c t (with_queue b (remove t (queue a b)) a))) as Hr.
  { intros c t b timed Hs Hc. change (release c t ?x) with (release_all c [t] x). apply queues_release; try done.
    - intros u timed' Ec Hu. apply list_elem_of_singleton in Hu as ->. rewrite Hs. intros [= <-]. auto.
    - intros u ->%list_elem_of_singleton. apply (Q_in _ H). by exists timed.
    - apply NoDup_filter, H.
    - intros u. unfold remove. rewrite list_elem_of_filter. set_solver. }
  destruct Ha as [a t b v timed Hs|a t o Hs _ _|a t b x Hs|a t o n a' Hs He|a t n Hs|a t b v timed Hs _|a t b v Hs _
    |a t b v timed Hs _|a t b v timed Hs _|a t b Hs|a t b timed Hs _|a t timed _ _|a t c timed r Hs _].
  - apply queues_status; rewrite ?Hs; done || (intros []).
  - apply queues_status; rewrite ?Hs; done || (intros []).
  - destruct H. by split.
  - apply queues_status; [by eapply effect_queues|..]; try done; [|intros []].
    rewrite (effect_awake _ _ _ _ t He); rewrite Hs; intros [].
  - apply queues_status; rewrite ?Hs; done || (intros []).
  - apply queues_status; rewrite ?Hs; done || (intros []).
  - apply queues_status; rewrite ?Hs; done || (intros []).
  - apply queues_status; rewrite ?Hs; done || (intros []).
  - destruct H as [Q N T]. assert (t ∉ queue a b) as Hn by (intros [? E]%Q; congruence). split; cbn.
    + intros b' u. destruct (decide (u = t)) as [->|Hu]; rewrite ?at_it, ?at_other by done.
      * destruct (decide (b' = b)) as [->|Hb]; rewrite ?at_it, ?at_other by done.
        -- split; [by eexists|set_solver].
        -- rewrite Q, Hs. split; intros [? E]; [done|congruence].
      * destruct (decide (b' = b)) as [->|Hb]; rewrite ?at_it, ?at_other by done; [|apply Q].
        rewrite elem_of_app, Q. set_solver.
    + intros b'. destruct (decide (b' = b)) as [->|Hb]; rewrite ?at_it, ?at_other by done; [|done].
      apply NoDup_app. split; [done|]. split; [set_solver|apply NoDup_singleton].
    + intros u timed'. destruct (decide (u = t)) as [->|Hu]; rewrite ?at_it, ?at_other by done; [done|apply T].
  - by eapply Hr.
  - by eapply Hr.
  - destruct H. by split.
  - apply (queues_status t AOut a) in H; rewrite ?Hs; try done; [|intros []|intros []]. destruct H. by split.
Qed.

End Effects.

(** ** The threads *)

Section Joint.
Context (kind_of : nat -> kind) (role_of : nat -> role).

(** In a function of a condition variable. *)
Definition cond_fn (f : fn) (c m : nat) (timed : bool) : Prop :=
  role_of c = Sequence /\ role_of m = Mutex /\ f = (if timed then fiber_cond_timedwait c m else fiber_cond_wait c m).

(** In a loop of mutex_lock_contended, or mutex_timedlock_contended, and what it
    returns in the end. *)
Definition relocks (t : nat) (f : fn) (m : nat) (timed : bool) (rc1 : Z) : Prop :=
  role_of m = Mutex /\
  ((f = fiber_mutex_lock m /\ timed = false /\ rc1 = 0) \/
   (f = fiber_mutex_timedlock m /\ kind_of t = Fiber /\ rc1 = 0) \/
   (exists c, f = fiber_cond_wait c m /\ timed = false /\ rc1 = 0) \/
   (exists c, f = fiber_cond_timedwait c m /\ timed = false /\ (rc1 = 0 \/ rc1 = ETIMEDOUT))).

Definition event_fn (f : fn) (b : nat) (timed : bool) : Prop :=
  role_of b = Counter /\ f = (if timed then event_timed_wait b else event_wait b).

Definition next_ok (bd : nat -> option nat) (f : fn) (m : nat) (next : then_wait) : Prop :=
  role_of m = Mutex /\
  match next with
  | None => f = fiber_mutex_unlock m
  | Some (c, e, timed) => cond_fn f c m timed /\ bd c = Some m
  end.

(** What a function returns, and whether the thread has the mutex then. *)
Definition result_of (f : fn) (h : list nat) (r : Z) : Prop :=
  match f with
  | fiber_mutex_lock m => r = 0 /\ m ∈ h
  | fiber_mutex_trylock m => (r = 0 /\ m ∈ h) \/ r = EBUSY
  | fiber_mutex_timedlock m => (r = 0 /\ m ∈ h) \/ r = ETIMEDOUT
  | fiber_cond_wait c m => m ∈ h /\ (r = 0 \/ r = EINVAL)
  | fiber_cond_timedwait c m => m ∈ h /\ (r = 0 \/ r = EINVAL \/ r = ETIMEDOUT)
  | event_wait b => r = 0
  | event_timed_wait b => r = 0 \/ r = ETIMEDOUT
  | _ => True
  end.

Definition pc_ok (t : nat) (p : pc) (h : list nat) (bd : nat -> option nat) : Prop :=
  match p with
  | Idle | ICall (fiber_interrupt _) _ | IIn (fiber_interrupt _) _ => True
  | ICall _ _ | IIn _ _ => False
  | MFast f m =>
      role_of m = Mutex /\ (f = fiber_mutex_lock m \/ f = fiber_mutex_trylock m \/ (f = fiber_mutex_timedlock m /\ kind_of t = Fiber))
  | MExchange f m timed rc1 | MWait f m timed rc1 | MIn f m timed rc1 => relocks t f m timed rc1
  | MUnlock f m next => m ∈ h /\ next_ok bd f m next
  | MWake f m next | MWaking f m next => next_ok bd f m next
  | CLoad f c m timed | CCheck f c m _ timed | CBind f c m _ timed => cond_fn f c m timed /\ m ∈ h
  | CWait f c m _ timed | CIn f c m timed => cond_fn f c m timed /\ bd c = Some m
  | SAdd f c | SWake f c | SWaking f c => role_of c = Sequence /\ f = fiber_cond_signal c
  | BLoad f c => role_of c = Sequence /\ f = fiber_cond_broadcast c
  | BAdd f c m | BRequeue f c m | BRequeueing f c m => role_of c = Sequence /\ f = fiber_cond_broadcast c /\ bd c = Some m
  | DLoad f b timed | DIn f b timed => event_fn f b timed
  | DWait f b e timed => event_fn f b timed /\ 0 < e
  | DSub f b sig => role_of b = Counter /\ f = event_signal b sig /\ 0 <= sig < 2 ^ 31
  | DWakeAll f b | DWaking f b => role_of b = Counter /\ exists sig, f = event_signal b sig
  | DAdd f b v => role_of b = Counter /\ f = event_add_count b v /\ 0 < v < 2 ^ 31
  | DReset f b v => role_of b = Counter /\ f = event_reset b v /\ 0 < v < 2 ^ 31
  | Done f r => result_of f h r
  end.

Definition in_wait (b : nat) (v : Z -> Prop) (timed : bool) (st : status) : Prop :=
  (exists e, st = AWaiting b e timed /\ v e) \/ st = AQueued b timed \/ exists c, st = AReleased c timed.
Definition in_call (o : op) (st : status) : Prop := st = ACalled o \/ exists n, st = AReplying n.

(** Where a thread is at butex.h. *)
Definition status_ok (p : pc) (st : status) : Prop :=
  match p with
  | MIn _ m timed _ => in_wait m (fun e => e = FIBER_MUTEX_CONTENDED) timed st
  | CIn _ c m timed => in_wait c (fun _ => True) timed st \/ st = AQueued m timed
  | DIn _ b timed => in_wait b (fun e => 0 < e) timed st
  | MWaking _ m _ => in_call (Wake m) st
  | SWaking _ c => in_call (Wake c) st
  | BRequeueing _ c m => in_call (Requeue c m) st
  | DWaking _ b => in_call (WakeAll b) st
  | IIn _ t => in_call (Interrupt t) st
  | _ => st = AOut
  end.

(** A thread that will see to it that the sleepers of [b] go on: it is about to
    wake one, or to mark the mutex as contended. *)
Definition helps (b : nat) (p : pc) (st : status) : Prop :=
  match p with
  | MWake _ m _ | MExchange _ m _ _ => m = b
  | MWaking _ m _ => m = b /\ st = ACalled (Wake b)
  | MIn _ m timed _ => m = b /\ st = AReleased Woken timed
  | CIn _ _ m timed => m = b /\ exists c, st = AReleased c timed
  | DWakeAll _ b' => b' = b
  | DWaking _ b' => b' = b /\ st = ACalled (WakeAll b)
  | _ => False
  end.

(** With this value of the word somebody will be. *)
Definition guarded (b : nat) (v : Z) : Prop :=
  match role_of b with Mutex => v = FIBER_MUTEX_CONTENDED | Counter => 0 < v | Sequence => True end.

(** Who has a mutex. *)
Definition word_ok (b : nat) (v : Z) (h : nat -> list nat) : Prop :=
  match role_of b with
  | Mutex => (v = 0 /\ forall t, b ∉ h t) \/
      ((v = FIBER_MUTEX_LOCKED \/ v = FIBER_MUTEX_CONTENDED) /\ exists t, b ∈ h t /\ forall t', b ∈ h t' -> t' = t)
  | Sequence => forall t, b ∉ h t
  | Counter => - 2 ^ 31 <= v < 2 ^ 31 /\ forall t, b ∉ h t
  end.

Record Inv (a : astate) (k : cstate) : Prop := mkInv {
  I_queues : queues a;
  I_pc t : pc_ok t (pcs k t) (held k t) (bound k);
  I_status t : status_ok (pcs k t) (statuses a t);
  I_bound c m : bound k c = Some m -> role_of m = Mutex;
  I_word b : word_ok b (avalue a b) (held k);
  I_wakes b : queue a b <> [] -> guarded b (avalue a b) \/ exists t, helps b (pcs k t) (statuses a t) }.

Lemma held_role a k t m : Inv a k -> m ∈ held k t -> role_of m = Mutex.
Proof.
  intros H Hm. pose proof (I_word _ _ H m) as Hw. unfold word_ok in Hw. destruct (role_of m); [done|..]; exfalso.
  - by apply (Hw t).
  - by apply (proj2 Hw t).
Qed.

(** A thread moves on; the queues stay. *)
Lemma own_inv a k a' k' t p st :
  Inv a k -> pcs k' = <[t := p]> (pcs k) -> (forall u, u <> t -> held k' u = held k u) ->
  (forall c m, bound k c = Some m -> bound k' c = Some m) -> (forall c m, bound k' c = Some m -> role_of m = Mutex) ->
  queues a' -> (forall b, queue a' b = queue a b) -> statuses a' t = st -> (forall u, u <> t -> statuses a' u = statuses a u) ->
  pc_ok t p (held k' t) (bound k') -> status_ok p st ->
  (forall b, word_ok b (avalue a' b) (held k')) ->
  (forall b, guarded b (avalue a b) -> guarded b (avalue a' b) \/ helps b p st) ->
  (forall b, helps b (pcs k t) (statuses a t) -> guarded b (avalue a' b) \/ helps b p st) -> Inv a' k'.
Proof.
  intros [H1 H2 H3 H4 H5 H6] Ep Eh Eb Hb Hq Eq Es Eso Hp Hst Hw Hg Hh. split; try done.
  - intros u. rewrite Ep. destruct (decide (u = t)) as [->|Hu]; [by rewrite at_it|]. rewrite at_other, Eh by done.
    specialize (H2 u). destruct (pcs k u) as [| | | | |? ? [[[? ?] ?]|]|? ? [[[? ?] ?]|]|? ? [[[? ?] ?]|]| | | | | | | | | | | | | | | | | | | | | | |];
      cbn in *; try done; unfold next_ok in *; naive_solver.
  - intros u. rewrite Ep. destruct (decide (u = t)) as [->|Hu]; [by rewrite at_it, Es|]. by rewrite at_other, Eso.
  - intros b. rewrite Eq. intros Hne.
    assert (helps b p st -> exists u, helps b (pcs k' u) (statuses a' u)) as Hex.
    { intros Hx. exists t. by rewrite Ep, at_it, Es. }
    destruct (H6 b Hne) as [Hgb|[u Hu]]; [destruct (Hg b Hgb); auto|].
    destruct (decide (u = t)) as [->|Hut]; [destruct (Hh b Hu); auto|].
    right. exists u. by rewrite Ep, at_other, Eso.
Qed.

(** The same where no word is written and no mutex changes hands. *)
Lemma goto_inv a k a' t p st :
  Inv a k -> queues a' -> (forall b, avalue a' b = avalue a b) -> (forall b, queue a' b = queue a b) ->
  statuses a' t = st -> (forall u, u <> t -> statuses a' u = statuses a u) ->
  pc_ok t p (held k t) (bound k) -> status_ok p st ->
  (forall b, helps b (pcs k t) (statuses a t) -> helps b p st) -> Inv a' (goto t p k).
Proof.
  intros H Hq Ev Eq Es Eso Hp Hst Hh. apply (own_inv a k a' (goto t p k) t p st); try done; cbn.
  - apply H.
  - intros b. rewrite Ev. apply H.
  - intros b. rewrite Ev. auto.
  - intros b. rewrite Ev. auto.
Qed.

Lemma begin_inv a k t f k' :
  Inv a k -> client kind_of role_of false (Begin t f) k = Some k' -> Inv a k'.
Proof.
  intros H E. cbn in E. destruct (pcs k t) eqn:Ep; try done. case_decide as Ha; [|done]. injection E as <-.
  pose proof (I_status _ _ H t) as Hs. rewrite Ep in Hs. cbn in Hs.
  assert (begin f <> Idle /\ status_ok (begin f) AOut /\ forall b, ~ helps b (begin f) AOut) as (_ & Hb1 & Hb2).
  { destruct f; cbn; try case_match; try done; (split; [done|split; [done|]]); intros ? ?; done. }
  apply (goto_inv a k a t (begin f) AOut); try done; [apply H| |by rewrite Ep].
  pose proof (held_role a k t) as Hr.
  destruct f; cbn in *; unfold cond_fn, event_fn, next_ok; try naive_solver.
  - destruct (Z.leb_spec v 0); cbn; [done|]. naive_solver.
  - destruct (Z.ltb_spec v 0); cbn; [done|]. split_and!; try naive_solver; lia.
Qed.

Lemma end_inv a k t f r k' :
  Inv a k -> client kind_of role_of false (End t f r) k = Some k' -> Inv a k'.
Proof.
  intros H E. cbn in E. destruct (pcs k t) eqn:Ep; try done. case_decide as Hd; [|done]. injection E as <-.
  pose proof (I_status _ _ H t) as Hs. rewrite Ep in Hs. cbn in Hs.
  apply (goto_inv a k a t Idle AOut); try done; [apply H|by rewrite Ep].
Qed.

Lemma field_inv a k t k' :
  Inv a k -> client kind_of role_of false (Field t) k = Some k' -> Inv a k'.
Proof.
  intros H E. cbn in E. pose proof (I_status _ _ H t) as Hs. pose proof (I_pc _ _ H t) as Hp.
  destruct (pcs k t) as [] eqn:Ep; try done; cbn in *.
  - injection E as <-. destruct Hp as [Hc Hm]. pose proof (held_role a k t m H Hm) as Hrm.
    apply (goto_inv a k a t _ AOut); try done; [apply H|..]; case_decide; cbn; try done; rewrite ?Ep; try done.
  - destruct Hp as [Hc Hm]. destruct (bound k c) as [m'|] eqn:Eb; injection E as <-.
    + apply (goto_inv a k a t _ AOut); try done; [apply H| |by rewrite Ep]. cbn. destruct Hc as (_ & _ & ->).
      destruct timed; cbn; auto.
    + apply (own_inv a k a _ t (MUnlock f m (Some (c, e, timed))) AOut); try done; cbn.
      * intros c' m' E. rewrite at_other; [done|]. intros ->. congruence.
      * intros c' m'. destruct (decide (c' = c)) as [->|]; [rewrite at_it|rewrite at_other by done; apply H].
        intros [= <-]. apply Hc.
      * apply H.
      * split; [done|]. split; [apply Hc|]. by rewrite at_it.
      * apply H.
      * auto.
      * rewrite Ep. done.
  - injection E as <-. destruct Hp as [Hc Hf]. apply (goto_inv a k a t _ AOut); try done; [apply H|..]; destruct (bound k c) eqn:Eb; cbn; try done.
    + by rewrite Hf.
    + by rewrite Ep.
    + by rewrite Ep.
Qed.

(** ** Calls and returns *)

Lemma call_inv a k a' t o k' :
  Inv a k -> astep kind_of a (Call t o) a' -> client kind_of role_of false (At_butex (Call t o)) k = Some k' -> Inv a' k'.
Proof.
  intros H Ha E. pose proof (astep_queues a _ a' (I_queues _ _ H) Ha) as Hq.
  assert (statuses a t = AOut /\ exists st, a' = with_status t st a /\
    st = match o with Wait b v timed => AWaiting b v timed | _ => ACalled o end) as (Hs & st & -> & Hst).
  { inversion Ha; subst; (split; [done|]); eexists; (split; [done|]); [done|]. destruct o; naive_solver. }
  cbn in E. pose proof (I_pc _ _ H t) as Hp.
  destruct (calls (pcs k t)) as [[o' p]|] eqn:Ec; [|done]. cbn in E. case_decide as Ho; [|done]. subst o'. injection E as <-.
  apply (goto_inv a k _ t p st); try done; cbn.
  - by rewrite at_it.
  - intros u Hu. by rewrite at_other.
  - destruct (pcs k t); cbn in Ec; try done; injection Ec as <- <-; cbn in *; try done. naive_solver.
  - destruct (pcs k t); cbn in Ec; try done; injection Ec as <- <-; cbn in *; subst st; unfold in_wait, in_call; naive_solver.
  - intros b. destruct (pcs k t); cbn in Ec; try done; injection Ec as <- <-; cbn in *; subst st; naive_solver.
Qed.

(** What a wait returns. *)
Lemma wait_failed_spec r : wait_failed r = true <-> r <> 0 /\ r <> EWOULDBLOCK /\ r <> EINTR.
Proof. unfold wait_failed. rewrite !andb_true_iff, !negb_true_iff, !Z.eqb_neq. naive_solver. Qed.

Lemma return_frame a t r a' :
  astep kind_of a (Return t r) a' ->
  statuses a' t = AOut /\ (forall u, u <> t -> statuses a' u = statuses a u) /\ queue a' = queue a /\ avalue a' = avalue a.
Proof.
  intros Ha. inversion Ha; subst; cbn; (split; [by rewrite at_it|]); (split; [|done]); intros u Hu; by rewrite at_other.
Qed.

Lemma wait_returns a t b (v : Z -> Prop) timed r a' :
  queues a -> astep kind_of a (Return t r) a' -> in_wait b v timed (statuses a t) -> wait_failed r = true ->
  r = ETIMEDOUT /\ timed = true /\ (kind_of t = Fiber -> statuses a t <> AReleased Woken timed).
Proof.
  intros Hq Ha Hw Hr. apply wait_failed_spec in Hr as (R1 & R2 & R3). inversion Ha; subst.
  - destruct Hw as [(e & E & _)|[E|[c E]]]; congruence.
  - done.
  - split; [done|]. split; [destruct Hw as [(e & E & _)|[E|[c E]]]; congruence|congruence].
  - assert (timed0 = timed) as -> by (destruct Hw as [(e & E & _)|[E|[c' E]]]; congruence).
    match goal with H : statuses a t = AReleased c timed, R : result_ok _ c _ _ _ |- _ => rename H into Hs; rename R into Hres end.
    pose proof (Q_timed a Hq t timed) as Ht. destruct c; cbn in Hres.
    + destruct Hres as [Hres|[Hk [?|[?|[-> ->]]]]]; [by destruct (pending a t)|done..].
    + split; [done|]. split; [by apply Ht|congruence].
    + done.
    + destruct Hres as [?|[Hk [?|[-> ->]]]]; [done|done|]. split; [done|]. split; [done|congruence].
Qed.

Lemma call_returns a t r a' o :
  astep kind_of a (Return t r) a' -> in_call o (statuses a t) -> exists n, statuses a t = AReplying n.
Proof.
  intros Ha [E|H]; [|done]. inversion Ha; subst; congruence.
Qed.

Lemma cond_returns a t c m timed r a' :
  queues a -> astep kind_of a (Return t r) a' ->
  in_wait c (fun _ => True) timed (statuses a t) \/ statuses a t = AQueued m timed -> wait_failed r = true ->
  r = ETIMEDOUT /\ timed = true.
Proof.
  intros Hq Ha [Hw|Hs] Hr; [by destruct (wait_returns _ _ _ _ _ _ _ Hq Ha Hw Hr) as (? & ? & _)|].
  inversion Ha; subst; congruence.
Qed.

Lemma return_inv a k a' t r k' :
  Inv a k -> astep kind_of a (Return t r) a' -> client kind_of role_of false (At_butex (Return t r)) k = Some k' -> Inv a' k'.
Proof.
  intros H Ha E. pose proof (astep_queues a _ a' (I_queues _ _ H) Ha) as Hq. pose proof (I_queues _ _ H) as Hq0.
  destruct (return_frame a t r a' Ha) as (Hs & Hso & Eq & Ev).
  pose proof (I_pc _ _ H t) as Hp. pose proof (I_status _ _ H t) as Hst. cbn in E.
  assert (forall p, pc_ok t p (held k t) (bound k) -> status_ok p AOut ->
    (forall b, helps b (pcs k t) (statuses a t) -> helps b p AOut) -> Inv a' (goto t p k)) as Hgo.
  { intros p H1 H2 H3. by apply (goto_inv a k a' t p AOut); rewrite ?Ev, ?Eq. }
  destruct (pcs k t) eqn:Ep; try done; cbn in E; injection E as <-; cbn in Hp, Hst.
  - destruct (wait_failed r) eqn:Er; apply Hgo; cbn; try done; try naive_solver.
    + destruct (wait_returns _ _ _ _ _ _ _ Hq0 Ha Hst Er) as (-> & -> & _).
      destruct Hp as (_ & [(_ & ? & _)|[(-> & _)|[(c & _ & ? & _)|(c & _ & ? & _)]]]); try done. cbn. by right.
    + intros b [-> Hb]. destruct (wait_returns _ _ _ _ _ _ _ Hq0 Ha Hst Er) as (-> & -> & Hk).
      destruct Hp as (_ & [(_ & ? & _)|[(-> & Hf & _)|[(c & _ & ? & _)|(c & _ & ? & _)]]]); try done. by apply Hk.
  - destruct (call_returns _ _ _ _ _ Ha Hst) as [n En]. apply Hgo; cbn.
    + destruct Hp as [Hm Hn]. destruct next as [[[c e] timed]|]; cbn; [done|by rewrite Hn].
    + by destruct next as [[[c e] timed]|].
    + intros b [_ Hb]. congruence.
  - destruct Hp as [(Hc & Hm & Hf) Hb]. apply Hgo; cbn; try done; [|naive_solver].
    split; [done|]. destruct (wait_failed r) eqn:Er.
    + destruct (cond_returns _ _ _ _ _ _ _ Hq0 Ha Hst Er) as [-> ->]. right. right. right. exists c. auto.
    + destruct timed; [right; right; right|right; right; left]; exists c; auto.
  - apply Hgo; cbn; try done. by destruct Hp as [_ ->].
  - apply Hgo; cbn; try done. by destruct Hp as (_ & -> & _).
  - destruct (wait_failed r) eqn:Er; apply Hgo; cbn; try done.
    destruct (wait_returns _ _ _ _ _ _ _ Hq0 Ha Hst Er) as (-> & -> & _). destruct Hp as [_ ->]. cbn. by right.
  - destruct (call_returns _ _ _ _ _ Ha Hst) as [n En]. apply Hgo; cbn.
    + by destruct Hp as [_ [sig ->]].
    + done.
    + intros b' [_ Hb]. congruence.
  - apply Hgo; cbn; try done. by destruct f.
Qed.

(** ** Accesses *)

Lemma mutex_word b v h : role_of b = Mutex -> word_ok b v h -> v = 0 \/ v = FIBER_MUTEX_LOCKED \/ v = FIBER_MUTEX_CONTENDED.
Proof. unfold word_ok. intros ->. naive_solver. Qed.

Lemma word_ok_ext b v h h' : (forall u, b ∈ h u <-> b ∈ h' u) -> word_ok b v h -> word_ok b v h'.
Proof.
  unfold word_ok. intros Hh. destruct (role_of b).
  - intros [[Hv H]|[Hv (t & Ht & H)]]; [left|right]; (split; [done|]).
    + intros u. rewrite <- Hh. apply H.
    + exists t. rewrite <- Hh. split; [done|]. intros u. rewrite <- Hh. apply H.
  - intros H u. rewrite <- Hh. apply H.
  - intros [Hv H]. split; [done|]. intros u. rewrite <- Hh. apply H.
Qed.

(** The words, after a word was written and a mutex went to, or from, [t]. *)
Lemma words_changed a k t b new c :
  Inv a k -> word_ok b new (held (changed t c k)) -> match c with Same => True | Take m | Give m => m = b end ->
  forall b', word_ok b' (avalue (with_avalue b new a) b') (held (changed t c k)).
Proof.
  intros H Hb Hc b'. cbn. destruct (decide (b' = b)) as [->|Hne]; [by rewrite at_it|]. rewrite at_other by done.
  apply (word_ok_ext b' _ (held k)); [|apply H]. intros u.
  destruct c as [|m|m]; cbn; [done|subst m..]; (destruct (decide (u = t)) as [->|]; [rewrite at_it|by rewrite at_other]).
  - set_solver.
  - rewrite list_elem_of_filter. naive_solver.
Qed.

Lemma access_step a k t b new p c :
  Inv a k -> statuses a t = AOut -> word_ok b new (held (changed t c k)) ->
  match c with Same => True | Take m | Give m => m = b end ->
  pc_ok t p (held (changed t c k) t) (bound k) -> status_ok p AOut ->
  (guarded b (avalue a b) -> guarded b new \/ helps b p AOut) ->
  (forall b', helps b' (pcs k t) AOut -> (b' = b /\ guarded b new) \/ helps b' p AOut) ->
  Inv (with_avalue b new a) (goto t p (changed t c k)).
Proof.
  intros H Hs Hw Hc Hp Hst Hg Hh.
  apply (own_inv a k (with_avalue b new a) (goto t p (changed t c k)) t p AOut); try done.
  - by destruct c.
  - intros u Hu. destruct c; cbn; [done|by rewrite at_other..].
  - by destruct c.
  - destruct c; apply H.
  - destruct (I_queues _ _ H). by split.
  - by destruct c.
  - intros b'. apply (words_changed a k t b new c); done.
  - intros b'. cbn. destruct (decide (b' = b)) as [->|Hne]; [rewrite at_it; auto|rewrite at_other by done; auto].
  - intros b' Hb. rewrite Hs in Hb. destruct (Hh b' Hb) as [[-> Hg']|]; [left; cbn; by rewrite at_it|by right].
Qed.

Lemma take_word k t b new : role_of b = Mutex -> word_ok b 0 (held k) ->
  new = FIBER_MUTEX_LOCKED \/ new = FIBER_MUTEX_CONTENDED -> word_ok b new (held (changed t (Take b) k)).
Proof.
  unfold word_ok. intros -> Hw Hn. right. split; [done|].
  destruct Hw as [[_ H]|[[?|?] _]]; [|done..]. exists t. cbn. rewrite at_it. split; [set_solver|]. intros u.
  destruct (decide (u = t)) as [->|Hu]; [done|]. rewrite at_other by done. intros Hb. by destruct (H u).
Qed.

Lemma keep_word b old new h : role_of b = Mutex -> word_ok b old h -> old <> 0 ->
  new = FIBER_MUTEX_LOCKED \/ new = FIBER_MUTEX_CONTENDED -> word_ok b new h.
Proof. unfold word_ok. intros -> Hw Ho Hn. right. split; [done|]. by destruct Hw as [[? _]|[_ H]]. Qed.

Lemma give_word k t b old : role_of b = Mutex -> word_ok b old (held k) -> b ∈ held k t ->
  word_ok b 0 (held (changed t (Give b) k)) /\ (old = FIBER_MUTEX_LOCKED \/ old = FIBER_MUTEX_CONTENDED).
Proof.
  unfold word_ok. intros -> Hw Hb. destruct Hw as [[_ H]|[Ho (t' & Ht' & H)]]; [by destruct (H t)|]. split; [|done].
  left. split; [done|]. intros u. cbn. destruct (decide (u = t)) as [->|Hu]; rewrite ?at_it, ?at_other by done.
  - rewrite list_elem_of_filter. naive_solver.
  - intros Hu'. apply H in Hu'. apply H in Hb. congruence.
Qed.

Lemma count_word b v h h0 v0 : role_of b = Counter -> word_ok b v0 h0 -> (forall t, h t = h0 t) -> - 2 ^ 31 <= v < 2 ^ 31 -> word_ok b v h.
Proof. unfold word_ok. intros -> [_ H] Hh Hv. split; [done|]. intros t. rewrite Hh. apply H. Qed.

Lemma locked_exchange_spec v : v = 0 \/ v = FIBER_MUTEX_LOCKED \/ v = FIBER_MUTEX_CONTENDED ->
  (v = 0 /\ locked_byte v = 0 /\ set_locked v = FIBER_MUTEX_LOCKED) \/ (v <> 0 /\ locked_byte v <> 0 /\ set_locked v = v).
Proof. intros [->|[->| ->]]; [left|right..]; done. Qed.

Lemma access_inv a k t b x k' :
  Inv a k -> statuses a t = AOut -> client kind_of role_of false (At_butex (Access t b (avalue a b) x)) k = Some k' ->
  Inv (with_avalue b x a) k'.
Proof.
  intros H Hs E. cbn in E. pose proof (I_pc _ _ H t) as Hp.
  destruct (access (pcs k t) (avalue a b)) as [[[[b' x'] p] c]|] eqn:Ea; [|done]. cbn in E.
  case_decide as Hd; [|done]. destruct Hd as (<- & <- & Hrange). injection E as <-.
  pose proof (I_word _ _ H b) as Hw.
  destruct (pcs k t) eqn:Ep; cbn in Ea; try done; cbn in Hp, Hrange.
  - (* locked.exchange(1) *)
    destruct (locked_byte (avalue a b) =? 0) eqn:El; injection Ea as -> <- <- <-.
    all: destruct Hp as [Hr Hf]; pose proof (mutex_word b _ _ Hr Hw) as Hv.
    all: destruct (locked_exchange_spec _ Hv) as [(Ev & E1 & E2)|(Ev & E1 & E2)]; rewrite E2.
    2: by apply Z.eqb_eq in El. 2: by apply Z.eqb_neq in El.
    + rewrite Ev in Hw. apply access_step; try done; [apply take_word; auto| | |by rewrite Ep].
      * cbn. rewrite at_it. destruct Hf as [->|[->|[-> _]]]; cbn; [split; [done|set_solver]|left; split; [done|set_solver]..].
      * intros Hg. unfold guarded in Hg. rewrite Hr, Ev in Hg. done.
    + apply access_step; try done; [|by destruct f|auto|by rewrite Ep].
      destruct Hf as [->|[->|[-> Hk]]]; cbn; [|by right|]; split; auto.
  - (* exchange(FIBER_MUTEX_CONTENDED) *)
    pose proof Hp as [Hr Hf]. 
    destruct (Z.land (avalue a b) FIBER_MUTEX_LOCKED =? 0) eqn:El; injection Ea as -> <- <- <-;
      pose proof (mutex_word b _ _ Hr Hw) as Hv; (apply access_step; try done).
    + apply take_word; [done| |by right]. destruct Hv as [E|[E|E]]; rewrite E in El, Hw; done.
    + cbn. rewrite at_it. destruct Hf as [(-> & _ & ->)|[(-> & _ & ->)|[(c & -> & _ & ->)|(c & -> & _ & [->| ->])]]]; cbn;
        try (by split; [done|set_solver]); [left; split; [done|set_solver]|..]; (split; [set_solver|auto]).
    + left. unfold guarded. by rewrite Hr.
    + intros b' Hb. rewrite Ep in Hb. cbn in Hb. subst b'. left. unfold guarded. by rewrite Hr.
    + eapply keep_word; [done|exact Hw| |by right]. intros E. by rewrite E in El.
    + left. unfold guarded. by rewrite Hr.
    + intros b' Hb. rewrite Ep in Hb. cbn in Hb. subst b'. left. unfold guarded. by rewrite Hr.
  - (* exchange(0) *)
    injection Ea as -> <- <- <-. destruct Hp as [Hm Hn]. pose proof (held_role a k t b H Hm) as Hr.
    destruct (give_word k t b _ Hr Hw Hm) as [Hw' Hv]. apply access_step; try done.
    + destruct Hv as [->| ->]; cbn; [|done]. destruct Hn as [_ Hn]. destruct next as [[[c e] timed]|]; cbn; [done|by rewrite Hn].
    + destruct Hv as [->| ->]; cbn; [|done]. by destruct next as [[[c e] timed]|].
    + intros Hg. unfold guarded in Hg. rewrite Hr in Hg. right. by rewrite Hg.
    + by rewrite Ep.
  - injection Ea as -> <- <- <-. apply access_step; try done; [auto|by rewrite Ep].
  - injection Ea as -> <- <- <-. destruct Hp as [Hr Hf]. apply access_step; try done; [|left; unfold guarded; by rewrite Hr|by rewrite Ep].
    unfold word_ok in *. by rewrite Hr in *.
  - injection Ea as -> <- <- <-. destruct Hp as (Hr & Hf & Hb). apply access_step; try done; [|left; unfold guarded; by rewrite Hr|by rewrite Ep].
    unfold word_ok in *. by rewrite Hr in *.
  - injection Ea as -> <- <- <-. apply access_step; try done; [|by destruct (_ <=? 0)|auto|by rewrite Ep].
    destruct (Z.leb_spec (avalue a b) 0); cbn; [|done]. destruct Hp as [_ ->]. destruct timed; cbn; auto.
  - injection Ea as -> <- <- <-. destruct Hp as (Hr & Hf & Hsig). pose proof Hw as Hw0. unfold word_ok in Hw0. rewrite Hr in Hw0.
    destruct Hw0 as [Hv _]. apply access_step; try done.
    + eapply count_word; [done|exact Hw|done|by apply (wraps_range 32)].
    + destruct (sig <? _); cbn; [by rewrite Hf|eauto].
    + by destruct (sig <? _).
    + intros _. destruct (Z.ltb_spec sig (avalue a b)); [left|by right]. unfold guarded. rewrite Hr. rewrite wraps_small; lia.
    + by rewrite Ep.
  - injection Ea as -> <- <- <-. destruct Hp as (Hr & Hf & Hv). pose proof Hw as Hw0. unfold word_ok in Hw0. rewrite Hr in Hw0.
    destruct Hw0 as [Hv0 _]. apply access_step; try done.
    + eapply count_word; [done|exact Hw|done|by apply (wraps_range 32)].
    + by rewrite Hf.
    + intros Hg. left. unfold guarded in *. rewrite Hr in *. rewrite wraps_small; lia.
    + by rewrite Ep.
  - injection Ea as -> <- <- <-. destruct Hp as (Hr & Hf & Hv). apply access_step; try done.
    + eapply count_word; [done|exact Hw|done|lia].
    + by rewrite Hf.
    + intros Hg. left. unfold guarded in *. rewrite Hr in *. lia.
    + by rewrite Ep.
Qed.

(** ** Silent steps *)

(** What it means for a thread to sleep in [b]. *)
Lemma sleeper a k u b timed :
  Inv a k -> statuses a u = AQueued b timed ->
  (forall c, status_ok (pcs k u) (AReleased c timed)) /\
  (role_of b = Mutex -> helps b (pcs k u) (AReleased Woken timed)) /\
  (role_of b = Sequence -> forall m, bound k b = Some m ->
     status_ok (pcs k u) (AQueued m timed) /\ helps m (pcs k u) (AReleased Woken timed)).
Proof.
  intros H Hs. pose proof (I_status _ _ H u) as Hst. pose proof (I_pc _ _ H u) as Hp. rewrite Hs in Hst.
  destruct (pcs k u) eqn:Ep; cbn in Hst, Hp |- *; try done; unfold in_wait, in_call in *;
    try (by destruct Hst as [?|[? ?]]; congruence).
  - destruct Hst as [(? & ? & _)|[[= -> ->]|[? ?]]]; [done| |done]. destruct Hp as [Hr _].
    split; [eauto|]. split; [done|]. intros. congruence.
  - destruct Hp as [(Hc & Hm & _) Hb].
    destruct Hst as [[(? & ? & _)|[[= -> ->]|[? ?]]]|[= -> ->]]; [done| |done|]; (split; [by left; right; right; eexists|]).
    + split; [intros; congruence|]. intros _ m' Hm'. assert (m' = m) as -> by congruence. split; [by right|by split; [|eexists]].
    + split; [by split; [|eexists]|]. intros. congruence.
  - destruct Hst as [(? & ? & _)|[[= -> ->]|[? ?]]]; [done| |done]. destruct Hp as [Hr _].
    split; [eauto|]. split; intros; congruence.
Qed.

Lemma helper_awake b p st : helps b p st -> status_ok p st -> ~ asleep st.
Proof.
  intros Hh Hst. destruct p; cbn in *; try done;
    repeat match goal with H : _ /\ _ |- _ => destruct H | H : exists _, _ |- _ => destruct H end; subst; intros [].
Qed.

Definition caller (p : pc) (o : op) : Prop :=
  match p with
  | MWaking _ m _ => o = Wake m
  | SWaking _ c => o = Wake c
  | BRequeueing _ c m => o = Requeue c m
  | DWaking _ b => o = WakeAll b
  | IIn _ t => o = Interrupt t
  | _ => False
  end.

Lemma status_called p o : status_ok p (ACalled o) -> caller p o /\ forall n, status_ok p (AReplying n).
Proof.
  intros H. destruct p; cbn in *; unfold in_wait, in_call in *; try done.
  all: try (by destruct H as [[e [? _]]|[?|[c ?]]]).
  all: try (by destruct H as [[[e [? _]]|[?|[c' ?]]]|?]).
  all: destruct H as [[= ->]|[? ?]]; [|done]; split; [done|]; intros n; right; by exists n.
Qed.

(** A wake function takes effect. *)
Lemma effect_inv a k t o n a1 :
  Inv a k -> statuses a t = ACalled o -> effect kind_of o a = Some (n, a1) ->
  queues (with_status t (AReplying n) a1) -> Inv (with_status t (AReplying n) a1) k.
Proof.
  intros H Hs He Hq. pose proof H as [H1 H2 H3 H4 H5 H6]. pose proof (effect_avalue _ _ _ _ He) as Ev.
  pose proof (H3 t) as Hst. rewrite Hs in Hst. apply status_called in Hst as [Hcall Hrep].
  assert (forall u, u <> t -> ~ asleep (statuses a u) -> statuses (with_status t (AReplying n) a1) u = statuses a u) as Hawake.
  { intros u Hu Hn. cbn. rewrite at_other by done. by eapply effect_awake. }
  split; try done.
  - intros u. destruct (decide (u = t)) as [->|Hu]; [cbn; rewrite at_it; apply Hrep|].
    assert (asleep (statuses a u) \/ ~ asleep (statuses a u)) as [Ha|Ha] by (destruct (statuses a u); cbn; auto);
      [|by rewrite Hawake]. cbn. rewrite at_other by done. destruct (statuses a u) as [| |b timed| | |] eqn:Eu; try done.
    destruct (sleeper a k u b timed H Eu) as (Hrel & _ & Hmove).
    destruct (effect_asleep o a n a1 u b timed H1 He Eu) as [->|[->|[m [-> ->]]]].
    + rewrite <- Eu. apply H3.
    + apply Hrel.
    + specialize (H2 t). destruct (pcs k t); try done. cbn in Hcall, H2. injection Hcall as <- <-. by apply (Hmove (proj1 H2) m (proj2 (proj2 H2))).
  - intros b. cbn. rewrite Ev. apply H5.
  - intros b Hb. cbn in Hb |- *. rewrite Ev.
    assert (forall b' e, o <> WakeExcept b' e) as Hx by (intros b' e ->; by destruct (pcs k t)).
    destruct (effect_queue o a n a1 b H1 He Hb Hx) as [(Hb' & Ho1 & Ho2)|(w & c & timed & Hw & Hw' & Ho)].
    + destruct (H6 b Hb') as [?|[u Hu]]; [by left|]. right. exists u. pose proof (helper_awake _ _ _ Hu (H3 u)) as Ha.
      assert (u <> t) as Hut.
      { intros ->. rewrite Hs in Hu. destruct (pcs k t); cbn in *; try done; subst; naive_solver. }
      rewrite <- (Hawake u Hut Ha) in Hu. exact Hu.
    + destruct (sleeper a k w c timed H Hw) as (_ & Hmx & Hsq). assert (w <> t) as Hwt by congruence.
      assert (helps b (pcs k w) (AReleased Woken timed) -> exists u, helps b (pcs k u) ((<[t := AReplying n]> (statuses a1)) u)) as Hex.
      { intros Hh. exists w. by rewrite at_other, Hw'. }
      specialize (H2 t). destruct Ho as [[-> ->]| ->].
      * destruct (pcs k t); try done; cbn in Hcall, H2; injection Hcall as <-.
        -- right. apply Hex, Hmx. apply H2.
        -- left. unfold guarded. by rewrite (proj1 H2).
      * destruct (pcs k t); try done. cbn in Hcall, H2. injection Hcall as <- <-. right. apply Hex. by apply (Hsq (proj1 H2) b (proj2 (proj2 H2))).
Qed.

(** A silent step changes statuses and queues. *)
Lemma tau_inv a k a' :
  Inv a k -> astep kind_of a Tau a' -> Inv a' k.
Proof.
  intros H Ha. pose proof (astep_queues a _ a' (I_queues _ _ H) Ha) as Hq. pose proof H as [H1 H2 H3 H4 H5 H6].
  assert (forall t st, statuses a' t = st -> (forall u, u <> t -> statuses a' u = statuses a u) -> avalue a' = avalue a ->
    (forall b, queue a' b <> [] -> queue a b <> [] \/ guarded b (avalue a b)) -> status_ok (pcs k t) st ->
    (forall b, ~ helps b (pcs k t) (statuses a t)) -> Inv a' k) as Hone.
  { intros t st Es Eso Ev Hqu Hst Hn. split; try done.
    - intros u. destruct (decide (u = t)) as [->|Hu]; [by rewrite Es|by rewrite Eso].
    - intros b. by rewrite Ev.
    - intros b Hb. rewrite Ev. destruct (Hqu b Hb) as [Hb'|]; [|by left]. destruct (H6 b Hb') as [?|[u Hu]]; [by left|].
      right. exists u. rewrite Eso; [done|]. intros ->. by apply (Hn b). }
  assert (forall b t timed, statuses a t = AQueued b timed -> forall b', ~ helps b' (pcs k t) (statuses a t)) as Hnh.
  { intros b t timed Hs b' Hb. apply helper_awake in Hb; [|apply H3]. by rewrite Hs in Hb. }
  assert (forall c b t timed, statuses a t = AQueued b timed -> a' = release c t (with_queue b (remove t (queue a b)) a) ->
    Inv a' k) as Hrel.
  { intros c b t timed Hs ->. rewrite (ButexSteps.release_eq c t a b timed Hs) in *.
    apply (Hone t (AReleased c timed)); try done; cbn.
    - apply at_it.
    - intros u Hu. by apply at_other.
    - intros b' Hb'. left. destruct (decide (b' = b)) as [->|]; [|by rewrite at_other in Hb'].
      rewrite at_it in Hb'. intros E. by rewrite E in Hb'.
    - by apply (sleeper a k t b timed H Hs).
    - eauto. }
  inversion Ha as [| | |? t o n a1 Hs He| | | |? t b v timed Hs Hv|? t b v timed Hs Hv|? t b Hs|? t b timed Hs Hpe|? t timed Hk Hs|]; subst; clear Ha.
  - by apply (effect_inv a k t o n a1).
  - apply (Hone t (AReleased Unmatched timed)); try done; cbn.
    + apply at_it.
    + intros u Hu. by apply at_other.
    + by left.
    + specialize (H3 t). rewrite Hs in H3. destruct (pcs k t); cbn in *; unfold in_wait, in_call in *; naive_solver.
    + intros b'. specialize (H3 t). rewrite Hs in *. destruct (pcs k t); cbn in *; unfold in_wait, in_call in *; naive_solver.
  - apply (Hone t (AQueued b timed)); try done; cbn.
    + apply at_it.
    + intros u Hu. by apply at_other.
    + intros b' Hb'. destruct (decide (b' = b)) as [->|]; [right|left; by rewrite at_other in Hb'].
      specialize (H3 t). specialize (H2 t). rewrite Hs in H3. unfold guarded.
      destruct (pcs k t); cbn in *; unfold in_wait, in_call, relocks, cond_fn, event_fn in *; try (by destruct H3 as [|[]]); try done.
      * destruct H3 as [(e & [= -> -> ->] & ->)|[?|[? ?]]]; try done. by rewrite (proj1 H2).
      * destruct H3 as [[(e & [= -> -> ->] & _)|[?|[? ?]]]|?]; try done. by rewrite (proj1 (proj1 H2)).
      * destruct H3 as [(e & [= -> -> ->] & ?)|[?|[? ?]]]; try done. by rewrite (proj1 H2).
    + specialize (H3 t). rewrite Hs in H3. destruct (pcs k t); cbn in *; unfold in_wait, in_call in *; naive_solver.
    + intros b'. specialize (H3 t). rewrite Hs in *. destruct (pcs k t); cbn in *; unfold in_wait, in_call in *; naive_solver.
  - by apply (Hrel TimedOut b t true).
  - by apply (Hrel Interrupted b t timed).
  - split; try done; apply H.
Qed.

End Joint.

End FiberSyncInv.
