(* ===== verification/FiberSyncSafe.v ===== *)
(** * FiberSyncSafe: the locks of fibers, on butex.cc

    What FiberSyncInv shows on the specification holds of the machine of Butex:
    every step of it is one of the specification. *)

From stdpp Require Import functions.
From S2P Require Import Prelude ButexSpec Butex ButexInv ButexSteps ButexWakes ButexRefines FiberSync FiberSyncInv.

Module FiberSyncSafe.
Import ButexSpec ButexInv FiberSync FiberSyncInv.
Import ButexRefines (quiet).

Section Safe.
Context (kind_of : nat -> kind) (role_of : nat -> role).

Local Abbreviation Inv := (Inv kind_of role_of).
Local Abbreviation jstep := (jstep kind_of role_of false).
Local Abbreviation imove := (imove kind_of role_of false).
Local Abbreviation iruns := (iruns kind_of role_of false).

Lemma jstep_inv a k a' k' : Inv a k -> jstep (a, k) (a', k') -> Inv a' k'.
Proof.
  intros H Hj. inversion Hj as [a0 k0 l a1 k1 Ha Hc|a0 k0 e k1 Ho Hc]; subst; clear Hj.
  - destruct l as [|t o|t r|t b old new].
    + injection Hc as <-. by apply (tau_inv kind_of role_of a).
    + by apply (call_inv kind_of role_of a k a' t o).
    + by apply (return_inv kind_of role_of a k a' t r).
    + inversion Ha; subst. by apply (access_inv kind_of role_of a k t).
  - destruct e as [t f|t f r|t|l]; [| | |done].
    + by apply (begin_inv kind_of role_of a' k t f).
    + by apply (end_inv kind_of role_of a' k t f r).
    + by apply (field_inv kind_of role_of a' k t).
Qed.

Lemma taus_inv a a' k : Inv a k -> rtc (tau_step kind_of) a a' -> Inv a' k.
Proof.
  intros H Hr. induction Hr as [|a a1 a' Ha _ IH]; [done|]. apply IH. by apply (jstep_inv a k); [|eapply j_butex].
Qed.

Lemma aexec_inv a l a' k k' :
  Inv a k -> aexec kind_of a l a' -> client kind_of role_of false (At_butex l) k = Some k' -> Inv a' k'.
Proof.
  intros H Ha Hc. destruct Ha as [a' Hr|l a1 a' Hl Hr Hs].
  - injection Hc as <-. by apply (taus_inv a).
  - apply (jstep_inv a1 k); [by apply (taus_inv a)|by eapply j_butex].
Qed.

(** The machine and its users, and the specification with the same users. *)
Lemma imove_inv s g a k m s' k' :
  Sim kind_of s g a -> Inv a k -> imove m (s, k) = Some (s', k') -> exists g' a', Sim kind_of s' g' a' /\ Inv a' k'.
Proof.
  intros HS HI E. destruct m as [c|e]; unfold FiberSync.imove in E.
  - pose proof (ButexRefines.step_ok s g a c HS) as Hp.
    destruct (Butex.step kind_of (Butex.At None) c s) as [| |[l s1]]; [done|done|].
    destruct (client kind_of role_of false (At_butex l) k) as [k1|] eqn:Ec; [|done]. injection E as <- <-.
    destruct Hp as (g' & a' & Ha & HS'). exists g', a'. split; [done|]. by apply (aexec_inv a l a' k).
  - case_decide as Ho; [|done]. destruct (client kind_of role_of false e k) as [k1|] eqn:Ec; [|done]. injection E as <- <-.
    exists g, a. split; [done|]. apply (jstep_inv a k); [done|by eapply j_own].
Qed.

Lemma Inv_initial : Inv ainitial cinitial.
Proof.
  split; cbn; try done.
  - split; cbn; [|intros b; apply NoDup_nil_2|done]. intros b t. rewrite elem_of_nil. split; [done|by intros [? ?]].
  - intros b. unfold word_ok. cbn. assert (forall t : nat, b ∉ ([] : list nat)) by (intros; apply not_elem_of_nil).
    destruct (role_of b); [by left|done|]. split; [lia|done].
Qed.

Lemma iruns_inv l s g a k s' k' :
  Sim kind_of s g a -> Inv a k -> iruns l (s, k) = Some (s', k') -> exists g' a', Sim kind_of s' g' a' /\ Inv a' k'.
Proof.
  revert s g a k. induction l as [|m l IH]; intros s g a k HS HI E.
  - injection E as <- <-. eauto.
  - change (iruns (m :: l) (s, k)) with (x ← imove m (s, k); iruns l x) in E.
    destruct (imove m (s, k)) as [[s1 k1]|] eqn:Em; [|done]. cbn [mbind option_bind] in E.
    destruct (imove_inv s g a k m s1 k1 HS HI Em) as (g1 & a1 & HS1 & HI1). by apply (IH s1 g1 a1 k1).
Qed.

Lemma runs_inv l s k :
  iruns l (Butex.initial, cinitial) = Some (s, k) -> exists g a, Sim kind_of s g a /\ Inv a k.
Proof. apply iruns_inv with ButexRefines.initial_ghost ainitial; [apply ButexRefines.Sim_initial|apply Inv_initial]. Qed.

(** C8. At most one thread has a mutex, whatever threads do with fiber_mutex_lock,
    trylock, timedlock, unlock, with condition variables whose waiters move to the
    mutex, with countdown events and with fiber_interrupt, over butex.cc; and while
    one has it, the word is FIBER_MUTEX_LOCKED or FIBER_MUTEX_CONTENDED. *)
Theorem mutex_exclusion l s k m t t' :
  iruns l (Butex.initial, cinitial) = Some (s, k) -> m ∈ held k t -> m ∈ held k t' ->
  t' = t /\ (Butex.value (Butex.butexes s m) = FIBER_MUTEX_LOCKED \/ Butex.value (Butex.butexes s m) = FIBER_MUTEX_CONTENDED).
Proof.
  intros E Ht Ht'. destruct (runs_inv l s k E) as (g & a & HS & HI).
  pose proof (I_word _ _ _ _ HI m) as Hw. pose proof (held_role _ _ a k t m HI Ht) as Hr. unfold word_ok in Hw. rewrite Hr in Hw.
  rewrite (L_value _ _ _ _ _ (S_lists _ _ _ _ HS) m) in Hw.
  destruct Hw as [[_ H]|[Hv (u & _ & H)]]; [by destruct (H t)|]. split; [|done].
  by rewrite (H t Ht), (H t' Ht').
Qed.

(** C40. What the functions return: fiber_mutex_lock returns 0 and nothing else, with
    the mutex, even if it is interrupted; fiber_mutex_trylock returns EBUSY, and
    fiber_mutex_timedlock ETIMEDOUT, or they have the mutex; fiber_cond_wait and
    fiber_cond_timedwait have the mutex whatever they return, which is 0, EINVAL
    (a second mutex) or, with a time limit, ETIMEDOUT; CountdownEvent::wait
    returns 0, and timed_wait 0 or ETIMEDOUT. *)
Theorem sync_results l s k t f r :
  iruns (l ++ [Own (End t f r)]) (Butex.initial, cinitial) = Some (s, k) -> result_of f (held k t) r.
Proof.
  assert (forall x, iruns (l ++ [Own (End t f r)]) x = (y ← iruns l x; imove (Own (End t f r)) y)) as Happ.
  { induction l as [|m l IH]; intros x; cbn [app FiberSync.iruns].
    - cbn [mbind option_bind]. by destruct (imove (Own (End t f r)) x).
    - destruct (imove m x) as [y|]; [apply IH|done]. }
  rewrite Happ. destruct (iruns l (Butex.initial, cinitial)) as [[s1 k1]|] eqn:E; [|done].
  destruct (runs_inv l s1 k1 E) as (g & a & HS & HI). pose proof (I_pc _ _ _ _ HI t) as Hp.
  cbn [mbind option_bind]. unfold FiberSync.imove. rewrite decide_True by done. cbn.
  destruct (pcs k1 t); try done. case_decide as Hd; [|done]. destruct Hd as [<- <-]. cbn in Hp. intros [= <- <-]. exact Hp.
Qed.

(** Nothing moves until somebody begins to use a lock: a thread is in none of the
    functions, or it sleeps. *)
Definition resting (s : Butex.state) (k : cstate) : Prop :=
  quiet s /\ forall t, pcs k t = Idle \/ Butex.pcs s t <> Butex.Out.

Lemma resting_no_helper s g a k b t :
  Sim kind_of s g a -> Inv a k -> resting s k -> ~ helps b (pcs k t) (statuses a t).
Proof.
  intros HS HI [Hq Hr] Hh. pose proof (I_status _ _ _ _ HI t) as Hst.
  destruct (Hr t) as [Ei|Ho]; [by rewrite Ei in Hh|].
  destruct (ButexRefines.quiet_sleeper s g a t HS Hq Ho) as (b' & timed & Hs & _).
  apply helper_awake in Hh; [|done]. by rewrite Hs in Hh.
Qed.

(** C9. Nobody is forgotten: when every thread is outside of these functions or
    sleeps, and somebody sleeps on a mutex, then some thread has it, which will
    wake a sleeper when it unlocks; and if somebody sleeps on a countdown event,
    its counter is positive.  fiber_mutex_timedlock is called by fibers only: see
    [timedlock_of_pthread_loses_wake_up]. *)
Theorem sync_nobody_forgotten l s k b :
  iruns l (Butex.initial, cinitial) = Some (s, k) -> resting s k -> Butex.waiters (Butex.butexes s b) <> [] ->
  match role_of b with
  | Mutex => exists t, b ∈ held k t
  | Counter => 0 < Butex.value (Butex.butexes s b)
  | Sequence => True
  end.
Proof.
  intros E Hr Hw. destruct (runs_inv l s k E) as (g & a & HS & HI).
  assert (guarded role_of b (avalue a b)) as Hg.
  { rewrite <- (ButexRefines.queue_free s g a b HS (ButexRefines.quiet_lock s g a b HS (proj1 Hr))) in Hw.
    destruct (I_wakes _ _ _ _ HI b Hw) as [?|[t Ht]]; [done|]. by destruct (resting_no_helper s g a k b t HS HI Hr). }
  pose proof (I_word _ _ _ _ HI b) as Hok. unfold guarded in Hg. unfold word_ok in Hok.
  rewrite (L_value _ _ _ _ _ (S_lists _ _ _ _ HS) b) in Hg, Hok. destruct (role_of b); [|done|done].
  rewrite Hg in Hok. destruct Hok as [[? _]|[_ (t & Ht & _)]]; [done|by exists t].
Qed.

End Safe.

(** ** Executions *)

(** All words are mutexes. *)
Definition mutexes (b : nat) : role := Mutex.
Local Abbreviation word_0 kinds any_timedlock l := (iruns kinds mutexes any_timedlock l (Butex.initial, cinitial)).

Definition run (t n : nat) : list move := repeat (Do (Butex.Run t)) n.
Definition store (t : nat) (x : Z) : move := Do (Butex.Atomic t 0 x).
Definition locks (t : nat) : list move :=
  [Own (Begin t (fiber_mutex_lock 0)); store t 1; Own (End t (fiber_mutex_lock 0) 0)].

(** Fiber 1 has the mutex, and fiber 2 sleeps. *)
Definition one_sleeps : list move :=
  locks 1 ++ [Own (Begin 2 (fiber_mutex_lock 0)); store 2 1; store 2 257; Do (Butex.Issue 2 (Wait 0 257 false))] ++ run 2 6.

(** The end of an execution. *)
Definition final (r : option (Butex.state * cstate)) : Butex.state * cstate := default (Butex.initial, cinitial) r.

Lemma ends_in r (P : Butex.state -> cstate -> Prop) :
  bool_decide (is_Some r) = true -> P (fst (final r)) (snd (final r)) -> exists s k, r = Some (s, k) /\ P s k.
Proof. destruct r as [[s k]|]; [|done]. intros _ H. by exists s, k. Qed.

Ltac three := intros [|[|[|t]]]; vm_compute; first [done | by left | by right].

Lemma one_sleeps_ends :
  exists s k, word_0 ButexRefines.all_fibers false one_sleeps = Some (s, k) /\
    held k 1 = [0%nat] /\ resting s k /\ Butex.waiters (Butex.butexes s 0) = [2%nat].
Proof.
  apply ends_in; [reflexivity|]. split; [reflexivity|]. split; [|reflexivity].
  split; [split; [three|reflexivity]|three].
Qed.

Lemma mutex_exclusion_witness :
  exists s k, word_0 ButexRefines.all_fibers false one_sleeps = Some (s, k) /\ 0%nat ∈ held k 1 /\
    (1%nat = 1%nat /\ (Butex.value (Butex.butexes s 0) = FIBER_MUTEX_LOCKED \/ Butex.value (Butex.butexes s 0) = FIBER_MUTEX_CONTENDED)).
Proof.
  destruct one_sleeps_ends as (s & k & E & Hh & _).
  assert (0%nat ∈ held k 1) as H1 by (rewrite Hh; left). exists s, k. split; [exact E|]. split; [exact H1|].
  exact (mutex_exclusion _ _ one_sleeps s k 0 1 1 E H1 H1).
Defined.

Lemma sync_results_witness :
  exists s k, word_0 ButexRefines.all_fibers false (locks 1) = Some (s, k) /\ result_of (fiber_mutex_lock 0) (held k 1) 0.
Proof.
  destruct (ends_in (word_0 ButexRefines.all_fibers false (locks 1)) (fun _ _ => True) eq_refl I) as (s & k & E & _).
  exists s, k. split; [exact E|].
  exact (sync_results _ _ [Own (Begin 1 (fiber_mutex_lock 0)); store 1 1] s k 1 (fiber_mutex_lock 0) 0 E).
Defined.

Lemma sync_nobody_forgotten_witness :
  exists s k, word_0 ButexRefines.all_fibers false one_sleeps = Some (s, k) /\
    Butex.waiters (Butex.butexes s 0) = [2%nat] /\ exists t, 0%nat ∈ held k t.
Proof.
  destruct one_sleeps_ends as (s & k & E & _ & Hr & Hw).
  exists s, k. split; [exact E|]. split; [exact Hw|].
  apply (sync_nobody_forgotten _ _ one_sleeps s k 0 E Hr). rewrite Hw. done.
Defined.

(** Thread 0 is a pthread in fiber_mutex_timedlock whose time is over when fiber
    1 unlocks and wakes it; fiber 2 waits behind. *)
Definition woken_too_late : list move :=
  locks 1 ++
  [Own (Begin 0 (fiber_mutex_timedlock 0)); store 0 1; store 0 257; Do (Butex.Issue 0 (Wait 0 257 true))] ++ run 0 4 ++
  [Do (Butex.Overdue 0);
   Own (Begin 2 (fiber_mutex_lock 0)); store 2 257; store 2 257; Do (Butex.Issue 2 (Wait 0 257 false))] ++ run 2 6 ++
  [Own (Begin 1 (fiber_mutex_unlock 0)); store 1 0; Do (Butex.Issue 1 (Wake 0))] ++ run 1 1 ++ run 0 1 ++ run 1 1 ++ run 0 1 ++ run 1 1 ++
  [Own (End 0 (fiber_mutex_timedlock 0) ETIMEDOUT); Own (End 1 (fiber_mutex_unlock 0) 0)].

(** A pthread in fiber_mutex_timedlock uses up a wake-up and returns ETIMEDOUT: the
    mutex is free, fiber 2 sleeps on it, and all others are done. *)
Theorem timedlock_of_pthread_loses_wake_up :
  exists s k, word_0 (ButexRefines.pthread_0 Pthread) true woken_too_late = Some (s, k) /\ resting s k /\
    Butex.waiters (Butex.butexes s 0) = [2%nat] /\ Butex.value (Butex.butexes s 0) = 0 /\ forall t, held k t = [].
Proof.
  apply ends_in; [reflexivity|]. split; [split; [split; [three|reflexivity]|three]|].
  split; [reflexivity|]. split; [reflexivity|]. three.
Qed.

End FiberSyncSafe.
