(* ===== verification/DoublyBuffered.v ===== *)
(** * DoublyBuffered: utility/containers/doubly_buffered_data.h

    Two instances of the data: readers use the one at _index, a modification
    changes the other, flips _index, waits until nobody reads the old one, and
    changes that too.  Each thread has a Wrapper with a mutex and, if fibers may be
    suspended while they read ([AllowFiberSuspended]), a count of its reads of each
    instance.

    A reader, a modifier and a thread with its Wrapper are numbers; a step is one
    access of _index, the beginning or the end of a call of fn, or one section
    under a mutex.  The mutexes that are held over several steps name who holds
    them.  An instance is named by its index, [false] for 0. *)

From stdpp Require Import functions.
From S2P Require Import Prelude.

Module DoublyBuffered.

Section Data.
Context (T : Type) (AllowFiberSuspended : bool).

(** fn of ModifyWithForeground, with what it is called with: what it returns, and
    the background afterwards.  fn of Modify does not look at the foreground. *)
Definition fn : Type := T -> T -> Z * T.

(** Who waits on a condition variable. *)
Inductive waiter := Modifier (m : nat) | Exiting (w : nat).

#[global] Instance waiter_dec : EqDecision waiter.
Proof. solve_decision. Defined.

(** [mutex]: the reader that holds _mutex over several steps.  [cond]: who waits
    on _cond[0], _cond[1] and was not signalled. *)
Record Wrapper := mkWrapper {
  control : bool; mutex : option nat; ref : bool -> Z; modify_wait : bool; cond : bool -> option waiter }.

(** A reader, before: the lock of _wrappers_mutex in AddWrapper; BeginRead; the
    load of _index; AddRef and BeginReadRelease.  [RReading]: in possession of the
    ScopedPtr. *)
Inductive rpc :=
  | RIdle | RAdd (w : nat) | RLock (w : nat) | RLoad (w : nat) | RRef (w : nat) (i : bool) | RReading (w : nat) (i : bool).

(** A modifier, before: the lock of _modify_mutex; the load of _index; the call of
    fn; its return; the store of _index; the lock of _wrappers_mutex; WaitReadDone
    of the wrappers that are left; asleep there; the second call; its return. *)
Inductive mpc :=
  | MIdle | MLock (f : fn) | MIndex (f : fn) | MCall (f : fn) (bg : bool) | MFn (f : fn) (bg : bool)
  | MFlip (f : fn) (bg : bool) (ret : Z) | MWrappers (f : fn) (bg : bool) (ret : Z)
  | MWait (f : fn) (bg : bool) (ret : Z) (l : list nat) | MSleep (f : fn) (bg : bool) (ret : Z) (w : nat) (l : list nat)
  | MCall2 (f : fn) (bg : bool) (ret : Z) | MFn2 (f : fn) (bg : bool) (ret : Z).

(** A thread that exits is in ~Wrapper, before: RemoveWrapper; WaitReadDone(i);
    asleep there. *)
Inductive epc := Alive | ERemove | EWait (i : bool) | ESleep (i : bool) | Dead.

(** [writing]: the instance that fn is changing.  [running w]: the reader that is
    in Read() on thread [w]. *)
Record state := mkState {
  _data : bool -> T; writing : option bool; _index : bool;
  _wrappers : list nat; _wrappers_mutex : option nat; _modify_mutex : option nat;
  wrapper : nat -> Wrapper; running : nat -> option nat;
  rpcs : nat -> rpc; mpcs : nat -> mpc; epcs : nat -> epc }.

Definition with_data (i : bool) (x : T) (s : state) : state :=
  mkState (<[i := x]> (_data s)) None (_index s) (_wrappers s) (_wrappers_mutex s) (_modify_mutex s)
          (wrapper s) (running s) (rpcs s) (mpcs s) (epcs s).
Definition with_writing (x : option bool) (s : state) : state :=
  mkState (_data s) x (_index s) (_wrappers s) (_wrappers_mutex s) (_modify_mutex s)
          (wrapper s) (running s) (rpcs s) (mpcs s) (epcs s).
Definition with_index (x : bool) (s : state) : state :=
  mkState (_data s) (writing s) x (_wrappers s) (_wrappers_mutex s) (_modify_mutex s)
          (wrapper s) (running s) (rpcs s) (mpcs s) (epcs s).
Definition with_wrappers (x : list nat) (s : state) : state :=
  mkState (_data s) (writing s) (_index s) x (_wrappers_mutex s) (_modify_mutex s)
          (wrapper s) (running s) (rpcs s) (mpcs s) (epcs s).
Definition with_wrappers_mutex (x : option nat) (s : state) : state :=
  mkState (_data s) (writing s) (_index s) (_wrappers s) x (_modify_mutex s)
          (wrapper s) (running s) (rpcs s) (mpcs s) (epcs s).
Definition with_modify_mutex (x : option nat) (s : state) : state :=
  mkState (_data s) (writing s) (_index s) (_wrappers s) (_wrappers_mutex s) x
          (wrapper s) (running s) (rpcs s) (mpcs s) (epcs s).
Definition on_wrapper (w : nat) (f : Wrapper -> Wrapper) (s : state) : state :=
  mkState (_data s) (writing s) (_index s) (_wrappers s) (_wrappers_mutex s) (_modify_mutex s)
          (<[w := f (wrapper s w)]> (wrapper s)) (running s) (rpcs s) (mpcs s) (epcs s).
Definition with_running (w : nat) (x : option nat) (s : state) : state :=
  mkState (_data s) (writing s) (_index s) (_wrappers s) (_wrappers_mutex s) (_modify_mutex s)
          (wrapper s) (<[w := x]> (running s)) (rpcs s) (mpcs s) (epcs s).
Definition reader_at (r : nat) (p : rpc) (s : state) : state :=
  mkState (_data s) (writing s) (_index s) (_wrappers s) (_wrappers_mutex s) (_modify_mutex s)
          (wrapper s) (running s) (<[r := p]> (rpcs s)) (mpcs s) (epcs s).
Definition modifier_at (m : nat) (p : mpc) (s : state) : state :=
  mkState (_data s) (writing s) (_index s) (_wrappers s) (_wrappers_mutex s) (_modify_mutex s)
          (wrapper s) (running s) (rpcs s) (<[m := p]> (mpcs s)) (epcs s).
Definition thread_at (w : nat) (p : epc) (s : state) : state :=
  mkState (_data s) (writing s) (_index s) (_wrappers s) (_wrappers_mutex s) (_modify_mutex s)
          (wrapper s) (running s) (rpcs s) (mpcs s) (<[w := p]> (epcs s)).

(** ** Wrapper *)

Definition set_control (x : bool) (w : Wrapper) : Wrapper := mkWrapper x (mutex w) (ref w) (modify_wait w) (cond w).
Definition set_mutex (x : option nat) (w : Wrapper) : Wrapper := mkWrapper (control w) x (ref w) (modify_wait w) (cond w).
Definition set_ref (i : bool) (x : Z) (w : Wrapper) : Wrapper :=
  mkWrapper (control w) (mutex w) (<[i := x]> (ref w)) (modify_wait w) (cond w).
Definition set_modify_wait (x : bool) (w : Wrapper) : Wrapper := mkWrapper (control w) (mutex w) (ref w) x (cond w).
Definition set_cond (i : bool) (x : option waiter) (w : Wrapper) : Wrapper :=
  mkWrapper (control w) (mutex w) (ref w) (modify_wait w) (<[i := x]> (cond w)).

Definition AddRef (i : bool) (w : Wrapper) : Wrapper := set_ref i (ref w i + 1) w.
Definition SubRef (i : bool) (w : Wrapper) : Wrapper := set_ref i (ref w i - 1) w.

(** SignalReadCond *)
Definition SignalReadCond (i : bool) (w : Wrapper) : Wrapper :=
  if (ref w i =? 0) && modify_wait w then set_cond i None w else w.

(** The section of EndRead(index). *)
Definition EndRead (i : bool) (w : Wrapper) : Wrapper := SignalReadCond i (SubRef i w).

(** A round of WaitReadDone: whether it is done, or [me] waits. *)
Definition WaitReadDone (i : bool) (me : waiter) (w : Wrapper) : bool * Wrapper :=
  if AllowFiberSuspended then
    if ref w i =? 0 then (true, set_modify_wait false w) else (false, set_cond i (Some me) (set_modify_wait true w))
  else (true, w).

(** RemoveWrapper: the last one takes its place. *)
Fixpoint remove_at (w : nat) (l : list nat) : list nat :=
  match l with
  | [] => []
  | x :: l' =>
      if decide (x = w) then match last l' with Some y => y :: removelast l' | None => [] end
      else x :: remove_at w l'
  end.

(** ** Steps *)

(** What is seen: a read gets the value [x]; a reader looks at it; the read ends;
    a modification is there for later reads; Modify() returns. *)
Inductive label :=
  | Tau | Snapshot (r : nat) (x : T) | Look (r : nat) (x : T) | EndOfRead (r : nat) | Flip (f : fn) | Modified (m : nat) (ret : Z).

Inductive choice :=
  | Read (r w : nat) | Reader (r : nat) | Looks (r : nat) | Release (r : nat)
  | Modify (m : nat) (f : fn) | Modifies (m : nat)
  | Exit (w : nat) | Exits (w : nat)
  | Spurious (w : nat) (i : bool).    (* pthread_cond_wait returns without a signal *)

(** [reads_outlive]: a thread may exit while a fiber that began to read there is
    still reading. *)
Context (reads_outlive : bool).

Definition unlocked {A} (x : option nat) (r : outcome A) : outcome A := match x with None => r | Some _ => NoStep end.

Definition tau (s : state) : outcome (label * state) := Go (Tau, s).

(** Read(); a thread runs one reader at a time, and is in no other Read(). *)
Definition read_step (r : nat) (s : state) : outcome (label * state) :=
  match rpcs s r with
  | RAdd w => unlocked (_wrappers_mutex s) (tau (reader_at r (RLock w) (with_wrappers (_wrappers s ++ [w]) s)))
  | RLock w => unlocked (mutex (wrapper s w)) (tau (reader_at r (RLoad w) (on_wrapper w (set_mutex (Some r)) s)))
  | RLoad w =>
      let i := _index s in
      Go (Snapshot r (_data s i),
          if AllowFiberSuspended then reader_at r (RRef w i) s
          else reader_at r (RReading w i) (with_running w None s))
  | RRef w i => tau (reader_at r (RReading w i) (with_running w None (on_wrapper w (fun x => set_mutex None (AddRef i x)) s)))
  | _ => NoStep
  end.

(** The beginning of Read(): AddWrapper up to the mutex. *)
Definition begin_read (r w : nat) (s : state) : outcome (label * state) :=
  match rpcs s r, running s w, epcs s w with
  | RIdle, None, Alive =>
      let s := with_running w (Some r) s in
      if control (wrapper s w) then tau (reader_at r (RLock w) s)
      else tau (reader_at r (RAdd w) (on_wrapper w (set_control true) s))
  | _, _, _ => NoStep
  end.

(** ~ScopedPtr *)
Definition end_read (r : nat) (s : state) : outcome (label * state) :=
  match rpcs s r with
  | RReading w i =>
      match epcs s w with
      | Dead => Bad
      | _ =>
          if AllowFiberSuspended then
            unlocked (mutex (wrapper s w)) (Go (EndOfRead r, reader_at r RIdle (on_wrapper w (EndRead i) s)))
          else Go (EndOfRead r, reader_at r RIdle (on_wrapper w (set_mutex None) s))
      end
  | _ => NoStep
  end.

(** Modify() *)
Definition modify_step (m : nat) (s : state) : outcome (label * state) :=
  match mpcs s m with
  | MIdle => NoStep
  | MLock f => unlocked (_modify_mutex s) (tau (modifier_at m (MIndex f) (with_modify_mutex (Some m) s)))
  | MIndex f => tau (modifier_at m (MCall f (negb (_index s))) s)
  | MCall f bg => tau (modifier_at m (MFn f bg) (with_writing (Some bg) s))
  | MFn f bg =>
      let '(ret, x) := f (_data s bg) (_data s (negb bg)) in
      let s := with_data bg x s in
      if ret =? 0 then Go (Modified m 0, modifier_at m MIdle (with_modify_mutex None s))
      else tau (modifier_at m (MFlip f bg ret) s)
  | MFlip f bg ret => Go (Flip f, modifier_at m (MWrappers f (negb bg) ret) (with_index bg s))
  | MWrappers f bg ret =>
      unlocked (_wrappers_mutex s) (tau (modifier_at m (MWait f bg ret (_wrappers s)) (with_wrappers_mutex (Some m) s)))
  | MWait f bg ret [] => tau (modifier_at m (MCall2 f bg ret) (with_wrappers_mutex None s))
  | MWait f bg ret (w :: l) =>
      unlocked (mutex (wrapper s w))
        (let '(is_done, x) := WaitReadDone bg (Modifier m) (wrapper s w) in
         tau (modifier_at m (if is_done then MWait f bg ret l else MSleep f bg ret w l) (on_wrapper w (fun _ => x) s)))
  | MSleep f bg ret w l =>
      if decide (cond (wrapper s w) bg = Some (Modifier m)) then NoStep
      else tau (modifier_at m (MWait f bg ret (w :: l)) s)
  | MCall2 f bg ret => tau (modifier_at m (MFn2 f bg ret) (with_writing (Some bg) s))
  | MFn2 f bg ret =>
      let '(ret2, x) := f (_data s bg) (_data s (negb bg)) in
      Go (Modified m ret2, modifier_at m MIdle (with_modify_mutex None (with_data bg x s)))
  end.

(** A thread exits, outside of Read(). *)
Definition begin_exit (w : nat) (s : state) : outcome (label * state) :=
  match epcs s w, running s w, mutex (wrapper s w) with
  | Alive, None, None =>
      if reads_outlive || ((ref (wrapper s w) false =? 0) && (ref (wrapper s w) true =? 0))
      then tau (thread_at w ERemove s) else NoStep
  | _, _, _ => NoStep
  end.

(** ~Wrapper *)
Definition exit_step (w : nat) (s : state) : outcome (label * state) :=
  let next := if AllowFiberSuspended then EWait false else Dead in
  match epcs s w with
  | Alive | Dead => NoStep
  | ERemove =>
      if control (wrapper s w)
      then unlocked (_wrappers_mutex s) (tau (thread_at w next (with_wrappers (remove_at w (_wrappers s)) s)))
      else tau (thread_at w next s)
  | EWait i =>
      unlocked (mutex (wrapper s w))
        (let '(is_done, x) := WaitReadDone i (Exiting w) (wrapper s w) in
         tau (thread_at w (if is_done then (if i then Dead else EWait true) else ESleep i) (on_wrapper w (fun _ => x) s)))
  | ESleep i => if decide (cond (wrapper s w) i = Some (Exiting w)) then NoStep else tau (thread_at w (EWait i) s)
  end.

Definition step (c : choice) (s : state) : outcome (label * state) :=
  match c with
  | Read r w => begin_read r w s
  | Reader r => read_step r s
  | Looks r => match rpcs s r with RReading _ i => Go (Look r (_data s i), s) | _ => NoStep end
  | Release r => end_read r s
  | Modify m f => match mpcs s m with MIdle => tau (modifier_at m (MLock f) s) | _ => NoStep end
  | Modifies m => modify_step m s
  | Exit w => begin_exit w s
  | Exits w => exit_step w s
  | Spurious w i => tau (on_wrapper w (set_cond i None) s)
  end.

Fixpoint run_all (l : list choice) (s : state) : outcome (list label * state) :=
  match l with
  | [] => Go ([], s)
  | c :: l => '(a, s) ← step c s; '(ls, s) ← run_all l s; Go (a :: ls, s)
  end.

(** Both instances hold [x]; no thread has a Wrapper. *)
Definition new_wrapper : Wrapper := mkWrapper false None (fun _ => 0) false (fun _ => None).

Definition initial (x : T) : state :=
  mkState (fun _ => x) None false [] None None (fun _ => new_wrapper) (fun _ => None)
          (fun _ => RIdle) (fun _ => MIdle) (fun _ => Alive).

(** ** What is promised

    A value, and for each reader the value when it began: that is what it sees
    until it ends.  A modification takes effect at once. *)
Record aspec := mkASpec { current : T; snapshots : nat -> option T }.

Inductive astep : aspec -> label -> aspec -> Prop :=
  | a_tau a : astep a Tau a
  | a_snapshot a r :
      snapshots a r = None ->
      astep a (Snapshot r (current a)) (mkASpec (current a) (<[r := Some (current a)]> (snapshots a)))
  | a_look a r x : snapshots a r = Some x -> astep a (Look r x) a
  | a_end a r x : snapshots a r = Some x -> astep a (EndOfRead r) (mkASpec (current a) (<[r := None]> (snapshots a)))
  | a_flip a f :
      fst (f (current a) (current a)) <> 0 ->
      astep a (Flip f) (mkASpec (snd (f (current a) (current a))) (snapshots a))
  | a_modified a m ret : astep a (Modified m ret) a.

Inductive aruns : aspec -> list label -> aspec -> Prop :=
  | aruns_nil a : aruns a [] a
  | aruns_cons a l a1 ls a' : astep a l a1 -> aruns a1 ls a' -> aruns a (l :: ls) a'.

Definition ainitial (x : T) : aspec := mkASpec x (fun _ => None).

(** What the comment on Modify() asks of fn: it makes the second instance what it
    made the first, and changes nothing when it returns 0. *)
Definition coherent (f : fn) : Prop :=
  forall v, f v (snd (f v v)) = f v v /\ (fst (f v v) = 0 -> snd (f v v) = v).

End Data.

Arguments MIdle {T}.
Arguments MLock {T}.
Arguments MIndex {T}.
Arguments MCall {T}.
Arguments MFn {T}.
Arguments MFlip {T}.
Arguments MWrappers {T}.
Arguments MWait {T}.
Arguments MSleep {T}.
Arguments MCall2 {T}.
Arguments MFn2 {T}.
Arguments _data {T}.
Arguments writing {T}.
Arguments _index {T}.
Arguments _wrappers {T}.
Arguments _wrappers_mutex {T}.
Arguments _modify_mutex {T}.
Arguments wrapper {T}.
Arguments running {T}.
Arguments rpcs {T}.
Arguments mpcs {T}.
Arguments epcs {T}.
Arguments with_data {T}.
Arguments with_writing {T}.
Arguments with_index {T}.
Arguments with_wrappers {T}.
Arguments with_wrappers_mutex {T}.
Arguments with_modify_mutex {T}.
Arguments on_wrapper {T}.
Arguments with_running {T}.
Arguments reader_at {T}.
Arguments modifier_at {T}.
Arguments thread_at {T}.
Arguments Tau {T}.
Arguments Snapshot {T}.
Arguments Look {T}.
Arguments EndOfRead {T}.
Arguments Flip {T}.
Arguments Modified {T}.
Arguments Read {T}.
Arguments Reader {T}.
Arguments Looks {T}.
Arguments Release {T}.
Arguments Modify {T}.
Arguments Modifies {T}.
Arguments Exit {T}.
Arguments Exits {T}.
Arguments Spurious {T}.
Arguments step {T}.
Arguments run_all {T}.
Arguments read_step {T}.
Arguments begin_read {T}.
Arguments end_read {T}.
Arguments modify_step {T}.
Arguments begin_exit {T}.
Arguments exit_step {T}.
Arguments tau {T}.
Arguments initial {T}.
Arguments current {T}.
Arguments snapshots {T}.
Arguments mkASpec {T}.
Arguments astep {T}.
Arguments aruns {T}.
Arguments ainitial {T}.
Arguments coherent {T}.
Arguments mkState {T}.

End DoublyBuffered.
