(* ===== verification/DoublyBufferedSafe.v ===== *)
(** * DoublyBufferedSafe: readers of DoublyBuffered see one value

    The invariant, each step, and what follows: a refinement of the specification
    at the end of DoublyBuffered, and that a modification is not stuck. *)

From stdpp Require Import functions.
From S2P Require Import Prelude DoublyBuffered.

Module DoublyBufferedSafe.
Import DoublyBuffered.

Lemma removelast_last {A} (l : list A) y : last l = Some y -> removelast l ++ [y] = l.
Proof.
  induction l as [|x l IH]; [done|]. destruct l as [|z l]; [by intros [= ->]|]. intros H.
  change (removelast (x :: z :: l)) with (x :: removelast (z :: l)). cbn [app]. by rewrite IH.
Qed.

Lemma remove_at_Permutation w l : w ∈ l -> l ≡ₚ w :: remove_at w l.
Proof.
  induction l as [|x l IH]; [set_solver|]. intros Hw. cbn [remove_at]. destruct (decide (x = w)) as [->|Hx].
  - destruct (last l) as [y|] eqn:El; [|by destruct l as [|z l]; [|destruct (proj1 (last_None _) El)]].
    rewrite <- (removelast_last l y El) at 1. rewrite Permutation_app_comm. done.
  - rewrite (IH ltac:(set_solver)) at 1. apply Permutation_swap.
Qed.

Lemma remove_at_spec w l : w ∈ l -> NoDup l -> NoDup (remove_at w l) /\ forall u, u ∈ remove_at w l <-> u ∈ l /\ u <> w.
Proof.
  intros Hw Hn. pose proof (remove_at_Permutation w l Hw) as Hp. rewrite Hp in Hn. apply NoDup_cons in Hn as [Hn1 Hn2].
  split; [done|]. intros u. assert (u ∈ l <-> u = w \/ u ∈ remove_at w l) as -> by (rewrite <- elem_of_cons; by rewrite <- Hp).
  naive_solver.
Qed.

Section Safe.
Context {T : Type} (AllowFiberSuspended : bool).

Local Abbreviation state := (state T).
Local Abbreviation fn := (fn T).
Local Abbreviation mpc := (mpc T).

(** ** Where the modification is *)

Definition critical (p : mpc) : bool := match p with MIdle | MLock _ => false | _ => true end.

Definition stage (s : state) : mpc :=
  match _modify_mutex s with Some m => mpcs s m | None => MIdle end.

Definition fn_of (p : mpc) : option fn :=
  match p with
  | MIdle => None
  | MLock f | MIndex f | MCall f _ | MFn f _ | MFlip f _ _ | MWrappers f _ _ | MWait f _ _ _
  | MSleep f _ _ _ _ | MCall2 f _ _ | MFn2 f _ _ => Some f
  end.

(** The wrappers of which the reads are still waited for. *)
Definition waited (p : mpc) (all : list nat) : list nat :=
  match p with
  | MWrappers _ _ _ => all
  | MWait _ _ _ l => l
  | MSleep _ _ _ w l => w :: l
  | _ => []
  end.

Definition in_loop (p : mpc) : bool := match p with MWait _ _ _ _ | MSleep _ _ _ _ _ => true | _ => false end.

(** The instances, with [v] the current value and [i] the foreground. *)
Definition data_ok (p : mpc) (d : bool -> T) (w : option bool) (i : bool) (v : T) : Prop :=
  d i = v /\
  match p with
  | MIdle | MLock _ | MIndex _ => d (negb i) = v /\ w = None
  | MCall f bg => d (negb i) = v /\ w = None /\ bg = negb i
  | MFn f bg => d (negb i) = v /\ w = Some bg /\ bg = negb i
  | MFlip f bg ret => d bg = snd (f v v) /\ ret = fst (f v v) /\ ret <> 0 /\ w = None /\ bg = negb i
  | MWrappers f bg _ | MWait f bg _ _ | MSleep f bg _ _ _ | MCall2 f bg _ =>
      v = snd (f (d bg) (d bg)) /\ w = None /\ bg = negb i
  | MFn2 f bg _ => v = snd (f (d bg) (d bg)) /\ w = Some bg /\ bg = negb i
  end.

Definition reader_ok (r : nat) (p : rpc) (s : state) (snap : option T) : Prop :=
  let inside w := running s w = Some r /\ epcs s w = Alive /\ control (wrapper s w) = true in
  let reads w i := snap = Some (_data s i) /\ w ∈ _wrappers s /\ epcs s w = Alive /\
                   (i = _index s \/ w ∈ waited (stage s) (_wrappers s)) in
  match p with
  | RIdle => snap = None
  | RAdd w => snap = None /\ inside w /\ w ∉ _wrappers s
  | RLock w => snap = None /\ inside w /\ w ∈ _wrappers s
  | RLoad w => snap = None /\ inside w /\ w ∈ _wrappers s /\ mutex (wrapper s w) = Some r
  | RRef w i => inside w /\ reads w i /\ mutex (wrapper s w) = Some r /\ AllowFiberSuspended = true
  | RReading w i => reads w i /\ (AllowFiberSuspended = false -> mutex (wrapper s w) = Some r)
  end.

Definition in_read (w : nat) (p : rpc) : Prop :=
  match p with RAdd w' | RLock w' | RLoad w' | RRef w' _ => w' = w | _ => False end.
Definition has_mutex (w : nat) (p : rpc) : Prop :=
  match p with RLoad w' | RRef w' _ => w' = w | RReading w' _ => w' = w /\ AllowFiberSuspended = false | _ => False end.

(** The count of the reads. *)
Definition counts (f : nat -> rpc) (w : nat) (i : bool) (n : Z) : Prop :=
  if AllowFiberSuspended then
    exists l, NoDup l /\ (forall r, r ∈ l <-> f r = RReading w i) /\ n = zlen l
  else n = 0.

Record Inv (s : state) (a : aspec T) : Prop := mkInv {
  N_nodup : NoDup (_wrappers s);
  N_stage m : critical (mpcs s m) = true <-> _modify_mutex s = Some m;
  N_loop : _wrappers_mutex s = if in_loop (stage s) then _modify_mutex s else None;
  N_data : data_ok (stage s) (_data s) (writing s) (_index s) (current a);
  N_left w : w ∈ waited (stage s) (_wrappers s) -> w ∈ _wrappers s;
  N_fn m f : fn_of (mpcs s m) = Some f -> coherent f;
  N_reader r : reader_ok r (rpcs s r) s (snapshots a r);
  N_running w r : running s w = Some r -> in_read w (rpcs s r);
  N_mutex w r : mutex (wrapper s w) = Some r -> has_mutex w (rpcs s r);
  N_control w : control (wrapper s w) = true ->
    w ∈ _wrappers s \/ (exists r, rpcs s r = RAdd w) \/ (epcs s w <> Alive /\ epcs s w <> ERemove);
  N_in w : w ∈ _wrappers s -> control (wrapper s w) = true /\ (epcs s w = Alive \/ epcs s w = ERemove);
  N_ref w i : counts (rpcs s) w i (ref (wrapper s w) i);
  N_cond w i x : cond (wrapper s w) i = Some x ->
    ref (wrapper s w) i <> 0 /\ modify_wait (wrapper s w) = true /\
    exists m f ret l, x = Modifier m /\ mpcs s m = MSleep f i ret w l }.

Lemma stage_critical s a m : Inv s a -> _modify_mutex s = Some m -> critical (mpcs s m) = true.
Proof. intros H. apply H. Qed.

Lemma counts_ext f f' w i n : (forall r, f' r = RReading w i <-> f r = RReading w i) -> counts f w i n -> counts f' w i n.
Proof.
  unfold counts. intros E. destruct AllowFiberSuspended; [|done]. intros (l & Hn & Hl & Hz). exists l. split; [done|].
  split; [|done]. intros r. by rewrite Hl, E.
Qed.

(** A reader that reads is counted. *)
Lemma counts_zero f w i r : AllowFiberSuspended = true -> counts f w i 0 -> f r <> RReading w i.
Proof.
  unfold counts. intros ->. intros (l & _ & Hl & Hz) E. apply Hl in E. destruct l; [set_solver|]. unfold zlen in Hz. cbn in Hz. lia.
Qed.

Lemma counts_add f w i r n : f r <> RReading w i -> counts f w i n -> AllowFiberSuspended = true ->
  counts (<[r := RReading w i]> f) w i (n + 1).
Proof.
  unfold counts. intros Hr Hc Ha. rewrite Ha in *. destruct Hc as (l & Hn & Hl & ->). exists (r :: l). split; [|split].
  - apply NoDup_cons. split; [|done]. by rewrite Hl.
  - intros u. rewrite elem_of_cons, Hl. destruct (decide (u = r)) as [->|Hu].
    + rewrite fn_lookup_insert. naive_solver.
    + rewrite fn_lookup_insert_ne by done. naive_solver.
  - unfold zlen. cbn. lia.
Qed.

Lemma counts_sub f w i r p n : f r = RReading w i -> p <> RReading w i -> counts f w i n -> AllowFiberSuspended = true ->
  counts (<[r := p]> f) w i (n - 1).
Proof.
  unfold counts. intros Hr Hp Hc Ha. rewrite Ha in *. destruct Hc as (l & Hn & Hl & ->).
  assert (r ∈ l) as Hrl by by apply Hl. apply list_elem_of_split in Hrl as (l1 & l2 & ->).
  apply NoDup_app in Hn as (N1 & N2 & N3). apply NoDup_cons in N3 as [N3 N4].
  exists (l1 ++ l2). split; [|split].
  - apply NoDup_app. split; [done|]. split; [|done]. intros x Hx Hx2. apply (N2 x Hx). set_solver.
  - intros u. destruct (decide (u = r)) as [->|Hu].
    + rewrite fn_lookup_insert. split; [|done]. intros [Hx|Hx]%elem_of_app; [|done]. exfalso. apply (N2 r Hx). set_solver.
    + rewrite fn_lookup_insert_ne, <- Hl by done. set_solver.
  - unfold zlen. rewrite !length_app. cbn. lia.
Qed.

(** What an instance is read as. *)
Definition reading (p : rpc) : option (nat * bool) :=
  match p with RRef w i | RReading w i => Some (w, i) | _ => None end.

Lemma reader_reads r p s snap w i : reader_ok r p s snap -> reading p = Some (w, i) ->
  snap = Some (_data s i) /\ w ∈ _wrappers s /\ epcs s w = Alive /\ (i = _index s \/ w ∈ waited (stage s) (_wrappers s)).
Proof. intros H E. destruct p; cbn in E; try done; injection E as -> ->; cbn in H; naive_solver. Qed.

(** Only the mutex of a wrapper is asked for by a reader; the instance it reads
    stays, and is waited for if it is the background. *)
Lemma reader_ok_ext r p s s' snap :
  reader_ok r p s snap ->
  (forall w, running s w = Some r -> running s' w = Some r) ->
  (forall w, control (wrapper s w) = true -> control (wrapper s' w) = true) ->
  (forall w, mutex (wrapper s w) = Some r -> mutex (wrapper s' w) = Some r) ->
  (forall w, epcs s w = Alive -> in_read w p \/ reading p = Some (w, false) \/ reading p = Some (w, true) -> epcs s' w = Alive) ->
  (forall w, w ∈ _wrappers s -> in_read w p \/ reading p = Some (w, false) \/ reading p = Some (w, true) -> w ∈ _wrappers s') ->
  (forall w, p = RAdd w -> w ∉ _wrappers s -> w ∉ _wrappers s') ->
  (forall w i, reading p = Some (w, i) -> _data s' i = _data s i /\
     (i = _index s \/ w ∈ waited (stage s) (_wrappers s) -> i = _index s' \/ w ∈ waited (stage s') (_wrappers s'))) ->
  reader_ok r p s' snap.
Proof.
  intros H Hr Hc Hm He Hw Hn Hd. destruct p as [|w|w|w|w i|w i]; cbn in *.
  - done.
  - naive_solver.
  - naive_solver.
  - naive_solver.
  - destruct (Hd w i eq_refl) as [-> Hi].
    destruct H as ((Hru & Hal & Hco) & (Hs & Hwl & _ & Hix) & Hmu & Hafs).
    split_and!; auto 7.
  - destruct (Hd w i eq_refl) as [-> Hi]. destruct H as ((Hs & Hwl & Hal & Hix) & Hmu).
    split_and!; auto; [apply Hw; auto; right; destruct i; auto|apply He; auto; right; destruct i; auto].
Qed.

Lemma modifier_inv s s' a a' m p :
  Inv s a -> mpcs s' = <[m := p]> (mpcs s) -> _wrappers s' = _wrappers s -> running s' = running s ->
  rpcs s' = rpcs s -> epcs s' = epcs s -> snapshots a' = snapshots a ->
  (forall w, control (wrapper s' w) = control (wrapper s w) /\ mutex (wrapper s' w) = mutex (wrapper s w) /\
             ref (wrapper s' w) = ref (wrapper s w)) ->
  (_modify_mutex s = Some m \/ _modify_mutex s = None) ->
  _modify_mutex s' = (if critical p then Some m else None) ->
  _wrappers_mutex s' = (if in_loop p then Some m else None) ->
  data_ok p (_data s') (writing s') (_index s') (current a') ->
  (forall w, w ∈ waited p (_wrappers s) -> w ∈ _wrappers s) ->
  (forall f, fn_of p = Some f -> coherent f) ->
  (forall r w i, reading (rpcs s r) = Some (w, i) -> _data s' i = _data s i /\
     (i = _index s \/ w ∈ waited (stage s) (_wrappers s) -> i = _index s' \/ w ∈ waited p (_wrappers s))) ->
  (forall w i x, cond (wrapper s' w) i = Some x -> ref (wrapper s w) i <> 0 /\ modify_wait (wrapper s' w) = true /\
     exists m' f ret l, x = Modifier m' /\ mpcs s' m' = MSleep f i ret w l) ->
  Inv s' a'.
Proof.
  intros H Ep El Er Erp Ee Es Hw Hm Em Ewm Hd Hl Hf Hr Hc. pose proof H as [H1 H2 H3 H4 H5 H6 H7 H8 H9 H10 H11 H12 H13].
  assert (forall m', m' <> m -> critical (mpcs s m') = false) as Hother.
  { intros m' Hne. destruct (critical (mpcs s m')) eqn:E; [|done]. apply H2 in E. destruct Hm; congruence. }
  assert (stage s' = p \/ (critical p = false /\ stage s' = MIdle)) as Hst.
  { unfold stage. rewrite Em, Ep. destruct (critical p); [left; by rewrite fn_lookup_insert|by right]. }
  assert (waited (stage s') (_wrappers s) = waited p (_wrappers s)) as Hwt.
  { destruct Hst as [->|[E ->]]; [done|by destruct p]. }
  split; rewrite ?El; try done.
  - intros m'. rewrite Em, Ep. destruct (decide (m' = m)) as [->|Hne].
    + rewrite fn_lookup_insert. by destruct (critical p).
    + rewrite fn_lookup_insert_ne, Hother by done. destruct (critical p); split; congruence.
  - rewrite Ewm, Em. destruct Hst as [->|[E ->]]; [by destruct p|by destruct p].
  - destruct Hst as [->|[E ->]]; [done|]. destruct p; done.
  - by rewrite Hwt.
  - intros m' f. rewrite Ep. destruct (decide (m' = m)) as [->|Hne]; [rewrite fn_lookup_insert; auto|].
    rewrite fn_lookup_insert_ne by done. apply H6.
  - intros r. rewrite Erp, Es. apply (reader_ok_ext r _ s s'); rewrite ?El, ?Er, ?Ee; try done.
    + intros w. by rewrite (proj1 (Hw w)).
    + intros w. by rewrite (proj1 (proj2 (Hw w))).
    + intros w i Hri. rewrite Hwt. by apply (Hr r).
  - intros w r. rewrite Er, Erp. apply H8.
  - intros w r. rewrite (proj1 (proj2 (Hw w))), Erp. apply H9.
  - intros w. rewrite (proj1 (Hw w)), Erp, Ee. apply H10.
  - intros w. rewrite (proj1 (Hw w)), Ee. apply H11.
  - intros w i. rewrite (proj2 (proj2 (Hw w))), Erp. apply H12.
  - intros w i x. rewrite (proj2 (proj2 (Hw w))). apply Hc.
Qed.

(** ** Modify() *)

Definition post (a : aspec T) (r : outcome (label T * state)) : Prop :=
  match r with
  | Bad => False
  | NoStep => True
  | Go (l, s') => exists a', astep a l a' /\ Inv s' a'
  end.

Lemma published_tau a s' : Inv s' a -> post a (Go (Tau, s')).
Proof. intros H. exists a. split; [constructor|done]. Qed.

(** Nobody sleeps but the modifier that is in the loop. *)
Lemma cond_none s a m : Inv s a -> _modify_mutex s = Some m \/ _modify_mutex s = None ->
  (forall f bg ret w l, mpcs s m <> MSleep f bg ret w l) -> forall w i, cond (wrapper s w) i = None.
Proof.
  intros H Hm Hn w i. destruct (cond (wrapper s w) i) as [x|] eqn:E; [|done]. exfalso.
  destruct (N_cond _ _ H w i x E) as (_ & _ & m' & f & ret & l & _ & Hs).
  assert (_modify_mutex s = Some m') as Hm' by (apply (N_stage _ _ H); by rewrite Hs).
  assert (m' = m) as -> by (destruct Hm; congruence). by apply (Hn f i ret w l).
Qed.

(** Another begins, or waits for _modify_mutex. *)
Lemma modifier_outside s a m p :
  Inv s a -> critical (mpcs s m) = false -> critical p = false -> (forall f, fn_of p = Some f -> coherent f) ->
  Inv (modifier_at m p s) a.
Proof.
  intros H Hm Hp Hf. pose proof H as [H1 H2 H3 H4 H5 H6 H7 H8 H9 H10 H11 H12 H13].
  assert (stage (modifier_at m p s) = stage s) as Hst.
  { unfold stage. cbn. destruct (_modify_mutex s) as [m'|] eqn:E; [|done]. apply fn_lookup_insert_ne.
    intros ->. apply (N_stage _ _ H) in E. congruence. }
  split; rewrite ?Hst; cbn; try done.
  - intros m'. destruct (decide (m' = m)) as [->|Hne]; [|rewrite fn_lookup_insert_ne by done; apply H2].
    rewrite fn_lookup_insert, Hp, <- H2, Hm. done.
  - intros m' f. destruct (decide (m' = m)) as [->|Hne]; [rewrite fn_lookup_insert; auto|].
    rewrite fn_lookup_insert_ne by done. apply H6.
  - intros r. pose proof (H7 r) as Hr. apply (reader_ok_ext r _ s _ _ Hr); try done.
    intros w i _. by rewrite Hst.
  - intros w i x Hx. destruct (H13 w i x Hx) as (? & ? & m' & f & ret & l & -> & Hs). split_and!; try done.
    exists m', f, ret, l. split; [done|]. rewrite fn_lookup_insert_ne; [done|]. intros ->. by rewrite Hs in Hm.
Qed.

(** A step of the holder of _modify_mutex after which it holds it; the wrappers
    stay. *)
Lemma modifier_holds s s' a a' m p :
  Inv s a -> critical (mpcs s m) = true -> (forall f bg ret w l, mpcs s m <> MSleep f bg ret w l) ->
  mpcs s' = <[m := p]> (mpcs s) -> _wrappers s' = _wrappers s -> running s' = running s ->
  rpcs s' = rpcs s -> epcs s' = epcs s -> wrapper s' = wrapper s -> snapshots a' = snapshots a ->
  _modify_mutex s' = (if critical p then Some m else None) ->
  _wrappers_mutex s' = (if in_loop p then Some m else None) ->
  data_ok p (_data s') (writing s') (_index s') (current a') ->
  (forall w, w ∈ waited p (_wrappers s) -> w ∈ _wrappers s) -> (forall f, fn_of p = Some f -> fn_of (mpcs s m) = Some f) ->
  (forall r w i, reading (rpcs s r) = Some (w, i) -> _data s' i = _data s i /\
     (i = _index s \/ w ∈ waited (mpcs s m) (_wrappers s) -> i = _index s' \/ w ∈ waited p (_wrappers s))) ->
  Inv s' a'.
Proof.
  intros H Hcr Hns Ep El Er Erp Ee Ew Es Em Ewm Hd Hl Hf Hr.
  pose proof (proj1 (N_stage _ _ H m) Hcr) as Hm.
  assert (stage s = mpcs s m) as Hst by (unfold stage; by rewrite Hm).
  apply (modifier_inv s s' a a' m p); try done; rewrite ?Ew, ?Hst; auto.
  - intros f E. apply (N_fn _ _ H m), Hf, E.
  - intros w i x. rewrite (cond_none s a m H (or_introl Hm) Hns w i). done.
Qed.

(** Readers keep to the foreground while nothing is waited for. *)
Lemma readers_at_index s a r w i : Inv s a -> reading (rpcs s r) = Some (w, i) ->
  (forall u, u ∉ waited (stage s) (_wrappers s)) -> i = _index s.
Proof.
  intros H Hr Hn. destruct (reader_reads _ _ _ _ _ _ (N_reader _ _ H r) Hr) as (_ & _ & _ & [?|Hw]); [done|].
  by apply Hn in Hw.
Qed.

Lemma stage_at s a m : Inv s a -> critical (mpcs s m) = true -> _modify_mutex s = Some m /\ stage s = mpcs s m.
Proof. intros H Hc. pose proof (proj1 (N_stage _ _ H m) Hc) as Hm. split; [done|]. unfold stage. by rewrite Hm. Qed.

Lemma MLock_ok s a m f : Inv s a -> mpcs s m = MLock f -> post a (modify_step AllowFiberSuspended m s).
Proof.
  intros H E. unfold modify_step. rewrite E. unfold unlocked. destruct (_modify_mutex s) eqn:Hm; [done|].
  apply published_tau. pose proof (N_data _ _ H) as Hd.
  assert (stage s = MIdle) as Hst by (unfold stage; by rewrite Hm). rewrite Hst in Hd.
  apply (modifier_inv s _ a a m (MIndex f)); cbn; rewrite ?Hst; cbn; auto.
  - pose proof (N_loop _ _ H) as Hl. by rewrite Hst in Hl.
  - set_solver.
  - intros f' [= <-]. apply (N_fn _ _ H m). by rewrite E.
  - intros w i x Hx. rewrite (cond_none s a m H (or_intror Hm)) in Hx; [done|]. by rewrite E.
Qed.

(** What the invariant says of the data and of _wrappers_mutex at a step of the
    holder of _modify_mutex. *)
Ltac know_stage H E :=
  match type of E with mpcs ?s ?m = _ =>
    pose proof (N_data _ _ H) as Hd; assert (critical (mpcs s m) = true) as Hc by (by rewrite E);
    destruct (stage_at _ _ _ H Hc) as [Hm Hst]; pose proof (N_loop _ _ H) as Hl; rewrite Hst, E in Hd, Hl; unfold data_ok in Hd
  end.

Lemma MIndex_ok s a m f : Inv s a -> mpcs s m = MIndex f -> post a (modify_step AllowFiberSuspended m s).
Proof.
  intros H E. know_stage H E.
  unfold modify_step. rewrite E. apply published_tau.
  apply (modifier_holds s _ a a m (MCall f (negb (_index s)))); rewrite ?E; unfold data_ok; cbn; try done; try set_solver; naive_solver.
Qed.

Lemma MCall_ok s a m f bg : Inv s a -> mpcs s m = MCall f bg -> post a (modify_step AllowFiberSuspended m s).
Proof.
  intros H E. know_stage H E.
  unfold modify_step. rewrite E. apply published_tau.
  apply (modifier_holds s _ a a m (MFn f bg)); rewrite ?E; unfold data_ok; cbn; try done; try set_solver; naive_solver.
Qed.

Lemma not_waited s : waited (stage s) (_wrappers s) = [] -> forall u, u ∉ waited (stage s) (_wrappers s).
Proof. intros ->. set_solver. Qed.

Lemma MFn_ok s a m f bg : Inv s a -> mpcs s m = MFn f bg -> post a (modify_step AllowFiberSuspended m s).
Proof.
  intros H E. know_stage H E.
  destruct Hd as (Hi & Hd & _ & ->). unfold modify_step. rewrite E, negb_involutive, Hi, Hd.
  assert (coherent f) as Hf by (apply (N_fn _ _ H m); by rewrite E). pose proof (proj2 (Hf (current a))) as Hf0.
  assert (forall r w i, reading (rpcs s r) = Some (w, i) -> i = _index s) as Hr.
  { intros r w i Hr. apply (readers_at_index s a r w i H Hr), not_waited. by rewrite Hst, E. }
  destruct (f (current a) (current a)) as [ret x] eqn:Ef. cbn in Hf0. destruct (ret =? 0) eqn:Hz.
  - exists a. split; [constructor|]. rewrite Z.eqb_eq in Hz. rewrite (Hf0 Hz).
    apply (modifier_holds s _ a a m MIdle); rewrite ?E; unfold data_ok; cbn; try done.
    + rewrite fn_lookup_insert, fn_lookup_insert_ne by (by destruct (_index s)). done.
    + set_solver.
    + intros r w i Hri. rewrite (Hr r w i Hri), fn_lookup_insert_ne by (by destruct (_index s)). auto.
  - apply published_tau. rewrite Z.eqb_neq in Hz. apply (modifier_holds s _ a a m (MFlip f (negb (_index s)) ret)); rewrite ?E; unfold data_ok; cbn; try done.
    + rewrite fn_lookup_insert, fn_lookup_insert_ne by (by destruct (_index s)). by rewrite Ef.
    + set_solver.
    + intros r w i Hri. rewrite (Hr r w i Hri), fn_lookup_insert_ne by (by destruct (_index s)). auto.
Qed.

Lemma MFlip_ok s a m f bg ret : Inv s a -> mpcs s m = MFlip f bg ret -> post a (modify_step AllowFiberSuspended m s).
Proof.
  intros H E. know_stage H E. destruct Hd as (Hi & Hd & -> & Hz & Hw & ->).
  unfold modify_step. rewrite E. exists (mkASpec (snd (f (current a) (current a))) (snapshots a)).
  split; [by constructor|].
  apply (modifier_holds s _ a _ m (MWrappers f (negb (negb (_index s))) (fst (f (current a) (current a))))); rewrite ?E; unfold data_ok; cbn; try done.
  - rewrite negb_involutive, Hi, Hd. done.
  - intros r w i Hri. split; [done|]. intros _. right.
    by destruct (reader_reads _ _ _ _ _ _ (N_reader _ _ H r) Hri) as (_ & ? & _).
Qed.

Lemma MWrappers_ok s a m f bg ret : Inv s a -> mpcs s m = MWrappers f bg ret -> post a (modify_step AllowFiberSuspended m s).
Proof.
  intros H E. know_stage H E. unfold modify_step. rewrite E. unfold unlocked. destruct (_wrappers_mutex s); [done|].
  apply published_tau. apply (modifier_holds s _ a a m (MWait f bg ret (_wrappers s))); rewrite ?E; unfold data_ok; cbn; try done.
Qed.

Lemma MWait_nil_ok s a m f bg ret : Inv s a -> mpcs s m = MWait f bg ret [] -> post a (modify_step AllowFiberSuspended m s).
Proof.
  intros H E. know_stage H E. unfold modify_step. rewrite E. apply published_tau.
  apply (modifier_holds s _ a a m (MCall2 f bg ret)); rewrite ?E; unfold data_ok; cbn; try done; set_solver.
Qed.

Lemma MCall2_ok s a m f bg ret : Inv s a -> mpcs s m = MCall2 f bg ret -> post a (modify_step AllowFiberSuspended m s).
Proof.
  intros H E. know_stage H E. unfold modify_step. rewrite E. apply published_tau.
  apply (modifier_holds s _ a a m (MFn2 f bg ret)); rewrite ?E; unfold data_ok; cbn; try done; try set_solver; naive_solver.
Qed.

Lemma MFn2_ok s a m f bg ret : Inv s a -> mpcs s m = MFn2 f bg ret -> post a (modify_step AllowFiberSuspended m s).
Proof.
  intros H E. know_stage H E. destruct Hd as (Hi & Hv & _ & ->). unfold modify_step. rewrite E, negb_involutive, Hi.
  assert (coherent f) as Hf by (apply (N_fn _ _ H m); by rewrite E).
  pose proof (proj1 (Hf (_data s (negb (_index s))))) as Hf1. rewrite <- Hv in Hf1.
  assert (snd (f (_data s (negb (_index s))) (current a)) = current a) as Hx by by rewrite Hf1.
  destruct (f (_data s (negb (_index s))) (current a)) as [ret2 x]. cbn in Hx. subst x. exists a. split; [constructor|].
  assert (forall r w i, reading (rpcs s r) = Some (w, i) -> i = _index s) as Hr.
  { intros r w i Hr. apply (readers_at_index s a r w i H Hr), not_waited. by rewrite Hst, E. }
  apply (modifier_holds s _ a a m MIdle); rewrite ?E; unfold data_ok; cbn; try done; try set_solver.
  - rewrite fn_lookup_insert, fn_lookup_insert_ne by (by destruct (_index s)). done.
  - intros r w i Hri. rewrite (Hr r w i Hri), fn_lookup_insert_ne by (by destruct (_index s)). auto.
Qed.

(** The mutex is free and nothing is counted. *)
Lemma nobody_reads s a w i r :
  Inv s a -> mutex (wrapper s w) = None -> (AllowFiberSuspended = true -> ref (wrapper s w) i = 0) ->
  reading (rpcs s r) <> Some (w, i).
Proof.
  intros H Hm Hr E. pose proof (N_reader _ _ H r) as Hok. pose proof (N_ref _ _ H w i) as Hc.
  destruct (rpcs s r) as [| | | |w' i'|w' i'] eqn:Er; try done; injection E as -> ->; cbn in Hok.
  - destruct Hok as (_ & _ & ? & _). congruence.
  - destruct Hok as (_ & Hmu). destruct AllowFiberSuspended eqn:Ea.
    + rewrite (Hr eq_refl) in Hc. by apply (counts_zero _ _ _ r Ea Hc).
    + specialize (Hmu eq_refl). congruence.
Qed.

(** Changes of a wrapper which leave what matters to readers. *)
Lemma wrapper_kept (s : state) w x :
  control x = control (wrapper s w) -> mutex x = mutex (wrapper s w) -> ref x = ref (wrapper s w) ->
  forall u, let y := (<[w := x]> (wrapper s) : nat -> Wrapper) u in
  control y = control (wrapper s u) /\ mutex y = mutex (wrapper s u) /\ ref y = ref (wrapper s u).
Proof. intros ??? u y. unfold y. destruct (decide (u = w)) as [->|Hu]; [by rewrite fn_lookup_insert|by rewrite fn_lookup_insert_ne]. Qed.

Lemma MWait_done_ok s a m f bg ret w l x :
  Inv s a -> mpcs s m = MWait f bg ret (w :: l) -> mutex (wrapper s w) = None ->
  (AllowFiberSuspended = true -> ref (wrapper s w) bg = 0) ->
  control x = control (wrapper s w) -> mutex x = mutex (wrapper s w) -> ref x = ref (wrapper s w) -> cond x = cond (wrapper s w) ->
  Inv (modifier_at m (MWait f bg ret l) (on_wrapper w (fun _ => x) s)) a.
Proof.
  intros H E Hmu Hr Hx1 Hx2 Hx3 Hx4. know_stage H E.
  apply (modifier_inv s _ a a m (MWait f bg ret l)); cbn; auto.
  - intros u. by apply wrapper_kept.
  - by rewrite Hl.
  - intros u Hu. apply (N_left _ _ H u). rewrite Hst, E. cbn. set_solver.
  - intros f' [= <-]. apply (N_fn _ _ H m). by rewrite E.
  - intros r w' i Hri. split; [done|]. rewrite Hst, E. cbn. intros [->|Hw]; [by left|]. rewrite elem_of_cons in Hw.
    destruct Hw as [->|Hw]; [|by right]. left. destruct Hd as (_ & _ & _ & ->).
    destruct (decide (i = _index s)) as [|Hne]; [done|]. destruct (nobody_reads s a w i r H Hmu); [|done].
    replace i with (negb (_index s)) by (by destruct i, (_index s)). done.
  - assert (forall u j, cond (wrapper s u) j = None) as Hn by (apply (cond_none s a m H (or_introl Hm)); by rewrite E).
    intros u j y. destruct (decide (u = w)) as [->|Hu]; [rewrite fn_lookup_insert, Hx4, Hn|rewrite fn_lookup_insert_ne, Hn]; done.
Qed.

Lemma MWait_cons_ok s a m f bg ret w l : Inv s a -> mpcs s m = MWait f bg ret (w :: l) -> post a (modify_step AllowFiberSuspended m s).
Proof.
  intros H E. unfold modify_step. rewrite E. unfold unlocked. destruct (mutex (wrapper s w)) eqn:Hmu; [done|].
  unfold WaitReadDone. destruct AllowFiberSuspended eqn:Ea; [destruct (ref (wrapper s w) bg =? 0) eqn:Hz|];
    [rewrite Z.eqb_eq in Hz| |]; apply published_tau; [apply MWait_done_ok; auto| |apply MWait_done_ok; try congruence; auto].
  rewrite Z.eqb_neq in Hz. know_stage H E.
  assert (forall u j, cond (wrapper s u) j = None) as Hn by (apply (cond_none s a m H (or_introl Hm)); by rewrite E).
  apply (modifier_inv s _ a a m (MSleep f bg ret w l)); cbn; auto.
  - intros u. by apply wrapper_kept.
  - by rewrite Hl.
  - intros u Hu. apply (N_left _ _ H u). by rewrite Hst, E.
  - intros f' [= <-]. apply (N_fn _ _ H m). by rewrite E.
  - intros r w' i Hri. by rewrite Hst, E.
  - intros u j y. destruct (decide (u = w)) as [->|Hu]; [|rewrite fn_lookup_insert_ne, Hn by done; done].
    rewrite fn_lookup_insert. cbn. destruct (decide (j = bg)) as [->|Hj]; [|rewrite fn_lookup_insert_ne, Hn by done; done].
    rewrite fn_lookup_insert. intros [= <-]. split_and!; [done..|]. exists m, f, ret, l. by rewrite fn_lookup_insert.
Qed.

Lemma MSleep_ok s a m f bg ret w l : Inv s a -> mpcs s m = MSleep f bg ret w l -> post a (modify_step AllowFiberSuspended m s).
Proof.
  intros H E. unfold modify_step. rewrite E. destruct (decide _) as [|Hne]; [done|]. apply published_tau. know_stage H E.
  apply (modifier_inv s _ a a m (MWait f bg ret (w :: l))); cbn; auto.
  - by rewrite Hl.
  - intros u Hu. apply (N_left _ _ H u). by rewrite Hst, E.
  - intros f' [= <-]. apply (N_fn _ _ H m). by rewrite E.
  - intros r w' i Hri. by rewrite Hst, E.
  - intros u j y Hc'. destruct (N_cond _ _ H u j y Hc') as (_ & _ & m' & f' & ret' & l' & -> & Hs).
    assert (m' = m) as ->. { assert (_modify_mutex s = Some m') by (apply (N_stage _ _ H); by rewrite Hs). congruence. }
    rewrite E in Hs. by injection Hs as <- <- <- <- <-.
Qed.

Lemma modify_step_ok s a m : Inv s a -> post a (modify_step AllowFiberSuspended m s).
Proof.
  intros H. destruct (mpcs s m) as [|f|f|f bg|f bg|f bg ret|f bg ret|f bg ret [|w l]|f bg ret w l|f bg ret|f bg ret] eqn:E.
  - unfold modify_step. by rewrite E.
  - by apply (MLock_ok s a m f).
  - by apply (MIndex_ok s a m f).
  - by apply (MCall_ok s a m f bg).
  - by apply (MFn_ok s a m f bg).
  - by apply (MFlip_ok s a m f bg ret).
  - by apply (MWrappers_ok s a m f bg ret).
  - by apply (MWait_nil_ok s a m f bg ret).
  - by apply (MWait_cons_ok s a m f bg ret w l).
  - by apply (MSleep_ok s a m f bg ret w l).
  - by apply (MCall2_ok s a m f bg ret).
  - by apply (MFn2_ok s a m f bg ret).
Qed.

(** ** Read() *)

Definition thread_of (p : rpc) : option nat :=
  match p with RIdle => None | RAdd w | RLock w | RLoad w | RRef w _ | RReading w _ => Some w end.

Lemma in_read_thread w p : in_read w p -> thread_of p = Some w.
Proof. destruct p; cbn; try done; by intros ->. Qed.
Lemma has_mutex_thread w p : has_mutex w p -> thread_of p = Some w.
Proof. destruct p; cbn; try done; [by intros ->|by intros ->|by intros [-> _]]. Qed.

Lemma reading_thread w i p : reading p = Some (w, i) -> thread_of p = Some w.
Proof. destruct p; cbn; try done; by intros [= -> _]. Qed.

Lemma waited_left p l : (forall u, u ∈ waited p l -> u ∈ l) -> forall l', (forall u, u ∈ l -> u ∈ l') ->
  forall u, u ∈ waited p l' -> u ∈ l'.
Proof. intros H l' Hl u. destruct p; cbn in *; auto. Qed.
Lemma waited_mono p l l' u : (forall u, u ∈ l -> u ∈ l') -> u ∈ waited p l -> u ∈ waited p l'.
Proof. destruct p; cbn; auto. Qed.

Lemma waited_no_loop p l u : in_loop p = false -> u ∈ waited p l -> u ∈ l.
Proof. destruct p; cbn; intros Hf Hu; first [done|by apply not_elem_of_nil in Hu]. Qed.

Lemma not_in_loop s : (if in_loop (stage s) then _modify_mutex s else None) = None -> in_loop (stage s) = false.
Proof. unfold stage. destruct (_modify_mutex s) as [m|]; [|done]. by destruct (in_loop (mpcs s m)). Qed.

(** A step of reader [r] on thread [w]. *)
Lemma reader_inv s s' a a' r w p ru x add :
  Inv s a -> rpcs s' = <[r := p]> (rpcs s) ->
  thread_of p = None \/ thread_of p = Some w -> thread_of (rpcs s r) = None \/ thread_of (rpcs s r) = Some w ->
  (forall u, running s' u = if decide (u = w) then ru else running s u) ->
  (forall u, wrapper s' u = if decide (u = w) then x else wrapper s u) ->
  _wrappers s' = (if (add : bool) then _wrappers s ++ [w] else _wrappers s) ->
  (add = true -> (w ∉ _wrappers s) /\ running s w = Some r /\ control (wrapper s w) = true) ->
  _data s' = _data s -> writing s' = writing s -> _index s' = _index s -> mpcs s' = mpcs s -> epcs s' = epcs s ->
  _modify_mutex s' = _modify_mutex s -> _wrappers_mutex s' = _wrappers_mutex s ->
  current a' = current a -> (forall u, u <> r -> snapshots a' u = snapshots a u) ->
  epcs s w = Alive -> control x = true -> w ∈ _wrappers s' \/ p = RAdd w ->
  (forall u, u <> r -> running s w = Some u -> ru = Some u) ->
  (forall u, ru = Some u -> (u = r /\ in_read w p) \/ (u <> r /\ running s w = Some u)) ->
  (forall u, u <> r -> mutex (wrapper s w) = Some u -> mutex x = Some u) ->
  (forall u, mutex x = Some u -> (u = r /\ has_mutex w p) \/ (u <> r /\ mutex (wrapper s w) = Some u)) ->
  (forall i, counts (<[r := p]> (rpcs s)) w i (ref x i)) ->
  (forall i y, cond x i = Some y -> cond (wrapper s w) i = Some y /\ ref x i <> 0 /\ modify_wait x = modify_wait (wrapper s w)) ->
  reader_ok r p s' (snapshots a' r) ->
  Inv s' a'.
Proof.
  intros H Ep Hp Hp0 Eru Ewr Ew Hadd Ed Ewri Ei Em Ee Emm Ewm Ec Es Hal Hco Hin Hru1 Hru2 Hmu1 Hmu2 Hcnt Hcd Hok.
  pose proof H as [H1 H2 H3 H4 H5 H6 H7 H8 H9 H10 H11 H12 H13].
  assert (stage s' = stage s) as Hst by (unfold stage; by rewrite Emm, Em).
  assert (forall u, u ∈ _wrappers s -> u ∈ _wrappers s') as Hsub by (intros u Hu; rewrite Ew; destruct add; set_solver).
  assert (forall u, u ∈ _wrappers s' -> u <> w -> u ∈ _wrappers s) as Hsub'.
  { intros u Hu Hne. rewrite Ew in Hu. destruct add; [|done]. apply elem_of_app in Hu as [?|?]; [done|set_solver]. }
  assert (forall u, u <> w -> thread_of (rpcs s r) <> Some u) as Hth by (intros u Hu; destruct Hp0 as [->| ->]; congruence).
  assert (forall u, u <> w -> thread_of p <> Some u) as Hth' by (intros u Hu; destruct Hp as [->| ->]; congruence).
  split; rewrite ?Hst, ?Ed, ?Ewri, ?Ei, ?Em, ?Ee, ?Emm, ?Ewm, ?Ec; try done.
  - rewrite Ew. destruct add; [|done]. apply NoDup_app. split; [done|]. split; [|apply NoDup_singleton].
    destruct (Hadd eq_refl) as [? _]. set_solver.
  - by apply (waited_left _ (_wrappers s)).
  - intros u. rewrite Ep. destruct (decide (u = r)) as [->|Hu]; [by rewrite fn_lookup_insert|].
    rewrite fn_lookup_insert_ne, Es by done. apply (reader_ok_ext u _ s s' _ (H7 u)).
    + intros v. rewrite Eru. destruct (decide (v = w)) as [->|]; [by apply Hru1|done].
    + intros v. rewrite Ewr. by destruct (decide (v = w)) as [->|].
    + intros v. rewrite Ewr. destruct (decide (v = w)) as [->|]; [by apply Hmu1|done].
    + by rewrite Ee.
    + auto.
    + intros v Hv Hn Hv'. destruct (decide (v = w)) as [->|Hne]; [|by apply Hn, Hsub'].
      rewrite Ew in Hv'. destruct add; [|done]. destruct (Hadd eq_refl) as (_ & Hr & _).
      pose proof (H7 u) as Hou. rewrite Hv in Hou. destruct Hou as (_ & (Hr' & _) & _). congruence.
    + intros v i _. rewrite Ed, Ei, Hst. split; [done|]. intros [?|?]; [by left|right]. by apply (waited_mono _ (_wrappers s)).
  - intros v u. rewrite Eru, Ep. destruct (decide (v = w)) as [->|Hv].
    + intros [[-> ?]|[Hu ?]]%Hru2; [by rewrite fn_lookup_insert|]. rewrite fn_lookup_insert_ne by done. by apply H8.
    + intros Hu. pose proof (H8 v u Hu) as Hi. rewrite fn_lookup_insert_ne; [done|]. intros ->.
      by apply (Hth v Hv), in_read_thread.
  - intros v u. rewrite Ewr, Ep. destruct (decide (v = w)) as [->|Hv].
    + intros [[-> ?]|[Hu ?]]%Hmu2; [by rewrite fn_lookup_insert|]. rewrite fn_lookup_insert_ne by done. by apply H9.
    + intros Hu. pose proof (H9 v u Hu) as Hi. rewrite fn_lookup_insert_ne; [done|]. intros ->.
      by apply (Hth v Hv), has_mutex_thread.
  - intros v. rewrite Ewr, Ep. destruct (decide (v = w)) as [->|Hv].
    + intros _. destruct Hin as [?| ->]; [by left|]. right. left. exists r. by rewrite fn_lookup_insert.
    + intros Hv'. destruct (H10 v Hv') as [?|[[u Hu]|?]]; [left; auto|right; left|by right; right].
      exists u. rewrite fn_lookup_insert_ne; [done|]. intros ->. apply (Hth v Hv). by rewrite Hu.
  - intros v Hv. rewrite Ewr. destruct (decide (v = w)) as [->|Hne]; [by rewrite Hal; auto|]. apply H11. auto.
  - intros v i. rewrite Ewr, Ep. destruct (decide (v = w)) as [->|Hv]; [apply Hcnt|].
    apply (counts_ext (rpcs s)); [|apply H12]. intros u. destruct (decide (u = r)) as [->|Hu]; [|by rewrite fn_lookup_insert_ne].
    rewrite fn_lookup_insert. split; intros E; exfalso; [apply (Hth' v Hv)|apply (Hth v Hv)]; by rewrite E.
  - intros v i y. rewrite Ewr. destruct (decide (v = w)) as [->|Hv]; [|apply H13].
    intros Hy. destruct (Hcd i y Hy) as (Hy0 & Hr & Hmw). destruct (H13 w i y Hy0) as (_ & ? & ?). by rewrite Hmw.
Qed.

Lemma insert_if {A} (w : nat) (x : A) (f : nat -> A) u : <[w := x]> f u = if decide (u = w) then x else f u.
Proof. destruct (decide (u = w)) as [->|Hu]; [by rewrite fn_lookup_insert|by rewrite fn_lookup_insert_ne]. Qed.
Lemma self_if {A} (w : nat) (f : nat -> A) u : f u = if decide (u = w) then f w else f u.
Proof. by destruct (decide (u = w)) as [->|Hu]. Qed.

Lemma counts_step f w i n r p : f r <> RReading w i -> p <> RReading w i -> counts f w i n -> counts (<[r := p]> f) w i n.
Proof.
  intros Hr Hp. apply counts_ext. intros u. destruct (decide (u = r)) as [->|Hu]; [by rewrite fn_lookup_insert|by rewrite fn_lookup_insert_ne].
Qed.

Lemma data_current s a : Inv s a -> _data s (_index s) = current a.
Proof. intros H. apply (N_data _ _ H). Qed.

Lemma cond_same s a w : Inv s a -> forall i y, cond (wrapper s w) i = Some y ->
  cond (wrapper s w) i = Some y /\ ref (wrapper s w) i <> 0 /\ modify_wait (wrapper s w) = modify_wait (wrapper s w).
Proof. intros H i y Hy. by destruct (N_cond _ _ H w i y Hy) as (? & _). Qed.

Lemma begin_read_ok s a r w : Inv s a -> post a (begin_read r w s).
Proof.
  intros H. unfold begin_read. destruct (rpcs s r) eqn:E; try done. destruct (running s w) eqn:Er; [done|].
  destruct (epcs s w) eqn:Ee; try done. pose proof (N_reader _ _ H r) as Hr. rewrite E in Hr. cbn in Hr.
  assert (forall u, mutex (wrapper s w) = Some u -> u <> r).
  { intros u Hu ->. apply (N_mutex _ _ H) in Hu. by rewrite E in Hu. }
  assert (w ∈ _wrappers s -> control (wrapper s w) = true) as Hin by (intros Hw; by apply (N_in _ _ H)).
  change (wrapper (with_running w (Some r) s) w) with (wrapper s w).
  destruct (control (wrapper s w)) eqn:Hc; apply published_tau.
  - assert (w ∈ _wrappers s) as Hw.
    { destruct (N_control _ _ H w Hc) as [?|[[u Hu]|[? _]]]; [done| |done].
      pose proof (N_reader _ _ H u) as Hou. rewrite Hu in Hou. destruct Hou as (_ & (? & _) & _). congruence. }
    apply (reader_inv s _ a a r w (RLock w) (Some r) (wrapper s w) false); cbn; rewrite ?E; auto using insert_if, self_if; try done.
    + congruence.
    + naive_solver.
    + intros i. apply counts_step; [by rewrite E|done|apply (N_ref _ _ H)].
    + apply (cond_same s a w H).
    + rewrite fn_lookup_insert. done.
  - apply (reader_inv s _ a a r w (RAdd w) (Some r) (set_control true (wrapper s w)) false); cbn; rewrite ?E; auto using insert_if; try done.
    + congruence.
    + naive_solver.
    + intros i. apply counts_step; [by rewrite E|done|apply (N_ref _ _ H)].
    + apply (cond_same s a w H).
    + rewrite !fn_lookup_insert. split_and!; try done. intros Hw. by apply Hin in Hw.
Qed.

(** While a reader is in Read(), nobody else is on that thread. *)
Lemma RAdd_ok s a r w : Inv s a -> rpcs s r = RAdd w -> post a (read_step AllowFiberSuspended r s).
Proof.
  intros H E. unfold read_step. rewrite E. unfold unlocked. destruct (_wrappers_mutex s); [done|]. apply published_tau.
  pose proof (N_reader _ _ H r) as Hr. rewrite E in Hr. destruct Hr as (Hs & (Hru & Hal & Hco) & Hw).
  apply (reader_inv s _ a a r w (RLock w) (Some r) (wrapper s w) true); cbn; rewrite ?E; auto using self_if; try done.
  - intros u. rewrite <- Hru. apply self_if.
  - left. set_solver.
  - congruence.
  - naive_solver.
  - intros u Hu. right. split; [|done]. intros ->. apply (N_mutex _ _ H) in Hu. by rewrite E in Hu.
  - intros i. apply counts_step; [by rewrite E|done|apply (N_ref _ _ H)].
  - apply (cond_same s a w H).
  - split_and!; try done. set_solver.
Qed.

Lemma RLock_ok s a r w : Inv s a -> rpcs s r = RLock w -> post a (read_step AllowFiberSuspended r s).
Proof.
  intros H E. unfold read_step. rewrite E. unfold unlocked. destruct (mutex (wrapper s w)) eqn:Hm; [done|]. apply published_tau.
  pose proof (N_reader _ _ H r) as Hr. rewrite E in Hr. destruct Hr as (Hs & (Hru & Hal & Hco) & Hw).
  apply (reader_inv s _ a a r w (RLoad w) (Some r) (set_mutex (Some r) (wrapper s w)) false); cbn; rewrite ?E; auto using insert_if; try done.
  - intros u. rewrite <- Hru. apply self_if.
  - congruence.
  - naive_solver.
  - congruence.
  - naive_solver.
  - intros i. apply counts_step; [by rewrite E|done|apply (N_ref _ _ H)].
  - apply (cond_same s a w H).
  - rewrite !fn_lookup_insert. done.
Qed.

Lemma RLoad_ok s a r w : Inv s a -> rpcs s r = RLoad w -> post a (read_step AllowFiberSuspended r s).
Proof.
  intros H E. unfold read_step. rewrite E.
  pose proof (N_reader _ _ H r) as Hr. rewrite E in Hr. destruct Hr as (Hs & (Hru & Hal & Hco) & Hw & Hmu).
  rewrite (data_current s a H). exists (mkASpec (current a) (<[r := Some (current a)]> (snapshots a))).
  split; [by constructor|].
  destruct AllowFiberSuspended eqn:Ea.
  - apply (reader_inv s _ a _ r w (RRef w (_index s)) (Some r) (wrapper s w) false); cbn; rewrite ?E; auto using self_if; try done.
    + intros u. rewrite <- Hru. apply self_if.
    + intros u Hu. by rewrite fn_lookup_insert_ne.
    + congruence.
    + naive_solver.
    + rewrite Hmu. naive_solver.
    + intros i. apply counts_step; [by rewrite E|done|apply (N_ref _ _ H)].
    + apply (cond_same s a w H).
    + rewrite !fn_lookup_insert, (data_current s a H). split_and!; auto.
  - apply (reader_inv s _ a _ r w (RReading w (_index s)) None (wrapper s w) false); cbn; rewrite ?E; auto using self_if, insert_if; try done.
    + intros u Hu. by rewrite fn_lookup_insert_ne.
    + congruence.
    + rewrite Hmu. naive_solver.
    + intros i. pose proof (N_ref _ _ H w i) as Hc. unfold counts in *. by rewrite Ea in *.
    + apply (cond_same s a w H).
    + rewrite !fn_lookup_insert, (data_current s a H). split_and!; auto.
Qed.

Lemma RRef_ok s a r w i : Inv s a -> rpcs s r = RRef w i -> post a (read_step AllowFiberSuspended r s).
Proof.
  intros H E. unfold read_step. rewrite E. apply published_tau.
  pose proof (N_reader _ _ H r) as Hr. rewrite E in Hr. cbn in Hr.
  destruct Hr as ((Hru & Hal & Hco) & (Hs & Hw & _ & Hi) & Hmu & Ha).
  apply (reader_inv s _ a _ r w (RReading w i) None (set_mutex None (AddRef i (wrapper s w))) false); cbn;
    rewrite ?E; auto using insert_if; try done.
  - congruence.
  - rewrite Hmu. naive_solver.
  - intros j. destruct (decide (j = i)) as [->|Hj].
    + rewrite fn_lookup_insert. apply counts_add; [by rewrite E|apply (N_ref _ _ H)|done].
    + rewrite fn_lookup_insert_ne by done. apply counts_step; [by rewrite E|congruence|apply (N_ref _ _ H)].
  - intros j y Hy. destruct (N_cond _ _ H w j y Hy) as (Hz & Hmw & _). split_and!; [done| |done].
    destruct (decide (j = i)) as [->|Hj]; [rewrite fn_lookup_insert|by rewrite fn_lookup_insert_ne].
    pose proof (N_ref _ _ H w i) as Hc. unfold counts in Hc. rewrite Ha in Hc. destruct Hc as (l & _ & _ & ->). unfold zlen. lia.
  - split_and!; auto. rewrite Ha. done.
Qed.

(** A signal wakes who waits for the last reader. *)
Lemma EndRead_cond s a w i j y :
  Inv s a -> cond (EndRead i (wrapper s w)) j = Some y ->
  cond (wrapper s w) j = Some y /\ (<[i := ref (wrapper s w) i - 1]> (ref (wrapper s w)) : bool -> Z) j <> 0 /\
  modify_wait (wrapper s w) = modify_wait (wrapper s w).
Proof.
  intros H. unfold EndRead, SignalReadCond. cbn. rewrite fn_lookup_insert.
  destruct ((ref (wrapper s w) i - 1 =? 0) && modify_wait (wrapper s w)) eqn:Hs; cbn.
  - destruct (decide (j = i)) as [->|Hj]; [by rewrite fn_lookup_insert|]. rewrite !fn_lookup_insert_ne by done.
    apply (cond_same s a w H).
  - intros Hy. destruct (N_cond _ _ H w j y Hy) as (Hz & Hmw & _). split_and!; [done| |done].
    destruct (decide (j = i)) as [->|Hj]; [|by rewrite fn_lookup_insert_ne]. rewrite fn_lookup_insert.
    rewrite Hmw in Hs. destruct (Z.eqb_spec (ref (wrapper s w) i - 1) 0); [done|lia].
Qed.

Lemma end_read_ok s a r : Inv s a -> post a (end_read AllowFiberSuspended r s).
Proof.
  intros H. unfold end_read. destruct (rpcs s r) as [| | | | |w i] eqn:E; try done.
  pose proof (N_reader _ _ H r) as Hr. rewrite E in Hr. cbn in Hr. destruct Hr as ((Hs & Hw & Hal & Hi) & Hmu).
  destruct (N_in _ _ H w Hw) as [Hco _]. rewrite Hal.
  assert (astep a (EndOfRead r) (mkASpec (current a) (<[r := None]> (snapshots a)))) as Ha' by by apply (a_end _ a r (_data s i)).
  assert (forall u, running s w = Some u -> u <> r) as Hru.
  { intros u Hu ->. apply (N_running _ _ H) in Hu. by rewrite E in Hu. }
  destruct AllowFiberSuspended eqn:Ea.
  - unfold unlocked. destruct (mutex (wrapper s w)) eqn:Hm; [done|]. exists (mkASpec (current a) (<[r := None]> (snapshots a))).
    split; [done|]. clear Ha'.
    assert (control (EndRead i (wrapper s w)) = true /\ mutex (EndRead i (wrapper s w)) = None /\
            ref (EndRead i (wrapper s w)) = <[i := ref (wrapper s w) i - 1]> (ref (wrapper s w)) /\
            modify_wait (EndRead i (wrapper s w)) = modify_wait (wrapper s w)) as (Hx1 & Hx2 & Hx3 & Hx4).
    { unfold EndRead, SignalReadCond. destruct (_ && _); done. }
    apply (reader_inv s _ a _ r w RIdle (running s w) (EndRead i (wrapper s w)) false); cbn;
      rewrite ?E, ?Hx1, ?Hx2, ?Hx3, ?Hx4; auto using self_if, insert_if; try done.
    + intros u Hu. by rewrite fn_lookup_insert_ne.
    + congruence.
    + intros j. destruct (decide (j = i)) as [->|Hj].
      * rewrite fn_lookup_insert. apply counts_sub; [done|done|apply (N_ref _ _ H)|done].
      * rewrite fn_lookup_insert_ne by done. apply counts_step; [rewrite E; congruence|done|apply (N_ref _ _ H)].
    + intros j y. apply (EndRead_cond s a w i j y H).
    + by rewrite !fn_lookup_insert.
  - exists (mkASpec (current a) (<[r := None]> (snapshots a))). split; [done|]. specialize (Hmu eq_refl).
    apply (reader_inv s _ a _ r w RIdle (running s w) (set_mutex None (wrapper s w)) false); cbn;
      rewrite ?E; auto using self_if, insert_if; try done.
    + intros u Hu. by rewrite fn_lookup_insert_ne.
    + rewrite Hmu. naive_solver.
    + intros j. pose proof (N_ref _ _ H w j) as Hc. unfold counts in *. by rewrite Ea in *.
    + apply (cond_same s a w H).
    + by rewrite !fn_lookup_insert.
Qed.

(** ** Threads that exit *)

Lemma no_reader s a w r : Inv s a -> epcs s w <> Alive -> thread_of (rpcs s r) <> Some w.
Proof.
  intros H He E. pose proof (N_reader _ _ H r) as Hr. destruct (rpcs s r); try done; injection E as ->; cbn in Hr; naive_solver.
Qed.

Lemma exit_inv s s' a w p x :
  Inv s a -> (forall r, thread_of (rpcs s r) <> Some w) -> p <> Alive ->
  _data s' = _data s -> writing s' = writing s -> _index s' = _index s -> mpcs s' = mpcs s -> rpcs s' = rpcs s ->
  running s' = running s -> _modify_mutex s' = _modify_mutex s -> _wrappers_mutex s' = _wrappers_mutex s ->
  epcs s' = <[w := p]> (epcs s) -> (forall u, wrapper s' u = if decide (u = w) then x else wrapper s u) ->
  control x = control (wrapper s w) -> mutex x = mutex (wrapper s w) -> ref x = ref (wrapper s w) -> 
  (forall i, cond x i = None) ->
  _wrappers s' = _wrappers s \/ (_wrappers_mutex s = None /\ w ∈ _wrappers s /\ _wrappers s' = remove_at w (_wrappers s)) ->
  (p = ERemove /\ epcs s w = Alive /\ _wrappers s' = _wrappers s) \/ (p <> ERemove /\ w ∉ _wrappers s') ->
  Inv s' a.
Proof.
  intros H Hth Hp Ed Ewri Ei Em Er Eru Emm Ewm Ee Ewr Hco Hmu Href Hcd Hw Hin.
  pose proof H as [H1 H2 H3 H4 H5 H6 H7 H8 H9 H10 H11 H12 H13].
  assert (stage s' = stage s) as Hst by (unfold stage; by rewrite Emm, Em).
  assert (NoDup (_wrappers s') /\ (forall u, u ∈ _wrappers s' -> u ∈ _wrappers s) /\
          (forall u, u ∈ _wrappers s -> u <> w -> u ∈ _wrappers s')) as (Hnd & Hsub & Hsub').
  { destruct Hw as [->|(_ & Hw & ->)]; [done|]. destruct (remove_at_spec w _ Hw H1) as [? Hu].
    split_and!; [done| |]; intros u; rewrite Hu; naive_solver. }
  assert (forall u, u ∈ waited (stage s) (_wrappers s') -> u ∈ _wrappers s') as Hleft.
  { destruct Hw as [->|(Hwm & _ & _)]; [done|]. intros u. apply waited_no_loop, not_in_loop. by rewrite <- H3. }
  assert (forall u, u <> w -> u ∈ waited (stage s) (_wrappers s) -> u ∈ waited (stage s) (_wrappers s')) as Hmono.
  { intros u Hu. destruct (stage s); cbn; auto. }
  split; rewrite ?Hst, ?Ed, ?Ewri, ?Ei, ?Em, ?Er, ?Eru, ?Emm, ?Ewm; try done.
  - intros r. apply (reader_ok_ext r _ s s' _ (H7 r)).
    + by rewrite Eru.
    + intros u. rewrite Ewr. destruct (decide (u = w)) as [->|]; [by rewrite Hco|done].
    + intros u. rewrite Ewr. destruct (decide (u = w)) as [->|]; [by rewrite Hmu|done].
    + intros u Hu Hr. rewrite Ee, insert_if. destruct (decide (u = w)) as [->|]; [|done]. exfalso. apply (Hth r).
      destruct Hr as [Hr|[Hr|Hr]]; [by apply in_read_thread|by eapply reading_thread..].
    + intros u Hu Hr. apply Hsub'; [done|]. intros ->. apply (Hth r).
      destruct Hr as [Hr|[Hr|Hr]]; [by apply in_read_thread|by eapply reading_thread..].
    + intros u _ Hu Hu'. by apply Hu, Hsub.
    + intros u i Hr. rewrite Ed, Ei, Hst. split; [done|]. intros [?|Hu]; [by left|right]. apply Hmono; [|done].
      intros ->. apply (Hth r). by eapply reading_thread.
  - intros u r. rewrite Ewr. destruct (decide (u = w)) as [->|]; [rewrite Hmu|]; apply H9.
  - intros u. rewrite Ewr, Ee, insert_if. destruct (decide (u = w)) as [->|Hu].
    + intros Hc. destruct Hin as [(-> & Hal & ->)|[? ?]]; [|by right; right]. rewrite Hco in Hc.
      destruct (H10 w Hc) as [Hin|[[r Hr]|[? _]]]; [|by destruct (Hth r); rewrite Hr|done].
      by left.
    + intros Hc. destruct (H10 u Hc) as [?|?]; [left; auto|by right].
  - intros u Hu. rewrite Ewr, Ee, insert_if. destruct (decide (u = w)) as [->|]; [|by apply H11, Hsub].
    rewrite Hco. destruct Hin as [(-> & Hal & _)|[? ?]]; [|done]. split; [by apply H11, Hsub|by right].
  - intros u i. rewrite Ewr. destruct (decide (u = w)) as [->|]; [rewrite Href|]; apply H12.
  - intros u i y. rewrite Ewr. destruct (decide (u = w)) as [->|]; [by rewrite Hcd|]. apply H13.
Qed.

(** Nothing is counted of a thread without readers, so nobody waits there. *)
Lemma not_counted s a w i : Inv s a -> (forall r, thread_of (rpcs s r) <> Some w) -> ref (wrapper s w) i = 0.
Proof.
  intros H Hth. pose proof (N_ref _ _ H w i) as Hc. unfold counts in Hc. destruct AllowFiberSuspended; [|done].
  destruct Hc as (l & _ & Hl & ->). destruct l as [|r l]; [done|]. exfalso.
  assert (rpcs s r = RReading w i) as E by (apply Hl; set_solver). apply (Hth r). by rewrite E.
Qed.

Lemma no_cond s a w i : Inv s a -> (forall r, thread_of (rpcs s r) <> Some w) -> cond (wrapper s w) i = None.
Proof.
  intros H Hth. destruct (cond (wrapper s w) i) as [y|] eqn:E; [|done]. destruct (N_cond _ _ H w i y E) as [Hz _].
  by rewrite (not_counted s a w i H Hth) in Hz.
Qed.

Lemma begin_exit_ok s a w : Inv s a -> post a (begin_exit false w s).
Proof.
  intros H. unfold begin_exit. destruct (epcs s w) eqn:Ee; try done. destruct (running s w) eqn:Er; [done|].
  destruct (mutex (wrapper s w)) eqn:Hm; [done|]. cbn.
  destruct ((ref (wrapper s w) false =? 0) && (ref (wrapper s w) true =? 0)) eqn:Hz; [|done].
  apply andb_true_iff in Hz as [Hz1 Hz2]. rewrite Z.eqb_eq in Hz1. rewrite Z.eqb_eq in Hz2.
  assert (forall r, thread_of (rpcs s r) <> Some w) as Hth.
  { intros r Hr. pose proof (N_reader _ _ H r) as Ho.
    assert (forall i, reading (rpcs s r) <> Some (w, i)) as Hn.
    { intros i. apply (nobody_reads s a w i r H Hm). by destruct i. }
    destruct (rpcs s r) as [|u|u|u|u i|u i]; try done; injection Hr as ->; cbn in Ho; try naive_solver; by destruct (Hn i). }
  apply published_tau, (exit_inv s _ a w ERemove (wrapper s w)); cbn; auto using self_if; try done.
  intros i. by apply (no_cond s a).
Qed.

Lemma exit_step_ok s a w : Inv s a -> post a (exit_step AllowFiberSuspended w s).
Proof.
  intros H. unfold exit_step. destruct (epcs s w) eqn:Ee; try done.
  all: assert (forall r, thread_of (rpcs s r) <> Some w) as Hth by (intros r; apply (no_reader s a w r H); by rewrite Ee).
  all: assert (forall j, cond (wrapper s w) j = None) as Hcd by (intros j; by apply (no_cond s a)).
  - assert (forall next, next = (if AllowFiberSuspended then EWait false else Dead) -> next <> Alive /\ next <> ERemove) as Hnx
      by (intros next ->; by destruct AllowFiberSuspended).
    destruct (Hnx _ eq_refl) as [Hn1 Hn2]. destruct (control (wrapper s w)) eqn:Hc.
    + unfold unlocked. destruct (_wrappers_mutex s) eqn:Hwm; [done|]. apply published_tau.
      assert (w ∈ _wrappers s) as Hw.
      { destruct (N_control _ _ H w Hc) as [?|[[r Hr]|[_ ?]]]; [done| |done]. destruct (Hth r). by rewrite Hr. }
      eapply (exit_inv s _ a w _ (wrapper s w)); cbn; auto using self_if; try done.
      right. split; [done|]. destruct (remove_at_spec w _ Hw (N_nodup _ _ H)) as [_ ->]. tauto.
    + apply published_tau. eapply (exit_inv s _ a w _ (wrapper s w)); cbn; auto using self_if; try done.
      right. split; [done|]. intros Hw. apply (N_in _ _ H) in Hw as [Hw _]. congruence.
  - unfold unlocked. destruct (mutex (wrapper s w)) eqn:Hm; [done|]. unfold WaitReadDone.
    rewrite (not_counted s a w i H Hth). cbn. 
    assert (w ∉ _wrappers s) as Hw by (intros Hw; apply (N_in _ _ H) in Hw as [_ [?|?]]; congruence).
    assert (forall x, control x = control (wrapper s w) -> mutex x = mutex (wrapper s w) -> ref x = ref (wrapper s w) ->
      cond x = cond (wrapper s w) -> Inv (thread_at w (if i then Dead else EWait true) (on_wrapper w (fun _ => x) s)) a) as Hx.
    { intros x ??? E. apply (exit_inv s _ a w (if i then Dead else EWait true) x); cbn; auto using insert_if; try by destruct i.
      - intros j. by rewrite E.
      - right. split; [by destruct i|done]. }
    destruct AllowFiberSuspended; apply published_tau; by apply Hx.
  - rewrite Hcd. apply published_tau. 
    assert (w ∉ _wrappers s) as Hw by (intros Hw; apply (N_in _ _ H) in Hw as [_ [?|?]]; congruence).
    apply (exit_inv s _ a w (EWait i) (wrapper s w)); cbn; auto using self_if; done.
Qed.

Lemma spurious_ok s a w i : Inv s a -> Inv (on_wrapper w (set_cond i None) s) a.
Proof.
  intros H. pose proof H as [H1 H2 H3 H4 H5 H6 H7 H8 H9 H10 H11 H12 H13].
  assert (forall u, control (wrapper (on_wrapper w (set_cond i None) s) u) = control (wrapper s u) /\
                    mutex (wrapper (on_wrapper w (set_cond i None) s) u) = mutex (wrapper s u) /\
                    ref (wrapper (on_wrapper w (set_cond i None) s) u) = ref (wrapper s u)) as Hw.
  { intros u. by apply wrapper_kept. }
  split; try done.
  - intros r. apply (reader_ok_ext r _ s _ _ (H7 r)); try done; intros u; [rewrite (proj1 (Hw u))|rewrite (proj1 (proj2 (Hw u)))]; done.
  - intros u r. rewrite (proj1 (proj2 (Hw u))). apply H9.
  - intros u. rewrite (proj1 (Hw u)). apply H10.
  - intros u. rewrite (proj1 (Hw u)). apply H11.
  - intros u j. rewrite (proj2 (proj2 (Hw u))). apply H12.
  - intros u j y. cbn. destruct (decide (u = w)) as [->|Hu]; [|rewrite fn_lookup_insert_ne by done; apply H13].
    rewrite fn_lookup_insert. cbn. destruct (decide (j = i)) as [->|Hj]; [by rewrite fn_lookup_insert|].
    rewrite fn_lookup_insert_ne by done. apply H13.
Qed.

(** ** All steps *)

Lemma read_step_ok s a r : Inv s a -> post a (read_step AllowFiberSuspended r s).
Proof.
  intros H. destruct (rpcs s r) as [|w|w|w|w i|w i] eqn:E; try (unfold read_step; by rewrite E).
  - by apply (RAdd_ok s a r w).
  - by apply (RLock_ok s a r w).
  - by apply (RLoad_ok s a r w).
  - by apply (RRef_ok s a r w i).
Qed.

(** fn is coherent in the calls of Modify() that begin. *)
Definition coherent_choice (c : choice T) : Prop := match c with Modify _ f => coherent f | _ => True end.

Lemma any_step_ok s a c : Inv s a -> coherent_choice c -> post a (step AllowFiberSuspended false c s).
Proof.
  intros H Hc. destruct c as [r w|r|r|r|m f|m|w|w|w i]; cbn [step].
  - by apply begin_read_ok.
  - by apply read_step_ok.
  - pose proof (N_reader _ _ H r) as Hr. destruct (rpcs s r) as [| | | | |w i]; try done. cbn in Hr.
    exists a. split; [constructor; by apply Hr|done].
  - by apply end_read_ok.
  - destruct (mpcs s m) eqn:E; try done. apply published_tau, modifier_outside; try done; [by rewrite E|by intros f' [= <-]].
  - by apply modify_step_ok.
  - by apply begin_exit_ok.
  - by apply exit_step_ok.
  - apply published_tau. by apply spurious_ok.
Qed.

Lemma initial_inv x : Inv (initial x) (ainitial x).
Proof.
  split; cbn; try done.
  - apply NoDup_nil_2.
  - intros w Hw. by apply not_elem_of_nil in Hw.
  - intros w i. unfold counts. destruct AllowFiberSuspended; [|done]. exists []. split; [apply NoDup_nil_2|]. split; [set_solver|done].
Qed.

(** ** What follows *)

Lemma run_ok l s a : Inv s a -> Forall coherent_choice l ->
  match run_all AllowFiberSuspended false l s with
  | Bad => False
  | NoStep => True
  | Go (ls, s') => exists a', aruns a ls a' /\ Inv s' a'
  end.
Proof.
  intros H Hc. revert s a H. induction Hc as [|c l Hc _ IH]; intros s a H; cbn [run_all].
  - exists a. split; [constructor|done].
  - pose proof (any_step_ok s a c H Hc) as Hs. destruct (step AllowFiberSuspended false c s) as [| |[x s1]]; cbn in *; [done|done|].
    destruct Hs as (a1 & Hx & H1). specialize (IH s1 a1 H1).
    destruct (run_all AllowFiberSuspended false l s1) as [| |[ls s']]; cbn; [done|done|].
    destruct IH as (a' & Hl & H'). exists a'. split; [by econstructor|done].
Qed.

(** fn writes to an instance that nobody reads. *)
Lemma writing_not_read s a r w i : Inv s a -> rpcs s r = RReading w i -> writing s <> Some i.
Proof.
  intros H E Hw. pose proof (N_data _ _ H) as Hd. destruct Hd as [_ Hd].
  assert (reading (rpcs s r) = Some (w, i)) as Hr by by rewrite E.
  assert (forall f bg ret, stage s = MFn f bg \/ stage s = MFn2 f bg ret -> i = _index s) as Hi.
  { intros f bg ret Hst. apply (readers_at_index s a r w i H Hr), not_waited. by destruct Hst as [-> | ->]. }
  rewrite Hw in Hd. destruct (stage s) as [|f|f|f bg|f bg|f bg ret|f bg ret|f bg ret l|f bg ret w' l|f bg ret|f bg ret] eqn:Es;
    try naive_solver.
  - destruct Hd as (_ & [= <-] & Hb). rewrite (Hi f i 0) in Hb by by left. by destruct (_index s).
  - destruct Hd as (_ & [= <-] & Hb). rewrite (Hi f i ret) in Hb by by right. by destruct (_index s).
Qed.

(** How many steps are left of a modification, with [n] wrappers. *)
Definition remaining (p : mpc) (n : nat) : nat :=
  match p with
  | MIdle => 0 | MFn2 _ _ _ => 1 | MCall2 _ _ _ => 2
  | MWait _ _ _ l => 3 + length l
  | MSleep _ _ _ _ l => 5 + length l
  | MWrappers _ _ _ => 4 + n | MFlip _ _ _ => 5 + n | MFn _ _ => 6 + n | MCall _ _ => 7 + n | MIndex _ => 8 + n | MLock _ => 9 + n
  end.

Ltac moves :=
  do 2 eexists; split; [done|]; cbn; rewrite fn_lookup_insert; cbn;
  split_and!; [lia|done|intros; by rewrite fn_lookup_insert_ne|auto].

(** The step of a modifier that no reader delays. *)
Lemma modify_moves s a m :
  Inv s a -> (forall r, rpcs s r = RIdle) -> mpcs s m <> MIdle -> _modify_mutex s = Some m \/ _modify_mutex s = None ->
  exists x s', modify_step AllowFiberSuspended m s = Go (x, s') /\
    (remaining (mpcs s' m) (length (_wrappers s')) < remaining (mpcs s m) (length (_wrappers s)))%nat /\
    rpcs s' = rpcs s /\ (forall m', m' <> m -> mpcs s' m' = mpcs s m') /\
    (_modify_mutex s' = Some m \/ (mpcs s' m = MIdle /\ _modify_mutex s' = None)).
Proof.
  intros H Hr Hm Hmu.
  assert (forall w, mutex (wrapper s w) = None) as Hw.
  { intros w. destruct (mutex (wrapper s w)) as [r|] eqn:E; [|done]. apply (N_mutex _ _ H) in E. by rewrite Hr in E. }
  assert (forall w i, ref (wrapper s w) i = 0) as Href by (intros w i; apply (not_counted s a w i H); intros r; by rewrite Hr).
  assert (forall w i, cond (wrapper s w) i = None) as Hcd by (intros w i; apply (no_cond s a w i H); intros r; by rewrite Hr).
  assert (critical (mpcs s m) = true -> _modify_mutex s = Some m) as Hcr by apply (N_stage _ _ H).
  pose proof (N_loop _ _ H) as Hl.
  assert (critical (mpcs s m) = true -> stage s = mpcs s m) as Hst by (intros Hc; unfold stage; by rewrite (Hcr Hc)).
  unfold modify_step.
  destruct (mpcs s m) as [|f|f|f bg|f bg|f bg ret|f bg ret|f bg ret [|w l]|f bg ret w l|f bg ret|f bg ret] eqn:E; [done|..];
    cbn in Hcr, Hst; try specialize (Hcr eq_refl); try specialize (Hst eq_refl).
  all: try (rewrite Hst in Hl by done; cbn in Hl).
  - destruct Hmu as [Hmu|Hmu].
    + apply (N_stage _ _ H) in Hmu. by rewrite E in Hmu.
    + rewrite Hmu. moves.
  - moves.
  - moves.
  - destruct (f _ _) as [ret x]. destruct (ret =? 0); moves.
  - moves.
  - rewrite Hl. moves.
  - moves.
  - rewrite Hw. unfold WaitReadDone. rewrite Href. destruct AllowFiberSuspended; moves.
  - rewrite Hcd. moves.
  - moves.
  - destruct (f _ _) as [ret2 x]. moves.
Qed.

(** A modifier alone. *)
Definition modifies (n m : nat) : list (choice T) := replicate n (Modifies m).

Lemma modify_finishes n : forall s a m,
  Inv s a -> (forall r, rpcs s r = RIdle) -> _modify_mutex s = Some m \/ _modify_mutex s = None ->
  (remaining (mpcs s m) (length (_wrappers s)) <= n)%nat ->
  exists k ls s', run_all AllowFiberSuspended false (modifies k m) s = Go (ls, s') /\ mpcs s' m = MIdle /\
    _modify_mutex s' = None /\ (forall r, rpcs s' r = RIdle) /\ (forall m', m' <> m -> mpcs s' m' = mpcs s m').
Proof.
  induction n as [|n IH]; intros s a m H Hr Hmu Hn.
  all: assert (mpcs s m = MIdle \/ mpcs s m <> MIdle) as [E|E] by (destruct (mpcs s m); (by left) || by right).
  all: try (exists 0%nat, [], s; split_and!; try done; destruct Hmu as [Hm|Hm]; [|done];
            apply (N_stage _ _ H) in Hm; by rewrite E in Hm).
  - by destruct (mpcs s m); cbn in Hn; try lia.
  - destruct (modify_moves s a m H Hr E Hmu) as (x & s1 & Hs & Hlt & Hr1 & Hne & Hmu1).
    pose proof (modify_step_ok s a m H) as Hp. rewrite Hs in Hp. destruct Hp as (a1 & _ & H1).
    destruct (IH s1 a1 m H1) as (k & ls & s' & Hrun & Hm & Hmu' & Hr' & Hne'); [by rewrite Hr1| |lia|].
    { destruct Hmu1 as [?|[_ ?]]; auto. }
    exists (S k), (x :: ls), s'. split_and!; try done.
    + cbn [modifies replicate run_all step]. rewrite Hs. cbn [mbind outcome_bind]. fold (modifies k m). by rewrite Hrun.
    + intros m' Hm'. by rewrite (Hne' m' Hm'), (Hne m' Hm').
Qed.

Lemma run_all_app l1 l2 (s : state) ls1 s1 ls2 s2 :
  run_all AllowFiberSuspended false l1 s = Go (ls1, s1) -> run_all AllowFiberSuspended false l2 s1 = Go (ls2, s2) ->
  run_all AllowFiberSuspended false (l1 ++ l2) s = Go (ls1 ++ ls2, s2).
Proof.
  revert s ls1. induction l1 as [|c l1 IH]; intros s ls1; cbn [run_all app].
  - intros [= <- <-]. done.
  - destruct (step AllowFiberSuspended false c s) as [| |[x s']]; cbn; try done.
    destruct (run_all AllowFiberSuspended false l1 s') as [| |[ls s'']] eqn:E; cbn; try done.
    intros [= <- <-] H2. by rewrite (IH s' ls E H2).
Qed.

(** First who is in possession of _modify_mutex. *)
Lemma all_modify_finish s a m :
  Inv s a -> (forall r, rpcs s r = RIdle) ->
  exists l ls s', Forall (fun c => exists m, c = Modifies m) l /\ run_all AllowFiberSuspended false l s = Go (ls, s') /\ mpcs s' m = MIdle.
Proof.
  intros H Hr.
  assert (forall k m, Forall (fun c : choice T => exists m, c = Modifies m) (modifies k m)) as Hf.
  { intros k m'. apply Forall_replicate. by exists m'. }
  assert (exists k m1 ls s1, run_all AllowFiberSuspended false (modifies k m1) s = Go (ls, s1) /\
            _modify_mutex s1 = None /\ (forall r, rpcs s1 r = RIdle)) as (k & m1 & ls & s1 & Hrun & Hm1 & Hr1).
  { destruct (_modify_mutex s) as [m1|] eqn:Em; [|by exists 0%nat, m, [], s].
    destruct (modify_finishes _ s a m1 H Hr (or_introl Em) (le_n _)) as (k & ls & s1 & ? & _ & ? & ? & _).
    by exists k, m1, ls, s1. }
  assert (Forall coherent_choice (modifies k m1)) as Hco by by apply Forall_replicate.
  pose proof (run_ok _ s a H Hco) as Hok. rewrite Hrun in Hok. destruct Hok as (a1 & _ & H1).
  destruct (modify_finishes _ s1 a1 m H1 Hr1 (or_intror Hm1) (le_n _)) as (k2 & ls2 & s2 & Hrun2 & Hm2 & _).
  exists (modifies k m1 ++ modifies k2 m), (ls ++ ls2), s2. split_and!; [by apply Forall_app|by eapply run_all_app|done].
Qed.

End Safe.

(** ** The theorems *)

(** C10. Modify() with an fn that does the same to the second instance as to the
    first, any number of readers and modifiers on any threads, which may exit when
    they are not read from: the labels of every sequence of steps are those of the
    specification - a read gets the current value, and what is seen through the
    ScopedPtr stays that value until it is destroyed, whatever is modified
    meanwhile - no ScopedPtr outlives its Wrapper, and fn is never changing an
    instance that is being read.  For both values of AllowFiberSuspended. *)
Theorem readers_see_snapshots (T : Type) (AllowFiberSuspended : bool) (x : T) (l : list (choice T)) :
  Forall coherent_choice l ->
  match run_all AllowFiberSuspended false l (initial x) with
  | Bad => False
  | NoStep => True
  | Go (ls, s) =>
      (exists a, aruns (ainitial x) ls a /\ _data s (_index s) = current a) /\
      forall r w i, rpcs s r = RReading w i -> writing s <> Some i
  end.
Proof.
  intros Hl. pose proof (run_ok AllowFiberSuspended l _ _ (initial_inv AllowFiberSuspended x) Hl) as H.
  destruct (run_all AllowFiberSuspended false l (initial x)) as [| |[ls s]]; [done|done|].
  destruct H as (a & Ha & Hi). split; [exists a; split; [done|by eapply data_current]|].
  intros r w i E. by eapply writing_not_read.
Qed.

(** C24. A modification does not hang: from every state in which nobody reads, and
    whatever modifiers wait for each other or sleep on a condition variable, steps
    of modifiers alone lead to the return of Modify() of any of them.  (No signal
    is lost: a modifier that slept for the last reader is awake.) *)
Theorem modification_returns (T : Type) (AllowFiberSuspended : bool) (x : T) (l : list (choice T)) ls s m :
  Forall coherent_choice l -> run_all AllowFiberSuspended false l (initial x) = Go (ls, s) ->
  (forall r, rpcs s r = RIdle) ->
  exists l' ls' s', Forall (fun c => exists m, c = Modifies m) l' /\
    run_all AllowFiberSuspended false l' s = Go (ls', s') /\ mpcs s' m = MIdle.
Proof.
  intros Hl E Hr. pose proof (run_ok AllowFiberSuspended l _ _ (initial_inv AllowFiberSuspended x) Hl) as H.
  rewrite E in H. destruct H as (a & _ & Hi). by eapply all_modify_finish.
Qed.

(** *** A run: a reader that keeps a modifier waiting *)

Definition add (n : Z) : fn Z := fun bg _ => (1, bg + n).
Definition put (n : Z) : fn Z := fun _ _ => (1, n).

(** Fiber 0 on thread 0, a modification that has to wait for it, and fiber 1, which
    runs on that thread and reads the new value. *)
Definition overlap : list (choice Z) :=
  [Read 0 0; Reader 0; Reader 0; Reader 0; Reader 0] ++ [Modify 5 (put 42)] ++ replicate 7 (Modifies 5) ++
  [Looks 0; Read 1 0; Reader 1; Reader 1; Reader 1; Looks 1; Looks 0; Release 0; Release 1].

Lemma put_coherent n : coherent (put n).
Proof. intros v. done. Qed.

Lemma overlap_coherent : Forall coherent_choice overlap.
Proof. repeat (apply Forall_cons; split; [first [apply put_coherent|exact I]|]). constructor. Qed.

(** The labels of a run but Tau. *)
Definition visible {T} (r : outcome (list (label T) * state T)) : list (label T) :=
  match r with
  | Go (ls, _) => List.filter (fun l => match l with Tau => false | _ => true end) ls
  | _ => []
  end.


(** Fiber 0 reads 7 until it is done; fiber 1 reads 42; then the modification ends. *)
Lemma overlap_runs :
  visible (run_all true false (overlap ++ replicate 5 (Modifies 5)) (initial 7)) =
  [Snapshot 0 7; Flip (put 42); Look 0 7; Snapshot 1 42; Look 1 42; Look 0 7; EndOfRead 0; EndOfRead 1; Modified 5 1].
Proof. vm_compute. reflexivity. Qed.

Definition after_overlap : state Z :=
  match run_all true false overlap (initial 7) with Go (_, s) => s | _ => initial 7 end.

Lemma readers_see_snapshots_witness :
  Forall coherent_choice overlap /\
  match run_all true false overlap (initial 7) with
  | Bad => False
  | NoStep => True
  | Go (ls, s) =>
      (exists a, aruns (ainitial 7) ls a /\ _data s (_index s) = current a) /\
      forall r w i, rpcs s r = RReading w i -> writing s <> Some i
  end.
Proof. split; [exact overlap_coherent|]. exact (readers_see_snapshots Z true 7 overlap overlap_coherent). Defined.

Lemma modification_returns_witness :
  mpcs after_overlap 5 = MSleep (put 42) false 1 0 [] /\
  exists l' ls' s', Forall (fun c => exists m, c = Modifies m) l' /\
    run_all true false l' after_overlap = Go (ls', s') /\ mpcs s' 5 = MIdle.
Proof.
  split; [vm_compute; reflexivity|].
  refine (modification_returns Z true 7 overlap _ after_overlap 5 overlap_coherent _ _).
  - unfold after_overlap. vm_compute. reflexivity.
  - intros [|[|r]]; vm_compute; reflexivity.
Defined.

(** ** What the hypotheses exclude *)

(** The first Read() of a thread has to lock _wrappers_mutex, which Modify() holds
    while it waits for the readers: that Read() is blocked by a Modify(), and so by
    a reader. *)
Example first_read_is_blocked :
  match run_all true false ([Read 0 0; Reader 0; Reader 0; Reader 0; Reader 0] ++ [Modify 5 (put 42)] ++
                            replicate 7 (Modifies 5) ++ [Read 1 1]) (initial 7) with
  | Go (_, s) => rpcs s 0 = RReading 0 false /\ rpcs s 1 = RAdd 1 /\
                 step true false (Reader 1) s = NoStep /\ step true false (Modifies 5) s = NoStep
  | _ => False
  end.
Proof. vm_compute. done. Qed.

(** A thread exits while fiber 0, which began to read there, is suspended: ~Wrapper
    takes the Wrapper out of _wrappers before it waits for the read, so that a
    modification does not wait, and changes what fiber 0 is reading. *)
Example exit_hides_a_reader :
  visible (run_all true true ([Read 0 0; Reader 0; Reader 0; Reader 0; Reader 0; Looks 0; Exit 0; Exits 0; Exits 0] ++
                              [Modify 5 (put 42)] ++ replicate 9 (Modifies 5) ++ [Looks 0]) (initial 7)) =
  [Snapshot 0 7; Look 0 7; Flip (put 42); Modified 5 1; Look 0 42].
Proof. vm_compute. reflexivity. Qed.

End DoublyBufferedSafe.
