(* ===== verification/TimerThread.v ===== *)
(** * TimerThread: fiber/timer_thread.cc

    Threads call schedule(), unschedule() and stop_and_join(); the timer thread
    pulls the tasks from the buckets, keeps them in a heap by time, runs them and
    sleeps on a futex until the first one is due.

    A step is one access of shared memory, one section under a mutex, one call of
    the futex, or the beginning or end of fn(arg).  A Task is named by its slot in
    the resource pool, a linked list of Tasks is the list of their slots.  The
    thread that runs fn(arg) may schedule and unschedule meanwhile: it does so as
    one of the threads. *)

From stdpp Require Import functions.
From S2P Require Import Prelude.

Module TimerThread.

(** num_buckets, and fmix64(pthread_numeric_id()) of each thread. *)
Section Timer.
Context (num_buckets : nat) (hash_of_thread : nat -> Z).

Definition INVALID_TASK_ID : Z := 0.
Definition INT64_MAX : Z := 2 ^ 63 - 1.

Definition make_task_id (slot version : Z) : Z := Z.lor (u64 (Z.shiftl version 32)) slot.
Definition slot_of_task_id (id : Z) : Z := Z.land id 0xFFFFFFFF.
Definition version_of_task_id (id : Z) : Z := u32 (Z.shiftr id 32).

Record Task := mkTask { run_time : Z; task_id : Z; version : Z }.
Record Bucket := mkBucket { bucket_nearest : Z; task_head : list Z }.

Definition set_version (v : Z) (t : Task) : Task := mkTask (run_time t) (task_id t) v.

(** The timer thread, before: the load of _stop; the section that clears
    _nearest_run_time; the load of _task_head of a bucket; the section that empties
    it; try_delete of what was taken out of it; the look at tasks[0] and the clock;
    the section before a task is run; run_and_delete; the return of fn(arg);
    return_resource; the section before the sleep; the futex.  [TAsleep]: in the
    futex, until a time. *)
Inductive tpc :=
  | TLoop | TClear | TPull (i : nat) | TTake (i : nat) | TDelete (i : nat) (l : list Z)
  | TPeek | TCheck (p : Z) | TRun (p : Z) | TRunning (p : Z) | TReturn (p : Z)
  | TNext | TFutex (expected_nsignals next_run_time : Z) | TAsleep (next_run_time : Z) | TEnd.

(** A caller of schedule(), before: get_resource; the section of the bucket; the
    section of the TimerThread; futex_wake.  Of stop_and_join(), before: the
    section; futex_wake; pthread_join. *)
Inductive spc :=
  | SIdle | SFill (rt : Z) | SInsert (p : Z) | SGlobal (rt : Z) | SWake
  | SStop (in_task : bool) | SStopWake | SJoin.

(** [used]: the slots the pool has given away.  [heap]: the vector [tasks] of
    run(), of which the heap functions keep a least one at tasks[0].  [clock]: what
    gettimeofday_us() returns.  [handed_out]: the ids that schedule() made. *)
Record state := mkState {
  tasks : Z -> Task; used : Z -> bool; buckets : nat -> Bucket; heap : list Z;
  _nearest_run_time : Z; _nsignals : Z; _stop : bool;
  timer : tpc; callers : nat -> spc; clock : Z; handed_out : list Z }.

Definition on_task (p : Z) (t : Task) (s : state) : state :=
  mkState (<[p := t]> (tasks s)) (used s) (buckets s) (heap s) (_nearest_run_time s) (_nsignals s) (_stop s)
          (timer s) (callers s) (clock s) (handed_out s).
Definition set_used (p : Z) (b : bool) (s : state) : state :=
  mkState (tasks s) (<[p := b]> (used s)) (buckets s) (heap s) (_nearest_run_time s) (_nsignals s) (_stop s)
          (timer s) (callers s) (clock s) (handed_out s).
Definition on_bucket (i : nat) (b : Bucket) (s : state) : state :=
  mkState (tasks s) (used s) (<[i := b]> (buckets s)) (heap s) (_nearest_run_time s) (_nsignals s) (_stop s)
          (timer s) (callers s) (clock s) (handed_out s).
Definition set_heap (h : list Z) (s : state) : state :=
  mkState (tasks s) (used s) (buckets s) h (_nearest_run_time s) (_nsignals s) (_stop s)
          (timer s) (callers s) (clock s) (handed_out s).
Definition set_nearest (t : Z) (s : state) : state :=
  mkState (tasks s) (used s) (buckets s) (heap s) t (_nsignals s) (_stop s)
          (timer s) (callers s) (clock s) (handed_out s).
Definition add_signal (s : state) : state :=
  mkState (tasks s) (used s) (buckets s) (heap s) (_nearest_run_time s) (i32 (_nsignals s + 1)) (_stop s)
          (timer s) (callers s) (clock s) (handed_out s).
Definition set_stop (s : state) : state :=
  mkState (tasks s) (used s) (buckets s) (heap s) (_nearest_run_time s) (_nsignals s) true
          (timer s) (callers s) (clock s) (handed_out s).
Definition timer_at (c : tpc) (s : state) : state :=
  mkState (tasks s) (used s) (buckets s) (heap s) (_nearest_run_time s) (_nsignals s) (_stop s)
          c (callers s) (clock s) (handed_out s).
Definition caller_at (t : nat) (c : spc) (s : state) : state :=
  mkState (tasks s) (used s) (buckets s) (heap s) (_nearest_run_time s) (_nsignals s) (_stop s)
          (timer s) (<[t := c]> (callers s)) (clock s) (handed_out s).
Definition set_clock (t : Z) (s : state) : state :=
  mkState (tasks s) (used s) (buckets s) (heap s) (_nearest_run_time s) (_nsignals s) (_stop s)
          (timer s) (callers s) t (handed_out s).
Definition hand_out (id : Z) (s : state) : state :=
  mkState (tasks s) (used s) (buckets s) (heap s) (_nearest_run_time s) (_nsignals s) (_stop s)
          (timer s) (callers s) (clock s) (id :: handed_out s).

(** ** What is seen *)

Inductive label :=
  | Tau
  | Accept (id rt : Z)             (* schedule() has made this task *)
  | Refuse                         (* schedule() returns INVALID_TASK_ID *)
  | Run (id now : Z) | Ran (id : Z)   (* fn(arg) begins at this time; returns *)
  | Unscheduled (id rc : Z).       (* unschedule() returns *)

Inductive choice :=
  | Timer (k : nat)                (* the timer thread; which of the least tasks is tasks[0] *)
  | Schedule (t : nat) (rt : Z) | Gets (t : nat) (o : option Z)   (* what get_resource returns *)
  | Caller (t : nat) | Unschedule (id : Z) | Stop (t : nat) (in_task : bool)
  | Tick (d : Z)                   (* time passes *)
  | Spurious.                      (* the futex returns without a reason *)

Definition tau (s : state) : outcome (label * state) := Go (Tau, s).

(** futex_wake_private(&_nsignals, 1) *)
Definition futex_wake (s : state) : state := match timer s with TAsleep _ => timer_at TLoop s | _ => s end.

(** ** schedule *)

(** Bucket::schedule up to the section; the slot is one that was not given away. *)
Definition fill (t : nat) (rt : Z) (o : option Z) (s : state) : outcome (label * state) :=
  match o with
  | None => Go (Refuse, caller_at t SIdle s)
  | Some p =>
      if (0 <=? p) && (p <? 2 ^ 32) && negb (used s p) then
        let v := version (tasks s p) in
        let v := if v =? 0 then 2 else v in
        tau (caller_at t (SInsert p) (on_task p (mkTask rt (make_task_id p v) v) (set_used p true s)))
      else NoStep
  end.

(** The bucket of a thread. *)
Definition bucket_of (t : nat) : nat := Z.to_nat (hash_of_thread t mod Z.of_nat num_buckets).

(** The section of Bucket::schedule. *)
Definition insert_section (t : nat) (p : Z) (s : state) : label * state :=
  let i := bucket_of t in
  let b := buckets s i in
  let rt := run_time (tasks s p) in
  let id := task_id (tasks s p) in
  let earlier := rt <? bucket_nearest b in
  (Accept id rt,
   hand_out id (caller_at t (if earlier then SGlobal rt else SIdle)
     (on_bucket i (mkBucket (if earlier then rt else bucket_nearest b) (p :: task_head b)) s))).

Definition caller_step (t : nat) (s : state) : outcome (label * state) :=
  match callers s t with
  | SInsert p => Go (insert_section t p s)
  | SGlobal rt =>
      if rt <? _nearest_run_time s then tau (caller_at t SWake (add_signal (set_nearest rt s))) else tau (caller_at t SIdle s)
  | SWake => tau (caller_at t SIdle (futex_wake s))
  | SStop in_task => tau (caller_at t (if in_task then SIdle else SStopWake) (add_signal (set_nearest 0 s)))
  | SStopWake => tau (caller_at t SJoin (futex_wake s))
  | SJoin => match timer s with TEnd => tau (caller_at t SIdle s) | _ => NoStep end
  | _ => NoStep
  end.

(** ** unschedule *)

Definition unschedule (id : Z) (s : state) : Z * state :=
  let p := slot_of_task_id id in
  let id_version := version_of_task_id id in
  let v := version (tasks s p) in
  if v =? id_version then (0, on_task p (set_version (u32 (id_version + 2)) (tasks s p)) s)
  else (if v =? u32 (id_version + 1) then 1 else -1, s).

(** ** The timer thread *)

(** CHECK_EQ in Task::try_delete: a task that is not as it was made was
    unscheduled. *)
Definition check_version (t : Task) : bool :=
  let id_version := version_of_task_id (task_id t) in
  (version t =? id_version) || (version t =? u32 (id_version + 2)).

(** Task::try_delete, or the task is pushed into the heap. *)
Definition try_delete (p : Z) (s : state) : state :=
  let t := tasks s p in
  if version t =? version_of_task_id (task_id t) then set_heap (heap s ++ [p]) s
  else set_used (slot_of_task_id (task_id t)) false s.

(** The time of tasks[0]. *)
Definition least (s : state) (t : Z) : bool := forallb (fun q => t <=? run_time (tasks s q)) (heap s).
Definition next_run_time (s : state) : Z := fold_right Z.min INT64_MAX (map (fun q => run_time (tasks s q)) (heap s)).

(** run_and_delete up to fn(arg) *)
Definition run_and_delete (p : Z) (s : state) : label * state :=
  let t := tasks s p in
  let id_version := version_of_task_id (task_id t) in
  if version t =? id_version then
    (Run (task_id t) (clock s), timer_at (TRunning p) (on_task p (set_version (u32 (id_version + 1)) t) s))
  else if version t =? u32 (id_version + 2) then (Tau, timer_at (TReturn p) s)
  else (Tau, timer_at TPeek s).

Definition timer_step (k : nat) (s : state) : outcome (label * state) :=
  match timer s with
  | TLoop => tau (timer_at (if _stop s then TEnd else TClear) s)
  | TClear => tau (timer_at (TPull 0) (set_nearest INT64_MAX s))
  | TPull i =>
      if (i <? num_buckets)%nat then
        match task_head (buckets s i) with
        | [] => tau (timer_at (TPull (S i)) s)
        | _ => tau (timer_at (TTake i) s)
        end
      else tau (timer_at TPeek s)
  | TTake i =>
      match task_head (buckets s i) with
      | [] => tau (timer_at (TPull (S i)) s)
      | l => tau (timer_at (TDelete i l) (on_bucket i (mkBucket INT64_MAX []) s))
      end
  | TDelete i [] => tau (timer_at (TPull (S i)) s)
  | TDelete i (p :: l) =>
      if check_version (tasks s p) then tau (timer_at (TDelete i l) (try_delete p s)) else Bad
  | TPeek =>
      match heap s with
      | [] => tau (timer_at TNext s)
      | _ =>
          match heap s !! k with
          | Some p =>
              if least s (run_time (tasks s p)) then
                tau (timer_at (if clock s <? run_time (tasks s p) then TNext else TCheck p) s)
              else NoStep
          | None => NoStep
          end
      end
  | TCheck p =>
      if _nearest_run_time s <? run_time (tasks s p) then tau (timer_at TLoop s)
      else tau (timer_at (TRun p) (set_heap (remove Z.eq_dec p (heap s)) s))
  | TRun p => Go (run_and_delete p s)
  | TRunning p =>
      let id := task_id (tasks s p) in
      Go (Ran id, timer_at (TReturn p) (on_task p (set_version (u32 (version_of_task_id id + 2)) (tasks s p)) s))
  | TReturn p => tau (timer_at TPeek (set_used (slot_of_task_id (task_id (tasks s p))) false s))
  | TNext =>
      let next := next_run_time s in
      if _nearest_run_time s <? next then tau (timer_at TLoop s)
      else tau (timer_at (TFutex (_nsignals s) next) (set_nearest next s))
  | TFutex expected next =>
      tau (timer_at (if _nsignals s =? expected then TAsleep next else TLoop) s)
  | TAsleep next =>
      if negb (next =? INT64_MAX) && (next <=? clock s) then tau (timer_at TLoop s) else NoStep
  | TEnd => NoStep
  end.

Definition step (c : choice) (s : state) : outcome (label * state) :=
  match c with
  | Timer k => timer_step k s
  | Schedule t rt =>
      match callers s t with
      | SIdle => if _stop s then Go (Refuse, s) else tau (caller_at t (SFill rt) s)
      | _ => NoStep
      end
  | Gets t o => match callers s t with SFill rt => fill t rt o s | _ => NoStep end
  | Caller t => caller_step t s
  | Unschedule id =>
      (* the comment asks for an id that schedule() returned *)
      if decide (id ∈ handed_out s) then let '(rc, s) := unschedule id s in Go (Unscheduled id rc, s) else NoStep
  | Stop t in_task =>
      match callers s t with SIdle => tau (caller_at t (SStop in_task) (set_stop s)) | _ => NoStep end
  | Tick d => if 0 <=? d then tau (set_clock (clock s + d) s) else NoStep
  | Spurious => match timer s with TAsleep _ => tau (timer_at TLoop s) | _ => NoStep end
  end.

Fixpoint run_all (l : list choice) (s : state) : outcome (list label * state) :=
  match l with
  | [] => Go ([], s)
  | c :: l => '(a, s) ← step c s; '(ls, s) ← run_all l s; Go (a :: ls, s)
  end.

(** After start(). *)
Definition initial (now : Z) : state :=
  mkState (fun _ => mkTask 0 0 2) (fun _ => false) (fun _ => mkBucket INT64_MAX []) [] INT64_MAX 0 false
          TLoop (fun _ => SIdle) now [].

(** ** What is promised

    Each id names one task.  It runs at most once, not before its time, alone, and
    not after unschedule() returned 0; unschedule() says where it is. *)
Inductive status := Pending (rt : Z) | Running | Done | Cancelled.

Inductive astep : gmap Z status -> label -> gmap Z status -> Prop :=
  | a_tau a : astep a Tau a
  | a_refuse a : astep a Refuse a
  | a_accept a id rt : a !! id = None -> id <> INVALID_TASK_ID -> astep a (Accept id rt) (<[id := Pending rt]> a)
  | a_run a id rt now :
      a !! id = Some (Pending rt) -> rt <= now -> (forall j, a !! j <> Some Running) ->
      astep a (Run id now) (<[id := Running]> a)
  | a_ran a id : a !! id = Some Running -> astep a (Ran id) (<[id := Done]> a)
  | a_cancel a id rt : a !! id = Some (Pending rt) -> astep a (Unscheduled id 0) (<[id := Cancelled]> a)
  | a_too_late a id : a !! id = Some Running -> astep a (Unscheduled id 1) a
  | a_gone a id : a !! id = Some Done \/ a !! id = Some Cancelled -> astep a (Unscheduled id (-1)) a.

Inductive aruns : gmap Z status -> list label -> gmap Z status -> Prop :=
  | aruns_nil a : aruns a [] a
  | aruns_cons a l a1 ls a' : astep a l a1 -> aruns a1 ls a' -> aruns a (l :: ls) a'.

End Timer.
End TimerThread.
