(* ===== verification/TimerThreadInv.v ===== *)
(** * TimerThreadInv: the invariant of TimerThread

    Where each slot is, which of its ids is the current one and in what state that
    task is; each step keeps it, and does what the specification allows. *)

From stdpp Require Import functions.
From S2P Require Import Prelude TimerThread.

Module TimerThreadInv.
Import TimerThread.

(** ** Identifiers *)

Lemma make_task_id_sum p v : 0 <= p < 2 ^ 32 -> 0 <= v < 2 ^ 32 -> make_task_id p v = p + v * 2 ^ 32.
Proof.
  intros Hp Hv. unfold make_task_id.
  rewrite wrapu_small by (rewrite Z.shiftl_mul_pow2 by lia; lia). rewrite Z.lor_comm. by apply lor_shiftl.
Qed.

Lemma slot_of_make p v : 0 <= p < 2 ^ 32 -> 0 <= v < 2 ^ 32 -> slot_of_task_id (make_task_id p v) = p.
Proof.
  intros Hp Hv. unfold slot_of_task_id. rewrite make_task_id_sum by done.
  change 0xFFFFFFFF with (2 ^ 32 - 1). rewrite land_mask by lia. rewrite Z.mod_add by lia. by apply Z.mod_small.
Qed.

Lemma version_of_make p v : 0 <= p < 2 ^ 32 -> 0 <= v < 2 ^ 32 -> version_of_task_id (make_task_id p v) = v.
Proof.
  intros Hp Hv. unfold version_of_task_id. rewrite make_task_id_sum by done.
  rewrite Z.shiftr_div_pow2, Z.div_add, Z.div_small by lia. by apply wrapu_small.
Qed.

Lemma NoDup_rm (p : Z) l : NoDup l -> NoDup (remove Z.eq_dec p l).
Proof.
  induction 1 as [|x l Hx Hl IH]; cbn; [apply NoDup_nil_2|]. destruct (Z.eq_dec p x); [done|]. apply NoDup_cons. split; [|done].
  rewrite list_elem_of_In. intros [Hx' _]%in_remove. by apply Hx, list_elem_of_In.
Qed.

(** ** Where the slots are *)

Inductive place :=
  | Filling (t : nat) | InBucket (i : nat) | Taken | InHeap | ToRun | InRun | ToReturn.

#[global] Instance place_dec : EqDecision place.
Proof. solve_decision. Defined.

Definition holds (s : state) (p : Z) (x : place) : Prop :=
  match x with
  | Filling t => callers s t = SInsert p
  | InBucket i => p ∈ task_head (buckets s i)
  | Taken => match timer s with TDelete _ l => p ∈ l | _ => False end
  | InHeap => p ∈ heap s
  | ToRun => timer s = TRun p
  | InRun => timer s = TRunning p
  | ToReturn => timer s = TReturn p
  end.

(** The task in slot [p], by its place. *)
Definition task_ok (s : state) (a : gmap Z status) (p : Z) (x : place) : Prop :=
  let t := tasks s p in
  let v := version_of_task_id (task_id t) in
  match x with
  | Filling _ => version t = v /\ a !! task_id t = None
  | InRun => version t = v + 1 /\ a !! task_id t = Some Running
  | ToReturn => version t = v + 2 /\ (a !! task_id t = Some Done \/ a !! task_id t = Some Cancelled)
  | _ => (version t = v /\ a !! task_id t = Some (Pending (run_time t))) \/
         (version t = v + 2 /\ a !! task_id t = Some Cancelled)
  end.

(** An id of slot [p] that is not the current one. *)
Definition old_id (s : state) (a : gmap Z status) (p id : Z) : Prop :=
  version_of_task_id id + 2 <= (if used s p then version_of_task_id (task_id (tasks s p)) else version (tasks s p)) /\
  (a !! id = Some Done \/ a !! id = Some Cancelled).

Definition current_id (s : state) (p id : Z) : Prop :=
  used s p = true /\ id = task_id (tasks s p) /\ (forall t, ~ holds s p (Filling t)).

Record slot_ok (n : Z) (s : state) (a : gmap Z status) (p : Z) : Prop := mkSlotOk {
  K_place x y : holds s p x -> holds s p y -> x = y;
  K_used : used s p = true <-> exists x, holds s p x;
  K_version : 2 <= version (tasks s p) <= 2 + 2 * n /\
    (used s p = true -> version_of_task_id (task_id (tasks s p)) + 2 <= 2 + 2 * n);
  K_id : used s p = true -> slot_of_task_id (task_id (tasks s p)) = p /\ 2 <= version_of_task_id (task_id (tasks s p)) /\
                            task_id (tasks s p) <> INVALID_TASK_ID /\ 0 <= p < 2 ^ 32;
  K_task x : holds s p x -> task_ok s a p x;
  K_ids id : slot_of_task_id id = p -> (is_Some (a !! id) <-> id ∈ handed_out s) /\
             (is_Some (a !! id) -> current_id s p id \/ old_id s a p id) }.

(** Slots that a step does not touch, or moves from a place to another. *)
Lemma slot_ok_map n n' s s' a a' p (f : place -> place) :
  slot_ok n s a p -> n <= n' ->
  (forall y, holds s' p y <-> exists x, holds s p x /\ f x = y) ->
  (forall t x, f x = Filling t -> x = Filling t) -> 
  tasks s' p = tasks s p -> used s' p = used s p ->
  (forall id, slot_of_task_id id = p -> a' !! id = a !! id /\ (id ∈ handed_out s' <-> id ∈ handed_out s)) ->
  (forall x, holds s p x -> task_ok s a p x -> task_ok s' a' p (f x)) ->
  slot_ok n' s' a' p.
Proof.
  intros [H1 H2 H3 H4 H5 H6] Hn Hh Hf Et Eu Ha Hx. split; rewrite ?Et, ?Eu.
  - intros y1 y2 (x1 & Hx1 & <-)%Hh (x2 & Hx2 & <-)%Hh. by rewrite (H1 x1 x2 Hx1 Hx2).
  - rewrite H2. split; [intros [x Hx0]; exists (f x); apply Hh; eauto|]. intros [y (x & Hx0 & _)%Hh]. by exists x.
  - destruct H3 as [? Hu]. split; [lia|]. intros Hu'. specialize (Hu Hu'). lia.
  - done.
  - intros y (x & Hx0 & <-)%Hh. auto.
  - intros id Hid. destruct (Ha id Hid) as [E1 E2]. destruct (H6 id Hid) as [H61 H62]. rewrite E1, E2. split; [done|].
    intros Hs. destruct (H62 Hs) as [(Hu & -> & Hnf)|[Ho1 Ho2]]; [left|right].
    + split; [congruence|]. split; [by rewrite Et|]. intros t (x & Hx0 & Hfx)%Hh. apply Hf in Hfx as ->. by apply (Hnf t).
    + split; [by rewrite Et, Eu|by rewrite E1].
Qed.

(** Slots that keep their place. *)
Lemma slot_ok_same n n' s s' a a' p :
  slot_ok n s a p -> n <= n' -> (forall x, holds s' p x <-> holds s p x) ->
  tasks s' p = tasks s p -> used s' p = used s p ->
  (forall id, slot_of_task_id id = p -> a' !! id = a !! id /\ (id ∈ handed_out s' <-> id ∈ handed_out s)) ->
  slot_ok n' s' a' p.
Proof.
  intros H Hn Hh Et Eu Ha. apply (slot_ok_map n n' s s' a a' p id H Hn); try done.
  - intros y. rewrite Hh. unfold id. split; [by exists y|by intros (x & ? & ->)].
  - intros x Hx Hok. pose proof (K_used _ _ _ _ H) as Hu. 
    assert (slot_of_task_id (task_id (tasks s p)) = p) as Hs by (apply (K_id _ _ _ _ H), Hu; by exists x).
    destruct (Ha _ Hs) as [E _]. unfold task_ok, id in *. by rewrite Et, E.
Qed.

(** A slot whose task goes on, at the place [y]. *)
Lemma slot_ok_at n n' s s' a a' p x y :
  slot_ok n s a p -> holds s p x -> (forall z, holds s' p z <-> z = y) -> (forall t, y <> Filling t) ->
  used s' p = true -> task_id (tasks s' p) = task_id (tasks s p) ->
  n <= n' -> 2 <= version (tasks s' p) <= version_of_task_id (task_id (tasks s p)) + 2 -> task_ok s' a' p y ->
  (forall id, slot_of_task_id id = p -> id <> task_id (tasks s p) -> a' !! id = a !! id /\ (id ∈ handed_out s' <-> id ∈ handed_out s)) ->
  task_id (tasks s p) ∈ handed_out s' ->
  slot_ok n' s' a' p.
Proof.
  intros [K1 K2 K3 K4 K5 K6] Hx Hh Hy Eu Ei Hn Hv Hok Ha Hc.
  assert (used s p = true) as Eu0 by (apply K2; by exists x). pose proof (proj2 K3 Eu0).
  split; rewrite ?Eu, ?Ei; auto; try (split; lia).
  - intros z1 z2 Hz1 Hz2. apply Hh in Hz1 as ->. by apply Hh in Hz2 as ->.
  - split; [|done]. intros _. exists y. by apply Hh.
  - intros z Hz. by apply Hh in Hz as ->.
  - intros id Hid. destruct (decide (id = task_id (tasks s p))) as [->|Hne].
    + split.
      * split; [done|]. intros _. destruct y; cbn in Hok; rewrite Ei in Hok; try by destruct (Hy t). 
        all: repeat match goal with H : _ \/ _ |- _ => destruct H | H : _ /\ _ |- _ => destruct H end; by eexists.
      * intros _. left. split; [done|]. split; [done|]. intros t Ht. apply Hh in Ht. by destruct (Hy t).
    + destruct (Ha id Hid Hne) as [-> ->]. destruct (K6 id Hid) as [K61 K62]. split; [done|]. intros Hs. right.
      destruct (K62 Hs) as [(_ & ? & _)|[Ho1 Ho2]]; [done|]. rewrite Eu0 in Ho1. split; [by rewrite Eu, Ei|].
      by destruct (Ha id Hid Hne) as [-> _].
Qed.

(** A slot that goes back to the pool. *)
Lemma slot_ok_freed n n' s s' a p x :
  slot_ok n s a p -> n <= n' -> holds s p x -> (forall t, x <> Filling t) ->
  version (tasks s p) = version_of_task_id (task_id (tasks s p)) + 2 -> (forall z, ~ holds s' p z) ->
  used s' p = false -> tasks s' p = tasks s p -> handed_out s' = handed_out s -> slot_ok n' s' a p.
Proof.
  intros [K1 K2 K3 K4 K5 K6] Hn Hx Hnf Hv Hh Eu Et Eo. pose proof (K5 x Hx) as Hok.
  assert (a !! task_id (tasks s p) = Some Done \/ a !! task_id (tasks s p) = Some Cancelled) as Hover.
  { destruct x; cbn in Hok; try by destruct (Hnf t).
    all: first [destruct Hok as [[? _]|[_ ?]]; [lia|by right] | destruct Hok as [? ?]; first [lia|done]]. }
  split; rewrite ?Eu, ?Et; try done; try (split; [lia|done]).
  - intros z1 z2 Hz. by destruct (Hh z1).
  - split; [done|]. intros [z Hz]. by destruct (Hh z).
  - intros z Hz. by destruct (Hh z).
  - intros id Hid. destruct (K6 id Hid) as [K61 K62]. rewrite Eo. split; [done|]. intros Hs. right.
    unfold old_id. rewrite Eu, Et. destruct (K62 Hs) as [(_ & -> & _)|[Ho1 Ho2]]; [split; [lia|done]|].
    split; [|done]. destruct (used s p); lia.
Qed.

Section Inv.
Context (num_buckets : nat) (hash_of_thread : nat -> Z).

(** The task that is to be run is due. *)
Definition due (s : state) : Prop :=
  match timer s with
  | TCheck p => p ∈ heap s /\ run_time (tasks s p) <= clock s
  | TRun p => run_time (tasks s p) <= clock s
  | _ => True
  end.

Record Inv (n : Z) (s : state) (a : gmap Z status) : Prop := mkInv {
  N_slots p : slot_ok n s a p;
  N_head i : NoDup (task_head (buckets s i)) /\ (task_head (buckets s i) <> [] -> (i < num_buckets)%nat);
  N_heap : NoDup (heap s);
  N_taken : match timer s with TDelete _ l => NoDup l | _ => True end;
  N_signals : 0 <= _nsignals s <= n;
  N_due : due s }.

Definition post (n : Z) (a : gmap Z status) (r : outcome (label * state)) : Prop :=
  match r with
  | Bad => False
  | NoStep => True
  | Go (l, s') => exists a', astep a l a' /\ Inv n s' a'
  end.

(** ** Steps that move no slot *)

Definition plain (c : tpc) : bool :=
  match c with TRun _ | TRunning _ | TReturn _ => false | TDelete _ (_ :: _) => false | _ => true end.

Lemma plain_holds s p : plain (timer s) = true ->
  ~ holds s p Taken /\ ~ holds s p ToRun /\ ~ holds s p InRun /\ ~ holds s p ToReturn.
Proof.
  cbn. destruct (timer s) as [| | | |i [|q l]| | | | | | | | |]; try done; intros _; split_and!; first [apply not_elem_of_nil | by intros ?].
Qed.

Lemma Inv_quiet n n' s s' a :
  Inv n s a -> n <= n' -> tasks s' = tasks s -> used s' = used s -> buckets s' = buckets s -> heap s' = heap s ->
  handed_out s' = handed_out s ->
  (forall t p, callers s' t = SInsert p <-> callers s t = SInsert p) ->
  timer s' = timer s \/ (plain (timer s) = true /\ plain (timer s') = true) ->
  _nsignals s' = _nsignals s \/ (_nsignals s' = _nsignals s + 1 /\ n < n') ->
  due s' -> Inv n' s' a.
Proof.
  intros [H1 H2 H3 H4 H5 H6] Hn Et Eu Eb Eh Eo Hc Ht Hs Hd.
  split; rewrite ?Eb, ?Eh; try done; try lia.
  - intros p. apply (slot_ok_same n n' s s' a a p (H1 p)); rewrite ?Et, ?Eu, ?Eo; try done; try lia.
    intros x. destruct Ht as [Et'|[P1 P2]].
    + destruct x; cbn; rewrite ?Eb, ?Eh, ?Et'; done.
    + destruct (plain_holds s p P1) as (? & ? & ? & ?), (plain_holds s' p P2) as (? & ? & ? & ?).
      destruct x; try (split; done); cbn; rewrite ?Eb, ?Eh; done.
  - destruct Ht as [->|[P1 P2]]; [done|]. destruct (timer s') as [| | | |i' [|q' l']| | | | | | | | |]; try done. apply NoDup_nil_2.
Qed.

Lemma post_quiet n n' s s' a :
  Inv n s a -> n <= n' -> tasks s' = tasks s -> used s' = used s -> buckets s' = buckets s -> heap s' = heap s ->
  handed_out s' = handed_out s ->
  (forall t p, callers s' t = SInsert p <-> callers s t = SInsert p) ->
  timer s' = timer s \/ (plain (timer s) = true /\ plain (timer s') = true) ->
  _nsignals s' = _nsignals s \/ (_nsignals s' = _nsignals s + 1 /\ n < n') ->
  due s' -> post n' a (Go (Tau, s')).
Proof. intros. exists a. split; [constructor|]. by eapply Inv_quiet. Qed.

(** A caller that has no slot goes on. *)
Lemma caller_moves s t c c' :
  callers s t = c -> (forall p, c <> SInsert p) -> (forall p, c' <> SInsert p) ->
  forall u p, (<[t := c']> (callers s) : nat -> spc) u = SInsert p <-> callers s u = SInsert p.
Proof.
  intros E Hc Hc' u p. destruct (decide (u = t)) as [->|Hu]; [|by rewrite fn_lookup_insert_ne].
  rewrite fn_lookup_insert, E. split; intros ?; [by destruct (Hc' p)|by destruct (Hc p)].
Qed.

Lemma signals_next n s a : Inv n s a -> n < 2 ^ 30 -> i32 (_nsignals s + 1) = _nsignals s + 1.
Proof. intros H Hn. apply i32_small. destruct (N_signals _ _ _ H). lia. Qed.

Lemma futex_wake_quiet s :
  tasks (futex_wake s) = tasks s /\ used (futex_wake s) = used s /\ buckets (futex_wake s) = buckets s /\
  heap (futex_wake s) = heap s /\ handed_out (futex_wake s) = handed_out s /\ callers (futex_wake s) = callers s /\
  _nsignals (futex_wake s) = _nsignals s /\
  (timer (futex_wake s) = timer s \/ (plain (timer s) = true /\ timer (futex_wake s) = TLoop)).
Proof. unfold futex_wake. destruct (timer s) eqn:E; cbn; split_and!; auto. Qed.

Lemma due_futex_wake s t c : due s -> due (caller_at t c (futex_wake s)).
Proof. unfold due, futex_wake. destruct (timer s) eqn:E; cbn; rewrite ?E; done. Qed.

(** The callers but for SFill and SInsert. *)
Lemma caller_quiet n s a t :
  Inv n s a -> n < 2 ^ 30 -> (forall p, callers s t <> SInsert p) -> post (n + 1) a (caller_step num_buckets hash_of_thread t s).
Proof.
  intros H Hn Hc. unfold caller_step. destruct (callers s t) as [| |p|rt| |b| |] eqn:E; try done; try (by destruct (Hc p)).
  - destruct (rt <? _nearest_run_time s); apply (post_quiet n (n + 1) s _ a H); cbn; try lia; try done; try (by left); try (by apply H);
      try (by eapply caller_moves).
    right. split; [by eapply signals_next|lia].
  - destruct (futex_wake_quiet s) as (? & ? & ? & ? & ? & Ec & ? & Ht). apply (post_quiet n (n + 1) s _ a H); cbn; try lia; auto.
    + rewrite Ec. by eapply caller_moves.
    + destruct Ht as [?|[? ->]]; auto.
    + by apply due_futex_wake, H.
  - apply (post_quiet n (n + 1) s _ a H); cbn; try lia; try done; try (by left); try (by apply H).
    + eapply caller_moves; [done|done|]. by destruct b.
    + right. split; [by eapply signals_next|lia].
  - destruct (futex_wake_quiet s) as (? & ? & ? & ? & ? & Ec & ? & Ht). apply (post_quiet n (n + 1) s _ a H); cbn; try lia; auto.
    + rewrite Ec. by eapply caller_moves.
    + destruct Ht as [?|[? ->]]; auto.
    + by apply due_futex_wake, H.
  - destruct (timer s); try done. apply (post_quiet n (n + 1) s _ a H); cbn; try lia; try done; try (by left); try (by apply H).
    by eapply caller_moves.
Qed.

(** ** Steps that touch one slot *)

Lemma Inv_touch n n' s s' a a' p :
  Inv n s a -> n <= n' ->
  (forall q, q <> p -> (forall x, holds s' q x <-> holds s q x) /\ tasks s' q = tasks s q /\ used s' q = used s q) ->
  (forall id, slot_of_task_id id <> p -> a' !! id = a !! id /\ (id ∈ handed_out s' <-> id ∈ handed_out s)) ->
  slot_ok n' s' a' p ->
  (forall i, NoDup (task_head (buckets s' i)) /\ (task_head (buckets s' i) <> [] -> (i < num_buckets)%nat)) ->
  NoDup (heap s') -> match timer s' with TDelete _ l => NoDup l | _ => True end ->
  _nsignals s' = _nsignals s -> due s' -> Inv n' s' a'.
Proof.
  intros H Hn Hq Ha Hp Hh Hhp Ht Es Hd. split; try done; [|destruct (N_signals _ _ _ H); lia].
  intros q. destruct (decide (q = p)) as [->|Hne]; [done|]. destruct (Hq q Hne) as (Hx & Et & Eu).
  apply (slot_ok_same n n' s s' a a' q); auto; try apply H. intros id Hid. apply Ha. by subst q.
Qed.

Lemma due_ext s s' :
  due s -> timer s' = timer s -> heap s' = heap s -> clock s <= clock s' ->
  (forall q, holds s q InHeap \/ holds s q ToRun -> run_time (tasks s' q) = run_time (tasks s q)) -> due s'.
Proof.
  unfold due. intros H -> -> Hc Hq. destruct (timer s) eqn:E; try done.
  - destruct H as [Hp Hr]. split; [done|]. rewrite Hq by by left. lia.
  - rewrite Hq by by right. lia.
Qed.

Lemma fill_ok n s a t rt o :
  Inv n s a -> n < 2 ^ 30 -> callers s t = SFill rt -> post (n + 1) a (fill t rt o s).
Proof.
  intros H Hn E. unfold fill. destruct o as [p|].
  2:{ exists a. split; [constructor|]. apply (Inv_quiet n (n + 1) s _ a H); cbn; auto; try lia; first [apply H|by eapply caller_moves]. }
  destruct ((0 <=? p) && (p <? 2 ^ 32) && negb (used s p)) eqn:Hg; [|done].
  apply andb_true_iff in Hg as [[Hp1 Hp2]%andb_true_iff Hu%negb_true_iff]. apply Z.leb_le in Hp1. apply Z.ltb_lt in Hp2.
  destruct (N_slots _ _ _ H p) as [K1 K2 K3 K4 K5 K6].
  destruct (Z.eqb_spec (version (tasks s p)) 0) as [|_]; [lia|]. exists a. split; [constructor|].
  assert (forall x, ~ holds s p x) as Hno by (intros x Hx; assert (used s p = true) by (apply K2; by exists x); congruence).
  apply (Inv_touch n (n + 1) s _ a a p H); cbn; try lia; try done; try apply H.
  - intros q Hq. rewrite !fn_lookup_insert_ne by done. split_and!; [|done..].
    intros [u|i| | | | |]; cbn; try done. destruct (decide (u = t)) as [->|Hu']; [|by rewrite fn_lookup_insert_ne].
    rewrite fn_lookup_insert, E. split; congruence.
  - set (s' := caller_at _ _ _). set (v := version (tasks s p)) in *.
    assert (forall x, holds s' p x <-> x = Filling t) as Hh.
    { intros x. split; [|intros ->; cbn; by rewrite fn_lookup_insert].
      intros Hx. destruct (decide (x = Filling t)) as [|Hne]; [done|]. destruct (Hno x). destruct x as [u|i| | | | |]; try done.
      cbn in *. rewrite fn_lookup_insert_ne in Hx; [done|]. by intros ->. }
    assert (tasks s' p = mkTask rt (make_task_id p v) v) as Et by apply fn_lookup_insert.
    assert (used s' p = true) as Eu by apply fn_lookup_insert.
    assert (slot_of_task_id (make_task_id p v) = p) as Es by (apply slot_of_make; lia).
    assert (version_of_task_id (make_task_id p v) = v) as Ev by (apply version_of_make; lia).
    split; rewrite ?Et, ?Eu; cbn [tasks version task_id].
    + intros x y Hx Hy. apply Hh in Hx as ->. by apply Hh in Hy as ->.
    + split; [|done]. intros _. exists (Filling t). by apply Hh.
    + lia.
    + intros _. rewrite Es, Ev. split_and!; try lia. rewrite make_task_id_sum by lia. unfold INVALID_TASK_ID. lia.
    + intros x Hx. apply Hh in Hx as ->. cbn. rewrite fn_lookup_insert. cbn. rewrite Ev. split; [done|].
      destruct (a !! make_task_id p v) eqn:Ea; [|done]. exfalso. destruct (proj2 (K6 _ Es)) as [(Hu' & _)|[Ho _]]; [by rewrite Ea|congruence|].
      rewrite Hu, Ev in Ho. lia.
    + intros id Hid. destruct (K6 id Hid) as [K61 K62]. split; [done|]. intros Hs. right. destruct (K62 Hs) as [(Hu' & _)|[Ho1 Ho2]]; [congruence|].
      split; [|done]. rewrite Eu, Et. cbn. rewrite Ev. by rewrite Hu in Ho1.
  - apply (due_ext s); cbn; try done; [apply H|]. intros q Hq. rewrite fn_lookup_insert_ne; [done|].
    intros <-. by destruct Hq as [Hq|Hq]; [apply (Hno InHeap)|apply (Hno ToRun)].
Qed.

(** The section of Bucket::schedule. *)
Lemma insert_ok n s a t p :
  (forall u, (bucket_of num_buckets hash_of_thread u < num_buckets)%nat) ->
  Inv n s a -> callers s t = SInsert p ->
  post n a (Go (insert_section num_buckets hash_of_thread t p s)).
Proof.
  intros Hb H E. unfold insert_section. set (i := bucket_of num_buckets hash_of_thread t).
  set (c := if _ <? _ then SGlobal _ else SIdle).
  pose proof (N_slots _ _ _ H p) as K. assert (holds s p (Filling t)) as Hx by done.
  destruct (K_task _ _ _ _ K _ Hx) as [Hv Ha].
  assert (used s p = true) as Eu by (apply (K_used _ _ _ _ K); by eexists).
  destruct (K_id _ _ _ _ K Eu) as (Hs & Hv2 & Hnz & _).
  assert (forall q, c <> SInsert q) as Hc by (intros q; unfold c; by destruct (_ <? _)).
  assert (forall u q, (<[t := c]> (callers s) : nat -> spc) u = SInsert q <-> u <> t /\ callers s u = SInsert q) as Hcs.
  { intros u q. destruct (decide (u = t)) as [->|Hu]; [rewrite fn_lookup_insert|rewrite fn_lookup_insert_ne by done; tauto].
    split; [intros ?; by destruct (Hc q)|tauto]. }
  exists (<[task_id (tasks s p) := Pending (run_time (tasks s p))]> a). split; [by constructor|].
  assert (p ∉ task_head (buckets s i)) as Hnew.
  { intros Hp. assert (holds s p (InBucket i)) as Hp' by done. by pose proof (K_place _ _ _ _ K _ _ Hx Hp'). }
  eapply (Inv_touch n n s _ a _ p H); cbn; try lia; try done; try apply H.
  - intros q Hq. split; [|done]. intros [u|j| | | | |]; cbn; try done.
    + rewrite Hcs. split; [tauto|]. intros Hu. split; [|done]. intros ->. congruence.
    + destruct (decide (j = i)) as [->|Hj]; [|by rewrite fn_lookup_insert_ne]. rewrite fn_lookup_insert. cbn. set_solver.
  - intros id Hid. rewrite lookup_insert_ne by (intros <-; done). split; [done|]. rewrite elem_of_cons.
    split; [intros [->|?]; done|auto].
  - eapply (slot_ok_at n n s _ a _ p (Filling t) (InBucket i) K Hx); cbn; try done.
    + intros z. split.
      * intros Hz. destruct (decide (z = InBucket i)) as [|Hne]; [done|]. exfalso.
        assert (holds s p z /\ z <> Filling t) as [Hz' Hz2].
        { destruct z as [u|j| | | | |]; cbn in *; try done.
          - apply Hcs in Hz as [Hu Hz]. split; [done|congruence].
          - rewrite fn_lookup_insert_ne in Hz by congruence. done. }
        by rewrite (K_place _ _ _ _ K _ _ Hz' Hx) in Hz2.
      * intros ->. cbn. rewrite fn_lookup_insert. cbn. set_solver.
    + destruct (K_version _ _ _ _ K). lia.
    + left. rewrite lookup_insert_eq. done.
    + intros id Hid Hne. rewrite lookup_insert_ne by done. split; [done|]. set_solver.
    + set_solver.
  - intros j. destruct (decide (j = i)) as [->|Hj]; [|rewrite fn_lookup_insert_ne by done; apply H].
    rewrite fn_lookup_insert. cbn. split; [|intros _; apply Hb]. apply NoDup_cons. split; [done|]. apply (N_head _ _ _ H).
Qed.

Lemma Inv_later n n' s a : Inv n s a -> n <= n' -> Inv n' s a.
Proof. intros H Hn. apply (Inv_quiet n n' s s a H); auto; try done; apply H. Qed.

Lemma post_later n n' a r : post n a r -> n <= n' -> post n' a r.
Proof.
  intros H Hn. destruct r as [| |[l s]]; [done..|]. destruct H as (a' & ? & ?). exists a'. split; [done|]. by eapply Inv_later.
Qed.

(** The version never falls below that of the current id. *)
Lemma version_current s a p x : task_ok s a p x ->
  version_of_task_id (task_id (tasks s p)) <= version (tasks s p) <= version_of_task_id (task_id (tasks s p)) + 2.
Proof. destruct x; cbn; intros H; first [destruct H as [[? _]|[? _]]; lia | destruct H; lia]. Qed.

Lemma task_cancel_ok n s a p x :
  Inv n s a -> n < 2 ^ 30 -> holds s p x -> (forall t, x <> Filling t) -> task_id (tasks s p) ∈ handed_out s ->
  version (tasks s p) = version_of_task_id (task_id (tasks s p)) ->
  exists rt, a !! task_id (tasks s p) = Some (Pending rt) /\
    Inv n (on_task p (set_version (version (tasks s p) + 2) (tasks s p)) s) (<[task_id (tasks s p) := Cancelled]> a).
Proof.
  intros H Hn Hx Hnf Hin Hv. pose proof (N_slots _ _ _ H p) as K. pose proof (K_task _ _ _ _ K _ Hx) as Hok.
  assert (a !! task_id (tasks s p) = Some (Pending (run_time (tasks s p))) /\
          match x with InRun | ToReturn => False | _ => True end) as [Ha Hplace].
  { destruct x; cbn in Hok; try by destruct (Hnf t). all: first [destruct Hok as [[_ ?]|[? _]]; [done|lia] | destruct Hok; lia]. }
  assert (used s p = true) as Eu by (apply (K_used _ _ _ _ K); by eexists).
  destruct (K_id _ _ _ _ K Eu) as (Hs & _). exists (run_time (tasks s p)). split; [done|].
  assert (forall z, holds (on_task p (set_version (version (tasks s p) + 2) (tasks s p)) s) p z <-> holds s p z) as Hh by (by intros []).
  apply (Inv_touch n n s _ a _ p H); cbn; try lia; try done; try apply H.
  - intros q Hq. rewrite fn_lookup_insert_ne by done. split; [by intros []|done].
  - intros id Hid. rewrite lookup_insert_ne by (intros <-; done). done.
  - apply (slot_ok_at n n s _ a _ p x x K Hx); cbn; rewrite ?fn_lookup_insert; cbn; try done.
    + intros z. rewrite Hh. split; [intros Hz; by apply (K_place _ _ _ _ K)|by intros ->].
    + destruct (K_version _ _ _ _ K). lia.
    + destruct x; cbn; rewrite ?fn_lookup_insert; cbn; rewrite ?lookup_insert_eq, <- ?Hv; try done; try by destruct (Hnf t).
      all: by right.
    + intros id Hid Hne. by rewrite lookup_insert_ne.
  - apply (due_ext s); cbn; try done; [apply H|]. intros q _. destruct (decide (q = p)) as [->|]; [by rewrite fn_lookup_insert|by rewrite fn_lookup_insert_ne].
Qed.

Lemma unschedule_ok n s a id :
  Inv n s a -> n < 2 ^ 30 -> id ∈ handed_out s ->
  post n a (let '(rc, s') := unschedule id s in Go (Unscheduled id rc, s')).
Proof.
  intros H Hn Hin. unfold unschedule. remember (slot_of_task_id id) as p eqn:Ep. pose proof (N_slots _ _ _ H p) as K.
  destruct (K_ids _ _ _ _ K id (eq_sym Ep)) as [K1 K2]. pose proof (proj2 K1 Hin) as Hs. destruct (K_version _ _ _ _ K) as [Hvb Hvu].
  destruct (K2 Hs) as [(Hu & -> & Hnf)|[Ho1 Ho2]].
  - destruct (proj1 (K_used _ _ _ _ K) Hu) as [x Hx].
    assert (forall t, x <> Filling t) as Hnf' by (intros t ->; by apply (Hnf t)).
    pose proof (K_task _ _ _ _ K _ Hx) as Hok. pose proof (version_current _ _ _ _ Hok) as Hvc.
    destruct (Z.eqb_spec (version (tasks s p)) (version_of_task_id (task_id (tasks s p)))) as [Hv|Hv].
    + rewrite <- Hv, (wrapu_small 32) by lia. destruct (task_cancel_ok n s a p x H Hn Hx Hnf' Hin Hv) as (rt & Ha & Hi).
      eexists. split; [by eapply a_cancel|done].
    + rewrite (wrapu_small 32) by lia. exists a. split; [|done].
      destruct (Z.eqb_spec (version (tasks s p)) (version_of_task_id (task_id (tasks s p)) + 1)) as [Hv1|Hv1].
      * constructor. destruct x; cbn in Hok; try by destruct (Hnf' t).
        all: first [destruct Hok as [[? _]|[? _]]; lia | destruct Hok; first [lia|done]].
      * constructor. destruct x; cbn in Hok; try by destruct (Hnf' t).
        all: first [destruct Hok as [[? _]|[_ ?]]; [lia|by right] | destruct Hok; first [lia|done]].
  - assert (version_of_task_id id + 2 <= version (tasks s p)) as Hlt.
    { destruct (used s p) eqn:Eu; [|done]. destruct (proj1 (K_used _ _ _ _ K) Eu) as [x Hx].
      pose proof (version_current _ _ _ _ (K_task _ _ _ _ K _ Hx)). lia. }
    assert (0 <= version_of_task_id id) by (apply wrapu_range; lia).
    destruct (Z.eqb_spec (version (tasks s p)) (version_of_task_id id)); [lia|]. rewrite (wrapu_small 32) by lia.
    destruct (Z.eqb_spec (version (tasks s p)) (version_of_task_id id + 1)); [lia|].
    exists a. split; [by constructor|done].
Qed.

(** ** The timer thread *)

Lemma holds_used n s a p x : Inv n s a -> holds s p x -> used s p = true.
Proof. intros H Hx. apply (K_used _ _ _ _ (N_slots _ _ _ H p)). by exists x. Qed.

Lemma task_holds_one n s a p x y : Inv n s a -> holds s p x -> holds s p y -> x = y.
Proof. intros H. apply (K_place _ _ _ _ (N_slots _ _ _ H p)). Qed.

Lemma holds_slot n s a p x : Inv n s a -> holds s p x -> slot_of_task_id (task_id (tasks s p)) = p.
Proof. intros H Hx. apply (K_id _ _ _ _ (N_slots _ _ _ H p)). by eapply holds_used. Qed.

(** The current id of a slot that is not being filled is known. *)
Lemma holds_known n s a p x : Inv n s a -> holds s p x -> (forall t, x <> Filling t) -> task_id (tasks s p) ∈ handed_out s.
Proof.
  intros H Hx Hnf. apply (K_ids _ _ _ _ (N_slots _ _ _ H p) _ (holds_slot n s a p x H Hx)).
  pose proof (K_task _ _ _ _ (N_slots _ _ _ H p) _ Hx) as Hok. destruct x; cbn in Hok; try by destruct (Hnf t).
  all: repeat match goal with H : _ \/ _ |- _ => destruct H | H : _ /\ _ |- _ => destruct H end; by eexists.
Qed.

Lemma taken_version n s a i p l :
  Inv n s a -> n < 2 ^ 30 -> timer s = TDelete i (p :: l) -> check_version (tasks s p) = true.
Proof.
  intros H Hn E. pose proof (N_slots _ _ _ H p) as K.
  assert (holds s p Taken) as Hx by (cbn; rewrite E; set_solver). pose proof (K_task _ _ _ _ K _ Hx) as Hok.
  destruct (K_version _ _ _ _ K) as [Hvb Hvu]. unfold check_version.
  destruct (Z.eqb_spec (version (tasks s p)) (version_of_task_id (task_id (tasks s p)))) as [Hv|Hv]; [done|].
  assert (version (tasks s p) = version_of_task_id (task_id (tasks s p)) + 2) as Hv2 by (cbn in Hok; destruct Hok as [[? _]|[? _]]; done).
  rewrite <-Hv2. rewrite wrapu_small by lia. apply Z.eqb_refl.
Qed.

Lemma try_delete_ok n s a i p l :
  Inv n s a -> timer s = TDelete i (p :: l) -> Inv n (timer_at (TDelete i l) (try_delete p s)) a.
Proof.
  intros H E. pose proof (N_slots _ _ _ H p) as K.
  assert (holds s p Taken) as Hx by (cbn; rewrite E; set_solver). pose proof (K_task _ _ _ _ K _ Hx) as Hok.
  pose proof (N_taken _ _ _ H) as Hn. rewrite E in Hn. apply NoDup_cons in Hn as [Hpl Hn].
  assert (p ∉ heap s) as Hph by (intros Hp; by pose proof (task_holds_one n s a p Taken InHeap H Hx Hp)).
  pose proof (holds_slot n s a p _ H Hx) as Hs. destruct (K_version _ _ _ _ K) as [Hvb Hvu].
  unfold try_delete. rewrite Hs.
  destruct (Z.eqb_spec (version (tasks s p)) (version_of_task_id (task_id (tasks s p)))) as [Hv|Hv].
  - apply (Inv_touch n n s _ a a p H); cbn; try lia; try done; try apply H.
    + intros q Hq. split; [|done]. intros [u|j| | | | |]; cbn; rewrite ?E; try done; set_solver.
    + apply (slot_ok_at n n s _ a a p Taken InHeap K Hx); cbn; try done; [|by eapply holds_used|lia|by eapply holds_known].
      intros z. split.
      * intros Hz. destruct (decide (z = InHeap)) as [|Hne]; [done|]. exfalso.
        assert (holds s p z) as Hz' by (destruct z; cbn in *; rewrite ?E; try done; set_solver).
        pose proof (task_holds_one n s a p _ _ H Hz' Hx) as ->. done.
      * intros ->. cbn. set_solver.
    + apply NoDup_app. split; [apply H|]. split; [set_solver|apply NoDup_singleton].
  - assert (version (tasks s p) = version_of_task_id (task_id (tasks s p)) + 2) as Hv2 by (cbn in Hok; destruct Hok as [[? _]|[? _]]; done).
    apply (Inv_touch n n s _ a a p H); cbn; try lia; try done; try apply H.
    + intros q Hq. rewrite fn_lookup_insert_ne by done. split; [|done]. intros [u|j| | | | |]; cbn; rewrite ?E; try done; set_solver.
    + eapply (slot_ok_freed n n s _ a p Taken K); cbn; try done; [|apply fn_lookup_insert].
      intros z Hz. assert (holds s p z /\ z <> Taken) as [Hz' Hne] by (destruct z; cbn in *; rewrite ?E; try done; set_solver).
      apply Hne. by eapply task_holds_one.
Qed.

Lemma take_ok n s a i :
  Inv n s a -> timer s = TTake i ->
  Inv n (timer_at (TDelete i (task_head (buckets s i))) (on_bucket i (mkBucket INT64_MAX []) s)) a.
Proof.
  intros H E. split; cbn; try done; try apply H.
  - intros p. apply (slot_ok_map n n s _ a a p (fun x => if decide (x = InBucket i) then Taken else x) (N_slots _ _ _ H p));
      cbn; try done; try lia.
    + intros y. split.
      * intros Hy. destruct y as [u|j| | | | |]; cbn in Hy.
        2:{ destruct (decide (j = i)) as [->|Hj]; [rewrite fn_lookup_insert in Hy; by apply not_elem_of_nil in Hy|].
            rewrite fn_lookup_insert_ne in Hy by done. exists (InBucket j). split; [done|]. rewrite decide_False; congruence. }
        2:{ exists (InBucket i). split; [done|]. by rewrite decide_True. }
        all: try done. 1: by exists (Filling u). by exists InHeap.
      * intros (x & Hx & <-). case_decide as Hd; [by subst x|]. destruct x as [u|j| | | | |]; cbn in *; rewrite ?E in Hx; try done.
        rewrite fn_lookup_insert_ne by congruence. done.
    + intros t x. case_decide; [done|congruence].
    + intros x Hx. case_decide; [by subst x|]. by destruct x.
  - intros j. destruct (decide (j = i)) as [->|Hj]; [|rewrite fn_lookup_insert_ne by done; apply H].
    rewrite fn_lookup_insert. split; [apply NoDup_nil_2|done].
Qed.

Lemma task_pop_ok n s a p :
  Inv n s a -> timer s = TCheck p -> Inv n (timer_at (TRun p) (set_heap (remove Z.eq_dec p (heap s)) s)) a.
Proof.
  intros H E. pose proof (N_due _ _ _ H) as Hd. unfold due in Hd. rewrite E in Hd. destruct Hd as [Hp Hd].
  pose proof (N_slots _ _ _ H p) as K. assert (holds s p InHeap) as Hx by done. pose proof (K_task _ _ _ _ K _ Hx) as Hok.
  assert (forall q, q ∈ remove Z.eq_dec p (heap s) <-> q ∈ heap s /\ q <> p) as Hrm.
  { intros q. rewrite !list_elem_of_In. split; [apply in_remove|]. intros [? ?]. by apply in_in_remove. }
  apply (Inv_touch n n s _ a a p H); cbn; try lia; try done; try apply H.
  - intros q Hq. split; [|done]. intros [u|j| | | | |]; cbn; rewrite ?E; try done; [rewrite Hrm; tauto|]. split; congruence.
  - apply (slot_ok_at n n s _ a a p InHeap ToRun K Hx); cbn; try done; [|by eapply holds_used|..|by eapply holds_known].
    + intros z. split; [|by intros ->]. intros Hz. destruct (decide (z = ToRun)) as [|Hne]; [done|]. exfalso.
      assert (holds s p z /\ z <> InHeap) as [Hz' Hne'].
      { destruct z; cbn in *; rewrite ?E; try done. apply Hrm in Hz. tauto. }
      apply Hne'. by eapply task_holds_one.
    + destruct (K_version _ _ _ _ K). pose proof (version_current _ _ _ _ Hok). lia.
  - apply NoDup_rm, H.
Qed.

Lemma task_run_ok n s a p :
  Inv n s a -> n < 2 ^ 30 -> timer s = TRun p -> post n a (Go (run_and_delete p s)).
Proof.
  intros H Hn E. pose proof (N_slots _ _ _ H p) as K. assert (holds s p ToRun) as Hx by done.
  pose proof (K_task _ _ _ _ K _ Hx) as Hok. destruct (K_version _ _ _ _ K) as [Hvb Hvu]. cbn in Hok.
  pose proof (N_due _ _ _ H) as Hd. unfold due in Hd. rewrite E in Hd. pose proof (holds_slot n s a p _ H Hx) as Hs.
  unfold run_and_delete. destruct Hok as [[Hv Ha]|[Hv Ha]].
  - rewrite (proj2 (Z.eqb_eq _ _) Hv), <- Hv, (wrapu_small 32) by lia.
    exists (<[task_id (tasks s p) := Running]> a). split.
    { eapply a_run; [done|done|]. intros j Hj. destruct (K_ids _ _ _ _ (N_slots _ _ _ H (slot_of_task_id j)) j eq_refl) as [_ Hj2].
      destruct Hj2 as [(Hu & Ej & Hnf)|[_ [?|?]]]; [by rewrite Hj| |congruence|congruence].
      remember (slot_of_task_id j) as q eqn:Eq. destruct (proj1 (K_used _ _ _ _ (N_slots _ _ _ H q)) Hu) as [x Hq].
      pose proof (K_task _ _ _ _ (N_slots _ _ _ H q) _ Hq) as Hok. rewrite Ej in Hj.
      destruct x; cbn in Hok, Hq; try congruence; try (destruct Hok as [[_ ?]|[_ ?]]; congruence). }
    apply (Inv_touch n n s _ a _ p H); cbn; try lia; try done; try apply H.
    + intros q Hq. rewrite fn_lookup_insert_ne by done. split; [|done]. intros [u|j| | | | |]; cbn; rewrite ?E; try done; split; congruence.
    + intros id Hid. by rewrite lookup_insert_ne by (intros <-; done).
    + apply (slot_ok_at n n s _ a _ p ToRun InRun K Hx); cbn; rewrite ?fn_lookup_insert; cbn; try done; [|by eapply holds_used|..|by eapply holds_known].
      * intros z. split; [|by intros ->]. intros Hz. destruct (decide (z = InRun)) as [|Hne]; [done|]. exfalso.
        assert (holds s p z /\ z <> ToRun) as [Hz' Hne'] by (destruct z; cbn in *; rewrite ?E; done).
        apply Hne'. by eapply task_holds_one.
      * lia.
      * rewrite lookup_insert_eq. split; [lia|done].
      * intros id Hid Hne. by rewrite lookup_insert_ne.
  - destruct (Z.eqb_spec (version (tasks s p)) (version_of_task_id (task_id (tasks s p)))) as [|_]; [lia|].
    assert (0 <= version_of_task_id (task_id (tasks s p))) by (apply wrapu_range; lia).
    rewrite (wrapu_small 32), (proj2 (Z.eqb_eq _ _) Hv) by lia. exists a. split; [constructor|].
    apply (Inv_touch n n s _ a _ p H); cbn; try lia; try done; try apply H.
    + intros q Hq. split; [|done]. intros [u|j| | | | |]; cbn; rewrite ?E; try done; split; congruence.
    + apply (slot_ok_at n n s _ a _ p ToRun ToReturn K Hx); cbn; try done; [|by eapply holds_used|lia|by split; [|right]|by eapply holds_known].
      intros z. split; [|by intros ->]. intros Hz. destruct (decide (z = ToReturn)) as [|Hne]; [done|]. exfalso.
      assert (holds s p z /\ z <> ToRun) as [Hz' Hne'] by (destruct z; cbn in *; rewrite ?E; done).
      apply Hne'. by eapply task_holds_one.
Qed.

Lemma ran_ok n s a p :
  Inv n s a -> n < 2 ^ 30 -> timer s = TRunning p ->
  post n a (Go (Ran (task_id (tasks s p)), timer_at (TReturn p)
    (on_task p (set_version (u32 (version_of_task_id (task_id (tasks s p)) + 2)) (tasks s p)) s))).
Proof.
  intros H Hn E. pose proof (N_slots _ _ _ H p) as K. assert (holds s p InRun) as Hx by done.
  pose proof (K_task _ _ _ _ K _ Hx) as Hok. destruct (K_version _ _ _ _ K) as [Hvb Hvu]. destruct Hok as [Hv Ha].
  pose proof (holds_slot n s a p _ H Hx) as Hs.
  assert (0 <= version_of_task_id (task_id (tasks s p))) by (apply wrapu_range; lia). rewrite (wrapu_small 32) by lia.
  exists (<[task_id (tasks s p) := Done]> a). split; [by constructor|].
  apply (Inv_touch n n s _ a _ p H); cbn; try lia; try done; try apply H.
  - intros q Hq. rewrite fn_lookup_insert_ne by done. split; [|done]. intros [u|j| | | | |]; cbn; rewrite ?E; try done; split; congruence.
  - intros id Hid. by rewrite lookup_insert_ne by (intros <-; done).
  - apply (slot_ok_at n n s _ a _ p InRun ToReturn K Hx); cbn; rewrite ?fn_lookup_insert; cbn; try done; [|by eapply holds_used|..|by eapply holds_known].
    + intros z. split; [|by intros ->]. intros Hz. destruct (decide (z = ToReturn)) as [|Hne]; [done|]. exfalso.
      assert (holds s p z /\ z <> InRun) as [Hz' Hne'] by (destruct z; cbn in *; rewrite ?E; done).
      apply Hne'. by eapply task_holds_one.
    + lia.
    + rewrite lookup_insert_eq. split; [done|by left].
    + intros id Hid Hne. by rewrite lookup_insert_ne.
Qed.

Lemma return_ok n s a p :
  Inv n s a -> timer s = TReturn p ->
  Inv n (timer_at TPeek (set_used (slot_of_task_id (task_id (tasks s p))) false s)) a.
Proof.
  intros H E. pose proof (N_slots _ _ _ H p) as K. assert (holds s p ToReturn) as Hx by done.
  rewrite (holds_slot n s a p _ H Hx). apply (Inv_touch n n s _ a _ p H); cbn; try lia; try done; try apply H.
  - intros q Hq. rewrite fn_lookup_insert_ne by done. split; [|done]. intros [u|j| | | | |]; cbn; rewrite ?E; try done; split; congruence.
  - eapply (slot_ok_freed n n s _ a p ToReturn K); cbn; try done; [by apply (K_task _ _ _ _ K _ Hx)| |apply fn_lookup_insert].
    intros z Hz. assert (holds s p z /\ z <> ToReturn) as [Hz' Hne] by (destruct z; cbn in *; rewrite ?E; done).
    apply Hne. by eapply task_holds_one.
Qed.

Ltac quiet H E := apply (post_quiet _ _ _ _ _ H); cbn; try lia; rewrite ?E; auto; try done.

Lemma timer_section_ok n s a k : Inv n s a -> n < 2 ^ 30 -> post n a (timer_step num_buckets k s).
Proof.
  intros H Hn. unfold timer_step. destruct (timer s) as [| |i|i|i [|p l]| |p|p|p|p| |e d|d|] eqn:E.
  - quiet H E. right. by destruct (_stop s). by destruct (_stop s).
  - quiet H E.
  - destruct (i <? num_buckets)%nat; [destruct (task_head (buckets s i))|]; quiet H E.
  - destruct (task_head (buckets s i)) as [|p l] eqn:El; [quiet H E|]. rewrite <- El. exists a. split; [constructor|]. by apply take_ok.
  - quiet H E.
  - rewrite (taken_version n s a i p l H Hn E). exists a. split; [constructor|]. by apply try_delete_ok.
  - destruct (heap s) as [|q h] eqn:Eh; [quiet H E|]. rewrite <- Eh. destruct (heap s !! k) as [p|] eqn:Ek; [|done].
    destruct (least s (run_time (tasks s p))); [|done]. destruct (Z.ltb_spec (clock s) (run_time (tasks s p))); quiet H E.
    split; [by eapply list_elem_of_lookup_2|lia].
  - destruct (_nearest_run_time s <? run_time (tasks s p)); [quiet H E|]. exists a. split; [constructor|]. by apply task_pop_ok.
  - by apply task_run_ok.
  - by apply ran_ok.
  - exists a. split; [constructor|]. by apply return_ok.
  - destruct (_nearest_run_time s <? next_run_time s); quiet H E.
  - quiet H E. right. by destruct (_nsignals s =? e). by destruct (_nsignals s =? e).
  - destruct (_ && _); [quiet H E|done].
  - done.
Qed.

Lemma any_timer_step_ok n s a c :
  (forall u, (bucket_of num_buckets hash_of_thread u < num_buckets)%nat) ->
  Inv n s a -> n < 2 ^ 30 -> post (n + 1) a (step num_buckets hash_of_thread c s).
Proof.
  intros Hb H Hn. destruct c as [k|t rt|t o|t|id|t b|d|]; cbn [step].
  - apply (post_later n); [by apply timer_section_ok|lia].
  - destruct (callers s t) eqn:E; try done. destruct (_stop s).
    + exists a. split; [constructor|]. apply (Inv_later n); [done|lia].
    + apply (post_quiet _ _ _ _ _ H); cbn; try lia; auto; first [apply H|by eapply caller_moves].
  - destruct (callers s t) eqn:E; try done. by apply fill_ok.
  - destruct (callers s t) as [| |p| | | | |] eqn:E; try (apply (caller_quiet n s a t H Hn); intros p' Ep'; congruence).
    unfold caller_step. rewrite E. apply (post_later n); [by apply insert_ok|lia].
  - case_decide; [|done]. apply (post_later n); [by apply unschedule_ok|lia].
  - destruct (callers s t) eqn:E; try done. apply (post_quiet _ _ _ _ _ H); cbn; try lia; auto; first [apply H|by eapply caller_moves].
  - destruct (Z.leb_spec 0 d); [|done]. apply (post_quiet _ _ _ _ _ H); cbn; try lia; auto; try done.
    apply (due_ext s); cbn; try done; [apply H|lia].
  - destruct (timer s) eqn:E; try done. quiet H E.
Qed.

Lemma initial_timer_inv now : Inv 0 (initial now) ∅.
Proof.
  split; cbn; try done.
  - intros p. split; cbn; try done.
    + intros [] ?; cbn; try done; intros ?%not_elem_of_nil; done.
    + split; [done|]. intros [[] Hx]; cbn in Hx; try done; by apply not_elem_of_nil in Hx.
    + intros [] Hx; cbn in Hx; try done; by apply not_elem_of_nil in Hx.
    + intros id _. rewrite lookup_empty. split; [|by intros [? ?]]. split; [by intros [? ?]|by intros ?%not_elem_of_nil].
  - intros i. split; [apply NoDup_nil_2|done].
  - apply NoDup_nil_2.
Qed.

End Inv.
End TimerThreadInv.
