(* ===== verification/TimerThreadSafe.v ===== *)
(** * TimerThreadSafe: what follows for TimerThread

    It refines its specification; the timer thread does not sleep longer than the
    first task allows; alone, it runs all tasks that are due. *)

From stdpp Require Import functions.
From S2P Require Import Prelude TimerThread TimerThreadInv.

Module TimerThreadSafe.
Import TimerThread TimerThreadInv.

Section Safe.
Context (num_buckets : nat) (hash_of_thread : nat -> Z) (Hb : (0 < num_buckets)%nat).

Local Abbreviation step := (step num_buckets hash_of_thread).
Local Abbreviation run_all := (run_all num_buckets hash_of_thread).
Local Abbreviation Inv := (Inv num_buckets).

Lemma bucket_bound u : (bucket_of num_buckets hash_of_thread u < num_buckets)%nat.
Proof using Hb.
  unfold bucket_of. pose proof (Z.mod_pos_bound (hash_of_thread u) (Z.of_nat num_buckets)). lia.
Qed.

#[local] Arguments next_run_time : simpl never.

(** ** Waiting *)

(** The timer thread is going to look at bucket [i]. *)
Definition pulls (c : tpc) (i : nat) : Prop :=
  match c with TLoop | TClear => True | TPull j | TTake j => (j <= i)%nat | TDelete j _ => (j < i)%nat | _ => False end.

(** It is going to, or it will not sleep beyond the first task of the bucket, or
    somebody is about to tell it. *)
Definition covered (s : state) (i : nat) : Prop :=
  pulls (timer s) i \/ _nearest_run_time s <= bucket_nearest (buckets s i) \/
  exists t rt, callers s t = SGlobal rt /\ rt <= bucket_nearest (buckets s i).

Definition sleep_ok (s : state) : Prop :=
  match timer s with
  | TAsleep d => d = next_run_time s /\ (_stop s = false -> _nearest_run_time s = d \/ exists t, callers s t = SWake)
  | TFutex e d => d = next_run_time s /\ (_nsignals s = e -> _nearest_run_time s = d) /\ e <= _nsignals s
  | TEnd => _stop s = true
  | _ => True
  end.

Lemma next_run_time_ext s s' :
  heap s' = heap s -> (forall p, p ∈ heap s -> run_time (tasks s' p) = run_time (tasks s p)) -> next_run_time s' = next_run_time s.
Proof.
  unfold next_run_time. intros -> H. f_equal. apply map_ext_in. intros p Hp. apply H. by apply list_elem_of_In.
Qed.

Record Wake (s : state) : Prop := mkWake {
  W_rt p : used s p = true -> run_time (tasks s p) < INT64_MAX;
  W_fill t rt : callers s t = SFill rt -> rt < INT64_MAX;
  W_stop t b : callers s t = SStop b -> _stop s = true;
  W_bucket i p : p ∈ task_head (buckets s i) -> bucket_nearest (buckets s i) <= run_time (tasks s p);
  W_empty i : task_head (buckets s i) = [] -> bucket_nearest (buckets s i) = INT64_MAX;
  W_covered i : _stop s = false -> task_head (buckets s i) <> [] -> covered s i;
  W_sleep : sleep_ok s }.

(** Steps that leave the buckets. *)
Lemma wake_keeps n s s' a :
  Inv n s a -> Wake s -> buckets s' = buckets s ->
  (forall p, used s p = true -> run_time (tasks s' p) = run_time (tasks s p)) ->
  (forall p, used s' p = true -> used s p = true \/ run_time (tasks s' p) < INT64_MAX) ->
  (forall t rt, callers s' t = SFill rt -> callers s t = SFill rt \/ rt < INT64_MAX) ->
  (forall t b, callers s' t = SStop b -> callers s t = SStop b \/ _stop s' = true) ->
  (_stop s = true -> _stop s' = true) ->
  (forall i, _stop s' = false -> task_head (buckets s i) <> [] -> covered s i -> covered s' i) ->
  sleep_ok s' -> Wake s'.
Proof.
  intros H [H1 H2 H3 H4 H5 H6 H7] Eb Ht Hu Hf Hs Hst Hc Hsl. split; rewrite ?Eb; try done.
  - intros p Hp. destruct (Hu p Hp) as [Hp'|]; [|done]. rewrite Ht by done. auto.
  - intros t rt Et. destruct (Hf t rt Et); [by eapply H2|done].
  - intros t b Et. destruct (Hs t b Et); [|done]. by eapply Hst, H3.
  - intros i p Hp. rewrite Ht; [auto|]. by apply (holds_used _ _ _ _ _ (InBucket i) H).
  - intros i Hs' Hi. apply Hc; try done. apply H6; [|done]. destruct (_stop s); [|done]. by rewrite Hst in Hs'.
Qed.

(** The clock, and what a caller does elsewhere. *)
Definition not_global (c : spc) : Prop := match c with SGlobal _ | SWake => False | _ => True end.

Lemma covered_caller s t c i : (forall rt, callers s t <> SGlobal rt) -> covered s i -> covered (caller_at t c s) i.
Proof.
  intros Hn [?|[?|(u & rt & Hu & ?)]]; [by left|by right; left|]. right; right. exists u, rt. cbn.
  rewrite fn_lookup_insert_ne; [done|]. intros ->. by apply (Hn rt).
Qed.

Lemma sleep_caller s t c : callers s t <> SWake -> sleep_ok s -> sleep_ok (caller_at t c s).
Proof.
  unfold sleep_ok. cbn. intros Hn. destruct (timer s); try done. intros [? Hs]. split; [done|]. intros Hf.
  destruct (Hs Hf) as [?|[u Hu]]; [by left|right]. exists u. rewrite fn_lookup_insert_ne; [done|]. congruence.
Qed.

Lemma insert_eq_ne `{EqDecision A} {B} (t u : A) (c x : B) (f : A -> B) : (<[t := c]> f : A -> B) u = x -> (u = t /\ c = x) \/ (u <> t /\ f u = x).
Proof. destruct (decide (u = t)) as [->|Hu]; [rewrite fn_lookup_insert; auto|rewrite fn_lookup_insert_ne by done; auto]. Qed.

(** A caller that is not in the section of the TimerThread or after it. *)
Lemma wake_caller n s a t c :
  Inv n s a -> Wake s -> (forall rt, callers s t <> SGlobal rt) -> callers s t <> SWake ->
  (forall rt, c = SFill rt -> rt < INT64_MAX) -> (forall b, c = SStop b -> _stop s = true) -> Wake (caller_at t c s).
Proof.
  intros H HW H1 H2 H3 H4. apply (wake_keeps n s _ a H HW); cbn; try done; auto.
  - intros u rt [[-> ->]|[Hu ?]]%insert_eq_ne; [right; by apply H3|by left].
  - intros u b [[-> ->]|[Hu ?]]%insert_eq_ne; [right; by eapply H4|by left].
  - intros i _ _. by apply covered_caller.
  - apply sleep_caller; [done|apply HW].
Qed.

(** A step of the timer thread that leaves the tasks and buckets. *)
Lemma wake_timer n s a s' :
  Inv n s a -> Wake s -> buckets s' = buckets s -> callers s' = callers s -> _stop s' = _stop s ->
  (forall p, run_time (tasks s' p) = run_time (tasks s p)) -> (forall p, used s' p = true -> used s p = true) ->
  (forall i, _stop s = false -> task_head (buckets s i) <> [] -> covered s i -> covered s' i) ->
  sleep_ok s' -> Wake s'.
Proof.
  intros H HW Eb Ec Es Ht Hu Hc Hs. apply (wake_keeps n s s' a H HW); rewrite ?Ec, ?Es; auto.
Qed.

(** Where it looks at the buckets is all that matters, while _nearest_run_time
    does not grow. *)
Lemma covered_le s s' i :
  buckets s' i = buckets s i -> callers s' = callers s -> _nearest_run_time s' <= _nearest_run_time s ->
  (pulls (timer s) i -> pulls (timer s') i) -> covered s i -> covered s' i.
Proof.
  intros Eb Ec Hn Hp [?|[?|(t & rt & ? & ?)]]; unfold covered; rewrite ?Eb, ?Ec.
  - left. auto.
  - right; left. lia.
  - right; right. eauto.
Qed.

Lemma run_time_set p v s q : run_time ((<[p := set_version v (tasks s p)]> (tasks s) : Z -> Task) q) = run_time (tasks s q).
Proof. destruct (decide (q = p)) as [->|]; [by rewrite fn_lookup_insert|by rewrite fn_lookup_insert_ne]. Qed.

Lemma used_freed p s q : (<[p := false]> (used s) : Z -> bool) q = true -> used s q = true.
Proof. intros [[_ ?]|[_ ?]]%insert_eq_ne; done. Qed.

Lemma next_run_time_least s p : p ∈ heap s -> next_run_time s <= run_time (tasks s p).
Proof.
  unfold next_run_time. induction (heap s) as [|q l IH]; [by intros ?%not_elem_of_nil|]. cbn.
  intros [->|Hp]%elem_of_cons; [lia|]. specialize (IH Hp). lia.
Qed.

Lemma wake_take s i :
  Wake s -> timer s = TTake i -> 
  Wake (timer_at (TDelete i (task_head (buckets s i))) (on_bucket i (mkBucket INT64_MAX []) s)).
Proof.
  intros [H1 H2 H3 H4 H5 H6 H7] E.
  assert (forall j, j <> i -> (<[i := mkBucket INT64_MAX []]> (buckets s) : nat -> Bucket) j = buckets s j) as Hne.
  { intros j Hj. by rewrite fn_lookup_insert_ne. }
  split; cbn; auto.
  - intros j p. destruct (decide (j = i)) as [->|Hj]; [|rewrite Hne by done; apply H4].
    rewrite fn_lookup_insert. by intros ?%not_elem_of_nil.
  - intros j. destruct (decide (j = i)) as [->|Hj]; [by rewrite fn_lookup_insert|rewrite Hne by done; apply H5].
  - intros j Hs. destruct (decide (j = i)) as [->|Hj]; [by rewrite fn_lookup_insert|]. rewrite Hne by done.
    intros Hh. apply (covered_le s); cbn; try done; [by apply Hne| |by apply H6]. rewrite E. cbn. lia.
Qed.

Lemma wake_timer_step n s a k l s' :
  Inv n s a -> Wake s -> timer_step num_buckets k s = Go (l, s') -> Wake s'.
Proof.
  intros H HW. unfold timer_step, tau. destruct (timer s) as [| |i|i|i [|p q]| |p|p|p|p| |e d|d|] eqn:E.
  - intros [= _ <-]. apply (wake_timer n s a _ H HW); cbn; auto; try (unfold sleep_ok; cbn; by destruct (_stop s)).
    intros i Hs _. apply covered_le; cbn; try done. by rewrite Hs.
  - intros [= _ <-]. apply (wake_timer n s a _ H HW); cbn; auto; try done.
    intros i _ _ _. left. cbn. lia.
  - destruct (Nat.ltb_spec i num_buckets) as [Hi|Hi]; [destruct (task_head (buckets s i)) eqn:Eh|]; intros [= _ <-];
      apply (wake_timer n s a _ H HW); cbn; auto; try done; intros j Hs Hj; apply covered_le; cbn; try done; rewrite E; cbn.
    + destruct (decide (j = i)) as [->|]; [congruence|lia].
    + done.
    + intros Hij. pose proof (proj2 (N_head _ _ _ _ H j) Hj). lia.
  - destruct (task_head (buckets s i)) as [|p q] eqn:Eh; intros [= _ <-].
    + apply (wake_timer n s a _ H HW); cbn; auto; try done.
      intros j Hs Hj. apply covered_le; cbn; try done. rewrite E. cbn. destruct (decide (j = i)) as [->|]; [congruence|lia].
    + rewrite <- Eh. by apply wake_take.
  - intros [= _ <-]. apply (wake_timer n s a _ H HW); cbn; auto; try done.
    intros j Hs Hj. apply covered_le; cbn; try done. rewrite E. cbn. lia.
  - destruct (check_version _); [|done]. intros [= _ <-]. unfold try_delete. destruct (_ =? _).
    + apply (wake_timer n s a _ H HW); cbn; auto; try done. intros j _ _. apply covered_le; cbn; try done. by rewrite E.
    + apply (wake_timer n s a _ H HW); cbn; auto; try done; [apply used_freed|].
      intros j _ _. apply covered_le; cbn; try done. by rewrite E.
  - intros Hgo. assert (s' = timer_at TNext s \/ exists p, s' = timer_at (TCheck p) s) as Hs'.
    { destruct (heap s); [injection Hgo as _ <-; by left|]. destruct (_ !! k) as [p|]; [|done]. destruct (least _ _); [|done].
      injection Hgo as _ <-. destruct (_ <? _); eauto. }
    apply (wake_timer n s a _ H HW); destruct Hs' as [->|[p ->]]; cbn; auto; try done.
    all: intros j _ _; apply covered_le; cbn; try done; by rewrite E.
  - destruct (_ <? _); intros [= _ <-]; apply (wake_timer n s a _ H HW); cbn; auto; try done.
    all: intros j _ _; apply covered_le; cbn; try done; by rewrite E.
  - unfold run_and_delete. intros Hgo. destruct (_ =? _); [|destruct (_ =? _)]; injection Hgo as _ <-;
      apply (wake_timer n s a _ H HW); cbn; auto; try done; try (intros q; apply run_time_set).
    all: intros j _ _; apply covered_le; cbn; try done; by rewrite E.
  - intros [= _ <-]. apply (wake_timer n s a _ H HW); cbn; auto; try done; try (intros q; apply run_time_set).
    intros j _ _; apply covered_le; cbn; try done; by rewrite E.
  - intros [= _ <-]. apply (wake_timer n s a _ H HW); cbn; auto; try done; [apply used_freed|].
    intros j _ _; apply covered_le; cbn; try done; by rewrite E.
  - destruct (Z.ltb_spec (_nearest_run_time s) (next_run_time s)); intros [= _ <-]; apply (wake_timer n s a _ H HW); cbn; auto; try done.
    + intros j _ _; apply covered_le; cbn; try done; by rewrite E.
    + intros j _ _; apply covered_le; cbn; try done; by rewrite E.
  - intros [= _ <-]. apply (wake_timer n s a _ H HW); cbn; auto; try done.
    + intros j _ _; apply covered_le; cbn; try done; by rewrite E.
    + pose proof (W_sleep _ HW) as Hs. unfold sleep_ok in *. rewrite E in Hs. cbn. destruct Hs as (Hd & Hn & _).
      destruct (Z.eqb_spec (_nsignals s) e); [|done]. split; [done|]. intros _. left. auto.
  - destruct (_ && _); [|done]. intros [= _ <-]. apply (wake_timer n s a _ H HW); cbn; auto; try done.
    intros j _ _; apply covered_le; cbn; try done; by rewrite E.
  - done.
Qed.

Lemma wake_insert n s a t p :
  Inv n s a -> Wake s -> callers s t = SInsert p -> Wake (snd (insert_section num_buckets hash_of_thread t p s)).
Proof.
  intros H HW E. pose proof HW as [H1 H2 H3 H4 H5 H6 H7]. unfold insert_section. cbn.
  set (i := bucket_of num_buckets hash_of_thread t). set (rt := run_time (tasks s p)).
  assert (rt < INT64_MAX) as Hrt by (apply H1; by apply (holds_used _ _ _ _ _ (Filling t) H)).
  set (e := rt <? bucket_nearest (buckets s i)).
  assert (bucket_nearest (buckets s i) = INT64_MAX -> e = true) as He by (intros Hx; apply Z.ltb_lt; lia).
  assert (forall c u x, (<[t := c]> (callers s) : nat -> spc) u = x -> (u = t /\ c = x) \/ callers s u = x) as Hcu.
  { intros c u x [?|[_ ?]]%insert_eq_ne; auto. }
  split; cbn; auto.
  - intros u r [[-> Hc]|Hc]%Hcu; [|by eapply H2]. by destruct e.
  - intros u b [[-> Hc]|Hc]%Hcu; [|by eapply H3]. by destruct e.
  - intros j q. destruct (decide (j = i)) as [->|Hj]; [|rewrite fn_lookup_insert_ne by done; apply H4].
    rewrite fn_lookup_insert. cbn. unfold e. intros [->|Hq]%elem_of_cons.
    + fold rt. destruct (Z.ltb_spec rt (bucket_nearest (buckets s i))); lia.
    + pose proof (H4 i q Hq). destruct (Z.ltb_spec rt (bucket_nearest (buckets s i))); lia.
  - intros j. destruct (decide (j = i)) as [->|Hj]; [by rewrite fn_lookup_insert|rewrite fn_lookup_insert_ne by done; apply H5].
  - assert (forall j, covered s j -> covered (caller_at t (if e then SGlobal rt else SIdle) s) j) as Hcc.
    { intros j. apply covered_caller. congruence. }
    intros j Hs. destruct (decide (j = i)) as [->|Hj].
    + rewrite fn_lookup_insert. cbn. intros _. unfold covered. cbn. rewrite fn_lookup_insert. cbn. destruct e eqn:Ee.
      * right; right. exists t, rt. by rewrite fn_lookup_insert.
      * apply Hcc, H6; [done|]. intros Hh. specialize (He (H5 i Hh)). congruence.
    + rewrite fn_lookup_insert_ne by done. intros Hh. unfold covered. cbn. rewrite fn_lookup_insert_ne by done. by apply Hcc, H6.
  - unfold sleep_ok in *. cbn. destruct (timer s); try done. destruct H7 as [? H7]. split; [done|]. intros Hs.
    destruct (H7 Hs) as [?|[u Hu]]; [by left|right]. exists u. rewrite fn_lookup_insert_ne; [done|]. congruence.
Qed.

(** The section of schedule(). *)
Lemma wake_global n s a t rt l s' :
  Inv n s a -> n < 2 ^ 30 -> Wake s -> callers s t = SGlobal rt -> caller_step num_buckets hash_of_thread t s = Go (l, s') -> Wake s'.
Proof.
  intros H Hn HW E. unfold caller_step, tau. rewrite E. pose proof (signals_next _ n s a H Hn) as Hsig.
  destruct (Z.ltb_spec rt (_nearest_run_time s)) as [Hlt|Hge]; intros [= _ <-].
  - apply (wake_keeps n s _ a H HW); cbn; auto.
    + intros u r [[_ ?]|[_ ?]]%insert_eq_ne; [done|by left].
    + intros u b [[_ ?]|[_ ?]]%insert_eq_ne; [done|by left].
    + intros i Hs Hh [?|[?|(u & r & Hu & ?)]]; [by left|right; left; cbn; lia|].
      destruct (decide (u = t)) as [->|Hne]; [right; left; cbn; rewrite E in Hu; injection Hu as ->; lia|].
      right; right. exists u, r. cbn. by rewrite fn_lookup_insert_ne.
    + pose proof (W_sleep _ HW) as Hs. unfold sleep_ok in *. cbn. destruct (timer s); try done.
      * destruct Hs as (? & ? & ?). rewrite Hsig. split; [done|]. split; [lia|lia].
      * destruct Hs as [? Hs]. split; [done|]. intros Hst. right. exists t. by rewrite fn_lookup_insert.
  - apply (wake_keeps n s _ a H HW); cbn; auto.
    + intros u r [[_ ?]|[_ ?]]%insert_eq_ne; [done|by left].
    + intros u b [[_ ?]|[_ ?]]%insert_eq_ne; [done|by left].
    + intros i Hs Hh [?|[?|(u & r & Hu & ?)]]; [by left|by right; left|].
      destruct (decide (u = t)) as [->|Hne]; [right; left; cbn; rewrite E in Hu; injection Hu as ->; lia|].
      right; right. exists u, r. cbn. by rewrite fn_lookup_insert_ne.
    + apply sleep_caller; [congruence|apply HW].
Qed.

Lemma wake_futex_wake n s a t c :
  Inv n s a -> Wake s -> callers s t = SWake \/ callers s t = SStopWake -> (c = SIdle \/ c = SJoin) -> Wake (caller_at t c (futex_wake s)).
Proof.
  intros H HW E Hc.
  destruct (futex_wake_quiet s) as (Et & Eu & Eb & Eh & Eo & Ec & En & Etm).
  assert (_stop (futex_wake s) = _stop s /\ _nearest_run_time (futex_wake s) = _nearest_run_time s) as [Est Enr]
    by (unfold futex_wake; by destruct (timer s)).
  apply (wake_keeps n s _ a H HW); cbn; rewrite ?Et, ?Eu, ?Eb, ?Ec, ?Est; auto.
  - intros u r [[_ ?]|[_ ?]]%insert_eq_ne; [destruct Hc; congruence|by left].
  - intros u b [[_ ?]|[_ ?]]%insert_eq_ne; [destruct Hc; congruence|by left].
  - intros i _ _ Hcov. apply covered_caller; [rewrite Ec; destruct E; congruence|].
    revert Hcov. apply covered_le; rewrite ?Eb, ?Ec, ?Enr; try done. destruct Etm as [->|[_ ->]]; done.
  - pose proof (W_sleep _ HW) as Hs. unfold sleep_ok, futex_wake in *. cbn. destruct (timer s) eqn:Etim; cbn; rewrite ?Etim; done.
Qed.

Definition valid_choice (c : choice) : Prop := match c with Schedule _ rt => rt < INT64_MAX | _ => True end.

Lemma wake_step n s a c l s' :
  Inv n s a -> n < 2 ^ 30 -> Wake s -> valid_choice c -> step c s = Go (l, s') -> Wake s'.
Proof.
  intros H Hn HW Hv. destruct c as [k|t rt|t o|t|id|t b|d|]; cbn [TimerThread.step]; unfold tau.
  - by apply (wake_timer_step n s a).
  - destruct (callers s t) eqn:E; try done. destruct (_stop s); intros [= _ <-]; [done|].
    apply (wake_caller n s a); try done; try congruence.
  - destruct (callers s t) as [|rt| | | | | |] eqn:E; try done. destruct o as [p|]; cbn; [|intros [= _ <-]].
    2:{ apply (wake_caller n s a); try done; congruence. }
    destruct ((0 <=? p) && (p <? 2 ^ 32) && negb (used s p)) eqn:Hg; [|done]. intros [= _ <-].
    apply andb_true_iff in Hg as [_ Hu%negb_true_iff].
    assert (forall q, used s q = true -> q <> p) as Hne by congruence.
    apply (wake_keeps n s _ a H HW); cbn; auto.
    + intros q Hq. by rewrite fn_lookup_insert_ne by (apply not_eq_sym, Hne, Hq).
    + intros q [[-> _]|[_ ?]]%insert_eq_ne; [right|by left]. rewrite fn_lookup_insert. cbn. by eapply W_fill.
    + intros u r [[_ ?]|[_ ?]]%insert_eq_ne; [done|by left].
    + intros u b [[_ ?]|[_ ?]]%insert_eq_ne; [done|by left].
    + intros i _ _. apply (covered_caller s). congruence.
    + pose proof (W_sleep _ HW) as Hs. apply (sleep_caller s t (SInsert p)) in Hs; [|congruence].
      unfold sleep_ok in *. cbn in *.
      rewrite (next_run_time_ext s); [done|done|]. cbn. intros q Hq. rewrite fn_lookup_insert_ne; [done|]. apply not_eq_sym, Hne.
      by apply (holds_used _ _ _ _ _ InHeap H).
  - destruct (callers s t) as [| |p|rt| |b| |] eqn:E; try (unfold caller_step; by rewrite E).
    + unfold caller_step. rewrite E. intros Hgo. injection Hgo as _ <-. exact (wake_insert n s a t p H HW E).
    + by apply (wake_global n s a t rt).
    + unfold caller_step, tau. rewrite E. intros [= _ <-]. eapply wake_futex_wake; eauto.
    + unfold caller_step, tau. rewrite E. intros [= _ <-].
      pose proof (signals_next _ n s a H Hn) as Hsig. pose proof (W_stop _ HW t b E) as Hst.
      apply (wake_keeps n s _ a H HW); cbn; auto.
      * intros u r [[_ ?]|[_ ?]]%insert_eq_ne; [by destruct b|by left].
      * intros i Hs. congruence.
      * pose proof (W_sleep _ HW) as Hs. unfold sleep_ok in *. cbn. destruct (timer s); try done.
        -- destruct Hs as (? & ? & ?). rewrite Hsig. split; [done|]. split; lia.
        -- destruct Hs as [? Hs]. split; [done|]. intros Hst'. congruence.
    + unfold caller_step, tau. rewrite E. intros [= _ <-]. eapply wake_futex_wake; eauto.
    + unfold caller_step, tau. rewrite E. destruct (timer s); try done. intros [= _ <-].
      apply (wake_caller n s a); try done; congruence.
  - case_decide; [|done]. unfold unschedule. destruct (_ =? _); [|by intros [= _ <-]]. intros [= _ <-].
    apply (wake_timer n s a _ H HW); cbn; auto; try done; [intros q; apply run_time_set|].
    pose proof (W_sleep _ HW) as Hs. unfold sleep_ok in *. cbn. rewrite (next_run_time_ext s); [done|done|].
    intros q Hq. apply run_time_set.
  - destruct (callers s t) eqn:E; try done. intros [= _ <-].
    apply (wake_keeps n s _ a H HW); cbn; auto.
    + intros u r [[_ ?]|[_ ?]]%insert_eq_ne; [done|by left].
    + done.
    + pose proof (W_sleep _ HW) as Hs. unfold sleep_ok in *. cbn. destruct (timer s); try done.
      destruct Hs as [? Hs]. split; [done|]. done.
  - destruct (0 <=? d); [|done]. intros [= _ <-]. apply (wake_timer n s a _ H HW); cbn; auto; try done. apply HW.
  - destruct (timer s) eqn:E; try done. intros [= _ <-]. apply (wake_timer n s a _ H HW); cbn; auto; try done.
    intros j _ _; apply covered_le; cbn; try done; by rewrite E.
Qed.

Lemma initial_wake now : Wake (initial now).
Proof. split; cbn; try done. intros i p ?%not_elem_of_nil. done. Qed.

(** ** The timer thread alone *)

Lemma timer_frame k s l s' : timer_step num_buckets k s = Go (l, s') ->
  callers s' = callers s /\ clock s' = clock s /\ _stop s' = _stop s /\ handed_out s' = handed_out s /\
  (forall p, used s' p = true -> used s p = true) /\ (forall p, run_time (tasks s' p) = run_time (tasks s p)).
Proof.
  unfold timer_step, tau. destruct (timer s) as [| |i|i|i [|p q]| |p|p|p|p| |e d|d|].
  - by intros [= _ <-].
  - by intros [= _ <-].
  - destruct (i <? num_buckets)%nat; [destruct (task_head (buckets s i))|]; by intros [= _ <-].
  - destruct (task_head (buckets s i)); by intros [= _ <-].
  - by intros [= _ <-].
  - destruct (check_version _); [|done]. intros [= _ <-]. unfold try_delete. destruct (_ =? _); cbn; split_and!; try done; try apply used_freed.
  - destruct (heap s); [by intros [= _ <-]|]. destruct (_ !! k); [|done]. destruct (least _ _); [|done].
    destruct (_ <? _); by intros [= _ <-].
  - destruct (_ <? _); by intros [= _ <-].
  - unfold run_and_delete. destruct (_ =? _); [|destruct (_ =? _)]; intros [= _ <-]; cbn; split_and!; try done.
    intros q. apply run_time_set.
  - intros [= _ <-]. cbn. split_and!; try done. intros q. apply run_time_set.
  - intros [= _ <-]. cbn. split_and!; try done. apply used_freed.
  - destruct (_ <? _); by intros [= _ <-].
  - by intros [= _ <-].
  - destruct (_ && _); by intros [= _ <-].
  - done.
Qed.

(** Nobody calls, and all tasks are due. *)
Record Good (s : state) : Prop := mkGood {
  G_inv : exists n a, n < 2 ^ 30 /\ Inv n s a;
  G_wake : Wake s;
  G_idle t : callers s t = SIdle;
  G_stop : _stop s = false;
  G_ripe p : used s p = true -> run_time (tasks s p) <= clock s }.

Lemma good_step k s l s' : Good s -> timer_step num_buckets k s = Go (l, s') -> Good s'.
Proof.
  intros [(n & a & Hn & H) HW Hi Hs Hr] Hst. destruct (timer_frame k s l s' Hst) as (Ec & Ek & Es & _ & Hu & Ht).
  split; rewrite ?Ec, ?Ek, ?Es; auto.
  - exists n. pose proof (timer_section_ok num_buckets hash_of_thread n s a k H Hn) as Hp. rewrite Hst in Hp. destruct Hp as (a' & _ & ?). by exists a'.
  - by apply (wake_timer_step n s a k l).
  - intros p Hp. rewrite Ht. auto.
Qed.

(** Some number of its steps leads to such a state. *)
Inductive reaches (Q : state -> Prop) : state -> Prop :=
  | reaches_now s : Good s -> Q s -> reaches Q s
  | reaches_step k l s s1 : Good s -> timer_step num_buckets k s = Go (l, s1) -> reaches Q s1 -> reaches Q s.

Lemma reaches_trans (P Q : state -> Prop) s : reaches P s -> (forall s1, Good s1 -> P s1 -> reaches Q s1) -> reaches Q s.
Proof. induction 1; [auto|]. intros HQ. eapply reaches_step; [done|done|auto]. Qed.

Lemma reaches_good Q s : reaches Q s -> Good s.
Proof. by destruct 1. Qed.

(** One step of which the result does not depend on a choice. *)
Lemma goes Q s s1 : Good s -> timer_step num_buckets 0 s = Go (Tau, s1) -> (Good s1 -> reaches Q s1) -> reaches Q s.
Proof. intros H E Hq. eapply reaches_step; [done|done|]. apply Hq. by eapply good_step. Qed.

Lemma delete_reaches i l s : Good s -> timer s = TDelete i l ->
  reaches (fun s' => timer s' = TPull (S i) /\ buckets s' = buckets s /\ _nearest_run_time s' = _nearest_run_time s) s.
Proof.
  revert s. induction l as [|p l IH]; intros s H E.
  - apply (goes _ s (timer_at (TPull (S i)) s) H); [unfold timer_step; by rewrite E|]. intros H1. by apply reaches_now.
  - apply (goes _ s (timer_at (TDelete i l) (try_delete p s)) H).
    { destruct (G_inv s H) as (n & a & Hn & HI). unfold timer_step. by rewrite E, (taken_version num_buckets hash_of_thread n s a i p l HI Hn E). }
    intros H1.
    apply (reaches_trans _ _ _ (IH _ H1 eq_refl)). intros s2 H2 (E2 & Eb & En). apply reaches_now; [done|].
    split; [done|]. rewrite Eb, En. unfold try_delete. by destruct (_ =? _).
Qed.

(** Buckets from [i] on are empty, and so are those that were. *)
Definition pulled (i : nat) (s s' : state) : Prop :=
  timer s' = TPeek /\ (forall j, (i <= j)%nat \/ task_head (buckets s j) = [] -> task_head (buckets s' j) = []) /\
  _nearest_run_time s' = _nearest_run_time s.

Lemma no_bucket s i : Good s -> (num_buckets <= i)%nat -> task_head (buckets s i) = [].
Proof.
  intros H Hi. destruct (G_inv _ H) as (n & a & _ & Hinv). destruct (task_head (buckets s i)) eqn:Eh; [done|].
  pose proof (proj2 (N_head _ _ _ _ Hinv i)) as Hlt. rewrite Eh in Hlt. specialize (Hlt ltac:(done)). lia.
Qed.

Lemma pull_end i s : Good s -> timer s = TPull i -> (num_buckets <= i)%nat -> reaches (pulled i s) s.
Proof.
  intros H E Hi. apply (goes _ s (timer_at TPeek s) H).
  { unfold timer_step. rewrite E. by destruct (Nat.ltb_spec i num_buckets); [lia|]. }
  intros H1. apply reaches_now; [done|]. split; [done|]. split; [|done]. intros j [Hj|Hj]; [|done].
  apply (no_bucket s j H). lia.
Qed.

Lemma pull_reaches m : forall i s, Good s -> timer s = TPull i -> (num_buckets - i <= m)%nat -> reaches (pulled i s) s.
Proof.
  induction m as [|m IH]; intros i s H E Hm.
  all: destruct (Nat.ltb_spec i num_buckets) as [Hi|Hi]; [|by apply pull_end]; try lia.
  assert (forall s1, Good s1 -> timer s1 = TPull (S i) -> (forall j, j <> i -> buckets s1 j = buckets s j) ->
          task_head (buckets s1 i) = [] -> _nearest_run_time s1 = _nearest_run_time s -> reaches (pulled i s) s1) as Hnext.
  { intros s1 H1 E1 Eb Ee En. apply (reaches_trans (pulled (S i) s1)); [apply IH; [done|done|lia]|].
    intros s2 H2 (E2 & Hh & En2). apply reaches_now; [done|]. split; [done|]. split; [|congruence].
    intros j Hj. apply Hh. destruct (decide (j = i)) as [->|Hne]; [by right|]. rewrite Eb by done. destruct Hj; [left; lia|by right]. }
  destruct (task_head (buckets s i)) as [|p l] eqn:Eh.
  - apply (goes _ s (timer_at (TPull (S i)) s) H).
    { unfold timer_step. rewrite E, Eh. by destruct (Nat.ltb_spec i num_buckets); [|lia]. }
    intros H1. by apply Hnext.
  - apply (goes _ s (timer_at (TTake i) s) H).
    { unfold timer_step. rewrite E, Eh. by destruct (Nat.ltb_spec i num_buckets); [|lia]. }
    intros H1. apply (goes _ _ (timer_at (TDelete i (p :: l)) (on_bucket i (mkBucket INT64_MAX []) (timer_at (TTake i) s))) H1).
    { unfold timer_step. cbn. by rewrite Eh. }
    intros H2. eapply reaches_trans; [by apply (delete_reaches i (p :: l))|].
    intros s3 H3 (E3 & Eb3 & En3). cbn in Eb3, En3. apply Hnext; [done|done|..]; rewrite ?Eb3; [|by rewrite fn_lookup_insert|done].
    intros j Hj. by rewrite fn_lookup_insert_ne.
Qed.

Lemma exists_least s : heap s <> [] -> exists k p, heap s !! k = Some p /\ least s (run_time (tasks s p)) = true.
Proof.
  unfold least. intros Hne.
  assert (exists p, p ∈ heap s /\ forall q, q ∈ heap s -> run_time (tasks s p) <= run_time (tasks s q)) as (p & Hp & Hq).
  { induction (heap s) as [|q l IH]; [done|]. destruct l as [|r l].
    - exists q. split; [set_solver|]. intros x [->|Hx]%elem_of_cons; [done|by apply not_elem_of_nil in Hx].
    - destruct IH as (p & Hp & Hl); [done|]. destruct (Z.leb_spec (run_time (tasks s q)) (run_time (tasks s p))).
      + exists q. split; [set_solver|]. intros x [->|Hx]%elem_of_cons; [done|]. specialize (Hl x Hx). lia.
      + exists p. split; [set_solver|]. intros x [->|Hx]%elem_of_cons; [lia|by apply Hl]. }
  apply list_elem_of_lookup in Hp as [k Hk]. exists k, p. split; [done|]. apply forallb_forall. intros q Hin. apply Z.leb_le, Hq.
  by apply list_elem_of_In.
Qed.

(** It comes back from a task. *)
Lemma run_reaches p s : Good s -> timer s = TRun p ->
  reaches (fun s' => timer s' = TPeek /\ buckets s' = buckets s /\ _nearest_run_time s' = _nearest_run_time s /\ heap s' = heap s) s.
Proof.
  intros H E.
  assert (forall s1, Good s1 -> timer s1 = TReturn p -> buckets s1 = buckets s -> _nearest_run_time s1 = _nearest_run_time s ->
    heap s1 = heap s ->
    reaches (fun s' => timer s' = TPeek /\ buckets s' = buckets s /\ _nearest_run_time s' = _nearest_run_time s /\ heap s' = heap s) s1) as Hret.
  { intros s1 H1 E1 Eb En Eh. eapply (goes _ s1 _ H1); [unfold timer_step; by rewrite E1|]. intros H2. by apply reaches_now. }
  assert (timer_step num_buckets 0 s = Go (run_and_delete p s)) as Est by (unfold timer_step; by rewrite E).
  unfold run_and_delete in Est. destruct (_ =? _); [|destruct (_ =? _)].
  - pose proof (good_step _ _ _ _ H Est) as H1. eapply (reaches_step _ 0%nat); [done|done|].
    eapply (reaches_step _ 0%nat); [done|unfold timer_step; cbn; reflexivity|].
    apply Hret; try done. eapply (good_step 0%nat); [exact H1|]. unfold timer_step. cbn. reflexivity.
  - apply (goes _ s _ H Est). intros H1. by apply Hret.
  - apply (goes _ s _ H Est). intros H1. by apply reaches_now.
Qed.

(** The heap empties, unless a task was announced that comes first. *)
Definition drained (s s' : state) : Prop :=
  (timer s' = TLoop /\ _nearest_run_time s < INT64_MAX) \/
  (timer s' = TNext /\ heap s' = [] /\ buckets s' = buckets s /\ _nearest_run_time s' = _nearest_run_time s).

Lemma drain_reaches m : forall s, Good s -> timer s = TPeek -> (length (heap s) <= m)%nat -> reaches (drained s) s.
Proof.
  induction m as [|m IH]; intros s H E Hm.
  all: destruct (heap s) as [|q h] eqn:Eh; cbn in Hm; try lia.
  1,2: apply (goes _ s (timer_at TNext s) H); [unfold timer_step; by rewrite E, Eh|]; intros H1; apply reaches_now; [done|]; by right.
  destruct (exists_least s) as (k & p & Hk & Hl); [by rewrite Eh|].
  assert (p ∈ heap s) as Hp by by eapply list_elem_of_lookup_2.
  destruct (G_inv _ H) as (n & a & _ & Hinv). assert (used s p = true) as Hu by by apply (holds_used _ _ _ _ _ InHeap Hinv).
  pose proof (G_ripe _ H p Hu) as Hripe. pose proof (W_rt _ (G_wake _ H) p Hu) as Hmax.
  assert (timer_step num_buckets k s = Go (Tau, timer_at (TCheck p) s)) as Est.
  { unfold timer_step. rewrite E, Eh, <- Eh, Hk, Hl. by destruct (Z.ltb_spec (clock s) (run_time (tasks s p))); [lia|]. }
  pose proof (good_step _ _ _ _ H Est) as H1. eapply reaches_step; [done|done|].
  destruct (Z.ltb_spec (_nearest_run_time s) (run_time (tasks s p))) as [Hlt|Hge].
  - apply (goes _ _ (timer_at TLoop s) H1). { unfold timer_step. cbn. by destruct (Z.ltb_spec (_nearest_run_time s) (run_time (tasks s p))); [|lia]. }
    intros H2. apply reaches_now; [done|]. left. split; [done|]. lia.
  - apply (goes _ _ (timer_at (TRun p) (set_heap (remove Z.eq_dec p (heap s)) (timer_at (TCheck p) s))) H1).
    { unfold timer_step. cbn. by destruct (Z.ltb_spec (_nearest_run_time s) (run_time (tasks s p))); [lia|]. }
    intros H2. eapply reaches_trans; [by eapply run_reaches|]. cbn. intros s3 H3 (E3 & Eb3 & En3 & Eh3).
    eapply reaches_trans; [apply IH; [done|done|]|].
    { rewrite Eh3. pose proof (remove_length_lt Z.eq_dec (heap s) p) as Hlen.
      specialize (Hlen ltac:(by apply list_elem_of_In)). rewrite Eh in Hlen |- *. cbn [length] in Hlen. lia. }
    intros s4 H4 [[E4 Hn4]|(E4 & Eh4 & Eb4 & En4)]; apply reaches_now; try done; [left|right; split_and!; congruence].
    split; [done|]. lia.
Qed.

(** No slot is in use. *)
Definition finished (s : state) : Prop := forall p, used s p = false.

Lemma nothing_left s :
  Good s -> (forall i, task_head (buckets s i) = []) -> heap s = [] -> plain (timer s) = true -> finished s.
Proof.
  intros H Hb0 Hh Hp p. destruct (used s p) eqn:Eu; [|done]. exfalso. destruct (G_inv _ H) as (n & a & _ & Hinv).
  destruct (proj1 (K_used _ _ _ _ (N_slots _ _ _ _ Hinv p)) Eu) as [x Hx]. destruct (plain_holds s p Hp) as (? & ? & ? & ?).
  destruct x; try done; cbn in Hx.
  - by rewrite (G_idle _ H) in Hx.
  - rewrite Hb0 in Hx. by apply not_elem_of_nil in Hx.
  - rewrite Hh in Hx. by apply not_elem_of_nil in Hx.
Qed.

Lemma loop_reaches s : Good s -> timer s = TLoop -> reaches finished s.
Proof.
  intros H E. apply (goes _ s (timer_at TClear s) H); [unfold timer_step; by rewrite E, (G_stop _ H)|]. intros H1.
  apply (goes _ _ (timer_at (TPull 0) (set_nearest INT64_MAX (timer_at TClear s))) H1); [done|]. intros H2.
  eapply reaches_trans; [by apply (pull_reaches num_buckets 0); [done|done|lia]|]. intros s3 H3 (E3 & Hh & En). cbn in En.
  eapply reaches_trans; [by apply (drain_reaches (length (heap s3)) s3)|].
  intros s4 H4 [[_ Hlt]|(E4 & Eh & Eb & _)]; [lia|]. apply reaches_now; [done|]. apply nothing_left; [done| |done|by rewrite E4].
  intros i. rewrite Eb. apply Hh. left. lia.
Qed.

Lemma next_is_some s : next_run_time s = INT64_MAX \/ exists p, p ∈ heap s /\ next_run_time s = run_time (tasks s p).
Proof.
  unfold next_run_time. induction (heap s) as [|q l IH]; [by left|]. cbn.
  destruct (Z.min_spec (run_time (tasks s q)) (fold_right Z.min INT64_MAX (map (fun p => run_time (tasks s p)) l))) as [[_ ->]|[_ ->]].
  - right. exists q. set_solver.
  - destruct IH as [?|(p & ? & ?)]; [by left|right]. exists p. set_solver.
Qed.

Lemma asleep_reaches d s : Good s -> timer s = TAsleep d -> reaches finished s.
Proof.
  intros H E. destruct (G_inv _ H) as (n & a & _ & Hinv). pose proof (G_wake _ H) as HW.
  pose proof (W_sleep _ HW) as Hs. unfold sleep_ok in Hs. rewrite E in Hs. destruct Hs as [Hd Hn].
  assert (_nearest_run_time s = d) as Hnr.
  { destruct (Hn (G_stop _ H)) as [?|[t Ht]]; [done|]. by rewrite (G_idle _ H) in Ht. }
  assert (forall x p, holds s p x -> run_time (tasks s p) < INT64_MAX) as Hmax.
  { intros x p Hp. apply (W_rt _ HW). by apply (holds_used _ _ _ _ _ x Hinv). }
  destruct (next_is_some s) as [Hx|(p & Hp & Hx)].
  - apply reaches_now; [done|]. apply nothing_left; [done| | |by rewrite E].
    + intros i. destruct (task_head (buckets s i)) as [|p l] eqn:Eh; [done|exfalso].
      assert (p ∈ task_head (buckets s i)) as Hp by (rewrite Eh; set_solver).
      pose proof (W_bucket _ HW i p Hp). pose proof (Hmax (InBucket i) p Hp).
      destruct (W_covered _ HW i (G_stop _ H)) as [Hc|[Hc|(t & rt & Hc & _)]]; [by rewrite Eh|by rewrite E in Hc|lia|by rewrite (G_idle _ H) in Hc].
    + destruct (heap s) as [|p l] eqn:Eh; [done|exfalso]. assert (p ∈ heap s) as Hp by (rewrite Eh; set_solver).
      pose proof (next_run_time_least s p Hp). pose proof (Hmax InHeap p Hp). lia.
  - pose proof (Hmax InHeap p Hp). assert (run_time (tasks s p) <= clock s) by (apply (G_ripe _ H); by apply (holds_used _ _ _ _ _ InHeap Hinv)).
    apply (goes _ s (timer_at TLoop s) H); [|intros Hg; by apply loop_reaches].
    unfold timer_step. rewrite E. by destruct (Z.eqb_spec d INT64_MAX), (Z.leb_spec d (clock s)); cbn; try lia.
Qed.

Lemma next_reaches s : Good s -> timer s = TNext -> reaches finished s.
Proof.
  intros H E. assert (timer_step num_buckets 0 s = Go (Tau, if _nearest_run_time s <? next_run_time s then timer_at TLoop s
    else timer_at (TFutex (_nsignals s) (next_run_time s)) (set_nearest (next_run_time s) s))) as Est.
  { unfold timer_step. rewrite E. by destruct (_ <? _). }
  apply (goes _ _ _ H Est). destruct (_ <? _); intros H1; [by apply loop_reaches|].
  eapply (goes _ _ _ H1); [unfold timer_step; cbn; by rewrite Z.eqb_refl|]. intros H2. by eapply asleep_reaches.
Qed.

Lemma peek_reaches s : Good s -> timer s = TPeek -> reaches finished s.
Proof.
  intros H E. eapply reaches_trans; [by apply (drain_reaches (length (heap s)) s)|].
  intros s1 H1 [[E1 _]|[E1 _]]; [by apply loop_reaches|by apply next_reaches].
Qed.

Lemma pull_finishes i s : Good s -> timer s = TPull i -> reaches finished s.
Proof.
  intros H E. eapply reaches_trans; [by apply (pull_reaches (num_buckets - i) i s)|].
  intros s1 H1 [E1 _]. by apply peek_reaches.
Qed.

Lemma delete_finishes i l s : Good s -> timer s = TDelete i l -> reaches finished s.
Proof.
  intros H E. eapply reaches_trans; [by apply (delete_reaches i l s)|]. intros s1 H1 [E1 _]. by eapply pull_finishes.
Qed.

Lemma run_finishes p s : Good s -> timer s = TRun p -> reaches finished s.
Proof.
  intros H E. eapply reaches_trans; [by apply (run_reaches p s)|]. intros s1 H1 [E1 _]. by apply peek_reaches.
Qed.

Lemma timer_finishes s : Good s -> reaches finished s.
Proof.
  intros H. destruct (timer s) as [| |i|i|i l| |p|p|p|p| |e d|d|] eqn:E.
  - by apply loop_reaches.
  - eapply (goes _ _ _ H); [unfold timer_step; by rewrite E|]. intros H1. by eapply pull_finishes.
  - by eapply pull_finishes.
  - destruct (task_head (buckets s i)) as [|p l] eqn:Eh.
    + eapply (goes _ _ _ H); [unfold timer_step; by rewrite E, Eh|]. intros H1. by eapply pull_finishes.
    + eapply (goes _ _ _ H); [unfold timer_step; by rewrite E, Eh|]. intros H1. by eapply delete_finishes.
  - by eapply delete_finishes.
  - by apply peek_reaches.
  - destruct (_nearest_run_time s <? run_time (tasks s p)) eqn:Ec.
    + eapply (goes _ _ _ H); [unfold timer_step; by rewrite E, Ec|]. intros H1. by apply loop_reaches.
    + eapply (goes _ _ _ H); [unfold timer_step; by rewrite E, Ec|]. intros H1. by eapply run_finishes.
  - by eapply run_finishes.
  - eapply (reaches_step _ 0%nat); [done|unfold timer_step; by rewrite E|].
    assert (Good (timer_at (TReturn p) (on_task p (set_version (u32 (version_of_task_id (task_id (tasks s p)) + 2)) (tasks s p)) s))) as H1.
    { eapply (good_step 0%nat s); [done|]. unfold timer_step. by rewrite E. }
    eapply (goes _ _ _ H1); [done|]. intros H2. by apply peek_reaches.
  - eapply (goes _ _ _ H); [unfold timer_step; by rewrite E|]. intros H1. by apply peek_reaches.
  - by apply next_reaches.
  - destruct (_nsignals s =? e) eqn:Ee.
    + eapply (goes _ _ _ H); [unfold timer_step; by rewrite E, Ee|]. intros H1. by eapply asleep_reaches.
    + eapply (goes _ _ _ H); [unfold timer_step; by rewrite E, Ee|]. intros H1. by apply loop_reaches.
  - by eapply asleep_reaches.
  - pose proof (W_sleep _ (G_wake _ H)) as Hs. unfold sleep_ok in Hs. rewrite E in Hs. by rewrite (G_stop _ H) in Hs.
Qed.

(** ** Runs *)

Lemma run_timer_ok l s n a :
  Inv n s a -> Wake s -> Forall valid_choice l -> n + Z.of_nat (length l) < 2 ^ 30 ->
  match run_all l s with
  | Bad => False
  | NoStep => True
  | Go (ls, s') => exists a', aruns a ls a' /\ Inv (n + Z.of_nat (length l)) s' a' /\ Wake s'
  end.
Proof using Hb.
  intros H HW Hv. revert s n a H HW. induction Hv as [|c l Hc _ IH]; intros s n a H HW Hn; cbn [TimerThread.run_all].
  - exists a. split; [constructor|]. split; [|done]. apply (Inv_later _ n); [done|lia].
  - cbn [length] in *. pose proof (any_timer_step_ok num_buckets hash_of_thread n s a c bucket_bound H ltac:(lia)) as Hs.
    destruct (step c s) as [| |[x s1]] eqn:Es; cbn in *; [done|done|]. destruct Hs as (a1 & Hx & H1).
    assert (Wake s1) as HW1 by (apply (wake_step n s a c x s1 H); [lia|done|done|exact Es]).
    specialize (IH s1 (n + 1) a1 H1 HW1 ltac:(lia)).
    destruct (run_all l s1) as [| |[ls s']]; cbn; [done|done|]. destruct IH as (a' & Hl & H' & HW').
    exists a'. split; [by econstructor|]. split; [|done]. replace (n + Z.of_nat (S (length l))) with (n + 1 + Z.of_nat (length l)) by lia. done.
Qed.

Definition is_timer (c : choice) : Prop := exists k, c = Timer k.

Lemma reaches_run Q s n a : reaches Q s -> Inv n s a -> n < 2 ^ 30 ->
  exists l ls s' a', Forall is_timer l /\ run_all l s = Go (ls, s') /\ Q s' /\ aruns a ls a' /\ Inv n s' a'.
Proof.
  intros Hr. revert a. induction Hr as [s H HQ|k l s s1 H E _ IH]; intros a Hi Hn.
  - exists [], [], s, a. split_and!; try done. constructor.
  - pose proof (timer_section_ok num_buckets hash_of_thread n s a k Hi Hn) as Hp. rewrite E in Hp. destruct Hp as (a1 & Ha & Hi1).
    destruct (IH a1 Hi1 Hn) as (cs & ls & s' & a' & Hf & Hrun & HQ & Hr & Hi'). exists (Timer k :: cs), (l :: ls), s', a'.
    split_and!; try done.
    + constructor; [by exists k|done].
    + cbn [TimerThread.run_all TimerThread.step]. rewrite E. cbn. by rewrite Hrun.
    + by econstructor.
Qed.

(** A pending task is in a bucket or in the heap when the timer thread sleeps. *)
Lemma asleep_before_pending s n a d id rt :
  Inv n s a -> Wake s -> timer s = TAsleep d -> _stop s = false -> (forall t, callers s t = SIdle) ->
  a !! id = Some (Pending rt) -> d <= rt.
Proof.
  intros H HW E Hs Hi Ha. remember (slot_of_task_id id) as p eqn:Ep. pose proof (N_slots _ _ _ _ H p) as K.
  destruct (K_ids _ _ _ _ K id (eq_sym Ep)) as [_ Hid]. destruct Hid as [(Hu & -> & _)|[_ [?|?]]]; [by rewrite Ha| |congruence|congruence].
  destruct (proj1 (K_used _ _ _ _ K) Hu) as [x Hx]. pose proof (K_task _ _ _ _ K _ Hx) as Hok.
  pose proof (W_sleep _ HW) as Hsl. unfold sleep_ok in Hsl. rewrite E in Hsl. destruct Hsl as [Hd Hn].
  assert (_nearest_run_time s = d) as Hnr by (destruct (Hn Hs) as [?|[t Ht]]; [done|by rewrite Hi in Ht]).
  assert (forall i, x = InBucket i -> _nearest_run_time s <= bucket_nearest (buckets s i)) as Hcov.
  { intros i ->. cbn in Hx. destruct (W_covered _ HW i Hs) as [Hc|[?|(t & r & Ht & _)]]; [|by rewrite E in Hc|done|by rewrite Hi in Ht].
    destruct (task_head (buckets s i)); [by apply not_elem_of_nil in Hx|done]. }
  destruct x as [t|i| | | | |]; cbn in Hx; rewrite ?E, ?Hi in Hx; try done; destruct Hok as [[_ Ha']|[_ Ha']]; rewrite Ha in Ha'; try done;
    injection Ha' as ->.
  - pose proof (W_bucket _ HW i p Hx). specialize (Hcov i eq_refl). lia.
  - rewrite Hd. by apply next_run_time_least.
Qed.

Lemma finished_over s n a : Inv n s a -> finished s -> forall id st, a !! id = Some st -> st = Done \/ st = Cancelled.
Proof.
  intros H Hf id st Ha. destruct (K_ids _ _ _ _ (N_slots _ _ _ _ H (slot_of_task_id id)) id eq_refl) as [_ Hid].
  destruct Hid as [(Hu & _)|[_ [?|?]]]; [by rewrite Ha|by rewrite Hf in Hu|left; congruence|right; congruence].
Qed.

End Safe.

(** ** The theorems *)

(** C25. However threads interleave in schedule(), unschedule(), stop_and_join() and
    the timer thread, with any slots from the pool that are free: every id that
    schedule() makes is new, its task runs at most once, not before its time, with
    no other task running, and not after unschedule() returned 0; unschedule()
    returns 0, 1 or -1 according to whether the task waits, runs, or is over.
    (Fewer than 2^30 steps: no version wraps.) *)
Theorem timer_refines_spec (num_buckets : nat) (hash_of_thread : nat -> Z) (now : Z) (l : list choice) :
  (0 < num_buckets)%nat -> Forall valid_choice l -> Z.of_nat (length l) < 2 ^ 30 ->
  match run_all num_buckets hash_of_thread l (initial now) with
  | Bad => False
  | NoStep => True
  | Go (ls, _) => exists a, aruns ∅ ls a
  end.
Proof.
  intros Hb Hv Hl. pose proof (run_timer_ok num_buckets hash_of_thread Hb l _ 0 ∅ (initial_timer_inv _ now) (initial_wake now) Hv ltac:(lia)) as H.
  destruct (run_all num_buckets hash_of_thread l (initial now)) as [| |[ls s]]; [done|done|].
  destruct H as (a & Ha & _). by exists a.
Qed.

(** When the timer thread sleeps in the futex until [d] and no schedule() is in
    progress, no task that waits to be run comes before [d]: no wake-up is lost
    between the buckets, _nearest_run_time and _nsignals. *)
Theorem timer_never_oversleeps (num_buckets : nat) (hash_of_thread : nat -> Z) (now : Z) (l : list choice) ls s d :
  (0 < num_buckets)%nat -> Forall valid_choice l -> Z.of_nat (length l) < 2 ^ 30 ->
  run_all num_buckets hash_of_thread l (initial now) = Go (ls, s) ->
  timer s = TAsleep d -> _stop s = false -> (forall t, callers s t = SIdle) ->
  exists a, aruns ∅ ls a /\ forall id rt, a !! id = Some (Pending rt) -> d <= rt.
Proof.
  intros Hb Hv Hl E Ht Hs Hi. pose proof (run_timer_ok num_buckets hash_of_thread Hb l _ 0 ∅ (initial_timer_inv _ now) (initial_wake now) Hv ltac:(lia)) as H.
  rewrite E in H. destruct H as (a & Ha & Hinv & HW). exists a. split; [done|]. intros id rt. by eapply asleep_before_pending.
Qed.

(** C26. Tasks that are due are run: from every state in which no call is in
    progress, the timer was not stopped and the time of all its tasks has come,
    the timer thread alone gets to a state where each task is over and all slots
    are back in the pool - also when it was asleep. *)
Theorem due_tasks_run (num_buckets : nat) (hash_of_thread : nat -> Z) (now : Z) (l : list choice) ls s :
  (0 < num_buckets)%nat -> Forall valid_choice l -> Z.of_nat (length l) < 2 ^ 30 ->
  run_all num_buckets hash_of_thread l (initial now) = Go (ls, s) ->
  _stop s = false -> (forall t, callers s t = SIdle) -> (forall p, used s p = true -> run_time (tasks s p) <= clock s) ->
  exists l' ls' s' a a', Forall is_timer l' /\ run_all num_buckets hash_of_thread l' s = Go (ls', s') /\
    (forall p, used s' p = false) /\ aruns ∅ ls a /\ aruns a ls' a' /\
    forall id st, a' !! id = Some st -> st = Done \/ st = Cancelled.
Proof.
  intros Hb Hv Hl E Hs Hi Hr. pose proof (run_timer_ok num_buckets hash_of_thread Hb l _ 0 ∅ (initial_timer_inv _ now) (initial_wake now) Hv ltac:(lia)) as H.
  rewrite E in H. destruct H as (a & Ha & Hinv & HW).
  assert (Good num_buckets s) as HG by (split; try done; by exists (0 + Z.of_nat (length l)), a).
  destruct (reaches_run num_buckets hash_of_thread _ s _ a (timer_finishes num_buckets hash_of_thread Hb s HG) Hinv ltac:(lia))
    as (l' & ls' & s' & a' & Hf & Hrun & HQ & Hruns & Hinv').
  exists l', ls', s', a, a'. split_and!; try done. by eapply finished_over.
Qed.

(** *** A run

    Two buckets.  The timer thread has found nothing and is about to sleep; a task
    for time 100 wakes it up, one for time 50 keeps it from waiting for 100; it
    sleeps until 50, and the second task is cancelled. *)
Definition own_bucket (t : nat) : Z := Z.of_nat t.
Definition timer_steps (n : nat) : list choice := replicate n (Timer 0).
Definition schedules (t : nat) (rt slot : Z) : list choice :=
  [Schedule t rt; Gets t (Some slot); Caller t; Caller t; Caller t].

Definition two_tasks : list choice :=
  timer_steps 6 ++ schedules 0 100 7 ++ timer_steps 3 ++ schedules 1 50 8 ++ timer_steps 9 ++ [Timer 1; Timer 0; Timer 0].
Definition cancelled : list choice := two_tasks ++ [Unschedule (make_task_id 8 2); Tick 100].

Definition state_after (l : list choice) : state :=
  match run_all 2 own_bucket l (initial 0) with Go (_, s) => s | _ => initial 0 end.
Definition labels_of (l : list choice) : list label :=
  match run_all 2 own_bucket l (initial 0) with
  | Go (ls, _) => List.filter (fun x => match x with Tau => false | _ => true end) ls
  | _ => []
  end.
Definition all_labels (l : list choice) : list label :=
  match run_all 2 own_bucket l (initial 0) with Go (ls, _) => ls | _ => [] end.

Lemma cancelled_valid : Forall valid_choice cancelled.
Proof. repeat (apply Forall_cons; split; [first [exact I|vm_compute; reflexivity]|]). constructor. Qed.

Lemma two_tasks_valid : Forall valid_choice two_tasks.
Proof. pose proof cancelled_valid as H. by apply Forall_app in H as [? _]. Qed.

(** At time 100 one task runs, the other does not. *)
Lemma cancelled_runs :
  labels_of (cancelled ++ timer_steps 6 ++ [Timer 1] ++ timer_steps 10) =
  [Accept (make_task_id 7 2) 100; Accept (make_task_id 8 2) 50; Unscheduled (make_task_id 8 2) 0; Run (make_task_id 7 2) 100;
   Ran (make_task_id 7 2)].
Proof. vm_compute. reflexivity. Qed.

Lemma timer_refines_spec_witness :
  labels_of cancelled =
    [Accept (make_task_id 7 2) 100; Accept (make_task_id 8 2) 50; Unscheduled (make_task_id 8 2) 0] /\
  match run_all 2 own_bucket cancelled (initial 0) with
  | Bad => False
  | NoStep => True
  | Go (ls, _) => exists a, aruns ∅ ls a
  end.
Proof.
  split; [vm_compute; reflexivity|].
  apply (timer_refines_spec 2 own_bucket 0 cancelled); [lia|exact cancelled_valid|vm_compute; reflexivity].
Defined.

Lemma timer_never_oversleeps_witness :
  timer (state_after two_tasks) = TAsleep 50 /\
  exists a, aruns ∅ (all_labels two_tasks) a /\ forall id rt, a !! id = Some (Pending rt) -> 50 <= rt.
Proof.
  split; [vm_compute; reflexivity|].
  refine (timer_never_oversleeps 2 own_bucket 0 two_tasks (all_labels two_tasks) (state_after two_tasks) 50 _ two_tasks_valid _ _ _ _ _).
  - lia.
  - vm_compute. reflexivity.
  - vm_compute. reflexivity.
  - vm_compute. reflexivity.
  - vm_compute. reflexivity.
  - intros [|[|t]]; vm_compute; reflexivity.
Defined.

Lemma due_tasks_run_witness :
  timer (state_after cancelled) = TAsleep 50 /\
  exists l' ls' s' a a', Forall is_timer l' /\ run_all 2 own_bucket l' (state_after cancelled) = Go (ls', s') /\
    (forall p, used s' p = false) /\ aruns ∅ (all_labels cancelled) a /\ aruns a ls' a' /\
    forall id st, a' !! id = Some st -> st = Done \/ st = Cancelled.
Proof.
  split; [vm_compute; reflexivity|].
  refine (due_tasks_run 2 own_bucket 0 cancelled (all_labels cancelled) (state_after cancelled) _ cancelled_valid _ _ _ _ _).
  - lia.
  - vm_compute. reflexivity.
  - vm_compute. reflexivity.
  - vm_compute. reflexivity.
  - intros [|[|t]]; vm_compute; reflexivity.
  - intros p Hp. assert (used (state_after cancelled) = <[8 := true]> (<[7 := true]> (fun _ => false))) as E by (vm_compute; reflexivity).
    rewrite E in Hp. destruct (decide (p = 8)) as [->|H8]; [vm_compute; discriminate|].
    destruct (decide (p = 7)) as [->|H7]; [vm_compute; discriminate|].
    rewrite !fn_lookup_insert_ne in Hp by done. discriminate.
Defined.

(** ** stop_and_join

    The timer thread clears _nearest_run_time after it has looked at _stop, and
    loads _nsignals after that: if all of stop_and_join() but the join comes in
    between, nothing is left of it, the timer thread sleeps, and the join waits for
    ever. *)
Example stop_is_lost :
  let s := state_after ([Timer 0; Stop 0 false; Caller 0; Caller 0] ++ timer_steps 7) in
  _stop s = true /\ timer s = TAsleep INT64_MAX /\ callers s 0%nat = SJoin /\
  step 2 own_bucket (Timer 0) s = NoStep /\ step 2 own_bucket (Caller 0) s = NoStep /\
  (forall d, 0 <= d -> step 2 own_bucket (Timer 0) (set_clock (clock s + d) s) = NoStep).
Proof. cbv zeta. split_and!; vm_compute; reflexivity. Qed.

End TimerThreadSafe.
