(* ===== verification/Bits.v ===== *)
(** * Bits: bit arrays and the single-threaded pool

    utility/bit_array.h (Module BitArray): arrays of 64-bit words, on which
    SparseFlatMap keeps which of its buckets are valid; and
    utility/single_threaded_pool.h (Module SingleThreadedPool): the free list
    from which FlatMap takes the nodes of its chains. *)

From S2P Require Import Prelude.

Module BitArray.

(** An array is a list of words; access outside of it is undefined. *)
Abbreviation words := (list Z).

(** bit_array_malloc: the number of words, or NULL for no bits. *)
Definition bit_array_malloc (nbit : Z) : option Z :=
  if nbit =? 0 then None else Some (u64 (nbit + 63) / 64).

Definition not64 (z : Z) : Z := 2 ^ 64 - 1 - z.
Definition low_ones (n : Z) : Z := u64 (Z.shiftl 1 n) - 1.

Definition upd (f : Z -> Z) (off : Z) (a : words) : option words :=
  v ← a !! Z.to_nat off; Some (<[Z.to_nat off := f v]> a).

(** memset(array, 0, off * 8) *)
Definition zero_words (off : Z) (a : words) : option words :=
  if off <=? zlen a then Some (replicate (Z.to_nat off) 0 ++ drop (Z.to_nat off) a) else None.

Definition bit_array_clear (a : words) (nbit : Z) : option words :=
  let off := Z.shiftr nbit 6 in
  a ← zero_words off a;
  let last := Z.shiftl off 6 in
  if negb (last =? nbit) then upd (fun v => Z.land v (not64 (low_ones (nbit - last)))) off a
  else Some a.

Definition bit_array_set (a : words) (i : Z) : option words :=
  let off := Z.shiftr i 6 in
  upd (fun v => Z.lor v (Z.shiftl 1 (i - Z.shiftl off 6))) off a.

Definition bit_array_unset (a : words) (i : Z) : option words :=
  let off := Z.shiftr i 6 in
  upd (fun v => Z.land v (not64 (Z.shiftl 1 (i - Z.shiftl off 6)))) off a.

Definition bit_array_get (a : words) (i : Z) : option Z :=
  let off := Z.shiftr i 6 in
  v ← a !! Z.to_nat off; Some (Z.land v (Z.shiftl 1 (i - Z.shiftl off 6))).

(** __builtin_ctzl, for a word that is not 0. *)
Fixpoint ctz_pos (p : positive) : Z :=
  match p with xO p => 1 + ctz_pos p | _ => 0 end.
Definition ctz (v : Z) : Z := match v with Zpos p => ctz_pos p | _ => 0 end.

(** The loop over the whole words from [i] on, [n] of them. *)
Fixpoint first1_words (a : words) (n : nat) (i : Z) : option (option Z) :=
  match n with
  | O => Some None
  | S n =>
      v ← a !! Z.to_nat i;
      if v =? 0 then first1_words a n (i + 1) else Some (Some (i * 64 + ctz v))
  end.

Definition bit_array_first1 (a : words) (begin end_ : Z) : option Z :=
  let off1 := Z.shiftr begin 6 in
  let first := Z.shiftl off1 6 in
  v ← (if negb (first =? begin) then
         v ← a !! Z.to_nat off1;
         Some (Z.land v (not64 (low_ones (begin - first))))
       else Some 0);
  if negb (v =? 0) then Some (Z.min (first + ctz v) end_)
  else
    let off1 := if negb (first =? begin) then off1 + 1 else off1 in
    let off2 := Z.shiftr end_ 6 in
    r ← first1_words a (Z.to_nat (off2 - off1)) off1;
    match r with
    | Some r => Some r
    | None =>
        let last := Z.shiftl off2 6 in
        if negb (last =? end_) then
          v ← a !! Z.to_nat off2;
          if negb (v =? 0) then Some (Z.min (last + ctz v) end_) else Some end_
        else Some end_
    end.

(** ** Specification: the i-th bit *)

Definition bit (a : words) (i : Z) : bool :=
  match a !! Z.to_nat (i / 64) with Some v => Z.testbit v (i mod 64) | None => false end.

Definition is_words (a : words) : Prop := Forall (fun v => 0 <= v < 2 ^ 64) a.

Lemma word_index i : 0 <= i ->
  Z.shiftr i 6 = i / 64 /\ i - Z.shiftl (Z.shiftr i 6) 6 = i mod 64 /\
  Z.shiftl (Z.shiftr i 6) 6 = 64 * (i / 64).
Proof.
  intros Hi. rewrite Z.shiftl_mul_pow2, Z.shiftr_div_pow2 by lia. change (2 ^ 6) with 64.
  pose proof (Z.div_mod i 64). lia.
Qed.

Lemma word_lookup (a : words) i :
  0 <= i < 64 * zlen a -> exists v, a !! Z.to_nat (i / 64) = Some v.
Proof.
  intros Hi. apply lookup_lt_is_Some_2. unfold zlen in Hi.
  assert (i / 64 < Z.of_nat (length a)) by (apply Z.div_lt_upper_bound; lia).
  pose proof (Z.div_pos i 64). lia.
Qed.

Lemma testbit_not64 z i : 0 <= z < 2 ^ 64 -> 0 <= i < 64 ->
  Z.testbit (not64 z) i = negb (Z.testbit z i).
Proof.
  intros Hz Hi. unfold not64. replace (2 ^ 64 - 1 - z) with (Z.lnot z + 1 * 2 ^ 64)
    by (unfold Z.lnot; lia).
  rewrite <-(Z.mod_pow2_bits_low _ 64), Z_mod_plus_full, Z.mod_pow2_bits_low by lia.
  apply Z.lnot_spec. lia.
Qed.

Lemma testbit_low_ones n i : 0 <= n < 64 -> 0 <= i ->
  0 <= low_ones n < 2 ^ 64 /\ Z.testbit (low_ones n) i = (i <? n).
Proof.
  intros Hn Hi. unfold low_ones. rewrite Z.shiftl_1_l.
  pose proof (Z.pow_pos_nonneg 2 n ltac:(lia) ltac:(lia)).
  assert (2 ^ n < 2 ^ 64) by (apply Z.pow_lt_mono_r; lia).
  rewrite wrapu_small by lia. split; [lia|].
  replace (2 ^ n - 1) with (Z.ones n) by (rewrite Z.ones_equiv; lia).
  destruct (Z.ltb_spec i n); [by apply Z.ones_spec_low|apply Z.ones_spec_high; lia].
Qed.

Lemma testbit_one n i : 0 <= n < 64 -> 0 <= i ->
  0 <= Z.shiftl 1 n < 2 ^ 64 /\ Z.testbit (Z.shiftl 1 n) i = (i =? n).
Proof.
  intros Hn Hi. rewrite Z.shiftl_1_l. split.
  - split; [apply Z.pow_nonneg; lia|apply Z.pow_lt_mono_r; lia].
  - rewrite Z.pow2_bits_eqb by lia. apply Z.eqb_sym.
Qed.

Lemma upd_bit x off v (a : words) i :
  a !! Z.to_nat off = Some v -> 0 <= off -> 0 <= i ->
  bit (<[Z.to_nat off := x]> a) i =
    if i / 64 =? off then Z.testbit x (i mod 64) else bit a i.
Proof.
  intros Hv Ho Hi. unfold bit. pose proof (Z.div_pos i 64 Hi ltac:(lia)).
  destruct (Z.eqb_spec (i / 64) off) as [->|Hne].
  - rewrite list_lookup_insert_eq by (by eapply lookup_lt_Some). done.
  - rewrite list_lookup_insert_ne by lia. done.
Qed.

Lemma land_word v m : 0 <= v < 2 ^ 64 -> 0 <= m -> 0 <= Z.land v m < 2 ^ 64.
Proof.
  intros Hv Hm. split; [apply Z.land_nonneg; lia|].
  assert (v = Z.land v (2 ^ 64 - 1)) as E by (rewrite land_mask, Z.mod_small by lia; done).
  rewrite E, <-Z.land_assoc, (Z.land_comm _ m), Z.land_assoc, land_mask by lia.
  apply Z.mod_pos_bound. lia.
Qed.

Lemma lor_word v m : 0 <= v < 2 ^ 64 -> 0 <= m < 2 ^ 64 -> 0 <= Z.lor v m < 2 ^ 64.
Proof.
  intros Hv Hm. split; [apply Z.lor_nonneg; lia|].
  assert (forall z, 0 <= z < 2 ^ 64 -> Z.log2 z < 64) as Hlog.
  { intros z Hz. destruct (decide (z = 0)) as [->|]; [done|]. apply Z.log2_lt_pow2; lia. }
  destruct (decide (Z.lor v m = 0)) as [->|Hne]; [lia|].
  apply Z.log2_lt_pow2; [pose proof (Z.lor_nonneg v m); lia|].
  rewrite Z.log2_lor by lia. apply Z.max_lub_lt; by apply Hlog.
Qed.

Lemma set_spec a i :
  is_words a -> 0 <= i < 64 * zlen a ->
  exists a', bit_array_set a i = Some a' /\ is_words a' /\ zlen a' = zlen a /\
    forall j, 0 <= j -> bit a' j = (j =? i) || bit a j.
Proof.
  intros Ha Hi. destruct (word_index i ltac:(lia)) as (E1 & E2 & _).
  destruct (word_lookup a i Hi) as [v Hv]. unfold bit_array_set. rewrite E2, E1. unfold upd.
  rewrite Hv. cbn. eexists; split; [done|].
  pose proof (Z.mod_pos_bound i 64 ltac:(lia)) as Hm.
  destruct (testbit_one (i mod 64) 0 Hm ltac:(lia)) as [Hone _].
  pose proof (proj1 (Forall_lookup _ _) Ha _ _ Hv) as Hvr. cbn in Hvr.
  split; [apply Forall_insert; [done|by apply lor_word]|].
  split; [unfold zlen; by rewrite length_insert|]. intros j Hj.
  rewrite (upd_bit _ _ v) by (done || apply Z.div_pos; lia).
  pose proof (Z.div_mod i 64 ltac:(lia)). pose proof (Z.div_mod j 64 ltac:(lia)).
  pose proof (Z.mod_pos_bound j 64 ltac:(lia)).
  destruct (Z.eqb_spec (j / 64) (i / 64)) as [E|E].
  - rewrite Z.lor_spec, (proj2 (testbit_one (i mod 64) (j mod 64) Hm ltac:(lia))). unfold bit. rewrite E, Hv.
    rewrite orb_comm. f_equal. destruct (Z.eqb_spec j i), (Z.eqb_spec (j mod 64) (i mod 64)); done || lia.
  - destruct (Z.eqb_spec j i) as [->|]; [done|]. done.
Qed.

Lemma unset_spec a i :
  is_words a -> 0 <= i < 64 * zlen a ->
  exists a', bit_array_unset a i = Some a' /\ is_words a' /\ zlen a' = zlen a /\
    forall j, 0 <= j -> bit a' j = negb (j =? i) && bit a j.
Proof.
  intros Ha Hi. destruct (word_index i ltac:(lia)) as (E1 & E2 & _).
  destruct (word_lookup a i Hi) as [v Hv]. unfold bit_array_unset. rewrite E2, E1. unfold upd.
  rewrite Hv. cbn. eexists; split; [done|].
  pose proof (Z.mod_pos_bound i 64 ltac:(lia)) as Hm.
  destruct (testbit_one (i mod 64) 0 Hm ltac:(lia)) as [Hone _].
  pose proof (proj1 (Forall_lookup _ _) Ha _ _ Hv) as Hvr. cbn in Hvr.
  split; [apply Forall_insert; [done|apply land_word; [done|unfold not64; lia]]|].
  split; [unfold zlen; by rewrite length_insert|]. intros j Hj.
  rewrite (upd_bit _ _ v) by (done || apply Z.div_pos; lia).
  pose proof (Z.div_mod i 64 ltac:(lia)). pose proof (Z.div_mod j 64 ltac:(lia)).
  pose proof (Z.mod_pos_bound j 64 ltac:(lia)).
  destruct (Z.eqb_spec (j / 64) (i / 64)) as [E|E].
  - rewrite Z.land_spec, testbit_not64, (proj2 (testbit_one (i mod 64) (j mod 64) Hm ltac:(lia))) by lia.
    unfold bit. rewrite E, Hv. rewrite andb_comm. f_equal. f_equal.
    destruct (Z.eqb_spec j i), (Z.eqb_spec (j mod 64) (i mod 64)); done || lia.
  - destruct (Z.eqb_spec j i) as [->|]; [done|]. done.
Qed.

Lemma bit_get_spec a i :
  is_words a -> 0 <= i < 64 * zlen a ->
  exists v, bit_array_get a i = Some v /\ (v <> 0 <-> bit a i = true).
Proof.
  intros Ha Hi. destruct (word_index i ltac:(lia)) as (E1 & E2 & _).
  destruct (word_lookup a i Hi) as [v Hv]. unfold bit_array_get. rewrite E2, E1, Hv. cbn.
  eexists; split; [done|]. unfold bit. rewrite Hv.
  pose proof (Z.mod_pos_bound i 64 ltac:(lia)) as Hm. rewrite Z.shiftl_1_l. split.
  - intros Hne. destruct (Z.testbit v (i mod 64)) eqn:E; [done|]. exfalso. apply Hne.
    apply Z.bits_inj'. intros n Hn. rewrite Z.land_spec, Z.pow2_bits_eqb, Z.bits_0 by lia.
    destruct (Z.eqb_spec (i mod 64) n) as [<-|]; [by rewrite E|apply andb_false_r].
  - intros E E0. assert (Z.testbit (Z.land v (2 ^ (i mod 64))) (i mod 64) = true) as Ht.
    { by rewrite Z.land_spec, E, Z.pow2_bits_true by lia. }
    by rewrite E0, Z.bits_0 in Ht.
Qed.

Lemma bit_clear_spec a nbit :
  is_words a -> 0 <= nbit <= 64 * zlen a ->
  exists a', bit_array_clear a nbit = Some a' /\ is_words a' /\ zlen a' = zlen a /\
    forall j, 0 <= j -> bit a' j = (nbit <=? j) && bit a j.
Proof.
  intros Ha Hn. destruct (word_index nbit ltac:(lia)) as (E1 & E2 & E3).
  unfold bit_array_clear. rewrite E2, E3, E1.
  pose proof (Z.div_mod nbit 64 ltac:(lia)) as Hdm. pose proof (Z.mod_pos_bound nbit 64 ltac:(lia)) as Hm.
  pose proof (Z.div_pos nbit 64 ltac:(lia) ltac:(lia)) as Hd0.
  assert (nbit / 64 <= zlen a) as Hd by lia.
  unfold zero_words. rewrite (proj2 (Z.leb_le _ _)) by lia. cbn [mbind option_bind].
  set (a1 := replicate (Z.to_nat (nbit / 64)) 0 ++ drop (Z.to_nat (nbit / 64)) a).
  assert (is_words a1) as Ha1.
  { apply Forall_app. split; [apply Forall_replicate; lia|by apply Forall_drop]. }
  assert (zlen a1 = zlen a) as Hz1.
  { unfold a1. rewrite zlen_app. unfold zlen in *. rewrite length_replicate, length_drop. lia. }
  assert (forall j, 0 <= j -> bit a1 j = (nbit / 64 <=? j / 64) && bit a j) as Hb1.
  { intros j Hj. unfold bit, a1. pose proof (Z.div_pos j 64 Hj ltac:(lia)).
    destruct (Z.leb_spec (nbit / 64) (j / 64)).
    - rewrite lookup_app_r by (rewrite length_replicate; lia).
      rewrite length_replicate, lookup_drop. do 2 f_equal. 
      replace (Z.to_nat (nbit / 64) + (Z.to_nat (j / 64) - Z.to_nat (nbit / 64)))%nat
        with (Z.to_nat (j / 64)) by lia. done.
    - rewrite lookup_app_l by (rewrite length_replicate; lia).
      rewrite lookup_replicate_2 by lia. apply Z.bits_0. }
  assert (forall j, 0 <= j -> j = 64 * (j / 64) + j mod 64 /\ 0 <= j mod 64 < 64) as Hj64.
  { intros j Hj. pose proof (Z.div_mod j 64). pose proof (Z.mod_pos_bound j 64). lia. }
  destruct (Z.eqb_spec (64 * (nbit / 64)) nbit) as [E|E]; cbn [negb].
  - exists a1. split; [done|]. split; [done|]. split; [done|]. intros j Hj. rewrite Hb1 by done.
    f_equal. destruct (Hj64 j Hj). destruct (Z.leb_spec (nbit / 64) (j / 64)), (Z.leb_spec nbit j); lia.
  - destruct (word_lookup a1 nbit) as [v Hv]; [lia|]. unfold upd. rewrite Hv. cbn.
    eexists; split; [done|].
    destruct (testbit_low_ones (nbit mod 64) 0 Hm ltac:(lia)) as [Hlo _].
    pose proof (proj1 (Forall_lookup _ _) Ha1 _ _ Hv) as Hvr. cbn in Hvr.
    split; [apply Forall_insert; [done|apply land_word; [done|unfold not64; lia]]|].
    split; [unfold zlen in *; by rewrite length_insert|]. intros j Hj.
    rewrite (upd_bit _ _ v) by (done || lia). destruct (Hj64 j Hj) as [Hje Hjm].
    destruct (Z.eqb_spec (j / 64) (nbit / 64)) as [Ej|Ej].
    + rewrite Z.land_spec, testbit_not64, (proj2 (testbit_low_ones (nbit mod 64) (j mod 64) Hm ltac:(lia))) by lia.
      specialize (Hb1 j Hj). unfold bit in Hb1 at 1. rewrite Ej, Hv in Hb1.
      rewrite Hb1, Z.leb_refl. cbn. rewrite andb_comm. f_equal.
      destruct (Z.ltb_spec (j mod 64) (nbit mod 64)), (Z.leb_spec nbit j); done || lia.
    + rewrite Hb1 by done. f_equal.
      destruct (Z.leb_spec (nbit / 64) (j / 64)), (Z.leb_spec nbit j); lia.
Qed.

(** Count of trailing zeros. *)
Lemma ctz_spec v :
  0 < v -> 0 <= ctz v /\ Z.testbit v (ctz v) = true /\ forall i, 0 <= i < ctz v -> Z.testbit v i = false.
Proof.
  intros Hv. destruct v as [|p|]; try lia. clear Hv. cbn [ctz].
  induction p as [p IH|p IH|].
  - cbn. split; [lia|]. split; [done|]. lia.
  - destruct IH as (H1 & H2 & H3). cbn [ctz_pos].
    change (Zpos p~0) with (2 * Zpos p). split; [lia|]. split.
    + replace (1 + ctz_pos p) with (Z.succ (ctz_pos p)) by lia. by rewrite Z.double_bits_succ by lia.
    + intros i Hi. destruct (decide (i = 0)) as [->|]; [by rewrite Z.testbit_even_0|].
      replace i with (Z.succ (i - 1)) by lia. rewrite Z.double_bits_succ by lia. apply H3. lia.
  - cbn. split; [lia|]. split; [done|]. lia.
Qed.

Lemma ctz_lt v : 0 < v < 2 ^ 64 -> ctz v < 64.
Proof.
  intros Hv. destruct (ctz_spec v) as (H1 & H2 & _); [lia|].
  destruct (Z.ltb_spec (ctz v) 64) as [|Hge]; [done|].
  rewrite Z.bits_above_log2 in H2; [done|lia|].
  assert (Z.log2 v < 64) by (apply Z.log2_lt_pow2; lia). lia.
Qed.

(** [r] is the first set bit from [begin] on, or [end_]. *)
Definition first_set (a : words) (begin end_ r : Z) : Prop :=
  begin <= r <= end_ /\ (forall j, begin <= j < r -> bit a j = false) /\
  (r < end_ -> bit a r = true).

Lemma bit_word (a : words) w v k :
  a !! Z.to_nat w = Some v -> 0 <= w -> 0 <= k < 64 -> bit a (64 * w + k) = Z.testbit v k.
Proof.
  intros Hv Hw Hk. unfold bit.
  replace ((64 * w + k) / 64) with w
    by (rewrite Z.mul_comm, Z.div_add_l by lia; rewrite Z.div_small; lia).
  replace ((64 * w + k) mod 64) with k
    by (rewrite Z.mul_comm, Z.add_comm, Z_mod_plus_full, Z.mod_small; lia).
  by rewrite Hv.
Qed.

(** The bits of a word from bit [s] on. *)
Lemma word_first (a : words) w v s end_ :
  a !! Z.to_nat w = Some v -> 0 <= w -> 0 <= s < 64 -> 0 <= v < 2 ^ 64 ->
  forall v', 0 <= v' < 2 ^ 64 -> (forall k, 0 <= k < 64 -> Z.testbit v' k = (s <=? k) && Z.testbit v k) ->
  64 * w + s <= end_ ->
  if v' =? 0 then forall j, 64 * w + s <= j < 64 * (w + 1) -> bit a j = false
  else first_set a (64 * w + s) end_ (Z.min (64 * w + ctz v') end_).
Proof.
  intros Ha Hw Hs Hv v' Hv' Hbits He. destruct (Z.eqb_spec v' 0) as [->|Hne].
  - intros j Hj. replace j with (64 * w + (j - 64 * w)) by lia.
    rewrite (bit_word a w v) by (done || lia). specialize (Hbits (j - 64 * w) ltac:(lia)).
    rewrite Z.bits_0 in Hbits. destruct (Z.leb_spec s (j - 64 * w)); [done|lia].
  - destruct (ctz_spec v') as (H1 & H2 & H3); [lia|]. pose proof (ctz_lt v' ltac:(lia)) as H4.
    rewrite Hbits in H2 by lia. apply andb_true_iff in H2 as [H2%Z.leb_le H5].
    split; [lia|]. split.
    + intros j Hj. replace j with (64 * w + (j - 64 * w)) by lia.
      rewrite (bit_word a w v) by (done || lia).
      specialize (Hbits (j - 64 * w) ltac:(lia)). rewrite H3 in Hbits by lia.
      destruct (Z.leb_spec s (j - 64 * w)); [done|lia].
    + intros Hlt. rewrite Z.min_l by lia. by rewrite (bit_word a w v) by (done || lia).
Qed.

Lemma first1_words_spec (a : words) n i :
  is_words a -> 0 <= i -> i + Z.of_nat n <= zlen a ->
  exists r, first1_words a n i = Some r /\
    match r with
    | None => forall j, 64 * i <= j < 64 * (i + Z.of_nat n) -> bit a j = false
    | Some r => r < 64 * (i + Z.of_nat n) /\ forall e, 64 * (i + Z.of_nat n) <= e -> first_set a (64 * i) e r
    end.
Proof.
  intros Ha. revert i. induction n as [|n IH]; intros i Hi Hn; cbn [first1_words].
  { eexists; split; [done|]. cbn. lia. }
  destruct (lookup_lt_is_Some_2 a (Z.to_nat i)) as [v Hv]; [unfold zlen in Hn; lia|].
  rewrite Hv. cbn. pose proof (proj1 (Forall_lookup _ _) Ha _ _ Hv) as Hvr. cbn in Hvr.
  assert (forall e, 64 * i + 0 <= e -> if v =? 0 then forall j, 64 * i + 0 <= j < 64 * (i + 1) -> bit a j = false
    else first_set a (64 * i + 0) e (Z.min (64 * i + ctz v) e)) as Hw.
  { intros e He. apply (word_first a i v 0 e Hv Hi ltac:(lia) Hvr v Hvr); [|lia].
    intros k Hk. rewrite (proj2 (Z.leb_le 0 k)) by lia. done. }
  destruct (Z.eqb_spec v 0) as [->|Hne].
  - destruct (IH (i + 1)) as (r & -> & Hr); [lia|lia|]. eexists; split; [done|].
    specialize (Hw (64 * i) ltac:(lia)). destruct r as [r|].
    + replace (i + 1 + Z.of_nat n) with (i + Z.of_nat (S n)) in Hr by lia.
      destruct Hr as [Hlt Hr]. split; [done|]. intros e He. destruct (Hr e He) as (H1 & H2 & H3).
      split; [lia|]. split; [|done]. intros j Hj.
      destruct (decide (j < 64 * (i + 1))); [apply Hw|apply H2]; lia.
    + intros j Hj. destruct (decide (j < 64 * (i + 1))); [apply Hw|apply Hr]; lia.
  - eexists; split; [done|]. cbn beta iota. pose proof (ctz_lt v ltac:(lia)).
    destruct (ctz_spec v ltac:(lia)) as (Hc & _ & _). split; [lia|]. intros e He.
    specialize (Hw e ltac:(lia)). rewrite Z.add_0_r, Z.min_l in Hw by lia.
    by replace (i * 64 + ctz v) with (64 * i + ctz v) by lia.
Qed.

(** C_BA1. bit_array_set, _unset, _get and _clear change and read exactly the
    bits they name. *)
Theorem bit_array_ops a i j nbit :
  is_words a -> 0 <= i < 64 * zlen a -> 0 <= j -> 0 <= nbit <= 64 * zlen a ->
  (exists a', bit_array_set a i = Some a' /\ is_words a' /\ bit a' j = (j =? i) || bit a j) /\
  (exists a', bit_array_unset a i = Some a' /\ is_words a' /\ bit a' j = negb (j =? i) && bit a j) /\
  (exists a', bit_array_clear a nbit = Some a' /\ is_words a' /\ bit a' j = (nbit <=? j) && bit a j) /\
  (exists v, bit_array_get a i = Some v /\ (v <> 0 <-> bit a i = true)).
Proof.
  intros Ha Hi Hj Hn. split_and!.
  - destruct (set_spec a i Ha Hi) as (a' & E & Ha' & _ & Hb). exists a'. auto.
  - destruct (unset_spec a i Ha Hi) as (a' & E & Ha' & _ & Hb). exists a'. auto.
  - destruct (bit_clear_spec a nbit Ha Hn) as (a' & E & Ha' & _ & Hb). exists a'. auto.
  - by apply bit_get_spec.
Qed.

Theorem bit_array_ops_witness :
  exists a', bit_array_set [0; 5] 65 = Some a' /\ is_words a' /\ bit a' 66 = (66 =? 65) || bit [0; 5] 66.
Proof.
  apply (bit_array_ops [0; 5] 65 66 70).
  - repeat constructor; lia.
  - by vm_compute.
  - lia.
  - by vm_compute.
Defined.

Lemma first1_spec a begin end_ :
  is_words a -> 0 <= begin <= end_ -> end_ <= 64 * zlen a ->
  (begin mod 64 = 0 \/ begin / 64 < end_ / 64) ->
  exists r, bit_array_first1 a begin end_ = Some r /\ first_set a begin end_ r.
Proof.
  intros Ha Hb He Hcase.
  destruct (word_index begin ltac:(lia)) as (B1 & B2 & B3).
  destruct (word_index end_ ltac:(lia)) as (E1 & E2 & E3).
  unfold bit_array_first1. rewrite B2, B3, B1, E3, E1.
  pose proof (Z.div_mod begin 64 ltac:(lia)) as Db. pose proof (Z.mod_pos_bound begin 64 ltac:(lia)) as Mb.
  pose proof (Z.div_mod end_ 64 ltac:(lia)) as De. pose proof (Z.mod_pos_bound end_ 64 ltac:(lia)) as Me.
  pose proof (Z.div_pos begin 64 ltac:(lia) ltac:(lia)).
  (* from the first whole word on *)
  assert (forall o, 0 <= o <= end_ / 64 ->
    exists r, (r ← first1_words a (Z.to_nat (end_ / 64 - o)) o;
      match r with
      | Some r => Some r
      | None => if negb (64 * (end_ / 64) =? end_) then
          v ← a !! Z.to_nat (end_ / 64);
          if negb (v =? 0) then Some (Z.min (64 * (end_ / 64) + ctz v) end_) else Some end_
        else Some end_
      end) = Some r /\ first_set a (64 * o) end_ r) as Hrest.
  { intros o Ho. destruct (first1_words_spec a (Z.to_nat (end_ / 64 - o)) o Ha) as (r & -> & Hr);
      [lia|lia|]. replace (o + Z.of_nat (Z.to_nat (end_ / 64 - o))) with (end_ / 64) in Hr by lia.
    cbn [mbind option_bind]. destruct r as [r|].
    { exists r. split; [done|]. apply Hr. lia. }
    destruct (Z.eqb_spec (64 * (end_ / 64)) end_) as [Ee|Ee]; cbn [negb].
    { exists end_. split; [done|]. split; [lia|]. split; [|lia]. intros j Hj. apply Hr. lia. }
    destruct (word_lookup a end_) as [v Hv]; [lia|]. rewrite Hv. cbn [mbind option_bind].
    pose proof (proj1 (Forall_lookup _ _) Ha _ _ Hv) as Hvr. cbn in Hvr.
    pose proof (word_first a (end_ / 64) v 0 end_ Hv ltac:(lia) ltac:(lia) Hvr v Hvr) as Hw.
    rewrite Z.add_0_r in Hw. specialize (Hw ltac:(intros k Hk; rewrite (proj2 (Z.leb_le 0 k)) by lia; done) ltac:(lia)).
    destruct (Z.eqb_spec v 0) as [->|Hne]; cbn [negb].
    - exists end_. split; [done|]. split; [lia|]. split; [|lia]. intros j Hj.
      destruct (decide (j < 64 * (end_ / 64))); [apply Hr|apply Hw]; lia.
    - eexists; split; [done|]. destruct Hw as (W1 & W2 & W3). split; [lia|]. split; [|done].
      intros j Hj. destruct (decide (j < 64 * (end_ / 64))); [apply Hr|apply W2]; lia. }
  destruct (Z.eqb_spec (64 * (begin / 64)) begin) as [Eb|Eb]; cbn [negb].
  - cbn [mbind option_bind]. change (0 =? 0) with true. cbn [negb].
    destruct (Hrest (begin / 64)) as (r & Er & Hr).
    { split; [lia|]. apply Z.div_le_mono; lia. }
    exists r. split; [exact Er|]. by rewrite Eb in Hr.
  - destruct (word_lookup a begin) as [v Hv]; [lia|]. rewrite Hv. cbn [mbind option_bind].
    pose proof (proj1 (Forall_lookup _ _) Ha _ _ Hv) as Hvr. cbn in Hvr.
    destruct (testbit_low_ones (begin mod 64) 0 Mb ltac:(lia)) as [Hlo _].
    set (v' := Z.land v (not64 (low_ones (begin mod 64)))).
    assert (0 <= v' < 2 ^ 64) as Hv'r by (apply land_word; [done|unfold not64; lia]).
    pose proof (word_first a (begin / 64) v (begin mod 64) end_ Hv ltac:(lia) Mb Hvr v' Hv'r) as Hw.
    rewrite <-Db in Hw.
    destruct Hcase as [Hc|Hc]; [lia|].
    assert (forall k, 0 <= k < 64 -> Z.testbit v' k = (begin mod 64 <=? k) && Z.testbit v k) as Hbits.
    { intros k Hk. unfold v'. rewrite Z.land_spec, testbit_not64 by lia.
      rewrite (proj2 (testbit_low_ones (begin mod 64) k Mb ltac:(lia))), andb_comm. f_equal.
      destruct (Z.ltb_spec k (begin mod 64)), (Z.leb_spec (begin mod 64) k); done || lia. }
    specialize (Hw Hbits ltac:(lia)).
    destruct (Z.eqb_spec v' 0) as [E0|Hne]; cbn [negb].
    + destruct (Hrest (begin / 64 + 1)) as (r & Er & R1 & R2 & R3); [lia|].
      exists r. split; [exact Er|]. split; [lia|]. split; [|done]. intros j Hj.
      destruct (decide (j < 64 * (begin / 64 + 1))); [apply Hw|apply R2]; lia.
    + eexists; split; [done|]. exact Hw.
Qed.

(** Within the first word, above whose bit [end_] none is set, it finds some
    set bit, be it before [begin]. *)
Lemma first1_one_word a begin end_ j :
  is_words a -> 0 < zlen a -> 0 < begin <= end_ -> end_ < 64 ->
  0 <= j < end_ -> bit a j = true -> (forall i, end_ <= i < 64 -> bit a i = false) ->
  exists r, bit_array_first1 a begin end_ = Some r /\ 0 <= r < end_ /\ bit a r = true.
Proof.
  intros Ha Hz Hb He Hj Hbit Hpad. destruct (word_lookup a 0 ltac:(lia)) as [v Hv]. change (a !! O = Some v) in Hv.
  pose proof (proj1 (Forall_lookup _ _) Ha _ _ Hv) as Hvr. cbn in Hvr.
  assert (forall i, 0 <= i < 64 -> bit a i = Z.testbit v i) as Hbits.
  { intros i Hi. replace i with (64 * 0 + i) at 1 by lia. by apply (bit_word a 0 v). }
  assert (forall x, 0 < x < 2 ^ 64 -> (forall i, 0 <= i < 64 -> Z.testbit x i = true -> bit a i = true) ->
    exists r, Some (Z.min (0 + ctz x) end_) = Some r /\ 0 <= r < end_ /\ bit a r = true) as Hfound.
  { intros x Hx Hin. destruct (ctz_spec x) as (C1 & C2 & _); [lia|]. pose proof (ctz_lt x Hx).
    specialize (Hin (ctz x) ltac:(lia) C2). destruct (Z.le_gt_cases end_ (ctz x)) as [Hle|Hlt].
    { rewrite Hpad in Hin by lia. done. }
    exists (ctz x). rewrite Z.min_l by lia. done. }
  destruct (word_index begin ltac:(lia)) as (B1 & B2 & B3). destruct (word_index end_ ltac:(lia)) as (E1 & E2 & E3).
  unfold bit_array_first1. rewrite B2, B3, B1, E3, E1.
  rewrite (Z.div_small begin), (Z.div_small end_), (Z.mod_small begin) by lia. change (64 * 0) with 0.
  rewrite (proj2 (Z.eqb_neq 0 begin)), (proj2 (Z.eqb_neq 0 end_)) by lia. cbn [negb].
  change (Z.to_nat 0) with O. change (Z.to_nat (0 - (0 + 1))) with O. rewrite Hv. cbn [mbind option_bind first1_words].
  destruct (testbit_low_ones begin 0 ltac:(lia) ltac:(lia)) as [Hlo _].
  assert (0 <= Z.land v (not64 (low_ones begin)) < 2 ^ 64) as Hr by (apply land_word; [done|unfold not64; lia]).
  destruct (Z.eqb_spec (Z.land v (not64 (low_ones begin))) 0) as [E0|Hne]; cbn [negb].
  - rewrite (proj2 (Z.eqb_neq v 0)); cbn [negb].
    2:{ intros ->. rewrite Hbits, Z.bits_0 in Hbit by lia. done. }
    apply Hfound; [|intros i Hi; by rewrite Hbits].
    destruct (Z.eq_dec v 0) as [->|]; [|lia]. rewrite Hbits, Z.bits_0 in Hbit by lia. done.
  - apply Hfound; [lia|]. intros i Hi. rewrite Z.land_spec, Hbits by done. by intros [? _]%andb_true_iff.
Qed.

(** bit_array_first1 finds the first set bit in [begin, end), if [begin]
    starts a word or lies in an earlier word than [end].  In one word it may
    return a bit before [begin]: the bits that it masked off at first are
    looked at again as the bits of the last word. *)
Theorem bit_array_first1_spec :
  (forall a begin end_, is_words a -> 0 <= begin <= end_ -> end_ <= 64 * zlen a ->
     (begin mod 64 = 0 \/ begin / 64 < end_ / 64) ->
     exists r, bit_array_first1 a begin end_ = Some r /\ first_set a begin end_ r) /\
  bit_array_first1 [4] 4 8 = Some 2.
Proof. split; [exact first1_spec|done]. Qed.

Theorem bit_array_first1_spec_witness :
  exists r, bit_array_first1 [4; 0; 8] 3 192 = Some r /\ first_set [4; 0; 8] 3 192 r.
Proof.
  apply (proj1 bit_array_first1_spec).
  - repeat constructor; lia.
  - lia.
  - by vm_compute.
  - right. by vm_compute.
Defined.

End BitArray.

Module SingleThreadedPool.

(** A node is a slot of a block; blocks are named by the order of their
    allocation. *)
Abbreviation addr := (nat * Z)%type.

Record Block := mkBlock { bid : nat; nalloc : Z }.

(** _free_nodes, the chain of _blocks, and what the nodes hold: [nexts] has the
    [next] pointers of the nodes whose space was last written by back(); it has
    no entry for a node that the user has written to (Node is a union). *)
Record pool := mkPool {
  _free_nodes : option addr;
  _blocks : list Block;
  nexts : gmap addr (option addr);
  allocs : nat }.

Definition init : pool := mkPool None [] ∅ 0.

(** swap(): the fields of the two pools are exchanged (the blocks stay). *)
Definition swap (s : pool * pool) : pool * pool := (s.2, s.1).

Section Pool.
Context (ITEM_SIZE_IN BLOCK_SIZE_IN MIN_NITEM : Z).

(** union Node: a pointer and ITEM_SIZE_IN bytes, aligned as the pointer. *)
Definition sizeof_Node : Z := (Z.max 8 ITEM_SIZE_IN + 7) / 8 * 8.
Definition INUSE_SIZE : Z := u64 (BLOCK_SIZE_IN - 8 - 8).
Definition NITEM : Z :=
  if sizeof_Node <=? INUSE_SIZE then INUSE_SIZE / sizeof_Node else MIN_NITEM.

(** get(); [ok]: whether the allocator has memory for a block. *)
Definition get_node (ok : bool) : M pool (option addr) :=
  p ← get;
  match _free_nodes p with
  | Some n =>
      nx ← lift (nexts p !! n);
      modify (fun p => mkPool nx (_blocks p) (nexts p) (allocs p));;
      mret (Some n)
  | None =>
      let full := match _blocks p with [] => true | b :: _ => NITEM <=? nalloc b end in
      if full && negb ok then mret None
      else
        (if full then
           modify (fun p => mkPool (_free_nodes p) (mkBlock (allocs p) 0 :: _blocks p)
                                   (nexts p) (S (allocs p)))
         else mret tt);;
        p ← get;
        match _blocks p with
        | [] => undefined
        | b :: bs =>
            if nalloc b <? NITEM then
              modify (fun p => mkPool (_free_nodes p) (mkBlock (bid b) (nalloc b + 1) :: bs)
                                      (nexts p) (allocs p));;
              mret (Some (bid b, nalloc b))
            else undefined
        end
  end.

(** A write to a node is a write to a slot of a block. *)
Definition in_block (p : pool) (n : addr) : bool :=
  existsb (fun b => Nat.eqb (bid b) n.1) (_blocks p) && (0 <=? n.2) && (n.2 <? NITEM).

Definition back (n : option addr) : M pool () :=
  match n with
  | None => mret tt
  | Some n =>
      p ← get;
      if in_block p n then
        modify (fun p => mkPool (Some n) (_blocks p) (<[n := _free_nodes p]> (nexts p)) (allocs p))
      else undefined
  end.

(** The user writes to the spaces of a node. *)
Definition write_spaces (n : addr) : M pool () :=
  p ← get;
  if in_block p n then
    modify (fun p => mkPool (_free_nodes p) (_blocks p) (delete n (nexts p)) (allocs p))
  else undefined.

Definition free_block (b : nat) (m : gmap addr (option addr)) : gmap addr (option addr) :=
  filter (fun kv => kv.1.1 <> b) m.

Fixpoint reset_loop (bs : list Block) (m : gmap addr (option addr)) : gmap addr (option addr) :=
  match bs with [] => m | b :: bs => reset_loop bs (free_block (bid b) m) end.

Definition reset : M pool () :=
  modify (fun p => mkPool None [] (reset_loop (_blocks p) (nexts p)) (allocs p)).

Definition count_allocated (p : pool) : Z :=
  fold_left (fun n b => u64 (n + nalloc b)) (_blocks p) 0.

Fixpoint count_free_loop (fuel : nat) (m : gmap addr (option addr)) (n : option addr) (k : Z) : option Z :=
  match n with
  | None => Some k
  | Some n =>
      match fuel with
      | O => None
      | S fuel => nx ← m !! n; count_free_loop fuel m nx (u64 (k + 1))
      end
  end.
(** The fuel is the number of the nodes: the walk visits a node at most once. *)
Definition count_free (p : pool) : option Z :=
  count_free_loop (sum_list (Z.to_nat ∘ nalloc <$> _blocks p)) (nexts p) (_free_nodes p) 0.

Definition count_active (p : pool) : option Z :=
  n ← count_free p; Some (u64 (count_allocated p - n)).

(** ** The nodes handed out *)

Fixpoint chain (m : gmap addr (option addr)) (n : option addr) (l : list addr) : Prop :=
  match l with
  | [] => n = None
  | x :: l => n = Some x /\ exists nx, m !! x = Some nx /\ chain m nx l
  end.

Definition block_nodes (b : Block) : list addr :=
  (fun i => (bid b, Z.of_nat i)) <$> seq 0 (Z.to_nat (nalloc b)).
Definition alloc_nodes (bs : list Block) : list addr := bs ≫= block_nodes.

(** [act] are the nodes that get() returned and that are not back. *)
Record Inv (p : pool) (act : list addr) : Prop := mkInv {
  inv_fl : exists fl, chain (nexts p) (_free_nodes p) fl /\ fl ++ act ≡ₚ alloc_nodes (_blocks p);
  inv_bids : NoDup (bid <$> _blocks p);
  inv_blocks : Forall (fun b => (bid b < allocs p)%nat /\ 0 <= nalloc b <= NITEM) (_blocks p) }.

Lemma elem_block_nodes b n : n ∈ block_nodes b <-> n.1 = bid b /\ 0 <= n.2 < nalloc b.
Proof.
  unfold block_nodes. rewrite list_elem_of_fmap. split.
  - intros (i & -> & Hi%elem_of_seq). cbn. lia.
  - destruct n as [k i]. cbn. intros [-> Hi]. exists (Z.to_nat i).
    rewrite elem_of_seq. split; [f_equal; lia|lia].
Qed.

Lemma elem_alloc_nodes bs n :
  n ∈ alloc_nodes bs <-> exists b, b ∈ bs /\ n.1 = bid b /\ 0 <= n.2 < nalloc b.
Proof.
  unfold alloc_nodes. rewrite list_elem_of_bind.
  split; intros (b & H1 & H2); exists b; [apply elem_block_nodes in H1|rewrite elem_block_nodes]; tauto.
Qed.

Lemma alloc_nodes_nodup bs : NoDup (bid <$> bs) -> NoDup (alloc_nodes bs).
Proof.
  induction bs as [|b bs IH]; intros Hn; [constructor|].
  cbn in Hn. apply NoDup_cons in Hn as [Hb Hn]. cbn. apply NoDup_app. split_and!.
  - apply NoDup_fmap; [intros i j E; simplify_eq; lia|]. apply NoDup_seq.
  - intros n H1%elem_block_nodes (b' & H2 & H3 & _)%elem_alloc_nodes. apply Hb.
    destruct H1 as [H1 _]. rewrite <-H1, H3. by apply list_elem_of_fmap_2.
  - by apply IH.
Qed.

Lemma chain_frame m x v n l : x ∉ l -> chain m n l -> chain (<[x := v]> m) n l.
Proof.
  revert n. induction l as [|y l IH]; intros n Hx H; [done|].
  apply not_elem_of_cons in Hx as [Hne Hx]. destruct H as (-> & nx & E & H).
  split; [done|]. exists nx. rewrite lookup_insert_ne by done. auto.
Qed.

Lemma chain_delete m x n l : x ∉ l -> chain m n l -> chain (delete x m) n l.
Proof.
  revert n. induction l as [|y l IH]; intros n Hx H; [done|].
  apply not_elem_of_cons in Hx as [Hne Hx]. destruct H as (-> & nx & E & H).
  split; [done|]. exists nx. rewrite lookup_delete_ne by done. auto.
Qed.

Lemma Inv_nodup p act fl :
  Inv p act -> fl ++ act ≡ₚ alloc_nodes (_blocks p) -> NoDup (fl ++ act).
Proof. intros [_ Hb _] E. rewrite E. by apply alloc_nodes_nodup. Qed.

Lemma Inv_in_block p act n : Inv p act -> n ∈ act -> in_block p n = true.
Proof.
  intros [(fl & _ & E) _ Hb] Hn.
  assert (n ∈ alloc_nodes (_blocks p)) as (b & H1 & H2 & H3)%elem_alloc_nodes
    by (rewrite <-E; apply elem_of_app; by right).
  pose proof (proj1 (Forall_forall _ _) Hb b H1) as [_ H4].
  unfold in_block. rewrite !andb_true_iff, existsb_exists, Z.leb_le, Z.ltb_lt.
  split; [split|]; [|lia|lia]. exists b. split; [by apply list_elem_of_In|]. by apply Nat.eqb_eq.
Qed.

Lemma init_Inv : Inv init [].
Proof. split; [|constructor|constructor]. by exists []. Qed.

Lemma get_reuse p act n fl ok :
  Inv p act -> _free_nodes p = Some n -> chain (nexts p) (Some n) (n :: fl) ->
  n :: fl ++ act ≡ₚ alloc_nodes (_blocks p) ->
  exists p', get_node ok p = Some (Some n, p') /\ Inv p' (n :: act).
Proof.
  intros HI E (_ & nx & En & Hc) Hp. destruct HI as [_ Hb Hs].
  eexists. split; [unfold get_node; run; rewrite E; cbn; run; by rewrite En|].
  split; [|done|done]. exists fl. split; [done|]. cbn. by rewrite <-Permutation_middle.
Qed.

Lemma block_nodes_succ b :
  0 <= nalloc b -> block_nodes (mkBlock (bid b) (nalloc b + 1)) ≡ₚ (bid b, nalloc b) :: block_nodes b.
Proof.
  intros H. unfold block_nodes. cbn [bid nalloc].
  replace (Z.to_nat (nalloc b + 1)) with (S (Z.to_nat (nalloc b))) by lia.
  rewrite seq_S, fmap_app. cbn. rewrite Z2Nat.id by lia. by rewrite <-Permutation_cons_append.
Qed.

Lemma Inv_bump act bs b fr m k :
  Inv (mkPool fr (b :: bs) m k) act -> nalloc b < NITEM ->
  Inv (mkPool fr (mkBlock (bid b) (nalloc b + 1) :: bs) m k) ((bid b, nalloc b) :: act).
Proof.
  intros [(fl & Hc & Hp) Hb Hs] Hlt. cbn in *. apply Forall_cons in Hs as [[H1 H2] Hs].
  split; cbn; [|done|constructor; [split; cbn; lia|done]].
  exists fl. split; [done|]. cbn. rewrite block_nodes_succ by lia. cbn.
  rewrite <-Hp. by rewrite Permutation_middle.
Qed.

(** get() returns a node that is in nobody's hands; without memory for a
    block that it needs it returns NULL and changes nothing. *)
Lemma get_spec p act ok :
  0 < NITEM -> Inv p act ->
  exists r p', get_node ok p = Some (r, p') /\
    match r with
    | Some n => (n ∉ act) /\ in_block p' n = true /\ Inv p' (n :: act)
    | None => ok = false /\ p' = p
    end.
Proof.
  intros HN HI. pose proof HI as [(fl & Hc & Hp) Hb Hs].
  assert (forall n p', get_node ok p = Some (Some n, p') /\ Inv p' (n :: act) ->
    exists r p', get_node ok p = Some (r, p') /\
    match r with
    | Some n => (n ∉ act) /\ in_block p' n = true /\ Inv p' (n :: act)
    | None => ok = false /\ p' = p
    end) as Hdone.
  { intros n p' [E H]. exists (Some n), p'. split; [done|].
    split; [|split; [apply (Inv_in_block _ _ _ H); by left|done]].
    pose proof H as [(fl' & _ & Hp') Hb' _].
    assert (NoDup (fl' ++ n :: act)) as Hn by (rewrite Hp'; by apply alloc_nodes_nodup).
    apply NoDup_app in Hn as (_ & _ & Hn). by apply NoDup_cons in Hn as [? _]. }
  destruct (_free_nodes p) as [n|] eqn:Ef.
  { destruct fl as [|n' fl]; [done|]. destruct (proj1 Hc). 
    destruct Hc as [E Hc]. injection E as <-.
    destruct (get_reuse p act n fl ok HI Ef) as (p' & H); [done|done|]. by eapply Hdone. }
  destruct p as [fr bs m k]. cbn in *. subst fr.
  set (full := match bs with [] => true | b :: _ => NITEM <=? nalloc b end).
  destruct full eqn:Efull; subst full.
  - destruct ok.
    + eapply (Hdone (k, 0)). split.
      { unfold get_node. run. cbn. rewrite Efull. cbn. by rewrite (proj2 (Z.ltb_lt 0 NITEM) HN). }
      apply (Inv_bump act bs (mkBlock k 0)); [|done]. split; cbn.
      * exists fl. done.
      * apply NoDup_cons. split; [|done]. intros (b & Eb & Hin)%list_elem_of_fmap.
        rewrite Forall_forall in Hs. specialize (Hs b Hin). lia.
      * constructor; [cbn; lia|]. eapply Forall_impl; [exact Hs|]. cbn. lia.
    + exists None. eexists. split; [|done]. unfold get_node. run. cbn. by rewrite Efull.
  - destruct bs as [|b bs]; [done|]. apply Z.leb_gt in Efull. eapply (Hdone (bid b, nalloc b)). split.
    { unfold get_node. run. cbn. rewrite (proj2 (Z.leb_gt _ _) Efull). cbn.
      by rewrite (proj2 (Z.ltb_lt _ _) Efull). }
    apply Inv_bump; [done|lia].
Qed.

Lemma back_spec p a1 n a2 :
  Inv p (a1 ++ n :: a2) -> exists p', back (Some n) p = Some (tt, p') /\ Inv p' (a1 ++ a2).
Proof.
  intros HI. pose proof HI as [(fl & Hc & Hp) Hb Hs].
  eexists. split.
  { unfold back. run. by rewrite (Inv_in_block _ _ n HI) by (apply elem_of_app; right; left). }
  pose proof (Inv_nodup _ _ _ HI Hp) as Hn. apply NoDup_app in Hn as (_ & Hn & _).
  split; [|done|done]. exists (n :: fl). cbn. split.
  - split; [done|]. exists (_free_nodes p). rewrite lookup_insert_eq. split; [done|].
    apply chain_frame; [|done]. intros H. apply (Hn n H). apply elem_of_app. right. by left.
  - rewrite <-Hp. by rewrite <-(Permutation_middle a1 a2 n), <-Permutation_middle.
Qed.

Lemma write_spec p act n :
  Inv p act -> n ∈ act -> exists p', write_spaces n p = Some (tt, p') /\ Inv p' act.
Proof.
  intros HI Hn. pose proof HI as [(fl & Hc & Hp) Hb Hs].
  eexists. split; [unfold write_spaces; run; by rewrite (Inv_in_block _ _ n HI Hn)|].
  pose proof (Inv_nodup _ _ _ HI Hp) as Hd. apply NoDup_app in Hd as (_ & Hd & _).
  split; [|done|done]. exists fl. split; [|done]. apply chain_delete; [|done].
  intros H. by apply (Hd n H).
Qed.

Lemma reset_spec p act : Inv p act -> exists p', reset p = Some (tt, p') /\ Inv p' [].
Proof. intros _. eexists. split; [done|]. split; [by exists []|constructor|constructor]. Qed.

Lemma count_free_chain m n l : forall fuel k, chain m n l -> (length l <= fuel)%nat ->
  0 <= k -> k < 2 ^ 64 -> count_free_loop fuel m n k = Some (u64 (k + zlen l)).
Proof.
  revert n. induction l as [|x l IH]; intros n fuel k H Hf Hk Hk2.
  - cbn in H. subst n. unfold zlen. cbn [length]. rewrite Z.add_0_r, wrapu_small by done. by destruct fuel.
  - destruct H as (-> & nx & E & H). destruct fuel; cbn in Hf; [lia|]. cbn. rewrite E. cbn.
    pose proof (wrapu_range 64 (k + 1) ltac:(lia)).
    rewrite (IH nx fuel) by (done || lia). rewrite wrapu_add_l, zlen_cons. do 2 f_equal. lia.
Qed.

Lemma count_allocated_fold bs n :
  0 <= n < 2 ^ 64 -> Forall (fun b => 0 <= nalloc b) bs ->
  fold_left (fun n b => u64 (n + nalloc b)) bs n = u64 (n + zlen (alloc_nodes bs)) /\
  sum_list (Z.to_nat ∘ nalloc <$> bs) = length (alloc_nodes bs).
Proof.
  revert n. induction bs as [|b bs IH]; intros n Hn Hb.
  { split; [|done]. cbn. change (zlen (@nil addr)) with 0. by rewrite Z.add_0_r, wrapu_small. }
  apply Forall_cons in Hb as [Hb0 Hb]. cbn [fold_left fmap list_fmap sum_list alloc_nodes mbind list_bind].
  destruct (IH (u64 (n + nalloc b)) (wrapu_range 64 _ ltac:(lia)) Hb) as [-> E].
  assert (zlen (block_nodes b) = nalloc b) as Eb.
  { unfold block_nodes, zlen. rewrite length_fmap, length_seq. lia. }
  change (bs ≫= block_nodes) with (alloc_nodes bs). rewrite wrapu_add_l, zlen_app, length_app, Eb.
  split; [f_equal; lia|]. cbn. f_equal; [|exact E]. unfold zlen in Eb. lia.
Qed.

Lemma count_spec p act :
  Inv p act -> count_active p = Some (u64 (zlen act)) /\
    count_allocated p = u64 (zlen (alloc_nodes (_blocks p))).
Proof.
  intros [(fl & Hc & Hp) Hb Hs].
  destruct (count_allocated_fold (_blocks p) 0) as [E1 E2]; [lia| |].
  { eapply Forall_impl; [exact Hs|]. cbn. lia. }
  assert (zlen (alloc_nodes (_blocks p)) = zlen fl + zlen act) as El.
  { rewrite <-zlen_app. unfold zlen. by rewrite Hp. }
  unfold count_active, count_free. rewrite E2.
  rewrite (count_free_chain _ _ fl) by (done || (rewrite <-Hp, length_app; lia) || lia).
  cbn. unfold count_allocated. rewrite E1. split; [|done]. f_equal. rewrite El, !Z.add_0_l.
  rewrite wrapu_sub_l. unfold wrapu. rewrite Zminus_mod_idemp_r. f_equal. lia.
Qed.

(** ** A client of the pool *)

Inductive op := Get (ok : bool) | Back (k : nat) | Write (k : nat) | BackNull | Reset.

(** The client keeps the nodes it has; it gives back and writes to those. *)
Definition run_op (o : op) (s : pool * list addr) : option (pool * list addr) :=
  let (p, act) := s in
  match o with
  | Get ok =>
      '(r, p) ← get_node ok p;
      match r with
      | Some n => if decide (n ∈ act) then None else Some (p, n :: act)
      | None => Some (p, act)
      end
  | Back k =>
      match act !! k with
      | Some n => '(_, p) ← back (Some n) p; Some (p, take k act ++ drop (S k) act)
      | None => Some (p, act)
      end
  | Write k =>
      match act !! k with
      | Some n => '(_, p) ← write_spaces n p; Some (p, act)
      | None => Some (p, act)
      end
  | BackNull => '(_, p) ← back None p; Some (p, act)
  | Reset => '(_, p) ← reset p; Some (p, [])
  end.

Fixpoint run_ops (os : list op) (s : pool * list addr) : option (pool * list addr) :=
  match os with [] => Some s | o :: os => s ← run_op o s; run_ops os s end.

Lemma run_op_ok o p act :
  0 < NITEM -> Inv p act -> exists p' act', run_op o (p, act) = Some (p', act') /\ Inv p' act'.
Proof.
  intros HN HI. destruct o as [ok|k|k| |]; cbn [run_op].
  - destruct (get_spec p act ok HN HI) as (r & p' & -> & H). cbn. destruct r as [n|].
    + destruct H as (H1 & _ & H3). rewrite decide_False by done. eauto.
    + destruct H as [_ ->]. eauto.
  - destruct (act !! k) as [n|] eqn:E; [|by eauto].
    rewrite <-(take_drop_middle _ _ _ E) in HI.
    destruct (back_spec p _ n _ HI) as (p' & -> & H). cbn. eauto.
  - destruct (act !! k) as [n|] eqn:E; [|by eauto].
    destruct (write_spec p act n HI) as (p' & -> & H); [by eapply list_elem_of_lookup_2|]. cbn. eauto.
  - by exists p, act.
  - destruct (reset_spec p act HI) as (p' & E & H). rewrite E. cbn. eauto.
Qed.

Lemma run_ops_ok os p act :
  0 < NITEM -> Inv p act -> exists p' act', run_ops os (p, act) = Some (p', act') /\ Inv p' act'.
Proof.
  intros HN. revert p act. induction os as [|o os IH]; intros p act HI; cbn [run_ops]; [by eauto|].
  destruct (run_op_ok o p act HN HI) as (p' & act' & -> & H). cbn. by apply IH.
Qed.

End Pool.

(** A client that gets, writes to and gives back nodes in any order, with
    block allocations that succeed or fail, never gets a node that it still has;
    the nodes are slots of live blocks, count_active() counts those it has, and
    get() then succeeds if there is memory. *)
Theorem pool_nodes_exclusive ITEM BLOCK MIN os :
  0 < NITEM ITEM BLOCK MIN ->
  exists p act, run_ops ITEM BLOCK MIN os (init, []) = Some (p, act) /\
    NoDup act /\ Forall (fun n => in_block ITEM BLOCK MIN p n = true) act /\
    count_active p = Some (u64 (zlen act)) /\
    exists n p', get_node ITEM BLOCK MIN true p = Some (Some n, p') /\ n ∉ act.
Proof.
  intros HN. destruct (run_ops_ok ITEM BLOCK MIN os init [] HN (init_Inv ITEM BLOCK MIN))
    as (p & act & E & HI).
  exists p, act. split; [exact E|]. pose proof HI as [(fl & _ & Hp) _ _]. split_and!.
  - pose proof (Inv_nodup _ _ _ _ _ _ HI Hp) as Hd. by apply NoDup_app in Hd as (_ & _ & Hd).
  - apply Forall_forall. intros n Hn. by apply (Inv_in_block _ _ _ _ act _ HI).
  - by eapply count_spec.
  - destruct (get_spec _ _ _ p act true HN HI) as ([n|] & p' & E' & H); [|by destruct H].
    exists n, p'. split; [done|]. apply H.
Qed.

Theorem pool_nodes_exclusive_witness :
  exists p act, run_ops 24 64 1 [Get true; Get true; Get false; Get true; Write 1; Back 1; BackNull; Get false]
      (init, []) = Some (p, act) /\
    NoDup act /\ Forall (fun n => in_block 24 64 1 p n = true) act /\
    count_active p = Some (u64 (zlen act)) /\
    exists n p', get_node 24 64 1 true p = Some (Some n, p') /\ n ∉ act.
Proof. apply (pool_nodes_exclusive 24 64 1). reflexivity. Defined.

End SingleThreadedPool.
