(* ===== verification/FlatMap.v ===== *)
(** * FlatMap: the hash map of utility/containers/flat_map.h

    The buckets are an array of nodes that hold their first element in place;
    the others hang from them in a chain.  This file has the data and the
    operations; FlatMapSpec shows that they are those of a finite map. *)

From S2P Require Import Prelude Bits.
Import BitArray.

(** ** Rounding *)

Definition find_power2 (b : Z) : Z :=
  let b := u64 (b - 1) in
  let b := Z.lor b (Z.shiftr b 1) in
  let b := Z.lor b (Z.shiftr b 2) in
  let b := Z.lor b (Z.shiftr b 4) in
  let b := Z.lor b (Z.shiftr b 8) in
  let b := Z.lor b (Z.shiftr b 16) in
  let b := Z.lor b (Z.shiftr b 32) in
  u64 (b + 1).

Definition flatmap_round (nbucket : Z) : Z :=
  if nbucket <=? 8 then 8 else find_power2 nbucket.

Definition flatmap_mod (hash_code nbucket : Z) : Z :=
  Z.land hash_code (u64 (nbucket - 1)).

(** ** Powers of two *)

(** [x] has the bits of [b] spread over the [s] places from each down. *)
Definition spread (b s x : Z) : Prop :=
  0 <= x /\ forall i, 0 <= i -> Z.testbit x i = true <-> exists j, i <= j < i + s /\ Z.testbit b j = true.

Lemma spread_double b s x : 0 < s -> spread b s x -> spread b (2 * s) (Z.lor x (Z.shiftr x s)).
Proof.
  intros Hs [Hx H]. split.
  { apply Z.lor_nonneg. split; [done|]. by apply Z.shiftr_nonneg. }
  intros i Hi. rewrite Z.lor_spec, Z.shiftr_spec, orb_true_iff, !H by lia. split.
  - intros [(j & Hj & E)|(j & Hj & E)]; exists j; (split; [lia|done]).
  - intros (j & Hj & E). destruct (decide (j < i + s)); [left|right]; exists j; (split; [lia|done]).
Qed.

Lemma spread_all b x : 0 < b < 2 ^ 64 -> spread b 64 x -> x = 2 ^ (Z.log2 b + 1) - 1.
Proof.
  intros Hb [Hx H]. pose proof (Z.log2_nonneg b).
  assert (Z.log2 b < 64) by (apply Z.log2_lt_pow2; lia).
  replace (2 ^ (Z.log2 b + 1) - 1) with (Z.ones (Z.log2 b + 1)) by (rewrite Z.ones_equiv; lia).
  apply Z.bits_inj'. intros i Hi. apply eq_true_iff_eq. rewrite H by done.
  rewrite Z.ones_spec_iff by lia. split.
  - intros (j & Hj & E). destruct (decide (j <= Z.log2 b)) as [|Hgt]; [lia|].
    rewrite Z.bits_above_log2 in E; [done|lia|lia].
  - intros Hlt. exists (Z.log2 b). split; [lia|]. apply Z.bit_log2. lia.
Qed.

Lemma find_power2_eq b : 1 < b < 2 ^ 64 -> find_power2 b = u64 (2 ^ Z.log2_up b).
Proof.
  intros Hb. unfold find_power2. rewrite (wrapu_small 64 (b - 1)) by lia. cbv zeta.
  match goal with |- u64 (?x + 1) = _ => rewrite (spread_all (b - 1) x) end.
  - f_equal. rewrite Z.log2_up_eqn by lia. replace (Z.pred b) with (b - 1) by lia.
    by rewrite Z.sub_add.
  - lia.
  - change 64 with (2 * (2 * (2 * (2 * (2 * (2 * 1)))))).
    apply (spread_double _ (2 * (2 * (2 * (2 * (2 * 1)))))); [lia|].
    do 5 (apply spread_double; [lia|]). split; [lia|]. intros i Hi. split.
    + intros E. exists i. split; [lia|done].
    + intros (j & Hj & E). by replace i with j by lia.
Qed.

(** The rounded number of buckets is a power of two, for up to 2^63. *)
Lemma flatmap_round_spec n : 0 <= n <= 2 ^ 63 ->
  exists k, 3 <= k <= 63 /\ flatmap_round n = 2 ^ k /\ n <= 2 ^ k /\ (8 < n -> 2 ^ (k - 1) < n).
Proof.
  intros Hn. unfold flatmap_round. destruct (Z.leb_spec n 8).
  { exists 3. cbn. lia. }
  rewrite find_power2_eq by lia. pose proof (Z.log2_up_spec n ltac:(lia)) as Hl.
  assert (3 < Z.log2_up n) by (apply Z.log2_up_lt_pow2; cbn; lia).
  assert (Z.log2_up n <= 63) by (apply Z.log2_up_le_pow2; lia).
  exists (Z.log2_up n). replace (Z.log2_up n - 1) with (Z.pred (Z.log2_up n)) by lia.
  rewrite wrapu_small; [lia|]. split; [lia|]. apply Z.pow_lt_mono_r; lia.
Qed.

Lemma flatmap_round_pow2 k : 3 <= k <= 63 -> flatmap_round (2 ^ k) = 2 ^ k.
Proof.
  intros Hk. unfold flatmap_round. destruct (Z.leb_spec (2 ^ k) 8) as [Hle|Hgt].
  - assert (2 ^ 3 <= 2 ^ k) by (apply Z.pow_le_mono_r; lia). lia.
  - assert (2 ^ k <= 2 ^ 63) by (apply Z.pow_le_mono_r; lia).
    rewrite find_power2_eq, Z.log2_up_pow2 by lia. apply wrapu_small.
    split; [lia|]. apply Z.pow_lt_mono_r; lia.
Qed.

(** resize(_nbucket + 1) doubles. *)
Lemma flatmap_round_next k : 3 <= k <= 62 -> flatmap_round (2 ^ k + 1) = 2 ^ (k + 1).
Proof.
  intros Hk. assert (2 ^ k <= 2 ^ 62) by (apply Z.pow_le_mono_r; lia).
  assert (2 ^ 3 <= 2 ^ k) by (apply Z.pow_le_mono_r; lia).
  destruct (flatmap_round_spec (2 ^ k + 1)) as (k' & Hk' & E & H1 & H2); [lia|].
  rewrite E. f_equal. specialize (H2 ltac:(lia)).
  assert (k < k') by (apply (Z.pow_lt_mono_r_iff 2); lia).
  assert (k' - 1 <= k); [|lia]. destruct (Z.le_gt_cases (k' - 1) k) as [|Hgt]; [done|].
  assert (2 ^ (k + 1) <= 2 ^ (k' - 1)) by (apply Z.pow_le_mono_r; lia).
  rewrite Z.pow_add_r in * by lia. lia.
Qed.

Lemma flatmap_mod_eq h k : 0 <= k < 64 -> flatmap_mod h (2 ^ k) = h mod 2 ^ k.
Proof.
  intros Hk. unfold flatmap_mod. assert (2 ^ k < 2 ^ 64) by (apply Z.pow_lt_mono_r; lia).
  pose proof (Z.pow_pos_nonneg 2 k ltac:(lia) ltac:(lia)).
  rewrite wrapu_small by lia. apply land_mask. lia.
Qed.

(** For up to 2^63 buckets flatmap_round gives the least power of two that
    is enough (and at least 8), so flatmap_mod is a remainder; above 2^63 it
    gives 0, and every index is then out of the one bucket that init() makes. *)
Theorem flatmap_round_bounds n h :
  0 <= n < 2 ^ 64 ->
  if n <=? 2 ^ 63
  then exists k, 3 <= k <= 63 /\ flatmap_round n = 2 ^ k /\ n <= 2 ^ k /\ (8 < n -> 2 ^ (k - 1) < n) /\
         flatmap_mod h (flatmap_round n) = h mod 2 ^ k
  else flatmap_round n = 0 /\ (0 <= h < 2 ^ 64 -> flatmap_mod h (flatmap_round n) = h).
Proof.
  intros Hn. destruct (Z.leb_spec n (2 ^ 63)) as [Hle|Hgt].
  - destruct (flatmap_round_spec n) as (k & Hk & E & H1 & H2); [lia|]. exists k.
    split_and!; try done; [lia..|]. rewrite E. apply flatmap_mod_eq. lia.
  - assert (flatmap_round n = 0) as E.
    { unfold flatmap_round. destruct (Z.leb_spec n 8); [lia|]. rewrite find_power2_eq by lia.
      assert (Z.log2_up n = 64) as ->; [|done].
      apply Z.le_antisymm; [apply Z.log2_up_le_pow2; lia|].
      assert (63 < Z.log2_up n) by (apply Z.log2_up_lt_pow2; lia). lia. }
    split; [done|]. intros Hh. rewrite E. unfold flatmap_mod. change (u64 (0 - 1)) with (2 ^ 64 - 1).
    rewrite land_mask by lia. apply Z.mod_small. lia.
Qed.

Theorem flatmap_round_bounds_witness :
  exists k, 3 <= k <= 63 /\ flatmap_round 100 = 2 ^ k /\ 100 <= 2 ^ k /\ (8 < 100 -> 2 ^ (k - 1) < 100) /\
    flatmap_mod 1000 (flatmap_round 100) = 1000 mod 2 ^ k.
Proof. apply (flatmap_round_bounds 100 1000). by vm_compute. Defined.

(** ** Hashing strings *)

(** DefaultHasher<std::string>: a char is signed. *)
Definition char_value (c : byte) : Z := wraps 8 (Z.of_N (Byte.to_N c)).

Definition hash_string (s : list byte) : Z :=
  fold_left (fun result c => u64 (result * 101 + char_value c)) s 0.

(** The overload for a C string: [s] is what is in memory from the pointer on. *)
Fixpoint hash_cstr (result : Z) (s : list byte) : option Z :=
  match s with
  | [] => None
  | c :: s => if Byte.eqb c x00 then Some result
              else hash_cstr (u64 (result * 101 + char_value c)) s
  end.

(** for (i = ...; n times; ++i) *)
Fixpoint for_range {S} (f : Z -> S -> option S) (n : nat) (i : Z) (s : S) : option S :=
  match n with
  | O => Some s
  | S n => s ← f i s; for_range f n (i + 1) s
  end.

Section FlatMap.
Context {K V : Type} (_hashfn : K -> Z) (_eql : K -> K -> bool) (T_default : V).
(** _Sparse; sizeof(Bucket); which sizes malloc can serve; what fresh words hold. *)
Context (_S : bool) (sizeof_Bucket : Z) (alloc_ok : Z -> bool) (junk : nat -> Z).

(** [next] is None for (Bucket* )-1, and otherwise the chain that starts
    there; [element] is None for raw element_spaces. *)
Record Bucket := mkBucket { next : option (list (K * V)); element : option (K * V) }.

Definition is_valid (b : Bucket) : bool := bool_decide (is_Some (next b)).

(** Bucket(k) *)
Definition new_Bucket (k : K) : Bucket := mkBucket (Some []) (Some (k, T_default)).

(** set_invalid(), of a bucket without an element. *)
Definition invalid : Bucket := mkBucket None None.

(** A slot of a fresh array is None: reading it is undefined. *)
Record FlatMap := mkFlatMap {
  _size : Z;
  _nbucket : Z;
  _buckets : option (list (option Bucket));
  _thumbnail : option words;
  _load_factor : Z }.

(** A node: the bucket's index and the depth in its chain. *)
Abbreviation loc := (Z * nat)%type.

Definition FlatMap_ctor : FlatMap := mkFlatMap 0 0 None None 0.

Definition initialized (m : FlatMap) : bool := bool_decide (is_Some (_buckets m)).
Definition empty (m : FlatMap) : bool := _size m =? 0.
Definition is_too_crowded (m : FlatMap) (size : Z) : bool :=
  u64 (_nbucket m * _load_factor m) <=? u64 (size * 100).

Definition with_buckets (m : FlatMap) (bs : option (list (option Bucket))) : FlatMap :=
  mkFlatMap (_size m) (_nbucket m) bs (_thumbnail m) (_load_factor m).
Definition with_thumbnail (m : FlatMap) (t : option words) : FlatMap :=
  mkFlatMap (_size m) (_nbucket m) (_buckets m) t (_load_factor m).
Definition with_size (m : FlatMap) (n : Z) : FlatMap :=
  mkFlatMap n (_nbucket m) (_buckets m) (_thumbnail m) (_load_factor m).

(** _buckets[i]: read, and written. *)
Definition bucket_at (m : FlatMap) (i : Z) : option Bucket :=
  bs ← _buckets m; b ← bs !! Z.to_nat i; b.
Definition set_bucket (m : FlatMap) (i : Z) (b : Bucket) : option FlatMap :=
  bs ← _buckets m;
  if decide (Z.to_nat i < length bs)%nat
  then Some (with_buckets m (Some (<[Z.to_nat i := Some b]> bs))) else None.

(** if (_S) f(_thumbnail) *)
Definition on_thumbnail (f : words -> option words) (m : FlatMap) : option FlatMap :=
  if _S then t ← _thumbnail m; t ← f t; Some (with_thumbnail m (Some t)) else Some m.

(** Alloc(sizeof(Bucket) * (nbucket + 1)): the product wraps. *)
Definition alloc_buckets (nbucket : Z) : option (list (option Bucket)) :=
  let bytes := u64 (sizeof_Bucket * u64 (nbucket + 1)) in
  if alloc_ok bytes then Some (replicate (Z.to_nat (bytes / sizeof_Bucket)) None) else None.

Definition thumbnail_malloc (nbucket : Z) : option words :=
  n ← bit_array_malloc nbucket;
  if alloc_ok (n * 8) then Some ((fun i => u64 (junk i)) <$> seq 0 (Z.to_nat n)) else None.

(** *** init *)

Definition init (m : FlatMap) (nbucket load_factor : Z) : option (FlatMap * Z) :=
  if initialized m then Some (m, -1)
  else if nbucket =? 0 then Some (m, -1)
  else if (load_factor <? 10) || (100 <? load_factor) then Some (m, -1)
  else
    let nb := flatmap_round nbucket in
    let m := mkFlatMap 0 nb (alloc_buckets nb) (_thumbnail m) load_factor in
    if negb (initialized m) then Some (m, -1)
    else
      m ← for_range (fun i m => set_bucket m i invalid) (Z.to_nat nb) 0 m;
      m ← set_bucket m nb (mkBucket (Some []) None);
      if _S then
        match thumbnail_malloc nb with
        | None => Some (with_thumbnail m None, -1)
        | Some t => t ← bit_array_clear t nb; Some (with_thumbnail m (Some t), 0)
        end
      else Some (m, 0).

(** *** seek *)

(** The nodes of a chain from depth [d] on. *)
Fixpoint find_chain (key : K) (l : list (K * V)) (d : nat) : option nat :=
  match l with
  | [] => None
  | e :: l => if _eql e.1 key then Some d else find_chain key l (S d)
  end.

Definition seek (m : FlatMap) (key : K) : option (option loc) :=
  if negb (initialized m) then Some None
  else
    let index := flatmap_mod (_hashfn key) (_nbucket m) in
    first ← bucket_at m index;
    match next first with
    | None => Some None
    | Some chain =>
        e ← element first;
        if _eql e.1 key then Some (Some (index, O))
        else Some ((fun d => (index, d)) <$> find_chain key chain 1)
    end.

(** The element of a node, and a write of its value. *)
Definition node_element (b : Bucket) (d : nat) : option (K * V) :=
  match d with O => element b | S d => ch ← next b; ch !! d end.
Definition load (m : FlatMap) (p : loc) : option (K * V) :=
  b ← bucket_at m p.1; node_element b p.2.

Definition store (m : FlatMap) (p : loc) (v : V) : option FlatMap :=
  b ← bucket_at m p.1;
  match p.2 with
  | O => e ← element b; set_bucket m p.1 (mkBucket (next b) (Some (e.1, v)))
  | S d =>
      ch ← next b; e ← ch !! d;
      set_bucket m p.1 (mkBucket (Some (<[d := (e.1, v)]> ch)) (element b))
  end.

(** *** erase: 1 and the value that was moved out, or 0 *)

Fixpoint erase_chain (key : K) (l : list (K * V)) : option (list (K * V) * V) :=
  match l with
  | [] => None
  | e :: l => if _eql e.1 key then Some (l, e.2)
              else '(l, v) ← erase_chain key l; Some (e :: l, v)
  end.

Definition erase (m : FlatMap) (key : K) : option (FlatMap * Z * option V) :=
  if negb (initialized m) then Some (m, 0, None)
  else
    let index := flatmap_mod (_hashfn key) (_nbucket m) in
    first ← bucket_at m index;
    match next first with
    | None => Some (m, 0, None)
    | Some chain =>
        e ← element first;
        if _eql e.1 key then
          m ← match chain with
              | [] => m ← set_bucket m index invalid;
                      on_thumbnail (fun t => bit_array_unset t index) m
              | p :: chain => set_bucket m index (mkBucket (Some chain) (Some p))
              end;
          Some (with_size m (u64 (_size m - 1)), 1, Some e.2)
        else
          match erase_chain key chain with
          | None => Some (m, 0, None)
          | Some (chain, v) =>
              m ← set_bucket m index (mkBucket (Some chain) (element first));
              Some (with_size m (u64 (_size m - 1)), 1, Some v)
          end
    end.

(** *** clear *)

Definition clear (m : FlatMap) : option FlatMap :=
  if _size m =? 0 then Some m
  else
    let m := with_size m 0 in
    m ← (if initialized m then
           for_range (fun i m =>
             b ← bucket_at m i;
             if is_valid b then set_bucket m i invalid else Some m)
             (Z.to_nat (_nbucket m)) 0 m
         else Some m);
    match _thumbnail m with
    | None => Some m
    | Some t => t ← bit_array_clear t (_nbucket m); Some (with_thumbnail m (Some t))
    end.

(** *** Iterators: the node, and the entry (or position) it hangs from *)

Record Iter := mkIter { _node : option loc; _pos : Z }.

(** for (; !_entry->is_valid(); ++_entry); *)
Fixpoint find_entry (m : FlatMap) (fuel : nat) (pos : Z) : option Z :=
  match fuel with
  | O => None
  | S fuel => b ← bucket_at m pos; if is_valid b then Some pos else find_entry m fuel (pos + 1)
  end.

Definition find_and_set_valid_node (m : FlatMap) (pos : Z) : option Iter :=
  pos ← (if _S then
           b ← bucket_at m pos;
           if is_valid b then Some pos
           else t ← _thumbnail m; bit_array_first1 t (pos + 1) (_nbucket m)
         else find_entry m (S (Z.to_nat (_nbucket m - pos))) pos);
  Some (mkIter (Some (pos, O)) pos).

Definition iterator_at (m : FlatMap) (pos : Z) : option Iter :=
  if initialized m then find_and_set_valid_node m pos else Some (mkIter None 0).
Definition begin (m : FlatMap) : option Iter := iterator_at m 0.
Definition end_ (m : FlatMap) : option Iter := iterator_at m (_nbucket m).

Definition iter_eqb (a b : Iter) : bool := bool_decide (_node a = _node b).

(** ++ it *)
Definition iter_next (m : FlatMap) (it : Iter) : option Iter :=
  p ← _node it; b ← bucket_at m p.1; ch ← next b;
  if (p.2 <? length ch)%nat then Some (mkIter (Some (p.1, S p.2)) (_pos it))
  else if (p.2 =? length ch)%nat then find_and_set_valid_node m (_pos it + 1)
  else None.

(** *it *)
Definition iter_deref (m : FlatMap) (it : Iter) : option (K * V) :=
  p ← _node it; load m p.

(** for (it = begin(); it != end(); ++it) f( *it, ...) *)
Fixpoint iterate {S} (m : FlatMap) (f : K * V -> S -> option S) (fuel : nat) (it : Iter) (s : S) : option S :=
  e ← end_ m;
  if iter_eqb it e then Some s
  else
    match fuel with
    | O => None
    | Datatypes.S fuel => kv ← iter_deref m it; s ← f kv s; it ← iter_next m it; iterate m f fuel it s
    end.
Definition for_each {S} (m : FlatMap) (f : K * V -> S -> option S) (s : S) : option S :=
  it ← begin m; iterate m f (Z.to_nat (_size m)) it s.

(** *** resize and operator[], which call each other *)

(** Whether _pool.get() gives memory for the node of a key: it returns NULL if it
    has no free node and the allocator has no memory for a Block. *)
Context (pool_get : FlatMap -> K -> bool).

Definition assign_at (sub : FlatMap -> K -> option (FlatMap * loc)) (m : FlatMap) (kv : K * V) : option FlatMap :=
  '(m, p) ← sub m kv.1; store m p kv.2.

(** The rehashed map is swapped with this one, which is then destroyed. *)
Definition resize_with (sub : FlatMap -> K -> option (FlatMap * loc)) (m : FlatMap) (nbucket2 : Z) : option (FlatMap * bool) :=
  let nb2 := flatmap_round nbucket2 in
  if _nbucket m =? nb2 then Some (m, false)
  else
    '(new_map, r) ← init FlatMap_ctor nb2 (_load_factor m);
    if negb (r =? 0) then Some (m, false)
    else new_map ← for_each m (fun kv new_map => assign_at sub new_map kv) new_map;
         Some (new_map, true).

Definition subscript_step (sub : FlatMap -> K -> option (FlatMap * loc)) (m : FlatMap) (key : K) : option (FlatMap * loc) :=
  let index := flatmap_mod (_hashfn key) (_nbucket m) in
  first ← bucket_at m index;
  match next first with
  | None =>
      let m := with_size m (u64 (_size m + 1)) in
      m ← on_thumbnail (fun t => bit_array_set t index) m;
      m ← set_bucket m index (new_Bucket key);
      Some (m, (index, O))
  | Some chain =>
      e ← element first;
      match find_chain key (e :: chain) 0 with
      | Some d => Some (m, (index, d))
      | None =>
          '(m, resized) ← (if is_too_crowded m (_size m)
                           then resize_with sub m (u64 (_nbucket m + 1)) else Some (m, false));
          if resized : bool then sub m key
          else if negb (pool_get m key) then None     (* new (NULL) Bucket(key) *)
          else
            let m := with_size m (u64 (_size m + 1)) in
            m ← set_bucket m index (mkBucket (Some (chain ++ [(key, T_default)])) (Some e));
            Some (m, (index, S (length chain)))
      end
  end.

(** The calls nest at most once for each doubling of the buckets. *)
Fixpoint subscript (fuel : nat) (m : FlatMap) (key : K) : option (FlatMap * loc) :=
  match fuel with
  | O => None
  | S fuel => subscript_step (subscript fuel) m key
  end.

Definition FUEL : nat := 64.
(** operator[] *)
Definition index (m : FlatMap) (key : K) : option (FlatMap * loc) := subscript FUEL m key.
Definition resize (m : FlatMap) (nbucket2 : Z) : option (FlatMap * bool) := resize_with index m nbucket2.

Definition insert (m : FlatMap) (key : K) (value : V) : option (FlatMap * loc) :=
  '(m, p) ← index m key; m ← store m p value; Some (m, p).

(** *** Copies *)

(** One turn of the loop over the buckets in operator=. *)
Definition copy_bucket (rhs : FlatMap) (i : Z) (m : FlatMap) : option FlatMap :=
  b ← bucket_at rhs i;
  match next b with
  | None => set_bucket m i invalid
  | Some chain =>
      m ← on_thumbnail (fun t => bit_array_set t i) m;
      if forallb (fun kv => pool_get m kv.1) chain     (* a new Bucket( *p2) for each *)
      then e ← element b; set_bucket m i (mkBucket (Some chain) (Some e)) else None
  end.

(** operator=; [same]: whether rhs is this map. *)
Definition assign (same : bool) (m rhs : FlatMap) : option FlatMap :=
  if same then Some m
  else
    m ← clear m;
    if empty rhs then Some m
    else
      let m := if initialized m then m
               else mkFlatMap (_size m) (_nbucket m) (_buckets m) (_thumbnail m) (_load_factor rhs) in
      '(m, ok) ← (if negb (initialized m) || is_too_crowded m (_size rhs) then
        let m := mkFlatMap (_size m) (_nbucket rhs) (alloc_buckets (_nbucket rhs)) (_thumbnail m) (_load_factor m) in
        if negb (initialized m) then Some (m, false)
        else if _S then
          match thumbnail_malloc (_nbucket m) with
          | None => Some (with_thumbnail m None, false)
          | Some t => t ← bit_array_clear t (_nbucket m); Some (with_thumbnail m (Some t), true)
          end
        else Some (m, true)
      else Some (m, true));
      if negb (ok : bool) then Some m
      else if _nbucket m =? _nbucket rhs then
        m ← for_range (copy_bucket rhs) (Z.to_nat (_nbucket rhs)) 0 m;
        m ← set_bucket m (_nbucket rhs) (mkBucket (Some []) None);
        Some (with_size m (_size rhs))
      else for_each rhs (fun kv m => assign_at index m kv) m.

(** The copy constructor. *)
Definition FlatMap_copy (rhs : FlatMap) : option FlatMap :=
  assign false (mkFlatMap 0 0 None None (_load_factor rhs)) rhs.

Definition swap (s : FlatMap * FlatMap) : FlatMap * FlatMap := (s.2, s.1).

(** *** Iteration in several passes (for the map that is not sparse) *)

Record PositionHint := mkHint { nbucket : Z; offset : Z; at_entry : bool; hint_key : option K }.

(** The hint's key is key_type() at the end; it is not used then. *)
Definition save_iterator (m : FlatMap) (it : Iter) : option PositionHint :=
  e ← end_ m;
  if negb (iter_eqb it e) then
    kv ← iter_deref m it;
    Some (mkHint (_nbucket m) (_pos it) (bool_decide (_node it = Some (_pos it, O))) (Some kv.1))
  else Some (mkHint (_nbucket m) (_pos it) false None).

Definition restore_iterator (m : FlatMap) (hint : PositionHint) : option Iter :=
  if negb (nbucket hint =? _nbucket m) then begin m
  else if _nbucket m <=? offset hint then end_ m
  else
    first ← bucket_at m (offset hint);
    if at_entry hint then iterator_at m (offset hint)
    else
      match next first with
      | None => iterator_at m (offset hint + 1)
      | Some chain =>
          k ← hint_key hint; e ← element first;
          match find_chain k (e :: chain) 0 with
          | Some d => Some (mkIter (Some (offset hint, d)) (offset hint))
          | None => iterator_at m (offset hint)
          end
      end.

(** *** bucket_info: longest chain, and the terms of the average's quotient *)

Definition bucket_info (m : FlatMap) : option (Z * (Z * Z)) :=
  r ← for_range (fun i '(max_n, nentry) =>
        b ← bucket_at m i;
        match next b with
        | None => Some (max_n, nentry)
        | Some chain => Some (Z.max max_n (1 + zlen chain), nentry + 1)
        end) (Z.to_nat (_nbucket m)) 0 (0, 0);
  Some (r.1, (_size m, r.2)).

End FlatMap.
