(* ===== verification/FlatMapSpec.v ===== *)
(** * FlatMapSpec: FlatMap is a finite map

    [Repr m g]: the buckets of [m] hold exactly the pairs of [g], each in the
    bucket of its key's hash.  Every operation keeps it, for maps of up to 2^40
    buckets and 2^35 elements; a sparse map has at least 64 buckets. *)

From S2P Require Import Prelude Bits FlatMap.
Import BitArray.

Arguments bucket_at : simpl never.

(** ** The representation *)

Section Spec.
Context {K V : Type} `{Countable K}.
Context (_hashfn : K -> Z) (_eql : K -> K -> bool) (T_default : V).
Context (_S : bool) (sizeof_Bucket : Z) (alloc_ok : Z -> bool) (junk : nat -> Z).
Hypothesis eql_true : forall a b, _eql a b = true <-> a = b.
Hypothesis sizeof_range : 0 < sizeof_Bucket /\ sizeof_Bucket * (2 ^ 40 + 1) < 2 ^ 64.

Abbreviation Map := (@FlatMap K V).

(** _pool.get() has memory. *)
Context (pool_get : Map -> K -> bool) (Hpool : forall m k, pool_get m k = true).

(** The elements of a bucket, and what a bucket may be. *)
Definition blist (b : @Bucket K V) : list (K * V) :=
  match next b, element b with Some ch, Some e => e :: ch | _, _ => [] end.
Definition bucket_ok (b : @Bucket K V) : Prop :=
  b = invalid \/ exists ch e, b = mkBucket (Some ch) (Some e).

Definition hix (m : Map) (k : K) : Z := flatmap_mod (_hashfn k) (_nbucket m).

Definition valid_at (m : Map) (i : Z) : bool :=
  match bucket_at m i with Some b => is_valid b | None => false end.

Definition thumb_ok (m : Map) : Prop :=
  if _S then exists t, _thumbnail m = Some t /\ is_words t /\ _nbucket m <= 64 * zlen t /\
                 forall i, 0 <= i < _nbucket m -> bit t i = valid_at m i
  else _thumbnail m = None.

Record wf (m : Map) : Prop := mkWf {
  wf_nb : exists k, 3 <= k <= 40 /\ _nbucket m = 2 ^ k;
  wf_lf : 10 <= _load_factor m <= 100;
  wf_at : forall i, 0 <= i < _nbucket m -> exists b, bucket_at m i = Some b /\ bucket_ok b;
  wf_end : bucket_at m (_nbucket m) = Some (mkBucket (Some []) None);
  wf_thumb : thumb_ok m }.

Definition size_is (n : Z) (g : gmap K V) : Prop := n = Z.of_nat (size g) /\ n <= 2 ^ 35.

Definition bucket_holds (m : Map) (g : gmap K V) (i : Z) (l : list (K * V)) : Prop :=
  NoDup l.*1 /\ forall k v, (k, v) ∈ l <-> g !! k = Some v /\ hix m k = i.

Record Repr (m : Map) (g : gmap K V) : Prop := mkRepr {
  Repr_wf : wf m;
  Repr_size : size_is (_size m) g;
  Repr_at : forall i b, 0 <= i < _nbucket m -> bucket_at m i = Some b -> bucket_holds m g i (blist b) }.

Lemma nb_bounds m : wf m -> 8 <= _nbucket m <= 2 ^ 40.
Proof.
  intros Hwf. destruct (wf_nb _ Hwf) as (k & Hk & ->). split.
  - change 8 with (2 ^ 3). apply Z.pow_le_mono_r; lia.
  - apply Z.pow_le_mono_r; lia.
Qed.

Lemma hix_range m k : wf m -> 0 <= hix m k < _nbucket m.
Proof.
  intros Hwf. pose proof (nb_bounds m Hwf). destruct (wf_nb _ Hwf) as (e & He & E).
  unfold hix. rewrite E in *. rewrite flatmap_mod_eq by lia. apply Z.mod_pos_bound. lia.
Qed.

Lemma wf_init m : wf m -> initialized m = true.
Proof.
  intros Hwf. unfold initialized. pose proof (wf_end m Hwf) as E. unfold bucket_at in E.
  destruct (_buckets m); [done|]. by cbn in E.
Qed.

(** *** The array *)

Definition setb (m : Map) (i : Z) (b : Bucket) : option (list (option Bucket)) :=
  (fun bs => <[Z.to_nat i := Some b]> bs) <$> _buckets m.

Definition map_at (bs : option (list (option (@Bucket K V)))) (i : Z) : option Bucket :=
  bs ← bs; b ← bs !! Z.to_nat i; b.
Arguments map_at : simpl never.

Lemma bucket_at_map (m : Map) i : bucket_at m i = map_at (_buckets m) i.
Proof. done. Qed.

Lemma map_at_set (bs : list (option (@Bucket K V))) i j b :
  0 <= i -> 0 <= j -> (Z.to_nat i < length bs)%nat ->
  map_at (Some (<[Z.to_nat i := Some b]> bs)) j = if decide (j = i) then Some b else map_at (Some bs) j.
Proof.
  intros Hi Hj Hl. unfold map_at. cbn. destruct (decide (j = i)) as [->|Hne].
  - by rewrite list_lookup_insert_eq.
  - by rewrite list_lookup_insert_ne by lia.
Qed.

Lemma setb_at (m : Map) i j b b0 :
  bucket_at m i = Some b0 -> 0 <= i -> 0 <= j ->
  map_at (setb m i b) j = if decide (j = i) then Some b else bucket_at m j.
Proof.
  intros E Hi Hj. unfold setb, bucket_at in *. destruct (_buckets m) as [bs|]; [|done].
  cbn in *. destruct (bs !! Z.to_nat i) as [x|] eqn:Ex; [|done].
  apply (map_at_set bs i j b Hi Hj). by eapply lookup_lt_Some.
Qed.

Lemma set_bucket_eq (m : Map) i b b0 :
  bucket_at m i = Some b0 -> set_bucket m i b = Some (with_buckets m (setb m i b)).
Proof.
  intros E. unfold set_bucket, setb, bucket_at in *. destruct (_buckets m) as [bs|]; [|done]. cbn in *.
  destruct (bs !! Z.to_nat i) as [x|] eqn:Ex; [|done]. rewrite decide_True; [done|].
  by eapply lookup_lt_Some.
Qed.

Lemma set_bucket_parts (m : Map) i b b0 n t :
  bucket_at m i = Some b0 ->
  set_bucket (mkFlatMap n (_nbucket m) (_buckets m) t (_load_factor m)) i b =
    Some (mkFlatMap n (_nbucket m) (setb m i b) t (_load_factor m)).
Proof. exact (set_bucket_eq (mkFlatMap n (_nbucket m) (_buckets m) t (_load_factor m)) i b b0). Qed.

(** A new bucket at [i], a new thumbnail and size: still well formed. *)
Lemma wf_update m i b t n :
  wf m -> 0 <= i < _nbucket m -> bucket_ok b ->
  thumb_ok (mkFlatMap n (_nbucket m) (setb m i b) t (_load_factor m)) ->
  wf (mkFlatMap n (_nbucket m) (setb m i b) t (_load_factor m)).
Proof.
  intros Hwf Hi Hb Ht. destruct (wf_at m Hwf i Hi) as (b0 & Eb0 & _).
  pose proof (nb_bounds m Hwf). split; cbn; try apply Hwf; [| |done].
  - intros j Hj. rewrite bucket_at_map. cbn. rewrite (setb_at m i j b b0) by (done || lia).
    destruct (decide (j = i)); [by eauto|]. by apply Hwf.
  - rewrite bucket_at_map. cbn. rewrite (setb_at m i _ b b0) by (done || lia).
    rewrite decide_False by lia. apply Hwf.
Qed.

(** The thumbnail when the validity of bucket [i] becomes that of [b]. *)
Lemma thumb_update m i b t' n :
  wf m -> 0 <= i < _nbucket m ->
  match _thumbnail m, t' with
  | Some t, Some t' => is_words t' /\ zlen t' = zlen t /\
      forall j, 0 <= j < _nbucket m -> bit t' j = if decide (j = i) then is_valid b else bit t j
  | None, None => True
  | _, _ => False
  end ->
  thumb_ok (mkFlatMap n (_nbucket m) (setb m i b) t' (_load_factor m)).
Proof.
  intros Hwf Hi Ht. pose proof (wf_thumb m Hwf) as Hth. unfold thumb_ok in *. cbn.
  destruct (wf_at m Hwf i Hi) as (b0 & Eb0 & _). destruct _S.
  - destruct Hth as (t & Et & Hw & Hz & Hbit). rewrite Et in Ht. destruct t' as [t'|]; [|done].
    destruct Ht as (Hw' & Hz' & Hb'). exists t'. split; [done|]. split; [done|].
    split; [lia|]. intros j Hj. rewrite Hb' by lia. unfold valid_at.
    rewrite bucket_at_map. cbn. rewrite (setb_at m i j b b0) by (done || lia).
    destruct (decide (j = i)); [done|]. by apply Hbit.
  - rewrite Hth in Ht. by destruct t'.
Qed.

(** Only the elements of key [k]'s bucket change. *)
Lemma Repr_update m g g' k b t n :
  Repr m g -> bucket_ok b ->
  thumb_ok (mkFlatMap n (_nbucket m) (setb m (hix m k) b) t (_load_factor m)) ->
  NoDup (blist b).*1 ->
  (forall k' v', (k', v') ∈ blist b <-> g' !! k' = Some v' /\ hix m k' = hix m k) ->
  (forall k', k' <> k -> g' !! k' = g !! k') ->
  size_is n g' ->
  Repr (mkFlatMap n (_nbucket m) (setb m (hix m k) b) t (_load_factor m)) g'.
Proof.
  intros HR Hb Ht Hnd Hin Hg Hn. pose proof (Repr_wf _ _ HR) as Hwf.
  pose proof (hix_range m k Hwf) as Hi.
  destruct (wf_at m Hwf _ Hi) as (b0 & Eb0 & _).
  split; [by apply wf_update|done|]. cbn. intros j bj Hj Ej.
  rewrite bucket_at_map in Ej. cbn in Ej. rewrite (setb_at m _ j b b0) in Ej by (done || lia).
  destruct (decide (j = hix m k)) as [->|Hne].
  - simplify_eq. split; [done|]. exact Hin.
  - destruct (Repr_at _ _ HR j bj Hj Ej) as [Hd Hm]. split; [done|]. intros k' v'. rewrite Hm.
    unfold hix at 2. cbn. fold (hix m k'). split; intros [E1 E2].
    + split; [|done]. rewrite Hg; [done|]. intros ->. lia.
    + split; [|done]. rewrite <-Hg; [done|]. intros ->. unfold hix in *. lia.
Qed.

(** The bucket of a key. *)
Lemma Repr_bucket m g k :
  Repr m g -> exists b, bucket_at m (hix m k) = Some b /\ bucket_ok b /\
    bucket_holds m g (hix m k) (blist b).
Proof.
  intros HR. pose proof (Repr_wf _ _ HR) as Hwf. pose proof (hix_range m k Hwf) as Hi.
  destruct (wf_at m Hwf _ Hi) as (b & Eb & Hb). exists b. split; [done|]. split; [done|].
  by apply (Repr_at _ _ HR).
Qed.

Lemma holds_None m g k l :
  bucket_holds m g (hix m k) l -> k ∉ l.*1 -> g !! k = None.
Proof.
  intros [_ Hm] Hk. destruct (g !! k) as [v|] eqn:E; [|done]. exfalso. apply Hk.
  apply list_elem_of_fmap. exists (k, v). split; [done|]. by apply Hm.
Qed.

Lemma holds_Some m g k v l :
  bucket_holds m g (hix m k) l -> (k, v) ∈ l -> g !! k = Some v.
Proof. intros [_ Hm] Hk. by apply Hm. Qed.

Lemma find_chain_spec k (l : list (K * V)) d :
  match find_chain _eql k l d with
  | Some r => exists j e, r = (d + j)%nat /\ l !! j = Some e /\ e.1 = k
  | None => k ∉ l.*1
  end.
Proof.
  revert d. induction l as [|e l IH]; intros d; cbn; [apply not_elem_of_nil|].
  destruct (_eql e.1 k) eqn:E.
  - apply eql_true in E. exists O, e. split; [lia|]. done.
  - specialize (IH (S d)). destruct (find_chain _eql k l (S d)) as [r|].
    + destruct IH as (j & e' & -> & Hj & He). exists (S j), e'. split; [lia|]. done.
    + apply not_elem_of_cons. split; [|done]. intros ->.
      rewrite (proj2 (eql_true _ _) eq_refl) in E. done.
Qed.

Lemma node_element_blist b d :
  bucket_ok b -> is_Some (next b) -> node_element b d = blist b !! d.
Proof.
  intros [->|(ch & e & ->)] [x Hx]; [done|]. destruct d; done.
Qed.

(** *** seek *)

Lemma seek_spec m g k :
  Repr m g ->
  exists r, seek _hashfn _eql m k = Some r /\
    match r with
    | None => g !! k = None
    | Some p => p.1 = hix m k /\ exists v, load m p = Some (k, v) /\ g !! k = Some v
    end.
Proof.
  intros HR. destruct (Repr_bucket m g k HR) as (b & Eb & Hb & Hh).
  unfold seek. rewrite wf_init by apply HR. cbn [negb]. fold (hix m k). rewrite Eb. cbn [mbind option_bind].
  destruct Hb as [->|(ch & e & ->)].
  { eexists. split; [done|]. eapply holds_None; [exact Hh|]. apply not_elem_of_nil. }
  cbn [next element mbind option_bind]. pose proof (find_chain_spec k (e :: ch) 0) as Hf.
  cbn [find_chain] in Hf. assert (forall d e', (e :: ch) !! d = Some e' -> e'.1 = k ->
    exists v, load m (hix m k, d) = Some (k, v) /\ g !! k = Some v) as Hload.
  { intros d e' Hd <-. exists e'.2. unfold load. cbn [fst snd]. rewrite Eb. cbn [mbind option_bind].
    rewrite node_element_blist by first [by eexists | right; eauto]. split.
    - cbn. rewrite Hd. by destruct e'.
    - eapply holds_Some; [exact Hh|]. apply list_elem_of_lookup. exists d.
      cbn. rewrite Hd. by destruct e'. }
  destruct (_eql e.1 k) eqn:E.
  - eexists. split; [done|]. cbn beta iota. split; [done|]. apply (Hload O e); [done|].
    by apply eql_true.
  - destruct (find_chain _eql k ch 1) as [r|].
    + destruct Hf as (j & e' & -> & Hj & He). eexists. split; [done|]. cbn [fmap option_fmap option_map fst].
      split; [done|]. by apply (Hload j e').
    + eexists. split; [done|]. cbn. by eapply holds_None.
Qed.

(** *** erase *)

(** What erase() returns. *)
Definition found (o : option V) : Z := match o with Some _ => 1 | None => 0 end.

Definition same_shape (m m' : Map) : Prop :=
  _nbucket m' = _nbucket m /\ _load_factor m' = _load_factor m.

(** The thumbnail after the bit of bucket [i] is made [v]. *)
Lemma on_thumbnail_spec m i f (v : bool) :
  wf m -> 0 <= i < _nbucket m ->
  (forall t, is_words t -> i < 64 * zlen t -> exists t', f t = Some t' /\ is_words t' /\ zlen t' = zlen t /\
     forall j, 0 <= j -> bit t' j = if decide (j = i) then v else bit t j) ->
  exists t', (forall m' : Map, _thumbnail m' = _thumbnail m -> on_thumbnail _S f m' = Some (with_thumbnail m' t')) /\
    match _thumbnail m, t' with
    | Some t, Some t' => is_words t' /\ zlen t' = zlen t /\
        forall j, 0 <= j < _nbucket m -> bit t' j = if decide (j = i) then v else bit t j
    | None, None => True
    | _, _ => False
    end.
Proof.
  intros Hwf Hi Hf. pose proof (wf_thumb m Hwf) as Ht. unfold thumb_ok in Ht. unfold on_thumbnail.
  destruct _S.
  - destruct Ht as (t & Et & Hw & Hz & _). destruct (Hf t Hw) as (t' & E & Hw' & Hz' & Hb); [lia|].
    exists (Some t'). rewrite Et. split.
    + intros m' ->. cbn. by rewrite E.
    + split; [done|]. split; [done|]. intros j Hj. apply Hb. lia.
  - exists None. rewrite Ht. split; [|done]. intros m' E. destruct m'. cbn in *. by subst.
Qed.

Lemma thumb_keep m i b n :
  wf m -> 0 <= i < _nbucket m -> is_valid b = valid_at m i ->
  thumb_ok (mkFlatMap n (_nbucket m) (setb m i b) (_thumbnail m) (_load_factor m)).
Proof.
  intros Hwf Hi Hb. apply thumb_update; [done|done|]. pose proof (wf_thumb m Hwf) as Ht.
  unfold thumb_ok in Ht. destruct _S; [|by rewrite Ht].
  destruct Ht as (t & -> & Hw & Hz & Hbit). split; [done|]. split; [done|]. intros j Hj.
  destruct (decide (j = i)) as [->|]; [|done]. by rewrite Hbit, Hb.
Qed.

Lemma erase_chain_spec k (l : list (K * V)) :
  match erase_chain _eql k l with
  | Some (l', v) => exists l1 l2, l = l1 ++ (k, v) :: l2 /\ l' = l1 ++ l2
  | None => k ∉ l.*1
  end.
Proof.
  induction l as [|e l IH]; cbn; [apply not_elem_of_nil|]. destruct (_eql e.1 k) eqn:E.
  - apply eql_true in E. exists [], l. by destruct e; cbn in *; subst.
  - destruct (erase_chain _eql k l) as [[l' v]|]; cbn.
    + destruct IH as (l1 & l2 & -> & ->). by exists (e :: l1), l2.
    + apply not_elem_of_cons. split; [|done]. intros ->. by rewrite (proj2 (eql_true _ _) eq_refl) in E.
Qed.

Lemma holds_delete m g k v l1 l2 :
  bucket_holds m g (hix m k) (l1 ++ (k, v) :: l2) ->
  g !! k = Some v /\ NoDup (l1 ++ l2).*1 /\
  forall k' v', (k', v') ∈ l1 ++ l2 <-> delete k g !! k' = Some v' /\ hix m k' = hix m k.
Proof.
  intros [Hd Hm]. rewrite fmap_app, fmap_cons in Hd. cbn [fst] in Hd.
  rewrite <-Permutation_middle in Hd. apply NoDup_cons in Hd as [Hk Hd]. rewrite <-fmap_app in Hk, Hd.
  split; [apply Hm, elem_of_app; right; by left|]. split; [done|]. intros k' v'.
  assert ((k', v') ∈ l1 ++ l2 <-> k' <> k /\ (k', v') ∈ l1 ++ (k, v) :: l2) as ->.
  { rewrite !elem_of_app, elem_of_cons. split.
    - intros Hin. split; [|tauto]. intros ->. apply Hk. apply list_elem_of_fmap.
      exists (k, v'). split; [done|]. by apply elem_of_app.
    - intros (Hne & [Hin|[Heq|Hin]]); [by left| |by right]. by injection Heq. }
  rewrite Hm, lookup_delete_Some. split; [intros (H1 & H2 & H3)|intros ((H1 & H2) & H3)]; split_and!; congruence.
Qed.

Lemma size_delete_1 (g : gmap K V) k v n :
  g !! k = Some v -> size_is n g -> size_is (u64 (n - 1)) (delete k g).
Proof.
  intros E [-> Hle]. assert (size (delete k g) = Nat.pred (size g)) as Es by (apply map_size_delete_Some; by rewrite E).
  assert (size g <> 0)%nat as Hne.
  { intros E0. apply map_size_empty_inv in E0. subst. by rewrite lookup_empty in E. }
  unfold size_is. rewrite wrapu_small by lia. lia.
Qed.

(** A bucket without the element of [k]. *)
Lemma Repr_delete m g k v l1 l2 b t n :
  Repr m g -> bucket_holds m g (hix m k) (l1 ++ (k, v) :: l2) -> bucket_ok b -> blist b = l1 ++ l2 ->
  thumb_ok (mkFlatMap n (_nbucket m) (setb m (hix m k) b) t (_load_factor m)) -> n = u64 (_size m - 1) ->
  g !! k = Some v /\
  Repr (mkFlatMap n (_nbucket m) (setb m (hix m k) b) t (_load_factor m)) (delete k g).
Proof.
  intros HR Hh Hb Hl Ht ->. destruct (holds_delete m g k v l1 l2 Hh) as (Eg & Hd & Hm).
  split; [done|]. eapply Repr_update; try done.
  - by rewrite Hl.
  - by rewrite Hl.
  - intros k' Hne. by rewrite lookup_delete_ne by done.
  - by eapply size_delete_1, HR.
Qed.

Lemma erase_spec m g k :
  Repr m g ->
  exists m', erase _hashfn _eql _S m k = Some (m', found (g !! k), g !! k) /\
    Repr m' (delete k g) /\ same_shape m m'.
Proof.
  intros HR. pose proof (Repr_wf _ _ HR) as Hwf. pose proof (hix_range m k Hwf) as Hi.
  destruct (Repr_bucket m g k HR) as (b & Eb & Hb & Hh).
  unfold erase. rewrite wf_init by apply HR. cbn [negb]. fold (hix m k). rewrite Eb. cbn [mbind option_bind].
  assert (g !! k = None -> exists m', Some (m, 0, None) = Some (m', found (g !! k), g !! k) /\
    Repr m' (delete k g) /\ same_shape m m') as Hnone.
  { intros E. rewrite E. exists m. by rewrite delete_id by done. }
  destruct Hb as [->|(ch & e & ->)].
  { apply Hnone. eapply holds_None; [exact Hh|]. apply not_elem_of_nil. }
  cbn [next element mbind option_bind]. unfold blist in Hh. cbn [next element] in Hh.
  destruct (_eql e.1 k) eqn:E.
  - apply eql_true in E. destruct e as [k' v]. cbn in E. subst k'. cbn [snd].
    destruct ch as [|p ch].
    + rewrite (set_bucket_eq _ _ _ _ Eb). cbn [mbind option_bind].
      destruct (on_thumbnail_spec m (hix m k) (fun t => bit_array_unset t (hix m k)) false Hwf Hi)
        as (t' & Et & Ht').
      { intros t Hw Hz. destruct (unset_spec t (hix m k) Hw) as (t' & -> & H1 & H2 & H3); [lia|].
        exists t'. split_and!; [done..|]. intros j Hj. rewrite H3 by done.
        by destruct (Z.eqb_spec j (hix m k)), (decide (j = hix m k)). }
      rewrite Et by done. cbn [mbind option_bind].
      destruct (Repr_delete m g k v [] [] invalid t' (u64 (_size m - 1)) HR Hh) as [Eg HR'];
        [by left|done|by apply thumb_update|done|].
      rewrite Eg. eexists. split; [reflexivity|]. by split.
    + rewrite (set_bucket_eq _ _ _ _ Eb). cbn [mbind option_bind].
      destruct (Repr_delete m g k v [] (p :: ch) (mkBucket (Some ch) (Some p)) (_thumbnail m)
        (u64 (_size m - 1)) HR Hh) as [Eg HR']; [by right; eauto|done| |done|].
      { apply thumb_keep; [done..|]. unfold valid_at. by rewrite Eb. }
      rewrite Eg. eexists. split; [reflexivity|]. by split.
  - pose proof (erase_chain_spec k ch) as Hc. destruct (erase_chain _eql k ch) as [[ch' v]|].
    + destruct Hc as (l1 & l2 & -> & ->). rewrite (set_bucket_eq _ _ _ _ Eb). cbn [mbind option_bind].
      destruct (Repr_delete m g k v (e :: l1) l2 (mkBucket (Some (l1 ++ l2)) (Some e)) (_thumbnail m)
        (u64 (_size m - 1)) HR Hh) as [Eg HR']; [by right; eauto|done| |done|].
      { apply thumb_keep; [done..|]. unfold valid_at. by rewrite Eb. }
      rewrite Eg. eexists. split; [reflexivity|]. by split.
    + apply Hnone. eapply holds_None; [exact Hh|]. cbn. apply not_elem_of_cons. split; [|done].
      intros ->. by rewrite (proj2 (eql_true _ _) eq_refl) in E.
Qed.

(** *** init and clear *)

Lemma for_range_ind {S} (P : Z -> S -> Prop) f n : forall i s,
  P i s ->
  (forall j s, i <= j < i + Z.of_nat n -> P j s -> exists s', f j s = Some s' /\ P (j + 1) s') ->
  exists s', for_range f n i s = Some s' /\ P (i + Z.of_nat n) s'.
Proof.
  induction n as [|n IH]; intros i s Hs Hf; cbn [for_range].
  - exists s. by replace (i + Z.of_nat 0) with i by lia.
  - destruct (Hf i s) as (s' & -> & Hs'); [lia|done|]. cbn [mbind option_bind].
    destruct (IH (i + 1) s' Hs') as (s'' & E & HP).
    { intros j s0 Hj. apply Hf. lia. }
    exists s''. split; [done|]. by replace (i + Z.of_nat (Datatypes.S n)) with (i + 1 + Z.of_nat n) by lia.
Qed.

(** Bytes that malloc must have for a map of [nb] buckets. *)
Definition mem_ok (nb : Z) : bool :=
  alloc_ok (sizeof_Bucket * (nb + 1)) && (negb _S || alloc_ok ((nb + 63) / 64 * 8)).

Lemma alloc_buckets_eq nb : 0 <= nb <= 2 ^ 40 ->
  alloc_buckets sizeof_Bucket alloc_ok nb =
    if alloc_ok (sizeof_Bucket * (nb + 1)) then Some (replicate (Z.to_nat (nb + 1)) (@None (@Bucket K V))) else None.
Proof.
  intros Hn. unfold alloc_buckets. rewrite (wrapu_small 64 (nb + 1)) by lia.
  rewrite wrapu_small by nia. destruct (alloc_ok _); [|done]. do 3 f_equal.
  rewrite Z.mul_comm. apply Z.div_mul. lia.
Qed.

Lemma thumbnail_malloc_eq nb : 8 <= nb <= 2 ^ 40 ->
  match thumbnail_malloc alloc_ok junk nb with
  | Some t => alloc_ok ((nb + 63) / 64 * 8) = true /\ is_words t /\ zlen t = (nb + 63) / 64
  | None => alloc_ok ((nb + 63) / 64 * 8) = false
  end.
Proof.
  intros Hn. unfold thumbnail_malloc, bit_array_malloc. rewrite (proj2 (Z.eqb_neq nb 0)) by lia.
  cbn [mbind option_bind]. rewrite (wrapu_small 64 (nb + 63)) by lia.
  destruct (alloc_ok _); [|done]. split; [done|]. split.
  - apply Forall_fmap, Forall_forall. intros x _. cbn. apply wrapu_range. lia.
  - unfold zlen. rewrite length_fmap, length_seq. pose proof (Z.div_pos (nb + 63) 64). lia.
Qed.

(** The thumbnail that malloc and bit_array_clear make: no bit is set. *)
Lemma clear_thumb t nb : 8 <= nb -> is_words t -> nb <= 64 * zlen t ->
  exists t', bit_array_clear t nb = Some t' /\ is_words t' /\ zlen t' = zlen t /\
    forall i, 0 <= i < nb -> bit t' i = false.
Proof.
  intros Hn Hw Hz. destruct (bit_clear_spec t nb Hw ltac:(lia)) as (t' & -> & H1 & H2 & H3).
  exists t'. split_and!; [done..|]. intros i Hi. rewrite H3 by lia.
  by destruct (Z.leb_spec nb i); [lia|].
Qed.

Lemma words_enough nb : 0 <= nb -> nb <= 64 * ((nb + 63) / 64).
Proof. intros. pose proof (Z.div_mod (nb + 63) 64). pose proof (Z.mod_pos_bound (nb + 63) 64). lia. Qed.

(** A map whose buckets are all invalid is empty. *)
Lemma Repr_empty (m : Map) :
  (exists k, 3 <= k <= 40 /\ _nbucket m = 2 ^ k) -> 10 <= _load_factor m <= 100 -> _size m = 0 ->
  (forall i, 0 <= i < _nbucket m -> bucket_at m i = Some invalid) ->
  bucket_at m (_nbucket m) = Some (mkBucket (Some []) None) ->
  (if _S then exists t, _thumbnail m = Some t /\ is_words t /\ _nbucket m <= 64 * zlen t /\
                 forall i, 0 <= i < _nbucket m -> bit t i = false
   else _thumbnail m = None) ->
  Repr m ∅.
Proof.
  intros Hk Hlf Hs Hb He Ht. split.
  - split; [done|done| |done|].
    + intros i Hi. rewrite Hb by done. eexists. split; [done|]. by left.
    + unfold thumb_ok. destruct _S; [|done]. destruct Ht as (t & E & Hw & Hz & Hbit).
      exists t. split_and!; [done..|]. intros i Hi. unfold valid_at. rewrite Hbit by done.
      by rewrite Hb.
  - rewrite Hs. split; [by rewrite map_size_empty|lia].
  - intros i b Hi E. rewrite Hb in E by done. simplify_eq. split; [constructor|].
    intros k v. split; [by intros ?%not_elem_of_nil|]. intros [E _]. by rewrite lookup_empty in E.
Qed.

(** The loop that makes the buckets of a fresh array invalid. *)
Lemma invalidate_loop n (bs : list (option (@Bucket K V))) (m : Map) :
  _buckets m = Some bs -> (n < length bs)%nat ->
  exists bs', for_range (fun i m => set_bucket m i invalid) n 0 m = Some (with_buckets m (Some bs')) /\
    length bs' = length bs /\
    forall i, 0 <= i < Z.of_nat n -> map_at (Some bs') i = Some invalid.
Proof.
  intros Em Hn. destruct (for_range_ind (fun j m' => exists bs', m' = with_buckets m (Some bs') /\
    length bs' = length bs /\ forall i, 0 <= i < j -> map_at (Some bs') i = Some invalid)
    (fun i m => set_bucket m i invalid) n 0 m) as (m' & E & bs' & -> & H1 & H2).
  - exists bs. split; [destruct m; cbn in *; by subst|]. split; [done|]. lia.
  - intros j m' Hj (bs' & -> & H1 & H2). unfold set_bucket. cbn [_buckets with_buckets mbind option_bind].
    rewrite decide_True by lia. eexists. split; [done|]. eexists. split; [done|].
    split; [by rewrite length_insert|]. intros i Hi. rewrite map_at_set by lia.
    destruct (decide (i = j)); [done|]. apply H2. lia.
  - rewrite E. exists bs'. done.
Qed.

Lemma init_spec (m : Map) nbucket load_factor :
  initialized m = false -> _thumbnail m = None -> 0 <= nbucket <= 2 ^ 40 ->
  exists m' r, init _S sizeof_Bucket alloc_ok junk m nbucket load_factor = Some (m', r) /\
    if negb (nbucket =? 0) && (10 <=? load_factor) && (load_factor <=? 100) && mem_ok (flatmap_round nbucket)
    then r = 0 /\ Repr m' ∅ /\ _nbucket m' = flatmap_round nbucket /\ _load_factor m' = load_factor
    else r = -1.
Proof.
  intros Hm Ht Hn. unfold init. rewrite Hm. destruct (Z.eqb_spec nbucket 0) as [|Hn0]; cbn [negb andb]; [by eauto|].
  assert ((load_factor <? 10) || (100 <? load_factor) = negb ((10 <=? load_factor) && (load_factor <=? 100))) as ->.
  { destruct (Z.ltb_spec load_factor 10), (Z.ltb_spec 100 load_factor), (Z.leb_spec 10 load_factor),
      (Z.leb_spec load_factor 100); done || lia. }
  destruct ((10 <=? load_factor) && (load_factor <=? 100)) eqn:Elf; cbn [negb andb]; [|by eauto].
  apply andb_true_iff in Elf as [Hl1%Z.leb_le Hl2%Z.leb_le].
  destruct (flatmap_round_spec nbucket) as (k & Hk & Enb & Hle & Hgt); [lia|].
  set (nb := flatmap_round nbucket) in *.
  assert (k <= 40) as Hk40.
  { destruct (Z.le_gt_cases k 40) as [|Hk41]; [done|]. destruct (Z.le_gt_cases nbucket 8) as [H8|H8].
    - exfalso. unfold nb, flatmap_round in Enb. rewrite (proj2 (Z.leb_le _ _) H8) in Enb.
      assert (2 ^ 41 <= 2 ^ k) by (apply Z.pow_le_mono_r; lia). lia.
    - specialize (Hgt H8). assert (2 ^ 40 <= 2 ^ (k - 1)) by (apply Z.pow_le_mono_r; lia). lia. }
  assert (8 <= nb <= 2 ^ 40) as Hnb.
  { rewrite Enb. split; [change 8 with (2 ^ 3)|]; apply Z.pow_le_mono_r; lia. }
  rewrite alloc_buckets_eq by lia. unfold mem_ok. destruct (alloc_ok (sizeof_Bucket * (nb + 1))); cbn [andb]; [|by eauto].
  change (initialized (mkFlatMap 0 nb (Some (replicate (Z.to_nat (nb + 1)) (@None (@Bucket K V)))) (_thumbnail m) load_factor))
    with true. cbn [negb].
  edestruct (invalidate_loop (Z.to_nat nb)) as (bs' & -> & Hlen & Hinv); [done|rewrite length_replicate; lia|].
  rewrite length_replicate in Hlen. unfold set_bucket. cbn [_buckets with_buckets mbind option_bind].
  rewrite decide_True by lia. cbn [mbind option_bind].
  set (bs := <[Z.to_nat nb := Some (mkBucket (Some []) None)]> bs').
  assert (forall i, 0 <= i <= nb -> map_at (Some bs) i =
    Some (if decide (i = nb) then mkBucket (Some []) None else invalid)) as Hat.
  { intros i Hi. unfold bs. rewrite map_at_set by lia. destruct (decide (i = nb)); [done|]. apply Hinv. lia. }
  assert (forall t, (if _S then exists t', t = Some t' /\ is_words t' /\ nb <= 64 * zlen t' /\
                 forall i, 0 <= i < nb -> bit t' i = false else t = None) ->
    Repr (mkFlatMap 0 nb (Some bs) t load_factor) ∅) as HR.
  { intros t Hth. apply Repr_empty; cbn; [exists k; split; [lia|done]|done|done| | |done].
    - intros i Hi. rewrite bucket_at_map. cbn. rewrite Hat by lia. by rewrite decide_False by lia.
    - rewrite bucket_at_map. cbn. rewrite Hat by lia. by rewrite decide_True by done. }
  pose proof (thumbnail_malloc_eq nb Hnb) as Htm. destruct _S; cbn [negb orb].
  - destruct (thumbnail_malloc alloc_ok junk nb) as [t|].
    + destruct Htm as (-> & Hw & Hz). pose proof (words_enough nb ltac:(lia)).
      destruct (clear_thumb t nb) as (t' & -> & H1 & H2 & H3); [lia|done|lia|]. cbn [mbind option_bind].
      eexists _, _. split; [done|]. split; [done|]. split; [|done]. apply HR.
      exists t'. split_and!; [done..|lia|done].
    + rewrite Htm. eauto.
  - eexists _, _. split; [done|]. split; [done|]. split; [|done]. apply HR. done.
Qed.

Lemma map_clear_spec m g :
  Repr m g -> exists m', clear m = Some m' /\ Repr m' ∅ /\ same_shape m m'.
Proof.
  intros HR. pose proof (Repr_wf _ _ HR) as Hwf. pose proof (nb_bounds m Hwf) as Hnb.
  unfold clear. destruct (Z.eqb_spec (_size m) 0) as [E0|Hne].
  { exists m. split; [done|]. split; [|done]. destruct (Repr_size _ _ HR) as [Es _].
    replace ∅ with g; [done|]. apply map_size_empty_inv. lia. }
  change (initialized (with_size m 0)) with (initialized m). rewrite (wf_init m Hwf).
  change (_nbucket (with_size m 0)) with (_nbucket m).
  destruct (for_range_ind (fun j m' => exists bs, m' = with_buckets (with_size m 0) (Some bs) /\
    (forall i, 0 <= i < j -> map_at (Some bs) i = Some invalid) /\
    (forall i, j <= i <= _nbucket m -> map_at (Some bs) i = bucket_at m i))
    (fun i m => b ← bucket_at m i; if is_valid b then set_bucket m i invalid else Some m)
    (Z.to_nat (_nbucket m)) 0 (with_size m 0)) as (m' & E & bs & -> & H1 & H2).
  - pose proof (wf_init m Hwf) as Hi. unfold initialized in Hi. unfold bucket_at, map_at.
    destruct m as [sz nb [bs|] th lf]; [|done]. cbn. exists bs. split; [done|]. split; [lia|]. done.
  - intros j m' Hj (bs & -> & H1 & H2). rewrite bucket_at_map. cbn [_buckets with_buckets].
    assert (map_at (Some bs) j = bucket_at m j) as Ej by (apply H2; lia).
    rewrite Ej. destruct (wf_at m Hwf j) as (b & Eb & Hb); [lia|]. rewrite Eb. cbn [mbind option_bind].
    assert (Z.to_nat j < length bs)%nat as Hlen.
    { rewrite Eb in Ej. unfold map_at in Ej. cbn in Ej. destruct (bs !! Z.to_nat j) eqn:Ex; [|done].
      by eapply lookup_lt_Some. }
    destruct (is_valid b) eqn:Ev.
    + unfold set_bucket. cbn [_buckets with_buckets mbind option_bind]. rewrite decide_True by done.
      eexists. split; [done|]. eexists. split; [done|]. split; intros i Hi; rewrite map_at_set by lia.
      * destruct (decide (i = j)); [by eauto|]. apply H1. lia.
      * rewrite decide_False by lia. apply H2. lia.
    + eexists. split; [done|]. exists bs. split; [done|]. split; [|intros i Hi; apply H2; lia].
      intros i Hi. destruct (decide (i = j)) as [->|]; [|apply H1; lia].
      rewrite Ej, Eb. destruct Hb as [->|(ch & e & ->)]; done.
  - rewrite E. cbn [mbind option_bind]. rewrite Z.add_0_l, Z2Nat.id in * by lia.
    assert (forall t, (if _S then exists t', t = Some t' /\ is_words t' /\ _nbucket m <= 64 * zlen t' /\
                 forall i, 0 <= i < _nbucket m -> bit t' i = false else t = None) ->
      Repr (with_thumbnail (with_buckets (with_size m 0) (Some bs)) t) ∅) as Hdone.
    { intros t Ht. apply Repr_empty; cbn; try apply Hwf; [done|exact H1| |done].
      rewrite bucket_at_map. cbn. rewrite H2 by lia. apply Hwf. }
    pose proof (wf_thumb m Hwf) as Ht. unfold thumb_ok in Ht. cbn [_thumbnail with_buckets with_size].
    destruct _S.
    + destruct Ht as (t & -> & Hw & Hz & _). cbn [_nbucket with_buckets with_size].
      destruct (clear_thumb t (_nbucket m)) as (t' & -> & T1 & T2 & T3); [lia|done|done|].
      cbn [mbind option_bind]. eexists. split; [done|]. split; [|done]. apply Hdone.
      exists t'. split_and!; [done..|lia|done].
    + rewrite Ht. eexists. split; [done|]. split; [|done]. specialize (Hdone None eq_refl).
      unfold with_thumbnail, with_buckets, with_size in *. cbn in *. by rewrite Ht.
Qed.

(** *** Iteration: every element once, bucket after bucket *)

(** The iterators of a sparse map want more than one word of bits. *)
Definition iter_ok (m : Map) : Prop := _S = true -> 64 <= _nbucket m.

Definition blist_at (m : Map) (i : Z) : list (K * V) :=
  match bucket_at m i with Some b => blist b | None => [] end.

(** The elements of the [n] buckets from [i] on. *)
Fixpoint contents (m : Map) (n : nat) (i : Z) : list (K * V) :=
  match n with O => [] | Datatypes.S n => blist_at m i ++ contents m n (i + 1) end.

(** [it] has [l] still to visit. *)
Definition rest (m : Map) (it : Iter) (l : list (K * V)) : Prop :=
  exists d, _node it = Some (_pos it, d) /\
    ((_pos it = _nbucket m /\ d = O /\ l = []) \/
     (0 <= _pos it < _nbucket m /\ (d < length (blist_at m (_pos it)))%nat /\
      l = drop d (blist_at m (_pos it)) ++ contents m (Z.to_nat (_nbucket m - _pos it - 1)) (_pos it + 1))).

Lemma is_valid_blist b : bucket_ok b -> is_valid b = negb (bool_decide (blist b = [])).
Proof. by intros [->|(ch & e & ->)]. Qed.

Lemma valid_at_blist m i : wf m -> 0 <= i < _nbucket m ->
  exists b, bucket_at m i = Some b /\ bucket_ok b /\ blist_at m i = blist b /\
    is_valid b = negb (bool_decide (blist_at m i = [])).
Proof.
  intros Hwf Hi. destruct (wf_at m Hwf i Hi) as (b & Eb & Hb). exists b. unfold blist_at. rewrite Eb.
  split_and!; [done..|]. by apply is_valid_blist.
Qed.

Lemma contents_skip m n i j :
  wf m -> 0 <= i -> i + Z.of_nat n <= _nbucket m -> i <= j <= i + Z.of_nat n ->
  (forall k, i <= k < j -> blist_at m k = []) ->
  contents m n i = contents m (Z.to_nat (i + Z.of_nat n - j)) j.
Proof.
  intros Hwf. revert i. induction n as [|n IH]; intros i Hi Hn Hj Hk.
  - replace (Z.to_nat (i + Z.of_nat 0 - j)) with O by lia. done.
  - destruct (decide (j = i)) as [->|Hne].
    + f_equal. lia.
    + cbn [contents]. rewrite Hk by lia. cbn [app]. rewrite IH; [f_equal; lia|lia|lia|lia|].
      intros k Hk'. apply Hk. lia.
Qed.

Lemma rest_at m j :
  wf m -> 0 <= j <= _nbucket m -> (j < _nbucket m -> blist_at m j <> []) ->
  rest m (mkIter (Some (j, O)) j) (contents m (Z.to_nat (_nbucket m - j)) j).
Proof.
  intros Hwf Hj Hne. exists O. split; [done|]. cbn [_pos].
  destruct (decide (j = _nbucket m)) as [->|Hlt].
  - left. split; [done|]. split; [done|]. by rewrite Z.sub_diag.
  - right. specialize (Hne ltac:(lia)). split; [lia|]. split; [destruct (blist_at m j); [done|cbn; lia]|].
    replace (Z.to_nat (_nbucket m - j)) with (Datatypes.S (Z.to_nat (_nbucket m - j - 1))) by lia. done.
Qed.

Lemma find_entry_spec m fuel pos :
  wf m -> 0 <= pos <= _nbucket m -> (Z.to_nat (_nbucket m - pos) < fuel)%nat ->
  exists j, find_entry m fuel pos = Some j /\ pos <= j <= _nbucket m /\
    (forall k, pos <= k < j -> blist_at m k = []) /\ (j < _nbucket m -> blist_at m j <> []).
Proof.
  intros Hwf. revert pos. induction fuel as [|fuel IH]; intros pos Hp Hf; [lia|]. cbn [find_entry].
  destruct (decide (pos = _nbucket m)) as [->|Hlt].
  { rewrite wf_end by done. cbn. eexists. split; [done|]. split_and!; intros; lia. }
  destruct (valid_at_blist m pos Hwf ltac:(lia)) as (b & -> & _ & _ & Ev).
    cbn [mbind option_bind]. rewrite Ev.
  case_bool_decide as E; cbn [negb].
  - destruct (IH (pos + 1)) as (j & -> & Hj & H1 & H2); [lia|lia|]. exists j. split; [done|]. split; [lia|].
    split; [|done]. intros k Hk. destruct (decide (k = pos)) as [->|]; [done|]. apply H1. lia.
  - exists pos. split; [done|]. split; [lia|]. split; [intros; lia|done].
Qed.

Lemma find_valid_spec m pos :
  wf m -> iter_ok m -> 0 <= pos <= _nbucket m ->
  exists it, find_and_set_valid_node _S m pos = Some it /\
    rest m it (contents m (Z.to_nat (_nbucket m - pos)) pos).
Proof.
  intros Hwf Hok Hp. pose proof (nb_bounds m Hwf).
  assert (exists j, (if _S then
           b ← bucket_at m pos;
           if is_valid b then Some pos
           else t ← _thumbnail m; bit_array_first1 t (pos + 1) (_nbucket m)
         else find_entry m (Datatypes.S (Z.to_nat (_nbucket m - pos))) pos) = Some j /\
    pos <= j <= _nbucket m /\
    (forall k, pos <= k < j -> blist_at m k = []) /\ (j < _nbucket m -> blist_at m j <> [])) as (j & E & Hj & H1 & H2).
  { pose proof (wf_thumb m Hwf) as Ht. unfold thumb_ok, iter_ok in *.
    destruct _S; [|apply find_entry_spec; [done|done|lia]].
    destruct (decide (pos = _nbucket m)) as [->|Hlt].
    { rewrite wf_end by done. cbn. eexists. split; [done|]. split_and!; intros; lia. }
    destruct (valid_at_blist m pos Hwf ltac:(lia)) as (b & -> & _ & _ & Ev).
    cbn [mbind option_bind]. rewrite Ev.
    case_bool_decide as E; cbn [negb]; [|exists pos; split; [done|]; split; [lia|]; split; [intros; lia|done]].
    destruct Ht as (t & -> & Hw & Hz & Hbit). cbn [mbind option_bind].
    destruct (wf_nb m Hwf) as (e & He & Enb). specialize (Hok eq_refl).
    assert (_nbucket m = 64 * (_nbucket m / 64)) as Hdiv.
    { assert (6 <= e) by (apply (Z.pow_le_mono_r_iff 2); cbn; lia).
      rewrite Enb. replace e with (6 + (e - 6)) by lia. rewrite Z.pow_add_r by lia. change (2 ^ 6) with 64.
      rewrite Z.mul_comm at 2. rewrite Z.div_mul by lia. done. }
    destruct (first1_spec t (pos + 1) (_nbucket m) Hw) as (r & Er & Hr & R1 & R2); [lia|lia| |].
    { destruct (decide (pos + 1 = _nbucket m)) as [->|].
      - left. rewrite Hdiv, Z.mul_comm. by apply Z.mod_mul.
      - right. apply Z.div_lt_upper_bound; lia. }
    assert (forall k, pos + 1 <= k < _nbucket m -> bit t k = negb (bool_decide (blist_at m k = []))) as Hb.
    { intros k Hk. rewrite Hbit by lia. unfold valid_at.
      by destruct (valid_at_blist m k Hwf ltac:(lia)) as (bk & -> & _ & _ & ->). }
    exists r. split; [done|]. split; [lia|]. split.
    - intros k Hk. destruct (decide (k = pos)) as [->|]; [done|].
      specialize (R1 k ltac:(lia)). rewrite Hb in R1 by lia. by case_bool_decide.
    - intros Hlt'. specialize (R2 Hlt'). rewrite Hb in R2 by lia. by case_bool_decide. }
  unfold find_and_set_valid_node. rewrite E. cbn [mbind option_bind]. eexists. split; [done|].
  rewrite (contents_skip m _ pos j) by (done || lia).
  replace (pos + Z.of_nat (Z.to_nat (_nbucket m - pos)) - j) with (_nbucket m - j) by lia.
  apply rest_at; [done|lia|done].
Qed.

Lemma node_element_at m i d :
  wf m -> 0 <= i < _nbucket m -> (d < length (blist_at m i))%nat ->
  load m (i, d) = blist_at m i !! d /\
  exists b ch, bucket_at m i = Some b /\ next b = Some ch /\ length (blist_at m i) = Datatypes.S (length ch).
Proof.
  intros Hwf Hi Hd. destruct (valid_at_blist m i Hwf Hi) as (b & Eb & Hb & El & _).
  unfold load. cbn [fst snd]. rewrite Eb. cbn [mbind option_bind]. rewrite El in *.
  destruct Hb as [->|(ch & e & ->)]; [cbn in Hd; lia|].
  split; [|by exists (mkBucket (Some ch) (Some e)), ch].
  rewrite node_element_blist; [done|right; eauto|by eexists].
Qed.

Lemma iter_next_spec m it x l :
  wf m -> iter_ok m -> rest m it (x :: l) ->
  iter_deref m it = Some x /\ exists it', iter_next _S m it = Some it' /\ rest m it' l.
Proof.
  intros Hwf Hok (d & En & [(_ & _ & [=])|(Hp & Hd & El)]).
  destruct (node_element_at m _ d Hwf Hp Hd) as (Hl & b & ch & Eb & Ech & Elen).
  destruct (lookup_lt_is_Some_2 _ _ Hd) as [y Hy].
  rewrite (drop_S _ y d Hy) in El. injection El as -> El.
  unfold iter_deref, iter_next. rewrite En. cbn [mbind option_bind fst snd]. rewrite Hl, Hy, Eb.
  split; [done|]. cbn [mbind option_bind]. rewrite Ech. cbn [mbind option_bind].
  destruct (Nat.ltb_spec d (length ch)) as [Hlt|Hge].
  - eexists. split; [done|]. exists (Datatypes.S d). split; [done|]. right. cbn [_pos].
    split; [lia|]. split; [lia|done].
  - rewrite (proj2 (Nat.eqb_eq d (length ch))) by lia.
    destruct (find_valid_spec m (_pos it + 1) Hwf Hok) as (it' & -> & Hr); [lia|].
    exists it'. split; [done|]. rewrite drop_ge in El by lia.
    replace (_nbucket m - (_pos it + 1)) with (_nbucket m - _pos it - 1) in Hr by lia. by subst l.
Qed.

Lemma end_spec m : wf m -> end_ _S m = Some (mkIter (Some (_nbucket m, O)) (_nbucket m)).
Proof.
  intros Hwf. unfold end_, iterator_at. rewrite (wf_init m Hwf).
  unfold find_and_set_valid_node. rewrite Z.sub_diag. cbn [Z.to_nat find_entry]. rewrite (wf_end m Hwf).
  cbn. by destruct _S.
Qed.

Lemma rest_end m it l :
  wf m -> rest m it l ->
  iter_eqb it (mkIter (Some (_nbucket m, O)) (_nbucket m)) = bool_decide (l = []).
Proof.
  intros Hwf (d & En & Hcase). unfold iter_eqb. rewrite En. cbn [_node]. apply bool_decide_ext.
  destruct Hcase as [(E & -> & ->)|(Hp & Hd & ->)]; [by rewrite E|].
  split; [intros [= E _]; lia|]. intros [E _]%app_eq_nil.
  apply (f_equal length) in E. rewrite length_drop in E. cbn in E. lia.
Qed.

(** What the loop computes, on a list. *)
Fixpoint fold_opt {S} (f : K * V -> S -> option S) (l : list (K * V)) (s : S) : option S :=
  match l with [] => Some s | x :: l => s ← f x s; fold_opt f l s end.

Lemma iterate_spec {S} m (f : K * V -> S -> option S) fuel : forall it l s,
  wf m -> iter_ok m -> rest m it l -> (length l <= fuel)%nat ->
  iterate _S m f fuel it s = fold_opt f l s.
Proof.
  induction fuel as [|fuel IH]; intros it l s Hwf Hok Hr Hl; cbn [iterate];
    rewrite (end_spec m Hwf); cbn [mbind option_bind]; rewrite (rest_end m it l Hwf Hr).
  - destruct l; [done|cbn in Hl; lia].
  - destruct l as [|x l]; [done|]. cbn [bool_decide].
    destruct (iter_next_spec m it x l Hwf Hok Hr) as (-> & it' & En & Hr').
    rewrite bool_decide_eq_false_2 by done. cbn [fold_opt mbind option_bind].
    destruct (f x s) as [s'|]; [|done]. cbn [mbind option_bind]. rewrite En. cbn [mbind option_bind].
    apply IH; [done..|cbn in Hl; lia].
Qed.

Definition all_contents (m : Map) : list (K * V) := contents m (Z.to_nat (_nbucket m)) 0.

Lemma elem_contents m n i x :
  x ∈ contents m n i <-> exists j, i <= j < i + Z.of_nat n /\ x ∈ blist_at m j.
Proof.
  revert i. induction n as [|n IH]; intros i; cbn [contents].
  - split; [by intros ?%not_elem_of_nil|]. intros (j & Hj & _). lia.
  - rewrite elem_of_app, IH. split.
    + intros [Hx|(j & Hj & Hx)]; [exists i|exists j]; split; (lia || done).
    + intros (j & Hj & Hx). destruct (decide (j = i)) as [->|]; [by left|right].
      exists j. split; [lia|done].
Qed.

Lemma blist_at_holds m g i :
  Repr m g -> 0 <= i < _nbucket m -> bucket_holds m g i (blist_at m i).
Proof.
  intros HR Hi. destruct (valid_at_blist m i (Repr_wf _ _ HR) Hi) as (b & Eb & _ & -> & _).
  by apply (Repr_at _ _ HR).
Qed.

Lemma contents_nodup m g n i :
  Repr m g -> 0 <= i -> i + Z.of_nat n <= _nbucket m -> NoDup (contents m n i).
Proof.
  intros HR. revert i. induction n as [|n IH]; intros i Hi Hn; cbn [contents]; [constructor|].
  destruct (blist_at_holds m g i HR ltac:(lia)) as [Hd Hm]. apply NoDup_app. split_and!.
  - by eapply NoDup_fmap_1.
  - intros [k v] H1 (j & Hj & H2)%elem_contents. apply Hm in H1 as [_ H1].
    destruct (blist_at_holds m g j HR ltac:(lia)) as [_ Hm']. apply Hm' in H2 as [_ H2]. lia.
  - apply IH; lia.
Qed.

(** The visited elements are those of the map. *)
Lemma contents_map m g : Repr m g -> all_contents m ≡ₚ map_to_list g.
Proof.
  intros HR. pose proof (nb_bounds m (Repr_wf _ _ HR)). unfold all_contents. apply NoDup_Permutation.
  - eapply contents_nodup; [done|lia|lia].
  - apply NoDup_map_to_list.
  - intros [k v]. rewrite elem_contents, elem_of_map_to_list. split.
    + intros (j & Hj & Hx). eapply blist_at_holds; [done| |done]. lia.
    + intros E. pose proof (hix_range m k (Repr_wf _ _ HR)). exists (hix m k). split; [lia|].
      by apply (blist_at_holds m g (hix m k) HR).
Qed.

Lemma contents_size m g : Repr m g -> zlen (all_contents m) = _size m.
Proof.
  intros HR. destruct (Repr_size _ _ HR) as [-> _]. unfold zlen.
  by rewrite (contents_map m g HR), length_map_to_list.
Qed.

Lemma for_each_spec {S} m g (f : K * V -> S -> option S) s :
  Repr m g -> iter_ok m -> for_each _S m f s = fold_opt f (all_contents m) s.
Proof.
  intros HR Hok. pose proof (Repr_wf _ _ HR) as Hwf. pose proof (nb_bounds m Hwf).
  unfold for_each, begin, iterator_at. rewrite (wf_init m Hwf).
  destruct (find_valid_spec m 0 Hwf Hok) as (it & -> & Hr); [lia|]. cbn [mbind option_bind].
  rewrite Z.sub_0_r in Hr. apply iterate_spec; [done..|].
  pose proof (contents_size m g HR) as E. unfold all_contents, zlen in *. lia.
Qed.

(** *** Writing to a node *)

Lemma store_spec m g p k v0 v :
  Repr m g -> p.1 = hix m k -> load m p = Some (k, v0) ->
  exists m', store m p v = Some m' /\ Repr m' (<[k := v]> g) /\ same_shape m m' /\ load m' p = Some (k, v).
Proof.
  intros HR Hp Hl. destruct p as [i d]. cbn in Hp. subst i.
  destruct (Repr_bucket m g k HR) as (b & Eb & Hb & Hh). pose proof (hix_range m k (Repr_wf _ _ HR)) as Hi.
  unfold load in *. cbn [fst snd] in *. rewrite Eb in Hl. cbn in Hl.
  assert (forall b', bucket_ok b' -> is_valid b' = is_valid b -> blist b' = <[d := (k, v)]> (blist b) ->
    blist b !! d = Some (k, v0) ->
    Repr (with_buckets m (setb m (hix m k) b')) (<[k := v]> g)) as HR'.
  { intros b' Hb' Hv Hbl Hd. destruct Hh as [Hnd Hm].
    assert ((blist b').*1 = (blist b).*1) as Ek.
    { rewrite Hbl, list_fmap_insert. apply list_insert_id. by rewrite list_lookup_fmap, Hd. }
    apply (Repr_update m g); [done|done| | | | |].
    - apply thumb_keep; [apply HR|done|]. unfold valid_at. by rewrite Eb.
    - by rewrite Ek.
    - intros k' v'. rewrite lookup_insert_Some. split.
      + intros Hin. apply list_elem_of_lookup in Hin as [j Hj]. rewrite Hbl in Hj.
        apply list_lookup_insert_Some in Hj as [(<- & [= <- <-] & _)|(Hne & Hj)]; [by auto|].
        assert ((k', v') ∈ blist b) as Hin by (apply list_elem_of_lookup; eauto).
        apply Hm in Hin as [E1 E2]. split; [|done]. right. split; [|done]. intros <-. apply Hne.
        eapply NoDup_lookup; [exact Hnd| |]; rewrite list_lookup_fmap; [by rewrite Hd|by rewrite Hj].
      + intros [[[<- <-]|[Hne E1]] E2]; apply list_elem_of_lookup.
        * exists d. rewrite Hbl. apply list_lookup_insert_eq. by eapply lookup_lt_Some.
        * assert ((k', v') ∈ blist b) as (j & Hj)%list_elem_of_lookup by (apply Hm; done).
          exists j. rewrite Hbl, list_lookup_insert_ne; [done|]. intros <-. congruence.
    - intros k' Hne. by rewrite lookup_insert_ne by done.
    - destruct (Repr_size _ _ HR) as [E1 E2]. split; [|done]. rewrite E1. f_equal. symmetry.
      apply map_size_insert_Some. exists v0. apply Hm. apply list_elem_of_lookup. eauto. }
  unfold store. cbn [fst snd]. rewrite Eb. cbn [mbind option_bind].
  destruct Hb as [->|(ch & e & ->)]; [by destruct d|].
  destruct d as [|d]; cbn [node_element next element mbind option_bind] in *.
  - simplify_eq. cbn [fst snd]. rewrite (set_bucket_eq _ _ _ _ Eb). eexists. split; [done|].
    split; [apply HR'; [right; eauto|done|done|done]|]. split; [done|].
    rewrite bucket_at_map. cbn [_buckets with_buckets]. rewrite (setb_at _ _ _ _ _ Eb) by lia.
    by rewrite decide_True.
  - rewrite Hl. cbn [mbind option_bind fst snd]. rewrite (set_bucket_eq _ _ _ _ Eb). eexists. split; [done|].
    split; [apply HR'; [right; eauto|done|done|done]|]. split; [done|].
    rewrite bucket_at_map. cbn [_buckets with_buckets]. rewrite (setb_at _ _ _ _ _ Eb) by lia.
    rewrite decide_True by done. cbn. apply list_lookup_insert_eq. by eapply lookup_lt_Some.
Qed.

(** *** operator[] and resize *)

(** operator[] makes the key present. *)
Definition ins (g : gmap K V) (k : K) : gmap K V :=
  match g !! k with Some _ => g | None => <[k := T_default]> g end.

Lemma size_insert_1 (g : gmap K V) k v n :
  g !! k = None -> size_is n g -> n < 2 ^ 35 -> size_is (u64 (n + 1)) (<[k := v]> g).
Proof.
  intros E [-> _] Hn. unfold size_is. rewrite map_size_insert_None by done. rewrite wrapu_small by lia. lia.
Qed.

(** A bucket with one more element. *)
Lemma Repr_insert m g k v l b t :
  Repr m g -> g !! k = None -> _size m < 2 ^ 35 ->
  bucket_holds m g (hix m k) l -> bucket_ok b -> blist b = l ++ [(k, v)] ->
  thumb_ok (mkFlatMap (u64 (_size m + 1)) (_nbucket m) (setb m (hix m k) b) t (_load_factor m)) ->
  Repr (mkFlatMap (u64 (_size m + 1)) (_nbucket m) (setb m (hix m k) b) t (_load_factor m)) (<[k := v]> g).
Proof.
  intros HR E Hn [Hd Hm] Hb Hl Ht. apply (Repr_update m g); [done|done|done| | | |].
  - rewrite Hl, fmap_app. apply NoDup_app. split; [done|]. split; [|apply NoDup_singleton].
    intros k' Hin Hk%list_elem_of_singleton. apply list_elem_of_fmap in Hin as ([k1 v1] & E' & Hin).
    apply Hm in Hin as [Hin _]. cbn in *. congruence.
  - intros k' v'. rewrite Hl, elem_of_app, list_elem_of_singleton, Hm, lookup_insert_Some. split.
    + intros [[E1 E2]|[= -> ->]]; [|by auto]. split; [|done]. right. split; [congruence|done].
    + intros [[[<- <-]|[Hne E1]] E2]; auto.
  - intros k' Hne. by rewrite lookup_insert_ne by done.
  - apply size_insert_1; [done|apply HR|done].
Qed.

(** [sub] is a correct operator[] for maps of load factor [lf], from [NB]
    buckets on, of up to [N] elements. *)
Definition sub_ok (sub : Map -> K -> option (Map * (Z * nat))) (lf NB N : Z) : Prop :=
  forall m g k, Repr m g -> iter_ok m -> _load_factor m = lf -> NB <= _nbucket m -> _size m <= N ->
    exists m' p, sub m k = Some (m', p) /\ Repr m' (ins g k) /\ _load_factor m' = lf /\
      _nbucket m <= _nbucket m' /\ p.1 = hix m' k /\ load m' p = Some (k, default T_default (g !! k)).

Lemma insert_ins g k v : <[k := v]> (ins g k) = <[k := v]> g.
Proof. unfold ins. destruct (g !! k); [done|]. apply insert_insert_eq. Qed.

Lemma iter_ok_grow m m' : iter_ok m -> _nbucket m <= _nbucket m' -> iter_ok m'.
Proof. intros H1 H2 E. specialize (H1 E). lia. Qed.

Lemma assign_at_spec sub lf NB N m g k v :
  sub_ok sub lf NB N -> Repr m g -> iter_ok m -> _load_factor m = lf -> NB <= _nbucket m -> _size m <= N ->
  exists m', assign_at sub m (k, v) = Some m' /\ Repr m' (<[k := v]> g) /\ _load_factor m' = lf /\
    _nbucket m <= _nbucket m' /\
    exists m1 p, sub m k = Some (m1, p) /\ store m1 p v = Some m' /\
      p.1 = hix m' k /\ load m' p = Some (k, v).
Proof.
  intros Hsub HR Hok Hlf Hnb Hs. unfold assign_at. cbn [fst snd].
  destruct (Hsub m g k HR Hok Hlf Hnb Hs) as (m1 & p & E1 & HR1 & Hlf1 & Hnb1 & Hp & Hl).
  rewrite E1. cbn [mbind option_bind].
  destruct (store_spec m1 _ p k _ v HR1 Hp Hl) as (m2 & E2 & HR2 & [Hs1 Hs2] & Hl2).
  exists m2. split; [done|]. split; [by rewrite insert_ins in HR2|]. split; [congruence|]. split; [lia|].
  exists m1, p. split_and!; [done..| |done]. unfold hix in *. by rewrite Hs1.
Qed.

Lemma size_insert_le (g : gmap K V) k v : (size (<[k := v]> g) <= Datatypes.S (size g))%nat.
Proof. rewrite map_size_insert. destruct (g !! k); cbn; lia. Qed.

Lemma assign_loop sub lf NB N l : forall m g,
  sub_ok sub lf NB N -> Repr m g -> iter_ok m -> _load_factor m = lf -> NB <= _nbucket m ->
  _size m + zlen l <= N + 1 ->
  exists m', fold_opt (fun kv m => assign_at sub m kv) l m = Some m' /\
    Repr m' (fold_left (fun g kv => <[kv.1 := kv.2]> g) l g) /\ _load_factor m' = lf /\ _nbucket m <= _nbucket m'.
Proof.
  induction l as [|[k v] l IH]; intros m g Hsub HR Hok Hlf Hnb Hs; cbn [fold_opt fold_left].
  { exists m. by split_and!. }
  rewrite zlen_cons in Hs. pose proof (zlen_nonneg l).
  destruct (assign_at_spec sub lf NB N m g k v Hsub HR Hok Hlf Hnb) as (m1 & E1 & HR1 & Hlf1 & Hnb1 & _); [lia|].
  rewrite E1. cbn [mbind option_bind].
  destruct (IH m1 (<[k := v]> g) Hsub HR1) as (m' & E' & HR' & Hlf' & Hnb'); [by eapply iter_ok_grow|done|lia| |].
  { destruct (Repr_size _ _ HR1) as [Es1 _]. destruct (Repr_size _ _ HR) as [Es _].
    pose proof (size_insert_le g k v). lia. }
  exists m'. split_and!; [done..|lia].
Qed.

Lemma fold_insert_map l (g : gmap K V) :
  l ≡ₚ map_to_list g -> fold_left (fun g kv => <[kv.1 := kv.2]> g) l ∅ = g.
Proof.
  intros Hl. rewrite <-(rev_involutive l), <-fold_left_rev_right, rev_involutive.
  change (list_to_map (rev l) = g). rewrite <-(list_to_map_to_list g).
  apply list_to_map_proper.
  - rewrite <-Permutation_rev, Hl. apply NoDup_fst_map_to_list.
  - by rewrite <-Permutation_rev.
Qed.

Lemma resize_with_spec sub lf N m g nbucket2 :
  sub_ok sub lf (flatmap_round nbucket2) N ->
  Repr m g -> iter_ok m -> _load_factor m = lf -> _size m <= N + 1 -> 0 < nbucket2 <= 2 ^ 40 ->
  (_S = true -> 64 <= flatmap_round nbucket2) ->
  exists m' r, resize_with _S sizeof_Bucket alloc_ok junk sub m nbucket2 = Some (m', r) /\
    Repr m' g /\ _load_factor m' = lf /\ iter_ok m' /\
    (r = negb (_nbucket m =? flatmap_round nbucket2) && mem_ok (flatmap_round nbucket2)) /\
    if r : bool then flatmap_round nbucket2 <= _nbucket m' else m' = m.
Proof.
  intros Hsub HR Hok Hlf Hs Hn HS. unfold resize_with.
  destruct (Z.eqb_spec (_nbucket m) (flatmap_round nbucket2)) as [|Hne]; cbn [negb andb].
  { eexists _, _. split_and!; try done. }
  destruct (flatmap_round_spec nbucket2) as (k & Hk & Enb & Hle & Hgt); [lia|].
  assert (flatmap_round nbucket2 <= 2 ^ 40) as Hnb2.
  { destruct (Z.le_gt_cases nbucket2 8) as [H8|H8].
    - unfold flatmap_round. rewrite (proj2 (Z.leb_le _ _) H8). lia.
    - specialize (Hgt H8). rewrite Enb. apply Z.pow_le_mono_r; [lia|].
      assert (k - 1 < 40); [apply (Z.pow_lt_mono_r_iff 2)|]; lia. }
  pose proof (Z.pow_pos_nonneg 2 k ltac:(lia) ltac:(lia)).
  destruct (init_spec (@FlatMap_ctor K V) (flatmap_round nbucket2) (_load_factor m)) as (nm & r & -> & Hr);
    [done|done|lia|]. cbn [mbind option_bind].
  rewrite (proj2 (Z.eqb_neq _ 0)) in Hr by lia.
  pose proof (wf_lf _ (Repr_wf _ _ HR)) as Hlfr.
  rewrite (proj2 (Z.leb_le 10 _)), (proj2 (Z.leb_le _ 100)) in Hr by lia. cbn [negb andb] in Hr.
  assert (flatmap_round (flatmap_round nbucket2) = flatmap_round nbucket2) as Eidem
    by (rewrite Enb; apply flatmap_round_pow2; lia).
  rewrite Eidem in Hr. destruct (mem_ok (flatmap_round nbucket2)).
  - destruct Hr as (-> & HR0 & Hnb0 & Hlf0). cbn [negb Z.eqb].
    rewrite (for_each_spec m g) by done.
    destruct (assign_loop sub lf (flatmap_round nbucket2) N (all_contents m) nm ∅ Hsub HR0)
      as (m' & E & HR' & Hlf' & Hnb').
    { intros E. specialize (HS E). lia. }
    { congruence. }
    { lia. }
    { rewrite (contents_size m g HR). destruct (Repr_size _ _ HR0) as [-> _]. rewrite map_size_empty. lia. }
    rewrite E. cbn [mbind option_bind]. rewrite (fold_insert_map _ g (contents_map m g HR)) in HR'.
    eexists _, _. split; [done|]. split; [done|]. split; [done|]. split; [|split; [done|lia]].
    intros ES. specialize (HS ES). lia.
  - subst r. cbn [negb Z.eqb]. eexists _, _. split_and!; try done.
Qed.

Lemma crowded_eq m : wf m -> 0 <= _size m <= 2 ^ 35 ->
  is_too_crowded m (_size m) = (_nbucket m * _load_factor m <=? _size m * 100).
Proof.
  intros Hwf Hs. pose proof (nb_bounds m Hwf). pose proof (wf_lf m Hwf).
  unfold is_too_crowded. rewrite !wrapu_small by nia. done.
Qed.

(** The step that puts a new element at the end of its bucket. *)
Lemma append_spec m g k b :
  Repr m g -> g !! k = None -> _size m < 2 ^ 35 -> bucket_at m (hix m k) = Some b ->
  forall ch e, b = mkBucket (Some ch) (Some e) ->
  exists m', set_bucket (with_size m (u64 (_size m + 1))) (hix m k)
      (mkBucket (Some (ch ++ [(k, T_default)])) (Some e)) = Some m' /\
    Repr m' (<[k := T_default]> g) /\ same_shape m m' /\
    load m' (hix m k, Datatypes.S (length ch)) = Some (k, T_default).
Proof.
  intros HR E Hs Eb ch e ->. pose proof (hix_range m k (Repr_wf _ _ HR)) as Hi.
  unfold with_size. rewrite (set_bucket_parts m _ _ _ _ _ Eb). eexists. split; [done|].
  split; [|split; [done|]].
  - apply (Repr_insert m g k T_default (e :: ch)); [done|done|done| |right; eauto|done|].
    + by apply (Repr_at _ _ HR _ (mkBucket (Some ch) (Some e))).
    + apply thumb_keep; [apply HR|done|]. unfold valid_at. by rewrite Eb.
  - unfold load. cbn [fst snd]. rewrite bucket_at_map. cbn [_buckets].
    rewrite (setb_at m _ _ _ _ Eb) by lia. rewrite decide_True by done. cbn.
    rewrite lookup_app_r by lia. by rewrite Nat.sub_diag.
Qed.

(** ... and the one that makes it the first of its bucket. *)
Lemma first_spec m g k :
  Repr m g -> g !! k = None -> _size m < 2 ^ 35 -> bucket_at m (hix m k) = Some invalid ->
  exists m1 m', on_thumbnail _S (fun t => bit_array_set t (hix m k)) (with_size m (u64 (_size m + 1))) = Some m1 /\
    set_bucket m1 (hix m k) (new_Bucket T_default k) = Some m' /\
    Repr m' (<[k := T_default]> g) /\ same_shape m m' /\ load m' (hix m k, O) = Some (k, T_default).
Proof.
  intros HR E Hs Eb. pose proof (Repr_wf _ _ HR) as Hwf. pose proof (hix_range m k Hwf) as Hi.
  destruct (on_thumbnail_spec m (hix m k) (fun t => bit_array_set t (hix m k)) true Hwf Hi) as (t' & Et & Ht').
  { intros t Hw Hz. destruct (set_spec t (hix m k) Hw) as (t' & -> & H1 & H2 & H3); [lia|].
    exists t'. split_and!; [done..|]. intros j Hj. rewrite H3 by done.
    by destruct (Z.eqb_spec j (hix m k)), (decide (j = hix m k)). }
  rewrite Et by done. eexists _, _. split; [done|].
  unfold with_thumbnail, with_size. cbn [_size _nbucket _buckets _load_factor].
  rewrite (set_bucket_parts m _ _ _ _ _ Eb). split; [done|].
  split; [|split; [done|]].
  - apply (Repr_insert m g k T_default []); [done|done|done| |right; eauto|done|].
    + by apply (Repr_at _ _ HR _ invalid).
    + by apply thumb_update.
  - unfold load. cbn [fst snd]. rewrite bucket_at_map. cbn [_buckets].
    rewrite (setb_at m _ _ _ _ Eb) by lia. by rewrite decide_True.
Qed.

(** The number of buckets that a crowded map has and gets. *)
Lemma crowded_nb m : wf m -> _size m <= 2 ^ 35 -> _nbucket m * _load_factor m <= _size m * 100 ->
  0 < u64 (_nbucket m + 1) <= 2 ^ 40 /\ flatmap_round (u64 (_nbucket m + 1)) = 2 * _nbucket m.
Proof.
  intros Hwf Hs Hc. pose proof (nb_bounds m Hwf). pose proof (wf_lf m Hwf).
  rewrite wrapu_small by lia. split; [nia|]. destruct (wf_nb m Hwf) as (k & Hk & ->).
  rewrite flatmap_round_next by lia. rewrite Z.pow_add_r by lia. lia.
Qed.

Lemma subscript_step_spec sub lf m g k :
  Repr m g -> (_nbucket m * lf <= _size m * 100 -> iter_ok m) -> _load_factor m = lf -> _size m < 2 ^ 35 ->
  (_nbucket m * lf <= _size m * 100 -> sub_ok sub lf (2 * _nbucket m) (_size m)) ->
  exists m' p, subscript_step _hashfn _eql T_default _S sizeof_Bucket alloc_ok junk pool_get sub m k = Some (m', p) /\
    Repr m' (ins g k) /\ _load_factor m' = lf /\ _nbucket m <= _nbucket m' /\ p.1 = hix m' k /\
    load m' p = Some (k, default T_default (g !! k)).
Proof.
  intros HR Hok Hlf Hs Hsub. pose proof (Repr_wf _ _ HR) as Hwf.
  destruct (Repr_bucket m g k HR) as (b & Eb & Hb & Hh).
  unfold subscript_step. fold (hix m k). rewrite Eb. cbn [mbind option_bind]. unfold ins.
  destruct Hb as [->|(ch & e & ->)]; cbn [next element invalid mbind option_bind].
  { assert (g !! k = None) as E by (eapply holds_None; [exact Hh|]; apply not_elem_of_nil).
    destruct (first_spec m g k HR E Hs Eb) as (m1 & m' & -> & E2 & HR' & Hsh & Hl). cbn [mbind option_bind].
    rewrite E2. rewrite E. destruct Hsh as [Hn Hf]. exists m', (hix m k, O). split; [done|]. split; [done|]. split; [congruence|].
    split; [lia|]. split; [|done]. cbn. unfold hix. by rewrite Hn. }
  pose proof (find_chain_spec k (e :: ch) 0) as Hf. destruct (find_chain _eql k (e :: ch) 0) as [d|].
  { destruct Hf as (j & e' & -> & Hj & <-). eexists m, _. split; [done|].
    assert (g !! e'.1 = Some e'.2) as Eg.
    { eapply holds_Some; [exact Hh|]. apply list_elem_of_lookup. exists j. cbn. rewrite Hj. by destruct e'. }
    rewrite Eg. split_and!; try done. unfold load. cbn [fst snd]. rewrite Eb. cbn [mbind option_bind].
    rewrite node_element_blist; [|right; eauto|by eexists]. cbn. rewrite Hj. by destruct e'. }
  assert (g !! k = None) as E by by eapply holds_None. rewrite E.
  destruct (append_spec m g k _ HR E Hs Eb ch e eq_refl) as (m' & Em' & HR' & Hsh & Hl).
  assert (exists m' p, (m1 ← set_bucket (with_size m (u64 (_size m + 1))) (hix m k)
      (mkBucket (Some (ch ++ [(k, T_default)])) (Some e)); Some (m1, (hix m k, Datatypes.S (length ch)))) = Some (m', p) /\
    Repr m' (<[k := T_default]> g) /\ _load_factor m' = lf /\ _nbucket m <= _nbucket m' /\ p.1 = hix m' k /\
    load m' p = Some (k, T_default)) as Happ.
  { rewrite Em'. destruct Hsh as [Hn Hfl]. exists m', (hix m k, Datatypes.S (length ch)). split; [done|]. split; [done|]. split; [congruence|].
    split; [lia|]. split; [|done]. cbn. unfold hix. by rewrite Hn. }
  destruct (Repr_size _ _ HR) as [Es _]. rewrite crowded_eq by (done || lia). rewrite Hlf.
  destruct (Z.leb_spec (_nbucket m * lf) (_size m * 100)) as [Hc|Hc]; [|cbn [mbind option_bind]; rewrite Hpool; exact Happ].
  specialize (Hsub Hc). specialize (Hok Hc). destruct (crowded_nb m Hwf) as [Hnb1 Hnb2]; [lia|by rewrite Hlf|].
  destruct (resize_with_spec sub lf (_size m) m g (u64 (_nbucket m + 1))) as (m1 & r & -> & HR1 & Hlf1 & Hok1 & _ & Hr);
    [by rewrite Hnb2|done|done|done|lia|done| |].
  { intros ES. specialize (Hok ES). rewrite Hnb2. lia. }
  cbn [mbind option_bind]. destruct r; cbn beta iota in Hr.
  - destruct (Repr_size _ _ HR1) as [Es1 _].
    destruct (Hsub m1 g k HR1 Hok1 Hlf1) as (m2 & p & E2 & HR2 & Hlf2 & Hn2 & Hp & Hl2); [lia|lia|].
    pose proof (nb_bounds m Hwf). exists m2, p. unfold ins in HR2. rewrite E in HR2, Hl2. split_and!; [done..|lia|done|done].
  - subst m1. rewrite Hpool. exact Happ.
Qed.

(** Enough fuel: each nested call is on a map of twice the buckets. *)
Lemma subscript_ok fuel : forall lf NB N,
  0 < NB -> 0 < lf -> N < 2 ^ 35 -> N * 100 < NB * lf * 2 ^ Z.of_nat fuel ->
  sub_ok (subscript _hashfn _eql T_default _S sizeof_Bucket alloc_ok junk pool_get (Datatypes.S fuel)) lf NB N.
Proof.
  induction fuel as [|fuel IH]; intros lf NB N HNB Hlf0 HN Hf m g k HR Hok Hlf Hnb Hs;
    cbn [subscript]; apply subscript_step_spec; try done; try lia; intros Hc.
  - exfalso. change (2 ^ Z.of_nat 0) with 1 in Hf. nia.
  - apply IH; [lia|done|lia|]. rewrite Nat2Z.inj_succ, Z.pow_succ_r in Hf by lia.
    pose proof (Z.pow_pos_nonneg 2 (Z.of_nat fuel) ltac:(lia) ltac:(lia)).
    assert (NB * lf * (2 * 2 ^ Z.of_nat fuel) <= _nbucket m * lf * (2 * 2 ^ Z.of_nat fuel)).
    { apply Z.mul_le_mono_nonneg_r; [lia|]. apply Z.mul_le_mono_nonneg_r; lia. }
    lia.
Qed.

Lemma index_ok lf : 10 <= lf ->
  sub_ok (index _hashfn _eql T_default _S sizeof_Bucket alloc_ok junk pool_get) lf 8 (2 ^ 35 - 1).
Proof.
  intros Hlf. apply (subscript_ok 63); [lia..|]. change (Z.of_nat 63) with 63.
  assert (8 * 10 * 2 ^ 63 <= 8 * lf * 2 ^ 63) by nia. lia.
Qed.

Lemma sub_ok_weaken sub lf NB NB' N N' : sub_ok sub lf NB N -> NB <= NB' -> N' <= N -> sub_ok sub lf NB' N'.
Proof. intros H1 H2 H3 m g k HR Hok Hlf Hnb Hs. apply H1; [done..|lia|lia]. Qed.

Lemma index_spec m g k :
  Repr m g -> iter_ok m -> _size m < 2 ^ 35 ->
  exists m' p, index _hashfn _eql T_default _S sizeof_Bucket alloc_ok junk pool_get m k = Some (m', p) /\
    Repr m' (ins g k) /\ iter_ok m' /\ p.1 = hix m' k /\ load m' p = Some (k, default T_default (g !! k)).
Proof.
  intros HR Hok Hs. pose proof (Repr_wf _ _ HR) as Hwf.
  destruct (index_ok (_load_factor m) (proj1 (wf_lf m Hwf)) m g k HR Hok eq_refl) as (m' & p & E & HR' & _ & Hn & Hp & Hl).
  { apply nb_bounds, Hwf. } { lia. }
  exists m', p. split_and!; try done. by eapply iter_ok_grow.
Qed.

Lemma insert_spec m g k v :
  Repr m g -> iter_ok m -> _size m < 2 ^ 35 ->
  exists m' p, insert _hashfn _eql T_default _S sizeof_Bucket alloc_ok junk pool_get m k v = Some (m', p) /\
    Repr m' (<[k := v]> g) /\ iter_ok m' /\ p.1 = hix m' k /\ load m' p = Some (k, v).
Proof.
  intros HR Hok Hs. pose proof (Repr_wf _ _ HR) as Hwf. pose proof (proj1 (nb_bounds m Hwf)).
  destruct (assign_at_spec _ _ _ _ m g k v (index_ok (_load_factor m) (proj1 (wf_lf m Hwf))) HR Hok eq_refl)
    as (m' & _ & HR' & _ & Hn & m1 & p & E1 & E2 & Hp & Hl); [done|lia|].
  unfold insert. rewrite E1. cbn [mbind option_bind]. rewrite E2. cbn [mbind option_bind].
  exists m', p. split_and!; try done. by eapply iter_ok_grow.
Qed.

Lemma resize_spec m g nbucket2 :
  Repr m g -> iter_ok m -> 0 < nbucket2 <= 2 ^ 40 -> (_S = true -> 64 <= flatmap_round nbucket2) ->
  exists m', resize _hashfn _eql T_default _S sizeof_Bucket alloc_ok junk pool_get m nbucket2 =
      Some (m', negb (_nbucket m =? flatmap_round nbucket2) && mem_ok (flatmap_round nbucket2)) /\
    Repr m' g /\ iter_ok m'.
Proof.
  intros HR Hok Hn HS. pose proof (Repr_wf _ _ HR) as Hwf. destruct (Repr_size _ _ HR) as [_ Hs].
  assert (8 <= flatmap_round nbucket2) as H8.
  { destruct (flatmap_round_spec nbucket2) as (k & Hk & -> & _); [lia|].
    change 8 with (2 ^ 3). apply Z.pow_le_mono_r; lia. }
  destruct (resize_with_spec (index _hashfn _eql T_default _S sizeof_Bucket alloc_ok junk pool_get) (_load_factor m)
    (2 ^ 35 - 1) m g nbucket2) as (m' & r & E & HR' & _ & Hok' & -> & _); try done.
  - eapply sub_ok_weaken; [apply index_ok, Hwf|done|done].
  - exists m'. done.
Qed.

(** *** Copies *)

(** The state of the thumbnail between the buckets [i] that are copied already
    and those to come, which are clear. *)
Definition copied_thumb (rhs : Map) (t : option words) (j : Z) : Prop :=
  if _S then exists t', t = Some t' /\ is_words t' /\ _nbucket rhs <= 64 * zlen t' /\
    forall i, 0 <= i < _nbucket rhs -> bit t' i = (i <? j) && valid_at rhs i
  else t = None.

Lemma copied_thumb_set rhs t j n bs lf :
  wf rhs -> 0 <= j < _nbucket rhs -> valid_at rhs j = true -> copied_thumb rhs t j ->
  exists t', on_thumbnail _S (fun t => bit_array_set t j) (mkFlatMap n (_nbucket rhs) bs t lf) =
      Some (@mkFlatMap K V n (_nbucket rhs) bs t' lf) /\ copied_thumb rhs t' (j + 1).
Proof.
  intros Hwf Hj Hv Ht. unfold on_thumbnail, copied_thumb in *. destruct _S; [|by exists t].
  destruct Ht as (t1 & -> & Hw & Hz & Hb). cbn [_thumbnail mbind option_bind].
  destruct (set_spec t1 j Hw) as (t2 & -> & Hw2 & Hz2 & Hb2); [lia|]. cbn [mbind option_bind].
  eexists. split; [done|]. exists t2. split; [done|]. split; [done|]. split; [lia|].
  intros i Hi. rewrite Hb2, Hb by lia.
  destruct (Z.eqb_spec i j) as [->|Hne].
  - by rewrite Hv, (proj2 (Z.ltb_lt j (j + 1))) by lia.
  - f_equal. destruct (Z.ltb_spec i j), (Z.ltb_spec i (j + 1)); done || lia.
Qed.

Lemma copied_thumb_skip rhs t j :
  valid_at rhs j = false -> copied_thumb rhs t j -> copied_thumb rhs t (j + 1).
Proof.
  intros Hv Ht. unfold copied_thumb in *. destruct _S; [|done].
  destruct Ht as (t1 & -> & Hw & Hz & Hb). exists t1. split_and!; [done..|]. intros i Hi. rewrite Hb by done.
  destruct (decide (i = j)) as [->|]; [by rewrite Hv, !andb_false_r|].
  f_equal. destruct (Z.ltb_spec i j), (Z.ltb_spec i (j + 1)); done || lia.
Qed.

Lemma copy_loop rhs n bs t lf :
  wf rhs -> (Z.to_nat (_nbucket rhs) < length bs)%nat -> copied_thumb rhs t 0 ->
  exists bs' t', for_range (copy_bucket _S pool_get rhs) (Z.to_nat (_nbucket rhs)) 0 (mkFlatMap n (_nbucket rhs) (Some bs) t lf) =
      Some (mkFlatMap n (_nbucket rhs) (Some bs') t' lf) /\
    length bs' = length bs /\ copied_thumb rhs t' (_nbucket rhs) /\
    forall i, 0 <= i < _nbucket rhs -> map_at (Some bs') i = bucket_at rhs i.
Proof.
  intros Hwf Hlen Ht. pose proof (nb_bounds rhs Hwf).
  destruct (for_range_ind (fun j m' => exists bs' t', m' = mkFlatMap n (_nbucket rhs) (Some bs') t' lf /\
    length bs' = length bs /\ copied_thumb rhs t' j /\
    forall i, 0 <= i < j -> map_at (Some bs') i = bucket_at rhs i)
    (copy_bucket _S pool_get rhs) (Z.to_nat (_nbucket rhs)) 0 (mkFlatMap n (_nbucket rhs) (Some bs) t lf))
    as (m' & E & bs' & t' & -> & H1 & H2 & H3).
  - exists bs, t. split_and!; [done..|]. lia.
  - intros j m' Hj (bs1 & t1 & -> & L1 & T1 & B1).
    destruct (wf_at rhs Hwf j) as (b & Eb & Hb); [lia|]. unfold copy_bucket. rewrite Eb. cbn [mbind option_bind].
    assert (forall t2 b', b' = b -> copied_thumb rhs t2 (j + 1) -> exists s', 
      set_bucket (mkFlatMap n (_nbucket rhs) (Some bs1) t2 lf) j b' = Some s' /\ exists bs' t', 
      s' = mkFlatMap n (_nbucket rhs) (Some bs') t' lf /\ length bs' = length bs /\ copied_thumb rhs t' (j + 1) /\
      forall i, 0 <= i < j + 1 -> map_at (Some bs') i = bucket_at rhs i) as Hset.
    { intros t2 b' -> Ht2. unfold set_bucket. cbn [_buckets mbind option_bind].
      rewrite decide_True by lia. eexists. split; [done|]. eexists _, t2. split; [done|].
      split; [by rewrite length_insert|]. split; [done|]. intros i Hi. rewrite map_at_set by lia.
      destruct (decide (i = j)) as [->|]; [by rewrite Eb|]. apply B1. lia. }
    destruct Hb as [->|(ch & e & ->)]; cbn [next element invalid mbind option_bind].
    + apply Hset; [done|]. apply copied_thumb_skip; [|done]. unfold valid_at. by rewrite Eb.
    + destruct (copied_thumb_set rhs t1 j n (Some bs1) lf Hwf) as (t2 & -> & Ht2); [lia| |done|].
      { unfold valid_at. by rewrite Eb. }
      cbn [mbind option_bind]. rewrite (proj2 (forallb_forall _ _)) by (intros; apply Hpool). by apply Hset.
  - rewrite Z.add_0_l, Z2Nat.id in * by lia. rewrite E. exists bs', t'. done.
Qed.

(** The map whose buckets are those of [rhs] holds the same pairs. *)
Lemma copied_Repr rhs g bs t lf n :
  Repr rhs g -> 10 <= lf <= 100 -> (Z.to_nat (_nbucket rhs) < length bs)%nat ->
  copied_thumb rhs t (_nbucket rhs) ->
  (forall i, 0 <= i < _nbucket rhs -> map_at (Some bs) i = bucket_at rhs i) -> n = _size rhs ->
  Repr (mkFlatMap n (_nbucket rhs)
    (Some (<[Z.to_nat (_nbucket rhs) := Some (mkBucket (Some []) None)]> bs)) t lf) g.
Proof.
  intros HR Hlf Hlen Ht Hb ->. pose proof (Repr_wf _ _ HR) as Hwf. pose proof (nb_bounds rhs Hwf).
  set (m := mkFlatMap _ _ _ _ _).
  assert (forall i, 0 <= i < _nbucket rhs -> bucket_at m i = bucket_at rhs i) as Hat.
  { intros i Hi. rewrite bucket_at_map. cbn. rewrite map_at_set, decide_False by lia. by apply Hb. }
  split.
  - split; cbn; [apply Hwf|done| | |].
    + intros i Hi. rewrite Hat by done. by apply Hwf.
    + rewrite bucket_at_map. cbn. rewrite map_at_set by lia. by rewrite decide_True.
    + unfold thumb_ok, copied_thumb in *. destruct _S; [|done]. destruct Ht as (t' & -> & Hw & Hz & Hbit).
      exists t'. split_and!; [done..|]. cbn. intros i Hi. rewrite Hbit by done.
      rewrite (proj2 (Z.ltb_lt i _)) by lia. unfold valid_at. by rewrite Hat.
  - apply HR.
  - cbn. intros i b Hi Eb. rewrite Hat in Eb by done. exact (Repr_at _ _ HR i b Hi Eb).
Qed.

(** A map that init() was never called on. *)
Definition fresh (m : Map) : Prop := _size m = 0 /\ _buckets m = None /\ _thumbnail m = None.

Lemma clear_fresh m : fresh m -> clear m = Some m.
Proof. intros (E & _). unfold clear. by rewrite E. Qed.

(** operator= on new buckets. *)
Lemma assign_copy rhs g bs t lf :
  Repr rhs g -> 10 <= lf <= 100 -> (Z.to_nat (_nbucket rhs) < length bs)%nat -> copied_thumb rhs t 0 ->
  exists m', (m ← for_range (copy_bucket _S pool_get rhs) (Z.to_nat (_nbucket rhs)) 0 (mkFlatMap 0 (_nbucket rhs) (Some bs) t lf);
      m ← set_bucket m (_nbucket rhs) (mkBucket (Some []) None); Some (with_size m (_size rhs))) = Some m' /\
    Repr m' g /\ _nbucket m' = _nbucket rhs.
Proof.
  intros HR Hlf Hlen Ht. pose proof (Repr_wf _ _ HR) as Hwf. pose proof (nb_bounds rhs Hwf).
  destruct (copy_loop rhs 0 bs t lf Hwf Hlen Ht) as (bs' & t' & -> & L & T & B). cbn [mbind option_bind].
  unfold set_bucket. cbn [_buckets mbind option_bind]. rewrite decide_True by lia. cbn [mbind option_bind].
  eexists. split; [done|]. split; [|done].
  exact (copied_Repr rhs g bs' t' lf (_size rhs) HR Hlf ltac:(lia) T B eq_refl).
Qed.

Lemma fresh_thumb rhs nb : wf rhs -> nb = _nbucket rhs ->
  alloc_ok ((nb + 63) / 64 * 8) = true -> _S = true ->
  exists t t', thumbnail_malloc alloc_ok junk nb = Some t /\ bit_array_clear t nb = Some t' /\
    copied_thumb rhs (Some t') 0.
Proof.
  intros Hwf -> Hm HS. pose proof (nb_bounds rhs Hwf). pose proof (thumbnail_malloc_eq (_nbucket rhs) ltac:(lia)) as Ht.
  destruct (thumbnail_malloc alloc_ok junk (_nbucket rhs)) as [t|]; [|congruence].
  destruct Ht as (_ & Hw & Hz). pose proof (words_enough (_nbucket rhs) ltac:(lia)).
  destruct (clear_thumb t (_nbucket rhs)) as (t' & E & C1 & C2 & C3); [lia|done|lia|].
  exists t, t'. split; [done|]. split; [done|]. unfold copied_thumb. rewrite HS. exists t'.
  split_and!; [done..|lia|]. intros i Hi. rewrite C3 by done. by destruct (Z.ltb_spec i 0); [lia|].
Qed.

(** The thumbnail and the buckets of a map that was cleared. *)
Lemma Repr_empty_thumb m rhs :
  Repr m ∅ -> _nbucket m = _nbucket rhs -> copied_thumb rhs (_thumbnail m) 0.
Proof.
  intros HR En. pose proof (wf_thumb _ (Repr_wf _ _ HR)) as Ht. unfold thumb_ok, copied_thumb in *.
  destruct _S; [|done]. destruct Ht as (t & -> & Hw & Hz & Hb). exists t. split_and!; [done..|lia|].
  intros i Hi. rewrite Hb by lia. unfold valid_at.
  destruct (valid_at_blist m i (Repr_wf _ _ HR) ltac:(lia)) as (b & Eb & _ & El & Ev). rewrite Eb, Ev.
  destruct (blist_at_holds m ∅ i HR ltac:(lia)) as [_ Hm]. destruct (blist_at m i) as [|[k v] l].
  { by destruct (Z.ltb_spec i 0); [lia|]. }
  exfalso. destruct (proj1 (Hm k v) ltac:(by left)) as [E _]. by rewrite lookup_empty in E.
Qed.

Lemma wf_buckets m : wf m -> exists bs, _buckets m = Some bs /\ (Z.to_nat (_nbucket m) < length bs)%nat.
Proof.
  intros Hwf. pose proof (wf_end m Hwf) as E. unfold bucket_at in E. destruct (_buckets m) as [bs|]; [|done].
  exists bs. split; [done|]. cbn in E. destruct (bs !! Z.to_nat (_nbucket m)) eqn:Ex; [|done]. by eapply lookup_lt_Some.
Qed.

Abbreviation assign' := (assign _hashfn _eql T_default _S sizeof_Bucket alloc_ok junk pool_get).

Lemma if_true {A} (b : bool) (x y : A) : b = true -> (if b then x else y) = x.
Proof. by intros ->. Qed.
Lemma if_false {A} (b : bool) (x y : A) : b = false -> (if b then x else y) = y.
Proof. by intros ->. Qed.

(** operator= from a map with elements, when there is memory for its buckets. *)
Lemma assign_fresh m rhs g :
  fresh m -> Repr rhs g -> g <> ∅ -> mem_ok (_nbucket rhs) = true ->
  exists m', assign' false m rhs = Some m' /\ Repr m' g /\ _nbucket m' = _nbucket rhs.
Proof.
  intros Hf HR Hg Hmem. pose proof (Repr_wf _ _ HR) as Hwf. pose proof (nb_bounds rhs Hwf).
  destruct (Repr_size _ _ HR) as [Es _]. destruct m as [sz nb bks th lf].
  pose proof Hf as (F1 & F2 & F3). cbn in F1, F2, F3. subst. unfold assign. rewrite clear_fresh by done.
  cbn [mbind option_bind]. unfold empty. rewrite (proj2 (Z.eqb_neq (_size rhs) 0)).
  2:{ intros E. apply Hg, map_size_empty_inv. lia. }
  change (initialized (mkFlatMap 0 nb None None lf)) with false. cbn [_size _nbucket _buckets _thumbnail _load_factor].
  change (initialized (mkFlatMap 0 nb None None (_load_factor rhs))) with false. cbn [negb orb].
  apply andb_true_iff in Hmem as [Hm1 Hm2].
  rewrite alloc_buckets_eq, Hm1 by lia. unfold initialized. cbn [_buckets].
  rewrite bool_decide_eq_true_2 by (by eexists). cbn [negb _nbucket].
  assert (forall t, copied_thumb rhs t 0 -> exists m', (m ← for_range (copy_bucket _S pool_get rhs) (Z.to_nat (_nbucket rhs)) 0
      (mkFlatMap 0 (_nbucket rhs) (Some (replicate (Z.to_nat (_nbucket rhs + 1)) None)) t (_load_factor rhs));
      m ← set_bucket m (_nbucket rhs) (mkBucket (Some []) None); Some (with_size m (_size rhs))) = Some m' /\
    Repr m' g /\ _nbucket m' = _nbucket rhs) as Hcopy.
  { intros t Ht. apply assign_copy; [done|apply Hwf|rewrite length_replicate; lia|done]. }
  destruct (bool_dec _S true) as [HS|HS%not_true_iff_false].
  - rewrite HS in Hm2. cbn in Hm2. destruct (fresh_thumb rhs (_nbucket rhs) Hwf eq_refl Hm2 HS) as (t & t' & E1 & E2 & Ht).
    rewrite (if_true _ _ _ HS), E1. cbn [mbind option_bind]. rewrite E2. cbn [mbind option_bind negb with_thumbnail _nbucket].
    rewrite Z.eqb_refl. by apply Hcopy.
  - rewrite (if_false _ _ _ HS). cbn [mbind option_bind negb _nbucket]. rewrite Z.eqb_refl. apply Hcopy.
    unfold copied_thumb. by rewrite HS.
Qed.

Lemma assign_map m rhs mg g :
  Repr m mg -> iter_ok m -> Repr rhs g -> iter_ok rhs -> mem_ok (_nbucket rhs) = true ->
  exists m', assign' false m rhs = Some m' /\ Repr m' g /\ iter_ok m'.
Proof.
  intros HRm Hokm HR Hok Hmem. pose proof (Repr_wf _ _ HR) as Hwf. pose proof (nb_bounds rhs Hwf).
  destruct (Repr_size _ _ HR) as [Es Hs]. unfold assign.
  destruct (map_clear_spec m mg HRm) as (m1 & -> & HR1 & Hn1 & Hl1). cbn [mbind option_bind].
  pose proof (Repr_wf _ _ HR1) as Hwf1. pose proof (nb_bounds m1 Hwf1).
  unfold empty. destruct (Z.eqb_spec (_size rhs) 0) as [E0|Hne].
  { exists m1. split; [done|]. replace g with (∅ : gmap K V) by (symmetry; apply map_size_empty_inv; lia).
    split; [done|]. intros ES. specialize (Hokm ES). lia. }
  cbv zeta. rewrite !(wf_init m1 Hwf1). cbn [negb orb]. destruct (Repr_size _ _ HR1) as [Es1 _].
  assert (_size m1 = 0) as Ez by (rewrite Es1; by rewrite map_size_empty).
  destruct (is_too_crowded m1 (_size rhs)).
  - apply andb_true_iff in Hmem as [Hm1 Hm2].
    rewrite alloc_buckets_eq, Hm1 by lia. unfold initialized. cbn [_buckets].
    rewrite bool_decide_eq_true_2 by (by eexists). cbn [negb _nbucket]. rewrite Ez.
    assert (forall t, copied_thumb rhs t 0 -> exists m', (m ← for_range (copy_bucket _S pool_get rhs) (Z.to_nat (_nbucket rhs)) 0
      (mkFlatMap 0 (_nbucket rhs) (Some (replicate (Z.to_nat (_nbucket rhs + 1)) None)) t (_load_factor m1));
      m ← set_bucket m (_nbucket rhs) (mkBucket (Some []) None); Some (with_size m (_size rhs))) = Some m' /\
      Repr m' g /\ iter_ok m') as Hcopy.
    { intros t Ht. destruct (assign_copy rhs g (replicate (Z.to_nat (_nbucket rhs + 1)) None) t (_load_factor m1) HR)
        as (m' & E & HR' & Hn'); [apply Hwf1|rewrite length_replicate; lia|done|].
      exists m'. split_and!; [done..|]. intros ES. specialize (Hok ES). lia. }
    destruct (bool_dec _S true) as [HS|HS%not_true_iff_false].
    + rewrite HS in Hm2. cbn in Hm2. destruct (fresh_thumb rhs (_nbucket rhs) Hwf eq_refl Hm2 HS) as (t & t' & E1 & E2 & Ht).
      rewrite (if_true _ _ _ HS), E1. cbn [mbind option_bind]. rewrite E2. cbn [mbind option_bind negb with_thumbnail _nbucket].
      rewrite Z.eqb_refl. by apply Hcopy.
    + rewrite (if_false _ _ _ HS). cbn [mbind option_bind negb _nbucket]. rewrite Z.eqb_refl. apply Hcopy.
      pose proof (wf_thumb m1 Hwf1) as Ht. unfold thumb_ok, copied_thumb in *. by rewrite HS in *.
  - cbn [mbind option_bind negb]. destruct (Z.eqb_spec (_nbucket m1) (_nbucket rhs)) as [En|Hnb].
    + destruct (wf_buckets m1 Hwf1) as (bs & Eb & Hlen).
      destruct (assign_copy rhs g bs (_thumbnail m1) (_load_factor m1) HR) as (m' & E & HR' & Hn').
      { apply Hwf1. } { by rewrite <-En. } { by apply Repr_empty_thumb. }
      exists m'. split_and!; [|done|intros ES; specialize (Hok ES); lia].
      assert (m1 = mkFlatMap 0 (_nbucket rhs) (Some bs) (_thumbnail m1) (_load_factor m1)) as Em.
      { rewrite <-Eb, <-En, <-Ez. by destruct m1. }
      rewrite <-Em in E. exact E.
    + rewrite (for_each_spec rhs g) by done.
      destruct (assign_loop _ (_load_factor m1) 8 (2 ^ 35 - 1) (all_contents rhs) m1 ∅
        (index_ok _ (proj1 (wf_lf m1 Hwf1))) HR1) as (m' & E & HR' & Hl' & Hn'); [|done|lia| |].
      { intros ES. specialize (Hokm ES). lia. }
      { rewrite (contents_size rhs g HR). lia. }
      rewrite (fold_insert_map _ g (contents_map rhs g HR)) in HR'. exists m'. split_and!; [done..|].
      intros ES. specialize (Hokm ES). lia.
Qed.

(** The copy of an empty map was never initialised. *)
Lemma copy_empty rhs :
  Repr rhs ∅ -> exists m', FlatMap_copy _hashfn _eql T_default _S sizeof_Bucket alloc_ok junk pool_get rhs = Some m' /\
    initialized m' = false /\ forall k, index _hashfn _eql T_default _S sizeof_Bucket alloc_ok junk pool_get m' k = None.
Proof.
  intros HR. destruct (Repr_size _ _ HR) as [E _]. rewrite map_size_empty in E.
  unfold FlatMap_copy, assign, empty. rewrite E. cbn. eexists. split; [done|]. split; [done|].
  intros k. done.
Qed.

(** *** Iteration in several passes *)

(** What a hint taken at [it] remembers. *)
Definition hint_of (h : @PositionHint K) (it : Iter) (nb : Z) : Prop :=
  nbucket h = nb /\ offset h = _pos it /\ 0 <= offset h <= nb /\
  (offset h < nb -> at_entry h = false -> is_Some (hint_key h)).

Lemma iter_eta it p : _node it = p -> it = mkIter p (_pos it).
Proof. intros <-. by destruct it. Qed.

Lemma find_chain_at (l : list (K * V)) d e :
  NoDup l.*1 -> l !! d = Some e -> find_chain _eql e.1 l 0 = Some d.
Proof.
  intros Hn Hd. pose proof (find_chain_spec e.1 l 0) as Hf. destruct (find_chain _eql e.1 l 0) as [r|].
  - destruct Hf as (j & e' & -> & Hj & He). f_equal. cbn.
    apply (NoDup_lookup l.*1 _ _ e.1 Hn); rewrite list_lookup_fmap; [rewrite Hj; cbn; by rewrite He|by rewrite Hd].
  - exfalso. apply Hf. apply list_elem_of_fmap. exists e. split; [done|]. apply list_elem_of_lookup. eauto.
Qed.

Lemma iterator_at_valid m i :
  _S = false -> wf m -> 0 <= i < _nbucket m -> blist_at m i <> [] ->
  iterator_at _S m i = Some (mkIter (Some (i, O)) i).
Proof.
  intros HS Hwf Hi Hne. unfold iterator_at, find_and_set_valid_node. rewrite (wf_init m Hwf).
  rewrite (if_false _ _ _ HS). cbn [find_entry].
  destruct (valid_at_blist m i Hwf Hi) as (b & Eb & _ & _ & Ev).
  rewrite Eb. cbn [mbind option_bind]. rewrite Ev, bool_decide_eq_false_2 by done. done.
Qed.

(** save_iterator, and restore_iterator on the unchanged map. *)
Lemma save_restore m g it l :
  _S = false -> Repr m g -> rest m it l ->
  exists h, save_iterator _S m it = Some h /\ hint_of h it (_nbucket m) /\
    restore_iterator _eql _S m h = Some it.
Proof.
  intros HS HR Hr. pose proof (Repr_wf _ _ HR) as Hwf. pose proof (nb_bounds m Hwf).
  unfold save_iterator. rewrite (end_spec m Hwf). cbn [mbind option_bind]. rewrite (rest_end m it l Hwf Hr).
  destruct Hr as (d & En & [(Hp & -> & ->)|(Hp & Hd & ->)]).
  { rewrite bool_decide_eq_true_2 by done. cbn [negb]. eexists. split; [done|].
    split; [unfold hint_of; cbn; split_and!; done || lia|]. unfold restore_iterator.
    cbn [nbucket offset]. rewrite Z.eqb_refl. cbn [negb]. rewrite (proj2 (Z.leb_le _ _)) by lia.
    rewrite (end_spec m Hwf). f_equal. rewrite (iter_eta it _ En). by rewrite Hp. }
  rewrite bool_decide_eq_false_2.
  2:{ intros [E _]%app_eq_nil. apply (f_equal length) in E. rewrite length_drop in E. cbn in E. lia. }
  cbn [negb]. destruct (node_element_at m _ d Hwf Hp Hd) as (Hl & b & ch & Eb & Ech & Elen).
  destruct (lookup_lt_is_Some_2 _ _ Hd) as [e He]. unfold iter_deref. rewrite En. cbn [mbind option_bind].
  rewrite Hl, He. cbn [mbind option_bind]. eexists. split; [done|].
  split; [unfold hint_of; cbn; split_and!; try done; try lia; by eexists|].
  unfold restore_iterator. cbn [nbucket offset at_entry hint_key]. rewrite Z.eqb_refl. cbn [negb].
  rewrite (proj2 (Z.leb_gt _ _)) by lia. rewrite Eb. cbn [mbind option_bind]. case_bool_decide as E.
  - injection E as ->. rewrite (iterator_at_valid m _ HS Hwf Hp).
    + f_equal. by rewrite (iter_eta it _ En).
    + intros E0. rewrite E0 in Hd. cbn in Hd. lia.
  - rewrite Ech. cbn [mbind option_bind]. destruct (wf_at m Hwf _ Hp) as (b' & Eb' & Hb).
    rewrite Eb in Eb'. injection Eb' as <-. destruct Hb as [->|(ch' & e' & ->)]; [done|].
    cbn in Ech. injection Ech as ->. cbn [element mbind option_bind].
    destruct (blist_at_holds m g _ HR Hp) as [Hn _]. unfold blist_at in Hn, He. rewrite Eb in Hn, He.
    rewrite (find_chain_at (e' :: ch) d e Hn He). f_equal. by rewrite (iter_eta it _ En).
Qed.

(** On a map that was changed but not resized: no bucket after the hint's is
    left out, whatever was erased or inserted meanwhile. *)
Lemma restore_covers m g h it :
  _S = false -> Repr m g -> hint_of h it (_nbucket m) ->
  exists it' l, restore_iterator _eql _S m h = Some it' /\ rest m it' l /\
    forall j x, offset h < j < _nbucket m -> x ∈ blist_at m j -> x ∈ l.
Proof.
  intros HS HR (E1 & E2 & Ho & Hk). pose proof (Repr_wf _ _ HR) as Hwf. pose proof (nb_bounds m Hwf).
  assert (iter_ok m) as Hok by (intros E; congruence).
  assert (forall pos, 0 <= pos <= _nbucket m -> pos <= offset h + 1 -> exists it' l, iterator_at _S m pos = Some it' /\
    rest m it' l /\ forall j x, offset h < j < _nbucket m -> x ∈ blist_at m j -> x ∈ l) as Hat.
  { intros pos Hp Hle. unfold iterator_at. rewrite (wf_init m Hwf).
    destruct (find_valid_spec m pos Hwf Hok Hp) as (it' & -> & Hr). eexists _, _. split; [done|].
    split; [exact Hr|]. intros j x Hj Hx. apply elem_contents. exists j. split; [lia|done]. }
  unfold restore_iterator. rewrite E1, Z.eqb_refl. cbn [negb].
  destruct (Z.leb_spec (_nbucket m) (offset h)) as [Hge|Hlt].
  { rewrite (end_spec m Hwf). eexists _, []. split; [done|]. split; [|intros; lia].
    exists O. split; [done|]. by left. }
  destruct (wf_at m Hwf (offset h)) as (b & Eb & Hb); [lia|]. rewrite Eb. cbn [mbind option_bind].
  destruct (at_entry h); [apply Hat; lia|].
  destruct Hb as [->|(ch & e & ->)]; cbn [next element invalid mbind option_bind]; [apply Hat; lia|].
  destruct (Hk Hlt eq_refl) as [k Ek]. rewrite Ek. cbn [mbind option_bind].
  pose proof (find_chain_spec k (e :: ch) 0) as Hf. destruct (find_chain _eql k (e :: ch) 0) as [d|]; [|apply Hat; lia].
  destruct Hf as (d' & e' & -> & Hd & _). eexists _, _. split; [done|].
  assert (blist_at m (offset h) = e :: ch) as El by (unfold blist_at; by rewrite Eb).
  split.
  - exists d'. split; [done|]. right. cbn [_pos]. split; [lia|]. rewrite El. split; [by eapply lookup_lt_Some|]. done.
  - intros j x Hj Hx. apply elem_of_app. right. apply elem_contents. exists j. split; [cbn; lia|done].
Qed.

(** *** A client *)

Inductive op :=
  | Seek (k : K) | Erase (k : K) | Insert (k : K) (v : V) | Index (k : K) | Clear | Resize (n : Z).

(** What the client sees: a value that was found or erased, or the pair that a
    returned reference refers to. *)
Inductive out := OFound (v : option V) | OErased (n : Z) (v : option V) | ORef (e : option (K * V)) | ONone.

Definition run_op (m : Map) (o : op) : option (Map * out) :=
  match o with
  | Seek k =>
      r ← seek _hashfn _eql m k;
      match r with Some p => e ← load m p; Some (m, OFound (Some e.2)) | None => Some (m, OFound None) end
  | Erase k => '(m, n, v) ← erase _hashfn _eql _S m k; Some (m, OErased n v)
  | Insert k v => '(m, p) ← insert _hashfn _eql T_default _S sizeof_Bucket alloc_ok junk pool_get m k v; Some (m, ORef (load m p))
  | Index k => '(m, p) ← index _hashfn _eql T_default _S sizeof_Bucket alloc_ok junk pool_get m k; Some (m, ORef (load m p))
  | Clear => m ← clear m; Some (m, ONone)
  | Resize n => '(m, _) ← resize _hashfn _eql T_default _S sizeof_Bucket alloc_ok junk pool_get m n; Some (m, ONone)
  end.

Fixpoint run_ops (os : list op) (m : Map) : option (Map * list out) :=
  match os with
  | [] => Some (m, [])
  | o :: os => '(m, x) ← run_op m o; '(m, xs) ← run_ops os m; Some (m, x :: xs)
  end.

(** The same on a finite map. *)
Definition spec_op (g : gmap K V) (o : op) : gmap K V * out :=
  match o with
  | Seek k => (g, OFound (g !! k))
  | Erase k => (delete k g, OErased (found (g !! k)) (g !! k))
  | Insert k v => (<[k := v]> g, ORef (Some (k, v)))
  | Index k => (ins g k, ORef (Some (k, default T_default (g !! k))))
  | Clear => (∅, ONone)
  | Resize n => (g, ONone)
  end.

Fixpoint spec_ops (os : list op) (g : gmap K V) : gmap K V * list out :=
  match os with
  | [] => (g, [])
  | o :: os => let (g, x) := spec_op g o in let (g, xs) := spec_ops os g in (g, x :: xs)
  end.

(** A sparse map keeps 64 buckets. *)
Definition op_ok (o : op) : Prop :=
  match o with Resize n => 0 < n <= 2 ^ 40 /\ (_S = true -> 64 <= flatmap_round n) | _ => True end.

Lemma run_op_spec m g o :
  Repr m g -> iter_ok m -> _size m < 2 ^ 35 -> op_ok o ->
  exists m', run_op m o = Some (m', (spec_op g o).2) /\ Repr m' (spec_op g o).1 /\ iter_ok m' /\
    _size m' <= _size m + 1.
Proof.
  intros HR Hok Hs Ho. assert (forall m' g', Repr m' g' -> (size g' <= Datatypes.S (size g))%nat -> _size m' <= _size m + 1) as Hsz.
  { intros m' g' HR' Hle. destruct (Repr_size _ _ HR') as [-> _], (Repr_size _ _ HR) as [-> _]. lia. }
  destruct o as [k|k|k v|k| |n]; cbn [run_op spec_op fst snd].
  - destruct (seek_spec m g k HR) as (r & -> & Hr). cbn [mbind option_bind]. destruct r as [p|].
    + destruct Hr as (_ & v & -> & E). cbn. rewrite E. exists m. split_and!; done || lia.
    + rewrite Hr. exists m. split_and!; done || lia.
  - destruct (erase_spec m g k HR) as (m' & -> & HR' & Hn & _). cbn. exists m'. split_and!; try done.
    + intros ES. specialize (Hok ES). lia.
    + eapply Hsz; [done|]. rewrite map_size_delete. destruct (g !! k); cbn; lia.
  - destruct (insert_spec m g k v HR Hok Hs) as (m' & p & -> & HR' & Hok' & _ & Hl). cbn. rewrite Hl.
    exists m'. split_and!; try done. eapply Hsz; [done|]. apply size_insert_le.
  - destruct (index_spec m g k HR Hok Hs) as (m' & p & -> & HR' & Hok' & _ & Hl). cbn. rewrite Hl.
    exists m'. split_and!; try done. eapply Hsz; [done|]. unfold ins. destruct (g !! k); [lia|]. apply size_insert_le.
  - destruct (map_clear_spec m g HR) as (m' & -> & HR' & Hn & _). cbn. exists m'. split_and!; try done.
    + intros ES. specialize (Hok ES). lia.
    + eapply Hsz; [done|]. rewrite map_size_empty. lia.
  - destruct Ho as [Hn HS]. destruct (resize_spec m g n HR Hok Hn HS) as (m' & -> & HR' & Hok'). cbn.
    exists m'. split_and!; try done. eapply Hsz; [done|]. lia.
Qed.

Lemma run_ops_spec os : forall m g,
  Repr m g -> iter_ok m -> _size m + zlen os <= 2 ^ 35 -> Forall op_ok os ->
  exists m', run_ops os m = Some (m', (spec_ops os g).2) /\ Repr m' (spec_ops os g).1 /\ iter_ok m'.
Proof.
  induction os as [|o os IH]; intros m g HR Hok Hs Hos; cbn [run_ops spec_ops]; [by exists m|].
  apply Forall_cons in Hos as [Ho Hos]. rewrite zlen_cons in Hs. pose proof (zlen_nonneg os).
  destruct (run_op_spec m g o HR Hok ltac:(lia) Ho) as (m1 & -> & HR1 & Hok1 & Hs1). cbn [mbind option_bind].
  destruct (spec_op g o) as [g1 x]. cbn [fst snd] in *.
  destruct (IH m1 g1 HR1 Hok1 ltac:(lia) Hos) as (m2 & -> & HR2 & Hok2). cbn [mbind option_bind].
  destruct (spec_ops os g1) as [g2 xs]. cbn [fst snd] in *. by exists m2.
Qed.

Lemma spec_ops_size os : forall g, (Z.of_nat (size (spec_ops os g).1) <= Z.of_nat (size g) + zlen os).
Proof.
  induction os as [|o os IH]; intros g; cbn [spec_ops]; [unfold zlen; cbn; lia|].
  assert (size (spec_op g o).1 <= Datatypes.S (size g))%nat as Ho.
  { destruct o as [k|k|k v|k| |n]; cbn [spec_op fst]; [lia| | | |rewrite map_size_empty; lia|lia].
    - rewrite map_size_delete. destruct (g !! k); cbn; lia.
    - apply size_insert_le.
    - unfold ins. destruct (g !! k); [lia|apply size_insert_le]. }
  destruct (spec_op g o) as [g1 x]. cbn [fst] in Ho. specialize (IH g1).
  destruct (spec_ops os g1) as [g2 xs]. cbn [fst] in *. rewrite zlen_cons. lia.
Qed.

Lemma fold_collect (l : list (K * V)) s : fold_opt (fun x s => Some (s ++ [x])) l s = Some (s ++ l).
Proof.
  revert s. induction l as [|x l IH]; intros s; cbn; [by rewrite app_nil_r|]. by rewrite IH, <-app_assoc.
Qed.

(** ** Maps made by init() and a sequence of calls *)

Definition built (nbucket load_factor : Z) (os : list op) (m : Map) : Prop :=
  exists m0 outs, init _S sizeof_Bucket alloc_ok junk FlatMap_ctor nbucket load_factor = Some (m0, 0) /\
    run_ops os m0 = Some (m, outs).

(** Sizes that keep the counters far from wrapping; a sparse map has 64 buckets. *)
Definition cfg_ok (nbucket : Z) (os : list op) : Prop :=
  0 <= nbucket <= 2 ^ 40 /\ (_S = true -> 64 <= flatmap_round nbucket) /\ Forall op_ok os /\ zlen os <= 2 ^ 35.

Lemma init_ok nbucket load_factor m0 :
  0 <= nbucket <= 2 ^ 40 -> (_S = true -> 64 <= flatmap_round nbucket) ->
  init _S sizeof_Bucket alloc_ok junk FlatMap_ctor nbucket load_factor = Some (m0, 0) ->
  Repr m0 ∅ /\ iter_ok m0 /\ _size m0 = 0.
Proof.
  intros Hn HS E. destruct (init_spec (@FlatMap_ctor K V) nbucket load_factor) as (m' & r & E' & Hr); [done..|].
  rewrite E in E'. injection E' as -> <-. destruct (_ && _ && _ && _) in Hr; [|done].
  destruct Hr as (_ & HR & Hnb & _). destruct (Repr_size _ _ HR) as [Es _]. rewrite map_size_empty in Es.
  split; [done|]. split; [|done]. intros ES. rewrite Hnb. by apply HS.
Qed.

Lemma built_Repr nbucket load_factor os m :
  cfg_ok nbucket os -> built nbucket load_factor os m ->
  Repr m (spec_ops os ∅).1 /\ iter_ok m.
Proof.
  intros (Hn & HS & Hos & Hl) (m0 & outs & E0 & E). destruct (init_ok _ _ _ Hn HS E0) as (HR0 & Hok0 & Es).
  destruct (run_ops_spec os m0 ∅ HR0 Hok0) as (m' & E' & HR & Hok); [lia|done|].
  rewrite E in E'. by injection E' as -> _.
Qed.

(** All the elements, as an iteration gives them. *)
Definition elements (m : Map) : option (list (K * V)) := for_each _S m (fun x s => Some (s ++ [x])) [].

Lemma elements_spec m g : Repr m g -> iter_ok m ->
  exists l, elements m = Some l /\ l ≡ₚ map_to_list g.
Proof.
  intros HR Hok. unfold elements. rewrite (for_each_spec m g) by done. rewrite fold_collect.
  eexists. split; [done|]. cbn. by apply contents_map.
Qed.

(** The iterator after [n] elements. *)
Fixpoint nth_iter (m : Map) (n : nat) : option Iter :=
  match n with O => begin _S m | S n => it ← nth_iter m n; iter_next _S m it end.

Lemma nth_iter_spec m g n : Repr m g -> iter_ok m -> Z.of_nat n <= _size m ->
  exists it, nth_iter m n = Some it /\ rest m it (drop n (all_contents m)).
Proof.
  intros HR Hok. pose proof (Repr_wf _ _ HR) as Hwf. pose proof (nb_bounds m Hwf).
  pose proof (contents_size m g HR) as Hz. unfold zlen in Hz.
  induction n as [|n IH]; intros Hn; cbn [nth_iter].
  - unfold begin, iterator_at. rewrite (wf_init m Hwf).
    destruct (find_valid_spec m 0 Hwf Hok) as (it & -> & Hr); [lia|]. rewrite Z.sub_0_r in Hr. by exists it.
  - destruct IH as (it & -> & Hr); [lia|]. cbn [mbind option_bind].
    destruct (lookup_lt_is_Some_2 (all_contents m) n) as [x Hx]; [lia|].
    rewrite (drop_S _ _ _ Hx) in Hr. destruct (iter_next_spec m it x _ Hwf Hok Hr) as (_ & it' & E & Hr').
    by exists it'.
Qed.

(** What an iteration from [it] on collects. *)
Definition elements_from (m : Map) (it : Iter) : option (list (K * V)) :=
  iterate _S m (fun x s => Some (s ++ [x])) (Z.to_nat (_size m)) it [].

Lemma contents_app m a b i : contents m (a + b) i = contents m a i ++ contents m b (i + Z.of_nat a).
Proof.
  revert i. induction a as [|a IH]; intros i; cbn [contents Nat.add app].
  - f_equal. lia.
  - rewrite IH, <-app_assoc. do 3 f_equal. lia.
Qed.

Lemma rest_length m it l : wf m -> rest m it l -> (length l <= length (all_contents m))%nat.
Proof.
  intros Hwf (d & _ & [(_ & _ & ->)|(Hp & Hd & ->)]); [cbn; lia|]. unfold all_contents.
  replace (Z.to_nat (_nbucket m)) with
    (Z.to_nat (_pos it) + Datatypes.S (Z.to_nat (_nbucket m - _pos it - 1)))%nat by lia.
  rewrite contents_app. cbn [contents]. rewrite Z.add_0_l, Z2Nat.id by lia.
  rewrite !length_app, length_drop. lia.
Qed.

Lemma elements_from_spec m g it l :
  Repr m g -> iter_ok m -> rest m it l -> elements_from m it = Some l.
Proof.
  intros HR Hok Hr. pose proof (Repr_wf _ _ HR) as Hwf. unfold elements_from.
  rewrite (iterate_spec m _ _ it l) by first [done | pose proof (rest_length m it l Hwf Hr);
    pose proof (contents_size m g HR); unfold zlen in *; lia].
  apply fold_collect.
Qed.

(** ** Iteration of a sparse map of one word of bits *)

(** The bits of the thumbnail above its last bucket, which malloc left. *)
Definition padded (m : Map) : Prop :=
  forall t, _thumbnail m = Some t -> forall i, _nbucket m <= i < 64 -> bit t i = false.

Record small_sparse (m : Map) : Prop := mkSmall {
  ss_sparse : _S = true;
  ss_wf : wf m;
  ss_nb : _nbucket m < 64;
  ss_pad : padded m;
  ss_last : blist_at m (_nbucket m - 1) = [];
  ss_some : exists j, 0 <= j < _nbucket m /\ blist_at m j <> [] }.

(** [it] is at an element. *)
Definition live (m : Map) (it : Iter) : Prop :=
  exists d, _node it = Some (_pos it, d) /\ 0 <= _pos it < _nbucket m /\ (d < length (blist_at m (_pos it)))%nat.

Lemma live_at m j : 0 <= j < _nbucket m -> blist_at m j <> [] -> live m (mkIter (Some (j, O)) j).
Proof. intros Hj Hne. exists O. split; [done|]. split; [done|]. cbn. destruct (blist_at m j); [done|cbn; lia]. Qed.

Lemma small_find m pos : small_sparse m -> 0 <= pos < _nbucket m ->
  exists it, find_and_set_valid_node _S m pos = Some it /\ live m it.
Proof.
  intros [HS Hwf Hnb Hpad Hlast (j & Hj & Hne)] Hp. unfold find_and_set_valid_node. rewrite HS.
  assert (forall i, 0 <= i < _nbucket m -> exists b, bucket_at m i = Some b /\
    is_valid b = negb (bool_decide (blist_at m i = []))) as Hat.
  { intros i Hi. destruct (valid_at_blist m i Hwf Hi) as (b & Eb & _ & _ & Ev). eauto. }
  destruct (Hat pos Hp) as (b & -> & Ev). cbn [mbind option_bind]. rewrite Ev.
  case_bool_decide as E; cbn [negb mbind option_bind].
  2:{ eexists. split; [done|]. by apply live_at. }
  pose proof (wf_thumb m Hwf) as Ht. unfold thumb_ok in Ht. rewrite HS in Ht.
  destruct Ht as (t & Et & Hw & Hz & Hbit). rewrite Et. cbn [mbind option_bind].
  assert (forall i, 0 <= i < _nbucket m -> bit t i = negb (bool_decide (blist_at m i = []))) as Hb.
  { intros i Hi. rewrite Hbit by done. unfold valid_at. by destruct (Hat i Hi) as (bi & -> & ->). }
  destruct (first1_one_word t (pos + 1) (_nbucket m) j Hw) as (r & -> & Hr & Er);
    [lia|lia|done|done|by rewrite Hb, bool_decide_eq_false_2 by done|by apply Hpad|].
  cbn [mbind option_bind]. eexists. split; [done|]. apply live_at; [done|].
  rewrite Hb in Er by done. by case_bool_decide.
Qed.

Lemma small_step m it : small_sparse m -> live m it ->
  exists kv it', iter_deref m it = Some kv /\ iter_next _S m it = Some it' /\ live m it' /\
    iter_eqb it (mkIter (Some (_nbucket m, O)) (_nbucket m)) = false.
Proof.
  intros Hs (d & En & Hp & Hd). pose proof (ss_wf _ Hs) as Hwf.
  destruct (node_element_at m _ d Hwf Hp Hd) as (Hl & b & ch & Eb & Ech & Elen).
  destruct (lookup_lt_is_Some_2 _ _ Hd) as [y Hy]. exists y.
  unfold iter_deref, iter_next, iter_eqb. rewrite En. cbn [mbind option_bind fst snd _node]. rewrite Hl, Hy, Eb.
  cbn [mbind option_bind]. rewrite Ech. cbn [mbind option_bind].
  rewrite (bool_decide_eq_false_2 (Some _ = _)) by (intros [= ?]; lia).
  destruct (Nat.ltb_spec d (length ch)) as [Hlt|Hge].
  - eexists. split; [done|]. split; [done|]. split; [|done]. exists (Datatypes.S d). cbn. split_and!; [done|lia..].
  - rewrite (proj2 (Nat.eqb_eq d (length ch))) by lia.
    destruct (small_find m (_pos it + 1) Hs) as (it' & -> & Hr); [|by eauto 10].
    split; [lia|]. destruct (decide (_pos it = _nbucket m - 1)) as [E|]; [|lia].
    rewrite E, (ss_last _ Hs) in Hd. cbn in Hd. lia.
Qed.

Lemma small_nth m n : small_sparse m -> exists it, nth_iter m n = Some it /\ live m it.
Proof.
  intros Hs. pose proof (nb_bounds m (ss_wf _ Hs)). induction n as [|n (it & E & Hl)]; cbn [nth_iter].
  - unfold begin, iterator_at. rewrite (wf_init m (ss_wf _ Hs)). apply small_find; [done|lia].
  - rewrite E. cbn [mbind option_bind]. destruct (small_step m it Hs Hl) as (_ & it' & _ & -> & Hl' & _). by exists it'.
Qed.

Lemma small_iterate {A} m (f : K * V -> A -> option A) fuel : small_sparse m ->
  forall it s, live m it -> iterate _S m f fuel it s = None.
Proof.
  intros Hs. induction fuel as [|fuel IH]; intros it s Hl; cbn [iterate];
    rewrite (end_spec m (ss_wf _ Hs)); cbn [mbind option_bind];
    destruct (small_step m it Hs Hl) as (kv & it' & Ed & En & Hl' & ->); [done|].
  rewrite Ed. cbn [mbind option_bind]. destruct (f kv s) as [s'|]; [|done]. cbn [mbind option_bind].
  rewrite En. cbn [mbind option_bind]. by apply IH.
Qed.

(** Writes that keep the shape and the thumbnail. *)
Definition same_padding (m m' : Map) : Prop := same_shape m m' /\ (padded m -> padded m').

Lemma same_padding_thumb m m' :
  _nbucket m' = _nbucket m -> _load_factor m' = _load_factor m -> _thumbnail m' = _thumbnail m -> same_padding m m'.
Proof. intros E1 E2 E3. split; [done|]. unfold padded. by rewrite E1, E3. Qed.

Lemma set_bucket_same m i b m' : set_bucket m i b = Some m' -> same_padding m m'.
Proof.
  unfold set_bucket. intros (bs & _ & E)%option.bind_Some. destruct (decide _); simplify_eq. by apply same_padding_thumb.
Qed.

Lemma same_padding_trans m1 m2 m3 : same_padding m1 m2 -> same_padding m2 m3 -> same_padding m1 m3.
Proof. intros [[A1 A2] A3] [[B1 B2] B3]. split; [split; congruence|auto]. Qed.

Lemma store_same m p v m' : store m p v = Some m' -> same_padding m m'.
Proof.
  unfold store. intros (b & _ & E)%option.bind_Some. destruct p.2.
  - apply option.bind_Some in E as (e & _ & E). by eapply set_bucket_same.
  - apply option.bind_Some in E as (ch & _ & E). apply option.bind_Some in E as (e & _ & E). by eapply set_bucket_same.
Qed.

Lemma set_thumbnail_same m i n m' : wf m -> 0 <= i < _nbucket m ->
  on_thumbnail _S (fun t => bit_array_set t i) (with_size m n) = Some m' -> same_padding m m'.
Proof.
  intros Hwf Hi. pose proof (wf_thumb m Hwf) as Ht. unfold on_thumbnail, thumb_ok in *. destruct _S.
  - destruct Ht as (t & Et & Hw & Hz & _). cbn [_thumbnail with_size]. rewrite Et. cbn [mbind option_bind].
    destruct (set_spec t i Hw) as (t' & -> & Hw' & Hz' & Hb); [lia|]. intros [= <-]. split; [done|].
    intros Hpad t'' [= <-] j Hj. cbn in Hj. rewrite Hb, (Hpad t Et) by lia. destruct (Z.eqb_spec j i); [lia|done].
  - intros [= <-]. by apply same_padding_thumb.
Qed.

Lemma subscript_step_same sub m k m' p :
  wf m -> is_too_crowded m (_size m) = false ->
  subscript_step _hashfn _eql T_default _S sizeof_Bucket alloc_ok junk pool_get sub m k = Some (m', p) ->
  same_padding m m'.
Proof.
  intros Hwf Hc. unfold subscript_step. fold (hix m k). pose proof (hix_range m k Hwf) as Hi.
  intros (b & _ & E)%option.bind_Some. destruct (next b) as [ch|].
  - apply option.bind_Some in E as (e & _ & E). destruct (find_chain _eql k (e :: ch) 0); [simplify_eq; by apply same_padding_thumb|].
    rewrite Hc in E. cbn [mbind option_bind] in E. rewrite Hpool in E. cbn [negb] in E.
    apply option.bind_Some in E as (m1 & E1 & [= <- _]). apply set_bucket_same in E1. exact E1.
  - apply option.bind_Some in E as (m1 & E1 & E). apply option.bind_Some in E as (m2 & E2 & [= <- _]).
    eapply same_padding_trans; [by eapply set_thumbnail_same|by eapply set_bucket_same].
Qed.

(** An insertion into a map that is not crowded. *)
Lemma insert_small m g k v :
  Repr m g -> _size m < 2 ^ 35 -> _size m * 100 < _nbucket m * _load_factor m -> padded m ->
  exists m' p, insert _hashfn _eql T_default _S sizeof_Bucket alloc_ok junk pool_get m k v = Some (m', p) /\
    Repr m' (<[k := v]> g) /\ same_shape m m' /\ padded m' /\ load m' p = Some (k, v).
Proof.
  intros HR Hs Hc Hpad. pose proof (Repr_wf _ _ HR) as Hwf. destruct (Repr_size _ _ HR) as [Es _].
  assert (is_too_crowded m (_size m) = false) as Hcr.
  { rewrite crowded_eq by (done || lia). by apply Z.leb_gt. }
  unfold insert. change (index _hashfn _eql T_default _S sizeof_Bucket alloc_ok junk pool_get m k) with
    (subscript_step _hashfn _eql T_default _S sizeof_Bucket alloc_ok junk pool_get
      (subscript _hashfn _eql T_default _S sizeof_Bucket alloc_ok junk pool_get 63) m k).
  destruct (subscript_step_spec (subscript _hashfn _eql T_default _S sizeof_Bucket alloc_ok junk pool_get 63)
    (_load_factor m) m g k HR) as (m1 & p & E1 & HR1 & _ & _ & Hp & Hl); [lia|done|done|lia|].
  rewrite E1. cbn [mbind option_bind]. apply subscript_step_same in E1 as [Hsh1 Hpad1]; [|done|done].
  destruct (store_spec m1 _ p k _ v HR1 Hp Hl) as (m2 & E2 & HR2 & Hsh2 & Hl2). rewrite E2.
  apply store_same in E2 as [_ Hpad2]. exists m2, p. split; [done|]. rewrite insert_ins in HR2.
  split; [done|]. split; [destruct Hsh1, Hsh2; split; congruence|]. auto.
Qed.

Lemma inserts_small (l : list (K * V)) : forall m g,
  Repr m g -> _size m + zlen l <= 2 ^ 35 -> (_size m + zlen l) * 100 <= _nbucket m * _load_factor m -> padded m ->
  exists m' outs, run_ops ((fun kv => Insert kv.1 kv.2) <$> l) m = Some (m', outs) /\
    Repr m' (fold_left (fun g kv => <[kv.1 := kv.2]> g) l g) /\ same_shape m m' /\ padded m'.
Proof.
  induction l as [|[k v] l IH]; intros m g HR Hs Hc Hpad.
  { eexists m, _. by split. }
  rewrite zlen_cons in *. pose proof (zlen_nonneg l).
  destruct (insert_small m g k v HR) as (m1 & p & E1 & HR1 & [Hn1 Hl1] & Hpad1 & Hld); [lia|lia|done|].
  assert (_size m1 <= _size m + 1) as Hs1.
  { destruct (Repr_size _ _ HR1) as [-> _], (Repr_size _ _ HR) as [-> _]. pose proof (size_insert_le g k v). lia. }
  destruct (IH m1 (<[k := v]> g) HR1) as (m2 & outs & E2 & HR2 & [Hn2 Hl2] & Hpad2); [lia|rewrite Hn1, Hl1; lia|done|].
  cbn [fmap list_fmap run_ops run_op fst snd fold_left]. rewrite E1. cbn [mbind option_bind]. rewrite Hld. cbn [mbind option_bind].
  change (list_fmap _ _ _ l) with ((fun kv : K * V => Insert kv.1 kv.2) <$> l). rewrite E2. cbn [mbind option_bind].
  eexists m2, _. split; [done|]. split; [done|]. split; [split; congruence|done].
Qed.

Lemma fold_insert_is_Some (l : list (K * V)) k : forall g : gmap K V,
  is_Some (fold_left (fun g kv => <[kv.1 := kv.2]> g) l g !! k) <-> k ∈ l.*1 \/ is_Some (g !! k).
Proof.
  induction l as [|[k' v] l IH]; intros g; cbn [fold_left fmap list_fmap fst snd].
  - split; [by right|]. intros [Hk|]; [by apply not_elem_of_nil in Hk|done].
  - rewrite IH, elem_of_cons, lookup_insert_is_Some'. split; [intros [|[|]]|intros [[|]|]]; auto.
Qed.

(** What init() leaves of the word of a small thumbnail. *)
Lemma init_padded nb0 lf m0 : _S = true -> 0 < nb0 <= 32 -> u64 (junk O) < 2 ^ flatmap_round nb0 ->
  init _S sizeof_Bucket alloc_ok junk (@FlatMap_ctor K V) nb0 lf = Some (m0, 0) ->
  _nbucket m0 = flatmap_round nb0 -> 8 <= flatmap_round nb0 < 64 -> padded m0.
Proof.
  intros HS Hn Hj E En Hnb. set (nb := flatmap_round nb0) in *. unfold padded. rewrite En.
  unfold init in E. change (initialized (@FlatMap_ctor K V)) with false in E. cbn [negb] in E.
  destruct (nb0 =? 0); [done|]. destruct ((lf <? 10) || (100 <? lf)); [done|]. fold nb in E.
  destruct (negb _); [done|]. apply option.bind_Some in E as (m1 & _ & E). apply option.bind_Some in E as (m2 & _ & E).
  rewrite HS in E. unfold thumbnail_malloc, bit_array_malloc in E. rewrite (proj2 (Z.eqb_neq nb 0)) in E by lia.
  cbn [mbind option_bind] in E. rewrite (wrapu_small 64 (nb + 63)) in E by lia.
  assert ((nb + 63) / 64 = 1) as Ediv.
  { symmetry. apply (Z.div_unique _ _ 1 (nb - 1)); lia. }
  rewrite Ediv in E. destruct (alloc_ok (1 * 8)); [|done]. cbn [Z.to_nat seq fmap list_fmap Pos.to_nat Pos.iter_op Nat.add] in E.
  apply option.bind_Some in E as (t & Et & [= <-]). intros t' [= <-] i Hi.
  assert (0 <= u64 (junk O) < 2 ^ 64) as Hw by (apply wrapu_range; lia).
  destruct (bit_clear_spec [u64 (junk O)] nb) as (t1 & Et1 & _ & _ & Hb); [by constructor|change (64 * zlen [u64 (junk O)]) with 64; lia|].
  change (bit_array_clear [u64 (junk O)] nb = Some t) in Et. rewrite Et in Et1. injection Et1 as <-. rewrite Hb by lia.
  pose proof (bit_word [u64 (junk O)] 0 (u64 (junk O)) i eq_refl ltac:(lia) ltac:(lia)) as Ei.
  change (64 * 0 + i) with i in Ei. rewrite Ei.
  rewrite andb_comm. destruct (Z.eq_dec (u64 (junk O)) 0) as [->|Hne]; [by rewrite Z.bits_0|].
  rewrite Z.bits_above_log2; [done|lia|]. apply Z.log2_lt_pow2; [lia|].
  eapply Z.lt_le_trans; [exact Hj|]. apply Z.pow_le_mono_r; lia.
Qed.

(** The small maps that insertions make. *)
Lemma inserted_small nb0 lf m0 (l : list (K * V)) :
  _S = true -> 0 < nb0 <= 32 -> init _S sizeof_Bucket alloc_ok junk (@FlatMap_ctor K V) nb0 lf = Some (m0, 0) ->
  u64 (junk O) < 2 ^ flatmap_round nb0 -> l <> [] -> zlen l * 100 <= flatmap_round nb0 * lf ->
  (forall k, k ∈ l.*1 -> _hashfn k mod flatmap_round nb0 <> flatmap_round nb0 - 1) ->
  exists m outs, run_ops ((fun kv => Insert kv.1 kv.2) <$> l) m0 = Some (m, outs) /\ small_sparse m.
Proof.
  intros HS Hn E Hj Hl Hc Hk.
  destruct (init_spec (@FlatMap_ctor K V) nb0 lf) as (m0' & r & E' & Hr); [done|done|lia|].
  rewrite E in E'. injection E' as <- <-. destruct (_ && _ && _ && _) in Hr; [|done]. destruct Hr as (_ & HR0 & En & Elf).
  destruct (flatmap_round_spec nb0) as (k & Hk3 & Enb & _ & Hgt); [lia|].
  assert (8 <= flatmap_round nb0 < 64) as Hnb.
  { pose proof (nb_bounds m0 (Repr_wf _ _ HR0)). split; [lia|]. destruct (Z.le_gt_cases nb0 8) as [H8|H8].
    - unfold flatmap_round. rewrite (proj2 (Z.leb_le _ _) H8). lia.
    - specialize (Hgt H8). rewrite Enb. apply (Z.pow_lt_mono_r 2 k 6); [lia..|].
      assert (k - 1 < 5); [|lia]. apply (Z.pow_lt_mono_r_iff 2); [lia..|]. change (2 ^ 5) with 32. lia. }
  pose proof (wf_lf _ (Repr_wf _ _ HR0)) as Hlf. rewrite Elf in Hlf.
  pose proof (init_padded nb0 lf m0 HS Hn Hj E En Hnb) as Hpad.
  destruct (Repr_size _ _ HR0) as [Es _]. rewrite map_size_empty in Es. assert (_size m0 = 0) as E0 by done.
  destruct (inserts_small l m0 ∅ HR0) as (m & outs & Er & HR & [Hn1 Hl1] & Hpad1);
    [rewrite E0; nia|rewrite E0, En, Elf; lia|done|].
  exists m, outs. split; [done|]. rewrite En in Hn1.
  assert (forall k, hix m k = _hashfn k mod flatmap_round nb0) as Hix.
  { intros k'. unfold hix. rewrite Hn1, Enb. apply flatmap_mod_eq. lia. }
  split; [done|apply HR|lia|done| |].
  - destruct (blist_at m _) as [|[k' v'] rest] eqn:Eb; [done|]. exfalso.
    destruct (blist_at_holds m _ (_nbucket m - 1) HR ltac:(lia)) as [_ Hm].
    destruct (proj1 (Hm k' v')) as [Eg Eh]; [rewrite Eb; by left|].
    rewrite Hix, Hn1 in Eh. apply (Hk k'); [|done].
    destruct (proj1 (fold_insert_is_Some l k' ∅)) as [Hin|Hno]; [by eexists|done|].
    rewrite lookup_empty in Hno. by destruct Hno.
  - destruct l as [|[k' v'] l']; [done|]. destruct (proj2 (fold_insert_is_Some ((k', v') :: l') k' ∅)) as [w Ew]; [left; by left|].
    exists (hix m k'). pose proof (hix_range m k' (Repr_wf _ _ HR)) as Hh. split; [done|]. intros Enil.
    destruct (blist_at_holds m _ _ HR Hh) as [_ Hm]. rewrite Enil in Hm.
    eapply not_elem_of_nil. apply (Hm k' w). by split.
Qed.

End Spec.

Arguments Repr {K V _ _}.

(** When the pool has no memory, operator[] of a new key whose bucket is in use
    constructs the node at NULL. *)
Lemma new_node_needs_memory {K V} `{Countable K} hashfn eql (T_default : V) S sizeof_Bucket alloc_ok junk pool_get
    (m : @FlatMap K V) g k :
  (forall a b, eql a b = true <-> a = b) -> Repr hashfn S m g -> g !! k = None ->
  valid_at m (hix hashfn m k) = true -> is_too_crowded m (_size m) = false -> pool_get m k = false ->
  index hashfn eql T_default S sizeof_Bucket alloc_ok junk pool_get m k = None.
Proof.
  intros Heql HR Eg Hv Hc Hp. destruct (Repr_bucket hashfn S m g k HR) as (b & Eb & Hb & _ & Hm).
  change (subscript_step hashfn eql T_default S sizeof_Bucket alloc_ok junk pool_get
    (subscript hashfn eql T_default S sizeof_Bucket alloc_ok junk pool_get 63) m k = None).
  unfold valid_at in Hv. rewrite Eb in Hv. unfold subscript_step. fold (hix hashfn m k). rewrite Eb.
  destruct Hb as [->|(ch & e & ->)]; [done|]. cbn [mbind option_bind next element].
  pose proof (find_chain_spec eql Heql k (e :: ch) 0) as Hf. destruct (find_chain eql k (e :: ch) 0) as [d|].
  - destruct Hf as (j & [k' v] & _ & Ej & Ek). cbn in Ek. subst k'.
    destruct (proj1 (Hm k v)) as [E _]; [by eapply list_elem_of_lookup_2|congruence].
  - rewrite Hc. cbn [mbind option_bind]. by rewrite Hp.
Qed.

(** C4. From init() on, any sequence of seek, erase, insert, operator[], clear
    and resize runs without touching memory it must not, ends (operator[] and
    resize call each other), and returns what a finite map returns, whichever
    allocations of buckets fail, as long as the pool of nodes has memory
    ([new_node_needs_memory]); size() is the number of keys, and an iteration
    visits every pair once. *)
Theorem flatmap_refines_map {K V} `{Countable K} hashfn eql (T_default : V) S sizeof_Bucket alloc_ok junk pool_get
    nbucket load_factor (os : list (@op K V)) :
  (forall a b, eql a b = true <-> a = b) ->
  0 < sizeof_Bucket /\ sizeof_Bucket * (2 ^ 40 + 1) < 2 ^ 64 ->
  (forall m k, pool_get m k = true) ->
  0 < nbucket -> 10 <= load_factor <= 100 -> cfg_ok S nbucket os ->
  mem_ok S sizeof_Bucket alloc_ok (flatmap_round nbucket) = true ->
  exists m0 m, init S sizeof_Bucket alloc_ok junk FlatMap_ctor nbucket load_factor = Some (m0, 0) /\
    run_ops hashfn eql T_default S sizeof_Bucket alloc_ok junk pool_get os m0 = Some (m, (spec_ops T_default os ∅).2) /\
    _size m = Z.of_nat (size (spec_ops T_default os ∅).1) /\
    exists l, elements S m = Some l /\ l ≡ₚ map_to_list (spec_ops T_default os ∅).1.
Proof.
  intros Heql Hsz Hpool Hn Hlf (Hn' & HS & Hos & Hl) Hmem.
  destruct (init_spec hashfn S sizeof_Bucket alloc_ok junk Hsz (@FlatMap_ctor K V) nbucket load_factor)
    as (m0 & r & E & Hr); [done|done|lia|].
  rewrite (proj2 (Z.eqb_neq nbucket 0)), (proj2 (Z.leb_le 10 _)), (proj2 (Z.leb_le _ 100)), Hmem in Hr by lia.
  destruct Hr as (-> & _).
  destruct (init_ok hashfn S sizeof_Bucket alloc_ok junk Hsz nbucket load_factor m0 Hn' HS E) as (HR0 & Hok0 & Es).
  destruct (run_ops_spec hashfn eql T_default S sizeof_Bucket alloc_ok junk Heql Hsz pool_get Hpool os m0 ∅ HR0 Hok0)
    as (m & E' & HR & Hok); [lia|done|].
  exists m0, m. split; [done|]. split; [done|]. split; [apply HR|]. by eapply elements_spec.
Qed.

(** A sparse map of 64 buckets with colliding keys, that cannot grow. *)
Theorem flatmap_refines_map_witness :
  let os := [Insert 3 30; Insert 67 40; Insert 131 50; Seek 67; Erase 3; Index 7; Resize 128; Insert 67 41; Seek 3; Erase 67] in
  let hash := fun k => 2 * k in
  let mem := fun n => n <? 5000 in
  exists m0 m, init true 32 mem (fun _ => 5) FlatMap_ctor 60 20 = Some (m0, 0) /\
    run_ops hash Z.eqb 0 true 32 mem (fun _ => 5) (fun _ _ => true) os m0 = Some (m, (spec_ops 0 os ∅).2) /\
    _size m = Z.of_nat (size (spec_ops 0 os ∅).1) /\
    exists l, elements true m = Some l /\ l ≡ₚ map_to_list (spec_ops 0 os ∅).1.
Proof.
  intros os hash mem. apply (flatmap_refines_map hash Z.eqb 0 true 32 mem (fun _ => 5) (fun _ _ => true) 60 20 os).
  - exact Z.eqb_eq.
  - by split.
  - done.
  - done.
  - done.
  - split_and!; [done|done|done| |done]. repeat constructor; done.
  - by vm_compute.
Defined.

(** operator= makes this map hold what [rhs] holds, on new buckets or on
    its own; so does the copy constructor for a map that is not empty.  The
    copy of an empty map, though it was initialised, is not initialised:
    operator[] on it reads buckets that are not there. *)
Theorem assign_copies {K V} `{Countable K} hashfn eql (T_default : V) S sizeof_Bucket alloc_ok junk pool_get
    nb1 lf1 os1 nb2 lf2 os2 (m rhs : @FlatMap K V) :
  (forall a b, eql a b = true <-> a = b) ->
  0 < sizeof_Bucket /\ sizeof_Bucket * (2 ^ 40 + 1) < 2 ^ 64 ->
  (forall m k, pool_get m k = true) ->
  cfg_ok S nb1 os1 -> built hashfn eql T_default S sizeof_Bucket alloc_ok junk pool_get nb1 lf1 os1 m ->
  cfg_ok S nb2 os2 -> built hashfn eql T_default S sizeof_Bucket alloc_ok junk pool_get nb2 lf2 os2 rhs ->
  mem_ok S sizeof_Bucket alloc_ok (_nbucket rhs) = true ->
  (exists m', assign hashfn eql T_default S sizeof_Bucket alloc_ok junk pool_get false m rhs = Some m' /\
     exists l, elements S m' = Some l /\ l ≡ₚ map_to_list (spec_ops T_default os2 ∅).1) /\
  exists m', FlatMap_copy hashfn eql T_default S sizeof_Bucket alloc_ok junk pool_get rhs = Some m' /\
    if decide ((spec_ops T_default os2 ∅).1 = ∅)
    then initialized m' = false /\ forall k, index hashfn eql T_default S sizeof_Bucket alloc_ok junk pool_get m' k = None
    else exists l, elements S m' = Some l /\ l ≡ₚ map_to_list (spec_ops T_default os2 ∅).1.
Proof.
  intros Heql Hsz Hpool Hc1 Hb1 Hc2 Hb2 Hmem.
  destruct (built_Repr hashfn eql T_default S sizeof_Bucket alloc_ok junk Heql Hsz pool_get Hpool nb1 lf1 os1 m Hc1 Hb1) as [HR1 Hok1].
  destruct (built_Repr hashfn eql T_default S sizeof_Bucket alloc_ok junk Heql Hsz pool_get Hpool nb2 lf2 os2 rhs Hc2 Hb2) as [HR2 Hok2].
  split.
  - destruct (assign_map hashfn eql T_default S sizeof_Bucket alloc_ok junk Heql Hsz pool_get Hpool m rhs _ _ HR1 Hok1 HR2 Hok2 Hmem)
      as (m' & E & HR' & Hok'). exists m'. split; [done|]. by eapply elements_spec.
  - destruct (decide _) as [E0|Hne].
    + rewrite E0 in HR2. destruct (copy_empty hashfn eql T_default S sizeof_Bucket alloc_ok junk pool_get rhs HR2) as (m' & E & H').
      by exists m'.
    + destruct (assign_fresh hashfn eql T_default S sizeof_Bucket alloc_ok junk Hsz pool_get Hpool
        (mkFlatMap 0 0 None None (_load_factor rhs)) rhs (spec_ops T_default os2 ∅).1) as (m' & E & HR' & Hn');
        [done|done|done|done|].
      exists m'. split; [done|]. eapply elements_spec; [done|]. intros ES. rewrite Hn'. by apply Hok2.
Qed.

Definition copy_example (os : list (@op Z Z)) (nb : Z) : option FlatMap :=
  '(m0, _) ← init false 32 (fun _ => true) (fun _ => 0) FlatMap_ctor nb 80;
  '(m, _) ← run_ops (fun k => k) Z.eqb 0 false 32 (fun _ => true) (fun _ => 0) (fun _ _ => true) os m0; Some m.

Theorem assign_copies_witness :
  exists m rhs, copy_example [Insert 1 1] 8 = Some m /\ copy_example [Insert 2 2; Insert 34 3] 32 = Some rhs /\
  exists m', FlatMap_copy (fun k => k) Z.eqb 0 false 32 (fun _ => true) (fun _ => 0) (fun _ _ => true) rhs = Some m' /\
    exists l, elements false m' = Some l /\ l ≡ₚ map_to_list (spec_ops 0 [Insert 2 2; Insert 34 3] ∅).1.
Proof.
  eexists _, _. split; [by vm_compute|]. split; [by vm_compute|].
  edestruct (assign_copies (fun k => k) Z.eqb 0 false 32 (fun _ => true) (fun _ => 0) (fun _ _ => true)
    8 80 [Insert 1 1] 32 80 [Insert 2 2; Insert 34 3]) as [_ Hcopy].
  - exact Z.eqb_eq.
  - by split.
  - done.
  - split_and!; [done|done|done| |done]. repeat constructor; done.
  - eexists _, _. split; [vm_compute; reflexivity|]. vm_compute. reflexivity.
  - split_and!; [done|done|done| |done]. repeat constructor; done.
  - eexists _, _. split; [vm_compute; reflexivity|]. vm_compute. reflexivity.
  - by vm_compute.
  - exact Hcopy.
Defined.

(** Iteration in several passes: a hint saved at any point of an iteration
    restores the iterator if the map did not change; if it changed but has as
    many buckets, the resumed iteration still visits every element of the
    buckets after the hint's. *)
Theorem iteration_resumes {K V} `{Countable K} hashfn eql (T_default : V) sizeof_Bucket alloc_ok junk pool_get
    nb lf os n os' (m m' : @FlatMap K V) outs :
  (forall a b, eql a b = true <-> a = b) ->
  0 < sizeof_Bucket /\ sizeof_Bucket * (2 ^ 40 + 1) < 2 ^ 64 ->
  (forall m k, pool_get m k = true) ->
  cfg_ok false nb (os ++ os') -> built hashfn eql T_default false sizeof_Bucket alloc_ok junk pool_get nb lf os m ->
  Z.of_nat n <= _size m ->
  run_ops hashfn eql T_default false sizeof_Bucket alloc_ok junk pool_get os' m = Some (m', outs) ->
  _nbucket m' = _nbucket m ->
  exists it h, nth_iter false m n = Some it /\ save_iterator false m it = Some h /\
    restore_iterator eql false m h = Some it /\
    exists it' l, restore_iterator eql false m' h = Some it' /\ elements_from false m' it' = Some l /\
      forall k v, (spec_ops T_default os' (spec_ops T_default os ∅).1).1 !! k = Some v ->
        offset h < hix hashfn m' k -> (k, v) ∈ l.
Proof.
  intros Heql Hsz Hpool (Hn & HS & Hos & Hlen) Hb Hi Erun Enb. apply Forall_app in Hos as [Hos Hos'].
  rewrite zlen_app in Hlen. pose proof (zlen_nonneg os). pose proof (zlen_nonneg os').
  destruct Hb as (m0 & o0 & E0 & E).
  destruct (init_ok hashfn false sizeof_Bucket alloc_ok junk Hsz _ _ _ Hn HS E0) as (HR0 & Hok0 & Es0).
  destruct (run_ops_spec hashfn eql T_default false sizeof_Bucket alloc_ok junk Heql Hsz pool_get Hpool os m0 ∅ HR0 Hok0)
    as (m1 & E1 & HR & Hok); [lia|done|].
  rewrite E in E1. injection E1 as <- ->. clear E.
  assert (_size m <= zlen os) as Hsm.
  { destruct (Repr_size _ _ _ _ HR) as [-> _]. pose proof (spec_ops_size T_default os ∅) as Hz.
    rewrite map_size_empty in Hz. lia. }
  destruct (run_ops_spec hashfn eql T_default false sizeof_Bucket alloc_ok junk Heql Hsz pool_get Hpool os' m _ HR Hok)
    as (m2 & E2 & HR' & Hok'); [lia|done|].
  rewrite Erun in E2. injection E2 as <- ->.
  destruct (nth_iter_spec hashfn false m _ n HR Hok Hi) as (it & Eit & Hr).
  destruct (save_restore hashfn eql false Heql m _ it _ eq_refl HR Hr) as (h & Eh & Hh & Eres).
  exists it, h. split_and!; [done..|]. rewrite <-Enb in Hh.
  destruct (restore_covers hashfn eql false Heql m' _ h it eq_refl HR' Hh) as (it' & l & E' & Hr' & Hcov).
  exists it', l. split; [done|]. split; [by eapply elements_from_spec|].
  intros k v Ek Hlt. pose proof (hix_range hashfn false m' k (Repr_wf _ _ _ _ HR')).
  apply (Hcov (hix hashfn m' k)); [lia|]. by apply (blist_at_holds hashfn false m' _ _ HR').
Qed.

Theorem iteration_resumes_witness :
  exists m it h, copy_example [Insert 1 10; Insert 9 11; Insert 2 20; Insert 3 30] 8 = Some m /\
    nth_iter false m 1 = Some it /\ save_iterator false m it = Some h /\
    exists m' outs, run_ops (fun k => k) Z.eqb 0 false 32 (fun _ => true) (fun _ => 0) (fun _ _ => true) [Erase 1; Erase 2; Insert 6 60] m =
      Some (m', outs) /\
    exists it' l, restore_iterator Z.eqb false m' h = Some it' /\ elements_from false m' it' = Some l /\ (6, 60) ∈ l.
Proof.
  edestruct (iteration_resumes (fun k => k) Z.eqb 0 32 (fun _ => true) (fun _ => 0) (fun _ _ => true) 8 80
    [Insert 1 10; Insert 9 11; Insert 2 20; Insert 3 30] 1%nat [Erase 1; Erase 2; Insert 6 60])
    as (it & h & E1 & E2 & _ & it' & l & E3 & E4 & E5).
  - exact Z.eqb_eq.
  - by split.
  - done.
  - split_and!; [done|done|done| |done]. repeat constructor; done.
  - eexists _, _. split; [vm_compute; reflexivity|]. vm_compute. reflexivity.
  - by vm_compute.
  - vm_compute. reflexivity.
  - reflexivity.
  - eexists _, it, h. split; [vm_compute; reflexivity|]. split; [exact E1|]. split; [exact E2|].
    eexists _, _. split; [vm_compute; reflexivity|]. exists it', l. split; [exact E3|]. split; [exact E4|].
    apply E5; [by vm_compute|]. vm_compute in E1. injection E1 as <-. vm_compute in E2. by injection E2 as <-.
Defined.

(** C32. A sparse map of 8, 16 or 32 buckets whose last bucket no key falls in:
    after any insertions that do not crowd it, at least one, ++ never takes an
    iterator from begin() to end(): after any number of steps it is at an
    element; a loop over the map with any body ends for no fuel.  (Where
    malloc's word has no bit above the map's buckets.) *)
Theorem sparse_iteration_never_ends {K V} `{Countable K} hashfn eql (T_default : V) sizeof_Bucket alloc_ok junk pool_get
    nbucket load_factor (l : list (K * V)) m0 :
  (forall a b, eql a b = true <-> a = b) ->
  0 < sizeof_Bucket /\ sizeof_Bucket * (2 ^ 40 + 1) < 2 ^ 64 ->
  (forall m k, pool_get m k = true) ->
  0 < nbucket <= 32 ->
  init true sizeof_Bucket alloc_ok junk FlatMap_ctor nbucket load_factor = Some (m0, 0) ->
  u64 (junk O) < 2 ^ flatmap_round nbucket ->
  l <> [] -> zlen l * 100 <= flatmap_round nbucket * load_factor ->
  (forall k, k ∈ l.*1 -> hashfn k mod flatmap_round nbucket <> flatmap_round nbucket - 1) ->
  exists m outs e, run_ops hashfn eql T_default true sizeof_Bucket alloc_ok junk pool_get
      ((fun kv => Insert kv.1 kv.2) <$> l) m0 = Some (m, outs) /\ end_ true m = Some e /\
    (forall n, exists it kv, nth_iter true m n = Some it /\ iter_eqb it e = false /\ iter_deref m it = Some kv) /\
    forall A (f : K * V -> A -> option A) fuel it s, begin true m = Some it -> iterate true m f fuel it s = None.
Proof.
  intros Heql Hsz Hpool Hn E Hj Hl Hc Hk.
  destruct (inserted_small hashfn eql T_default true sizeof_Bucket alloc_ok junk Heql Hsz pool_get Hpool
    nbucket load_factor m0 l eq_refl Hn E Hj Hl Hc Hk) as (m & outs & Er & Hs).
  exists m, outs, (mkIter (Some (_nbucket m, O)) (_nbucket m)). split; [done|].
  split; [exact (end_spec true m (ss_wf _ _ Hs))|]. split.
  - intros n. destruct (small_nth true m n Hs) as (it & Ei & Hlive).
    destruct (small_step true m it Hs Hlive) as (kv & _ & Ed & _ & _ & Ee). by exists it, kv.
  - intros A f fuel it s Eb. destruct (small_nth true m 0 Hs) as (it' & Ei & Hlive). cbn [nth_iter] in Ei.
    rewrite Eb in Ei. injection Ei as <-. by eapply small_iterate.
Qed.

(** Three keys, two of them in one bucket. *)
Theorem sparse_iteration_never_ends_witness :
  exists m0 m outs e, init true 32 (fun _ => true) (fun _ => 5) FlatMap_ctor 8 80 = Some (m0, 0) /\
    run_ops (fun k => k) Z.eqb 0 true 32 (fun _ => true) (fun _ => 5) (fun _ _ => true)
      [Insert 2 20; Insert 10 30; Insert 5 50] m0 = Some (m, outs) /\ end_ true m = Some e /\
    (forall n, exists it kv, nth_iter true m n = Some it /\ iter_eqb it e = false /\ iter_deref m it = Some kv) /\
    forall it s, begin true m = Some it -> forall fuel, iterate true m (fun x s => Some (s ++ [x])) fuel it s = None.
Proof.
  eexists. edestruct (sparse_iteration_never_ends (fun k => k) Z.eqb 0 32 (fun _ => true) (fun _ => 5) (fun _ _ => true)
    8 80 [(2, 20); (10, 30); (5, 50)]) as (m & outs & e & E1 & E2 & E3 & E4).
  - exact Z.eqb_eq.
  - by split.
  - done.
  - lia.
  - vm_compute. reflexivity.
  - by vm_compute.
  - done.
  - by vm_compute.
  - apply Forall_forall. repeat constructor; by vm_compute.
  - exists m, outs, e. split; [vm_compute; reflexivity|]. split; [exact E1|]. split; [exact E2|]. split; [exact E3|].
    intros it s Eb fuel. by apply E4.
Defined.

(** ** Strings as keys *)

(** A C string hashes as the std::string with the same characters. *)
Lemma hash_cstr_spec s tail r :
  Forall (fun c => c <> x00) s ->
  hash_cstr r (s ++ x00 :: tail) = Some (fold_left (fun result c => u64 (result * 101 + char_value c)) s r).
Proof.
  revert r. induction s as [|c s IH]; intros r Hs; [done|]. apply Forall_cons in Hs as [Hc Hs].
  cbn [app hash_cstr fold_left]. destruct (Byte.eqb c x00) eqn:E; [by apply byte_eqb_true in E|]. by apply IH.
Qed.
