(* ===== verification/Session.v ===== *)
(** * Session: versioned identifiers that can be locked (fiber/session.cc)

    SmallQueue is the queue of errors that wait for the lock of an id; Id is
    what a slot of the resource pool holds.  Each function of the interface is
    a section that runs under the mutex of the Id and then returns, waits on a
    butex, wakes others or calls the user's on_error; the sections are
    definitions on the Id here, and SessionSteps interleaves them. *)

From S2P Require Import Prelude.

(** ** SmallQueue<T, N>: N slots in place and a deque for the rest *)

Module SmallQueue.

(** [_full] is None for NULL; [_c] has N slots. *)
Record SmallQueue (T : Type) := mkSmallQueue {
  _begin : Z; _size : Z; _c : list T; _full : option (list T) }.
Arguments mkSmallQueue {T}.
Arguments _begin {T}.
Arguments _size {T}.
Arguments _c {T}.
Arguments _full {T}.

Section Ops.
Context {T : Type} (N : Z).

(** T() fills the slots. *)
Definition init (t0 : T) : SmallQueue T := mkSmallQueue 0 0 (replicate (Z.to_nat N) t0) None.

Definition full_empty (q : SmallQueue T) : bool :=
  match _full q with None => true | Some l => bool_decide (length l = O) end.

Definition push (val : T) (q : SmallQueue T) : option (SmallQueue T) :=
  if negb (full_empty q) then
    l ← _full q; Some (mkSmallQueue (_begin q) (_size q) (_c q) (Some (l ++ [val])))
  else if _size q <? N then
    let tail := i32 (_begin q + _size q) in
    let tail := if N <=? tail then i32 (tail - N) else tail in
    if decide (0 <= tail < zlen (_c q))
    then Some (mkSmallQueue (_begin q) (i32 (_size q + 1)) (<[Z.to_nat tail := val]> (_c q)) (_full q))
    else None
  else
    let l := match _full q with None => [] | Some l => l end in
    Some (mkSmallQueue (_begin q) (_size q) (_c q) (Some (l ++ [val]))).

Definition pop (q : SmallQueue T) : option (option T * SmallQueue T) :=
  if 0 <? _size q then
    val ← _c q !! Z.to_nat (_begin q);
    let b := i32 (_begin q + 1) in
    let b := if N <=? b then i32 (b - N) else b in
    Some (Some val, mkSmallQueue b (i32 (_size q - 1)) (_c q) (_full q))
  else
    match _full q with
    | Some (val :: l) => Some (Some val, mkSmallQueue (_begin q) (_size q) (_c q) (Some l))
    | _ => Some (None, q)
    end.

Definition empty (q : SmallQueue T) : bool := (_size q =? 0) && full_empty q.

Definition size (q : SmallQueue T) : Z :=
  u64 (_size q + match _full q with None => 0 | Some l => zlen l end).

Definition clear (q : SmallQueue T) : SmallQueue T :=
  mkSmallQueue 0 0 (_c q) ((fun _ => []) <$> _full q).

(** *** A first-in-first-out queue *)

Definition rest (q : SmallQueue T) : list T := default [] (_full q).

(** The elements in the slots, then those in the deque. *)
Record Repr (q : SmallQueue T) (l : list T) : Prop := mkRepr {
  Repr_slots : zlen (_c q) = N;
  Repr_split : exists l1, l = l1 ++ rest q /\ _size q = zlen l1 /\ Ring (_c q) (_begin q) l1 }.

Hypothesis N_range : 0 < N < 2 ^ 30.

Lemma init_Repr t0 : Repr (init t0) [].
Proof.
  assert (zlen (replicate (Z.to_nat N) t0) = N) as Hz by (unfold zlen; rewrite length_replicate; lia).
  split; [done|]. exists []. split; [done|]. split; [done|]. apply Ring_nil. cbn. lia.
Qed.

Lemma full_empty_rest q : full_empty q = bool_decide (rest q = []).
Proof.
  unfold full_empty, rest. destruct (_full q) as [[|x l]|]; [done| |done].
  by rewrite !bool_decide_eq_false_2.
Qed.

Lemma slots_bounds q (l1 : list T) :
  zlen (_c q) = N -> Ring (_c q) (_begin q) l1 -> 0 <= _begin q < N /\ 0 <= zlen l1 <= N.
Proof. intros Hc [Hs Hf _]. unfold zlen in *. lia. Qed.

(** The index that push() computes. *)
Lemma tail_eq q (l1 : list T) :
  zlen (_c q) = N -> Ring (_c q) (_begin q) l1 -> zlen l1 < N ->
  let tail := i32 (_begin q + zlen l1) in
  (if N <=? tail then i32 (tail - N) else tail) = Z.of_nat (ring_ix (_c q) (_begin q) (length l1)).
Proof.
  intros Hc HR Hl. pose proof (slots_bounds q l1 Hc HR) as [Hb Hz]. cbv zeta.
  rewrite i32_small by lia. unfold ring_ix. rewrite Hc. fold (zlen l1).
  pose proof (Z.mod_pos_bound (_begin q + zlen l1) N).
  destruct (Z.leb_spec N (_begin q + zlen l1)).
  - rewrite i32_small by lia. rewrite Z2Nat.id by lia.
    rewrite <-(Z_mod_plus_full _ (-1) N). symmetry. rewrite Z.mod_small by lia. lia.
  - rewrite Z2Nat.id by lia. rewrite Z.mod_small by lia. done.
Qed.

Lemma queue_push_spec v q l : Repr q l -> exists q', push v q = Some q' /\ Repr q' (l ++ [v]).
Proof.
  intros [Hc (l1 & -> & Hs & HR)]. pose proof (slots_bounds q l1 Hc HR) as [Hb Hz].
  unfold push. rewrite full_empty_rest, Hs. case_bool_decide as He; cbn [negb].
  - destruct (Z.ltb_spec (zlen l1) N) as [Hlt|Hge].
    + pose proof (tail_eq q l1 Hc HR Hlt) as Et. cbv zeta in Et. cbv zeta. rewrite Et.
      pose proof (ring_ix_lt (_c q) (_begin q) (length l1) ltac:(lia)) as Hi.
      rewrite decide_True by (unfold zlen in *; lia). rewrite Nat2Z.id. eexists. split; [done|].
      split; cbn; [unfold zlen in *; by rewrite length_insert|]. exists (l1 ++ [v]).
      rewrite He, app_nil_r. unfold rest in *. cbn. rewrite He, app_nil_r. split; [done|].
      split; [rewrite i32_small by lia; rewrite zlen_app; unfold zlen; cbn; lia|].
      apply Ring_snoc; [done|]. unfold zlen in *. lia.
    + eexists. split; [done|]. split; [done|]. exists l1. rewrite <-app_assoc. split; [|done]. f_equal.
  - destruct (_full q) as [l|] eqn:Ef; [|unfold rest in He; by rewrite Ef in He]. cbn [mbind option_bind].
    eexists. split; [done|]. split; [done|]. exists l1. rewrite <-app_assoc. unfold rest. rewrite Ef. done.
Qed.

Lemma queue_pop_spec q l :
  Repr q l ->
  match l with
  | [] => pop q = Some (None, q)
  | x :: l => exists q', pop q = Some (Some x, q') /\ Repr q' l
  end.
Proof.
  intros [Hc (l1 & -> & Hs & HR)]. pose proof (slots_bounds q l1 Hc HR) as [Hb Hz].
  unfold pop. rewrite Hs. destruct l1 as [|x l1].
  - change (0 <? zlen []) with false. cbn [app]. unfold rest. destruct (_full q) as [[|x l]|] eqn:Ef; cbn; [done| |done].
    eexists. split; [done|]. split; [done|]. exists []. split; [done|]. done.
  - rewrite zlen_cons in *. pose proof (zlen_nonneg l1). rewrite (proj2 (Z.ltb_lt _ _)) by lia. cbn [app].
    pose proof (ring_at _ _ _ HR 0 x eq_refl) as Hx. unfold ring_ix in Hx. rewrite Hc in Hx.
    rewrite Z.add_0_r, Z.mod_small in Hx by lia. rewrite Hx. cbn [mbind option_bind].
    eexists. split; [done|]. split; [done|]. exists l1. split; [done|]. cbn.
    split; [rewrite i32_small by lia; lia|]. apply Ring_tail in HR. rewrite Hc in HR.
    replace (if N <=? i32 (_begin q + 1) then i32 (i32 (_begin q + 1) - N) else i32 (_begin q + 1))
      with ((_begin q + 1) mod N); [done|].
    rewrite (i32_small (_begin q + 1)) by lia. destruct (Z.leb_spec N (_begin q + 1)).
    + rewrite i32_small by lia. replace (_begin q + 1) with N by lia. rewrite Z.mod_same; lia.
    + apply Z.mod_small. lia.
Qed.

Lemma clear_Repr q l : Repr q l -> Repr (clear q) [].
Proof.
  intros [Hc _]. split; [done|]. exists []. unfold rest. cbn. destruct (_full q); cbn.
  all: split; [done|]; split; [done|]; apply Ring_nil; lia.
Qed.

Lemma queue_empty_spec q l : Repr q l -> empty q = bool_decide (l = []).
Proof.
  intros [Hc (l1 & -> & Hs & _)]. unfold empty. rewrite full_empty_rest, Hs.
  destruct l1 as [|x l1]; [done|]. rewrite zlen_cons. pose proof (zlen_nonneg l1).
  rewrite (proj2 (Z.eqb_neq _ _)) by lia. done.
Qed.

Lemma queue_size_spec q l : Repr q l -> size q = u64 (zlen l).
Proof.
  intros [Hc (l1 & -> & Hs & _)]. unfold size, rest. rewrite Hs, zlen_app. do 2 f_equal.
  by destruct (_full q).
Qed.

(** A sequence of calls, with what pop() returns. *)
Inductive op := Push (v : T) | Pop | Clear.

Fixpoint run_ops (os : list op) (q : SmallQueue T) : option (list (option T) * SmallQueue T) :=
  match os with
  | [] => Some ([], q)
  | Push v :: os => q ← push v q; run_ops os q
  | Pop :: os => '(r, q) ← pop q; '(rs, q) ← run_ops os q; Some (r :: rs, q)
  | Clear :: os => run_ops os (clear q)
  end.

Fixpoint fifo_ops (os : list op) (l : list T) : list (option T) * list T :=
  match os with
  | [] => ([], l)
  | Push v :: os => fifo_ops os (l ++ [v])
  | Pop :: os => let (rs, l') := fifo_ops os (tail l) in (head l :: rs, l')
  | Clear :: os => fifo_ops os []
  end.

Lemma queue_ops_spec os : forall q l, Repr q l ->
  exists q', run_ops os q = Some ((fifo_ops os l).1, q') /\ Repr q' (fifo_ops os l).2.
Proof.
  induction os as [|[v| |] os IH]; intros q l HR; cbn [run_ops fifo_ops].
  - by exists q.
  - destruct (queue_push_spec v q l HR) as (q1 & -> & HR1). by apply IH.
  - pose proof (queue_pop_spec q l HR) as Hp. destruct l as [|x l].
    + rewrite Hp. cbn [mbind option_bind tail head]. destruct (IH q [] HR) as (q' & -> & HR'). cbn.
      destruct (fifo_ops os []). by exists q'.
    + destruct Hp as (q1 & -> & HR1). cbn [mbind option_bind tail head]. destruct (IH q1 l HR1) as (q' & -> & HR'). cbn.
      destruct (fifo_ops os l). by exists q'.
  - apply IH. by eapply clear_Repr.
Qed.

End Ops.

(** SmallQueue is a first-in-first-out queue: pop() returns what was pushed,
    in order, whether it was kept in the slots or in the deque. *)
Theorem small_queue_fifo {T} N (t0 : T) os :
  0 < N < 2 ^ 30 ->
  exists q, run_ops N os (init N t0) = Some ((fifo_ops os []).1, q) /\
    empty q = bool_decide ((fifo_ops os []).2 = []) /\ size q = u64 (zlen (fifo_ops os []).2).
Proof.
  intros HN. destruct (queue_ops_spec N HN os (init N t0) [] (init_Repr N HN t0)) as (q & E & HR).
  exists q. split; [done|]. split; [by eapply queue_empty_spec|by eapply queue_size_spec].
Qed.

Theorem small_queue_fifo_witness :
  let os := [Push 1; Push 2; Push 3; Pop; Push 4; Pop; Pop; Push 5; Pop; Pop; Pop] in
  exists q, run_ops 2 os (init 2 0) = Some ((fifo_ops os []).1, q) /\
    empty q = bool_decide ((fifo_ops os []).2 = []) /\ size q = u64 (zlen (fifo_ops os []).2).
Proof. intros os. apply (small_queue_fifo 2 0 os). lia. Defined.

End SmallQueue.

(** ** Id and fiber_session_t *)

Definition EPERM : Z := 1.
Definition ENOMEM : Z := 12.
Definition EBUSY : Z := 16.
Definition EINVAL : Z := 22.

(** Pointers (the data, the callbacks, the locations) are numbers here. *)
Record PendingError := mkPendingError {
  id : Z; error_code : Z; error_text : list byte; location : Z }.

Definition PendingError_ctor : PendingError := mkPendingError 0 0 [] 0.

Abbreviation Queue := (SmallQueue.SmallQueue PendingError).
Abbreviation QN := 2.

(** The mutex is not a field: a section below runs while it is held. *)
Record Id := mkId {
  first_ver : Z;
  locked_ver : Z;
  data : Z;
  on_error : option Z;
  on_error2 : option Z;
  lock_location : Z;
  butex : Z;
  join_butex : Z;
  pending_q : Queue }.

(** Id(); the constructor leaves the versions unset, and no fiber_session_t of the
    slot exists before they are. *)
Definition Id_ctor : Id := mkId 0 0 0 None None 0 0 0 (SmallQueue.init QN PendingError_ctor).

Definition has_version (m : Id) (id_ver : Z) : bool := (first_ver m <=? id_ver) && (id_ver <? locked_ver m).
Definition contended_ver (m : Id) : Z := u32 (locked_ver m + 1).
Definition unlockable_ver (m : Id) : Z := u32 (locked_ver m + 2).
Definition last_ver (m : Id) : Z := unlockable_ver m.
Definition end_ver (m : Id) : Z := u32 (last_ver m + 1).

(** The value of a fiber_session_t: the slot above the version. *)
Definition make_id (version slot : Z) : Z := Z.lor (u64 (Z.shiftl slot 32)) version.
Definition get_slot (i : Z) : Z := Z.shiftr i 32.
Definition get_version (i : Z) : Z := u32 (Z.land i 0xFFFFFFFF).

(** The slots that get_resource() has ever returned (address_resource() finds
    these, also after return_resource()), by their numbers. *)
Abbreviation table := (gmap Z Id).

Definition id_exists_with_true_negatives (t : table) (i : Z) : bool :=
  match t !! get_slot i with
  | None => false
  | Some m => (first_ver m <=? get_version i) && (get_version i <=? last_ver m)
  end.

Definition id_value (t : table) (i : Z) : Z :=
  match t !! get_slot i with Some m => butex m | None => 0 end.

Definition set_butex (b : Z) (m : Id) : Id :=
  mkId (first_ver m) (locked_ver m) (data m) (on_error m) (on_error2 m) (lock_location m) b (join_butex m) (pending_q m).
Definition set_pending (q : Queue) (m : Id) : Id :=
  mkId (first_ver m) (locked_ver m) (data m) (on_error m) (on_error2 m) (lock_location m) (butex m) (join_butex m) q.
Definition set_location (l : Z) (m : Id) : Id :=
  mkId (first_ver m) (locked_ver m) (data m) (on_error m) (on_error2 m) l (butex m) (join_butex m) (pending_q m).
Definition set_locked_ver (v : Z) (m : Id) : Id :=
  mkId (first_ver m) v (data m) (on_error m) (on_error2 m) (lock_location m) (butex m) (join_butex m) (pending_q m).
Definition set_first_ver (v : Z) (m : Id) : Id :=
  mkId v (locked_ver m) (data m) (on_error m) (on_error2 m) (lock_location m) (butex m) (join_butex m) (pending_q m).
Definition set_join_butex (v : Z) (m : Id) : Id :=
  mkId (first_ver m) (locked_ver m) (data m) (on_error m) (on_error2 m) (lock_location m) (butex m) v (pending_q m).

(** *** Creation *)

Definition ID_MAX_RANGE : Z := 1024.

Definition id_reset (m : Id) (d : Z) (oe oe2 : option Z) (range : Z) : Id :=
  let b := if (butex m =? 0) || (u32 (butex m + ID_MAX_RANGE + 2) <? butex m) then 1 else butex m in
  mkId b (u32 (b + range)) d oe oe2 (lock_location m) b b (pending_q m).

(** [r]: what get_resource() gives, a slot and its Id, or NULL.  The result is the
    return code, and the id and the Id's new state. *)
Definition id_create_impl (r : option (Z * Id)) (d : Z) (oe oe2 : option Z) : Z * option (Z * Id) :=
  match r with
  | Some (slot, m) => let m := id_reset m d oe oe2 1 in (0, Some (make_id (first_ver m) slot, m))
  | None => (ENOMEM, None)
  end.

Definition id_create_ranged_impl (r : option (Z * Id)) (d : Z) (oe oe2 : option Z) (range : Z) : Z * option (Z * Id) :=
  if (range <? 1) || (ID_MAX_RANGE <? range) then (EINVAL, None)
  else
    match r with
    | Some (slot, m) => let m := id_reset m d oe oe2 range in (0, Some (make_id (first_ver m) slot, m))
    | None => (ENOMEM, None)
    end.

(** The pointers to default_fiber_session_on_error and _on_error2. *)
Definition default_on_error : Z := 1.
Definition default_on_error2 : Z := 2.

Definition or_default (p : option Z) (d : Z) : option Z := Some (default d p).

Definition fiber_session_create r d oe := id_create_impl r d (or_default oe default_on_error) None.
Definition fiber_session_create_ranged r d oe range :=
  id_create_ranged_impl r d (or_default oe default_on_error) None range.
Definition fiber_session_create2 r d oe2 := id_create_impl r d None (or_default oe2 default_on_error2).
Definition fiber_session_create2_ranged r d oe2 range :=
  id_create_ranged_impl r d None (or_default oe2 default_on_error2) range.

(** *** The sections

    What a section ends with: a return code; success with *pdata; a wait on the
    butex for a value; a return code after waking one locker or all; the wake-ups
    and the return_resource() of a destroyed id; the return_resource() of a
    cancelled one; or a call of on_error or on_error2 with the lock held, whose
    return code is returned. *)
Inductive outcome :=
  | Ret (rc : Z)
  | Locked (d : Z)
  | MustWait (expected : Z)
  | RetWakeOne (rc : Z)
  | RetWakeAll (rc : Z)
  | RetDestroy (rc : Z)
  | RetCancel (rc : Z)
  | CallOnError (e : PendingError) (d : Z) (oe oe2 : option Z).

(** The body of the loop of fiber_session_lock_and_reset_range_verbose. *)
Definition lock_section (id_ver range : Z) (ever_contended : bool) (loc : Z) (m : Id) : Id * outcome :=
  if has_version m id_ver then
    if butex m =? first_ver m then
      let m := set_location loc m in
      let m :=
        if range =? 0 then m
        else if (range <? 0) || (ID_MAX_RANGE <? range) || (u32 (range + first_ver m) <=? locked_ver m) then m
        else set_locked_ver (u32 (first_ver m + range)) m in
      (set_butex (if ever_contended then contended_ver m else locked_ver m) m, Locked (data m))
    else if negb (butex m =? unlockable_ver m) then
      (set_butex (contended_ver m) m, MustWait (contended_ver m))
    else (m, Ret EPERM)
  else (m, Ret EINVAL).

Definition about_to_destroy_section (id_ver : Z) (m : Id) : Id * outcome :=
  if negb (has_version m id_ver) then (m, Ret EINVAL)
  else if butex m =? first_ver m then (m, Ret EPERM)
  else
    let contended := butex m =? contended_ver m in
    (set_butex (unlockable_ver m) m, if contended then RetWakeAll 0 else Ret 0).

Definition cancel_section (id_ver : Z) (m : Id) : Id * outcome :=
  if negb (has_version m id_ver) then (m, Ret EINVAL)
  else if negb (butex m =? first_ver m) then (m, Ret EPERM)
  else
    let b := end_ver m in
    (set_locked_ver b (set_first_ver b (set_butex b m)), RetCancel 0).

(** The body of the loop of fiber_session_join; a wait is on join_butex. *)
Definition join_section (id_ver : Z) (m : Id) : outcome :=
  if has_version m id_ver then MustWait (join_butex m) else Ret 0.

Definition trylock_section (id_ver : Z) (m : Id) : Id * outcome :=
  if negb (has_version m id_ver) then (m, Ret EINVAL)
  else if negb (butex m =? first_ver m) then (m, Ret EBUSY)
  else (set_butex (locked_ver m) m, Locked (data m)).

Definition unlock_section (id_ver : Z) (m : Id) : option (Id * outcome) :=
  if negb (has_version m id_ver) then Some (m, Ret EINVAL)
  else if butex m =? first_ver m then Some (m, Ret EPERM)
  else
    '(front, q) ← SmallQueue.pop QN (pending_q m);
    match front with
    | Some e => Some (set_location (location e) (set_pending q m), CallOnError e (data m) (on_error m) (on_error2 m))
    | None =>
        let contended := butex m =? contended_ver m in
        Some (set_butex (first_ver m) (set_pending q m), if contended then RetWakeOne 0 else Ret 0)
    end.

Definition unlock_and_destroy_section (id_ver : Z) (m : Id) : Id * outcome :=
  if negb (has_version m id_ver) then (m, Ret EINVAL)
  else if butex m =? first_ver m then (m, Ret EPERM)
  else
    let next_ver := end_ver m in
    (set_pending (SmallQueue.clear (pending_q m))
      (set_locked_ver next_ver (set_first_ver next_ver (set_join_butex next_ver (set_butex next_ver m)))),
     RetDestroy 0).

(** fiber_session_error2_verbose, on the id [i]. *)
Definition error2_section (i code : Z) (text : list byte) (loc : Z) (m : Id) : option (Id * outcome) :=
  if negb (has_version m (get_version i)) then Some (m, Ret EINVAL)
  else if butex m =? first_ver m then
    Some (set_location loc (set_butex (locked_ver m) m),
          CallOnError (mkPendingError i code text loc) (data m) (on_error m) (on_error2 m))
  else
    q ← SmallQueue.push QN (mkPendingError i code text loc) (pending_q m);
    Some (set_pending q m, Ret 0).

(** *** The functions, up to the end of their section *)

Definition on_slot (t : table) (i : Z) (f : Z -> Id -> Id * outcome) : table * outcome :=
  match t !! get_slot i with
  | None => (t, Ret EINVAL)
  | Some m => let (m, o) := f (get_version i) m in (<[get_slot i := m]> t, o)
  end.

Definition on_slot_opt (t : table) (i : Z) (f : Z -> Id -> option (Id * outcome)) : option (table * outcome) :=
  match t !! get_slot i with
  | None => Some (t, Ret EINVAL)
  | Some m => '(m, o) ← f (get_version i) m; Some (<[get_slot i := m]> t, o)
  end.

Definition fiber_session_lock_and_reset_range_verbose t i range ever loc :=
  on_slot t i (fun v => lock_section v range ever loc).
Definition fiber_session_lock_verbose t i ever loc := fiber_session_lock_and_reset_range_verbose t i 0 ever loc.
Definition fiber_session_about_to_destroy t i := on_slot t i about_to_destroy_section.
Definition fiber_session_cancel t i := on_slot t i cancel_section.
Definition fiber_session_join t i := on_slot t i (fun v m => (m, join_section v m)).
Definition fiber_session_trylock t i := on_slot t i trylock_section.
Definition fiber_session_unlock t i := on_slot_opt t i unlock_section.
Definition fiber_session_unlock_and_destroy t i := on_slot t i unlock_and_destroy_section.
Definition fiber_session_error2_verbose t i code text loc := on_slot_opt t i (fun _ => error2_section i code text loc).
Definition fiber_session_error_verbose t i code loc := fiber_session_error2_verbose t i code [] loc.

(** What the default handlers do, whatever the error. *)
Definition default_fiber_session_on_error (t : table) (i data code : Z) : table * outcome :=
  fiber_session_unlock_and_destroy t i.
Definition default_fiber_session_on_error2 (t : table) (i data code : Z) (text : list byte) : table * outcome :=
  fiber_session_unlock_and_destroy t i.

(** *** id_status: the pending errors are turned round once *)

Fixpoint rotate (n : nat) (q copy : Queue) : option (Queue * Queue) :=
  match n with
  | O => Some (q, copy)
  | S n =>
      '(front, q) ← SmallQueue.pop QN q;
      let front := default PendingError_ctor front in
      q ← SmallQueue.push QN front q;
      copy ← SmallQueue.push QN front copy;
      rotate n q copy
  end.

(** The copy that is printed, for a valid id. *)
Definition id_status (id_ver : Z) (m : Id) : option (Id * option Queue) :=
  if has_version m id_ver then
    '(q, copy) ← rotate (Z.to_nat (SmallQueue.size (pending_q m))) (pending_q m) (SmallQueue.init QN PendingError_ctor);
    Some (set_pending q m, Some copy)
  else Some (m, None).
