(* ===== verification/SessionSteps.v ===== *)
(** * SessionSteps: threads that use the ids of one slot

    The sections of Session are atomic (they hold the Id's mutex); between them
    a thread can be about to wait on a butex, be blocked in it, or be about to
    wake others.  [step] interleaves any number of threads on one slot: the
    sections of other slots touch other Ids.  Time-outs are not used by
    session.cc; a wait may end early (EINTR). *)

From S2P Require Import Prelude Session.

(** ** Threads *)

(** Where a thread is; [v] is the version of the id that it uses.
    - LLock: about to lock the mutex in fiber_session_lock, at the loop's head;
    - LWait: about to call butex_wait with [expected]; LBlocked: in it;
    - Holds: the lock is taken, also while on_error runs;
    - AWake: in about_to_destroy, about to wake all lockers;
    - UWake: in unlock, about to wake a locker;
    - DWake, DJoin, DReturn: in unlock_and_destroy, about to wake the lockers,
      to wake the joiners, and to return the slot (the last also in cancel);
    - JCheck, JWait, JBlocked: the same for fiber_session_join. *)
Inductive pc :=
  | Idle
  | LLock (v range : Z) (ever_contended : bool)
  | LWait (v range expected : Z)
  | LBlocked (v range : Z)
  | Holds (v : Z)
  | AWake (v : Z)
  | UWake
  | DWake
  | DJoin
  | DReturn
  | JCheck (v : Z)
  | JWait (v expected : Z)
  | JBlocked (v : Z).

(** [pooled]: the slot is in the resource pool, for get_resource() to return. *)
Record state := mkState { meta : Id; pooled : bool; pcs : nat -> pc }.

Definition upd (f : nat -> pc) (t : nat) (p : pc) : nat -> pc :=
  fun t' => if decide (t' = t) then p else f t'.

(** butex_wake_except(butex, 0), butex_wake_all(join_butex). *)
Definition wake_lockers (f : nat -> pc) : nat -> pc :=
  fun t => match f t with LBlocked v r => LLock v r true | p => p end.
Definition wake_joiners (f : nat -> pc) : nat -> pc :=
  fun t => match f t with JBlocked v => JCheck v | p => p end.

Definition blocked (p : pc) : Prop := exists v r, p = LBlocked v r.

(** Nobody uses an id of the slot. *)
Definition unused (f : nat -> pc) : Prop := forall t, f t = Idle.

(** One step.  If [careful], the threads do not change the range of an id when
    they lock it, do not unlock an id after about_to_destroy, cancel only an id
    that nobody uses, and create ids while the versions are far from wrapping. *)
Inductive step (careful : bool) : state -> state -> Prop :=
  | s_create m f d oe oe2 range :
      1 <= range <= ID_MAX_RANGE -> (careful = true -> butex m + ID_MAX_RANGE + 3 < 2 ^ 32) ->
      step careful (mkState m true f) (mkState (id_reset m d oe oe2 range) false f)
  | s_lock m b f t v range :
      f t = Idle -> (careful = true -> range = 0) ->
      step careful (mkState m b f) (mkState m b (upd f t (LLock v range false)))
  | s_locked m b f t v range ever loc m' d :
      f t = LLock v range ever -> lock_section v range ever loc m = (m', Locked d) ->
      step careful (mkState m b f) (mkState m' b (upd f t (Holds v)))
  | s_must_wait m b f t v range ever loc m' e :
      f t = LLock v range ever -> lock_section v range ever loc m = (m', MustWait e) ->
      step careful (mkState m b f) (mkState m' b (upd f t (LWait v range e)))
  | s_lock_fails m b f t v range ever loc m' rc :
      f t = LLock v range ever -> lock_section v range ever loc m = (m', Ret rc) ->
      step careful (mkState m b f) (mkState m' b (upd f t Idle))
  | s_wait_retry m b f t v range e :
      f t = LWait v range e -> butex m <> e ->
      step careful (mkState m b f) (mkState m b (upd f t (LLock v range true)))
  | s_wait_block m b f t v range e :
      f t = LWait v range e -> butex m = e ->
      step careful (mkState m b f) (mkState m b (upd f t (LBlocked v range)))
  | s_interrupt m b f t v range :
      f t = LBlocked v range ->
      step careful (mkState m b f) (mkState m b (upd f t (LLock v range true)))
  | s_trylock m b f t v m' d :
      f t = Idle -> trylock_section v m = (m', Locked d) ->
      step careful (mkState m b f) (mkState m' b (upd f t (Holds v)))
  | s_error_runs m b f t i code text loc m' e d oe oe2 :
      f t = Idle -> error2_section i code text loc m = Some (m', CallOnError e d oe oe2) ->
      step careful (mkState m b f) (mkState m' b (upd f t (Holds (get_version i))))
  | s_error_pends m b f i code text loc m' rc :
      error2_section i code text loc m = Some (m', Ret rc) ->
      step careful (mkState m b f) (mkState m' b f)
  | s_about m b f t v m' rc :
      f t = Holds v -> about_to_destroy_section v m = (m', Ret rc) ->
      step careful (mkState m b f) (mkState m' b f)
  | s_about_wakes m b f t v m' rc :
      f t = Holds v -> about_to_destroy_section v m = (m', RetWakeAll rc) ->
      step careful (mkState m b f) (mkState m' b (upd f t (AWake v)))
  | s_about_woke m b f t v :
      f t = AWake v ->
      step careful (mkState m b f) (mkState m b (upd (wake_lockers f) t (Holds v)))
  | s_unlock m b f t v m' rc :
      f t = Holds v -> unlock_section v m = Some (m', Ret rc) -> (careful = true -> butex m <> unlockable_ver m) ->
      step careful (mkState m b f) (mkState m' b (upd f t Idle))
  | s_unlock_wakes m b f t v m' rc :
      f t = Holds v -> unlock_section v m = Some (m', RetWakeOne rc) -> (careful = true -> butex m <> unlockable_ver m) ->
      step careful (mkState m b f) (mkState m' b (upd f t UWake))
  | s_unlock_error m b f t v m' e d oe oe2 :
      f t = Holds v -> unlock_section v m = Some (m', CallOnError e d oe oe2) ->
      step careful (mkState m b f) (mkState m' b (upd f t (Holds (get_version (id e)))))
  | s_wake_one m b f t t' v range :
      f t = UWake -> f t' = LBlocked v range ->
      step careful (mkState m b f) (mkState m b (upd (upd f t' (LLock v range true)) t Idle))
  | s_wake_none m b f t :
      f t = UWake -> (forall t', ~ blocked (f t')) ->
      step careful (mkState m b f) (mkState m b (upd f t Idle))
  | s_destroy m b f t v m' rc :
      f t = Holds v -> unlock_and_destroy_section v m = (m', RetDestroy rc) ->
      step careful (mkState m b f) (mkState m' b (upd f t DWake))
  | s_destroy_wake m b f t :
      f t = DWake -> step careful (mkState m b f) (mkState m b (upd (wake_lockers f) t DJoin))
  | s_destroy_join m b f t :
      f t = DJoin -> step careful (mkState m b f) (mkState m b (upd (wake_joiners f) t DReturn))
  | s_return m b f t :
      f t = DReturn -> step careful (mkState m b f) (mkState m true (upd f t Idle))
  | s_cancel m b f t v m' rc :
      f t = Idle -> cancel_section v m = (m', RetCancel rc) -> (careful = true -> unused f) ->
      step careful (mkState m b f) (mkState m' b (upd f t DReturn))
  | s_join m b f t v :
      f t = Idle -> step careful (mkState m b f) (mkState m b (upd f t (JCheck v)))
  | s_join_wait m b f t v e :
      f t = JCheck v -> join_section v m = MustWait e ->
      step careful (mkState m b f) (mkState m b (upd f t (JWait v e)))
  | s_join_done m b f t v rc :
      f t = JCheck v -> join_section v m = Ret rc ->
      step careful (mkState m b f) (mkState m b (upd f t Idle))
  | s_join_retry m b f t v e :
      f t = JWait v e -> join_butex m <> e -> step careful (mkState m b f) (mkState m b (upd f t (JCheck v)))
  | s_join_block m b f t v e :
      f t = JWait v e -> join_butex m = e -> step careful (mkState m b f) (mkState m b (upd f t (JBlocked v)))
  | s_join_interrupt m b f t v :
      f t = JBlocked v -> step careful (mkState m b f) (mkState m b (upd f t (JCheck v))).

(** The slot is in the pool and no thread does anything. *)
Definition initial : state := mkState Id_ctor true (fun _ => Idle).

Inductive reachable (careful : bool) : state -> Prop :=
  | r_initial : reachable careful initial
  | r_step s s' : reachable careful s -> step careful s s' -> reachable careful s'.

(** ** The Id by itself *)

Inductive phase := Free | Held | Dead.

Definition phase_of (m : Id) : phase :=
  if first_ver m <? locked_ver m then (if butex m =? first_ver m then Free else Held) else Dead.

(** The versions, the values of the butex and the pending errors. *)
Record Meta (m : Id) : Prop := mkMeta {
  M_first : 0 <= first_ver m <= locked_ver m;
  M_range : locked_ver m <= first_ver m + ID_MAX_RANGE;
  M_live : first_ver m < locked_ver m -> 1 <= first_ver m /\ first_ver m + ID_MAX_RANGE + 2 < 2 ^ 32;
  M_word : first_ver m < 2 ^ 32;
  M_butex : butex m = first_ver m \/
    (first_ver m < locked_ver m /\
     (butex m = locked_ver m \/ butex m = contended_ver m \/ butex m = unlockable_ver m));
  M_pending : exists l, SmallQueue.Repr QN (pending_q m) l /\ (butex m = first_ver m -> l = []) /\
    Forall (fun e => has_version m (get_version (id e)) = true) l }.

Lemma has_version_iff m v : has_version m v = true <-> first_ver m <= v < locked_ver m.
Proof. unfold has_version. rewrite andb_true_iff, Z.leb_le, Z.ltb_lt. lia. Qed.

Lemma vers m : Meta m -> first_ver m < locked_ver m ->
  contended_ver m = locked_ver m + 1 /\ unlockable_ver m = locked_ver m + 2 /\
  end_ver m = u32 (locked_ver m + 3) /\ locked_ver m + 2 < 2 ^ 32.
Proof.
  intros HM Hl. destruct (M_live m HM Hl) as [H1 H2]. pose proof (M_range m HM). unfold ID_MAX_RANGE in *.
  unfold end_ver, last_ver, contended_ver, unlockable_ver. rewrite !wrapu_small by lia. split_and!; try lia. f_equal. lia.
Qed.

Lemma phase_cases m : Meta m ->
  match phase_of m with
  | Free => first_ver m < locked_ver m /\ butex m = first_ver m
  | Held => first_ver m < locked_ver m /\ butex m <> first_ver m
  | Dead => first_ver m = locked_ver m /\ butex m = first_ver m
  end.
Proof.
  intros HM. unfold phase_of. destruct (Z.ltb_spec (first_ver m) (locked_ver m)).
  - destruct (Z.eqb_spec (butex m) (first_ver m)); done.
  - pose proof (M_first m HM). destruct (M_butex m HM) as [|[? _]]; lia.
Qed.

(** The same id, the same versions. *)
Definition same_id (m m' : Id) : Prop :=
  first_ver m' = first_ver m /\ locked_ver m' = locked_ver m /\ join_butex m' = join_butex m.

Lemma same_has_version m m' v : same_id m m' -> has_version m' v = has_version m v.
Proof. intros (E1 & E2 & _). unfold has_version. by rewrite E1, E2. Qed.

Lemma same_vers m m' : same_id m m' -> contended_ver m' = contended_ver m /\ unlockable_ver m' = unlockable_ver m.
Proof. intros (_ & E & _). unfold unlockable_ver, contended_ver. by rewrite E. Qed.

(** A live Id with another value of the butex and other pending errors. *)
Lemma Meta_update m m' l :
  Meta m -> first_ver m < locked_ver m -> same_id m m' ->
  SmallQueue.Repr QN (pending_q m') l -> Forall (fun e => has_version m (get_version (id e)) = true) l ->
  (butex m' = first_ver m /\ l = [] \/ butex m' = locked_ver m \/ butex m' = contended_ver m \/ butex m' = unlockable_ver m) ->
  Meta m'.
Proof.
  intros HM Hl (E1 & E2 & E3) Hq Hf Hb. destruct (vers m HM Hl) as (C1 & C2 & _ & _). 
  split; rewrite ?E1, ?E2; try apply HM; try done.
  - unfold contended_ver, unlockable_ver in *. rewrite E2. destruct Hb as [[-> _]|Hb]; [by left|right]. done.
  - exists l. split; [done|]. split.
    + intros E. destruct Hb as [[_ ->]|[Hb|[Hb|Hb]]]; [done|lia..].
    + eapply Forall_impl; [exact Hf|]. intros e He. cbn in *. unfold has_version in *. by rewrite E1, E2.
Qed.

Lemma Held_intro m : first_ver m < locked_ver m -> butex m <> first_ver m -> phase_of m = Held.
Proof.
  intros Hl Hb. unfold phase_of. rewrite (proj2 (Z.ltb_lt _ _) Hl). by rewrite (proj2 (Z.eqb_neq _ _) Hb).
Qed.

Lemma Free_intro m : first_ver m < locked_ver m -> butex m = first_ver m -> phase_of m = Free.
Proof.
  intros Hl Hb. unfold phase_of. rewrite (proj2 (Z.ltb_lt _ _) Hl). by rewrite (proj2 (Z.eqb_eq _ _) Hb).
Qed.

Lemma Dead_intro m : first_ver m = locked_ver m -> phase_of m = Dead.
Proof. intros E. unfold phase_of. by rewrite E, Z.ltb_irrefl. Qed.

(** Taking a free id, possibly with a larger range. *)
Lemma Meta_take m m' :
  Meta m -> first_ver m < locked_ver m -> butex m = first_ver m -> pending_q m' = pending_q m ->
  first_ver m' = first_ver m -> locked_ver m <= locked_ver m' <= first_ver m + ID_MAX_RANGE ->
  butex m' = locked_ver m' \/ butex m' = contended_ver m' -> Meta m' /\ phase_of m' = Held.
Proof.
  intros HM Hl Hb Hq E1 E2 E3. destruct (M_live m HM Hl) as [H1 H2]. unfold ID_MAX_RANGE in *.
  assert (contended_ver m' = locked_ver m' + 1) as Ec by (unfold contended_ver; rewrite wrapu_small; lia).
  split.
  - split; rewrite ?E1; unfold ID_MAX_RANGE; try lia.
    destruct (M_pending m HM) as (l & L1 & L2 & _). rewrite (L2 Hb) in L1. exists [].
    rewrite Hq. split; [done|]. split; [done|constructor].
  - apply Held_intro; lia.
Qed.

Definition grows (m m' : Id) : Prop :=
  first_ver m' = first_ver m /\ locked_ver m <= locked_ver m' /\ join_butex m' = join_butex m.

Lemma lock_section_cases v range ever loc m m' o :
  Meta m -> lock_section v range ever loc m = (m', o) ->
  (exists d, o = Locked d /\ phase_of m = Free /\ Meta m' /\ phase_of m' = Held /\ grows m m' /\
     has_version m v = true /\ (range = 0 -> locked_ver m' = locked_ver m) /\
     butex m' = (if ever then contended_ver m' else locked_ver m')) \/
  (exists e, o = MustWait e /\ phase_of m = Held /\ Meta m' /\ phase_of m' = Held /\ same_id m m' /\
     has_version m v = true /\ butex m <> unlockable_ver m /\ butex m' = contended_ver m' /\ e = contended_ver m') \/
  (exists rc, o = Ret rc /\ m' = m /\ (has_version m v = true -> butex m = unlockable_ver m)).
Proof.
  intros HM. unfold lock_section. destruct (has_version m v) eqn:Hv; [|intros [= <- <-]; right; right; by eexists].
  pose proof (proj1 (has_version_iff m v) Hv) as Hvr. assert (first_ver m < locked_ver m) as Hl by lia.
  destruct (M_live m HM Hl) as [H1 H2]. destruct (Z.eqb_spec (butex m) (first_ver m)) as [Eb|Eb].
  - intros [= <- <-]. left. eexists. split; [done|]. split; [by apply Free_intro|].
    set (m1 := if range =? 0 then _ else _).
    assert (pending_q m1 = pending_q m /\ first_ver m1 = first_ver m /\ join_butex m1 = join_butex m /\
      locked_ver m <= locked_ver m1 <= first_ver m + ID_MAX_RANGE /\ (range = 0 -> locked_ver m1 = locked_ver m))
      as (Q1 & Q2 & Q3 & Q4 & Q5).
    { pose proof (M_range m HM). unfold m1.
      assert (forall x, x = set_location loc m -> pending_q x = pending_q m /\ first_ver x = first_ver m /\
        join_butex x = join_butex m /\ locked_ver m <= locked_ver x <= first_ver m + ID_MAX_RANGE /\
        (range = 0 -> locked_ver x = locked_ver m)) as Hsame by (intros x ->; cbn; split_and!; done || lia).
      destruct (Z.eqb_spec range 0); [by apply Hsame|].
      destruct (Z.ltb_spec range 0); cbn [orb]; [by apply Hsame|].
      destruct (Z.ltb_spec ID_MAX_RANGE range); cbn [orb]; [by apply Hsame|].
      cbn [first_ver locked_ver set_location]. unfold ID_MAX_RANGE in *. rewrite wrapu_small by lia.
      destruct (Z.leb_spec (range + first_ver m) (locked_ver m)); [by apply Hsame|].
      cbn. rewrite wrapu_small by lia. split_and!; done || lia. }
    set (m2 := set_butex _ m1).
    destruct (Meta_take m m2 HM Hl Eb) as [HM2 HP2]; [done|done|done|destruct ever; auto|].
    split_and!; try done; by first [destruct Q4 | destruct ever].
  - destruct (Z.eqb_spec (butex m) (unlockable_ver m)) as [Eu|Eu]; cbn [negb]; intros [= <- <-].
    + right; right. eexists. split; [done|]. done.
    + right; left. eexists. split; [done|]. split; [by apply Held_intro|].
      destruct (M_pending m HM) as (l & L1 & _ & L3). destruct (vers m HM Hl) as (C1 & _).
      split; [apply (Meta_update m _ l); try done; cbn; tauto|].
      split; [apply Held_intro; cbn; [done|lia]|]. done.
Qed.

Lemma trylock_section_cases v m m' o :
  Meta m -> trylock_section v m = (m', o) ->
  (exists d, o = Locked d /\ phase_of m = Free /\ Meta m' /\ phase_of m' = Held /\ same_id m m' /\
     has_version m v = true /\ butex m' = locked_ver m') \/
  (exists rc, o = Ret rc /\ m' = m).
Proof.
  intros HM. unfold trylock_section. destruct (has_version m v) eqn:Hv; cbn [negb]; [|intros [= <- <-]; right; by eexists].
  pose proof (proj1 (has_version_iff m v) Hv) as Hvr. assert (first_ver m < locked_ver m) as Hl by lia.
  destruct (Z.eqb_spec (butex m) (first_ver m)) as [Eb|Eb]; cbn [negb]; intros [= <- <-]; [left|right; by eexists].
  eexists. split; [done|]. split; [by apply Free_intro|]. pose proof (M_range m HM).
  destruct (Meta_take m (set_butex (locked_ver m) m) HM Hl Eb) as [HM2 HP2]; [done|done|cbn; lia|by left|].
  split_and!; done.
Qed.

Lemma error2_section_cases i code text loc m m' o :
  Meta m -> error2_section i code text loc m = Some (m', o) ->
  (exists e d oe oe2, o = CallOnError e d oe oe2 /\ phase_of m = Free /\ Meta m' /\ phase_of m' = Held /\ same_id m m' /\
     has_version m (get_version i) = true /\ butex m' = locked_ver m') \/
  (exists rc, o = Ret rc /\ Meta m' /\ same_id m m' /\ butex m' = butex m).
Proof.
  intros HM. unfold error2_section.
  destruct (has_version m (get_version i)) eqn:Hv; cbn [negb]; [|intros [= <- <-]; right; by eexists].
  pose proof (proj1 (has_version_iff m _) Hv) as Hvr. assert (first_ver m < locked_ver m) as Hl by lia.
  destruct (Z.eqb_spec (butex m) (first_ver m)) as [Eb|Eb].
  - intros [= <- <-]. left. eexists _, _, _, _. split; [done|]. split; [by apply Free_intro|]. pose proof (M_range m HM).
    destruct (Meta_take m (set_location loc (set_butex (locked_ver m) m)) HM Hl Eb) as [HM2 HP2];
      [done|done|cbn; lia|by left|]. split_and!; done.
  - destruct (M_pending m HM) as (l & L1 & _ & L3).
    destruct (SmallQueue.queue_push_spec QN ltac:(lia) (mkPendingError i code text loc) _ l L1) as (q' & -> & L1').
    cbn [mbind option_bind]. intros [= <- <-]. right. eexists. split; [done|].
    split; [|done]. apply (Meta_update m _ (l ++ [mkPendingError i code text loc])); try done.
    + apply Forall_app. split; [done|]. by constructor.
    + destruct (M_butex m HM) as [|[_ ?]]; [done|]. by right.
Qed.

Lemma about_section_cases v m m' o :
  Meta m -> about_to_destroy_section v m = (m', o) ->
  (has_version m v = true /\ phase_of m = Held /\ Meta m' /\ phase_of m' = Held /\ same_id m m' /\
     butex m' = unlockable_ver m' /\ (o = RetWakeAll 0 /\ butex m = contended_ver m \/ o = Ret 0)) \/
  (exists rc, o = Ret rc /\ m' = m).
Proof.
  intros HM. unfold about_to_destroy_section. destruct (has_version m v) eqn:Hv; cbn [negb]; [|intros [= <- <-]; right; by eexists].
  pose proof (proj1 (has_version_iff m _) Hv) as Hvr. assert (first_ver m < locked_ver m) as Hl by lia.
  destruct (Z.eqb_spec (butex m) (first_ver m)) as [Eb|Eb]; intros [= <- <-]; [right; by eexists|left].
  destruct (M_pending m HM) as (l & L1 & _ & L3). destruct (vers m HM Hl) as (C1 & C2 & _).
  split_and!; try done; [by apply Held_intro|apply (Meta_update m _ l); try done; cbn; tauto|apply Held_intro; cbn; lia|].
  destruct (Z.eqb_spec (butex m) (contended_ver m)); auto.
Qed.

Lemma unlock_section_cases v m m' o :
  Meta m -> has_version m v = true -> phase_of m = Held -> unlock_section v m = Some (m', o) ->
  (exists e d oe oe2, o = CallOnError e d oe oe2 /\ Meta m' /\ phase_of m' = Held /\ same_id m m' /\ butex m' = butex m /\
     has_version m (get_version (id e)) = true) \/
  (Meta m' /\ phase_of m' = Free /\ same_id m m' /\
     (o = RetWakeOne 0 /\ butex m = contended_ver m \/ o = Ret 0 /\ butex m <> contended_ver m)).
Proof.
  intros HM Hv HP. unfold unlock_section. rewrite Hv. cbn [negb].
  pose proof (proj1 (has_version_iff m _) Hv) as Hvr. assert (first_ver m < locked_ver m) as Hl by lia.
  pose proof (phase_cases m HM) as Hph. rewrite HP in Hph. destruct Hph as [_ Hb].
  rewrite (proj2 (Z.eqb_neq _ _) Hb). destruct (M_pending m HM) as (l & L1 & _ & L3).
  pose proof (SmallQueue.queue_pop_spec QN ltac:(lia) (pending_q m) l L1) as Hp. destruct l as [|e l].
  - rewrite Hp. cbn [mbind option_bind]. intros [= <- <-]. right.
    split; [apply (Meta_update m _ []); try done; cbn; tauto|]. split; [by apply Free_intro|]. split; [done|].
    destruct (Z.eqb_spec (butex m) (contended_ver m)); auto.
  - destruct Hp as (q' & -> & L1'). cbn [mbind option_bind]. intros [= <- <-]. left.
    apply Forall_cons in L3 as [He L3]. eexists _, _, _, _. split; [done|].
    split; [apply (Meta_update m _ l); try done; cbn; destruct (M_butex m HM) as [|[_ ?]]; [done|by right]|].
    split; [by apply Held_intro|]. done.
Qed.

(** Dead: the versions are all the next one. *)
Lemma Meta_dead m q next :
  SmallQueue.Repr QN q [] -> pending_q m = q -> 0 <= next < 2 ^ 32 ->
  first_ver m = next -> locked_ver m = next -> butex m = next -> Meta m /\ phase_of m = Dead.
Proof.
  intros Hq Eq Hn E1 E2 E3. split; [|apply Dead_intro; lia]. split; rewrite ?E1, ?E2, ?E3; unfold ID_MAX_RANGE; try lia.
  exists []. rewrite Eq. split; [done|]. split; [done|constructor].
Qed.

Lemma destroy_section_cases v m m' o :
  Meta m -> has_version m v = true -> phase_of m = Held -> unlock_and_destroy_section v m = (m', o) ->
  o = RetDestroy 0 /\ Meta m' /\ phase_of m' = Dead /\ first_ver m' = end_ver m /\ join_butex m' = end_ver m.
Proof.
  intros HM Hv HP. unfold unlock_and_destroy_section. rewrite Hv. cbn [negb].
  pose proof (phase_cases m HM) as Hph. rewrite HP in Hph. destruct Hph as [_ Hb].
  rewrite (proj2 (Z.eqb_neq _ _) Hb). intros [= <- <-]. destruct (M_pending m HM) as (l & L1 & _).
  split; [done|]. pose proof (wrapu_range 32 (last_ver m + 1) ltac:(lia)) as Hr.
  edestruct (Meta_dead (set_pending (SmallQueue.clear (pending_q m)) (set_locked_ver (end_ver m)
    (set_first_ver (end_ver m) (set_join_butex (end_ver m) (set_butex (end_ver m) m))))) (SmallQueue.clear (pending_q m)) (end_ver m)) as [HM' HP'];
    [eapply SmallQueue.clear_Repr; [lia|exact L1]|done|exact Hr|done|done|done|]. by split_and!.
Qed.

Lemma cancel_section_cases v m m' o :
  Meta m -> cancel_section v m = (m', o) ->
  (o = RetCancel 0 /\ has_version m v = true /\ phase_of m = Free /\ Meta m' /\ phase_of m' = Dead /\
     first_ver m' = end_ver m /\ join_butex m' = join_butex m) \/
  (exists rc, o = Ret rc /\ m' = m).
Proof.
  intros HM. unfold cancel_section. destruct (has_version m v) eqn:Hv; cbn [negb]; [|intros [= <- <-]; right; by eexists].
  pose proof (proj1 (has_version_iff m _) Hv) as Hvr. assert (first_ver m < locked_ver m) as Hl by lia.
  destruct (Z.eqb_spec (butex m) (first_ver m)) as [Eb|Eb]; cbn [negb]; intros [= <- <-]; [left|right; by eexists].
  destruct (M_pending m HM) as (l & L1 & L2 & _). rewrite (L2 Eb) in L1.
  pose proof (wrapu_range 32 (last_ver m + 1) ltac:(lia)) as Hr.
  edestruct (Meta_dead (set_locked_ver (end_ver m) (set_first_ver (end_ver m) (set_butex (end_ver m) m))) (pending_q m) (end_ver m))
    as [HM' HP']; [exact L1|done|exact Hr|done|done|done|]. split_and!; try done. by apply Free_intro.
Qed.

Lemma create_cases m d oe oe2 range :
  Meta m -> phase_of m = Dead -> 1 <= range <= ID_MAX_RANGE ->
  Meta (id_reset m d oe oe2 range) /\ phase_of (id_reset m d oe oe2 range) = Free /\
  join_butex (id_reset m d oe oe2 range) = first_ver (id_reset m d oe oe2 range) /\
  (butex m + ID_MAX_RANGE + 3 < 2 ^ 32 -> first_ver (id_reset m d oe oe2 range) = Z.max 1 (first_ver m)).
Proof.
  intros HM HP Hr. pose proof (phase_cases m HM) as Hph. rewrite HP in Hph. destruct Hph as [E1 E2].
  destruct (M_pending m HM) as (l & L1 & L2 & _). rewrite (L2 E2) in L1.
  pose proof (M_word m HM). pose proof (M_first m HM). unfold ID_MAX_RANGE in *.
  set (b := if (butex m =? 0) || (u32 (butex m + 1024 + 2) <? butex m) then 1 else butex m).
  assert (1 <= b /\ b + 1026 < 2 ^ 32 /\ (butex m + 1024 + 3 < 2 ^ 32 -> b = Z.max 1 (first_ver m))) as (B1 & B2 & B3).
  { unfold b. destruct (Z.eqb_spec (butex m) 0); cbn [orb]; [lia|].
    destruct (Z.ltb_spec (u32 (butex m + 1024 + 2)) (butex m)) as [Hlt|Hge].
    - split; [lia|]. split; [lia|]. intros Hsmall. rewrite wrapu_small in Hlt; lia.
    - split; [lia|]. destruct (Z.lt_ge_cases (butex m + 1026) (2 ^ 32)) as [Hlt|Hge']; [lia|].
      exfalso. unfold wrapu in Hge. replace (butex m + 1024 + 2) with (butex m + 1026 - 2 ^ 32 + 1 * 2 ^ 32) in Hge by lia.
      rewrite Z_mod_plus_full, Z.mod_small in Hge by lia. lia. }
  assert (u32 (b + range) = b + range) as Eu by (apply wrapu_small; lia).
  assert (id_reset m d oe oe2 range = mkId b (b + range) d oe oe2 (lock_location m) b b (pending_q m)) as ->
    by (rewrite <-Eu; reflexivity).
  split; [|split; [apply Free_intro; cbn; lia|split; [done|exact B3]]].
  split; cbn; unfold ID_MAX_RANGE; try lia. exists []. split; [done|]. split; [done|constructor].
Qed.

(** ** Mutual exclusion *)

(** The thread that owns the slot: it holds the lock (of an id of this version), or
    it is destroying the id. *)
Definition owner (p : pc) : option (option Z) :=
  match p with
  | Holds v | AWake v => Some (Some v)
  | DWake | DJoin | DReturn => Some None
  | _ => None
  end.

Record Owners (s : state) : Prop := mkOwners {
  O_meta : Meta (meta s);
  O_unique : forall t t', is_Some (owner (pcs s t)) -> is_Some (owner (pcs s t')) -> t = t';
  O_holds : forall t v, owner (pcs s t) = Some (Some v) ->
    phase_of (meta s) = Held /\ has_version (meta s) v = true /\ pooled s = false;
  O_destroys : forall t, owner (pcs s t) = Some None -> phase_of (meta s) = Dead /\ pooled s = false;
  O_held : phase_of (meta s) = Held -> exists t v, owner (pcs s t) = Some (Some v);
  O_pooled : pooled s = true -> phase_of (meta s) = Dead;
  O_dead : phase_of (meta s) = Dead -> pooled s = false -> exists t, owner (pcs s t) = Some None }.

(** The owner of every thread but [t] stays. *)
Definition others (f f' : nat -> pc) (t : nat) : Prop := forall t', t' <> t -> owner (f' t') = owner (f t').

(** No owner comes or goes: [t] keeps its part, and the Id its phase. *)
Lemma Owners_keep m m' b f f' t :
  Owners (mkState m b f) -> Meta m' -> phase_of m' = phase_of m ->
  (forall v, has_version m v = true -> has_version m' v = true) -> others f f' t ->
  match owner (f t), owner (f' t) with
  | None, None => True
  | Some None, Some None => True
  | Some (Some _), Some (Some v) => has_version m' v = true
  | _, _ => False
  end -> Owners (mkState m' b f').
Proof.
  intros [HM Hu Hh Hd He Hp Hx] HM' HP HV Ho Ht. cbn in *.
  assert (forall t', is_Some (owner (f' t')) -> is_Some (owner (f t'))) as Hback.
  { intros t' H. destruct (decide (t' = t)) as [->|Hne]; [|by rewrite <-(Ho t' Hne)].
    destruct (owner (f' t)) as [[v|]|], (owner (f t)) as [[v'|]|]; done || by eexists. }
  split; cbn; rewrite ?HP.
  - done.
  - intros t1 t2 H1 H2. apply Hu; by apply Hback.
  - intros t1 v H1. destruct (decide (t1 = t)) as [->|Hne].
    + rewrite H1 in Ht. destruct (owner (f t)) as [[v'|]|] eqn:E; [|done|done].
      destruct (Hh t v' E) as (H2 & _ & H3). done.
    + rewrite (Ho t1 Hne) in H1. destruct (Hh t1 v H1) as (H2 & H3 & H4). auto.
  - intros t1 H1. destruct (decide (t1 = t)) as [->|Hne].
    + rewrite H1 in Ht. destruct (owner (f t)) as [[v'|]|] eqn:E; [done| |done]. by apply (Hd t).
    + rewrite (Ho t1 Hne) in H1. by apply (Hd t1).
  - intros H. destruct (He H) as (t1 & v & E). destruct (decide (t1 = t)) as [->|Hne].
    + rewrite E in Ht. exists t. destruct (owner (f' t)) as [[v'|]|]; [by eauto|done|done].
    + exists t1, v. by rewrite (Ho t1 Hne).
  - done.
  - intros H Hb. destruct (Hx H Hb) as (t1 & E). destruct (decide (t1 = t)) as [->|Hne].
    + rewrite E in Ht. exists t. by destruct (owner (f' t)) as [[v'|]|].
    + exists t1. by rewrite (Ho t1 Hne).
Qed.

(** Nobody owned the slot: now [t] does. *)
Lemma Owners_take m m' b f f' t o :
  Owners (mkState m b f) -> phase_of m = Free -> Meta m' -> others f f' t -> owner (f' t) = Some o ->
  match o with
  | Some v => phase_of m' = Held /\ has_version m' v = true
  | None => phase_of m' = Dead
  end -> Owners (mkState m' b f').
Proof.
  intros [HM Hu Hh Hd He Hp Hx] HP HM' Ho Ht Hm. cbn in *.
  assert (forall t1, owner (f t1) = None) as Hnone.
  { intros t1. destruct (owner (f t1)) as [[v|]|] eqn:E; [|destruct (Hd t1 E); congruence|done].
    destruct (Hh t1 v E). congruence. }
  assert (b = false) as ->. { destruct b; [|done]. rewrite (Hp eq_refl) in HP. done. }
  assert (forall t1 o', owner (f' t1) = Some o' -> t1 = t /\ o' = o) as Honly.
  { intros t1 o' E. destruct (decide (t1 = t)) as [->|Hne]; [by rewrite E in Ht; injection Ht|].
    rewrite (Ho t1 Hne), Hnone in E. done. }
  split; cbn.
  - done.
  - intros t1 t2 [o1 H1] [o2 H2]. apply Honly in H1 as [-> _]. by apply Honly in H2 as [-> _].
  - intros t1 v [-> <-]%Honly. split_and!; tauto.
  - intros t1 [-> <-]%Honly. done.
  - intros H. exists t. destruct o as [v|]; [by eauto|congruence].
  - done.
  - intros H _. exists t. destruct o as [v|]; [destruct Hm; congruence|done].
Qed.

(** The owner [t] gives the lock back. *)
Lemma Owners_give m m' b f f' t o :
  Owners (mkState m b f) -> owner (f t) = Some (Some o) -> Meta m' -> others f f' t ->
  match owner (f' t) with
  | None => phase_of m' = Free
  | Some None => phase_of m' = Dead
  | _ => False
  end -> Owners (mkState m' b f').
Proof.
  intros [HM Hu Hh Hd He Hp Hx] Et HM' Ho Ht. cbn in *. destruct (Hh t o Et) as (_ & _ & ->).
  assert (forall t1 o', owner (f' t1) = Some o' -> t1 = t) as Honly.
  { intros t1 o' E. destruct (decide (t1 = t)) as [->|Hne]; [done|].
    apply Hu; [rewrite <-(Ho t1 Hne)|]; by eexists. }
  split; cbn.
  - done.
  - intros t1 t2 [o1 H1] [o2 H2]. apply Honly in H1 as ->. by apply Honly in H2 as ->.
  - intros t1 v H1. pose proof (Honly _ _ H1) as ->. by rewrite H1 in Ht.
  - intros t1 H1. pose proof (Honly _ _ H1) as ->. by rewrite H1 in Ht.
  - intros H. exfalso. destruct (owner (f' t)) as [[v|]|]; congruence.
  - done.
  - intros H _. exists t. destruct (owner (f' t)) as [[v|]|]; [done|done|congruence].
Qed.

Lemma others_upd f t p : others f (upd f t p) t.
Proof. intros t' Hne. unfold upd. by rewrite decide_False. Qed.

Lemma upd_same f t p : upd f t p t = p.
Proof. unfold upd. by rewrite decide_True. Qed.

Lemma upd_other f t p t' : t' <> t -> upd f t p t' = f t'.
Proof. intros. unfold upd. by rewrite decide_False. Qed.

Lemma owner_wake_lockers f t : owner (wake_lockers f t) = owner (f t).
Proof. unfold wake_lockers. by destruct (f t). Qed.

Lemma owner_wake_joiners f t : owner (wake_joiners f t) = owner (f t).
Proof. unfold wake_joiners. by destruct (f t). Qed.

(** Two states of no thread's part. *)
Lemma others_all f f' t : (forall t', owner (f' t') = owner (f t')) -> others f f' t.
Proof. intros H t' _. apply H. Qed.

(** Only the place of a thread that owns nothing changes. *)
Lemma Owners_move m b f t p :
  Owners (mkState m b f) -> owner (f t) = None -> owner p = None -> Owners (mkState m b (upd f t p)).
Proof.
  intros HO E1 E2. eapply (Owners_keep m m b f _ t); [exact HO|apply HO|done|done|apply others_upd|].
  by rewrite upd_same, E1, E2.
Qed.

Lemma Owners_meta m m' b f :
  Owners (mkState m b f) -> Meta m' -> same_id m m' -> phase_of m' = phase_of m -> Owners (mkState m' b f).
Proof.
  intros HO HM Hs HP. eapply (Owners_keep m m' b f f 0%nat); [exact HO|done|done| |by intros t'|].
  - intros v. by rewrite (same_has_version _ _ _ Hs).
  - destruct (owner (f 0%nat)) as [[v|]|] eqn:E; [|done|done].
    rewrite (same_has_version _ _ _ Hs). by apply (O_holds _ HO 0%nat).
Qed.

Lemma same_phase m m' : Meta m -> Meta m' -> same_id m m' -> butex m' = butex m -> phase_of m' = phase_of m.
Proof. intros _ _ (E1 & E2 & _) E3. unfold phase_of. by rewrite E1, E2, E3. Qed.

Lemma initial_Owners : Owners initial.
Proof.
  split; cbn; try done.
  - apply (Meta_dead Id_ctor (SmallQueue.init QN PendingError_ctor) 0); try done.
    by apply SmallQueue.init_Repr.
Qed.

Lemma grows_has_version m m' v : grows m m' -> has_version m v = true -> has_version m' v = true.
Proof. intros (E1 & E2 & _). rewrite !has_version_iff. lia. Qed.

Lemma Owners_step careful s s' : step careful s s' -> Owners s -> Owners s'.
Proof.
  intros Hst HO. pose proof (O_meta s HO) as HM.
  destruct Hst as [m f d oe oe2 range Hr _|m b f t v range E _|m b f t v range ever loc m' d E Es|
    m b f t v range ever loc m' e E Es|m b f t v range ever loc m' rc E Es|m b f t v range e E _|
    m b f t v range e E _|m b f t v range E|m b f t v m' d E Es|m b f t i code text loc m' e d oe oe2 E Es|
    m b f i code text loc m' rc Es|m b f t v m' rc E Es|m b f t v m' rc E Es|m b f t v E|m b f t v m' rc E Es _|
    m b f t v m' rc E Es _|m b f t v m' e d oe oe2 E Es|m b f t t' v range E E'|m b f t E _|m b f t v m' rc E Es|
    m b f t E|m b f t E|m b f t E|m b f t v m' rc E Es _|m b f t v E|m b f t v e E _|m b f t v rc E _|m b f t v e E _|
    m b f t v e E _|m b f t v E]; cbn in HM;
    try (by apply Owners_move; [done|by rewrite E|done]).
  - (* create *)
    pose proof (O_pooled _ HO eq_refl) as HP. destruct (create_cases m d oe oe2 range HM HP Hr) as (HM' & HP' & _).
    assert (forall t, owner (f t) = None) as Hnone.
    { intros t. destruct (owner (f t)) as [[v|]|] eqn:E; [|by destruct (O_destroys _ HO t E)|done].
      by destruct (O_holds _ HO t v E) as (_ & _ & ?). }
    split; cbn; rewrite ?HP'; try done.
    + intros t t'. rewrite Hnone. by intros [? ?].
    + intros t v. by rewrite Hnone.
    + intros t. by rewrite Hnone.
  - destruct (lock_section_cases _ _ _ _ _ _ _ HM Es) as [(d' & _ & H1 & H2 & H3 & H4 & H5 & _)|[(? & [=] & _)|(? & [=] & _)]].
    apply (Owners_take m m' b f _ t (Some v)); [done|done|done|apply others_upd|by rewrite upd_same|].
    split; [done|by eapply grows_has_version].
  - destruct (lock_section_cases _ _ _ _ _ _ _ HM Es) as [(? & [=] & _)|[(e' & _ & H1 & H2 & H3 & H4 & H5 & _)|(? & [=] & _)]].
    apply Owners_move; [|by rewrite E|done]. apply (Owners_meta m); [done|done|done|congruence].
  - destruct (lock_section_cases _ _ _ _ _ _ _ HM Es) as [(? & [=] & _)|[(? & [=] & _)|(rc' & _ & -> & _)]].
    by apply Owners_move; [|rewrite E|].
  - destruct (trylock_section_cases _ _ _ _ HM Es) as [(d' & _ & H1 & H2 & H3 & H4 & H5 & _)|(? & [=] & _)].
    apply (Owners_take m m' b f _ t (Some v)); [done|done|done|apply others_upd|by rewrite upd_same|].
    split; [done|by rewrite (same_has_version _ _ _ H4)].
  - destruct (error2_section_cases _ _ _ _ _ _ _ HM Es) as [(e' & d' & o1 & o2 & _ & H1 & H2 & H3 & H4 & H5 & _)|(? & [=] & _)].
    apply (Owners_take m m' b f _ t (Some (get_version i))); [done|done|done|apply others_upd|by rewrite upd_same|].
    split; [done|by rewrite (same_has_version _ _ _ H4)].
  - destruct (error2_section_cases _ _ _ _ _ _ _ HM Es) as [(? & ? & ? & ? & [=] & _)|(rc' & _ & H1 & H2 & H3)].
    apply (Owners_meta m); [done|done|done|by apply same_phase].
  - destruct (about_section_cases _ _ _ _ HM Es) as [(H1 & H2 & H3 & H4 & H5 & _)|(rc' & _ & ->)]; [|done].
    apply (Owners_meta m); [done|done|done|congruence].
  - destruct (about_section_cases _ _ _ _ HM Es) as [(H1 & H2 & H3 & H4 & H5 & _)|(rc' & [=] & _)].
    apply (Owners_keep m m' b f _ t); [done|done|congruence| |apply others_upd|].
    + intros v'. by rewrite (same_has_version _ _ _ H5).
    + rewrite upd_same, E. cbn. by rewrite (same_has_version _ _ _ H5).
  - apply (Owners_keep m m b f _ t); [done|done|done|done| |].
    + intros t' Hne. rewrite upd_other by done. apply owner_wake_lockers.
    + rewrite upd_same, E. cbn. by apply (O_holds _ HO t v); cbn; rewrite E.
  - destruct (O_holds _ HO t v ltac:(cbn; by rewrite E)) as (H1 & H2 & _). cbn in H1, H2.
    destruct (unlock_section_cases _ _ _ _ HM H2 H1 Es) as [(? & ? & ? & ? & [=] & _)|(H3 & H4 & _)].
    apply (Owners_give m m' b f _ t v); [done|by rewrite E|done|apply others_upd|by rewrite upd_same].
  - destruct (O_holds _ HO t v ltac:(cbn; by rewrite E)) as (H1 & H2 & _). cbn in H1, H2.
    destruct (unlock_section_cases _ _ _ _ HM H2 H1 Es) as [(? & ? & ? & ? & [=] & _)|(H3 & H4 & _)].
    apply (Owners_give m m' b f _ t v); [done|by rewrite E|done|apply others_upd|by rewrite upd_same].
  - destruct (O_holds _ HO t v ltac:(cbn; by rewrite E)) as (H1 & H2 & _). cbn in H1, H2.
    destruct (unlock_section_cases _ _ _ _ HM H2 H1 Es) as [(e' & d' & o1 & o2 & Ee & H3 & H4 & H5 & _ & H6)|(_ & _ & _ & [([=] & _)|([=] & _)])].
    apply (Owners_keep m m' b f _ t); [done|done|congruence| |apply others_upd|].
    + intros v'. by rewrite (same_has_version _ _ _ H5).
    + injection Ee as <- <- <- <-. rewrite upd_same, E. cbn. by rewrite (same_has_version _ _ _ H5).
  - apply Owners_move; [|rewrite upd_other by (intros ->; congruence); by rewrite E|done].
    apply Owners_move; [done|by rewrite E'|done].
  - destruct (O_holds _ HO t v ltac:(cbn; by rewrite E)) as (H1 & H2 & _). cbn in H1, H2.
    destruct (destroy_section_cases _ _ _ _ HM H2 H1 Es) as (_ & H3 & H4 & _).
    apply (Owners_give m m' b f _ t v); [done|by rewrite E|done|apply others_upd|by rewrite upd_same].
  - apply (Owners_keep m m b f _ t); [done|done|done|done| |by rewrite upd_same, E].
    intros t' Hne. rewrite upd_other by done. apply owner_wake_lockers.
  - apply (Owners_keep m m b f _ t); [done|done|done|done| |by rewrite upd_same, E].
    intros t' Hne. rewrite upd_other by done. apply owner_wake_joiners.
  - (* return_resource *)
    destruct (O_destroys _ HO t ltac:(cbn; by rewrite E)) as [HP _]. cbn in HP.
    assert (forall t', owner (upd f t Idle t') = None) as Hnone.
    { intros t'. destruct (decide (t' = t)) as [->|Hne]; [by rewrite upd_same|]. rewrite upd_other by done.
      destruct (owner (f t')) as [o|] eqn:Eo; [|done]. exfalso. apply Hne.
      apply (O_unique _ HO); cbn; [by rewrite Eo|by rewrite E]. }
    split; cbn; rewrite ?HP; try done.
    + intros t1 t2. rewrite Hnone. by intros [? ?].
    + intros t1 v. by rewrite Hnone.
    + intros t1. by rewrite Hnone.
  - destruct (cancel_section_cases _ _ _ _ HM Es) as [(_ & H1 & H2 & H3 & H4 & _)|(? & [=] & _)].
    apply (Owners_take m m' b f _ t None); [done|done|done|apply others_upd|by rewrite upd_same|done].
Qed.

Lemma reachable_Owners careful s : reachable careful s -> Owners s.
Proof. intros H. induction H as [|s s' _ IH Hst]; [apply initial_Owners|by eapply Owners_step]. Qed.

(** C2. Whatever the threads do, at most one of them holds the lock of a slot; the
    id it holds is valid and locked; on_error too runs with the lock; a slot in
    the pool has no pending errors (what id_create checks), nor has an unlocked
    one; and no section fails on the queue of pending errors. *)
Theorem session_mutual_exclusion careful s :
  reachable careful s ->
  (forall t t' v v', pcs s t = Holds v -> pcs s t' = Holds v' -> t = t') /\
  (forall t v, pcs s t = Holds v -> has_version (meta s) v = true /\ butex (meta s) <> first_ver (meta s) /\
     exists m' o, unlock_section v (meta s) = Some (m', o) /\ o <> Ret EINVAL /\ o <> Ret EPERM) /\
  (butex (meta s) = first_ver (meta s) -> SmallQueue.empty (pending_q (meta s)) = true) /\
  (pooled s = true -> butex (meta s) = first_ver (meta s)) /\
  forall i code text loc, is_Some (error2_section i code text loc (meta s)).
Proof.
  intros Hr. pose proof (reachable_Owners careful s Hr) as HO. pose proof (O_meta s HO) as HM.
  destruct (M_pending _ HM) as (l & L1 & L2 & L3). split_and!.
  - intros t t' v v' E E'. apply (O_unique s HO); [by rewrite E|by rewrite E'].
  - intros t v E. destruct (O_holds s HO t v ltac:(by rewrite E)) as (H1 & H2 & _).
    pose proof (phase_cases _ HM) as Hph. rewrite H1 in Hph. destruct Hph as [_ Hb]. split; [done|]. split; [done|].
    unfold unlock_section. rewrite H2, (proj2 (Z.eqb_neq _ _) Hb). cbn [negb].
    pose proof (SmallQueue.queue_pop_spec QN ltac:(lia) (pending_q (meta s)) l L1) as Hp. destruct l as [|e l].
    + rewrite Hp. cbn [mbind option_bind]. eexists _, _. split; [done|]. by destruct (_ =? _).
    + destruct Hp as (q' & -> & _). cbn [mbind option_bind]. by eexists _, _.
  - intros E. rewrite (SmallQueue.queue_empty_spec QN _ l L1). by rewrite (L2 E).
  - intros E. pose proof (phase_cases _ HM) as Hph. rewrite (O_pooled s HO E) in Hph. apply Hph.
  - intros i code text loc. unfold error2_section. destruct (negb _); [by eexists|]. destruct (_ =? _); [by eexists|].
    destruct (SmallQueue.queue_push_spec QN ltac:(lia) (mkPendingError i code text loc) _ l L1) as (q' & -> & _). by eexists.
Qed.

(** ** Nobody waits in vain *)

(** Somebody will look after the blocked lockers of a live id: the holder, who
    sees that the id is contended or is going to destroy it; a thread that is
    about to wake one; or a locker that waited and is about to try again. *)
Definition alarm (m : Id) (f : nat -> pc) : Prop :=
  butex m = contended_ver m \/ butex m = unlockable_ver m \/ (exists t, f t = UWake) \/
  exists t v r, f t = LLock v r true /\ has_version m v = true.

Record Care (s : state) : Prop := mkCare {
  C_owners : Owners s;
  C_join : join_butex (meta s) <= first_ver (meta s) /\
    (first_ver (meta s) < locked_ver (meta s) -> join_butex (meta s) = first_ver (meta s));
  C_nowrap : first_ver (meta s) < locked_ver (meta s) -> locked_ver (meta s) + 3 < 2 ^ 32;
  C_range : forall t v r, (exists ever, pcs s t = LLock v r ever) \/ (exists e, pcs s t = LWait v r e) \/
    pcs s t = LBlocked v r -> r = 0;
  C_wait : forall t v r e, pcs s t = LWait v r e ->
    has_version (meta s) v = true /\ e = contended_ver (meta s) \/ v < first_ver (meta s) /\ e < first_ver (meta s);
  C_block : forall t v r, pcs s t = LBlocked v r ->
    has_version (meta s) v = true /\ alarm (meta s) (pcs s) \/ exists t', pcs s t' = DWake;
  C_jwait : forall t v e, pcs s t = JWait v e ->
    has_version (meta s) v = true /\ e = join_butex (meta s) \/ v < first_ver (meta s) /\ e < join_butex (meta s);
  C_jblock : forall t v, pcs s t = JBlocked v ->
    has_version (meta s) v = true \/ exists t', pcs s t' = DWake \/ pcs s t' = DJoin }.

(** What the new place of a thread requires. *)
Definition place_ok (m' : Id) (p : pc) : Prop :=
  match p with
  | LLock v r ever => r = 0
  | LWait v r e => r = 0 /\ has_version m' v = true /\ e = contended_ver m'
  | LBlocked v r => r = 0 /\ has_version m' v = true /\ butex m' = contended_ver m'
  | JWait v e => has_version m' v = true /\ e = join_butex m'
  | JBlocked v => has_version m' v = true
  | _ => True
  end.

Lemma Care_upd m m' b b' f t p :
  Care (mkState m b f) -> Owners (mkState m' b' (upd f t p)) -> same_id m m' -> place_ok m' p ->
  f t <> DWake -> f t <> DJoin ->
  (first_ver m < locked_ver m -> (exists t', blocked (upd f t p t')) -> alarm m f -> alarm m' (upd f t p)) ->
  Care (mkState m' b' (upd f t p)).
Proof.
  intros [HO HJ HN HR HW HB HJW HJB] HO' Hs Hp Hd Hj Ha. cbn in *. pose proof Hs as (E1 & E2 & E3).
  destruct (same_vers _ _ Hs) as [E4 E5].
  assert (forall v, has_version m' v = has_version m v) as Hv by (intros v; by apply same_has_version).
  split; cbn; rewrite ?E1, ?E2, ?E3, ?E4; try done.
  - intros t0 v r. unfold upd. destruct (decide (t0 = t)) as [->|]; [|apply HR].
    intros [[ever ->]|[[e ->]| ->]]; cbn in Hp; tauto.
  - intros t0 v r e. unfold upd. destruct (decide (t0 = t)) as [->|]; rewrite Hv; [|apply HW].
    intros ->. cbn in Hp. rewrite Hv, E4 in Hp. left. tauto.
  - intros t0 v r. rewrite Hv. unfold upd at 1. destruct (decide (t0 = t)) as [->|].
    + intros ->. cbn in Hp. rewrite Hv in Hp. left. split; [tauto|]. left. tauto.
    + intros E. destruct (HB t0 v r E) as [[H1 H2]|[t' H1]]; [left|right].
      { split; [done|]. apply has_version_iff in H1. apply Ha; [lia| |done]. exists t0, v, r. by rewrite upd_other. }
      exists t'. rewrite upd_other; [done|]. intros ->. done.
  - intros t0 v e. unfold upd. destruct (decide (t0 = t)) as [->|]; rewrite Hv; [|apply HJW].
    intros ->. cbn in Hp. rewrite Hv, E3 in Hp. left. tauto.
  - intros t0 v. rewrite Hv. unfold upd at 1. destruct (decide (t0 = t)) as [->|].
    + intros ->. cbn in Hp. rewrite Hv in Hp. by left.
    + intros E. destruct (HJB t0 v E) as [H1|[t' H1]]; [by left|right].
      exists t'. rewrite upd_other; [done|]. intros ->. by destruct H1.
Qed.

Lemma alarm_butex m m' f' : same_id m m' ->
  butex m' = contended_ver m \/ butex m' = unlockable_ver m -> alarm m' f'.
Proof.
  intros Hs H. destruct (same_vers _ _ Hs) as [E4 E5]. unfold alarm. rewrite E4, E5. tauto.
Qed.

(** The alarm stays when the butex does, or is rung by another thread. *)
Lemma alarm_upd m m' f t p :
  same_id m m' -> f t <> UWake -> (forall v r, f t = LLock v r true -> has_version m v = false) ->
  butex m' = butex m \/ (butex m <> contended_ver m /\ butex m <> unlockable_ver m) ->
  alarm m f -> alarm m' (upd f t p).
Proof.
  intros Hs H1 H2 H3 Ha. destruct (same_vers _ _ Hs) as [E4 E5]. unfold alarm in *. rewrite E4, E5.
  destruct Ha as [Ha|[Ha|[[t' Ha]|(t' & v & r & Ha & Hv)]]].
  - left. destruct H3 as [->|H3]; tauto.
  - right. left. destruct H3 as [->|H3]; tauto.
  - right; right; left. exists t'. rewrite upd_other; [done|]. congruence.
  - right; right; right. exists t', v, r. rewrite (same_has_version _ _ _ Hs). split; [|done].
    rewrite upd_other; [done|]. intros ->. rewrite (H2 v r Ha) in Hv. done.
Qed.

Lemma same_id_refl m : same_id m m.
Proof. done. Qed.

Lemma Care_move m b b' f t p :
  Care (mkState m b f) -> Owners (mkState m b' (upd f t p)) -> place_ok m p ->
  match f t with
  | UWake | DWake | DJoin => False
  | LLock v r true => has_version m v = false
  | _ => True
  end -> Care (mkState m b' (upd f t p)).
Proof.
  intros HC HO Hp Ht. apply (Care_upd m m b); try done.
  - intros E. by rewrite E in Ht.
  - intros E. by rewrite E in Ht.
  - intros _ _. apply alarm_upd; [done| | |by left].
    + intros E. by rewrite E in Ht.
    + intros v r E. by rewrite E in Ht.
Qed.

Lemma held_butex m : Meta m -> phase_of m = Held -> butex m <> first_ver m /\ first_ver m < locked_ver m.
Proof. intros HM HP. pose proof (phase_cases m HM) as H. rewrite HP in H. tauto. Qed.

Lemma free_butex m : Meta m -> phase_of m = Free ->
  butex m = first_ver m /\ butex m <> contended_ver m /\ butex m <> unlockable_ver m.
Proof.
  intros HM HP. pose proof (phase_cases m HM) as H. rewrite HP in H. destruct H as [H1 H2].
  destruct (vers m HM H1) as (E1 & E2 & _). rewrite E1, E2. lia.
Qed.

(** Other pending errors or another value of the butex. *)
Lemma Care_meta m m' b f :
  Care (mkState m b f) -> Owners (mkState m' b f) -> same_id m m' -> (alarm m f -> alarm m' f) ->
  Care (mkState m' b f).
Proof.
  intros [HO HJ HN HR HW HB HJW HJB] HO' Hs Ha. cbn in *. pose proof Hs as (E1 & E2 & E3).
  destruct (same_vers _ _ Hs) as [E4 E5].
  assert (forall v, has_version m' v = has_version m v) as Hv by (intros v; by apply same_has_version).
  split; cbn; rewrite ?E1, ?E2, ?E3, ?E4; try done.
  - intros t v r e. rewrite Hv. apply HW.
  - intros t v r E. rewrite Hv. destruct (HB t v r E) as [[H1 H2]|H1]; auto.
  - intros t v e. rewrite Hv. apply HJW.
  - intros t v. rewrite Hv. apply HJB.
Qed.

Lemma wake_lockers_inv f t p : wake_lockers f t = p ->
  f t = p \/ exists v r, f t = LBlocked v r /\ p = LLock v r true.
Proof. unfold wake_lockers. destruct (f t); eauto. Qed.

Lemma wake_joiners_inv f t p : wake_joiners f t = p ->
  f t = p \/ exists v, f t = JBlocked v /\ p = JCheck v.
Proof. unfold wake_joiners. destruct (f t); eauto. Qed.

Lemma wake_lockers_none f t : ~ blocked (wake_lockers f t).
Proof. intros (v & r & E). unfold wake_lockers in E. by destruct (f t). Qed.

Lemma wake_joiners_none f t v : wake_joiners f t <> JBlocked v.
Proof. unfold wake_joiners. by destruct (f t). Qed.

Lemma Care_wake_lockers m b f t p :
  Care (mkState m b f) -> Owners (mkState m b (upd (wake_lockers f) t p)) ->
  (exists v, f t = AWake v /\ p = Holds v) \/ f t = DWake /\ p = DJoin ->
  Care (mkState m b (upd (wake_lockers f) t p)).
Proof.
  intros [HO HJ HN HR HW HB HJW HJB] HO' Hp. cbn in *.
  assert (forall t0 q, upd (wake_lockers f) t p t0 = q ->
    match q with Holds _ | DJoin => True | _ => t0 <> t /\ wake_lockers f t0 = q end) as Hq.
  { intros t0 q E. destruct (decide (t0 = t)) as [->|Hne].
    - rewrite upd_same in E. subst q. by destruct Hp as [(v & _ & ->)|[_ ->]].
    - rewrite upd_other in E by done. by destruct q. }
  split; cbn; try done.
  - intros t0 v r [[ever E]|[[e E]|E]]; apply Hq in E as [_ [E|(v' & r' & E & Ep)]%wake_lockers_inv];
      first [injection Ep as -> -> _ | discriminate | idtac]; eapply (HR t0); eauto 6.
  - intros t0 v r e E. apply Hq in E as [_ [E|(v' & r' & E & [=])]%wake_lockers_inv]. eauto.
  - intros t0 v r E. apply Hq in E as [_ E]. exfalso. apply (wake_lockers_none f t0). by exists v, r.
  - intros t0 v e E. apply Hq in E as [_ [E|(v' & r' & E & [=])]%wake_lockers_inv]. eauto.
  - intros t0 v E. apply Hq in E as [_ [E|(v' & r' & E & [=])]%wake_lockers_inv].
    destruct (HJB t0 v E) as [H|[t' H]]; [by left|right]. destruct (decide (t' = t)) as [->|Hne].
    + exists t. rewrite upd_same. destruct Hp as [(v' & Ea & _)|[_ ->]]; [|auto]. rewrite Ea in H. by destruct H.
    + exists t'. rewrite upd_other by done. unfold wake_lockers. destruct H as [H|H]; rewrite H; auto.
Qed.

Lemma Care_wake_joiners m b f t :
  Care (mkState m b f) -> Owners (mkState m b (upd (wake_joiners f) t DReturn)) -> f t = DJoin ->
  Care (mkState m b (upd (wake_joiners f) t DReturn)).
Proof.
  intros [HO HJ HN HR HW HB HJW HJB] HO' Et. cbn in *.
  assert (forall t0 q, upd (wake_joiners f) t DReturn t0 = q ->
    match q with DReturn => True | _ => t0 <> t /\ wake_joiners f t0 = q end) as Hq.
  { intros t0 q E. destruct (decide (t0 = t)) as [->|Hne].
    - rewrite upd_same in E. by subst q.
    - rewrite upd_other in E by done. by destruct q. }
  split; cbn; try done.
  - intros t0 v r [[ever E]|[[e E]|E]]; apply Hq in E as [_ [E|(v' & E & [=])]%wake_joiners_inv]; eapply (HR t0); eauto 6.
  - intros t0 v r e E. apply Hq in E as [_ [E|(v' & E & [=])]%wake_joiners_inv]. eauto.
  - intros t0 v r E. apply Hq in E as [_ [E|(v' & E & [=])]%wake_joiners_inv]. exfalso.
    destruct (O_destroys _ HO t ltac:(cbn; by rewrite Et)) as [HP _]. cbn in HP.
    destruct (HB t0 v r E) as [[H1 _]|[t' H1]].
    + apply has_version_iff in H1. pose proof (phase_cases m (O_meta _ HO)) as Hph. rewrite HP in Hph. lia.
    + assert (t' = t) as -> by (apply (O_unique _ HO); cbn; [by rewrite H1|by rewrite Et]). congruence.
  - intros t0 v e E. apply Hq in E as [_ [E|(v' & E & [=])]%wake_joiners_inv]. eauto.
  - intros t0 v E. apply Hq in E as [_ E]. by apply wake_joiners_none in E.
Qed.

(** *** The steps that change the Id *)

Section CareSteps.
Context (m m' : Id) (b : bool) (f : nat -> pc) (t : nat).
Hypothesis HC : Care (mkState m b f).

Lemma care_meta : Meta m.
Proof. exact (O_meta _ (C_owners _ HC)). Qed.

Lemma care_lock v range ever loc o p :
  f t = LLock v range ever -> lock_section v range ever loc m = (m', o) ->
  match o with Locked _ => p = Holds v | MustWait e => p = LWait v range e | _ => p = Idle end ->
  Owners (mkState m' b (upd f t p)) -> Care (mkState m' b (upd f t p)).
Proof.
  intros E Es Hp HO. pose proof care_meta as HM.
  assert (range = 0) as -> by (apply (C_range _ HC t v range); left; by exists ever).
  destruct (lock_section_cases _ _ _ _ _ _ _ HM Es) as
    [(d & -> & H1 & H2 & H3 & (G1 & _ & G3) & H5 & H6 & H7)|[(e & -> & H1 & H2 & H3 & H4 & H5 & H6 & H7 & H8)|(rc & -> & -> & H1)]];
    subst p.
  - assert (same_id m m') as Hs by (split_and!; auto). destruct (free_butex m HM H1) as (B1 & B2 & B3).
    apply (Care_upd m m' b); try done; try congruence. intros _ _. destruct ever.
    + intros _. destruct (same_vers _ _ Hs) as [E4 _]. apply (alarm_butex m m'); [done|left; congruence].
    + apply alarm_upd; [done|congruence|congruence|by right].
  - apply (Care_upd m m' b); try done; try congruence.
    + split; [done|]. by rewrite (same_has_version _ _ _ H4).
    + intros _ _ _. destruct (same_vers _ _ H4) as [E4 _]. apply (alarm_butex m m'); [done|left; congruence].
  - apply (Care_upd m m b); try done; try congruence. intros _ _ Ha. destruct (has_version m v) eqn:Hv.
    + apply (alarm_butex m m); [done|right; auto].
    + revert Ha. apply alarm_upd; [done|congruence| |by left]. intros v' r' E'. congruence.
Qed.

(** Taking a free id without waiting. *)
Lemma care_take v :
  f t = Idle -> phase_of m = Free -> same_id m m' -> Owners (mkState m' b (upd f t (Holds v))) ->
  Care (mkState m' b (upd f t (Holds v))).
Proof.
  intros E HP Hs HO. destruct (free_butex m care_meta HP) as (B1 & B2 & B3).
  apply (Care_upd m m' b); try done; try congruence. intros _ _. apply alarm_upd; [done|congruence|congruence|by right].
Qed.

Lemma care_about v o p :
  f t = Holds v -> about_to_destroy_section v m = (m', o) -> o = RetWakeAll 0 -> p = AWake v ->
  Owners (mkState m' b (upd f t p)) -> Care (mkState m' b (upd f t p)).
Proof.
  intros E Es -> -> HO. destruct (about_section_cases _ _ _ _ care_meta Es) as [(_ & _ & _ & _ & Hs & H6 & _)|(? & [=] & _)].
  apply (Care_upd m m' b); try done; try congruence. intros _ _ _. destruct (same_vers _ _ Hs) as [_ E5].
  apply (alarm_butex m m'); [done|right; congruence].
Qed.

Lemma care_unlock v o p :
  f t = Holds v -> has_version m v = true -> phase_of m = Held -> butex m <> unlockable_ver m ->
  unlock_section v m = Some (m', o) ->
  match o with RetWakeOne _ => p = UWake | Ret _ => p = Idle | _ => False end ->
  Owners (mkState m' b (upd f t p)) -> Care (mkState m' b (upd f t p)).
Proof.
  intros E Hv HP Hu Es Hp HO.
  destruct (unlock_section_cases _ _ _ _ care_meta Hv HP Es) as [(? & ? & ? & ? & -> & _)|(_ & _ & Hs & Ho)]; [done|].
  destruct Ho as [[-> Hb]|[-> Hb]]; subst p; apply (Care_upd m m' b); try done; try congruence.
  - intros _ _ _. right. right. left. exists t. apply upd_same.
  - intros _ _. apply alarm_upd; [done|congruence|congruence|by right].
Qed.

(** The end of an id: nobody's version is valid any more. *)
Lemma care_destroy v o :
  f t = Holds v -> has_version m v = true -> phase_of m = Held -> unlock_and_destroy_section v m = (m', o) ->
  Owners (mkState m' b (upd f t DWake)) -> Care (mkState m' b (upd f t DWake)).
Proof.
  intros E Hv HP Es HO. pose proof care_meta as HM.
  destruct (destroy_section_cases _ _ _ _ HM Hv HP Es) as (_ & H3 & H4 & H5 & H6).
  destruct (held_butex m HM HP) as [_ Hl]. destruct (vers m HM Hl) as (V1 & V2 & V3 & _).
  pose proof (C_nowrap _ HC Hl) as Hw. rewrite wrapu_small in V3 by (cbn in Hw; pose proof (M_first m HM); lia).
  pose proof (phase_cases m' H3) as Hph. rewrite H4 in Hph. destruct Hph as [E1 _]. destruct (C_join _ HC) as [J1 J2].
  cbn in J1, J2. specialize (J2 Hl).
  assert (forall t0 q, upd f t DWake t0 = q -> q <> DWake -> f t0 = q) as Hq.
  { intros t0 q Eq Hne. destruct (decide (t0 = t)) as [->|]; [by rewrite upd_same in Eq|by rewrite upd_other in Eq]. }
  split; cbn; try done.
  - lia.
  - lia.
  - intros t0 v0 r [[ever Eq]|[[e Eq]|Eq]]; apply Hq in Eq; try done; apply (C_range _ HC t0 v0 r); cbn; eauto.
  - intros t0 v0 r e Eq. apply Hq in Eq; [|done]. right.
    destruct (C_wait _ HC t0 v0 r e Eq) as [[H7 H8]|H7]; cbn in *; [apply has_version_iff in H7|]; lia.
  - intros t0 v0 r Eq. right. exists t. apply upd_same.
  - intros t0 v0 e Eq. apply Hq in Eq; [|done]. right.
    destruct (C_jwait _ HC t0 v0 e Eq) as [[H7 H8]|H7]; cbn in *; [apply has_version_iff in H7|]; lia.
  - intros t0 v0 Eq. right. exists t. left. apply upd_same.
Qed.

(** A new id in the slot: nobody is blocked, and who waited for an old one is not
    mistaken. *)
Lemma care_create d oe oe2 range :
  b = true -> 1 <= range <= ID_MAX_RANGE -> butex m + ID_MAX_RANGE + 3 < 2 ^ 32 ->
  Owners (mkState (id_reset m d oe oe2 range) false f) -> Care (mkState (id_reset m d oe oe2 range) false f).
Proof.
  intros Eb Hr Hsmall HO. pose proof care_meta as HM. pose proof (O_pooled _ (C_owners _ HC) Eb) as HP. cbn in HP.
  destruct (create_cases m d oe oe2 range HM HP Hr) as (HM' & HP' & J & F). specialize (F Hsmall).
  pose proof (phase_cases m HM) as Hph. rewrite HP in Hph. destruct Hph as [E1 E2].
  pose proof (M_range _ HM') as R'. pose proof (M_first _ HM). unfold ID_MAX_RANGE in *.
  destruct (C_join _ HC) as [J1 _]. cbn in J1.
  assert (forall v, has_version m v = true -> False) as Hdead by (intros v Hv%has_version_iff; lia).
  assert (forall t', f t' <> DWake /\ f t' <> DJoin) as Hno.
  { intros t'. split; intros E; destruct (O_destroys _ (C_owners _ HC) t' ltac:(cbn; by rewrite E)) as [_ Hb]; cbn in Hb; congruence. }
  split; cbn [meta pooled pcs]; try done.
  - intros _. lia.
  - apply (C_range _ HC).
  - intros t0 v r e Eq. right. destruct (C_wait _ HC t0 v r e Eq) as [[H7 _]|H7]; cbn in *; [destruct (Hdead _ H7)|lia].
  - intros t0 v r Eq. exfalso. destruct (C_block _ HC t0 v r Eq) as [[H7 _]|[t' H7]]; [destruct (Hdead _ H7)|by destruct (Hno t')].
  - intros t0 v e Eq. right. destruct (C_jwait _ HC t0 v e Eq) as [[H7 _]|H7]; cbn in *; [destruct (Hdead _ H7)|lia].
  - intros t0 v Eq. exfalso. destruct (C_jblock _ HC t0 v Eq) as [H7|[t' [H7|H7]]]; [destruct (Hdead _ H7)|by destruct (Hno t')..].
Qed.

(** Waking one: while the id is live the woken locker is the alarm. *)
Lemma care_wake_one t' v range :
  f t = UWake -> f t' = LBlocked v range ->
  Owners (mkState m b (upd (upd f t' (LLock v range true)) t Idle)) ->
  Care (mkState m b (upd (upd f t' (LLock v range true)) t Idle)).
Proof.
  intros E E' HO. pose proof (C_owners _ HC) as HO0.
  assert (t <> t') as Hne by (intros ->; congruence).
  assert (Care (mkState m b (upd f t' (LLock v range true)))) as HC1.
  { apply (Care_move m b); [done| | |by rewrite E'].
    - apply Owners_move; [done|by rewrite E'|done].
    - cbn. apply (C_range _ HC t' v range). cbn. auto. }
  apply (Care_upd m m b); try done.
  - rewrite upd_other by done. by rewrite E.
  - rewrite upd_other by done. by rewrite E.
  - intros Hl _ _. right. right. right. exists t', v, range. rewrite upd_other, upd_same by done. split; [done|].
    destruct (C_block _ HC t' v range E') as [[H1 _]|[t1 H1]]; [done|].
    destruct (O_destroys _ HO0 t1 ltac:(cbn in *; by rewrite H1)) as [HP _]. cbn in HP.
    pose proof (phase_cases m care_meta) as Hph. rewrite HP in Hph. lia.
Qed.
End CareSteps.

Lemma Care_step s s' : step true s s' -> Care s -> Care s'.
Proof.
  intros Hst HC. pose proof (C_owners s HC) as HO. pose proof (Owners_step _ _ _ Hst HO) as HO'. pose proof (O_meta s HO) as HM.
  destruct Hst as [m f d oe oe2 range Hr Hc|m b f t v range E Hc|m b f t v range ever loc m' d E Es|
    m b f t v range ever loc m' e E Es|m b f t v range ever loc m' rc E Es|m b f t v range e E Hb|
    m b f t v range e E Hb|m b f t v range E|m b f t v m' d E Es|m b f t i code text loc m' e d oe oe2 E Es|
    m b f i code text loc m' rc Es|m b f t v m' rc E Es|m b f t v m' rc E Es|m b f t v E|m b f t v m' rc E Es Hc|
    m b f t v m' rc E Es Hc|m b f t v m' e d oe oe2 E Es|m b f t t' v range E E'|m b f t E Hnone|m b f t v m' rc E Es|
    m b f t E|m b f t E|m b f t E|m b f t v m' rc E Es Hc|m b f t v E|m b f t v e E Hj|m b f t v rc E Hj|m b f t v e E Hj|
    m b f t v e E Hj|m b f t v E]; cbn in HM;
    try (by apply (Care_move m b b f t); [done|done|cbn; auto|rewrite E]).
  - eapply (care_create m true f); auto.
  - by eapply (care_lock m m'); eauto.
  - by eapply (care_lock m m'); eauto.
  - by eapply (care_lock m m'); eauto.
  - apply (Care_move m b b f t); [done|done| |by rewrite E]. cbn. apply (C_range _ HC t v range). cbn. eauto.
  - (* butex_wait blocks *)
    apply (Care_move m b b f t); [done|done| |by rewrite E]. cbn.
    split; [apply (C_range _ HC t v range); cbn; eauto|].
    destruct (C_wait _ HC t v range e E) as [[H1 H2]|[_ H1]]; cbn in *; [split; [done|congruence]|exfalso].
    subst e. destruct (M_butex m HM) as [Hb|(Hl & Hb)]; [lia|]. destruct (vers m HM Hl) as (V1 & V2 & _). lia.
  - apply (Care_move m b b f t); [done|done| |by rewrite E]. cbn. apply (C_range _ HC t v range). cbn. eauto.
  - destruct (trylock_section_cases _ _ _ _ HM Es) as [(d' & _ & H1 & H2 & H3 & H4 & H5 & _)|(? & [=] & _)].
    by apply (care_take m m').
  - destruct (error2_section_cases _ _ _ _ _ _ _ HM Es) as [(e' & d' & o1 & o2 & _ & H1 & H2 & H3 & H4 & H5 & _)|(? & [=] & _)].
    by apply (care_take m m').
  - destruct (error2_section_cases _ _ _ _ _ _ _ HM Es) as [(? & ? & ? & ? & [=] & _)|(rc' & _ & H1 & H2 & H3)].
    apply (Care_meta m m'); [done|done|done|]. destruct (same_vers _ _ H2) as [E4 E5]. unfold alarm. rewrite E4, E5, H3.
    intros Ha. setoid_rewrite (same_has_version _ _ _ H2). exact Ha.
  - destruct (about_section_cases _ _ _ _ HM Es) as [(H1 & H2 & H3 & H4 & H5 & H6 & _)|(rc' & _ & ->)]; [|done].
    apply (Care_meta m m'); [done|done|done|]. intros _. destruct (same_vers _ _ H5) as [_ E5].
    apply (alarm_butex m m'); [done|right; congruence].
  - destruct (about_section_cases _ _ _ _ HM Es) as [(_ & _ & _ & _ & _ & _ & [[[= ->] _]|[=]])|(rc' & [=] & _)].
    by eapply (care_about m m').
  - apply Care_wake_lockers; [done|done|]. left. by exists v.
  - destruct (O_holds _ HO t v ltac:(cbn; by rewrite E)) as (H1 & H2 & _). cbn in H1, H2.
    by eapply (care_unlock m m'); eauto.
  - destruct (O_holds _ HO t v ltac:(cbn; by rewrite E)) as (H1 & H2 & _). cbn in H1, H2.
    by eapply (care_unlock m m'); eauto.
  - destruct (O_holds _ HO t v ltac:(cbn; by rewrite E)) as (H1 & H2 & _). cbn in H1, H2.
    destruct (unlock_section_cases _ _ _ _ HM H2 H1 Es) as [(e' & d' & o1 & o2 & _ & H3 & H4 & H5 & H6 & _)|(_ & _ & _ & [([=] & _)|([=] & _)])].
    apply (Care_upd m m' b); try done; try congruence. intros _ _. apply alarm_upd; [done|congruence|congruence|by left].
  - by eapply care_wake_one.
  - apply (Care_upd m m b); try done; try congruence. intros _ [t' Ht']. exfalso. destruct (decide (t' = t)) as [->|Hne].
    + rewrite upd_same in Ht'. by destruct Ht' as (? & ? & ?).
    + rewrite upd_other in Ht' by done. by apply (Hnone t').
  - destruct (O_holds _ HO t v ltac:(cbn; by rewrite E)) as (H1 & H2 & _). cbn in H1, H2. by eapply (care_destroy m m').
  - apply Care_wake_lockers; [done|done|by right].
  - by apply Care_wake_joiners.
  - apply (Care_move m b true f t); [done|done|done|by rewrite E].
  - (* cancel: no thread is in the middle of anything *)
    specialize (Hc eq_refl). destruct (cancel_section_cases _ _ _ _ HM Es) as [(_ & H1 & H2 & H3 & H4 & H5 & H6)|(? & [=] & _)].
    assert (forall t0 q, upd f t DReturn t0 = q -> q = Idle \/ q = DReturn) as Hq.
    { intros t0 q <-. destruct (decide (t0 = t)) as [->|]; [rewrite upd_same; auto|rewrite upd_other by done; left; apply Hc]. }
    pose proof (phase_cases m HM) as Hph. rewrite H2 in Hph. destruct Hph as [Hl _].
    destruct (vers m HM Hl) as (V1 & V2 & V3 & _). pose proof (C_nowrap _ HC Hl) as Hw. cbn in Hw. pose proof (M_first m HM).
    rewrite wrapu_small in V3 by lia. destruct (C_join _ HC) as [J1 J2]. cbn in J1, J2.
    pose proof (phase_cases m' H3) as Hph. rewrite H4 in Hph. destruct Hph as [E1 _].
    split; cbn; try done; try lia.
    + intros t0 v0 r [[ever Eq]|[[e Eq]|Eq]]; apply Hq in Eq as [?|?]; done.
    + intros t0 v0 r e Eq. by apply Hq in Eq as [?|?].
    + intros t0 v0 r Eq. by apply Hq in Eq as [?|?].
    + intros t0 v0 e Eq. by apply Hq in Eq as [?|?].
    + intros t0 v0 Eq. by apply Hq in Eq as [?|?].
  - apply (Care_move m b b f t); [done|done| |by rewrite E]. unfold join_section in Hj.
    destruct (has_version m v) eqn:Hv; [|done]. by injection Hj as <-.
  - apply (Care_move m b b f t); [done|done| |by rewrite E]. cbn.
    destruct (C_jwait _ HC t v e E) as [[H1 _]|[_ H1]]; cbn in *; [done|lia].
Qed.

Lemma initial_Care : Care initial.
Proof.
  split; cbn; try done; [apply initial_Owners|].
  intros t v r [[ever [=]]|[[e [=]]|[=]]].
Qed.

Lemma reachable_Care s : reachable true s -> Care s.
Proof. intros H. induction H as [|s s' _ IH Hst]; [apply initial_Care|by eapply Care_step]. Qed.

(** C18. Among careful threads no locker sleeps on an unlocked id: while one is
    blocked, a thread holds the lock or is destroying the id; if the id is
    unlocked, a thread is about to wake a locker, or one that waited is about to
    try again.  A joiner sleeps only while the id exists or its destroyer is
    about to wake the joiners. *)
Theorem session_no_lost_wakeup s :
  reachable true s ->
  (forall t v r, pcs s t = LBlocked v r ->
     exists t', (exists o, owner (pcs s t') = Some o) \/ pcs s t' = UWake \/
       exists v' r', pcs s t' = LLock v' r' true /\ has_version (meta s) v' = true) /\
  (forall t v r, pcs s t = LBlocked v r -> butex (meta s) = first_ver (meta s) ->
     exists t', pcs s t' = DWake \/ pcs s t' = UWake \/
       exists v' r', pcs s t' = LLock v' r' true /\ has_version (meta s) v' = true) /\
  (forall t v, pcs s t = JBlocked v ->
     has_version (meta s) v = true \/ exists t', pcs s t' = DWake \/ pcs s t' = DJoin).
Proof.
  intros Hr. pose proof (reachable_Care s Hr) as HC. pose proof (C_owners s HC) as HO. pose proof (O_meta s HO) as HM.
  split_and!.
  - intros t v r E. destruct (C_block s HC t v r E) as [[Hv Ha]|[t' Ed]]; [|exists t'; left; rewrite Ed; by eexists].
    apply has_version_iff in Hv. destruct (vers _ HM ltac:(lia)) as (V1 & V2 & _ & _).
    assert (butex (meta s) = contended_ver (meta s) \/ butex (meta s) = unlockable_ver (meta s) ->
      exists t' o, owner (pcs s t') = Some o) as Hheld.
    { intros Hb. destruct (O_held s HO) as (t' & v' & Eo); [|by eauto].
      apply Held_intro; lia. }
    destruct Ha as [Ha|[Ha|[[t' Ha]|(t' & Ha)]]].
    + destruct Hheld as (t' & o & Eo); [by left|]. exists t'. left. eauto.
    + destruct Hheld as (t' & o & Eo); [by right|]. exists t'. left. eauto.
    + exists t'. auto.
    + exists t'. auto.
  - intros t v r E Hb. destruct (C_block s HC t v r E) as [[Hv Ha]|[t' Ed]]; [|exists t'; auto].
    apply has_version_iff in Hv. destruct (vers _ HM ltac:(lia)) as (V1 & V2 & _ & _).
    destruct Ha as [Ha|[Ha|[[t' Ha]|(t' & Ha)]]]; [lia|lia|exists t'; auto|exists t'; auto].
  - intros t v E. by apply (C_jblock s HC t v E).
Qed.

(** ** Runs *)

Tactic Notation "advance" hyp(H) uconstr(st) :=
  let H' := fresh in
  eassert (reachable _ _) as H' by
    (eapply r_step; [exact H|]; eapply st;
     first [reflexivity | done | by intros [|[|t']] (? & ? & ?) | by intros t']);
  lazymatch type of H' with
  | reachable ?c (mkState ?m ?b ?f) =>
      let m' := eval vm_compute in m in
      let H'' := fresh in
      assert (reachable c (mkState m' b f)) as H'' by exact H'; clear H'; clear H; rename H'' into H
  end.

Lemma created careful : reachable careful (mkState (id_reset Id_ctor 7 None None 1) false (fun _ => Idle)).
Proof. eapply r_step; [apply r_initial|]. constructor; [by unfold ID_MAX_RANGE|]. by intros _. Qed.

(** Thread 0 holds the lock and thread 1 is blocked. *)
Theorem session_no_lost_wakeup_witness :
  exists s, reachable true s /\ pcs s 1%nat = LBlocked 1 0 /\
    exists t', (exists o, owner (pcs s t') = Some o) \/ pcs s t' = UWake \/
       exists v' r', pcs s t' = LLock v' r' true /\ has_version (meta s) v' = true.
Proof.
  pose proof (created true) as H.
  advance H (s_lock true _ _ _ 0%nat 1 0).
  advance H (s_locked true _ _ _ 0%nat 1 0 false 0 _ _).
  advance H (s_lock true _ _ _ 1%nat 1 0).
  advance H (s_must_wait true _ _ _ 1%nat 1 0 false 0 _ _).
  advance H (s_wait_block true _ _ _ 1%nat 1 0 _).
  eexists. split; [exact H|]. split; [reflexivity|].
  exact (proj1 (session_no_lost_wakeup _ H) 1%nat 1 0 eq_refl).
Defined.

Theorem session_mutual_exclusion_witness :
  exists s, reachable false s /\ pcs s 0%nat = Holds 1 /\
    has_version (meta s) 1 = true /\ butex (meta s) <> first_ver (meta s).
Proof.
  pose proof (created false) as H.
  advance H (s_lock false _ _ _ 0%nat 1 0).
  advance H (s_locked false _ _ _ 0%nat 1 0 false 0 _ _).
  eexists. split; [exact H|]. split; [reflexivity|].
  destruct (session_mutual_exclusion false _ H) as (_ & H2 & _).
  destruct (H2 0%nat 1 eq_refl) as (H3 & H4 & _). by split.
Defined.

(** All the threads but [t] have returned. *)
Definition alone (f : nat -> pc) (t : nat) : Prop := forall t', t' <> t -> f t' = Idle.

Ltac is_alone := intros [|[|[|[|t']]]] Hne; done.

(** Runs from a fresh id of range 1 on, in which every state satisfies [P]. *)
Definition fresh_id : state := mkState (id_reset Id_ctor 7 None None 1) false (fun _ => Idle).

Inductive runs (P : state -> Prop) : state -> Prop :=
  | rn_start : P fresh_id -> runs P fresh_id
  | rn_step s s' : runs P s -> step false s s' -> P s' -> runs P s'.

Lemma runs_reachable P s : runs P s -> reachable false s.
Proof. intros H. induction H as [|s s' _ IH Hst _]; [apply created|by eapply r_step]. Qed.

(** The range of the id does not grow; about_to_destroy does not mark the id;
    the id is not destroyed or cancelled; nobody locks it. *)
Definition range_is_1 (s : state) : Prop := locked_ver (meta s) = first_ver (meta s) + 1.
Definition not_marked (s : state) : Prop := butex (meta s) <> unlockable_ver (meta s).
Definition id_exists (s : state) : Prop := has_version (meta s) 1 = true.
Definition never_locked (s : state) : Prop := butex (meta s) = first_ver (meta s).

Tactic Notation "run" hyp(H) uconstr(st) :=
  let H' := fresh in
  eassert (runs _ _) as H' by
    (eapply rn_step; [exact H| |];
     [eapply st; first [reflexivity | done | by intros [|[|t']] (? & ? & ?) | by intros t']
     |repeat split; by vm_compute]);
  lazymatch type of H' with
  | runs ?P (mkState ?m ?b ?f) =>
      let m' := eval vm_compute in m in
      let H'' := fresh in
      assert (runs P (mkState m' b f)) as H'' by exact H'; clear H'; clear H; rename H'' into H
  end.

(** C31. Three ways to sleep for ever, with every other thread gone, each without
    the causes of the other two.  (1) Range growth: a locker of an unlocked id,
    when another locks it with a range larger by one, since its locked version
    is then the value that the first waits for; about_to_destroy and cancel are
    not called.  (2) about_to_destroy then unlock: a locker of an unlocked id,
    when the lock is released by a thread of which about_to_destroy took the
    mark of contention; the range never grows and nothing is cancelled.
    (3) cancel: a joiner of an id that was cancelled, since cancel does not
    touch join_butex; the id was never locked. *)
Theorem session_lost_wakeups :
  (exists s, runs (fun s => not_marked s /\ id_exists s) s /\
     pcs s 1%nat = LBlocked 1 0 /\ alone (pcs s) 1 /\ phase_of (meta s) = Free /\ ~ range_is_1 s) /\
  (exists s, runs (fun s => range_is_1 s /\ id_exists s) s /\
     pcs s 2%nat = LBlocked 1 0 /\ alone (pcs s) 2 /\ phase_of (meta s) = Free) /\
  (exists s, runs never_locked s /\
     pcs s 1%nat = JBlocked 1 /\ alone (pcs s) 1 /\ ~ id_exists s).
Proof.
  split_and!.
  - pose proof (rn_start (fun s => not_marked s /\ id_exists s)
      ltac:(by repeat split)) as H. unfold fresh_id in H.
    run H (s_lock false _ _ _ 0%nat 1 0).
    run H (s_locked false _ _ _ 0%nat 1 0 false 0 _ _).
    run H (s_lock false _ _ _ 1%nat 1 0).
    run H (s_must_wait false _ _ _ 1%nat 1 0 false 0 _ _).
    run H (s_unlock_wakes false _ _ _ 0%nat 1 _ _).
    run H (s_wake_none false _ _ _ 0%nat).
    run H (s_lock false _ _ _ 2%nat 1 2).
    run H (s_locked false _ _ _ 2%nat 1 2 false 0 _ _).
    run H (s_wait_block false _ _ _ 1%nat 1 0 _).
    run H (s_unlock false _ _ _ 2%nat 1 _ _).
    eexists. split; [exact H|]. split; [reflexivity|]. split; [is_alone|]. by split.
  - pose proof (rn_start (fun s => range_is_1 s /\ id_exists s)
      ltac:(by repeat split)) as H. unfold fresh_id in H.
    run H (s_lock false _ _ _ 0%nat 1 0).
    run H (s_locked false _ _ _ 0%nat 1 0 false 0 _ _).
    run H (s_lock false _ _ _ 1%nat 1 0).
    run H (s_must_wait false _ _ _ 1%nat 1 0 false 0 _ _).
    run H (s_wait_block false _ _ _ 1%nat 1 0 _).
    run H (s_lock false _ _ _ 2%nat 1 0).
    run H (s_must_wait false _ _ _ 2%nat 1 0 false 0 _ _).
    run H (s_wait_block false _ _ _ 2%nat 1 0 _).
    run H (s_unlock_wakes false _ _ _ 0%nat 1 _ _).
    run H (s_lock false _ _ _ 3%nat 1 0).
    run H (s_locked false _ _ _ 3%nat 1 0 false 0 _ _).
    run H (s_wake_one false _ _ _ 0%nat 1%nat 1 0).
    run H (s_about false _ _ _ 3%nat 1 _ _).
    run H (s_lock_fails false _ _ _ 1%nat 1 0 true 0 _ _).
    run H (s_unlock false _ _ _ 3%nat 1 _ _).
    eexists. split; [exact H|]. split; [reflexivity|]. split; [is_alone|]. by split.
  - pose proof (rn_start never_locked
      ltac:(by repeat split)) as H. unfold fresh_id in H.
    run H (s_join false _ _ _ 1%nat 1).
    run H (s_join_wait false _ _ _ 1%nat 1 _).
    run H (s_join_block false _ _ _ 1%nat 1 _).
    run H (s_cancel false _ _ _ 0%nat 1 _ _).
    run H (s_return false _ _ _ 0%nat).
    eexists. split; [exact H|]. split; [reflexivity|]. split; [is_alone|]. done.
Qed.

(** ** Ids of an earlier life *)

Lemma make_id_parts v slot :
  0 <= slot < 2 ^ 32 -> 0 <= v < 2 ^ 32 -> get_slot (make_id v slot) = slot /\ get_version (make_id v slot) = v.
Proof.
  intros Hs Hv. unfold make_id, get_slot, get_version. change 0xFFFFFFFF with (Z.ones 32).
  rewrite Z.shiftl_mul_pow2 by lia. rewrite (wrapu_small 64) by lia. split.
  - rewrite Z.shiftr_lor, (Z.shiftr_div_pow2 v), (Z.div_small v), Z.lor_0_r by lia.
    rewrite Z.shiftr_div_pow2, Z.div_mul by lia. done.
  - rewrite Z.land_lor_distr_l, !Z.land_ones, Z_mod_mult, Z.lor_0_l by lia.
    rewrite !(Z.mod_small v) by lia. apply wrapu_small. lia.
Qed.

Lemma make_id_sum v slot :
  0 <= slot < 2 ^ 32 -> 0 <= v < 2 ^ 32 -> make_id v slot = slot * 2 ^ 32 + v.
Proof.
  intros Hs Hv. unfold make_id. rewrite Z.shiftl_mul_pow2, (wrapu_small 64) by lia.
  symmetry. apply Z.add_nocarry_lor. apply Z.bits_inj'. intros n Hn. rewrite Z.land_spec, Z.bits_0.
  destruct (Z.lt_ge_cases n 32); [by rewrite Z.mul_pow2_bits_low|].
  rewrite <-(Z.mod_small v (2 ^ 32)) by done. rewrite (Z.mod_pow2_bits_high v) by lia. apply andb_false_r.
Qed.

(** What the functions of the interface do with an id that is not valid. *)
Definition all_fail (t : table) (i : Z) : Prop :=
  (forall range ever loc, fiber_session_lock_and_reset_range_verbose t i range ever loc = (t, Ret EINVAL)) /\
  fiber_session_trylock t i = (t, Ret EINVAL) /\ fiber_session_about_to_destroy t i = (t, Ret EINVAL) /\
  fiber_session_cancel t i = (t, Ret EINVAL) /\ fiber_session_unlock t i = Some (t, Ret EINVAL) /\
  fiber_session_unlock_and_destroy t i = (t, Ret EINVAL) /\ fiber_session_join t i = (t, Ret 0) /\
  forall code text loc, fiber_session_error2_verbose t i code text loc = Some (t, Ret EINVAL).

Lemma invalid_fails t i m :
  t !! get_slot i = Some m -> has_version m (get_version i) = false -> all_fail t i.
Proof.
  intros Et Hv. unfold all_fail, fiber_session_lock_and_reset_range_verbose, fiber_session_trylock,
    fiber_session_about_to_destroy, fiber_session_cancel, fiber_session_unlock, fiber_session_unlock_and_destroy,
    fiber_session_join, fiber_session_error2_verbose, on_slot, on_slot_opt.
  rewrite Et. unfold lock_section, trylock_section, about_to_destroy_section, cancel_section, unlock_section,
    unlock_and_destroy_section, join_section, error2_section. rewrite Hv. cbn. rewrite (insert_id t _ m Et). by split_and!.
Qed.

(** A new id is not zero and valid; unlock_and_destroy by the holder ends
    it, and all ids of its range: every later call on one of them fails (a
    join returns at once), also after the slot is used for a new id, while the
    32-bit versions are not exhausted. *)
Theorem destroyed_ids_fail t slot m0 d oe range d2 oe2 range2 :
  0 <= slot < 2 ^ 32 -> Meta m0 -> phase_of m0 = Dead -> 1 <= range <= ID_MAX_RANGE -> 1 <= range2 <= ID_MAX_RANGE ->
  butex m0 + 3 * ID_MAX_RANGE < 2 ^ 32 ->
  exists i m, fiber_session_create_ranged (Some (slot, m0)) d oe range = (0, Some (i, m)) /\ i <> 0 /\ get_slot i = slot /\
    let t1 := <[slot := m]> t in
    exists t2 t3, fiber_session_trylock t1 i = (t2, Locked d) /\
      fiber_session_unlock_and_destroy t2 i = (t3, RetDestroy 0) /\
      forall k, 0 <= k < range ->
        get_version (i + k) = get_version i + k /\ all_fail t3 (i + k) /\
        exists m3 i4 m4, t3 !! slot = Some m3 /\
          fiber_session_create_ranged (Some (slot, m3)) d2 oe2 range2 = (0, Some (i4, m4)) /\
          all_fail (<[slot := m4]> t3) (i + k).
Proof.
  intros Hslot HM0 HP0 Hr Hr2 Hb. unfold ID_MAX_RANGE in *.
  destruct (create_cases m0 d (or_default oe default_on_error) None range HM0 HP0 Hr) as (HM & HP & _ & HF).
  unfold ID_MAX_RANGE in HF. specialize (HF ltac:(lia)).
  unfold fiber_session_create_ranged, id_create_ranged_impl, ID_MAX_RANGE.
  rewrite (proj2 (Z.ltb_ge range 1)), (proj2 (Z.ltb_ge 1024 range)) by lia. cbn [orb].
  set (m := id_reset _ _ _ _ _) in *. eexists _, _. split; [done|].
  pose proof (phase_cases m0 HM0) as Hph0. rewrite HP0 in Hph0. destruct Hph0 as [F1 F2]. pose proof (M_first m0 HM0).
  assert (1 <= first_ver m < 2 ^ 32) as Hf by lia.
  assert (locked_ver m = first_ver m + range) as Hlk by (unfold m, id_reset in *; cbn in *; apply wrapu_small; lia).
  destruct (make_id_parts (first_ver m) slot Hslot ltac:(lia)) as [Es Ev].
  split. { intros E0. rewrite E0 in Ev. change (get_version 0) with 0 in Ev. lia. }
  split; [done|]. cbv zeta. set (i := make_id (first_ver m) slot) in *.
  assert (has_version m (get_version i) = true) as Hv by (apply has_version_iff; lia).
  pose proof (phase_cases m HM) as Hph. rewrite HP in Hph. destruct Hph as [Hl Hbm].
  set (m2 := set_butex (locked_ver m) m).
  assert (Meta m2 /\ phase_of m2 = Held) as [HM2 HP2].
  { apply (Meta_take m m2 HM Hl Hbm); try done; [|by left].
    change (locked_ver m2) with (locked_ver m). unfold ID_MAX_RANGE. lia. }
  destruct (unlock_and_destroy_section (get_version i) m2) as [m3 o] eqn:Ed.
  destruct (destroy_section_cases _ m2 m3 o HM2 Hv HP2 Ed) as (-> & HM3 & HP3 & E3 & _).
  exists (<[slot := m2]> (<[slot := m]> t)), (<[slot := m3]> (<[slot := m2]> (<[slot := m]> t))).
  split.
  { unfold fiber_session_trylock, on_slot. rewrite Es, lookup_insert_eq. unfold trylock_section.
    by rewrite Hv, Hbm, Z.eqb_refl. }
  split.
  { unfold fiber_session_unlock_and_destroy, on_slot. by rewrite Es, lookup_insert_eq, Ed. }
  destruct (vers m2 HM2 Hl) as (_ & _ & V3 & _). rewrite V3 in E3. cbn [locked_ver m2 set_butex] in E3.
  change (locked_ver m2) with (locked_ver m) in E3. rewrite wrapu_small in E3 by lia.
  pose proof (phase_cases m3 HM3) as Hph3. rewrite HP3 in Hph3. destruct Hph3 as [G1 G2].
  intros k Hk. assert (i + k = make_id (first_ver m + k) slot) as Eik.
  { unfold i. rewrite !make_id_sum by lia. lia. }
  destruct (make_id_parts (first_ver m + k) slot Hslot ltac:(lia)) as [Es' Ev']. rewrite Eik.
  split; [by rewrite Ev', Ev|]. split.
  - apply (invalid_fails _ _ m3); [by rewrite Es', lookup_insert_eq|].
    apply not_true_iff_false. rewrite has_version_iff, Ev'. lia.
  - rewrite (proj2 (Z.ltb_ge range2 1)), (proj2 (Z.ltb_ge 1024 range2)) by lia. cbn [orb].
    eexists _, _, _. split; [by rewrite lookup_insert_eq|]. split; [done|].
    destruct (create_cases m3 d2 (or_default oe2 default_on_error) None range2 HM3 HP3 Hr2) as (_ & _ & _ & HF4).
    unfold ID_MAX_RANGE in HF4. specialize (HF4 ltac:(lia)).
    eapply invalid_fails; [by rewrite Es', lookup_insert_eq|].
    apply not_true_iff_false. rewrite has_version_iff, Ev', HF4. lia.
Qed.

Theorem destroyed_ids_fail_witness :
  exists i m, fiber_session_create_ranged (Some (3, Id_ctor)) 7 None 2 = (0, Some (i, m)) /\ i <> 0 /\ get_slot i = 3 /\
    let t1 := <[3 := m]> ∅ in
    exists t2 t3, fiber_session_trylock t1 i = (t2, Locked 7) /\
      fiber_session_unlock_and_destroy t2 i = (t3, RetDestroy 0) /\
      forall k, 0 <= k < 2 ->
        get_version (i + k) = get_version i + k /\ all_fail t3 (i + k) /\
        exists m3 i4 m4, t3 !! 3 = Some m3 /\
          fiber_session_create_ranged (Some (3, m3)) 8 None 5 = (0, Some (i4, m4)) /\
          all_fail (<[3 := m4]> t3) (i + k).
Proof.
  apply (destroyed_ids_fail ∅ 3 Id_ctor 7 None 2 8 None 5).
  - lia.
  - exact (O_meta initial initial_Owners).
  - reflexivity.
  - unfold ID_MAX_RANGE. lia.
  - unfold ID_MAX_RANGE. lia.
  - by vm_compute.
Defined.
