(* ===== verification/SessionList.v ===== *)
(** * fiber_session_list_* (fiber/session.cc)

    A list of sessions for error notifications: a ListOfABAFreeId made on demand,
    whose identifiers exist while the table of slots says so, and the calls that
    send an error to every session of it.

    [reset_delivers_errors] composes the list with the sessions of Session.v. *)

From S2P Require Import Prelude AbaFreeList Session.

Module SessionList.
Import Session.

(** IdTraits *)
Definition BLOCK_SIZE : Z := 63.
Definition MAX_ENTRIES : Z := 100000.
Definition INVALID_FIBER_SESSION : Z := 0.
Definition ID_INIT : Z := INVALID_FIBER_SESSION.
Definition exists_ (t : table) (i : Z) : bool := id_exists_with_true_negatives t i.

Abbreviation IdList := (AbaFreeList.ListOfABAFreeId Z).

Record fiber_session_list_t := mkSessionList {
  impl : option IdList;
  head : Z;
  size : Z;
  conflict_head : Z;
  conflict_size : Z }.

Definition set_impl (x : option IdList) (l : fiber_session_list_t) : fiber_session_list_t :=
  mkSessionList x (head l) (size l) (conflict_head l) (conflict_size l).

Definition fiber_session_list_init : Z * fiber_session_list_t := (0, mkSessionList None 0 0 0 0).

(** delete of the IdList: its destructor must be defined, and the blocks are gone. *)
Definition fiber_session_list_destroy (l : fiber_session_list_t) : option fiber_session_list_t :=
  match impl l with
  | None => Some (set_impl None l)
  | Some st => _ ← AbaFreeList.dtor st; Some (set_impl None l)
  end.

(** [new_list]: whether new (std::nothrow) IdList succeeds; [new_block]: what the
    new of a block gives, if the list needs one. *)
Definition fiber_session_list_add (t : table) (new_list : bool) (new_block : option nat) (i : Z)
    (l : fiber_session_list_t) : option (Z * fiber_session_list_t) :=
  let l :=
    match impl l with
    | Some _ => l
    | None => if new_list then set_impl (Some (AbaFreeList.ctor BLOCK_SIZE ID_INIT)) l else l
    end in
  match impl l with
  | None => Some (ENOMEM, l)
  | Some st =>
      '(rc, st) ← AbaFreeList.add BLOCK_SIZE MAX_ENTRIES ID_INIT (exists_ t) new_block i st;
      Some (rc, set_impl (Some st) l)
  end.

Definition fiber_session_list_swap (l1 l2 : fiber_session_list_t) : fiber_session_list_t * fiber_session_list_t :=
  (set_impl (impl l2) l1, set_impl (impl l1) l2).

Definition get_sizes (l : fiber_session_list_t) (n : Z) : list Z * Z :=
  match impl l with
  | None => ([], 0)
  | Some st => AbaFreeList.get_sizes BLOCK_SIZE n st
  end.

Section Reset.
(** The user's on_error or on_error2, with the error, the data and the callbacks;
    [None]: it does not return. *)
Context (handler : PendingError -> Z -> option Z -> option Z -> table -> option table).
(** __FILE__ and __LINE__ in IdResetter. *)
Context (loc : Z).

Definition IdResetter (error_code : Z) (error_text : list byte) (i : Z) (t : table) : option (Z * table) :=
  '(t, o) ← fiber_session_error2_verbose t i error_code error_text loc;
  t ← match o with CallOnError e d oe oe2 => handler e d oe oe2 t | _ => Some t end;
  Some (INVALID_FIBER_SESSION, t).

Definition fiber_session_list_reset2 (error_code : Z) (error_text : list byte) (l : fiber_session_list_t) (t : table)
    : option (Z * fiber_session_list_t * table) :=
  match impl l with
  | None => Some (0, l, t)
  | Some st =>
      '(t, st) ← AbaFreeList.apply ID_INIT exists_ (IdResetter error_code error_text) t st;
      Some (0, set_impl (Some st) l, t)
  end.

Definition fiber_session_list_reset (error_code : Z) := fiber_session_list_reset2 error_code [].

(** [seen]: the list when its impl is tested, outside the mutex; [l]: the list in
    the critical section, which is what the mutex protects. *)
Definition fiber_session_list_reset2_pthreadsafe (mutex : option nat) (error_code : Z) (error_text : list byte)
    (seen l : fiber_session_list_t) (t : table) : option (Z * fiber_session_list_t * table) :=
  match mutex with
  | None => Some (EINVAL, l, t)
  | Some _ =>
      match impl seen with
      | None => Some (0, l, t)
      | Some _ =>
          let (rc, tmplist) := fiber_session_list_init in
          if negb (rc =? 0) then Some (rc, l, t)
          else
            let (l, tmplist) := fiber_session_list_swap l tmplist in
            '(rc2, tmplist, t) ← fiber_session_list_reset2 error_code error_text tmplist t;
            _ ← fiber_session_list_destroy tmplist;
            Some (rc2, l, t)
      end
  end.

(** The same with a fiber_mutex_t. *)
Definition fiber_session_list_reset2_fibersafe (mutex : option nat) (error_code : Z) (error_text : list byte)
    (seen l : fiber_session_list_t) (t : table) : option (Z * fiber_session_list_t * table) :=
  match mutex with
  | None => Some (EINVAL, l, t)
  | Some _ =>
      match impl seen with
      | None => Some (0, l, t)
      | Some _ =>
          let (rc, tmplist) := fiber_session_list_init in
          if negb (rc =? 0) then Some (rc, l, t)
          else
            let (l, tmplist) := fiber_session_list_swap l tmplist in
            '(rc2, tmplist, t) ← fiber_session_list_reset2 error_code error_text tmplist t;
            _ ← fiber_session_list_destroy tmplist;
            Some (rc2, l, t)
      end
  end.

Definition fiber_session_list_reset_pthreadsafe (mutex : option nat) (error_code : Z) :=
  fiber_session_list_reset2_pthreadsafe mutex error_code [].
Definition fiber_session_list_reset_fibersafe (mutex : option nat) (error_code : Z) :=
  fiber_session_list_reset2_fibersafe mutex error_code [].
End Reset.

Abbreviation Alive t := (AbaFreeList.alive ID_INIT (exists_ t)).

(** ** What a reset does to a table

    [h]: what the handlers do to the Id of the session; they do not touch other
    slots. *)

Definition handles (handler : PendingError -> Z -> option Z -> option Z -> table -> option table)
    (h : PendingError -> Z -> option Z -> option Z -> Id -> Id) : Prop :=
  forall e d oe oe2 t m, t !! get_slot (id e) = Some m ->
    handler e d oe oe2 t = Some (<[get_slot (id e) := h e d oe oe2 m]> t).

(** The Id of the session [i] after the error: handled, or queued. *)
Definition errored (h : PendingError -> Z -> option Z -> option Z -> Id -> Id)
    (code : Z) (text : list byte) (loc : Z) (i : Z) (m : Id) : option Id :=
  '(m, o) ← error2_section i code text loc m;
  Some (match o with CallOnError e d oe oe2 => h e d oe oe2 m | _ => m end).

(** [i] exists, or is older than what is in its slot. *)
Definition settled (t : table) (i : Z) : Prop :=
  Alive t i = true \/ i = ID_INIT \/ forall m, t !! get_slot i = Some m -> get_version i < first_ver m.

Definition queued (m : Id) : Prop := exists l, SmallQueue.Repr QN (pending_q m) l.

Lemma errored_spec h code text loc i m : queued m -> exists m', errored h code text loc i m = Some m'.
Proof.
  intros [l Hl]. unfold errored, error2_section.
  destruct (negb _); cbn; [by exists m|]. destruct (butex m =? first_ver m); cbn.
  - by eexists.
  - destruct (SmallQueue.queue_push_spec QN ltac:(lia) (mkPendingError i code text loc) (pending_q m) l Hl) as (q & -> & _).
    cbn. by eexists.
Qed.

(** One call of the resetter. *)
Lemma resetter_spec handler h code text loc i t m m' : handles handler h -> t !! get_slot i = Some m ->
  errored h code text loc i m = Some m' ->
  IdResetter handler loc code text i t = Some (INVALID_FIBER_SESSION, <[get_slot i := m']> t).
Proof.
  intros Hh Hm. unfold errored, IdResetter, fiber_session_error2_verbose, on_slot_opt. rewrite Hm. cbn.
  destruct (error2_section i code text loc m) as [[m1 o]|] eqn:E; [|done]. cbn. intros [= <-].
  destruct o; try done. assert (id e = i) as Eid.
  { unfold error2_section in E. destruct (negb _); [done|]. destruct (butex m =? first_ver m); [by injection E as <- <-|].
    by destruct (SmallQueue.push _ _ _). }
  rewrite (Hh _ _ _ _ _ m1); rewrite Eid; [|apply lookup_insert_eq]. cbn. by rewrite insert_insert_eq.
Qed.

Lemma alive_iff t i : Alive t i = true <-> i <> ID_INIT /\ exists_ t i = true.
Proof. unfold AbaFreeList.alive. rewrite andb_true_iff, negb_true_iff, bool_decide_eq_false. done. Qed.

Lemma alive_slot t i : Alive t i = true -> exists m, t !! get_slot i = Some m /\ first_ver m <= get_version i.
Proof.
  rewrite alive_iff. unfold exists_, id_exists_with_true_negatives. intros [_ H].
  destruct (t !! get_slot i) as [m|]; [|done]. apply andb_true_iff in H as [H _]. exists m. split; [done|]. lia.
Qed.

(** An identifier that is settled stays dead, or keeps its slot. *)
Lemma settled_insert t s m m' i : t !! s = Some m -> first_ver m <= first_ver m' -> settled t i ->
  (Alive t i = true -> get_slot i <> s) ->
  settled (<[s := m']> t) i /\ Alive (<[s := m']> t) i = Alive t i.
Proof.
  intros Hs Hle Hset Hslot. destruct (decide (get_slot i = s)) as [<-|Hne].
  - destruct (Alive t i) eqn:Ea; [by destruct (Hslot eq_refl)|].
    assert (i = ID_INIT \/ get_version i < first_ver m') as Hd.
    { destruct Hset as [?|[->|Hv]]; [congruence|by left|]. right. specialize (Hv m Hs). lia. }
    split; [right; destruct Hd; [by left|right]; intros x; rewrite lookup_insert_eq; by intros [= <-]|].
    apply not_true_is_false. rewrite alive_iff. intros [Hi He]. destruct Hd as [?|Hd]; [done|].
    unfold exists_, id_exists_with_true_negatives in He. rewrite lookup_insert_eq in He. lia.
  - assert (Alive (<[s := m']> t) i = Alive t i) as E.
    { unfold AbaFreeList.alive, exists_, id_exists_with_true_negatives. by rewrite lookup_insert_ne. }
    split; [|done]. destruct Hset as [H|[H|H]]; [left; by rewrite E|by right; left|right; right].
    intros x. rewrite lookup_insert_ne by done. apply H.
Qed.

Definition slots_of (t : table) (cs : list Z) : list Z := map get_slot (AbaFreeList.live ID_INIT (exists_ t) cs).

Lemma slots_of_elem t cs i : i ∈ cs -> Alive t i = true -> get_slot i ∈ slots_of t cs.
Proof. intros Hi Ha. apply list_elem_of_fmap. exists i. split; [done|]. by apply list_elem_of_filter. Qed.

Lemma slots_of_ext t t' cs : (forall i, i ∈ cs -> Alive t' i = Alive t i) -> slots_of t' cs = slots_of t cs.
Proof.
  unfold slots_of. intros H. f_equal. induction cs as [|i cs IH]; [done|].
  rewrite !AbaFreeList.live_cons, H by left. f_equal. apply IH. intros j Hj. apply H. by right.
Qed.

Lemma reset_ids handler h code text loc cs : handles handler h -> forall t, NoDup (slots_of t cs) ->
  (forall i, i ∈ cs -> settled t i) ->
  (forall i m, i ∈ cs -> Alive t i = true -> t !! get_slot i = Some m -> queued m) ->
  (forall i m m', i ∈ cs -> Alive t i = true -> t !! get_slot i = Some m ->
    errored h code text loc i m = Some m' -> first_ver m <= first_ver m') ->
  exists cs' t', AbaFreeList.apply_ids ID_INIT exists_ (IdResetter handler loc code text) cs t = Some (cs', t') /\
    (forall i m, i ∈ cs -> Alive t i = true -> t !! get_slot i = Some m ->
      t' !! get_slot i = errored h code text loc i m) /\
    (forall s, s ∉ slots_of t cs -> t' !! s = t !! s).
Proof.
  intros Hh. induction cs as [|v cs IH]; intros t Hnd Hset Hq Hmono; cbn [AbaFreeList.apply_ids].
  { exists [], t. split; [done|]. split; [|done]. intros i m Hi. by apply not_elem_of_nil in Hi. }
  change (negb (bool_decide (v = ID_INIT)) && exists_ t v) with (Alive t v).
  unfold slots_of in Hnd. rewrite AbaFreeList.live_cons in Hnd. destruct (Alive t v) eqn:Ev.
  - destruct (alive_slot t v Ev) as (m & Hm & _).
    destruct (errored_spec h code text loc v m) as [m' He]; [by eapply Hq; [left|..]|].
    assert (first_ver m <= first_ver m') as Hle by (eapply Hmono; [by left|done..]).
    cbn [map app] in Hnd. apply NoDup_cons in Hnd as [Hv Hnd]. fold (slots_of t cs) in Hv, Hnd.
    assert (forall i, i ∈ cs -> settled (<[get_slot v := m']> t) i /\ Alive (<[get_slot v := m']> t) i = Alive t i) as Hst.
    { intros i Hi. apply (settled_insert t (get_slot v) m m' i Hm Hle); [apply Hset; by right|].
      intros Ha E. apply Hv. rewrite <-E. by apply slots_of_elem. }
    assert (forall i, i ∈ cs -> Alive t i = true -> <[get_slot v := m']> t !! get_slot i = t !! get_slot i) as Hother.
    { intros i Hi Ha. apply lookup_insert_ne. intros E. apply Hv. rewrite E. by apply slots_of_elem. }
    rewrite (resetter_spec handler h code text loc v t m m' Hh Hm He). cbn [mbind option_bind].
    destruct (IH (<[get_slot v := m']> t)) as (cs' & t' & -> & H1 & H2).
    { rewrite (slots_of_ext t) by (intros i Hi; by apply Hst). done. }
    { intros i Hi. by apply Hst. }
    { intros i x Hi Ha Hx. rewrite (proj2 (Hst i Hi)) in Ha. rewrite Hother in Hx by done. eapply Hq; [by right|done|done]. }
    { intros i x x' Hi Ha Hx. rewrite (proj2 (Hst i Hi)) in Ha. rewrite Hother in Hx by done. eapply Hmono; [by right|done|done]. }
    rewrite (slots_of_ext t) in H2 by (intros i Hi; by apply Hst).
    exists (INVALID_FIBER_SESSION :: cs'), t'. split; [done|]. split.
    + intros i x Hi Ha Hx. apply elem_of_cons in Hi as [->|Hi].
      { rewrite H2, lookup_insert_eq by done. rewrite Hm in Hx. by simplify_eq. }
      apply H1; [done|by rewrite (proj2 (Hst i Hi))|]. by rewrite Hother.
    + intros s Hs. unfold slots_of in Hs. rewrite AbaFreeList.live_cons, Ev in Hs. cbn [map app] in Hs.
      apply not_elem_of_cons in Hs as [Hne Hs]. rewrite H2 by done. by apply lookup_insert_ne.
  - cbn [mbind option_bind]. destruct (IH t) as (cs' & t' & -> & H1 & H2); [done|intros; apply Hset; by right| | |].
    { intros i m Hi. apply Hq. by right. }
    { intros i m m' Hi. apply Hmono. by right. }
    exists (v :: cs'), t'. split; [done|]. unfold slots_of. rewrite AbaFreeList.live_cons, Ev. split; [|done].
    intros i m Hi Ha. apply elem_of_cons in Hi as [->|Hi]; [congruence|]. by apply H1.
Qed.

(** ** Histories of fiber_session_list_add

    Each call comes with the table of its time, and with what the two new give: a
    block's address is fresh in the list. *)

Record call := mkCall { at_table : table; c_list : bool; c_block : bool; c_id : Z }.

Definition new_address (l : fiber_session_list_t) : nat :=
  match impl l with None => 1%nat | Some st => fresh (dom (AbaFreeList._blocks st) : gset nat) end.

(** The identifiers that were accepted, and the list. *)
Fixpoint add_all (calls : list call) (accepted : list Z) (l : fiber_session_list_t)
    : option (list Z * fiber_session_list_t) :=
  match calls with
  | [] => Some (accepted, l)
  | c :: calls =>
      let new_block := if c_block c then Some (new_address l) else None in
      '(rc, l) ← fiber_session_list_add (at_table c) (c_list c) new_block (c_id c) l;
      add_all calls (if rc =? 0 then accepted ++ [c_id c] else accepted) l
  end.

(** A session of the table [t] exists in the tables of all later calls. *)
Fixpoint permanent (t : table) (calls : list call) : Prop :=
  match calls with
  | [] => True
  | c :: calls =>
      (exists_ t (c_id c) = true -> Forall (fun c' => exists_ (at_table c') (c_id c) = true) calls) /\ permanent t calls
  end.

(** The list holds [cs]. *)
Definition Holds (l : fiber_session_list_t) (cs : list Z) : Prop :=
  match impl l with
  | None => cs = []
  | Some st => exists chain, AbaFreeList.Wf BLOCK_SIZE MAX_ENTRIES st chain /\ cs = AbaFreeList.contents (AbaFreeList._blocks st) chain
  end.

(** The blocks of a new list hold nothing. *)
Lemma list_on_demand (new_list : bool) l cs : Holds l cs ->
  let l' := match impl l with
            | Some _ => l
            | None => if new_list then set_impl (Some (AbaFreeList.ctor BLOCK_SIZE ID_INIT)) l else l
            end in
  exists cs0, Holds l' cs0 /\ (forall v, v ∈ cs0 -> v = ID_INIT \/ v ∈ cs) /\
    (forall later, AbaFreeList.live ID_INIT later cs0 = AbaFreeList.live ID_INIT later cs) /\
    (impl l' = None -> cs0 = cs).
Proof.
  intros HH. destruct (impl l) as [st|] eqn:E; [exists cs; by eauto|].
  destruct new_list; [|exists cs; by eauto]. unfold Holds in HH. rewrite E in HH. subst cs.
  exists (replicate 63 ID_INIT). split; [|split; [|split; [|done]]].
  - unfold Holds. cbn. exists [AbaFreeList.head_block]. split; [|reflexivity].
    apply AbaFreeList.Wf_ctor; unfold BLOCK_SIZE, MAX_ENTRIES; lia.
  - intros v Hv. apply elem_of_replicate in Hv as [-> _]. by left.
  - intros later. rewrite AbaFreeList.live_dead; [done|]. apply Forall_replicate, AbaFreeList.alive_init.
Qed.

Lemma list_add_spec t new_list (memory : bool) i l cs : Holds l cs ->
  exists rc l' cs0 cs',
    fiber_session_list_add t new_list (if memory then Some (new_address l) else None) i l = Some (rc, l') /\ Holds l' cs' /\
    (forall v, v ∈ cs0 -> v = ID_INIT \/ v ∈ cs) /\
    (forall later, AbaFreeList.live ID_INIT later cs0 = AbaFreeList.live ID_INIT later cs) /\
    ((rc = 0 /\ AbaFreeList.added_to ID_INIT (exists_ t) i cs0 cs') \/ (rc =? 0) = false /\ cs' = cs0).
Proof.
  intros HH. destruct (list_on_demand new_list l cs HH) as (cs0 & HH0 & Hsub & Hlive & Hnone).
  unfold fiber_session_list_add. set (l0 := match impl l with Some _ => _ | None => _ end) in *.
  destruct (impl l0) as [st|] eqn:E.
  2:{ exists ENOMEM, l0, cs0, cs0. split; [done|]. split; [done|]. split; [done|]. split; [done|]. by right. }
  unfold Holds in HH0. rewrite E in HH0. destruct HH0 as (chain & HW & ->).
  assert (Hfresh : forall n, (if memory then Some (new_address l) else None) = Some n -> AbaFreeList._blocks st !! n = None).
  { intros n Hn. destruct memory; [|done]. injection Hn as <-. unfold new_address. unfold l0 in E.
    destruct (impl l) as [st0|] eqn:El.
    - rewrite El in E. injection E as ->. apply not_elem_of_dom, is_fresh.
    - destruct new_list; [|congruence]. cbn in E. by injection E as <-. }
  destruct (AbaFreeList.add_spec BLOCK_SIZE MAX_ENTRIES ID_INIT ltac:(done) ltac:(done) ltac:(done) (exists_ t) _ i st chain HW Hfresh)
    as (rc & st' & chain' & -> & HW' & Hrc & _).
  cbn. exists rc, (set_impl (Some st') l0), (AbaFreeList.contents (AbaFreeList._blocks st) chain), (AbaFreeList.contents (AbaFreeList._blocks st') chain').
  split; [done|]. split; [by exists chain'|]. split; [done|]. split; [done|].
  destruct Hrc as [[-> Ha]|([-> | ->] & -> & ->)]; [by left|by right|by right].
Qed.

Lemma add_all_spec t calls : forall accepted l cs, Holds l cs -> permanent t calls ->
  (forall v, v ∈ cs -> v = ID_INIT \/ v ∈ accepted) ->
  AbaFreeList.live ID_INIT (exists_ t) cs ≡ₚ AbaFreeList.live ID_INIT (exists_ t) accepted ->
  (forall v, v ∈ cs -> Alive t v = true -> Forall (fun c' => exists_ (at_table c') v = true) calls) ->
  exists accepted' l' cs', add_all calls accepted l = Some (accepted', l') /\ Holds l' cs' /\
    (forall v, v ∈ cs' -> v = ID_INIT \/ v ∈ accepted') /\
    AbaFreeList.live ID_INIT (exists_ t) cs' ≡ₚ AbaFreeList.live ID_INIT (exists_ t) accepted'.
Proof.
  induction calls as [|c calls IH]; intros accepted l cs HH Hperm Hsub Hlive Hold; cbn [add_all].
  { by exists accepted, l, cs. }
  destruct Hperm as [Hc Hperm].
  destruct (list_add_spec (at_table c) (c_list c) (c_block c) (c_id c) l cs HH)
    as (rc & l' & cs0 & cs' & -> & HH' & Hsub0 & Hlive0 & Hrc).
  cbn [mbind option_bind]. assert (forall v, v ∈ cs0 -> Alive t v = true -> Alive (at_table c) v = true /\
    Forall (fun c' => exists_ (at_table c') v = true) calls) as Hold0.
  { intros v Hv Ha. pose proof (proj1 (proj1 (alive_iff t v) Ha)) as Hi.
    destruct (Hsub0 v Hv) as [?|Hv']; [done|]. specialize (Hold v Hv' Ha). apply Forall_cons in Hold as [H1 H2].
    split; [|done]. by apply alive_iff. }
  assert (Hs0 : forall v, v ∈ cs0 -> v = ID_INIT \/ v ∈ accepted) by (intros v Hv; destruct (Hsub0 v Hv); [by left|auto]).
  destruct Hrc as [[-> Ha]|[-> ->]].
  - apply (IH _ _ cs' HH' Hperm).
    + intros v Hv. destruct (AbaFreeList.added_elem _ _ _ _ _ v Ha Hv) as [->|[->|Hv']]; [right; set_solver|by left|].
      destruct (Hs0 v Hv'); [by left|right; set_solver].
    + rewrite (AbaFreeList.added_live _ _ (exists_ t) _ _ _ Ha) by (intros v Hv Hav; by apply Hold0).
      change (0 =? 0) with true. cbn [negb].
      rewrite AbaFreeList.live_cons, AbaFreeList.live_app, Hlive0, Hlive, AbaFreeList.live_cons, app_nil_r.
      apply Permutation_app_comm.
    + intros v Hv Hav. destruct (AbaFreeList.added_elem _ _ _ _ _ v Ha Hv) as [->|[->|Hv']].
      * apply Hc. by apply (alive_iff t (c_id c)) in Hav as [_ ?].
      * by rewrite AbaFreeList.alive_init in Hav.
      * by apply Hold0.
  - apply (IH _ _ cs0 HH' Hperm Hs0); [by rewrite Hlive0|]. intros v Hv Ha. by apply Hold0.
Qed.

(** C20. An error sent to a list that was filled by any history of calls: the call
    succeeds, the list is empty afterwards, and every session that was accepted
    and still exists has got the error once, by its handler if it was not locked
    and in its queue otherwise; no other session changes. *)
Theorem reset_delivers_errors handler h t calls mutex code text loc :
  handles handler h -> permanent t calls ->
  exists accepted l, add_all calls [] (fiber_session_list_init).2 = Some (accepted, l) /\
    (NoDup (slots_of t accepted) -> (forall i, i ∈ accepted -> settled t i) ->
     (forall s m, t !! s = Some m -> queued m) ->
     (forall i m m', i ∈ accepted -> t !! get_slot i = Some m -> errored h code text loc i m = Some m' ->
       first_ver m <= first_ver m') ->
     exists t' l', fiber_session_list_reset2_pthreadsafe handler loc (Some mutex) code text l l t = Some (0, l', t') /\
       impl l' = None /\
       (forall i m, i ∈ accepted -> i <> INVALID_FIBER_SESSION -> exists_ t i = true -> t !! get_slot i = Some m ->
         t' !! get_slot i = errored h code text loc i m) /\
       (forall s, s ∉ slots_of t accepted -> t' !! s = t !! s)).
Proof.
  intros Hh Hperm.
  destruct (add_all_spec t calls [] (fiber_session_list_init).2 []) as (accepted & l & cs & Hadd & HH & Hsub & Hlive);
    [done|done|intros v Hv; by apply not_elem_of_nil in Hv|done|intros v Hv; by apply not_elem_of_nil in Hv|].
  exists accepted, l. split; [done|]. intros Hnd Hset Hq Hmono.
  assert (slots_of t cs ≡ₚ slots_of t accepted) as Hsl by (unfold slots_of; by rewrite Hlive).
  destruct (reset_ids handler h code text loc cs Hh t) as (cs' & t' & Hids & H1 & H2).
  { by rewrite Hsl. }
  { intros v Hv. destruct (Hsub v Hv) as [->|Hv']; [by right; left|by apply Hset]. }
  { intros; by eapply Hq. }
  { intros i m m' Hi Ha. apply Hmono. destruct (Hsub i Hi) as [->|]; [by apply alive_iff in Ha as [? _]|done]. }
  assert (forall i, i ∈ cs /\ Alive t i = true <-> i ∈ accepted /\ Alive t i = true) as Hin.
  { intros i. assert (forall k, i ∈ k /\ Alive t i = true <-> i ∈ AbaFreeList.live ID_INIT (exists_ t) k) as Hk.
    { intros k. unfold AbaFreeList.live. rewrite list_elem_of_filter. tauto. }
    by rewrite !Hk, Hlive. }
  unfold fiber_session_list_reset2_pthreadsafe. unfold Holds in HH. destruct (impl l) as [st|] eqn:El.
  - destruct HH as (chain & HW & ->).
    destruct (AbaFreeList.apply_spec BLOCK_SIZE MAX_ENTRIES ID_INIT exists_ (IdResetter handler loc code text) st chain t cs' t' HW Hids)
      as (st' & Hap & HW' & _).
    destruct (AbaFreeList.dtor_spec BLOCK_SIZE MAX_ENTRIES ltac:(done) ltac:(done) ltac:(done) st' chain HW') as (b & Hd).
    cbn. rewrite El. unfold fiber_session_list_reset2. cbn. rewrite Hap. cbn.
    unfold fiber_session_list_destroy. cbn. rewrite Hd. cbn.
    eexists t', _. split; [done|]. split; [done|]. split; [|intros s Hs; apply H2; by rewrite Hsl].
    intros i m Hi Hne He. assert (Alive t i = true) as Ha by (by apply alive_iff).
    apply H1; [|done]. by apply (proj2 (Hin i)).
  - subst cs. cbn in Hids. injection Hids as <- <-. eexists t, l. split; [done|]. split; [done|]. split; [|done].
    intros i m Hi Hne He. assert (Alive t i = true) as Ha by (by apply alive_iff).
    destruct (proj2 (Hin i) (conj Hi Ha)) as [Hi' _]. by apply not_elem_of_nil in Hi'.
Qed.

(** The default handler, three sessions: 3 is unlocked, 5 is locked and 7 has been
    destroyed since it was added. *)
Definition default_handler (e : PendingError) (d : Z) (oe oe2 : option Z) (t : table) : option table :=
  Some (default_fiber_session_on_error2 t (id e) d (error_code e) (error_text e)).1.

Definition default_effect (e : PendingError) (d : Z) (oe oe2 : option Z) (m : Id) : Id :=
  (unlock_and_destroy_section (get_version (id e)) m).1.

Definition sample_id : Id := id_reset Id_ctor 9 None (Some default_on_error2) 1.
Definition table0 : table := {[3 := sample_id; 5 := sample_id; 7 := sample_id]}.
Definition table1 : table :=
  (fiber_session_unlock_and_destroy (fiber_session_trylock (fiber_session_trylock table0 (make_id 1 5)).1 (make_id 1 7)).1 (make_id 1 7)).1.
Definition sample_calls : list call :=
  map (fun s => mkCall table0 true true (make_id 1 s)) [3; 5; 7].

Lemma default_handles : handles default_handler default_effect.
Proof.
  intros e d oe oe2 t m Hm. unfold default_handler, default_effect, default_fiber_session_on_error2,
    fiber_session_unlock_and_destroy, on_slot. rewrite Hm. by destruct (unlock_and_destroy_section _ m).
Qed.

Lemma sample_queued s m : table1 !! s = Some m -> queued m.
Proof.
  intros H. assert (pending_q m = SmallQueue.init QN PendingError_ctor) as E.
  { assert (map_Forall (fun _ m => pending_q m = SmallQueue.init QN PendingError_ctor) table1) as HF.
    { apply map_Forall_to_list. vm_compute. repeat constructor. }
    by apply (HF s). }
  exists []. rewrite E. by apply SmallQueue.init_Repr.
Qed.

Theorem reset_delivers_errors_witness :
  exists accepted l, add_all sample_calls [] (fiber_session_list_init).2 = Some (accepted, l) /\
    exists t' l', fiber_session_list_reset2_pthreadsafe default_handler 0 (Some 1%nat) 110 [] l l table1 = Some (0, l', t') /\
      impl l' = None /\
      (forall i m, i ∈ accepted -> i <> INVALID_FIBER_SESSION -> exists_ table1 i = true -> table1 !! get_slot i = Some m ->
        t' !! get_slot i = errored default_effect 110 [] 0 i m) /\
      (forall s, s ∉ slots_of table1 accepted -> t' !! s = table1 !! s).
Proof.
  destruct (reset_delivers_errors default_handler default_effect table1 sample_calls 1%nat 110 [] 0 default_handles)
    as (accepted & l & E & H).
  { repeat split; intros _; repeat constructor. }
  exists accepted, l. split; [exact E|].
  assert (accepted = [make_id 1 3; make_id 1 5; make_id 1 7]) as ->.
  { vm_compute in E. injection E as <- _. reflexivity. }
  apply H.
  - assert (slots_of table1 [make_id 1 3; make_id 1 5; make_id 1 7] = [3; 5]) as -> by (vm_compute; reflexivity).
    apply NoDup_cons. split; [|apply NoDup_singleton]. by rewrite list_elem_of_singleton.
  - intros i Hi. unfold settled.
    rewrite !elem_of_cons, elem_of_nil in Hi. destruct Hi as [-> |[-> |[-> |[]]]];
      [left; reflexivity..|right; right]. vm_compute. intros m [= <-]. reflexivity.
  - exact sample_queued.
  - intros i m m' Hi Hm.
    rewrite !elem_of_cons, elem_of_nil in Hi. destruct Hi as [-> |[-> |[-> |[]]]];
      vm_compute in Hm; injection Hm as <-; vm_compute; intros [= <-]; discriminate.
Defined.

End SessionList.
