(* ===== verification/SafeMath.v ===== *)
(** * CheckedNumeric and the checked conversions (utility/numerics/)

    safe_conversions_impl.h, safe_math_impl.h and safe_math.h for the integer
    types; the floating-point specializations are not modelled.  The templates are
    functions of the types.  [None] is a trap: a division by zero, or INT_MIN
    divided by -1.  The other signed overflows, which are undefined in C++, are
    written as wrap-around. *)

From S2P Require Import Prelude.

Module SafeMath.

(** sizeof is a power of two, and the arithmetic is on at least an int. *)
Definition sized (t : int_type) : Prop := width t = 8 \/ width t = 16 \/ width t = 32 \/ width t = 64.
Definition promoted (t : int_type) : Prop := width t = 32 \/ width t = 64.
Definition in_type (t : int_type) (v : Z) : Prop := ty_min t <= v <= ty_max t.

Definition sizeof (t : int_type) : Z := width t / 8.
Definition unsigned_of (t : int_type) : int_type := mkInt (width t) false.
Definition signed_of (t : int_type) : int_type := mkInt (width t) true.

(** The integer promotion of an operand. *)
Definition promote (t : int_type) : int_type := if width t <? 32 then int_t else t.

(** ** safe_conversions_impl.h *)

Definition MaxExponent (t : int_type) : Z := sizeof t * 8 + 1 - (if is_signed t then 1 else 0).

(** NUMERIC_RANGE_CONTAINED *)
Definition StaticDstRangeRelationToSrcRange (dst src : int_type) : bool :=
  match is_signed dst, is_signed src with
  | true, true | false, false => MaxExponent src <=? MaxExponent dst
  | true, false => MaxExponent src <? MaxExponent dst
  | false, true => false
  end.

Definition RANGE_VALID : Z := 0.
Definition RANGE_UNDERFLOW : Z := 1.
Definition RANGE_OVERFLOW : Z := 2.
Definition RANGE_INVALID : Z := Z.lor RANGE_UNDERFLOW RANGE_OVERFLOW.

Definition GetRangeConstraint (is_in_upper_bound is_in_lower_bound : bool) : Z :=
  Z.lor (if is_in_upper_bound then 0 else RANGE_OVERFLOW) (if is_in_lower_bound then 0 else RANGE_UNDERFLOW).

Definition DstRangeRelationToSrcRange (dst src : int_type) (value : Z) : Z :=
  if StaticDstRangeRelationToSrcRange dst src then RANGE_VALID
  else
    match is_signed dst, is_signed src with
    | true, true => GetRangeConstraint (value <=? ty_max dst) (ty_min dst <=? value)
    | false, false => GetRangeConstraint (value <=? ty_max dst) true
    | true, false =>
        if sizeof src <? sizeof dst then RANGE_VALID
        else GetRangeConstraint (value <=? ty_wrap src (ty_max dst)) true
    | false, true =>
        if MaxExponent src <=? MaxExponent dst then GetRangeConstraint true (ty_wrap src 0 <=? value)
        else GetRangeConstraint (value <=? ty_wrap src (ty_max dst)) (ty_wrap src 0 <=? value)
    end.

(** ** safe_conversions.h *)

Definition IsValueInRangeForNumericType (dst src : int_type) (value : Z) : bool :=
  DstRangeRelationToSrcRange dst src value =? RANGE_VALID.

(** [None]: the CHECK fails. *)
Definition checked_cast (dst src : int_type) (value : Z) : option Z :=
  if IsValueInRangeForNumericType dst src value then Some (ty_wrap dst value) else None.

Definition saturated_cast (dst src : int_type) (value : Z) : option Z :=
  let c := DstRangeRelationToSrcRange dst src value in
  if c =? RANGE_VALID then Some (ty_wrap dst value)
  else if c =? RANGE_UNDERFLOW then Some (ty_min dst)
  else if c =? RANGE_OVERFLOW then Some (ty_max dst)
  else None.

(** ** safe_math_impl.h: the operations, with the value and *validity *)

Definition HasSignBit (t : int_type) (x : Z) : bool :=
  negb (Z.shiftr (wrapu (width t) x) (width t - 1) =? 0).

Definition BinaryComplement (t : int_type) (x : Z) : Z := ty_wrap t (Z.lnot x).

Definition CheckedAdd (t : int_type) (x y : Z) : Z * Z :=
  let U := unsigned_of t in
  let ux := ty_wrap U x in
  let uy := ty_wrap U y in
  let uresult := ty_wrap U (ux + uy) in
  let P := promote U in
  let validity :=
    if is_signed t then
      if HasSignBit P (BinaryComplement P (Z.land (Z.lxor uresult ux) (Z.lxor uresult uy))) then RANGE_VALID
      else if HasSignBit U uresult then RANGE_OVERFLOW else RANGE_UNDERFLOW
    else if y <=? BinaryComplement t x then RANGE_VALID else RANGE_OVERFLOW in
  (ty_wrap t uresult, validity).

Definition CheckedSub (t : int_type) (x y : Z) : Z * Z :=
  let U := unsigned_of t in
  let ux := ty_wrap U x in
  let uy := ty_wrap U y in
  let uresult := ty_wrap U (ux - uy) in
  let P := promote U in
  let validity :=
    if is_signed t then
      if HasSignBit P (BinaryComplement P (Z.land (Z.lxor uresult ux) (Z.lxor ux uy))) then RANGE_VALID
      else if HasSignBit U uresult then RANGE_OVERFLOW else RANGE_UNDERFLOW
    else if y <=? x then RANGE_VALID else RANGE_UNDERFLOW in
  (ty_wrap t uresult, validity).

(** A quotient of the type: [None] is the trap. *)
Definition quotient (t : int_type) (x y : Z) : option Z :=
  if (y =? 0) || (is_signed t && (x =? ty_min t) && (y =? -1)) then None else Some (Z.quot x y).

Definition remainder (t : int_type) (x y : Z) : option Z :=
  if (y =? 0) || (is_signed t && (x =? ty_min t) && (y =? -1)) then None else Some (Z.rem x y).

(** The three overloads; [validity]: *validity before the call, which the first
    return of the signed 64-bit one leaves as it is, returning RANGE_VALID, 0. *)
Definition CheckedMul (t : int_type) (x y validity : Z) : option (Z * Z) :=
  if sizeof t * 2 <=? 8 then
    let I := mkInt (2 * width t) (is_signed t) in
    let tmp := ty_wrap I (x * y) in
    Some (ty_wrap t tmp, DstRangeRelationToSrcRange t I tmp)
  else if is_signed t then
    if (x =? 0) && (y =? 0) then Some (RANGE_VALID, validity)
    else
      v ← (if 0 <? x then
             if 0 <? y then m ← quotient t (ty_max t) y; Some (if x <=? m then RANGE_VALID else RANGE_OVERFLOW)
             else m ← quotient t (ty_min t) x; Some (if m <=? y then RANGE_VALID else RANGE_UNDERFLOW)
           else
             if 0 <? y then m ← quotient t (ty_min t) y; Some (if m <=? x then RANGE_VALID else RANGE_UNDERFLOW)
             else m ← quotient t (ty_max t) x; Some (if m <=? y then RANGE_VALID else RANGE_OVERFLOW));
      Some (ty_wrap t (x * y), v)
  else
    v ← (if y =? 0 then Some RANGE_VALID
         else m ← quotient t (ty_max t) y; Some (if x <=? m then RANGE_VALID else RANGE_OVERFLOW));
    Some (ty_wrap t (x * y), v).

Definition CheckedDiv (t : int_type) (x y : Z) : option (Z * Z) :=
  if is_signed t && (x =? ty_min t) && (y =? ty_wrap t (-1)) then Some (ty_min t, RANGE_OVERFLOW)
  else d ← quotient t x y; Some (d, RANGE_VALID).

Definition CheckedMod (t : int_type) (x y : Z) : option (Z * Z) :=
  let validity := if is_signed t then if 0 <? y then RANGE_VALID else RANGE_INVALID else RANGE_VALID in
  r ← remainder t x y;
  Some (r, validity).

Definition CheckedNeg (t : int_type) (value : Z) : Z * Z :=
  if is_signed t then
    (ty_wrap t (- value), if negb (value =? ty_min t) then RANGE_VALID else RANGE_OVERFLOW)
  else
    let S := signed_of t in
    (ty_wrap t (ty_wrap S (- ty_wrap S value)), if negb (value =? 0) then RANGE_UNDERFLOW else RANGE_VALID).

Definition CheckedAbs (t : int_type) (value : Z) : Z * Z :=
  if is_signed t then
    (ty_wrap t (if value <? 0 then ty_wrap t (- value) else value),
     if negb (value =? ty_min t) then RANGE_VALID else RANGE_OVERFLOW)
  else (value, RANGE_VALID).

(** CheckedNumericState, and CheckedNumeric, which has only it. *)
Record CheckedNumeric := mkChecked { value_ : Z; validity_ : Z }.

Definition CheckedNumeric_ctor : CheckedNumeric := mkChecked 0 RANGE_VALID.

(** CheckedNumeric<T>(Src value, RangeConstraint), CheckedNumeric<T>(Src value) and
    the copy from another CheckedNumeric<Src>. *)
Definition of_value_and_validity (t src : int_type) (value validity : Z) : CheckedNumeric :=
  mkChecked (ty_wrap t value) (Z.lor validity (DstRangeRelationToSrcRange t src value)).
Definition of_value (t src : int_type) (value : Z) : CheckedNumeric :=
  mkChecked (ty_wrap t value) (DstRangeRelationToSrcRange t src value).
Definition cast (t src : int_type) (u : CheckedNumeric) : CheckedNumeric :=
  of_value_and_validity t src (value_ u) (validity_ u).

(** ArithmeticPromotion *)
Definition ArithmeticPromotion (lhs rhs : int_type) : int_type :=
  if MaxExponent rhs <? MaxExponent lhs then
    if MaxExponent int_t <? MaxExponent lhs then lhs else int_t
  else if MaxExponent int_t <? MaxExponent rhs then rhs else int_t.

Definition IsIntegerArithmeticSafe (t lhs rhs : int_type) : bool :=
  StaticDstRangeRelationToSrcRange t lhs && (2 * sizeof lhs <=? sizeof t)
  && negb (StaticDstRangeRelationToSrcRange t rhs) && (2 * sizeof rhs <=? sizeof t).

(** ** safe_math.h *)

Definition IsValid (u : CheckedNumeric) : bool := validity_ u =? RANGE_VALID.
Definition ValueOrDie (u : CheckedNumeric) : option Z := if IsValid u then Some (value_ u) else None.
Definition ValueOrDefault (u : CheckedNumeric) (default_value : Z) : Z := if IsValid u then value_ u else default_value.

Definition negate (t : int_type) (u : CheckedNumeric) : CheckedNumeric :=
  let (value, validity) := CheckedNeg t (value_ u) in
  of_value_and_validity t t value (Z.lor (validity_ u) validity).

Definition Abs (t : int_type) (u : CheckedNumeric) : CheckedNumeric :=
  let (value, validity) := CheckedAbs t (value_ u) in
  of_value_and_validity t t value (Z.lor (validity_ u) validity).

Inductive arith := Add | Sub | Mul | Div | Mod.

(** Checked##NAME on the type [t], with validity = RANGE_VALID before. *)
Definition checked_op (op : arith) (t : int_type) (x y : Z) : option (Z * Z) :=
  match op with
  | Add => Some (CheckedAdd t x y)
  | Sub => Some (CheckedSub t x y)
  | Mul => CheckedMul t x y RANGE_VALID
  | Div => CheckedDiv t x y
  | Mod => CheckedMod t x y
  end.

(** The bare operator of C++, on the promoted type. *)
Definition bare_op (op : arith) (t : int_type) (x y : Z) : option Z :=
  match op with
  | Add => Some (ty_wrap t (x + y))
  | Sub => Some (ty_wrap t (x - y))
  | Mul => Some (ty_wrap t (x * y))
  | Div => quotient t x y
  | Mod => remainder t x y
  end.

(** operator OP on two CheckedNumeric<T>: a CheckedNumeric of the promotion. *)
Definition same_op (op : arith) (t : int_type) (lhs rhs : CheckedNumeric) : option CheckedNumeric :=
  let P := ArithmeticPromotion t t in
  if IsIntegerArithmeticSafe P t t then
    r ← bare_op op P (value_ lhs) (value_ rhs);
    Some (of_value_and_validity P P r (Z.lor (validity_ rhs) (validity_ lhs)))
  else
    '(r, validity) ← checked_op op P (ty_wrap P (value_ lhs)) (ty_wrap P (value_ rhs));
    let result := ty_wrap t r in (* T result *)
    Some (of_value_and_validity P t result (Z.lor (Z.lor validity (validity_ lhs)) (validity_ rhs))).

(** operator OP on a CheckedNumeric<Src> and a CheckedNumeric<T>. *)
Definition mixed_op (op : arith) (src t : int_type) (lhs rhs : CheckedNumeric) : option CheckedNumeric :=
  let P := ArithmeticPromotion t src in
  if IsIntegerArithmeticSafe P t src then
    r ← bare_op op P (value_ lhs) (value_ rhs);
    Some (of_value_and_validity P P r (Z.lor (validity_ rhs) (validity_ lhs)))
  else same_op op P (cast P src lhs) (cast P t rhs).

(** *this COMPOUND_OP rhs, for a CheckedNumeric<Src> or a Src. *)
Definition compound_op (op : arith) (t src : int_type) (this rhs : CheckedNumeric) : option CheckedNumeric :=
  if decide (src = t) then
    r ← same_op op t this rhs;
    Some (cast t (ArithmeticPromotion t t) r)
  else
    r ← mixed_op op t src this rhs;
    Some (cast t (ArithmeticPromotion src t) r).

Definition increment (t : int_type) (this : CheckedNumeric) : option CheckedNumeric :=
  compound_op Add t int_t this (of_value int_t int_t 1).
Definition decrement (t : int_type) (this : CheckedNumeric) : option CheckedNumeric :=
  compound_op Sub t int_t this (of_value int_t int_t 1).

(** ** Conversions *)

(** The constraint that the exact value [z] of an expression should get. *)
Definition range_of (t : int_type) (z : Z) : Z :=
  if z <? ty_min t then RANGE_UNDERFLOW else if ty_max t <? z then RANGE_OVERFLOW else RANGE_VALID.

Lemma range_valid t z : range_of t z = RANGE_VALID <-> in_type t z.
Proof. unfold range_of, in_type. destruct (Z.ltb_spec z (ty_min t)), (Z.ltb_spec (ty_max t) z); split; try done; lia. Qed.

Lemma sized_width t : sized t -> sizeof t * 8 = width t /\ 8 <= width t.
Proof. unfold sized, sizeof. intros [-> | [-> | [-> | ->]]]; (split; [reflexivity|lia]). Qed.

Lemma sized_ok t : sized t -> ty_ok t.
Proof. intros H. destruct (sized_width t H). exists (sizeof t). lia. Qed.

Lemma constraint_upper t v : ty_min t <= v -> GetRangeConstraint (v <=? ty_max t) true = range_of t v.
Proof. intros Hv. unfold range_of. destruct (Z.leb_spec v (ty_max t)), (Z.ltb_spec v (ty_min t)), (Z.ltb_spec (ty_max t) v); done || lia. Qed.

Lemma constraint_lower t v : v <= ty_max t -> GetRangeConstraint true (ty_min t <=? v) = range_of t v.
Proof. intros Hv. unfold range_of. destruct (Z.leb_spec (ty_min t) v), (Z.ltb_spec v (ty_min t)), (Z.ltb_spec (ty_max t) v); done || lia. Qed.

Lemma constraint_both t v : ty_min t <= ty_max t -> GetRangeConstraint (v <=? ty_max t) (ty_min t <=? v) = range_of t v.
Proof.
  intros Ht. unfold range_of. destruct (Z.leb_spec v (ty_max t)), (Z.leb_spec (ty_min t) v), (Z.ltb_spec v (ty_min t)), (Z.ltb_spec (ty_max t) v);
    done || lia.
Qed.

Lemma pow_mono a b : 0 <= a <= b -> 1 <= 2 ^ a <= 2 ^ b.
Proof. intros H. split; [|apply Z.pow_le_mono_r; lia]. pose proof (Z.pow_pos_nonneg 2 a ltac:(lia) ltac:(lia)). lia. Qed.

(** The relation of a source value to the range of the destination. *)
Lemma DstRange_exact dst src v : sized dst -> sized src -> in_type src v ->
  DstRangeRelationToSrcRange dst src v = range_of dst v.
Proof.
  intros Hd Hs Hv. destruct (sized_width dst Hd) as [Ed Wd], (sized_width src Hs) as [Es Ws].
  assert (Hvalid : in_type dst v -> RANGE_VALID = range_of dst v) by (intros H; symmetry; by apply range_valid).
  assert (Hwrap : forall z, ty_min src <= z <= ty_max src -> ty_wrap src z = z) by (intros z; apply ty_wrap_id; by apply sized_ok).
  unfold DstRangeRelationToSrcRange, StaticDstRangeRelationToSrcRange, MaxExponent, in_type in *.
  unfold ty_min in Hv, Hvalid, Hwrap; unfold ty_max in Hv, Hvalid, Hwrap.
  destruct (is_signed dst) eqn:Sd, (is_signed src) eqn:Ss.
  - destruct (Z.leb_spec (sizeof src * 8 + 1 - 1) (sizeof dst * 8 + 1 - 1)).
    + pose proof (pow_mono (width src - 1) (width dst - 1) ltac:(lia)). apply Hvalid. lia.
    + apply constraint_both. unfold ty_min, ty_max. rewrite Sd. pose proof (pow_mono (width dst - 1) (width dst - 1) ltac:(lia)). lia.
  - destruct (Z.ltb_spec (sizeof src * 8 + 1 - 0) (sizeof dst * 8 + 1 - 1)).
    + pose proof (pow_mono (width src) (width dst - 1) ltac:(lia)). apply Hvalid. lia.
    + assert (width dst <= width src) by (unfold sized in *; lia).
      destruct (Z.ltb_spec (sizeof src) (sizeof dst)); [lia|]. pose proof (pow_mono (width dst - 1) (width src) ltac:(lia)).
      rewrite Hwrap by (unfold ty_max; rewrite Sd; lia). apply constraint_upper. unfold ty_min. rewrite Sd. lia.
  - destruct (Z.leb_spec (sizeof src * 8 + 1 - 1) (sizeof dst * 8 + 1 - 0)).
    + pose proof (pow_mono (width src - 1) (width dst) ltac:(lia)). rewrite Hwrap by lia.
      replace 0 with (ty_min dst) by (unfold ty_min; by rewrite Sd). apply constraint_lower. unfold ty_max. rewrite Sd. lia.
    + pose proof (pow_mono (width dst) (width src - 1) ltac:(lia)). rewrite !Hwrap by (unfold ty_max; try rewrite Sd; lia).
      replace 0 with (ty_min dst) by (unfold ty_min; by rewrite Sd). apply constraint_both.
      unfold ty_min, ty_max. rewrite Sd. lia.
  - destruct (Z.leb_spec (sizeof src * 8 + 1 - 0) (sizeof dst * 8 + 1 - 0)).
    + pose proof (pow_mono (width src) (width dst) ltac:(lia)). apply Hvalid. lia.
    + apply constraint_upper. unfold ty_min. rewrite Sd. lia.
Qed.

(** ** The operations *)

Lemma sign_bit w x : 1 <= w -> Z.testbit x (w - 1) = (2 ^ (w - 1) <=? x mod 2 ^ w).
Proof.
  intros Hw. assert (2 ^ w = 2 * 2 ^ (w - 1)) as E by (rewrite <-Z.pow_succ_r by lia; f_equal; lia).
  pose proof (pow_mono (w - 1) (w - 1) ltac:(lia)).
  rewrite <-(Z.mod_pow2_bits_low x w) by lia. pose proof (Z.mod_pos_bound x (2 ^ w) ltac:(lia)).
  set (y := x mod 2 ^ w) in *. destruct (Z.leb_spec (2 ^ (w - 1)) y).
  - apply Z.testbit_true; [lia|]. assert (y / 2 ^ (w - 1) = 1) as ->; [|done].
    symmetry. apply Z.div_unique with (y - 2 ^ (w - 1)); lia.
  - apply Z.testbit_false; [lia|]. by rewrite Z.div_small by lia.
Qed.

Lemma HasSignBit_spec t x : 1 <= width t -> HasSignBit t x = (2 ^ (width t - 1) <=? x mod 2 ^ width t).
Proof.
  intros Hw. unfold HasSignBit, wrapu. rewrite Z.shiftr_div_pow2 by lia.
  assert (2 ^ width t = 2 * 2 ^ (width t - 1)) as E by (rewrite <-Z.pow_succ_r by lia; f_equal; lia).
  pose proof (pow_mono (width t - 1) (width t - 1) ltac:(lia)).
  pose proof (Z.mod_pos_bound x (2 ^ width t) ltac:(lia)).
  destruct (Z.leb_spec (2 ^ (width t - 1)) (x mod 2 ^ width t)).
  - apply negb_true_iff, Z.eqb_neq. pose proof (Z.div_le_lower_bound (x mod 2 ^ width t) (2 ^ (width t - 1)) 1). lia.
  - by rewrite Z.div_small by lia.
Qed.

(** The test of the sign bits of three words. *)
Lemma sign_test U a b c : 1 <= width U -> is_signed U = false ->
  HasSignBit U (BinaryComplement U (Z.land (Z.lxor a b) c))
    = negb (xorb (2 ^ (width U - 1) <=? a mod 2 ^ width U) (2 ^ (width U - 1) <=? b mod 2 ^ width U)
            && (2 ^ (width U - 1) <=? c mod 2 ^ width U)).
Proof.
  intros Hw Hs. rewrite HasSignBit_spec, <-!sign_bit by done.
  unfold BinaryComplement, ty_wrap, wrapu. rewrite Hs, Z.mod_pow2_bits_low by lia.
  by rewrite Z.lnot_spec, Z.land_spec, Z.lxor_spec by lia.
Qed.

Lemma sign_xor w a b : 1 <= w ->
  (2 ^ (w - 1) <=? Z.lxor a b mod 2 ^ w) = xorb (2 ^ (w - 1) <=? a mod 2 ^ w) (2 ^ (w - 1) <=? b mod 2 ^ w).
Proof. intros Hw. by rewrite <-!sign_bit, Z.lxor_spec by lia. Qed.

Lemma wraps_mod w z z' : 1 <= w -> z mod 2 ^ w = z' mod 2 ^ w -> wraps w z = wraps w z'.
Proof. intros Hw E. unfold wraps. by rewrite (Z.add_mod z), (Z.add_mod z'), E by (apply Z.pow_nonzero; lia). Qed.

Lemma ty_wrap_mod t z z' : sized t -> z mod 2 ^ width t = z' mod 2 ^ width t -> ty_wrap t z = ty_wrap t z'.
Proof.
  intros Ht E. destruct (sized_width t Ht). unfold ty_wrap. destruct (is_signed t); [apply wraps_mod; [lia|done]|exact E].
Qed.

Lemma promoted_sized t : promoted t -> sized t.
Proof. unfold promoted, sized. tauto. Qed.

Lemma promote_promoted t : promoted t -> promote (unsigned_of t) = unsigned_of t.
Proof. unfold promote, promoted. cbn. intros [-> | ->]; reflexivity. Qed.

(** A number of twice the range, in the unsigned type. *)
Lemma mod_signed w z : 1 <= w -> - 2 ^ w <= z < 2 ^ w -> z mod 2 ^ w = if z <? 0 then z + 2 ^ w else z.
Proof.
  intros Hw Hz. destruct (Z.ltb_spec z 0); [|apply Z.mod_small; lia].
  rewrite <-(Z_mod_plus_full z 1), Z.mod_small; lia.
Qed.

Ltac by_sign t Ht :=
  let E := fresh in let P := fresh in
  pose proof (sized_width t (promoted_sized t Ht)) as [_ P];
  assert (2 ^ width t = 2 * 2 ^ (width t - 1)) as E by (rewrite <-Z.pow_succ_r by lia; f_equal; lia);
  pose proof (pow_mono (width t - 1) (width t - 1) ltac:(lia)).

Lemma CheckedAdd_exact t x y : promoted t -> in_type t x -> in_type t y ->
  CheckedAdd t x y = (ty_wrap t (x + y), range_of t (x + y)).
Proof.
  intros Ht Hx Hy. by_sign t Ht. unfold CheckedAdd. rewrite promote_promoted by done. f_equal.
  { apply ty_wrap_mod; [by apply promoted_sized|]. unfold ty_wrap, unsigned_of, wrapu. cbn [is_signed width].
    rewrite Z.mod_mod, <-Zplus_mod by lia. done. }
  unfold in_type, range_of, ty_min, ty_max in *. destruct (is_signed t) eqn:Hs.
  - rewrite sign_test, sign_xor, HasSignBit_spec by (cbn; lia || done). unfold ty_wrap, unsigned_of, wrapu. cbn [is_signed width].
    rewrite !Z.mod_mod, <-Zplus_mod by lia. rewrite !mod_signed by lia.
    destruct (Z.ltb_spec x 0), (Z.ltb_spec y 0), (Z.ltb_spec (x + y) 0); try lia;
      repeat match goal with |- context [?a <=? ?b] => destruct (Z.leb_spec a b) | |- context [?a <? ?b] => destruct (Z.ltb_spec a b) end;
      try reflexivity; lia.
  - unfold BinaryComplement, ty_wrap, Z.lnot, wrapu. rewrite Hs, mod_signed by lia.
    destruct (Z.ltb_spec (Z.pred (- x)) 0); [|lia]. destruct (Z.leb_spec y (Z.pred (- x) + 2 ^ width t)), (Z.ltb_spec (x + y) 0), (Z.ltb_spec (2 ^ width t - 1) (x + y));
      try reflexivity; lia.
Qed.

Lemma CheckedSub_exact t x y : promoted t -> in_type t x -> in_type t y ->
  CheckedSub t x y = (ty_wrap t (x - y), range_of t (x - y)).
Proof.
  intros Ht Hx Hy. by_sign t Ht. unfold CheckedSub. rewrite promote_promoted by done. f_equal.
  { apply ty_wrap_mod; [by apply promoted_sized|]. unfold ty_wrap, unsigned_of, wrapu. cbn [is_signed width].
    rewrite Z.mod_mod, <-Zminus_mod by lia. done. }
  unfold in_type, range_of, ty_min, ty_max in *. destruct (is_signed t) eqn:Hs.
  - rewrite sign_test, sign_xor, HasSignBit_spec by (cbn; lia || done). unfold ty_wrap, unsigned_of, wrapu. cbn [is_signed width].
    rewrite !Z.mod_mod, <-Zminus_mod by lia. rewrite !mod_signed by lia.
    destruct (Z.ltb_spec x 0), (Z.ltb_spec y 0), (Z.ltb_spec (x - y) 0); try lia;
      repeat match goal with |- context [?a <=? ?b] => destruct (Z.leb_spec a b) | |- context [?a <? ?b] => destruct (Z.ltb_spec a b) end;
      try reflexivity; lia.
  - destruct (Z.leb_spec y x), (Z.ltb_spec (x - y) 0), (Z.ltb_spec (2 ^ width t - 1) (x - y)); try reflexivity; lia.
Qed.

(** A bound on a product, as a bound on one factor. *)
Lemma le_quot m a b : 0 <= m -> 0 < b -> (a <=? Z.quot m b) = (a * b <=? m).
Proof.
  intros Hm Hb. rewrite Z.quot_div_nonneg by lia. pose proof (Z.div_mod m b ltac:(lia)). pose proof (Z.mod_pos_bound m b Hb).
  destruct (Z.leb_spec a (m / b)), (Z.leb_spec (a * b) m); try reflexivity; nia.
Qed.

Lemma quotient_ok t x y : y <> 0 -> (y <> -1 \/ x <> ty_min t) -> quotient t x y = Some (Z.quot x y).
Proof.
  intros Hy Hm. unfold quotient. rewrite (proj2 (Z.eqb_neq y 0)) by done. cbn [orb].
  destruct (Z.eqb_spec x (ty_min t)), (Z.eqb_spec y (-1)); rewrite ?andb_false_r, ?andb_true_r; try done. lia.
Qed.

Lemma mul_validity_pos t x y : ty_min t <= 0 -> 0 <= ty_max t -> 0 < y -> 0 < x ->
  (if x <=? Z.quot (ty_max t) y then RANGE_VALID else RANGE_OVERFLOW) = range_of t (x * y).
Proof.
  intros. rewrite le_quot by lia. unfold range_of. destruct (Z.ltb_spec (x * y) (ty_min t)); [nia|].
  destruct (Z.leb_spec (x * y) (ty_max t)), (Z.ltb_spec (ty_max t) (x * y)); done || lia.
Qed.

Lemma mul_validity_neg t x y : ty_min t <= 0 -> 0 <= ty_max t -> 0 < x -> y <= 0 ->
  (if Z.quot (ty_min t) x <=? y then RANGE_VALID else RANGE_UNDERFLOW) = range_of t (x * y).
Proof.
  intros. assert ((Z.quot (ty_min t) x <=? y) = (ty_min t <=? x * y)) as ->.
  { replace (ty_min t) with (- (- ty_min t)) at 1 by lia. rewrite Z.quot_opp_l by lia.
    pose proof (le_quot (- ty_min t) (- y) x ltac:(lia) ltac:(lia)).
    destruct (Z.leb_spec (- Z.quot (- ty_min t) x) y), (Z.leb_spec (ty_min t) (x * y)); try done;
      destruct (Z.leb_spec (- y) (Z.quot (- ty_min t) x)), (Z.leb_spec (- y * x) (- ty_min t)); try done; lia. }
  unfold range_of. destruct (Z.ltb_spec (ty_max t) (x * y)); [nia|].
  destruct (Z.leb_spec (ty_min t) (x * y)), (Z.ltb_spec (x * y) (ty_min t)); done || lia.
Qed.

Lemma mul_validity_negneg t x y : ty_min t <= 0 -> 0 <= ty_max t -> x < 0 -> y <= 0 ->
  (if Z.quot (ty_max t) x <=? y then RANGE_VALID else RANGE_OVERFLOW) = range_of t (x * y).
Proof.
  intros. assert ((Z.quot (ty_max t) x <=? y) = (x * y <=? ty_max t)) as ->.
  { replace x with (- (- x)) at 1 by lia. rewrite Z.quot_opp_r by lia.
    pose proof (le_quot (ty_max t) (- y) (- x) ltac:(lia) ltac:(lia)).
    destruct (Z.leb_spec (- Z.quot (ty_max t) (- x)) y), (Z.leb_spec (x * y) (ty_max t)); try done;
      destruct (Z.leb_spec (- y) (Z.quot (ty_max t) (- x))), (Z.leb_spec (- y * - x) (ty_max t)); try done; lia. }
  unfold range_of. destruct (Z.ltb_spec (x * y) (ty_min t)); [nia|].
  destruct (Z.leb_spec (x * y) (ty_max t)), (Z.ltb_spec (ty_max t) (x * y)); done || lia.
Qed.

Lemma ty_zero_in t : sized t -> ty_min t <= 0 <= ty_max t.
Proof.
  intros Ht. destruct (sized_width t Ht). unfold ty_min, ty_max.
  pose proof (pow_mono (width t - 1) (width t) ltac:(lia)). destruct (is_signed t); lia.
Qed.

Lemma mul_wide t x y : width t = 32 -> in_type t x -> in_type t y -> in_type (mkInt 64 (is_signed t)) (x * y).
Proof.
  unfold in_type, ty_min, ty_max. intros ->. destruct (is_signed t); cbn [is_signed width]; nia.
Qed.

(** The product of 64-bit signed numbers traps when zero is multiplied by a
    negative number, because the test divides by x. *)
Definition mul_traps (t : int_type) (x y : Z) : bool := (width t =? 64) && is_signed t && (x =? 0) && (y <? 0).

Lemma CheckedMul_exact t x y : promoted t -> in_type t x -> in_type t y ->
  CheckedMul t x y RANGE_VALID = if mul_traps t x y then None else Some (ty_wrap t (x * y), range_of t (x * y)).
Proof.
  intros Ht Hx Hy. pose proof (ty_zero_in t (promoted_sized t Ht)) as H0. unfold CheckedMul, mul_traps, sizeof.
  destruct Ht as [Hw|Hw].
  - rewrite Hw. change (32 / 8 * 2 <=? 8) with true. change (32 =? 64) with false. cbn [andb]. cbv zeta.
    pose proof (mul_wide t x y Hw Hx Hy) as Hp. change (2 * 32) with 64.
    rewrite (ty_wrap_id (mkInt 64 _)); [|by exists 8|exact Hp].
    rewrite DstRange_exact; [done|right; right; by left|right; right; by right|exact Hp].
  - rewrite Hw. change (64 / 8 * 2 <=? 8) with false. change (64 =? 64) with true. cbn [andb].
    unfold in_type in *. destruct (is_signed t) eqn:Hs; cbn [andb].
    + destruct (Z.eqb_spec x 0) as [->|Hx0]; cbn [andb].
      * destruct (Z.eqb_spec y 0) as [->|Hy0]; cbn [andb].
        { change (0 <? 0) with false. cbn iota. rewrite Z.mul_0_l. rewrite (ty_wrap_id t) by (lia || by exists 8).
          unfold range_of. rewrite (proj2 (Z.ltb_ge _ _)), (proj2 (Z.ltb_ge _ _)) by lia. done. }
        change (0 <? 0) with false. destruct (Z.ltb_spec 0 y).
        { rewrite quotient_ok by lia. cbn [mbind option_bind]. rewrite (proj2 (Z.ltb_ge y 0)) by lia.
          rewrite (Z.mul_comm 0), <-mul_validity_neg by lia. done. }
        unfold quotient at 1. cbn [orb]. change (0 =? 0) with true. rewrite (proj2 (Z.ltb_lt y 0)) by lia. done.
      * destruct (Z.ltb_spec 0 x), (Z.ltb_spec 0 y).
        -- rewrite quotient_ok by lia. cbn [mbind option_bind]. by rewrite mul_validity_pos by lia.
        -- rewrite quotient_ok by lia. cbn [mbind option_bind]. by rewrite mul_validity_neg by lia.
        -- rewrite quotient_ok by lia. cbn [mbind option_bind].
           rewrite (Z.mul_comm x). by rewrite mul_validity_neg by lia.
        -- rewrite quotient_ok by (unfold ty_min, ty_max in *; rewrite Hs, Hw in *; lia). cbn [mbind option_bind].
           by rewrite mul_validity_negneg by lia.
    + assert (ty_min t = 0) as Em by (unfold ty_min; by rewrite Hs).
      destruct (Z.eqb_spec y 0) as [->|Hy0].
      * cbn [mbind option_bind]. rewrite Z.mul_0_r. unfold range_of. by rewrite (proj2 (Z.ltb_ge _ _)), (proj2 (Z.ltb_ge _ _)) by lia.
      * rewrite quotient_ok by lia. cbn [mbind option_bind].
        destruct (Z.eq_dec x 0) as [->|]; [|by rewrite mul_validity_pos by lia].
        rewrite le_quot by lia. rewrite Z.mul_0_l. unfold range_of.
        by rewrite (proj2 (Z.leb_le _ _)), (proj2 (Z.ltb_ge _ _)), (proj2 (Z.ltb_ge _ _)) by lia.
Qed.

Lemma wrap_in t z : sized t -> in_type t z -> ty_wrap t z = z.
Proof. intros Ht Hz. apply ty_wrap_id; [by apply sized_ok|exact Hz]. Qed.

Lemma wrap_range t z : sized t -> in_type t (ty_wrap t z).
Proof.
  intros Ht. destruct (sized_width t Ht). unfold in_type, ty_min, ty_max, ty_wrap. destruct (is_signed t).
  - pose proof (wraps_range (width t) z ltac:(lia)). lia.
  - pose proof (wrapu_range (width t) z ltac:(lia)). lia.
Qed.

Lemma quot_in t x y : sized t -> in_type t x -> in_type t y -> y <> 0 -> (is_signed t = true -> x = ty_min t -> y <> -1) ->
  in_type t (Z.quot x y).
Proof.
  intros Ht Hx Hy H0 Htrap. destruct (sized_width t Ht) as [_ Hw]. pose proof (pow_mono (width t - 1) (width t) ltac:(lia)).
  unfold in_type, ty_min, ty_max in *. destruct (is_signed t); [specialize (Htrap eq_refl)|clear Htrap].
  - destruct (Z.eq_dec y 1) as [->|N1]; [rewrite Z.quot_1_r; lia|].
    destruct (Z.eq_dec y (-1)) as [->|N2]; [change (-1) with (- (1)); rewrite Z.quot_opp_r, Z.quot_1_r by lia; lia|].
    pose proof (Z.quot_abs x y H0) as E. rewrite Z.quot_div_nonneg in E by lia.
    pose proof (Z.div_le_upper_bound (Z.abs x) (Z.abs y) (2 ^ (width t - 1) - 1) ltac:(lia) ltac:(nia)). lia.
  - rewrite Z.quot_div_nonneg by lia. pose proof (Z.div_le_upper_bound x y (2 ^ width t - 1) ltac:(lia) ltac:(nia)).
    pose proof (Z.div_pos x y ltac:(lia) ltac:(lia)). lia.
Qed.

Lemma exact_in t z : sized t -> in_type t z -> (ty_wrap t z, range_of t z) = (z, RANGE_VALID).
Proof. intros Ht Hz. f_equal; [by apply wrap_in|by apply range_valid]. Qed.

Lemma min_opp t : sized t -> is_signed t = true ->
  ty_wrap t (- ty_min t) = ty_min t /\ range_of t (- ty_min t) = RANGE_OVERFLOW.
Proof.
  intros Ht Hs. destruct (sized_width t Ht) as [_ Hw].
  assert (2 ^ width t = 2 * 2 ^ (width t - 1)) as E by (rewrite <-Z.pow_succ_r by lia; f_equal; lia).
  pose proof (pow_mono (width t - 1) (width t - 1) ltac:(lia)). split.
  - rewrite <-(wrap_in t (ty_min t)) at 2 by (done || unfold in_type, ty_min, ty_max; rewrite Hs; lia). apply ty_wrap_mod; [done|].
    unfold ty_min. rewrite Hs, <-(Z_mod_plus_full (- 2 ^ (width t - 1)) 1). f_equal. lia.
  - unfold range_of, ty_min, ty_max. rewrite Hs, (proj2 (Z.ltb_ge _ _)), (proj2 (Z.ltb_lt _ _)) by lia. done.
Qed.

Lemma minus_one_in t : sized t -> is_signed t = true -> ty_wrap t (-1) = -1.
Proof.
  intros Ht Hs. destruct (sized_width t Ht) as [_ Hw]. pose proof (pow_mono (width t - 1) (width t - 1) ltac:(lia)).
  apply wrap_in; [done|]. unfold in_type, ty_min, ty_max. rewrite Hs. lia.
Qed.

Lemma CheckedDiv_exact t x y : promoted t -> in_type t x -> in_type t y -> y <> 0 ->
  CheckedDiv t x y = Some (ty_wrap t (Z.quot x y), range_of t (Z.quot x y)).
Proof.
  intros Ht Hx Hy H0. pose proof (promoted_sized t Ht) as Hs. unfold CheckedDiv.
  destruct (is_signed t && (x =? ty_min t) && (y =? ty_wrap t (-1))) eqn:E.
  - apply andb_true_iff in E as [[Es Ex%Z.eqb_eq]%andb_true_iff Ey%Z.eqb_eq]. rewrite minus_one_in in Ey by done. subst x y.
    change (-1) with (- (1)). rewrite Z.quot_opp_r, Z.quot_1_r by lia. destruct (min_opp t Hs Es) as [-> ->]. done.
  - assert (is_signed t = true -> x = ty_min t -> y <> -1) as Hn.
    { intros Es -> ->. rewrite Es, minus_one_in, !Z.eqb_refl in E by done. done. }
    rewrite exact_in by (done || by apply quot_in). destruct (is_signed t) eqn:Es.
    + rewrite quotient_ok; [done|done|]. destruct (Z.eq_dec y (-1)); [right|by left]. intros ->. by apply Hn.
    + unfold quotient. rewrite Es, (proj2 (Z.eqb_neq y 0)) by done. done.
Qed.

Lemma CheckedMod_exact t x y : y <> 0 -> (is_signed t = true -> x = ty_min t -> y <> -1) ->
  CheckedMod t x y = Some (Z.rem x y, if is_signed t && (y <=? 0) then RANGE_INVALID else RANGE_VALID).
Proof.
  intros H0 Hn. unfold CheckedMod, remainder. rewrite (proj2 (Z.eqb_neq y 0)) by done. cbn [orb].
  destruct (is_signed t) eqn:Es; cbn [andb].
  - destruct (Z.eqb_spec x (ty_min t)) as [->|]; cbn [andb].
    + rewrite (proj2 (Z.eqb_neq y (-1))) by (by apply Hn). cbn [mbind option_bind].
      by destruct (Z.ltb_spec 0 y), (Z.leb_spec y 0); try lia.
    + cbn [mbind option_bind]. by destruct (Z.ltb_spec 0 y), (Z.leb_spec y 0); try lia.
  - done.
Qed.

Lemma CheckedNeg_exact t v : sized t -> in_type t v -> CheckedNeg t v = (ty_wrap t (- v), range_of t (- v)).
Proof.
  intros Ht Hv. destruct (sized_width t Ht) as [_ Hw]. unfold CheckedNeg. destruct (is_signed t) eqn:Es.
  - f_equal. destruct (Z.eqb_spec v (ty_min t)) as [->|Hne]; cbn [negb]; [by destruct (min_opp t Ht Es) as [_ ->]|].
    symmetry. apply range_valid. unfold in_type, ty_min, ty_max in *. rewrite Es in *. lia.
  - pose proof (pow_mono (width t - 1) (width t) ltac:(lia)). unfold in_type, ty_min, ty_max in Hv. rewrite Es in Hv. f_equal.
    + apply ty_wrap_mod; [done|]. unfold ty_wrap, signed_of, wraps. cbn [is_signed width].
      assert (forall z, (((z + 2 ^ (width t - 1)) mod 2 ^ width t - 2 ^ (width t - 1)) mod 2 ^ width t) = z mod 2 ^ width t) as Hm.
      { intros z. rewrite Zminus_mod, Z.mod_mod, <-Zminus_mod by lia. f_equal. lia. }
      rewrite Hm. rewrite <-(Z.sub_0_l v), <-Z.sub_0_l, Zminus_mod, Hm, <-Zminus_mod. done.
    + unfold range_of, ty_min, ty_max. rewrite Es.
      destruct (Z.eqb_spec v 0), (Z.ltb_spec (- v) 0), (Z.ltb_spec (2 ^ width t - 1) (- v)); try done; lia.
Qed.

Lemma CheckedAbs_exact t v : sized t -> in_type t v -> CheckedAbs t v = (ty_wrap t (Z.abs v), range_of t (Z.abs v)).
Proof.
  intros Ht Hv. destruct (sized_width t Ht) as [_ Hw]. unfold CheckedAbs. destruct (is_signed t) eqn:Es.
  - pose proof (pow_mono (width t - 1) (width t) ltac:(lia)).
    destruct (Z.eqb_spec v (ty_min t)) as [->|Hne]; cbn [negb].
    + assert (ty_min t < 0) as Hneg by (unfold ty_min; rewrite Es; lia).
      rewrite (proj2 (Z.ltb_lt _ _)), Z.abs_neq by lia. destruct (min_opp t Ht Es) as [E1 E2]. rewrite E2, !E1. f_equal.
      apply wrap_in; [done|]. unfold in_type. pose proof (ty_zero_in t Ht). lia.
    + assert (in_type t (Z.abs v)) as Ha by (unfold in_type, ty_min, ty_max in *; rewrite Es in *; lia).
      rewrite (exact_in t (Z.abs v)) by done. f_equal.
      destruct (Z.ltb_spec v 0).
      * rewrite Z.abs_neq in * by lia. by rewrite !(wrap_in t (- v)) by done.
      * rewrite Z.abs_eq in * by lia. by rewrite wrap_in.
  - unfold in_type, ty_min in Hv. rewrite Es in Hv. rewrite Z.abs_eq by lia. rewrite exact_in; [done|done|].
    unfold in_type, ty_min. rewrite Es. lia.
Qed.

(** ** Expressions of one type *)

Inductive expr := Const (v : Z) | Bin (op : arith) (a b : expr) | Negate (a : expr) | Absolute (a : expr).

Fixpoint eval (t : int_type) (e : expr) : option CheckedNumeric :=
  match e with
  | Const v => Some (of_value t t v)
  | Bin op a b => l ← eval t a; r ← eval t b; same_op op t l r
  | Negate a => u ← eval t a; Some (negate t u)
  | Absolute a => u ← eval t a; Some (Abs t u)
  end.

(** The exact value; a remainder has a positive divisor. *)
Definition exact_op (op : arith) (x y : Z) : option Z :=
  match op with
  | Add => Some (x + y)
  | Sub => Some (x - y)
  | Mul => Some (x * y)
  | Div => if y =? 0 then None else Some (Z.quot x y)
  | Mod => if 0 <? y then Some (Z.rem x y) else None
  end.

Fixpoint exact (e : expr) : option Z :=
  match e with
  | Const v => Some v
  | Bin op a b => x ← exact a; y ← exact b; exact_op op x y
  | Negate a => x ← exact a; Some (- x)
  | Absolute a => x ← exact a; Some (Z.abs x)
  end.

(** Every value on the way is in the type, and the product does not trap. *)
Fixpoint within (t : int_type) (e : expr) : Prop :=
  (exists z, exact e = Some z /\ in_type t z) /\
  match e with
  | Const _ => True
  | Bin op a b =>
      within t a /\ within t b /\
      (op = Mul -> forall x y, exact a = Some x -> exact b = Some y -> mul_traps t x y = false)
  | Negate a | Absolute a => within t a
  end.

Fixpoint consts_in (t : int_type) (e : expr) : Prop :=
  match e with
  | Const v => in_type t v
  | Bin _ a b => consts_in t a /\ consts_in t b
  | Negate a | Absolute a => consts_in t a
  end.

Lemma promotion_self t : promoted t -> ArithmeticPromotion t t = t.
Proof.
  destruct t as [w []]; unfold promoted; cbn [width]; intros [-> | ->]; reflexivity.
Qed.

Lemma not_safe t : promoted t -> IsIntegerArithmeticSafe t t t = false.
Proof.
  intros Ht. unfold IsIntegerArithmeticSafe. assert ((2 * sizeof t <=? sizeof t) = false) as ->; [|by rewrite andb_false_r].
  apply Z.leb_gt. destruct (sized_width t (promoted_sized t Ht)). lia.
Qed.

Lemma same_DstRange t v : sized t -> in_type t v -> DstRangeRelationToSrcRange t t v = RANGE_VALID.
Proof. intros Ht Hv. rewrite DstRange_exact by done. by apply range_valid. Qed.

(** The operator on a type of at least an int. *)
Lemma same_op_spec op t l r : promoted t -> in_type t (value_ l) -> in_type t (value_ r) ->
  same_op op t l r =
    ('(v, c) ← checked_op op t (value_ l) (value_ r);
     Some (mkChecked (ty_wrap t v) (Z.lor (Z.lor c (validity_ l)) (validity_ r)))).
Proof.
  intros Ht Hl Hr. pose proof (promoted_sized t Ht) as Hs. unfold same_op.
  rewrite promotion_self, not_safe, !wrap_in by done. destruct (checked_op op t _ _) as [[v c]|]; [|done]. cbn.
  unfold of_value_and_validity. rewrite same_DstRange, Z.lor_0_r by (done || by apply wrap_range).
  by rewrite (wrap_in t (ty_wrap t v)) by (done || by apply wrap_range).
Qed.

(** A checked operation that is valid is exact. *)
Lemma checked_op_sound op t x y v : promoted t -> in_type t x -> in_type t y ->
  checked_op op t x y = Some (v, RANGE_VALID) -> exists z, exact_op op x y = Some z /\ ty_wrap t v = z /\ in_type t z.
Proof.
  intros Ht Hx Hy. pose proof (promoted_sized t Ht) as Hs.
  assert (forall z, (ty_wrap t z, range_of t z) = (v, RANGE_VALID) -> ty_wrap t v = z /\ in_type t z) as Hz.
  { intros z [= <- Hr]. apply range_valid in Hr. by rewrite !(wrap_in t z). }
  destruct op; cbn [checked_op exact_op].
  - rewrite CheckedAdd_exact by done. intros [= E1 E2]. eexists. split; [done|]. apply Hz. by rewrite E1, E2.
  - rewrite CheckedSub_exact by done. intros [= E1 E2]. eexists. split; [done|]. apply Hz. by rewrite E1, E2.
  - rewrite CheckedMul_exact by done. destruct (mul_traps t x y); [done|]. intros [= E1 E2].
    eexists. split; [done|]. apply Hz. by rewrite E1, E2.
  - destruct (Z.eqb_spec y 0) as [->|Hy0].
    { unfold CheckedDiv. destruct (_ && _); [done|]. done. }
    rewrite CheckedDiv_exact by done. intros [= E1 E2]. eexists. split; [done|]. apply Hz. by rewrite E1, E2.
  - intros E. unfold CheckedMod, remainder in E. destruct (_ || _) eqn:Etrap; [done|]. cbn in E. injection E as <- E.
    apply orb_false_iff in Etrap as [Hy0%Z.eqb_neq _].
    assert (0 < y) as Hpos.
    { unfold in_type, ty_min in Hy. destruct (is_signed t); [|lia]. by destruct (Z.ltb_spec 0 y). }
    rewrite (proj2 (Z.ltb_lt 0 y)) by done. eexists. split; [done|].
    assert (in_type t (Z.rem x y)); [|split; [by apply wrap_in|done]].
    pose proof (Z.rem_bound_abs x y ltac:(lia)). unfold in_type, ty_min, ty_max in *.
    destruct (is_signed t); [lia|]. pose proof (Z.rem_nonneg x y ltac:(lia) ltac:(lia)). lia.
Qed.

(** An operation with a value in the type is valid. *)
Lemma checked_op_complete op t x y z : promoted t -> in_type t x -> in_type t y -> in_type t z -> exact_op op x y = Some z ->
  (op = Mul -> mul_traps t x y = false) -> checked_op op t x y = Some (z, RANGE_VALID).
Proof.
  intros Ht Hx Hy Hz. pose proof (promoted_sized t Ht) as Hs. destruct op; cbn [checked_op exact_op]; intros E Hm.
  - rewrite CheckedAdd_exact by done. injection E as ->. by rewrite exact_in.
  - rewrite CheckedSub_exact by done. injection E as ->. by rewrite exact_in.
  - rewrite CheckedMul_exact, Hm by done. injection E as ->. by rewrite exact_in.
  - destruct (Z.eqb_spec y 0) as [->|Hy0]; [done|]. rewrite CheckedDiv_exact by done. injection E as ->. by rewrite exact_in.
  - destruct (Z.ltb_spec 0 y); [|done]. injection E as <-. rewrite CheckedMod_exact by (intros; lia).
    rewrite (proj2 (Z.leb_gt y 0)) by done. by rewrite andb_false_r.
Qed.

Lemma unary_spec t v c z : sized t -> c = range_of t z -> v = ty_wrap t z -> forall d,
  of_value_and_validity t t v (Z.lor d c) = mkChecked (ty_wrap t z) (Z.lor d (range_of t z)).
Proof.
  intros Ht -> -> d. unfold of_value_and_validity. rewrite same_DstRange, Z.lor_0_r by (done || by apply wrap_range).
  by rewrite (wrap_in t (ty_wrap t z)) by (done || by apply wrap_range).
Qed.

Lemma negate_spec t u : sized t -> in_type t (value_ u) ->
  negate t u = mkChecked (ty_wrap t (- value_ u)) (Z.lor (validity_ u) (range_of t (- value_ u))).
Proof. intros Ht Hu. unfold negate. rewrite CheckedNeg_exact by done. by apply unary_spec. Qed.

Lemma Abs_spec t u : sized t -> in_type t (value_ u) ->
  Abs t u = mkChecked (ty_wrap t (Z.abs (value_ u))) (Z.lor (validity_ u) (range_of t (Z.abs (value_ u)))).
Proof. intros Ht Hu. unfold Abs. rewrite CheckedAbs_exact by done. by apply unary_spec. Qed.

Lemma unary_valid t d z : sized t -> Z.lor d (range_of t z) = RANGE_VALID -> d = RANGE_VALID /\ ty_wrap t z = z.
Proof. intros Ht H. apply Z.lor_eq_0_iff in H as [-> H]. split; [done|]. apply wrap_in; [done|]. by apply range_valid. Qed.

Lemma eval_sound t e : promoted t -> consts_in t e -> forall u, eval t e = Some u ->
  in_type t (value_ u) /\ (validity_ u = RANGE_VALID -> exact e = Some (value_ u)).
Proof.
  intros Ht. pose proof (promoted_sized t Ht) as Hs.
  induction e as [v|op a IHa b IHb|a IHa|a IHa]; cbn [consts_in eval exact]; intros Hc u.
  - intros [= <-]. cbn. rewrite wrap_in by done. done.
  - destruct Hc as [Ha Hb]. specialize (IHa Ha). specialize (IHb Hb). destruct (eval t a) as [l|]; [|done]. destruct (eval t b) as [r|]; [|done].
    destruct (IHa l eq_refl) as [Hl El], (IHb r eq_refl) as [Hr Er]. cbn [mbind option_bind]. rewrite same_op_spec by done.
    destruct (checked_op op t (value_ l) (value_ r)) as [[v c]|] eqn:E; [|done]. cbn. intros [= <-]. cbn [value_ validity_].
    split; [by apply wrap_range|]. intros H. apply Z.lor_eq_0_iff in H as [[-> H1]%Z.lor_eq_0_iff H2].
    rewrite El, Er by done. cbn. destruct (checked_op_sound op t _ _ v Ht Hl Hr E) as (z & -> & -> & _). done.
  - specialize (IHa Hc). destruct (eval t a) as [w|]; [|done]. destruct (IHa w eq_refl) as [Hw Ew]. cbn. intros [= <-].
    rewrite negate_spec by done. cbn. split; [by apply wrap_range|]. intros [H ->]%unary_valid; [|done]. by rewrite Ew.
  - specialize (IHa Hc). destruct (eval t a) as [w|]; [|done]. destruct (IHa w eq_refl) as [Hw Ew]. cbn. intros [= <-].
    rewrite Abs_spec by done. cbn. split; [by apply wrap_range|]. intros [H ->]%unary_valid; [|done]. by rewrite Ew.
Qed.

Lemma eval_complete t e : promoted t -> consts_in t e -> within t e ->
  exists z, exact e = Some z /\ in_type t z /\ eval t e = Some (mkChecked z RANGE_VALID).
Proof.
  intros Ht. pose proof (promoted_sized t Ht) as Hs.
  induction e as [v|op a IHa b IHb|a IHa|a IHa]; cbn [consts_in within eval]; intros Hc [(z & Ez & Hz) Hw].
  - exists z. split; [done|]. split; [done|]. injection Ez as ->. unfold of_value. by rewrite wrap_in, same_DstRange.
  - destruct Hc as [Ha Hb], Hw as (Wa & Wb & Hm). destruct (IHa Ha Wa) as (x & Ex & Hx & ->), (IHb Hb Wb) as (y & Ey & Hy & ->).
    exists z. split; [done|]. split; [done|]. cbn [mbind option_bind exact] in *. rewrite Ex, Ey in Ez. cbn in Ez.
    rewrite same_op_spec by done. cbn [value_ validity_]. rewrite (checked_op_complete op t x y z) by auto. cbn. by rewrite wrap_in.
  - destruct (IHa Hc Hw) as (x & Ex & Hx & ->). exists z. split; [done|]. split; [done|]. cbn [mbind option_bind exact] in *.
    rewrite Ex in Ez. injection Ez as <-. rewrite negate_spec by done. cbn. by rewrite wrap_in, (proj2 (range_valid t _)).
  - destruct (IHa Hc Hw) as (x & Ex & Hx & ->). exists z. split; [done|]. split; [done|]. cbn [mbind option_bind exact] in *.
    rewrite Ex in Ez. injection Ez as <-. rewrite Abs_spec by done. cbn. by rewrite wrap_in, (proj2 (range_valid t _)).
Qed.

(** C33. CheckedNumeric expressions of a 32- or 64-bit type, signed or not: if the
    result is valid, it is the exact value of the expression, no operation on the
    way having overflowed, divided by zero or taken the remainder of a divisor
    that is not positive; and it is valid if all the values on the way are in the
    type (and no product traps). *)
Theorem checked_expressions t e :
  promoted t -> consts_in t e ->
  (forall u, eval t e = Some u -> IsValid u = true ->
    exists z, exact e = Some z /\ ValueOrDie u = Some z /\ in_type t z) /\
  (within t e -> exists u, eval t e = Some u /\ IsValid u = true).
Proof.
  intros Ht Hc. split.
  - intros u Hu Hv. destruct (eval_sound t e Ht Hc u Hu) as [Hin He]. exists (value_ u). unfold ValueOrDie. rewrite Hv.
    apply Z.eqb_eq in Hv. split; [by apply He|done].
  - intros Hw. destruct (eval_complete t e Ht Hc Hw) as (z & _ & _ & ->). by eexists.
Qed.

(** [(7 - x) * -3 % 5 + |y / 2|] on int64_t. *)
Definition sample_expr : expr :=
  Bin Add (Bin Mod (Bin Mul (Bin Sub (Const 7) (Const 100)) (Const (-3))) (Const 5)) (Absolute (Bin Div (Const (-9)) (Const 2))).

Theorem checked_expressions_witness :
  (forall u, eval int64_t sample_expr = Some u -> IsValid u = true ->
    exists z, exact sample_expr = Some z /\ ValueOrDie u = Some z /\ in_type int64_t z) /\
  (within int64_t sample_expr -> exists u, eval int64_t sample_expr = Some u /\ IsValid u = true).
Proof.
  apply (checked_expressions int64_t sample_expr).
  - by right.
  - unfold sample_expr, in_type. cbn [consts_in]. unfold in_type. cbv -[Z.le]. lia.
Defined.

Example sample_value : eval int64_t sample_expr = Some (mkChecked 8 RANGE_VALID).
Proof. vm_compute. reflexivity. Qed.

(** C34. The conversions between any two integer types of 8 to 64 bits: the relation
    to the destination's range is exact, checked_cast fails exactly for the values
    that the destination does not have and otherwise keeps them, and
    saturated_cast gives the nearest value of the destination. *)
Theorem conversions_exact dst src v :
  sized dst -> sized src -> in_type src v ->
  DstRangeRelationToSrcRange dst src v = range_of dst v /\
  (checked_cast dst src v = if decide (in_type dst v) then Some v else None) /\
  saturated_cast dst src v = Some (Z.max (ty_min dst) (Z.min (ty_max dst) v)).
Proof.
  intros Hd Hs Hv. pose proof (DstRange_exact dst src v Hd Hs Hv) as E. pose proof (ty_zero_in dst Hd) as Hz.
  split; [done|]. unfold checked_cast, saturated_cast, IsValueInRangeForNumericType. rewrite E. cbv zeta.
  destruct (decide (in_type dst v)) as [Hin|Hout].
  - rewrite (proj2 (range_valid dst v) Hin). cbn. rewrite wrap_in by done. split; [done|]. unfold in_type in Hin. f_equal. lia.
  - assert (range_of dst v <> RANGE_VALID) as Hne by (by rewrite range_valid). apply Z.eqb_neq in Hne. rewrite Hne.
    split; [done|]. unfold range_of, in_type in *. destruct (Z.ltb_spec v (ty_min dst)); cbn; [f_equal; lia|].
    destruct (Z.ltb_spec (ty_max dst) v); cbn; [f_equal; lia|lia].
Qed.

Theorem conversions_exact_witness :
  DstRangeRelationToSrcRange (mkInt 16 true) uint64_t 40000 = range_of (mkInt 16 true) 40000 /\
  (checked_cast (mkInt 16 true) uint64_t 40000 = if decide (in_type (mkInt 16 true) 40000) then Some 40000 else None) /\
  saturated_cast (mkInt 16 true) uint64_t 40000 = Some (Z.max (ty_min (mkInt 16 true)) (Z.min (ty_max (mkInt 16 true)) 40000)).
Proof.
  apply (conversions_exact (mkInt 16 true) uint64_t 40000).
  - by right; left.
  - by right; right; right.
  - by vm_compute.
Defined.

(** A type that is promoted to int. *)
Definition narrow (t : int_type) : Prop := width t = 8 \/ width t = 16.

Lemma narrow_cases t : narrow t -> sized t /\ ArithmeticPromotion t t = int_t /\ IsIntegerArithmeticSafe int_t t t = false.
Proof. destruct t as [w []]; unfold narrow, sized; cbn [width]; intros [-> | ->]; (split; [lia|split; reflexivity]). Qed.

Lemma narrow_in t v : narrow t -> in_type t v -> - 2 ^ 15 <= v < 2 ^ 16.
Proof. unfold narrow, in_type, ty_min, ty_max. intros [-> | ->]; destruct (is_signed t); cbv -[Z.le Z.lt]; lia. Qed.

Lemma narrow_op op t x y z : narrow t -> in_type t x -> in_type t y -> in_type int_t z -> checked_op op int_t x y = Some (z, RANGE_VALID) ->
  compound_op op t t (of_value t t x) (of_value t t y) = Some (mkChecked (ty_wrap t z) RANGE_VALID).
Proof.
  intros Ht Hx Hy Hz E. destruct (narrow_cases t Ht) as (Hs & HP & Hsafe).
  assert (forall v, in_type t v -> in_type int_t v) as Hint.
  { intros v Hv. pose proof (narrow_in t v Ht Hv). unfold in_type. change (ty_min int_t) with (- 2 ^ 31). change (ty_max int_t) with (2 ^ 31 - 1). lia. }
  assert (sized int_t) as Hsi by (by right; right; left). pose proof (wrap_range t z Hs) as Hw.
  unfold compound_op, same_op, of_value. rewrite decide_True, HP, Hsafe by done. cbn [value_ validity_].
  rewrite !(wrap_in t) by done. rewrite !(wrap_in int_t) by auto. rewrite E. cbn [mbind option_bind].
  rewrite !same_DstRange by done. unfold of_value_and_validity, cast. cbn [value_ validity_].
  rewrite (wrap_in int_t) by auto. unfold of_value_and_validity. rewrite (wrap_in t (ty_wrap t z)) by done.
  rewrite !DstRange_exact by auto. by rewrite !(proj2 (range_valid _ _)) by auto.
Qed.

Lemma narrow_ops_exact t x y : narrow t -> in_type t x -> in_type t y ->
  checked_op Add int_t x y = Some (x + y, RANGE_VALID) /\
  (width t = 8 \/ is_signed t = true -> in_type int_t (x * y) /\ checked_op Mul int_t x y = Some (x * y, RANGE_VALID)) /\
  in_type int_t (x + y).
Proof.
  intros Ht Hx Hy. pose proof (narrow_in t x Ht Hx). pose proof (narrow_in t y Ht Hy).
  assert (promoted int_t) as Hp by by left.
  assert (forall v, - 2 ^ 31 <= v < 2 ^ 31 -> in_type int_t v) as Hint.
  { intros v Hv. unfold in_type. change (ty_min int_t) with (- 2 ^ 31). change (ty_max int_t) with (2 ^ 31 - 1). lia. }
  split; [|split].
  - cbn [checked_op]. rewrite CheckedAdd_exact, exact_in; [done|by apply promoted_sized|apply Hint; lia|done|apply Hint; lia..].
  - intros Hm. assert (in_type int_t (x * y)) as Hxy.
    { assert (forall v, in_type t v -> Z.abs v <= 2 ^ 15) as Hb.
      { intros v Hv. unfold in_type, ty_min, ty_max in Hv. destruct Ht as [Hw|Hw]; rewrite Hw in *; destruct (is_signed t);
          cbv -[Z.le Z.lt Z.abs] in *; destruct Hm; try done; lia. }
      pose proof (Z.mul_le_mono_nonneg (Z.abs x) (2 ^ 15) (Z.abs y) (2 ^ 15) ltac:(lia) (Hb x Hx) ltac:(lia) (Hb y Hy)).
      apply Hint. rewrite <-Z.abs_mul in *. lia. }
    split; [done|]. cbn [checked_op]. rewrite CheckedMul_exact by (done || apply Hint; lia). cbn [mul_traps].
    change (mul_traps int_t x y) with false. cbn iota. rewrite exact_in; [done|by apply promoted_sized|done].
  - apply Hint. lia.
Qed.

(** Where the arithmetic is not what it promises: for the 8- and 16-bit types
    an operator stores the checked sum or product, which is an int, in a T and
    calls it valid, so that it wraps without notice; the fast path for types that
    can not overflow is never taken; a product of 64-bit signed numbers divides by
    zero for zero times a negative number; and INT_MIN % -1 is computed after it
    was found invalid. *)
Theorem narrow_arithmetic_wraps :
  (forall t x y, narrow t -> in_type t x -> in_type t y ->
    compound_op Add t t (of_value t t x) (of_value t t y) = Some (mkChecked (ty_wrap t (x + y)) RANGE_VALID) /\
    (width t = 8 \/ is_signed t = true ->
     compound_op Mul t t (of_value t t x) (of_value t t y) = Some (mkChecked (ty_wrap t (x * y)) RANGE_VALID))) /\
  compound_op Add (mkInt 8 true) (mkInt 8 true) (of_value (mkInt 8 true) int_t 100) (of_value (mkInt 8 true) int_t 100)
    = Some (mkChecked (-56) RANGE_VALID) /\
  (forall lhs rhs, sized lhs -> sized rhs -> IsIntegerArithmeticSafe (ArithmeticPromotion lhs rhs) lhs rhs = false) /\
  CheckedMul int64_t 0 (-1) RANGE_VALID = None /\ CheckedMod int_t (ty_min int_t) (-1) = None.
Proof.
  split; [|split; [reflexivity|split; [|split; reflexivity]]].
  - intros t x y Ht Hx Hy. destruct (narrow_ops_exact t x y Ht Hx Hy) as (Ha & Hm & Hin). split; [by apply narrow_op|].
    intros H. destruct (Hm H) as [Hin' Hm']. by apply narrow_op.
  - intros [w1 s1] [w2 s2]. unfold sized. cbn [width]. intros [-> | [-> | [-> | ->]]] [-> | [-> | [-> | ->]]]; destruct s1, s2; reflexivity.
Qed.

End SafeMath.
