(* ===== verification/IOBlock.v ===== *)
(** * IOBlock: blocks, reference counts and the TLS block cache of utility/iobuf.cc

    A [World] is the memory the IOBufs of one thread share: the live blocks
    ([heap], by an identity that is never reused), the thread's cache of
    partially filled blocks ([TLSData]) and the global counters.  Allocation
    ([malloc], through [blockmem_allocate]) is the interface [Alloc].

    The reference counter [nshared] is kept unbounded: it would overflow only
    with 2^31 live references to one block.  The deleters of user data are
    arbitrary functions: their calls are recorded in order in [deleted].

    [Inv w O] is the ownership invariant: the blocks in the cache form a list
    without repetition, and the reference count of every live block is the
    number of its occurrences in the cache plus in [O], the references held by
    everything else.  [w ≼ w'] says what all operations preserve: bytes below
    the [size] of a block never change while the block lives. *)

From S2P Require Import Prelude.

Module IOBlock.

(** malloc: may fail, and returns memory of unknown contents. *)
Class Alloc := {
  malloc_ok : nat -> bool;          (** does the n-th allocation succeed? *)
  malloc_byte : nat -> nat -> byte  (** the i-th byte of what it returns *) }.

(** The union [u] of Block. *)
Inductive block_union :=
| portal_next (next : option nat)
| data_meta (meta : Z).

Record Block := mkBlock {
  nshared : Z;
  flags : Z;
  size : Z;
  cap : Z;
  u : block_union;
  data : list byte;
  deleter : option Z   (** UserDataExtension, for user data *) }.

Record TLSData := mkTLS {
  block_head : option nat;
  num_blocks : Z;
  registered : bool }.

Record World := mkWorld {
  heap : gmap nat Block;
  next : nat;                    (** number of allocations so far *)
  tls : TLSData;
  g_nblock : Z;
  g_blockmem : Z;
  g_newbigview : Z;
  g_num_hit_tls_threshold : Z;
  deleted : list (option Z) }.

Definition init_world : World := mkWorld ∅ 0 (mkTLS None 0 false) 0 0 0 0 [].

Definition IOBUF_BLOCK_FLAGS_USER_DATA := 1.
Definition DEFAULT_BLOCK_SIZE := 8192.
Definition sizeof_Block := 32.
(** offsetof(Block, data) *)
Definition offsetof_data := 24.
Definition MAX_BLOCKS_PER_THREAD := 8.

Definition set_heap (h : gmap nat Block) (w : World) : World :=
  mkWorld h (next w) (tls w) (g_nblock w) (g_blockmem w) (g_newbigview w)
    (g_num_hit_tls_threshold w) (deleted w).
Definition set_tls (t : TLSData) (w : World) : World :=
  mkWorld (heap w) (next w) t (g_nblock w) (g_blockmem w) (g_newbigview w)
    (g_num_hit_tls_threshold w) (deleted w).
Definition set_next (n : nat) (w : World) : World :=
  mkWorld (heap w) n (tls w) (g_nblock w) (g_blockmem w) (g_newbigview w)
    (g_num_hit_tls_threshold w) (deleted w).
Definition add_blocks (nblock mem : Z) (w : World) : World :=
  mkWorld (heap w) (next w) (tls w) (u64 (g_nblock w + nblock))
    (u64 (g_blockmem w + mem)) (g_newbigview w) (g_num_hit_tls_threshold w) (deleted w).
Definition add_newbigview (w : World) : World :=
  mkWorld (heap w) (next w) (tls w) (g_nblock w) (g_blockmem w)
    (u64 (g_newbigview w + 1)) (g_num_hit_tls_threshold w) (deleted w).
Definition add_hit (n : Z) (w : World) : World :=
  mkWorld (heap w) (next w) (tls w) (g_nblock w) (g_blockmem w) (g_newbigview w)
    (u64 (g_num_hit_tls_threshold w + n)) (deleted w).
Definition add_deleted (d : option Z) (w : World) : World :=
  mkWorld (heap w) (next w) (tls w) (g_nblock w) (g_blockmem w) (g_newbigview w)
    (g_num_hit_tls_threshold w) (deleted w ++ [d]).

Definition with_nshared (n : Z) (b : Block) : Block :=
  mkBlock n (flags b) (size b) (cap b) (u b) (data b) (deleter b).
Definition with_size (n : Z) (b : Block) : Block :=
  mkBlock (nshared b) (flags b) n (cap b) (u b) (data b) (deleter b).
Definition with_u (x : block_union) (b : Block) : Block :=
  mkBlock (nshared b) (flags b) (size b) (cap b) x (data b) (deleter b).
Definition with_data (d : list byte) (b : Block) : Block :=
  mkBlock (nshared b) (flags b) (size b) (cap b) (u b) d (deleter b).

(** Dereference a block pointer: a dangling pointer is undefined behaviour. *)
Definition block_at (b : nat) : M World Block :=
  w ← get; match heap w !! b with Some blk => mret blk | None => undefined end.
Definition set_block (b : nat) (blk : Block) : M World () :=
  modify (fun w => set_heap (<[b := blk]> (heap w)) w).
(** Dereference a pointer that may be NULL. *)
Definition deref (p : option nat) : M World nat :=
  match p with Some b => mret b | None => undefined end.

Definition inc_ref (b : nat) : M World () :=
  blk ← block_at b; set_block b (with_nshared (nshared blk + 1) blk).

Definition dec_ref (b : nat) : M World () :=
  blk ← block_at b;
  if nshared blk =? 1 then
    if flags blk =? 0 then
      _ ← modify (add_blocks (-1) (- (cap blk + sizeof_Block)));
      modify (fun w => set_heap (delete b (heap w)) w)
    else if negb (Z.land (flags blk) IOBUF_BLOCK_FLAGS_USER_DATA =? 0) then
      _ ← modify (add_deleted (deleter blk));
      modify (fun w => set_heap (delete b (heap w)) w)
    else set_block b (with_nshared (nshared blk - 1) blk)
  else set_block b (with_nshared (nshared blk - 1) blk).

Definition full (blk : Block) : bool := cap blk <=? size blk.
Definition left_space (blk : Block) : Z := u32 (cap blk - size blk).

Section Blocks.
Context `{Alloc}.

(** One allocation: the identity of the new object, or NULL. *)
Definition malloc : M World (option nat) :=
  w ← get;
  _ ← modify (set_next (S (next w)));
  mret (if malloc_ok (next w) then Some (next w) else None).

Definition create_block_of (block_size : Z) : M World (option nat) :=
  if 0xFFFFFFFF <? block_size then mret None
  else
    mem ← malloc;
    match mem with
    | None => mret None
    | Some b =>
        if block_size <? sizeof_Block then undefined      (* Block() writes past the memory *)
        else
          let data_size := u32 (block_size - sizeof_Block) in
          _ ← set_block b (mkBlock 1 0 0 data_size (portal_next None)
                             (malloc_byte b <$> seq 0 (Z.to_nat data_size)) None);
          _ ← modify (add_blocks 1 (data_size + sizeof_Block));
          mret (Some b)
    end.

Definition create_block : M World (option nat) := create_block_of DEFAULT_BLOCK_SIZE.

(** The field u.portal_next; reading it in user data is undefined. *)
Definition portal_next_of (blk : Block) : M World (option nat) :=
  match u blk with portal_next n => mret n | data_meta _ => undefined end.

(** Loops over the cached blocks take at most one step per live block. *)
Definition chain_fuel (w : World) : nat := S (base.size (heap w)).

(** remove_tls_block_chain: the do-while loop, then the whole function. *)
Fixpoint remove_loop (fuel : nat) (b : nat) (n : Z) : M World Z :=
  match fuel with
  | O => undefined
  | S fuel =>
      blk ← block_at b;
      saved_next ← portal_next_of blk;
      _ ← dec_ref b;
      let n := i32 (n + 1) in
      match saved_next with Some b => remove_loop fuel b n | None => mret n end
  end.

Definition remove_tls_block_chain : M World () :=
  w ← get;
  match block_head (tls w) with
  | None => mret ()
  | Some b =>
      _ ← modify (set_tls (mkTLS None (num_blocks (tls w)) (registered (tls w))));
      n ← remove_loop (chain_fuel w) b 0;
      w ← get;
      if negb (n =? num_blocks (tls w)) then undefined     (* CHECK_EQ *)
      else modify (set_tls (mkTLS (block_head (tls w)) 0 (registered (tls w))))
  end.

(** share_tls_block: the loop that drops the full blocks at the head. *)
Fixpoint drop_full (fuel : nat) (b : option nat) : M World (option nat) :=
  match fuel with
  | O => undefined
  | S fuel =>
      match b with
      | None => mret None
      | Some b =>
          blk ← block_at b;
          if full blk then
            saved_next ← portal_next_of blk;
            _ ← dec_ref b;
            _ ← modify (fun w => set_tls (mkTLS (block_head (tls w))
                          (i32 (num_blocks (tls w) - 1)) (registered (tls w))) w);
            drop_full fuel saved_next
          else mret (Some b)
      end
  end.

Definition share_tls_block : M World (option nat) :=
  w ← get;
  let b := block_head (tls w) in
  head_full ← match b with
              | Some b => blk ← block_at b; mret (full blk)
              | None => mret true
              end;
  if negb head_full then mret b
  else
    new_block ← match b with
                | Some _ => drop_full (chain_fuel w) b
                | None =>
                    _ ← modify (set_tls (mkTLS None (num_blocks (tls w)) true));
                    mret None
                end;
    new_block ← match new_block with
                | Some b => mret (Some b)
                | None =>
                    nb ← create_block;
                    _ ← match nb with
                        | Some _ => modify (fun w => set_tls (mkTLS (block_head (tls w))
                              (i32 (num_blocks (tls w) + 1)) (registered (tls w))) w)
                        | None => mret ()
                        end;
                    mret nb
                end;
    _ ← modify (fun w => set_tls (mkTLS new_block (num_blocks (tls w))
                  (registered (tls w))) w);
    mret new_block.

Definition release_tls_block (b : option nat) : M World () :=
  match b with
  | None => mret ()
  | Some b =>
      w ← get;
      blk ← block_at b;
      if full blk then dec_ref b
      else if MAX_BLOCKS_PER_THREAD <=? num_blocks (tls w) then
        _ ← dec_ref b; modify (add_hit 1)
      else
        _ ← set_block b (with_u (portal_next (block_head (tls w))) blk);
        modify (set_tls (mkTLS (Some b) (i32 (num_blocks (tls w) + 1)) true))
  end.

(** acquire_tls_block: the loop over full blocks, the head being kept in the
    TLS data as it goes. *)
Fixpoint acquire_loop (fuel : nat) (b : nat) : M World (option nat) :=
  match fuel with
  | O => undefined
  | S fuel =>
      blk ← block_at b;
      saved_next ← portal_next_of blk;
      if full blk then
        _ ← dec_ref b;
        _ ← modify (fun w => set_tls (mkTLS saved_next
                      (i32 (num_blocks (tls w) - 1)) (registered (tls w))) w);
        match saved_next with Some b => acquire_loop fuel b | None => create_block end
      else
        _ ← modify (fun w => set_tls (mkTLS saved_next
                      (i32 (num_blocks (tls w) - 1)) (registered (tls w))) w);
        _ ← set_block b (with_u (portal_next None) blk);
        mret (Some b)
  end.

Definition acquire_tls_block : M World (option nat) :=
  w ← get;
  match block_head (tls w) with
  | None => create_block
  | Some b => acquire_loop (chain_fuel w) b
  end.

(** release_tls_block_chain: give up the blocks, or walk to the last one. *)
Fixpoint give_up_loop (fuel : nat) (b : nat) (n : Z) : M World Z :=
  match fuel with
  | O => undefined
  | S fuel =>
      blk ← block_at b;
      saved_next ← portal_next_of blk;
      _ ← dec_ref b;
      match saved_next with
      | Some b => give_up_loop fuel b (n + 1)
      | None => mret (n + 1)
      end
  end.

Fixpoint last_loop (fuel : nat) (b : nat) (n : Z) : M World (nat * Z) :=
  match fuel with
  | O => undefined
  | S fuel =>
      blk ← block_at b;
      if full blk then undefined                            (* CHECK(!b->full()) *)
      else
        next ← portal_next_of blk;
        match next with
        | None => mret (b, n + 1)
        | Some b => last_loop fuel b (n + 1)
        end
  end.

Definition release_tls_block_chain (b : nat) : M World () :=
  w ← get;
  if MAX_BLOCKS_PER_THREAD <=? num_blocks (tls w) then
    n ← give_up_loop (chain_fuel w) b 0;
    modify (add_hit n)
  else
    '(last_b, n) ← last_loop (chain_fuel w) b 0;
    blk ← block_at last_b;
    _ ← set_block last_b (with_u (portal_next (block_head (tls w))) blk);
    modify (set_tls (mkTLS (Some b) (i32 (num_blocks (tls w) + n)) true)).
End Blocks.

(** ** Well-formed blocks and the ownership invariant *)

Record wf_block (blk : Block) : Prop := mkWfBlock {
  wf_flags : flags blk = 0 /\ (exists n, u blk = portal_next n) \/
             flags blk = 1 /\ (exists m, u blk = data_meta m);
  wf_size : 0 <= size blk <= cap blk;
  wf_cap : cap blk < 2 ^ 31;
  wf_ordinary : flags blk = 0 -> cap blk <= 2 ^ 30;
  wf_data : zlen (data blk) = cap blk }.

(** Every live block is counted once per reference in [R], dead blocks are not
    referenced. *)
Definition refs_ok (h : gmap nat Block) (R : list nat) : Prop :=
  forall b, match h !! b with
            | Some blk => nshared blk = cnt b R /\ 0 < cnt b R /\ wf_block blk
            | None => cnt b R = 0
            end.

(** The chain of cached blocks, all of them ordinary blocks. *)
Fixpoint is_chain (h : gmap nat Block) (hd : option nat) (c : list nat) : Prop :=
  match c with
  | [] => hd = None
  | b :: c => hd = Some b /\ exists blk n,
      h !! b = Some blk /\ flags blk = 0 /\ u blk = portal_next n /\ is_chain h n c
  end.

Definition ordinary (h : gmap nat Block) : gmap nat Block :=
  filter (fun kv => flags kv.2 = 0) h.

(** The invariant for a chain that starts at [hd]: the cache between two calls
    starts at the head kept in the TLS data. *)
Record Inv_at (w : World) (hd : option nat) (c O : list nat) : Prop := mkInv {
  inv_chain : is_chain (heap w) hd c;
  inv_refs : refs_ok (heap w) (c ++ O);
  inv_next : forall b, is_Some (heap w !! b) -> (b < next w)%nat;
  inv_nblock : g_nblock w = u64 (Z.of_nat (base.size (ordinary (heap w)))) }.

Definition Inv (w : World) (O : list nat) : Prop :=
  exists c, Inv_at w (block_head (tls w)) c O /\ num_blocks (tls w) = i32 (zlen c).

(** What no operation changes: the written bytes of a block that lives on. *)
Record blk_le (x y : Block) : Prop := mkBlkLe {
  le_flags : flags x = flags y;
  le_cap : cap x = cap y;
  le_size : size x <= size y;
  le_data : slice 0 (size x) (data x) = slice 0 (size x) (data y) }.

Record wle (w w' : World) : Prop := mkWle {
  wle_next : (next w <= next w')%nat;
  wle_heap : forall b, (b < next w)%nat ->
    match heap w !! b, heap w' !! b with
    | None, Some _ => False
    | Some x, Some y => blk_le x y
    | _, _ => True
    end }.
Infix "≼" := wle (at level 70).

Lemma blk_le_refl x : blk_le x x.
Proof. by split. Qed.

#[global] Instance blk_le_trans : Transitive blk_le.
Proof.
  intros x y z [F1 C1 S1 D1] [F2 C2 S2 D2]. split; try congruence; [lia|].
  rewrite D1. unfold slice in *. cbn [Z.to_nat] in *. rewrite !drop_0 in *.
  replace (take (Z.to_nat (size x)) (data y))
    with (take (Z.to_nat (size x)) (take (Z.to_nat (size y)) (data y)))
    by (rewrite take_take; f_equal; lia).
  rewrite D2, take_take. f_equal. lia.
Qed.

#[global] Instance wle_preorder : PreOrder wle.
Proof.
  split.
  - intros w. split; [done|]. intros b _. destruct (heap w !! b); [apply blk_le_refl|done].
  - intros w1 w2 w3 [N1 H1] [N2 H2]. split; [lia|]. intros b Hb.
    specialize (H1 b Hb). specialize (H2 b ltac:(lia)).
    destruct (heap w1 !! b), (heap w2 !! b), (heap w3 !! b); try done.
    by etrans.
Qed.

(** Worlds with the same heap are indistinguishable for [≼]. *)
Lemma wle_same_heap w w' : heap w' = heap w -> (next w <= next w')%nat -> w ≼ w'.
Proof.
  intros E N. split; [done|]. intros b _. rewrite E.
  destruct (heap w !! b); [apply blk_le_refl|done].
Qed.

(** Replacing one block by a later version of it. *)
Lemma wle_insert w w' b x y :
  heap w !! b = Some x -> heap w' = <[b := y]> (heap w) -> next w' = next w ->
  blk_le x y -> w ≼ w'.
Proof.
  intros Hx E N L. split; [lia|]. intros b' _. rewrite E.
  destruct (decide (b = b')) as [<-|Hne].
  - by rewrite Hx, lookup_insert_eq.
  - rewrite lookup_insert_ne by done. destruct (heap w !! b'); [apply blk_le_refl|done].
Qed.

Lemma wle_delete w w' b :
  heap w' = delete b (heap w) -> next w' = next w -> w ≼ w'.
Proof.
  intros E N. split; [lia|]. intros b' _. rewrite E.
  destruct (decide (b = b')) as [<-|Hne].
  - rewrite lookup_delete_eq. by destruct (heap w !! b).
  - rewrite lookup_delete_ne by done. destruct (heap w !! b'); [apply blk_le_refl|done].
Qed.

#[global] Instance refs_ok_Permutation h : Proper ((≡ₚ) ==> iff) (refs_ok h).
Proof.
  intros R1 R2 HR. unfold refs_ok.
  split; intros H b; specialize (H b); pose proof (cnt_Permutation b _ _ HR) as E;
    [by rewrite <-E|by rewrite E].
Qed.

#[global] Instance Inv_at_Permutation w hd c : Proper ((≡ₚ) ==> iff) (Inv_at w hd c).
Proof.
  intros O1 O2 HO. split; intros [H1 H2 H3 H4]; split; try done;
    [by rewrite <-HO|by rewrite HO].
Qed.

#[global] Instance Inv_Permutation w : Proper ((≡ₚ) ==> iff) (Inv w).
Proof.
  intros O1 O2 HO. unfold Inv. by setoid_rewrite HO.
Qed.

(** A referenced block is alive. *)
Lemma refs_ok_live h R b :
  refs_ok h R -> b ∈ R ->
  exists blk, h !! b = Some blk /\ wf_block blk /\ nshared blk = cnt b R.
Proof.
  intros H Hb%cnt_pos. specialize (H b). destruct (h !! b) as [blk|]; [|lia].
  exists blk. naive_solver.
Qed.

Lemma refs_ok_next h R b : refs_ok h R -> h !! b = None -> b ∉ R.
Proof. intros H E Hb%cnt_pos. specialize (H b). rewrite E in H. lia. Qed.

(** The chain is insensitive to changes outside of it, and inside of it to
    changes of anything but the flags and the link. *)
Lemma is_chain_mono h h' hd c :
  is_chain h hd c ->
  (forall b x, b ∈ c -> h !! b = Some x ->
     exists y, h' !! b = Some y /\ flags y = flags x /\ u y = u x) ->
  is_chain h' hd c.
Proof.
  revert hd. induction c as [|b c IH]; intros hd; cbn; [done|].
  intros [-> (blk & n & Hb & Hf & Hu & Hc)] Hs. split; [done|].
  destruct (Hs b blk) as (y & Hy & Hfy & Huy); [set_solver|done|].
  exists y, n. split; [done|]. split; [congruence|]. split; [congruence|].
  apply IH; [done|]. intros b' x Hb' Hx. apply Hs; [set_solver|done].
Qed.

Lemma ordinary_insert_same h b x y :
  h !! b = Some x -> flags y = flags x ->
  base.size (ordinary (<[b := y]> h)) = base.size (ordinary h).
Proof.
  intros Hx Hf. unfold ordinary. destruct (decide (flags x = 0)) as [E|E].
  - rewrite map_filter_insert_True by (cbn; congruence).
    apply map_size_insert_Some. exists x. apply map_lookup_filter_Some. done.
  - rewrite map_filter_insert_False by (cbn; congruence).
    rewrite map_filter_delete. f_equal. apply delete_id.
    apply map_lookup_filter_None. right. intros x' Hx'. cbn. congruence.
Qed.

Lemma ordinary_delete h b x :
  h !! b = Some x ->
  Z.of_nat (base.size (ordinary (delete b h))) =
    Z.of_nat (base.size (ordinary h)) - (if decide (flags x = 0) then 1 else 0).
Proof.
  intros Hx. unfold ordinary. rewrite map_filter_delete.
  destruct (decide (flags x = 0)) as [E|E].
  - assert (is_Some (filter (fun kv : nat * Block => flags kv.2 = 0) h !! b)) as Hs.
    { exists x. by apply map_lookup_filter_Some. }
    rewrite map_size_delete_Some by done.
    assert (base.size (filter (fun kv : nat * Block => flags kv.2 = 0) h) <> 0%nat).
    { rewrite map_size_non_empty_iff. intros E0. rewrite E0 in Hs.
      by destruct Hs as [? ?]. }
    lia.
  - rewrite delete_id; [lia|]. apply map_lookup_filter_None. right.
    intros x' Hx'. cbn. congruence.
Qed.

Lemma ordinary_insert_new h b x :
  h !! b = None ->
  base.size (ordinary (<[b := x]> h)) =
    (base.size (ordinary h) + (if decide (flags x = 0%Z) then 1 else 0))%nat.
Proof.
  intros Hx. unfold ordinary. destruct (decide (flags x = 0)) as [E|E].
  - rewrite map_filter_insert_True by done. rewrite map_size_insert_None; [lia|].
    apply map_lookup_filter_None. by left.
  - rewrite map_filter_insert_False by done.
    rewrite map_filter_delete, delete_id; [lia|]. apply map_lookup_filter_None. by left.
Qed.

(** ** inc_ref and dec_ref *)

(** Two worlds that differ in the heap and the counters only. *)
Definition same_tls (w w' : World) : Prop := tls w' = tls w /\ next w' = next w.

Lemma inc_ref_heap w b blk R :
  refs_ok (heap w) R -> heap w !! b = Some blk ->
  inc_ref b w = Some ((), set_heap (<[b := with_nshared (nshared blk + 1) blk]> (heap w)) w) /\
  refs_ok (<[b := with_nshared (nshared blk + 1) blk]> (heap w)) (b :: R).
Proof.
  intros HR Hb. split.
  { unfold inc_ref, block_at, set_block. run. by rewrite Hb. }
  intros b'. rewrite cnt_cons. specialize (HR b').
  destruct (decide (b = b')) as [<-|Hne].
  - rewrite lookup_insert_eq. rewrite Hb in HR. cbn.
    destruct HR as (? & ? & []). split; [lia|]. split; [lia|]. by split.
  - rewrite lookup_insert_ne by done.
    destruct (heap w !! b'); [|lia]. destruct HR as (? & ? & ?). split_and!; [lia|lia|done].
Qed.

(** A later version of a block, linked as before. *)
Lemma Inv_at_set w hd c O b x y O' :
  Inv_at w hd c O -> heap w !! b = Some x -> flags y = flags x -> u y = u x ->
  refs_ok (<[b := y]> (heap w)) (c ++ O') ->
  Inv_at (set_heap (<[b := y]> (heap w)) w) hd c O'.
Proof.
  intros [H1 H3 H4 H5] Hx Hf Hu HR. split; cbn; try done.
  - eapply is_chain_mono; [done|]. intros b' z _ Hz.
    destruct (decide (b = b')) as [<-|Hne].
    + rewrite lookup_insert_eq. eexists; split; [done|]. by simplify_eq.
    + rewrite lookup_insert_ne by done. eauto.
  - intros b' Hb'. apply H4. destruct (decide (b = b')) as [<-|Hne]; [done|].
    by rewrite lookup_insert_ne in Hb'.
  - by rewrite (ordinary_insert_same _ _ x).
Qed.

(** Whatever is done to a block but its count, flags and link. *)
Lemma Inv_at_put w hd c O b x y :
  Inv_at w hd c O -> heap w !! b = Some x -> nshared y = nshared x -> flags y = flags x ->
  u y = u x -> wf_block y -> Inv_at (set_heap (<[b := y]> (heap w)) w) hd c O.
Proof.
  intros HI Hx En Ef Eu Hwf. eapply Inv_at_set; [done..|].
  pose proof (inv_refs _ _ _ _ HI) as HR. intros b'. specialize (HR b').
  destruct (decide (b = b')) as [<-|Hne].
  - rewrite lookup_insert_eq. rewrite Hx in HR. rewrite En. naive_solver.
  - by rewrite lookup_insert_ne.
Qed.

Lemma Inv_set_block w hd c O b x y O' :
  Inv_at w hd c O -> heap w !! b = Some x -> flags y = flags x -> u y = u x ->
  blk_le x y -> refs_ok (<[b := y]> (heap w)) (c ++ O') ->
  let w' := set_heap (<[b := y]> (heap w)) w in
  Inv_at w' hd c O' /\ w ≼ w' /\ same_tls w w'.
Proof.
  intros HI Hx Hf Hu Hle HR. split; [by eapply Inv_at_set|].
  split; [by eapply wle_insert|done].
Qed.

Lemma inc_ref_spec w hd c O b :
  Inv_at w hd c O -> b ∈ c ++ O ->
  exists w', inc_ref b w = Some ((), w') /\ Inv_at w' hd c (b :: O) /\ w ≼ w' /\
             same_tls w w'.
Proof.
  intros HI Hb. pose proof (inv_refs _ _ _ _ HI) as HR.
  destruct (refs_ok_live _ _ _ HR Hb) as (blk & Hblk & Hwf & Hn).
  destruct (inc_ref_heap w b blk _ HR Hblk) as [-> HR'].
  eexists; split; [done|].
  eapply Inv_set_block; [done|done|done|done|by split|].
  by rewrite <-Permutation_middle.
Qed.

(** dec_ref gives one reference up; the last one frees the block and, for user
    data, runs the deleter. *)
Lemma dec_ref_heap w b R :
  refs_ok (heap w) (b :: R) ->
  exists w', dec_ref b w = Some ((), w') /\ refs_ok (heap w') R /\ w ≼ w' /\
    same_tls w w' /\
    (forall b', b' ≠ b -> heap w' !! b' = heap w !! b') /\
    (b ∈ R -> exists x y, heap w !! b = Some x /\ heap w' !! b = Some y /\
                     y = with_nshared (nshared x - 1) x) /\
    (g_nblock w = u64 (Z.of_nat (base.size (ordinary (heap w)))) ->
     g_nblock w' = u64 (Z.of_nat (base.size (ordinary (heap w'))))) /\
    deleted w' = deleted w ++
      match heap w !! b with
      | Some x => if decide (flags x ≠ 0 /\ cnt b R = 0) then [deleter x] else []
      | None => []
      end.
Proof.
  intros HR. destruct (refs_ok_live _ _ b HR ltac:(set_solver)) as (x & Hx & Hwf & Hn).
  rewrite cnt_cons, decide_True in Hn by done. rewrite Hx.
  assert (forall h', (forall b', b' ≠ b -> h' !! b' = heap w !! b') ->
    match h' !! b with
    | Some blk => nshared blk = cnt b R /\ 0 < cnt b R /\ wf_block blk
    | None => cnt b R = 0 end -> refs_ok h' R) as Hrest.
  { intros h' Hsame Hb b'. destruct (decide (b' = b)) as [->|Hne]; [done|].
    rewrite Hsame by done. specialize (HR b'). rewrite cnt_cons, decide_False in HR by done.
    done. }
  pose proof (cnt_nonneg b R) as Hnn.
  unfold dec_ref, block_at, set_block. run. rewrite Hx. cbn beta iota.
  destruct (Z.eqb_spec (nshared x) 1) as [E1|E1].
  - assert (cnt b R = 0) as E0 by lia.
    assert (b ∉ R) as HbR by (rewrite <-cnt_pos; lia).
    assert (forall b', b' ≠ b -> delete b (heap w) !! b' = heap w !! b') as Hdel
      by (intros; by rewrite lookup_delete_ne).
    destruct (wf_flags _ Hwf) as [[F [n Hu]]|[F [m Hu]]]; rewrite F; cbn beta iota.
    + eexists; split; [done|]. cbn. split_and!; [| |done|done|done| |].
      * apply Hrest; [done|]. by rewrite lookup_delete_eq.
      * by eapply wle_delete.
      * intros ->. rewrite wrapu_add_l. f_equal.
        rewrite (ordinary_delete _ _ x) by done. rewrite decide_True by done. lia.
      * rewrite decide_False by naive_solver. by rewrite app_nil_r.
    + eexists; split; [done|]. cbn. split_and!; [| |done|done|done| |].
      * apply Hrest; [done|]. by rewrite lookup_delete_eq.
      * by eapply wle_delete.
      * intros ->. f_equal. rewrite (ordinary_delete _ _ x) by done.
        rewrite decide_False by lia. lia.
      * by rewrite decide_True by (split; [lia|done]).
  - assert (0 < cnt b R) as Hpos.
    { specialize (HR b). rewrite Hx, cnt_cons, decide_True in HR by done. lia. }
    eexists; split; [done|]. cbn. split_and!; [| |done| | | |].
    + apply Hrest; [intros; by rewrite lookup_insert_ne|].
      rewrite lookup_insert_eq. cbn. destruct Hwf. split_and!; [lia|lia|by split].
    + eapply wle_insert; [done|done|done|by split].
    + intros. by rewrite lookup_insert_ne.
    + intros _. exists x. rewrite lookup_insert_eq. eauto.
    + intros ->. by rewrite (ordinary_insert_same _ _ x).
    + rewrite decide_False by lia. by rewrite app_nil_r.
Qed.

Lemma dec_ref_spec w hd c O b :
  Inv_at w hd c (b :: O) ->
  exists w', dec_ref b w = Some ((), w') /\ Inv_at w' hd c O /\ w ≼ w' /\
             same_tls w w'.
Proof.
  intros [H1 H2 H3 H4]. rewrite <-Permutation_middle in H2.
  destruct (dec_ref_heap w b (c ++ O) H2)
    as (w' & E & HR & Hle & Hst & Hsame & Hin & Hnb & _).
  exists w'. split; [done|]. split; [|done]. split; [|done| |by apply Hnb].
  - eapply is_chain_mono; [done|]. intros b' x Hb' Hx.
    destruct (decide (b' = b)) as [->|Hne].
    + destruct Hin as (x' & y & Hx' & Hy & ->); [set_solver|].
      simplify_eq. eexists; split; [done|]. done.
    + rewrite Hsame by done. eauto.
  - intros b' Hb'. destruct Hst as [_ ->]. apply H3.
    destruct (decide (b' = b)) as [->|Hne]; [|by rewrite <-Hsame].
    destruct (refs_ok_live _ _ b H2 ltac:(set_solver)) as (x & -> & _). done.
Qed.

(** Operations that only move references: blocks may die, and of those that
    stay only the reference count changes. *)
Record quiet (w w' : World) : Prop := mkQuiet {
  quiet_tls : tls w' = tls w;
  quiet_next : next w' = next w;
  quiet_heap : forall b y, heap w' !! b = Some y ->
    exists x, heap w !! b = Some x /\ y = with_nshared (nshared y) x }.

#[global] Instance quiet_preorder : PreOrder quiet.
Proof.
  split.
  - intros w. split; [done|done|]. intros b y Hy. exists y. by destruct y.
  - intros w1 w2 w3 [T1 N1 H1] [T2 N2 H2]. split; [congruence|congruence|].
    intros b y Hy. destruct (H2 b y Hy) as (x & Hx & ->).
    destruct (H1 b x Hx) as (z & Hz & ->). by exists z.
Qed.

Lemma quiet_wle w w' : quiet w w' -> w ≼ w'.
Proof.
  intros [T N H]. split; [lia|]. intros b _.
  destruct (heap w' !! b) as [y|] eqn:Ey; [|by destruct (heap w !! b)].
  destruct (H b y Ey) as (x & -> & ->). by split.
Qed.

Lemma quiet_same_heap w w' :
  heap w' = heap w -> tls w' = tls w -> next w' = next w -> quiet w w'.
Proof. intros E T N. split; [done|done|]. rewrite E. intros b y Hy. exists y. by destruct y. Qed.

Lemma inc_ref_inv w O b :
  Inv w O -> is_Some (heap w !! b) ->
  exists w', inc_ref b w = Some ((), w') /\ Inv w' (b :: O) /\ quiet w w'.
Proof.
  intros (c & HI & Hn) [x Hx]. pose proof (inv_refs _ _ _ _ HI) as HR.
  destruct (inc_ref_heap w b x _ HR Hx) as [-> HR'].
  eexists; split; [done|]. rewrite Permutation_middle in HR'.
  destruct (Inv_set_block w (block_head (tls w)) c O b x
    (with_nshared (nshared x + 1) x) (b :: O)) as (HI' & _ & Ht); try done.
  split; [by exists c|]. split; [done|done|]. cbn. intros b' y Hy.
  destruct (decide (b = b')) as [<-|Hne].
  - rewrite lookup_insert_eq in Hy. simplify_eq. eauto.
  - rewrite lookup_insert_ne in Hy by done. exists y. by destruct y.
Qed.

Lemma dec_ref_inv w O b :
  Inv w (b :: O) ->
  exists w', dec_ref b w = Some ((), w') /\ Inv w' O /\ quiet w w'.
Proof.
  intros (c & HI & Hn).
  destruct (dec_ref_spec w _ c O b HI) as (w' & E & HI' & _ & [Ht Hnx]).
  exists w'. split; [done|]. split; [exists c; by rewrite Ht|]. split; [done|done|].
  pose proof (inv_refs _ _ _ _ HI) as HR. rewrite <-Permutation_middle in HR.
  destruct (dec_ref_heap w b (c ++ O) HR) as (w2 & E2 & HR2 & _ & _ & Hsame & Hb & _).
  rewrite E in E2. simplify_eq. intros b' y Hy.
  destruct (decide (b' = b)) as [->|Hne].
  - destruct Hb as (x & y' & Hx & Hy' & ->); [|simplify_eq; eauto].
    rewrite <-cnt_pos. specialize (HR2 b). rewrite Hy in HR2. lia.
  - rewrite Hsame in Hy by done. exists y. by destruct y.
Qed.

Lemma Inv_live w O b : Inv w O -> b ∈ O -> exists x, heap w !! b = Some x /\ wf_block x.
Proof.
  intros (c & HI & _) Hb. destruct (refs_ok_live _ _ b (inv_refs _ _ _ _ HI)) as (x & Hx & Hwf & _).
  - apply elem_of_app. by right.
  - eauto.
Qed.

(** The head of the chain changes hands. *)
Lemma Inv_at_pop w b c O :
  Inv_at w (Some b) (b :: c) O ->
  exists blk n, heap w !! b = Some blk /\ wf_block blk /\ flags blk = 0 /\
    u blk = portal_next n /\ Inv_at w n c (b :: O).
Proof.
  intros [(_ & blk & n & Hb & Hf & Hu & Hc) H2 H3 H4]. exists blk, n.
  pose proof (refs_ok_live _ _ b H2 ltac:(set_solver)) as (x & Hx & Hwf & _).
  simplify_eq. split_and!; try done. split; try done.
  by rewrite <-Permutation_middle.
Qed.

Lemma wf_with_u blk n :
  wf_block blk -> flags blk = 0 -> wf_block (with_u (portal_next n) blk).
Proof. intros [] F. split; cbn; [|done..]. left. eauto. Qed.

Lemma Inv_at_push w hd c O b blk :
  Inv_at w hd c (b :: O) -> heap w !! b = Some blk -> flags blk = 0 -> b ∉ c ->
  let w' := set_heap (<[b := with_u (portal_next hd) blk]> (heap w)) w in
  Inv_at w' (Some b) (b :: c) O /\ w ≼ w' /\ same_tls w w'.
Proof.
  intros [H1 H2 H3 H4] Hb Hf Hn. cbn. split; [|split; [|done]].
  - split; cbn.
    + split; [done|]. exists (with_u (portal_next hd) blk), hd.
      rewrite lookup_insert_eq. split_and!; [done..|].
      eapply is_chain_mono; [done|]. intros b' x Hb' Hx.
      rewrite lookup_insert_ne by set_solver. eauto.
    + rewrite <-Permutation_middle in H2. intros b'. specialize (H2 b').
      destruct (decide (b = b')) as [<-|Hne].
      * rewrite lookup_insert_eq. rewrite Hb in H2. cbn in *.
        destruct H2 as (? & ? & ?). split_and!; [done..|]. by apply wf_with_u.
      * by rewrite lookup_insert_ne.
    + intros b' Hb'. apply H3. destruct (decide (b = b')) as [<-|Hne]; [done|].
      by rewrite lookup_insert_ne in Hb'.
    + by rewrite (ordinary_insert_same _ _ blk).
  - eapply wle_insert; [done|done|done|]. by split.
Qed.

(** Changes of the TLS data and of the counters that track no block. *)
Lemma Inv_at_heap w w' hd c O :
  Inv_at w hd c O -> heap w' = heap w -> next w' = next w -> g_nblock w' = g_nblock w ->
  Inv_at w' hd c O.
Proof. intros [H1 H2 H3 H4] E1 E2 E3. split; rewrite ?E1, ?E2, ?E3; done. Qed.

Lemma Inv_same w w' O :
  Inv w O -> heap w' = heap w -> next w' = next w -> g_nblock w' = g_nblock w ->
  tls w' = tls w -> Inv w' O.
Proof. intros (c & HI & Hn) E1 E2 E3 E4. exists c. rewrite E4. by split; [eapply Inv_at_heap|]. Qed.

Lemma Inv_wf w O b x : Inv w O -> heap w !! b = Some x -> wf_block x.
Proof.
  intros (c & HI & _) Hx. pose proof (inv_refs _ _ _ _ HI b) as H.
  rewrite Hx in H. apply H.
Qed.

(** A block gets a later version: written, or grown. *)
Lemma Inv_update w O b x y :
  Inv w O -> heap w !! b = Some x -> nshared y = nshared x -> flags y = flags x ->
  u y = u x -> blk_le x y -> wf_block y ->
  let w' := set_heap (<[b := y]> (heap w)) w in
  Inv w' O /\ w ≼ w' /\ heap w' !! b = Some y.
Proof.
  intros (c & HI & Hn) Hx En Ef Eu Hle Hwf. split; [exists c; split; [by eapply Inv_at_put|done]|].
  split; [by eapply wle_insert|apply lookup_insert_eq].
Qed.

Lemma chain_head w hd c O :
  Inv_at w hd c O -> hd = head c.
Proof. intros [H1 _ _ _]. destruct c; cbn in H1; [done|]. by destruct H1 as [-> _]. Qed.

(** Members of a chain are alive and there is no repetition, so a loop over the
    chain has enough fuel. *)
Lemma is_chain_det h hd c1 c2 : is_chain h hd c1 -> is_chain h hd c2 -> c1 = c2.
Proof.
  revert hd c2. induction c1 as [|b c1 IH]; intros hd' [|b2 c2]; cbn; try naive_solver.
  intros [-> (x & n & Hx & _ & Hu & Hc)] [[= <-] (x2 & n2 & Hx2 & _ & Hu2 & Hc2)].
  simplify_eq. f_equal. rewrite Hu in Hu2. simplify_eq. eauto.
Qed.

Lemma is_chain_nodup h hd c : is_chain h hd c -> NoDup c.
Proof.
  assert (forall c1 hd b c2, is_chain h hd (c1 ++ b :: c2) -> is_chain h (Some b) (b :: c2))
    as Hsuf.
  { intros c1. induction c1 as [|a c1 IH]; intros hd' b c2; cbn.
    - intros [-> ?]. done.
    - intros [-> (x & n & _ & _ & _ & Hc)]. by apply IH in Hc. }
  revert hd. induction c as [|b c IH]; intros hd Hc; [constructor|].
  pose proof Hc as [Hhd (x & n & Hx & _ & _ & Hc')]. constructor; [|by eapply IH].
  intros (c1 & c2 & ->)%list_elem_of_split.
  pose proof (Hsuf _ _ _ _ Hc') as H1. subst hd.
  pose proof (is_chain_det _ _ _ _ Hc H1) as E. apply (f_equal length) in E.
  rewrite !length_cons, length_app, length_cons in E. lia.
Qed.

Lemma chain_fuel_enough w hd c O :
  Inv_at w hd c O -> (length c < chain_fuel w)%nat.
Proof.
  intros [H1 H2 _ _]. unfold chain_fuel.
  apply is_chain_nodup in H1.
  assert (list_to_set c ⊆ dom (heap w)) as Hsub.
  { intros b Hb%elem_of_list_to_set. apply elem_of_dom.
    destruct (refs_ok_live _ _ b H2 ltac:(set_solver)) as (x & -> & _). done. }
  apply subseteq_size in Hsub.
  rewrite size_list_to_set, size_dom in Hsub by done. lia.
Qed.

(** ** Allocation and the TLS cache *)

Section Specs.
Context `{Alloc}.

Lemma fresh_unused w hd c O : Inv_at w hd c O -> heap w !! next w = None.
Proof.
  intros [_ _ H3 _]. destruct (heap w !! next w) eqn:E; [|done].
  specialize (H3 (next w)). rewrite E in H3. specialize (H3 ltac:(done)). lia.
Qed.

(** Adding a new block, owned by the caller. *)
Lemma Inv_at_new w hd c O blk w' :
  Inv_at w hd c O -> wf_block blk -> nshared blk = 1 ->
  heap w' = <[next w := blk]> (heap w) -> next w' = S (next w) ->
  g_nblock w' = u64 (g_nblock w + (if decide (flags blk = 0) then 1 else 0)) ->
  Inv_at w' hd c (next w :: O) /\ w ≼ w' /\ next w ∉ c ++ O.
Proof.
  intros HI Hwf Hn Hh Hnx Hg. pose proof (fresh_unused _ _ _ _ HI) as Hfr.
  destruct HI as [H1 H2 H3 H4].
  pose proof (refs_ok_next _ _ _ H2 Hfr) as Hni.
  split; [|split; [|done]].
  - split.
    + eapply is_chain_mono; [done|]. intros b x Hb Hx.
      rewrite Hh, lookup_insert_ne; [eauto|]. intros <-. set_solver.
    + rewrite <-Permutation_middle, Hh. intros b. rewrite cnt_cons. specialize (H2 b).
      destruct (decide (next w = b)) as [<-|Hne].
      * rewrite lookup_insert_eq. rewrite Hfr in H2. split_and!; [lia|lia|done].
      * rewrite lookup_insert_ne by done. done.
    + intros b. rewrite Hh, Hnx. destruct (decide (next w = b)) as [<-|Hne]; [lia|].
      rewrite lookup_insert_ne by done. intros Hb. apply H3 in Hb. lia.
    + rewrite Hg, H4, Hh, wrapu_add_l. f_equal. rewrite ordinary_insert_new by done.
      destruct (decide _); lia.
  - split; [lia|]. intros b Hb. rewrite Hh, lookup_insert_ne by lia.
    destruct (heap w !! b); [apply blk_le_refl|done].
Qed.

Lemma create_block_of_spec w hd c O block_size :
  Inv_at w hd c O -> sizeof_Block <= block_size <= 2 ^ 30 ->
  exists p w', create_block_of block_size w = Some (p, w') /\ w ≼ w' /\ tls w' = tls w /\
    (p = None <-> (malloc_ok (next w) = false)) /\
    match p with
    | None => Inv_at w' hd c O
    | Some b => Inv_at w' hd c (b :: O) /\ (b ∉ c ++ O) /\
        exists blk, heap w' !! b = Some blk /\ flags blk = 0 /\ size blk = 0 /\
                    cap blk = block_size - sizeof_Block /\ u blk = portal_next None
    end.
Proof.
  intros HI Hsz. unfold create_block_of, malloc, set_block. run.
  rewrite (proj2 (Z.ltb_ge _ _)) by lia. run.
  unfold sizeof_Block in *.
  destruct (malloc_ok (next w)) eqn:Em.
  - rewrite (proj2 (Z.ltb_ge block_size _)) by lia. rewrite wrapu_small by lia. eexists _, _. split; [done|].
    match goal with |- w ≼ add_blocks _ _ (set_heap (<[_ := ?blk]> _) _) /\ _ =>
      set (x := blk) end.
    assert (wf_block x) as Hwf.
    { split; cbn; [left; eauto|lia|lia|lia|].
      unfold zlen. rewrite length_fmap, length_seq. lia. }
    match goal with |- w ≼ ?w' /\ _ =>
      destruct (Inv_at_new w hd c O x w' HI Hwf eq_refl eq_refl eq_refl eq_refl)
        as (HI' & Hle & Hni) end.
    split; [exact Hle|]. split; [done|]. split; [by split|].
    split; [exact HI'|]. split; [done|]. cbn.
    rewrite lookup_insert_eq. eexists; split; [done|]. done.
  - eexists _, _. split; [done|]. cbn. split; [|split; [done|split; [by split|]]].
    + apply wle_same_heap; cbn; [done|lia].
    + destruct HI as [H1 H2 H3 H4]. split; cbn; try done.
      intros b Hb%H3. lia.
Qed.

Lemma Inv_at_tls w t hd c O : Inv_at w hd c O -> Inv_at (set_tls t w) hd c O.
Proof. intros. by eapply Inv_at_heap. Qed.

(** A block that can be appended to. *)
Definition writable (w : World) (b : nat) : Prop :=
  exists blk, heap w !! b = Some blk /\ flags blk = 0 /\ size blk < cap blk.

Lemma full_false blk : full blk = false <-> size blk < cap blk.
Proof. unfold full. lia. Qed.

Lemma drop_full_spec fuel w hd c O :
  Inv_at w hd c O -> num_blocks (tls w) = i32 (zlen c) -> (length c < fuel)%nat ->
  exists c' w', drop_full fuel hd w = Some (head c', w') /\
    Inv_at w' (head c') c' O /\ num_blocks (tls w') = i32 (zlen c') /\ w ≼ w' /\
    from_option (writable w') True (head c').
Proof.
  revert w hd c. induction fuel as [|fuel IH]; intros w hd c HI Hn Hf; [lia|].
  pose proof (chain_head _ _ _ _ HI) as ->. cbn [drop_full].
  destruct c as [|b c]; cbn [head].
  { exists [], w. by split_and!. }
  destruct (Inv_at_pop w b c O HI) as (blk & n & Hb & Hwf & Hfl & Hu & HI').
  unfold block_at at 1. run. rewrite Hb. cbn beta iota.
  destruct (full blk) eqn:Efull.
  - unfold portal_next_of. rewrite Hu. run.
    destruct (dec_ref_spec w n c O b HI') as (w1 & E & HI1 & Hle & [Htls _]).
    rewrite E. cbn beta iota.
    set (w2 := set_tls _ w1).
    destruct (IH w2 n c) as (c' & w' & E' & HI2 & Hn' & Hle' & Hw).
    + by apply Inv_at_tls.
    + subst w2. cbn. rewrite Htls, Hn, zlen_cons.
      rewrite <-Z.add_opp_r, wraps_add_l. f_equal. lia.
    + cbn in Hf. lia.
    + exists c', w'. split; [exact E'|]. split_and!; try done.
      etrans; [exact Hle|]. etrans; [|exact Hle']. by apply wle_same_heap.
  - exists (b :: c), w. split_and!; try done. exists blk. by rewrite <-full_false.
Qed.

Lemma share_tls_block_spec w O :
  Inv w O ->
  exists p w', share_tls_block w = Some (p, w') /\ Inv w' O /\ w ≼ w' /\
    match p with
    | Some b => block_head (tls w') = Some b /\ writable w' b
    | None => exists n, malloc_ok n = false
    end.
Proof.
  intros (c & HI & Hn). unfold share_tls_block. run.
  pose proof (chain_head _ _ _ _ HI) as Ehd.
  (* what remains when no usable block is cached *)
  assert (forall w1, Inv_at w1 None [] O -> num_blocks (tls w1) = 0 -> w ≼ w1 ->
    exists p w', (nb' ← (nb ← create_block;
                  _ ← match nb with
                        | Some _ => modify (fun w => set_tls (mkTLS (block_head (tls w))
                              (i32 (num_blocks (tls w) + 1)) (registered (tls w))) w)
                        | None => mret ()
                        end; mret nb);
                  _ ← modify (fun w => set_tls (mkTLS nb' (num_blocks (tls w))
                        (registered (tls w))) w); mret nb') w1 = Some (p, w') /\
      Inv w' O /\ w ≼ w' /\
      match p with
      | Some b => block_head (tls w') = Some b /\ writable w' b
      | None => exists n, malloc_ok n = false
      end) as Hnew.
  { intros w1 HI1 Hn1 Hle1.
    destruct (create_block_of_spec w1 None [] O DEFAULT_BLOCK_SIZE HI1)
      as (p & w2 & E & Hle & Ht & Hm & Hp); [by vm_compute|].
    unfold create_block. run. rewrite E. destruct p as [b|]; cbn beta iota.
    - destruct Hp as (HI2 & Hni & blk & Hb & Hfl & Hs & Hc & Hu).
      eexists _, _. split; [done|]. cbn.
      split; [|split; [etrans; [done|]; etrans; [done|]; by apply wle_same_heap|]].
      + exists [b]. cbn. split; [|by rewrite Ht, Hn1].
        destruct HI2 as [_ R2 R3 R4]. split; try done.
        cbn. split; [done|]. exists blk, None. done.
      + split; [done|]. exists blk. cbn. rewrite Hs, Hc. by vm_compute.
    - eexists _, _. split; [done|]. cbn.
      split; [|split; [etrans; [done|]; etrans; [done|]; by apply wle_same_heap|]].
      + exists []. cbn. rewrite Ht, Hn1. split; [|done]. by eapply Inv_at_heap.
      + exists (next w1). by apply Hm. }
  destruct c as [|b c]; cbn in Ehd; rewrite Ehd.
  - cbn [negb]. run. rewrite Ehd in HI. apply Hnew; [by apply Inv_at_tls|done|].
    by apply wle_same_heap.
  - destruct (Inv_at_pop w b c O) as (blk & n & Hb & Hwf & Hfl & Hu & _);
      [by rewrite <-Ehd|].
    unfold block_at at 1. run. rewrite Hb. cbn beta iota.
    destruct (full blk) eqn:Efull; cbn [negb].
    + rewrite Ehd in HI.
      destruct (drop_full_spec (chain_fuel w) w _ _ _ HI Hn (chain_fuel_enough _ _ _ _ HI))
        as (c' & w1 & E & HI1 & Hn1 & Hle1 & Hw1).
      rewrite E. destruct c' as [|b' c']; cbn [head] in *.
      * by apply Hnew.
      * run. eexists _, _. split; [done|]. cbn.
        split; [|split; [etrans; [done|]; by apply wle_same_heap|done]].
        exists (b' :: c'). split; [by apply Inv_at_tls|done].
    + exists (Some b), w. split; [done|]. split; [by exists (b :: c)|].
      split; [done|]. split; [done|]. exists blk. by rewrite <-full_false.
Qed.

(** acquire_tls_block hands a writable block, which is in no cache, to the
    caller. *)
(** What dec_ref and create_block do not touch. *)
Lemma dec_ref_frame b w w' b' :
  dec_ref b w = Some ((), w') -> b' <> b -> heap w' !! b' = heap w !! b'.
Proof.
  unfold dec_ref, block_at, set_block. run. intros E Hne. destruct (heap w !! b) as [x|]; [|done].
  repeat (case_match; try done); injection E as <-; cbn;
    by rewrite ?lookup_delete_ne, ?lookup_insert_ne by done.
Qed.

Lemma create_block_frame n w p w' b' :
  create_block_of n w = Some (p, w') -> p <> Some b' -> heap w' !! b' = heap w !! b'.
Proof.
  unfold create_block_of, malloc, set_block. run. intros E Hne. destruct (_ <? n); [by simplify_eq|].
  destruct (malloc_ok (next w)); [|by simplify_eq]. destruct (n <? _); [done|].
  injection E as <- <-. cbn. rewrite lookup_insert_ne; [done|]. congruence.
Qed.

(** What acquiring a block does to the cache [c]: a suffix [c'] of it is left,
    and the block [p] is one that was in it or a new one, with no next block. *)
Record acquired (w : World) (c O : list nat) (p : option nat) (w' : World) : Prop := mkAcquired {
  acq_le : w ≼ w';
  acq_inv : exists c', Inv_at w' (block_head (tls w')) c' (option_list p ++ O) /\
    num_blocks (tls w') = i32 (zlen c') /\ c' ⊆ c /\ (forall b, p = Some b -> b ∉ c');
  acq_frame : forall b, b ∉ c -> p <> Some b -> heap w' !! b = heap w !! b;
  acq_block : match p with
    | None => exists n, malloc_ok n = false
    | Some b => (b ∈ c \/ heap w !! b = None) /\
        exists x, heap w' !! b = Some x /\ flags x = 0 /\ size x < cap x /\ u x = portal_next None
    end }.

(** The cache is empty: a new block. *)
Lemma create_acquired w O :
  Inv_at w None [] O -> block_head (tls w) = None -> num_blocks (tls w) = 0 ->
  exists p w', create_block w = Some (p, w') /\ acquired w [] O p w'.
Proof.
  intros HI Ehd Hn. destruct (create_block_of_spec w None [] O DEFAULT_BLOCK_SIZE HI)
    as (p & w1 & E & Hle & Ht & Hm & Hp); [by vm_compute|].
  unfold create_block. exists p, w1. split; [done|]. split; [done| | |].
  - exists []. rewrite Ht, Ehd, Hn. destruct p as [b|]; cbn [option_list app].
    + destruct Hp as (HI1 & _). split_and!; try done. intros. apply not_elem_of_nil.
    + by split_and!.
  - intros b _. by eapply create_block_frame.
  - destruct p as [b|]; [|exists (next w); by apply Hm].
    destruct Hp as (_ & Hni & x & Hx & Hfx & Hsx & Hcx & Hu). split.
    + right. destruct (heap w !! b) as [y|] eqn:Ey; [|done]. exfalso.
      pose proof (inv_refs _ _ _ _ HI b) as Hr. rewrite Ey in Hr. destruct Hr as (_ & Hr%cnt_pos & _).
      set_solver.
    + exists x. rewrite Hsx, Hcx. by vm_compute.
Qed.

(** After a step on the head of the cache only. *)
Lemma acquired_step w w2 b c O p w' :
  acquired w2 c O p w' -> w ≼ w2 -> (forall b', b' <> b -> heap w2 !! b' = heap w !! b') ->
  (forall b', heap w2 !! b' = None -> b' ∈ b :: c \/ heap w !! b' = None) ->
  acquired w (b :: c) O p w'.
Proof.
  intros [Hle (c' & HI & Hn & Hsub & Hni) Hfr Hb] Hle2 Hfr2 Hnone. split.
  - by etrans.
  - exists c'. split_and!; try done. set_solver.
  - intros b' Hb' Hp. rewrite Hfr, Hfr2 by set_solver. done.
  - destruct p as [b'|]; [|done]. destruct Hb as [Hb Hx]. split; [|done].
    destruct Hb as [Hb|Hb]; [left; set_solver|by apply Hnone].
Qed.

Lemma acquire_loop_spec fuel w b c O :
  Inv_at w (Some b) (b :: c) O -> block_head (tls w) = Some b ->
  num_blocks (tls w) = i32 (zlen (b :: c)) -> (List.length c < fuel)%nat ->
  exists p w', acquire_loop fuel b w = Some (p, w') /\ acquired w (b :: c) O p w'.
Proof.
  revert w b c. induction fuel as [|fuel IH]; intros w b c HI Hhd Hnb Hf; [lia|].
  cbn [acquire_loop].
  destruct (Inv_at_pop w b c O HI) as (blk & n & Hb & Hwf & Hfl & Hu & HI').
  assert (NoDup (b :: c)) as Hnd by (eapply is_chain_nodup, (inv_chain _ _ _ _ HI)).
  apply NoDup_cons in Hnd as [Hnotin _].
  assert (i32 (num_blocks (tls w) - 1) = i32 (zlen c)) as Hdec.
  { rewrite Hnb, zlen_cons, <-Z.add_opp_r, wraps_add_l. f_equal. lia. }
  unfold block_at at 1, portal_next_of. run. rewrite Hb. cbn beta iota. rewrite Hu. cbn beta iota.
  destruct (full blk) eqn:Efull.
  - destruct (dec_ref_spec w n c O b HI') as (w1 & E & HI1 & Hle & [Ht _]).
    run. rewrite E. cbn beta iota. rewrite Ht, Hdec.
    set (w2 := set_tls _ w1).
    assert (Inv_at w2 n c O) as HI2 by by apply Inv_at_tls.
    assert (w ≼ w2) as Hle2 by (etrans; [done|]; by apply wle_same_heap).
    assert (forall b', b' <> b -> heap w2 !! b' = heap w !! b') as Hfr 
      by (intros b0 H0; exact (dec_ref_frame b w w1 b0 E H0)).
    pose proof (chain_head _ _ _ _ HI2) as Ehd. destruct c as [|b' c]; cbn in Ehd; subst n.
    + destruct (create_acquired w2 O HI2) as (p & w3 & E3 & Ha); [done|done|].
      exists p, w3. split; [done|]. eapply acquired_step; try done.
      intros b0 H0. destruct (decide (b0 = b)) as [->|]; [left; by left|right; by rewrite <-Hfr].
    + destruct (IH w2 b' c) as (p & w3 & E3 & Ha); try done; [cbn in Hf; lia|].
      exists p, w3. split; [done|]. eapply acquired_step; try done.
      intros b0 H0. destruct (decide (b0 = b)) as [->|]; [left; by left|right; by rewrite <-Hfr].
  - run. rewrite Hdec. unfold set_block, modify.
    eexists _, _. split; [done|]. cbn. split.
    + eapply (wle_insert _ _ b blk); try done.
    + exists c. split; [|split; [done|split; [set_solver|by intros ? [= <-]]]].
      destruct (Inv_at_heap w (set_tls (mkTLS n (i32 (zlen c)) (registered (tls w))) w) n c
          (b :: O) HI') as [J1 J2 J3 J4]; try done.
      cbn in J1, J2, J3, J4. split; cbn; try done.
      * eapply is_chain_mono; [done|]. intros b' x Hb' Hx.
        rewrite lookup_insert_ne by set_solver. eauto.
      * intros b'. specialize (J2 b'). destruct (decide (b = b')) as [<-|Hne].
        -- rewrite lookup_insert_eq. rewrite Hb in J2. cbn.
           destruct J2 as (? & ? & ?). split_and!; try done. by apply wf_with_u.
        -- by rewrite lookup_insert_ne.
      * intros b' Hb'. apply J3. destruct (decide (b = b')) as [<-|Hne]; [done|].
        by rewrite lookup_insert_ne in Hb'.
      * by rewrite (ordinary_insert_same _ _ blk).
    + intros b' Hb' _. cbn. by rewrite lookup_insert_ne by set_solver.
    + split; [left; by left|]. exists (with_u (portal_next None) blk). cbn. rewrite lookup_insert_eq.
      split; [done|]. split; [done|]. split; [by apply full_false|done].
Qed.

Lemma acquire_tls_block_acquired w c O :
  Inv_at w (block_head (tls w)) c O -> num_blocks (tls w) = i32 (zlen c) ->
  exists p w', acquire_tls_block w = Some (p, w') /\ acquired w c O p w'.
Proof.
  intros HI Hn. unfold acquire_tls_block. run.
  pose proof (chain_head _ _ _ _ HI) as Ehd. destruct c as [|b c]; cbn in Ehd; rewrite Ehd in HI |- *.
  - by apply create_acquired.
  - apply acquire_loop_spec; try done. pose proof (chain_fuel_enough _ _ _ _ HI) as Hf. cbn in Hf. lia.
Qed.

(** The world after [b] was handed out: it is not in the cache. *)
Definition uncached (w : World) (b : nat) (O : list nat) : Prop :=
  exists c, Inv_at w (block_head (tls w)) c (b :: O) /\ num_blocks (tls w) = i32 (zlen c) /\ (b ∉ c).

Lemma acquire_tls_block_spec w O :
  Inv w O ->
  exists p w', acquire_tls_block w = Some (p, w') /\ w ≼ w' /\
    match p with
    | None => Inv w' O /\ exists n, malloc_ok n = false
    | Some b => uncached w' b O /\ writable w' b
    end.
Proof.
  intros (c & HI & Hn). destruct (acquire_tls_block_acquired w c O HI Hn) as (p & w' & E & Ha).
  exists p, w'. split; [done|]. destruct Ha as [Hle (c' & HI' & Hn' & _ & Hni) _ Hb]. split; [done|].
  destruct p as [b|]; cbn in HI'.
  - destruct Hb as (_ & x & Hx & Hf & Hs & _). split; [exists c'; split_and!; try done; by apply Hni|by exists x].
  - split; [by exists c'|done].
Qed.

(** release_tls_block takes the reference back: into the cache, or away. *)
Lemma release_tls_block_spec w b O x :
  uncached w b O -> heap w !! b = Some x -> flags x = 0 ->
  exists w', release_tls_block (Some b) w = Some ((), w') /\ Inv w' O /\ w ≼ w'.
Proof.
  intros (c & HI & Hn & Hni) Hx Hfl. cbn [release_tls_block]. unfold block_at. run. rewrite Hx.
  cbn beta iota. destruct (dec_ref_spec w _ c O b HI) as (w1 & E & HI1 & Hle & [Ht _]).
  destruct (full x) eqn:Ef; [|destruct (Z.leb_spec MAX_BLOCKS_PER_THREAD (num_blocks (tls w)))].
  - exists w1. split; [done|]. split; [|done]. exists c. by rewrite Ht.
  - rewrite E. cbn beta iota. eexists; split; [done|]. split.
    + exists c. cbn. rewrite Ht. split; [|done]. by eapply Inv_at_heap.
    + etrans; [done|]. by apply wle_same_heap.
  - destruct (Inv_at_push w _ c O b x HI Hx Hfl Hni) as (HI2 & Hle2 & _).
    unfold set_block, modify. eexists; split; [done|]. split.
    + exists (b :: c). cbn. split; [by apply Inv_at_tls|].
      rewrite Hn, zlen_cons, wraps_add_l. f_equal. lia.
    + etrans; [done|]. by apply wle_same_heap.
Qed.

Lemma remove_loop_spec fuel w b c O k :
  Inv_at w (Some b) (b :: c) O -> (List.length c < fuel)%nat ->
  exists w', remove_loop fuel b (i32 k) w = Some (i32 (k + zlen (b :: c)), w') /\ Inv_at w' None [] O /\ w ≼ w' /\
             same_tls w w'.
Proof.
  revert w b c k. induction fuel as [|fuel IH]; intros w b c k HI Hf; [lia|]. cbn [remove_loop].
  destruct (Inv_at_pop w b c O HI) as (blk & n & Hb & Hwf & Hfl & Hu & HI').
  unfold block_at at 1, portal_next_of. run. rewrite Hb. cbn beta iota. rewrite Hu. cbn beta iota.
  destruct (dec_ref_spec w n c O b HI') as (w1 & E & HI1 & Hle & Ht).
  run. rewrite E. cbn beta iota zeta. rewrite wraps_add_l.
  pose proof (chain_head _ _ _ _ HI1) as Ehd. destruct c as [|b' c]; cbn in Ehd; subst n.
  - by exists w1.
  - destruct (IH w1 b' c (k + 1) HI1) as (w2 & E2 & HI2 & Hle2 & Ht2); [cbn in Hf; lia|].
    exists w2. rewrite zlen_cons. replace (k + (1 + zlen (b' :: c))) with (k + 1 + zlen (b' :: c)) by lia. split; [done|]. split; [done|]. split; [by etrans|].
    destruct Ht, Ht2. split; congruence.
Qed.

Lemma remove_tls_block_chain_spec w O :
  Inv w O ->
  exists w', remove_tls_block_chain w = Some ((), w') /\ w ≼ w' /\
    Inv_at w' None [] O /\ block_head (tls w') = None /\ num_blocks (tls w') = 0.
Proof.
  intros (c & HI & Hn). unfold remove_tls_block_chain. run.
  pose proof (chain_head _ _ _ _ HI) as Ehd. destruct c as [|b c]; cbn in Ehd; rewrite Ehd in *.
  - exists w. split; [done|]. split; [done|]. split; [done|]. split; [done|]. by rewrite Hn.
  - set (w1 := set_tls _ w). assert (Inv_at w1 (Some b) (b :: c) O) as HI1 by by apply Inv_at_tls.
    destruct (remove_loop_spec (chain_fuel w) w1 b c O 0 HI1) as (w2 & E & HI2 & Hle & [Ht _]).
    { pose proof (chain_fuel_enough _ _ _ _ HI) as Hf. cbn in Hf. lia. }
    change (i32 0) with 0 in E. rewrite E. run. rewrite Ht. cbn [w1 num_blocks tls set_tls].
    rewrite Hn, Z.add_0_l, Z.eqb_refl. cbn [negb]. eexists; split; [done|]. split.
    { etrans; [|etrans; [exact Hle|]]; by apply wle_same_heap. }
    cbn. split; [by apply Inv_at_tls|]. done.
Qed.

(** Nothing referenced, nothing cached: nothing is alive. *)
Lemma no_references w : Inv_at w None [] [] -> heap w = ∅ /\ g_nblock w = 0.
Proof.
  intros [_ HR _ Hg]. assert (heap w = ∅) as E.
  { apply map_empty. intros b. specialize (HR b). destruct (heap w !! b); [|done].
    destruct HR as (_ & Hp & _). by cbn in Hp. }
  split; [done|]. rewrite Hg, E. done.
Qed.
End Specs.

End IOBlock.
