(* ===== verification/IOBufRef.v ===== *)
(** * IOBufRef: the queue of block references inside an IOBuf

    utility/iobuf.h and utility/iobuf.cc: an IOBuf is a union of a [SmallView]
    of at most two [BlockRef]s and a [BigView] that points to a growing ring
    buffer of them; [_small] reads the sign bit of the first word, which the
    two views share.  This file has the data and every operation on the queue
    of references, the representation predicate [rep] that relates an IOBuf to
    the list of its references, and for each operation a specification on that
    list together with its effect on the reference counts ([Inv]).

    The array behind a BigView is owned by one IOBuf, so it is part of its
    value; elements that were never written are [null_ref].  Reading the member
    of the union that is not active is undefined. *)

From S2P Require Import Prelude IOBlock.
Import IOBlock.

Module IOBufRef.

Record BlockRef := mkRef {
  ref_offset : Z;
  ref_length : Z;
  ref_block : option nat }.

Record BigView := mkBV {
  magic : Z;
  start : Z;
  refs : list BlockRef;
  nref : Z;
  cap_mask : Z;
  nbytes : Z }.

Inductive IOBuf :=
| SV (r0 r1 : BlockRef)
| BV (v : BigView).

Definition INITIAL_CAP := 32.

Definition null_ref : BlockRef := mkRef 0 0 None.

Definition bv_slot (v : BigView) (i : Z) : nat :=
  Z.to_nat (Z.land (u32 (start v + i)) (cap_mask v)).
Definition bv_ref_at (v : BigView) (i : Z) : option BlockRef := refs v !! bv_slot v i.
Definition capacity (v : BigView) : Z := u32 (cap_mask v + 1).

(** The constructor IOBuf(). *)
Definition new_IOBuf : IOBuf := SV null_ref null_ref.

Definition _small (buf : IOBuf) : bool :=
  match buf with
  | SV r0 _ => 0 <=? i32 (ref_offset r0)
  | BV v => 0 <=? magic v
  end.

(** The members [_sv] and [_bv] of the union. *)
Definition _sv (buf : IOBuf) : option (BlockRef * BlockRef) :=
  match buf with SV r0 r1 => Some (r0, r1) | BV _ => None end.
Definition _bv (buf : IOBuf) : option BigView :=
  match buf with SV _ _ => None | BV v => Some v end.

Definition not_null (r : BlockRef) : bool :=
  match ref_block r with Some _ => true | None => false end.
Definition Zb (b : bool) : Z := if b then 1 else 0.

Definition empty (buf : IOBuf) : option bool :=
  if _small buf then '(r0, _) ← _sv buf; Some (negb (not_null r0))
  else v ← _bv buf; Some (nbytes v =? 0).

Definition length (buf : IOBuf) : option Z :=
  if _small buf then '(r0, r1) ← _sv buf; Some (u32 (ref_length r0 + ref_length r1))
  else v ← _bv buf; Some (nbytes v).

Definition _ref_num (buf : IOBuf) : option Z :=
  if _small buf then '(r0, r1) ← _sv buf; Some (Zb (not_null r0) + Zb (not_null r1))
  else v ← _bv buf; Some (nref v).

Definition sv_at (r0 r1 : BlockRef) (i : Z) : option BlockRef :=
  if i =? 0 then Some r0 else if i =? 1 then Some r1 else None.

Definition _front_ref (buf : IOBuf) : option BlockRef :=
  if _small buf then '(r0, _) ← _sv buf; Some r0
  else v ← _bv buf; refs v !! Z.to_nat (start v).

Definition _back_ref (buf : IOBuf) : option BlockRef :=
  if _small buf then '(r0, r1) ← _sv buf; sv_at r0 r1 (Zb (not_null r1))
  else v ← _bv buf; bv_ref_at v (u32 (nref v - 1)).

Definition _ref_at (buf : IOBuf) (i : Z) : option BlockRef :=
  if _small buf then '(r0, r1) ← _sv buf; sv_at r0 r1 i
  else v ← _bv buf; bv_ref_at v (u32 i).

Definition _pref_at (buf : IOBuf) (i : Z) : option (option BlockRef) :=
  n ← _ref_num buf;
  if i <? n then Some <$> _ref_at buf i else Some None.

(** The condition under which a pushed reference extends the last one. *)
Definition adjacent (back r : BlockRef) : bool :=
  bool_decide (ref_block back = ref_block r) &&
  (u32 (ref_offset back + ref_length back) =? ref_offset r).
Definition extend (back r : BlockRef) : BlockRef :=
  mkRef (ref_offset back) (u32 (ref_length back + ref_length r)) (ref_block back).

Definition inc_ref_of (r : BlockRef) : M World () :=
  b ← deref (ref_block r); inc_ref b.
Definition dec_ref_of (r : BlockRef) : M World () :=
  b ← deref (ref_block r); dec_ref b.

Definition acquire_blockref_array (cap : Z) : M World (list BlockRef) :=
  _ ← modify add_newbigview; mret (replicate (Z.to_nat cap) null_ref).

(** new_refs[i] = r; out of bounds is undefined. *)
Definition set_ref (i : Z) (r : BlockRef) (l : list BlockRef) : M World (list BlockRef) :=
  if (0 <=? i) && (i <? zlen l) then mret (<[Z.to_nat i := r]> l) else undefined.

Definition _push_or_move_back_ref_to_smallview (MOVE : bool) (r : BlockRef) (buf : IOBuf)
    : M World IOBuf :=
  '(r0, r1) ← lift (_sv buf);
  if negb (not_null r0) then
    _ ← if MOVE then mret () else inc_ref_of r;
    mret (SV r r1)
  else if negb (not_null r1) then
    if adjacent r0 r then
      _ ← if MOVE then dec_ref_of r else mret ();
      mret (SV (extend r0 r) r1)
    else
      _ ← if MOVE then mret () else inc_ref_of r;
      mret (SV r0 r)
  else if adjacent r1 r then
    _ ← if MOVE then dec_ref_of r else mret ();
    mret (SV r0 (extend r1 r))
  else
    new_refs ← acquire_blockref_array INITIAL_CAP;
    new_refs ← set_ref 0 r0 new_refs;
    new_refs ← set_ref 1 r1 new_refs;
    new_refs ← set_ref 2 r new_refs;
    let new_nbytes := u32 (ref_length r0 + ref_length r1 + ref_length r) in
    _ ← if MOVE then mret () else inc_ref_of r;
    mret (BV (mkBV (-1) 0 new_refs 3 (INITIAL_CAP - 1) new_nbytes)).

(** new_refs[i] = ref_at(i) for i from [i] on, [n] times. *)
Fixpoint copy_refs (v : BigView) (n : nat) (i : Z) (new_refs : list BlockRef)
    : M World (list BlockRef) :=
  match n with
  | O => mret new_refs
  | S n =>
      r ← lift (bv_ref_at v i);
      new_refs ← set_ref i r new_refs;
      copy_refs v n (i + 1) new_refs
  end.

Definition _push_or_move_back_ref_to_bigview (MOVE : bool) (r : BlockRef) (buf : IOBuf)
    : M World IOBuf :=
  v ← lift (_bv buf);
  back ← lift (bv_ref_at v (u32 (nref v - 1)));
  if adjacent back r then
    _ ← if MOVE then dec_ref_of r else mret ();
    mret (BV (mkBV (magic v) (start v)
                (<[bv_slot v (u32 (nref v - 1)) := extend back r]> (refs v))
                (nref v) (cap_mask v) (u64 (nbytes v + ref_length r))))
  else if negb (nref v =? capacity v) then
    new_refs ← set_ref (Z.of_nat (bv_slot v (nref v))) r (refs v);
    _ ← if MOVE then mret () else inc_ref_of r;
    mret (BV (mkBV (magic v) (start v) new_refs (u32 (nref v + 1)) (cap_mask v)
                (u64 (nbytes v + ref_length r))))
  else
    let new_cap := u32 (capacity v * 2) in
    new_refs ← acquire_blockref_array new_cap;
    new_refs ← copy_refs v (Z.to_nat (nref v)) 0 new_refs;
    new_refs ← set_ref (nref v) r new_refs;
    _ ← if MOVE then mret () else inc_ref_of r;
    mret (BV (mkBV (magic v) 0 new_refs (u32 (nref v + 1)) (u32 (new_cap - 1))
                (u64 (nbytes v + ref_length r)))).

Definition push_or_move (MOVE : bool) (r : BlockRef) (buf : IOBuf) : M World IOBuf :=
  if _small buf then _push_or_move_back_ref_to_smallview MOVE r buf
  else _push_or_move_back_ref_to_bigview MOVE r buf.

Definition _push_back_ref := push_or_move false.
Definition _move_back_ref := push_or_move true.

(** Returns the result code and the buffer. *)
Definition _pop_or_moveout_front_ref (MOVEOUT : bool) (buf : IOBuf) : M World (Z * IOBuf) :=
  if _small buf then
    '(r0, r1) ← lift (_sv buf);
    if not_null r0 then
      _ ← if MOVEOUT then mret () else dec_ref_of r0;
      mret (0, SV r1 null_ref)
    else mret (-1, buf)
  else
    v ← lift (_bv buf);
    front ← lift (refs v !! Z.to_nat (start v));
    _ ← if MOVEOUT then mret () else dec_ref_of front;
    let nref' := u32 (nref v - 1) in
    if 2 <? nref' then
      mret (0, BV (mkBV (magic v) (Z.land (u32 (start v + 1)) (cap_mask v)) (refs v) nref'
                     (cap_mask v) (u64 (nbytes v - ref_length front))))
    else
      r0 ← lift (bv_ref_at v 1);
      r1 ← lift (bv_ref_at v 2);
      mret (0, SV r0 r1).

Definition _pop_front_ref := _pop_or_moveout_front_ref false.
Definition _moveout_front_ref := _pop_or_moveout_front_ref true.

Definition _pop_back_ref (buf : IOBuf) : M World (Z * IOBuf) :=
  if _small buf then
    '(r0, r1) ← lift (_sv buf);
    if not_null r1 then
      _ ← dec_ref_of r1; mret (0, SV r0 null_ref)
    else if not_null r0 then
      _ ← dec_ref_of r0; mret (0, SV null_ref r1)
    else mret (-1, buf)
  else
    v ← lift (_bv buf);
    back ← lift (bv_ref_at v (u32 (nref v - 1)));
    _ ← dec_ref_of back;
    let nref' := u32 (nref v - 1) in
    if 2 <? nref' then
      mret (0, BV (mkBV (magic v) (start v) (refs v) nref' (cap_mask v)
                     (u64 (nbytes v - ref_length back))))
    else
      r0 ← lift (refs v !! Z.to_nat (start v));
      r1 ← lift (bv_ref_at v 1);
      mret (0, SV r0 r1).

(** Run [f] on ref_at(i), ref_at(i+1), ... [n] times. *)
Fixpoint for_bv_refs (f : BlockRef -> M World ()) (v : BigView) (n : nat) (i : Z)
    : M World () :=
  match n with
  | O => mret ()
  | S n => r ← lift (bv_ref_at v i); _ ← f r; for_bv_refs f v n (i + 1)
  end.

Definition clear (buf : IOBuf) : M World IOBuf :=
  if _small buf then
    '(r0, r1) ← lift (_sv buf);
    if not_null r0 then
      _ ← dec_ref_of r0;
      if not_null r1 then _ ← dec_ref_of r1; mret (SV null_ref null_ref)
      else mret (SV null_ref r1)
    else mret buf
  else
    v ← lift (_bv buf);
    _ ← for_bv_refs dec_ref_of v (Z.to_nat (nref v)) 0;
    mret new_IOBuf.

(** refs[i] = rhs.ref_at(i) and inc_ref, [n] times: the loop that the copy
    constructor and operator= share. *)
Fixpoint copy_inc (v : BigView) (n : nat) (i : Z) (new_refs : list BlockRef)
    : M World (list BlockRef) :=
  match n with
  | O => mret new_refs
  | S n =>
      r ← lift (bv_ref_at v i);
      new_refs ← set_ref i r new_refs;
      _ ← inc_ref_of r;
      copy_inc v n (i + 1) new_refs
  end.

(** IOBuf(const IOBuf& rhs) *)
Definition copy_IOBuf (rhs : IOBuf) : M World IOBuf :=
  if _small rhs then
    '(r0, r1) ← lift (_sv rhs);
    _ ← if not_null r0 then inc_ref_of r0 else mret ();
    _ ← if not_null r1 then inc_ref_of r1 else mret ();
    mret (SV r0 r1)
  else
    v ← lift (_bv rhs);
    new_refs ← acquire_blockref_array (capacity v);
    new_refs ← copy_inc v (Z.to_nat (nref v)) 0 new_refs;
    mret (BV (mkBV (-1) 0 new_refs (nref v) (cap_mask v) (nbytes v))).

(** operator=(const IOBuf& rhs) for [this <> &rhs]. *)
Definition assign_IOBuf (this rhs : IOBuf) : M World IOBuf :=
  match _small rhs, _small this, _bv this, _bv rhs with
  | false, false, Some t, Some v =>
      if cap_mask t =? cap_mask v then
        _ ← for_bv_refs dec_ref_of t (Z.to_nat (nref t)) 0;
        new_refs ← copy_inc v (Z.to_nat (nref v)) 0 (refs t);
        mret (BV (mkBV (magic t) 0 new_refs (nref v) (cap_mask t) (nbytes v)))
      else _ ← clear this; copy_IOBuf rhs
  | false, false, _, _ => undefined
  | _, _, _, _ => _ ← clear this; copy_IOBuf rhs
  end.

(** Moving: IOBuf(const Movable&), operator=(const Movable&) and swap. *)
Definition move_IOBuf (rhs : IOBuf) : IOBuf * IOBuf := (rhs, new_IOBuf).
Definition assign_Movable (this rhs : IOBuf) : M World (IOBuf * IOBuf) :=
  _ ← clear this; mret (rhs, new_IOBuf).
Definition swap (this other : IOBuf) : IOBuf * IOBuf := (other, this).

(** ** The list of references of an IOBuf *)

Fixpoint total (l : list BlockRef) : Z :=
  match l with [] => 0 | r :: l => ref_length r + total l end.
Definition blocks (l : list BlockRef) : list nat := omap ref_block l.

Record ok_ref (r : BlockRef) : Prop := mkOkRef {
  ok_block : exists b, ref_block r = Some b;
  ok_offset : 0 <= ref_offset r;
  ok_length : 0 < ref_length r;
  ok_end : ref_offset r + ref_length r < 2 ^ 31 }.

Inductive rep : IOBuf -> list BlockRef -> Prop :=
| rep_0 : rep (SV null_ref null_ref) []
| rep_1 r0 : rep (SV r0 null_ref) [r0]
| rep_2 r0 r1 : rep (SV r0 r1) [r0; r1]
| rep_big v l k :
    magic v = -1 -> Ring (refs v) (start v) l -> nref v = zlen l -> 3 <= zlen l ->
    5 <= k <= 31 -> cap_mask v = 2 ^ k - 1 -> zlen (refs v) = 2 ^ k ->
    nbytes v = total l -> rep (BV v) l.

Record Rep (buf : IOBuf) (l : list BlockRef) : Prop := mkRep {
  Rep_rep : rep buf l;
  Rep_ok : Forall ok_ref l;
  Rep_total : total l < 2 ^ 31 }.

(** What pushing a reference does to the list: it extends the last reference
    when it continues it. *)
Definition push_ref (l : list BlockRef) (r : BlockRef) : list BlockRef :=
  match last l with
  | Some back => if adjacent back r then removelast l ++ [extend back r] else l ++ [r]
  | None => [r]
  end.

Lemma total_app l1 l2 : total (l1 ++ l2) = total l1 + total l2.
Proof. induction l1; cbn; lia. Qed.

Lemma total_cons r l : total (r :: l) = ref_length r + total l.
Proof. done. Qed.

Lemma blocks_app l1 l2 : blocks (l1 ++ l2) = blocks l1 ++ blocks l2.
Proof. apply omap_app. Qed.

Lemma blocks_cons r b l : ref_block r = Some b -> blocks (r :: l) = b :: blocks l.
Proof. intros E. unfold blocks. cbn. by rewrite E. Qed.

Lemma total_length l : Forall ok_ref l -> zlen l <= total l.
Proof.
  induction 1 as [|r l []]; [done|]. rewrite zlen_cons. cbn. lia.
Qed.

Lemma total_zero l : Forall ok_ref l -> total l = 0 -> l = [].
Proof.
  intros H E. apply total_length in H. destruct l; [done|].
  rewrite zlen_cons in H. pose proof (zlen_nonneg l). lia.
Qed.

Lemma ok_not_null r : ok_ref r -> not_null r = true.
Proof. intros [[b E] _ _ _]. unfold not_null. by rewrite E. Qed.

Lemma small_SV r0 r1 l : Rep (SV r0 r1) l -> _small (SV r0 r1) = true.
Proof.
  intros [H1 H2 _]. cbn.
  assert (0 <= ref_offset r0 < 2 ^ 31) as Ho.
  { inversion H1; subst; [done| |]; inversion H2 as [|? ? []]; subst; lia. }
  rewrite i32_small by lia. lia.
Qed.

Lemma small_BV v l : Rep (BV v) l -> _small (BV v) = false.
Proof. intros [H1 _ _]. inversion H1; subst. cbn. lia. Qed.

Lemma bv_slot_ring v l k i :
  Ring (refs v) (start v) l -> k <= 31 -> 5 <= k -> cap_mask v = 2 ^ k - 1 ->
  zlen (refs v) = 2 ^ k -> 0 <= i < 2 ^ 31 ->
  bv_slot v i = ring_ix (refs v) (start v) (Z.to_nat i).
Proof.
  intros HR Hk Hk5 Hm Hz Hi. unfold bv_slot, ring_ix.
  assert (2 ^ k <= 2 ^ 31) by (apply Z.pow_le_mono_r; lia).
  destruct (ring_start _ _ _ HR) as [Hs|[Hs _]]; [|lia].
  rewrite wrapu_small by lia. rewrite Hm, land_mask by lia.
  rewrite Hz. do 2 f_equal. lia.
Qed.

Lemma bv_ref_at_lookup v l i r :
  Rep (BV v) l -> 0 <= i -> l !! Z.to_nat i = Some r -> bv_ref_at v i = Some r.
Proof.
  intros [H1 H2 H3] Hi Hr. inversion H1; subst.
  pose proof (total_length _ H2). pose proof (lookup_lt_Some _ _ _ Hr).
  unfold bv_ref_at. unfold zlen in *.
  rewrite (bv_slot_ring v l k) by (done || unfold zlen; lia).
  by eapply ring_at.
Qed.

Lemma front_ref_spec buf r l : Rep buf (r :: l) -> _front_ref buf = Some r.
Proof.
  intros H. pose proof H as [H1 _ _]. unfold _front_ref. destruct buf as [r0 r1|v].
  - rewrite (small_SV _ _ _ H). inversion H1; subst; done.
  - rewrite (small_BV _ _ H). inversion H1; subst. cbn.
    destruct (ring_start _ _ _ H3) as [Hs|[Hs _]]; [|lia].
    pose proof (ring_at _ _ _ H3 0 r eq_refl) as E. unfold ring_ix in E.
    rewrite Z.add_0_r, Z.mod_small in E by lia. done.
Qed.

Lemma ref_at_spec buf l i r :
  Rep buf l -> 0 <= i -> l !! Z.to_nat i = Some r -> _ref_at buf i = Some r.
Proof.
  intros H Hi Hr. pose proof H as [H1 H2 H3]. unfold _ref_at. destruct buf as [r0 r1|v].
  - rewrite (small_SV _ _ _ H). cbn. pose proof (lookup_lt_Some _ _ _ Hr) as Hlt.
    inversion H1; subst; cbn in *; unfold sv_at.
    + lia.
    + assert (i = 0) as -> by lia. done.
    + destruct (Z.eqb_spec i 0) as [->|]; [done|].
      assert (i = 1) as -> by lia. done.
  - rewrite (small_BV _ _ H). cbn.
    pose proof (total_length _ H2). pose proof (lookup_lt_Some _ _ _ Hr).
    rewrite wrapu_small by (unfold zlen in *; lia). by eapply bv_ref_at_lookup.
Qed.

Lemma back_ref_spec buf l r : Rep buf (l ++ [r]) -> _back_ref buf = Some r.
Proof.
  intros H. pose proof H as [H1 H2 H3]. unfold _back_ref. destruct buf as [r0 r1|v].
  - rewrite (small_SV _ _ _ H). inversion H1 as [E|x E|x y E|]; subst; cbn.
    + by destruct l.
    + destruct l as [|? [|]]; try done. by simplify_eq/=.
    + destruct l as [|? [|? []]]; simplify_eq/=.
      rewrite (ok_not_null r); [done|]. by apply Forall_cons in H2 as [_ [? _]%Forall_cons].
  - rewrite (small_BV _ _ H). cbn. inversion H1; subst.
    pose proof (total_length _ H2) as Hl. rewrite zlen_app in *.
    pose proof (zlen_nonneg l). change (zlen [r]) with 1 in *.
    rewrite wrapu_small by lia. eapply bv_ref_at_lookup; [done|lia|].
    rewrite lookup_app_r by (unfold zlen in *; lia).
    replace (Z.to_nat (nref v - 1) - Datatypes.length l)%nat with 0%nat
      by (unfold zlen in *; lia). done.
Qed.

Lemma length_spec buf l : Rep buf l -> length buf = Some (total l).
Proof.
  intros H. pose proof H as [H1 H2 H3]. unfold length. destruct buf as [r0 r1|v].
  - rewrite (small_SV _ _ _ H). inversion H1; subst; cbn; [done|..];
      inversion H2 as [|? ? [] F2]; subst; [|inversion F2 as [|? ? []]; subst];
      cbn in *; f_equal; rewrite wrapu_small by lia; lia.
  - rewrite (small_BV _ _ H). inversion H1; subst. cbn. congruence.
Qed.

Lemma ref_num_spec buf l : Rep buf l -> _ref_num buf = Some (zlen l).
Proof.
  intros H. pose proof H as [H1 H2 H3]. unfold _ref_num. destruct buf as [r0 r1|v].
  - rewrite (small_SV _ _ _ H). inversion H1; subst; cbn; [done|..];
      inversion H2 as [|? ? G F2]; subst; [|inversion F2 as [|? ? G2]; subst];
      rewrite ?(ok_not_null r0), ?(ok_not_null r1) by done; done.
  - rewrite (small_BV _ _ H). inversion H1; subst. cbn. congruence.
Qed.

Lemma empty_spec buf l : Rep buf l -> empty buf = Some (bool_decide (l = [])).
Proof.
  intros H. pose proof H as [H1 H2 H3]. unfold empty. destruct buf as [r0 r1|v].
  - rewrite (small_SV _ _ _ H). inversion H1; subst; cbn; [done|..];
      inversion H2 as [|? ? G F2]; subst; rewrite (ok_not_null r0) by done; done.
  - rewrite (small_BV _ _ H). inversion H1; subst. cbn.
    pose proof (total_length _ H2). rewrite bool_decide_eq_false_2 by (intros ->; done).
    f_equal. lia.
Qed.

(** ** Pushing a reference *)

Lemma adjacent_true back r :
  adjacent back r = true -> ok_ref back ->
  ref_block back = ref_block r /\ ref_offset back + ref_length back = ref_offset r.
Proof.
  intros [H1%bool_decide_eq_true H2%Z.eqb_eq]%andb_true_iff [].
  rewrite wrapu_small in H2 by lia. done.
Qed.

Lemma extend_ok back r :
  adjacent back r = true -> ok_ref back -> ok_ref r ->
  ref_length back + ref_length r < 2 ^ 31 ->
  ok_ref (extend back r) /\ ref_length (extend back r) = ref_length back + ref_length r.
Proof.
  intros Ha Hb Hr Ht. pose proof (adjacent_true _ _ Ha Hb) as [E1 E2].
  destruct Hb as [B1 B2 B3 B4], Hr as [R1 R2 R3 R4].
  assert (ref_length (extend back r) = ref_length back + ref_length r) as E
    by (cbn; rewrite wrapu_small by lia; lia).
  split; [|done]. split; cbn [ref_block ref_offset extend]; rewrite ?E; try done; lia.
Qed.

Lemma push_ref_snoc l back r :
  push_ref (l ++ [back]) r =
    if adjacent back r then l ++ [extend back r] else l ++ [back; r].
Proof.
  unfold push_ref. rewrite last_snoc, removelast_last, <-app_assoc. done.
Qed.

Lemma push_ref_ok l r :
  Forall ok_ref l -> ok_ref r -> total l + ref_length r < 2 ^ 31 ->
  Forall ok_ref (push_ref l r) /\ total (push_ref l r) = total l + ref_length r.
Proof.
  intros Hl Hr Ht. destruct l as [|back l _] using rev_ind.
  { unfold push_ref. cbn. split; [by constructor|lia]. }
  rewrite push_ref_snoc. apply Forall_app in Hl as [Hl [Hb _]%Forall_cons].
  pose proof (total_length _ Hl). pose proof (zlen_nonneg l).
  rewrite total_app in *. cbn in *.
  destruct (adjacent back r) eqn:Ea.
  - destruct (extend_ok back r) as [Hok E]; [done..|lia|].
    split; [|rewrite total_app; cbn [total]; rewrite E; lia].
    apply Forall_app. split; [done|]. by constructor.
  - split; [|rewrite total_app; cbn; lia]. apply Forall_app. 
    split; [done|]. repeat (constructor; [done|]). constructor.
Qed.

Lemma blocks_push_ref l r b :
  ref_block r = Some b ->
  (blocks (push_ref l r) = blocks l /\ exists l0 back, l = l0 ++ [back] /\
     adjacent back r = true /\ push_ref l r = l0 ++ [extend back r]) \/
  (blocks (push_ref l r) = blocks l ++ [b] /\ push_ref l r = l ++ [r] /\
     forall l0 back, l = l0 ++ [back] -> adjacent back r = false).
Proof.
  intros E. destruct l as [|back l _] using rev_ind.
  { right. unfold push_ref. cbn. rewrite E. split_and!; [done..|]. intros [] ? ?; done. }
  rewrite push_ref_snoc. destruct (adjacent back r) eqn:Ea.
  - left. split; [rewrite !blocks_app; done|]. eauto.
  - right. split; [|split].
    + rewrite !blocks_app. cbn. rewrite E. by destruct (ref_block back); rewrite <-?app_assoc.
    + by rewrite <-app_assoc.
    + by intros l0 back' [-> [= ->]]%app_inj_2.
Qed.

(** The two ways a push settles the reference count of the pushed block: a new
    reference is kept, a merged one is given up if it was handed over. *)
Definition owes (MOVE : bool) (b : nat) (w : World) (R : list nat) : Prop :=
  if MOVE then Inv w (b :: R) else Inv w R /\ is_Some (heap w !! b).

Lemma owes_keep MOVE r b w R :
  ref_block r = Some b -> owes MOVE b w R ->
  exists w', (if MOVE then mret () else inc_ref_of r) w = Some ((), w') /\
             Inv w' (b :: R) /\ quiet w w'.
Proof.
  intros E H. destruct MOVE; cbn in H.
  - by exists w.
  - destruct H as [H1 H2]. unfold inc_ref_of. rewrite E. by apply inc_ref_inv.
Qed.

Lemma owes_merge MOVE r b w R :
  ref_block r = Some b -> owes MOVE b w R ->
  exists w', (if MOVE then dec_ref_of r else mret ()) w = Some ((), w') /\
             Inv w' R /\ quiet w w'.
Proof.
  intros E H. destruct MOVE; cbn in H.
  - unfold dec_ref_of. rewrite E. by apply dec_ref_inv.
  - destruct H as [H1 H2]. by exists w.
Qed.

Lemma owes_newbigview MOVE b w R :
  owes MOVE b w R -> owes MOVE b (add_newbigview w) R /\ quiet w (add_newbigview w).
Proof.
  intros H. split; [|by apply quiet_same_heap]. destruct MOVE; cbn in *.
  - by eapply Inv_same.
  - destruct H. split; [|done]. by eapply Inv_same.
Qed.

Lemma set_ref_lookup i r (l : list BlockRef) w :
  0 <= i < zlen l -> set_ref i r l w = Some (<[Z.to_nat i := r]> l, w).
Proof. intros. unfold set_ref. destruct (_ && _) eqn:E; [done|lia]. Qed.

Lemma copy_refs_spec v l n i nr w :
  Rep (BV v) l -> 0 <= i -> i + Z.of_nat n = zlen l -> zlen l <= zlen nr ->
  take (Z.to_nat i) nr = take (Z.to_nat i) l ->
  exists nr', copy_refs v n i nr w = Some (nr', w) /\ zlen nr' = zlen nr /\
              take (Datatypes.length l) nr' = l.
Proof.
  revert i nr. induction n as [|n IH]; intros i nr HR Hi Hn Hl Ht; cbn [copy_refs].
  - exists nr. split; [done|]. split; [done|].
    assert (Z.to_nat i = Datatypes.length l) as E by (unfold zlen in *; lia).
    rewrite E in Ht. by rewrite Ht, firstn_all.
  - destruct (lookup_lt_is_Some_2 l (Z.to_nat i)) as [r Hr]; [unfold zlen in *; lia|].
    rewrite (bv_ref_at_lookup v l i r) by done. run.
    rewrite set_ref_lookup by lia. cbn beta iota.
    destruct (IH (i + 1) (<[Z.to_nat i := r]> nr)) as (nr' & E & Hz & Ht');
      [done|lia|lia|unfold zlen in *; rewrite length_insert; done| |].
    + replace (Z.to_nat (i + 1)) with (S (Z.to_nat i)) by lia.
      rewrite (take_S_r _ _ r), (take_S_r _ _ r); [|done|].
      * by rewrite take_insert_ge by lia; rewrite Ht.
      * apply list_lookup_insert_eq. unfold zlen in *. lia.
    + exists nr'. split; [done|]. split; [|done].
      unfold zlen in *. by rewrite length_insert in Hz.
Qed.

Lemma Ring_take (l nr : list BlockRef) :
  0 < zlen nr -> take (Datatypes.length l) nr = l -> Ring nr 0 l.
Proof.
  intros Hz Ht. rewrite <-(take_drop (Datatypes.length l) nr), Ht.
  apply Ring_flat. rewrite <-Ht at 1. by rewrite take_drop.
Qed.

Lemma Inv_snoc w l r b O :
  ref_block r = Some b -> Inv w (b :: blocks l ++ O) -> Inv w (blocks (l ++ [r]) ++ O).
Proof.
  intros E H. rewrite blocks_app. unfold blocks at 2. cbn. rewrite E.
  rewrite <-app_assoc. cbn. by rewrite <-Permutation_middle.
Qed.

Definition pushed (l : list BlockRef) (r : BlockRef) (w : World) (O : list nat)
    (buf' : IOBuf) (w' : World) : Prop :=
  Rep buf' (push_ref l r) /\ Inv w' (blocks (push_ref l r) ++ O) /\ quiet w w'.

(** The conclusion for a push that merges, and for one that does not. *)
Lemma pushed_merge l back r b w O buf' w' :
  Forall ok_ref (l ++ [back]) -> ok_ref r -> total (l ++ [back]) + ref_length r < 2 ^ 31 ->
  adjacent back r = true -> ref_block r = Some b ->
  rep buf' (l ++ [extend back r]) -> Inv w' (blocks (l ++ [back]) ++ O) -> quiet w w' ->
  pushed (l ++ [back]) r w O buf' w'.
Proof.
  intros Hl Hr Ht Ha Eb Hrep HI Hq. destruct (push_ref_ok _ r Hl Hr Ht) as [H1 H2].
  split; [split|split]; [|done|lia| |done].
  - by rewrite push_ref_snoc, Ha.
  - rewrite push_ref_snoc, Ha. by rewrite blocks_app in *.
Qed.

Lemma pushed_snoc l r b w O buf' w' :
  Forall ok_ref l -> ok_ref r -> total l + ref_length r < 2 ^ 31 ->
  push_ref l r = l ++ [r] -> ref_block r = Some b ->
  rep buf' (l ++ [r]) -> Inv w' (b :: blocks l ++ O) -> quiet w w' ->
  pushed l r w O buf' w'.
Proof.
  intros Hl Hr Ht Ha Eb Hrep HI Hq. destruct (push_ref_ok _ r Hl Hr Ht) as [H1 H2].
  split; [split|split]; [|done|lia| |done].
  - by rewrite Ha.
  - rewrite Ha. by eapply Inv_snoc.
Qed.

Lemma push_smallview_spec MOVE r0 r1 l r b w O :
  Rep (SV r0 r1) l -> ok_ref r -> ref_block r = Some b ->
  total l + ref_length r < 2 ^ 31 -> owes MOVE b w (blocks l ++ O) ->
  exists buf' w', _push_or_move_back_ref_to_smallview MOVE r (SV r0 r1) w = Some (buf', w') /\
    pushed l r w O buf' w'.
Proof.
  intros [H1 H2 H3] Hr Eb Ht Ho. unfold _push_or_move_back_ref_to_smallview.
  destruct (owes_keep MOVE r b w _ Eb Ho) as (wk & Ek & HIk & Hqk).
  destruct (owes_merge MOVE r b w _ Eb Ho) as (wm & Em & HIm & Hqm).
  run_in Ek. run_in Em.
  inversion H1; subst; clear H1; cbn [_sv]; run; cbn [not_null ref_block null_ref negb].
  - rewrite Ek. eexists _, _. split; [done|]. eapply pushed_snoc; try done. constructor.
  - rewrite ok_not_null by (by inversion H2). cbn [negb].
    destruct (adjacent r0 r) eqn:Ea.
    + rewrite Em. eexists _, _. split; [done|].
      eapply (pushed_merge []); try done. constructor.
    + rewrite Ek. eexists _, _. split; [done|]. eapply pushed_snoc; try done; [|constructor].
      change [r0] with ([] ++ [r0]). by rewrite push_ref_snoc, Ea.
  - pose proof H2 as [Ok0 [Ok1 _]%Forall_cons]%Forall_cons.
    rewrite !ok_not_null by done. cbn [negb].
    assert (push_ref [r0; r1] r = if adjacent r1 r then [r0; extend r1 r] else [r0; r1; r])
      as Ep by apply (push_ref_snoc [r0]).
    destruct (adjacent r1 r) eqn:Ea.
    + rewrite Em. eexists _, _. split; [done|].
      eapply (pushed_merge [r0]); try done. constructor.
    + destruct (owes_newbigview MOVE b w _ Ho) as [Ho' Hq'].
      destruct (owes_keep MOVE r b _ _ Eb Ho') as (wk' & Ek' & HIk' & Hqk').
      run_in Ek'. unfold acquire_blockref_array. run.
      do 3 (rewrite set_ref_lookup by done; cbn beta iota). rewrite Ek'. eexists _, _. split; [done|].
      eapply pushed_snoc; try done; [|by etrans]. cbn in H3, Ht.
      destruct Ok0, Ok1, Hr.
      eapply (rep_big _ _ 5); try done; try lia.
      * by apply Ring_take.
      * cbn. rewrite wrapu_small by lia. lia.
Qed.

Lemma bv_back v l back :
  Rep (BV v) (l ++ [back]) -> bv_ref_at v (u32 (nref v - 1)) = Some back.
Proof.
  intros H. pose proof (back_ref_spec _ _ _ H) as E. unfold _back_ref in E.
  by rewrite (small_BV _ _ H) in E.
Qed.

(** A BigView is never empty. *)
Lemma big_snoc v l : Rep (BV v) l -> exists l0 back, l = l0 ++ [back].
Proof.
  intros [H _ _]. inversion H; subst.
  destruct l as [|back l _] using rev_ind; [done|eauto].
Qed.

Lemma big_inv v l :
  Rep (BV v) l -> exists k, magic v = -1 /\ Ring (refs v) (start v) l /\ nref v = zlen l /\
    3 <= zlen l <= 2 ^ k /\ 5 <= k <= 31 /\ 32 <= 2 ^ k <= 2 ^ 31 /\ cap_mask v = 2 ^ k - 1 /\
    zlen (refs v) = 2 ^ k /\ nbytes v = total l /\ 0 <= start v < 2 ^ k /\
    capacity v = 2 ^ k /\ zlen l <= total l < 2 ^ 31.
Proof.
  intros [H1 H2 H3]. inversion H1 as [| | |? ? k Hm HRg Hnr Hz Hk Hcm Hzr Hnb]; subst.
  exists k. assert (2 ^ k <= 2 ^ 31) by (apply Z.pow_le_mono_r; lia).
  assert (32 <= 2 ^ k) by (apply (Z.pow_le_mono_r 2 5); lia).
  pose proof (ring_fits _ _ _ HRg). pose proof (total_length _ H2).
  destruct (ring_start _ _ _ HRg) as [?|[? ?]]; [|lia].
  assert (capacity v = 2 ^ k)
    by (unfold capacity; rewrite Hcm, wrapu_small by lia; lia).
  unfold zlen in *. split_and!; done || lia.
Qed.

Lemma bv_slot_ix v l i :
  Rep (BV v) l -> 0 <= i < 2 ^ 31 ->
  bv_slot v i = ring_ix (refs v) (start v) (Z.to_nat i).
Proof.
  intros (k & Hm & HRg & Hnr & Hz & Hk & H2k & Hcm & Hzr & Hnb & Hs & Hc & Ht)%big_inv Hi.
  apply (bv_slot_ring v l k); done || lia.
Qed.

(** The three new BigViews of a push. *)
Lemma rep_big_merge v l back r :
  Rep (BV v) (l ++ [back]) -> total (l ++ [back]) + ref_length r < 2 ^ 31 ->
  0 < ref_length r -> ref_length (extend back r) = ref_length back + ref_length r ->
  rep (BV (mkBV (magic v) (start v)
        (<[bv_slot v (u32 (nref v - 1)) := extend back r]> (refs v))
        (nref v) (cap_mask v) (u64 (nbytes v + ref_length r)))) (l ++ [extend back r]).
Proof.
  intros H Ht Hr E. destruct (big_inv _ _ H)
    as (k & Hm & HRg & Hnr & Hz & Hk & H2k & Hcm & Hzr & Hnb & Hs & Hc & Hl).
  rewrite zlen_app in Hnr, Hz, Hl. change (zlen [back]) with 1 in *.
  apply (rep_big _ _ k); cbn [magic start refs nref cap_mask nbytes]; try done.
  - rewrite wrapu_small by lia. rewrite (bv_slot_ix _ _ _ H) by lia.
    replace (Z.to_nat (nref v - 1)) with (Datatypes.length l) by (unfold zlen in *; lia).
    replace (l ++ [extend back r])
      with (<[Datatypes.length l := extend back r]> (l ++ [back]))
      by (by rewrite insert_app_r_alt, Nat.sub_diag by lia).
    apply Ring_update; [done|]. rewrite length_app. cbn. lia.
  - rewrite Hnr, zlen_app. done.
  - rewrite zlen_app. change (zlen [extend back r]) with 1. lia.
  - unfold zlen in *. by rewrite length_insert.
  - rewrite wrapu_small by lia. rewrite Hnb, !total_app. cbn [total]. rewrite E. lia.
Qed.

Lemma rep_big_snoc v l r :
  Rep (BV v) l -> total l + ref_length r < 2 ^ 31 -> 0 < ref_length r ->
  nref v <> capacity v ->
  0 <= Z.of_nat (bv_slot v (nref v)) < zlen (refs v) /\
  rep (BV (mkBV (magic v) (start v) (<[bv_slot v (nref v) := r]> (refs v))
        (u32 (nref v + 1)) (cap_mask v) (u64 (nbytes v + ref_length r)))) (l ++ [r]).
Proof.
  intros H Ht Hr Hf. destruct (big_inv _ _ H)
    as (k & Hm & HRg & Hnr & Hz & Hk & H2k & Hcm & Hzr & Hnb & Hs & Hc & Hl).
  rewrite (bv_slot_ix _ _ _ H) by lia.
  replace (Z.to_nat (nref v)) with (Datatypes.length l) by (unfold zlen in *; lia).
  pose proof (ring_ix_lt (refs v) (start v) (Datatypes.length l) ltac:(lia)).
  split; [unfold zlen in *; lia|].
  apply (rep_big _ _ k); cbn [magic start refs nref cap_mask nbytes]; try done.
  - apply Ring_snoc; [done|]. unfold zlen in *. lia.
  - rewrite wrapu_small by lia. rewrite zlen_app. change (zlen [r]) with 1. lia.
  - rewrite zlen_app. change (zlen [r]) with 1. lia.
  - unfold zlen in *. by rewrite length_insert.
  - rewrite wrapu_small by lia. rewrite total_app. cbn [total]. lia.
Qed.

Lemma rep_big_grow v l r nr :
  Rep (BV v) l -> total l + ref_length r < 2 ^ 31 -> 0 < ref_length r ->
  nref v = capacity v -> zlen nr = u32 (capacity v * 2) -> take (Datatypes.length l) nr = l ->
  0 <= nref v < zlen nr /\
  rep (BV (mkBV (magic v) 0 (<[Z.to_nat (nref v) := r]> nr)
        (u32 (nref v + 1)) (u32 (u32 (capacity v * 2) - 1)) (u64 (nbytes v + ref_length r))))
    (l ++ [r]).
Proof.
  intros H Ht Hr Hf Hnr' Htk. destruct (big_inv _ _ H)
    as (k & Hm & HRg & Hnr & Hz & Hk & H2k & Hcm & Hzr & Hnb & Hs & Hc & Hl).
  assert (k < 31) as Hk30.
  { apply (Z.pow_lt_mono_r_iff 2); [lia|lia|]. rewrite <-Hc, <-Hf, Hnr. lia. }
  assert (2 ^ (k + 1) = 2 * 2 ^ k) as Ek by (rewrite Z.pow_add_r by lia; lia).
  rewrite (wrapu_small 32 (capacity v * 2)) in * by lia.
  split; [lia|].
  apply (rep_big _ _ (k + 1)); cbn [magic start refs nref cap_mask nbytes]; try done; try lia.
  - replace (Z.to_nat (nref v)) with (ring_ix nr 0 (Datatypes.length l)).
    + apply Ring_snoc; [|unfold zlen in *; lia]. apply Ring_take; [lia|done].
    + unfold ring_ix. rewrite Z.mod_small by (unfold zlen in *; lia).
      unfold zlen in *. lia.
  - rewrite wrapu_small by lia. rewrite zlen_app. change (zlen [r]) with 1. lia.
  - rewrite zlen_app. change (zlen [r]) with 1. lia.
  - rewrite wrapu_small by lia. lia.
  - unfold zlen in *. rewrite length_insert. lia.
  - rewrite wrapu_small by lia. rewrite total_app. cbn [total]. lia.
Qed.

Lemma push_bigview_spec MOVE v l r b w O :
  Rep (BV v) l -> ok_ref r -> ref_block r = Some b ->
  total l + ref_length r < 2 ^ 31 -> owes MOVE b w (blocks l ++ O) ->
  exists buf' w', _push_or_move_back_ref_to_bigview MOVE r (BV v) w = Some (buf', w') /\
    pushed l r w O buf' w'.
Proof.
  intros HR Hr Eb Ht Ho. pose proof HR as [_ H2 _].
  unfold _push_or_move_back_ref_to_bigview.
  destruct (owes_keep MOVE r b w _ Eb Ho) as (wk & Ek & HIk & Hqk).
  destruct (owes_merge MOVE r b w _ Eb Ho) as (wm & Em & HIm & Hqm).
  destruct (big_snoc v l HR) as (l0 & back & El).
  assert (bv_ref_at v (u32 (nref v - 1)) = Some back) as Eback
    by (apply (bv_back v l0); by rewrite <-El).
  assert (0 < ref_length r) as Hrl by apply Hr.
  pose proof (push_ref_snoc l0 back r) as Ep. rewrite <-El in Ep.
  cbn [_bv]. run_in Ek. run_in Em. run. rewrite Eback. cbn beta iota.
  destruct (adjacent back r) eqn:Ea.
  - rewrite Em. eexists _, _. split; [done|]. subst l. eapply pushed_merge; try done.
    apply rep_big_merge; try done. apply Forall_app in H2 as [H2 [Hb _]%Forall_cons].
    eapply extend_ok; try done. rewrite total_app in Ht. cbn in Ht.
    pose proof (total_length l0 ltac:(done)). pose proof (zlen_nonneg l0). lia.
  - replace (l0 ++ [back; r]) with (l ++ [r]) in Ep by (by rewrite El, <-app_assoc).
    destruct (Z.eqb_spec (nref v) (capacity v)) as [Efull|Efull]; cbn [negb].
    + destruct (owes_newbigview MOVE b w _ Ho) as [Ho' Hq'].
      destruct (owes_keep MOVE r b _ _ Eb Ho') as (wk' & Ek' & HIk' & Hqk').
      destruct (big_inv _ _ HR)
        as (k & Hm & HRg & Hnr & Hz & Hk & H2k & Hcm & Hzr & Hnb & Hs & Hc & Hl).
      set (new_cap := u32 (capacity v * 2)).
      assert (capacity v < new_cap) as Hcap.
      { unfold new_cap. rewrite wrapu_small; lia. }
      unfold acquire_blockref_array. run.
      destruct (copy_refs_spec v l (Z.to_nat (nref v)) 0
        (replicate (Z.to_nat new_cap) null_ref) (add_newbigview w))
        as (nr & -> & Hzn & Htk); [done|lia|lia| |done|].
      { unfold zlen at 2. rewrite length_replicate. lia. }
      cbn beta iota. unfold zlen in Hzn at 2. rewrite length_replicate in Hzn.
      destruct (rep_big_grow v l r nr) as [Hix Hrep]; try done; [lia|].
      rewrite set_ref_lookup by done. cbn beta iota. run_in Ek'. rewrite Ek'.
      eexists _, _. split; [done|]. eapply pushed_snoc; try done. by etrans.
    + destruct (rep_big_snoc v l r) as [Hix Hrep]; try done.
      rewrite set_ref_lookup by done. rewrite Nat2Z.id. cbn beta iota. rewrite Ek.
      eexists _, _. split; [done|]. by eapply pushed_snoc.
Qed.

(** [_push_back_ref] adds a reference to the block, [_move_back_ref] takes over
    the caller's. *)
Lemma push_or_move_spec MOVE buf l r b w O :
  Rep buf l -> ok_ref r -> ref_block r = Some b ->
  total l + ref_length r < 2 ^ 31 -> owes MOVE b w (blocks l ++ O) ->
  exists buf' w', push_or_move MOVE r buf w = Some (buf', w') /\ pushed l r w O buf' w'.
Proof.
  intros H Hr Eb Ht Ho. unfold push_or_move. destruct buf as [r0 r1|v].
  - rewrite (small_SV _ _ _ H). by eapply push_smallview_spec.
  - rewrite (small_BV _ _ H). by eapply push_bigview_spec.
Qed.

(** ** Popping references *)

Lemma Rep_cons_inv buf r l buf' :
  Rep buf (r :: l) -> rep buf' l -> Rep buf' l.
Proof.
  intros [_ H2 H3] H. apply Forall_cons in H2 as [[] H2]. cbn in H3. split; [done|done|lia].
Qed.

Lemma Rep_snoc_inv buf l r buf' :
  Rep buf (l ++ [r]) -> rep buf' l -> Rep buf' l.
Proof.
  intros [_ H2 H3] H. apply Forall_app in H2 as [H2 [[] _]%Forall_cons].
  rewrite total_app in H3. cbn in H3. split; [done|done|lia].
Qed.

Lemma rep_big_tail v r l :
  Rep (BV v) (r :: l) -> 2 < zlen l ->
  rep (BV (mkBV (magic v) (Z.land (u32 (start v + 1)) (cap_mask v)) (refs v) (u32 (nref v - 1))
        (cap_mask v) (u64 (nbytes v - ref_length r)))) l.
Proof.
  intros H Hl2. pose proof H as [_ [[] Hok]%Forall_cons _]. destruct (big_inv _ _ H)
    as (k & Hm & HRg & Hnr & Hz & Hk & H2k & Hcm & Hzr & Hnb & Hs & Hc & Hl).
  rewrite total_cons, zlen_cons in *. pose proof (total_length _ Hok).
  apply (rep_big _ _ k); cbn [magic start refs nref cap_mask nbytes]; try done; try lia.
  - rewrite wrapu_small, Hcm, land_mask, <-Hzr by lia. by eapply Ring_tail.
  - rewrite wrapu_small by lia. lia.
  - rewrite wrapu_small by lia. lia.
Qed.

Lemma rep_big_init v l r :
  Rep (BV v) (l ++ [r]) -> 2 < zlen l ->
  rep (BV (mkBV (magic v) (start v) (refs v) (u32 (nref v - 1)) (cap_mask v)
        (u64 (nbytes v - ref_length r)))) l.
Proof.
  intros H Hl2. pose proof H as [_ [Hok [[] _]%Forall_cons]%Forall_app _].
  destruct (big_inv _ _ H)
    as (k & Hm & HRg & Hnr & Hz & Hk & H2k & Hcm & Hzr & Hnb & Hs & Hc & Hl).
  rewrite total_app, zlen_app in *. cbn [total] in *. change (zlen [r]) with 1 in *.
  pose proof (total_length _ Hok).
  apply (rep_big _ _ k); cbn [magic start refs nref cap_mask nbytes]; try done; try lia.
  - by eapply Ring_prefix.
  - rewrite wrapu_small by lia. lia.
  - rewrite wrapu_small by lia. lia.
Qed.

Lemma two_refs (l : list BlockRef) : zlen l = 2 -> exists x y, l = [x; y].
Proof. destruct l as [|x [|y [|]]]; unfold zlen; cbn; try lia. eauto. Qed.

Lemma dec_ref_of_spec r b w R :
  ref_block r = Some b -> Inv w (b :: R) ->
  exists w', dec_ref_of r w = Some ((), w') /\ Inv w' R /\ quiet w w'.
Proof. intros E H. exact (owes_merge true r b w R E H). Qed.

(** The front reference goes: given up, or handed to the caller. *)
Lemma pop_front_ref_spec (MOVEOUT : bool) buf r l b w O :
  Rep buf (r :: l) -> ref_block r = Some b ->
  (if MOVEOUT then True else Inv w (b :: blocks l ++ O)) ->
  exists buf' w', _pop_or_moveout_front_ref MOVEOUT buf w = Some ((0, buf'), w') /\
    Rep buf' l /\ quiet w w' /\
    (if MOVEOUT then w' = w else Inv w' (blocks l ++ O)).
Proof.
  intros H Eb HI. pose proof (front_ref_spec _ _ _ H) as Ef.
  assert (exists w', (if MOVEOUT then mret () else dec_ref_of r) w = Some ((), w') /\
    quiet w w' /\ (if MOVEOUT then w' = w else Inv w' (blocks l ++ O))) as (w' & E & Hq & Hw).
  { destruct MOVEOUT; [by exists w|].
    destruct (dec_ref_of_spec r b w _ Eb HI) as (wd & Ed & HId & Hqd). by exists wd. }
  assert (not_null r = true) as Hnn by (unfold not_null; by rewrite Eb).
  assert (forall i x, l !! Z.to_nat (i - 1) = Some x -> 1 <= i ->
    forall v, buf = BV v -> bv_ref_at v i = Some x) as Hat.
  { intros i x Hx Hi v ->. eapply bv_ref_at_lookup; [done|lia|].
    by replace (Z.to_nat i) with (S (Z.to_nat (i - 1))) by lia. }
  unfold _pop_or_moveout_front_ref, _front_ref in *. destruct buf as [r0 r1|v].
  - rewrite (small_SV _ _ _ H) in *. cbn [_sv] in *. run_in E. cbn in Ef. simplify_eq.
    run. rewrite Hnn, E. eexists _, _. split; [done|]. split; [|done].
    eapply Rep_cons_inv; [done|]. destruct H as [H _ _]. inversion H; subst; constructor.
  - rewrite (small_BV _ _ H) in *. cbn [_bv] in *. run_in E. cbn in Ef.
    run. rewrite Ef. cbn beta iota. rewrite E. cbn beta iota.
    destruct (big_inv _ _ H)
      as (k & _ & _ & Hnr & Hz & _ & H2k & _ & _ & _ & _ & _ & Hl).
    rewrite zlen_cons in *.
    assert (u32 (nref v - 1) = zlen l) as En by (rewrite wrapu_small; lia).
    destruct (Z.ltb_spec 2 (u32 (nref v - 1))) as [Hlt|Hge].
    + eexists _, _. split; [done|]. split; [|done].
      eapply Rep_cons_inv; [done|]. apply rep_big_tail; [done|lia].
    + destruct (two_refs l) as (x & y & ->); [lia|].
      rewrite (Hat 1 x), (Hat 2 y) by (done || lia). cbn beta iota.
      eexists _, _. split; [done|]. split; [|done].
      eapply Rep_cons_inv; [done|]. constructor.
Qed.

Lemma pop_back_ref_spec buf r l b w O :
  Rep buf (l ++ [r]) -> ref_block r = Some b -> Inv w (b :: blocks l ++ O) ->
  exists buf' w', _pop_back_ref buf w = Some ((0, buf'), w') /\
    Rep buf' l /\ quiet w w' /\ Inv w' (blocks l ++ O).
Proof.
  intros H Eb HI.
  destruct (dec_ref_of_spec r b w _ Eb HI) as (w' & E & HId & Hqd).
  assert (not_null r = true) as Hnn by (unfold not_null; by rewrite Eb).
  unfold _pop_back_ref. destruct buf as [r0 r1|v].
  - rewrite (small_SV _ _ _ H). cbn [_sv]. run.
    pose proof (Rep_rep _ _ H) as H'. inversion H' as [E0|x E0|x y E0|]; subst.
    + by destruct l.
    + destruct l as [|? [|]]; simplify_eq/=. rewrite Hnn, E.
      eexists _, _. split; [done|]. split; [|done]. split; [constructor|done|done].
    + destruct l as [|? [|? []]]; simplify_eq/=. rewrite Hnn, E.
      eexists _, _. split; [done|]. split; [|done].
      eapply (Rep_snoc_inv _ [_]); [exact H|constructor].
  - rewrite (small_BV _ _ H). cbn [_bv]. run. rewrite (bv_back v l r H).
    cbn beta iota. rewrite E. cbn beta iota.
    destruct (big_inv _ _ H)
      as (k & _ & _ & Hnr & Hz & _ & H2k & _ & _ & _ & _ & _ & Hl).
    rewrite zlen_app in *. change (zlen [r]) with 1 in *. pose proof (zlen_nonneg l).
    assert (u32 (nref v - 1) = zlen l) as En by (rewrite wrapu_small; lia).
    destruct (Z.ltb_spec 2 (u32 (nref v - 1))) as [Hlt|Hge].
    + eexists _, _. split; [done|]. split; [|done].
      eapply Rep_snoc_inv; [done|]. apply rep_big_init; [done|lia].
    + destruct (two_refs l) as (x & y & ->); [lia|].
      pose proof (front_ref_spec _ _ _ H) as Ef. unfold _front_ref in Ef.
      rewrite (small_BV _ _ H) in Ef. cbn in Ef. rewrite Ef. cbn beta iota.
      rewrite (bv_ref_at_lookup v _ 1 y H) by (done || lia). cbn beta iota.
      eexists _, _. split; [done|]. split; [|done].
      eapply (Rep_snoc_inv _ [x; y]); [done|constructor].
Qed.

(** ** Whole buffers: clear, copy, assignment *)

Lemma new_IOBuf_Rep : Rep new_IOBuf [].
Proof. split; [constructor|constructor|done]. Qed.

Lemma for_bv_refs_dec v l n i w O :
  Rep (BV v) l -> 0 <= i -> i + Z.of_nat n = zlen l ->
  Inv w (blocks (drop (Z.to_nat i) l) ++ O) ->
  exists w', for_bv_refs dec_ref_of v n i w = Some ((), w') /\ Inv w' O /\ quiet w w'.
Proof.
  revert i w. induction n as [|n IH]; intros i w HR Hi Hn HI; cbn [for_bv_refs].
  - exists w. split; [done|]. split; [|done].
    by rewrite drop_ge in HI by (unfold zlen in *; lia).
  - destruct (lookup_lt_is_Some_2 l (Z.to_nat i)) as [r Hr]; [unfold zlen in *; lia|].
    rewrite (bv_ref_at_lookup v l i r) by done. run.
    destruct (proj1 (Forall_lookup _ _) (Rep_ok _ _ HR) _ _ Hr) as [[b Eb] _ _ _].
    rewrite (drop_S _ _ _ Hr), (blocks_cons _ _ _ Eb) in HI.
    destruct (dec_ref_of_spec r b w _ Eb HI) as (w1 & -> & HI1 & Hq1).
    cbn beta iota.
    destruct (IH (i + 1) w1) as (w2 & -> & HI2 & Hq2); [done|lia|lia| |].
    { by replace (Z.to_nat (i + 1)) with (S (Z.to_nat i)) by lia. }
    exists w2. split; [done|]. split; [done|by etrans].
Qed.

Lemma clear_refs_spec buf l w O :
  Rep buf l -> Inv w (blocks l ++ O) ->
  exists buf' w', clear buf w = Some (buf', w') /\ Rep buf' [] /\ Inv w' O /\ quiet w w'.
Proof.
  intros H HI. unfold clear. pose proof (Rep_ok _ _ H) as Hok. destruct buf as [r0 r1|v].
  - rewrite (small_SV _ _ _ H). cbn [_sv]. run. destruct H as [H _ _].
    inversion H; subst; cbn [not_null null_ref ref_block].
    + eexists _, _. split; [done|]. by split; [apply new_IOBuf_Rep|].
    + apply Forall_cons in Hok as [Hok _]. pose proof Hok as [[b Eb] _ _ _].
      rewrite (ok_not_null _ Hok). rewrite (blocks_cons _ _ _ Eb) in HI.
      destruct (dec_ref_of_spec _ _ _ _ Eb HI) as (w1 & -> & HI1 & Hq1). cbn beta iota.
      eexists _, _. split; [done|]. by split; [apply new_IOBuf_Rep|].
    + apply Forall_cons in Hok as [Hok0 [Hok1 _]%Forall_cons].
      pose proof Hok0 as [[b Eb] _ _ _]. pose proof Hok1 as [[b1 Eb1] _ _ _].
      rewrite (ok_not_null _ Hok0), (ok_not_null _ Hok1).
      rewrite (blocks_cons _ _ _ Eb), (blocks_cons _ _ _ Eb1) in HI.
      destruct (dec_ref_of_spec _ _ _ _ Eb HI) as (w1 & -> & HI1 & Hq1). cbn beta iota.
      destruct (dec_ref_of_spec _ _ _ _ Eb1 HI1) as (w2 & -> & HI2 & Hq2). cbn beta iota.
      eexists _, _. split; [done|]. split; [apply new_IOBuf_Rep|]. split; [done|by etrans].
  - rewrite (small_BV _ _ H). cbn [_bv]. run.
    destruct (big_inv _ _ H) as (k & _ & _ & Hnr & Hz & _).
    destruct (for_bv_refs_dec v l (Z.to_nat (nref v)) 0 w O) as (w1 & -> & HI1 & Hq1);
      [done|lia|lia|done|]. cbn beta iota.
    eexists _, _. split; [done|]. by split; [apply new_IOBuf_Rep|].
Qed.

Lemma inc_ref_of_spec r b w R :
  ref_block r = Some b -> Inv w R -> is_Some (heap w !! b) ->
  exists w', inc_ref_of r w = Some ((), w') /\ Inv w' (b :: R) /\ quiet w w'.
Proof. intros E H Hl. exact (owes_keep false r b w R E (conj H Hl)). Qed.

(** Copying the references of a BigView into an array; the original keeps its
    own ([blocks l] stays in the ownership). *)
Lemma copy_inc_spec v l n i nr w O :
  Rep (BV v) l -> 0 <= i -> i + Z.of_nat n = zlen l -> zlen l <= zlen nr ->
  take (Z.to_nat i) nr = take (Z.to_nat i) l -> Inv w (blocks l ++ O) ->
  exists nr' w', copy_inc v n i nr w = Some (nr', w') /\ zlen nr' = zlen nr /\
    take (Datatypes.length l) nr' = l /\ quiet w w' /\
    Inv w' (blocks (drop (Z.to_nat i) l) ++ blocks l ++ O).
Proof.
  revert i nr w O. induction n as [|n IH]; intros i nr w O HR Hi Hn Hl Ht HI; cbn [copy_inc].
  - exists nr, w. split; [done|]. split; [done|].
    assert (Z.to_nat i = Datatypes.length l) as E by (unfold zlen in *; lia).
    rewrite E in Ht. split; [by rewrite Ht, firstn_all|]. split; [done|].
    by rewrite drop_ge by lia.
  - destruct (lookup_lt_is_Some_2 l (Z.to_nat i)) as [r Hr]; [unfold zlen in *; lia|].
    rewrite (bv_ref_at_lookup v l i r) by done. run.
    rewrite set_ref_lookup by lia. cbn beta iota.
    destruct (proj1 (Forall_lookup _ _) (Rep_ok _ _ HR) _ _ Hr) as [[b Eb] _ _ _].
    assert (b ∈ blocks l) as Hb.
    { apply list_elem_of_omap. exists r. split; [by eapply list_elem_of_lookup_2|done]. }
    destruct (Inv_live w _ b HI) as (x & Hx & _); [apply elem_of_app; by left|].
    destruct (inc_ref_of_spec r b w _ Eb HI) as (w1 & -> & HI1 & Hq1); [by eexists|].
    cbn beta iota. rewrite Permutation_middle in HI1.
    destruct (IH (i + 1) (<[Z.to_nat i := r]> nr) w1 (b :: O))
      as (nr' & w2 & E & Hz & Ht' & Hq2 & HI2);
      [done|lia|lia|unfold zlen in *; rewrite length_insert; done| |done|].
    + replace (Z.to_nat (i + 1)) with (S (Z.to_nat i)) by lia.
      rewrite (take_S_r _ _ r), (take_S_r _ _ r); [|done|].
      * by rewrite take_insert_ge by lia; rewrite Ht.
      * apply list_lookup_insert_eq. unfold zlen in *. lia.
    + exists nr', w2. split; [done|]. unfold zlen in *. rewrite length_insert in Hz.
      split; [done|]. split; [done|]. split; [by etrans|].
      rewrite (drop_S _ _ _ Hr), (blocks_cons _ _ _ Eb).
      replace (S (Z.to_nat i)) with (Z.to_nat (i + 1)) by lia.
      cbn. by rewrite !Permutation_middle.
Qed.

Lemma rep_big_copy v l nr :
  Rep (BV v) l -> zlen nr = capacity v -> take (Datatypes.length l) nr = l ->
  forall m, m = -1 -> Rep (BV (mkBV m 0 nr (nref v) (cap_mask v) (nbytes v))) l.
Proof.
  intros H Hz Ht m ->. pose proof H as [_ Hok Htot]. destruct (big_inv _ _ H)
    as (k & Hm & HRg & Hnr & Hz' & Hk & H2k & Hcm & Hzr & Hnb & Hs & Hc & Hl).
  split; [|done|done]. apply (rep_big _ _ k); cbn; try done; try lia.
  apply Ring_take; [lia|done].
Qed.

Lemma copy_IOBuf_spec rhs l w O :
  Rep rhs l -> Inv w (blocks l ++ O) ->
  exists buf' w', copy_IOBuf rhs w = Some (buf', w') /\ Rep buf' l /\
    Inv w' (blocks l ++ blocks l ++ O) /\ quiet w w'.
Proof.
  intros H HI. unfold copy_IOBuf. pose proof (Rep_ok _ _ H) as Hok. destruct rhs as [r0 r1|v].
  - rewrite (small_SV _ _ _ H). cbn [_sv]. run. pose proof H as [H' _ _].
    inversion H'; subst; cbn [not_null null_ref ref_block].
    + eexists _, _. split; [done|]. by split.
    + apply Forall_cons in Hok as [Hok _]. pose proof Hok as [[b Eb] _ _ _].
      rewrite (ok_not_null _ Hok). rewrite (blocks_cons _ _ _ Eb) in *.
      destruct (Inv_live w _ b HI) as (x & Hx & _); [by left|].
      destruct (inc_ref_of_spec _ _ _ _ Eb HI) as (w1 & -> & HI1 & Hq1); [by eexists|].
      cbn beta iota. eexists _, _. split; [done|]. by split.
    + apply Forall_cons in Hok as [Hok0 [Hok1 _]%Forall_cons].
      pose proof Hok0 as [[b Eb] _ _ _]. pose proof Hok1 as [[b1 Eb1] _ _ _].
      rewrite (ok_not_null _ Hok0), (ok_not_null _ Hok1).
      rewrite (blocks_cons _ _ _ Eb), (blocks_cons _ _ _ Eb1) in *.
      destruct (Inv_live w _ b HI) as (x & Hx & _); [by left|].
      destruct (inc_ref_of_spec _ _ _ _ Eb HI) as (w1 & -> & HI1 & Hq1); [by eexists|].
      cbn beta iota.
      destruct (Inv_live w1 _ b1 HI1) as (x1 & Hx1 & _); [by right; right; left|].
      destruct (inc_ref_of_spec _ _ _ _ Eb1 HI1) as (w2 & -> & HI2 & Hq2); [by eexists|].
      cbn beta iota. eexists _, _. split; [done|]. split; [done|]. split; [|by etrans].
      cbn in *. by rewrite (Permutation_swap b b1) in HI2.
  - rewrite (small_BV _ _ H). cbn [_bv]. unfold acquire_blockref_array. run.
    destruct (big_inv _ _ H) as (k & _ & _ & Hnr & Hz & _ & H2k & _ & _ & _ & _ & Hc & _).
    destruct (copy_inc_spec v l (Z.to_nat (nref v)) 0
      (replicate (Z.to_nat (capacity v)) null_ref) (add_newbigview w) O)
      as (nr & w1 & -> & Hzn & Htk & Hq & HI1); [done|lia|lia| |done|by eapply Inv_same|].
    { unfold zlen at 2. rewrite length_replicate. lia. }
    cbn beta iota. eexists _, _. split; [done|]. unfold zlen in Hzn at 2.
    rewrite length_replicate in Hzn. split; [|split; [done|]].
    + apply (rep_big_copy v l nr); [done|lia|done|done].
    + etrans; [|exact Hq]. by apply quiet_same_heap.
Qed.

(** operator= gives up what [this] held and shares the references of [rhs]. *)
Lemma assign_IOBuf_spec this rhs l0 l w O :
  Rep this l0 -> Rep rhs l -> Inv w (blocks l0 ++ blocks l ++ O) ->
  exists buf' w', assign_IOBuf this rhs w = Some (buf', w') /\ Rep buf' l /\
    Inv w' (blocks l ++ blocks l ++ O) /\ quiet w w'.
Proof.
  intros H0 H HI. unfold assign_IOBuf.
  assert (exists buf' w', (_ ← clear this; copy_IOBuf rhs) w = Some (buf', w') /\ Rep buf' l /\
    Inv w' (blocks l ++ blocks l ++ O) /\ quiet w w') as Hdef.
  { destruct (clear_refs_spec this l0 w _ H0 HI) as (b1 & w1 & E & _ & HI1 & Hq1).
    rewrite (bind_Some _ _ _ _ _ E).
    destruct (copy_IOBuf_spec rhs l w1 O H HI1) as (b2 & w2 & -> & ? & ? & ?).
    eexists _, _. split; [done|]. split_and!; try done. by etrans. }
  destruct (_small rhs) eqn:Es; [done|]. destruct (_small this) eqn:Et; [done|].
  destruct this as [? ?|t]; [by rewrite (small_SV _ _ _ H0) in Et|].
  destruct rhs as [? ?|v]; [by rewrite (small_SV _ _ _ H) in Es|].
  cbn [_bv]. destruct (Z.eqb_spec (cap_mask t) (cap_mask v)) as [Ec|]; [|done].
  destruct (big_inv _ _ H0) as (k0 & Hm0 & _ & Hnr0 & Hz0 & _ & _ & Hcm0 & Hzr0 & _).
  destruct (big_inv _ _ H) as (k & _ & _ & Hnr & Hz & _ & H2k & Hcm & _ & _ & _ & Hc & _).
  destruct (for_bv_refs_dec t l0 (Z.to_nat (nref t)) 0 w (blocks l ++ O))
    as (w1 & E1 & HI1 & Hq1); [done|lia|lia|done|]. run. rewrite E1. cbn beta iota.
  destruct (copy_inc_spec v l (Z.to_nat (nref v)) 0 (refs t) w1 O)
    as (nr & w2 & -> & Hzn & Htk & Hq2 & HI2); [done|lia|lia|lia|done|done|].
  cbn beta iota. eexists _, _. split; [done|]. split; [|split; [done|by etrans]].
  rewrite Ec. apply (rep_big_copy v l nr); [done|lia|done|done].
Qed.

End IOBufRef.
