(* ===== verification/IOBufOps.v ===== *)
(** * IOBufOps: cutting, appending, copying and comparing IOBufs

    utility/iobuf.cc and iobuf_inl.h: the operations of class IOBuf above the
    queue of references ([IOBufRef]).  An operation takes the buffer(s) and
    returns the result of the C++ function with the new buffer(s); memory that
    the C++ writes through a [void*] is a returned list of bytes.  Objects named
    by different parameters are distinct ([append(self)] is not modelled).

    The specification of a buffer is the string [bytes w l] of its references:
    [Buf w buf l] says that [buf] holds the references [l], all of them to
    written bytes of live blocks.  [writev], [pwritev] and [IWriter::WriteV] are
    parameters: they get the pieces and return how much they took. *)

From S2P Require Import Prelude IOBlock IOBufRef.
Import IOBlock IOBufRef.

Module IOBufOps.

(** ** Memory of a block *)

(** Outside of the block's memory a read or a write is undefined. *)
Definition read_at (r : BlockRef) (off len : Z) : M World (list byte) :=
  b ← deref (ref_block r);
  blk ← block_at b;
  if (0 <=? off) && (0 <=? len) && (off + len <=? cap blk)
  then mret (slice off len (data blk)) else undefined.

Definition write_at (b : nat) (off : Z) (d : list byte) : M World () :=
  blk ← block_at b;
  if (0 <=? off) && (off + zlen d <=? cap blk)
  then set_block b (with_data (overwrite off d (data blk)) blk) else undefined.

(** r.block->data + r.offset, r.length *)
Definition read_ref (r : BlockRef) : M World (list byte) :=
  read_at r (ref_offset r) (ref_length r).

(** ** Cutting *)

(** Assignment through the reference _front_ref() or _back_ref(). *)
Definition set_front (r : BlockRef) (buf : IOBuf) : M World IOBuf :=
  if _small buf then '(_, r1) ← lift (_sv buf); mret (SV r r1)
  else
    v ← lift (_bv buf);
    l ← set_ref (start v) r (refs v);
    mret (BV (mkBV (magic v) (start v) l (nref v) (cap_mask v) (nbytes v))).

Definition set_back (r : BlockRef) (buf : IOBuf) : M World IOBuf :=
  if _small buf then
    '(r0, r1) ← lift (_sv buf);
    mret (if not_null r1 then SV r0 r else SV r r1)
  else
    v ← lift (_bv buf);
    l ← set_ref (Z.of_nat (bv_slot v (u32 (nref v - 1)))) r (refs v);
    mret (BV (mkBV (magic v) (start v) l (nref v) (cap_mask v) (nbytes v))).

(** if (!_small()) _bv.nbytes -= n; *)
Definition sub_nbytes (n : Z) (buf : IOBuf) : M World IOBuf :=
  if _small buf then mret buf
  else
    v ← lift (_bv buf);
    mret (BV (mkBV (magic v) (start v) (refs v) (nref v) (cap_mask v) (u64 (nbytes v - n)))).

(** r.offset += n; r.length -= n; if (!_small()) _bv.nbytes -= n; *)
Definition advance_front (n : Z) (r : BlockRef) (buf : IOBuf) : M World IOBuf :=
  buf ← set_front (mkRef (u32 (ref_offset r + n)) (u32 (ref_length r - n)) (ref_block r)) buf;
  sub_nbytes n buf.

Definition retract_back (n : Z) (r : BlockRef) (buf : IOBuf) : M World IOBuf :=
  buf ← set_back (mkRef (ref_offset r) (u32 (ref_length r - n)) (ref_block r)) buf;
  sub_nbytes n buf.

Fixpoint pop_front_loop (fuel : nat) (n : Z) (buf : IOBuf) : M World IOBuf :=
  match fuel with
  | O => undefined
  | S fuel =>
      if n =? 0 then mret buf
      else
        r ← lift (_front_ref buf);
        if n <? ref_length r then advance_front n r buf
        else
          '(_, buf) ← _pop_front_ref buf;
          pop_front_loop fuel (u64 (n - ref_length r)) buf
  end.

(** Loops that take one reference per step have fuel for all of them. *)
Definition ref_fuel (buf : IOBuf) : nat :=
  match _ref_num buf with Some n => S (Z.to_nat n) | None => 0 end.

Definition pop_front (n : Z) (buf : IOBuf) : M World (Z * IOBuf) :=
  len ← lift (length buf);
  if len <=? n then buf ← clear buf; mret (len, buf)
  else buf ← pop_front_loop (ref_fuel buf) n buf; mret (n, buf).

Definition cut1 (buf : IOBuf) : M World (option byte * IOBuf) :=
  e ← lift (empty buf);
  if e : bool then mret (None, buf)
  else
    r ← lift (_front_ref buf);
    d ← read_at r (ref_offset r) 1;
    c ← lift (head d);
    buf ← if 1 <? ref_length r then advance_front 1 r buf
          else '(_, buf) ← _pop_front_ref buf; mret buf;
    mret (Some c, buf).

Fixpoint pop_back_loop (fuel : nat) (n : Z) (buf : IOBuf) : M World IOBuf :=
  match fuel with
  | O => undefined
  | S fuel =>
      if n =? 0 then mret buf
      else
        r ← lift (_back_ref buf);
        if n <? ref_length r then retract_back n r buf
        else
          '(_, buf) ← _pop_back_ref buf;
          pop_back_loop fuel (u64 (n - ref_length r)) buf
  end.

Definition pop_back (n : Z) (buf : IOBuf) : M World (Z * IOBuf) :=
  len ← lift (length buf);
  if len <=? n then buf ← clear buf; mret (len, buf)
  else buf ← pop_back_loop (ref_fuel buf) n buf; mret (n, buf).

Fixpoint cutn_loop (fuel : nat) (n : Z) (this out : IOBuf) : M World (IOBuf * IOBuf) :=
  match fuel with
  | O => undefined
  | S fuel =>
      if n =? 0 then mret (this, out)
      else
        r ← lift (_front_ref this);
        if ref_length r <=? n then
          out ← _move_back_ref r out;
          '(_, this) ← _moveout_front_ref this;
          cutn_loop fuel (u64 (n - ref_length r)) this out
        else
          out ← _push_back_ref (mkRef (ref_offset r) (u32 n) (ref_block r)) out;
          this ← advance_front n r this;
          mret (this, out)
  end.

(** size_t cutn(IOBuf* out, size_t n): returns (count, this, out). *)
Definition cutn (this out : IOBuf) (n : Z) : M World (Z * IOBuf * IOBuf) :=
  len ← lift (length this);
  let n := if len <? n then len else n in
  '(this, out) ← cutn_loop (ref_fuel this) n this out;
  mret (n, this, out).

Fixpoint cutn_void_loop (fuel : nat) (n : Z) (buf : IOBuf) (out : list byte)
    : M World (list byte * IOBuf) :=
  match fuel with
  | O => undefined
  | S fuel =>
      if n =? 0 then mret (out, buf)
      else
        r ← lift (_front_ref buf);
        if ref_length r <=? n then
          d ← read_ref r;
          '(_, buf) ← _pop_front_ref buf;
          cutn_void_loop fuel (u64 (n - ref_length r)) buf (out ++ d)
        else
          d ← read_at r (ref_offset r) n;
          buf ← advance_front n r buf;
          mret (out ++ d, buf)
  end.

(** size_t cutn(void* out, size_t n): returns (count, bytes written, this). *)
Definition cutn_void (buf : IOBuf) (n : Z) : M World (Z * list byte * IOBuf) :=
  len ← lift (length buf);
  let n := if len <? n then len else n in
  '(d, buf) ← cutn_void_loop (ref_fuel buf) n buf [];
  mret (n, d, buf).

(** std::string: resize by zeros, then write into it. *)
Definition string_resize (n : Z) (s : list byte) : list byte :=
  take (Z.to_nat n) s ++ replicate (Z.to_nat n - List.length s) x00.

Definition cutn_string (buf : IOBuf) (s : list byte) (n : Z) : M World (Z * list byte * IOBuf) :=
  if n =? 0 then mret (0, s, buf)
  else
    len ← lift (length buf);
    let n := if len <? n then len else n in
    let old_size := zlen s in
    let s := string_resize (zlen s + n) s in
    '(k, d, buf) ← cutn_void buf n;
    mret (k, overwrite old_size d s, buf).

(** The position of the first occurrence in a piece, counting from [n]. *)
Fixpoint scan_char (d : byte) (s : list byte) (n : Z) : option Z :=
  match s with
  | [] => None
  | c :: s => if Byte.eqb c d then Some n else scan_char d s (n + 1)
  end.

Fixpoint find_char (buf : IOBuf) (d : byte) (k : nat) (i n : Z) : M World (option Z) :=
  match k with
  | O => mret None
  | S k =>
      r ← lift (_ref_at buf i);
      s ← read_ref r;
      match scan_char d s n with
      | Some n => mret (Some n)
      | None => find_char buf d k (i + 1) (n + ref_length r)
      end
  end.

Definition _cut_by_char (this out : IOBuf) (d : byte) : M World (Z * IOBuf * IOBuf) :=
  nref ← lift (_ref_num this);
  found ← find_char this d (Z.to_nat nref) 0 0;
  match found with
  | Some n =>
      '(_, this, out) ← cutn this out n;
      '(_, this) ← pop_front 1 this;
      mret (0, this, out)
  | None => mret (-1, this, out)
  end.

(** static_cast<unsigned long>(c): char is signed, so bytes above 127 are
    extended with ones. *)
Definition SigType_of (c : byte) : Z :=
  let z := Z.of_N (Byte.to_N c) in u64 (if z <? 128 then z else z - 256).

Definition push_sig (sig : Z) (c : byte) : Z :=
  Z.lor (u64 (Z.shiftl sig 8)) (SigType_of c).

Definition delim_sig (dbegin : list byte) : Z := foldl push_sig 0 dbegin.

Definition SIGMASK (ndelim : Z) : Z :=
  if ndelim =? 8 then 2 ^ 64 - 1 else u64 (Z.shiftl 1 (ndelim * 8) - 1).

(** Where the signature is found, or the signature at the end of the piece. *)
Fixpoint scan_sig (mask dsig sig : Z) (s : list byte) (n : Z) : Z + Z :=
  match s with
  | [] => inr sig
  | c :: s =>
      let sig := Z.land (push_sig sig c) mask in
      if sig =? dsig then inl n else scan_sig mask dsig sig s (n + 1)
  end.

Fixpoint find_sig (buf : IOBuf) (mask dsig sig : Z) (k : nat) (i n : Z) : M World (option Z) :=
  match k with
  | O => mret None
  | S k =>
      r ← lift (_ref_at buf i);
      s ← read_ref r;
      match scan_sig mask dsig sig s n with
      | inl n => mret (Some n)
      | inr sig => find_sig buf mask dsig sig k (i + 1) (n + ref_length r)
      end
  end.

Definition _cut_by_delim (this out : IOBuf) (delim : list byte) : M World (Z * IOBuf * IOBuf) :=
  let ndelim := zlen delim in
  len ← lift (length this);
  if (8 <? ndelim) || (len <? ndelim) then mret (-1, this, out)
  else
    nref ← lift (_ref_num this);
    found ← find_sig this (SIGMASK ndelim) (delim_sig delim) 0 (Z.to_nat nref) 0 0;
    match found with
    | Some n =>
        '(_, this, out) ← cutn this out (u64 (n + 1 - ndelim));
        '(_, this) ← pop_front ndelim this;
        mret (0, this, out)
    | None => mret (-1, this, out)
    end.

(** cut_until(IOBuf*, const std::string&); for a C string the same function of
    its characters. *)
Definition cut_until (this out : IOBuf) (delim : list byte) : M World (Z * IOBuf * IOBuf) :=
  match delim with
  | [] => mret (-1, this, out)
  | [c] => _cut_by_char this out c
  | _ => _cut_by_delim this out delim
  end.

(** ** Writing into a writer

    [WriteV pieces] is what writev, pwritev or IWriter::WriteV returns. *)

Definition IOBUF_IOV_MAX := 256.

(** The do-while loop over the references: from [i] on, at most [k]. *)
Fixpoint gather (buf : IOBuf) (size_hint : Z) (k : nat) (i cur_len : Z) (vec : list (list byte))
    : M World (list (list byte)) :=
  match k with
  | O => mret vec
  | S k =>
      r ← lift (_ref_at buf i);
      s ← read_ref r;
      let cur_len := u64 (cur_len + ref_length r) in
      let vec := vec ++ [s] in
      if cur_len <? size_hint then gather buf size_hint k (i + 1) cur_len vec
      else mret vec
  end.

(** cut_into_writer, and pcut_into_file_descriptor with the system call. *)
Definition cut_into_writer (WriteV : list (list byte) -> Z) (size_hint : Z) (this : IOBuf)
    : M World (Z * IOBuf) :=
  e ← lift (empty this);
  if e : bool then mret (0, this)
  else
    n ← lift (_ref_num this);
    let nref := Z.min n IOBUF_IOV_MAX in
    vec ← gather this size_hint (Z.to_nat nref) 0 0 [];
    let nw := WriteV vec in
    if 0 <? nw then '(_, this) ← pop_front nw this; mret (nw, this)
    else mret (nw, this).

Definition pcut_into_file_descriptor (pwritev writev : list (list byte) -> Z)
    (offset size_hint : Z) (this : IOBuf) : M World (Z * IOBuf) :=
  cut_into_writer (if 0 <=? offset then pwritev else writev) size_hint this.

(** The pieces of one buffer, while the vector has room. *)
Fixpoint gather_piece (buf : IOBuf) (k : nat) (j : Z) (vec : list (list byte))
    : M World (list (list byte)) :=
  match k with
  | O => mret vec
  | S k =>
      if zlen vec <? IOBUF_IOV_MAX then
        r ← lift (_ref_at buf j);
        s ← read_ref r;
        gather_piece buf k (j + 1) (vec ++ [s])
      else mret vec
  end.

Fixpoint gather_pieces (pieces : list IOBuf) (vec : list (list byte)) : M World (list (list byte)) :=
  match pieces with
  | [] => mret vec
  | p :: pieces =>
      nref ← lift (_ref_num p);
      vec ← gather_piece p (Z.to_nat nref) 0 vec;
      gather_pieces pieces vec
  end.

(** for (...) { npop_all -= pieces[i]->pop_front(npop_all); if (npop_all == 0) break; } *)
Fixpoint pop_pieces (npop_all : Z) (pieces : list IOBuf) : M World (list IOBuf) :=
  match pieces with
  | [] => mret []
  | p :: pieces =>
      '(n, p) ← pop_front npop_all p;
      let npop_all := u64 (npop_all - n) in
      if npop_all =? 0 then mret (p :: pieces)
      else rest ← pop_pieces npop_all pieces; mret (p :: rest)
  end.

Definition default_size_hint := 1048576.

Definition cut_multiple_into_writer (WriteV : list (list byte) -> Z) (pieces : list IOBuf)
    : M World (Z * list IOBuf) :=
  match pieces with
  | [] => mret (0, [])
  | [p] => '(nw, p) ← cut_into_writer WriteV default_size_hint p; mret (nw, [p])
  | _ =>
      vec ← gather_pieces pieces [];
      let nw := WriteV vec in
      if nw <=? 0 then mret (nw, pieces)
      else pieces ← pop_pieces nw pieces; mret (nw, pieces)
  end.

Definition pcut_multiple_into_file_descriptor (pwritev writev : list (list byte) -> Z)
    (offset : Z) (pieces : list IOBuf) : M World (Z * list IOBuf) :=
  cut_multiple_into_writer (if 0 <=? offset then pwritev else writev) pieces.

(** ** Appending *)

Fixpoint append_refs (this other : IOBuf) (move : bool) (k : nat) (i : Z) : M World IOBuf :=
  match k with
  | O => mret this
  | S k =>
      r ← lift (_ref_at other i);
      this ← push_or_move move r this;
      append_refs this other move k (i + 1)
  end.

(** append(const IOBuf& other) *)
Definition append_IOBuf (this other : IOBuf) : M World IOBuf :=
  nref ← lift (_ref_num other);
  append_refs this other false (Z.to_nat nref) 0.

(** append(const Movable& movable_other): returns (this, other). *)
Definition append_Movable (this other : IOBuf) : M World (IOBuf * IOBuf) :=
  e ← lift (empty this);
  if e : bool then mret (swap this other)
  else
    nref ← lift (_ref_num other);
    this ← append_refs this other true (Z.to_nat nref) 0;
    mret (this, new_IOBuf).

Section Append.
Context `{Alloc}.

Definition push_back (c : byte) (this : IOBuf) : M World (Z * IOBuf) :=
  p ← share_tls_block;
  match p with
  | None => mret (-1, this)
  | Some b =>
      blk ← block_at b;
      _ ← write_at b (size blk) [c];
      let r := mkRef (size blk) 1 (Some b) in
      blk ← block_at b;
      _ ← set_block b (with_size (u32 (size blk + 1)) blk);
      this ← _push_back_ref r this;
      mret (0, this)
  end.

(** One turn of the loop of append, resize and reserve: reference the next
    bytes of the shared block ([fill nc] is what is written there, if
    anything).  Returns [nc], or None when no block could be allocated. *)
Definition grow_once (fill : Z -> option (list byte)) (left : Z) (this : IOBuf)
    : M World (option Z * IOBuf) :=
  p ← share_tls_block;
  match p with
  | None => mret (None, this)
  | Some b =>
      blk ← block_at b;
      let nc := Z.min left (left_space blk) in
      _ ← match fill nc with Some d => write_at b (size blk) d | None => mret () end;
      this ← _push_back_ref (mkRef (size blk) (u32 nc) (Some b)) this;
      blk ← block_at b;
      _ ← set_block b (with_size (u32 (size blk + nc)) blk);
      mret (Some nc, this)
  end.

Fixpoint append_loop (fuel : nat) (rest : list byte) (this : IOBuf) : M World (Z * IOBuf) :=
  match fuel with
  | O => undefined
  | S fuel =>
      if zlen rest =? 0 then mret (0, this)
      else
        '(nc, this) ← grow_once (fun nc => Some (take (Z.to_nat nc) rest)) (zlen rest) this;
        match nc with
        | None => mret (-1, this)
        | Some nc => append_loop fuel (drop (Z.to_nat nc) rest) this
        end
  end.

(** append(void const* data, size_t count); every turn takes at least a byte. *)
Definition append (data : option (list byte)) (this : IOBuf) : M World (Z * IOBuf) :=
  match data with
  | None => mret (-1, this)
  | Some [c] => push_back c this
  | Some data => append_loop (S (List.length data)) data this
  end.

(** append(char const* s): strlen counts the characters before the NUL. *)
Fixpoint strlen_prefix (s : list byte) : list byte :=
  match s with
  | [] => []
  | c :: s => if Byte.eqb c x00 then [] else c :: strlen_prefix s
  end.
Definition append_cstr (s : option (list byte)) (this : IOBuf) : M World (Z * IOBuf) :=
  match s with
  | Some s => append (Some (strlen_prefix s)) this
  | None => mret (-1, this)
  end.

(** The inner loop of appendv: fill the block from the vectors.  Returns the
    vectors left, the offset in the first of them and the bytes copied. *)
Fixpoint appendv_fill (b : nat) (left_space size : Z) (vec : list (list byte))
    (offset total_cp : Z) : M World (list (list byte) * Z * Z) :=
  match vec with
  | [] => mret ([], offset, total_cp)
  | v :: rest =>
      let nc := Z.min (u64 (zlen v - offset)) (u64 (left_space - total_cp)) in
      _ ← write_at b (size + total_cp) (slice offset nc v);
      let total_cp := u32 (total_cp + nc) in
      let offset := offset + nc in
      if offset =? zlen v then appendv_fill b left_space size rest 0 total_cp
      else mret (vec, offset, total_cp)
  end.

Fixpoint appendv_loop (fuel : nat) (vec : list (list byte)) (offset : Z) (this : IOBuf)
    : M World (Z * IOBuf) :=
  match fuel with
  | O => undefined
  | S fuel =>
      match vec with
      | [] => mret (0, this)
      | _ =>
          p ← share_tls_block;
          match p with
          | None => mret (-1, this)
          | Some b =>
              blk ← block_at b;
              '(vec, offset, total_cp) ← appendv_fill b (left_space blk) (size blk) vec offset 0;
              let r := mkRef (size blk) total_cp (Some b) in
              blk ← block_at b;
              _ ← set_block b (with_size (u32 (size blk + total_cp)) blk);
              this ← _push_back_ref r this;
              appendv_loop fuel vec offset this
          end
      end
  end.

Definition appendv (vec : list (list byte)) (this : IOBuf) : M World (Z * IOBuf) :=
  appendv_loop (S (S (List.length (concat vec)))) vec 0 this.

(** A null [deleter] means ::free, written [None]; an empty piece of data is
    deleted at once.  LOG(FATAL) aborts. *)
Definition append_user_data_with_meta (d : list byte) (del : option Z) (meta : Z) (this : IOBuf)
    : M World (Z * IOBuf) :=
  let size := zlen d in
  if 0xFFFFFFFF - 100 <? size then undefined
  else if size =? 0 then _ ← modify (add_deleted del); mret (0, this)
  else
    mem ← malloc;
    match mem with
    | None => mret (-1, this)
    | Some b =>
        _ ← set_block b (mkBlock 1 IOBUF_BLOCK_FLAGS_USER_DATA (u32 size) (u32 size)
                           (data_meta meta) d del);
        this ← _move_back_ref (mkRef 0 (u32 size) (Some b)) this;
        mret (0, this)
    end.

Definition append_user_data (d : list byte) (del : option Z) (this : IOBuf) :=
  append_user_data_with_meta d del 0 this.

Fixpoint resize_loop (fuel : nat) (left : Z) (c : byte) (this : IOBuf) : M World (Z * IOBuf) :=
  match fuel with
  | O => undefined
  | S fuel =>
      if left <=? 0 then mret (0, this)
      else
        '(nc, this) ← grow_once (fun nc => Some (replicate (Z.to_nat nc) c)) left this;
        match nc with
        | None => mret (-1, this)
        | Some nc => resize_loop fuel (left - nc) c this
        end
  end.

Definition resize (n : Z) (c : byte) (this : IOBuf) : M World (Z * IOBuf) :=
  saved_len ← lift (length this);
  if n <? saved_len then '(_, this) ← pop_back (saved_len - n) this; mret (0, this)
  else resize_loop (S (Z.to_nat (n - saved_len))) (n - saved_len) c this.

(** ** Areas *)

Definition REF_INDEX_BITS := 19.
Definition REF_OFFSET_BITS := 15.
Definition AREA_SIZE_BITS := 30.
Definition MAX_REF_INDEX := Z.shiftl 1 REF_INDEX_BITS - 1.
Definition MAX_REF_OFFSET := Z.shiftl 1 REF_OFFSET_BITS - 1.
Definition MAX_AREA_SIZE := Z.shiftl 1 AREA_SIZE_BITS - 1.
Definition INVALID_AREA := 0.

Definition make_area (ref_index ref_offset size : Z) : Z :=
  if (MAX_REF_INDEX <? ref_index) || (MAX_REF_OFFSET <? ref_offset) || (MAX_AREA_SIZE <? size)
  then INVALID_AREA
  else Z.lor (Z.lor (u64 (Z.shiftl ref_index (REF_OFFSET_BITS + AREA_SIZE_BITS)))
                (u64 (Z.shiftl ref_offset AREA_SIZE_BITS))) size.
Definition get_area_ref_index (c : Z) : Z :=
  Z.land (u32 (Z.shiftr c (REF_OFFSET_BITS + AREA_SIZE_BITS))) MAX_REF_INDEX.
Definition get_area_ref_offset (c : Z) : Z :=
  Z.land (u32 (Z.shiftr c AREA_SIZE_BITS)) MAX_REF_OFFSET.
Definition get_area_size (c : Z) : Z := Z.land c MAX_AREA_SIZE.

Fixpoint reserve_loop (fuel : nat) (count total_nc area : Z) (this : IOBuf) : M World (Z * IOBuf) :=
  match fuel with
  | O => undefined
  | S fuel =>
      if count <=? total_nc then mret (area, this)
      else
        '(nc, this) ← grow_once (fun _ => None) (count - total_nc) this;
        match nc with
        | None => mret (INVALID_AREA, this)
        | Some nc =>
            area ← (if total_nc =? 0 then
                      n ← lift (_ref_num this);
                      back ← lift (_back_ref this);
                      mret (make_area (u32 (n - 1)) (u32 (ref_length back - nc)) (u32 count))
                    else mret area);
            reserve_loop fuel count (total_nc + nc) area this
        end
  end.

Definition reserve (count : Z) (this : IOBuf) : M World (Z * IOBuf) :=
  reserve_loop (S (Z.to_nat count)) count 0 INVALID_AREA this.
End Append.

(** The walk over the references of an area; falling off the end is the failed
    CHECK, which aborts. *)
Fixpoint assign_loop (this : IOBuf) (k : nat) (i ref_offset length : Z) (d : list byte)
    : M World Z :=
  match k with
  | O => undefined
  | S k =>
      r ← lift (_ref_at this i);
      let nc := Z.min length (u32 (ref_length r - ref_offset)) in
      if zlen d <? nc then undefined
      else
        b ← deref (ref_block r);
        _ ← write_at b (IOBufRef.ref_offset r + ref_offset) (take (Z.to_nat nc) d);
        if length =? nc then mret 0
        else assign_loop this k (i + 1) 0 (u32 (length - nc)) (drop (Z.to_nat nc) d)
  end.

Definition unsafe_assign (area : Z) (d : option (list byte)) (this : IOBuf) : M World Z :=
  match d with
  | None => mret (-1)
  | Some d =>
      if area =? INVALID_AREA then mret (-1)
      else
        nref ← lift (_ref_num this);
        let ref_index := get_area_ref_index area in
        assign_loop this (Z.to_nat (nref - ref_index)) ref_index
          (get_area_ref_offset area) (get_area_size area) d
  end.

(** ** Reading *)

Definition get_first_data_meta (this : IOBuf) : M World Z :=
  n ← lift (_ref_num this);
  if n =? 0 then mret 0
  else
    r ← lift (_ref_at this 0);
    b ← deref (ref_block r);
    blk ← block_at b;
    if Z.land (flags blk) IOBUF_BLOCK_FLAGS_USER_DATA =? 0 then mret 0
    else match u blk with data_meta m => mret m | portal_next _ => undefined end.

(** Skip `pos' bytes: the reference reached and the offset inside of it. *)
Fixpoint skip_pos (this : IOBuf) (k : nat) (i offset : Z) : M World (nat * Z * Z) :=
  match k with
  | O => mret (O, i, offset)
  | S k' =>
      if offset =? 0 then mret (k, i, offset)
      else
        r ← lift (_ref_at this i);
        if offset <? ref_length r then mret (k, i, offset)
        else skip_pos this k' (i + 1) (offset - ref_length r)
  end.

Fixpoint append_to_loop (this buf : IOBuf) (k : nat) (i offset m : Z) : M World (Z * IOBuf) :=
  match k with
  | O => mret (m, buf)
  | S k =>
      if m =? 0 then mret (m, buf)
      else
        r ← lift (_ref_at this i);
        let nc := Z.min m (u64 (ref_length r - offset)) in
        buf ← _push_back_ref (mkRef (u32 (ref_offset r + offset)) (u32 nc) (ref_block r)) buf;
        append_to_loop this buf k (i + 1) 0 (m - nc)
  end.

(** append_to(IOBuf* buf, size_t n, size_t pos): returns (count, buf). *)
Definition append_to (this buf : IOBuf) (n pos : Z) : M World (Z * IOBuf) :=
  nref ← lift (_ref_num this);
  '(k, i, offset) ← skip_pos this (Z.to_nat nref) 0 pos;
  '(m, buf) ← append_to_loop this buf k i offset n;
  mret (n - m, buf).

Fixpoint copy_to_loop (this : IOBuf) (k : nat) (i offset m : Z) (d : list byte)
    : M World (Z * list byte) :=
  match k with
  | O => mret (m, d)
  | S k =>
      if m =? 0 then mret (m, d)
      else
        r ← lift (_ref_at this i);
        let nc := Z.min m (u64 (ref_length r - offset)) in
        s ← read_at r (ref_offset r + offset) nc;
        copy_to_loop this k (i + 1) 0 (m - nc) (d ++ s)
  end.

(** copy_to(void* d, size_t n, size_t pos): returns (count, bytes written). *)
Definition copy_to (this : IOBuf) (n pos : Z) : M World (Z * list byte) :=
  nref ← lift (_ref_num this);
  '(k, i, offset) ← skip_pos this (Z.to_nat nref) 0 pos;
  '(m, d) ← copy_to_loop this k i offset n [];
  mret (n - m, d).

Definition copy_to_string (this : IOBuf) (s : list byte) (n pos : Z) : M World (Z * list byte) :=
  len ← lift (length this);
  if len <=? pos then mret (0, s)
  else
    let n := if len - pos <? n then len - pos else n in
    let s := string_resize n s in
    '(k, d) ← copy_to this n pos;
    mret (k, overwrite 0 d s).

Definition append_to_string (this : IOBuf) (s : list byte) (n pos : Z) : M World (Z * list byte) :=
  len ← lift (length this);
  if len <=? pos then mret (0, s)
  else
    let n := if len - pos <? n then len - pos else n in
    let old_size := zlen s in
    let s := string_resize (old_size + n) s in
    '(k, d) ← copy_to this n pos;
    mret (k, overwrite old_size d s).

Definition copy_to_cstr (this : IOBuf) (n pos : Z) : M World (Z * list byte) :=
  '(nc, d) ← copy_to this n pos;
  mret (nc, d ++ [x00]).

(** to_string(): copy_to with the default n = (size_t)-1, pos = 0. *)
Definition to_string (this : IOBuf) : M World (list byte) :=
  '(_, s) ← copy_to_string this [] (2 ^ 64 - 1) 0; mret s.

(** fetch(void* d, size_t n) returns NULL, a pointer into the first block, or
    [d] after copying; here the [n] bytes found at the returned pointer. *)
Fixpoint fetch_loop (this : IOBuf) (k : nat) (i n total_nc : Z) (d : list byte)
    : M World (option (list byte)) :=
  match k with
  | O => mret None
  | S k =>
      r ← lift (_ref_at this i);
      if n <=? u64 (ref_length r + total_nc) then
        s ← read_at r (ref_offset r) (n - total_nc); mret (Some (d ++ s))
      else
        s ← read_ref r;
        fetch_loop this k (i + 1) n (u64 (total_nc + ref_length r)) (d ++ s)
  end.

Definition fetch (this : IOBuf) (n : Z) : M World (option (list byte)) :=
  len ← lift (length this);
  if n <=? len then
    r0 ← lift (_ref_at this 0);
    if n <=? ref_length r0 then s ← read_at r0 (ref_offset r0) n; mret (Some s)
    else
      s ← read_ref r0;
      nref ← lift (_ref_num this);
      fetch_loop this (Z.to_nat (nref - 1)) 1 n (ref_length r0) s
  else mret None.

Definition fetch1 (this : IOBuf) : M World (option byte) :=
  e ← lift (empty this);
  if e : bool then mret None
  else
    r0 ← lift (_front_ref this);
    s ← read_at r0 (ref_offset r0) 1;
    c ← lift (head s);
    mret (Some c).

Definition backing_block (this : IOBuf) (i : Z) : M World (list byte) :=
  n ← lift (_ref_num this);
  if i <? n then r ← lift (_ref_at this i); read_ref r else mret [].

Fixpoint equals_loop (this : IOBuf) (k : nat) (i : Z) (s : list byte) : M World bool :=
  match k with
  | O => mret true
  | S k =>
      r ← lift (_ref_at this i);
      d ← read_ref r;
      if bool_decide (d = take (Z.to_nat (ref_length r)) s)
      then equals_loop this k (i + 1) (drop (Z.to_nat (ref_length r)) s)
      else mret false
  end.

(** equals(const StringPiece& s) *)
Definition equals_piece (this : IOBuf) (s : list byte) : M World bool :=
  len ← lift (length this);
  if negb (len =? zlen s) then mret false
  else nref ← lift (_ref_num this); equals_loop this (Z.to_nat nref) 0 s.

(** The do-while loop of equals(const IOBuf&): [d1], [d2] are what remains of
    the current references, [i], [j] the next ones. *)
Fixpoint equals_IOBuf_loop (this other : IOBuf) (fuel : nat) (nref1 nref2 i j : Z)
    (d1 d2 : list byte) : M World bool :=
  match fuel with
  | O => undefined
  | S fuel =>
      let cmplen := Z.min (zlen d1) (zlen d2) in
      if negb (bool_decide (take (Z.to_nat cmplen) d1 = take (Z.to_nat cmplen) d2))
      then mret false
      else
        let d1 := drop (Z.to_nat cmplen) d1 in
        let d2 := drop (Z.to_nat cmplen) d2 in
        st ← (if zlen d1 =? 0 then
                if nref1 <=? i then mret None
                else r ← lift (_ref_at this i); d1 ← read_ref r; mret (Some (i + 1, d1))
              else mret (Some (i, d1)));
        match st with
        | None => mret true
        | Some (i, d1) =>
            st ← (if zlen d2 =? 0 then
                    if nref2 <=? j then mret None
                    else r ← lift (_ref_at other j); d2 ← read_ref r; mret (Some (j + 1, d2))
                  else mret (Some (j, d2)));
            match st with
            | None => mret true
            | Some (j, d2) => equals_IOBuf_loop this other fuel nref1 nref2 i j d1 d2
            end
        end
  end.

Definition equals_IOBuf (this other : IOBuf) : M World bool :=
  sz1 ← lift (length this);
  sz2 ← lift (length other);
  if negb (sz1 =? sz2) then mret false
  else if sz1 =? 0 then mret true
  else
    r1 ← lift (_ref_at this 0);
    d1 ← read_ref r1;
    r2 ← lift (_ref_at other 0);
    d2 ← read_ref r2;
    nref1 ← lift (_ref_num this);
    nref2 ← lift (_ref_num other);
    equals_IOBuf_loop this other (ref_fuel this + ref_fuel other) nref1 nref2 1 1 d1 d2.

(** ** The string an IOBuf holds *)

Definition ref_bytes (w : World) (r : BlockRef) : list byte :=
  match ref_block r with
  | Some b => match heap w !! b with
              | Some x => slice (ref_offset r) (ref_length r) (data x)
              | None => []
              end
  | None => []
  end.

Definition bytes (w : World) (l : list BlockRef) : list byte := concat (ref_bytes w <$> l).

(** The bytes of the reference have been written: they lie below [size]. *)
Definition written (w : World) (r : BlockRef) : Prop :=
  exists b x, ref_block r = Some b /\ heap w !! b = Some x /\
              ref_offset r + ref_length r <= size x <= cap x /\ zlen (data x) = cap x.

Record Buf (w : World) (buf : IOBuf) (l : list BlockRef) : Prop := mkBuf {
  Buf_Rep : Rep buf l;
  Buf_written : Forall (written w) l }.

Lemma bytes_app w l1 l2 : bytes w (l1 ++ l2) = bytes w l1 ++ bytes w l2.
Proof. unfold bytes. by rewrite fmap_app, concat_app. Qed.

Lemma bytes_cons w r l : bytes w (r :: l) = ref_bytes w r ++ bytes w l.
Proof. done. Qed.

Lemma zlen_ref_bytes w r : ok_ref r -> written w r -> zlen (ref_bytes w r) = ref_length r.
Proof.
  intros [] (b & x & E & Hx & Hs & Hd). unfold ref_bytes. rewrite E, Hx.
  apply zlen_slice; lia.
Qed.

Lemma zlen_bytes w l : Forall ok_ref l -> Forall (written w) l -> zlen (bytes w l) = total l.
Proof.
  induction l as [|r l IH]; [done|].
  intros [Hr Hl]%Forall_cons [Wr Wl]%Forall_cons.
  rewrite bytes_cons, zlen_app, zlen_ref_bytes, IH by done. done.
Qed.

Lemma Buf_len w buf l : Buf w buf l -> zlen (bytes w l) = total l.
Proof. intros [[_ H _] H2]. by apply zlen_bytes. Qed.

(** The frame: a later world that still owns the references has the same bytes. *)
Lemma written_le w w' O r b :
  Inv w O -> w ≼ w' -> ref_block r = Some b ->
  (exists x, heap w' !! b = Some x /\ wf_block x) -> ok_ref r -> written w r ->
  written w' r /\ ref_bytes w' r = ref_bytes w r.
Proof.
  intros (c & HI & _) [_ Hle] Eb (y & Hy & Hwf) [_ Ho Hl _] (b' & x & E & Hx & Hs & Hd).
  rewrite Eb in E. simplify_eq.
  pose proof (inv_next _ _ _ _ HI b') as Hn. rewrite Hx in Hn.
  specialize (Hle b' (Hn ltac:(eauto))). rewrite Hx, Hy in Hle.
  destruct Hle as [_ Hc Hsz Hdata], Hwf as [_ Hs' _ Hd']. split.
  - exists b', y. split_and!; try done; lia.
  - unfold ref_bytes. rewrite Eb, Hx, Hy.
    replace (ref_offset r) with (0 + ref_offset r) by lia.
    rewrite <-(take_slice (ref_length r) (ref_offset r) (size x - ref_offset r)) by lia.
    rewrite <-(take_slice (ref_length r) (ref_offset r) (size x - ref_offset r)) by lia.
    f_equal. rewrite <-!(drop_slice (ref_offset r) 0 (size x)) by lia. by rewrite Hdata.
Qed.

Lemma refs_frame w w' O R l :
  Inv w O -> w ≼ w' -> Inv w' R -> (forall b, b ∈ blocks l -> b ∈ R) -> Forall ok_ref l ->
  Forall (written w) l -> Forall (written w') l /\ bytes w' l = bytes w l.
Proof.
  intros HI Hle HI' Hsub Hok Hw. induction l as [|r l IH]; [done|].
  apply Forall_cons in Hok as [Hr Hok]. apply Forall_cons in Hw as [Wr Hw].
  pose proof Hr as [[b Eb] _ _ _]. rewrite (blocks_cons _ _ _ Eb) in Hsub.
  destruct (Inv_live w' R b HI') as (y & Hy & Hwf); [apply Hsub; by left|].
  destruct (written_le w w' O r b) as [Wr' Er]; try done; [by eauto|].
  destruct IH as [Wl El]; try done; [intros; apply Hsub; by right|].
  split; [by constructor|]. by rewrite !bytes_cons, Er, El.
Qed.

Lemma Buf_frame w w' O R buf l :
  Inv w O -> w ≼ w' -> Inv w' R -> (forall b, b ∈ blocks l -> b ∈ R) -> Buf w buf l ->
  Buf w' buf l /\ bytes w' l = bytes w l.
Proof.
  intros HI Hle HI' Hsub [HR HW].
  destruct (refs_frame w w' O R l) as [HW' E]; try done.
  apply HR.
Qed.

(** Reading the bytes of a reference. *)
Lemma read_at_spec w r off len :
  ok_ref r -> written w r -> ref_offset r <= off -> 0 <= len ->
  off + len <= ref_offset r + ref_length r ->
  read_at r off len w = Some (slice (off - ref_offset r) len (ref_bytes w r), w).
Proof.
  intros [_ Ho Hl _] (b & x & E & Hx & Hs & Hd) H1 H2 H3.
  unfold read_at, ref_bytes, block_at. rewrite E. cbn [deref]. run. rewrite Hx.
  destruct (_ && _) eqn:Ec; [|lia]. do 2 f_equal.
  rewrite slice_slice by lia. f_equal. lia.
Qed.

(** ** Shortening the first and the last reference *)

Definition cut_ref (n : Z) (r : BlockRef) : BlockRef :=
  mkRef (ref_offset r + n) (ref_length r - n) (ref_block r).
Definition keep_ref (n : Z) (r : BlockRef) : BlockRef :=
  mkRef (ref_offset r) n (ref_block r).

Lemma cut_ref_ok n r : ok_ref r -> 0 <= n < ref_length r -> ok_ref (cut_ref n r).
Proof. intros [] Hn. split; cbn; [done|lia..]. Qed.

Lemma keep_ref_ok n r : ok_ref r -> 0 < n <= ref_length r -> ok_ref (keep_ref n r).
Proof. intros [] Hn. split; cbn; [done|lia..]. Qed.

(** Replacing a reference by one to the same block, of a smaller length. *)
Lemma Rep_update_front v r l r' n :
  Rep (BV v) (r :: l) -> ok_ref r' -> ref_length r' = ref_length r - n -> 0 <= n ->
  Rep (BV (mkBV (magic v) (start v) (<[Z.to_nat (start v) := r']> (refs v)) (nref v)
        (cap_mask v) (u64 (nbytes v - n)))) (r' :: l) /\ 0 <= start v < zlen (refs v).
Proof.
  intros H Hr' El Hn. pose proof H as [_ [Or Ol]%Forall_cons Ht].
  destruct (big_inv _ _ H)
    as (k & Hm & HRg & Hnr & Hz & Hk & H2k & Hcm & Hzr & Hnb & Hs & Hc & Hl).
  cbn [total] in *. rewrite zlen_cons in *. pose proof (total_length _ Ol).
  destruct Hr'. split; [|lia]. split; [|by constructor|cbn; lia].
  apply (rep_big _ _ k); cbn [IOBufRef.magic IOBufRef.start IOBufRef.refs IOBufRef.nref
    IOBufRef.cap_mask IOBufRef.nbytes]; try done.
  - replace (Z.to_nat (start v)) with (ring_ix (refs v) (start v) 0).
    + apply (Ring_update _ _ (r :: l) 0); [done|cbn; lia].
    + unfold ring_ix. rewrite Z.add_0_r, Z.mod_small by lia. done.
  - by rewrite zlen_cons.
  - rewrite zlen_cons. lia.
  - unfold zlen in *. by rewrite length_insert.
  - rewrite wrapu_small by lia. cbn. lia.
Qed.

Lemma Rep_update_back v r l r' n :
  Rep (BV v) (l ++ [r]) -> ok_ref r' -> ref_length r' = ref_length r - n -> 0 <= n ->
  Rep (BV (mkBV (magic v) (start v) (<[bv_slot v (u32 (nref v - 1)) := r']> (refs v)) (nref v)
        (cap_mask v) (u64 (nbytes v - n)))) (l ++ [r']) /\
  0 <= Z.of_nat (bv_slot v (u32 (nref v - 1))) < zlen (refs v).
Proof.
  intros H Hr' El Hn. pose proof H as [_ [Ol [Or _]%Forall_cons]%Forall_app Ht].
  destruct (big_inv _ _ H)
    as (k & Hm & HRg & Hnr & Hz & Hk & H2k & Hcm & Hzr & Hnb & Hs & Hc & Hl).
  rewrite total_app in *. cbn [total] in *. rewrite zlen_app in *.
  change (zlen [r]) with 1 in *. pose proof (total_length _ Ol). pose proof (zlen_nonneg l).
  rewrite wrapu_small by lia. rewrite (bv_slot_ix _ _ _ H) by lia.
  replace (Z.to_nat (nref v - 1)) with (List.length l) by (unfold zlen in *; lia).
  pose proof (ring_ix_lt (refs v) (start v) (List.length l) ltac:(lia)).
  destruct Hr'. split; [|unfold zlen; lia].
  split; [|apply Forall_app; split; [done|by constructor]|rewrite total_app; cbn; lia].
  apply (rep_big _ _ k); cbn [IOBufRef.magic IOBufRef.start IOBufRef.refs IOBufRef.nref
    IOBufRef.cap_mask IOBufRef.nbytes]; try done.
  - replace (l ++ [r']) with (<[List.length l := r']> (l ++ [r]))
      by (by rewrite insert_app_r_alt, Nat.sub_diag by lia).
    apply Ring_update; [done|]. rewrite length_app. cbn. lia.
  - rewrite zlen_app. done.
  - rewrite zlen_app. change (zlen [r']) with 1. lia.
  - unfold zlen in *. by rewrite length_insert.
  - rewrite wrapu_small by lia. rewrite total_app. cbn [total]. lia.
Qed.

Lemma advance_front_spec n r l buf w :
  Rep buf (r :: l) -> 0 <= n < ref_length r ->
  exists buf', advance_front n r buf w = Some (buf', w) /\ Rep buf' (cut_ref n r :: l).
Proof.
  intros H Hn. pose proof H as [Hrep [Or Ol]%Forall_cons Ht].
  pose proof (cut_ref_ok n r Or Hn) as Oc.
  unfold advance_front, set_front, sub_nbytes.
  replace (mkRef _ _ _) with (cut_ref n r)
    by (destruct Or; unfold cut_ref; rewrite !wrapu_small by lia; done).
  destruct buf as [r0 r1|v].
  - rewrite (small_SV _ _ _ H). cbn [_sv]. run.
    assert (Rep (SV (cut_ref n r) r1) (cut_ref n r :: l)) as H'.
    { split; [inversion Hrep; subst; constructor|by constructor|cbn in *; lia]. }
    rewrite (small_SV _ _ _ H'). by eexists.
  - rewrite (small_BV _ _ H). cbn [_bv]. run.
    destruct (Rep_update_front v r l (cut_ref n r) n) as [H' Hix]; try done; [lia|].
    rewrite set_ref_lookup by done. cbn beta iota.
    assert (_small (BV (mkBV (magic v) (start v) (<[Z.to_nat (start v):=cut_ref n r]> (refs v))
        (nref v) (cap_mask v) (nbytes v))) = false) as -> by exact (small_BV _ _ H).
    cbn [IOBufRef._bv]. cbn beta iota. by eexists.
Qed.

Lemma retract_back_spec n r l buf w :
  Rep buf (l ++ [r]) -> 0 <= n < ref_length r ->
  exists buf', retract_back n r buf w = Some (buf', w) /\
               Rep buf' (l ++ [keep_ref (ref_length r - n) r]).
Proof.
  intros H Hn. pose proof H as [Hrep [Ol [Or _]%Forall_cons]%Forall_app Ht].
  assert (ok_ref (keep_ref (ref_length r - n) r)) as Oc by (apply keep_ref_ok; [done|lia]).
  unfold retract_back, set_back, sub_nbytes.
  replace (mkRef _ _ _) with (keep_ref (ref_length r - n) r)
    by (destruct Or; unfold keep_ref; rewrite !wrapu_small by lia; done).
  set (r' := keep_ref _ r) in *.
  assert (total (l ++ [r']) < 2 ^ 31) as Ht'
    by (rewrite total_app in *; cbn in *; lia).
  assert (Forall ok_ref (l ++ [r'])) as Of by (apply Forall_app; split; [done|by constructor]).
  destruct buf as [r0 r1|v].
  - rewrite (small_SV _ _ _ H). cbn [_sv]. run.
    assert (Rep (if not_null r1 then SV r0 r' else SV r' r1) (l ++ [r'])) as H'.
    { split; [|done..]. inversion Hrep as [E|x E|x y E|]; subst; [by destruct l|..].
      - destruct l as [|? [|]]; simplify_eq/=. constructor.
      - destruct l as [|? [|? []]]; simplify_eq/=. rewrite (ok_not_null _ Or). constructor. }
    destruct (not_null r1); rewrite (small_SV _ _ _ H'); by eexists.
  - rewrite (small_BV _ _ H). cbn [_bv]. run.
    destruct (Rep_update_back v r l r' n) as [H' Hix]; try done; [lia|].
    rewrite set_ref_lookup by done. rewrite Nat2Z.id. cbn beta iota.
    assert (_small (BV (mkBV (magic v) (start v)
        (<[bv_slot v (u32 (nref v - 1)) := r']> (refs v))
        (nref v) (cap_mask v) (nbytes v))) = false) as -> by exact (small_BV _ _ H).
    cbn [IOBufRef._bv]. cbn beta iota. by eexists.
Qed.

(** ** The bytes after a push and after a cut *)

Lemma cut_ref_bytes w n r :
  ok_ref r -> written w r -> 0 <= n < ref_length r ->
  written w (cut_ref n r) /\ ref_bytes w (cut_ref n r) = drop (Z.to_nat n) (ref_bytes w r).
Proof.
  intros [_ Ho Hl _] (b & x & E & Hx & Hs & Hd) Hn. split.
  - exists b, x. cbn. split_and!; try done; lia.
  - unfold ref_bytes. cbn. rewrite E, Hx. rewrite drop_slice by lia. done.
Qed.

Lemma keep_ref_bytes w n r :
  ok_ref r -> written w r -> 0 < n <= ref_length r ->
  written w (keep_ref n r) /\ ref_bytes w (keep_ref n r) = take (Z.to_nat n) (ref_bytes w r).
Proof.
  intros [_ Ho Hl _] (b & x & E & Hx & Hs & Hd) Hn. split.
  - exists b, x. cbn. split_and!; try done; lia.
  - unfold ref_bytes. cbn. rewrite E, Hx. rewrite take_slice by lia. done.
Qed.

Lemma extend_bytes w back r :
  ok_ref back -> ok_ref r -> adjacent back r = true ->
  ref_length back + ref_length r < 2 ^ 31 -> written w back -> written w r ->
  written w (extend back r) /\ ref_bytes w (extend back r) = ref_bytes w back ++ ref_bytes w r.
Proof.
  intros Ob Or Ha Ht Wb Wr. destruct (adjacent_true _ _ Ha Ob) as [Eb Eo].
  destruct (extend_ok _ _ Ha Ob Or Ht) as [Oe El].
  destruct Wr as (b & x & E & Hx & Hs & Hd). rewrite E in Eb.
  destruct Ob as [_ ? ? _], Or as [_ ? ? _]. split.
  - exists b, x. rewrite El. cbn. split_and!; try done; lia.
  - unfold ref_bytes. rewrite El. cbn [ref_block ref_offset extend]. rewrite Eb, E, Hx, <-Eo.
    by rewrite slice_split by lia.
Qed.

Lemma push_ref_bytes w l r :
  Forall ok_ref l -> ok_ref r -> total l + ref_length r < 2 ^ 31 ->
  Forall (written w) l -> written w r ->
  Forall (written w) (push_ref l r) /\ bytes w (push_ref l r) = bytes w l ++ ref_bytes w r.
Proof.
  intros Ol Or Ht Wl Wr. destruct l as [|back l _] using rev_ind.
  { cbn. rewrite app_nil_r. split; [by constructor|done]. }
  rewrite push_ref_snoc. apply Forall_app in Ol as [Ol [Ob _]%Forall_cons].
  apply Forall_app in Wl as [Wl [Wb _]%Forall_cons].
  rewrite total_app in Ht. cbn in Ht.
  pose proof (total_length _ Ol). pose proof (zlen_nonneg l).
  destruct (adjacent back r) eqn:Ea.
  - destruct (extend_bytes w back r) as [We Ee]; try done; [lia|].
    split; [apply Forall_app; split; [done|by constructor]|].
    rewrite !bytes_app. unfold bytes at 2 4. cbn. rewrite !app_nil_r, Ee. by rewrite app_assoc.
  - split; [apply Forall_app; split; [done|by do 2 (constructor; [done|])]|].
    rewrite !bytes_app. unfold bytes at 2 4. cbn. rewrite !app_nil_r. by rewrite app_assoc.
Qed.

Lemma Buf_cut w n r l buf buf' :
  Buf w buf (r :: l) -> 0 <= n < ref_length r -> Rep buf' (cut_ref n r :: l) ->
  Buf w buf' (cut_ref n r :: l) /\
  bytes w (cut_ref n r :: l) = drop (Z.to_nat n) (bytes w (r :: l)) /\
  blocks (cut_ref n r :: l) = blocks (r :: l).
Proof.
  intros [[_ [Or _]%Forall_cons _] [Wr Wl]%Forall_cons] Hn HR.
  destruct (cut_ref_bytes w n r Or Wr Hn) as [Wc Ec].
  split; [split; [done|by constructor]|]. split; [|done].
  rewrite !bytes_cons, Ec. rewrite drop_app_le; [done|].
  pose proof (zlen_ref_bytes w r Or Wr). unfold zlen in *. lia.
Qed.

(** Taking whole references away. *)
Lemma bytes_drop_ref w r l n :
  ok_ref r -> written w r -> ref_length r <= n ->
  drop (Z.to_nat n) (bytes w (r :: l)) = drop (Z.to_nat (n - ref_length r)) (bytes w l).
Proof.
  intros Or Wr Hn. pose proof (zlen_ref_bytes w r Or Wr) as E. destruct Or.
  rewrite bytes_cons, drop_app_ge by (unfold zlen in *; lia). f_equal. unfold zlen in *. lia.
Qed.

Lemma bytes_take_ref w r l n :
  ok_ref r -> written w r -> ref_length r <= n ->
  take (Z.to_nat n) (bytes w (r :: l)) =
    ref_bytes w r ++ take (Z.to_nat (n - ref_length r)) (bytes w l).
Proof.
  intros Or Wr Hn. pose proof (zlen_ref_bytes w r Or Wr) as E. destruct Or.
  rewrite bytes_cons, take_app_ge by (unfold zlen in *; lia). do 2 f_equal. unfold zlen in *. lia.
Qed.

Lemma bytes_take_lt w r l n :
  ok_ref r -> written w r -> 0 <= n <= ref_length r ->
  take (Z.to_nat n) (bytes w (r :: l)) = take (Z.to_nat n) (ref_bytes w r).
Proof.
  intros Or Wr Hn. pose proof (zlen_ref_bytes w r Or Wr) as E.
  rewrite bytes_cons, take_app_le; [done|]. unfold zlen in *. lia.
Qed.

Lemma ref_fuel_spec buf l : Rep buf l -> ref_fuel buf = S (List.length l).
Proof. intros H. unfold ref_fuel. rewrite (ref_num_spec _ _ H). unfold zlen. lia. Qed.

(** What an operation leaves: the references [l'] in place of [l], with the
    string [s']. *)
Definition becomes (w : World) (O : list nat) (s' : list byte) (buf' : IOBuf) (w' : World) : Prop :=
  exists l', Buf w' buf' l' /\ Inv w' (blocks l' ++ O) /\ w ≼ w' /\ bytes w' l' = s'.

Lemma pop_front_loop_spec fuel w n buf l O :
  Buf w buf l -> Inv w (blocks l ++ O) -> 0 <= n <= total l -> (List.length l < fuel)%nat ->
  exists buf' w', pop_front_loop fuel n buf w = Some (buf', w') /\
    becomes w O (drop (Z.to_nat n) (bytes w l)) buf' w'.
Proof.
  revert w n buf l. induction fuel as [|fuel IH]; intros w n buf l HB HI Hn Hf; [lia|].
  cbn [pop_front_loop]. destruct (Z.eqb_spec n 0) as [->|Hn0].
  { eexists _, _. split; [done|]. by exists l. }
  destruct l as [|r l]; [cbn in Hn; lia|].
  pose proof HB as [HR HW]. pose proof HR as [_ [Or Ol]%Forall_cons Ht].
  pose proof HW as [Wr Wl]%Forall_cons.
  rewrite (front_ref_spec _ _ _ HR). run.
  destruct (Z.ltb_spec n (ref_length r)) as [Hlt|Hge].
  - destruct (advance_front_spec n r l buf w HR) as (buf' & -> & HR'); [lia|].
    destruct (Buf_cut w n r l buf buf' HB ltac:(lia) HR') as (HB' & Eb & Ebl).
    eexists _, _. split; [done|]. exists (cut_ref n r :: l). rewrite Ebl. done.
  - pose proof Or as [[b Eb] _ _ _]. rewrite (blocks_cons _ _ _ Eb) in HI.
    destruct (pop_front_ref_spec false buf r l b w O HR Eb HI)
      as (buf1 & w1 & E1 & HR1 & Hq & HI1).
    unfold _pop_front_ref. rewrite E1. cbn beta iota. cbn [total] in *.
    pose proof (quiet_wle _ _ Hq) as Hle.
    destruct (refs_frame w w1 _ _ l HI Hle HI1) as [Wl1 El1]; try done.
    { intros b' Hb'. apply elem_of_app. by left. }
    rewrite wrapu_small by (destruct Or; lia).
    destruct (IH w1 (n - ref_length r) buf1 l) as (buf2 & w2 & -> & l2 & HB2 & HI2 & Hle2 & E2);
      [by split|done|lia|cbn in Hf; lia|].
    eexists _, _. split; [done|]. exists l2. split; [done|]. split; [done|].
    split; [by etrans|]. by rewrite E2, El1, bytes_drop_ref.
Qed.

Lemma clear_spec w buf l O :
  Buf w buf l -> Inv w (blocks l ++ O) ->
  exists buf' w', clear buf w = Some (buf', w') /\ becomes w O [] buf' w'.
Proof.
  intros [HR HW] HI. destruct (clear_refs_spec _ _ _ _ HR HI) as (buf' & w' & -> & HR' & HI' & Hq).
  eexists _, _. split; [done|]. exists []. split; [by split|]. split; [done|].
  split; [by apply quiet_wle|done].
Qed.

Lemma drop_all_bytes w buf l n :
  Buf w buf l -> total l <= n -> drop (Z.to_nat n) (bytes w l) = [] /\
                                 take (Z.to_nat n) (bytes w l) = bytes w l.
Proof.
  intros HB Hn. pose proof (Buf_len _ _ _ HB). unfold zlen in *.
  rewrite drop_ge, take_ge by lia. done.
Qed.

Lemma pop_front_ok w n buf l O :
  Buf w buf l -> Inv w (blocks l ++ O) -> 0 <= n ->
  exists buf' w', pop_front n buf w = Some ((Z.min n (total l), buf'), w') /\
    becomes w O (drop (Z.to_nat n) (bytes w l)) buf' w'.
Proof.
  intros HB HI Hn. unfold pop_front. rewrite (length_spec _ _ (Buf_Rep _ _ _ HB)). run.
  destruct (Z.leb_spec (total l) n) as [Hle|Hgt].
  - destruct (clear_spec w buf l O HB HI) as (buf' & w' & -> & H).
    rewrite Z.min_r by lia. eexists _, _. split; [done|].
    by rewrite (proj1 (drop_all_bytes _ _ _ n HB Hle)).
  - rewrite (ref_fuel_spec _ _ (Buf_Rep _ _ _ HB)).
    destruct (pop_front_loop_spec (S (List.length l)) w n buf l O)
      as (buf' & w' & -> & H); [done|done|lia|lia|].
    rewrite Z.min_l by lia. by eexists _, _.
Qed.

Lemma bytes_snoc w l r : bytes w (l ++ [r]) = bytes w l ++ ref_bytes w r.
Proof. rewrite bytes_app. unfold bytes at 2. cbn. by rewrite app_nil_r. Qed.

Lemma pop_back_loop_spec fuel w n buf l O :
  Buf w buf l -> Inv w (blocks l ++ O) -> 0 <= n <= total l -> (List.length l < fuel)%nat ->
  exists buf' w', pop_back_loop fuel n buf w = Some (buf', w') /\
    becomes w O (take (Z.to_nat (total l - n)) (bytes w l)) buf' w'.
Proof.
  revert w n buf l. induction fuel as [|fuel IH]; intros w n buf l HB HI Hn Hf; [lia|].
  cbn [pop_back_loop]. destruct (Z.eqb_spec n 0) as [->|Hn0].
  { eexists _, _. split; [done|]. exists l. split_and!; try done.
    rewrite Z.sub_0_r. symmetry. by eapply drop_all_bytes. }
  destruct l as [|r l _] using rev_ind; [cbn in Hn; lia|].
  pose proof HB as [HR HW]. pose proof HR as [_ [Ol [Or _]%Forall_cons]%Forall_app Ht].
  pose proof HW as [Wl [Wr _]%Forall_cons]%Forall_app.
  pose proof (zlen_bytes w l Ol Wl) as Zl. pose proof (zlen_ref_bytes w r Or Wr) as Zr.
  rewrite (back_ref_spec _ _ _ HR). run. rewrite total_app in *. cbn [total] in *.
  destruct (Z.ltb_spec n (ref_length r)) as [Hlt|Hge].
  - destruct (retract_back_spec n r l buf w HR) as (buf' & -> & HR'); [lia|].
    destruct (keep_ref_bytes w (ref_length r - n) r Or Wr ltac:(lia)) as [Wk Ek].
    eexists _, _. split; [done|]. exists (l ++ [keep_ref (ref_length r - n) r]).
    split; [split; [done|apply Forall_app; by split; [|constructor]]|].
    split; [by rewrite blocks_app in *|]. split; [done|].
    rewrite !bytes_snoc, Ek, take_app_ge by (unfold zlen in *; lia).
    do 2 f_equal. unfold zlen in *. lia.
  - pose proof Or as [[b Eb] _ _ _].
    assert (Inv w (b :: blocks l ++ O)) as HI0.
    { rewrite blocks_app in HI. unfold blocks at 2 in HI. cbn in HI. rewrite Eb in HI.
      rewrite <-app_assoc in HI. cbn in HI. by rewrite <-Permutation_middle in HI. }
    destruct (pop_back_ref_spec buf r l b w O HR Eb HI0) as (buf1 & w1 & E1 & HR1 & Hq & HI1).
    rewrite E1. cbn beta iota. pose proof (quiet_wle _ _ Hq) as Hle.
    destruct (refs_frame w w1 _ _ l HI0 Hle HI1) as [Wl1 El1]; try done.
    { intros b' Hb'. apply elem_of_app. by left. }
    pose proof (total_length _ Ol). pose proof (zlen_nonneg l).
    rewrite wrapu_small by (destruct Or; lia).
    destruct (IH w1 (n - ref_length r) buf1 l) as (buf2 & w2 & -> & l2 & HB2 & HI2 & Hle2 & E2);
      [by split|done|lia|rewrite length_app in Hf; cbn in Hf; lia|].
    eexists _, _. split; [done|]. exists l2. split; [done|]. split; [done|].
    split; [by etrans|]. rewrite E2, El1, bytes_snoc, take_app_le by (unfold zlen in *; lia).
    f_equal. lia.
Qed.

Lemma pop_back_ok w n buf l O :
  Buf w buf l -> Inv w (blocks l ++ O) -> 0 <= n ->
  exists buf' w', pop_back n buf w = Some ((Z.min n (total l), buf'), w') /\
    becomes w O (take (Z.to_nat (total l - n)) (bytes w l)) buf' w'.
Proof.
  intros HB HI Hn. unfold pop_back. rewrite (length_spec _ _ (Buf_Rep _ _ _ HB)). run.
  destruct (Z.leb_spec (total l) n) as [Hle|Hgt].
  - destruct (clear_spec w buf l O HB HI) as (buf' & w' & -> & H).
    rewrite Z.min_r by lia. eexists _, _. split; [done|].
    by replace (Z.to_nat (total l - n)) with 0%nat by lia.
  - rewrite (ref_fuel_spec _ _ (Buf_Rep _ _ _ HB)).
    destruct (pop_back_loop_spec (S (List.length l)) w n buf l O)
      as (buf' & w' & -> & H); [done|done|lia|lia|].
    rewrite Z.min_l by lia. by eexists _, _.
Qed.

(** Popping the whole first reference. *)
Lemma pop_first w buf r l O :
  Buf w buf (r :: l) -> Inv w (blocks (r :: l) ++ O) ->
  exists buf' w', _pop_front_ref buf w = Some ((0, buf'), w') /\ Buf w' buf' l /\
    Inv w' (blocks l ++ O) /\ quiet w w' /\ bytes w' l = bytes w l.
Proof.
  intros [HR [Wr Wl]%Forall_cons] HI. pose proof HR as [_ [Or Ol]%Forall_cons Ht].
  pose proof Or as [[b Eb] _ _ _]. rewrite (blocks_cons _ _ _ Eb) in HI.
  destruct (pop_front_ref_spec false buf r l b w O HR Eb HI)
    as (buf1 & w1 & E1 & HR1 & Hq & HI1).
  destruct (refs_frame w w1 _ _ l HI (quiet_wle _ _ Hq) HI1) as [Wl1 El1]; try done.
  { intros b' Hb'. apply elem_of_app. by left. }
  by exists buf1, w1.
Qed.

Lemma bytes_nil_iff w buf l : Buf w buf l -> bytes w l = [] <-> l = [].
Proof.
  intros HB. pose proof (Buf_len _ _ _ HB) as E. split; [|by intros ->]. intros E0.
  rewrite E0 in E. apply total_zero; [apply HB|done].
Qed.

Lemma cut1_ok w buf l O :
  Buf w buf l -> Inv w (blocks l ++ O) ->
  exists buf' w', cut1 buf w = Some ((head (bytes w l), buf'), w') /\
    becomes w O (tail (bytes w l)) buf' w'.
Proof.
  intros HB HI. pose proof HB as [HR HW]. unfold cut1.
  rewrite (empty_spec _ _ HR). run. destruct (bool_decide_reflect (l = [])) as [->|Hne].
  { eexists _, _. split; [done|]. by exists []. }
  destruct l as [|r l]; [done|]. pose proof HR as [_ [Or Ol]%Forall_cons Ht].
  pose proof HW as [Wr Wl]%Forall_cons.
  rewrite (front_ref_spec _ _ _ HR). cbn beta iota.
  pose proof Or as [[b Eb] Ho Hl _]. pose proof (zlen_ref_bytes w r Or Wr) as Zr.
  rewrite read_at_spec by (done || lia). cbn beta iota. rewrite Z.sub_diag.
  destruct (ref_bytes w r) as [|c d] eqn:Ed; [unfold zlen in Zr; cbn in Zr; lia|].
  change (slice 0 1 (c :: d)) with [c]. cbn [head]. run.
  rewrite bytes_cons, Ed. cbn [app head tail].
  destruct (Z.ltb_spec 1 (ref_length r)) as [Hgt|Hle].
  - destruct (advance_front_spec 1 r l buf w HR) as (buf' & -> & HR'); [lia|].
    destruct (Buf_cut w 1 r l buf buf' HB ltac:(lia) HR') as (HB' & Ebs & Ebl).
    eexists _, _. split; [done|]. exists (cut_ref 1 r :: l). rewrite Ebl.
    split_and!; try done. by rewrite Ebs, bytes_cons, Ed.
  - destruct (pop_first w buf r l O HB HI) as (buf1 & w1 & -> & HB1 & HI1 & Hq & E1).
    cbn beta iota. eexists _, _. split; [done|]. exists l. split; [done|]. split; [done|].
    split; [by apply quiet_wle|]. rewrite zlen_cons in Zr. pose proof (zlen_nonneg d).
    assert (d = []) as -> by (destruct d; [done|rewrite zlen_cons in *; pose proof (zlen_nonneg d); lia]).
    by rewrite E1.
Qed.

(** Two buffers at once. *)
Definition become2 (w : World) (O : list nat) (s1 s2 : list byte) (b1 b2 : IOBuf) (w' : World) :=
  exists l1 l2, Buf w' b1 l1 /\ Buf w' b2 l2 /\ Inv w' (blocks l1 ++ blocks l2 ++ O) /\ w ≼ w' /\
                bytes w' l1 = s1 /\ bytes w' l2 = s2.

Lemma app_sub_l (A B C : list nat) b : b ∈ B -> b ∈ A ++ B ++ C.
Proof. intros. apply elem_of_app. right. apply elem_of_app. by left. Qed.

(** Pushing a reference at the end of a buffer. *)
Lemma push_ok MOVE w buf l r b O :
  Buf w buf l -> ok_ref r -> written w r -> ref_block r = Some b ->
  total l + ref_length r < 2 ^ 31 -> owes MOVE b w (blocks l ++ O) ->
  exists buf' l' w', push_or_move MOVE r buf w = Some (buf', w') /\ Buf w' buf' l' /\
    Inv w' (blocks l' ++ O) /\ quiet w w' /\ bytes w' l' = bytes w l ++ ref_bytes w r.
Proof.
  intros [HR HW] Or Wr Eb Ht Ho.
  destruct (push_or_move_spec MOVE buf l r b w O HR Or Eb Ht Ho)
    as (buf' & w' & -> & HR' & HI' & Hq).
  destruct (push_ref_bytes w l r) as [Wp Ep]; try done; [apply HR|].
  exists buf', (push_ref l r), w'. split; [done|].
  assert (exists R, Inv w R) as [R HI] by (destruct MOVE; cbn in Ho; [eauto|destruct Ho; eauto]).
  destruct (refs_frame w w' R _ (push_ref l r) HI (quiet_wle _ _ Hq) HI') as [Wp' Ep'].
  - intros b' Hb'. apply elem_of_app. by left.
  - apply HR'.
  - done.
  - split; [by split|]. split; [done|]. split; [done|]. by rewrite Ep', Ep.
Qed.

Lemma cutn_loop_spec fuel w n this out l1 l2 O :
  Buf w this l1 -> Buf w out l2 -> Inv w (blocks l1 ++ blocks l2 ++ O) ->
  0 <= n <= total l1 -> total l2 + n < 2 ^ 31 -> (List.length l1 < fuel)%nat ->
  exists this' out' w', cutn_loop fuel n this out w = Some ((this', out'), w') /\
    become2 w O (drop (Z.to_nat n) (bytes w l1)) (bytes w l2 ++ take (Z.to_nat n) (bytes w l1))
      this' out' w'.
Proof.
  revert w n this out l1 l2.
  induction fuel as [|fuel IH]; intros w n this out l1 l2 HB1 HB2 HI Hn Ht2 Hf; [lia|].
  cbn [cutn_loop]. destruct (Z.eqb_spec n 0) as [->|Hn0].
  { eexists _, _, _. split; [done|]. exists l1, l2. split_and!; try done. cbn. by rewrite app_nil_r. }
  destruct l1 as [|r l1]; [cbn in Hn; lia|].
  pose proof HB1 as [HR HW]. pose proof HR as [_ [Or Ol]%Forall_cons Ht].
  pose proof HW as [Wr Wl]%Forall_cons. pose proof Or as [[b Eb] Ho Hl He].
  rewrite (front_ref_spec _ _ _ HR). run. cbn [total] in *.
  assert (Inv w (blocks l2 ++ blocks (r :: l1) ++ O)) as HI'
    by (by rewrite !app_assoc, (Permutation_app_comm (blocks l2)), <-app_assoc).
  rewrite (blocks_cons _ _ _ Eb) in HI'.
  destruct (Z.leb_spec (ref_length r) n) as [Hle|Hgt].
  - destruct (push_ok true w out l2 r b (blocks l1 ++ O)) as
      (out1 & l2' & w1 & E1 & HB2' & HI1 & Hq1 & Eb2); try done; [lia| |].
    { cbn. by rewrite Permutation_middle. }
    unfold _move_back_ref. rewrite E1. cbn beta iota.
    destruct (pop_front_ref_spec true this r l1 b w1 O HR Eb I)
      as (this1 & w1' & E2 & HR1 & _ & ->).
    unfold _moveout_front_ref. rewrite E2. cbn beta iota.
    destruct (refs_frame w w1 _ _ l1 HI (quiet_wle _ _ Hq1) HI1) as [Wl1 El1]; try done.
    { intros b' Hb'. by apply app_sub_l. }
    rewrite wrapu_small by lia.
    destruct (IH w1 (n - ref_length r) this1 out1 l1 l2')
      as (this2 & out2 & w2 & -> & l1b & l2b & HB1b & HB2b & HIb & Hle2 & Eb1b & Eb2b);
      [by split|done| |lia| |cbn in Hf; lia|].
    { by rewrite app_assoc, (Permutation_app_comm (blocks l1)), <-app_assoc. }
    { rewrite <-(Buf_len _ _ _ HB2'), Eb2, zlen_app, (zlen_ref_bytes w r Or Wr),
        (Buf_len _ _ _ HB2). lia. }
    eexists _, _, _. split; [done|]. exists l1b, l2b.
    split_and!; try done; [by etrans; [apply quiet_wle|]|..].
    + by rewrite Eb1b, El1, bytes_drop_ref.
    + by rewrite Eb2b, Eb2, El1, bytes_take_ref, app_assoc.
  - replace (mkRef _ _ _) with (keep_ref n r)
      by (unfold keep_ref; rewrite wrapu_small by lia; done).
    destruct (keep_ref_bytes w n r Or Wr ltac:(lia)) as [Wk Ek].
    destruct (Inv_live w _ b HI') as (x & Hx & _); [apply elem_of_app; right; left|].
    destruct (push_ok false w out l2 (keep_ref n r) b (blocks (r :: l1) ++ O)) as
      (out1 & l2' & w1 & E1 & HB2' & HI1 & Hq1 & Eb2); try done.
    { apply keep_ref_ok; [done|lia]. }
    { split; [|by eexists]. by rewrite (blocks_cons _ _ _ Eb). }
    unfold _push_back_ref. rewrite E1. cbn beta iota.
    destruct (Buf_frame w w1 _ _ this (r :: l1) HI (quiet_wle _ _ Hq1) HI1) as [HBt Et]; try done.
    { intros b' Hb'. by apply app_sub_l. }
    destruct (advance_front_spec n r l1 this w1 HR) as (this' & -> & HR'); [lia|].
    destruct (Buf_cut w1 n r l1 this this' HBt ltac:(lia) HR') as (HB' & Ebs & Ebl).
    cbn beta iota. eexists _, _, _. split; [done|].
    exists (cut_ref n r :: l1), l2'. split_and!; try done.
    + by rewrite Ebl, !app_assoc, (Permutation_app_comm (blocks (r :: l1))), <-app_assoc.
    + by apply quiet_wle.
    + by rewrite Ebs, Et.
    + rewrite Eb2, Ek. f_equal. symmetry. apply bytes_take_lt; [done|done|lia].
Qed.

Lemma cutn_ok w n this out l1 l2 O :
  Buf w this l1 -> Buf w out l2 -> Inv w (blocks l1 ++ blocks l2 ++ O) ->
  0 <= n -> total l2 + Z.min n (total l1) < 2 ^ 31 ->
  exists this' out' w', cutn this out n w = Some ((Z.min n (total l1), this', out'), w') /\
    become2 w O (drop (Z.to_nat n) (bytes w l1)) (bytes w l2 ++ take (Z.to_nat n) (bytes w l1))
      this' out' w'.
Proof.
  intros HB1 HB2 HI Hn Ht. unfold cutn. rewrite (length_spec _ _ (Buf_Rep _ _ _ HB1)). run.
  replace (if total l1 <? n then total l1 else n) with (Z.min n (total l1))
    by (destruct (Z.ltb_spec (total l1) n); lia).
  rewrite (ref_fuel_spec _ _ (Buf_Rep _ _ _ HB1)).
  assert (0 <= total l1) by (rewrite <-(Buf_len _ _ _ HB1); apply zlen_nonneg).
  destruct (cutn_loop_spec (S (List.length l1)) w (Z.min n (total l1)) this out l1 l2 O)
    as (this' & out' & w' & -> & H2); [done|done|done|lia|lia|lia|].
  cbn beta iota. eexists _, _, _. split; [done|].
  destruct (decide (n <= total l1)) as [Hle|Hgt].
  - by rewrite Z.min_l in H2 by lia.
  - rewrite Z.min_r in H2 by lia.
    destruct (drop_all_bytes w this l1 n HB1) as [-> ->]; [lia|].
    destruct (drop_all_bytes w this l1 (total l1) HB1) as [E1 E2]; [lia|].
    by rewrite E1, E2 in H2.
Qed.

Lemma cutn_void_loop_spec fuel w n buf l d O :
  Buf w buf l -> Inv w (blocks l ++ O) -> 0 <= n <= total l -> (List.length l < fuel)%nat ->
  exists buf' w',
    cutn_void_loop fuel n buf d w = Some ((d ++ take (Z.to_nat n) (bytes w l), buf'), w') /\
    becomes w O (drop (Z.to_nat n) (bytes w l)) buf' w'.
Proof.
  revert w n buf l d. induction fuel as [|fuel IH]; intros w n buf l d HB HI Hn Hf; [lia|].
  cbn [cutn_void_loop]. destruct (Z.eqb_spec n 0) as [->|Hn0].
  { eexists _, _. cbn. rewrite app_nil_r. split; [done|]. by exists l. }
  destruct l as [|r l]; [cbn in Hn; lia|].
  pose proof HB as [HR HW]. pose proof HR as [_ [Or Ol]%Forall_cons Ht].
  pose proof HW as [Wr Wl]%Forall_cons. pose proof Or as [[b Eb] Ho Hl He].
  rewrite (front_ref_spec _ _ _ HR). run. unfold read_ref.
  destruct (Z.leb_spec (ref_length r) n) as [Hle|Hgt].
  - rewrite read_at_spec by (done || lia). cbn beta iota. rewrite Z.sub_diag.
    destruct (pop_first w buf r l O HB HI) as (buf1 & w1 & -> & HB1 & HI1 & Hq & E1).
    cbn beta iota. cbn [total] in *. rewrite wrapu_small by lia.
    assert (slice 0 (ref_length r) (ref_bytes w r) = ref_bytes w r) as ->
      by (rewrite <-(zlen_ref_bytes w r Or Wr); apply slice_all).
    destruct (IH w1 (n - ref_length r) buf1 l (d ++ ref_bytes w r))
      as (buf2 & w2 & -> & l2 & HB2 & HI2 & Hle2 & E2); [done|done|lia|cbn in Hf; lia|].
    rewrite E1, <-app_assoc, <-bytes_take_ref by done.
    eexists _, _. split; [done|]. exists l2. split; [done|]. split; [done|].
    split; [by etrans; [apply quiet_wle|]|]. by rewrite E2, E1, bytes_drop_ref.
  - rewrite read_at_spec by (done || lia). cbn beta iota. rewrite Z.sub_diag.
    destruct (advance_front_spec n r l buf w HR) as (buf' & -> & HR'); [lia|].
    destruct (Buf_cut w n r l buf buf' HB ltac:(lia) HR') as (HB' & Ebs & Ebl).
    cbn beta iota. rewrite bytes_take_lt by (done || lia).
    eexists _, _. split; [done|]. exists (cut_ref n r :: l). rewrite Ebl. done.
Qed.

Lemma cutn_void_ok w n buf l O :
  Buf w buf l -> Inv w (blocks l ++ O) -> 0 <= n ->
  exists buf' w',
    cutn_void buf n w = Some ((Z.min n (total l), take (Z.to_nat n) (bytes w l), buf'), w') /\
    becomes w O (drop (Z.to_nat n) (bytes w l)) buf' w'.
Proof.
  intros HB HI Hn. unfold cutn_void. rewrite (length_spec _ _ (Buf_Rep _ _ _ HB)). run.
  replace (if total l <? n then total l else n) with (Z.min n (total l))
    by (destruct (Z.ltb_spec (total l) n); lia).
  rewrite (ref_fuel_spec _ _ (Buf_Rep _ _ _ HB)).
  assert (0 <= total l) by (rewrite <-(Buf_len _ _ _ HB); apply zlen_nonneg).
  destruct (cutn_void_loop_spec (S (List.length l)) w (Z.min n (total l)) buf l [] O)
    as (buf' & w' & -> & H2); [done|done|lia|lia|].
  cbn beta iota. rewrite app_nil_l. destruct (decide (n <= total l)) as [Hle|Hgt].
  - rewrite Z.min_l in * by lia. by eexists _, _.
  - rewrite Z.min_r in * by lia.
    destruct (drop_all_bytes w buf l n HB) as [-> ->]; [lia|].
    destruct (drop_all_bytes w buf l (total l) HB) as [E1 E2]; [lia|].
    rewrite E1 in H2. rewrite E2. by eexists _, _.
Qed.

(** ** Growing *)

Section Grow.
Context `{Alloc}.

Lemma write_at_spec w O b x off d :
  Inv w O -> heap w !! b = Some x -> size x <= off -> off + zlen d <= cap x ->
  exists w', write_at b off d w = Some ((), w') /\ Inv w' O /\ w ≼ w' /\ tls w' = tls w /\
    heap w' !! b = Some (with_data (overwrite off d (data x)) x).
Proof.
  intros HI Hx Ho Hc. pose proof (Inv_wf _ _ _ _ HI Hx) as [Wf Ws Wc Wd].
  unfold write_at, block_at, set_block. run. rewrite Hx.
  destruct (_ && _) eqn:E; [|lia]. eexists; split; [done|].
  pose proof (zlen_nonneg d).
  destruct (Inv_update w O b x (with_data (overwrite off d (data x)) x)) as (HI' & Hle & Hb);
    try done.
  - split; cbn; try done. symmetry. apply slice_overwrite_before; lia.
  - split; cbn; try done. rewrite zlen_overwrite by lia. done.
Qed.

Lemma set_size_spec w O b x n :
  Inv w O -> heap w !! b = Some x -> size x <= n <= cap x ->
  exists w', set_block b (with_size n x) w = Some ((), w') /\ Inv w' O /\ w ≼ w' /\
    tls w' = tls w /\ heap w' !! b = Some (with_size n x).
Proof.
  intros HI Hx Hn. pose proof (Inv_wf _ _ _ _ HI Hx) as [Wf Ws Wc Wd].
  eexists; split; [done|].
  destruct (Inv_update w O b x (with_size n x)) as (HI' & Hle & Hb); try done.
  - split; cbn; try done. lia.
  - split; cbn; try done. lia.
Qed.

Lemma block_at_Some w b x : heap w !! b = Some x -> block_at b w = Some (x, w).
Proof. intros E. unfold block_at. run. by rewrite E. Qed.

Lemma blocks_in_push l r b : b ∈ blocks l -> b ∈ blocks (push_ref l r).
Proof.
  intros Hb. destruct l as [|back l _] using rev_ind; [by apply not_elem_of_nil in Hb|].
  rewrite push_ref_snoc, blocks_app in *. apply elem_of_app in Hb as [Hb|Hb].
  - destruct (adjacent _ _); rewrite blocks_app; apply elem_of_app; by left.
  - destruct (adjacent _ _); rewrite blocks_app; apply elem_of_app; right; [done|].
    change [back; r] with ([back] ++ [r]). rewrite blocks_app. apply elem_of_app. by left.
Qed.

Lemma push_ref_block l r b : ref_block r = Some b -> b ∈ blocks (push_ref l r).
Proof.
  intros E. destruct l as [|back l _] using rev_ind.
  { unfold push_ref, blocks. cbn. rewrite E. by left. }
  rewrite push_ref_snoc. destruct (adjacent back r) eqn:Ea; rewrite blocks_app; apply elem_of_app; right.
  - apply andb_true_iff in Ea as [Ea%bool_decide_eq_true _].
    unfold blocks. cbn. rewrite Ea, E. by left.
  - change [back; r] with ([back] ++ [r]). rewrite blocks_app. apply elem_of_app. right.
    unfold blocks. cbn. rewrite E. by left.
Qed.

(** A reference to the unwritten part of a block, pushed before or after the
    block grows over it. *)
Lemma grow_result w w1 w2 l r b x d this' O :
  Inv w (blocks l ++ O) -> w ≼ w1 -> Forall ok_ref l -> Forall (written w) l ->
  Rep this' (push_ref l r) -> ok_ref r -> total l + ref_length r < 2 ^ 31 ->
  Inv w1 (blocks l ++ O) -> w1 ≼ w2 -> Inv w2 (blocks (push_ref l r) ++ O) ->
  ref_block r = Some b -> heap w2 !! b = Some x -> ref_offset r + ref_length r <= size x ->
  slice (ref_offset r) (ref_length r) (data x) = d ->
  becomes w O (bytes w l ++ d) this' w2.
Proof.
  intros HI Hle1 Ol Wl HR Or Ht HI1 Hle2 HI2 Eb Hx Hs Hd.
  assert (w ≼ w2) as Hle by (by etrans).
  destruct (refs_frame w w2 _ _ l HI Hle HI2) as [Wl2 El2]; try done.
  { intros b' Hb'. apply elem_of_app. left. by apply blocks_in_push. }
  pose proof (Inv_wf _ _ _ _ HI2 Hx) as [_ Ws _ Wd].
  assert (written w2 r) as Wr by (exists b, x; split_and!; try done; lia).
  destruct (push_ref_bytes w2 l r Ol Or Ht Wl2 Wr) as [Wp Ep].
  exists (push_ref l r). split; [by split|]. split; [done|]. split; [done|].
  rewrite Ep, El2. f_equal. unfold ref_bytes. by rewrite Eb, Hx.
Qed.

Lemma grow_once_spec fill left w this l O :
  Buf w this l -> Inv w (blocks l ++ O) -> 0 < left -> total l + left < 2 ^ 31 ->
  (forall nc d, 0 < nc <= left -> fill nc = Some d -> zlen d = nc) ->
  exists res this' w', grow_once fill left this w = Some ((res, this'), w') /\
    match res with
    | None => becomes w O (bytes w l) this' w' /\ exists n, malloc_ok n = false
    | Some nc => 0 < nc <= left /\ exists d, becomes w O (bytes w l ++ d) this' w' /\
        zlen d = nc /\ (forall d', fill nc = Some d' -> d = d')
    end.
Proof.
  intros HB HI Hleft Ht Hfill. unfold grow_once. run.
  destruct (share_tls_block_spec w _ HI) as (p & w1 & -> & HI1 & Hle1 & Hp). cbn beta iota.
  pose proof HB as [HR HW]. pose proof HR as [_ Ol Htl].
  destruct p as [b|].
  2: { eexists _, _, _. split; [done|]. split; [|done].
       destruct (Buf_frame w w1 _ _ this l HI Hle1 HI1) as [HB1 E1]; [|done|by exists l].
       intros b Hb. apply elem_of_app. by left. }
  destruct Hp as (Hhd & x & Hx & Hfl & Hsz).
  rewrite (block_at_Some _ _ _ Hx). cbn beta iota.
  pose proof (Inv_wf _ _ _ _ HI1 Hx) as [Wf Ws Wc Wd].
  assert (left_space x = cap x - size x) as Els
    by (unfold left_space; rewrite wrapu_small by lia; done).
  rewrite Els. set (nc := Z.min left (cap x - size x)).
  assert (0 < nc <= left /\ size x + nc <= cap x) as [Hnc Hncc] by lia.
  rewrite (wrapu_small 32 nc) by lia.
  (* the write *)
  assert (exists w2 x2, (match fill nc with Some d => write_at b (size x) d | None => mret () end) w1
      = Some ((), w2) /\ Inv w2 (blocks l ++ O) /\ w1 ≼ w2 /\ heap w2 !! b = Some x2 /\
      size x2 = size x /\ cap x2 = cap x /\
      (forall d, fill nc = Some d -> slice (size x) nc (data x2) = d)) as
    (w2 & x2 & E2 & HI2 & Hle2 & Hx2 & Es2 & Ec2 & Hd2).
  { destruct (fill nc) as [d|] eqn:Ef; [|by exists w1, x].
    pose proof (Hfill nc d Hnc Ef) as Hz.
    destruct (write_at_spec w1 _ b x (size x) d HI1 Hx) as (w2 & E & HI2 & Hle2 & _ & Hx2);
      [lia|lia|]. eexists _, _. split; [done|]. split_and!; try done.
    intros d' [= <-]. rewrite <-Hz. cbn. apply slice_overwrite_at; lia. }
  run_in E2. rewrite E2. cbn beta iota.
  set (r := mkRef (size x) nc (Some b)).
  assert (ok_ref r) as Or by (split; cbn; eauto; lia).
  destruct (push_or_move_spec false this l r b w2 O HR Or eq_refl) as (this' & w3 & E3 & Hp3);
    [cbn; lia|split; [done|by eexists]|].
  unfold _push_back_ref. rewrite E3. destruct Hp3 as (HR' & HI3 & Hq3). cbn beta iota.
  destruct (Inv_live w3 _ b HI3) as (x3 & Hx3 & _).
  { apply elem_of_app. left. by apply push_ref_block. }
  destruct (quiet_heap _ _ Hq3 b x3 Hx3) as (x2' & Hx2' & Ex3).
  rewrite Hx2 in Hx2'. injection Hx2' as <-.
  assert (size x3 = size x /\ cap x3 = cap x /\ data x3 = data x2) as (Es3 & Ec3 & Ed3)
    by (rewrite Ex3; cbn; done).
  rewrite (block_at_Some _ _ _ Hx3). cbn beta iota.
  replace (u32 (size x3 + nc)) with (size x + nc) by (rewrite wrapu_small; lia).
  destruct (set_size_spec w3 _ b _ (size x + nc) HI3 Hx3) as (w4 & -> & HI4 & Hle4 & _ & Hx4);
    [lia|]. cbn beta iota.
  eexists _, _, _. split; [done|]. split; [done|].
  exists (slice (size x) nc (data x2)). split; [|split].
  - eapply (grow_result w w2 w4 l r b); try done; cbn; try lia.
    + by etrans.
    + etrans; [by apply quiet_wle|done].
    + by rewrite Ed3.
  - apply zlen_slice; try lia. pose proof (Inv_wf _ _ _ _ HI2 Hx2) as [_ _ _ Wd2]. lia.
  - intros d' Hd'. by apply Hd2.
Qed.

(** The outcome of an append of [d]: all of it, or a prefix when a block could
    not be allocated. *)
Definition appended (w : World) (O : list nat) (s d : list byte) (rc : Z) (this' : IOBuf)
    (w' : World) : Prop :=
  (rc = 0 /\ becomes w O (s ++ d) this' w') \/
  (rc = -1 /\ (exists k, becomes w O (s ++ take k d) this' w') /\ exists n, malloc_ok n = false).

Lemma becomes_wle w w1 O s this' w' :
  w ≼ w1 -> becomes w1 O s this' w' -> becomes w O s this' w'.
Proof. intros Hle (l & HB & HI & Hle' & E). exists l. split_and!; try done. by etrans. Qed.

Lemma appended_step w w1 O s d1 d2 rc this' w' :
  w ≼ w1 -> appended w1 O (s ++ d1) d2 rc this' w' -> appended w O s (d1 ++ d2) rc this' w'.
Proof.
  intros Hle [[-> H1]|[-> [[k H1] H2]]].
  - left. split; [done|]. rewrite app_assoc. by eapply becomes_wle.
  - right. split; [done|]. split; [|done]. exists (List.length d1 + k)%nat.
    rewrite take_app_add, app_assoc. by eapply becomes_wle.
Qed.

Lemma appended_none w O s d this' w' n :
  becomes w O s this' w' -> malloc_ok n = false -> appended w O s d (-1) this' w'.
Proof.
  intros Hb Hm. right. split; [done|]. split; [|by exists n]. exists 0%nat.
  rewrite take_0. by rewrite app_nil_r.
Qed.

Lemma append_loop_spec fuel rest w this l O :
  Buf w this l -> Inv w (blocks l ++ O) -> total l + zlen rest < 2 ^ 31 ->
  (List.length rest < fuel)%nat ->
  exists rc this' w', append_loop fuel rest this w = Some ((rc, this'), w') /\
    appended w O (bytes w l) rest rc this' w'.
Proof.
  revert rest w this l. induction fuel as [|fuel IH]; intros rest w this l HB HI Ht Hf; [lia|].
  cbn [append_loop]. destruct (Z.eqb_spec (zlen rest) 0) as [E0|Hn0].
  { apply zlen_0_inv in E0 as ->.
    eexists _, _, _. split; [done|]. left. split; [done|]. exists l. by rewrite app_nil_r. }
  pose proof (zlen_nonneg rest).
  destruct (grow_once_spec (fun nc => Some (take (Z.to_nat nc) rest)) (zlen rest) w this l O)
    as (res & this1 & w1 & E & Hres); try done; [lia| |].
  { intros nc d Hnc [= <-]. rewrite zlen_take. lia. }
  run. rewrite E. cbn beta iota. destruct res as [nc|].
  2: { destruct Hres as [Hb [n Hm]]. eexists _, _, _. split; [done|]. by eapply appended_none. }
  destruct Hres as (Hnc & d & (l1 & HB1 & HI1 & Hle & Eb) & Hd & Hfill).
  specialize (Hfill _ eq_refl) as ->.
  destruct (IH (drop (Z.to_nat nc) rest) w1 this1 l1) as (rc & this2 & w2 & -> & Ha); try done.
  - rewrite <-(Buf_len _ _ _ HB1), Eb, zlen_app, (Buf_len _ _ _ HB), zlen_take, zlen_drop. lia.
  - rewrite length_drop. unfold zlen in *. lia.
  - eexists _, _, _. split; [done|]. rewrite Eb in Ha.
    rewrite <-(take_drop (Z.to_nat nc) rest). by eapply appended_step.
Qed.

Lemma push_back_ok c w this l O :
  Buf w this l -> Inv w (blocks l ++ O) -> total l + 1 < 2 ^ 31 ->
  exists rc this' w', push_back c this w = Some ((rc, this'), w') /\
    appended w O (bytes w l) [c] rc this' w'.
Proof.
  intros HB HI Ht. unfold push_back. run.
  destruct (share_tls_block_spec w _ HI) as (p & w1 & -> & HI1 & Hle1 & Hp). cbn beta iota.
  pose proof HB as [HR HW]. pose proof HR as [_ Ol Htl].
  destruct (Buf_frame w w1 _ _ this l HI Hle1 HI1) as [HB1 E1]; [|done|].
  { intros b' Hb'. apply elem_of_app. by left. }
  destruct p as [b|].
  2: { eexists _, _, _. split; [done|]. destruct Hp as [n Hm]. eapply appended_none; [|done].
       by exists l. }
  destruct Hp as (Hhd & x & Hx & Hfl & Hsz).
  rewrite (block_at_Some _ _ _ Hx). cbn beta iota.
  pose proof (Inv_wf _ _ _ _ HI1 Hx) as [Wf Ws Wc Wd].
  destruct (write_at_spec w1 _ b x (size x) [c] HI1 Hx) as (w2 & -> & HI2 & Hle2 & _ & Hx2);
    [lia|change (zlen [c]) with 1; lia|]. cbn beta iota.
  rewrite (block_at_Some _ _ _ Hx2). cbn beta iota.
  set (x2 := with_data _ x) in *.
  replace (u32 (size x2 + 1)) with (size x + 1) by (cbn; rewrite wrapu_small; lia).
  destruct (set_size_spec w2 _ b x2 (size x + 1) HI2 Hx2) as (w3 & -> & HI3 & Hle3 & _ & Hx3);
    [cbn; lia|]. cbn beta iota.
  assert (w ≼ w3) as Hle by (by rewrite Hle1, Hle2).
  destruct (Buf_frame w w3 _ _ this l HI Hle HI3) as [HB3 E3]; [|done|].
  { intros b' Hb'. apply elem_of_app. by left. }
  pose proof (Inv_wf _ _ _ _ HI3 Hx3) as [_ Ws3 _ Wd3]. cbn in Ws3, Wd3.
  destruct (push_ok false w3 this l (mkRef (size x) 1 (Some b)) b O)
    as (this' & l' & w4 & E4 & HB4 & HI4 & Hq & Eb); try done.
  { split; cbn; eauto; lia. }
  { exists b, (with_size (size x + 1) x2). cbn. split_and!; try done; lia. }
  unfold _push_back_ref. rewrite E4. cbn beta iota.
  eexists _, _, _. split; [done|]. left. split; [done|]. exists l'.
  split; [done|]. split; [done|]. split; [etrans; [done|by apply quiet_wle]|].
  rewrite Eb, E3. f_equal. unfold ref_bytes. cbn. rewrite Hx3. cbn.
  apply (slice_overwrite_at (size x) [c]); lia.
Qed.

Lemma append_ok d w this l O :
  Buf w this l -> Inv w (blocks l ++ O) -> total l + zlen d < 2 ^ 31 ->
  exists rc this' w', append (Some d) this w = Some ((rc, this'), w') /\
    appended w O (bytes w l) d rc this' w'.
Proof.
  intros HB HI Ht. unfold append. destruct d as [|c [|c2 d]].
  - by apply append_loop_spec; [..|cbn; lia].
  - by apply push_back_ok.
  - apply append_loop_spec; try done. lia.
Qed.

Lemma resize_loop_spec fuel left c w this l O :
  Buf w this l -> Inv w (blocks l ++ O) -> total l + left < 2 ^ 31 ->
  (Z.to_nat left < fuel)%nat ->
  exists rc this' w', resize_loop fuel left c this w = Some ((rc, this'), w') /\
    appended w O (bytes w l) (replicate (Z.to_nat left) c) rc this' w'.
Proof.
  revert left w this l. induction fuel as [|fuel IH]; intros left w this l HB HI Ht Hf; [lia|].
  cbn [resize_loop]. destruct (Z.leb_spec left 0) as [E0|Hn0].
  { eexists _, _, _. split; [done|]. left. split; [done|]. exists l.
    replace (Z.to_nat left) with 0%nat by lia. cbn. by rewrite app_nil_r. }
  destruct (grow_once_spec (fun nc => Some (replicate (Z.to_nat nc) c)) left w this l O)
    as (res & this1 & w1 & E & Hres); try done.
  { intros nc d Hnc [= <-]. unfold zlen. rewrite length_replicate. lia. }
  run. rewrite E. cbn beta iota. destruct res as [nc|].
  2: { destruct Hres as [Hb [n Hm]]. eexists _, _, _. split; [done|]. by eapply appended_none. }
  destruct Hres as (Hnc & d & (l1 & HB1 & HI1 & Hle & Eb) & Hd & Hfill).
  specialize (Hfill _ eq_refl) as ->.
  destruct (IH (left - nc) w1 this1 l1) as (rc & this2 & w2 & -> & Ha); try done.
  - rewrite <-(Buf_len _ _ _ HB1), Eb, zlen_app, Hd, (Buf_len _ _ _ HB). lia.
  - lia.
  - eexists _, _, _. split; [done|]. rewrite Eb in Ha.
    replace (Z.to_nat left) with (Z.to_nat nc + Z.to_nat (left - nc))%nat by lia.
    rewrite replicate_add. by eapply appended_step.
Qed.

Lemma resize_ok n c w this l O :
  Buf w this l -> Inv w (blocks l ++ O) -> 0 <= n < 2 ^ 31 ->
  exists rc this' w', resize n c this w = Some ((rc, this'), w') /\
    ((rc = 0 /\ n < total l /\ becomes w O (take (Z.to_nat n) (bytes w l)) this' w') \/
     (total l <= n /\
      appended w O (bytes w l) (replicate (Z.to_nat (n - total l)) c) rc this' w')).
Proof.
  intros HB HI Hn. unfold resize. rewrite (length_spec _ _ (Buf_Rep _ _ _ HB)). run.
  destruct (Z.ltb_spec n (total l)) as [Hlt|Hge].
  - destruct (pop_back_ok w (total l - n) this l O HB HI) as (this' & w' & -> & Hb); [lia|].
    cbn beta iota. eexists _, _, _. split; [done|]. left. split; [done|]. split; [done|].
    by replace (total l - (total l - n)) with n in Hb by lia.
  - destruct (resize_loop_spec (S (Z.to_nat (n - total l))) (n - total l) c w this l O)
      as (rc & this' & w' & -> & Ha); try done; [lia|lia|].
    eexists _, _, _. split; [done|]. by right.
Qed.

(** User data becomes a block of its own, referenced once. *)
Lemma append_user_data_ok d del meta w this l O :
  Buf w this l -> Inv w (blocks l ++ O) -> total l + zlen d < 2 ^ 31 ->
  exists rc this' w', append_user_data_with_meta d del meta this w = Some ((rc, this'), w') /\
    appended w O (bytes w l) d rc this' w'.
Proof.
  intros HB HI Ht. unfold append_user_data_with_meta.
  pose proof (Buf_len _ _ _ HB) as EL. pose proof (zlen_nonneg (bytes w l)).
  destruct (Z.ltb_spec (0xFFFFFFFF - 100) (zlen d)); [lia|].
  destruct (Z.eqb_spec (zlen d) 0) as [E0|Hn0].
  { run. eexists _, _, _. split; [done|]. left. split; [done|]. exists l.
    apply zlen_0_inv in E0 as ->.
    assert (w ≼ add_deleted del w) as Hle by by apply wle_same_heap.
    assert (Inv (add_deleted del w) (blocks l ++ O)) as HI' by by eapply Inv_same.
    destruct (Buf_frame w _ _ _ this l HI Hle HI') as [HB' E']; [|done|].
    { intros b' Hb'. apply elem_of_app. by left. }
    by rewrite app_nil_r. }
  pose proof (zlen_nonneg d).
  unfold malloc, set_block. run. destruct (malloc_ok (next w)) eqn:Em.
  - rewrite !wrapu_small by lia. destruct HI as (c & HI & Hn).
    set (x := mkBlock 1 IOBUF_BLOCK_FLAGS_USER_DATA (zlen d) (zlen d) (data_meta meta) d del).
    match goal with |- context [_move_back_ref _ _ ?w'] => set (w1 := w') end.
    assert (wf_block x) as Wx by (split; cbn; [right; eauto|try lia; try done..]).
    destruct (Inv_at_new w _ c _ x w1 HI Wx) as (HI1 & Hle1 & _); try done.
    { cbn. rewrite Z.add_0_r. destruct HI as [_ _ _ ->]. unfold wrapu. by rewrite Zmod_mod. }
    assert (Inv w1 (next w :: blocks l ++ O)) as HIv by (by exists c).
    destruct (Buf_frame w w1 _ _ this l (ex_intro _ c (conj HI Hn)) Hle1 HIv) as [HB1 E1];
      [|done|].
    { intros b' Hb'. right. apply elem_of_app. by left. }
    assert (heap w1 !! next w = Some x) as Hx by apply lookup_insert_eq.
    destruct (push_ok true w1 this l (mkRef 0 (zlen d) (Some (next w))) (next w) O)
      as (this' & l' & w2 & E & HB2 & HI2 & Hq & Eb); try done.
    { split; cbn; eauto; lia. }
    { exists (next w), x. cbn. split_and!; try done; lia. }
    unfold _move_back_ref. rewrite E. cbn beta iota.
    eexists _, _, _. split; [done|]. left. split; [done|]. exists l'.
    split; [done|]. split; [done|]. split; [etrans; [done|by apply quiet_wle]|].
    rewrite Eb, E1. f_equal. unfold ref_bytes. cbn [ref_block ref_offset ref_length]. rewrite Hx. apply slice_all.
  - eexists _, _, _. split; [done|]. eapply appended_none; [|done].
    assert (w ≼ set_next (S (next w)) w) as Hle by (apply wle_same_heap; cbn; [done|lia]).
    assert (Inv (set_next (S (next w)) w) (blocks l ++ O)) as HI'.
    { destruct HI as (c & [J1 J2 J3 J4] & Hn). exists c. split; [|done].
      split; cbn; try done. intros b Hb%J3. lia. }
    destruct (Buf_frame w _ _ _ this l HI Hle HI') as [HB' E']; [|done|by exists l].
    intros b' Hb'. apply elem_of_app. by left.
Qed.
End Grow.

(** ** Walking the references *)

Lemma Buf_at w buf l i r :
  Buf w buf l -> l !! i = Some r ->
  ok_ref r /\ written w r /\ _ref_at buf (Z.of_nat i) = Some r.
Proof.
  intros [HR HW] Hr. pose proof HR as [_ Ol _]. split; [|split].
  - by eapply (proj1 (Forall_lookup _ _) Ol).
  - by eapply (proj1 (Forall_lookup _ _) HW).
  - apply (ref_at_spec buf l); [done|lia|by rewrite Nat2Z.id].
Qed.

Lemma read_ref_spec w r : ok_ref r -> written w r -> read_ref r w = Some (ref_bytes w r, w).
Proof.
  intros Or Wr. unfold read_ref. pose proof Or as [_ ? ? _].
  rewrite read_at_spec by (done || lia). rewrite Z.sub_diag.
  do 2 f_equal. rewrite <-(zlen_ref_bytes w r Or Wr). apply slice_all.
Qed.

(** The references from index [i] on: [k] of them. *)
Lemma walk_cases (l : list BlockRef) (k i : nat) :
  (i + k)%nat = List.length l ->
  match k with
  | O => drop i l = []
  | S k' => exists r, l !! i = Some r /\ drop i l = r :: drop (S i) l /\
                      (S i + k')%nat = List.length l
  end.
Proof.
  intros E. destruct k as [|k]; [by apply drop_ge; lia|].
  destruct (lookup_lt_is_Some_2 l i) as [r Hr]; [lia|].
  exists r. split; [done|]. split; [by apply drop_S|lia].
Qed.

Lemma skip_pos_spec w buf l k i off :
  Buf w buf l -> (i + k)%nat = List.length l -> 0 <= off ->
  exists k' i' off', skip_pos buf k (Z.of_nat i) off w = Some ((k', Z.of_nat i', off'), w) /\
    (i' + k')%nat = List.length l /\ 0 <= off' /\
    drop (Z.to_nat off') (bytes w (drop i' l)) = drop (Z.to_nat off) (bytes w (drop i l)) /\
    (forall r, l !! i' = Some r -> off' < ref_length r).
Proof.
  intros HB. revert i off. induction k as [|k IH]; intros i off Hk Hoff;
    pose proof (walk_cases l _ i Hk) as Hw; cbn [skip_pos].
  - exists O, i, off. split_and!; try done. intros r Hr%lookup_lt_Some. lia.
  - destruct Hw as (r & Hr & Hd & Hk').
    destruct (Buf_at _ _ _ _ _ HB Hr) as (Or & Wr & Ea).
    pose proof Or as [_ _ Hl _].
    destruct (Z.eqb_spec off 0) as [->|Hne].
    { exists (S k), i, 0. split_and!; try done. intros r' Hr'. simplify_eq. done. }
    run. rewrite Ea. cbn beta iota. destruct (Z.ltb_spec off (ref_length r)) as [Hlt|Hge].
    { exists (S k), i, off. split_and!; try done. intros r' Hr'. by simplify_eq. }
    replace (Z.of_nat i + 1) with (Z.of_nat (S i)) by lia.
    destruct (IH (S i) (off - ref_length r)) as (k' & i' & off' & E & Hk2 & Ho & Ed & Hlt);
      [done|lia|].
    exists k', i', off'. split_and!; try done.
    by rewrite Ed, Hd, <-bytes_drop_ref.
Qed.

Lemma copy_to_loop_spec w buf l k i off m d :
  Buf w buf l -> (i + k)%nat = List.length l -> 0 <= off -> 0 <= m ->
  (forall r, l !! i = Some r -> off < ref_length r) ->
  let s := take (Z.to_nat m) (drop (Z.to_nat off) (bytes w (drop i l))) in
  copy_to_loop buf k (Z.of_nat i) off m d w = Some ((m - zlen s, d ++ s), w).
Proof.
  intros HB. revert i off m d. induction k as [|k IH]; intros i off m d Hk Hoff Hm Hlt;
    pose proof (walk_cases l _ i Hk) as Hw; cbn [copy_to_loop].
  - rewrite Hw. unfold bytes. cbn. rewrite drop_nil, take_nil. cbn.
    by rewrite app_nil_r, Z.sub_0_r.
  - destruct Hw as (r & Hr & Hd & Hk').
    destruct (Buf_at _ _ _ _ _ HB Hr) as (Or & Wr & Ea). specialize (Hlt r Hr).
    pose proof Or as [_ Ho Hl He]. pose proof (zlen_ref_bytes w r Or Wr) as Zr.
    destruct (Z.eqb_spec m 0) as [->|Hne]; [cbn; by rewrite app_nil_r|].
    run. rewrite Ea. cbn beta iota. rewrite wrapu_small by lia.
    set (nc := Z.min m (ref_length r - off)).
    rewrite read_at_spec by (done || lia). cbn beta iota.
    replace (Z.of_nat i + 1) with (Z.of_nat (S i)) by lia.
    rewrite (IH (S i) 0 (m - nc)); [|done|lia|lia|].
    2: { intros r' Hr'. by destruct (Buf_at _ _ _ _ _ HB Hr') as ([_ _ ? _] & _). }
    rewrite drop_0, Hd, bytes_cons. rewrite (drop_app_le (ref_bytes w r)) by (unfold zlen in *; lia).
    assert (slice (ref_offset r + off - ref_offset r) nc (ref_bytes w r) =
            take (Z.to_nat m) (drop (Z.to_nat off) (ref_bytes w r))) as ->.
    { unfold slice. replace (ref_offset r + off - ref_offset r) with off by lia.
      unfold nc. destruct (Z.min_spec m (ref_length r - off)) as [[? ->]|[? ->]]; [done|].
      rewrite !take_ge by (rewrite length_drop; unfold zlen in *; lia). done. }
    assert (Z.to_nat (m - nc) =
      (Z.to_nat m - List.length (drop (Z.to_nat off) (ref_bytes w r)))%nat) as ->.
    { rewrite length_drop. unfold zlen in *. lia. }
    rewrite take_app, <-app_assoc. do 3 f_equal.
    rewrite zlen_app, zlen_take, zlen_drop. unfold zlen in *. lia.
Qed.

Lemma copy_to_ok w buf l n pos :
  Buf w buf l -> 0 <= n -> 0 <= pos ->
  let s := take (Z.to_nat n) (drop (Z.to_nat pos) (bytes w l)) in
  copy_to buf n pos w = Some ((zlen s, s), w).
Proof.
  intros HB Hn Hp. unfold copy_to. rewrite (ref_num_spec _ _ (Buf_Rep _ _ _ HB)). run.
  unfold zlen at 1. rewrite Nat2Z.id.
  destruct (skip_pos_spec w buf l (List.length l) 0 pos HB)
    as (k & i & off & E & Hk & Ho & Ed & Hlt); [lia|done|].
  change (Z.of_nat 0) with 0 in E. rewrite E. cbn beta iota.
  rewrite (copy_to_loop_spec w buf l k i off n []) by done. cbn beta iota.
  rewrite Ed, drop_0, app_nil_l. do 3 f_equal. lia.
Qed.

(** append_to pushes references to the bytes that copy_to would copy. *)
Lemma append_to_loop_spec w this buf l1 l2 k i off m O :
  Buf w this l1 -> Buf w buf l2 -> Inv w (blocks l2 ++ blocks l1 ++ O) ->
  (i + k)%nat = List.length l1 -> 0 <= off -> 0 <= m ->
  (forall r, l1 !! i = Some r -> off < ref_length r) ->
  let s := take (Z.to_nat m) (drop (Z.to_nat off) (bytes w (drop i l1))) in
  total l2 + zlen s < 2 ^ 31 ->
  exists buf' w', append_to_loop this buf k (Z.of_nat i) off m w = Some ((m - zlen s, buf'), w') /\
    exists l2', Buf w' buf' l2' /\ Inv w' (blocks l2' ++ blocks l1 ++ O) /\ quiet w w' /\
      bytes w' l2' = bytes w l2 ++ s.
Proof.
  revert w buf l2 i off m. induction k as [|k IH];
    intros w buf l2 i off m HB1 HB2 HI Hk Hoff Hm Hlt s Ht;
    pose proof (walk_cases l1 _ i Hk) as Hw; cbn [append_to_loop].
  - assert (s = []) as ->.
    { unfold s. rewrite Hw. unfold bytes. cbn. by rewrite drop_nil, take_nil. }
    cbn. rewrite Z.sub_0_r. eexists _, _. split; [done|]. exists l2. by rewrite app_nil_r.
  - destruct Hw as (r & Hr & Hd & Hk').
    destruct (Buf_at _ _ _ _ _ HB1 Hr) as (Or & Wr & Ea). specialize (Hlt r Hr).
    pose proof Or as [[b Eb] Ho Hl He]. pose proof (zlen_ref_bytes w r Or Wr) as Zr.
    destruct (Z.eqb_spec m 0) as [->|Hne].
    { eexists _, _. split; [done|]. exists l2. unfold s. cbn. by rewrite app_nil_r. }
    run. rewrite Ea. cbn beta iota. rewrite (wrapu_small 64) by lia.
    set (nc := Z.min m (ref_length r - off)).
    rewrite !wrapu_small by lia.
    replace (mkRef _ _ _) with (keep_ref nc (cut_ref off r)) by done.
    destruct (cut_ref_bytes w off r Or Wr) as [Wc Ec]; [lia|].
    assert (ok_ref (cut_ref off r)) as Oc by (apply cut_ref_ok; [done|lia]).
    destruct (keep_ref_bytes w nc (cut_ref off r) Oc Wc) as [Wk Ek]; [cbn; lia|].
    assert (ok_ref (keep_ref nc (cut_ref off r))) as Ok by (apply keep_ref_ok; [done|cbn; lia]).
    set (s1 := ref_bytes w (keep_ref nc (cut_ref off r))) in *.
    set (s2 := take (Z.to_nat (m - nc)) (bytes w (drop (S i) l1))).
    assert (zlen s1 = nc) as Z1 by (apply (zlen_ref_bytes w _ Ok Wk)).
    assert (s = s1 ++ s2) as Es.
    { unfold s, s2. rewrite Ek, Ec, Hd, bytes_cons.
      rewrite (drop_app_le (ref_bytes w r)) by (unfold zlen in *; lia).
      rewrite take_app. f_equal.
      - unfold nc. destruct (Z.min_spec m (ref_length r - off)) as [[? ->]|[? ->]]; [done|].
        rewrite !take_ge by (rewrite length_drop; unfold zlen in *; lia). done.
      - f_equal. rewrite length_drop. unfold zlen in *. lia. }
    rewrite Es, zlen_app, Z1 in Ht. pose proof (zlen_nonneg s2).
    destruct (Inv_live w _ b HI) as (x & Hx & _).
    { apply app_sub_l. apply list_elem_of_omap. exists r.
      split; [by eapply list_elem_of_lookup_2|done]. }
    destruct (push_ok false w buf l2 (keep_ref nc (cut_ref off r)) b (blocks l1 ++ O)) as
      (buf1 & l2' & w1 & E1 & HB2' & HI1 & Hq1 & Eb2); try done.
    { cbn [ref_length keep_ref]. lia. }
    fold s1 in Eb2. unfold _push_back_ref. rewrite E1. cbn beta iota.
    replace (Z.of_nat i + 1) with (Z.of_nat (S i)) by lia.
    destruct (Buf_frame w w1 _ _ this l1 HI (quiet_wle _ _ Hq1) HI1) as [HB1' _]; [|done|].
    { intros b' Hb'. by apply app_sub_l. }
    destruct (refs_frame w w1 _ _ (drop (S i) l1) HI (quiet_wle _ _ Hq1) HI1) as [_ E0].
    { intros b' Hb'. apply app_sub_l. rewrite <-(take_drop (S i) l1), blocks_app.
      apply elem_of_app. by right. }
    { apply Forall_drop, HB1. }
    { apply Forall_drop, HB1. }
    destruct (IH w1 buf1 l2' (S i) 0 (m - nc)) as (buf2 & w2 & E2 & l2b & HB & HIb & Hq2 & Ebb);
      [done|done|done|done|lia|lia| | |].
    + intros r' Hr'. by destruct (Buf_at _ _ _ _ _ HB1 Hr') as ([_ _ ? _] & _).
    + rewrite drop_0, E0. fold s2. rewrite <-(Buf_len _ _ _ HB2'), Eb2, zlen_app, Z1,
        (Buf_len _ _ _ HB2). lia.
    + rewrite drop_0, E0 in E2, Ebb. fold s2 in E2, Ebb.
      replace (m - nc - zlen s2) with (m - zlen s) in E2 by (rewrite Es, zlen_app; lia).
      eexists _, _. split; [done|]. exists l2b. split; [done|]. split; [done|].
      split; [by etrans|]. by rewrite Ebb, Eb2, Es, app_assoc.
Qed.

Lemma append_to_ok w this buf l1 l2 n pos O :
  Buf w this l1 -> Buf w buf l2 -> Inv w (blocks l1 ++ blocks l2 ++ O) -> 0 <= n -> 0 <= pos ->
  let s := take (Z.to_nat n) (drop (Z.to_nat pos) (bytes w l1)) in
  total l2 + zlen s < 2 ^ 31 ->
  exists buf' w', append_to this buf n pos w = Some ((zlen s, buf'), w') /\
    become2 w O (bytes w l1) (bytes w l2 ++ s) this buf' w'.
Proof.
  intros HB1 HB2 HI Hn Hp s Ht. unfold append_to.
  rewrite (ref_num_spec _ _ (Buf_Rep _ _ _ HB1)). run.
  unfold zlen at 1. rewrite Nat2Z.id.
  destruct (skip_pos_spec w this l1 (List.length l1) 0 pos HB1)
    as (k & i & off & E & Hk & Ho & Ed & Hlt); [lia|done|].
  change (Z.of_nat 0) with 0 in E. rewrite E. cbn beta iota. rewrite drop_0 in Ed.
  destruct (append_to_loop_spec w this buf l1 l2 k i off n O)
    as (buf' & w' & -> & l2' & HB' & HI' & Hq & Eb); try done.
  { by rewrite !app_assoc, (Permutation_app_comm (blocks l2)), <-app_assoc. }
  { by rewrite Ed. }
  rewrite Ed in *. fold s in Eb |- *. cbn beta iota.
  replace (n - (n - zlen s)) with (zlen s) by lia.
  eexists _, _. split; [done|]. exists l1, l2'.
  destruct (Buf_frame w w' _ _ this l1 HI (quiet_wle _ _ Hq) HI') as [HB1' E1]; [|done|].
  { intros b' Hb'. by apply app_sub_l. }
  split_and!; try done.
  - by rewrite !app_assoc, (Permutation_app_comm (blocks l1)), <-app_assoc.
  - by apply quiet_wle.
Qed.

(** Appending all references of another buffer, shared or handed over: what
    the other buffer still owns at index [i]. *)
Definition still (move : bool) (l : list BlockRef) (i : nat) : list nat :=
  if move then blocks (drop i l) else blocks l.

Lemma append_refs_spec move w this other l1 l2 k i O :
  Rep other l1 -> Forall (written w) (drop i l1) -> Buf w this l2 ->
  Inv w (blocks l2 ++ still move l1 i ++ O) ->
  (i + k)%nat = List.length l1 -> total l2 + total (drop i l1) < 2 ^ 31 ->
  exists this' w', append_refs this other move k (Z.of_nat i) w = Some (this', w') /\
    exists l2', Buf w' this' l2' /\ Inv w' (blocks l2' ++ still move l1 (List.length l1) ++ O) /\
      quiet w w' /\ bytes w' l2' = bytes w l2 ++ bytes w (drop i l1).
Proof.
  revert w this l2 i. induction k as [|k IH]; intros w this l2 i HR HW HB2 HI Hk Ht;
    pose proof (walk_cases l1 _ i Hk) as Hw; cbn [append_refs].
  - rewrite Nat.add_0_r in Hk. subst i. eexists _, _. split; [done|]. exists l2.
    rewrite Hw. by rewrite app_nil_r.
  - destruct Hw as (r & Hr & Hd & Hk').
    rewrite Hd in HW, Ht. apply Forall_cons in HW as [Wr HW]. cbn [total] in Ht.
    assert (Forall ok_ref (drop i l1)) as Od by (apply Forall_drop, HR).
    rewrite Hd in Od. apply Forall_cons in Od as [Or Od].
    pose proof (total_length _ Od). pose proof (zlen_nonneg (drop (S i) l1)).
    run. rewrite (ref_at_spec other l1 _ r HR) by (rewrite ?Nat2Z.id; done || lia).
    cbn beta iota. pose proof Or as [[b Eb] _ _ _].
    assert (owes move b w (blocks l2 ++ still move l1 (S i) ++ O)) as Ho.
    { destruct move; cbn in *.
      - rewrite Hd, (blocks_cons _ _ _ Eb) in HI. by rewrite Permutation_middle.
      - split; [done|]. destruct (Inv_live w _ b HI) as (x & Hx & _); [|by eexists].
        apply app_sub_l. apply list_elem_of_omap. exists r.
        split; [by eapply list_elem_of_lookup_2|done]. }
    destruct (push_ok move w this l2 r b _ HB2 Or Wr Eb ltac:(lia) Ho)
      as (this1 & l2' & w1 & -> & HB1 & HI1 & Hq1 & Eb1). cbn beta iota.
    destruct (refs_frame w w1 _ _ (drop (S i) l1) HI (quiet_wle _ _ Hq1) HI1)
      as [HW1 E1]; try done.
    { intros b' Hb'. apply app_sub_l. destruct move; [done|]. cbn.
      rewrite <-(take_drop (S i) l1), blocks_app. apply elem_of_app. by right. }
    replace (Z.of_nat i + 1) with (Z.of_nat (S i)) by lia.
    destruct (IH w1 this1 l2' (S i)) as (this2 & w2 & -> & l3 & HB3 & HI3 & Hq3 & E3); try done.
    { rewrite <-(Buf_len _ _ _ HB1), Eb1, zlen_app, (zlen_ref_bytes w r Or Wr),
        (Buf_len _ _ _ HB2). lia. }
    eexists _, _. split; [done|]. exists l3. split; [done|]. split; [done|].
    split; [by etrans|]. by rewrite E3, E1, Eb1, Hd, bytes_cons, app_assoc.
Qed.

Lemma swap_owned w (A B O : list nat) : Inv w (A ++ B ++ O) -> Inv w (B ++ A ++ O).
Proof. intros HI. by rewrite !app_assoc, (Permutation_app_comm B), <-app_assoc. Qed.

Lemma append_IOBuf_ok w this other l1 l2 O :
  Buf w this l1 -> Buf w other l2 -> Inv w (blocks l1 ++ blocks l2 ++ O) ->
  total l1 + total l2 < 2 ^ 31 ->
  exists this' w', append_IOBuf this other w = Some (this', w') /\
    become2 w O (bytes w l1 ++ bytes w l2) (bytes w l2) this' other w'.
Proof.
  intros HB1 HB2 HI Ht. unfold append_IOBuf.
  rewrite (ref_num_spec _ _ (Buf_Rep _ _ _ HB2)). run. unfold zlen. rewrite Nat2Z.id.
  destruct (append_refs_spec false w this other l2 l1 (List.length l2) 0 O)
    as (this' & w' & E & l1' & HB' & HI' & Hq & Eb); try done; [apply HB2..|].
  change (Z.of_nat 0) with 0 in E. rewrite E. eexists _, _. split; [done|].
  cbn in HI'. exists l1', l2.
  destruct (Buf_frame w w' _ _ other l2 HI (quiet_wle _ _ Hq) HI') as [HB2' E2]; [|done|].
  { intros b' Hb'. by apply app_sub_l. }
  split_and!; try done. by apply quiet_wle.
Qed.

Lemma append_Movable_ok w this other l1 l2 O :
  Buf w this l1 -> Buf w other l2 -> Inv w (blocks l1 ++ blocks l2 ++ O) ->
  total l1 + total l2 < 2 ^ 31 ->
  exists this' other' w', append_Movable this other w = Some ((this', other'), w') /\
    become2 w O (bytes w l1 ++ bytes w l2) [] this' other' w'.
Proof.
  intros HB1 HB2 HI Ht. unfold append_Movable.
  rewrite (empty_spec _ _ (Buf_Rep _ _ _ HB1)). run.
  destruct (bool_decide_reflect (l1 = [])) as [->|Hne].
  - eexists _, _, _. split; [done|]. exists l2, []. split_and!; try done.
  - rewrite (ref_num_spec _ _ (Buf_Rep _ _ _ HB2)). cbn beta iota. unfold zlen. rewrite Nat2Z.id.
    destruct (append_refs_spec true w this other l2 l1 (List.length l2) 0 O)
      as (this' & w' & E & l1' & HB' & HI' & Hq & Eb); try done; [apply HB2..|].
    change (Z.of_nat 0) with 0 in E. rewrite E. cbn beta iota.
    eexists _, _, _. split; [done|]. cbn in HI'. rewrite drop_ge in HI' by lia.
    exists l1', []. split; [done|]. split; [split; [apply new_IOBuf_Rep|done]|].
    split_and!; try done. by apply quiet_wle.
Qed.

(** ** Cutting at a delimiter *)

(** The index of the first byte that satisfies [f]. *)
Fixpoint find_from (d : byte) (s : list byte) (n : Z) : option Z :=
  match s with
  | [] => None
  | c :: s => if decide (c = d) then Some n else find_from d s (n + 1)
  end.

Lemma scan_char_find d s n : scan_char d s n = find_from d s n.
Proof.
  revert n. induction s as [|c s IH]; intros n; cbn; [done|].
  destruct (decide (c = d)) as [->|Hne].
  - by rewrite (proj2 (byte_eqb_true d d)).
  - destruct (Byte.eqb c d) eqn:E; [by apply byte_eqb_true in E|done].
Qed.

Lemma find_from_app d s1 s2 n :
  find_from d (s1 ++ s2) n =
    match find_from d s1 n with Some m => Some m | None => find_from d s2 (n + zlen s1) end.
Proof.
  revert n. induction s1 as [|c s1 IH]; intros n; cbn [find_from app].
  - by rewrite Z.add_0_r.
  - destruct (decide (c = d)); [done|]. rewrite IH, zlen_cons.
    destruct (find_from d s1 (n + 1)); [done|]. f_equal. lia.
Qed.

Lemma find_from_spec d s n m :
  find_from d s n = Some m <->
  n <= m /\ s !! Z.to_nat (m - n) = Some d /\ d ∉ take (Z.to_nat (m - n)) s.
Proof.
  revert n. induction s as [|c s IH]; intros n; cbn [find_from].
  - split; [done|]. intros (_ & H & _). by rewrite lookup_nil in H.
  - destruct (decide (c = d)) as [->|Hne].
    + split.
      * intros [= ->]. rewrite Z.sub_diag. cbn. split_and!; [lia|done|apply not_elem_of_nil].
      * intros (Hle & _ & Hn). destruct (Z.to_nat (m - n)) eqn:E; [f_equal; lia|].
        cbn in Hn. exfalso. apply Hn. by left.
    + rewrite IH. split.
      * intros (Hle & Hl & Hn). replace (Z.to_nat (m - n)) with (S (Z.to_nat (m - (n + 1)))) by lia.
        cbn. split_and!; [lia|done|]. intros [->|Hin]%elem_of_cons; [done|done].
      * intros (Hle & Hl & Hn). destruct (Z.to_nat (m - n)) eqn:E; cbn in *; [by simplify_eq|].
        replace (Z.to_nat (m - (n + 1))) with n0 by lia.
        split_and!; [lia|done|]. intros Hin. apply Hn. by right.
Qed.

Lemma find_char_spec w buf l d k i n :
  Buf w buf l -> (i + k)%nat = List.length l ->
  find_char buf d k (Z.of_nat i) n w = Some (find_from d (bytes w (drop i l)) n, w).
Proof.
  intros HB. revert i n. induction k as [|k IH]; intros i n Hk;
    pose proof (walk_cases l _ i Hk) as Hw; cbn [find_char].
  - rewrite Hw. done.
  - destruct Hw as (r & Hr & Hd & Hk').
    destruct (Buf_at _ _ _ _ _ HB Hr) as (Or & Wr & Ea).
    run. rewrite Ea. cbn beta iota. rewrite read_ref_spec by done. cbn beta iota.
    rewrite Hd, bytes_cons, find_from_app, scan_char_find, (zlen_ref_bytes w r Or Wr).
    destruct (find_from d (ref_bytes w r) n); [done|].
    replace (Z.of_nat i + 1) with (Z.of_nat (S i)) by lia. by apply IH.
Qed.

(** What a cut at the [n]-th byte, over a delimiter of [m] bytes, leaves. *)
Lemma cut_and_pop w this out l1 l2 n m O :
  Buf w this l1 -> Buf w out l2 -> Inv w (blocks l1 ++ blocks l2 ++ O) ->
  0 <= n -> 0 <= m -> n + m <= total l1 -> total l2 + n < 2 ^ 31 ->
  exists this' out' w',
    ('(_, this, out) ← cutn this out n; '(_, this) ← pop_front m this; mret (0, this, out)) w
      = Some ((0, this', out'), w') /\
    become2 w O (drop (Z.to_nat (n + m)) (bytes w l1)) (bytes w l2 ++ take (Z.to_nat n) (bytes w l1))
      this' out' w'.
Proof.
  intros HB1 HB2 HI Hn Hm Hnm Ht.
  destruct (cutn_ok w n this out l1 l2 O HB1 HB2 HI Hn ltac:(lia))
    as (this1 & out1 & w1 & E1 & l1' & l2' & HB1' & HB2' & HI1 & Hle1 & Eb1 & Eb2).
  run. rewrite E1. cbn beta iota.
  destruct (pop_front_ok w1 m this1 l1' (blocks l2' ++ O) HB1' HI1 Hm)
    as (this2 & w2 & E2 & l1b & HBb & HIb & Hle2 & Ebb).
  rewrite E2. cbn beta iota. eexists _, _, _. split; [done|].
  exists l1b, l2'. destruct (Buf_frame w1 w2 _ _ out1 l2' HI1 Hle2 HIb) as [HB2b E2b]; [|done|].
  { intros b' Hb'. by apply app_sub_l. }
  split_and!; try done.
  - by etrans.
  - rewrite Ebb, Eb1, drop_drop. f_equal. lia.
  - by rewrite E2b.
Qed.

Lemma cut_by_char_ok w this out l1 l2 d O :
  Buf w this l1 -> Buf w out l2 -> Inv w (blocks l1 ++ blocks l2 ++ O) ->
  total l2 + total l1 < 2 ^ 31 ->
  match find_from d (bytes w l1) 0 with
  | None => _cut_by_char this out d w = Some ((-1, this, out), w)
  | Some n => exists this' out' w', _cut_by_char this out d w = Some ((0, this', out'), w') /\
      become2 w O (drop (Z.to_nat (n + 1)) (bytes w l1))
        (bytes w l2 ++ take (Z.to_nat n) (bytes w l1)) this' out' w'
  end.
Proof.
  intros HB1 HB2 HI Ht. unfold _cut_by_char.
  rewrite (ref_num_spec _ _ (Buf_Rep _ _ _ HB1)).
  pose proof (find_char_spec w this l1 d (List.length l1) 0 0 HB1 eq_refl) as E.
  rewrite drop_0 in E. change (Z.of_nat 0) with 0 in E.
  destruct (find_from d (bytes w l1) 0) as [n|] eqn:Ef.
  - apply find_from_spec in Ef as (Hn & Hl & _). apply lookup_lt_Some in Hl.
    pose proof (Buf_len _ _ _ HB1) as EL. unfold zlen in EL.
    destruct (cut_and_pop w this out l1 l2 n 1 O HB1 HB2 HI) as (t & o & w' & Ec & Hb); try lia.
    exists t, o, w'. split; [|done]. run_in Ec. run. unfold zlen. rewrite Nat2Z.id, E. done.
  - run. unfold zlen. rewrite Nat2Z.id, E. done.
Qed.

End IOBufOps.
