(* ===== verification/IOBufSpec.v ===== *)
(** * IOBufSpec: IOBufs are strings

    The properties of class IOBuf (utility/iobuf.cc).  [Holds w bufs ss] says
    that the IOBufs [bufs] of a thread hold the strings [ss] and that the blocks
    they reference are counted exactly; a program of IOBuf calls ([call]) then
    refines the same program on strings ([IOBufs_refine_strings]).  Before that,
    the search for a multi-byte delimiter and the reading operations. *)

From S2P Require Import Prelude IOBlock IOBufRef IOBufOps.
Import IOBlock IOBufRef IOBufOps.

Module IOBufSpec.

(** ** The signature of a delimiter

    A signature of [m] bytes is the number with those base-256 digits. *)

Definition digit (c : byte) : Z := Z.of_N (Byte.to_N c).

Definition sig_val (ds : list Z) : Z := foldl (fun z c => z * 256 + c) 0 ds.

Lemma digit_range c : 0 <= digit c < 256.
Proof. unfold digit. pose proof (Byte.to_N_bounded c). lia. Qed.

#[global] Instance digit_inj : Inj (=) (=) digit.
Proof.
  unfold digit. intros c d E%N2Z.inj. apply (f_equal Byte.of_N) in E.
  rewrite !Byte.of_to_N in E. congruence.
Qed.

Lemma sig_val_snoc ds c : sig_val (ds ++ [c]) = sig_val ds * 256 + c.
Proof. unfold sig_val. by rewrite foldl_app. Qed.

Lemma sig_val_range ds : Forall (fun c => 0 <= c < 256) ds -> 0 <= sig_val ds < 256 ^ zlen ds.
Proof.
  induction ds as [|c ds IH] using rev_ind; [done|].
  intros [H1 [H2 _]%Forall_cons]%Forall_app. specialize (IH H1).
  rewrite sig_val_snoc, zlen_app. change (zlen [c]) with 1.
  rewrite Z.pow_add_r by (pose proof (zlen_nonneg ds); lia). lia.
Qed.

Lemma sig_val_cons c ds : sig_val (c :: ds) = c * 256 ^ zlen ds + sig_val ds.
Proof.
  induction ds as [|d ds IH] using rev_ind.
  { unfold sig_val, zlen. cbn. lia. }
  rewrite app_comm_cons, !sig_val_snoc, IH, zlen_app. change (zlen [d]) with 1.
  rewrite Z.pow_add_r by (pose proof (zlen_nonneg ds); lia). lia.
Qed.

Lemma sig_val_inj ds1 ds2 :
  zlen ds1 = zlen ds2 -> Forall (fun c => 0 <= c < 256) ds1 ->
  Forall (fun c => 0 <= c < 256) ds2 -> sig_val ds1 = sig_val ds2 -> ds1 = ds2.
Proof.
  revert ds2. induction ds1 as [|c ds1 IH] using rev_ind; intros ds2 Hz H1 H2 E.
  { symmetry. apply zlen_0_inv. by rewrite <-Hz. }
  destruct ds2 as [|d ds2 _] using rev_ind.
  { rewrite zlen_app in Hz. change (zlen [c]) with 1 in Hz.
    change (zlen (@nil Z)) with 0 in Hz. pose proof (zlen_nonneg ds1). lia. }
  apply Forall_app in H1 as [H1 [Hc _]%Forall_cons].
  apply Forall_app in H2 as [H2 [Hd _]%Forall_cons].
  rewrite !sig_val_snoc in E. rewrite !zlen_app in Hz.
  change (zlen [c]) with 1 in Hz. change (zlen [d]) with 1 in Hz.
  assert (c = d) as -> by lia. f_equal. apply IH; try done; lia.
Qed.

Lemma sig_val_replicate n : sig_val (replicate n 255) = 256 ^ Z.of_nat n - 1.
Proof.
  induction n as [|n IH]; [done|]. cbn [replicate]. rewrite sig_val_cons, IH.
  unfold zlen. rewrite length_replicate.
  replace (Z.of_nat (S n)) with (Z.of_nat n + 1) by lia. rewrite Z.pow_add_r by lia. lia.
Qed.

Lemma SIGMASK_mod m z : 2 <= m <= 8 -> Z.land z (SIGMASK m) = z mod 256 ^ m.
Proof.
  intros Hm. replace (256 ^ m) with (2 ^ (m * 8))
    by (rewrite Z.mul_comm, Z.pow_mul_r by lia; done).
  unfold SIGMASK. destruct (Z.eqb_spec m 8) as [->|Hne].
  - apply land_mask. lia.
  - rewrite Z.shiftl_1_l, wrapu_small; [by apply land_mask; lia|].
    pose proof (Z.pow_le_mono_r 2 (m * 8) 56 ltac:(lia) ltac:(lia)).
    pose proof (Z.pow_pos_nonneg 2 (m * 8) ltac:(lia) ltac:(lia)). lia.
Qed.

Lemma lor_digits a b c : 0 <= c < 256 -> Z.lor (a * 256) (b * 256 + c) = Z.lor a b * 256 + c.
Proof.
  intros Hc.
  assert (forall z, z * 256 + c = Z.lor (z * 256) c) as Hlor.
  { intros z. apply Z.add_nocarry_lor. change 256 with (2 ^ 8).
    rewrite <-Z.shiftl_mul_pow2 by lia. apply Z.bits_inj'. intros i Hi.
    rewrite Z.land_spec, Z.bits_0. destruct (Z.ltb_spec i 8).
    - by rewrite Z.shiftl_spec_low.
    - assert (Z.testbit c i = false) as ->; [|apply andb_false_r].
      apply Z.bits_above_log2; [lia|]. destruct (decide (c = 0)) as [->|]; [cbn; lia|].
      apply Z.log2_lt_pow2; [lia|]. pose proof (Z.pow_le_mono_r 2 8 i). lia. }
  rewrite !Hlor, Z.lor_assoc. f_equal. change 256 with (2 ^ 8).
  rewrite <-!Z.shiftl_mul_pow2 by lia. by rewrite Z.shiftl_lor.
Qed.

(** The digits after one more byte: a byte above 127 overwrites all the others
    by ones. *)
Definition next_digits (ds : list Z) (c : byte) : list Z :=
  if digit c <? 128 then tail ds ++ [digit c]
  else replicate (List.length ds - 1) 255 ++ [digit c].

Lemma next_digits_range ds c :
  Forall (fun c => 0 <= c < 256) ds -> (0 < List.length ds)%nat ->
  Forall (fun c => 0 <= c < 256) (next_digits ds c) /\
  List.length (next_digits ds c) = List.length ds.
Proof.
  intros H Hl. pose proof (digit_range c). unfold next_digits.
  destruct (Z.ltb_spec (digit c) 128); split.
  - apply Forall_app. split; [by apply Forall_tail|by constructor].
  - destruct ds; cbn in *; [lia|]. rewrite length_app. cbn. lia.
  - apply Forall_app. split; [|by constructor]. apply Forall_replicate. lia.
  - rewrite length_app, length_replicate. cbn. lia.
Qed.

Lemma pow256_dvd m : 0 <= m <= 8 -> (256 ^ m | 2 ^ 64).
Proof.
  intros Hm. exists (256 ^ (8 - m)). rewrite <-Z.pow_add_r by lia.
  by replace (8 - m + m) with 8 by lia.
Qed.

Lemma shift_sig z : u64 (Z.shiftl z 8) = (z mod 2 ^ 56) * 256.
Proof.
  rewrite Z.shiftl_mul_pow2 by lia. unfold wrapu. change (2 ^ 8) with 256.
  change (2 ^ 64) with (2 ^ 56 * 256). by rewrite Z.mul_mod_distr_r by done.
Qed.

Lemma push_sig_low z c :
  digit c < 128 -> push_sig z c = u64 (z * 256) + digit c.
Proof.
  intros Hlt. pose proof (digit_range c). unfold push_sig, SigType_of. fold (digit c).
  rewrite (proj2 (Z.ltb_lt _ _) Hlt), (wrapu_small 64 (digit c)), shift_sig by lia.
  replace (digit c) with (0 * 256 + digit c) at 1 by lia.
  rewrite lor_digits, Z.lor_0_r by done. f_equal.
  unfold wrapu. change (2 ^ 64) with (2 ^ 56 * 256). by rewrite Z.mul_mod_distr_r by done.
Qed.

Lemma push_sig_high z c : 128 <= digit c -> push_sig z c = 2 ^ 64 - 256 + digit c.
Proof.
  intros Hge. pose proof (digit_range c). unfold push_sig, SigType_of. fold (digit c).
  rewrite (proj2 (Z.ltb_ge _ _) Hge), shift_sig.
  assert (u64 (digit c - 256) = (2 ^ 56 - 1) * 256 + digit c) as ->.
  { unfold wrapu. replace (digit c - 256) with ((2 ^ 56 - 1) * 256 + digit c + (-1) * 2 ^ 64) by lia.
    rewrite Z_mod_plus_full, Z.mod_small by lia. done. }
  rewrite lor_digits by done.
  assert (Z.lor (z mod 2 ^ 56) (2 ^ 56 - 1) = 2 ^ 56 - 1) as ->; [|lia].
  change (2 ^ 56 - 1) with (Z.ones 56). pose proof (Z.mod_pos_bound z (2 ^ 56)).
  destruct (decide (z mod 2 ^ 56 = 0)) as [->|]; [done|].
  apply Z.lor_ones_low; [lia|]. apply Z.log2_lt_pow2; lia.
Qed.

Lemma push_sig_step m ds c :
  2 <= m <= 8 -> zlen ds = m -> Forall (fun c => 0 <= c < 256) ds ->
  Z.land (push_sig (sig_val ds) c) (SIGMASK m) = sig_val (next_digits ds c).
Proof.
  intros Hm Hl Hds. pose proof (digit_range c) as Hc.
  pose proof (sig_val_range ds Hds) as Hr. rewrite Hl in Hr.
  rewrite SIGMASK_mod by done. unfold next_digits.
  pose proof (pow256_dvd m ltac:(lia)) as Hdvd.
  assert (0 < 256 ^ m) as Hpos by (apply Z.pow_pos_nonneg; lia).
  assert (256 ^ m = 256 ^ (m - 1) * 256) as Em
    by (change 256 with (256 ^ 1) at 3; rewrite <-Z.pow_add_r by lia; f_equal; lia).
  destruct (Z.ltb_spec (digit c) 128) as [Hlt|Hge].
  - rewrite push_sig_low by done.
    destruct ds as [|d ds]; [unfold zlen in Hl; cbn in Hl; lia|].
    cbn [tail]. rewrite sig_val_snoc. apply Forall_cons in Hds as [Hd Hds].
    pose proof (sig_val_range ds Hds) as Hr2. rewrite zlen_cons in Hl.
    replace (zlen ds) with (m - 1) in Hr2 by lia.
    unfold wrapu. rewrite <-Zplus_mod_idemp_l, Z.mod_mod_divide, Zplus_mod_idemp_l by done.
    rewrite sig_val_cons. replace (zlen ds) with (m - 1) by lia.
    replace ((d * 256 ^ (m - 1) + sig_val ds) * 256 + digit c)
      with (sig_val ds * 256 + digit c + d * 256 ^ m) by lia.
    rewrite Z_mod_plus_full, Z.mod_small by lia. done.
  - rewrite push_sig_high by done. rewrite sig_val_snoc, sig_val_replicate. unfold zlen in Hl.
    replace (Z.of_nat (List.length ds - 1)) with (m - 1) by lia. destruct Hdvd as [q Hq].
    replace (2 ^ 64 - 256 + digit c)
      with ((256 ^ (m - 1) - 1) * 256 + digit c + (q - 1) * 256 ^ m) by lia.
    assert (0 < 256 ^ (m - 1)) by (apply Z.pow_pos_nonneg; lia).
    rewrite Z_mod_plus_full, Z.mod_small by lia. done.
Qed.

Lemma delim_sig_val d :
  Forall (fun c => digit c < 128) d -> zlen d <= 8 -> delim_sig d = sig_val (digit <$> d).
Proof.
  unfold delim_sig. induction d as [|c d IH] using rev_ind; [done|].
  intros [H1 [H2 _]%Forall_cons]%Forall_app Hz. rewrite zlen_app in Hz.
  change (zlen [c]) with 1 in Hz. pose proof (digit_range c).
  rewrite foldl_app. cbn [foldl]. rewrite IH by (done || lia).
  rewrite fmap_app. cbn [fmap list_fmap]. rewrite sig_val_snoc.
  assert (Forall (fun c => 0 <= c < 256) (digit <$> d)) as Hd
    by (apply Forall_fmap, Forall_forall; intros x _; apply digit_range).
  pose proof (sig_val_range _ Hd) as Hr. unfold zlen in Hr. rewrite length_fmap in Hr.
  fold (zlen d) in Hr.
  pose proof (Z.pow_le_mono_r 256 (zlen d) 7 ltac:(lia) ltac:(lia)).
  rewrite push_sig_low, wrapu_small by (done || lia). done.
Qed.

(** The last [m] bytes read, before which there are zeros. *)
Definition window (m : nat) (s : list byte) : list Z :=
  drop (List.length s) (replicate m 0 ++ (digit <$> s)).

Lemma window_length m s : List.length (window m s) = m.
Proof. unfold window. rewrite length_drop, length_app, length_replicate, length_fmap. lia. Qed.

Lemma window_snoc m s c : (0 < m)%nat -> window m (s ++ [c]) = tail (window m s) ++ [digit c].
Proof.
  intros Hm. unfold window. rewrite fmap_app, length_app. cbn [List.length fmap list_fmap].
  rewrite app_assoc, drop_app_le by (rewrite length_app, length_replicate, length_fmap; lia).
  f_equal. rewrite <-drop_drop. by destruct (drop (List.length s) _).
Qed.

(** The digits agree with the window from [k] on, and before [k] both have a
    byte above 127. *)
Definition agree (k : nat) (ds t : list Z) : Prop :=
  drop k ds = drop k t /\ List.length ds = List.length t /\
  (k = O \/ exists x y, ds !! (k - 1)%nat = Some x /\ t !! (k - 1)%nat = Some y /\ 128 <= x /\ 128 <= y).

Lemma agree_delim k ds t d :
  agree k ds t -> Forall (fun c => c < 128) d -> ds = d <-> t = d.
Proof.
  intros (Hd & _ & [->|(x & y & Hx & Hy & Lx & Ly)]) Hf; [by rewrite !drop_0 in Hd; rewrite Hd|].
  split; intros <-.
  - pose proof (proj1 (Forall_lookup _ _) Hf _ _ Hx). cbn in *. lia.
  - pose proof (proj1 (Forall_lookup _ _) Hf _ _ Hy). cbn in *. lia.
Qed.

Lemma agree_next k ds t c :
  agree k ds t -> (0 < List.length ds)%nat ->
  exists k', agree k' (next_digits ds c) (tail t ++ [digit c]).
Proof.
  intros (Hd & Hl & Hk) Hpos. unfold next_digits. destruct (Z.ltb_spec (digit c) 128).
  - exists (k - 1)%nat. destruct ds as [|x0 ds]; [cbn in Hpos; lia|].
    destruct t as [|y0 t]; [cbn in Hl; lia|]. cbn [tail List.length] in *.
    split; [|split; [rewrite !length_app; lia|]].
    + destruct Hk as [->|(x & y & Hx & Hy & _)]; cbn in *; [by rewrite !drop_0 in *; simplify_eq|].
      apply lookup_lt_Some in Hx, Hy. cbn in Hx, Hy. destruct k as [|k]; [by simplify_eq/=|].
      cbn in *. rewrite Nat.sub_0_r in *. by rewrite !drop_app_le, Hd by lia.
    + destruct Hk as [->|(x & y & Hx & Hy & Lx & Ly)]; [by left|].
      destruct k as [|[|k]]; [by left|by left|]. right. cbn in *. rewrite Nat.sub_0_r in *.
      exists x, y. apply lookup_lt_Some in Hx as Lx', Hy as Ly'.
      split; [|split; [|done]]; by rewrite lookup_app_l by (eapply lookup_lt_Some; eassumption).
  - exists (List.length ds). rewrite Hl. destruct t as [|y0 t]; [cbn in Hl; lia|].
    cbn [tail List.length] in *. replace (S (List.length t) - 1)%nat with (List.length t) by lia.
    split; [|split].
    + rewrite !drop_ge; [done|..]; rewrite length_app, ?length_replicate; cbn; lia.
    + rewrite !length_app, length_replicate. done.
    + right. exists (digit c), (digit c). replace (S (List.length t) - 1)%nat with (List.length t) by lia.
      rewrite !lookup_app_r by (rewrite ?length_replicate; lia).
      rewrite length_replicate, Nat.sub_diag. done.
Qed.

(** The search on exact windows: after [pre], whose length is [n]. *)
Fixpoint scan_window (d : list Z) (pre s : list byte) : Z + list byte :=
  match s with
  | [] => inr pre
  | c :: s =>
      let pre' := pre ++ [c] in
      if decide (window (List.length d) pre' = d) then inl (zlen pre) else scan_window d pre' s
  end.

Lemma scan_window_app d pre s1 s2 :
  scan_window d pre (s1 ++ s2) =
    match scan_window d pre s1 with inl n => inl n | inr _ => scan_window d (pre ++ s1) s2 end.
Proof.
  revert pre. induction s1 as [|c s1 IH]; intros pre; cbn; [by rewrite app_nil_r|].
  destruct (decide _); [done|]. rewrite IH. destruct (scan_window _ _ s1); [done|].
  by rewrite <-app_assoc.
Qed.

Definition low_delim (d : list byte) : Prop :=
  Forall (fun c => digit c < 128) d /\ 2 <= zlen d <= 8.

Definition ascii_delim (d : list byte) : Prop :=
  Forall (fun c => digit c < 128) d /\ 2 <= zlen d <= 8 /\
  (exists c r, d = c :: r /\ digit c <> 0).

Lemma ascii_low d : ascii_delim d -> low_delim d.
Proof. by intros (H1 & H2 & _). Qed.

Lemma scan_sig_window d pre s ds k :
  low_delim d -> agree k ds (window (List.length d) pre) ->
  Forall (fun c => 0 <= c < 256) ds ->
  match scan_window (digit <$> d) pre s with
  | inl n => scan_sig (SIGMASK (zlen d)) (delim_sig d) (sig_val ds) s (zlen pre) = inl n
  | inr pre' => pre' = pre ++ s /\ exists ds' k',
      scan_sig (SIGMASK (zlen d)) (delim_sig d) (sig_val ds) s (zlen pre) = inr (sig_val ds') /\
      agree k' ds' (window (List.length d) (pre ++ s)) /\ Forall (fun c => 0 <= c < 256) ds'
  end.
Proof.
  intros Hd. revert pre ds k. pose proof Hd as (Hasc & Hz).
  induction s as [|c s IH]; intros pre ds k Hag Hds; cbn [scan_window scan_sig].
  { rewrite app_nil_r. split; [done|]. by exists ds, k. }
  pose proof Hag as (_ & Hlen & _). rewrite window_length in Hlen.
  assert (zlen ds = zlen d) as Hzd by (unfold zlen; lia).
  assert (0 < List.length ds)%nat as Hpos by (unfold zlen in *; lia).
  rewrite (push_sig_step (zlen d)) by (done || lia).
  destruct (next_digits_range ds c Hds Hpos) as [Hds' Hlen'].
  destruct (agree_next k ds _ c Hag Hpos) as [k' Hag'].
  rewrite <-window_snoc in Hag' by lia.
  assert (Forall (fun c => 0 <= c < 256) (digit <$> d)) as Hdd
    by (apply Forall_fmap, Forall_forall; intros x _; apply digit_range).
  assert ((sig_val (next_digits ds c) =? delim_sig d) = true <->
          window (List.length d) (pre ++ [c]) = digit <$> d) as Heq.
  { rewrite delim_sig_val by (done || lia). rewrite Z.eqb_eq.
    rewrite <-(agree_delim _ _ _ (digit <$> d) Hag') by by apply Forall_fmap.
    split; [|by intros ->]. intros E. apply sig_val_inj; try done.
    unfold zlen in *. rewrite length_fmap. lia. }
  rewrite length_fmap. destruct (decide _) as [E|E].
  - by rewrite (proj2 Heq E).
  - destruct (sig_val _ =? _); [by destruct E; apply Heq|].
    specialize (IH (pre ++ [c]) _ k' Hag' Hds').
    rewrite zlen_app in IH. change (zlen [c]) with 1 in IH. by rewrite <-app_assoc in IH.
Qed.

Lemma find_sig_window w buf l d k i pre ds j :
  Buf w buf l -> low_delim d -> (i + k)%nat = List.length l ->
  agree j ds (window (List.length d) pre) -> Forall (fun c => 0 <= c < 256) ds ->
  find_sig buf (SIGMASK (zlen d)) (delim_sig d) (sig_val ds) k (Z.of_nat i) (zlen pre) w =
    Some (match scan_window (digit <$> d) pre (bytes w (drop i l)) with
          | inl n => Some n | inr _ => None end, w).
Proof.
  intros HB Hd. revert i pre ds j. induction k as [|k IH]; intros i pre ds j Hk Hag Hds;
    pose proof (walk_cases l _ i Hk) as Hw; cbn [find_sig].
  - by rewrite Hw.
  - destruct Hw as (r & Hr & Hdr & Hk').
    destruct (Buf_at _ _ _ _ _ HB Hr) as (Or & Wr & Ea).
    run. rewrite Ea. cbn beta iota. rewrite read_ref_spec by done. cbn beta iota.
    rewrite Hdr, bytes_cons, scan_window_app.
    pose proof (scan_sig_window d pre (ref_bytes w r) ds j Hd Hag Hds) as Hs.
    destruct (scan_window _ pre (ref_bytes w r)) as [n|pre'].
    + by rewrite Hs.
    + destruct Hs as (-> & ds' & j' & -> & Hag' & Hds').
      rewrite <-(zlen_ref_bytes w r Or Wr), <-zlen_app.
      replace (Z.of_nat i + 1) with (Z.of_nat (S i)) by lia. by eapply IH.
Qed.

(** The whole search, from the first piece on. *)
Lemma find_sig_scan w buf l d :
  Buf w buf l -> low_delim d ->
  find_sig buf (SIGMASK (zlen d)) (delim_sig d) 0 (Z.to_nat (zlen l)) 0 0 w =
    Some (match scan_window (digit <$> d) [] (bytes w l) with inl n => Some n | inr _ => None end, w).
Proof.
  intros HB Hd.
  assert (agree 0 (replicate (List.length d) 0) (window (List.length d) [])) as Hag.
  { unfold window. rewrite app_nil_r, !drop_0. split; [done|]. split; [done|by left]. }
  pose proof (find_sig_window w buf l d (List.length l) 0 [] _ _ HB Hd eq_refl Hag) as Ef.
  rewrite drop_0 in Ef. change (zlen (@nil byte)) with 0 in Ef. change (Z.of_nat 0) with 0 in Ef.
  assert (sig_val (replicate (List.length d) 0) = 0) as E0.
  { clear. induction (List.length d) as [|n IH]; [done|]. cbn [replicate].
    rewrite sig_val_cons, IH. lia. }
  rewrite E0 in Ef. replace (Z.to_nat (zlen l)) with (List.length l) by (unfold zlen; lia).
  apply Ef. apply Forall_replicate. lia.
Qed.

(** [d] occurs in [s] at [p], and nowhere before. *)
Definition first_at (d s : list byte) (p : Z) : Prop :=
  0 <= p /\ p + zlen d <= zlen s /\ slice p (zlen d) s = d /\
  forall q, 0 <= q < p -> slice q (zlen d) s <> d.

Lemma window_slice d s n :
  ascii_delim d -> 0 <= n < zlen s ->
  window (List.length d) (take (Z.to_nat (n + 1)) s) = digit <$> d <->
  0 <= n + 1 - zlen d /\ slice (n + 1 - zlen d) (zlen d) s = d.
Proof.
  intros (_ & Hz & c & r & -> & Hc) Hn. unfold window.
  rewrite length_take_le by (unfold zlen in *; lia).
  destruct (decide (zlen (c :: r) <= n + 1)) as [Hge|Hlt].
  - rewrite drop_app_ge by (rewrite length_replicate; unfold zlen in *; lia).
    rewrite length_replicate, <-fmap_drop.
    assert (drop (Z.to_nat (n + 1) - List.length (c :: r)) (take (Z.to_nat (n + 1)) s) =
            slice (n + 1 - zlen (c :: r)) (zlen (c :: r)) s) as ->.
    { unfold slice. rewrite skipn_firstn_comm. unfold zlen in *. f_equal; [lia|]. f_equal. lia. }
    split; [|by intros [_ ->]]. intros E. split; [lia|].
    by apply (inj (fmap digit)) in E.
  - split; [|lia]. intros E. exfalso.
    rewrite drop_app_le in E by (rewrite length_replicate; unfold zlen in *; lia).
    rewrite drop_replicate in E.
    destruct (List.length (c :: r) - Z.to_nat (n + 1))%nat eqn:El; [unfold zlen in *; lia|].
    cbn in E. simplify_eq.
Qed.

Lemma scan_window_spec d pre s :
  match scan_window d pre s with
  | inl n => zlen pre <= n < zlen pre + zlen s /\
      window (List.length d) (take (Z.to_nat (n + 1)) (pre ++ s)) = d /\
      forall q, zlen pre <= q < n -> window (List.length d) (take (Z.to_nat (q + 1)) (pre ++ s)) <> d
  | inr _ => forall q, zlen pre <= q < zlen pre + zlen s ->
      window (List.length d) (take (Z.to_nat (q + 1)) (pre ++ s)) <> d
  end.
Proof.
  revert pre. induction s as [|c s IH]; intros pre; cbn [scan_window].
  { change (zlen (@nil byte)) with 0. lia. }
  rewrite zlen_cons. pose proof (zlen_nonneg s).
  assert (take (Z.to_nat (zlen pre + 1)) (pre ++ c :: s) = pre ++ [c]) as E1.
  { rewrite take_app_ge by (unfold zlen; lia).
    by replace (Z.to_nat (zlen pre + 1) - List.length pre)%nat with 1%nat by (unfold zlen; lia). }
  destruct (decide _) as [E|E].
  - split; [lia|]. split; [by rewrite E1|lia].
  - specialize (IH (pre ++ [c])). rewrite zlen_app, <-app_assoc in IH.
    change (zlen [c]) with 1 in IH. cbn [app] in IH.
    destruct (scan_window _ _ s) as [n|].
    + destruct IH as (Hn & Hw & Hq). split; [lia|]. split; [done|]. intros q Hq'.
      destruct (decide (q = zlen pre)) as [->|]; [by rewrite E1|]. apply Hq. lia.
    + intros q Hq'. destruct (decide (q = zlen pre)) as [->|]; [by rewrite E1|]. apply IH. lia.
Qed.

(** _cut_by_delim cuts at the first occurrence of an ASCII delimiter. *)
Lemma cut_by_delim_ok w this out l1 l2 d O :
  Buf w this l1 -> Buf w out l2 -> Inv w (blocks l1 ++ blocks l2 ++ O) ->
  total l2 + total l1 < 2 ^ 31 -> ascii_delim d ->
  (exists p this' out' w', _cut_by_delim this out d w = Some ((0, this', out'), w') /\
     first_at d (bytes w l1) p /\
     become2 w O (drop (Z.to_nat (p + zlen d)) (bytes w l1))
       (bytes w l2 ++ take (Z.to_nat p) (bytes w l1)) this' out' w') \/
  (_cut_by_delim this out d w = Some ((-1, this, out), w) /\ forall p, ~ first_at d (bytes w l1) p).
Proof.
  intros HB1 HB2 HI Ht Hd. pose proof Hd as (Hasc & Hz & Hc).
  unfold _cut_by_delim. rewrite (length_spec _ _ (Buf_Rep _ _ _ HB1)).
  pose proof (Buf_len _ _ _ HB1) as EL. pose proof (Buf_len _ _ _ HB2) as EL2.
  pose proof (zlen_nonneg (bytes w l2)). run.
  rewrite (proj2 (Z.ltb_ge 8 _)) by lia. cbn [orb].
  destruct (Z.ltb_spec (total l1) (zlen d)) as [Hlt|Hge].
  { right. split; [done|]. intros p (? & ? & _). lia. }
  rewrite (ref_num_spec _ _ (Buf_Rep _ _ _ HB1)). cbn beta iota.
  rewrite (find_sig_scan w this l1 d HB1 (ascii_low d Hd)).
  pose proof (scan_window_spec (digit <$> d) [] (bytes w l1)) as Hs.
  change (zlen (@nil byte)) with 0 in Hs. rewrite length_fmap, app_nil_l, Z.add_0_l in Hs.
  assert (forall q, 0 <= q < zlen (bytes w l1) ->
    window (List.length d) (take (Z.to_nat (q + 1)) (bytes w l1)) <> digit <$> d ->
    ~ (0 <= q + 1 - zlen d /\ slice (q + 1 - zlen d) (zlen d) (bytes w l1) = d)) as Hneg.
  { intros q Hq Hw Hs'. by apply Hw, window_slice. }
  destruct (scan_window (digit <$> d) [] (bytes w l1)) as [n|].
  - destruct Hs as (Hn & Hw & Hq). apply window_slice in Hw as [Hn' Hs]; [|done|lia].
    left. exists (n + 1 - zlen d). rewrite wrapu_small by lia.
    destruct (cut_and_pop w this out l1 l2 (n + 1 - zlen d) (zlen d) O HB1 HB2 HI)
      as (t & o & w' & Ec & Hb); try lia.
    exists t, o, w'. split; [exact Ec|]. split; [|done].
    split; [lia|]. split; [lia|]. split; [done|]. intros q Hq' E.
    eapply (Hneg (q + zlen d - 1)); [lia|apply Hq; lia|].
    split; [lia|]. by replace (q + zlen d - 1 + 1 - zlen d) with q by lia.
  - right. split; [done|]. intros p (Hp & Hpe & E & _).
    eapply (Hneg (p + zlen d - 1)); [lia|apply Hs; lia|].
    split; [lia|]. by replace (p + zlen d - 1 + 1 - zlen d) with p by lia.
Qed.

(** A delimiter that starts with NUL is found when the rest of it starts the
    buffer (the bytes before the first count as NUL), or earlier; the length
    to cut is then negative as a signed number, so everything is cut. *)
Lemma cut_nul_delim_ok w this out l1 l2 d r O :
  Buf w this l1 -> Buf w out l2 -> Inv w (blocks l1 ++ blocks l2 ++ O) ->
  total l2 + total l1 < 2 ^ 31 -> low_delim (x00 :: d) -> bytes w l1 = d ++ r -> r <> [] ->
  exists this' out' w', _cut_by_delim this out (x00 :: d) w = Some ((0, this', out'), w') /\
    become2 w O [] (bytes w l2 ++ bytes w l1) this' out' w'.
Proof.
  intros HB1 HB2 HI Ht Hd Es Hr. pose proof Hd as (_ & Hz). set (dl := x00 :: d) in *.
  pose proof (Buf_len _ _ _ HB1) as EL. pose proof (Buf_len _ _ _ HB2) as EL2. pose proof (zlen_nonneg (bytes w l2)).
  assert (zlen dl = zlen d + 1) as Ezd by (unfold dl; rewrite zlen_cons; lia).
  assert (0 < zlen r) as Hr0 by (destruct r; [done|rewrite zlen_cons; pose proof (zlen_nonneg r); lia]).
  assert (total l1 = zlen d + zlen r) as Et by (rewrite <-EL, Es; apply zlen_app).
  unfold _cut_by_delim. rewrite (length_spec _ _ (Buf_Rep _ _ _ HB1)). run.
  rewrite (proj2 (Z.ltb_ge 8 _)) by lia. cbn [orb]. rewrite (proj2 (Z.ltb_ge _ _)) by lia.
  rewrite (ref_num_spec _ _ (Buf_Rep _ _ _ HB1)). cbn beta iota.
  rewrite (find_sig_scan w this l1 dl HB1 Hd).
  assert (window (List.length (digit <$> dl)) (take (Z.to_nat (zlen d - 1 + 1)) (bytes w l1)) = digit <$> dl) as Hw.
  { replace (Z.to_nat (zlen d - 1 + 1)) with (List.length d) by (unfold zlen; lia).
    rewrite Es, take_app_length. unfold window, dl. rewrite length_fmap. cbn [List.length].
    rewrite replicate_S_end, <-app_assoc. apply drop_app_length'. by rewrite length_replicate. }
  pose proof (scan_window_spec (digit <$> dl) [] (bytes w l1)) as Hs.
  change (zlen (@nil byte)) with 0 in Hs. rewrite app_nil_l, Z.add_0_l in Hs.
  destruct (scan_window (digit <$> dl) [] (bytes w l1)) as [n|].
  2:{ exfalso. apply (Hs (zlen d - 1)); [rewrite EL; lia|exact Hw]. }
  destruct Hs as (Hn & _ & Hq).
  assert (n <= zlen d - 1) as Hle.
  { destruct (Z.le_gt_cases n (zlen d - 1)) as [|Hgt]; [done|]. exfalso. apply (Hq (zlen d - 1)); [lia|exact Hw]. }
  assert (u64 (n + 1 - zlen dl) = 2 ^ 64 + (n + 1 - zlen dl)) as Eu.
  { unfold wrapu. rewrite <-(Z_mod_plus_full _ 1), Z.mod_small by lia. lia. }
  rewrite Eu. set (m := 2 ^ 64 + (n + 1 - zlen dl)). assert (2 ^ 63 < m) as Hm by lia.
  destruct (cutn_ok w m this out l1 l2 O HB1 HB2 HI) as (this1 & out1 & w1 & E1 & l1' & l2' & HB1' & HB2' & HI1 & Hle1 & Eb1 & Eb2);
    [lia|lia|].
  cbn beta iota. rewrite E1. cbn beta iota.
  destruct (pop_front_ok w1 (zlen dl) this1 l1' (blocks l2' ++ O) HB1' HI1 ltac:(lia))
    as (this2 & w2 & E2 & l1b & HBb & HIb & Hle2 & Ebb).
  rewrite E2. cbn beta iota. eexists _, _, _. split; [done|].
  exists l1b, l2'. destruct (Buf_frame w1 w2 _ _ out1 l2' HI1 Hle2 HIb) as [HB2b E2b]; [|done|].
  { intros b' Hb'. by apply app_sub_l. }
  assert (List.length (bytes w l1) <= Z.to_nat m)%nat as Hall by (unfold zlen in EL; lia).
  split_and!; try done.
  - by etrans.
  - rewrite Ebb, Eb1, (drop_ge (bytes w l1)) by done. by rewrite drop_nil.
  - by rewrite E2b, Eb2, take_ge.
Qed.

(** A delimiter of 2 to 7 bytes with a byte above 127 is never found: the bits
    above its own bytes are set in its signature, and cleared in all others. *)
Lemma delim_sig_high d :
  zlen d <= 7 -> (exists c, c ∈ d /\ 128 <= digit c) -> 256 ^ 7 <= delim_sig d.
Proof.
  intros Hz (c & Hc & Hge). apply list_elem_of_split in Hc as (d1 & d2 & ->).
  unfold delim_sig. rewrite foldl_app. cbn [foldl]. rewrite push_sig_high by done.
  pose proof (digit_range c).
  assert (forall k z, 2 ^ 64 - 256 ^ (Z.of_nat k + 1) <= z < 2 ^ 64 ->
    (k + List.length d2 <= 6)%nat -> 2 ^ 64 - 256 ^ 7 <= foldl push_sig z d2) as Hgo.
  { clear. induction d2 as [|c d2 IH]; intros k z Hr Hk; cbn [foldl List.length] in *.
    - pose proof (Z.pow_le_mono_r 256 (Z.of_nat k + 1) 7). lia.
    - apply (IH (S k)); [|lia]. pose proof (digit_range c).
      assert (256 ^ (Z.of_nat (S k) + 1) = 256 ^ (Z.of_nat k + 1) * 256) as E.
      { replace (Z.of_nat (S k) + 1) with (Z.of_nat k + 1 + 1) by lia. by rewrite Z.pow_add_r by lia. }
      pose proof (Z.pow_le_mono_r 256 (Z.of_nat (S k) + 1) 7 ltac:(lia) ltac:(lia)).
      destruct (decide (digit c < 128)) as [Hlt|Hge].
      + rewrite push_sig_low by done. unfold wrapu.
        replace (z * 256) with (z * 256 - 255 * 2 ^ 64 + 255 * 2 ^ 64) by lia.
        rewrite Z_mod_plus_full, Z.mod_small by lia. lia.
      + rewrite push_sig_high by lia. lia. }
  assert (2 ^ 64 - 256 ^ 7 <= foldl push_sig (2 ^ 64 - 256 + digit c) d2); [|lia].
  apply (Hgo O); [cbn; lia|]. unfold zlen in Hz. rewrite length_app in Hz. cbn in Hz. lia.
Qed.

Lemma scan_sig_never m dsig sig s n :
  2 <= m <= 7 -> 256 ^ 7 <= dsig -> exists sig', scan_sig (SIGMASK m) dsig sig s n = inr sig'.
Proof.
  intros Hm Hd. revert sig n. induction s as [|c s IH]; intros sig n; cbn [scan_sig]; [by eexists|].
  rewrite SIGMASK_mod by lia.
  pose proof (Z.mod_pos_bound (push_sig sig c) (256 ^ m)).
  pose proof (Z.pow_le_mono_r 256 m 7 ltac:(lia) ltac:(lia)).
  pose proof (Z.pow_pos_nonneg 256 m ltac:(lia) ltac:(lia)).
  destruct (Z.eqb_spec (push_sig sig c mod 256 ^ m) dsig) as [E|]; [lia|]. apply IH.
Qed.

Lemma find_sig_never w buf l m dsig sig k i n :
  Buf w buf l -> (i + k)%nat = List.length l -> 2 <= m <= 7 -> 256 ^ 7 <= dsig ->
  find_sig buf (SIGMASK m) dsig sig k (Z.of_nat i) n w = Some (None, w).
Proof.
  intros HB Hk Hm Hd. revert i sig n Hk.
  induction k as [|k IH]; intros i sig n Hk;
    pose proof (walk_cases l _ i Hk) as Hw; cbn [find_sig]; [done|].
  destruct Hw as (r & Hr & Hdr & Hk').
  destruct (Buf_at _ _ _ _ _ HB Hr) as (Or & Wr & Ea).
  run. rewrite Ea. cbn beta iota. rewrite read_ref_spec by done. cbn beta iota.
  destruct (scan_sig_never m dsig sig (ref_bytes w r) n Hm Hd) as [sig' ->].
  replace (Z.of_nat i + 1) with (Z.of_nat (S i)) by lia. by apply IH.
Qed.

(** ** Comparing and fetching *)

Lemma equals_loop_spec w buf l k i s :
  Buf w buf l -> (i + k)%nat = List.length l -> zlen s = zlen (bytes w (drop i l)) ->
  equals_loop buf k (Z.of_nat i) s w = Some (bool_decide (bytes w (drop i l) = s), w).
Proof.
  intros HB. revert i s. induction k as [|k IH]; intros i s Hk Hz;
    pose proof (walk_cases l _ i Hk) as Hw; cbn [equals_loop].
  - rewrite Hw in *. apply zlen_0_inv in Hz as ->. done.
  - destruct Hw as (r & Hr & Hd & Hk').
    destruct (Buf_at _ _ _ _ _ HB Hr) as (Or & Wr & Ea).
    pose proof (zlen_ref_bytes w r Or Wr) as Zr. pose proof Or as [_ _ Hl _].
    rewrite Hd, bytes_cons, zlen_app in Hz. pose proof (zlen_nonneg (bytes w (drop (S i) l))).
    run. rewrite Ea. cbn beta iota. rewrite read_ref_spec by done. cbn beta iota.
    rewrite Hd, bytes_cons.
    assert (List.length (ref_bytes w r) = Z.to_nat (ref_length r)) as El by (unfold zlen in *; lia).
    rewrite <-El. case_bool_decide as E.
    + replace (Z.of_nat i + 1) with (Z.of_nat (S i)) by lia.
      rewrite IH by (try done; rewrite El, zlen_drop; lia).
      do 2 f_equal. apply bool_decide_ext. split.
      * intros ->. rewrite E at 1. apply take_drop.
      * intros <-. by rewrite drop_app_length.
    + do 2 f_equal. symmetry. apply bool_decide_eq_false_2. intros <-. apply E.
      by rewrite take_app_length.
Qed.

Lemma equals_piece_ok w buf l s :
  Buf w buf l -> equals_piece buf s w = Some (bool_decide (bytes w l = s), w).
Proof.
  intros HB. unfold equals_piece. rewrite (length_spec _ _ (Buf_Rep _ _ _ HB)). run.
  pose proof (Buf_len _ _ _ HB) as EL. destruct (Z.eqb_spec (total l) (zlen s)) as [E|E]; cbn [negb].
  - rewrite (ref_num_spec _ _ (Buf_Rep _ _ _ HB)). cbn beta iota.
    replace (Z.to_nat (zlen l)) with (List.length l) by (unfold zlen; lia).
    apply (equals_loop_spec w buf l _ 0); [done|done|rewrite drop_0; lia].
  - do 2 f_equal. symmetry. apply bool_decide_eq_false_2. intros <-. lia.
Qed.

Lemma take_drop_eq {A} n (x y : list A) : x = y <-> take n x = take n y /\ drop n x = drop n y.
Proof.
  split; [by intros ->|]. intros [E1 E2]. by rewrite <-(take_drop n x), E1, E2, take_drop.
Qed.

(** The next reference, when the current one is used up: the step that the two
    sides of equals(const IOBuf&) share. *)
Lemma refill w buf l i (d : list byte) :
  Buf w buf l -> (i <= List.length l)%nat ->
  exists res,
    (if zlen d =? 0 then
       if zlen l <=? Z.of_nat i then mret None
       else r ← lift (_ref_at buf (Z.of_nat i)); d ← read_ref r; mret (Some (Z.of_nat i + 1, d))
     else mret (Some (Z.of_nat i, d))) w = Some (res, w) /\
    match res with
    | None => d ++ bytes w (drop i l) = []
    | Some (i', d') => exists j, i' = Z.of_nat j /\ (i <= j <= List.length l)%nat /\
        (d = [] -> (i < j)%nat) /\ d' ++ bytes w (drop j l) = d ++ bytes w (drop i l)
    end.
Proof.
  intros HB Hi. destruct d as [|c d].
  - change (zlen (@nil byte) =? 0) with true. cbn beta iota.
    pose proof (walk_cases l (List.length l - i) i ltac:(lia)) as Hw.
    destruct (List.length l - i)%nat eqn:Ek.
    + rewrite Hw, (proj2 (Z.leb_le _ _)) by (unfold zlen; lia). by eexists.
    + destruct Hw as (r & Hr & Hd & _). rewrite Hd, (proj2 (Z.leb_gt _ _)) by (unfold zlen; lia).
      destruct (Buf_at _ _ _ _ _ HB Hr) as (Or & Wr & Ea). run. rewrite Ea. cbn beta iota.
      rewrite read_ref_spec by done. cbn beta iota. eexists; split; [done|]. cbn beta iota.
      exists (S i). split_and!; try lia. by rewrite bytes_cons.
  - rewrite zlen_cons. destruct (Z.eqb_spec (1 + zlen d) 0); [pose proof (zlen_nonneg d); lia|].
    eexists; split; [done|]. by exists i.
Qed.

Lemma equals_IOBuf_loop_spec w b1 b2 l1 l2 fuel i j d1 d2 :
  Buf w b1 l1 -> Buf w b2 l2 -> (i <= List.length l1)%nat -> (j <= List.length l2)%nat ->
  zlen (d1 ++ bytes w (drop i l1)) = zlen (d2 ++ bytes w (drop j l2)) ->
  (List.length l1 - i + (List.length l2 - j) < fuel)%nat ->
  equals_IOBuf_loop b1 b2 fuel (zlen l1) (zlen l2) (Z.of_nat i) (Z.of_nat j) d1 d2 w =
    Some (bool_decide (d1 ++ bytes w (drop i l1) = d2 ++ bytes w (drop j l2)), w).
Proof.
  intros HB1 HB2. revert i j d1 d2. induction fuel as [|fuel IH];
    intros i j d1 d2 Hi Hj Hz Hf; [lia|].
  cbn [equals_IOBuf_loop]. set (n := Z.to_nat (Z.min (zlen d1) (zlen d2))).
  assert (n <= List.length d1 /\ n <= List.length d2 /\
    (n = List.length d1 \/ n = List.length d2))%nat as (Hn1 & Hn2 & Hn) by (unfold zlen in *; lia).
  assert (d1 ++ bytes w (drop i l1) = d2 ++ bytes w (drop j l2) <->
     take n d1 = take n d2 /\ drop n d1 ++ bytes w (drop i l1) = drop n d2 ++ bytes w (drop j l2))
    as Hsplit by (rewrite (take_drop_eq n), !take_app_le, !drop_app_le by lia; done).
  case_bool_decide as E; cbn [negb].
  2: { run. rewrite bool_decide_eq_false_2; [done|]. by intros [? _]%Hsplit. }
  assert (zlen (drop n d1 ++ bytes w (drop i l1)) = zlen (drop n d2 ++ bytes w (drop j l2))) as Hz'.
  { rewrite !zlen_app in *. rewrite <-(take_drop n d1), <-(take_drop n d2), !zlen_app, E in Hz. lia. }
  rewrite (bool_decide_ext _ (drop n d1 ++ bytes w (drop i l1) = drop n d2 ++ bytes w (drop j l2)))
    by (rewrite Hsplit; tauto).
  destruct (refill w b1 l1 i (drop n d1) HB1 Hi) as (res1 & R1 & H1).
  destruct (refill w b2 l2 j (drop n d2) HB2 Hj) as (res2 & R2 & H2).
  run_in R1. run_in R2. run. rewrite R1. clear R1.
  destruct res1 as [[i' d1']|].
  2: { rewrite H1 in *. cbn in Hz'. symmetry in Hz'. apply zlen_0_inv in Hz' as ->. done. }
  destruct H1 as (i1 & -> & Hi1 & Hs1 & Es1). rewrite R2, <-Es1. rewrite <-Es1 in Hz'. clear R2 Es1.
  destruct res2 as [[j' d2']|].
  2: { rewrite H2 in *. cbn in Hz'. apply zlen_0_inv in Hz' as ->. done. }
  destruct H2 as (j1 & -> & Hj1 & Hs2 & Es2). rewrite <-Es2. rewrite <-Es2 in Hz'.
  apply IH; try done; try lia.
  assert (drop n d1 = [] \/ drop n d2 = []) as [Hd|Hd]
    by (destruct Hn as [->| ->]; [left|right]; by apply drop_ge).
  - specialize (Hs1 Hd). lia.
  - specialize (Hs2 Hd). lia.
Qed.

Lemma equals_IOBuf_ok w b1 b2 l1 l2 :
  Buf w b1 l1 -> Buf w b2 l2 ->
  equals_IOBuf b1 b2 w = Some (bool_decide (bytes w l1 = bytes w l2), w).
Proof.
  intros HB1 HB2. unfold equals_IOBuf.
  rewrite (length_spec _ _ (Buf_Rep _ _ _ HB1)), (length_spec _ _ (Buf_Rep _ _ _ HB2)). run.
  pose proof (Buf_len _ _ _ HB1) as E1. pose proof (Buf_len _ _ _ HB2) as E2.
  destruct (Z.eqb_spec (total l1) (total l2)) as [E|E]; cbn [negb].
  2: { rewrite bool_decide_eq_false_2; [done|]. intros Eb. rewrite Eb in E1. lia. }
  destruct (Z.eqb_spec (total l1) 0) as [E0|E0].
  { rewrite (total_zero l1), (total_zero l2); [done|apply HB2|lia|apply HB1|lia]. }
  destruct l1 as [|r1 l1]; [done|]. destruct l2 as [|r2 l2]; [cbn in *; lia|].
  destruct (Buf_at _ _ _ 0 r1 HB1 eq_refl) as (O1 & W1 & A1).
  destruct (Buf_at _ _ _ 0 r2 HB2 eq_refl) as (O2 & W2 & A2).
  change (Z.of_nat 0) with 0 in *. rewrite A1, A2. cbn beta iota.
  rewrite !read_ref_spec by done. cbn beta iota.
  rewrite (ref_num_spec _ _ (Buf_Rep _ _ _ HB1)), (ref_num_spec _ _ (Buf_Rep _ _ _ HB2)).
  cbn beta iota.
  rewrite (ref_fuel_spec _ _ (Buf_Rep _ _ _ HB1)), (ref_fuel_spec _ _ (Buf_Rep _ _ _ HB2)).
  apply (equals_IOBuf_loop_spec w b1 b2 (r1 :: l1) (r2 :: l2) _ 1 1); try done; cbn [List.length]; try lia.
  cbn [drop]. change (zlen (bytes w (r1 :: l1)) = zlen (bytes w (r2 :: l2))). lia.
Qed.

(** fetch: the first [n] bytes, in place or copied. *)
Lemma fetch_loop_spec w buf l k i n d :
  Buf w buf l -> (i + k)%nat = List.length l -> zlen d < n < 2 ^ 31 ->
  n <= zlen d + zlen (bytes w (drop i l)) ->
  fetch_loop buf k (Z.of_nat i) n (zlen d) d w =
    Some (Some (take (Z.to_nat n) (d ++ bytes w (drop i l))), w).
Proof.
  intros HB. revert i d. induction k as [|k IH]; intros i d Hk Hd Hn;
    pose proof (walk_cases l _ i Hk) as Hw; cbn [fetch_loop].
  - rewrite Hw in Hn. change (zlen (bytes w [])) with 0 in Hn. lia.
  - destruct Hw as (r & Hr & Hdr & Hk').
    destruct (Buf_at _ _ _ _ _ HB Hr) as (Or & Wr & Ea).
    pose proof (zlen_ref_bytes w r Or Wr) as Zr. pose proof Or as [_ Ho Hl He].
    rewrite Hdr, bytes_cons in *. rewrite zlen_app in Hn. pose proof (zlen_nonneg d).
    run. rewrite Ea. cbn beta iota. rewrite wrapu_small by lia.
    rewrite (take_app_ge d) by (unfold zlen in *; lia).
    destruct (Z.leb_spec n (ref_length r + zlen d)) as [Hle|Hgt].
    + rewrite read_at_spec by (done || lia). cbn beta iota. do 4 f_equal.
      rewrite Z.sub_diag. unfold slice. cbn [Z.to_nat]. rewrite drop_0.
      rewrite take_app_le by (unfold zlen in *; lia). f_equal. unfold zlen. lia.
    + rewrite read_ref_spec by done. cbn beta iota. rewrite wrapu_small by lia.
      replace (zlen d + ref_length r) with (zlen (d ++ ref_bytes w r)) by (rewrite zlen_app; lia).
      replace (Z.of_nat i + 1) with (Z.of_nat (S i)) by lia.
      rewrite IH; [|done|rewrite zlen_app; lia|rewrite zlen_app; lia].
      rewrite <-app_assoc. rewrite (take_app_ge d) by (unfold zlen in *; lia). done.
Qed.

Lemma fetch_ok w buf l n :
  Buf w buf l -> 0 <= n -> l <> [] ->
  fetch buf n w = Some (if n <=? zlen (bytes w l) then Some (take (Z.to_nat n) (bytes w l)) else None, w).
Proof.
  intros HB Hn Hne. unfold fetch. rewrite (length_spec _ _ (Buf_Rep _ _ _ HB)). run.
  pose proof (Buf_len _ _ _ HB) as EL. pose proof (Rep_total _ _ (Buf_Rep _ _ _ HB)) as Ht.
  rewrite EL. destruct (Z.leb_spec n (total l)) as [Hle|]; [|done].
  destruct l as [|r l]; [done|].
  destruct (Buf_at _ _ _ 0 r HB eq_refl) as (Or & Wr & Ea). change (Z.of_nat 0) with 0 in Ea.
  rewrite Ea. cbn beta iota. pose proof (zlen_ref_bytes w r Or Wr) as Zr. pose proof Or as [_ ? ? ?].
  destruct (Z.leb_spec n (ref_length r)) as [Hle'|Hgt].
  - rewrite read_at_spec by (done || lia). cbn beta iota. rewrite Z.sub_diag.
    by rewrite bytes_take_lt by (done || lia).
  - rewrite read_ref_spec by done. cbn beta iota.
    rewrite (ref_num_spec _ _ (Buf_Rep _ _ _ HB)). cbn beta iota. rewrite <-Zr.
    replace (Z.to_nat (zlen (r :: l) - 1)) with (List.length l) by (unfold zlen; cbn; lia).
    change 1 with (Z.of_nat 1) at 1.
    rewrite (fetch_loop_spec w buf (r :: l) (List.length l) 1 n); try done; [lia|].
    cbn [drop]. rewrite <-zlen_app. change (n <= zlen (bytes w (r :: l))). lia.
Qed.

(** ** Several IOBufs at once *)

(** The IOBufs [bufs] hold the strings [ss]; all references to blocks, apart
    from those of the TLS cache, are theirs. *)
Definition Holds (w : World) (bufs : list IOBuf) (ss : list (list byte)) : Prop :=
  exists ls, Forall2 (Buf w) bufs ls /\ Inv w (concat (blocks <$> ls)) /\ ss = bytes w <$> ls.

Lemma owned_insert (ls : list (list BlockRef)) i l x :
  ls !! i = Some l ->
  concat (blocks <$> <[i := x]> ls) ≡ₚ blocks x ++ concat (blocks <$> <[i := []]> ls).
Proof.
  revert i. induction ls as [|y ls IH]; intros [|i] Hi; try done; cbn in *.
  rewrite (IH i) by done. rewrite !app_assoc. by rewrite (Permutation_app_comm (blocks y)).
Qed.

Lemma Holds_lookup w bufs ss i b :
  Holds w bufs ss -> bufs !! i = Some b -> exists s, ss !! i = Some s.
Proof.
  intros (ls & H & _ & ->) Hb. destruct (Forall2_lookup_l _ _ _ _ _ H Hb) as (l & Hl & _).
  exists (bytes w l). by rewrite list_lookup_fmap, Hl.
Qed.

(** What is left of the others when some of them change. *)
Lemma others_frame w w' O R bufs ls (J : nat -> Prop) :
  Inv w O -> w ≼ w' -> Inv w' R -> Forall2 (Buf w) bufs ls ->
  (forall j l b, ~ J j -> ls !! j = Some l -> b ∈ blocks l -> b ∈ R) ->
  forall j b l, ~ J j -> bufs !! j = Some b -> ls !! j = Some l ->
    Buf w' b l /\ bytes w' l = bytes w l.
Proof.
  intros HI Hle HI' HF Hsub j b l HJ Hb Hl.
  destruct (Forall2_lookup_l _ _ _ _ _ HF Hb) as (l' & Hl' & HB). simplify_eq.
  eapply Buf_frame; try done. intros b' Hb'. by eapply Hsub.
Qed.

Lemma owned_elem (ls : list (list BlockRef)) j l b :
  ls !! j = Some l -> b ∈ blocks l -> b ∈ concat (blocks <$> ls).
Proof.
  intros Hl Hb. apply list_elem_of_In, in_concat. exists (blocks l).
  split; apply list_elem_of_In; [|done]. apply list_elem_of_fmap. exists l.
  split; [done|]. by eapply list_elem_of_lookup_2.
Qed.

(** Operating on one buffer. *)
Lemma Holds_1 w bufs ss i b s :
  Holds w bufs ss -> bufs !! i = Some b -> ss !! i = Some s ->
  exists l O, Buf w b l /\ bytes w l = s /\ Inv w (blocks l ++ O) /\
    forall b' w' s', becomes w O s' b' w' -> Holds w' (<[i := b']> bufs) (<[i := s']> ss).
Proof.
  intros (ls & HF & HI & ->) Hb Hs.
  destruct (Forall2_lookup_l _ _ _ _ _ HF Hb) as (l & Hl & HB).
  rewrite list_lookup_fmap, Hl in Hs. cbn in Hs. simplify_eq.
  exists l, (concat (blocks <$> <[i := []]> ls)). split; [done|]. split; [done|].
  assert (Inv w (blocks l ++ concat (blocks <$> <[i := []]> ls))) as HI1.
  { rewrite <-(owned_insert ls i l l) by done. by rewrite list_insert_id. }
  split; [done|]. intros b' w' s' (l' & HB' & HI' & Hle & <-).
  pose proof (others_frame w w' _ _ bufs ls (fun j => j = i) HI1 Hle HI' HF) as Hoth.
  exists (<[i := l']> ls). split; [|split].
  - apply Forall2_same_length_lookup. pose proof (Forall2_length _ _ _ HF) as Hlen.
    rewrite !length_insert. split; [done|]. intros j x y Hx Hy.
    destruct (decide (i = j)) as [<-|Hne].
    + pose proof (lookup_lt_Some _ _ _ Hl). rewrite list_lookup_insert_eq in Hx by lia.
      rewrite list_lookup_insert_eq in Hy by lia. by simplify_eq.
    + rewrite list_lookup_insert_ne in Hx by done.
      rewrite list_lookup_insert_ne in Hy by done. apply (Hoth) with (j := j); try done.
      intros j' l0 b0 Hj' Hl0 Hb0. apply elem_of_app. right.
      eapply (owned_elem _ j'); [|done]. by rewrite list_lookup_insert_ne.
  - by rewrite (owned_insert ls i l l').
  - apply list_eq. intros j. rewrite list_lookup_fmap.
    pose proof (lookup_lt_Some _ _ _ Hl) as Hlt. destruct (decide (i = j)) as [<-|Hne].
    + rewrite !list_lookup_insert_eq by (rewrite ?length_fmap; done). done.
    + rewrite !list_lookup_insert_ne, list_lookup_fmap by done.
      destruct (ls !! j) as [l0|] eqn:El0; [|done]. cbn. f_equal.
      destruct (Forall2_lookup_r _ _ _ _ _ HF El0) as (b0 & Hb0 & _). symmetry.
      apply (Hoth) with (j := j) (b := b0); try done.
      intros j' l1 b1 Hj' Hl1 Hb1. apply elem_of_app. right.
      eapply (owned_elem _ j'); [|done]. by rewrite list_lookup_insert_ne.
Qed.

(** Operating on two of them. *)
Lemma Holds_2 w bufs ss i j b1 b2 s1 s2 :
  Holds w bufs ss -> i <> j -> bufs !! i = Some b1 -> bufs !! j = Some b2 ->
  ss !! i = Some s1 -> ss !! j = Some s2 ->
  exists l1 l2 O, Buf w b1 l1 /\ Buf w b2 l2 /\ bytes w l1 = s1 /\ bytes w l2 = s2 /\
    Inv w (blocks l1 ++ blocks l2 ++ O) /\
    forall b1' b2' w' s1' s2', become2 w O s1' s2' b1' b2' w' ->
      Holds w' (<[i := b1']> (<[j := b2']> bufs)) (<[i := s1']> (<[j := s2']> ss)).
Proof.
  intros (ls & HF & HI & ->) Hij Hb1 Hb2 Hs1 Hs2.
  destruct (Forall2_lookup_l _ _ _ _ _ HF Hb1) as (l1 & Hl1 & HB1).
  destruct (Forall2_lookup_l _ _ _ _ _ HF Hb2) as (l2 & Hl2 & HB2).
  rewrite list_lookup_fmap, Hl1 in Hs1. rewrite list_lookup_fmap, Hl2 in Hs2.
  cbn in Hs1, Hs2. simplify_eq.
  set (O := concat (blocks <$> <[i := []]> (<[j := []]> ls))).
  assert (forall x y, concat (blocks <$> <[i := x]> (<[j := y]> ls)) ≡ₚ blocks x ++ blocks y ++ O)
    as Hown.
  { intros x y. rewrite (owned_insert _ i l1) by (by rewrite list_lookup_insert_ne).
    rewrite list_insert_insert_ne by done.
    rewrite (owned_insert _ j l2) by (by rewrite list_lookup_insert_ne).
    by rewrite list_insert_insert_ne by done. }
  exists l1, l2, O. split; [done|]. split; [done|]. split; [done|]. split; [done|].
  assert (Inv w (blocks l1 ++ blocks l2 ++ O)) as HI1.
  { rewrite <-Hown. rewrite (list_insert_id ls j) by done. by rewrite list_insert_id. }
  split; [done|]. intros b1' b2' w' s1' s2' (l1' & l2' & HB1' & HB2' & HI' & Hle & <- & <-).
  pose proof (others_frame w w' _ _ bufs ls (fun k => k = i \/ k = j) HI1 Hle HI' HF) as Hoth.
  assert (forall k l b, ~ (k = i \/ k = j) -> ls !! k = Some l -> b ∈ blocks l ->
    b ∈ blocks l1' ++ blocks l2' ++ O) as Hsub.
  { intros k l b Hk Hl Hb. apply elem_of_app. right. apply elem_of_app. right.
    eapply (owned_elem _ k); [|done]. rewrite !list_lookup_insert_ne by (intros ->; tauto). done. }
  specialize (Hoth Hsub).
  pose proof (lookup_lt_Some _ _ _ Hl1) as Hlt1. pose proof (lookup_lt_Some _ _ _ Hl2) as Hlt2.
  pose proof (Forall2_length _ _ _ HF) as Hlen.
  exists (<[i := l1']> (<[j := l2']> ls)). split; [|split].
  - apply Forall2_same_length_lookup. rewrite !length_insert. split; [done|]. intros k x y Hx Hy.
    destruct (decide (k = i)) as [->|Hi]; [|destruct (decide (k = j)) as [->|Hj]].
    + rewrite list_lookup_insert_eq in Hx by (rewrite ?length_insert; lia).
      rewrite list_lookup_insert_eq in Hy by (rewrite ?length_insert; lia). by simplify_eq.
    + rewrite (list_lookup_insert_ne _ i), list_lookup_insert_eq in Hx by (done || lia).
      rewrite (list_lookup_insert_ne _ i), list_lookup_insert_eq in Hy by (done || lia).
      by simplify_eq.
    + rewrite !list_lookup_insert_ne in Hx by done. rewrite !list_lookup_insert_ne in Hy by done.
      by apply (Hoth k); [tauto|..].
  - by rewrite Hown.
  - apply list_eq. intros k. rewrite list_lookup_fmap.
    destruct (decide (k = i)) as [->|Hi]; [|destruct (decide (k = j)) as [->|Hj]].
    + rewrite !list_lookup_insert_eq by (rewrite ?length_insert, ?length_fmap; lia). done.
    + rewrite !(list_lookup_insert_ne _ i) by done.
      rewrite !list_lookup_insert_eq by (rewrite ?length_fmap; lia). done.
    + rewrite !list_lookup_insert_ne, list_lookup_fmap by done.
      destruct (ls !! k) as [l0|] eqn:El0; [|done]. cbn. f_equal.
      destruct (Forall2_lookup_r _ _ _ _ _ HF El0) as (b0 & Hb0 & _). symmetry.
      by apply (Hoth k b0); [tauto|..].
Qed.

(** ** Programs of IOBuf calls *)

(** Calls on one buffer, and on two distinct ones ([this] and the other). *)
Inductive call1 :=
| c_append (d : list byte)
| c_push_back (c : byte)
| c_append_user_data (d : list byte) (del : option Z) (meta : Z)
| c_resize (n : Z) (c : byte)
| c_pop_front (n : Z)
| c_pop_back (n : Z)
| c_cut1
| c_cutn_void (n : Z)
| c_clear
| c_length
| c_copy_to (n pos : Z)
| c_fetch (n : Z)
| c_equals_piece (s : list byte).

Inductive call2 :=
| c_append_IOBuf
| c_append_Movable
| c_append_to (n pos : Z)
| c_cutn (n : Z)
| c_cut_until (delim : list byte)
| c_assign
| c_assign_Movable
| c_swap
| c_equals_IOBuf.

Inductive call :=
| On1 (i : nat) (c : call1)
| On2 (i j : nat) (c : call2).

Inductive value :=
| v_void
| v_int (z : Z)
| v_bool (b : bool)
| v_byte (c : option byte)
| v_bytes (n : Z) (d : list byte)
| v_ptr (d : option (list byte)).

Section Calls.
Context `{Alloc}.

Definition exec1 (c : call1) (b : IOBuf) : M World (value * IOBuf) :=
  match c with
  | c_append d => '(rc, b) ← append (Some d) b; mret (v_int rc, b)
  | c_push_back c => '(rc, b) ← push_back c b; mret (v_int rc, b)
  | c_append_user_data d del meta =>
      '(rc, b) ← append_user_data_with_meta d del meta b; mret (v_int rc, b)
  | c_resize n c => '(rc, b) ← resize n c b; mret (v_int rc, b)
  | c_pop_front n => '(n, b) ← pop_front n b; mret (v_int n, b)
  | c_pop_back n => '(n, b) ← pop_back n b; mret (v_int n, b)
  | c_cut1 => '(c, b) ← cut1 b; mret (v_byte c, b)
  | c_cutn_void n => '(n, d, b) ← cutn_void b n; mret (v_bytes n d, b)
  | c_clear => b ← clear b; mret (v_void, b)
  | c_length => n ← lift (length b); mret (v_int n, b)
  | c_copy_to n pos => '(n, d) ← copy_to b n pos; mret (v_bytes n d, b)
  | c_fetch n => p ← fetch b n; mret (v_ptr p, b)
  | c_equals_piece s => e ← equals_piece b s; mret (v_bool e, b)
  end.

Definition exec2 (c : call2) (b1 b2 : IOBuf) : M World (value * (IOBuf * IOBuf)) :=
  match c with
  | c_append_IOBuf => b1 ← append_IOBuf b1 b2; mret (v_void, (b1, b2))
  | c_append_Movable => bb ← append_Movable b1 b2; mret (v_void, bb)
  | c_append_to n pos => '(n, b2) ← append_to b1 b2 n pos; mret (v_int n, (b1, b2))
  | c_cutn n => '(n, b1, b2) ← cutn b1 b2 n; mret (v_int n, (b1, b2))
  | c_cut_until d => '(rc, b1, b2) ← cut_until b1 b2 d; mret (v_int rc, (b1, b2))
  | c_assign => b1 ← assign_IOBuf b1 b2; mret (v_void, (b1, b2))
  | c_assign_Movable => bb ← assign_Movable b1 b2; mret (v_void, bb)
  | c_swap => mret (v_void, swap b1 b2)
  | c_equals_IOBuf => e ← equals_IOBuf b1 b2; mret (v_bool e, (b1, b2))
  end.

Definition exec (c : call) (bufs : list IOBuf) : M World (value * list IOBuf) :=
  match c with
  | On1 i c =>
      b ← lift (bufs !! i); '(v, b) ← exec1 c b; mret (v, <[i := b]> bufs)
  | On2 i j c =>
      b1 ← lift (bufs !! i); b2 ← lift (bufs !! j);
      '(v, (b1, b2)) ← exec2 c b1 b2; mret (v, <[i := b1]> (<[j := b2]> bufs))
  end.

Fixpoint exec_all (cs : list call) (bufs : list IOBuf) : M World (list value * list IOBuf) :=
  match cs with
  | [] => mret ([], bufs)
  | c :: cs =>
      '(v, bufs) ← exec c bufs; '(vs, bufs) ← exec_all cs bufs; mret (v :: vs, bufs)
  end.

(** *** What the calls do to strings *)

Definition bound := 2 ^ 31.

(** An append of [d]: all of it or, when memory runs out, a prefix. *)
Definition appends (s d : list byte) (v : value) (s' : list byte) : Prop :=
  (v = v_int 0 /\ s' = s ++ d) \/
  (v = v_int (-1) /\ (exists k, s' = s ++ take k d) /\ exists n, malloc_ok n = false).

Definition pre1 (c : call1) (s : list byte) : Prop :=
  match c with
  | c_append d | c_append_user_data d _ _ => zlen s + zlen d < bound
  | c_push_back _ => zlen s + 1 < bound
  | c_resize n _ => 0 <= n < bound
  | c_pop_front n | c_pop_back n | c_cutn_void n => 0 <= n
  | c_copy_to n pos => 0 <= n /\ 0 <= pos
  | c_fetch n => 0 <= n /\ s <> []
  | c_cut1 | c_clear | c_length | c_equals_piece _ => True
  end.

Definition spec1 (c : call1) (s : list byte) (v : value) (s' : list byte) : Prop :=
  match c with
  | c_append d | c_append_user_data d _ _ => appends s d v s'
  | c_push_back c => appends s [c] v s'
  | c_resize n c =>
      (n < zlen s /\ v = v_int 0 /\ s' = take (Z.to_nat n) s) \/
      (zlen s <= n /\ appends s (replicate (Z.to_nat (n - zlen s)) c) v s')
  | c_pop_front n => v = v_int (Z.min n (zlen s)) /\ s' = drop (Z.to_nat n) s
  | c_pop_back n => v = v_int (Z.min n (zlen s)) /\ s' = take (Z.to_nat (zlen s - n)) s
  | c_cut1 => v = v_byte (head s) /\ s' = tail s
  | c_cutn_void n =>
      v = v_bytes (Z.min n (zlen s)) (take (Z.to_nat n) s) /\ s' = drop (Z.to_nat n) s
  | c_clear => v = v_void /\ s' = []
  | c_length => v = v_int (zlen s) /\ s' = s
  | c_copy_to n pos =>
      let d := take (Z.to_nat n) (drop (Z.to_nat pos) s) in v = v_bytes (zlen d) d /\ s' = s
  | c_fetch n =>
      v = v_ptr (if n <=? zlen s then Some (take (Z.to_nat n) s) else None) /\ s' = s
  | c_equals_piece t => v = v_bool (bool_decide (s = t)) /\ s' = s
  end.

Definition pre2 (c : call2) (s1 s2 : list byte) : Prop :=
  match c with
  | c_append_IOBuf | c_append_Movable => zlen s1 + zlen s2 < bound
  | c_append_to n pos =>
      0 <= n /\ 0 <= pos /\ zlen s2 + zlen (take (Z.to_nat n) (drop (Z.to_nat pos) s1)) < bound
  | c_cutn n => 0 <= n /\ zlen s2 + Z.min n (zlen s1) < bound
  | c_cut_until d =>
      zlen s2 + zlen s1 < bound /\ (d = [] \/ (exists c, d = [c]) \/ ascii_delim d)
  | c_assign | c_assign_Movable | c_swap | c_equals_IOBuf => True
  end.

Definition spec2 (c : call2) (s1 s2 : list byte) (v : value) (s1' s2' : list byte) : Prop :=
  match c with
  | c_append_IOBuf => v = v_void /\ s1' = s1 ++ s2 /\ s2' = s2
  | c_append_Movable => v = v_void /\ s1' = s1 ++ s2 /\ s2' = []
  | c_append_to n pos =>
      let d := take (Z.to_nat n) (drop (Z.to_nat pos) s1) in
      v = v_int (zlen d) /\ s1' = s1 /\ s2' = s2 ++ d
  | c_cutn n =>
      v = v_int (Z.min n (zlen s1)) /\ s1' = drop (Z.to_nat n) s1 /\ s2' = s2 ++ take (Z.to_nat n) s1
  | c_cut_until d =>
      (exists p, d <> [] /\ first_at d s1 p /\ v = v_int 0 /\
         s1' = drop (Z.to_nat (p + zlen d)) s1 /\ s2' = s2 ++ take (Z.to_nat p) s1) \/
      ((d = [] \/ forall p, ~ first_at d s1 p) /\ v = v_int (-1) /\ s1' = s1 /\ s2' = s2)
  | c_assign => v = v_void /\ s1' = s2 /\ s2' = s2
  | c_assign_Movable => v = v_void /\ s1' = s2 /\ s2' = []
  | c_swap => v = v_void /\ s1' = s2 /\ s2' = s1
  | c_equals_IOBuf => v = v_bool (bool_decide (s1 = s2)) /\ s1' = s1 /\ s2' = s2
  end.

Definition pre (c : call) (ss : list (list byte)) : Prop :=
  match c with
  | On1 i c => exists s, ss !! i = Some s /\ pre1 c s
  | On2 i j c => i <> j /\ exists s1 s2, ss !! i = Some s1 /\ ss !! j = Some s2 /\ pre2 c s1 s2
  end.

Definition spec (c : call) (ss : list (list byte)) (v : value) (ss' : list (list byte)) : Prop :=
  match c with
  | On1 i c => exists s s', ss !! i = Some s /\ ss' = <[i := s']> ss /\ spec1 c s v s'
  | On2 i j c => exists s1 s2 s1' s2', ss !! i = Some s1 /\ ss !! j = Some s2 /\
      ss' = <[i := s1']> (<[j := s2']> ss) /\ spec2 c s1 s2 v s1' s2'
  end.

(** A program whose preconditions hold in every run on strings, and the runs. *)
Fixpoint safe (cs : list call) (ss : list (list byte)) : Prop :=
  match cs with
  | [] => True
  | c :: cs => pre c ss /\ forall v ss', spec c ss v ss' -> safe cs ss'
  end.

Fixpoint spec_all (cs : list call) (ss : list (list byte)) (vs : list value)
    (ss' : list (list byte)) : Prop :=
  match cs, vs with
  | [], [] => ss' = ss
  | c :: cs, v :: vs => exists ss1, spec c ss v ss1 /\ spec_all cs ss1 vs ss'
  | _, _ => False
  end.

(** *** The refinement *)

Lemma becomes_same w buf l O :
  Buf w buf l -> Inv w (blocks l ++ O) -> becomes w O (bytes w l) buf w.
Proof. intros. by exists l. Qed.

Lemma appended_appends w O s d rc b' w' :
  appended w O s d rc b' w' -> exists s', becomes w O s' b' w' /\ appends s d (v_int rc) s'.
Proof.
  intros [[-> Hb]|(-> & [k Hb] & Hm)]; eexists; (split; [exact Hb|]); [by left|right].
  split; [done|]. split; [by exists k|done].
Qed.

Lemma exec1_ok c w b l O :
  Buf w b l -> Inv w (blocks l ++ O) -> pre1 c (bytes w l) ->
  exists v b' w' s', exec1 c b w = Some ((v, b'), w') /\ becomes w O s' b' w' /\
    spec1 c (bytes w l) v s'.
Proof.
  intros HB HI Hp. pose proof (Buf_len _ _ _ HB) as EL. pose proof (becomes_same _ _ _ _ HB HI) as Hid.
  unfold bound in *. destruct c; cbn [exec1 pre1 spec1] in *; unfold bound in *; rewrite ?EL in *; run.
  - destruct (append_ok d w b l O HB HI Hp) as (rc & b' & w' & -> & Ha).
    apply appended_appends in Ha as (s' & Hb & Hs). by eexists _, _, _, s'.
  - destruct (push_back_ok c w b l O HB HI Hp) as (rc & b' & w' & -> & Ha).
    apply appended_appends in Ha as (s' & Hb & Hs). by eexists _, _, _, s'.
  - destruct (append_user_data_ok d del meta w b l O HB HI Hp) as (rc & b' & w' & -> & Ha).
    apply appended_appends in Ha as (s' & Hb & Hs). by eexists _, _, _, s'.
  - destruct (resize_ok n c w b l O HB HI Hp) as (rc & b' & w' & -> & [(-> & Hlt & Hb)|[Hge Ha]]).
    + eexists _, _, _, _. split; [done|]. split; [done|]. by left.
    + apply appended_appends in Ha as (s' & Hb & Hs). eexists _, _, _, s'.
      split; [done|]. split; [done|]. by right.
  - destruct (pop_front_ok w n b l O HB HI Hp) as (b' & w' & -> & Hb). by eexists _, _, _, _.
  - destruct (pop_back_ok w n b l O HB HI Hp) as (b' & w' & -> & Hb). by eexists _, _, _, _.
  - destruct (cut1_ok w b l O HB HI) as (b' & w' & -> & Hb). by eexists _, _, _, _.
  - destruct (cutn_void_ok w n b l O HB HI Hp) as (b' & w' & -> & Hb). by eexists _, _, _, _.
  - destruct (clear_spec w b l O HB HI) as (b' & w' & -> & Hb). by eexists _, _, _, _.
  - rewrite (length_spec _ _ (Buf_Rep _ _ _ HB)). by eexists _, _, _, _.
  - destruct Hp as [Hn Hpos]. rewrite (copy_to_ok w b l n pos HB Hn Hpos). by eexists _, _, _, _.
  - destruct Hp as [Hn Hne]. rewrite (fetch_ok w b l n HB Hn), EL by (by intros ->).
    by eexists _, _, _, _.
  - rewrite (equals_piece_ok w b l s HB). by eexists _, _, _, _.
Qed.

Lemma first_at_char d s p : first_at [d] s p <-> find_from d s 0 = Some p.
Proof.
  rewrite find_from_spec, Z.sub_0_r. unfold first_at. change (zlen [d]) with 1.
  assert (forall q, 0 <= q -> slice q 1 s = [d] <-> s !! Z.to_nat q = Some d) as Hsl.
  { intros q Hq. unfold slice. change (Z.to_nat 1) with 1%nat.
    rewrite <-(Nat.add_0_r (Z.to_nat q)) at 2. rewrite <-lookup_drop.
    destruct (drop (Z.to_nat q) s) as [|x r]; [done|]. cbn. split; intros; simplify_eq/=; done. }
  split.
  - intros (Hp & Hl & Hs & Hq). apply Hsl in Hs; [|done]. split_and!; try done.
    intros (i & Hi)%list_elem_of_lookup_1. apply lookup_take_Some in Hi as [Hi Hlt].
    apply (Hq (Z.of_nat i)); [lia|]. apply Hsl; [lia|]. by rewrite Nat2Z.id.
  - intros (Hp & Hs & Hn). pose proof (lookup_lt_Some _ _ _ Hs).
    split_and!; [done|unfold zlen; lia|by apply Hsl|]. intros q Hq E%Hsl; [|lia]. apply Hn.
    apply list_elem_of_lookup_2 with (i := Z.to_nat q). apply lookup_take_Some. split; [done|lia].
Qed.

Lemma cut_until_ok d w b1 b2 l1 l2 O :
  Buf w b1 l1 -> Buf w b2 l2 -> Inv w (blocks l1 ++ blocks l2 ++ O) ->
  pre2 (c_cut_until d) (bytes w l1) (bytes w l2) ->
  exists v b1' b2' w' s1' s2', exec2 (c_cut_until d) b1 b2 w = Some ((v, (b1', b2')), w') /\
    become2 w O s1' s2' b1' b2' w' /\ spec2 (c_cut_until d) (bytes w l1) (bytes w l2) v s1' s2'.
Proof.
  intros HB1 HB2 HI [Ht Hd]. cbn [exec2 spec2].
  rewrite (Buf_len _ _ _ HB1), (Buf_len _ _ _ HB2) in Ht.
  assert (become2 w O (bytes w l1) (bytes w l2) b1 b2 w) as Hid by (by exists l1, l2).
  destruct Hd as [->|[[c ->]|Hd]].
  - run. do 6 eexists. split; [done|]. split; [done|]. right. by split; [left|].
  - cbn [cut_until]. run. pose proof (cut_by_char_ok w b1 b2 l1 l2 c O HB1 HB2 HI Ht) as Hc.
    destruct (find_from c (bytes w l1) 0) as [p|] eqn:Ef.
    + destruct Hc as (b1' & b2' & w' & -> & Hb). do 6 eexists. split; [done|]. split; [done|].
      left. exists p. by rewrite first_at_char.
    + rewrite Hc. do 6 eexists. split; [done|]. split; [done|]. right. split; [|done].
      right. intros p. rewrite first_at_char. congruence.
  - assert (cut_until b1 b2 d = _cut_by_delim b1 b2 d) as ->.
    { destruct Hd as (_ & Hz & _). destruct d as [|? [|]]; unfold zlen in Hz; cbn in Hz; try lia. done. }
    run. destruct (cut_by_delim_ok w b1 b2 l1 l2 d O HB1 HB2 HI Ht Hd)
      as [(p & b1' & b2' & w' & -> & Hf & Hb)|[-> Hn]].
    + do 6 eexists. split; [done|]. split; [done|]. left. exists p. split_and!; try done.
      intros ->. destruct Hd as (_ & Hz & _). change (zlen (@nil byte)) with 0 in Hz. lia.
    + do 6 eexists. split; [done|]. split; [done|]. right. split; [by right|done].
Qed.

Lemma exec2_ok c w b1 b2 l1 l2 O :
  Buf w b1 l1 -> Buf w b2 l2 -> Inv w (blocks l1 ++ blocks l2 ++ O) ->
  pre2 c (bytes w l1) (bytes w l2) ->
  exists v b1' b2' w' s1' s2', exec2 c b1 b2 w = Some ((v, (b1', b2')), w') /\
    become2 w O s1' s2' b1' b2' w' /\ spec2 c (bytes w l1) (bytes w l2) v s1' s2'.
Proof.
  intros HB1 HB2 HI Hp. destruct c; [..|idtac| | | | | ]; try (by apply cut_until_ok).
  all: cbn [pre2 spec2] in *; unfold bound in *.
  all: rewrite ?(Buf_len _ _ _ HB1), ?(Buf_len _ _ _ HB2) in *; cbn [exec2]; run.
  - destruct (append_IOBuf_ok w b1 b2 l1 l2 O HB1 HB2 HI Hp) as (b1' & w' & -> & Hb).
    by do 6 eexists.
  - destruct (append_Movable_ok w b1 b2 l1 l2 O HB1 HB2 HI Hp) as (b1' & b2' & w' & -> & Hb).
    by do 6 eexists.
  - destruct Hp as (Hn & Hpos & Ht).
    destruct (append_to_ok w b1 b2 l1 l2 n pos O HB1 HB2 HI Hn Hpos Ht) as (b2' & w' & -> & Hb).
    by do 6 eexists.
  - destruct Hp as (Hn & Ht).
    destruct (cutn_ok w n b1 b2 l1 l2 O HB1 HB2 HI Hn Ht) as (b1' & b2' & w' & -> & Hb).
    by do 6 eexists.
  - destruct (assign_IOBuf_spec b1 b2 l1 l2 w O (Buf_Rep _ _ _ HB1) (Buf_Rep _ _ _ HB2) HI)
      as (b1' & w' & -> & HR & HI' & Hq).
    destruct (Buf_frame w w' _ _ b2 l2 HI (quiet_wle _ _ Hq) HI') as [HB2' E2]; [|done|].
    { intros b' Hb'. apply elem_of_app. by left. }
    do 6 eexists. split; [done|]. split; [|done]. exists l2, l2. destruct HB2'.
    split_and!; try done. by apply quiet_wle.
  - unfold assign_Movable. run. destruct (clear_spec w b1 l1 _ HB1 HI) as (b' & w' & -> & l & HB & HI' & Hle & E).
    apply (bytes_nil_iff _ _ _ HB) in E as ->. cbn in HI'.
    destruct (Buf_frame w w' _ _ b2 l2 HI Hle HI') as [HB2' E2]; [|done|].
    { intros b0 Hb0. apply elem_of_app. by left. }
    do 6 eexists. split; [done|]. split; [|done]. exists l2, []. split; [done|].
    split; [split; [apply new_IOBuf_Rep|done]|]. done.
  - do 6 eexists. split; [done|]. split; [|done]. exists l2, l1. split_and!; try done.
    by apply swap_owned.
  - rewrite (equals_IOBuf_ok w b1 b2 l1 l2 HB1 HB2). do 6 eexists. split; [done|].
    split; [|done]. by exists l1, l2.
Qed.

Lemma exec_ok c w bufs ss :
  Holds w bufs ss -> pre c ss ->
  exists v bufs' w' ss', exec c bufs w = Some ((v, bufs'), w') /\ Holds w' bufs' ss' /\
    spec c ss v ss'.
Proof.
  intros HH Hp. assert (List.length bufs = List.length ss) as Hlen.
  { destruct HH as (ls & HF & _ & ->). rewrite length_fmap. by eapply Forall2_length. }
  destruct c as [i c|i j c]; cbn [pre exec spec] in *.
  - destruct Hp as (s & Hs & Hp).
    destruct (lookup_lt_is_Some_2 bufs i) as [b Hb]; [rewrite Hlen; by eapply lookup_lt_Some|].
    destruct (Holds_1 w bufs ss i b s HH Hb Hs) as (l & O & HB & <- & HI & Hk).
    destruct (exec1_ok c w b l O HB HI Hp) as (v & b' & w' & s' & E & Hbe & Hsp).
    rewrite Hb. run. rewrite E. do 4 eexists. split; [done|]. split; [by eapply Hk|]. by exists (bytes w l), s'.
  - destruct Hp as (Hij & s1 & s2 & Hs1 & Hs2 & Hp).
    destruct (lookup_lt_is_Some_2 bufs i) as [b1 Hb1]; [rewrite Hlen; by eapply lookup_lt_Some|].
    destruct (lookup_lt_is_Some_2 bufs j) as [b2 Hb2]; [rewrite Hlen; by eapply lookup_lt_Some|].
    destruct (Holds_2 w bufs ss i j b1 b2 s1 s2 HH Hij Hb1 Hb2 Hs1 Hs2)
      as (l1 & l2 & O & HB1 & HB2 & <- & <- & HI & Hk).
    destruct (exec2_ok c w b1 b2 l1 l2 O HB1 HB2 HI Hp)
      as (v & b1' & b2' & w' & s1' & s2' & E & Hbe & Hsp).
    rewrite Hb1, Hb2. run. rewrite E. do 4 eexists. split; [done|]. split; [by eapply Hk|].
    by exists (bytes w l1), (bytes w l2), s1', s2'.
Qed.
End Calls.

(** ** Writing into a writer *)

Lemma gather_spec w buf l hint k i cur vec :
  Buf w buf l -> (i + k <= List.length l)%nat ->
  exists k', (k' <= k)%nat /\ ((0 < k)%nat -> (0 < k')%nat) /\
    gather buf hint k (Z.of_nat i) cur vec w =
      Some (vec ++ (ref_bytes w <$> take k' (drop i l)), w).
Proof.
  intros HB. revert i cur vec. induction k as [|k IH]; intros i cur vec Hk; cbn [gather].
  { exists O. rewrite app_nil_r. split_and!; [lia|lia|done]. }
  destruct (lookup_lt_is_Some_2 l i) as [r Hr]; [lia|].
  destruct (Buf_at _ _ _ _ _ HB Hr) as (Or & Wr & Ea).
  run. rewrite Ea. cbn beta iota. rewrite read_ref_spec by done. cbn beta iota.
  rewrite (drop_S _ _ _ Hr). destruct (_ <? hint).
  - replace (Z.of_nat i + 1) with (Z.of_nat (S i)) by lia.
    destruct (IH (S i) (u64 (cur + ref_length r)) (vec ++ [ref_bytes w r])) as (k' & Hk' & _ & ->);
      [lia|]. exists (S k'). split; [lia|]. split; [lia|]. by rewrite <-app_assoc.
  - exists 1%nat. split; [lia|]. split; [lia|]. done.
Qed.

Lemma cut_into_writer_ok WriteV hint w b l O :
  Buf w b l -> Inv w (blocks l ++ O) -> l <> [] ->
  exists vec b' w', cut_into_writer WriteV hint b w = Some ((WriteV vec, b'), w') /\
    vec <> [] /\ (exists tl, bytes w l = concat vec ++ tl) /\
    becomes w O (drop (Z.to_nat (WriteV vec)) (bytes w l)) b' w'.
Proof.
  intros HB HI Hne. unfold cut_into_writer. pose proof (Buf_Rep _ _ _ HB) as HR.
  rewrite (empty_spec _ _ HR), bool_decide_eq_false_2 by done. run.
  rewrite (ref_num_spec _ _ HR). cbn beta iota.
  set (k := Z.to_nat (Z.min (zlen l) IOBUF_IOV_MAX)).
  assert (0 < k <= List.length l)%nat as Hk.
  { unfold k, IOBUF_IOV_MAX, zlen. destruct l; [done|cbn [List.length]; lia]. }
  destruct (gather_spec w b l hint k 0 0 [] HB) as (k' & Hk' & Hpos & E); [lia|].
  change (Z.of_nat 0) with 0 in E. rewrite E. cbn beta iota. rewrite app_nil_l, drop_0.
  set (vec := ref_bytes w <$> take k' l).
  assert (vec <> [] /\ exists tl, bytes w l = concat vec ++ tl) as [Hv Hpre].
  { split.
    - unfold vec. destruct l; [done|]. destruct k'; [lia|]. done.
    - exists (bytes w (drop k' l)). unfold vec. fold (bytes w (take k' l)).
      by rewrite <-bytes_app, take_drop. }
  exists vec. destruct (Z.ltb_spec 0 (WriteV vec)) as [Hlt|Hge].
  - destruct (pop_front_ok w (WriteV vec) b l O HB HI) as (b' & w' & -> & Hb); [lia|].
    eexists _, _. by split_and!.
  - eexists _, _. split; [done|]. split; [done|]. split; [done|].
    replace (Z.to_nat (WriteV vec)) with 0%nat by lia. by apply becomes_same.
Qed.

(** New IOBufs hold empty strings. *)
Lemma Holds_new n : Holds init_world (replicate n new_IOBuf) (replicate n []).
Proof.
  exists (replicate n []). split; [|split].
  - apply Forall2_replicate. split; [apply new_IOBuf_Rep|constructor].
  - assert (concat (blocks <$> replicate n []) = []) as ->.
    { induction n as [|n IH]; [done|]. cbn. exact IH. }
    exists []. split; [|done]. split; try done. by intros b [? ?].
  - by rewrite fmap_replicate.
Qed.

(** A malloc that never fails, and returns memory full of zeros. *)
Definition malloc_zero : Alloc := {| malloc_ok := fun _ => true; malloc_byte := fun _ _ => x00 |}.

(** The same with memory full of the letter z. *)
Definition malloc_z : Alloc := {| malloc_ok := fun _ => true; malloc_byte := fun _ _ => x7a |}.

(** ** The properties *)

Lemma Holds_pair w bufs s1 s2 : Holds w bufs [s1; s2] -> exists b1 b2, bufs = [b1; b2].
Proof.
  intros (ls & HF & _ & Hl). apply Forall2_length in HF.
  apply (f_equal List.length) in Hl. rewrite length_fmap in Hl. cbn in Hl.
  destruct bufs as [|b1 [|b2 [|]]]; cbn in HF; try lia. by exists b1, b2.
Qed.

Lemma exec_all_ok `{Alloc} cs w bufs ss :
  Holds w bufs ss -> safe cs ss ->
  exists vs bufs' w' ss', exec_all cs bufs w = Some ((vs, bufs'), w') /\
    Holds w' bufs' ss' /\ spec_all cs ss vs ss'.
Proof.
  revert w bufs ss. induction cs as [|c cs IH]; intros w bufs ss HH Hs; cbn [exec_all].
  - by exists [], bufs, w, ss.
  - destruct Hs as [Hp Hs].
    destruct (exec_ok c w bufs ss HH Hp) as (v & bufs1 & w1 & ss1 & E & HH1 & Hsp).
    destruct (IH w1 bufs1 ss1 HH1 (Hs v ss1 Hsp)) as (vs & bufs2 & w2 & ss2 & E2 & HH2 & Hsp2).
    run. rewrite E. cbn beta iota. rewrite E2. cbn beta iota.
    exists (v :: vs), bufs2, w2, ss2. split; [done|]. split; [done|]. by exists ss1.
Qed.

(** C1. Any program of IOBuf calls on any number of IOBufs that share blocks
    runs without undefined behaviour (no dangling block, no access outside of
    a block, no wrong union member, every loop ends) and does to the IOBufs
    what the same program does to independent strings: appending, cutting,
    popping, copying, moving and comparing one never changes another, and an
    append fails only when malloc fails. *)
Theorem IOBufs_refine_strings `{Alloc} cs w bufs ss :
  Holds w bufs ss -> safe cs ss ->
  exists vs bufs' w' ss', exec_all cs bufs w = Some ((vs, bufs'), w') /\
    Holds w' bufs' ss' /\ spec_all cs ss vs ss'.
Proof. apply exec_all_ok. Qed.

Theorem IOBufs_refine_strings_witness :
  let prog := [On1 0 (c_append [x61; x2c; x62]); On2 0 1 (c_cut_until [x2c]);
               On2 0 1 c_append_IOBuf; On1 0 (c_pop_back 1)] in
  Holds init_world [new_IOBuf; new_IOBuf] [[]; []] /\ @safe malloc_zero prog [[]; []] /\
  exists vs bufs' w' ss', @exec_all malloc_zero prog [new_IOBuf; new_IOBuf] init_world
      = Some ((vs, bufs'), w') /\
    Holds w' bufs' ss' /\ @spec_all malloc_zero prog [[]; []] vs ss'.
Proof.
  intros prog.
  assert (Holds init_world [new_IOBuf; new_IOBuf] [[]; []]) as HH by exact (Holds_new 2).
  assert (@safe malloc_zero prog [[]; []]) as Hs.
  { split; [by exists []|]. intros v ss1 (s & s1 & [= <-] & -> & [[-> ->]|(_ & _ & n & Hn)]); [|done].
    split; [split; [done|]; do 2 eexists; split; [done|]; split; [done|]; split; [done|eauto]|].
    intros v2 ss2 (s2 & s3 & s2' & s3' & [= <-] & [= <-] & -> & Hsp).
    assert (zlen s2' <= 3 /\ zlen s3' <= 3) as [Z2 Z3].
    { destruct Hsp as [(p & _ & (Hp & Hpe & _) & _ & -> & ->)|(_ & _ & -> & ->)]; [|done].
      cbn [app] in *. rewrite zlen_drop, zlen_take.
      change (zlen [x61; x2c; x62]) with 3 in *. lia. }
    split.
    { split; [done|]. exists s2', s3'. split; [done|]. split; [done|]. cbn.
      change bound with 2147483648. lia. }
    intros v4 ss4 (s4 & s5 & s4' & s5' & [= <-] & [= <-] & -> & _ & -> & ->).
    split; [|done]. eexists; split; [done|]. cbn. lia. }
  split; [exact HH|]. split; [exact Hs|].
  exact (@IOBufs_refine_strings malloc_zero prog init_world _ _ HH Hs).
Defined.

(** C11. No block leaks and none is freed twice: once all IOBufs of the thread
    are empty and the thread's cache is dropped, no block is alive and the
    counter of blocks is back to 0. *)
Theorem no_block_leaks `{Alloc} w bufs :
  Holds w bufs (replicate (List.length bufs) []) ->
  exists w', remove_tls_block_chain w = Some ((), w') /\ heap w' = ∅ /\ g_nblock w' = 0.
Proof.
  intros (ls & HF & HI & Hs).
  assert (concat (blocks <$> ls) = []) as E.
  { pose proof (Forall2_length _ _ _ HF) as Hl. rewrite Hl in Hs. clear HI Hl.
    revert bufs HF Hs. induction ls as [|l ls IH]; intros bufs HF Hs; [done|].
    apply Forall2_cons_inv_r in HF as (b & bufs' & HB & HF & ->). cbn in Hs.
    injection Hs as Hs1 Hs2. symmetry in Hs1. apply (bytes_nil_iff _ _ _ HB) in Hs1 as ->.
    cbn. by eapply IH. }
  rewrite E in HI. destruct (remove_tls_block_chain_spec w [] HI) as (w' & Er & _ & HI' & _).
  exists w'. split; [done|]. by apply no_references.
Qed.

(** Two IOBufs that shared a block and one of user data, and gave them back. *)
Definition share_and_clear : list call :=
  [On1 0 (c_append [x61; x62]); On1 0 (c_append_user_data [x63] None 0); On2 1 0 c_append_IOBuf;
   On1 0 c_clear; On1 1 c_clear].

Lemma share_and_clear_ok :
  exists vs bufs w, @exec_all malloc_zero share_and_clear [new_IOBuf; new_IOBuf] init_world = Some ((vs, bufs), w) /\
    Holds w bufs [[]; []].
Proof.
  assert (@safe malloc_zero share_and_clear [[]; []]) as Hs.
  { split; [by exists []|]. intros v1 ss1 (s & s1 & [= <-] & -> & [[_ ->]|(_ & _ & n & Hn)]); [|done].
    split; [by exists [x61; x62]|]. intros v2 ss2 (s & s2 & [= <-] & -> & [[_ ->]|(_ & _ & n & Hn)]); [|done].
    split; [split; [done|]; by exists [], [x61; x62; x63]|].
    intros v3 ss3 (s3 & s4 & s3' & s4' & [= <-] & [= <-] & -> & _ & -> & ->).
    split; [by eexists|]. intros v4 ss4 (s & s5 & [= <-] & -> & _ & ->).
    split; [by eexists|]. done. }
  destruct (@exec_all_ok malloc_zero _ _ _ _ (Holds_new 2) Hs) as (vs & bufs & w & ss & E & HH & Hsp).
  exists vs, bufs, w. split; [exact E|].
  do 5 (destruct vs as [|? vs]; [done|]). destruct vs; [|by destruct Hsp as (? & _ & ? & _ & ? & _ & ? & _ & ? & _ & [])].
  destruct Hsp as (ss1 & (? & ? & [= <-] & -> & [[_ ->]|(_ & _ & n & Hn)]) & Hsp); [|done].
  destruct Hsp as (ss2 & (? & ? & [= <-] & -> & [[_ ->]|(_ & _ & n & Hn)]) & Hsp); [|done].
  destruct Hsp as (ss3 & (? & ? & ? & ? & [= <-] & [= <-] & -> & _ & -> & ->) & Hsp).
  destruct Hsp as (ss4 & (? & ? & [= <-] & -> & _ & ->) & ss5 & (? & ? & [= <-] & -> & _ & ->) & Hsp).
  cbn in Hsp. by subst ss.
Qed.

(** A block is in the cache; the other one was freed. *)
Theorem no_block_leaks_witness :
  exists vs bufs w, @exec_all malloc_zero share_and_clear [new_IOBuf; new_IOBuf] init_world = Some ((vs, bufs), w) /\
    (base.size (heap w), g_nblock w, num_blocks (tls w)) = (1%nat, 1, 1) /\ is_Some (block_head (tls w)) /\
    exists w', @remove_tls_block_chain w = Some ((), w') /\ heap w' = ∅ /\ g_nblock w' = 0.
Proof.
  destruct share_and_clear_ok as (vs & bufs & w & E & HH). exists vs, bufs, w. split; [exact E|].
  assert (match @exec_all malloc_zero share_and_clear [new_IOBuf; new_IOBuf] init_world with
    | Some (_, w) => (base.size (heap w), g_nblock w, num_blocks (tls w)) = (1%nat, 1, 1) /\ is_Some (block_head (tls w))
    | None => False end) as Hc by (vm_compute; by eauto).
  rewrite E in Hc. destruct Hc as [Hc1 Hc2]. split; [exact Hc1|]. split; [exact Hc2|].
  destruct (Holds_pair _ _ _ _ HH) as (b1 & b2 & ->).
  exact (@no_block_leaks malloc_zero w [b1; b2] HH).
Defined.

(** C27. cut_into_writer hands the writer a non-empty prefix of the bytes and
    removes exactly the bytes the writer says it took, none when it fails. *)
Theorem cut_into_writer_exact `{Alloc} WriteV hint w bufs ss i b s :
  Holds w bufs ss -> bufs !! i = Some b -> ss !! i = Some s -> s <> [] ->
  exists vec b' w', cut_into_writer WriteV hint b w = Some ((WriteV vec, b'), w') /\
    vec <> [] /\ (exists tl, s = concat vec ++ tl) /\
    Holds w' (<[i := b']> bufs) (<[i := drop (Z.to_nat (WriteV vec)) s]> ss).
Proof.
  intros HH Hb Hs Hne. destruct (Holds_1 w bufs ss i b s HH Hb Hs) as (l & O & HB & <- & HI & Hk).
  assert (l <> []) as Hl by (intros ->; done).
  destruct (cut_into_writer_ok WriteV hint w b l O HB HI Hl)
    as (vec & b' & w' & E & Hv & Hpre & Hbe).
  exists vec, b', w'. split_and!; try done. by eapply Hk.
Qed.
Theorem cut_into_writer_exact_witness :
  exists w b, Holds w [b] [[x61; x62]] /\
    exists vec b' w', cut_into_writer (fun _ => 1) 10 b w = Some ((1, b'), w') /\
      vec <> [] /\ (exists tl, [x61; x62] = concat vec ++ tl) /\ Holds w' [b'] [[x62]].
Proof.
  destruct (@exec_ok malloc_zero (On1 0 (c_append [x61; x62])) init_world [new_IOBuf] [[]]
    (Holds_new 1)) as (v & bufs & w & ss & E & HH & s & s' & Hs & -> & Ha).
  { by exists []. }
  destruct Ha as [[_ ->]|(_ & _ & n & Hn)]; [|done]. injection Hs as <-. cbn in HH.
  assert (exists b, bufs = [b]) as [b ->].
  { destruct HH as (ls & HF & _ & Hl). apply Forall2_length in HF.
    apply (f_equal List.length) in Hl. rewrite length_fmap in Hl. cbn in Hl.
    destruct bufs as [|b [|]]; cbn in HF; try lia. by exists b. }
  exists w, b. split; [exact HH|].
  destruct (@cut_into_writer_exact malloc_zero (fun _ => 1) 10 w [b] [[x61; x62]] 0 b [x61; x62]
    HH eq_refl eq_refl ltac:(done)) as (vec & b' & w' & E' & Hv & Hpre & HH').
  exists vec, b', w'. split; [exact E'|]. split; [exact Hv|]. split; [exact Hpre|exact HH'].
Defined.

(** C29. cut_until with a binary delimiter, which the header allows: a
    delimiter of 2 to 7 bytes with a byte above 127 is never found, although
    it is there; a delimiter that starts with a NUL byte is found in a buffer
    that starts with the rest of the delimiter, which needs not hold it, and then
    everything is cut, the delimiter included. *)
Theorem cut_until_binary_delim w bufs ss i j this out s1 s2 d :
  Holds w bufs ss -> i <> j -> bufs !! i = Some this -> bufs !! j = Some out ->
  ss !! i = Some s1 -> ss !! j = Some s2 -> zlen s2 + zlen s1 < 2 ^ 31 -> 2 <= zlen d <= 7 ->
  ((exists c, c ∈ d /\ 128 <= digit c) -> cut_until this out d w = Some ((-1, this, out), w)) /\
  (forall d' r, d = x00 :: d' -> Forall (fun c => digit c < 128) d' -> s1 = d' ++ r -> r <> [] ->
     exists this' out' w', cut_until this out d w = Some ((0, this', out'), w') /\
       Holds w' (<[i := this']> (<[j := out']> bufs)) (<[i := []]> (<[j := s2 ++ s1]> ss))).
Proof.
  intros HH Hij Hb1 Hb2 Hs1 Hs2 Hsum Hz.
  destruct (Holds_2 w bufs ss i j this out s1 s2 HH Hij Hb1 Hb2 Hs1 Hs2)
    as (l1 & l2 & O & HB1 & HB2 & E1 & E2 & HI & Hback).
  assert (cut_until this out d = _cut_by_delim this out d) as ->.
  { destruct d as [|? [|]]; unfold zlen in Hz; cbn in Hz; try lia. done. }
  split.
  - intros Hc. unfold _cut_by_delim. rewrite (length_spec _ _ (Buf_Rep _ _ _ HB1)). run.
    rewrite (proj2 (Z.ltb_ge 8 _)) by lia. cbn [orb]. destruct (_ <? _); [done|].
    rewrite (ref_num_spec _ _ (Buf_Rep _ _ _ HB1)). cbn beta iota.
    replace (Z.to_nat (zlen l1)) with (List.length l1) by (unfold zlen; lia).
    change 0 with (Z.of_nat 0) at 2.
    rewrite (find_sig_never w this l1 (zlen d) _ 0 (List.length l1) 0 0 HB1 eq_refl Hz); [done|].
    apply delim_sig_high; [lia|done].
  - intros d' r -> Hd' Es Hr. rewrite <-E1, <-E2 in Hsum.
    rewrite (Buf_len _ _ _ HB1), (Buf_len _ _ _ HB2) in Hsum.
    destruct (cut_nul_delim_ok w this out l1 l2 d' r O HB1 HB2 HI Hsum) as (this' & out' & w' & Ec & Hb).
    { split; [constructor; [done|done]|lia]. }
    { by rewrite E1. }
    { done. }
    exists this', out', w'. split; [exact Ec|]. rewrite <-E1, <-E2. by apply Hback.
Qed.

(** Two IOBufs made by append(). *)
Lemma two_appended d1 d2 : zlen d1 < 2 ^ 20 -> zlen d2 < 2 ^ 20 ->
  exists w b1 b2, Holds w [b1; b2] [d1; d2].
Proof.
  intros Z1 Z2.
  destruct (@exec_ok malloc_zero (On1 0 (c_append d1)) init_world _ _ (Holds_new 2))
    as (v1 & bufs1 & w1 & ss1 & _ & HH1 & s1 & s1' & Hs1 & -> & Ha1).
  { exists []. split; [done|]. cbn [pre1]. change (zlen (@nil byte)) with 0. unfold bound. lia. }
  destruct Ha1 as [[_ ->]|(_ & _ & n & Hn)]; [|done]. injection Hs1 as <-. cbn in HH1.
  destruct (@exec_ok malloc_zero (On1 1 (c_append d2)) w1 bufs1 _ HH1)
    as (v2 & bufs2 & w2 & ss2 & _ & HH2 & s2 & s2' & Hs2 & -> & Ha2).
  { exists []. split; [done|]. cbn [pre1]. change (zlen (@nil byte)) with 0. unfold bound. lia. }
  destruct Ha2 as [[_ ->]|(_ & _ & n & Hn)]; [|done]. injection Hs2 as <-. cbn in HH2.
  destruct (Holds_pair _ _ _ _ HH2) as (b1 & b2 & ->).
  by exists w2, b1, b2.
Qed.

(** xc3 xa9 in 'p' xc3 xa9 'q', which holds it; NUL 'a' in "abc", which does not. *)
Theorem cut_until_binary_delim_witness :
  exists w b1 b2, Holds w [b1; b2] [[x61; x62; x63]; [x70; xc3; xa9; x71]] /\
    cut_until b2 b1 [xc3; xa9] w = Some ((-1, b2, b1), w) /\
    exists b1' b2' w', cut_until b1 b2 [x00; x61] w = Some ((0, b1', b2'), w') /\
      Holds w' [b1'; b2'] [[]; [x70; xc3; xa9; x71; x61; x62; x63]].
Proof.
  destruct (two_appended [x61; x62; x63] [x70; xc3; xa9; x71]) as (w & b1 & b2 & HH); [done..|].
  exists w, b1, b2. split; [exact HH|]. split.
  - apply (proj1 (cut_until_binary_delim w _ _ 1%nat 0%nat b2 b1 _ _ [xc3; xa9] HH
      ltac:(done) eq_refl eq_refl eq_refl eq_refl ltac:(done) ltac:(done))).
    exists xc3. split; [by left|by vm_compute].
  - destruct (proj2 (cut_until_binary_delim w _ _ 0%nat 1%nat b1 b2 _ _ [x00; x61] HH
      ltac:(done) eq_refl eq_refl eq_refl eq_refl ltac:(done) ltac:(done)) [x61] [x62; x63] eq_refl)
      as (b1' & b2' & w' & E & HH'); [by repeat constructor|done|done|].
    exists b1', b2', w'. split; [exact E|exact HH'].
Defined.

(** Three calls on the edge of what IOBuf supports: fetch of no byte from
    an empty IOBuf reads through a null block pointer; appendv of nothing but
    empty pieces leaves an IOBuf of length 0 that is not empty(), from which
    cut1 then "cuts" a byte that was never appended. *)
Theorem fetch_and_appendv_edges :
  (forall w, fetch new_IOBuf 0 w = None) /\
  (match @appendv malloc_z [[]; []] new_IOBuf init_world with
   | Some ((rc, b), w) => rc = 0 /\ length b = Some 0 /\ empty b = Some false /\
       match cut1 b w with Some ((c, _), _) => c = Some x7a | None => False end
   | None => False
   end).
Proof. split; [done|]. by vm_compute. Qed.

End IOBufSpec.
