(* ===== verification/IOBufCutter.v ===== *)
(** * IOBufCutter: cutting an IOBuf through a cursor

    utility/iobuf.cc, iobuf_inl.h and iobuf.h: class [IOBufCutter] cuts from the
    front of an IOBuf and keeps pointers into its first block meanwhile.  It
    points to an IOBuf that others use too, so an operation takes the cutter and
    that IOBuf and returns both.  A pointer into the memory of a block is its
    offset from [block->data].

    [Cut w O c buf l a]: the cutter [c] has [a] left of its current reference in
    [buf], and [l] are the references after that.  Every operation is specified
    on the string [a ++ bytes w l]; a program of calls, up to the destructor,
    refines the same program on strings ([cutter_refines_string]), except that
    the destructor of a cutter that stopped inside of a reference of a big IOBuf
    leaves [nbytes] as it was ([cutter_edges]). *)

From S2P Require Import Prelude IOBlock IOBufRef IOBufOps IOBufSpec.
Import IOBlock IOBufRef IOBufOps IOBufSpec.

Module IOBufCutter.

(** [_data] and [_data_end] as offsets in [_block]; NULL is 0. *)
Record IOBufCutter := mkCutter {
  _data : Z;
  _data_end : Z;
  _block : option nat }.

Definition null_cutter : IOBufCutter := mkCutter 0 0 None.

Definition left_size (c : IOBufCutter) : Z := _data_end c - _data c.

(** memcpy(.., p, n) from a pointer into a block; of no byte it is nothing. *)
Definition read_ptr (b : option nat) (off n : Z) : M World (list byte) :=
  if n =? 0 then mret [] else read_at (mkRef 0 0 b) off n.

(** if (_block) { _buf->_pop_front_ref(); } *)
Definition pop_current (c : IOBufCutter) (buf : IOBuf) : M World IOBuf :=
  match _block c with
  | Some _ => '(_, buf) ← _pop_front_ref buf; mret buf
  | None => mret buf
  end.

Definition load_next_ref (c : IOBufCutter) (buf : IOBuf) : M World (bool * IOBufCutter * IOBuf) :=
  buf ← pop_current c buf;
  n ← lift (_ref_num buf);
  if n =? 0 then mret (false, null_cutter, buf)
  else
    r ← lift (_front_ref buf);
    b ← deref (ref_block r);
    _ ← block_at b;
    mret (true, mkCutter (ref_offset r) (ref_offset r + ref_length r) (Some b), buf).

(** The loop of slower_copy_to over the references after the first. *)
Fixpoint copy_refs_loop (buf : IOBuf) (k : nat) (i n : Z) (d : list byte) : M World (list byte) :=
  match k with
  | O => mret d
  | S k =>
      r ← lift (_ref_at buf i);
      let nc := Z.min n (ref_length r) in
      s ← read_at r (ref_offset r) nc;
      let n := n - nc in
      if n =? 0 then mret (d ++ s) else copy_refs_loop buf k (i + 1) n (d ++ s)
  end.

(** From `void* const saved_dst = dst' on: the bytes written. *)
Definition copy_whole (c : IOBufCutter) (buf : IOBuf) (n : Z) : M World (list byte) :=
  s ← read_ptr (_block c) (_data c) (left_size c);
  nref ← lift (_ref_num buf);
  copy_refs_loop buf (Z.to_nat (nref - 1)) 1 (n - left_size c) s.

Definition slower_copy_to (c : IOBufCutter) (buf : IOBuf) (n : Z)
    : M World (Z * list byte * IOBufCutter * IOBuf) :=
  if left_size c =? 0 then
    '(ok, c, buf) ← load_next_ref c buf;
    if ok : bool then
      if n <=? left_size c then
        d ← read_ptr (_block c) (_data c) n; mret (n, d, c, buf)
      else d ← copy_whole c buf n; mret (zlen d, d, c, buf)
    else mret (0, [], c, buf)
  else d ← copy_whole c buf n; mret (zlen d, d, c, buf).

(** copy_to(void* out, size_t n): (count, bytes written, this, *_buf). *)
Definition copy_to (c : IOBufCutter) (buf : IOBuf) (n : Z)
    : M World (Z * list byte * IOBufCutter * IOBuf) :=
  if n <=? left_size c then
    d ← read_ptr (_block c) (_data c) n; mret (n, d, c, buf)
  else slower_copy_to c buf n.

(** cutn(IOBuf* out, size_t n): (count, this, *_buf, *out). *)
Definition cutn (c : IOBufCutter) (buf out : IOBuf) (n : Z)
    : M World (Z * IOBufCutter * IOBuf * IOBuf) :=
  if n =? 0 then mret (0, c, buf, out)
  else
    let size := left_size c in
    if n <=? size then
      out ← _push_back_ref (mkRef (u32 (_data c)) (u32 n) (_block c)) out;
      mret (n, mkCutter (_data c + n) (_data_end c) (_block c), buf, out)
    else if negb (size =? 0) then
      out ← _push_back_ref (mkRef (u32 (_data c)) (u32 size) (_block c)) out;
      '(_, buf) ← _pop_front_ref buf;
      '(k, buf, out) ← IOBufOps.cutn buf out (n - size);
      mret (k + size, null_cutter, buf, out)
    else
      buf ← pop_current c buf;
      '(k, buf, out) ← IOBufOps.cutn buf out n;
      mret (k, null_cutter, buf, out).

(** cutn(void* out, size_t n): (count, bytes written, this, *_buf). *)
Definition cutn_void (c : IOBufCutter) (buf : IOBuf) (n : Z)
    : M World (Z * list byte * IOBufCutter * IOBuf) :=
  if n =? 0 then mret (0, [], c, buf)
  else
    let size := left_size c in
    if n <=? size then
      d ← read_ptr (_block c) (_data c) n;
      mret (n, d, mkCutter (_data c + n) (_data_end c) (_block c), buf)
    else if negb (size =? 0) then
      d ← read_ptr (_block c) (_data c) size;
      '(_, buf) ← _pop_front_ref buf;
      '(k, d2, buf) ← IOBufOps.cutn_void buf (n - size);
      mret (k + size, d ++ d2, null_cutter, buf)
    else
      buf ← pop_current c buf;
      '(k, d, buf) ← IOBufOps.cutn_void buf n;
      mret (k, d, null_cutter, buf).

Definition remaining_bytes (c : IOBufCutter) (buf : IOBuf) : M World Z :=
  size ← lift (length buf);
  match _block c with
  | Some _ => fr ← lift (_front_ref buf); mret (u64 (left_size c + size - ref_length fr))
  | None => mret size
  end.

(** cutn(std::string* out, size_t n): (count, *out, this, *_buf). *)
Definition cutn_string (c : IOBufCutter) (buf : IOBuf) (s : list byte) (n : Z)
    : M World (Z * list byte * IOBufCutter * IOBuf) :=
  if n =? 0 then mret (0, s, c, buf)
  else
    len ← remaining_bytes c buf;
    let n := if len <? n then len else n in
    let old_size := zlen s in
    let s := string_resize (old_size + n) s in
    '(k, d, c, buf) ← cutn_void c buf n;
    mret (k, overwrite old_size d s, c, buf).

(** fetch1: the byte at the pointer returned, None for NULL. *)
Definition fetch1 (c : IOBufCutter) (buf : IOBuf) : M World (option byte * IOBufCutter * IOBuf) :=
  '(ok, c, buf) ← if _data c =? _data_end c then load_next_ref c buf else mret (true, c, buf);
  if ok : bool then
    s ← read_ptr (_block c) (_data c) 1; x ← lift (head s); mret (Some x, c, buf)
  else mret (None, c, buf).

Definition cut1 (c : IOBufCutter) (buf : IOBuf) : M World (option byte * IOBufCutter * IOBuf) :=
  '(ok, c, buf) ← if _data c =? _data_end c then load_next_ref c buf else mret (true, c, buf);
  if ok : bool then
    s ← read_ptr (_block c) (_data c) 1; x ← lift (head s);
    mret (Some x, mkCutter (_data c + 1) (_data_end c) (_block c), buf)
  else mret (None, c, buf).

Fixpoint pop_front_loop (fuel : nat) (c : IOBufCutter) (buf : IOBuf) (saved_n n : Z)
    : M World (Z * IOBufCutter * IOBuf) :=
  match fuel with
  | O => undefined
  | S fuel =>
      let size := left_size c in
      if n <=? size then mret (saved_n, mkCutter (_data c + n) (_data_end c) (_block c), buf)
      else
        let n := n - size in
        '(ok, c, buf) ← load_next_ref c buf;
        if ok : bool then pop_front_loop fuel c buf saved_n n else mret (saved_n - n, c, buf)
  end.

Definition pop_front (c : IOBufCutter) (buf : IOBuf) (n : Z) : M World (Z * IOBufCutter * IOBuf) :=
  pop_front_loop (S (ref_fuel buf)) c buf n n.

(** ~IOBufCutter: what it leaves in *_buf; the failed CHECK aborts. *)
Definition destroy (c : IOBufCutter) (buf : IOBuf) : M World IOBuf :=
  match _block c with
  | None => mret buf
  | Some b =>
      if negb (_data c =? _data_end c) then
        fr ← lift (_front_ref buf);
        if bool_decide (ref_block fr = Some b)
        then set_front (mkRef (u32 (_data c)) (u32 (left_size c)) (ref_block fr)) buf
        else undefined
      else '(_, buf) ← _pop_front_ref buf; mret buf
  end.

(** ** What a cutter stands for

    The cutter is in the first reference, or in none; [a] is what it has left of
    it, [l] are the references after it. *)

Inductive in_ref (w : World) : IOBufCutter -> list BlockRef -> list byte -> Prop :=
| in_none : in_ref w null_cutter [] []
| in_some r k : 0 <= k <= ref_length r ->
    in_ref w (mkCutter (ref_offset r + k) (ref_offset r + ref_length r) (ref_block r)) [r]
      (drop (Z.to_nat k) (ref_bytes w r)).

Definition Cut (w : World) (O : list nat) (c : IOBufCutter) (buf : IOBuf) (l : list BlockRef)
    (a : list byte) : Prop :=
  exists cur, in_ref w c cur a /\ Buf w buf (cur ++ l) /\ Inv w (blocks (cur ++ l) ++ O).

Definition cuts (w : World) (O : list nat) (s : list byte) (c : IOBufCutter) (buf : IOBuf)
    (w' : World) : Prop :=
  exists l a, Cut w' O c buf l a /\ w ≼ w' /\ a ++ bytes w' l = s.

Lemma cuts_wle w w1 O s c buf w' : w ≼ w1 -> cuts w1 O s c buf w' -> cuts w O s c buf w'.
Proof. intros H (l & a & HC & Hle & E). exists l, a. split_and!; try done. by etrans. Qed.

(** Of [n] bytes from [k] on in a reference. *)
Lemma read_ptr_spec w r k n :
  ok_ref r -> written w r -> 0 <= k -> 0 <= n -> k + n <= ref_length r ->
  read_ptr (ref_block r) (ref_offset r + k) n w =
    Some (take (Z.to_nat n) (drop (Z.to_nat k) (ref_bytes w r)), w).
Proof.
  intros Or Wr Hk Hn Hle. unfold read_ptr. destruct (Z.eqb_spec n 0) as [->|Hn0]; [done|].
  pose proof (read_at_spec w r (ref_offset r + k) n Or Wr ltac:(lia) Hn ltac:(lia)) as E.
  rewrite Z.add_simpl_l in E. unfold slice in E. rewrite <-E. reflexivity.
Qed.

Lemma in_ref_size w c cur l a buf :
  in_ref w c cur a -> Buf w buf (cur ++ l) -> zlen a = left_size c.
Proof.
  intros [|r k Hk] [HR HW]; [done|]. cbn in HW. apply Forall_cons in HW as [Wr _].
  pose proof (Rep_ok _ _ HR) as [Or _]%Forall_cons.
  unfold left_size. cbn. rewrite zlen_drop, (zlen_ref_bytes w r Or Wr) by (rewrite (zlen_ref_bytes w r Or Wr); lia). lia.
Qed.

Lemma Cut_size w O c buf l a : Cut w O c buf l a -> zlen a = left_size c.
Proof. intros (cur & Hc & HB & _). by eapply in_ref_size. Qed.

(** Reading from the pointer of the cutter. *)
Lemma Cut_read w O c buf l a n :
  Cut w O c buf l a -> 0 <= n <= left_size c ->
  read_ptr (_block c) (_data c) n w = Some (take (Z.to_nat n) a, w).
Proof.
  intros (cur & Hc & HB & _) Hn. destruct Hc as [|r k Hk].
  - unfold left_size in Hn. cbn in Hn. assert (n = 0) as -> by lia. done.
  - destruct HB as [HR HW]. cbn in HW. apply Forall_cons in HW as [Wr _].
    pose proof (Rep_ok _ _ HR) as [Or _]%Forall_cons. unfold left_size in Hn. cbn in *.
    rewrite read_ptr_spec by (done || lia). done.
Qed.

(** Moving the pointer on. *)
Lemma Cut_advance w O c buf l a n :
  Cut w O c buf l a -> 0 <= n <= left_size c ->
  Cut w O (mkCutter (_data c + n) (_data_end c) (_block c)) buf l (drop (Z.to_nat n) a).
Proof.
  intros (cur & Hc & HB & HI) Hn. exists cur. split; [|done]. destruct Hc as [|r k Hk].
  - unfold left_size in Hn. cbn in *. assert (n = 0) as -> by lia. constructor.
  - unfold left_size in Hn. cbn in *. rewrite drop_drop.
    replace (Z.to_nat k + Z.to_nat n)%nat with (Z.to_nat (k + n)) by lia.
    rewrite <-Z.add_assoc. constructor. lia.
Qed.

Lemma pop_current_ok w O c buf l a :
  Cut w O c buf l a ->
  exists buf' w', pop_current c buf w = Some (buf', w') /\ Buf w' buf' l /\
    Inv w' (blocks l ++ O) /\ w ≼ w' /\ bytes w' l = bytes w l.
Proof.
  intros (cur & Hc & HB & HI). unfold pop_current. destruct Hc as [|r k Hk]; cbn.
  - by exists buf, w.
  - pose proof (Rep_ok _ _ (Buf_Rep _ _ _ HB)) as [[[b Eb] _ _ _] _]%Forall_cons.
    destruct (pop_first w buf r l O HB HI) as (buf' & w' & E & HB' & HI' & Hq & Eb').
    rewrite Eb. run. rewrite E. exists buf', w'. split_and!; try done. by apply quiet_wle.
Qed.

(** The same where the source knows that there is a current reference. *)
Lemma pop_nonempty_ok w O c buf l a :
  Cut w O c buf l a -> left_size c <> 0 ->
  exists buf' w', _pop_front_ref buf w = Some ((0, buf'), w') /\ Buf w' buf' l /\
    Inv w' (blocks l ++ O) /\ w ≼ w' /\ bytes w' l = bytes w l.
Proof.
  intros (cur & Hc & HB & HI) Hne. destruct Hc as [|r k Hk]; [done|].
  destruct (pop_first w buf r l O HB HI) as (buf' & w' & E & HB' & HI' & Hq & Eb').
  exists buf', w'. split_and!; try done. by apply quiet_wle.
Qed.

Lemma Cut_none w O buf l : Buf w buf l -> Inv w (blocks l ++ O) -> Cut w O null_cutter buf l [].
Proof. intros HB HI. exists []. split; [constructor|done]. Qed.

(** The next reference: what was left of the current one is gone. *)
Lemma load_next_ref_ok w O c buf l a :
  Cut w O c buf l a ->
  exists ok c' buf' w' l' a', load_next_ref c buf w = Some ((ok, c', buf'), w') /\
    Cut w' O c' buf' l' a' /\ w ≼ w' /\ a' ++ bytes w' l' = bytes w l /\
    match l with
    | [] => ok = false /\ c' = null_cutter
    | _ :: l0 => ok = true /\ l' = l0 /\ 0 < left_size c'
    end.
Proof.
  intros HC. destruct (pop_current_ok w O c buf l a HC) as (buf' & w' & E & HB & HI & Hle & Eb).
  unfold load_next_ref. run. rewrite E. cbn beta iota.
  rewrite (ref_num_spec _ _ (Buf_Rep _ _ _ HB)). cbn beta iota. destruct l as [|r l].
  - cbn. eexists _, _, _, _, [], []. split; [done|]. by split; [apply Cut_none|].
  - rewrite zlen_cons. pose proof (zlen_nonneg l).
    destruct (Z.eqb_spec (1 + zlen l) 0) as [|_]; [lia|].
    rewrite (front_ref_spec _ _ _ (Buf_Rep _ _ _ HB)). cbn beta iota.
    destruct HB as [HR HW]. pose proof (Rep_ok _ _ HR) as [[[b E0] Ho Hl He] _]%Forall_cons.
    pose proof HW as [(b' & x & E0' & Hx & _) _]%Forall_cons.
    unfold deref, block_at. rewrite E0 in *. simplify_eq. run. rewrite Hx. cbn beta iota.
    eexists _, _, _, _, l, _. split; [done|]. split; [|split; [done|split; [|split_and!; try done]]].
    + exists [r]. split; [|done]. rewrite <-E0. rewrite <-(Z.add_0_r (ref_offset r)) at 1.
      constructor. lia.
    + by rewrite <-Eb.
    + unfold left_size. cbn. lia.
Qed.

(** ** Every operation on strings *)

Lemma slice_0_take {A} n (s : list A) : slice 0 n s = take (Z.to_nat n) s.
Proof. done. Qed.

Lemma zlen_take_min (n : Z) (s : list byte) : 0 <= n -> zlen (take (Z.to_nat n) s) = Z.min n (zlen s).
Proof. intros. unfold zlen. rewrite length_take. lia. Qed.

Lemma copy_refs_loop_spec w buf l k i n d :
  Buf w buf l -> (i + k)%nat = List.length l -> 0 <= n ->
  copy_refs_loop buf k (Z.of_nat i) n d w =
    Some (d ++ take (Z.to_nat n) (bytes w (drop i l)), w).
Proof.
  intros HB. revert i n d. induction k as [|k IH]; intros i n d Hk Hn;
    pose proof (walk_cases l _ i Hk) as Hw; cbn [copy_refs_loop].
  - rewrite Hw. cbn. by rewrite take_nil, app_nil_r.
  - destruct Hw as (r & Hr & Hdr & Hk').
    destruct (Buf_at _ _ _ _ _ HB Hr) as (Or & Wr & Ea). pose proof Or as [_ Ho Hl _].
    pose proof (zlen_ref_bytes w r Or Wr) as Zr. rewrite Hdr, bytes_cons.
    run. rewrite Ea. cbn beta iota. rewrite read_at_spec by (done || lia). cbn beta iota.
    rewrite Z.sub_diag, slice_0_take.
    destruct (Z.eqb_spec (n - Z.min n (ref_length r)) 0) as [E|E].
    + rewrite Z.min_l by lia. rewrite take_app_le by (unfold zlen in Zr; lia). done.
    + assert (ref_length r < n) by lia. rewrite (Z.min_r n (ref_length r)) by lia. replace (Z.of_nat i + 1) with (Z.of_nat (S i)) by lia.
      rewrite IH by (done || lia). rewrite <-app_assoc, take_app_ge by (unfold zlen in Zr; lia).
      rewrite (take_ge (ref_bytes w r)) by (unfold zlen in Zr; lia).
      by replace (Z.to_nat (n - ref_length r)) with (Z.to_nat n - List.length (ref_bytes w r))%nat
        by (unfold zlen in Zr; lia).
Qed.

Lemma copy_whole_ok w O c buf l a n :
  Cut w O c buf l a -> 0 < left_size c < n ->
  copy_whole c buf n w = Some (take (Z.to_nat n) (a ++ bytes w l), w).
Proof.
  intros HC Hn. pose proof (Cut_size _ _ _ _ _ _ HC) as Ha.
  unfold copy_whole. run. rewrite (Cut_read _ _ _ _ _ _ _ HC) by lia. cbn beta iota.
  rewrite (take_ge a) by (unfold zlen in Ha; lia).
  destruct HC as (cur & Hc & HB & HI). destruct Hc as [|r k Hk]; [unfold left_size in Hn; cbn in Hn; lia|].
  rewrite (ref_num_spec _ _ (Buf_Rep _ _ _ HB)). cbn beta iota.
  change 1 with (Z.of_nat 1) at 2.
  rewrite (copy_refs_loop_spec w buf _ _ 1 _ _ HB) by (unfold zlen; cbn; lia).
  cbn [drop app]. rewrite take_app_ge by (unfold zlen in Ha; lia).
  do 4 f_equal. unfold zlen in Ha. lia.
Qed.

Lemma cutter_copy_to_ok w O c buf l a n :
  Cut w O c buf l a -> 0 <= n ->
  let s := a ++ bytes w l in
  exists c' buf' w', copy_to c buf n w = Some ((Z.min n (zlen s), take (Z.to_nat n) s, c', buf'), w') /\
    cuts w O s c' buf' w'.
Proof.
  intros HC Hn s. pose proof (Cut_size _ _ _ _ _ _ HC) as Ha. unfold copy_to.
  assert (zlen s = zlen a + zlen (bytes w l)) as Zs by apply zlen_app.
  pose proof (zlen_nonneg (bytes w l)) as Hp. pose proof (zlen_nonneg a) as Hp2.
  assert (cuts w O s c buf w) as Hs by by exists l, a.
  destruct (Z.leb_spec n (left_size c)) as [Hle|Hgt].
  { run. rewrite (Cut_read _ _ _ _ _ _ _ HC) by lia. cbn beta iota. eexists _, _, _. split; [|done].
    rewrite Z.min_l by lia. unfold s. by rewrite take_app_le by (unfold zlen in *; lia). }
  unfold slower_copy_to. destruct (Z.eqb_spec (left_size c) 0) as [E0|E0].
  - destruct (load_next_ref_ok w O c buf l a HC) as (ok & c' & buf' & w' & l' & a' & E & HC' & Hle & Es & Hl).
    run. rewrite E. cbn beta iota. assert (a = []) as -> by (apply zlen_0_inv; lia).
    assert (cuts w O s c' buf' w') as Hs' by by exists l', a'.
    pose proof (Cut_size _ _ _ _ _ _ HC') as Ha'. destruct l as [|r l].
    + destruct Hl as [-> ->]. eexists _, _, _. split; [|done].
      change s with (@nil byte). rewrite take_nil. rewrite Z.min_r by (change (zlen (@nil byte)) with 0; lia). done.
    + destruct Hl as (-> & _ & Hpos). change s with (bytes w (r :: l)) in *. rewrite <-Es.
      rewrite <-Es in Zs, Hs'. rewrite zlen_app in *. pose proof (zlen_nonneg (bytes w' l')).
      destruct (Z.leb_spec n (left_size c')) as [Hle'|Hgt'].
      * run. rewrite (Cut_read _ _ _ _ _ _ _ HC') by lia. cbn beta iota. eexists _, _, _. split; [|done].
        rewrite Z.min_l by lia. by rewrite take_app_le by (unfold zlen in *; lia).
      * run. rewrite (copy_whole_ok _ _ _ _ _ _ _ HC') by lia. cbn beta iota.
        eexists _, _, _. split; [|done]. rewrite zlen_take_min, zlen_app by lia. done.
  - run. rewrite (copy_whole_ok _ _ _ _ _ _ _ HC) by lia. cbn beta iota. fold s.
    eexists _, _, _. split; [|done]. rewrite zlen_take_min by lia. done.
Qed.

(** *** Cutting *)

(** Cutting the rest from the IOBuf, the current reference being popped. *)
Lemma cutn_void_rest w w1 O c l a n buf1 :
  zlen a = left_size c -> left_size c < n -> Buf w1 buf1 l -> Inv w1 (blocks l ++ O) -> w ≼ w1 ->
  bytes w1 l = bytes w l ->
  exists buf2 w2,
    IOBufOps.cutn_void buf1 (n - left_size c) w1 =
      Some ((Z.min (n - left_size c) (zlen (bytes w l)),
             take (Z.to_nat (n - left_size c)) (bytes w l), buf2), w2) /\
    take (Z.to_nat n) (a ++ bytes w l) = a ++ take (Z.to_nat (n - left_size c)) (bytes w l) /\
    cuts w O (drop (Z.to_nat n) (a ++ bytes w l)) null_cutter buf2 w2.
Proof.
  intros Ha Hn HB1 HI1 Hle1 Eb1. pose proof (zlen_nonneg a).
  assert (Z.to_nat n - List.length a = Z.to_nat (n - left_size c))%nat as El
    by (unfold zlen in *; lia).
  destruct (IOBufOps.cutn_void_ok w1 (n - left_size c) buf1 l O HB1 HI1)
    as (buf2 & w2 & -> & l2 & HB2 & HI2 & Hle2 & Eb2); [lia|].
  exists buf2, w2. rewrite <-Eb1, (Buf_len _ _ _ HB1). split; [done|].
  rewrite take_app_ge, drop_app_ge, El by (unfold zlen in *; lia). split; [done|].
  exists l2, []. split; [by apply Cut_none|]. split; [by etrans|done].
Qed.

Lemma cutter_cutn_void_ok w O c buf l a n :
  Cut w O c buf l a -> 0 <= n ->
  let s := a ++ bytes w l in
  exists c' buf' w', cutn_void c buf n w = Some ((Z.min n (zlen s), take (Z.to_nat n) s, c', buf'), w') /\
    cuts w O (drop (Z.to_nat n) s) c' buf' w'.
Proof.
  intros HC Hn s. pose proof (Cut_size _ _ _ _ _ _ HC) as Ha. unfold cutn_void.
  assert (zlen s = zlen a + zlen (bytes w l)) as Zs by apply zlen_app.
  pose proof (zlen_nonneg (bytes w l)) as Hp. pose proof (zlen_nonneg a) as Hp2.
  destruct (Z.eqb_spec n 0) as [->|Hn0].
  { eexists _, _, _. split; [rewrite Z.min_l by lia; done|]. by exists l, a. }
  destruct (Z.leb_spec n (left_size c)) as [Hle|Hgt].
  { run. rewrite (Cut_read _ _ _ _ _ _ _ HC) by lia. cbn beta iota. eexists _, _, _. split.
    - rewrite Z.min_l by lia. unfold s. by rewrite take_app_le by (unfold zlen in *; lia).
    - exists l, (drop (Z.to_nat n) a). split; [apply (Cut_advance _ _ _ _ _ _ _ HC); lia|].
      split; [done|]. unfold s. by rewrite drop_app_le by (unfold zlen in *; lia). }
  destruct (Z.eqb_spec (left_size c) 0) as [E0|E0]; cbn [negb]; run.
  - destruct (pop_current_ok w O c buf l a HC) as (buf1 & w1 & -> & HB1 & HI1 & Hle1 & Eb1).
    destruct (cutn_void_rest w w1 O c l a n buf1 Ha ltac:(lia) HB1 HI1 Hle1 Eb1)
      as (buf2 & w2 & E2 & Et & Hs). cbn beta iota. rewrite E0, Z.sub_0_r in *. rewrite E2.
    cbn beta iota. eexists _, _, _. split; [|exact Hs]. unfold s. rewrite Et.
    by assert (a = []) as -> by (apply zlen_0_inv; lia).
  - rewrite (Cut_read _ _ _ _ _ _ _ HC) by lia. cbn beta iota.
    rewrite (take_ge a) by (unfold zlen in Ha; lia).
    destruct (pop_nonempty_ok w O c buf l a HC E0) as (buf1 & w1 & -> & HB1 & HI1 & Hle1 & Eb1).
    destruct (cutn_void_rest w w1 O c l a n buf1 Ha ltac:(lia) HB1 HI1 Hle1 Eb1)
      as (buf2 & w2 & E2 & Et & Hs). cbn beta iota. rewrite E2.
    cbn beta iota. eexists _, _, _. split; [|exact Hs]. rewrite Zs. unfold s. rewrite Et.
    by replace (Z.min (n - left_size c) (zlen (bytes w l)) + left_size c)
      with (Z.min n (zlen a + zlen (bytes w l))) by lia.
Qed.

(** *** Cutting into another IOBuf, which may share blocks *)

Definition cuts2 (w : World) (O : list nat) (s o : list byte) (c : IOBufCutter) (buf out : IOBuf)
    (w' : World) : Prop :=
  exists l a l2, Cut w' (blocks l2 ++ O) c buf l a /\ Buf w' out l2 /\ w ≼ w' /\
    a ++ bytes w' l = s /\ bytes w' l2 = o.

Lemma Cut_inv w O c buf l a : Cut w O c buf l a -> exists A, Inv w (A ++ O).
Proof. intros (cur & _ & _ & HI). by eexists. Qed.

(** A reference queue that a step on another one leaves alone. *)
Lemma Buf_keep w w' A A' O out l2 :
  Inv w (A ++ blocks l2 ++ O) -> w ≼ w' -> Inv w' (A' ++ blocks l2 ++ O) -> Buf w out l2 ->
  Buf w' out l2 /\ bytes w' l2 = bytes w l2.
Proof.
  intros HI Hle HI' HB. eapply Buf_frame; try done. intros b Hb. by apply app_sub_l.
Qed.

Lemma cuts_cuts2 w O s c buf l a c' buf' out l2 w' :
  Cut w (blocks l2 ++ O) c buf l a -> Buf w out l2 -> cuts w (blocks l2 ++ O) s c' buf' w' ->
  cuts2 w O s (bytes w l2) c' buf' out w'.
Proof.
  intros [A HI]%Cut_inv HB (l' & a' & HC' & Hle & E). pose proof HC' as [A' HI']%Cut_inv.
  destruct (Buf_keep w w' A A' O out l2) as [HB' E']; try done. by exists l', a', l2.
Qed.

(** Two queues that share blocks: [n] bytes of a reference of the one, from its
    [k]-th on, are pushed to the other. *)
Lemma push_part w O buf l out l2 r k n :
  Buf w buf l -> Buf w out l2 -> Inv w (blocks l ++ blocks l2 ++ O) -> r ∈ l ->
  0 <= k -> 0 < n -> k + n <= ref_length r -> total l2 + n < 2 ^ 31 ->
  exists out' l2' w',
    _push_back_ref (mkRef (u32 (ref_offset r + k)) (u32 n) (ref_block r)) out w = Some (out', w') /\
    Buf w' out' l2' /\ Inv w' (blocks l ++ blocks l2' ++ O) /\ w ≼ w' /\
    bytes w' l2' = bytes w l2 ++ take (Z.to_nat n) (drop (Z.to_nat k) (ref_bytes w r)) /\
    Buf w' buf l /\ (forall r, r ∈ l -> ref_bytes w' r = ref_bytes w r).
Proof.
  intros HB HB2 HI Hr Hk Hn Hkn Ht. pose proof HB as [HR HW]. pose proof (Rep_ok _ _ HR) as Hok.
  pose proof (proj1 (Forall_forall _ _) HW r Hr) as Wr.
  pose proof (proj1 (Forall_forall _ _) Hok r Hr) as Or. pose proof Or as [[b Eb] Ho Hl He].
  destruct (cut_ref_bytes w k r Or Wr) as [Wc Ebc]; [lia|].
  assert (ok_ref (cut_ref k r)) as Oc by (apply cut_ref_ok; [done|lia]).
  destruct (keep_ref_bytes w n (cut_ref k r) Oc Wc) as [Wk Ebk]; [cbn; lia|].
  assert (ok_ref (keep_ref n (cut_ref k r))) as Ok by (apply keep_ref_ok; [done|cbn; lia]).
  assert (mkRef (u32 (ref_offset r + k)) (u32 n) (ref_block r) = keep_ref n (cut_ref k r)) as ->
    by (by rewrite !wrapu_small by lia).
  assert (b ∈ blocks l) as Hbl by (apply list_elem_of_omap; by exists r).
  destruct (push_ok false w out l2 (keep_ref n (cut_ref k r)) b (blocks l ++ O))
    as (out' & l2' & w' & E & HB2' & HI' & Hq & Eb2); try done.
  { split; [by apply swap_owned|]. destruct (Inv_live w _ b HI) as (x & Hx & _); [|by eexists].
    apply elem_of_app. by left. }
  pose proof (quiet_wle _ _ Hq) as Hle. apply swap_owned in HI'.
  assert (forall b', b' ∈ blocks l -> b' ∈ blocks l ++ blocks l2' ++ O) as Hsub
    by (intros; apply elem_of_app; by left).
  destruct (Buf_frame w w' _ _ buf l HI Hle HI' Hsub HB) as [HB' _].
  exists out', l2', w'. split_and!; try done; [by rewrite Eb2, Ebk, Ebc|].
  intros r' Hr'. destruct (refs_frame w w' _ _ [r'] HI Hle HI') as [_ E'].
  - intros b' Hb'. apply Hsub. apply list_elem_of_omap in Hb' as (x & Hx & Ex).
    apply list_elem_of_singleton in Hx as ->. apply list_elem_of_omap. by exists r'.
  - constructor; [|done]. by apply (proj1 (Forall_forall _ _) Hok).
  - constructor; [|done]. by apply (proj1 (Forall_forall _ _) HW).
  - unfold bytes in E'. cbn in E'. by rewrite !app_nil_r in E'.
Qed.

Lemma bytes_same w w' l :
  (forall r, r ∈ l -> ref_bytes w' r = ref_bytes w r) -> bytes w' l = bytes w l.
Proof.
  intros Hr. unfold bytes. f_equal. apply list_fmap_ext. intros i x Hx. apply Hr.
  by eapply list_elem_of_lookup_2.
Qed.

(** The reference to the next [n] bytes. *)
Lemma Cut_push w O c buf l a out l2 n :
  Cut w (blocks l2 ++ O) c buf l a -> Buf w out l2 -> 0 < n <= left_size c ->
  total l2 + n < 2 ^ 31 ->
  exists out' l2' w',
    _push_back_ref (mkRef (u32 (_data c)) (u32 n) (_block c)) out w = Some (out', w') /\
    Buf w' out' l2' /\ Cut w' (blocks l2' ++ O) c buf l a /\ w ≼ w' /\
    bytes w' l2' = bytes w l2 ++ take (Z.to_nat n) a /\ bytes w' l = bytes w l.
Proof.
  intros (cur & Hc & HB & HI) HB2 Hn Ht. destruct Hc as [|r k Hk].
  { unfold left_size in Hn. cbn in Hn. lia. }
  unfold left_size in Hn. cbn [_data _data_end _block] in *.
  destruct (push_part w O buf ([r] ++ l) out l2 r k n HB HB2 HI)
    as (out' & l2' & w' & E & HB2' & HI' & Hle & Eb2 & HB' & Hr'); [by left|lia..|].
  exists out', l2', w'. split; [exact E|]. split; [done|]. split.
  { exists [r]. split; [|done]. rewrite <-(Hr' r) by by left. by constructor. }
  split; [done|]. split; [done|]. apply bytes_same. intros r0 H0. apply Hr'. by right.
Qed.

Lemma cutn_rest w w1 O c l a n buf1 out l2 o :
  zlen a = left_size c -> left_size c < n -> Buf w1 buf1 l -> Buf w1 out l2 ->
  Inv w1 (blocks l ++ blocks l2 ++ O) -> w ≼ w1 -> bytes w1 l = bytes w l ->
  bytes w1 l2 = o ++ a -> zlen o + zlen (a ++ bytes w l) < 2 ^ 31 ->
  exists buf2 out2 w2,
    IOBufOps.cutn buf1 out (n - left_size c) w1 =
      Some ((Z.min (n - left_size c) (zlen (bytes w l)), buf2, out2), w2) /\
    cuts2 w O (drop (Z.to_nat n) (a ++ bytes w l)) (o ++ take (Z.to_nat n) (a ++ bytes w l))
      null_cutter buf2 out2 w2.
Proof.
  intros Ha Hn HB1 HB2 HI1 Hle1 Eb1 Eb2 Ht. pose proof (zlen_nonneg a).
  assert (Z.to_nat n - List.length a = Z.to_nat (n - left_size c))%nat as El
    by (unfold zlen in *; lia).
  rewrite zlen_app in Ht. pose proof (Buf_len _ _ _ HB1) as L1. pose proof (Buf_len _ _ _ HB2) as L2.
  rewrite Eb1 in L1. rewrite Eb2, zlen_app in L2.
  destruct (IOBufOps.cutn_ok w1 (n - left_size c) buf1 out l l2 O HB1 HB2 HI1)
    as (buf2 & out2 & w2 & -> & l3 & l4 & HB3 & HB4 & HI2 & Hle2 & Eb3 & Eb4); [lia|lia|].
  exists buf2, out2, w2. rewrite L1. split; [done|].
  exists l3, [], l4. split; [by apply Cut_none|]. split; [done|]. split; [by etrans|].
  rewrite take_app_ge, drop_app_ge, El by (unfold zlen in *; lia).
  by rewrite Eb3, Eb4, Eb1, Eb2, app_assoc.
Qed.

Lemma cutter_cutn_ok w O c buf l a out l2 n :
  Cut w (blocks l2 ++ O) c buf l a -> Buf w out l2 -> 0 <= n ->
  let s := a ++ bytes w l in
  zlen (bytes w l2) + zlen s < 2 ^ 31 ->
  exists c' buf' out' w', cutn c buf out n w = Some ((Z.min n (zlen s), c', buf', out'), w') /\
    cuts2 w O (drop (Z.to_nat n) s) (bytes w l2 ++ take (Z.to_nat n) s) c' buf' out' w'.
Proof.
  intros HC HB2 Hn s Ht. pose proof (Cut_size _ _ _ _ _ _ HC) as Ha. unfold cutn.
  assert (zlen s = zlen a + zlen (bytes w l)) as Zs by apply zlen_app.
  pose proof (zlen_nonneg (bytes w l)) as Hp. pose proof (zlen_nonneg a) as Hp2.
  rewrite (Buf_len _ _ _ HB2) in Ht.
  destruct (Z.eqb_spec n 0) as [->|Hn0].
  { eexists _, _, _, _. split; [rewrite Z.min_l by lia; done|].
    exists l, a, l2. cbn. by rewrite app_nil_r. }
  destruct (Z.leb_spec n (left_size c)) as [Hle|Hgt].
  { destruct (Cut_push w O c buf l a out l2 n HC HB2 ltac:(lia) ltac:(lia))
      as (out' & l2' & w' & E & HB2' & HC' & Hle' & Eb2 & Ebl).
    run. rewrite E. cbn beta iota. eexists _, _, _, _. split; [by rewrite Z.min_l by lia|].
    exists l, (drop (Z.to_nat n) a), l2'. split; [apply (Cut_advance _ _ _ _ _ _ _ HC'); lia|].
    split; [done|]. split; [done|]. unfold s.
    by rewrite drop_app_le, take_app_le, Ebl by (unfold zlen in *; lia). }
  destruct (Z.eqb_spec (left_size c) 0) as [E0|E0]; cbn [negb]; run.
  - destruct (pop_current_ok w _ c buf l a HC) as (buf1 & w1 & -> & HB1 & HI1 & Hle1 & Eb1).
    assert (a = []) as -> by (apply zlen_0_inv; lia).
    pose proof HC as [A HI]%Cut_inv.
    destruct (Buf_keep w w1 A (blocks l) O out l2) as [HB2' Eb2]; try done.
    destruct (cutn_rest w w1 O c l [] n buf1 out l2 (bytes w l2)) as (buf2 & out2 & w2 & E2 & Hs);
      try done; [by rewrite app_nil_r|by rewrite (Buf_len _ _ _ HB2)|].
    cbn beta iota. rewrite E0, Z.sub_0_r in *. rewrite E2. cbn beta iota.
    eexists _, _, _, _. by split.
  - destruct (Cut_push w O c buf l a out l2 (left_size c) HC HB2 ltac:(lia) ltac:(lia))
      as (out' & l2' & w' & -> & HB2' & HC' & Hle' & Eb2 & Ebl). cbn beta iota.
    rewrite (take_ge a) in Eb2 by (unfold zlen in Ha; lia).
    destruct (pop_nonempty_ok w' _ c buf l a HC' E0) as (buf1 & w1 & -> & HB1 & HI1 & Hle1 & Eb1).
    pose proof HC' as [A HI]%Cut_inv.
    destruct (Buf_keep w' w1 A (blocks l) O out' l2') as [HB2'' Eb2']; try done.
    destruct (cutn_rest w w1 O c l a n buf1 out' l2' (bytes w l2)) as (buf2 & out2 & w2 & E2 & Hs);
      try done; [by etrans|congruence|congruence|by rewrite (Buf_len _ _ _ HB2)|].
    cbn beta iota. rewrite E2. cbn beta iota. eexists _, _, _, _. split; [|exact Hs].
    rewrite Zs. by replace (Z.min (n - left_size c) (zlen (bytes w l)) + left_size c)
      with (Z.min n (zlen a + zlen (bytes w l))) by lia.
Qed.

(** *** Single bytes, skipping, the rest *)

Lemma remaining_bytes_ok w O c buf l a :
  Cut w O c buf l a -> remaining_bytes c buf w = Some (zlen (a ++ bytes w l), w).
Proof.
  intros HC. pose proof (Cut_size _ _ _ _ _ _ HC) as Ha. destruct HC as (cur & Hc & HB & HI).
  unfold remaining_bytes. run. rewrite (length_spec _ _ (Buf_Rep _ _ _ HB)). cbn beta iota.
  destruct Hc as [|r k Hk]; cbn [_block app].
  - cbn [app] in HB. by rewrite (Buf_len _ _ _ HB).
  - pose proof HB as [HR [Wr Wl]%Forall_cons]. pose proof HR as [_ [Or Ol]%Forall_cons Ht].
    pose proof Or as [[b ->] Ho Hl He]. rewrite (front_ref_spec _ _ _ HR). cbn beta iota.
    rewrite zlen_app, Ha, (zlen_bytes w l) by done. cbn [total app] in *. unfold left_size in *.
    cbn in *. pose proof (total_length _ Ol). pose proof (zlen_nonneg l).
    rewrite wrapu_small by lia. do 2 f_equal. lia.
Qed.

(** if (_data == _data_end) load_next_ref() *)
Lemma refresh_ok w O c buf l a :
  Cut w O c buf l a ->
  let s := a ++ bytes w l in
  exists ok c' buf' w' l' a',
    (if _data c =? _data_end c then load_next_ref c buf else mret (true, c, buf)) w
      = Some ((ok, c', buf'), w') /\
    Cut w' O c' buf' l' a' /\ w ≼ w' /\ a' ++ bytes w' l' = s /\
    (if ok then exists x a0, a' = x :: a0 else s = []).
Proof.
  intros HC s. pose proof (Cut_size _ _ _ _ _ _ HC) as Ha.
  destruct (Z.eqb_spec (_data c) (_data_end c)) as [E|E].
  - assert (a = []) as -> by (apply zlen_0_inv; unfold left_size in Ha; lia).
    destruct (load_next_ref_ok w O c buf l [] HC) as (ok & c' & buf' & w' & l' & a' & El & HC' & Hle & Es & Hl).
    exists ok, c', buf', w', l', a'. split_and!; try done. destruct l as [|r l].
    + by destruct Hl as [-> _].
    + destruct Hl as (-> & _ & Hpos). pose proof (Cut_size _ _ _ _ _ _ HC') as Ha'.
      destruct a' as [|x a']; [change (zlen (@nil byte)) with 0 in Ha'; lia|]. by exists x, a'.
  - exists true, c, buf, w, l, a. split_and!; try done. unfold left_size in Ha.
    destruct a as [|x a]; [change (zlen (@nil byte)) with 0 in Ha; lia|]. by exists x, a.
Qed.

Lemma fetch1_ok w O c buf l a :
  Cut w O c buf l a ->
  let s := a ++ bytes w l in
  exists c' buf' w', fetch1 c buf w = Some ((head s, c', buf'), w') /\ cuts w O s c' buf' w'.
Proof.
  intros HC s. destruct (refresh_ok w O c buf l a HC)
    as (ok & c' & buf' & w' & l' & a' & E & HC' & Hle & Es & Hok).
  fold s in Es, Hok. unfold fetch1. run_in E. run. rewrite E. cbn beta iota. exists c', buf', w'. destruct ok.
  - destruct Hok as (x & a0 & ->). pose proof (Cut_size _ _ _ _ _ _ HC') as Ha'.
    rewrite zlen_cons in Ha'. pose proof (zlen_nonneg a0).
    rewrite (Cut_read _ _ _ _ _ _ 1 HC') by lia. cbn. rewrite <-Es. split; [done|].
    by exists l', (x :: a0).
  - rewrite Hok. split; [done|]. rewrite Hok in Es. by exists l', a'.
Qed.

Lemma cutter_cut1_ok w O c buf l a :
  Cut w O c buf l a ->
  let s := a ++ bytes w l in
  exists c' buf' w', cut1 c buf w = Some ((head s, c', buf'), w') /\ cuts w O (tail s) c' buf' w'.
Proof.
  intros HC s. destruct (refresh_ok w O c buf l a HC)
    as (ok & c' & buf' & w' & l' & a' & E & HC' & Hle & Es & Hok).
  fold s in Es, Hok. unfold cut1. run_in E. run. rewrite E. cbn beta iota. destruct ok.
  - destruct Hok as (x & a0 & ->). pose proof (Cut_size _ _ _ _ _ _ HC') as Ha'.
    rewrite zlen_cons in Ha'. pose proof (zlen_nonneg a0).
    rewrite (Cut_read _ _ _ _ _ _ 1 HC') by lia. cbn. rewrite <-Es.
    eexists _, _, _. split; [done|]. exists l', a0.
    split; [apply (Cut_advance _ _ _ _ _ _ 1 HC'); lia|done].
  - eexists _, _, _. rewrite Hok. split; [done|]. rewrite Hok in Es. by exists l', a'.
Qed.

Lemma pop_front_loop_ok fuel w O c buf l a sn n :
  Cut w O c buf l a -> 0 <= n -> (List.length l < fuel)%nat ->
  let s := a ++ bytes w l in
  exists c' buf' w', pop_front_loop fuel c buf sn n w
      = Some ((sn - n + Z.min n (zlen s), c', buf'), w') /\
    cuts w O (drop (Z.to_nat n) s) c' buf' w'.
Proof.
  revert w c buf l a n. induction fuel as [|fuel IH]; intros w c buf l a n HC Hn Hf s; [lia|].
  pose proof (Cut_size _ _ _ _ _ _ HC) as Ha. cbn [pop_front_loop].
  assert (zlen s = zlen a + zlen (bytes w l)) as Zs by apply zlen_app.
  pose proof (zlen_nonneg (bytes w l)). pose proof (zlen_nonneg a).
  destruct (Z.leb_spec n (left_size c)) as [Hle|Hgt].
  { eexists _, _, _. split.
    { rewrite Z.min_l by lia. by replace (sn - n + n) with sn by lia. }
    exists l, (drop (Z.to_nat n) a). split; [apply (Cut_advance _ _ _ _ _ _ _ HC); lia|].
    split; [done|]. unfold s. by rewrite drop_app_le by (unfold zlen in *; lia). }
  destruct (load_next_ref_ok w O c buf l a HC) as (ok & c' & buf' & w' & l' & a' & E & HC' & Hle & Es & Hl).
  assert (drop (Z.to_nat n) s = drop (Z.to_nat (n - left_size c)) (bytes w l)) as Ed.
  { unfold s. rewrite drop_app_ge by (unfold zlen in *; lia). f_equal. unfold zlen in *. lia. }
  run. rewrite E. cbn beta iota. destruct l as [|r l].
  - destruct Hl as [-> ->]. change (bytes w []) with (@nil byte) in *.
    change (zlen (@nil byte)) with 0 in *. eexists _, _, _. split.
    { rewrite Z.min_r by lia. by replace (sn - (n - left_size c)) with (sn - n + zlen s) by lia. }
    exists l', a'. split_and!; try done. by rewrite Es, Ed, drop_nil.
  - destruct Hl as (-> & -> & _).
    destruct (IH w' c' buf' l a' (n - left_size c)) as (c2 & buf2 & w2 & E2 & Hc2);
      [done|lia|cbn in Hf; lia|]. rewrite Es in E2, Hc2. rewrite E2.
    eexists _, _, _. split; [|rewrite Ed; by eapply cuts_wle].
    by replace (sn - (n - left_size c) + Z.min (n - left_size c) (zlen (bytes w (r :: l))))
      with (sn - n + Z.min n (zlen s)) by lia.
Qed.

Lemma cutter_pop_front_ok w O c buf l a n :
  Cut w O c buf l a -> 0 <= n ->
  let s := a ++ bytes w l in
  exists c' buf' w', pop_front c buf n w = Some ((Z.min n (zlen s), c', buf'), w') /\
    cuts w O (drop (Z.to_nat n) s) c' buf' w'.
Proof.
  intros HC Hn s. pose proof HC as (cur & Hc & HB & HI). unfold pop_front.
  rewrite (ref_fuel_spec _ _ (Buf_Rep _ _ _ HB)).
  destruct (pop_front_loop_ok (S (S (List.length (cur ++ l)))) w O c buf l a n n HC Hn)
    as (c' & buf' & w' & -> & H); [rewrite length_app; lia|].
  rewrite Z.sub_diag, Z.add_0_l. by eexists _, _, _.
Qed.

Lemma cutn_string_ok w O c buf l a d n :
  Cut w O c buf l a -> 0 <= n ->
  let s := a ++ bytes w l in
  exists c' buf' w', cutn_string c buf d n w
      = Some ((Z.min n (zlen s), d ++ take (Z.to_nat n) s, c', buf'), w') /\
    cuts w O (drop (Z.to_nat n) s) c' buf' w'.
Proof.
  intros HC Hn s. unfold cutn_string. destruct (Z.eqb_spec n 0) as [->|Hn0].
  { pose proof (zlen_nonneg s). rewrite Z.min_l by lia. eexists _, _, _.
    cbn [Z.to_nat take]. rewrite app_nil_r. split; [done|]. by exists l, a. }
  run. rewrite (remaining_bytes_ok _ _ _ _ _ _ HC). cbn beta iota. fold s.
  assert ((if zlen s <? n then zlen s else n) = Z.min n (zlen s)) as -> by (destruct (Z.ltb_spec (zlen s) n); lia).
  pose proof (zlen_nonneg s).
  destruct (cutter_cutn_void_ok w O c buf l a (Z.min n (zlen s)) HC) as (c' & buf' & w' & -> & Hc'); [lia|].
  cbn beta iota. fold s in Hc' |- *.
  rewrite (Z.min_l (Z.min n (zlen s)) (zlen s)) by lia.
  assert (take (Z.to_nat (Z.min n (zlen s))) s = take (Z.to_nat n) s) as Et.
  { destruct (Z.min_spec n (zlen s)) as [[? ->]|[? ->]]; [done|].
    rewrite !take_ge by (unfold zlen in *; lia). done. }
  assert (drop (Z.to_nat (Z.min n (zlen s))) s = drop (Z.to_nat n) s) as Ed.
  { destruct (Z.min_spec n (zlen s)) as [[? ->]|[? ->]]; [done|].
    rewrite !drop_ge by (unfold zlen in *; lia). done. }
  rewrite Ed in Hc'. eexists _, _, _. split; [|exact Hc']. rewrite Et. do 4 f_equal.
  unfold string_resize, overwrite, zlen in *. rewrite Nat2Z.id.
  rewrite (take_ge d) by lia. rewrite take_app_length.
  rewrite (drop_ge (_ ++ _)); [by rewrite app_nil_r|].
  rewrite length_app, length_replicate, length_take. lia.
Qed.

(** *** The destructor

    It does not adjust [nbytes], which a big IOBuf keeps of its own. *)

Definition set_nbytes (n : Z) (buf : IOBuf) : IOBuf :=
  match buf with
  | SV _ _ => buf
  | BV v => BV (mkBV (magic v) (start v) (refs v) (nref v) (cap_mask v) n)
  end.

(** [buf] holds [s] up to [nbytes], which is too large by [m]. *)
Definition overcounts (w : World) (O : list nat) (s : list byte) (m : Z) (buf : IOBuf) (w' : World) : Prop :=
  becomes w O s (set_nbytes (zlen s) buf) w' /\ length buf = Some (zlen s + m) /\
  (if _small buf then m = 0 else 0 <= m).

Lemma overcounts_0 w O s buf w' : becomes w O s buf w' -> overcounts w O s 0 buf w'.
Proof.
  intros (l & HB & HI & Hle & <-). pose proof HB as [HR HW].
  assert (set_nbytes (zlen (bytes w' l)) buf = buf) as Es.
  { destruct buf as [|v]; [done|]. destruct HR as [Hr _ _]. inversion Hr; subst. cbn.
    rewrite (Buf_len _ _ _ HB). destruct v. cbn in *. by subst. }
  unfold overcounts. rewrite Es. split; [by exists l|]. split; [|by destruct (_small buf)].
  rewrite (length_spec _ _ HR), (Buf_len _ _ _ HB). f_equal. lia.
Qed.

Lemma set_front_cut k r l buf w :
  Rep buf (r :: l) -> 0 <= k < ref_length r ->
  let l' := cut_ref k r :: l in
  exists buf1, set_front (cut_ref k r) buf w = Some (buf1, w) /\
    Rep (set_nbytes (total l') buf1) l' /\
    length buf1 = Some (total l' + if _small buf1 then 0 else k).
Proof.
  intros H Hk l'. pose proof H as [Hrep [Or Ol]%Forall_cons Ht].
  pose proof (cut_ref_ok k r Or Hk) as Oc. unfold set_front. destruct buf as [r0 r1|v].
  - rewrite (small_SV _ _ _ H). cbn [_sv]. run.
    assert (Rep (SV (cut_ref k r) r1) l') as H'.
    { split; [inversion Hrep; subst; constructor|by constructor|cbn in *; lia]. }
    eexists. split; [done|]. split; [done|].
    rewrite (length_spec _ _ H'), (small_SV _ _ _ H'). by rewrite Z.add_0_r.
  - rewrite (small_BV _ _ H). cbn [_bv]. run.
    destruct (Rep_update_front v r l (cut_ref k r) k) as [H' Hix]; try done; [lia|].
    rewrite set_ref_lookup by done. cbn beta iota. eexists. split; [done|].
    pose proof H' as [Hr' _ _]. inversion Hr' as [| | |v0 l0 j ? ? ? ? ? ? ? Hnb]; subst. cbn in Hnb.
    cbn [set_nbytes magic start refs nref cap_mask]. unfold l'. rewrite Hnb in H'. split; [exact H'|].
    assert (_small (BV (mkBV (magic v) (start v) (<[Z.to_nat (start v):=cut_ref k r]> (refs v))
        (nref v) (cap_mask v) (nbytes v))) = false) as Es by exact (small_BV _ _ H).
    unfold length. rewrite Es. cbn. destruct (big_inv v _ H) as (? & _ & _ & _ & _ & _ & _ & _ & _ & E & _).
    rewrite E. cbn. f_equal. lia.
Qed.

Lemma cutter_destroy_ok w O c buf l a :
  Cut w O c buf l a ->
  exists buf' m w', destroy c buf w = Some (buf', w') /\ overcounts w O (a ++ bytes w l) m buf' w'.
Proof.
  intros HC. pose proof (Cut_size _ _ _ _ _ _ HC) as Ha. unfold left_size in Ha.
  unfold destroy. destruct (_block c) as [b|] eqn:Eb.
  2:{ exists buf, 0, w. split; [done|]. apply overcounts_0. destruct HC as (cur & Hc & HB & HI).
      destruct Hc as [|r k Hk]; [by exists l|]. cbn in Eb.
      pose proof (Rep_ok _ _ (Buf_Rep _ _ _ HB)) as [[[b E0] _ _ _] _]%Forall_cons. congruence. }
  destruct (Z.eqb_spec (_data c) (_data_end c)) as [E|E]; cbn [negb].
  - assert (a = []) as -> by (apply zlen_0_inv; lia).
    destruct (pop_current_ok w O c buf l [] HC) as (buf' & w' & E1 & HB1 & HI1 & Hle1 & Eb1).
    unfold pop_current in E1. rewrite Eb in E1. rewrite E1. eexists _, 0, _. split; [done|].
    apply overcounts_0. by exists l.
  - destruct HC as (cur & Hc & HB & HI). destruct Hc as [|r k Hk]; [done|].
    cbn [_data _data_end _block] in *. unfold left_size. cbn [_data _data_end].
    pose proof HB as [HR HW]. cbn [app] in *. pose proof HW as [Wr Wl]%Forall_cons.
    pose proof (Rep_ok _ _ HR) as [Or Ol]%Forall_cons. pose proof Or as [_ Ho Hl He].
    rewrite (front_ref_spec _ _ _ HR). run. rewrite bool_decide_true by done.
    assert (mkRef (u32 (ref_offset r + k)) (u32 (ref_offset r + ref_length r - (ref_offset r + k)))
      (ref_block r) = cut_ref k r) as ->
      by (rewrite !wrapu_small by lia; unfold cut_ref; f_equal; lia).
    destruct (set_front_cut k r l buf w HR) as (buf1 & -> & HR1 & El); [lia|].
    destruct (cut_ref_bytes w k r Or Wr) as [Wc Ec]; [lia|].
    assert (Forall (written w) (cut_ref k r :: l)) as HW1 by by constructor.
    assert (drop (Z.to_nat k) (ref_bytes w r) ++ bytes w l = bytes w (cut_ref k r :: l)) as ->
      by by rewrite bytes_cons, Ec.
    pose proof (zlen_bytes w _ (Rep_ok _ _ HR1) HW1) as Ez.
    eexists buf1, (if _small buf1 then 0 else k), w. split; [done|]. unfold overcounts. rewrite Ez.
    split; [|split; [done|destruct (_small buf1); lia]].
    exists (cut_ref k r :: l). split; [by split|]. split; [exact HI|]. done.
Qed.

(** ** Programs *)

Inductive cutter_call :=
| k_cutn (n : Z)
| k_cutn_void (n : Z)
| k_cutn_string (d : list byte) (n : Z)
| k_copy_to (n : Z)
| k_cut1
| k_fetch1
| k_pop_front (n : Z)
| k_remaining_bytes.

Definition cutter_exec (x : cutter_call) (c : IOBufCutter) (buf out : IOBuf)
    : M World (value * IOBufCutter * IOBuf * IOBuf) :=
  match x with
  | k_cutn n => '(k, c, buf, out) ← cutn c buf out n; mret (v_int k, c, buf, out)
  | k_cutn_void n => '(k, d, c, buf) ← cutn_void c buf n; mret (v_bytes k d, c, buf, out)
  | k_cutn_string d n => '(k, d, c, buf) ← cutn_string c buf d n; mret (v_bytes k d, c, buf, out)
  | k_copy_to n => '(k, d, c, buf) ← copy_to c buf n; mret (v_bytes k d, c, buf, out)
  | k_cut1 => '(x, c, buf) ← cut1 c buf; mret (v_byte x, c, buf, out)
  | k_fetch1 => '(x, c, buf) ← fetch1 c buf; mret (v_byte x, c, buf, out)
  | k_pop_front n => '(k, c, buf) ← pop_front c buf n; mret (v_int k, c, buf, out)
  | k_remaining_bytes => k ← remaining_bytes c buf; mret (v_int k, c, buf, out)
  end.

Fixpoint cutter_loop (xs : list cutter_call) (c : IOBufCutter) (buf out : IOBuf)
    : M World (list value * IOBufCutter * IOBuf * IOBuf) :=
  match xs with
  | [] => mret ([], c, buf, out)
  | x :: xs =>
      '(v, c, buf, out) ← cutter_exec x c buf out;
      '(vs, c, buf, out) ← cutter_loop xs c buf out;
      mret (v :: vs, c, buf, out)
  end.

(** A cutter of [buf] from its constructor to its destructor. *)
Definition cutter_program (xs : list cutter_call) (buf out : IOBuf)
    : M World (list value * IOBuf * IOBuf) :=
  '(vs, c, buf, out) ← cutter_loop xs null_cutter buf out;
  buf ← destroy c buf;
  mret (vs, buf, out).

(** The same on strings. *)
Definition cutter_spec (x : cutter_call) (s o : list byte) : value * list byte * list byte :=
  let first n := take (Z.to_nat n) s in
  let rest n := drop (Z.to_nat n) s in
  let count n := Z.min n (zlen s) in
  match x with
  | k_cutn n => (v_int (count n), rest n, o ++ first n)
  | k_cutn_void n => (v_bytes (count n) (first n), rest n, o)
  | k_cutn_string d n => (v_bytes (count n) (d ++ first n), rest n, o)
  | k_copy_to n => (v_bytes (count n) (first n), s, o)
  | k_cut1 => (v_byte (head s), tail s, o)
  | k_fetch1 => (v_byte (head s), s, o)
  | k_pop_front n => (v_int (count n), rest n, o)
  | k_remaining_bytes => (v_int (zlen s), s, o)
  end.

Fixpoint cutter_specs (xs : list cutter_call) (s o : list byte)
    : list value * list byte * list byte :=
  match xs with
  | [] => ([], s, o)
  | x :: xs =>
      let '(v, s, o) := cutter_spec x s o in
      let '(vs, s, o) := cutter_specs xs s o in
      (v :: vs, s, o)
  end.

Definition cutter_pre (x : cutter_call) : Prop :=
  match x with
  | k_cutn n | k_cutn_void n | k_cutn_string _ n | k_copy_to n | k_pop_front n => 0 <= n
  | k_cut1 | k_fetch1 | k_remaining_bytes => True
  end.

(** No call makes the two strings longer together. *)
Lemma cutter_spec_len x s o v s' o' :
  cutter_spec x s o = (v, s', o') -> zlen o' + zlen s' <= zlen o + zlen s.
Proof.
  intros E. destruct x; injection E as <- <- <-; unfold zlen;
    rewrite ?length_app, ?length_take, ?length_drop; try lia.
  destruct s; cbn; lia.
Qed.

Lemma cutter_exec_ok x w O c buf l a out l2 :
  Cut w (blocks l2 ++ O) c buf l a -> Buf w out l2 -> cutter_pre x ->
  let s := a ++ bytes w l in
  let o := bytes w l2 in
  zlen o + zlen s < bound ->
  exists v c' buf' out' w' s' o', cutter_exec x c buf out w = Some ((v, c', buf', out'), w') /\
    cutter_spec x s o = (v, s', o') /\ cuts2 w O s' o' c' buf' out' w'.
Proof.
  intros HC HB2 Hp s o Hb.
  pose proof (fun s' c' buf' w' => cuts_cuts2 w O s' c buf l a c' buf' out l2 w' HC HB2) as H2.
  destruct x; cbn in Hp; cbn [cutter_exec cutter_spec]; run.
  - destruct (cutter_cutn_ok w O c buf l a out l2 n HC HB2 Hp Hb) as (c' & b' & o' & w' & E & H).
    rewrite E. by eexists _, _, _, _, _, _, _.
  - destruct (cutter_cutn_void_ok w _ c buf l a n HC Hp) as (c' & b' & w' & E & H).
    rewrite E. eexists _, _, _, _, _, _, _. split; [done|]. split; [done|]. by apply H2.
  - destruct (cutn_string_ok w _ c buf l a d n HC Hp) as (c' & b' & w' & E & H).
    rewrite E. eexists _, _, _, _, _, _, _. split; [done|]. split; [done|]. by apply H2.
  - destruct (cutter_copy_to_ok w _ c buf l a n HC Hp) as (c' & b' & w' & E & H).
    rewrite E. eexists _, _, _, _, _, _, _. split; [done|]. split; [done|]. by apply H2.
  - destruct (cutter_cut1_ok w _ c buf l a HC) as (c' & b' & w' & E & H).
    rewrite E. eexists _, _, _, _, _, _, _. split; [done|]. split; [done|]. by apply H2.
  - destruct (fetch1_ok w _ c buf l a HC) as (c' & b' & w' & E & H).
    rewrite E. eexists _, _, _, _, _, _, _. split; [done|]. split; [done|]. by apply H2.
  - destruct (cutter_pop_front_ok w _ c buf l a n HC Hp) as (c' & b' & w' & E & H).
    rewrite E. eexists _, _, _, _, _, _, _. split; [done|]. split; [done|]. by apply H2.
  - rewrite (remaining_bytes_ok _ _ _ _ _ _ HC). eexists _, _, _, _, _, _, _.
    split; [done|]. split; [done|]. apply H2. by exists l, a.
Qed.

Lemma cuts2_wle w w1 O s o c buf out w' : w ≼ w1 -> cuts2 w1 O s o c buf out w' -> cuts2 w O s o c buf out w'.
Proof. intros H (l & a & l2 & HC & HB & Hle & E). exists l, a, l2. split_and!; try apply E; try done. by etrans. Qed.

Lemma cutter_loop_ok xs w O c buf l a out l2 :
  Cut w (blocks l2 ++ O) c buf l a -> Buf w out l2 -> Forall cutter_pre xs ->
  let s := a ++ bytes w l in
  let o := bytes w l2 in
  zlen o + zlen s < bound ->
  exists vs c' buf' out' w' s' o', cutter_loop xs c buf out w = Some ((vs, c', buf', out'), w') /\
    cutter_specs xs s o = (vs, s', o') /\ cuts2 w O s' o' c' buf' out' w'.
Proof.
  revert w c buf l a out l2. induction xs as [|x xs IH]; intros w c buf l a out l2 HC HB2 Hp s o Hb.
  - eexists _, _, _, _, _, _, _. split; [done|]. split; [done|]. by exists l, a, l2.
  - apply Forall_cons in Hp as [Hx Hp]. cbn [cutter_loop cutter_specs].
    destruct (cutter_exec_ok x w O c buf l a out l2 HC HB2 Hx Hb)
      as (v & c1 & b1 & o1 & w1 & s1 & t1 & E & Es & H1). fold s o in Es.
    run. rewrite E, Es. cbn beta iota. pose proof (cutter_spec_len _ _ _ _ _ _ Es) as Hlen.
    destruct H1 as (l1 & a1 & l21 & HC1 & HB1 & Hle1 & <- & <-).
    destruct (IH w1 c1 b1 l1 a1 o1 l21 HC1 HB1 Hp) as (vs & c2 & b2 & o2 & w2 & s2 & t2 & E2 & Es2 & H2);
      [fold s o in Hlen; lia|].
    rewrite E2, Es2. eexists _, _, _, _, _, _, _. split; [done|]. split; [done|]. by eapply cuts2_wle.
Qed.

(** C13. A program of an IOBufCutter, from its constructor to its destructor, on
    one IOBuf into another one with which it may share blocks, runs without
    undefined behaviour, returns what the same program on the two strings
    returns, and leaves them holding those strings, the other IOBufs being as
    they were; except that nbytes of a big source may be too large. *)
Theorem cutter_refines_string xs w bufs ss i j buf out s o :
  Holds w bufs ss -> i <> j -> bufs !! i = Some buf -> bufs !! j = Some out ->
  ss !! i = Some s -> ss !! j = Some o -> zlen o + zlen s < bound -> Forall cutter_pre xs ->
  exists vs buf' out' m w' s' o', cutter_program xs buf out w = Some ((vs, buf', out'), w') /\
    cutter_specs xs s o = (vs, s', o') /\
    length buf' = Some (zlen s' + m) /\ (if _small buf' then m = 0 else 0 <= m) /\
    Holds w' (<[i := set_nbytes (zlen s') buf']> (<[j := out']> bufs)) (<[i := s']> (<[j := o']> ss)).
Proof.
  intros HH Hij Hb1 Hb2 Hs1 Hs2 Hb Hp.
  destruct (Holds_2 w bufs ss i j buf out s o HH Hij Hb1 Hb2 Hs1 Hs2)
    as (l1 & l2 & O & HB1 & HB2 & <- & <- & HI & Hk).
  pose proof (Cut_none w _ buf l1 HB1 HI) as HC.
  destruct (cutter_loop_ok xs w O null_cutter buf l1 [] out l2 HC HB2 Hp Hb)
    as (vs & c' & b' & o' & w' & s' & t' & E & Es & l1' & a' & l2' & HC' & HB' & Hle & <- & <-).
  destruct (cutter_destroy_ok w' _ c' b' l1' a' HC') as (b2 & m & w2 & E2 & Hov).
  destruct Hov as ((l3 & HB3 & HI3 & Hle3 & Eb3) & El & Hm).
  pose proof HC' as [A HI']%Cut_inv.
  destruct (Buf_keep w' w2 A (blocks l3) O o' l2') as [HB4 Eb4]; try done.
  unfold cutter_program. run. rewrite E. cbn beta iota. rewrite E2. cbn beta iota.
  eexists _, _, _, _, _, _, _. split; [done|]. split; [exact Es|]. split; [exact El|]. split; [exact Hm|].
  apply Hk. exists l3, l2'. split_and!; try done. by etrans.
Qed.
Theorem cutter_refines_string_witness :
  exists w b, Holds w [b; new_IOBuf] [[x61; x62; x63]; []] /\
    exists buf' out' w', cutter_program [k_cut1; k_cutn 1; k_remaining_bytes] b new_IOBuf w
      = Some (([v_byte (Some x61); v_int 1; v_int 1], buf', out'), w') /\
      Holds w' [set_nbytes 1 buf'; out'] [[x63]; [x62]].
Proof.
  destruct (@exec_ok malloc_zero (On1 0 (c_append [x61; x62; x63])) init_world [new_IOBuf; new_IOBuf]
    [[]; []] (Holds_new 2)) as (v & bufs & w & ss & E & HH & s & s' & Hs & -> & Ha).
  { by exists []. }
  destruct Ha as [[_ ->]|(_ & _ & n & Hn)]; [|done]. injection Hs as <-. cbn in HH.
  vm_compute in E. injection E as <- <- <-. eexists _, _. split; [exact HH|].
  destruct (cutter_refines_string [k_cut1; k_cutn 1; k_remaining_bytes] _ _ _ 0 1 _ _ _ _ HH
    ltac:(done) eq_refl eq_refl eq_refl eq_refl ltac:(done) ltac:(by repeat constructor))
    as (vs & buf' & out' & m & w' & s' & o' & E & Es & _ & _ & HH').
  injection Es as <- <- <-. eexists _, _, _. split; [exact E|exact HH'].
Defined.

(** The loop of IOBuf::cutn on an IOBuf whose references have run out. *)
Lemma cutn_loop_runs_on fuel n out w :
  0 < n < 2 ^ 64 -> cutn_loop fuel n new_IOBuf out w = None.
Proof.
  intros Hn. revert out w. induction fuel as [|fuel IH]; intros out w; [done|].
  cbn [cutn_loop]. destruct (Z.eqb_spec n 0); [lia|].
  change (_front_ref new_IOBuf) with (Some null_ref). run. cbn [ref_length null_ref].
  destruct (Z.leb_spec 0 n); [|lia]. destruct (_move_back_ref null_ref out w) as [[out' w']|]; [|done].
  cbn. rewrite Z.sub_0_r, wrapu_small by lia. apply IH.
Qed.

(** Two programs that the header allows and that go wrong.  A cutter that is
    destroyed inside of the first of three references leaves an IOBuf of five
    bytes with length() = 6; when cutn() is asked for those 6, it runs out of
    references, and from there its loop goes on for ever.  When the source is appended to during cutting and the
    bytes continue the current reference, they are not cut but dropped. *)
Theorem cutter_edges :
  (forall fuel n out w, 0 < n < 2 ^ 64 -> cutn_loop fuel n new_IOBuf out w = None) /\
  (match @exec_all malloc_zero
      [On1 0 (c_append_user_data [x61; x62] None 0); On1 0 (c_append_user_data [x63; x64] None 0);
       On1 0 (c_append_user_data [x65; x66] None 0)] [new_IOBuf] init_world with
   | Some ((_, [b]), w) =>
       match cutter_program [k_cut1] b new_IOBuf w with
       | Some ((vs, b, _), w) =>
           vs = [v_byte (Some x61)] /\ length b = Some 6 /\
           IOBufOps.copy_to b 6 0 w = Some ((5, [x62; x63; x64; x65; x66]), w) /\
           IOBufOps.cutn b new_IOBuf 6 w = None
       | None => False
       end
   | _ => False
   end) /\
  (match ('(_, b) ← @append malloc_zero (Some [x61; x62]) new_IOBuf;
          '(x, c, b) ← cut1 null_cutter b;
          '(_, b) ← @append malloc_zero (Some [x63; x64]) b;
          '(vs, c, b, _) ← cutter_loop [k_remaining_bytes; k_cut1; k_cut1] c b new_IOBuf;
          mret (vs, length b)) init_world with
   | Some ((vs, len), _) => vs = [v_int 1; v_byte (Some x62); v_byte None] /\ len = Some 0
   | None => False
   end).
Proof. split; [exact cutn_loop_runs_on|]. split; vm_compute; done. Qed.
Theorem cutter_edges_witness : cutn_loop 9 1 new_IOBuf new_IOBuf init_world = None.
Proof. by apply (proj1 cutter_edges). Defined.

End IOBufCutter.
