(* ===== verification/IOBufReaders.v ===== *)
(** * IOBufReaders: streams and iterators over an IOBuf

    utility/iobuf.cc, iobuf_inl.h and iobuf.h: [IOBufAsZeroCopyInputStream], a
    position in an IOBuf that moves by whole references; [IOBufAsSnappySource],
    which reads through such a stream; [IOBufBytesIterator], which walks over the
    bytes.  None of them changes the IOBuf, which must not change while they are
    used: an operation takes the reader and the IOBuf and returns the reader.

    [in_at st l p]: the stream [st] is at the [p]-th byte of the references [l].
    [it_at w l it t]: the iterator [it] has the string [t] before it.  A program
    of calls of both on one IOBuf refines a position and a suffix of its string
    ([readers_refine_string]). *)

From S2P Require Import Prelude IOBlock IOBufRef IOBufOps IOBufSpec IOBufCutter.
Import IOBlock IOBufRef IOBufOps IOBufSpec IOBufCutter(read_ptr, read_ptr_spec, bytes_same, push_part).

Module InputStream.

Record IOBufAsZeroCopyInputStream := mkIn {
  _ref_index : Z;
  _add_offset : Z;
  _byte_count : Z }.

Definition new_input_stream : IOBufAsZeroCopyInputStream := mkIn 0 0 0.

(** Next: the bytes at [*data], [*size] of them, or None for false. *)
Definition Next (st : IOBufAsZeroCopyInputStream) (buf : IOBuf)
    : M World (option (list byte) * IOBufAsZeroCopyInputStream) :=
  cur_ref ← lift (_pref_at buf (_ref_index st));
  match cur_ref with
  | None => mret (None, st)
  | Some r =>
      let size := u32 (ref_length r - _add_offset st) in
      d ← read_ptr (ref_block r) (ref_offset r + _add_offset st) (i32 size);
      mret (Some d, mkIn (i32 (_ref_index st + 1)) 0 (i64 (_byte_count st + size)))
  end.

(** A failed CHECK and LOG(FATAL) abort. *)
Definition BackUp (count : Z) (st : IOBufAsZeroCopyInputStream) (buf : IOBuf)
    : M World IOBufAsZeroCopyInputStream :=
  if 0 <? _ref_index st then
    cur_ref ← lift (_pref_at buf (_ref_index st - 1));
    r ← lift cur_ref;
    if (_add_offset st =? 0) && (u32 count <=? ref_length r) then
      mret (mkIn (_ref_index st - 1) (i32 (u32 (ref_length r - count))) (i64 (_byte_count st - count)))
    else undefined
  else undefined.

Fixpoint skip_loop (fuel : nat) (count : Z) (st : IOBufAsZeroCopyInputStream) (buf : IOBuf)
    : M World (bool * IOBufAsZeroCopyInputStream) :=
  match fuel with
  | O => undefined
  | S fuel =>
      cur_ref ← lift (_pref_at buf (_ref_index st));
      match cur_ref with
      | None => mret (false, st)
      | Some r =>
          let left_bytes := i32 (u32 (ref_length r - _add_offset st)) in
          if count <? left_bytes then
            mret (true, mkIn (_ref_index st) (i32 (_add_offset st + count)) (i64 (_byte_count st + count)))
          else
            skip_loop fuel (i32 (count - left_bytes))
              (mkIn (i32 (_ref_index st + 1)) 0 (i64 (_byte_count st + left_bytes))) buf
      end
  end.

Definition Skip (count : Z) (st : IOBufAsZeroCopyInputStream) (buf : IOBuf)
    : M World (bool * IOBufAsZeroCopyInputStream) := skip_loop (ref_fuel buf) count st buf.

Definition ByteCount (st : IOBufAsZeroCopyInputStream) : Z := _byte_count st.

(** IOBufAsSnappySource: [_stream] is the stream. *)
Definition Available (st : IOBufAsZeroCopyInputStream) (buf : IOBuf) : M World Z :=
  len ← lift (length buf); mret (u64 (len - ByteCount st)).

(** Peek: the bytes at the pointer returned, None for NULL. *)
Definition Peek (st : IOBufAsZeroCopyInputStream) (buf : IOBuf)
    : M World (option (list byte) * IOBufAsZeroCopyInputStream) :=
  '(d, st) ← Next st buf;
  match d with
  | Some d => st ← BackUp (zlen d) st buf; mret (Some d, st)
  | None => mret (None, st)
  end.

(** ** The position of a stream *)

Record in_at (st : IOBufAsZeroCopyInputStream) (l : list BlockRef) (i : nat) (p : Z) : Prop := mkInAt {
  in_index : _ref_index st = Z.of_nat i;
  in_range : (i <= List.length l)%nat;
  in_count : _byte_count st = p;
  in_pos : total (take i l) + _add_offset st = p;
  in_add : 0 <= _add_offset st;
  in_ref_add : forall r, l !! i = Some r -> _add_offset st <= ref_length r;
  in_end : l !! i = None -> _add_offset st = 0 }.

Lemma in_at_pos_nonneg st l i p : in_at st l i p -> Forall ok_ref l -> 0 <= p.
Proof.
  intros [_ _ _ Ep Ha _ _] Hok. pose proof (total_length (take i l) ltac:(by apply Forall_take)).
  pose proof (zlen_nonneg (take i l)). lia.
Qed.

Lemma pref_at_spec w buf l i :
  Buf w buf l -> _pref_at buf (Z.of_nat i) = Some (l !! i).
Proof.
  intros HB. unfold _pref_at. rewrite (ref_num_spec _ _ (Buf_Rep _ _ _ HB)). cbn.
  destruct (l !! i) as [r|] eqn:E.
  - destruct (Buf_at _ _ _ _ _ HB E) as (_ & _ & ->). apply lookup_lt_Some in E.
    unfold zlen. destruct (Z.ltb_spec (Z.of_nat i) (Z.of_nat (List.length l))); [done|lia].
  - apply lookup_ge_None in E. unfold zlen.
    by destruct (Z.ltb_spec (Z.of_nat i) (Z.of_nat (List.length l))); [lia|].
Qed.

Lemma total_take_drop i (l : list BlockRef) r :
  l !! i = Some r -> total (take (S i) l) = total (take i l) + ref_length r.
Proof.
  intros E. rewrite (take_S_r _ _ _ E), total_app. cbn. lia.
Qed.

Lemma total_take_le w buf l i :
  Buf w buf l -> 0 <= total (take i l) <= total l /\ total l < 2 ^ 31 /\ zlen l <= total l.
Proof.
  intros [[_ Hok Ht] _]. pose proof (total_length _ Hok) as H1.
  rewrite <-(take_drop i l) in Hok. apply Forall_app in Hok as [Ht1 Ht2].
  apply total_length in Ht1, Ht2. pose proof (zlen_nonneg (take i l)). pose proof (zlen_nonneg (drop i l)).
  pose proof (total_app (take i l) (drop i l)) as E. rewrite take_drop in E. lia.
Qed.

(** The bytes of the reference [i] from the byte [a] of it on, in the string. *)
Lemma ref_slice w buf l i r a n :
  Buf w buf l -> l !! i = Some r -> 0 <= a -> 0 <= n -> a + n <= ref_length r ->
  slice (total (take i l) + a) n (bytes w l) = take (Z.to_nat n) (drop (Z.to_nat a) (ref_bytes w r)).
Proof.
  intros HB E Ha Hn Hle. destruct (Buf_at _ _ _ _ _ HB E) as (Or & Wr & _).
  pose proof (zlen_ref_bytes w r Or Wr) as Zr. pose proof HB as [[_ Hok _] HW].
  rewrite <-(take_drop_middle _ _ _ E) at 2. rewrite bytes_app, bytes_cons.
  assert (zlen (bytes w (take i l)) = total (take i l)) as Zt
    by (apply zlen_bytes; by apply Forall_take).
  pose proof (zlen_nonneg (bytes w (take i l))).
  unfold slice. rewrite drop_app_ge by (unfold zlen in *; lia).
  replace (Z.to_nat (total (take i l) + a) - List.length (bytes w (take i l)))%nat with (Z.to_nat a)
    by (unfold zlen in *; lia).
  rewrite drop_app_le by (unfold zlen in *; lia).
  by rewrite take_app_le by (rewrite length_drop; unfold zlen in *; lia).
Qed.

Lemma in_at_range w buf l st i p : Buf w buf l -> in_at st l i p -> 0 <= p <= zlen (bytes w l).
Proof.
  intros HB Hst. pose proof (in_at_pos_nonneg _ _ _ _ Hst (Rep_ok _ _ (Buf_Rep _ _ _ HB))).
  destruct Hst as [_ Hr _ Ep Ha Hra He]. rewrite (Buf_len _ _ _ HB).
  destruct (l !! i) as [r|] eqn:E.
  - specialize (Hra r eq_refl). pose proof (total_take_drop _ _ _ E).
    destruct (total_take_le w buf l (S i) HB) as (? & _). lia.
  - specialize (He eq_refl). destruct (total_take_le w buf l i HB) as (? & _). lia.
Qed.

(** What Next does: the rest of a reference, if there is one. *)
Lemma Next_ok w buf l st i p :
  Buf w buf l -> in_at st l i p ->
  match l !! i with
  | None => Next st buf w = Some ((None, st), w) /\ p = zlen (bytes w l)
  | Some r =>
      let n := ref_length r - _add_offset st in
      exists d st', Next st buf w = Some ((Some d, st'), w) /\
        in_at st' l (S i) (p + n) /\ _add_offset st' = 0 /\ zlen d = n /\ d = slice p n (bytes w l)
  end.
Proof.
  intros HB [Ei Hr Ec Ep Ha Hra He]. unfold Next. rewrite Ei, (pref_at_spec w buf l i HB). run.
  destruct (total_take_le w buf l i HB) as (Ht & Hb & Hl).
  destruct (l !! i) as [r|] eqn:E.
  - destruct (Buf_at _ _ _ _ _ HB E) as (Or & Wr & _). pose proof (zlen_ref_bytes w r Or Wr) as Zr.
    specialize (Hra r eq_refl). destruct Or as [Hob Ho Hlr Hoe].
    pose proof (total_take_drop _ _ _ E) as ET. destruct (total_take_le w buf l (S i) HB) as (Ht' & _ & _).
    rewrite wrapu_small, i32_small by lia.
    rewrite read_ptr_spec by (try done; lia). cbn beta iota. cbn zeta.
    rewrite (take_ge (drop _ _)) by (rewrite length_drop; unfold zlen in Zr; lia).
    eexists _, _. split; [done|]. apply lookup_lt_Some in E as Hlt. unfold zlen in Hl.
    split; [|split; [done|split]].
    + rewrite i32_small, i64_small by lia. split; cbn; try lia.
      intros r' Hr'. destruct (Buf_at _ _ _ _ _ HB Hr') as ([_ _ ? _] & _). lia.
    + rewrite zlen_drop; lia.
    + rewrite <-Ep, (ref_slice w buf l i r (_add_offset st)) by (done || lia).
      by rewrite take_ge by (rewrite length_drop; unfold zlen in Zr; lia).
  - split; [done|]. rewrite (He eq_refl) in Ep. apply lookup_ge_None in E.
    rewrite (Buf_len _ _ _ HB). rewrite take_ge in Ep by lia. lia.
Qed.

(** BackUp after a Next, by at most what that returned. *)
Lemma BackUp_ok w buf l st i p r count :
  Buf w buf l -> in_at st l (S i) p -> _add_offset st = 0 -> l !! i = Some r ->
  0 <= count <= ref_length r ->
  exists st', BackUp count st buf w = Some (st', w) /\ in_at st' l i (p - count) /\
    _add_offset st' = ref_length r - count.
Proof.
  intros HB [Ei Hr Ec Ep Ha Hra He] E0 E Hc. unfold BackUp. rewrite Ei.
  replace (Z.of_nat (S i) - 1) with (Z.of_nat i) by lia.
  destruct (Z.ltb_spec 0 (Z.of_nat (S i))); [|lia]. rewrite (pref_at_spec w buf l i HB), E. run.
  destruct (Buf_at _ _ _ _ _ HB E) as ([_ Ho Hl Hoe] & _ & _).
  rewrite E0, (wrapu_small 32 count) by lia. cbn [Z.eqb andb].
  destruct (Z.leb_spec count (ref_length r)); [|lia].
  rewrite wrapu_small, i32_small by lia. eexists. split; [done|].
  destruct (total_take_le w buf l (S i) HB) as (Ht & Hb & _).
  pose proof (total_take_drop _ _ _ E) as ET. apply lookup_lt_Some in E as Hlt.
  destruct (total_take_le w buf l i HB) as (Ht' & _ & _).
  rewrite i64_small by lia. split; [|done]. split; cbn; try lia.
  - intros r' Hr'. assert (r' = r) as -> by congruence. lia.
  - intros H'. rewrite H' in E. done.
Qed.

Lemma Peek_ok w buf l st i p :
  Buf w buf l -> in_at st l i p ->
  exists d, Peek st buf w = Some ((d, st), w) /\
    match d with
    | None => p = zlen (bytes w l)
    | Some d => d = slice p (zlen d) (bytes w l) /\
        exists r, l !! i = Some r /\ zlen d = ref_length r - _add_offset st
    end.
Proof.
  intros HB Hst. unfold Peek. pose proof (Next_ok w buf l st i p HB Hst) as HN. run.
  destruct (l !! i) as [r|] eqn:E.
  - destruct HN as (d & st' & -> & Hst' & E0 & Zd & Ed). cbn beta iota.
    destruct (Buf_at _ _ _ _ _ HB E) as ([_ Ho Hl Hoe] & _ & _).
    pose proof (in_add _ _ _ _ Hst). pose proof (in_ref_add _ _ _ _ Hst r E).
    destruct (BackUp_ok w buf l st' i _ r (zlen d) HB Hst' E0 E) as (st2 & -> & Hst2 & Ea); [lia|].
    assert (st2 = st) as ->.
    { destruct st, st2, Hst2, Hst. cbn in *. subst. f_equal; lia. }
    eexists. split; [done|]. split; [by rewrite Zd|]. by exists r.
  - destruct HN as [-> Hp]. by exists None.
Qed.

Lemma skip_loop_ok fuel w buf l st i p count :
  Buf w buf l -> in_at st l i p -> 0 <= count < 2 ^ 31 -> (List.length l - i < fuel)%nat ->
  exists st' j, skip_loop fuel count st buf w
      = Some ((p + count <? zlen (bytes w l), st'), w) /\
    in_at st' l j (Z.min (p + count) (zlen (bytes w l))) /\
    (forall r, l !! j = Some r -> _add_offset st' < ref_length r).
Proof.
  intros HB. revert st i p count. induction fuel as [|fuel IH]; intros st i p count Hst Hc Hf; [lia|].
  pose proof Hst as [Ei Hr Ec Ep Ha Hra He]. cbn [skip_loop]. rewrite Ei, (pref_at_spec w buf l i HB). run.
  destruct (total_take_le w buf l i HB) as (Ht & Hb & Hl). rewrite (Buf_len _ _ _ HB).
  destruct (l !! i) as [r|] eqn:E.
  - destruct (Buf_at _ _ _ _ _ HB E) as ([_ Ho Hlr Hoe] & _ & _).
    specialize (Hra r eq_refl). pose proof (total_take_drop _ _ _ E) as ET.
    destruct (total_take_le w buf l (S i) HB) as (Ht' & _ & _).
    apply lookup_lt_Some in E as Hlt. unfold zlen in Hl.
    rewrite wrapu_small, i32_small by lia.
    destruct (Z.ltb_spec count (ref_length r - _add_offset st)) as [Hlt'|Hge].
    + rewrite i32_small, i64_small by lia. exists (mkIn (_ref_index st) (_add_offset st + count) (_byte_count st + count)), i.
      rewrite Z.min_l by lia. split; [|split].
      * destruct (Z.ltb_spec (p + count) (total l)); [by rewrite Ei|lia].
      * split; cbn; try lia; [|by rewrite E]. intros r' Hr'. assert (r' = r) as -> by congruence. lia.
      * cbn. intros r' Hr'. assert (r' = r) as -> by congruence. lia.
    + rewrite !i32_small, i64_small by lia.
      destruct (IH (mkIn (Z.of_nat i + 1) 0 (_byte_count st + (ref_length r - _add_offset st))) (S i)
        (p + (ref_length r - _add_offset st)) (count - (ref_length r - _add_offset st)))
        as (st' & j & E' & Hst' & Hadd).
      { split; cbn; try lia. intros r' Hr'. destruct (Buf_at _ _ _ _ _ HB Hr') as ([_ _ ? _] & _). lia. }
      { lia. } { lia. }
      rewrite E'. rewrite (Buf_len _ _ _ HB) in *.
      replace (p + (ref_length r - _add_offset st) + (count - (ref_length r - _add_offset st)))
        with (p + count) in * by lia. by exists st', j.
  - rewrite (He eq_refl) in Ep. apply lookup_ge_None in E. rewrite take_ge in Ep by lia.
    exists st, i. rewrite Z.min_r by lia. destruct (Z.ltb_spec (p + count) (total l)); [lia|].
    split; [done|]. assert (total l = p) as -> by lia. split; [done|].
    intros r Hr'. apply lookup_lt_Some in Hr'. lia.
Qed.

Lemma Skip_ok w buf l st i p count :
  Buf w buf l -> in_at st l i p -> 0 <= count < 2 ^ 31 ->
  exists st' j, Skip count st buf w = Some ((p + count <? zlen (bytes w l), st'), w) /\
    in_at st' l j (Z.min (p + count) (zlen (bytes w l))) /\
    (forall r, l !! j = Some r -> _add_offset st' < ref_length r).
Proof.
  intros HB Hst Hc. unfold Skip. rewrite (ref_fuel_spec _ _ (Buf_Rep _ _ _ HB)).
  apply (skip_loop_ok _ w buf l st i p count HB Hst Hc). lia.
Qed.

End InputStream.

Module BytesIterator.

(** [_block_begin] and [_block_end] as offsets in the memory of the block [it_block]. *)
Record IOBufBytesIterator := mkIt {
  it_block : option nat;
  _block_begin : Z;
  _block_end : Z;
  _block_count : Z;
  _bytes_left : Z }.

(** backing_block(i): the pointer and the size of the StringPiece. *)
Definition backing_ref (buf : IOBuf) (i : Z) : M World BlockRef :=
  n ← lift (_ref_num buf);
  if i <? n then
    r ← lift (_ref_at buf i); b ← deref (ref_block r); _ ← block_at b; mret r
  else mret null_ref.

Definition try_next_block (it : IOBufBytesIterator) (buf : IOBuf) : M World IOBufBytesIterator :=
  if _bytes_left it =? 0 then mret it
  else
    s ← backing_ref buf (_block_count it);
    mret (mkIt (ref_block s) (ref_offset s) (ref_offset s + Z.min (ref_length s) (_bytes_left it))
            (u32 (_block_count it + 1)) (_bytes_left it)).

(** IOBufBytesIterator(const IOBuf& buf) *)
Definition new_iterator (buf : IOBuf) : M World IOBufBytesIterator :=
  len ← lift (length buf); try_next_block (mkIt None 0 0 0 (u32 len)) buf.

(** IOBufBytesIterator(const IOBufBytesIterator& it, size_t bytes_left) *)
Definition limit (it : IOBufBytesIterator) (bytes_left : Z) : IOBufBytesIterator :=
  let n := u32 bytes_left in
  mkIt (it_block it) (_block_begin it)
    (if _block_begin it + n <? _block_end it then _block_begin it + n else _block_end it)
    (_block_count it) n.

(** operator* *)
Definition value_at (it : IOBufBytesIterator) : M World byte :=
  s ← read_ptr (it_block it) (_block_begin it) 1; lift (head s).

(** _block_begin += k; _bytes_left -= k;
    if (_block_begin == _block_end) try_next_block(); *)
Definition advance (it : IOBufBytesIterator) (k : Z) (buf : IOBuf) : M World IOBufBytesIterator :=
  let it := mkIt (it_block it) (_block_begin it + k) (_block_end it) (_block_count it)
              (u32 (_bytes_left it - k)) in
  if _block_begin it =? _block_end it then try_next_block it buf else mret it.

(** operator++ *)
Definition next_byte (it : IOBufBytesIterator) (buf : IOBuf) : M World IOBufBytesIterator :=
  advance it 1 buf.

(** The loop that copy_and_forward, forward and append_and_forward share: [use]
    is what each does with the next [to_copy] bytes. *)
Fixpoint forward_loop {A} (use : A -> IOBufBytesIterator -> Z -> M World A) (fuel : nat)
    (it : IOBufBytesIterator) (buf : IOBuf) (n nc : Z) (acc : A)
    : M World (Z * A * IOBufBytesIterator) :=
  match fuel with
  | O => undefined
  | S fuel =>
      if (nc <? n) && negb (_bytes_left it =? 0) then
        let block_size := _block_end it - _block_begin it in
        let to_copy := Z.min block_size (n - nc) in
        acc ← use acc it to_copy;
        it ← advance it to_copy buf;
        forward_loop use fuel it buf n (nc + to_copy) acc
      else mret (nc, acc, it)
  end.

Definition copy_and_forward (it : IOBufBytesIterator) (buf : IOBuf) (n : Z)
    : M World (Z * list byte * IOBufBytesIterator) :=
  forward_loop (fun d it k => s ← read_ptr (it_block it) (_block_begin it) k; mret (d ++ s))
    (S (ref_fuel buf)) it buf n 0 [].

Definition forward (it : IOBufBytesIterator) (buf : IOBuf) (n : Z) : M World (Z * IOBufBytesIterator) :=
  '(nc, _, it) ← forward_loop (fun _ _ _ => mret ()) (S (ref_fuel buf)) it buf n 0 ();
  mret (nc, it).

Definition append_and_forward (it : IOBufBytesIterator) (buf out : IOBuf) (n : Z)
    : M World (Z * IOBuf * IOBufBytesIterator) :=
  forward_loop
    (fun out it k =>
       r ← lift (_ref_at buf (u32 (_block_count it - 1)));
       _push_back_ref (mkRef (u32 (_block_begin it)) (u32 k) (ref_block r)) out)
    (S (ref_fuel buf)) it buf n 0 out.

(** copy_and_forward(std::string* s, size_t n) *)
Definition copy_and_forward_string (it : IOBufBytesIterator) (buf : IOBuf) (s : list byte) (n : Z)
    : M World (Z * list byte * IOBufBytesIterator) :=
  let resized := zlen s <? n in
  let s := if resized then string_resize n s else s in
  '(nc, d, it) ← copy_and_forward it buf n;
  let s := overwrite 0 d s in
  mret (nc, if (nc <? n) && resized then string_resize nc s else s, it).

(** forward_one_block: the block, None for false. *)
Definition forward_one_block (it : IOBufBytesIterator) (buf : IOBuf)
    : M World (option (list byte) * IOBufBytesIterator) :=
  if _bytes_left it =? 0 then mret (None, it)
  else
    let block_size := _block_end it - _block_begin it in
    d ← read_ptr (it_block it) (_block_begin it) block_size;
    it ← try_next_block (mkIt (it_block it) (_block_begin it) (_block_end it) (_block_count it)
                           (u32 (_bytes_left it - block_size))) buf;
    mret (Some d, it).

(** ** The bytes before an iterator

    While bytes are left, [r] is the reference the iterator is in, from its byte
    [a] on, of which it will take [m] bytes. *)

Record in_block (w : World) (l : list BlockRef) (it : IOBufBytesIterator) (r : BlockRef) (a m : Z)
    (t : list byte) : Prop := mkInBlock {
  ib_count : 1 <= _block_count it <= zlen l;
  ib_ref : l !! Z.to_nat (_block_count it - 1) = Some r;
  ib_block : it_block it = ref_block r;
  ib_begin : _block_begin it = ref_offset r + a;
  ib_end : _block_end it = _block_begin it + m;
  ib_a : 0 <= a;
  ib_m : 0 < m <= zlen t;
  ib_fit : a + m <= ref_length r;
  ib_last : m < zlen t -> a + m = ref_length r;
  ib_bytes : exists rest,
    drop (Z.to_nat a) (ref_bytes w r) ++ bytes w (drop (Z.to_nat (_block_count it)) l) = t ++ rest }.

Definition it_at (w : World) (l : list BlockRef) (it : IOBufBytesIterator) (t : list byte) : Prop :=
  _bytes_left it = zlen t /\ (t <> [] -> exists r a m, in_block w l it r a m t).

(** The part of [t] that is in the current reference. *)
Lemma in_block_bytes w buf l it r a m t :
  Buf w buf l -> in_block w l it r a m t ->
  ok_ref r /\ written w r /\
  take (Z.to_nat m) (drop (Z.to_nat a) (ref_bytes w r)) = take (Z.to_nat m) t /\
  exists rest, bytes w (drop (Z.to_nat (_block_count it)) l) = drop (Z.to_nat m) t ++ rest \/
               m = zlen t.
Proof.
  intros HB [Hc Hr Hbl Hb He Ha Hm Hf Hl (rest & E)].
  destruct (Buf_at _ _ _ _ _ HB Hr) as (Or & Wr & _). pose proof (zlen_ref_bytes w r Or Wr) as Zr.
  split; [done|]. split; [done|].
  apply (f_equal (fun s => (take (Z.to_nat m) s, drop (Z.to_nat m) s))) in E. injection E as E1 E2.
  rewrite take_app_le in E1 by (rewrite length_drop; unfold zlen in *; lia).
  rewrite take_app_le in E1 by (unfold zlen in *; lia). split; [done|].
  exists rest. destruct (decide (m = zlen t)) as [|Hne]; [by right|left].
  specialize (Hl ltac:(lia)).
  rewrite drop_app_ge in E2 by (rewrite length_drop; unfold zlen in *; lia).
  rewrite (drop_app_le t) in E2 by (unfold zlen in *; lia). rewrite <-E2, length_drop.
  replace (Z.to_nat m - (List.length (ref_bytes w r) - Z.to_nat a))%nat with 0%nat
    by (unfold zlen in *; lia). done.
Qed.

Lemma try_next_block_ok w buf l it t rest :
  Buf w buf l -> _bytes_left it = zlen t -> 0 <= _block_count it ->
  bytes w (drop (Z.to_nat (_block_count it)) l) = t ++ rest \/ t = [] ->
  exists it', try_next_block it buf w = Some (it', w) /\ it_at w l it' t /\
    (t = [] \/ _block_count it' = _block_count it + 1).
Proof.
  intros HB El Hc Eb. unfold try_next_block. rewrite El. destruct (Z.eqb_spec (zlen t) 0) as [E0|Hne].
  - apply zlen_0_inv in E0 as ->. exists it. split; [done|]. split; [by split|by left].
  - destruct Eb as [Eb| ->]; [|done]. destruct (drop (Z.to_nat (_block_count it)) l) as [|r l0] eqn:Ed.
    { destruct t; [done|]. by cbn in Eb. }
    assert (l !! Z.to_nat (_block_count it) = Some r) as Hr.
    { rewrite <-(Nat.add_0_r (Z.to_nat _)), <-lookup_drop, Ed. done. }
    pose proof (lookup_lt_Some _ _ _ Hr) as Hlt.
    destruct (Buf_at _ _ _ _ _ HB Hr) as (Or & Wr & Ea). rewrite Z2Nat.id in Ea by lia.
    pose proof (zlen_ref_bytes w r Or Wr) as Zr. pose proof Or as [[b Ebl] Ho Hl He].
    destruct (Wr) as (b' & x & Eb' & Hx & _). pose proof (zlen_nonneg t).
    destruct (InputStream.total_take_le w buf l 0 HB) as (_ & Hb31 & Hz).
    unfold backing_ref. rewrite (ref_num_spec _ _ (Buf_Rep _ _ _ HB)). run.
    destruct (Z.ltb_spec (_block_count it) (zlen l)) as [|Hge]; [|unfold zlen in *; lia].
    rewrite Ea. cbn beta iota. unfold deref, block_at. rewrite Eb'. run. rewrite Hx. cbn beta iota.
    rewrite wrapu_small by (unfold zlen in *; lia).
    eexists. split; [done|]. split; [|by right]. split; [done|]. intros _.
    exists r, 0, (Z.min (ref_length r) (zlen t)). split; cbn; try lia.
    + by replace (_block_count it + 1 - 1) with (_block_count it) by lia.
    + done.
    + exists rest. rewrite <-Eb, bytes_cons. do 3 f_equal.
      replace (Z.to_nat (_block_count it + 1)) with (Z.to_nat (_block_count it) + 1)%nat by lia.
      rewrite <-drop_drop, Ed. done.
Qed.

Lemma new_iterator_ok w buf l :
  Buf w buf l -> exists it, new_iterator buf w = Some (it, w) /\ it_at w l it (bytes w l).
Proof.
  intros HB. unfold new_iterator. rewrite (length_spec _ _ (Buf_Rep _ _ _ HB)). run.
  destruct (InputStream.total_take_le w buf l 0 HB) as (_ & Hb & Hz). pose proof (zlen_nonneg l).
  rewrite wrapu_small by lia.
  destruct (try_next_block_ok w buf l (mkIt None 0 0 0 (total l)) (bytes w l) [])
    as (it & E & Hit & _); [done| |done|left; by rewrite app_nil_r|by exists it].
  cbn. by rewrite (Buf_len _ _ _ HB).
Qed.

Lemma in_block_bound w buf l it r a m t :
  Buf w buf l -> in_block w l it r a m t -> zlen t < 2 ^ 31.
Proof.
  intros HB HI. destruct (in_block_bytes _ _ _ _ _ _ _ _ HB HI) as (Or & Wr & _).
  pose proof (zlen_ref_bytes w r Or Wr) as Zr. destruct HI as [Hc Hr _ _ _ Ha _ _ _ (rest & E)].
  destruct (InputStream.total_take_le w buf l 0 HB) as (_ & Hb31 & _). pose proof (Buf_len _ _ _ HB) as EL.
  apply (f_equal zlen) in E. rewrite !zlen_app in E. pose proof (zlen_nonneg rest).
  assert (zlen (drop (Z.to_nat a) (ref_bytes w r)) <= ref_length r) by (unfold zlen in *; rewrite length_drop; lia).
  pose proof (InputStream.total_take_drop _ _ _ Hr) as ET. destruct HB as [[_ Hok _] HW].
  rewrite (zlen_bytes w (drop _ _)) in E by (by apply Forall_drop).
  pose proof (total_app (take (Z.to_nat (_block_count it)) l) (drop (Z.to_nat (_block_count it)) l)) as E2.
  rewrite take_drop in E2. replace (S (Z.to_nat (_block_count it - 1))) with (Z.to_nat (_block_count it)) in ET by lia.
  pose proof (total_length (take (Z.to_nat (_block_count it - 1)) l) ltac:(by apply Forall_take)).
  pose proof (zlen_nonneg (take (Z.to_nat (_block_count it - 1)) l)). lia.
Qed.

(** Taking [k] of the bytes of the current reference. *)
Lemma advance_ok w buf l it r a m t k :
  Buf w buf l -> in_block w l it r a m t -> _bytes_left it = zlen t -> 0 < k <= m ->
  exists it', advance it k buf w = Some (it', w) /\ it_at w l it' (drop (Z.to_nat k) t) /\
    (k = m -> drop (Z.to_nat k) t = [] \/ _block_count it' = _block_count it + 1).
Proof.
  intros HB HI El Hk. destruct (in_block_bytes _ _ _ _ _ _ _ _ HB HI) as (Or & Wr & _ & rest & Hrest).
  pose proof (zlen_ref_bytes w r Or Wr) as Zr.
  pose proof HI as [Hc Hr Hbl Hb He Ha Hm Hf Hl (rest2 & E)].
  pose proof (in_block_bound _ _ _ _ _ _ _ _ HB HI) as Ht31.
  assert (zlen (drop (Z.to_nat k) t) = zlen t - k) as Zd by (unfold zlen in *; rewrite length_drop; lia).
  unfold advance. cbn [_block_begin _block_end]. rewrite El, wrapu_small by lia.
  destruct (Z.eqb_spec (_block_begin it + k) (_block_end it)) as [E0|E0].
  - assert (k = m) as -> by lia.
    edestruct (try_next_block_ok w buf l) with (t := drop (Z.to_nat m) t) (rest := rest)
      as (it' & E' & Hit & Hc'); [done| | | |exists it'; split; [exact E'|]]; cbn; [lia|lia| |by split].
    destruct Hrest as [|Em]; [by left|right]. apply zlen_0_inv. lia.
  - eexists. split; [done|]. split; [|lia]. split; [cbn; lia|]. intros _. exists r, (a + k), (m - k).
    split; cbn; try done; try lia.
    exists rest2. replace (Z.to_nat (a + k)) with (Z.to_nat a + Z.to_nat k)%nat by lia.
    rewrite <-drop_drop. rewrite <-(drop_app_le (drop _ _)) by (rewrite length_drop; unfold zlen in *; lia).
    rewrite E, drop_app_le by (unfold zlen in *; lia). done.
Qed.

(** A step elsewhere that leaves the bytes of the references. *)
Lemma it_at_frame w w' l it t :
  (forall r, r ∈ l -> ref_bytes w' r = ref_bytes w r) -> it_at w l it t -> it_at w' l it t.
Proof.
  intros Hr [El Ht]. split; [done|]. intros Hne. destruct (Ht Hne) as (r & a & m & Hib).
  exists r, a, m. destruct Hib as [? Hl ? ? ? ? ? ? ? (rest & E)]. split; try done. exists rest.
  rewrite <-E, Hr by (by eapply list_elem_of_lookup_2). f_equal.
  unfold bytes. f_equal. apply list_fmap_ext. intros i x Hx. apply Hr.
  rewrite lookup_drop in Hx. by eapply list_elem_of_lookup_2.
Qed.

Section ForwardLoop.
Context {A : Type} (use : A -> IOBufBytesIterator -> Z -> M World A).
Context (buf : IOBuf) (l : list BlockRef) (R : World -> A -> list byte -> Prop).

(** [R w acc o]: what was used so far are the bytes [o]. *)
Hypothesis use_ok : forall w acc o it r a m t k,
  R w acc o -> Buf w buf l -> in_block w l it r a m t -> 0 < k <= m -> zlen o + zlen t < bound ->
  exists acc' w', use acc it k w = Some (acc', w') /\ R w' acc' (o ++ take (Z.to_nat k) t) /\
    Buf w' buf l /\ (forall r, r ∈ l -> ref_bytes w' r = ref_bytes w r).

Lemma forward_loop_ok fuel w it t n nc acc o :
  R w acc o -> Buf w buf l -> it_at w l it t -> 0 <= nc <= n -> zlen o + zlen t < bound ->
  t = [] \/ nc = n \/ zlen l - _block_count it + 2 <= Z.of_nat fuel -> (0 < fuel)%nat ->
  exists acc' it' w',
    forward_loop use fuel it buf n nc acc w = Some ((nc + Z.min (n - nc) (zlen t), acc', it'), w') /\
    R w' acc' (o ++ take (Z.to_nat (n - nc)) t) /\ Buf w' buf l /\
    it_at w' l it' (drop (Z.to_nat (n - nc)) t) /\ bytes w' l = bytes w l.
Proof.
  revert w it t nc acc o. induction fuel as [|fuel IH]; intros w it t nc acc o HR HB Hit Hnc Hb Hf Hf1; [lia|].
  pose proof (zlen_nonneg t). pose proof Hit as [El Ht]. cbn [forward_loop].
  assert (nc = n \/ t = [] -> exists acc' it' w',
    (mret (nc, acc, it) : M World (Z * A * IOBufBytesIterator)) w
      = Some ((nc + Z.min (n - nc) (zlen t), acc', it'), w') /\
    R w' acc' (o ++ take (Z.to_nat (n - nc)) t) /\ Buf w' buf l /\
    it_at w' l it' (drop (Z.to_nat (n - nc)) t) /\ bytes w' l = bytes w l) as Hstop.
  { intros Hd. exists acc, it, w. assert (Z.min (n - nc) (zlen t) = 0) as ->.
    { destruct Hd as [->| ->]; [lia|]. change (zlen (@nil byte)) with 0. lia. }
    rewrite Z.add_0_r. split; [done|]. destruct Hd as [->| ->].
    - rewrite Z.sub_diag. cbn. by rewrite app_nil_r.
    - rewrite take_nil, drop_nil, app_nil_r. done. }
  destruct (Z.ltb_spec nc n) as [Hlt|]; cbn [andb]; [|apply Hstop; left; lia].
  rewrite El. destruct (Z.eqb_spec (zlen t) 0) as [E0|Hne]; cbn [negb]; [apply Hstop; right; by apply zlen_0_inv|].
  destruct (Ht ltac:(intros ->; done)) as (r & a & m & Hib). pose proof (ib_m _ _ _ _ _ _ _ Hib) as Hm.
  rewrite (ib_end _ _ _ _ _ _ _ Hib), Z.add_simpl_l. set (k := Z.min m (n - nc)).
  destruct (use_ok w acc o it r a m t k HR HB Hib) as (acc1 & w1 & E1 & HR1 & HB1 & Hr1); [lia|lia|].
  run. rewrite E1. cbn beta iota. pose proof (it_at_frame _ _ _ _ _ Hr1 Hit) as Hit1.
  destruct (proj2 Hit1 ltac:(intros ->; done)) as (r' & a' & m' & Hib').
  assert (m' = m) as ->.
  { pose proof (ib_end _ _ _ _ _ _ _ Hib). pose proof (ib_end _ _ _ _ _ _ _ Hib'). lia. }
  destruct (advance_ok w1 buf l it r' a' m t k HB1 Hib' El) as (it2 & E2 & Hit2 & Hc2); [lia|].
  rewrite E2. cbn beta iota.
  assert (zlen (drop (Z.to_nat k) t) = zlen t - k) as Zd by (unfold zlen in *; rewrite length_drop; lia).
  assert (zlen (take (Z.to_nat k) t) = k) as Zt by (unfold zlen in *; rewrite length_take; lia).
  pose proof (ib_count _ _ _ _ _ _ _ Hib) as Hcnt.
  destruct (IH w1 it2 (drop (Z.to_nat k) t) (nc + k) acc1 (o ++ take (Z.to_nat k) t))
    as (acc' & it' & w' & E' & HR' & HB' & Hit' & Eb'); try done.
  { lia. }
  { rewrite zlen_app. lia. }
  { destruct Hf as [->|[->|Hf]]; [done|lia|]. destruct (decide (drop (Z.to_nat k) t = [])); [by left|right].
    destruct (decide (nc + k = n)); [by left|right]. destruct (Hc2 ltac:(lia)) as [|E3]; [done|lia]. }
  { destruct Hf as [->|[->|Hf]]; [done|lia|lia]. }
  rewrite E'. exists acc', it', w'. rewrite Zd. split; [by replace (nc + k + Z.min (n - (nc + k)) (zlen t - k))
    with (nc + Z.min (n - nc) (zlen t)) by lia|].
  replace (Z.to_nat (n - nc)) with (Z.to_nat k + Z.to_nat (n - (nc + k)))%nat by lia.
  rewrite <-take_take_drop, <-drop_drop, app_assoc. split; [done|]. split; [done|]. split; [done|].
  by rewrite Eb', (bytes_same _ _ _ Hr1).
Qed.
End ForwardLoop.

(** ** Every operation on strings *)

Lemma turns_enough w buf l it t n :
  Buf w buf l -> it_at w l it t ->
  t = [] \/ 0 = n \/ zlen l - _block_count it + 2 <= Z.of_nat (S (ref_fuel buf)).
Proof.
  intros HB [_ Ht]. destruct (decide (t = [])) as [|Hne]; [by left|right; right].
  destruct (Ht Hne) as (r & a & m & Hib). pose proof (ib_count _ _ _ _ _ _ _ Hib).
  rewrite (ref_fuel_spec _ _ (Buf_Rep _ _ _ HB)). unfold zlen in *. lia.
Qed.

Lemma it_at_bound w buf l it t : Buf w buf l -> it_at w l it t -> zlen t < bound.
Proof.
  intros HB [_ Ht]. destruct (decide (t = [])) as [->|Hne]; [done|].
  destruct (Ht Hne) as (r & a & m & Hib). by eapply in_block_bound.
Qed.

Lemma value_at_ok w buf l it c t :
  Buf w buf l -> it_at w l it (c :: t) -> value_at it w = Some (c, w).
Proof.
  intros HB [_ Ht]. destruct (Ht ltac:(done)) as (r & a & m & Hib).
  destruct (in_block_bytes _ _ _ _ _ _ _ _ HB Hib) as (Or & Wr & E & _).
  pose proof Hib as [_ _ Hbl Hb _ Ha Hm Hf _ _]. pose proof (zlen_ref_bytes w r Or Wr) as Zr.
  unfold value_at. rewrite Hbl, Hb. run. rewrite read_ptr_spec by (done || lia). cbn beta iota.
  assert (take (Z.to_nat 1) (drop (Z.to_nat a) (ref_bytes w r)) = [c]) as ->; [|done].
  apply (f_equal (take (Z.to_nat 1))) in E. rewrite !take_take in E.
  by replace (Z.to_nat 1 `min` Z.to_nat m)%nat with 1%nat in E by lia.
Qed.

Lemma next_byte_ok w buf l it c t :
  Buf w buf l -> it_at w l it (c :: t) ->
  exists it', next_byte it buf w = Some (it', w) /\ it_at w l it' t.
Proof.
  intros HB [El Ht]. destruct (Ht ltac:(done)) as (r & a & m & Hib).
  pose proof (ib_m _ _ _ _ _ _ _ Hib).
  destruct (advance_ok w buf l it r a m (c :: t) 1 HB Hib El) as (it' & E & Hit & _); [lia|].
  by exists it'.
Qed.

Lemma copy_and_forward_ok w buf l it t n :
  Buf w buf l -> it_at w l it t -> 0 <= n ->
  exists it', copy_and_forward it buf n w
      = Some ((Z.min n (zlen t), take (Z.to_nat n) t, it'), w) /\
    it_at w l it' (drop (Z.to_nat n) t).
Proof.
  intros HB Hit Hn. unfold copy_and_forward.
  destruct (forward_loop_ok (fun d it k => s ← read_ptr (it_block it) (_block_begin it) k; mret (d ++ s))
    buf l (fun w' d o => w' = w /\ d = o)) with (fuel := S (ref_fuel buf)) (w := w) (it := it) (t := t)
    (n := n) (nc := 0) (acc := @nil byte) (o := @nil byte)
    as (d & it' & w' & E & [-> ->] & _ & Hit' & _); try done.
  - intros w0 d o it0 r a m t0 k [-> ->] HB0 Hib Hk _.
    destruct (in_block_bytes _ _ _ _ _ _ _ _ HB0 Hib) as (Or & Wr & Et & _).
    pose proof Hib as [_ _ Hbl Hb _ Ha Hm Hf _ _]. rewrite Hbl, Hb. run.
    rewrite read_ptr_spec by (done || lia). cbn beta iota. eexists _, w. split; [done|].
    split; [|done]. split; [done|]. f_equal. apply (f_equal (take (Z.to_nat k))) in Et.
    rewrite !take_take in Et. by replace (Z.to_nat k `min` Z.to_nat m)%nat with (Z.to_nat k) in Et by lia.
  - cbn. by eapply it_at_bound.
  - by eapply turns_enough.
  - lia.
  - rewrite E. rewrite Z.sub_0_r in *. by exists it'.
Qed.

Lemma forward_ok w buf l it t n :
  Buf w buf l -> it_at w l it t -> 0 <= n ->
  exists it', forward it buf n w = Some ((Z.min n (zlen t), it'), w) /\
    it_at w l it' (drop (Z.to_nat n) t).
Proof.
  intros HB Hit Hn. unfold forward. run.
  destruct (forward_loop_ok (fun _ _ _ => (mret () : M World ())) buf l (fun w' _ _ => w' = w))
    with (fuel := S (ref_fuel buf)) (w := w) (it := it) (t := t)
    (n := n) (nc := 0) (acc := ()) (o := @nil byte)
    as ([] & it' & w' & E & -> & _ & Hit' & _); try done.
  - intros w0 [] o it0 r a m t0 k -> HB0 Hib Hk _. by exists (), w.
  - cbn. by eapply it_at_bound.
  - by eapply turns_enough.
  - lia.
  - run_in E. rewrite E. rewrite Z.sub_0_r in *. by exists it'.
Qed.

Lemma append_and_forward_ok w O buf l out l2 it t n :
  Buf w buf l -> Buf w out l2 -> Inv w (blocks l ++ blocks l2 ++ O) -> it_at w l it t -> 0 <= n ->
  total l2 + zlen t < bound ->
  exists out' l2' it' w', append_and_forward it buf out n w = Some ((Z.min n (zlen t), out', it'), w') /\
    Buf w' buf l /\ Buf w' out' l2' /\ Inv w' (blocks l ++ blocks l2' ++ O) /\ w ≼ w' /\
    bytes w' l = bytes w l /\ bytes w' l2' = bytes w l2 ++ take (Z.to_nat n) t /\
    it_at w' l it' (drop (Z.to_nat n) t).
Proof.
  intros HB HB2 HI Hit Hn Hbd. unfold append_and_forward.
  destruct (forward_loop_ok (fun out it k =>
       r ← lift (_ref_at buf (u32 (_block_count it - 1)));
       _push_back_ref (mkRef (u32 (_block_begin it)) (u32 k) (ref_block r)) out)
    buf l (fun w' out o => exists l2, Buf w' out l2 /\ Inv w' (blocks l ++ blocks l2 ++ O) /\ w ≼ w' /\
             bytes w' l2 = o)) with (fuel := S (ref_fuel buf)) (w := w) (it := it) (t := t)
    (n := n) (nc := 0) (acc := out) (o := bytes w l2)
    as (out' & it' & w' & E & (l2' & HB2' & HI' & Hle & Eb) & HB' & Hit' & Ebl); try done.
  - intros w0 o0 o it0 r a m t0 k (l3 & HB3 & HI3 & Hle3 & <-) HB0 Hib Hk Hb0.
    destruct (in_block_bytes _ _ _ _ _ _ _ _ HB0 Hib) as (Or & Wr & Et & _).
    pose proof Hib as [Hc Hr Hbl Hb _ Ha Hm Hf _ _].
    destruct (Buf_at _ _ _ _ _ HB0 Hr) as (_ & _ & Eat). rewrite Z2Nat.id in Eat by lia.
    destruct (InputStream.total_take_le w0 buf l 0 HB0) as (_ & Hb31 & Hz).
    run. rewrite wrapu_small, Eat, Hb by lia. cbn beta iota. rewrite (Buf_len _ _ _ HB3) in Hb0.
    destruct (push_part w0 O buf l o0 l3 r a k HB0 HB3 HI3)
      as (o1 & l4 & w1 & E1 & HB4 & HI4 & Hle4 & Eb4 & HB5 & Hr5); try lia.
    { by eapply list_elem_of_lookup_2. }
    { unfold bound in Hb0. lia. }
    rewrite E1. exists o1, w1. split; [done|]. split; [|done]. exists l4. split; [done|]. split; [done|].
    split; [by etrans|]. rewrite Eb4. f_equal. apply (f_equal (take (Z.to_nat k))) in Et.
    rewrite !take_take in Et. by replace (Z.to_nat k `min` Z.to_nat m)%nat with (Z.to_nat k) in Et by lia.
  - by exists l2.
  - by rewrite (Buf_len _ _ _ HB2).
  - by eapply turns_enough.
  - lia.
  - rewrite E. rewrite Z.sub_0_r in *. by exists out', l2', it', w'.
Qed.

Lemma copy_and_forward_string_ok w buf l it t s n :
  Buf w buf l -> it_at w l it t -> 0 <= n ->
  let d := take (Z.to_nat n) t in
  exists it', copy_and_forward_string it buf s n w
      = Some ((zlen d, if zlen s <? n then d else overwrite 0 d s, it'), w) /\
    it_at w l it' (drop (Z.to_nat n) t).
Proof.
  intros HB Hit Hn d. unfold copy_and_forward_string. run.
  destruct (copy_and_forward_ok w buf l it t n HB Hit Hn) as (it' & -> & Hit'). cbn beta iota.
  exists it'. split; [|done]. fold d. assert (zlen d = Z.min n (zlen t)) as Zd
    by (unfold d, zlen; rewrite length_take; lia).
  rewrite Zd. destruct (Z.ltb_spec (zlen s) n) as [Hlt|Hge]; [|by rewrite andb_false_r].
  rewrite andb_true_r. do 4 f_equal.
  unfold string_resize, overwrite, zlen in *. change (Z.to_nat 0) with 0%nat. cbn [Nat.add].
  rewrite !take_0. cbn [app].
  rewrite (take_ge s) by lia. destruct (Z.ltb_spec (Z.min n (Z.of_nat (List.length t))) n).
  - rewrite take_app_le by lia. rewrite take_ge by lia.
    rewrite length_app, length_drop, length_app, length_replicate.
    replace (Z.to_nat (Z.min n (Z.of_nat (List.length t))) - _)%nat with 0%nat by lia. by rewrite app_nil_r.
  - rewrite drop_ge, app_nil_r by (rewrite length_app, length_replicate; lia). done.
Qed.

Lemma forward_one_block_ok w buf l it t :
  Buf w buf l -> it_at w l it t ->
  exists d it', forward_one_block it buf w = Some ((d, it'), w) /\
    match d with
    | None => t = [] /\ it' = it
    | Some d => d <> [] /\ exists t', t = d ++ t' /\ it_at w l it' t'
    end.
Proof.
  intros HB Hit. pose proof Hit as [El Ht]. unfold forward_one_block. rewrite El.
  destruct (Z.eqb_spec (zlen t) 0) as [E0|Hne].
  { apply zlen_0_inv in E0. by exists None, it. }
  destruct (Ht ltac:(intros ->; done)) as (r & a & m & Hib).
  destruct (in_block_bytes _ _ _ _ _ _ _ _ HB Hib) as (Or & Wr & Et & rest & Hrest).
  pose proof (it_at_bound _ _ _ _ _ HB Hit) as Hb31. unfold bound in Hb31.
  pose proof Hib as [Hc Hr Hbl Hb He Ha Hm Hf _ _]. rewrite He, Z.add_simpl_l, Hbl, Hb. run.
  rewrite read_ptr_spec, Et, wrapu_small by (done || lia). cbn beta iota.
  edestruct (try_next_block_ok w buf l) with (t := drop (Z.to_nat m) t) (rest := rest)
    as (it' & E' & Hit' & _); [done| | | |rewrite E'; eexists _, it'; split; [done|]]; cbn.
  - unfold zlen in *. rewrite length_drop. lia.
  - lia.
  - destruct Hrest as [|Em]; [by left|right]. apply zlen_0_inv. unfold zlen in *. rewrite length_drop. lia.
  - split; [|exists (drop (Z.to_nat m) t); by rewrite take_drop].
    intros E. apply (f_equal zlen) in E. unfold zlen in *. rewrite length_take in E. cbn in E. lia.
Qed.

Lemma limit_ok w l it t n :
  it_at w l it t -> 0 <= n <= zlen t -> zlen t < bound -> it_at w l (limit it n) (take (Z.to_nat n) t).
Proof.
  intros [El Ht] Hn Hb. unfold bound in Hb. unfold limit. rewrite wrapu_small by lia.
  assert (zlen (take (Z.to_nat n) t) = n) as Zt by (unfold zlen in *; rewrite length_take; lia).
  split; [done|]. intros Hne. destruct (Ht ltac:(intros ->; by rewrite take_nil in Hne)) as (r & a & m & Hib).
  assert (0 < n) by (destruct (decide (n = 0)) as [->|]; [done|lia]).
  destruct Hib as [Hc Hr Hbl Hbg He Ha Hm Hf Hl (rest & E)]. exists r, a, (Z.min m n).
  split; cbn; try done; try lia.
  - destruct (Z.ltb_spec (_block_begin it + n) (_block_end it)); lia.
  - exists (drop (Z.to_nat n) t ++ rest). by rewrite app_assoc, take_drop.
Qed.

End BytesIterator.

Module Readers.
Import InputStream BytesIterator.

(** ** Programs

    A stream and an iterator over one IOBuf, their calls in any order;
    [append_and_forward] appends to another IOBuf. *)

Inductive reader_call :=
| n_next
| n_backup (count : Z)
| n_skip (count : Z)
| n_byte_count
| n_available
| n_peek
| i_value
| i_next_byte
| i_copy (n : Z)
| i_copy_string (s : list byte) (n : Z)
| i_forward (n : Z)
| i_append (n : Z)
| i_one_block
| i_limit (n : Z)
| i_bytes_left.

Record readers := mkReaders {
  rd_stream : IOBufAsZeroCopyInputStream;
  rd_it : IOBufBytesIterator;
  rd_out : IOBuf }.

Definition set_stream (st : IOBufAsZeroCopyInputStream) (r : readers) : readers :=
  mkReaders st (rd_it r) (rd_out r).
Definition set_it (it : IOBufBytesIterator) (r : readers) : readers :=
  mkReaders (rd_stream r) it (rd_out r).

Definition reader_exec (buf : IOBuf) (x : reader_call) (r : readers) : M World (value * readers) :=
  let st := rd_stream r in
  let it := rd_it r in
  match x with
  | n_next => '(d, st) ← Next st buf; mret (v_ptr d, set_stream st r)
  | n_backup count => st ← BackUp count st buf; mret (v_void, set_stream st r)
  | n_skip count => '(b, st) ← Skip count st buf; mret (v_bool b, set_stream st r)
  | n_byte_count => mret (v_int (ByteCount st), r)
  | n_available => n ← Available st buf; mret (v_int n, r)
  | n_peek => '(d, st) ← Peek st buf; mret (v_ptr d, set_stream st r)
  | i_value => c ← value_at it; mret (v_byte (Some c), r)
  | i_next_byte => it ← next_byte it buf; mret (v_void, set_it it r)
  | i_copy n => '(k, d, it) ← copy_and_forward it buf n; mret (v_bytes k d, set_it it r)
  | i_copy_string s n => '(k, d, it) ← copy_and_forward_string it buf s n; mret (v_bytes k d, set_it it r)
  | i_forward n => '(k, it) ← forward it buf n; mret (v_int k, set_it it r)
  | i_append n =>
      '(k, out, it) ← append_and_forward it buf (rd_out r) n; mret (v_int k, mkReaders st it out)
  | i_one_block => '(d, it) ← forward_one_block it buf; mret (v_ptr d, set_it it r)
  | i_limit n => mret (v_void, set_it (limit it n) r)
  | i_bytes_left => mret (v_int (_bytes_left it), r)
  end.

Fixpoint reader_loop (buf : IOBuf) (xs : list reader_call) (r : readers) : M World (list value * readers) :=
  match xs with
  | [] => mret ([], r)
  | x :: xs =>
      '(v, r) ← reader_exec buf x r; '(vs, r) ← reader_loop buf xs r; mret (v :: vs, r)
  end.

Definition reader_program (xs : list reader_call) (buf out : IOBuf) : M World (list value * IOBuf) :=
  it ← new_iterator buf;
  '(vs, r) ← reader_loop buf xs (mkReaders new_input_stream it out);
  mret (vs, rd_out r).

(** On the string [s]: the position of the stream; how much its last call, a
    Next, returned; whether its last call was BackUp(0), after which Next
    returns no bytes; what is before the iterator; the other string. *)
Record reader_state := mkRS {
  rs_pos : Z;
  rs_last : option Z;
  rs_stale : bool;
  rs_rest : list byte;
  rs_out : list byte }.

Definition rs_move (p : Z) (last : option Z) (stale : bool) (x : reader_state) : reader_state :=
  mkRS p last stale (rs_rest x) (rs_out x).
Definition rs_forward (n : Z) (x : reader_state) : reader_state :=
  mkRS (rs_pos x) (rs_last x) (rs_stale x) (drop (Z.to_nat n) (rs_rest x)) (rs_out x).

Definition reader_pre (x : reader_call) (a : reader_state) : Prop :=
  match x with
  | n_backup count => exists k, rs_last a = Some k /\ 0 <= count <= k
  | n_skip count => 0 <= count < 2 ^ 31
  | i_value | i_next_byte => rs_rest a <> []
  | i_copy n | i_copy_string _ n | i_forward n => 0 <= n
  | i_append n => 0 <= n /\ zlen (rs_out a) + zlen (rs_rest a) < bound
  | i_limit n => 0 <= n <= zlen (rs_rest a)
  | n_next | n_byte_count | n_available | n_peek | i_one_block | i_bytes_left => True
  end.

Definition reader_spec (s : list byte) (x : reader_call) (a : reader_state) (v : value) (a' : reader_state) : Prop :=
  let p := rs_pos a in
  let t := rs_rest a in
  let first n := take (Z.to_nat n) t in
  match x with
  | n_next =>
      (exists d, v = v_ptr (Some d) /\ d = slice p (zlen d) s /\ (rs_stale a = false -> d <> []) /\
         a' = rs_move (p + zlen d) (Some (zlen d)) false a) \/
      (v = v_ptr None /\ p = zlen s /\ a' = rs_move p None (rs_stale a) a)
  | n_backup count => v = v_void /\ a' = rs_move (p - count) None (count =? 0) a
  | n_skip count =>
      v = v_bool (p + count <? zlen s) /\ a' = rs_move (Z.min (p + count) (zlen s)) None false a
  | n_byte_count => v = v_int p /\ a' = a
  | n_available => v = v_int (zlen s - p) /\ a' = a
  | n_peek =>
      a' = a /\
      ((exists d, v = v_ptr (Some d) /\ d = slice p (zlen d) s /\ (rs_stale a = false -> d <> [])) \/
       (v = v_ptr None /\ p = zlen s))
  | i_value => v = v_byte (head t) /\ a' = a
  | i_next_byte => v = v_void /\ a' = rs_forward 1 a
  | i_copy n => v = v_bytes (Z.min n (zlen t)) (first n) /\ a' = rs_forward n a
  | i_copy_string d n =>
      v = v_bytes (Z.min n (zlen t)) (if zlen d <? n then first n else overwrite 0 (first n) d) /\
      a' = rs_forward n a
  | i_forward n => v = v_int (Z.min n (zlen t)) /\ a' = rs_forward n a
  | i_append n =>
      v = v_int (Z.min n (zlen t)) /\
      a' = mkRS p (rs_last a) (rs_stale a) (drop (Z.to_nat n) t) (rs_out a ++ first n)
  | i_one_block =>
      (exists d, d <> [] /\ v = v_ptr (Some d) /\ first (zlen d) = d /\ a' = rs_forward (zlen d) a) \/
      (t = [] /\ v = v_ptr None /\ a' = a)
  | i_limit n => v = v_void /\ a' = mkRS p (rs_last a) (rs_stale a) (first n) (rs_out a)
  | i_bytes_left => v = v_int (zlen t) /\ a' = a
  end.

Fixpoint reader_safe (s : list byte) (xs : list reader_call) (a : reader_state) : Prop :=
  match xs with
  | [] => True
  | x :: xs => reader_pre x a /\ forall v a', reader_spec s x a v a' -> reader_safe s xs a'
  end.

Fixpoint reader_specs (s : list byte) (xs : list reader_call) (a : reader_state) (vs : list value)
    (a' : reader_state) : Prop :=
  match xs, vs with
  | [], [] => a' = a
  | x :: xs, v :: vs => exists a1, reader_spec s x a v a1 /\ reader_specs s xs a1 vs a'
  | _, _ => False
  end.

(** ** The refinement *)

Record stream_ok (st : IOBufAsZeroCopyInputStream) (l : list BlockRef) (a : reader_state) : Prop := mkSO {
  so_at : exists i, in_at st l i (rs_pos a) /\
    (rs_stale a = false -> forall r, l !! i = Some r -> _add_offset st < ref_length r) /\
    (forall k, rs_last a = Some k -> exists i' r, i = S i' /\ _add_offset st = 0 /\
       l !! i' = Some r /\ k <= ref_length r) }.

Lemma stream_ok_eq st l a a' :
  rs_pos a' = rs_pos a -> rs_last a' = rs_last a -> rs_stale a' = rs_stale a ->
  stream_ok st l a -> stream_ok st l a'.
Proof. intros E1 E2 E3 [(i & H)]. split. exists i. by rewrite E1, E2, E3. Qed.

Section Refine.
Context (buf : IOBuf) (l : list BlockRef) (s : list byte) (O : list nat).

Record ok (w : World) (r : readers) (a : reader_state) : Prop := mkOk {
  ok_buf : Buf w buf l;
  ok_bytes : bytes w l = s;
  ok_out : exists l2, Buf w (rd_out r) l2 /\ Inv w (blocks l ++ blocks l2 ++ O) /\ bytes w l2 = rs_out a;
  ok_stream : stream_ok (rd_stream r) l a;
  ok_it : it_at w l (rd_it r) (rs_rest a) }.

(** A call of the stream, or one of the iterator that does not append. *)
Lemma ok_set_stream w r a st p last stale :
  ok w r a -> stream_ok st l (rs_move p last stale a) ->
  ok w (set_stream st r) (rs_move p last stale a).
Proof. intros [HB Eb (l2 & H) Hs Hi] Hst. split; try done. by exists l2. Qed.

Lemma ok_set_it w r a it t :
  ok w r a -> it_at w l it t ->
  ok w (set_it it r) (mkRS (rs_pos a) (rs_last a) (rs_stale a) t (rs_out a)).
Proof.
  intros [HB Eb (l2 & H) Hs Hi] Hit. split; try done; [by exists l2|].
  by eapply stream_ok_eq; [..|exact Hs].
Qed.

Lemma stream_next_ok w r a :
  ok w r a ->
  exists v r' a', reader_exec buf n_next r w = Some ((v, r'), w) /\ reader_spec s n_next a v a' /\ ok w r' a'.
Proof.
  intros Hok. pose proof Hok as [HB Eb _ [(i & Hin & Hst & Hlast)] _]. cbn [reader_exec]. run.
  pose proof (Next_ok w buf l _ i _ HB Hin) as HN. destruct (l !! i) as [r0|] eqn:E.
  - destruct HN as (d & st' & -> & Hin' & E0 & Zd & Ed). eexists _, _, _. split; [done|]. split.
    + left. exists d. split; [done|]. rewrite Zd, <-Eb. split; [done|]. split; [|done].
      intros Hs ->. specialize (Hst Hs r0 eq_refl). change (zlen (@nil byte)) with 0 in Zd. lia.
    + apply ok_set_stream; [done|]. split. exists (S i). split; [done|]. split.
      * intros _ r' Hr'. rewrite E0. by destruct (Buf_at _ _ _ _ _ HB Hr') as ([] & _).
      * intros k [= <-]. exists i, r0. pose proof (in_add _ _ _ _ Hin). split_and!; try done. lia.
  - destruct HN as [-> Hp]. eexists _, _, _. split; [done|]. split; [right; by rewrite <-Eb|].
    apply ok_set_stream; [done|]. split. exists i. split; [done|]. split; [|done]. intros _ r' Hr'. congruence.
Qed.

Lemma stream_backup_ok w r a count :
  ok w r a -> reader_pre (n_backup count) a ->
  exists v r' a', reader_exec buf (n_backup count) r w = Some ((v, r'), w) /\
    reader_spec s (n_backup count) a v a' /\ ok w r' a'.
Proof.
  intros Hok (k & Hk & Hc). pose proof Hok as [HB Eb _ [(i & Hin & Hst & Hlast)] _].
  destruct (Hlast k Hk) as (i' & r0 & -> & E0 & E & Hle). cbn [reader_exec]. run.
  destruct (BackUp_ok w buf l _ i' _ r0 count HB Hin E0 E) as (st' & -> & Hin' & Ea); [lia|].
  eexists _, _, _. split; [done|]. split; [done|]. apply ok_set_stream; [done|]. split.
  exists i'. split; [done|]. split; [|done]. intros Hz%Z.eqb_neq r' Hr'.
  assert (r' = r0) as -> by congruence. lia.
Qed.

Lemma stream_skip_ok w r a count :
  ok w r a -> 0 <= count < 2 ^ 31 ->
  exists v r' a', reader_exec buf (n_skip count) r w = Some ((v, r'), w) /\
    reader_spec s (n_skip count) a v a' /\ ok w r' a'.
Proof.
  intros Hok Hc. pose proof Hok as [HB Eb _ [(i & Hin & Hst & Hlast)] _]. cbn [reader_exec]. run.
  destruct (Skip_ok w buf l _ i _ count HB Hin Hc) as (st' & j & -> & Hin' & Ha). rewrite Eb in *.
  eexists _, _, _. split; [done|]. split; [done|]. apply ok_set_stream; [done|]. split. by exists j.
Qed.

Lemma stream_peek_ok w r a :
  ok w r a ->
  exists v r' a', reader_exec buf n_peek r w = Some ((v, r'), w) /\ reader_spec s n_peek a v a' /\ ok w r' a'.
Proof.
  intros Hok. pose proof Hok as [HB Eb _ [(i & Hin & Hst & Hlast)] _]. cbn [reader_exec]. run.
  destruct (Peek_ok w buf l _ i _ HB Hin) as (d & -> & Hd). cbn beta iota. rewrite <-Eb.
  assert (set_stream (rd_stream r) r = r) as -> by by destruct r.
  eexists _, _, a. split; [done|]. split; [|done]. split; [done|]. destruct d as [d|]; [|by right].
  destruct Hd as (Ed & r0 & E & Hz). left. exists d. split_and!; try done. intros Hs ->.
  specialize (Hst Hs r0 E). change (zlen (@nil byte)) with 0 in Hz. lia.
Qed.
Lemma iterator_append_ok w r a n :
  ok w r a -> reader_pre (i_append n) a ->
  exists v r' a' w', reader_exec buf (i_append n) r w = Some ((v, r'), w') /\ w ≼ w' /\
    reader_spec s (i_append n) a v a' /\ ok w' r' a'.
Proof.
  intros [HB Eb (l2 & HB2 & HI & E2) Hs Hi] [Hn Hb]. cbn [reader_exec]. run.
  rewrite <-E2, (Buf_len _ _ _ HB2) in Hb.
  destruct (append_and_forward_ok w O buf l (rd_out r) l2 (rd_it r) (rs_rest a) n HB HB2 HI Hi Hn Hb)
    as (out' & l2' & it' & w' & -> & HB' & HB2' & HI' & Hle & Eb' & E2' & Hi').
  eexists _, _, _, w'. split; [done|]. split; [done|]. split; [done|]. split; cbn; try done.
  - by rewrite Eb', Eb.
  - exists l2'. by rewrite E2', E2.
  - by eapply stream_ok_eq; [..|exact Hs].
Qed.

Lemma reader_exec_ok x w r a :
  ok w r a -> reader_pre x a ->
  exists v r' a' w', reader_exec buf x r w = Some ((v, r'), w') /\ w ≼ w' /\
    reader_spec s x a v a' /\ ok w' r' a'.
Proof.
  intros Hok Hp.
  assert ((exists v r' a', reader_exec buf x r w = Some ((v, r'), w) /\ reader_spec s x a v a' /\ ok w r' a') ->
    exists v r' a' w', reader_exec buf x r w = Some ((v, r'), w') /\ w ≼ w' /\
      reader_spec s x a v a' /\ ok w' r' a') as Hsame.
  { intros (v & r' & a' & E & Hs & Ho). by exists v, r', a', w. }
  pose proof Hok as [HB Eb _ [(i & Hin & _)] Hi].
  destruct x; match goal with |- context [i_append] => idtac | |- _ => apply Hsame end; clear Hsame.
  - by apply stream_next_ok.
  - by apply stream_backup_ok.
  - by apply stream_skip_ok.
  - eexists _, _, a. split; [done|]. split; [|done]. split; [|done]. cbn. f_equal. apply Hin.
  - cbn [reader_exec]. unfold Available. run. rewrite (length_spec _ _ (Buf_Rep _ _ _ HB)). cbn beta iota.
    destruct (total_take_le w buf l i HB) as (Ht & Hb & _). rewrite <-(Buf_len _ _ _ HB), Eb in *.
    unfold ByteCount. rewrite (in_count _ _ _ _ Hin). pose proof (in_at_range _ _ _ _ _ _ HB Hin) as Hr.
    rewrite Eb in Hr. rewrite wrapu_small by lia. by eexists _, _, a.
  - by apply stream_peek_ok.
  - cbn [reader_exec]. cbn in Hp. destruct (rs_rest a) as [|c t] eqn:Er; [done|]. run.
    rewrite (value_at_ok w buf l _ c t HB Hi). eexists _, _, a. split; [done|]. split; [|done].
    cbn. by rewrite Er.
  - cbn [reader_exec]. cbn in Hp. destruct (rs_rest a) as [|c t] eqn:Er; [done|]. run.
    destruct (next_byte_ok w buf l _ c t HB Hi) as (it' & -> & Hi'). eexists _, _, _. split; [done|].
    split; [done|]. apply ok_set_it; [done|]. by rewrite Er.
  - cbn [reader_exec]. run. destruct (copy_and_forward_ok w buf l _ _ n HB Hi Hp) as (it' & -> & Hi').
    eexists _, _, _. split; [done|]. split; [done|]. by apply ok_set_it.
  - cbn [reader_exec]. run.
    destruct (copy_and_forward_string_ok w buf l _ _ s0 n HB Hi Hp) as (it' & -> & Hi').
    eexists _, _, _. split; [done|]. split; [|by apply ok_set_it]. cbn. split; [|done].
    f_equal. unfold zlen. rewrite length_take. cbn in Hp. lia.
  - cbn [reader_exec]. run. destruct (forward_ok w buf l _ _ n HB Hi Hp) as (it' & -> & Hi').
    eexists _, _, _. split; [done|]. split; [done|]. by apply ok_set_it.
  - by apply iterator_append_ok.
  - cbn [reader_exec]. run. destruct (forward_one_block_ok w buf l _ _ HB Hi) as (d & it' & -> & Hd).
    destruct d as [d|].
    + destruct Hd as (Hne & t' & Et & Hi'). eexists _, _, _. split; [done|]. split.
      * left. exists d. split; [done|]. split; [done|]. rewrite Et. unfold zlen. rewrite Nat2Z.id.
        by rewrite take_app_length.
      * apply ok_set_it; [done|]. rewrite Et. unfold zlen. by rewrite Nat2Z.id, drop_app_length.
    + destruct Hd as [Et ->]. assert (set_it (rd_it r) r = r) as -> by by destruct r.
      eexists _, _, a. split; [done|]. split; [by right|done].
  - eexists _, _, _. split; [done|]. split; [done|]. apply ok_set_it; [done|].
    apply limit_ok; [done|done|]. by eapply it_at_bound.
  - eexists _, _, a. split; [done|]. split; [|done]. cbn. split; [|done]. f_equal. apply Hi.
Qed.

Lemma reader_loop_ok xs w r a :
  ok w r a -> reader_safe s xs a ->
  exists vs r' a' w', reader_loop buf xs r w = Some ((vs, r'), w') /\ w ≼ w' /\
    reader_specs s xs a vs a' /\ ok w' r' a'.
Proof.
  revert w r a. induction xs as [|x xs IH]; intros w r a Hok Hs.
  - by eexists _, _, a, w.
  - destruct Hs as [Hp Hs]. cbn [reader_loop].
    destruct (reader_exec_ok x w r a Hok Hp) as (v & r1 & a1 & w1 & E & Hle & Hspec & Hok1).
    destruct (IH w1 r1 a1 Hok1 (Hs _ _ Hspec)) as (vs & r2 & a2 & w2 & E2 & Hle2 & Hspec2 & Hok2).
    run. rewrite E. cbn beta iota. rewrite E2. eexists _, _, a2, w2. split; [done|].
    split; [by etrans|]. split; [by exists a1|done].
Qed.

End Refine.

(** C15. Any program of calls of an IOBufAsZeroCopyInputStream (and the snappy
    source on top of it) and of an IOBufBytesIterator over one IOBuf, from their
    constructors on, runs without undefined behaviour and ends, and returns what
    a position in the string and a suffix of it return; Next returns no empty
    piece, unless it follows BackUp(0).  Only the IOBuf appended to changes. *)
Theorem readers_refine_string xs w bufs ss i j buf out s o :
  Holds w bufs ss -> i <> j -> bufs !! i = Some buf -> bufs !! j = Some out ->
  ss !! i = Some s -> ss !! j = Some o -> reader_safe s xs (mkRS 0 None false s o) ->
  exists vs out' w' a', reader_program xs buf out w = Some ((vs, out'), w') /\
    reader_specs s xs (mkRS 0 None false s o) vs a' /\
    Holds w' (<[j := out']> bufs) (<[j := rs_out a']> ss).
Proof.
  intros HH Hij Hb1 Hb2 Hs1 Hs2 Hsafe.
  destruct (Holds_2 w bufs ss i j buf out s o HH Hij Hb1 Hb2 Hs1 Hs2)
    as (l1 & l2 & O & HB1 & HB2 & E1 & E2 & HI & Hk).
  destruct (new_iterator_ok w buf l1 HB1) as (it & Eit & Hit). rewrite E1 in Hit.
  assert (ok buf l1 s O w (mkReaders new_input_stream it out) (mkRS 0 None false s o)) as Hok.
  { split; try done; [by exists l2|]. split. exists 0%nat. split; [|split].
    - split; cbn; try done; [lia|]. intros r Hr.
      destruct (Buf_at _ _ _ _ _ HB1 Hr) as ([_ _ ? _] & _). lia.
    - intros _ r Hr. by destruct (Buf_at _ _ _ _ _ HB1 Hr) as ([_ _ ? _] & _).
    - done. }
  destruct (reader_loop_ok buf l1 s O xs _ _ _ Hok Hsafe) as (vs & r' & a' & w' & E & Hle & Hspec & Hok').
  unfold reader_program. run. rewrite Eit. cbn beta iota. rewrite E. cbn beta iota.
  eexists _, _, _, a'. split; [done|]. split; [exact Hspec|].
  destruct Hok' as [HB' Eb' (l2' & HB2' & HI' & E2') _ _].
  rewrite <-(list_insert_id (<[j := rd_out r']> bufs) i buf) by (by rewrite list_lookup_insert_ne).
  rewrite <-(list_insert_id (<[j := rs_out a']> ss) i s) by (by rewrite list_lookup_insert_ne).
  apply Hk. by exists l1, l2'.
Qed.
Theorem readers_refine_string_witness :
  exists w b, Holds w [b; new_IOBuf] [[x61; x62; x63]; []] /\
    exists vs out' w' a', reader_program [n_next; n_backup 1; i_copy 2; i_append 5] b new_IOBuf w
      = Some ((vs, out'), w') /\
      reader_specs [x61; x62; x63] [n_next; n_backup 1; i_copy 2; i_append 5]
        (mkRS 0 None false [x61; x62; x63] []) vs a' /\
      Holds w' [b; out'] [[x61; x62; x63]; rs_out a'].
Proof.
  destruct (@exec_ok malloc_zero (On1 0 (c_append [x61; x62; x63])) init_world [new_IOBuf; new_IOBuf]
    [[]; []] (Holds_new 2)) as (v & bufs & w & ss & E & HH & s & s' & Hs & -> & Ha).
  { by exists []. }
  destruct Ha as [[_ ->]|(_ & _ & n & Hn)]; [|done]. injection Hs as <-. cbn in HH.
  vm_compute in E. injection E as <- <- <-. eexists _, _. split; [exact HH|].
  destruct (readers_refine_string [n_next; n_backup 1; i_copy 2; i_append 5] _ _ _ 0 1 _ _ _ _ HH
    ltac:(done) eq_refl eq_refl eq_refl eq_refl) as (vs & out' & w' & a' & E & Es & HH').
  { split; [done|]. intros v1 a1 [(d & -> & _ & Hd & ->)|(_ & H0 & _)]; [|by cbn in H0].
    split.
    { exists (zlen d). split; [done|]. specialize (Hd eq_refl). destruct d as [|c d]; [done|].
      rewrite zlen_cons. pose proof (zlen_nonneg d). lia. }
    intros v2 a2 [-> ->]. split; [done|]. intros v3 a3 [-> ->]. split; [done|]. done. }
  eexists vs, out', w', a'. split; [exact E|]. split; [exact Es|exact HH'].
Defined.

End Readers.
