(* ===== verification/IOPortal.v ===== *)
(** * IOPortal: reading into an IOBuf

    utility/iobuf.cc: class [IOPortal] is an IOBuf with a chain of cached blocks,
    linked by [portal_next], into which it reads; the blocks are taken from the
    cache of the thread and stay with the portal until it is cleared, returns
    them or dies, so that successive reads fill the same blocks.

    What readv, preadv, IReader::ReadV and SSL_read do is a parameter: the
    function gets the room offered and returns the result with the bytes it
    wrote, which are then stored in the blocks as the system call would.
    [reader_ok] is their documented behaviour: a positive result is the number
    of bytes written, from the first piece of memory on, and at most the room.

    [Portal w O p l pc]: the portal [p] has the references [l] and the cached
    blocks [pc], none of them full and none of them in the cache of the thread.
    A program of reads and cuts refines the same program on strings
    ([portal_refines_string]). *)

From S2P Require Import Prelude IOBlock IOBufRef IOBufOps IOBufSpec IOBufCutter.
Import IOBlock IOBufRef IOBufOps IOBufSpec IOBufCutter(Buf_keep).

Module IOPortal.

Record IOPortal := mkPortal {
  p_buf : IOBuf;
  _block : option nat }.

Definition MAX_APPEND_IOVEC := 64.

(** An iovec in a block: [iov_base] is its offset in the block. *)
Record iovec := mkIov { iov_block : nat; iov_base : Z; iov_len : Z }.

Definition room (vec : list iovec) : Z := sumz iov_len vec.

(** What a system call that reads into [vec] stores there. *)
Fixpoint scatter (vec : list iovec) (d : list byte) : M World () :=
  match vec with
  | [] => mret ()
  | v :: vec =>
      _ ← write_at (iov_block v) (iov_base v) (take (Z.to_nat (iov_len v)) d);
      scatter vec (drop (Z.to_nat (iov_len v)) d)
  end.

Section Portal.
Context `{Alloc}.

(** p->u.portal_next = q *)
Definition set_portal_next (p : nat) (q : option nat) : M World () :=
  blk ← block_at p; set_block p (with_u (portal_next q) blk).

(** if (p == NULL) { ... }: the next block and the head of the chain; no block
    is ENOMEM. *)
Definition acquire_next (prev_p _block : option nat) : M World (option nat * option nat) :=
  p ← acquire_tls_block;
  match p with
  | None => mret (None, _block)
  | Some p =>
      match prev_p with
      | Some prev_p => _ ← set_portal_next prev_p (Some p); mret (Some p, _block)
      | None => mret (Some p, Some p)
      end
  end.

(** The do-while loop that prepares the pieces of memory: [_block] is the head
    of the chain, [p] the next block of it and [prev_p] the one before.  None is
    ENOMEM.  Every turn adds a piece, so MAX_APPEND_IOVEC turns are enough. *)
Fixpoint prepare (fuel : nat) (max_count : Z) (_block : option nat) (vec : list iovec) (space : Z)
    (prev_p p : option nat) : M World (option (list iovec) * option nat) :=
  match fuel with
  | O => undefined
  | S fuel =>
      '(p, _block) ← match p with
        | Some p => mret (Some p, _block)
        | None => acquire_next prev_p _block
        end;
      match p with
      | None => mret (None, _block)
      | Some p =>
          blk ← block_at p;
          let len := Z.min (left_space blk) (max_count - space) in
          let vec := vec ++ [mkIov p (size blk) len] in
          let space := space + len in
          if (max_count <=? space) || (MAX_APPEND_IOVEC <=? zlen vec) then mret (Some vec, _block)
          else
            blk ← block_at p;
            next ← portal_next_of blk;
            prepare fuel max_count _block vec space (Some p) next
      end
  end.

(** Reference what was read into the first cached block, and drop it when full. *)
Definition take_in (len : Z) (this : IOPortal) : M World IOPortal :=
  b ← deref (_block this);
  blk ← block_at b;
  buf ← _push_back_ref (mkRef (size blk) (u32 len) (Some b)) (p_buf this);
  blk ← block_at b;
  _ ← set_block b (with_size (u32 (size blk + len)) blk);
  blk ← block_at b;
  if full blk then
    saved_next ← portal_next_of blk;
    _ ← dec_ref b;
    mret (mkPortal buf saved_next)
  else mret (mkPortal buf (Some b)).

(** do { ... } while (total_len); *)
Fixpoint take_in_all (fuel : nat) (total_len : Z) (this : IOPortal) : M World IOPortal :=
  match fuel with
  | O => undefined
  | S fuel =>
      b ← deref (_block this);
      blk ← block_at b;
      let len := Z.min total_len (left_space blk) in
      let total_len := total_len - len in
      this ← take_in len this;
      if total_len =? 0 then mret this else take_in_all fuel total_len this
  end.

Definition return_cached_blocks (this : IOPortal) : M World IOPortal :=
  match _block this with
  | Some b => _ ← release_tls_block_chain b; mret (mkPortal (p_buf this) None)
  | None => mret this
  end.

(** append_from_reader; pappend_from_file_descriptor is the same text with the
    system call for ReadV.  [ReadV] gets the lengths of the pieces. *)
Definition append_from_reader (ReadV : list Z -> Z * list byte) (max_count : Z) (this : IOPortal)
    : M World (Z * IOPortal) :=
  '(vec, b) ← prepare (Z.to_nat MAX_APPEND_IOVEC) max_count (_block this) [] 0 None (_block this);
  let this := mkPortal (p_buf this) b in
  match vec with
  | None => mret (-1, this)
  | Some vec =>
      let '(nr, d) := ReadV (iov_len <$> vec) in
      _ ← scatter vec d;
      if nr <=? 0 then
        e ← lift (empty (p_buf this));
        this ← if e : bool then return_cached_blocks this else mret this;
        mret (nr, this)
      else
        this ← take_in_all (List.length vec) nr this;
        mret (nr, this)
  end.

Definition pappend_from_file_descriptor (readv preadv : list Z -> Z * list byte) (offset max_count : Z)
    (this : IOPortal) : M World (Z * IOPortal) :=
  append_from_reader (if offset <? 0 then readv else preadv) max_count this.

Definition append_from_file_descriptor (readv : list Z -> Z * list byte) (max_count : Z)
    (this : IOPortal) : M World (Z * IOPortal) :=
  pappend_from_file_descriptor readv readv (-1) max_count this.

(** SSL_read at its [k]-th call: its result, the bytes it wrote, SSL_get_error,
    and whether errno is non-fatal. *)
Record ssl_result := mkSSL { ssl_rc : Z; ssl_data : list byte; ssl_err : Z; ssl_nonfatal : bool }.

Definition SSL_ERROR_WANT_READ := 2.
Definition SSL_ERROR_SYSCALL := 5.

Fixpoint ssl_loop (SSL_read : nat -> Z -> ssl_result) (fuel k : nat) (max_count nr : Z) (this : IOPortal)
    : M World (Z * Z * IOPortal) :=
  match fuel with
  | O => undefined
  | S fuel =>
      b ← match _block this with Some b => mret (Some b) | None => acquire_tls_block end;
      match b with
      | None => mret (-1, SSL_ERROR_SYSCALL, this)
      | Some b =>
          let this := mkPortal (p_buf this) (Some b) in
          blk ← block_at b;
          let read_len := Z.min (left_space blk) (max_count - nr) in
          let r := SSL_read k read_len in
          let rc := ssl_rc r in
          _ ← write_at b (size blk) (ssl_data r);
          if 0 <? rc then
            this ← take_in rc this;
            let nr := nr + rc in
            if nr <? max_count then ssl_loop SSL_read fuel (S k) max_count nr this
            else mret (nr, ssl_err r, this)
          else if rc <? 0 then
            if (ssl_err r =? SSL_ERROR_WANT_READ) || ((ssl_err r =? SSL_ERROR_SYSCALL) && ssl_nonfatal r)
            then mret (if 0 <? nr then nr else rc, SSL_ERROR_WANT_READ, this)
            else mret (rc, ssl_err r, this)
          else mret (if 0 <? nr then nr else rc, ssl_err r, this)
      end
  end.

(** append_from_SSL_channel: (result, *ssl_error, this).  A turn that goes on
    has read a byte. *)
Definition append_from_SSL_channel (SSL_read : nat -> Z -> ssl_result) (max_count : Z) (this : IOPortal)
    : M World (Z * Z * IOPortal) :=
  ssl_loop SSL_read (S (Z.to_nat max_count)) 0 max_count 0 this.

Definition clear (this : IOPortal) : M World IOPortal :=
  buf ← IOBufRef.clear (p_buf this); return_cached_blocks (mkPortal buf (_block this)).

(** ~IOPortal, then ~IOBuf. *)
Definition destroy (this : IOPortal) : M World () :=
  this ← return_cached_blocks this; _ ← IOBufRef.clear (p_buf this); mret ().
End Portal.

(** IOPortal() and IOPortal(const IOPortal&) *)
Definition new_IOPortal : IOPortal := mkPortal new_IOBuf None.
Definition copy_IOPortal (rhs : IOPortal) : M World IOPortal :=
  buf ← copy_IOBuf (p_buf rhs); mret (mkPortal buf None).

(** ** Chains of cached blocks

    The blocks [pc] of a portal are linked from [hd], can take more bytes and are
    not in the cache of the thread. *)

Record Chain (w : World) (O : list nat) (hd : option nat) (pc : list nat) : Prop := mkChain {
  ch_chain : is_chain (heap w) hd pc;
  ch_room : forall b x, b ∈ pc -> heap w !! b = Some x -> size x < cap x;
  ch_inv : exists c, Inv_at w (block_head (tls w)) c (pc ++ O) /\
    num_blocks (tls w) = i32 (zlen c) /\ (forall b, b ∈ pc -> b ∉ c) }.

Lemma Chain_Inv w O hd pc : Chain w O hd pc -> Inv w (pc ++ O).
Proof. intros [_ _ (c & HI & Hn & _)]. by exists c. Qed.

Lemma Chain_nil w O : Inv w O -> Chain w O None [].
Proof.
  intros (c & HI & Hn). split; [done|by intros b x Hb%not_elem_of_nil|].
  exists c. split_and!; try done. by intros b Hb%not_elem_of_nil.
Qed.

Lemma Chain_perm w O O' hd pc : O ≡ₚ O' -> Chain w O hd pc -> Chain w O' hd pc.
Proof. intros E [H1 H2 (c & HI & Hn)]. split; try done. exists c. by rewrite <-E. Qed.

Lemma is_chain_live h hd c b : is_chain h hd c -> b ∈ c -> exists x n, h !! b = Some x /\ flags x = 0 /\ u x = portal_next n.
Proof.
  revert hd. induction c as [|a c IH]; intros hd; [by intros _ ?%not_elem_of_nil|].
  intros [_ (x & n & Hx & Hf & Hu & Hc)] [->|Hb]%elem_of_cons; [by exists x, n|by eapply IH].
Qed.

(** The link of a block of a chain. *)
Lemma is_chain_next h hd c1 b c2 :
  is_chain h hd ((c1 ++ [b]) ++ c2) -> exists x, h !! b = Some x /\ u x = portal_next (head c2).
Proof.
  revert hd. induction c1 as [|a c1 IH]; intros hd; cbn.
  - intros [_ (x & n & Hx & _ & Hu & Hc)]. exists x. split; [done|]. destruct c2; cbn in Hc; naive_solver.
  - intros [_ (x & n & _ & _ & _ & Hc)]. by eapply IH.
Qed.

(** A step that keeps the cache and the headers of the blocks that live on. *)
Record stable (w w' : World) : Prop := mkStable {
  st_tls : tls w' = tls w;
  st_heap : forall b y, heap w' !! b = Some y ->
    exists x, heap w !! b = Some x /\ flags y = flags x /\ u y = u x /\ cap y = cap x }.

#[local] Instance stable_preorder : PreOrder stable.
Proof.
  split.
  - intros w. split; [done|]. eauto 10.
  - intros w1 w2 w3 [T1 H1] [T2 H2]. split; [congruence|]. intros b z Hz.
    destruct (H2 b z Hz) as (y & Hy & ? & ? & ?). destruct (H1 b y Hy) as (x & Hx & ? & ? & ?).
    exists x. split_and!; congruence.
Qed.

Lemma quiet_stable w w' : quiet w w' -> stable w w'.
Proof.
  intros [T _ H]. split; [done|]. intros b y Hy. destruct (H b y Hy) as (x & Hx & ->). by exists x.
Qed.

(** Chains of blocks that live on stay chains. *)
Lemma stable_chain w w' hd pc :
  stable w w' -> is_chain (heap w) hd pc -> (forall b, b ∈ pc -> is_Some (heap w' !! b)) ->
  is_chain (heap w') hd pc.
Proof.
  intros [_ Hs] Hc Hlive. eapply is_chain_mono; [done|]. intros b x Hb Hx.
  destruct (Hlive b Hb) as [y Hy]. destruct (Hs b y Hy) as (x' & Hx' & ? & ? & _).
  exists y. simplify_eq. done.
Qed.

Lemma stable_chain_back w w' hd c : stable w w' -> is_chain (heap w') hd c -> is_chain (heap w) hd c.
Proof.
  intros [_ Hs] Hc. eapply is_chain_mono; [done|]. intros b y Hb Hy.
  destruct (Hs b y Hy) as (x & Hx & ? & ? & _). exists x. split_and!; congruence.
Qed.

Lemma Chain_stable w w' O O' hd pc :
  Chain w O hd pc -> stable w w' -> Inv w' (pc ++ O') ->
  (forall b y, b ∈ pc -> heap w' !! b = Some y -> size y < cap y) ->
  Chain w' O' hd pc.
Proof.
  intros [Hc _ (c & HI & Hn & Hd)] Hs HI' Hroom.
  assert (forall b, b ∈ pc -> is_Some (heap w' !! b)) as Hlive.
  { intros b Hb. destruct (Inv_live w' _ b HI') as (x & Hx & _); [set_solver|by eexists]. }
  split; [by eapply stable_chain|done|]. destruct HI' as (c' & HI' & Hn').
  assert (c' = c) as ->.
  { eapply is_chain_det; [|apply (inv_chain _ _ _ _ HI)]. rewrite <-(st_tls _ _ Hs).
    eapply stable_chain_back; [done|]. apply (inv_chain _ _ _ _ HI'). }
  by exists c.
Qed.

(** Writing the link of a block outside of the cache. *)
Lemma Inv_at_set_u w hd c O b x n :
  Inv_at w hd c O -> heap w !! b = Some x -> flags x = 0 -> b ∉ c ->
  let w' := set_heap (<[b := with_u (portal_next n) x]> (heap w)) w in
  Inv_at w' hd c O /\ w ≼ w'.
Proof.
  intros [H1 H2 H3 H4] Hx Hf Hn. cbn. split; [|by eapply wle_insert]. split; cbn.
  - eapply is_chain_mono; [done|]. intros b' z Hb' Hz. rewrite lookup_insert_ne by set_solver. eauto.
  - intros b'. specialize (H2 b'). destruct (decide (b = b')) as [<-|Hne].
    + rewrite lookup_insert_eq. rewrite Hx in H2. cbn. destruct H2 as (? & ? & ?).
      split_and!; try done. by apply wf_with_u.
    + by rewrite lookup_insert_ne.
  - intros b' Hb'. apply H3. destruct (decide (b = b')) as [<-|Hne]; [done|].
    by rewrite lookup_insert_ne in Hb'.
  - by rewrite (ordinary_insert_same _ _ x).
Qed.

(** Linking a chain behind the last block of another one. *)
Lemma is_chain_link h hd pc lb x n c2 :
  is_chain h hd (pc ++ [lb]) -> h !! lb = Some x -> is_chain h n c2 -> lb ∉ c2 ->
  is_chain (<[lb := with_u (portal_next n) x]> h) hd ((pc ++ [lb]) ++ c2).
Proof.
  intros Hc Hx Hc2 Hni. pose proof (is_chain_nodup _ _ _ Hc) as Hnd.
  revert hd Hc. induction pc as [|b pc IH]; intros hd.
  - intros [-> (x' & m & Hx' & Hf & _)]. cbn. assert (x' = x) as -> by congruence. split; [done|].
    exists (with_u (portal_next n) x), n. rewrite lookup_insert_eq. split_and!; try done.
    eapply is_chain_mono; [done|]. intros b y Hb Hy. rewrite lookup_insert_ne by set_solver. eauto.
  - intros [-> (x' & m & Hx' & Hf & Hu & Hc)]. cbn in Hnd. apply NoDup_cons in Hnd as [Hb Hnd].
    cbn. split; [done|]. exists x', m. rewrite lookup_insert_ne by set_solver. split_and!; try done.
    by apply IH.
Qed.

(** *** Giving the blocks back *)

Section Release.
Context `{Alloc}.

(** When the cache is full enough they are released. *)
Lemma give_up_loop_spec fuel w b pc c hd O n :
  is_chain (heap w) (Some b) (b :: pc) -> Inv_at w hd c ((b :: pc) ++ O) -> (List.length pc < fuel)%nat ->
  exists n' w', give_up_loop fuel b n w = Some (n', w') /\ Inv_at w' hd c O /\ w ≼ w' /\ tls w' = tls w.
Proof.
  revert w b pc n. induction fuel as [|fuel IH]; intros w b pc n Hc HI Hf; [lia|]. cbn [give_up_loop].
  pose proof (is_chain_nodup _ _ _ Hc) as [Hb Hnd]%NoDup_cons.
  destruct Hc as [_ (x & m & Hx & Hfl & Hu & Hc)].
  unfold block_at at 1, portal_next_of. run. rewrite Hx. cbn beta iota. rewrite Hu. cbn beta iota.
  destruct (dec_ref_spec w hd c (pc ++ O) b HI) as (w1 & E & HI1 & Hle & [Ht _]).
  run. rewrite E. cbn beta iota. destruct pc as [|b' pc]; cbn in Hc.
  - subst m. by exists (n + 1), w1.
  - destruct Hc as [-> Hc].
    assert (is_chain (heap w1) (Some b') (b' :: pc)) as Hc1.
    { apply (is_chain_mono (heap w)); [by split|]. intros b0 y Hb0 Hy.
      rewrite (dec_ref_frame _ _ _ b0 E) by (intros ->; done). eauto. }
    destruct (IH w1 b' pc (n + 1) Hc1 HI1) as (n' & w2 & E2 & HI2 & Hle2 & Ht2); [cbn in Hf; lia|].
    exists n', w2. split; [done|]. split; [done|]. split; [by etrans|congruence].
Qed.

Lemma last_loop_spec fuel w b pc n :
  is_chain (heap w) (Some b) (b :: pc) -> (List.length pc < fuel)%nat ->
  (forall b' x, b' ∈ b :: pc -> heap w !! b' = Some x -> size x < cap x) ->
  exists front lb, b :: pc = front ++ [lb] /\
    last_loop fuel b n w = Some ((lb, n + zlen (b :: pc)), w).
Proof.
  revert b pc n. induction fuel as [|fuel IH]; intros b pc n Hc Hf Hroom; [lia|]. cbn [last_loop].
  destruct Hc as [_ (x & m & Hx & Hfl & Hu & Hc)].
  unfold block_at, portal_next_of. run. rewrite Hx. cbn beta iota.
  assert (full x = false) as -> by (apply full_false, (Hroom b); [by left|done]). cbn beta iota. rewrite Hu. cbn beta iota.
  destruct pc as [|b' pc]; cbn in Hc.
  - subst m. by exists [], b.
  - destruct Hc as [-> Hc]. destruct (IH b' pc (n + 1)) as (front & lb & E & ->);
      [by split|cbn in Hf; lia|intros b0 y Hb0; apply Hroom; by right|].
    exists (b :: front), lb. cbn. rewrite E. split; [done|]. rewrite !zlen_cons. do 3 f_equal. lia.
Qed.

Lemma release_tls_block_chain_ok w O b pc :
  Chain w O (Some b) (b :: pc) ->
  exists w', release_tls_block_chain b w = Some ((), w') /\ Inv w' O /\ w ≼ w'.
Proof.
  intros [Hc Hroom (c & HI & Hn & Hd)]. unfold release_tls_block_chain. run.
  assert (List.length pc < chain_fuel w)%nat as Hf.
  { assert (Inv_at w (Some b) (b :: pc) (c ++ O)) as HI2.
    { destruct HI as [J1 J2 J3 J4]. split; try done.
      by rewrite app_assoc, (Permutation_app_comm (b :: pc)), <-app_assoc. }
    pose proof (chain_fuel_enough _ _ _ _ HI2) as Hf. cbn in Hf. lia. }
  destruct (Z.leb_spec MAX_BLOCKS_PER_THREAD (num_blocks (tls w))).
  - destruct (give_up_loop_spec _ w b pc c _ O 0 Hc HI Hf) as (n & w1 & -> & HI1 & Hle & Ht).
    cbn beta iota. eexists. split; [done|]. split; [|etrans; [exact Hle|by apply wle_same_heap]].
    exists c. cbn. rewrite Ht. split; [|done]. by eapply Inv_at_heap.
  - destruct (last_loop_spec _ w b pc 0 Hc Hf Hroom) as (front & lb & E & ->). cbn beta iota.
    rewrite E in *. assert (lb ∉ c) as Hni by (apply Hd; set_solver).
    destruct (is_chain_live _ _ _ lb Hc) as (x & m & Hx & Hfl & _); [set_solver|].
    rewrite (block_at_Some _ _ _ Hx). cbn beta iota. unfold set_block, modify.
    destruct (Inv_at_set_u w _ c _ lb x (block_head (tls w)) HI Hx Hfl Hni) as ([J1 J2 J3 J4] & Hle).
    eexists. split; [done|]. split; [|etrans; [exact Hle|by apply wle_same_heap]].
    exists ((front ++ [lb]) ++ c). cbn. split; [split; cbn; try done|].
    + apply is_chain_link; try done. apply (inv_chain _ _ _ _ HI).
    + by rewrite (Permutation_app_comm (front ++ [lb]) c), <-app_assoc.
    + rewrite Hn, Z.add_0_l, wraps_add_l, !zlen_app. f_equal. lia.
Qed.

Lemma return_cached_blocks_ok w O hd pc buf :
  Chain w O hd pc ->
  exists w', return_cached_blocks (mkPortal buf hd) w = Some (mkPortal buf None, w') /\ Inv w' O /\ w ≼ w'.
Proof.
  intros HC. unfold return_cached_blocks. cbn [_block]. pose proof (ch_chain _ _ _ _ HC) as Hc.
  destruct pc as [|b pc]; cbn in Hc; [subst hd|destruct Hc as [-> _]].
  - exists w. split; [done|]. split; [|done]. exact (Chain_Inv _ _ _ _ HC).
  - destruct (release_tls_block_chain_ok w O b pc HC) as (w' & E & HI & Hle).
    exists w'. run. by rewrite E.
Qed.
End Release.

(** *** Preparing the pieces of memory *)

Definition size_of (w : World) (b : nat) : Z := match heap w !! b with Some x => size x | None => 0 end.
Definition free (w : World) (b : nat) : Z :=
  match heap w !! b with Some x => cap x - size x | None => 0 end.

(** The free space of the blocks [pcs], at most [rem] bytes of it. *)
Fixpoint pieces (w : World) (pcs : list nat) (rem : Z) : list iovec :=
  match pcs with
  | [] => []
  | b :: pcs =>
      let len := Z.min (free w b) rem in mkIov b (size_of w b) len :: pieces w pcs (rem - len)
  end.

Lemma pieces_ext w w' pcs rem :
  (forall b, b ∈ pcs -> size_of w' b = size_of w b /\ free w' b = free w b) ->
  pieces w' pcs rem = pieces w pcs rem.
Proof.
  revert rem. induction pcs as [|b pcs IH]; intros rem H; [done|]. cbn [pieces].
  destruct (H b) as [-> ->]; [by left|]. f_equal. apply IH. intros b' Hb'. apply H. by right.
Qed.

Lemma pieces_snoc w pcs b rem :
  pieces w (pcs ++ [b]) rem =
    pieces w pcs rem ++ [mkIov b (size_of w b) (Z.min (free w b) (rem - room (pieces w pcs rem)))].
Proof.
  revert rem. induction pcs as [|a pcs IH]; intros rem.
  - cbn. by rewrite Z.sub_0_r.
  - cbn [pieces app]. rewrite IH. unfold room. rewrite sumz_cons. cbn [iov_len].
    by rewrite Z.sub_add_distr.
Qed.

Lemma length_pieces w pcs rem : List.length (pieces w pcs rem) = List.length pcs.
Proof. revert rem. induction pcs as [|b pcs IH]; intros rem; [done|]. cbn. by rewrite IH. Qed.

(** The blocks of a chain are live and ordinary. *)
Lemma Chain_live w O hd pc b :
  Chain w O hd pc -> b ∈ pc -> exists x, heap w !! b = Some x /\ flags x = 0 /\ wf_block x /\ size x < cap x.
Proof.
  intros HC Hb. destruct (is_chain_live _ _ _ b (ch_chain _ _ _ _ HC) Hb) as (x & n & Hx & Hf & _).
  destruct (Inv_live w _ b (Chain_Inv _ _ _ _ HC)) as (x' & Hx' & Hwf); [set_solver|].
  assert (x' = x) as -> by congruence. exists x. split_and!; try done. by eapply (ch_room _ _ _ _ HC).
Qed.

Section Prepare.
Context `{Alloc}.

Lemma acquire_next_ok w O hd pc :
  Chain w O hd pc ->
  exists p hd' w', acquire_next (last pc) hd w = Some ((p, hd'), w') /\ w ≼ w' /\
    match p with
    | None => Chain w' O hd' pc /\ exists n, malloc_ok n = false
    | Some b => Chain w' O hd' (pc ++ [b]) /\
        (forall b', b' ∈ pc -> size_of w' b' = size_of w b' /\ free w' b' = free w b')
    end.
Proof.
  intros HC. pose proof HC as [Hc Hroom (c & HI & Hn & Hd)].
  destruct (acquire_tls_block_acquired w c _ HI Hn) as (p & w1 & E & [Hle (c' & HI1 & Hn1 & Hsub & Hni) Hfr Hb]).
  unfold acquire_next. run. rewrite E. cbn beta iota.
  assert (forall b, b ∈ pc -> p <> Some b /\ heap w1 !! b = heap w !! b) as Hsame.
  { intros b Hbpc. assert (p <> Some b) as Hne.
    { intros ->. destruct Hb as [[Hb|Hb] _]; [by eapply Hd|].
      destruct (Chain_live _ _ _ _ b HC Hbpc) as (x & Hx & _). congruence. }
    split; [done|]. apply Hfr; [by apply Hd|done]. }
  assert (is_chain (heap w1) hd pc) as Hc1.
  { apply (is_chain_mono (heap w)); [done|]. intros b x Hbpc Hx. destruct (Hsame b Hbpc) as [_ ->]. eauto. }
  assert (forall b x, b ∈ pc -> heap w1 !! b = Some x -> size x < cap x) as Hroom1.
  { intros b x Hbpc Hx. destruct (Hsame b Hbpc) as [_ E1]. rewrite E1 in Hx. by eapply Hroom. }
  destruct p as [b|]; cbn [option_list app] in HI1.
  2:{ exists None, hd, w1. split; [done|]. split; [done|]. split; [|done]. split; [done|done|].
      exists c'. split_and!; try done. intros b Hbpc ?%Hsub. by eapply Hd. }
  destruct Hb as [_ (x & Hx & Hfx & Hsx & Hux)].
  assert (is_chain (heap w1) (Some b) [b]) as Hcb by (split; [done|]; by exists x, None).
  assert (b ∉ pc) as Hbpc by (intros Hb; by destruct (Hsame b Hb)).
  assert (forall b', b' ∈ pc ++ [b] -> b' ∉ c') as Hd1.
  { intros b' [Hb'|Hb']%elem_of_app; [intros ?%Hsub; by eapply Hd|].
    apply list_elem_of_singleton in Hb' as ->. by apply Hni. }
  assert (b :: pc ++ O ≡ₚ (pc ++ [b]) ++ O) as Hperm by by rewrite <-app_assoc, Permutation_middle.
  destruct (last pc) as [lb|] eqn:El.
  - apply last_Some in El as [front ->].
    destruct (is_chain_live _ _ _ lb Hc1) as (y & m & Hy & Hfy & _); [set_solver|].
    unfold set_portal_next, set_block, modify. run. rewrite (block_at_Some _ _ _ Hy). cbn beta iota.
    rewrite Hperm in HI1. assert (lb ∉ c') as Hlc by (apply Hd1; set_solver).
    destruct (Inv_at_set_u w1 _ c' _ lb y (Some b) HI1 Hy Hfy Hlc) as [HI2 Hle2].
    eexists _, _, _. split; [done|]. split; [by etrans|]. split; [split; cbn|].
    + apply is_chain_link; try done. intros ->%list_elem_of_singleton. apply Hbpc. set_solver.
    + intros b' z Hb' Hz. destruct (decide (lb = b')) as [<-|Hne].
      * rewrite lookup_insert_eq in Hz. injection Hz as <-. refine (Hroom1 lb y _ Hy). set_solver.
      * rewrite lookup_insert_ne in Hz by done. apply elem_of_app in Hb' as [Hb'|Hb'].
        -- by eapply Hroom1.
        -- apply list_elem_of_singleton in Hb' as ->. congruence.
    + by exists c'.
    + intros b' Hb'. destruct (Hsame b' Hb') as [_ E']. unfold size_of, free. cbn.
      destruct (decide (lb = b')) as [<-|Hne].
      * rewrite lookup_insert_eq, <-E', Hy. done.
      * by rewrite lookup_insert_ne, E' by done.
  - apply last_None in El as ->. cbn in Hc. exists (Some b), (Some b), w1.
    split; [done|]. split; [done|]. split; [|by intros ? ?%not_elem_of_nil].
    split; [done| |by exists c']. intros b' z ->%list_elem_of_singleton Hz. congruence.
Qed.

Lemma prepare_ok fuel w O hd pc1 pc2 max_count :
  Chain w O hd (pc1 ++ pc2) -> 64 - zlen pc1 <= Z.of_nat fuel -> zlen pc1 < 64 ->
  let vec := pieces w pc1 max_count in
  exists res hd' w' pc', prepare fuel max_count hd vec (room vec) (last pc1) (head pc2) w
      = Some ((res, hd'), w') /\ Chain w' O hd' pc' /\ w ≼ w' /\
    match res with
    | None => exists n, malloc_ok n = false
    | Some vec => vec <> [] /\ exists k, vec = pieces w' (take k pc') max_count
    end.
Proof.
  revert w hd pc1 pc2. induction fuel as [|fuel IH]; intros w hd pc1 pc2 HC Hf Hl vec; [lia|].
  cbn [prepare].
  assert (exists res hd1 w1 pc3, (match head pc2 with
      | Some p => mret (Some p, hd)
      | None => acquire_next (last pc1) hd end) w = Some ((res, hd1), w1) /\ w ≼ w1 /\
      match res with
      | None => Chain w1 O hd1 pc1 /\ exists n, malloc_ok n = false
      | Some b => Chain w1 O hd1 ((pc1 ++ [b]) ++ pc3) /\
          (forall b', b' ∈ pc1 -> size_of w1 b' = size_of w b' /\ free w1 b' = free w b')
      end) as (res & hd1 & w1 & pc3 & E & Hle & Hres).
  { destruct pc2 as [|b pc3]; cbn [head].
    - rewrite app_nil_r in HC. destruct (acquire_next_ok w O hd pc1 HC) as (p & hd' & w' & E & Hle & Hp).
      exists p, hd', w', []. split; [done|]. split; [done|]. destruct p; [|done]. by rewrite app_nil_r.
    - exists (Some b), hd, w, pc3. split; [done|]. split; [done|]. by rewrite <-app_assoc. }
  run_in E. run. rewrite E. cbn beta iota. destruct res as [b|].
  2:{ destruct Hres as [HC1 Hm]. by exists None, hd1, w1, pc1. }
  destruct Hres as [HC1 Hsame].
  destruct (Chain_live _ _ _ _ b HC1) as (x & Hx & Hfx & [_ Hs Hc _] & Hroom); [set_solver|].
  rewrite (block_at_Some _ _ _ Hx). cbn beta iota.
  assert (vec ++ [mkIov b (size x) (Z.min (left_space x) (max_count - room vec))]
    = pieces w1 (pc1 ++ [b]) max_count) as Ev.
  { rewrite pieces_snoc. rewrite (pieces_ext w w1 pc1) by done. fold vec. unfold size_of, free.
    rewrite Hx. unfold left_space. by rewrite wrapu_small by lia. }
  rewrite Ev. assert (zlen (pieces w1 (pc1 ++ [b]) max_count) = zlen pc1 + 1) as Ez.
  { unfold zlen. rewrite length_pieces, length_app. cbn. lia. }
  destruct (_ || _) eqn:Estop.
  - eexists (Some _), hd1, w1, _. split; [done|]. split; [exact HC1|]. split; [done|]. split.
    + intros E0. rewrite E0 in Ez. change (zlen (@nil iovec)) with 0 in Ez. pose proof (zlen_nonneg pc1). lia.
    + exists (List.length (pc1 ++ [b])). by rewrite take_app_length.
  - rewrite Ez in Estop. unfold MAX_APPEND_IOVEC in Estop.
    destruct (is_chain_next _ _ pc1 b pc3 (ch_chain _ _ _ _ HC1)) as (x' & Hx' & Hu).
    assert (x' = x) as -> by congruence.
    rewrite (block_at_Some _ _ _ Hx). cbn beta iota. unfold portal_next_of. run. rewrite Hu. cbn beta iota.
    replace (room vec + Z.min (left_space x) (max_count - room vec))
      with (room (pieces w1 (pc1 ++ [b]) max_count)).
    2:{ rewrite <-Ev. unfold room. rewrite sumz_app, sumz_cons. cbn. lia. }
    replace (Some b) with (last (pc1 ++ [b])) by by rewrite last_snoc.
    destruct (IH w1 hd1 (pc1 ++ [b]) pc3 HC1) as (res & hd2 & w2 & pc' & -> & HC2 & Hle2 & Hr).
    { unfold zlen in *. rewrite length_app. cbn. lia. }
    { unfold zlen in *. rewrite length_app. cbn. lia. }
    exists res, hd2, w2, pc'. split; [done|]. split; [done|]. split; [by etrans|done].
Qed.
End Prepare.

(** *** What was read *)

(** The bytes [d] are in the free space of the blocks [pcs]. *)
Fixpoint filled (w : World) (pcs : list nat) (d : list byte) : Prop :=
  match pcs with
  | [] => d = []
  | b :: pcs => exists x, heap w !! b = Some x /\
      let n := Z.min (zlen d) (cap x - size x) in
      slice (size x) n (data x) = take (Z.to_nat n) d /\ filled w pcs (drop (Z.to_nat n) d)
  end.

Lemma filled_ext w w' pcs d :
  (forall b x, b ∈ pcs -> heap w !! b = Some x ->
     exists y, heap w' !! b = Some y /\ size y = size x /\ cap y = cap x /\ data y = data x) ->
  filled w pcs d -> filled w' pcs d.
Proof.
  revert d. induction pcs as [|b pcs IH]; intros d H; [done|]. intros (x & Hx & Hs & Hf).
  destruct (H b x) as (y & Hy & Es & Ec & Ed); [by left|done|].
  exists y. rewrite Es, Ec, Ed. split; [done|]. split; [done|]. apply IH; [|done].
  intros b' x' Hb'. apply H. by right.
Qed.

(** Steps that change nothing but the contents of blocks. *)
Record writes (w w' : World) : Prop := mkWrites {
  wr_tls : tls w' = tls w;
  wr_heap : forall b x, heap w !! b = Some x -> exists y, heap w' !! b = Some y /\ y = with_data (data y) x;
  wr_none : forall b, heap w !! b = None -> heap w' !! b = None }.

Lemma writes_stable w w' : writes w w' -> stable w w'.
Proof.
  intros [T H N]. split; [done|]. intros b y Hy. destruct (heap w !! b) as [x|] eqn:Hx.
  - destruct (H b x Hx) as (y' & Hy' & E). exists x.
    assert (y = y') as -> by congruence. by rewrite E.
  - rewrite (N b Hx) in Hy. done.
Qed.

#[local] Instance writes_preorder : PreOrder writes.
Proof.
  split.
  - intros w. split; try done. intros b x Hx. exists x. split; [done|]. by destruct x.
  - intros w1 w2 w3 [T1 H1 N1] [T2 H2 N2]. split; [congruence| |eauto].
    intros b x Hx. destruct (H1 b x Hx) as (y & Hy & E1). destruct (H2 b y Hy) as (z & Hz & E2).
    exists z. split; [done|]. rewrite E2, E1. by destruct z.
Qed.

Lemma write_at_eq w b x off d :
  heap w !! b = Some x -> 0 <= off -> off + zlen d <= cap x ->
  let w' := set_heap (<[b := with_data (overwrite off d (data x)) x]> (heap w)) w in
  write_at b off d w = Some ((), w') /\ writes w w'.
Proof.
  intros Hx Ho Hc. unfold write_at, set_block. run. rewrite (block_at_Some _ _ _ Hx). cbn beta iota.
  destruct (_ && _) eqn:E; [|lia]. split; [done|]. split; cbn; [done| |].
  - intros b' x' Hx'. destruct (decide (b = b')) as [<-|Hne].
    + rewrite lookup_insert_eq. assert (x' = x) as -> by congruence. eexists. split; [done|]. done.
    + rewrite lookup_insert_ne by done. exists x'. split; [done|]. by destruct x'.
  - intros b' Hb'. rewrite lookup_insert_ne; [done|]. intros ->. congruence.
Qed.

Lemma room_pieces_nonneg w R pcs rem :
  Inv w R -> (forall b, b ∈ pcs -> exists x, heap w !! b = Some x) -> 0 <= rem ->
  0 <= room (pieces w pcs rem).
Proof.
  intros HI. revert rem. induction pcs as [|b pcs IH]; intros rem Hlive Hrem; [done|].
  destruct (Hlive b) as [x Hx]; [by left|]. pose proof (Inv_wf _ _ _ _ HI Hx) as [_ Ws _ _].
  cbn [pieces]. unfold room. rewrite sumz_cons. cbn [iov_len]. unfold free. rewrite Hx.
  pose proof (IH (rem - Z.min (cap x - size x) rem)) as H. unfold room in H.
  assert (0 <= sumz iov_len (pieces w pcs (rem - Z.min (cap x - size x) rem))); [|lia].
  apply H; [|lia]. intros b' Hb'. apply Hlive. by right.
Qed.

Lemma room_pieces_le w pcs rem : 0 <= rem -> room (pieces w pcs rem) <= rem.
Proof.
  revert rem. induction pcs as [|b pcs IH]; intros rem Hrem; [done|].
  cbn [pieces]. unfold room. rewrite sumz_cons. cbn [iov_len].
  destruct (Z.min_spec (free w b) rem) as [[? E]|[? E]]; rewrite E.
  - specialize (IH (rem - free w b)). unfold room in IH. lia.
  - specialize (IH (rem - rem)). unfold room in IH. lia.
Qed.

Lemma scatter_ok w R pcs rem d :
  Inv w R -> NoDup pcs -> (forall b, b ∈ pcs -> exists x, heap w !! b = Some x) -> 0 <= rem ->
  zlen d <= room (pieces w pcs rem) ->
  exists w', scatter (pieces w pcs rem) d w = Some ((), w') /\ filled w' pcs d /\ Inv w' R /\
    w ≼ w' /\ writes w w' /\ (forall b, b ∉ pcs -> heap w' !! b = heap w !! b).
Proof.
  revert w rem d. induction pcs as [|b pcs IH]; intros w rem d HI Hnd Hlive Hrem Hd.
  { exists w. cbn in Hd. pose proof (zlen_nonneg d). assert (d = []) as -> by (apply zlen_0_inv; unfold room in Hd; cbn in Hd; lia). done. }
  apply NoDup_cons in Hnd as [Hb Hnd]. destruct (Hlive b) as [x Hx]; [by left|].
  pose proof (Inv_wf _ _ _ _ HI Hx) as Hwf. pose proof Hwf as [Wf Ws Wc Wd].
  cbn [pieces scatter iov_block iov_base iov_len] in *. unfold room in Hd. rewrite sumz_cons in Hd.
  fold (room (pieces w pcs (rem - Z.min (free w b) rem))) in Hd. cbn [iov_len] in Hd.
  unfold size_of, free in *. rewrite Hx in *. set (len := Z.min (cap x - size x) rem) in *.
  set (d1 := take (Z.to_nat len) d). assert (zlen d1 = Z.min len (zlen d)) as Z1.
  { unfold d1, zlen. rewrite length_take. lia. }
  destruct (write_at_spec w R b x (size x) d1 HI Hx) as (w1 & E1 & HI1 & Hle1 & _ & Hx1); [lia|lia|].
  destruct (write_at_eq w b x (size x) d1 Hx) as [E1' Hw1]; [lia|lia|].
  assert (w1 = set_heap (<[b := with_data (overwrite (size x) d1 (data x)) x]> (heap w)) w) as Ew1 by congruence.
  rewrite <-Ew1 in Hw1.
  assert (forall b', b' <> b -> heap w1 !! b' = heap w !! b') as Hfr1.
  { intros b' Hne. rewrite Ew1. cbn. by rewrite lookup_insert_ne. }
  assert (pieces w pcs (rem - len) = pieces w1 pcs (rem - len)) as Ep.
  { symmetry. apply pieces_ext. intros b' Hb'. unfold size_of, free. by rewrite Hfr1 by (intros ->; done). }
  rewrite Ep in *. pose proof (zlen_nonneg d).
  destruct (IH w1 (rem - len) (drop (Z.to_nat len) d) HI1 Hnd) as (w2 & E2 & Hf2 & HI2 & Hle2 & Hw2 & Hfr2).
  { intros b' Hb'. rewrite Hfr1 by (intros ->; done). apply Hlive. by right. }
  { lia. }
  { pose proof (room_pieces_nonneg w1 R pcs (rem - len) HI1) as Hr.
    assert (0 <= room (pieces w1 pcs (rem - len))).
    { apply Hr; [|lia]. intros b' Hb'. rewrite Hfr1 by (intros ->; done). apply Hlive. by right. }
    unfold zlen in *. rewrite length_drop. lia. }
  run. rewrite E1. cbn beta iota. exists w2. split; [done|]. split; [|split_and!; try done].
  - exists (with_data (overwrite (size x) d1 (data x)) x). rewrite Hfr2 by done. split; [done|].
    cbn [size cap data with_data]. pose proof (room_pieces_le w1 pcs (rem - len) ltac:(lia)) as Hr.
    set (n := Z.min (zlen d) (cap x - size x)).
    assert (n = zlen d1 /\ drop (Z.to_nat n) d = drop (Z.to_nat len) d) as [En Ed].
    { destruct (decide (zlen d <= len)); [|split; [lia|f_equal; lia]].
      split; [lia|]. rewrite !drop_ge by (unfold zlen in *; lia). done. }
    rewrite Ed, En, slice_overwrite_at by lia. split; [|done]. rewrite Z1. unfold d1.
    destruct (decide (zlen d <= len)); [|by rewrite Z.min_l by lia].
    rewrite !take_ge by (unfold zlen in *; lia). done.
  - by etrans.
  - by etrans.
  - intros b' Hb'. rewrite Hfr2, Hfr1 by set_solver. done.
Qed.

(** *** Referencing what was read *)

(** The blocks [pcs] keep their bytes and their sizes. *)
Definition same_blocks (w w' : World) (pcs : list nat) : Prop :=
  forall b x, b ∈ pcs -> heap w !! b = Some x ->
    exists y, heap w' !! b = Some y /\ size y = size x /\ cap y = cap x /\ data y = data x.

Lemma same_blocks_trans w1 w2 w3 pcs :
  same_blocks w1 w2 pcs -> same_blocks w2 w3 pcs -> same_blocks w1 w3 pcs.
Proof.
  intros H1 H2 b x Hb Hx. destruct (H1 b x Hb Hx) as (y & Hy & ? & ? & ?).
  destruct (H2 b y Hb Hy) as (z & Hz & ? & ? & ?). exists z. split_and!; congruence.
Qed.

Lemma quiet_same_blocks w w' R pcs :
  quiet w w' -> Inv w' R -> (forall b, b ∈ pcs -> b ∈ R) -> same_blocks w w' pcs.
Proof.
  intros Hq HI Hsub b x Hb Hx. destruct (Inv_live w' R b HI (Hsub b Hb)) as (y & Hy & _).
  destruct (quiet_heap _ _ Hq b y Hy) as (x' & Hx' & Ey). assert (x' = x) as -> by congruence.
  exists y. split; [done|]. by rewrite Ey.
Qed.

Lemma same_blocks_room w w' O hd pc :
  Chain w O hd pc -> same_blocks w w' pc ->
  forall b y, b ∈ pc -> heap w' !! b = Some y -> size y < cap y.
Proof.
  intros HC Hs b y Hb Hy. destruct (Chain_live _ _ _ _ b HC Hb) as (x & Hx & _ & _ & Hr).
  destruct (Hs b x Hb Hx) as (y' & Hy' & ? & ? & _). assert (y' = y) as -> by congruence. lia.
Qed.

Lemma Chain_tail w O b pc x :
  Chain w O (Some b) (b :: pc) -> heap w !! b = Some x ->
  exists n, u x = portal_next n /\ Chain w (b :: O) n pc.
Proof.
  intros [[_ (x' & n & Hx' & _ & Hu & Hc)] Hr (c & HI & Hn & Hd)] Hx.
  assert (x' = x) as -> by congruence. exists n. split; [done|]. split; [done| |].
  - intros b' y Hb'. apply Hr. by right.
  - exists c. split; [by rewrite <-Permutation_middle|]. split; [done|]. intros b' Hb'. apply Hd. by right.
Qed.

(** A reference to [n] bytes at the end of the block [b], whose size then grows. *)
Lemma push_and_grow w R buf l b x n d :
  Buf w buf l -> Inv w (blocks l ++ R) -> b ∈ R -> heap w !! b = Some x -> 0 < n ->
  size x + n <= cap x -> slice (size x) n (data x) = d -> total l + n < 2 ^ 31 ->
  exists buf' w3 x3,
    _push_back_ref (mkRef (size x) (u32 n) (Some b)) buf w = Some (buf', w3) /\
    quiet w w3 /\ heap w3 !! b = Some x3 /\ x3 = with_nshared (nshared x3) x /\
    let w4 := set_heap (<[b := with_size (size x + n) x3]> (heap w3)) w3 in
    exists l', Buf w4 buf' l' /\ Inv w4 (blocks l' ++ R) /\ w ≼ w4 /\ bytes w4 l' = bytes w l ++ d /\
      exists A, Inv w3 (A ++ R).
Proof.
  intros [HR HW] HI Hb Hx Hn Hc Hd Ht. pose proof (Inv_wf _ _ _ _ HI Hx) as [Wf Ws Wc Wd].
  pose proof (Rep_ok _ _ HR) as Ol. rewrite (wrapu_small 32 n) by lia.
  set (r := mkRef (size x) n (Some b)).
  assert (ok_ref r) as Or by (split; cbn; eauto; lia).
  destruct (push_or_move_spec false buf l r b w R HR Or eq_refl) as (buf' & w3 & E3 & HR' & HI3 & Hq3);
    [cbn; lia|split; [done|by eexists]|].
  destruct (Inv_live w3 _ b HI3) as (x3 & Hx3 & _); [apply elem_of_app; by right|].
  destruct (quiet_heap _ _ Hq3 b x3 Hx3) as (x' & Hx' & Ex3). assert (x' = x) as -> by congruence.
  exists buf', w3, x3. split; [exact E3|]. split; [done|]. split; [done|]. split; [done|].
  assert (size x3 = size x /\ cap x3 = cap x /\ data x3 = data x) as (Es3 & Ec3 & Ed3) by (by rewrite Ex3).
  destruct (set_size_spec w3 _ b _ (size x + n) HI3 Hx3) as (w4 & E4 & HI4 & Hle4 & _ & Hx4); [lia|].
  injection E4 as <-. intros w4.
  destruct (grow_result w w w4 l r b (with_size (size x + n) x3) d buf' R HI) as (l' & HB' & HI' & Hle' & Eb'); try done.
  - etrans; [by apply quiet_wle|done].
  - cbn. by rewrite Ed3.
  - exists l'. split_and!; try done. by eexists.
Qed.

(** What take_in leaves: the bytes [d] behind the others, and the first block
    gone from the chain if it is full. *)
Definition taken (w : World) (O : list nat) (l : list BlockRef) (b : nat) (pc : list nat) (d : list byte)
    (p' : IOPortal) (w' : World) : Prop :=
  exists l' pc', Buf w' (p_buf p') l' /\ bytes w' l' = bytes w l ++ d /\
    Chain w' (blocks l' ++ O) (_block p') pc' /\ w ≼ w' /\ same_blocks w w' pc /\
    (pc' = pc \/ (pc' = b :: pc /\
       exists x, heap w !! b = Some x /\ size x + zlen d < cap x)).

Lemma take_in_ok w O buf l b pc x n d :
  Buf w buf l -> Chain w (blocks l ++ O) (Some b) (b :: pc) -> heap w !! b = Some x -> 0 < n ->
  size x + n <= cap x -> slice (size x) n (data x) = d -> zlen d = n -> total l + n < 2 ^ 31 ->
  exists p' w', take_in n (mkPortal buf (Some b)) w = Some (p', w') /\ taken w O l b pc d p' w'.
Proof.
  intros HB HC Hx Hn Hc Hd Hz Ht.
  assert (Inv w (blocks l ++ (b :: pc) ++ O)) as HI.
  { pose proof (Chain_Inv _ _ _ _ HC) as HI. by apply swap_owned. }
  pose proof (Inv_wf _ _ _ _ HI Hx) as [Wf Ws Wc Wd].
  destruct (push_and_grow w ((b :: pc) ++ O) buf l b x n d HB HI) as
    (buf' & w3 & x3 & E3 & Hq3 & Hx3 & Ex3 & l' & HB4 & HI4 & Hle4 & Eb4 & A & HI3); try done; [by left|].
  set (w4 := set_heap _ w3) in *.
  assert (size x3 = size x /\ cap x3 = cap x /\ flags x3 = flags x /\ u x3 = u x)
    as (Es3 & Ec3 & Ef3 & Eu3) by (by rewrite Ex3).
  assert (heap w4 !! b = Some (with_size (size x + n) x3)) as Hx4 by apply lookup_insert_eq.
  assert (forall b', b' <> b -> heap w4 !! b' = heap w3 !! b') as Hfr4.
  { intros b' Hne. unfold w4. cbn. by rewrite lookup_insert_ne. }
  pose proof (is_chain_nodup _ _ _ (ch_chain _ _ _ _ HC)) as [Hbpc _]%NoDup_cons.
  assert (same_blocks w w4 pc) as Hsame4.
  { eapply same_blocks_trans; [eapply (quiet_same_blocks w w3); [done|exact HI3|set_solver]|].
    intros b' y Hb' Hy. exists y. rewrite Hfr4 by (intros ->; done). done. }
  assert (stable w w4) as Hst.
  { etrans; [by apply quiet_stable|]. split; [done|]. intros b' y Hy.
    destruct (decide (b' = b)) as [->|Hne].
    - rewrite Hx4 in Hy. injection Hy as <-. by exists x3.
    - rewrite Hfr4 in Hy by done. by exists y. }
  unfold take_in. cbn [_block p_buf deref]. run. rewrite (block_at_Some _ _ _ Hx). cbn beta iota.
  rewrite E3. cbn beta iota. rewrite (block_at_Some _ _ _ Hx3). cbn beta iota.
  rewrite Es3, (wrapu_small 32 (size x + n)) by lia. unfold set_block, modify. cbn beta iota. fold w4.
  rewrite (block_at_Some _ _ _ Hx4). cbn beta iota. destruct (full (with_size (size x + n) x3)) eqn:Efull.
  - destruct (Chain_tail _ _ _ _ _ HC Hx) as (nx & Hu & HCt).
    assert (Chain w4 (b :: blocks l' ++ O) nx pc) as HC4.
    { eapply Chain_stable; [exact HCt|done| |by eapply same_blocks_room].
      apply swap_owned in HI4. by rewrite <-Permutation_middle. }
    pose proof (Chain_Inv _ _ _ _ HC4) as HI4'. rewrite <-Permutation_middle in HI4'.
    destruct (dec_ref_inv w4 _ b HI4') as (w5 & E5 & HI5 & Hq5).
    unfold portal_next_of. run. cbn [u with_size]. rewrite Eu3, Hu. cbn beta iota. rewrite E5. cbn beta iota.
    eexists _, w5. split; [done|].
    assert (same_blocks w4 w5 pc) as Hsame5 by (eapply quiet_same_blocks; [done|exact HI5|set_solver]).
    destruct (Buf_frame w4 w5 _ _ buf' l' HI4 (quiet_wle _ _ Hq5) HI5) as [HB5 Eb5]; [set_solver|done|].
    exists l', pc. cbn [p_buf _block]. split_and!; try done.
    + by rewrite Eb5, Eb4.
    + eapply Chain_stable; [exact HC4|by apply quiet_stable|done|by eapply same_blocks_room].
    + etrans; [done|by apply quiet_wle].
    + by eapply same_blocks_trans.
    + by left.
  - apply full_false in Efull. cbn in Efull. rewrite Ec3 in Efull.
    eexists _, w4. split; [done|]. exists l', (b :: pc). cbn [p_buf _block]. split_and!; try done.
    + eapply Chain_stable; [exact HC|done|by apply swap_owned|].
      intros b' y [->|Hb']%elem_of_cons Hy; [rewrite Hx4 in Hy; injection Hy as <-; cbn; lia|].
      destruct (Chain_tail _ _ _ _ _ HC Hx) as (nx & _ & HCt). by eapply same_blocks_room.
    + right. split; [done|]. exists x. split; [done|lia].
Qed.

(** All of them. *)
Lemma take_in_all_ok fuel w O buf l hd pcs pc2 d :
  Buf w buf l -> Chain w (blocks l ++ O) hd (pcs ++ pc2) -> filled w pcs d -> 0 < zlen d ->
  total l + zlen d < 2 ^ 31 -> (List.length pcs <= fuel)%nat ->
  exists p' l' pc' w', take_in_all fuel (zlen d) (mkPortal buf hd) w = Some (p', w') /\
    Buf w' (p_buf p') l' /\ bytes w' l' = bytes w l ++ d /\
    Chain w' (blocks l' ++ O) (_block p') pc' /\ w ≼ w'.
Proof.
  revert w buf l hd pcs d. induction fuel as [|fuel IH]; intros w buf l hd pcs d HB HC Hfill Hd Ht Hf.
  { destruct pcs; [|cbn in Hf; lia]. cbn in Hfill. by subst d. }
  destruct pcs as [|b pcs]; [cbn in Hfill; by subst d|]. destruct Hfill as (x & Hx & Hs & Hfill).
  pose proof (ch_chain _ _ _ _ HC) as [-> _].
  destruct (Chain_live _ _ _ _ b HC) as (x' & Hx' & Hfx & [_ Ws Wc Wd] & Hroom); [by left|].
  assert (x' = x) as -> by congruence. set (n := Z.min (zlen d) (cap x - size x)) in *.
  assert (zlen (take (Z.to_nat n) d) = n) as Zn by (unfold zlen in *; rewrite length_take; lia).
  destruct (take_in_ok w O buf l b (pcs ++ pc2) x n _ HB HC Hx ltac:(lia) ltac:(lia) Hs Zn ltac:(lia))
    as (p1 & w1 & E1 & l1 & pc1 & HB1 & Eb1 & HC1 & Hle1 & Hsame1 & Hpc1).
  cbn [take_in_all _block deref]. run. rewrite (block_at_Some _ _ _ Hx). cbn beta iota.
  unfold left_space. rewrite (wrapu_small 32) by lia. fold n. rewrite E1. cbn beta iota.
  destruct (Z.eqb_spec (zlen d - n) 0) as [E|Hne].
  - eexists p1, l1, pc1, w1. split; [done|]. split_and!; try done.
    rewrite Eb1. f_equal. apply take_ge. unfold zlen in *. lia.
  - destruct Hpc1 as [->|(_ & x' & Hx'' & Hlt)].
    2:{ assert (x' = x) as -> by congruence. lia. }
    assert (zlen (drop (Z.to_nat n) d) = zlen d - n) as Zd by (unfold zlen in *; rewrite length_drop; lia).
    destruct p1 as [buf1 hd1]. rewrite <-Zd. cbn [p_buf _block] in *.
    destruct (IH w1 buf1 l1 hd1 pcs (drop (Z.to_nat n) d) HB1 HC1) as (p2 & l2 & pc' & w2 & E2 & HB2 & Eb2 & HC2 & Hle2).
    { eapply filled_ext; [|exact Hfill]. intros b' y Hb'. apply Hsame1. apply elem_of_app. by left. }
    { lia. }
    { rewrite <-(Buf_len _ _ _ HB1), Eb1, zlen_app, Zn, (Buf_len _ _ _ HB). lia. }
    { cbn in Hf. lia. }
    rewrite E2. exists p2, l2, pc', w2. split_and!; try done; [|by etrans].
    by rewrite Eb2, Eb1, <-app_assoc, take_drop.
Qed.

(** ** The operations of a portal *)

Definition Portal (w : World) (O : list nat) (p : IOPortal) (s : list byte) : Prop :=
  exists l pc, Buf w (p_buf p) l /\ Chain w (blocks l ++ O) (_block p) pc /\ bytes w l = s.

(** What readv and its like promise. *)
Definition reader_ok (ReadV : list Z -> Z * list byte) : Prop :=
  forall lens, let '(nr, d) := ReadV lens in
    (nr <= 0 /\ d = []) \/ (0 < nr <= sumz id lens /\ zlen d = nr).

Lemma room_lens vec : room vec = sumz id (iov_len <$> vec).
Proof. unfold room. induction vec as [|v vec IH]; [done|].
  rewrite fmap_cons, !sumz_cons, IH. done. Qed.

Lemma Chain_Inv_l w O hd pc l : Chain w (blocks l ++ O) hd pc -> Inv w (blocks l ++ pc ++ O).
Proof. intros HC. apply swap_owned. exact (Chain_Inv _ _ _ _ HC). Qed.

(** A step between two chains leaves the references. *)
Lemma Buf_chain w w' O O' hd hd' pc pc' buf l :
  Buf w buf l -> Chain w (blocks l ++ O) hd pc -> w ≼ w' -> Chain w' (blocks l ++ O') hd' pc' ->
  Buf w' buf l /\ bytes w' l = bytes w l.
Proof.
  intros HB HC Hle HC'. eapply Buf_frame; [by eapply Chain_Inv_l|done|by eapply Chain_Inv_l| |done].
  intros b Hb. apply elem_of_app. by left.
Qed.

Section Operations.
Context `{Alloc}.

Lemma release_empty_ok w O p s :
  Portal w O p s ->
  exists p' w', ('e ← lift (empty (p_buf p)); if e : bool then return_cached_blocks p else mret p) w
      = Some (p', w') /\ Portal w' O p' s /\ w ≼ w'.
Proof.
  intros (l & pc & HB & HC & Es). run. rewrite (empty_spec _ _ (Buf_Rep _ _ _ HB)).
  destruct (bool_decide_reflect (l = [])) as [->|Hne]; [|by exists p, w; split_and!; [|exists l, pc|]].
  destruct p as [buf hd]. cbn [p_buf _block] in *.
  destruct (return_cached_blocks_ok w _ hd pc buf HC) as (w' & E & HI & Hle).
  exists (mkPortal buf None), w'. split; [exact E|]. split; [|done]. exists [], [].
  split; [|split; [by apply Chain_nil|done]]. split; [apply HB|done].
Qed.

Lemma append_from_reader_ok w O p s ReadV max_count :
  Portal w O p s -> reader_ok ReadV -> 0 <= max_count -> zlen s + max_count < bound ->
  exists nr p' w', append_from_reader ReadV max_count p w = Some ((nr, p'), w') /\ w ≼ w' /\
    ((nr = -1 /\ Portal w' O p' s /\ exists n, malloc_ok n = false) \/
     (exists lens d, lens <> [] /\ sumz id lens <= max_count /\ ReadV lens = (nr, d) /\
        Portal w' O p' (s ++ d))).
Proof.
  intros (l & pc & HB & HC & Es) HR Hm Hb. unfold bound in Hb. destruct p as [buf hd].
  cbn [p_buf _block] in *. unfold append_from_reader. cbn [p_buf _block].
  pose proof (ch_chain _ _ _ _ HC) as Hc.
  assert (hd = head pc) as Ehd by (destruct pc; cbn in Hc; [done|apply Hc]).
  destruct (prepare_ok (Z.to_nat MAX_APPEND_IOVEC) w (blocks l ++ O) hd [] pc max_count HC) as
    (res & hd1 & w1 & pc1 & E1 & HC1 & Hle1 & Hres); [done|done|].
  cbn [pieces] in E1. change (room []) with 0 in E1. change (last []) with (@None nat) in E1.
  rewrite <-Ehd in E1. run. rewrite E1. cbn beta iota.
  destruct (Buf_chain w w1 _ _ _ _ _ _ buf l HB HC Hle1 HC1) as [HB1 Eb1].
  destruct res as [vec|].
  2:{ eexists _, _, w1. split; [done|]. split; [done|]. left. split; [done|]. split; [|done].
      exists l, pc1. split_and!; try done. congruence. }
  destruct Hres as (Hne & k & Evec). destruct (ReadV (iov_len <$> vec)) as [nr d] eqn:ER.
  specialize (HR (iov_len <$> vec)). rewrite ER in HR. rewrite <-room_lens in HR.
  pose proof (room_pieces_le w1 (take k pc1) max_count Hm) as Hroom. rewrite <-Evec in Hroom.
  assert (forall b, b ∈ pc1 -> exists x, heap w1 !! b = Some x) as Hlive.
  { intros b Hbin. destruct (Chain_live _ _ _ _ b HC1 Hbin) as (x & Hx & _). by exists x. }
  assert (forall b, b ∈ take k pc1 -> b ∈ pc1) as Htake.
  { intros b Hbin. rewrite <-(take_drop k pc1). apply elem_of_app. by left. }
  pose proof (Chain_Inv_l _ _ _ _ _ HC1) as HI1.
  destruct (scatter_ok w1 _ (take k pc1) max_count d HI1) as (w2 & E2 & Hfill & HI2 & Hle2 & Hw2 & Hfr2).
  { pose proof (is_chain_nodup _ _ _ (ch_chain _ _ _ _ HC1)) as Hnd.
    rewrite <-(take_drop k pc1) in Hnd. by apply NoDup_app in Hnd as [? _]. }
  { intros b Hbin. apply Hlive. by apply Htake. }
  { done. }
  { rewrite <-Evec. destruct HR as [[_ ->]|[[_ HR] ->]]; [|done]. change (zlen (@nil byte)) with 0.
    rewrite Evec. eapply room_pieces_nonneg; [done| |done]. intros b Hbin. apply Hlive. by apply Htake. }
  rewrite <-Evec in E2. rewrite E2. cbn beta iota.
  assert (Chain w2 (blocks l ++ O) hd1 pc1) as HC2.
  { eapply Chain_stable; [exact HC1|by apply writes_stable|by apply swap_owned|].
    intros b y Hbin Hy. destruct (Chain_live _ _ _ _ b HC1 Hbin) as (x & Hx & _ & _ & Hr).
    destruct (wr_heap _ _ Hw2 b x Hx) as (y' & Hy' & Ey). assert (y' = y) as -> by congruence. by rewrite Ey. }
  destruct (Buf_chain w1 w2 _ _ _ _ _ _ buf l HB1 HC1 Hle2 HC2) as [HB2 Eb2].
  assert (w ≼ w2) as Hle by by etrans.
  destruct (Z.leb_spec nr 0) as [Hnr|Hnr].
  - destruct HR as [[_ ->]|[HR _]]; [|lia].
    destruct (release_empty_ok w2 O (mkPortal buf hd1) s) as (p3 & w3 & E3 & HP3 & Hle3).
    { exists l, pc1. split_and!; try done. congruence. }
    run_in E3. cbn [p_buf] in E3. destruct (empty buf) as [e|]; [|done]. run_in E3.
    rewrite E3. eexists nr, p3, w3. split; [done|]. split; [by etrans|]. right.
    exists (iov_len <$> vec), []. rewrite app_nil_r. split_and!; try done.
    + intros E0. by destruct vec.
    + by rewrite <-room_lens.
  - destruct HR as [[HR _]|[[_ HR] Hz]]; [lia|].
    pose proof (Buf_len _ _ _ HB2) as El2.
    destruct (take_in_all_ok (List.length vec) w2 O buf l hd1 (take k pc1) (drop k pc1) d HB2) as
      (p3 & l3 & pc3 & w3 & E3 & HB3 & Eb3 & HC3 & Hle3).
    { by rewrite take_drop. }
    { done. }
    { lia. }
    { rewrite <-El2, Eb2, Eb1, Es. lia. }
    { rewrite Evec, length_pieces. done. }
    rewrite Hz in E3. rewrite E3. eexists nr, p3, w3. split; [done|]. split; [by etrans|]. right.
    exists (iov_len <$> vec), d. split_and!; try done.
    + intros E0. by destruct vec.
    + by rewrite <-room_lens.
    + exists l3, pc3. split_and!; try done. by rewrite Eb3, Eb2, Eb1, Es.
Qed.

(** *** SSL *)

Definition ssl_ok (SSL_read : nat -> Z -> ssl_result) : Prop :=
  forall k n, let r := SSL_read k n in
    (ssl_rc r <= 0 /\ ssl_data r = []) \/ (0 < ssl_rc r <= n /\ zlen (ssl_data r) = ssl_rc r).

(** The result and the error code when SSL_read does not succeed. *)
Definition ssl_stop (nr : Z) (r : ssl_result) : Z * Z :=
  if ssl_rc r <? 0 then
    if (ssl_err r =? SSL_ERROR_WANT_READ) || ((ssl_err r =? SSL_ERROR_SYSCALL) && ssl_nonfatal r)
    then (if 0 <? nr then nr else ssl_rc r, SSL_ERROR_WANT_READ)
    else (ssl_rc r, ssl_err r)
  else (if 0 <? nr then nr else ssl_rc r, ssl_err r).

(** From the [k]-th call of SSL_read on, after [nr] bytes: what is read, the
    result and the error code. *)
Inductive ssl_run (SSL_read : nat -> Z -> ssl_result) (max_count : Z) : nat -> Z -> list byte -> Z -> Z -> Prop :=
| ssl_no_memory k nr n : malloc_ok n = false ->
    ssl_run SSL_read max_count k nr [] (-1) SSL_ERROR_SYSCALL
| ssl_stopped k nr n v e : n <= max_count - nr -> ssl_rc (SSL_read k n) <= 0 ->
    ssl_stop nr (SSL_read k n) = (v, e) -> ssl_run SSL_read max_count k nr [] v e
| ssl_full k nr n r : n <= max_count - nr -> r = SSL_read k n -> 0 < ssl_rc r ->
    max_count <= nr + ssl_rc r ->
    ssl_run SSL_read max_count k nr (ssl_data r) (nr + ssl_rc r) (ssl_err r)
| ssl_more k nr n r d v e : n <= max_count - nr -> r = SSL_read k n -> 0 < ssl_rc r ->
    nr + ssl_rc r < max_count -> ssl_run SSL_read max_count (S k) (nr + ssl_rc r) d v e ->
    ssl_run SSL_read max_count k nr (ssl_data r ++ d) v e.

Lemma ssl_get_block_ok w O p s :
  Portal w O p s ->
  exists b w', (match _block p with Some b => mret (Some b) | None => acquire_tls_block end) w = Some (b, w') /\
    w ≼ w' /\
    match b with
    | None => Portal w' O p s /\ exists n, malloc_ok n = false
    | Some b => exists l pc, Buf w' (p_buf p) l /\ bytes w' l = s /\ Chain w' (blocks l ++ O) (Some b) (b :: pc)
    end.
Proof.
  intros (l & pc & HB & HC & Es). destruct p as [buf hd]. cbn [p_buf _block] in *.
  pose proof (ch_chain _ _ _ _ HC) as Hc. destruct pc as [|b pc]; cbn in Hc.
  - subst hd. destruct (acquire_next_ok w _ None [] HC) as (p & hd' & w' & E & Hle & Hp).
    unfold acquire_next in E. run_in E. run.
    destruct (acquire_tls_block w) as [[q w1]|]; [|done].
    destruct q as [b|]; cbn in E; injection E as <- <- <-.
    + destruct Hp as [HC' _]. exists (Some b), w1. split; [done|]. split; [done|].
      destruct (Buf_chain w w1 _ _ _ _ _ _ buf l HB HC Hle HC') as [HB' Eb']. exists l, [].
      split_and!; try done. congruence.
    + destruct Hp as [HC' Hm]. exists None, w1. split; [done|]. split; [done|]. split; [|done].
      destruct (Buf_chain w w1 _ _ _ _ _ _ buf l HB HC Hle HC') as [HB' Eb']. exists l, [].
      split_and!; try done. congruence.
  - destruct Hc as [-> Hc]. exists (Some b), w. split; [done|]. split; [done|]. by exists l, pc.
Qed.

Lemma ssl_loop_ok SSL_read fuel w O p s k max_count nr :
  Portal w O p s -> ssl_ok SSL_read -> 0 <= nr <= max_count -> (0 < max_count -> nr < max_count) ->
  zlen s + (max_count - nr) < bound -> (Z.to_nat (max_count - nr) < fuel)%nat ->
  exists v e p' w' d, ssl_loop SSL_read fuel k max_count nr p w = Some ((v, e, p'), w') /\ w ≼ w' /\
    Portal w' O p' (s ++ d) /\ zlen d <= max_count - nr /\ ssl_run SSL_read max_count k nr d v e.
Proof.
  intros HP Hssl. revert w p s k nr HP.
  induction fuel as [|fuel IH]; intros w p s k nr HP Hnr Hnr2 Hb Hf; [lia|]. cbn [ssl_loop].
  destruct (ssl_get_block_ok w O p s HP) as (b & w1 & E1 & Hle1 & Hres).
  run_in E1. run. rewrite E1. cbn beta iota. destruct b as [b|].
  2:{ destruct Hres as [HP1 [n Hm]]. eexists _, _, p, w1, []. split; [done|]. split; [done|].
      rewrite app_nil_r. change (zlen (@nil byte)) with 0. split; [done|]. split; [lia|]. by econstructor. }
  destruct Hres as (l & pc & HB1 & Es & HC1). destruct p as [buf hd]. cbn [p_buf _block] in *.
  destruct (Chain_live _ _ _ _ b HC1) as (x & Hx & Hfx & [_ Ws Wc Wd] & Hroom); [by left|].
  rewrite (block_at_Some _ _ _ Hx). cbn beta iota. unfold left_space. rewrite wrapu_small by lia.
  set (n := Z.min (cap x - size x) (max_count - nr)). pose proof (Hssl k n) as Hr. cbn zeta in Hr.
  set (r := SSL_read k n) in *. pose proof (Chain_Inv_l _ _ _ _ _ HC1) as HI1.
  assert (zlen (ssl_data r) <= n) as Hd.
  { destruct Hr as [[_ ->]|[Hr ->]]; [|lia]. change (zlen (@nil byte)) with 0. lia. }
  destruct (write_at_spec w1 _ b x (size x) (ssl_data r) HI1 Hx) as (w2 & E2 & HI2 & Hle2 & _ & Hx2); [lia|lia|].
  destruct (write_at_eq w1 b x (size x) (ssl_data r) Hx) as [E2' Hw2]; [lia|lia|].
  rewrite E2 in E2'. injection E2' as Ew2. rewrite <-Ew2 in Hw2. rewrite E2. cbn beta iota.
  assert (Chain w2 (blocks l ++ O) (Some b) (b :: pc)) as HC2.
  { eapply Chain_stable; [exact HC1|by apply writes_stable|by apply swap_owned|].
    intros b' y Hbin Hy. destruct (Chain_live _ _ _ _ b' HC1 Hbin) as (x' & Hx' & _ & _ & Hr').
    destruct (wr_heap _ _ Hw2 b' x' Hx') as (y' & Hy' & Ey). assert (y' = y) as -> by congruence. by rewrite Ey. }
  destruct (Buf_chain w1 w2 _ _ _ _ _ _ buf l HB1 HC1 Hle2 HC2) as [HB2 Eb2].
  destruct (Z.ltb_spec 0 (ssl_rc r)) as [Hpos|Hneg].
  - destruct Hr as [[Hr _]|[Hr Hz]]; [lia|].
    pose proof (Buf_len _ _ _ HB2) as El2. unfold bound in Hb.
    destruct (take_in_ok w2 O buf l b pc _ (ssl_rc r) (ssl_data r) HB2 HC2 Hx2 Hpos) as
      (p3 & w3 & E3 & l3 & pc3 & HB3 & Eb3 & HC3 & Hle3 & _); [cbn; lia| |done|rewrite <-El2, Eb2, Es; lia|].
    { cbn. rewrite <-Hz. apply slice_overwrite_at; lia. }
    rewrite E3. cbn beta iota.
    assert (Portal w3 O p3 (s ++ ssl_data r)) as HP3.
    { exists l3, pc3. split_and!; try done. by rewrite Eb3, Eb2, Es. }
    assert (w ≼ w3) as Hle by (etrans; [done|]; by etrans).
    destruct (Z.ltb_spec (nr + ssl_rc r) max_count) as [Hlt|Hge].
    + destruct (IH w3 p3 (s ++ ssl_data r) (S k) (nr + ssl_rc r) HP3) as
        (v & e & p4 & w4 & d & E4 & Hle4 & HP4 & Hzd & Hrun); [lia|lia|unfold bound; rewrite zlen_app; lia|lia|].
      rewrite E4. exists v, e, p4, w4, (ssl_data r ++ d). split; [done|]. split; [by etrans|].
      rewrite app_assoc. split; [done|]. split; [rewrite zlen_app; lia|].
      eapply (ssl_more _ _ k nr n r); try done. lia.
    + eexists _, _, p3, w3, (ssl_data r). split; [done|]. split; [done|]. split; [done|].
      split; [lia|]. eapply (ssl_full _ _ k nr n r); try done. lia.
  - assert (ssl_data r = []) as Ed by (destruct Hr as [[_ ?]|[Hr _]]; [done|lia]).
    assert (Portal w2 O (mkPortal buf (Some b)) (s ++ [])) as HP2.
    { rewrite app_nil_r. exists l, (b :: pc). split_and!; try done. congruence. }
    assert (w ≼ w2) as Hle by by etrans.
    assert (zlen (@nil byte) <= max_count - nr) as Hz0 by (change (zlen (@nil byte)) with 0; lia).
    pose proof (ssl_stopped SSL_read max_count k nr n) as Hstop. fold r in Hstop.
    unfold ssl_stop in Hstop. destruct (ssl_rc r <? 0).
    + destruct (_ || _); (eexists _, _, _, w2, []; split; [done|]; split_and!; try done; by apply Hstop; [lia| |]).
    + eexists _, _, _, w2, []; split; [done|]; split_and!; try done. by apply Hstop; [lia| |].
Qed.

Lemma ssl_channel_ok SSL_read w O p s max_count :
  Portal w O p s -> ssl_ok SSL_read -> 0 <= max_count -> zlen s + max_count < bound ->
  exists v e p' w' d, append_from_SSL_channel SSL_read max_count p w = Some ((v, e, p'), w') /\ w ≼ w' /\
    Portal w' O p' (s ++ d) /\ zlen d <= max_count /\ ssl_run SSL_read max_count 0 0 d v e.
Proof.
  intros HP Hssl Hm Hb. unfold append_from_SSL_channel.
  destruct (ssl_loop_ok SSL_read (S (Z.to_nat max_count)) w O p s 0 max_count 0 HP Hssl)
    as (v & e & p' & w' & d & H0); try lia. rewrite Z.sub_0_r in H0. by exists v, e, p', w', d.
Qed.

(** *** Returning, clearing, the destructor *)

Lemma portal_return_ok w O p s :
  Portal w O p s ->
  exists w', return_cached_blocks p w = Some (mkPortal (p_buf p) None, w') /\ w ≼ w' /\
    becomes w O s (p_buf p) w'.
Proof.
  intros (l & pc & HB & HC & Es). destruct p as [buf hd]. cbn [p_buf _block] in *.
  destruct (return_cached_blocks_ok w _ hd pc buf HC) as (w' & E & HI & Hle).
  exists w'. split; [done|]. split; [done|].
  destruct (Buf_frame w w' _ _ buf l (Chain_Inv_l _ _ _ _ _ HC) Hle HI) as [HB' Eb']; [set_solver|done|].
  exists l. split_and!; try done. congruence.
Qed.

Lemma portal_destroy_ok w O p s :
  Portal w O p s -> exists w', destroy p w = Some ((), w') /\ Inv w' O /\ w ≼ w'.
Proof.
  intros HP. destruct (portal_return_ok w O p s HP) as (w1 & E1 & Hle1 & l & HB & HI & _ & _).
  unfold destroy. run. rewrite E1. cbn beta iota. cbn [p_buf].
  destruct (clear_refs_spec _ _ _ _ (Buf_Rep _ _ _ HB) HI) as (b' & w2 & -> & _ & HI2 & Hq).
  exists w2. split; [done|]. split; [done|]. etrans; [done|by apply quiet_wle].
Qed.

End Operations.

(** ** Cutting from a portal

    The operations that cut change reference counts only, so that the chain of
    the portal is as it was: [Quiet m] says so of a computation. *)

Definition Quiet {A} (m : M World A) : Prop := forall w x w', m w = Some (x, w') -> quiet w w'.

#[local] Instance quiet_preorder : PreOrder quiet.
Proof.
  split.
  - intros w. by apply quiet_same_heap.
  - intros w1 w2 w3 [T1 N1 H1] [T2 N2 H2]. split; [congruence..|]. intros b z Hz.
    destruct (H2 b z Hz) as (y & Hy & E2). destruct (H1 b y Hy) as (x & Hx & E1).
    exists x. split; [done|]. rewrite E2, E1. done.
Qed.

Lemma Quiet_bind {A B} (m : M World A) (f : A -> M World B) :
  Quiet m -> (forall x, Quiet (f x)) -> Quiet (m ≫= f).
Proof.
  intros Hm Hf w y w' E. unfold mbind, M_bind in E. destruct (m w) as [[x w1]|] eqn:E1; [|done].
  etrans; [by eapply Hm|by eapply Hf].
Qed.
Lemma Quiet_ret {A} (x : A) : Quiet (mret x).
Proof. by intros w y w' [= <- <-]. Qed.
Lemma Quiet_undefined {A} : Quiet (@undefined World A).
Proof. by intros w y w' [=]. Qed.
Lemma Quiet_lift {A} (o : option A) : Quiet (lift o).
Proof. destruct o; [apply Quiet_ret|apply Quiet_undefined]. Qed.
Lemma Quiet_deref p : Quiet (deref p).
Proof. destruct p; [apply Quiet_ret|apply Quiet_undefined]. Qed.
Lemma Quiet_block_at b : Quiet (block_at b).
Proof.
  intros w x w'. unfold block_at. run. destruct (heap w !! b); [by intros [= <- <-]|done].
Qed.
Lemma Quiet_newbigview : Quiet (modify add_newbigview).
Proof. intros w x w' [= <- <-]. by apply quiet_same_heap. Qed.

Lemma Quiet_inc_ref b : Quiet (inc_ref b).
Proof.
  intros w x w'. unfold inc_ref, block_at, set_block. run. destruct (heap w !! b) as [blk|] eqn:E; [|done].
  intros [= <- <-]. split; cbn; try done. intros b' y. destruct (decide (b = b')) as [<-|Hne].
  - rewrite lookup_insert_eq. intros [= <-]. by exists blk.
  - rewrite lookup_insert_ne by done. intros Hy. exists y. split; [done|]. by destruct y.
Qed.

Lemma Quiet_dec_ref b : Quiet (dec_ref b).
Proof.
  intros w x w'. unfold dec_ref, block_at, set_block. run. destruct (heap w !! b) as [blk|] eqn:E; [|done].
  assert (forall b' y, delete b (heap w) !! b' = Some y ->
    exists x, heap w !! b' = Some x /\ y = with_nshared (nshared y) x) as Hdel.
  { intros b' y [_ Hy]%lookup_delete_Some. exists y. split; [done|]. by destruct y. }
  assert (forall b' y, <[b := with_nshared (nshared blk - 1) blk]> (heap w) !! b' = Some y ->
    exists x, heap w !! b' = Some x /\ y = with_nshared (nshared y) x) as Hins.
  { intros b' y [[<- <-]|[_ Hy]]%lookup_insert_Some; [by exists blk|].
    exists y. split; [done|]. by destruct y. }
  repeat case_match; intros [= <- <-]; by split.
Qed.

Create HintDb quiet.
#[local] Hint Resolve Quiet_ret Quiet_undefined Quiet_lift Quiet_deref Quiet_block_at Quiet_newbigview
  Quiet_inc_ref Quiet_dec_ref : quiet.

(** One computation after the other, case by case. *)
Ltac quiet_step :=
  lazymatch goal with
  | |- Quiet (_ ≫= _) => apply Quiet_bind; [|intros ?]
  | |- Quiet (match ?x with _ => _ end) => destruct x
  | |- Quiet (let '_ := ?x in _) => destruct x
  end.
Ltac quiet_auto := repeat (solve [eauto with quiet] || quiet_step).

Lemma Quiet_inc_ref_of r : Quiet (inc_ref_of r).
Proof. unfold inc_ref_of. quiet_auto. Qed.
Lemma Quiet_dec_ref_of r : Quiet (dec_ref_of r).
Proof. unfold dec_ref_of. quiet_auto. Qed.
Lemma Quiet_array n : Quiet (acquire_blockref_array n).
Proof. unfold acquire_blockref_array. quiet_auto. Qed.
Lemma Quiet_set_ref i r l : Quiet (set_ref i r l).
Proof. unfold set_ref. quiet_auto. Qed.
#[local] Hint Resolve Quiet_inc_ref_of Quiet_dec_ref_of Quiet_array Quiet_set_ref : quiet.

Lemma Quiet_copy_refs v n i l : Quiet (copy_refs v n i l).
Proof. revert i l. induction n as [|n IH]; intros i l; cbn [copy_refs]; quiet_auto. Qed.
Lemma Quiet_for_bv_refs v n i : Quiet (for_bv_refs dec_ref_of v n i).
Proof. revert i. induction n as [|n IH]; intros i; cbn [for_bv_refs]; quiet_auto. Qed.
#[local] Hint Resolve Quiet_copy_refs Quiet_for_bv_refs : quiet.

Lemma Quiet_push move r buf : Quiet (push_or_move move r buf).
Proof.
  unfold push_or_move, _push_or_move_back_ref_to_smallview, _push_or_move_back_ref_to_bigview. quiet_auto.
Qed.
Lemma Quiet_pop moveout buf : Quiet (_pop_or_moveout_front_ref moveout buf).
Proof. unfold _pop_or_moveout_front_ref. quiet_auto. Qed.
Lemma Quiet_clear buf : Quiet (IOBufRef.clear buf).
Proof. unfold IOBufRef.clear. quiet_auto. Qed.
#[local] Hint Resolve Quiet_push Quiet_pop Quiet_clear : quiet.

Lemma Quiet_advance n r buf : Quiet (advance_front n r buf).
Proof. unfold advance_front, set_front, sub_nbytes. quiet_auto. Qed.
#[local] Hint Resolve Quiet_advance : quiet.

Lemma Quiet_pop_front n buf : Quiet (pop_front n buf).
Proof.
  unfold pop_front. quiet_auto. generalize (ref_fuel buf) as fuel. intros fuel. revert n buf.
  induction fuel as [|fuel IH]; intros n buf; cbn [pop_front_loop]; unfold _pop_front_ref; quiet_auto.
Qed.
Lemma Quiet_cutn this out n : Quiet (cutn this out n).
Proof.
  unfold cutn. quiet_auto. generalize (ref_fuel this) as fuel. intros fuel.
  generalize (if x <? n then x else n) as m. intros m. revert m this out.
  induction fuel as [|fuel IH]; intros m this out; cbn [cutn_loop];
    unfold _move_back_ref, _push_back_ref, _moveout_front_ref; quiet_auto.
Qed.

(** ** Programs

    The environment answers the [k]-th call of a program: [rd k] is what readv,
    preadv or ReadV does then, [ssl k] what SSL_read does. *)

Inductive portal_call :=
| p_append_from_reader (max_count : Z)
| p_pappend (offset max_count : Z)
| p_append_from_SSL (max_count : Z)
| p_cutn (n : Z)
| p_pop_front (n : Z)
| p_return_cached_blocks
| p_clear.

Section Programs.
Context `{Alloc}.
Context (rd prd : nat -> list Z -> Z * list byte) (ssl : nat -> nat -> Z -> ssl_result).

Definition portal_exec (k : nat) (x : portal_call) (p : IOPortal) (out : IOBuf)
    : M World (list Z * IOPortal * IOBuf) :=
  match x with
  | p_append_from_reader m => '(nr, p) ← append_from_reader (rd k) m p; mret ([nr], p, out)
  | p_pappend off m => '(nr, p) ← pappend_from_file_descriptor (rd k) (prd k) off m p; mret ([nr], p, out)
  | p_append_from_SSL m => '(nr, e, p) ← append_from_SSL_channel (ssl k) m p; mret ([nr; e], p, out)
  | p_cutn n => '(c, buf, out) ← cutn (p_buf p) out n; mret ([c], mkPortal buf (_block p), out)
  | p_pop_front n => '(c, buf) ← pop_front n (p_buf p); mret ([c], mkPortal buf (_block p), out)
  | p_return_cached_blocks => p ← return_cached_blocks p; mret ([], p, out)
  | p_clear => p ← clear p; mret ([], p, out)
  end.

Fixpoint portal_loop (k : nat) (xs : list portal_call) (p : IOPortal) (out : IOBuf)
    : M World (list (list Z) * IOPortal * IOBuf) :=
  match xs with
  | [] => mret ([], p, out)
  | x :: xs =>
      '(v, p, out) ← portal_exec k x p out;
      '(vs, p, out) ← portal_loop (S k) xs p out;
      mret (v :: vs, p, out)
  end.

(** A portal from its constructor to its destructor. *)
Definition portal_program (xs : list portal_call) (out : IOBuf) : M World (list (list Z) * IOBuf) :=
  '(vs, p, out) ← portal_loop 0 xs new_IOPortal out;
  _ ← destroy p;
  mret (vs, out).

(** On strings: [s] in the portal, [o] in the other IOBuf. *)
Definition portal_pre (x : portal_call) (s o : list byte) : Prop :=
  match x with
  | p_append_from_reader m | p_pappend _ m | p_append_from_SSL m => 0 <= m /\ zlen s + m < bound
  | p_cutn n => 0 <= n /\ zlen o + Z.min n (zlen s) < bound
  | p_pop_front n => 0 <= n
  | p_return_cached_blocks | p_clear => True
  end.

(** A read: no memory for the first block, or the answer of the environment to
    room for at most [m] bytes, in at least one piece. *)
Definition reads (ReadV : list Z -> Z * list byte) (m : Z) (s : list byte) (v : list Z) (s' : list byte) : Prop :=
  (v = [-1] /\ s' = s /\ exists n, malloc_ok n = false) \/
  (exists lens nr d, lens <> [] /\ sumz id lens <= m /\ ReadV lens = (nr, d) /\ v = [nr] /\ s' = s ++ d).

Definition portal_spec (k : nat) (x : portal_call) (s o : list byte) (v : list Z) (s' o' : list byte) : Prop :=
  match x with
  | p_append_from_reader m => reads (rd k) m s v s' /\ o' = o
  | p_pappend off m => reads (if off <? 0 then rd k else prd k) m s v s' /\ o' = o
  | p_append_from_SSL m =>
      exists d nr e, v = [nr; e] /\ s' = s ++ d /\ zlen d <= m /\ ssl_run (ssl k) m 0 0 d nr e /\ o' = o
  | p_cutn n => v = [Z.min n (zlen s)] /\ s' = drop (Z.to_nat n) s /\ o' = o ++ take (Z.to_nat n) s
  | p_pop_front n => v = [Z.min n (zlen s)] /\ s' = drop (Z.to_nat n) s /\ o' = o
  | p_return_cached_blocks => v = [] /\ s' = s /\ o' = o
  | p_clear => v = [] /\ s' = [] /\ o' = o
  end.

Fixpoint portal_safe (k : nat) (xs : list portal_call) (s o : list byte) : Prop :=
  match xs with
  | [] => True
  | x :: xs => portal_pre x s o /\
      forall v s' o', portal_spec k x s o v s' o' -> portal_safe (S k) xs s' o'
  end.

Fixpoint portal_specs (k : nat) (xs : list portal_call) (s o : list byte) (vs : list (list Z))
    (s' o' : list byte) : Prop :=
  match xs, vs with
  | [], [] => s' = s /\ o' = o
  | x :: xs, v :: vs => exists s1 o1, portal_spec k x s o v s1 o1 /\ portal_specs (S k) xs s1 o1 vs s' o'
  | _, _ => False
  end.

Hypothesis rd_ok : forall k, reader_ok (rd k).
Hypothesis prd_ok : forall k, reader_ok (prd k).
Hypothesis ssl_good : forall k, ssl_ok (ssl k).

(** The portal, the other IOBuf, and what the others own. *)
Definition both (w : World) (O : list nat) (p : IOPortal) (out : IOBuf) (s o : list byte) : Prop :=
  exists l2, Portal w (blocks l2 ++ O) p s /\ Buf w out l2 /\ bytes w l2 = o.

Lemma Portal_Inv w O p s : Portal w O p s -> exists A, Inv w (A ++ O).
Proof.
  intros (l & pc & _ & HC & _). exists (blocks l ++ pc). rewrite <-app_assoc. exact (Chain_Inv_l _ _ _ _ _ HC).
Qed.

Lemma both_keep w w' O p p' out l2 s s' :
  Portal w (blocks l2 ++ O) p s -> Buf w out l2 -> w ≼ w' -> Portal w' (blocks l2 ++ O) p' s' ->
  both w' O p' out s' (bytes w l2).
Proof.
  intros HP HB Hle HP'. pose proof HP as [A HI]%Portal_Inv. pose proof HP' as [A' HI']%Portal_Inv.
  destruct (Buf_keep w w' A A' O out l2) as [HB' E']; try done. by exists l2.
Qed.

Lemma reads_ok ReadV m w O p out s o :
  both w O p out s o -> reader_ok ReadV -> 0 <= m -> zlen s + m < bound ->
  exists nr p' w' s', append_from_reader ReadV m p w = Some ((nr, p'), w') /\ w ≼ w' /\
    reads ReadV m s [nr] s' /\ both w' O p' out s' o.
Proof.
  intros (l2 & HP & HB & <-) HR Hm Hb.
  destruct (append_from_reader_ok w _ p s ReadV m HP HR Hm Hb) as (nr & p' & w' & E & Hle & Hres).
  destruct Hres as [(-> & HP' & Hf)|(lens & d & Hl & Hs & ER & HP')].
  - exists (-1), p', w', s. split; [done|]. split; [done|]. split; [by left|by eapply both_keep].
  - exists nr, p', w', (s ++ d). split; [done|]. split; [done|]. split; [right; by exists lens, nr, d|].
    by eapply both_keep.
Qed.

Lemma cut_portal_ok w O p out s o n :
  both w O p out s o -> 0 <= n -> zlen o + Z.min n (zlen s) < bound ->
  exists buf out' w', cutn (p_buf p) out n w = Some ((Z.min n (zlen s), buf, out'), w') /\ w ≼ w' /\
    both w' O (mkPortal buf (_block p)) out' (drop (Z.to_nat n) s) (o ++ take (Z.to_nat n) s).
Proof.
  intros (l2 & (l & pc & HB & HC & <-) & HB2 & <-) Hn Hb.
  rewrite (Buf_len _ _ _ HB), (Buf_len _ _ _ HB2) in Hb.
  assert (Inv w (blocks l ++ blocks l2 ++ pc ++ O)) as HI.
  { pose proof (Chain_Inv_l _ _ _ _ _ HC) as HI. assert (blocks l ++ blocks l2 ++ pc ++ O ≡ₚ blocks l ++ pc ++ blocks l2 ++ O) as -> by solve_Permutation.
    exact HI. }
  destruct (cutn_ok w n (p_buf p) out l l2 (pc ++ O) HB HB2 HI Hn Hb) as
    (buf & out' & w' & E & l' & l2' & HB' & HB2' & HI' & Hle & Eb & Eb2).
  rewrite (Buf_len _ _ _ HB). exists buf, out', w'. split; [done|]. split; [done|]. exists l2'.
  split; [|done]. exists l', pc. cbn [p_buf _block]. split; [done|]. split; [|done].
  eapply Chain_stable; [exact HC|by eapply quiet_stable, Quiet_cutn| |].
  - assert (pc ++ blocks l' ++ blocks l2' ++ O ≡ₚ blocks l' ++ blocks l2' ++ pc ++ O) as -> by solve_Permutation.
    exact HI'.
  - eapply same_blocks_room; [exact HC|]. eapply quiet_same_blocks; [by eapply Quiet_cutn|exact HI'|set_solver].
Qed.

Lemma pop_portal_ok w O p out s o n :
  both w O p out s o -> 0 <= n ->
  exists buf w', pop_front n (p_buf p) w = Some ((Z.min n (zlen s), buf), w') /\ w ≼ w' /\
    both w' O (mkPortal buf (_block p)) out (drop (Z.to_nat n) s) o.
Proof.
  intros (l2 & HP & HB2 & <-) Hn. pose proof HP as (l & pc & HB & HC & <-).
  destruct (pop_front_ok w n (p_buf p) l (pc ++ blocks l2 ++ O) HB (Chain_Inv_l _ _ _ _ _ HC) Hn) as
    (buf & w' & E & l' & HB' & HI' & Hle & Eb).
  rewrite (Buf_len _ _ _ HB). exists buf, w'. split; [done|]. split; [done|].
  eapply (both_keep w w'); try done. exists l', pc. cbn [p_buf _block]. split; [done|]. split; [|done].
  eapply Chain_stable; [exact HC|by eapply quiet_stable, Quiet_pop_front|by apply swap_owned|].
  eapply same_blocks_room; [exact HC|]. eapply quiet_same_blocks; [by eapply Quiet_pop_front|exact HI'|set_solver].
Qed.

Lemma clear_portal_ok w O p out s o :
  both w O p out s o ->
  exists p' w', clear p w = Some (p', w') /\ w ≼ w' /\ both w' O p' out [] o.
Proof.
  intros (l2 & HP & HB2 & <-). pose proof HP as (l & pc & HB & HC & <-).
  pose proof (Chain_Inv_l _ _ _ _ _ HC) as HI.
  destruct (clear_refs_spec _ _ _ _ (Buf_Rep _ _ _ HB) HI) as (b' & w1 & E & HR & HI1 & Hq).
  assert (Portal w1 (blocks l2 ++ O) (mkPortal b' (_block p)) []) as HP1.
  { exists [], pc. split; [by split|]. split; [|done]. cbn [app blocks omap list_omap].
    eapply Chain_stable; [exact HC|by apply quiet_stable|done|].
    eapply same_blocks_room; [exact HC|]. eapply quiet_same_blocks; [done|exact HI1|set_solver]. }
  destruct (portal_return_ok w1 _ _ [] HP1) as (w2 & E2 & Hle2 & l' & HB' & HI' & _ & Eb').
  unfold clear. run. rewrite E. cbn beta iota. rewrite E2. eexists _, w2. split; [done|].
  assert (w ≼ w2) by (etrans; [by apply quiet_wle|done]). split; [done|].
  eapply (both_keep w w2); try done. exists l', []. split; [done|]. split; [by apply Chain_nil|done].
Qed.

Lemma portal_exec_ok k x w O p out s o :
  both w O p out s o -> portal_pre x s o ->
  exists v p' out' w' s' o', portal_exec k x p out w = Some ((v, p', out'), w') /\ w ≼ w' /\
    portal_spec k x s o v s' o' /\ both w' O p' out' s' o'.
Proof.
  intros HB Hp. destruct x; cbn in Hp; cbn [portal_exec portal_spec]; unfold pappend_from_file_descriptor; run.
  - destruct Hp as [Hm Hb]. destruct (reads_ok (rd k) max_count w O p out s o HB (rd_ok k) Hm Hb)
      as (nr & p' & w' & s' & -> & Hle & Hr & HB'). by eexists _, _, _, _, s', o.
  - destruct Hp as [Hm Hb].
    destruct (reads_ok (if offset <? 0 then rd k else prd k) max_count w O p out s o HB)
      as (nr & p' & w' & s' & -> & Hle & Hr & HB'); [by destruct (offset <? 0)|done|done|].
    by eexists _, _, _, _, s', o.
  - destruct Hp as [Hm Hb]. destruct HB as (l2 & HP & HB2 & <-).
    destruct (ssl_channel_ok (ssl k) w _ p s max_count HP (ssl_good k) Hm Hb)
      as (v & e & p' & w' & d & -> & Hle & HP' & Hz & Hrun).
    eexists _, _, _, w', (s ++ d), _. split; [done|]. split; [done|]. split; [by exists d, v, e|].
    by eapply both_keep.
  - destruct Hp as [Hn Hb]. destruct (cut_portal_ok w O p out s o n HB Hn Hb) as (buf & out' & w' & -> & Hle & HB').
    by eexists _, _, _, _, _, _.
  - destruct (pop_portal_ok w O p out s o n HB Hp) as (buf & w' & -> & Hle & HB').
    by eexists _, _, _, _, _, _.
  - destruct HB as (l2 & HP & HB2 & <-).
    destruct (portal_return_ok w _ p s HP) as (w' & -> & Hle & l & HBl & HI & _ & E).
    eexists _, _, _, w', s, _. split; [done|]. split; [done|]. split; [done|].
    eapply (both_keep w w'); try done. exists l, []. split; [done|]. split; [by apply Chain_nil|done].
  - destruct (clear_portal_ok w O p out s o HB) as (p' & w' & -> & Hle & HB').
    by eexists _, _, _, _, _, _.
Qed.

Lemma portal_loop_ok k xs w O p out s o :
  both w O p out s o -> portal_safe k xs s o ->
  exists vs p' out' w' s' o', portal_loop k xs p out w = Some ((vs, p', out'), w') /\ w ≼ w' /\
    portal_specs k xs s o vs s' o' /\ both w' O p' out' s' o'.
Proof.
  revert k w p out s o. induction xs as [|x xs IH]; intros k w p out s o HB Hs.
  - by eexists _, _, _, _, s, o.
  - destruct Hs as [Hp Hs]. cbn [portal_loop].
    destruct (portal_exec_ok k x w O p out s o HB Hp) as (v & p1 & out1 & w1 & s1 & o1 & E & Hle & Hsp & HB1).
    destruct (IH (S k) w1 p1 out1 s1 o1 HB1 (Hs _ _ _ Hsp)) as
      (vs & p2 & out2 & w2 & s2 & o2 & E2 & Hle2 & Hsp2 & HB2).
    run. rewrite E. cbn beta iota. rewrite E2. eexists _, _, _, _, s2, o2. split; [done|].
    split; [by etrans|]. split; [by exists s1, o1|done].
Qed.
End Programs.

(** C14. For every behaviour of the system that is within the documentation of
    readv, preadv and SSL_read, any program of an IOPortal from its constructor
    to its destructor, which reads and cuts what was read into another IOBuf,
    runs without undefined behaviour and ends: a read offers room for at most
    max_count bytes, appends exactly the bytes that were delivered and returns
    what the call returned; the cached blocks never change what the portal or
    any other IOBuf holds, and at the end none of them is leaked. *)
Theorem portal_refines_string `{Alloc} rd prd ssl xs w bufs ss j out o :
  (forall k, reader_ok (rd k)) -> (forall k, reader_ok (prd k)) -> (forall k, ssl_ok (ssl k)) ->
  Holds w bufs ss -> bufs !! j = Some out -> ss !! j = Some o -> portal_safe rd prd ssl 0 xs [] o ->
  exists vs out' w' s' o', portal_program rd prd ssl xs out w = Some ((vs, out'), w') /\
    portal_specs rd prd ssl 0 xs [] o vs s' o' /\ Holds w' (<[j := out']> bufs) (<[j := o']> ss).
Proof.
  intros Hrd Hprd Hssl HH Hb Hs Hsafe.
  destruct (Holds_1 w bufs ss j out o HH Hb Hs) as (l2 & O & HB2 & E2 & HI & Hk).
  assert (both w O new_IOPortal out [] o) as HB.
  { exists l2. split; [|done]. exists [], []. split; [split; [apply new_IOBuf_Rep|done]|].
    split; [by apply Chain_nil|done]. }
  destruct (portal_loop_ok rd prd ssl Hrd Hprd Hssl 0 xs w O _ _ _ _ HB Hsafe) as
    (vs & p' & out' & w1 & s' & o' & E & Hle & Hsp & l3 & HP & HB3 & E3).
  destruct (portal_destroy_ok w1 _ p' s' HP) as (w2 & Ed & HI2 & Hle2).
  unfold portal_program. run. rewrite E. cbn beta iota. rewrite Ed. cbn beta iota.
  eexists vs, out', w2, s', o'. split; [done|]. split; [done|]. apply Hk.
  pose proof HP as [A HIA]%Portal_Inv.
  destruct (Buf_keep w1 w2 A [] O out' l3) as [HB4 E4]; try done.
  exists l3. split_and!; try done; [by etrans|congruence].
Qed.

(** A system that delivers one byte at a time. *)
Definition one_byte (lens : list Z) : Z * list byte :=
  if 1 <=? sumz id lens then (1, [x61]) else (0, []).
Lemma one_byte_ok : reader_ok one_byte.
Proof.
  intros lens. unfold one_byte. destruct (Z.leb_spec 1 (sumz id lens)); [right; by split; [lia|]|by left].
Qed.
Definition ssl_closed (k : nat) (n : Z) : ssl_result := mkSSL 0 [] 6 false.

Theorem portal_refines_string_witness :
  Holds init_world [new_IOBuf] [[]] /\
  exists vs out' w' s' o',
    @portal_program malloc_zero (fun _ => one_byte) (fun _ => one_byte) (fun _ => ssl_closed)
      [p_append_from_reader 10; p_cutn 1; p_append_from_SSL 5; p_clear] new_IOBuf init_world
      = Some ((vs, out'), w') /\
    @portal_specs malloc_zero (fun _ => one_byte) (fun _ => one_byte) (fun _ => ssl_closed) 0
      [p_append_from_reader 10; p_cutn 1; p_append_from_SSL 5; p_clear] [] [] vs s' o' /\
    Holds w' [out'] [o'].
Proof.
  split; [exact (Holds_new 1)|].
  apply (@portal_refines_string malloc_zero (fun _ => one_byte) (fun _ => one_byte) (fun _ => ssl_closed)
    [p_append_from_reader 10; p_cutn 1; p_append_from_SSL 5; p_clear] init_world [new_IOBuf] [[]] 0
    new_IOBuf []).
  - intros _. exact one_byte_ok.
  - intros _. exact one_byte_ok.
  - intros _ k n. by left.
  - exact (Holds_new 1).
  - done.
  - done.
  - split; [by vm_compute|]. intros v s1 o1 [Hr ->].
    assert (zlen s1 <= 1) as Hs1.
    { destruct Hr as [(_ & -> & _)|(lens & nr & d & _ & _ & E & _ & ->)]; [done|].
      unfold one_byte in E. destruct (1 <=? sumz id lens); by injection E as _ <-. }
    pose proof (zlen_nonneg s1). split.
    { split; [done|]. unfold bound. change (zlen (@nil byte)) with 0. lia. }
    intros v2 s2 o2 (_ & -> & ->).
    assert (zlen (drop (Z.to_nat 1) s1) <= 1) as Hs2 by (unfold zlen in *; rewrite length_drop; lia).
    split; [split; [done|unfold bound; lia]|]. intros v3 s3 o3 _. by split.
Defined.

End IOPortal.
