(* ===== verification/OutputStream.v ===== *)
(** * OutputStream: the zero-copy output stream of utility/iobuf.cc

    IOBufAsZeroCopyOutputStream gives the user the free bytes of a block to write
    in ([Next]) and takes back those that were not used ([BackUp]).  The bytes are
    in the IOBuf from Next on; while a stream is being written, the size of its
    block covers bytes that are still to change. *)

From S2P Require Import Prelude IOBlock IOBufRef IOBufOps IOBufSpec IOPortal.
Import IOBlock IOBufRef IOBufOps IOBufSpec.
Import IOPortal(quiet_stable, stable_chain_back).

Module OutputStream.

Record IOBufAsZeroCopyOutputStream := mkOut {
  _block_size : Z;
  _cur_block : option nat;
  _byte_count : Z }.

Definition with_cur (b : option nat) (st : IOBufAsZeroCopyOutputStream) : IOBufAsZeroCopyOutputStream :=
  mkOut (_block_size st) b (_byte_count st).
Definition count_bytes (n : Z) (st : IOBufAsZeroCopyOutputStream) : IOBufAsZeroCopyOutputStream :=
  mkOut (_block_size st) (_cur_block st) (i64 (_byte_count st + n)).

(** The constructors; the second throws std::invalid_argument. *)
Definition new_output_stream : IOBufAsZeroCopyOutputStream := mkOut 0 None 0.
Definition new_output_stream_of (block_size : Z) : option IOBufAsZeroCopyOutputStream :=
  if block_size <=? offsetof_data then None else Some (mkOut block_size None 0).

(** The memory Next returns: [iov_len] bytes at an offset of a block. *)
Record chunk := mkChunk { ch_block : nat; ch_data : Z; ch_size : Z }.

Section Stream.
Context `{Alloc}.

Definition _release_block (st : IOBufAsZeroCopyOutputStream) : M World IOBufAsZeroCopyOutputStream :=
  _ ← (if 0 <? _block_size st
       then match _cur_block st with Some b => dec_ref b | None => mret () end
       else release_tls_block (_cur_block st));
  mret (with_cur None st).

(** The current block, or a new one when there is none or it is full. *)
Definition get_block (st : IOBufAsZeroCopyOutputStream) : M World IOBufAsZeroCopyOutputStream :=
  again ← match _cur_block st with
          | None => mret true
          | Some b => blk ← block_at b; mret (full blk)
          end;
  if again : bool then
    st ← _release_block st;
    b ← (if 0 <? _block_size st then create_block_of (_block_size st) else acquire_tls_block);
    mret (with_cur b st)
  else mret st.

(** Next: None when it returns false. *)
Definition Next (st : IOBufAsZeroCopyOutputStream) (buf : IOBuf)
    : M World (option chunk * IOBufAsZeroCopyOutputStream * IOBuf) :=
  st ← get_block st;
  match _cur_block st with
  | None => mret (None, st, buf)
  | Some b =>
      blk ← block_at b;
      let r := mkRef (size blk) (left_space blk) (Some b) in
      _ ← set_block b (with_size (cap blk) blk);
      buf ← _push_back_ref r buf;
      mret (Some (mkChunk b (ref_offset r) (ref_length r)), count_bytes (ref_length r) st, buf)
  end.

(** BackUp: the block the last reference is in becomes the current one; None
    when its bytes can only be popped.  LOG(FATAL) aborts. *)
Definition back_block (r : BlockRef) (st : IOBufAsZeroCopyOutputStream)
    : M World (option IOBufAsZeroCopyOutputStream) :=
  b ← deref (ref_block r);
  blk ← block_at b;
  let at_end := u32 (ref_offset r + ref_length r) =? size blk in
  match _cur_block st with
  | Some c => if (c =? b)%nat && at_end then mret (Some st) else undefined
  | None =>
      if at_end then _ ← inc_ref b; mret (Some (with_cur (Some b) st))
      else if nshared blk =? 1 then undefined
      else mret None
  end.

(** [b]->size -= [n] *)
Definition shrink_block (b : nat) (n : Z) : M World () :=
  blk ← block_at b; set_block b (with_size (u32 (size blk - n)) blk).

Fixpoint backup_loop (fuel : nat) (count : Z) (st : IOBufAsZeroCopyOutputStream) (buf : IOBuf)
    : M World (IOBufAsZeroCopyOutputStream * IOBuf) :=
  match fuel with
  | O => undefined
  | S fuel =>
      e ← lift (empty buf);
      if e : bool then if count =? 0 then mret (st, buf) else undefined
      else
        r ← lift (_back_ref buf);
        back ← back_block r st;
        match back with
        | None => '(n, buf) ← pop_back (u64 count) buf; mret (count_bytes (- n) st, buf)
        | Some st =>
            b ← deref (_cur_block st);
            if u32 count <? ref_length r then
              buf ← retract_back count r buf;
              _ ← shrink_block b count;
              let st := count_bytes (- count) st in
              if _block_size st =? 0 then
                _ ← release_tls_block (Some b); mret (with_cur None st, buf)
              else mret (st, buf)
            else
              _ ← shrink_block b (ref_length r);
              let st := count_bytes (- ref_length r) st in
              let count := i32 (count - ref_length r) in
              '(_, buf) ← _pop_back_ref buf;
              st ← _release_block st;
              if count =? 0 then mret (st, buf) else backup_loop fuel count st buf
        end
  end.

Definition BackUp (count : Z) (st : IOBufAsZeroCopyOutputStream) (buf : IOBuf)
    : M World (IOBufAsZeroCopyOutputStream * IOBuf) :=
  backup_loop (ref_fuel buf) count st buf.

Definition ByteCount (st : IOBufAsZeroCopyOutputStream) : Z := _byte_count st.

(** ~IOBufAsZeroCopyOutputStream *)
Definition destroy (st : IOBufAsZeroCopyOutputStream) : M World () :=
  _ ← _release_block st; mret ().

(** The user stores [d] in the memory of a chunk, from its byte [k] on. *)
Definition store (p : chunk) (k : Z) (d : list byte) : M World () :=
  write_at (ch_block p) (ch_data p + k) d.
End Stream.

(** ** Overwriting a part *)
Section Overwrite.
Context {A : Type}.
Implicit Types s t d : list A.

Lemma overwrite_app_r s t d j :
  0 <= j -> overwrite (zlen s + j) d (s ++ t) = s ++ overwrite j d t.
Proof.
  intros Hj. unfold overwrite, zlen.
  replace (Z.to_nat (Z.of_nat (List.length s) + j)) with (List.length s + Z.to_nat j)%nat by lia.
  rewrite take_app_add, <-app_assoc. do 2 f_equal. rewrite <-Nat.add_assoc. by rewrite drop_app_add.
Qed.

Lemma overwrite_app_l s t d j :
  0 <= j -> j + zlen d <= zlen s -> overwrite j d (s ++ t) = overwrite j d s ++ t.
Proof.
  intros Hj Hd. unfold overwrite, zlen in *.
  rewrite take_app_le, drop_app_le by lia. by rewrite <-!app_assoc.
Qed.

Lemma slice_middle s t u n : zlen t = n -> slice (zlen s) n (s ++ t ++ u) = t.
Proof.
  intros <-. unfold slice, zlen. rewrite !Nat2Z.id. rewrite drop_app_length. apply take_app_length.
Qed.

Lemma slice_overwrite_in o n off d s :
  0 <= o <= off -> off + zlen d <= o + n -> o + n <= zlen s ->
  slice o n (overwrite off d s) = overwrite (off - o) d (slice o n s).
Proof.
  intros Ho Hd Hn. pose proof (zlen_nonneg d).
  assert (s = take (Z.to_nat o) s ++ slice o n s ++ drop (Z.to_nat (o + n)) s) as Es.
  { unfold slice. replace (Z.to_nat (o + n)) with (Z.to_nat o + Z.to_nat n)%nat by lia.
    by rewrite <-drop_drop, !take_drop. }
  assert (zlen (take (Z.to_nat o) s) = o) as El by (rewrite zlen_take; lia).
  assert (zlen (slice o n s) = n) as En by (rewrite zlen_slice; lia).
  rewrite Es at 1. replace off with (zlen (take (Z.to_nat o) s) + (off - o)) at 1 by lia.
  rewrite overwrite_app_r, overwrite_app_l by lia. rewrite <-El at 1.
  apply slice_middle. rewrite zlen_overwrite; lia.
Qed.
End Overwrite.

(** ** A block that is being written

    From Next to BackUp the size of the block covers the whole chunk.  [unsize b
    off w] is the world with the size the block had before: what other IOBufs
    refer to lies below it. *)
Definition unsize (b : nat) (off : Z) (w : World) : World :=
  match heap w !! b with
  | Some x => set_heap (<[b := with_size off x]> (heap w)) w
  | None => w
  end.

Lemma unsize_eq b off w x :
  heap w !! b = Some x -> unsize b off w = set_heap (<[b := with_size off x]> (heap w)) w.
Proof. unfold unsize. by intros ->. Qed.

Lemma unsize_lookup b off w b' :
  heap (unsize b off w) !! b' =
    if decide (b' = b) then with_size off <$> heap w !! b else heap w !! b'.
Proof.
  unfold unsize. destruct (heap w !! b) as [x|] eqn:E; cbn.
  - destruct (decide (b' = b)) as [->|Hne]; [apply lookup_insert_eq|by rewrite lookup_insert_ne].
  - by destruct (decide (b' = b)) as [->|].
Qed.

Lemma unsize_next b off w : next (unsize b off w) = next w.
Proof. unfold unsize. by destruct (heap w !! b). Qed.

Lemma unsize_tls b off w : tls (unsize b off w) = tls w.
Proof. unfold unsize. by destruct (heap w !! b). Qed.

Lemma unsize_bytes b off w l : bytes (unsize b off w) l = bytes w l.
Proof.
  unfold bytes. f_equal. apply list_fmap_ext. intros _ r _. unfold ref_bytes.
  destruct (ref_block r) as [b'|]; [|done]. rewrite unsize_lookup.
  destruct (decide (b' = b)) as [->|]; [|done]. by destruct (heap w !! b).
Qed.

Lemma unsize_written b off w x r :
  heap w !! b = Some x -> off <= size x <= cap x -> written (unsize b off w) r -> written w r.
Proof.
  intros Hx Ho (b' & y & Eb & Hy & Hw & Hd). rewrite unsize_lookup in Hy.
  destruct (decide (b' = b)) as [->|]; [|by exists b', y].
  rewrite Hx in Hy. injection Hy as <-. cbn in *. exists b, x. split_and!; try done; lia.
Qed.

Lemma unsize_le b off w x : heap w !! b = Some x -> off <= size x -> unsize b off w ≼ w.
Proof.
  intros Hx Ho. rewrite (unsize_eq _ _ _ x Hx).
  eapply (wle_insert _ w b (with_size off x) x); [apply lookup_insert_eq| |done|].
  - cbn. by rewrite insert_insert_eq, insert_id.
  - split; cbn; try done. 
Qed.

Lemma unsize_quiet b off w w' : quiet w w' -> quiet (unsize b off w) (unsize b off w').
Proof.
  intros [Ht Hn Hh]. split; rewrite ?unsize_tls, ?unsize_next; [done..|].
  intros b' y. rewrite !unsize_lookup. destruct (decide (b' = b)) as [->|]; [|apply Hh].
  intros (z & Hz & ->)%fmap_Some. destruct (Hh b z Hz) as (x & -> & E). exists (with_size off x).
  split; [done|]. trans (with_size off (with_nshared (nshared z) x)); [by f_equal|done].
Qed.

Lemma unsize_Inv_at b off w hd c O x :
  Inv_at w hd c O -> heap w !! b = Some x -> 0 <= off <= cap x -> Inv_at (unsize b off w) hd c O.
Proof.
  intros HI Hx Ho. rewrite (unsize_eq _ _ _ x Hx).
  pose proof (inv_refs _ _ _ _ HI b) as HR. rewrite Hx in HR. destruct HR as (_ & _ & [Wf Ws Wc Wo Wd]).
  eapply Inv_at_put; done.
Qed.

Lemma uncached_Inv w b O : uncached w b O -> Inv w (b :: O).
Proof. intros (c & HI & Hn & _). by exists c. Qed.

Lemma uncached_quiet w w' b O O' : uncached w b O -> quiet w w' -> Inv w' (b :: O') -> uncached w' b O'.
Proof.
  intros (c & HI & Hn & Hni) Hq (c' & HI' & Hn'). exists c'. split_and!; [done..|].
  replace c' with c; [done|]. eapply is_chain_det; [exact (inv_chain _ _ _ _ HI)|].
  rewrite <-(quiet_tls _ _ Hq). eapply stable_chain_back; [by apply quiet_stable|].
  exact (inv_chain _ _ _ _ HI').
Qed.

(** ** The state of a stream

    Between calls a stream is idle, or the user writes in the chunk that Next
    returned. *)
Section Facts.
Context `{Alloc}.

Definition stream_size (st : IOBufAsZeroCopyOutputStream) : Prop :=
  _block_size st = 0 \/ sizeof_Block < _block_size st <= 2 ^ 30.

Lemma stream_size_0 st : stream_size st -> _block_size st <= 0 -> _block_size st = 0.
Proof. unfold stream_size, sizeof_Block. lia. Qed.

(** The current block: a stream with the blocks of the thread gives back what it
    has not filled. *)
Definition cur_ok (w : World) (st : IOBufAsZeroCopyOutputStream) : Prop :=
  forall b, _cur_block st = Some b ->
    exists x, heap w !! b = Some x /\ flags x = 0 /\ (_block_size st = 0 -> size x = cap x).

(** A block to write in. *)
Definition held (st : IOBufAsZeroCopyOutputStream) (w : World) (b : nat) (O : list nat) : Prop :=
  if 0 <? _block_size st then Inv w (b :: O) else uncached w b O.

Lemma held_Inv st w b O : held st w b O -> Inv w (b :: O).
Proof. unfold held. destruct (0 <? _block_size st); [done|apply uncached_Inv]. Qed.

Lemma held_quiet st w w' b O O' : held st w b O -> quiet w w' -> Inv w' (b :: O') -> held st w' b O'.
Proof. unfold held. destruct (0 <? _block_size st); [done|apply uncached_quiet]. Qed.

(** Whatever is done to the size or the bytes of the block. *)
Lemma held_put st w b O x y :
  held st w b O -> heap w !! b = Some x -> nshared y = nshared x -> flags y = flags x ->
  u y = u x -> wf_block y -> held st (set_heap (<[b := y]> (heap w)) w) b O.
Proof.
  unfold held. intros Hh Hx E1 E2 E3 Hwf. destruct (0 <? _block_size st).
  - destruct Hh as (c & HI & Hn). exists c. split; [by eapply Inv_at_put|done].
  - destruct Hh as (c & HI & Hn & Hni). exists c. split_and!; [by eapply Inv_at_put|done..].
Qed.

Lemma held_perm st w b O O' : O ≡ₚ O' -> held st w b O -> held st w b O'.
Proof.
  unfold held. intros HP Hh. destruct (0 <? _block_size st); [by rewrite <-HP|].
  destruct Hh as (c & HI & Hn & Hni). exists c. by rewrite <-HP.
Qed.

Lemma release_block_ok w O st :
  stream_size st -> Inv w (option_list (_cur_block st) ++ O) -> cur_ok w st ->
  exists w', _release_block st w = Some (with_cur None st, w') /\ Inv w' O /\ w ≼ w'.
Proof.
  intros Hs HI Hc. unfold _release_block. run.
  destruct (_cur_block st) as [b|] eqn:Eb; cbn [option_list app] in HI.
  - destruct (dec_ref_inv w O b HI) as (w' & E & HI' & Hq). exists w'.
    split_and!; [|done|by apply quiet_wle]. destruct (Z.ltb_spec 0 (_block_size st)) as [|Hz]; [by rewrite E|].
    destruct (Hc b Eb) as (x & Hx & Hf & Hfull). cbn [release_tls_block]. run.
    rewrite (block_at_Some _ _ _ Hx). cbn beta iota.
    assert (full x = true) as ->; [|by rewrite E].
    unfold full. apply Z.leb_le. rewrite Hfull; [done|]. by apply stream_size_0.
  - exists w. split_and!; [by destruct (0 <? _block_size st)|done|done].
Qed.

Lemma new_block_ok w O st :
  stream_size st -> Inv w O ->
  exists p w', (if 0 <? _block_size st then create_block_of (_block_size st) else acquire_tls_block) w
      = Some (p, w') /\ w ≼ w' /\
    match p with
    | None => Inv w' O /\ exists n, malloc_ok n = false
    | Some b => held st w' b O /\ writable w' b
    end.
Proof.
  intros Hs HI. unfold held. destruct (Z.ltb_spec 0 (_block_size st)) as [Hz|Hz].
  - destruct Hs as [|Hs]; [lia|]. destruct HI as (c & HI & Hn).
    destruct (create_block_of_spec w _ c O (_block_size st) HI) as (p & w' & E & Hle & Ht & Hp & Hm);
      [unfold sizeof_Block in *; lia|].
    exists p, w'. split_and!; [done..|]. destruct p as [b|].
    + destruct Hm as (HI' & _ & x & Hx & Hf & Hsz & Hcp & _). split; [exists c; by rewrite Ht|].
      exists x. split_and!; [done..|lia].
    + split; [exists c; by rewrite Ht|]. exists (next w). by apply Hp.
  - destruct (acquire_tls_block_spec w O HI) as (p & w' & E & Hle & Hm). by exists p, w'.
Qed.

Lemma get_block_ok w O st :
  stream_size st -> Inv w (option_list (_cur_block st) ++ O) -> cur_ok w st ->
  exists p w', get_block st w = Some (with_cur p st, w') /\ w ≼ w' /\
    match p with
    | None => Inv w' O /\ exists n, malloc_ok n = false
    | Some b => held st w' b O /\ writable w' b
    end.
Proof.
  intros Hs HI Hc.
  assert (exists p w', (st ← _release_block st;
    b ← (if 0 <? _block_size st then create_block_of (_block_size st) else acquire_tls_block);
    mret (with_cur b st)) w = Some (with_cur p st, w') /\ w ≼ w' /\
    match p with
    | None => Inv w' O /\ exists n, malloc_ok n = false
    | Some b => held st w' b O /\ writable w' b
    end) as Hnew.
  { destruct (release_block_ok w O st Hs HI Hc) as (w1 & E1 & HI1 & Hle1).
    destruct (new_block_ok w1 O st Hs HI1) as (p & w2 & E2 & Hle2 & Hp).
    exists p, w2. split_and!; [|by etrans|done]. run. rewrite E1. cbn beta iota. cbn [_block_size with_cur].
    by rewrite E2. }
  unfold get_block. run. destruct (_cur_block st) as [b|] eqn:Eb; [|exact Hnew].
  destruct (Hc b Eb) as (x & Hx & Hf & Hfull). rewrite (block_at_Some _ _ _ Hx). cbn beta iota.
  destruct (full x) eqn:Efl; [exact Hnew|]. apply full_false in Efl.
  exists (Some b), w. split_and!; [by destruct st; cbn in *; subst|done| |by exists x].
  unfold held. destruct (Z.ltb_spec 0 (_block_size st)); [done|].
  rewrite Hfull in Efl by by apply stream_size_0. lia.
Qed.

Record Idle (w : World) (O : list nat) (st : IOBufAsZeroCopyOutputStream) (buf : IOBuf)
    (l : list BlockRef) : Prop := mkIdle {
  id_buf : Buf w buf l;
  id_inv : Inv w (option_list (_cur_block st) ++ blocks l ++ O);
  id_stream : stream_size st;
  id_cur : cur_ok w st }.

(** The world before Next took the chunk. *)
Definition before (p : chunk) (w : World) : World := unsize (ch_block p) (ch_data p) w.

Record Pending (w : World) (O : list nat) (st : IOBufAsZeroCopyOutputStream) (buf : IOBuf)
    (l0 : list BlockRef) (r : BlockRef) (p : chunk) : Prop := mkPending {
  pe_cur : _cur_block st = Some (ch_block p);
  pe_stream : stream_size st;
  pe_block : exists x, heap w !! ch_block p = Some x /\ flags x = 0 /\ size x = cap x /\
    cap x = ch_data p + ch_size p;
  pe_chunk : 0 <= ch_data p /\ 0 < ch_size p;
  pe_rep : Rep buf (l0 ++ [r]);
  pe_ref : ref_block r = Some (ch_block p);
  pe_off : ref_offset r <= ch_data p;
  pe_end : ref_offset r + ref_length r = ch_data p + ch_size p;
  pe_written : Forall (written (before p w)) l0;
  pe_held : held st w (ch_block p) (blocks (l0 ++ [r]) ++ O) }.

Lemma push_ref_shape l r :
  Forall ok_ref l -> ok_ref r -> total l + ref_length r < 2 ^ 31 ->
  exists l0 r', push_ref l r = l0 ++ [r'] /\ ref_block r' = ref_block r /\
    ref_offset r' <= ref_offset r /\
    ref_offset r' + ref_length r' = ref_offset r + ref_length r /\ (exists k, l = l0 ++ k).
Proof.
  intros Hl Hr Ht. pose proof Hr as [[b Eb] Ho Hlen He].
  destruct (blocks_push_ref l r b Eb) as [(_ & l0 & back & -> & Ha & ->)|(_ & -> & _)].
  - apply Forall_app in Hl as [Hl0 Hl]. apply Forall_cons in Hl as [Hl _]. pose proof Hl as [? Ho' ? ?].
    pose proof (total_length _ Hl0). pose proof (zlen_nonneg l0).
    rewrite total_app in Ht. cbn [total] in Ht.
    pose proof (adjacent_true _ _ Ha Hl) as [Eb' Ee].
    destruct (extend_ok back r Ha Hl Hr) as [_ El]; [lia|].
    exists l0, (extend back r). split_and!; try done; cbn in *; [lia|lia|by eexists].
  - exists l, r. split_and!; try done. exists []. by rewrite app_nil_r.
Qed.

Lemma Inv_before p w O x :
  Inv w O -> heap w !! ch_block p = Some x -> 0 <= ch_data p <= cap x -> Inv (before p w) O.
Proof.
  intros (c & HI & Hn) Hx Ho. exists c. unfold before. rewrite unsize_tls.
  split; [by eapply unsize_Inv_at|done].
Qed.

Lemma with_size_with_size n m x : with_size n (with_size m x) = with_size n x.
Proof. done. Qed.

Lemma with_size_id x : with_size (size x) x = x.
Proof. by destruct x. Qed.

(** The reference Next pushes, once the block is taken. *)
Lemma push_chunk_ok w O st buf l b x :
  Buf w buf l -> total l < 2 ^ 30 -> held st w b (blocks l ++ O) -> stream_size st ->
  _cur_block st = Some b -> heap w !! b = Some x -> flags x = 0 -> size x < cap x ->
  let p := mkChunk b (size x) (cap x - size x) in
  let w2 := set_heap (<[b := with_size (cap x) x]> (heap w)) w in
  exists buf' w' l0 r g,
    _push_back_ref (mkRef (size x) (left_space x) (Some b)) buf w2 = Some (buf', w') /\
    Pending w' O st buf' l0 r p /\ w ≼ before p w' /\
    bytes w' (l0 ++ [r]) = bytes w l ++ g /\ zlen g = ch_size p.
Proof.
  intros HB Ht Hh Hs Ec Hx Hf Hsz p w2. pose proof (held_Inv _ _ _ _ Hh) as HI.
  pose proof (Inv_wf _ _ _ _ HI Hx) as [Wf Ws Wc Wo Wd]. specialize (Wo Hf).
  assert (left_space x = cap x - size x) as El by (unfold left_space; rewrite wrapu_small; lia).
  rewrite El. set (r := mkRef _ _ _).
  assert (before p w2 = w) as Eb2.
  { unfold before. rewrite (unsize_eq _ _ _ (with_size (cap x) x)) by apply lookup_insert_eq.
    unfold w2, set_heap. cbn [heap next tls g_nblock g_blockmem g_newbigview g_num_hit_tls_threshold deleted].
    change (ch_data p) with (size x). change (ch_block p) with b.
    rewrite insert_insert_eq, with_size_with_size, with_size_id, insert_id by done. by destruct w. }
  assert (held st w2 b (blocks l ++ O)) as Hh2 by (eapply held_put; try done; split; cbn; try done; lia).
  assert (heap w2 !! b = Some (with_size (cap x) x)) as Hx2 by apply lookup_insert_eq.
  assert (ok_ref r) as Hr by (split; cbn; [by exists b|lia..]).
  assert (Inv w2 (blocks l ++ b :: O)) as HI2.
  { apply held_Inv in Hh2. by rewrite <-Permutation_middle. }
  destruct (push_or_move_spec false buf l r b w2 (b :: O)) as (buf' & w' & E & HR & HI' & Hq);
    [apply HB|done|done|cbn; lia|by split|].
  assert (Inv w' (b :: blocks (push_ref l r) ++ O)) as HI'' by by rewrite Permutation_middle.
  assert (w ≼ w2) as Hle2.
  { rewrite <-Eb2 at 1. apply (unsize_le _ _ _ _ Hx2). cbn. lia. }
  pose proof (quiet_wle _ _ Hq) as Hle'.
  destruct (Inv_live w' _ b HI'') as (x' & Hx' & _); [by left|].
  destruct (quiet_heap _ _ Hq b x' Hx') as (x2 & Hx2' & E2).
  rewrite Hx2 in Hx2'. injection Hx2' as <-.
  assert (w ≼ before p w') as Hleb.
  { rewrite <-Eb2 at 1. apply quiet_wle. by apply unsize_quiet. }
  assert (Inv (before p w') (b :: blocks (push_ref l r) ++ O)) as HIb.
  { eapply Inv_before; [done|exact Hx'|]. rewrite E2; cbn. lia. }
  destruct HB as [HBr HBw]. pose proof (Rep_ok _ _ HBr) as Hok.
  destruct (refs_frame w w' _ _ l HI (transitivity Hle2 Hle') HI'') as [Wl El']; [|done|done|].
  { intros b' Hb'. right. apply elem_of_app. left. by apply blocks_in_push. }
  assert (written w' r) as Wr.
  { exists b, x'. split_and!; [done|done|rewrite E2; cbn; lia|by rewrite E2|by rewrite E2]. }
  destruct (push_ref_bytes w' l r Hok Hr) as [_ Eb]; [cbn; lia|done|done|].
  destruct (push_ref_shape l r Hok Hr) as (l0 & r' & Ep & Eblk & Hoff & Hend & k & Ek); [cbn; lia|].
  exists buf', w', l0, r', (ref_bytes w' r). rewrite <-Ep. split_and!; [exact E| |done|by rewrite Eb, El'|].
  2:{ by rewrite zlen_ref_bytes. }
  split; try done.
  - exists x'. split_and!; [done|by rewrite E2|by rewrite E2|rewrite E2; cbn; lia].
  - cbn. lia.
  - by rewrite <-Ep.
  - destruct (refs_frame w (before p w') _ _ l0 HI Hleb HIb) as [Wl0 _]; [| | |done].
    + intros b' Hb'. right. rewrite Ep, blocks_app, <-!app_assoc. apply elem_of_app. by left.
    + rewrite Ek in Hok. by apply Forall_app in Hok as [? _].
    + rewrite Ek in HBw. by apply Forall_app in HBw as [? _].
  - rewrite <-Ep. eapply held_quiet; [exact Hh2|done|done].
Qed.

(** What Next leaves: no memory, or a chunk of unknown bytes at the end. *)
Definition nexted (w : World) (O : list nat) (st : IOBufAsZeroCopyOutputStream) (l : list BlockRef)
    (res : option chunk) (st' : IOBufAsZeroCopyOutputStream) (buf' : IOBuf) (w' : World) : Prop :=
  match res with
  | None => Idle w' O st' buf' l /\ w ≼ w' /\ bytes w' l = bytes w l /\
      _byte_count st' = _byte_count st /\ exists n, malloc_ok n = false
  | Some p => exists l0 r g, Pending w' O st' buf' l0 r p /\ w ≼ before p w' /\
      bytes w' (l0 ++ [r]) = bytes w l ++ g /\ zlen g = ch_size p /\
      _byte_count st' = i64 (_byte_count st + ch_size p)
  end.

Lemma stream_Next_ok w O st buf l :
  Idle w O st buf l -> total l < 2 ^ 30 ->
  exists res st' buf' w', Next st buf w = Some ((res, st', buf'), w') /\
    nexted w O st l res st' buf' w'.
Proof.
  intros [HB HI Hs Hc] Ht. destruct (get_block_ok w (blocks l ++ O) st Hs HI Hc) as (b & w1 & E1 & Hle1 & Hb).
  unfold Next. run. rewrite E1. cbn beta iota. cbn [_cur_block with_cur]. destruct b as [b|].
  - destruct Hb as [Hh (x & Hx & Hf & Hsz)]. pose proof (held_Inv _ _ _ _ Hh) as HI1.
    destruct (Buf_frame w w1 _ _ buf l HI Hle1 HI1) as [HB1 Eb1]; [|done|].
    { intros b' Hb'. right. apply elem_of_app. by left. }
    destruct (push_chunk_ok w1 O (count_bytes (left_space x) (with_cur (Some b) st)) buf l b x HB1 Ht Hh)
      as (buf' & w' & l0 & r & g & E2 & HP & Hle2 & Eb2 & Eg); try done.
    rewrite (block_at_Some _ _ _ Hx). unfold set_block. run. rewrite E2.
    eexists _, _, _, _. split; [done|]. cbn [ref_offset ref_length].
    assert (left_space x = cap x - size x) as El.
    { pose proof (Inv_wf _ _ _ _ HI1 Hx) as [? ? ? ? ?]. unfold left_space. rewrite wrapu_small; lia. }
    rewrite El in *. exists l0, r, g. split_and!; [exact HP|by etrans|by rewrite Eb2, Eb1|done|done].
  - destruct Hb as [HI1 Hm]. eexists None, _, _, w1. split; [done|].
    destruct (Buf_frame w w1 _ _ buf l HI Hle1 HI1) as [HB1 Eb1]; [|done|].
    { intros b' Hb'. apply elem_of_app. by left. }
    split; [|done]. by split.
Qed.

(** The whole chunk is kept. *)
Lemma Pending_Idle w O st buf l0 r p :
  Pending w O st buf l0 r p -> Idle w O st buf (l0 ++ [r]) /\ before p w ≼ w.
Proof.
  intros [Ec Hs (x & Hx & Hf & Hsz & Hcap) Hch HR Er Ho He Hw Hh].
  pose proof (held_Inv _ _ _ _ Hh) as HI. pose proof (Inv_wf _ _ _ _ HI Hx) as [Wf Ws Wc Wo Wd].
  split; [|eapply unsize_le; [done|lia]]. split; [|by rewrite Ec|done|].
  - split; [done|]. apply Forall_app. split.
    + eapply Forall_impl; [exact Hw|]. intros r' Hr'. eapply (unsize_written (ch_block p) (ch_data p)); [done|lia|done].
    + constructor; [|done]. exists (ch_block p), x. split_and!; first [done|lia].
  - intros b Eb. rewrite Ec in Eb. injection Eb as <-. by exists x.
Qed.

Lemma unsize_mono b off n w x :
  heap w !! b = Some x -> off <= n -> unsize b off w ≼ unsize b n w.
Proof.
  intros Hx Hn. rewrite !(unsize_eq _ _ _ x Hx).
  eapply (wle_insert _ _ b (with_size off x) (with_size n x)); [apply lookup_insert_eq| |done|by split].
  cbn. by rewrite insert_insert_eq.
Qed.

(** The stream drops a block it has not filled. *)
Lemma give_back_ok w O st b x :
  held st w b O -> _cur_block st = Some b -> heap w !! b = Some x -> flags x = 0 ->
  exists w', _release_block st w = Some (with_cur None st, w') /\ Inv w' O /\ w ≼ w'.
Proof.
  unfold held, _release_block. intros Hh -> Hx Hf. run. destruct (0 <? _block_size st).
  - destruct (dec_ref_inv w O b Hh) as (w' & -> & HI' & Hq). exists w'.
    split_and!; [done..|by apply quiet_wle].
  - destruct (release_tls_block_spec w b O x Hh Hx Hf) as (w' & -> & HI' & Hle). by exists w'.
Qed.

Lemma store_ok w O st buf l0 r p k d :
  Pending w O st buf l0 r p -> 0 <= k -> k + zlen d <= ch_size p ->
  let s := bytes w (l0 ++ [r]) in
  exists w', store p k d w = Some ((), w') /\ Pending w' O st buf l0 r p /\
    before p w ≼ before p w' /\ bytes w' (l0 ++ [r]) = overwrite (zlen s - ch_size p + k) d s.
Proof.
  intros HP Hk Hd s. pose proof HP as [Ec Hs (x & Hx & Hf & Hsz & Hcap) Hch HR Er Ho He Hw Hh].
  pose proof (held_Inv _ _ _ _ Hh) as HI. pose proof (Inv_wf _ _ _ _ HI Hx) as [Wf Ws Wc Wo Wd].
  pose proof (Rep_ok _ _ HR) as [Hok0 Hok]%Forall_app. apply Forall_cons in Hok as [Hok _].
  pose proof (ok_offset _ Hok). pose proof (zlen_nonneg d).
  set (d' := overwrite (ch_data p + k) d (data x)).
  assert (zlen d' = cap x) as Ed' by (unfold d'; rewrite zlen_overwrite; lia).
  set (w' := set_heap (<[ch_block p := with_data d' x]> (heap w)) w).
  assert (heap w' !! ch_block p = Some (with_data d' x)) as Hx' by apply lookup_insert_eq.
  assert (before p w ≼ before p w') as Hle.
  { unfold before. rewrite (unsize_eq _ _ _ _ Hx), (unsize_eq _ _ _ _ Hx').
    eapply (wle_insert _ _ (ch_block p) (with_size (ch_data p) x) (with_size (ch_data p) (with_data d' x)));
      [apply lookup_insert_eq| |done|].
    - cbn. by rewrite !insert_insert_eq.
    - split; cbn; try done. symmetry. apply slice_overwrite_before; lia. }
  assert (held st w' (ch_block p) (blocks (l0 ++ [r]) ++ O)) as Hh'
    by (eapply held_put; try done; split; cbn; try done; lia).
  pose proof (held_Inv _ _ _ _ Hh') as HI'.
  destruct (refs_frame (before p w) (before p w') (ch_block p :: blocks (l0 ++ [r]) ++ O)
    (ch_block p :: blocks (l0 ++ [r]) ++ O) l0) as [Wl El]; try done.
  { eapply Inv_before; [done..|lia]. }
  { eapply Inv_before; [done..|cbn; lia]. }
  { intros b' Hb'. right. rewrite blocks_app, <-app_assoc. apply elem_of_app. by left. }
  exists w'. split_and!; [| |done|].
  - unfold store, write_at, set_block. run. rewrite (block_at_Some _ _ _ Hx). cbn beta iota.
    destruct (_ && _) eqn:Ec'; [done|]. lia.
  - split; try done. by exists (with_data d' x).
  - unfold s. rewrite !bytes_app. unfold before in El. rewrite !unsize_bytes in El. rewrite El.
    assert (forall w y, heap w !! ch_block p = Some y ->
      bytes w [r] = slice (ref_offset r) (ref_length r) (data y)) as Hr.
    { intros v y Hy. unfold bytes, ref_bytes. cbn. by rewrite Er, Hy, app_nil_r. }
    rewrite (Hr _ _ Hx), (Hr _ _ Hx'). rewrite zlen_app, zlen_slice by lia.
    replace (zlen (bytes w l0) + ref_length r - ch_size p + k)
      with (zlen (bytes w l0) + (ch_data p + k - ref_offset r)) by lia.
    rewrite overwrite_app_r by lia. f_equal. apply slice_overwrite_in; lia.
Qed.

(** The block when BackUp has taken bytes of the chunk off it. *)
Lemma before_shrunk w O st buf l0 r p n :
  Pending w O st buf l0 r p -> ch_data p <= n <= ch_data p + ch_size p ->
  let w1 := unsize (ch_block p) n w in
  (exists x, heap w !! ch_block p = Some x /\ heap w1 !! ch_block p = Some (with_size n x) /\
    flags x = 0 /\ size x = ch_data p + ch_size p) /\
  before p w ≼ w1 /\ held st w1 (ch_block p) (blocks (l0 ++ [r]) ++ O) /\ Forall (written w1) l0.
Proof.
  intros [Ec Hs (x & Hx & Hf & Hsz & Hcap) Hch HR Er Ho He Hw Hh] Hn w1.
  pose proof (held_Inv _ _ _ _ Hh) as HI. pose proof (Inv_wf _ _ _ _ HI Hx) as [Wf Ws Wc Wo Wd].
  pose proof (Rep_ok _ _ HR) as [Hok0 _]%Forall_app.
  assert (held st w1 (ch_block p) (blocks (l0 ++ [r]) ++ O)) as Hh1.
  { unfold w1. rewrite (unsize_eq _ _ _ _ Hx). eapply held_put; try done. split; cbn; try done. lia. }
  assert (before p w ≼ w1) as Hle by (eapply unsize_mono; [done|lia]).
  split_and!; [|done|done|].
  - exists x. split_and!; try done; [|lia]. unfold w1. rewrite (unsize_eq _ _ _ _ Hx). apply lookup_insert_eq.
  - destruct (refs_frame (before p w) w1 (ch_block p :: blocks (l0 ++ [r]) ++ O)
      (ch_block p :: blocks (l0 ++ [r]) ++ O) l0) as [Wl _]; try done.
    + eapply Inv_before; [done..|lia].
    + by apply held_Inv in Hh1.
    + intros b' Hb'. right. rewrite blocks_app, <-app_assoc. apply elem_of_app. by left.
Qed.

Lemma shrink_block_eq w b n x :
  heap w !! b = Some x -> 0 <= size x - n < 2 ^ 32 ->
  shrink_block b n w = Some ((), unsize b (size x - n) w).
Proof.
  intros Hx Hn. unfold shrink_block, set_block. run. rewrite (block_at_Some _ _ _ Hx). cbn beta iota.
  rewrite wrapu_small by done. by rewrite (unsize_eq _ _ _ _ Hx).
Qed.

Definition backed_up (w : World) (O : list nat) (st : IOBufAsZeroCopyOutputStream) (p : chunk) (c : Z)
    (s : list byte) (st' : IOBufAsZeroCopyOutputStream) (buf' : IOBuf) (w' : World) : Prop :=
  exists l', Idle w' O st' buf' l' /\ before p w ≼ w' /\ bytes w' l' = take (Z.to_nat (zlen s - c)) s /\
    _byte_count st' = i64 (_byte_count st - c).

(** A part of the last reference stays. *)
Lemma backup_part_ok w O st buf l0 r p c :
  Pending w O st buf l0 r p -> 0 <= c <= ch_size p -> c < ref_length r ->
  exists st' buf' w', (buf ← retract_back c r buf;
      _ ← shrink_block (ch_block p) c;
      if _block_size st =? 0 then
        _ ← release_tls_block (Some (ch_block p)); mret (with_cur None (count_bytes (- c) st), buf)
      else mret (count_bytes (- c) st, buf)) w = Some ((st', buf'), w') /\
    backed_up w O st p c (bytes w (l0 ++ [r])) st' buf' w'.
Proof.
  intros HP Hc Hr. pose proof HP as [Ec Hs _ Hch HR Er Ho He Hw Hh].
  destruct (retract_back_spec c r l0 buf w HR) as (buf' & E1 & HR'); [lia|].
  destruct (before_shrunk w O st buf l0 r p (ch_data p + ch_size p - c) HP) as
    ((x & Hx & Hx1 & Hf & Hsz) & Hle & Hh1 & Wl1); [lia|].
  set (w1 := unsize _ _ w) in *. set (r' := keep_ref _ r) in *.
  assert (blocks (l0 ++ [r']) = blocks (l0 ++ [r])) as Ebl by by rewrite !blocks_app.
  rewrite <-Ebl in Hh1. pose proof (held_Inv _ _ _ _ Hh1) as HI1.
  pose proof (Inv_wf _ _ _ _ HI1 Hx1) as [Wf Ws Wc Wo Wd]. cbn in Ws, Wc, Wd.
  destruct (Pending_Idle _ _ _ _ _ _ _ HP) as [[[_ HBw] _ _ _] _].
  apply Forall_app in HBw as [_ HBr]. apply Forall_cons in HBr as [HBr _].
  pose proof (Rep_ok _ _ HR) as [Hok0 Hok]%Forall_app. apply Forall_cons in Hok as [Hok _].
  assert (Buf w1 buf' (l0 ++ [r'])) as HB1.
  { split; [done|]. apply Forall_app. split; [done|]. constructor; [|done].
    exists (ch_block p), (with_size (ch_data p + ch_size p - c) x). split_and!; try done; cbn; lia. }
  assert (bytes w1 (l0 ++ [r']) = take (Z.to_nat (zlen (bytes w (l0 ++ [r])) - c)) (bytes w (l0 ++ [r]))) as Eb1.
  { unfold w1, r'. rewrite unsize_bytes. rewrite !bytes_snoc.
    destruct (keep_ref_bytes w (ref_length r - c) r Hok HBr) as [_ ->]; [lia|].
    rewrite zlen_app, (zlen_ref_bytes _ _ Hok HBr).
    replace (Z.to_nat (zlen (bytes w l0) + ref_length r - c))
      with (List.length (bytes w l0) + Z.to_nat (ref_length r - c))%nat by (unfold zlen; lia).
    by rewrite take_app_add. }
  run. rewrite E1. cbn beta iota. rewrite (shrink_block_eq w _ c x Hx) by lia.
  rewrite Hsz. fold w1. cbn beta iota. destruct (Z.eqb_spec (_block_size st) 0) as [Ez|Hz].
  - unfold held in Hh1. rewrite Ez in Hh1. cbn in Hh1.
    destruct (release_tls_block_spec w1 _ _ _ Hh1 Hx1 Hf) as (w2 & E2 & HI2 & Hle2).
    cbn beta iota. rewrite E2. cbn beta iota. eexists _, _, w2. split; [done|]. exists (l0 ++ [r']).
    destruct (Buf_frame w1 w2 _ _ buf' (l0 ++ [r']) HI1 Hle2 HI2) as [HB2 Eb2]; [|done|].
    { intros b' Hb'. apply elem_of_app. by left. }
    split_and!; [by split|by etrans|by rewrite Eb2|done].
  - eexists _, _, w1. split; [done|]. exists (l0 ++ [r']). split_and!; [|done..]. split; try done.
    + cbn. by rewrite Ec.
    + intros b Eb. cbn in Eb. rewrite Ec in Eb. injection Eb as <-. eexists. by split_and!.
Qed.

(** The last reference was the chunk, and nothing of it is kept. *)
Lemma backup_whole_ok w O st buf l0 r p c :
  Pending w O st buf l0 r p -> c = ch_size p -> ref_length r <= c ->
  exists st' buf' w', (_ ← shrink_block (ch_block p) (ref_length r);
      '(_, buf) ← _pop_back_ref buf;
      st ← _release_block (count_bytes (- ref_length r) st);
      mret (st, buf)) w = Some ((st', buf'), w') /\ ref_length r = c /\
    backed_up w O st p c (bytes w (l0 ++ [r])) st' buf' w'.
Proof.
  intros HP -> Hr. pose proof HP as [Ec Hs _ Hch HR Er Ho He Hw Hh].
  assert (ref_length r = ch_size p) as El by lia.
  destruct (before_shrunk w O st buf l0 r p (ch_data p) HP) as
    ((x & Hx & Hx1 & Hf & Hsz) & Hle & Hh1 & Wl1); [lia|].
  set (w1 := unsize _ _ w) in *. pose proof (held_Inv _ _ _ _ Hh1) as HI1.
  pose proof (Inv_wf _ _ _ _ HI1 Hx1) as [_ Ws Wc _ _]. cbn in Ws, Wc.
  assert (Inv w1 (ch_block p :: blocks l0 ++ ch_block p :: O)) as HI1'.
  { rewrite blocks_app, (blocks_cons r _ [] Er), <-app_assoc in HI1. exact HI1. }
  destruct (pop_back_ref_spec buf r l0 (ch_block p) w1 (ch_block p :: O) HR Er HI1')
    as (buf' & w2 & E2 & HR2 & Hq2 & HI2).
  rewrite <-Permutation_middle in HI2.
  assert (held st w2 (ch_block p) (blocks l0 ++ O)) as Hh2 by (eapply held_quiet; done).
  destruct (Inv_live w2 _ (ch_block p) HI2) as (y & Hy & _); [by left|].
  destruct (quiet_heap _ _ Hq2 _ _ Hy) as (x' & Hx' & Ey). rewrite Hx1 in Hx'. injection Hx' as <-.
  destruct (give_back_ok w2 (blocks l0 ++ O) (count_bytes (- ref_length r) st) (ch_block p) y)
    as (w3 & E3 & HI3 & Hle3); [done|done|done|by rewrite Ey|].
  pose proof (quiet_wle _ _ Hq2) as Hle2.
  destruct (Buf_frame w1 w3 _ _ buf' l0 HI1 (transitivity Hle2 Hle3) HI3) as [HB3 Eb3];
    [|by split|].
  { intros b' Hb'. apply elem_of_app. by left. }
  eexists _, buf', w3. split_and!; [|done|].
  - run. rewrite (shrink_block_eq w _ _ x Hx) by lia. cbn beta iota.
    rewrite Hsz, El. replace (ch_data p + ch_size p - ch_size p) with (ch_data p) by lia. fold w1.
    rewrite E2. cbn beta iota. rewrite El in E3. by rewrite E3.
  - exists l0. split_and!; [by split|by etrans; [|etrans]| |done].
    rewrite Eb3. unfold w1. rewrite unsize_bytes, bytes_snoc.
    destruct (Pending_Idle _ _ _ _ _ _ _ HP) as [[[_ HBw] _ _ _] _].
    apply Forall_app in HBw as [_ HBr]. apply Forall_cons in HBr as [HBr _].
    pose proof (Rep_ok _ _ HR) as [_ Hok]%Forall_app. apply Forall_cons in Hok as [Hok _].
    rewrite zlen_app, (zlen_ref_bytes _ _ Hok HBr).
    replace (Z.to_nat (zlen (bytes w l0) + ref_length r - ch_size p)) with (List.length (bytes w l0))
      by (unfold zlen; lia).
    by rewrite take_app_length.
Qed.

Lemma stream_BackUp_ok w O st buf l0 r p c :
  Pending w O st buf l0 r p -> 0 <= c <= ch_size p ->
  exists st' buf' w', BackUp c st buf w = Some ((st', buf'), w') /\
    backed_up w O st p c (bytes w (l0 ++ [r])) st' buf' w'.
Proof.
  intros HP Hc. pose proof HP as [Ec Hs (x & Hx & Hf & Hsz & Hcap) Hch HR Er Ho He Hw Hh].
  pose proof (held_Inv _ _ _ _ Hh) as HI. pose proof (Inv_wf _ _ _ _ HI Hx) as [Wf Ws Wc Wo Wd].
  unfold BackUp. rewrite (ref_fuel_spec _ _ HR). cbn [backup_loop]. run.
  rewrite (empty_spec _ _ HR), bool_decide_eq_false_2 by by destruct l0.
  cbn beta iota. rewrite (back_ref_spec _ _ _ HR). unfold back_block, deref at 1. run.
  rewrite Er, (block_at_Some _ _ _ Hx), Ec. cbn beta iota.
  rewrite Nat.eqb_refl, wrapu_small by lia. rewrite He, Hsz, Hcap, Z.eqb_refl. cbn [andb]. cbn beta iota.
  rewrite Ec. cbn [deref]. run. rewrite wrapu_small by lia. destruct (Z.ltb_spec c (ref_length r)) as [Hlt|Hge].
  - destruct (backup_part_ok w O st buf l0 r p c HP Hc Hlt) as (st' & buf' & w' & E & HB).
    by exists st', buf', w'.
  - pose proof (Rep_ok _ _ HR) as [_ Hok]%Forall_app. apply Forall_cons in Hok as [Hok _].
    assert (c = ch_size p) as Eq by lia.
    destruct (backup_whole_ok w O st buf l0 r p c HP Eq Hge) as (st' & buf' & w' & E & El & HB).
    exists st', buf', w'. split; [|done]. rewrite <-E. run.
    destruct (shrink_block _ _ w) as [[[] w1]|]; [|done]. destruct (_pop_back_ref buf w1) as [[[] w2]|]; [|done].
    destruct (_release_block _ w2) as [[st3 w3]|]; [|done].
    rewrite El, Z.sub_diag. done.
Qed.
End Facts.
End OutputStream.
