(* ===== verification/OutputStreamSpec.v ===== *)
(** * OutputStreamSpec: what a zero-copy output stream does to its IOBuf

    A stream that appends to one IOBuf, next to another IOBuf and to whatever the
    thread owns: [writing] says what both hold, between two calls or while the
    user writes in a chunk.  Any sequence of Next, stores in the chunk, BackUp,
    and calls of class IOBuf on the two does what it says on byte strings. *)

From S2P Require Import Prelude IOBlock IOBufRef IOBufOps IOBufSpec OutputStream.
Import IOBlock IOBufRef IOBufOps IOBufSpec OutputStream.

Module OutputStreamSpec.

Section Writing.
Context `{Alloc}.

(** [out] holds [o], and the IOBuf of the stream [s]; [W] is the world when the
    others were last looked at, who own [O]. *)
Definition writing (W w : World) (O : list nat) (st : IOBufAsZeroCopyOutputStream) (pend : option chunk)
    (buf out : IOBuf) (s o : list byte) : Prop :=
  match pend with
  | None => exists l l2, Idle w (blocks l2 ++ O) st buf l /\ Buf w out l2 /\ W ≼ w /\
      bytes w l = s /\ bytes w l2 = o
  | Some p => exists l0 r l2, Pending w (blocks l2 ++ O) st buf l0 r p /\ Buf (before p w) out l2 /\
      W ≼ before p w /\ bytes w (l0 ++ [r]) = s /\ bytes w l2 = o
  end.

Lemma Pending_before_Inv w O st buf l0 r p :
  Pending w O st buf l0 r p -> Inv (before p w) (ch_block p :: blocks (l0 ++ [r]) ++ O).
Proof.
  intros [Ec Hs (x & Hx & Hf & Hsz & Hcap) Hch HR Er Ho He Hw Hh].
  eapply Inv_before; [by eapply held_Inv|done|lia].
Qed.

Lemma Idle_other w w' O O' A st buf out l l2 :
  Idle w (blocks l2 ++ O) st buf l -> Buf w out l2 -> w ≼ w' -> Inv w' (A ++ blocks l2 ++ O') ->
  Buf w' out l2 /\ bytes w' l2 = bytes w l2.
Proof.
  intros HI HB Hle HI'. eapply Buf_frame; [exact (id_inv _ _ _ _ _ HI)|done|exact HI'| |done].
  intros b Hb. apply elem_of_app. right. apply elem_of_app. by left.
Qed.

Lemma writing_commit W w O st p buf out s o :
  writing W w O st p buf out s o -> writing W w O st None buf out s o.
Proof.
  destruct p as [p|]; [|done]. intros (l0 & r & l2 & HP & HB & HW & Es & Eo).
  destruct (Pending_Idle _ _ _ _ _ _ _ HP) as [HI Hle]. exists (l0 ++ [r]), l2.
  destruct (Buf_frame (before p w) w _ _ out l2 (Pending_before_Inv _ _ _ _ _ _ _ HP) Hle
    (held_Inv _ _ _ _ (pe_held _ _ _ _ _ _ _ HP))) as [HB' _]; [|done|].
  { intros b Hb. right. apply elem_of_app. right. apply elem_of_app. by left. }
  split_and!; try done. by etrans.
Qed.

Lemma writing_next W w O st p buf out s o :
  writing W w O st p buf out s o -> zlen s < 2 ^ 30 ->
  exists res st' buf' w', Next st buf w = Some ((res, st', buf'), w') /\
    match res with
    | None => writing W w' O st' None buf' out s o /\ _byte_count st' = _byte_count st /\
        exists n, malloc_ok n = false
    | Some p => exists g, writing W w' O st' (Some p) buf' out (s ++ g) o /\ zlen g = ch_size p /\
        0 < ch_size p /\ _byte_count st' = i64 (_byte_count st + ch_size p)
    end.
Proof.
  intros (l & l2 & HI & HB & HW & Es & Eo)%writing_commit Hs.
  pose proof (Buf_len _ _ _ (id_buf _ _ _ _ _ HI)) as El. rewrite Es in El.
  destruct (stream_Next_ok w _ st buf l HI) as (res & st' & buf' & w' & E & HN); [lia|].
  exists res, st', buf', w'. split; [done|]. destruct res as [q|].
  - destruct HN as (l0 & r & g & HP & Hle & Eb & Eg & Ec). exists g. rewrite <-Es.
    split_and!; try done; [|apply HP]. exists l0, r, l2.
    pose proof (Pending_before_Inv _ _ _ _ _ _ _ HP) as HI'.
    destruct (Idle_other w (before q w') O O (ch_block q :: blocks (l0 ++ [r])) st buf out l l2 HI HB Hle HI')
      as [HB' Eo'].
    split_and!; try done; [by etrans|]. unfold before in Eo'. rewrite unsize_bytes in Eo'. congruence.
  - destruct HN as (HI' & Hle & Eb & Ec & Hm). split_and!; try done. exists l, l2.
    pose proof (id_inv _ _ _ _ _ HI') as HI2. rewrite app_assoc in HI2.
    destruct (Idle_other w w' O O _ st buf out l l2 HI HB Hle HI2) as [HB' Eo'].
    split_and!; try done; [by etrans|congruence|congruence].
Qed.

Lemma writing_store W w O st p buf out s o k d :
  writing W w O st (Some p) buf out s o -> 0 <= k -> k + zlen d <= ch_size p ->
  exists w', store p k d w = Some ((), w') /\
    writing W w' O st (Some p) buf out (overwrite (zlen s - ch_size p + k) d s) o.
Proof.
  intros (l0 & r & l2 & HP & HB & HW & Es & Eo) Hk Hd.
  destruct (store_ok w _ st buf l0 r p k d HP Hk Hd) as (w' & E & HP' & Hle & Eb).
  exists w'. split; [done|]. exists l0, r, l2.
  destruct (Buf_frame _ _ _ _ out l2 (Pending_before_Inv _ _ _ _ _ _ _ HP) Hle
    (Pending_before_Inv _ _ _ _ _ _ _ HP')) as [HB' Eo']; [|done|].
  { intros b Hb. right. apply elem_of_app. right. apply elem_of_app. by left. }
  unfold before in Eo'. rewrite !unsize_bytes in Eo'.
  split_and!; try done; [by etrans|by rewrite Eb, Es|congruence].
Qed.

Lemma writing_backup W w O st p buf out s o c :
  writing W w O st (Some p) buf out s o -> 0 <= c <= ch_size p ->
  exists st' buf' w', BackUp c st buf w = Some ((st', buf'), w') /\
    writing W w' O st' None buf' out (take (Z.to_nat (zlen s - c)) s) o /\
    _byte_count st' = i64 (_byte_count st - c).
Proof.
  intros (l0 & r & l2 & HP & HB & HW & Es & Eo) Hc.
  destruct (stream_BackUp_ok w _ st buf l0 r p c HP Hc) as (st' & buf' & w' & E & l' & HI & Hle & Eb & Ec).
  exists st', buf', w'. split_and!; [done| |done]. exists l', l2.
  destruct (Buf_frame _ _ _ _ out l2 (Pending_before_Inv _ _ _ _ _ _ _ HP) Hle
    (id_inv _ _ _ _ _ HI)) as [HB' Eo']; [|done|].
  { intros b Hb. apply elem_of_app. right. apply elem_of_app. right. apply elem_of_app. by left. }
  unfold before in Eo'. rewrite unsize_bytes in Eo'.
  split_and!; try done; [by etrans|by rewrite Eb, Es|congruence].
Qed.

Lemma writing_chunk W w O st p buf out s o :
  writing W w O st (Some p) buf out s o -> 0 < ch_size p <= zlen s /\ ch_size p <= 2 ^ 30.
Proof.
  intros (l0 & r & l2 & HP & HB & HW & <- & Eo).
  destruct (Pending_Idle _ _ _ _ _ _ _ HP) as [HI _]. pose proof (Buf_len _ _ _ (id_buf _ _ _ _ _ HI)) as El.
  destruct HP as [Ec Hs (x & Hx & Hf & Hsz & Hcap) Hch HR Er Ho He Hw Hh].
  pose proof (Rep_ok _ _ HR) as [Hok0 _]%Forall_app. pose proof (total_length _ Hok0).
  pose proof (zlen_nonneg l0). pose proof (wf_ordinary _ (Inv_wf _ _ _ _ (held_Inv _ _ _ _ Hh) Hx) Hf).
  rewrite total_app in El. cbn [total] in El. lia.
Qed.

(** Calls of class IOBuf leave the current block of the stream as it is. *)
Lemma cur_ok_le w w' O O' st :
  cur_ok w st -> Inv w O -> w ≼ w' -> Inv w' (option_list (_cur_block st) ++ O') -> cur_ok w' st.
Proof.
  intros Hc HI Hle HI' b Eb. destruct (Hc b Eb) as (x & Hx & Hf & Hfull). rewrite Eb in HI'.
  destruct (Inv_live w' _ b HI') as (y & Hy & Wy); [by left|].
  pose proof (wle_heap _ _ Hle b) as Hh. rewrite Hx, Hy in Hh.
  destruct Hh as [Ef Ec Es _].
  { destruct HI as (c & HI & _). apply (inv_next _ _ _ _ HI). eauto. }
  exists y. split_and!; [done|congruence|]. intros Hz. specialize (Hfull Hz).
  pose proof (wf_size _ Wy). lia.
Qed.

Lemma writing_become2 W w O st l l2 buf out buf' out' w' s' o' :
  Idle w (blocks l2 ++ O) st buf l -> Buf w out l2 -> W ≼ w ->
  become2 w (option_list (_cur_block st) ++ O) s' o' buf' out' w' ->
  writing W w' O st None buf' out' s' o'.
Proof.
  intros [HBl HI Hs Hc] HB HW (l1' & l2' & HB1 & HB2 & HI' & Hle & E1 & E2). exists l1', l2'.
  assert (Inv w' (option_list (_cur_block st) ++ blocks l1' ++ blocks l2' ++ O)) as HI2.
  { revert HI'. apply Inv_Permutation. rewrite !(Permutation_app_swap_app (option_list _)). done. }
  split_and!; try done; [|by etrans]. split; try done. by eapply cur_ok_le.
Qed.

(** A call on the IOBuf of the stream, on the other one, or on both. *)
Lemma writing_exec1 c W w O st p buf out s o :
  writing W w O st p buf out s o -> pre1 c s ->
  exists v buf' w' s', exec1 c buf w = Some ((v, buf'), w') /\ spec1 c s v s' /\
    writing W w' O st None buf' out s' o.
Proof.
  intros (l & l2 & HI & HB & HW & <- & <-)%writing_commit Hp.
  destruct (exec1_ok c w buf l (option_list (_cur_block st) ++ blocks l2 ++ O)) as
    (v & buf' & w' & s' & E & (l' & HB' & HI' & Hle & Es) & Hsp); [apply HI| |done|].
  { rewrite Permutation_app_swap_app. apply HI. }
  assert (Inv w' ((blocks l' ++ option_list (_cur_block st)) ++ blocks l2 ++ O)) as HI2
    by by rewrite <-app_assoc.
  destruct (Idle_other w w' O O _ st buf out l l2 HI HB Hle HI2) as [HB2 Eo].
  exists v, buf', w', s'. split_and!; [done..|]. eapply writing_become2; [done..|].
  exists l', l2. split_and!; try done.
  by rewrite (Permutation_app_swap_app (blocks l2)) .
Qed.

Lemma writing_exec1_out c W w O st p buf out s o :
  writing W w O st p buf out s o -> pre1 c o ->
  exists v out' w' o', exec1 c out w = Some ((v, out'), w') /\ spec1 c o v o' /\
    writing W w' O st None buf out' s o'.
Proof.
  intros (l & l2 & HI & HB & HW & <- & <-)%writing_commit Hp.
  destruct (exec1_ok c w out l2 (option_list (_cur_block st) ++ blocks l ++ O)) as
    (v & out' & w' & o' & E & (l' & HB' & HI' & Hle & Es) & Hsp); [done| |done|].
  { pose proof (id_inv _ _ _ _ _ HI) as HI2. revert HI2. apply Inv_Permutation. solve_Permutation. }
  destruct (Buf_frame w w' _ _ buf l (id_inv _ _ _ _ _ HI) Hle HI') as [HB2 Eo]; [|apply HI|].
  { intros b Hb. do 2 (apply elem_of_app; right). apply elem_of_app. by left. }
  exists v, out', w', o'. split_and!; [done..|]. eapply writing_become2; [done..|].
  exists l, l'. split_and!; try done. revert HI'. apply Inv_Permutation. solve_Permutation.
Qed.

Lemma writing_exec2 c W w O st p buf out s o :
  writing W w O st p buf out s o -> pre2 c s o ->
  exists v buf' out' w' s' o', exec2 c buf out w = Some ((v, (buf', out')), w') /\ spec2 c s o v s' o' /\
    writing W w' O st None buf' out' s' o'.
Proof.
  intros (l & l2 & HI & HB & HW & <- & <-)%writing_commit Hp.
  destruct (exec2_ok c w buf out l l2 (option_list (_cur_block st) ++ O)) as
    (v & buf' & out' & w' & s' & o' & E & HB' & Hsp); [apply HI|done| |done|].
  { pose proof (id_inv _ _ _ _ _ HI) as HI2. revert HI2. apply Inv_Permutation. solve_Permutation. }
  exists v, buf', out', w', s', o'. split_and!; [done..|]. by eapply writing_become2.
Qed.

Lemma become2_swap w O s1 s2 b1 b2 w' : become2 w O s1 s2 b1 b2 w' -> become2 w O s2 s1 b2 b1 w'.
Proof.
  intros (l1 & l2 & ? & ? & HI & ? & ? & ?). exists l2, l1. split_and!; try done.
  by rewrite Permutation_app_swap_app.
Qed.

Lemma writing_exec2_out c W w O st p buf out s o :
  writing W w O st p buf out s o -> pre2 c o s ->
  exists v buf' out' w' s' o', exec2 c out buf w = Some ((v, (out', buf')), w') /\ spec2 c o s v o' s' /\
    writing W w' O st None buf' out' s' o'.
Proof.
  intros (l & l2 & HI & HB & HW & <- & <-)%writing_commit Hp.
  destruct (exec2_ok c w out buf l2 l (option_list (_cur_block st) ++ O)) as
    (v & out' & buf' & w' & o' & s' & E & HB' & Hsp); [done|apply HI| |done|].
  { pose proof (id_inv _ _ _ _ _ HI) as HI2. revert HI2. apply Inv_Permutation. solve_Permutation. }
  exists v, buf', out', w', s', o'. split_and!; [done..|].
  eapply writing_become2; [done..|]. by apply become2_swap.
Qed.

(** The stream is destroyed. *)
Lemma writing_destroy W w O st p buf out s o :
  writing W w O st p buf out s o ->
  exists w', OutputStream.destroy st w = Some ((), w') /\ become2 W O s o buf out w'.
Proof.
  intros (l & l2 & HI & HB & HW & <- & <-)%writing_commit. pose proof HI as [HBl HIl Hs Hc].
  destruct (release_block_ok w (blocks l ++ blocks l2 ++ O) st Hs HIl Hc) as (w' & E & HI' & Hle).
  unfold OutputStream.destroy. run. rewrite E. exists w'. split; [done|]. exists l, l2.
  destruct (Idle_other w w' O O _ st buf out l l2 HI HB Hle HI') as [HB2 Eo].
  destruct (Buf_frame w w' _ _ buf l HIl Hle HI') as [HB1 Es]; [|done|].
  { intros b Hb. apply elem_of_app. by left. }
  split_and!; try done. by etrans.
Qed.
End Writing.

(** ** Programs

    A user of a stream that appends to one IOBuf, while another IOBuf lives next
    to it: calls of the stream, stores in the chunk of the last Next, and any
    calls of class IOBuf on the two.  What the user does next may depend on what a
    call returned, as the number of bytes to back up does. *)
Inductive stream_call :=
| w_Next
| w_store (k : Z) (d : list byte)
| w_BackUp (count : Z)
| w_ByteCount
| w_buf (c : call1)
| w_out (c : call1)
| w_buf_out (c : call2)
| w_out_buf (c : call2).

Inductive prog :=
| Done
| Do (x : stream_call) (k : value -> prog).

Record user := mkUser {
  u_stream : IOBufAsZeroCopyOutputStream;
  u_chunk : option chunk;
  u_buf : IOBuf;
  u_out : IOBuf }.

(** The same on byte strings: [a_chunk] is the number of bytes of the chunk, the
    last ones of [a_buf]. *)
Record strings := mkStrings {
  a_buf : list byte;
  a_out : list byte;
  a_chunk : option Z;
  a_count : Z }.

Section Programs.
Context `{Alloc}.

Definition stream_exec (x : stream_call) (m : user) : M World (value * user) :=
  let '(mkUser st p buf out) := m in
  match x with
  | w_Next =>
      '(p, st, buf) ← Next st buf;
      mret (v_int (match p with Some p => ch_size p | None => -1 end), mkUser st p buf out)
  | w_store k d => q ← lift p; _ ← store q k d; mret (v_void, mkUser st p buf out)
  | w_BackUp c => '(st, buf) ← BackUp c st buf; mret (v_void, mkUser st None buf out)
  | w_ByteCount => mret (v_int (ByteCount st), mkUser st p buf out)
  | w_buf c => '(v, buf) ← exec1 c buf; mret (v, mkUser st None buf out)
  | w_out c => '(v, out) ← exec1 c out; mret (v, mkUser st None buf out)
  | w_buf_out c => '(v, (buf, out)) ← exec2 c buf out; mret (v, mkUser st None buf out)
  | w_out_buf c => '(v, (out, buf)) ← exec2 c out buf; mret (v, mkUser st None buf out)
  end.

Fixpoint stream_loop (xs : prog) (m : user) : M World (list value * user) :=
  match xs with
  | Done => mret ([], m)
  | Do x k =>
      '(v, m) ← stream_exec x m;
      '(vs, m) ← stream_loop (k v) m;
      mret (v :: vs, m)
  end.

(** 0 is the constructor without a block size. *)
Definition make_stream (block_size : Z) : option IOBufAsZeroCopyOutputStream :=
  if block_size =? 0 then Some new_output_stream else new_output_stream_of block_size.

(** A stream from its constructor to its destructor. *)
Definition stream_program (block_size : Z) (xs : prog) (buf out : IOBuf)
    : M World (list value * (IOBuf * IOBuf)) :=
  st ← lift (make_stream block_size);
  '(vs, m) ← stream_loop xs (mkUser st None buf out);
  _ ← OutputStream.destroy (u_stream m);
  mret (vs, (u_buf m, u_out m)).

Definition stream_pre (x : stream_call) (a : strings) : Prop :=
  match x with
  | w_Next => zlen (a_buf a) < 2 ^ 30
  | w_store k d => 0 <= k /\ exists n, a_chunk a = Some n /\ k + zlen d <= n
  | w_BackUp c => 0 <= c /\ exists n, a_chunk a = Some n /\ c <= n
  | w_ByteCount => True
  | w_buf c => pre1 c (a_buf a)
  | w_out c => pre1 c (a_out a)
  | w_buf_out c => pre2 c (a_buf a) (a_out a)
  | w_out_buf c => pre2 c (a_out a) (a_buf a)
  end.

Definition stream_spec (x : stream_call) (a : strings) (v : value) (a' : strings) : Prop :=
  let '(mkStrings s o p c) := a in
  match x with
  | w_Next =>
      (exists g, g <> [] /\ v = v_int (zlen g) /\ a' = mkStrings (s ++ g) o (Some (zlen g)) (i64 (c + zlen g))) \/
      (v = v_int (-1) /\ a' = mkStrings s o None c /\ exists n, malloc_ok n = false)
  | w_store k d => exists n, p = Some n /\ v = v_void /\
      a' = mkStrings (overwrite (zlen s - n + k) d s) o p c
  | w_BackUp n => v = v_void /\ a' = mkStrings (take (Z.to_nat (zlen s - n)) s) o None (i64 (c - n))
  | w_ByteCount => v = v_int c /\ a' = a
  | w_buf x => exists s', spec1 x s v s' /\ a' = mkStrings s' o None c
  | w_out x => exists o', spec1 x o v o' /\ a' = mkStrings s o' None c
  | w_buf_out x => exists s' o', spec2 x s o v s' o' /\ a' = mkStrings s' o' None c
  | w_out_buf x => exists s' o', spec2 x o s v o' s' /\ a' = mkStrings s' o' None c
  end.

Fixpoint stream_safe (xs : prog) (a : strings) : Prop :=
  match xs with
  | Done => True
  | Do x k => stream_pre x a /\ forall v a', stream_spec x a v a' -> stream_safe (k v) a'
  end.

Fixpoint stream_specs (xs : prog) (a : strings) (vs : list value) (a' : strings) : Prop :=
  match xs, vs with
  | Done, [] => a' = a
  | Do x k, v :: vs => exists a1, stream_spec x a v a1 /\ stream_specs (k v) a1 vs a'
  | _, _ => False
  end.

Definition holds (W w : World) (O : list nat) (m : user) (a : strings) : Prop :=
  writing W w O (u_stream m) (u_chunk m) (u_buf m) (u_out m) (a_buf a) (a_out a) /\
  a_chunk a = ch_size <$> u_chunk m /\ a_count a = _byte_count (u_stream m).

Lemma next_exec_ok W w O m a :
  holds W w O m a -> zlen (a_buf a) < 2 ^ 30 ->
  exists v m' w' a', stream_exec w_Next m w = Some ((v, m'), w') /\ stream_spec w_Next a v a' /\
    holds W w' O m' a'.
Proof.
  destruct m as [st p buf out], a as [s o q c]. intros (HW & Eq & Ec) Hs. cbn in *. subst.
  destruct (writing_next _ _ _ _ _ _ _ _ _ HW Hs) as (res & st' & buf' & w' & E & Hres).
  run. rewrite E. destruct res as [p'|].
  - destruct Hres as (g & HW' & Eg & Hpos & Ec'). eexists _, _, w', _. split; [done|].
    split; [left; exists g; split_and!; [intros ->; change (zlen []) with 0 in Eg; lia|by rewrite Eg|done]|].
    split_and!; [done|by rewrite Eg|cbn; by rewrite Eg, Ec'].
  - destruct Hres as (HW' & Ec' & Hm). eexists _, _, w', _. split; [done|].
    split; [by right|]. by split_and!.
Qed.

Lemma stream_exec_ok W w O x m a :
  holds W w O m a -> stream_pre x a ->
  exists v m' w' a', stream_exec x m w = Some ((v, m'), w') /\ stream_spec x a v a' /\ holds W w' O m' a'.
Proof.
  destruct x as [|k d|c| |c|c|c|c]; [apply next_exec_ok|..];
    destruct m as [st p buf out], a as [s o q n]; intros (HW & Eq & Ec) Hp; cbn in *; subst.
  - destruct Hp as (Hk & z & Ez & Hd). destruct p as [p|]; [|done]. injection Ez as <-.
    destruct (writing_store _ _ _ _ _ _ _ _ _ k d HW Hk Hd) as (w' & E & HW').
    run. rewrite E. eexists _, _, w', _. split; [done|]. split; [eexists; split_and!; done|by split_and!].
  - destruct Hp as (Hk & z & Ez & Hd). destruct p as [p|]; [|done]. injection Ez as <-.
    destruct (writing_backup _ _ _ _ _ _ _ _ _ c HW) as (st' & buf' & w' & E & HW' & Ec'); [lia|].
    run. rewrite E. eexists _, _, w', _. split; [done|]. split; [split; done|by split_and!].
  - eexists _, _, w, _. split; [done|]. split; [split; done|by split_and!].
  - destruct (writing_exec1 c _ _ _ _ _ _ _ _ _ HW Hp) as (v & buf' & w' & s' & E & Hsp & HW').
    run. rewrite E. eexists _, _, w', _. split; [done|]. split; [eexists; split_and!; done|by split_and!].
  - destruct (writing_exec1_out c _ _ _ _ _ _ _ _ _ HW Hp) as (v & buf' & w' & s' & E & Hsp & HW').
    run. rewrite E. eexists _, _, w', _. split; [done|]. split; [eexists; split_and!; done|by split_and!].
  - destruct (writing_exec2 c _ _ _ _ _ _ _ _ _ HW Hp) as (v & b' & o' & w' & s' & t' & E & Hsp & HW').
    run. rewrite E. eexists _, _, w', _. split; [done|]. split; [eexists _, _; split_and!; done|by split_and!].
  - destruct (writing_exec2_out c _ _ _ _ _ _ _ _ _ HW Hp) as (v & b' & o' & w' & s' & t' & E & Hsp & HW').
    run. rewrite E. eexists _, _, w', _. split; [done|]. split; [eexists _, _; split_and!; done|by split_and!].
Qed.

Lemma stream_loop_ok xs W w O m a :
  holds W w O m a -> stream_safe xs a ->
  exists vs m' w' a', stream_loop xs m w = Some ((vs, m'), w') /\ stream_specs xs a vs a' /\
    holds W w' O m' a'.
Proof.
  revert w m a. induction xs as [|x k IH]; intros w m a HH Hs; [by eexists [], m, w, a|].
  destruct Hs as [Hp Hs]. destruct (stream_exec_ok W w O x m a HH Hp) as (v & m1 & w1 & a1 & E & Hsp & H1).
  destruct (IH v w1 m1 a1 H1 (Hs v a1 Hsp)) as (vs & m2 & w2 & a2 & E2 & Hsp2 & H2).
  cbn [stream_loop]. run. rewrite E. cbn beta iota. rewrite E2.
  eexists _, _, w2, a2. split_and!; [done|by exists a1|done].
Qed.
End Programs.

(** C16. Any program of Next, stores into the chunk that was handed out, BackUp and
    ByteCount on a zero-copy output stream, with its own blocks or with those of
    the thread, and of IOBuf calls on its IOBuf and another one in between, runs
    without undefined behaviour: the IOBuf gets exactly the bytes stored in the
    chunks up to what was backed up, and no other IOBuf is disturbed. *)
Theorem output_stream_refines_string `{Alloc} block_size xs w bufs ss i j buf out s o :
  Holds w bufs ss -> i <> j -> bufs !! i = Some buf -> bufs !! j = Some out ->
  ss !! i = Some s -> ss !! j = Some o ->
  block_size = 0 \/ sizeof_Block < block_size <= 2 ^ 30 ->
  stream_safe xs (mkStrings s o None 0) ->
  exists vs buf' out' w' a, stream_program block_size xs buf out w = Some ((vs, (buf', out')), w') /\
    stream_specs xs (mkStrings s o None 0) vs a /\
    Holds w' (<[i := buf']> (<[j := out']> bufs)) (<[i := a_buf a]> (<[j := a_out a]> ss)).
Proof.
  intros HH Hij Hb1 Hb2 Hs1 Hs2 Hbs Hsafe.
  destruct (Holds_2 w bufs ss i j buf out s o HH Hij Hb1 Hb2 Hs1 Hs2) as
    (l1 & l2 & O & HB1 & HB2 & E1 & E2 & HI & Hk).
  set (st := mkOut block_size None 0).
  assert (holds w w O (mkUser st None buf out) (mkStrings s o None 0)) as H0.
  { split_and!; [|done..]. by exists l1, l2. }
  destruct (stream_loop_ok xs w w O _ _ H0 Hsafe) as (vs & m' & w1 & a & E & Hsp & HW & _ & _).
  destruct (writing_destroy _ _ _ _ _ _ _ _ _ HW) as (w2 & Ed & HB).
  exists vs, (u_buf m'), (u_out m'), w2, a. split_and!; [|done|by apply Hk].
  assert (make_stream block_size = Some st) as Est.
  { unfold make_stream, new_output_stream_of. destruct (Z.eqb_spec block_size 0) as [->|]; [done|].
    rewrite (proj2 (Z.leb_gt _ _)); [done|]. unfold sizeof_Block, offsetof_data in *. lia. }
  unfold stream_program. rewrite Est. run.
  rewrite E. cbn beta iota. by rewrite Ed.
Qed.

(** The user of a protobuf: takes a chunk, stores two bytes of it, gives the rest
    back. *)
Definition two_bytes : prog :=
  Do w_Next (fun v =>
    match v with
    | v_int n =>
        if 2 <=? n then
          Do (w_store 0 [x61; x62]) (fun _ => Do (w_BackUp (n - 2)) (fun _ =>
          Do w_ByteCount (fun _ => Do (w_buf (c_append [x63])) (fun _ =>
          Do (w_buf_out (c_cutn 2)) (fun _ => Done)))))
        else Done
    | _ => Done
    end).

Lemma two_bytes_safe : @stream_safe malloc_zero two_bytes (mkStrings [] [] None 0).
Proof.
  split; [done|]. intros v a' [(g & Hg & -> & ->)|(-> & -> & _)]; [|done].
  destruct (Z.leb_spec 2 (zlen g)); [|done].
  split; [split; [done|]; by eexists; split; [done|cbn; change (zlen [x61; x62]) with 2; lia]|].
  intros v a' (n & [= <-] & -> & ->). split; [split; [lia|]; by eexists; split; [done|lia]|].
  cbn [app]. set (s := overwrite _ _ g).
  assert (zlen s = zlen g) as Es.
  { unfold s. apply zlen_overwrite; [lia|]. change (zlen [x61; x62]) with 2. lia. }
  intros v a' [-> ->]. split; [done|]. intros v a' [-> ->]. split.
  { cbn -[take zlen]. rewrite zlen_take. unfold bound. change (zlen [x63]) with 1. lia. }
  intros v a' (s' & _ & ->). split; [|by intros v2 a2 _].
  cbn -[zlen]. unfold bound. change (zlen []) with 0. lia.
Qed.

Theorem output_stream_refines_string_witness :
  Holds init_world [new_IOBuf; new_IOBuf] [[]; []] /\
  exists vs buf' out' w' a,
    @stream_program malloc_zero 4096 two_bytes new_IOBuf new_IOBuf init_world
      = Some ((vs, (buf', out')), w') /\
    @stream_specs malloc_zero two_bytes (mkStrings [] [] None 0) vs a /\
    Holds w' [buf'; out'] [a_buf a; a_out a].
Proof.
  split; [exact (Holds_new 2)|].
  apply (@output_stream_refines_string malloc_zero 4096 two_bytes init_world [new_IOBuf; new_IOBuf]
    [[]; []] 0 1 new_IOBuf new_IOBuf [] []); try done.
  - exact (Holds_new 2).
  - right. unfold sizeof_Block. lia.
  - exact two_bytes_safe.
Defined.

(** The bytes that come out of it. *)
Lemma two_bytes_run :
  match @stream_program malloc_zero 4096 two_bytes new_IOBuf new_IOBuf init_world with
  | Some ((vs, (buf, out)), w) =>
      vs = [v_int 4064; v_void; v_void; v_int 2; v_int 0; v_int 2] /\
      option_map fst (to_string buf w) = Some [x63] /\ option_map fst (to_string out w) = Some [x61; x62]
  | None => False
  end.
Proof. vm_compute. auto. Qed.

(** ** Blocks without room

    The constructor lets block sizes through that have no room for data: up to 31
    bytes hold not even the Block itself, and with 32 Next() hands out a chunk of no
    byte and leaves an IOBuf of length 0 that is not empty(). *)
Lemma small_block_sizes `{Alloc} n w : offsetof_data < n <= sizeof_Block -> malloc_ok (next w) = true ->
  exists st, new_output_stream_of n = Some st /\
    if n <? sizeof_Block then forall buf, Next st buf w = None
    else exists p st' b' w', Next st new_IOBuf w = Some ((Some p, st', b'), w') /\ ch_size p = 0 /\
      length b' = Some 0 /\ empty b' = Some false.
Proof.
  unfold offsetof_data, sizeof_Block. intros Hn Hm. exists (mkOut n None 0). split.
  { unfold new_output_stream_of, offsetof_data. by rewrite (proj2 (Z.leb_gt _ _)) by lia. }
  destruct (Z.ltb_spec n 32) as [Hlt|Hge].
  - intros buf. unfold Next, get_block, _release_block, create_block_of, malloc, sizeof_Block, with_cur. run. cbn [_block_size _cur_block _byte_count].
    rewrite (proj2 (Z.ltb_lt 0 n)) by lia. cbn beta iota. cbn [_block_size _cur_block _byte_count].
    rewrite (proj2 (Z.ltb_lt 0 n)), (proj2 (Z.ltb_ge 4294967295 n)), Hm by lia. cbn beta iota.
    by rewrite (proj2 (Z.ltb_lt n 32)) by lia.
  - replace n with 32 by lia.
    unfold Next, get_block, _release_block, create_block_of, malloc, sizeof_Block, set_block, block_at, modify, with_cur.
    run. cbn [_block_size _cur_block _byte_count]. change (0 <? 32) with true. cbn beta iota.
    cbn [_block_size _cur_block _byte_count]. change (0 <? 32) with true. change (4294967295 <? 32) with false.
    cbn beta iota. rewrite Hm. cbn beta iota. change (32 <? 32) with false. cbn beta iota. cbn [_cur_block heap set_heap add_blocks].
    rewrite lookup_insert_eq. cbn beta iota.
    unfold _push_back_ref, push_or_move, _push_or_move_back_ref_to_smallview, inc_ref_of, inc_ref, block_at, set_block, modify.
    change (_small new_IOBuf) with true. change (_sv new_IOBuf) with (Some (null_ref, null_ref)). run.
    change (negb (not_null null_ref)) with true. cbn beta iota. cbn [ref_block deref heap set_heap].
    run. cbn [heap set_heap]. rewrite lookup_insert_eq. cbn beta iota.
    eexists _, _, _, _. split; [reflexivity|]. by split_and!.
Qed.

(** ** Backing up further than the last chunk

    iobuf.h allows a count up to ByteCount().  Two streams of a thread, on two
    IOBufs, each keep three bytes of a first chunk; the first stream then takes
    the block the second one gave back, and backs up one byte more than that
    chunk: the block of its first chunk is in the cache of the thread, and is put
    there a second time. *)
Definition two_streams `{Alloc} : M World (IOBuf * IOBuf * Z * Z) :=
  '(p1, s1, b1) ← Next new_output_stream new_IOBuf;
  '(p2, s2, b2) ← Next new_output_stream new_IOBuf;
  p1 ← lift p1; p2 ← lift p2;
  '(s1, b1) ← BackUp (ch_size p1 - 3) s1 b1;
  '(s2, b2) ← BackUp (ch_size p2 - 3) s2 b2;
  '(p1, s1, b1) ← Next s1 b1;
  p1 ← lift p1;
  let count := ch_size p1 + 1 in
  let byte_count := ByteCount s1 in
  '(s1, b1) ← BackUp count s1 b1;
  mret (b1, b2, count, byte_count).

Definition acquire_three `{Alloc} : M World (list (option nat)) :=
  p ← acquire_tls_block; q ← acquire_tls_block; r ← acquire_tls_block; mret [p; q; r].

(** C30. A BackUp of at most ByteCount() bytes that goes further back than the last
    chunk can put a block into the cache of the thread that is there already: the
    IOBufs hold two and three bytes as they should, but the cache is a cycle, it
    gives one block to two owners, and when the thread ends it touches a freed
    block. *)
Theorem extended_backup_breaks_the_cache :
  match @two_streams malloc_zero init_world with
  | Some ((b1, b2, count, byte_count), w) =>
      count <= byte_count /\ length b1 = Some 2 /\ length b2 = Some 3 /\
      (exists p q w', @acquire_three malloc_zero w = Some ([Some p; Some q; Some p], w')) /\
      exists p, block_head (tls w) = Some p /\ forall fuel, remove_loop fuel p 0 w = None
  | None => False
  end.
Proof.
  destruct (@two_streams malloc_zero init_world) as [[[[[b1 b2] count] n] w]|] eqn:E; [|by vm_compute in E].
  vm_compute in E. injection E as <- <- <- <- <-. split; [lia|]. split; [done|]. split; [done|]. split.
  - vm_compute. by eexists _, _, _.
  - eexists. split; [done|]. intros fuel. do 8 (destruct fuel as [|fuel]; [by vm_compute|]). by vm_compute.
Qed.

End OutputStreamSpec.
