(* ===== verification/IOBufAppender.v ===== *)
(** * IOBufAppender: the clients of the output stream in utility/iobuf_inl.h and
    iobuf.cc

    IOBufAppender keeps the chunk of its stream between two pointers and writes
    there; IOBufAsSnappySink lends the chunk to a compressor.  Both give the rest
    of the chunk back before the IOBuf is looked at.  Their theorems are proved
    from what OutputStreamSpec.v says of the stream. *)

From S2P Require Import Prelude StringNumber IOBlock IOBufRef IOBufOps IOBufSpec OutputStream OutputStreamSpec.
Import IOBlock IOBufRef IOBufOps IOBufSpec OutputStream OutputStreamSpec.

Module IOBufAppender.

(** [_data] and [_data_end] as offsets in the block [_ptr]; NULL is 0. *)
Record IOBufAppender := mkAppender {
  _ptr : option nat;
  _data : Z;
  _data_end : Z;
  _buf : IOBuf;
  _zc_stream : IOBufAsZeroCopyOutputStream }.

Definition new_IOBufAppender : IOBufAppender := mkAppender None 0 0 new_IOBuf new_output_stream.

Definition left_size (a : IOBufAppender) : Z := _data_end a - _data a.

(** memcpy(_data, src, n), which is nothing when n is 0. *)
Definition copy_in (a : IOBufAppender) (src : list byte) : M World () :=
  match src with
  | [] => mret ()
  | _ => b ← deref (_ptr a); write_at b (_data a) src
  end.

Definition advance (n : Z) (a : IOBufAppender) : IOBufAppender :=
  mkAppender (_ptr a) (_data a + n) (_data_end a) (_buf a) (_zc_stream a).

(** A char from the value of an int expression. *)
Definition char_of (z : Z) : byte :=
  match Byte.of_N (Z.to_N (u8 z)) with Some c => c | None => x00 end.

(** buf[--n] = c in append_decimal; [fst s] is n, [snd s] what is in buf from
    there on.  Writing before the array is undefined. *)
Definition put_char (c : Z) (s : Z * list Z) : option (Z * list Z) :=
  let '(n, l) := s in if 0 <? n then Some (n - 1, c :: l) else None.

(** The do-while loop. *)
Fixpoint decimal_loop (fuel : nat) (d : Z) (s : Z * list Z) : option (Z * list Z) :=
  match fuel with
  | O => None
  | S fuel =>
      let q := Z.quot d 10 in
      s ← put_char (d - q * 10 + 48) s;
      if negb (q =? 0) then decimal_loop fuel q s else Some s
  end.

Definition decimal (d : Z) : option (list byte) :=
  let negative := d <? 0 in
  let d := if negative then i64 (- d) else d in
  '(n, l) ← decimal_loop 24 d (24, []);
  '(n, l) ← (if negative then put_char 45 (n, l) else Some (n, l));
  Some (List.map char_of l).

Section Appender.
Context `{Alloc}.

(** add_block: 0 or -1. *)
Definition add_block (a : IOBufAppender) : M World (Z * IOBufAppender) :=
  '(p, st, buf) ← Next (_zc_stream a) (_buf a);
  match p with
  | Some p => mret (0, mkAppender (Some (ch_block p)) (ch_data p) (ch_data p + ch_size p) buf st)
  | None => mret (-1, mkAppender None 0 0 buf st)
  end.

Fixpoint append_loop (fuel : nat) (src : list byte) (a : IOBufAppender) : M World (Z * IOBufAppender) :=
  match fuel with
  | O => undefined
  | S fuel =>
      let size := left_size a in
      if zlen src <=? size then _ ← copy_in a src; mret (0, advance (zlen src) a)
      else
        _ ← copy_in a (take (Z.to_nat size) src);
        let src := drop (Z.to_nat size) src in
        '(rc, a) ← add_block a;
        if negb (rc =? 0) then mret (-1, a) else append_loop fuel src a
  end.

(** append(const void*, size_t): every turn but the first takes a byte. *)
Definition append (src : list byte) (a : IOBufAppender) : M World (Z * IOBufAppender) :=
  append_loop (S (S (List.length src))) src a.

Definition append_decimal (d : Z) (a : IOBufAppender) : M World (Z * IOBufAppender) :=
  s ← lift (decimal d); append s a.

Definition push_back (c : byte) (a : IOBufAppender) : M World (Z * IOBufAppender) :=
  '(rc, a) ← if _data a =? _data_end a then add_block a else mret (0, a);
  if negb (rc =? 0) then mret (-1, a)
  else _ ← copy_in a [c]; mret (0, advance 1 a).

Definition shrink (a : IOBufAppender) : M World IOBufAppender :=
  let size := left_size a in
  if negb (size =? 0) then
    '(st, buf) ← BackUp (i32 size) (_zc_stream a) (_buf a);
    mret (mkAppender None 0 0 buf st)
  else mret a.

Definition set_buf (buf : IOBuf) (a : IOBufAppender) : IOBufAppender :=
  mkAppender (_ptr a) (_data a) (_data_end a) buf (_zc_stream a).

(** buf(): the IOBuf is then in [_buf]. *)
Definition buf (a : IOBufAppender) : M World IOBufAppender := shrink a.

Definition move_to (target : IOBuf) (a : IOBufAppender) : M World (IOBufAppender * IOBuf) :=
  a ← buf a;
  '(target, b) ← assign_Movable target (_buf a);
  mret (set_buf b a, target).

(** ~IOBufAppender: the stream, then the IOBuf. *)
Definition destroy (a : IOBufAppender) : M World () :=
  _ ← OutputStream.destroy (_zc_stream a); _ ← IOBufRef.clear (_buf a); mret ().
End Appender.

(** ** Decimals *)

(** The loop of IntToString, which asserts that a character is left over, has
    one character more to do the same. *)
Lemma decimal_loop_digits fuel d n l :
  0 <= d -> StringNumber.digits_loop fuel d (n + 1, l) = (fun '(n, l) => (n + 1, l)) <$> decimal_loop fuel d (n, l).
Proof.
  revert d n l. induction fuel as [|fuel IH]; intros d n l Hd; [done|].
  cbn [decimal_loop StringNumber.digits_loop StringNumber.put_back put_char].
  rewrite Z.quot_div_nonneg by lia. unfold StringNumber.chr_0.
  replace (d - d / 10 * 10 + 48) with (d mod 10 + 48) by (rewrite Z.mod_eq by lia; lia).
  replace (n + 1 - 1) with n by lia. destruct (Z.ltb_spec 0 n); [|done]. cbn [mbind option_bind].
  destruct (d / 10 =? 0); cbn [negb]; [cbn; do 2 f_equal; lia|].
  rewrite <-IH by (apply Z.div_pos; lia). do 2 f_equal. lia.
Qed.

(** append_decimal writes what Int64ToString does. *)
Lemma decimal_IntToString d :
  - 2 ^ 63 < d < 2 ^ 63 ->
  exists l, StringNumber.IntToString int64_t d = Some l /\ decimal d = Some (char_of <$> l) /\
    0 < zlen l <= 20.
Proof.
  intros Hd. unfold decimal.
  assert ((if d <? 0 then i64 (- d) else d) = Z.abs d) as ->.
  { destruct (Z.ltb_spec d 0); [rewrite i64_small by lia|]; lia. }
  assert (StringNumber.ToUnsigned int64_t d = Some (Z.abs d)) as Eu.
  { apply StringNumber.ToUnsigned_abs; [by exists 8|unfold ty_min, ty_max; cbn; lia|]. unfold ty_min. cbn. lia. }
  destruct (StringNumber.digits_loop_spec 19 (Z.abs d) (24 + 1) []) as (l & ds & E & _ & _ & Hlen & Hne & _);
    [change (Z.of_nat 19) with 19; lia|lia|lia|].
  rewrite app_nil_r in E. pose proof (zlen_nonneg l).
  assert (0 < zlen l) by (destruct l; [done|rewrite zlen_cons; pose proof (zlen_nonneg l); lia]).
  pose proof (StringNumber.digits_loop_fuel 19 24 _ _ _ E ltac:(lia)) as E'.
  rewrite decimal_loop_digits in E' by lia.
  destruct (decimal_loop 24 (Z.abs d) (24, [])) as [[n l']|]; [|done]. cbn in E'. injection E' as En ->.
  unfold StringNumber.IntToString. rewrite Eu. change (StringNumber.kOutputBufSize int64_t) with (24 + 1).
  cbn [mbind option_bind]. rewrite (StringNumber.digits_loop_fuel 19 _ _ _ _ E) by lia. cbn [mbind option_bind].
  unfold StringNumber.TestNeg, StringNumber.put_back, put_char, StringNumber.chr_minus. cbn [is_signed int64_t].
  destruct (Z.ltb_spec d 0).
  - rewrite !(proj2 (Z.ltb_lt 0 _)) by lia. cbn. eexists. split; [done|]. split; [done|]. rewrite zlen_cons. lia.
  - cbn. eexists. split; [done|]. split; [done|]. lia.
Qed.

(** ** The bytes of an appender *)
Section Facts.
Context `{Alloc}.

(** The bytes are those of the IOBuf without what is left of the chunk. *)
Definition appending (W w : World) (O : list nat) (a : IOBufAppender) (out : IOBuf) (s o : list byte) : Prop :=
  exists pend full, writing W w O (_zc_stream a) pend (_buf a) out full o /\
    s = take (Z.to_nat (zlen full - left_size a)) full /\
    (left_size a = 0 \/
     0 < left_size a /\ exists p, pend = Some p /\ _ptr a = Some (ch_block p) /\ ch_data p <= _data a /\
       _data_end a = ch_data p + ch_size p).

Lemma appending_full W w O a out s o :
  appending W w O a out s o -> left_size a = 0 ->
  exists pend, writing W w O (_zc_stream a) pend (_buf a) out s o.
Proof.
  intros (pend & full & HW & -> & _) E. exists pend. rewrite E, Z.sub_0_r.
  unfold zlen. by rewrite Nat2Z.id, firstn_all.
Qed.

Lemma full_appending W w O a pend out s o :
  writing W w O (_zc_stream a) pend (_buf a) out s o -> left_size a = 0 -> appending W w O a out s o.
Proof.
  intros HW E. exists pend, s. split_and!; [done| |by left]. rewrite E, Z.sub_0_r.
  unfold zlen. by rewrite Nat2Z.id, firstn_all.
Qed.

Lemma copy_in_ok W w O a out s o d :
  appending W w O a out s o -> zlen d <= left_size a ->
  exists w', copy_in a d w = Some ((), w') /\ appending W w' O (advance (zlen d) a) out (s ++ d) o.
Proof.
  intros (pend & full & HW & -> & Ha) Hd. destruct d as [|c d].
  { exists w. split; [done|]. exists pend, full. unfold left_size, advance in *. cbn.
    rewrite !Z.add_0_r, app_nil_r. by split_and!. }
  set (d' := c :: d) in *. assert (0 < zlen d') by (unfold d'; rewrite zlen_cons; pose proof (zlen_nonneg d); lia).
  destruct Ha as [|(Hpos & p & -> & Ep & Hlo & Hhi)]; [lia|].
  destruct (writing_chunk _ _ _ _ _ _ _ _ _ HW) as [Hch _]. unfold left_size in *.
  destruct (writing_store _ _ _ _ _ _ _ _ _ (_data a - ch_data p) d' HW) as (w' & E & HW'); [lia..|].
  exists w'. split.
  { unfold copy_in, d'. rewrite Ep. cbn [deref]. run. rewrite <-E. unfold store, d'. f_equal. lia. }
  eexists (Some p), _. split_and!; [exact HW'| |].
  - replace (zlen full - ch_size p + (_data a - ch_data p)) with (zlen full - (_data_end a - _data a)) by lia.
    set (k := zlen full - (_data_end a - _data a)). unfold left_size, advance; cbn.
    rewrite zlen_overwrite by lia. unfold overwrite.
    replace (zlen full - (_data_end a - (_data a + zlen d'))) with (k + zlen d') by lia.
    replace (Z.to_nat (k + zlen d')) with (List.length (take (Z.to_nat k) full ++ d')).
    { by rewrite app_assoc, take_app_length. }
    rewrite length_app, length_take. unfold zlen in *. lia.
  - unfold left_size, advance in *; cbn in *.
    destruct (decide (_data_end a - (_data a + zlen d') = 0)); [by left|]. right. split; [lia|].
    exists p. split_and!; try done. lia.
Qed.

Lemma add_block_ok W w O a out s o :
  appending W w O a out s o -> left_size a = 0 -> zlen s < 2 ^ 30 ->
  exists rc a' w', add_block a w = Some ((rc, a'), w') /\ appending W w' O a' out s o /\
    ((rc = 0 /\ 0 < left_size a') \/ (rc = -1 /\ left_size a' = 0 /\ exists n, malloc_ok n = false)).
Proof.
  intros Ha E0 Hs. destruct (appending_full _ _ _ _ _ _ _ Ha E0) as [pend HW].
  destruct (writing_next _ _ _ _ _ _ _ _ _ HW Hs) as (res & st' & buf' & w' & E & Hres).
  unfold add_block. run. rewrite E. destruct res as [p|].
  - destruct Hres as (g & HW' & Eg & Hpos & _). eexists _, _, w'. split; [done|]. split.
    + exists (Some p), (s ++ g). unfold left_size; cbn. split_and!; [done| |].
      * replace (zlen (s ++ g) - (ch_data p + ch_size p - ch_data p)) with (zlen s) by (rewrite zlen_app; lia).
        unfold zlen. by rewrite Nat2Z.id, take_app_length.
      * right. split; [lia|]. exists p. split_and!; done.
    + left. unfold left_size; cbn. lia.
  - destruct Hres as (HW' & _ & Hm). eexists _, _, w'. split; [done|]. split; [|by right].
    by eapply full_appending.
Qed.

Lemma append_loop_ok fuel W w O a out s o src :
  appending W w O a out s o -> zlen s + zlen src < 2 ^ 30 ->
  (List.length src + (if decide (left_size a = 0)%Z then 1 else 0) < fuel)%nat ->
  exists rc a' w' s', append_loop fuel src a w = Some ((rc, a'), w') /\ appending W w' O a' out s' o /\
    appends s src (v_int rc) s'.
Proof.
  revert w a s src. induction fuel as [|fuel IH]; intros w a s src Ha Hlen Hf; [lia|].
  cbn [append_loop]. run. destruct (Z.leb_spec (zlen src) (left_size a)) as [Hle|Hgt].
  { destruct (copy_in_ok _ _ _ _ _ _ _ src Ha Hle) as (w' & E & Ha'). rewrite E.
    eexists _, _, w', _. split; [done|]. split; [done|]. by left. }
  assert (0 <= left_size a) as Hnn by (destruct Ha as (? & ? & _ & _ & [->|[? _]]); lia).
  set (d1 := take (Z.to_nat (left_size a)) src). set (d2 := drop (Z.to_nat (left_size a)) src).
  assert (zlen d1 = left_size a) as E1 by (unfold d1; rewrite zlen_take; lia).
  assert (src = d1 ++ d2) as Es by by unfold d1, d2; rewrite take_drop.
  destruct (copy_in_ok _ _ _ _ _ _ _ d1 Ha) as (w1 & E & Ha1); [lia|]. rewrite E. cbn beta iota.
  assert (left_size (advance (zlen d1) a) = 0) as El by (unfold left_size, advance in *; cbn in *; lia).
  pose proof (zlen_nonneg d2).
  assert (zlen src = zlen d1 + zlen d2) as Elen by by rewrite Es at 1; apply zlen_app.
  destruct (add_block_ok _ _ _ _ _ _ _ Ha1 El) as (rc & a2 & w2 & E2 & Ha2 & Hrc).
  { rewrite zlen_app. lia. }
  change (add_block (advance (zlen d1) a)) with (add_block a) in E2. rewrite E2. cbn beta iota.
  destruct Hrc as [[-> Hpos]|(-> & _ & Hm)].
  - cbn. destruct (IH w2 a2 (s ++ d1) d2 Ha2) as (rc & a3 & w3 & s' & E3 & Ha3 & Hap).
    + rewrite zlen_app. lia.
    + assert (List.length src = (List.length d1 + List.length d2)%nat) by (rewrite Es at 1; apply length_app).
      assert (Z.of_nat (List.length d1) = left_size a) by exact E1.
      destruct (decide (left_size a2 = 0)); [lia|]. destruct (decide (left_size a = 0)); lia.
    + exists rc, a3, w3, s'. split_and!; [done..|].
      destruct Hap as [[-> ->]|(-> & (k & ->) & Hm)]; [left|right]; rewrite <-app_assoc; [by rewrite <-Es|].
      split; [done|]. split; [|done]. exists (List.length d1 + k)%nat. f_equal.
      by rewrite Es, take_app_add.
  - cbn. eexists _, _, w2, _. split; [done|]. split; [done|]. right. split; [done|]. split; [|done].
    exists (List.length d1). f_equal. by rewrite Es, take_app_length.
Qed.

Lemma appender_append_ok W w O a out s o src :
  appending W w O a out s o -> zlen s + zlen src < 2 ^ 30 ->
  exists rc a' w' s', append src a w = Some ((rc, a'), w') /\ appending W w' O a' out s' o /\
    appends s src (v_int rc) s'.
Proof. intros Ha Hs. apply append_loop_ok; [done|done|]. destruct (decide _); lia. Qed.

Lemma appender_push_back_ok W w O a out s o c :
  appending W w O a out s o -> zlen s + 1 < 2 ^ 30 ->
  exists rc a' w' s', push_back c a w = Some ((rc, a'), w') /\ appending W w' O a' out s' o /\
    appends s [c] (v_int rc) s'.
Proof.
  intros Ha Hs. unfold push_back.
  assert (exists rc a' w', (if _data a =? _data_end a then add_block a else mret (0, a)) w = Some ((rc, a'), w') /\
    appending W w' O a' out s o /\
    ((rc = 0 /\ 0 < left_size a') \/ (rc = -1 /\ exists n, malloc_ok n = false))) as (rc & a1 & w1 & E & Ha1 & Hrc).
  { destruct (Z.eqb_spec (_data a) (_data_end a)) as [Ed|Hd].
    - destruct (add_block_ok _ _ _ _ _ _ _ Ha) as (rc & a1 & w1 & E & Ha1 & Hrc); [unfold left_size; lia|lia|].
      exists rc, a1, w1. split_and!; [done..|]. destruct Hrc as [|(? & _ & ?)]; [by left|by right].
    - exists 0, a, w. split_and!; [done..|]. left. split; [done|].
      destruct Ha as (? & ? & _ & _ & [Hz|[? _]]); [unfold left_size in Hz|]; lia. }
  rewrite (bind_Some _ _ _ _ _ E). cbn beta iota. run. destruct Hrc as [[-> Hpos]|[-> Hm]]; cbn [negb Z.eqb].
  - destruct (copy_in_ok _ _ _ _ _ _ _ [c] Ha1) as (w2 & E2 & Ha2); [change (zlen [c]) with 1; lia|].
    rewrite E2. eexists _, _, w2, _. split; [done|]. split; [done|]. by left.
  - eexists _, _, w1, _. split; [done|]. split; [done|]. right. split; [done|]. split; [|done].
    exists 0%nat. by rewrite app_nil_r.
Qed.

Lemma shrink_ok W w O a out s o :
  appending W w O a out s o ->
  exists a' w' pend, shrink a w = Some (a', w') /\ left_size a' = 0 /\
    writing W w' O (_zc_stream a') pend (_buf a') out s o.
Proof.
  intros Ha. unfold shrink. destruct (Z.eqb_spec (left_size a) 0) as [E|Hne].
  { destruct (appending_full _ _ _ _ _ _ _ Ha E) as [pend HW]. by exists a, w, pend. }
  destruct Ha as (pend & full & HW & -> & [|(Hpos & p & -> & Ep & Hlo & Hhi)]); [done|].
  destruct (writing_chunk _ _ _ _ _ _ _ _ _ HW) as [Hch Hbig].
  assert (left_size a <= ch_size p) by (unfold left_size; lia).
  destruct (writing_backup _ _ _ _ _ _ _ _ _ (left_size a) HW) as (st' & buf' & w' & E & HW' & _); [lia|].
  cbn [negb]. rewrite i32_small by lia. run. rewrite E. by eexists _, w', None.
Qed.

End Facts.

(** ** Programs: an appender next to another IOBuf *)
Inductive appender_call :=
| a_append (d : list byte)
| a_push_back (c : byte)
| a_append_decimal (d : Z)
| a_buf (c : call1)
| a_move_to
| a_out (c : call1).

Section Programs.
Context `{Alloc}.

Definition appender_exec (x : appender_call) (a : IOBufAppender) (out : IOBuf)
    : M World (value * IOBufAppender * IOBuf) :=
  match x with
  | a_append d => '(rc, a) ← append d a; mret (v_int rc, a, out)
  | a_push_back c => '(rc, a) ← push_back c a; mret (v_int rc, a, out)
  | a_append_decimal d => '(rc, a) ← append_decimal d a; mret (v_int rc, a, out)
  | a_buf c => a ← buf a; '(v, b) ← exec1 c (_buf a); mret (v, set_buf b a, out)
  | a_move_to => '(a, out) ← move_to out a; mret (v_void, a, out)
  | a_out c => '(v, out) ← exec1 c out; mret (v, a, out)
  end.

Fixpoint appender_loop (xs : list appender_call) (a : IOBufAppender) (out : IOBuf)
    : M World (list value * IOBufAppender * IOBuf) :=
  match xs with
  | [] => mret ([], a, out)
  | x :: xs =>
      '(v, a, out) ← appender_exec x a out;
      '(vs, a, out) ← appender_loop xs a out;
      mret (v :: vs, a, out)
  end.

(** An appender from its constructor to its destructor. *)
Definition appender_program (xs : list appender_call) (out : IOBuf) : M World (list value * IOBuf) :=
  '(vs, a, out) ← appender_loop xs new_IOBufAppender out;
  _ ← destroy a;
  mret (vs, out).

(** On strings.  [given] says that no chunk is held: the other IOBuf is used
    between buf() or move_to() and the next append. *)
Record strings := mkStrings { a_s : list byte; a_o : list byte; given : bool }.

Definition appender_pre (x : appender_call) (a : strings) : Prop :=
  match x with
  | a_append d => zlen (a_s a) + zlen d < 2 ^ 30
  | a_push_back _ => zlen (a_s a) + 1 < 2 ^ 30
  | a_append_decimal d => - 2 ^ 63 < d < 2 ^ 63 /\ zlen (a_s a) + 20 < 2 ^ 30
  | a_buf c => pre1 c (a_s a)
  | a_move_to => True
  | a_out c => given a = true /\ pre1 c (a_o a)
  end.

Definition appender_spec (x : appender_call) (a : strings) (v : value) (a' : strings) : Prop :=
  let '(mkStrings s o g) := a in
  match x with
  | a_append d => exists s', appends s d v s' /\ a' = mkStrings s' o false
  | a_push_back c => exists s', appends s [c] v s' /\ a' = mkStrings s' o false
  | a_append_decimal d => exists l s', StringNumber.IntToString int64_t d = Some l /\
      appends s (char_of <$> l) v s' /\ a' = mkStrings s' o false
  | a_buf c => exists s', spec1 c s v s' /\ a' = mkStrings s' o true
  | a_move_to => v = v_void /\ a' = mkStrings [] s true
  | a_out c => exists o', spec1 c o v o' /\ a' = mkStrings s o' g
  end.

Fixpoint appender_safe (xs : list appender_call) (a : strings) : Prop :=
  match xs with
  | [] => True
  | x :: xs => appender_pre x a /\ forall v a', appender_spec x a v a' -> appender_safe xs a'
  end.

Fixpoint appender_specs (xs : list appender_call) (a : strings) (vs : list value) (a' : strings) : Prop :=
  match xs, vs with
  | [], [] => a' = a
  | x :: xs, v :: vs => exists a1, appender_spec x a v a1 /\ appender_specs xs a1 vs a'
  | _, _ => False
  end.

Definition appender_holds (W w : World) (O : list nat) (a : IOBufAppender) (out : IOBuf) (t : strings) : Prop :=
  appending W w O a out (a_s t) (a_o t) /\ (given t = true -> left_size a = 0).

Lemma buf_exec_ok c W w O a out s o :
  appending W w O a out s o -> pre1 c s ->
  exists v a' w' s', appender_exec (a_buf c) a out w = Some ((v, a', out), w') /\
    spec1 c s v s' /\ appending W w' O a' out s' o /\ left_size a' = 0.
Proof.
  intros Ha Hp. destruct (shrink_ok _ _ _ _ _ _ _ Ha) as (a1 & w1 & pend & E & El & HW).
  destruct (writing_exec1 c _ _ _ _ _ _ _ _ _ HW Hp) as (v & b & w2 & s' & E2 & Hsp & HW2).
  cbn [appender_exec]. unfold buf. run. rewrite E. cbn beta iota. rewrite E2.
  eexists v, _, w2, s'. split_and!; [done..| |done]. by eapply full_appending.
Qed.

Lemma move_exec_ok W w O a out s o :
  appending W w O a out s o ->
  exists a' out' w', appender_exec a_move_to a out w = Some ((v_void, a', out'), w') /\
    appending W w' O a' out' [] s /\ left_size a' = 0.
Proof.
  intros Ha. destruct (shrink_ok _ _ _ _ _ _ _ Ha) as (a1 & w1 & pend & E & El & HW).
  destruct (writing_exec2_out c_assign_Movable _ _ _ _ _ _ _ _ _ HW I) as
    (v & b & out' & w2 & s' & o' & E2 & (-> & -> & ->) & HW2).
  cbn [appender_exec]. unfold move_to, buf. run. rewrite E. cbn beta iota.
  cbn [exec2] in E2. run_in E2.
  destruct (assign_Movable out (_buf a1) w1) as [[[t b'] w3]|]; [|done]. injection E2 as <- <- <-.
  eexists _, _, w3. split_and!; [done| |done]. by eapply full_appending.
Qed.

Lemma appender_exec_ok W w O x a out t :
  appender_holds W w O a out t -> appender_pre x t ->
  exists v a' out' w' t', appender_exec x a out w = Some ((v, a', out'), w') /\ appender_spec x t v t' /\
    appender_holds W w' O a' out' t'.
Proof.
  destruct t as [s o g]. intros [Ha Hg] Hp.
  destruct x as [d|c|d|c| |c]; cbn [appender_pre appender_exec appender_spec a_s a_o given] in *.
  - destruct (appender_append_ok _ _ _ _ _ _ _ d Ha Hp) as (rc & a' & w' & s' & E & Ha' & Hap).
    run. rewrite E. eexists _, _, _, w', _. split; [done|]. split; [by eexists|by split].
  - destruct (appender_push_back_ok _ _ _ _ _ _ _ c Ha Hp) as (rc & a' & w' & s' & E & Ha' & Hap).
    run. rewrite E. eexists _, _, _, w', _. split; [done|]. split; [by eexists|by split].
  - destruct Hp as [Hd Hs]. destruct (decimal_IntToString d Hd) as (l & El & Ed & Hl).
    destruct (appender_append_ok _ _ _ _ _ _ _ (char_of <$> l) Ha) as (rc & a' & w' & s' & E & Ha' & Hap).
    { unfold zlen in *. rewrite length_fmap. lia. }
    unfold append_decimal. rewrite Ed. run. rewrite E. eexists _, _, _, w', _.
    split; [done|]. split; [by eexists _, _|by split].
  - destruct (buf_exec_ok c _ _ _ _ _ _ _ Ha Hp) as (v & a' & w' & s' & E & Hsp & Ha' & El).
    eexists _, _, _, w', _. split; [exact E|]. split; [by eexists|by split].
  - destruct (move_exec_ok _ _ _ _ _ _ _ Ha) as (a' & out' & w' & E & Ha' & El).
    eexists _, _, _, w', _. split; [exact E|]. split; [by split|by split].
  - destruct Hp as [-> Hp]. specialize (Hg eq_refl).
    destruct (appending_full _ _ _ _ _ _ _ Ha Hg) as [pend HW].
    destruct (writing_exec1_out c _ _ _ _ _ _ _ _ _ HW Hp) as (v & out' & w' & o' & E & Hsp & HW').
    run. rewrite E. eexists _, _, _, w', _. split; [done|]. split; [by eexists|].
    split; [by eapply full_appending|done].
Qed.

Lemma appender_loop_ok xs W w O a out t :
  appender_holds W w O a out t -> appender_safe xs t ->
  exists vs a' out' w' t', appender_loop xs a out w = Some ((vs, a', out'), w') /\
    appender_specs xs t vs t' /\ appender_holds W w' O a' out' t'.
Proof.
  revert w a out t. induction xs as [|x xs IH]; intros w a out t HH Hs; [by eexists [], a, out, w, t|].
  destruct Hs as [Hp Hs]. destruct (appender_exec_ok W w O x a out t HH Hp) as (v & a1 & o1 & w1 & t1 & E & Hsp & H1).
  destruct (IH w1 a1 o1 t1 H1 (Hs v t1 Hsp)) as (vs & a2 & o2 & w2 & t2 & E2 & Hsp2 & H2).
  cbn [appender_loop]. run. rewrite E. cbn beta iota. rewrite E2.
  eexists _, _, _, w2, t2. split_and!; [done|by exists t1|done].
Qed.

(** The appender is destroyed with whatever is left of its chunk. *)
Lemma appender_destroy_ok W w O a out s o :
  appending W w O a out s o ->
  exists w', destroy a w = Some ((), w') /\ becomes W O o out w'.
Proof.
  intros (pend & full & HW & _ & _).
  destruct (writing_destroy _ _ _ _ _ _ _ _ _ HW) as (w1 & E & l1 & l2 & HB1 & HB2 & HI & Hle & _ & E2).
  destruct (clear_refs_spec (_buf a) l1 w1 (blocks l2 ++ O)) as (b & w2 & E3 & _ & HI2 & Hq); [apply HB1|done|].
  unfold destroy. run. rewrite E. cbn beta iota. rewrite E3. exists w2. split; [done|]. exists l2.
  pose proof (quiet_wle _ _ Hq) as Hle2.
  destruct (Buf_frame w1 w2 _ _ out l2 HI Hle2 HI2) as [HB3 E4]; [|done|].
  { intros b' Hb'. apply elem_of_app. by left. }
  split_and!; [done|done|by etrans|congruence].
Qed.
End Programs.

(** C17. An IOBufAppender collects the bytes that are appended to it: any sequence
    of append, push_back and append_decimal, of calls of class IOBuf on buf(), of
    move_to() another IOBuf and of calls on that, gives the bytes it gives on
    strings; append_decimal appends what Int64ToString prints.  When memory runs
    out -1 is returned and a prefix is appended. *)
Theorem appender_refines_string `{Alloc} xs w bufs ss j out o :
  Holds w bufs ss -> bufs !! j = Some out -> ss !! j = Some o -> appender_safe xs (mkStrings [] o true) ->
  exists vs out' w' t, appender_program xs out w = Some ((vs, out'), w') /\
    appender_specs xs (mkStrings [] o true) vs t /\ Holds w' (<[j := out']> bufs) (<[j := a_o t]> ss).
Proof.
  intros HH Hb Hs Hsafe. destruct (Holds_1 w bufs ss j out o HH Hb Hs) as (l2 & O & HB2 & E2 & HI & Hk).
  assert (appender_holds w w O new_IOBufAppender out (mkStrings [] o true)) as H0.
  { split; [|done]. apply (full_appending _ _ _ _ None); [|done]. exists [], l2.
    split_and!; [|done..]. split; [|done|by left|done]. split; [apply new_IOBuf_Rep|done]. }
  destruct (appender_loop_ok xs w w O _ _ _ H0 Hsafe) as (vs & a & out' & w1 & t & E & Hsp & Ha & _).
  destruct (appender_destroy_ok _ _ _ _ _ _ _ Ha) as (w2 & Ed & HB).
  exists vs, out', w2, t. split_and!; [|done|by apply Hk].
  unfold appender_program. run. rewrite E. cbn beta iota. by rewrite Ed.
Qed.

Theorem appender_refines_string_witness :
  Holds init_world [new_IOBuf] [[]] /\
  exists vs out' w' t,
    @appender_program malloc_zero [a_append_decimal (-2026); a_push_back x2c; a_append [x61; x62]; a_move_to;
      a_out (c_pop_front 1)] new_IOBuf init_world = Some ((vs, out'), w') /\
    @appender_specs malloc_zero [a_append_decimal (-2026); a_push_back x2c; a_append [x61; x62]; a_move_to;
      a_out (c_pop_front 1)] (mkStrings [] [] true) vs t /\
    Holds w' [out'] [a_o t].
Proof.
  split; [exact (Holds_new 1)|].
  apply (@appender_refines_string malloc_zero _ init_world [new_IOBuf] [[]] 0 new_IOBuf []); try done.
  - exact (Holds_new 1).
  - assert (forall s (d : list byte) v s', @appends malloc_zero s d v s' -> s' = s ++ d) as Hap.
    { intros s d v s' [[_ ->]|(_ & _ & n & Hn)]; done. }
    split; [by vm_compute|]. intros v a' (l & s' & El & ->%Hap & ->). vm_compute in El. injection El as <-.
    split; [by vm_compute|]. intros v1 a1 (s1 & ->%Hap & ->).
    split; [by vm_compute|]. intros v2 a2 (s2 & ->%Hap & ->).
    split; [done|]. intros v3 a3 (_ & ->). split; [by split; vm_compute|]. done.
Defined.

(** What an appender makes of the least long, whose negation overflows. *)
Lemma decimal_of_LONG_MIN :
  decimal (- 2 ^ 63) = Some [x2d; x27; x2e; x2e; x2d; x2d; x29; x2e; x30; x2d; x2a; x28; x2b; x2c; x29; x29; x2b; x28; x30; x28].
Proof. vm_compute. reflexivity. Qed.
End IOBufAppender.

Module SnappySink.

Record IOBufAsSnappySink := mkSink {
  _cur_buf : option chunk;
  _cur_len : Z;
  _buf : IOBuf;
  _buf_stream : IOBufAsZeroCopyOutputStream }.

(** What Append is given: the memory GetAppendBuffer lent, or bytes elsewhere. *)
Inductive source :=
| lent (p : chunk) (n : Z)
| own (d : list byte).

Section Sink.
Context `{Alloc}.

(** Append(bytes, n); a failed CHECK aborts, and the result of IOBuf::append is
    dropped. *)
Definition Append (src : source) (k : IOBufAsSnappySink) : M World IOBufAsSnappySink :=
  if 0 <? _cur_len k then
    match src, _cur_buf k with
    | lent p n, Some q =>
        if (ch_block p =? ch_block q)%nat && (ch_data p =? ch_data q) && (i32 n <=? _cur_len k) then
          '(st, b) ← BackUp (i32 (u64 (_cur_len k - n))) (_buf_stream k) (_buf k);
          mret (mkSink (_cur_buf k) 0 b st)
        else undefined
    | _, _ => undefined
    end
  else
    match src with
    | own d => '(_, b) ← IOBufOps.append (Some d) (_buf k);
               mret (mkSink (_cur_buf k) (_cur_len k) b (_buf_stream k))
    | lent _ _ => undefined
    end.

(** GetAppendBuffer(length, scratch): the memory lent, None for [scratch]. *)
Definition GetAppendBuffer (length : Z) (k : IOBufAsSnappySink) : M World (option chunk * IOBufAsSnappySink) :=
  if length <=? 8000 then
    '(p, st, b) ← Next (_buf_stream k) (_buf k);
    match p with
    | None => undefined
    | Some p =>
        if i32 length <=? ch_size p then mret (Some p, mkSink (Some p) (ch_size p) b st)
        else '(st, b) ← BackUp (ch_size p) st b; mret (None, mkSink None 0 b st)
    end
  else mret (None, mkSink None 0 (_buf k) (_buf_stream k)).

(** How a compressor writes: it asks for room for [len] bytes, stores [d] there
    and appends it. *)
Definition write (len : Z) (d : list byte) (k : IOBufAsSnappySink) : M World IOBufAsSnappySink :=
  '(p, k) ← GetAppendBuffer len k;
  match p with
  | Some p => _ ← store p 0 d; Append (lent p (zlen d)) k
  | None => Append (own d) k
  end.
End Sink.

Section Facts.
Context `{Alloc}.
Hypothesis memory : forall n, malloc_ok n = true.

Definition sinking (W w : World) (O : list nat) (k : IOBufAsSnappySink) (out : IOBuf) (s o : list byte) : Prop :=
  _cur_len k = 0 /\ exists pend, writing W w O (_buf_stream k) pend (_buf k) out s o.

Lemma append_own_ok W w O k out s o d :
  sinking W w O k out s o -> zlen s + zlen d < 2 ^ 31 ->
  exists k' w', Append (own d) k w = Some (k', w') /\ sinking W w' O k' out (s ++ d) o.
Proof.
  intros [E0 [pend HW]] Hs.
  destruct (writing_exec1 (c_append d) _ _ _ _ _ _ _ _ _ HW Hs) as (v & b & w' & s' & E & Hsp & HW').
  assert (s' = s ++ d) as ->.
  { destruct Hsp as [[_ ->]|(_ & _ & n & Hn)]; [done|]. by rewrite memory in Hn. }
  cbn [exec1] in E. run_in E. unfold Append. rewrite E0. cbn [Z.ltb Z.compare]. run.
  destruct (IOBufOps.append (Some d) (_buf k) w) as [[[rc b'] w2]|]; [|done]. injection E as _ <- <-.
  eexists _, w2. split; [done|]. split; [done|]. by exists None.
Qed.

Lemma write_ok W w O k out s o len d :
  sinking W w O k out s o -> zlen d <= len < 2 ^ 31 -> zlen s + zlen d < 2 ^ 30 ->
  exists k' w', write len d k w = Some (k', w') /\ sinking W w' O k' out (s ++ d) o.
Proof.
  intros [E0 [pend HW]] Hd Hs. pose proof (zlen_nonneg d). unfold write, GetAppendBuffer.
  destruct (Z.leb_spec len 8000); cycle 1.
  { run. apply (append_own_ok W w O (mkSink None 0 (_buf k) (_buf_stream k))); [|lia]. split; [done|]. by exists pend. }
  destruct (writing_next _ _ _ _ _ _ _ _ _ HW) as (p & st & b & w1 & E1 & Hp); [lia|].
  run. rewrite E1. cbn beta iota. destruct p as [p|]; [|by destruct Hp as (_ & _ & n & Hn); rewrite memory in Hn].
  destruct Hp as (g & HW1 & Eg & Hpos & _). destruct (writing_chunk _ _ _ _ _ _ _ _ _ HW1) as [Hch Hbig].
  rewrite i32_small by lia. destruct (Z.leb_spec len (ch_size p)).
  - destruct (writing_store _ _ _ _ _ _ _ _ _ 0 d HW1) as (w2 & E2 & HW2); [lia..|]. rewrite E2. cbn beta iota.
    destruct (writing_backup _ _ _ _ _ _ _ _ _ (ch_size p - zlen d) HW2) as (st' & b' & w3 & E3 & HW3 & _); [lia|].
    unfold Append. cbn [_cur_len _cur_buf _buf _buf_stream]. rewrite (proj2 (Z.ltb_lt _ _)) by lia.
    rewrite Nat.eqb_refl, Z.eqb_refl, i32_small, (proj2 (Z.leb_le _ _)) by lia. cbn [andb].
    rewrite wrapu_small, i32_small by lia. run. rewrite E3. eexists _, w3. split; [done|]. split; [done|].
    exists None. cbn [_buf_stream _buf].
    assert (overwrite (zlen (s ++ g) - ch_size p + 0) d (s ++ g) = (s ++ d) ++ drop (List.length d) g) as Eo.
    { rewrite zlen_app, Eg. replace (zlen s + ch_size p - ch_size p + 0) with (zlen s + 0) by lia.
      rewrite overwrite_app_r by lia. unfold overwrite. change (Z.to_nat 0) with 0%nat.
      rewrite take_0. cbn [app Nat.add]. by rewrite app_assoc. }
    rewrite Eo in HW3. revert HW3. replace (Z.to_nat _) with (List.length (s ++ d)); [by rewrite take_app_length|].
    rewrite !zlen_app. unfold zlen in *. rewrite length_drop, length_app. lia.
  - destruct (writing_backup _ _ _ _ _ _ _ _ _ (ch_size p) HW1) as (st' & b' & w2 & E2 & HW2 & _); [lia|].
    rewrite E2. cbn beta iota. apply (append_own_ok W w2 O (mkSink None 0 b' st')); [|lia]. split; [done|].
    exists None. cbn [_buf_stream _buf]. rewrite zlen_app, Eg in HW2.
    replace (zlen s + ch_size p - ch_size p) with (zlen s) in HW2 by lia. unfold zlen in HW2.
    by rewrite Nat2Z.id, take_app_length in HW2.
Qed.
End Facts.

(** ** Programs: a sink on one IOBuf, next to another *)
Inductive sink_call :=
| k_write (len : Z) (d : list byte)
| k_append (d : list byte)
| k_buf (c : call1)
| k_out (c : call1).

Section Programs.
Context `{Alloc}.

Definition sink_exec (x : sink_call) (k : IOBufAsSnappySink) (out : IOBuf)
    : M World (value * IOBufAsSnappySink * IOBuf) :=
  match x with
  | k_write len d => k ← write len d k; mret (v_void, k, out)
  | k_append d => k ← Append (own d) k; mret (v_void, k, out)
  | k_buf c => '(v, b) ← exec1 c (_buf k); mret (v, mkSink (_cur_buf k) (_cur_len k) b (_buf_stream k), out)
  | k_out c => '(v, out) ← exec1 c out; mret (v, k, out)
  end.

Fixpoint sink_loop (xs : list sink_call) (k : IOBufAsSnappySink) (out : IOBuf)
    : M World (list value * IOBufAsSnappySink * IOBuf) :=
  match xs with
  | [] => mret ([], k, out)
  | x :: xs =>
      '(v, k, out) ← sink_exec x k out;
      '(vs, k, out) ← sink_loop xs k out;
      mret (v :: vs, k, out)
  end.

(** A sink from its constructor to its destructor. *)
Definition sink_program (xs : list sink_call) (buf out : IOBuf) : M World (list value * (IOBuf * IOBuf)) :=
  '(vs, k, out) ← sink_loop xs (mkSink None 0 buf new_output_stream) out;
  _ ← OutputStream.destroy (_buf_stream k);
  mret (vs, (_buf k, out)).

Definition sink_pre (x : sink_call) (s o : list byte) : Prop :=
  match x with
  | k_write len d => zlen d <= len < 2 ^ 31 /\ zlen s + zlen d < 2 ^ 30
  | k_append d => zlen s + zlen d < 2 ^ 31
  | k_buf c => pre1 c s
  | k_out c => pre1 c o
  end.

Definition sink_spec (x : sink_call) (s o : list byte) (v : value) (s' o' : list byte) : Prop :=
  match x with
  | k_write _ d | k_append d => v = v_void /\ s' = s ++ d /\ o' = o
  | k_buf c => spec1 c s v s' /\ o' = o
  | k_out c => spec1 c o v o' /\ s' = s
  end.

Fixpoint sink_safe (xs : list sink_call) (s o : list byte) : Prop :=
  match xs with
  | [] => True
  | x :: xs => sink_pre x s o /\ forall v s' o', sink_spec x s o v s' o' -> sink_safe xs s' o'
  end.

Fixpoint sink_specs (xs : list sink_call) (s o : list byte) (vs : list value) (s' o' : list byte) : Prop :=
  match xs, vs with
  | [], [] => s' = s /\ o' = o
  | x :: xs, v :: vs => exists s1 o1, sink_spec x s o v s1 o1 /\ sink_specs xs s1 o1 vs s' o'
  | _, _ => False
  end.

Lemma sink_exec_ok (memory : forall n, malloc_ok n = true) W w O x k out s o :
  sinking W w O k out s o -> sink_pre x s o ->
  exists v k' out' w' s' o', sink_exec x k out w = Some ((v, k', out'), w') /\ sink_spec x s o v s' o' /\
    sinking W w' O k' out' s' o'.
Proof.
  intros HK Hp. destruct x as [len d|d|c|c]; cbn [sink_pre sink_exec sink_spec] in *.
  - destruct Hp as [Hd Hs]. destruct (write_ok memory _ _ _ _ _ _ _ len d HK Hd Hs) as (k' & w' & E & HK').
    run. rewrite E. by eexists _, _, _, w', _, _.
  - destruct (append_own_ok memory _ _ _ _ _ _ _ d HK Hp) as (k' & w' & E & HK').
    run. rewrite E. by eexists _, _, _, w', _, _.
  - destruct HK as [E0 [pend HW]].
    destruct (writing_exec1 c _ _ _ _ _ _ _ _ _ HW Hp) as (v & b & w' & s' & E & Hsp & HW').
    run. rewrite E. eexists v, _, _, w', s', o. split_and!; [done..|]. split; [done|]. by exists None.
  - destruct HK as [E0 [pend HW]].
    destruct (writing_exec1_out c _ _ _ _ _ _ _ _ _ HW Hp) as (v & b & w' & o' & E & Hsp & HW').
    run. rewrite E. eexists v, _, _, w', s, o'. split_and!; [done..|]. split; [done|]. by exists None.
Qed.

Lemma sink_loop_ok (memory : forall n, malloc_ok n = true) xs W w O k out s o :
  sinking W w O k out s o -> sink_safe xs s o ->
  exists vs k' out' w' s' o', sink_loop xs k out w = Some ((vs, k', out'), w') /\
    sink_specs xs s o vs s' o' /\ sinking W w' O k' out' s' o'.
Proof.
  revert w k out s o. induction xs as [|x xs IH]; intros w k out s o HH Hs; [by eexists [], k, out, w, s, o|].
  destruct Hs as [Hp Hs].
  destruct (sink_exec_ok memory W w O x k out s o HH Hp) as (v & k1 & out1 & w1 & s1 & o1 & E & Hsp & H1).
  destruct (IH w1 k1 out1 s1 o1 H1 (Hs v s1 o1 Hsp)) as (vs & k2 & out2 & w2 & s2 & o2 & E2 & Hsp2 & H2).
  cbn [sink_loop]. run. rewrite E. cbn beta iota. rewrite E2.
  eexists _, _, _, w2, s2, o2. split_and!; [done|by exists s1, o1|done].
Qed.
End Programs.

(** While memory lasts, a snappy sink appends to its IOBuf what a compressor
    writes through GetAppendBuffer and Append, whether the room it asks for fits
    in a block or not, and what it appends directly, with calls of class IOBuf on
    its IOBuf and another one in between. *)
Theorem sink_refines_string `{Alloc} xs w bufs ss i j buf out s o :
  (forall n, malloc_ok n = true) ->
  Holds w bufs ss -> i <> j -> bufs !! i = Some buf -> bufs !! j = Some out ->
  ss !! i = Some s -> ss !! j = Some o -> sink_safe xs s o ->
  exists vs buf' out' w' s' o', sink_program xs buf out w = Some ((vs, (buf', out')), w') /\
    sink_specs xs s o vs s' o' /\ Holds w' (<[i := buf']> (<[j := out']> bufs)) (<[i := s']> (<[j := o']> ss)).
Proof.
  intros Hm HH Hij Hb1 Hb2 Hs1 Hs2 Hsafe.
  destruct (Holds_2 w bufs ss i j buf out s o HH Hij Hb1 Hb2 Hs1 Hs2) as
    (l1 & l2 & O & HB1 & HB2 & E1 & E2 & HI & Hk).
  assert (sinking w w O (mkSink None 0 buf new_output_stream) out s o) as H0.
  { split; [done|]. exists None, l1, l2. split_and!; try done. split; try done. by left. }
  destruct (sink_loop_ok Hm xs w w O _ _ _ _ H0 Hsafe) as (vs & k & out' & w1 & s' & o' & E & Hsp & _ & pend & HW).
  destruct (writing_destroy _ _ _ _ _ _ _ _ _ HW) as (w2 & Ed & HB).
  exists vs, (_buf k), out', w2, s', o'. split_and!; [|done|by apply Hk].
  unfold sink_program. run. rewrite E. cbn beta iota. by rewrite Ed.
Qed.

Theorem sink_refines_string_witness :
  Holds init_world [new_IOBuf; new_IOBuf] [[]; []] /\
  exists vs buf' out' w' s' o',
    @sink_program malloc_zero [k_write 100 [x61; x62]; k_append [x63]; k_out (c_push_back x64); k_write 8001 [x65]]
      new_IOBuf new_IOBuf init_world = Some ((vs, (buf', out')), w') /\
    @sink_specs malloc_zero [k_write 100 [x61; x62]; k_append [x63]; k_out (c_push_back x64); k_write 8001 [x65]]
      [] [] vs s' o' /\ Holds w' [buf'; out'] [s'; o'].
Proof.
  split; [exact (Holds_new 2)|].
  apply (@sink_refines_string malloc_zero _ init_world [new_IOBuf; new_IOBuf] [[]; []] 0 1 new_IOBuf new_IOBuf [] []);
    try done; [exact (Holds_new 2)|].
  split; [by vm_compute|]. intros v s' o' (-> & -> & ->). split; [by vm_compute|].
  intros v1 s1 o1 (-> & -> & ->). split; [by vm_compute|]. intros v2 s2 o2 (_ & ->). split; [by vm_compute|done].
Defined.
End SnappySink.
