(* ===== verification/WorkStealing.v ===== *)
(** * WorkStealingQueue (fiber/work_stealing_queue.h)

    The owner pushes and pops at the bottom while any number of thieves steal at
    the top.  A step is one access of _bottom, _top or the buffer, and the memory
    is sequentially consistent: the relaxed accesses and the fences of the source
    are not modelled.  [queue_linearizable] says that the calls return what a
    double-ended queue would, each at one moment of its run. *)

From S2P Require Import Prelude.

Module WorkStealing.

Section Queue.
Context {T : Type}.

Record WorkStealingQueue := mkQueue { _bottom : Z; _capacity : Z; _buffer : list T; _top : Z }.

Definition ctor : WorkStealingQueue := mkQueue 1 0 [] 1.

(** [new_buffer]: what new (std::nothrow) T[capacity] gives. *)
Definition init (capacity : Z) (new_buffer : option (list T)) (q : WorkStealingQueue) : Z * WorkStealingQueue :=
  if negb (_capacity q =? 0) then (-1, q)
  else if capacity =? 0 then (-1, q)
  else if negb (Z.land capacity (u64 (capacity - 1)) =? 0) then (-1, q)
  else
    match new_buffer with
    | None => (-1, q)
    | Some b => (0, mkQueue (_bottom q) capacity b (_top q))
    end.

Definition volatile_size (q : WorkStealingQueue) : Z :=
  let b := _bottom q in
  let t := _top q in
  if b <=? t then 0 else u64 (b - t).

Definition capacity (q : WorkStealingQueue) : Z := _capacity q.

Definition slot (q : WorkStealingQueue) (i : Z) : nat := Z.to_nat (Z.land i (u64 (_capacity q - 1))).

Definition set_bottom (b : Z) (q : WorkStealingQueue) : WorkStealingQueue := mkQueue b (_capacity q) (_buffer q) (_top q).
Definition set_top (t : Z) (q : WorkStealingQueue) : WorkStealingQueue := mkQueue (_bottom q) (_capacity q) (_buffer q) t.
Definition set_slot (i : Z) (x : T) (q : WorkStealingQueue) : WorkStealingQueue :=
  mkQueue (_bottom q) (_capacity q) (<[slot q i := x]> (_buffer q)) (_top q).

(** What a call returns. *)
Inductive event := Push (x : T) | PushFull | Pop (x : T) | PopNone | Steal (x : T) | StealNone.

(** Where the owner is in push() and pop(): what it is about to do. *)
Inductive owner_pc :=
  | OIdle
  | PushTop (x : T) (b : Z)       (* load _top *)
  | PushWrite (x : T) (b : Z)     (* write the buffer *)
  | PushStore (x : T) (b : Z)     (* store _bottom *)
  | PopTop (b : Z)                (* load _top, for the fast check *)
  | PopDec (b : Z)                (* store newb to _bottom *)
  | PopTop2 (b : Z)               (* load _top again *)
  | PopRestore (b : Z)            (* store b to _bottom and return false *)
  | PopRead (b t : Z)             (* read the buffer *)
  | PopCas (b t : Z) (val : T)    (* compete with steal() *)
  | PopStore (b : Z) (r : option T). (* store b to _bottom and return *)

(** Where a thief is in steal(). *)
Inductive thief_pc :=
  | TIdle
  | StealBottom (t : Z)
  | StealLoop (t : Z)
  | StealRead (t : Z)
  | StealCas (t : Z) (val : T).

(** [log]: the events in the order in which they take effect, and [returned]:
    what the owner's calls have returned; neither is part of the program. *)
Record state := mkState {
  q : WorkStealingQueue;
  owner : owner_pc;
  thieves : gmap nat thief_pc;
  log : list event;
  returned : list event }.

Definition go (p : owner_pc) (c : WorkStealingQueue) (st : state) : state := mkState c p (thieves st) (log st) (returned st).
Definition log_event (e : event) (st : state) : state := mkState (q st) (owner st) (thieves st) (log st ++ [e]) (returned st).
Definition return_event (e : event) (st : state) : state := mkState (q st) (owner st) (thieves st) (log st) (returned st ++ [e]).
Definition thief (st : state) (i : nat) : thief_pc := default TIdle (thieves st !! i).
Definition go_thief (i : nat) (p : thief_pc) (st : state) : state :=
  mkState (q st) (owner st) (<[i := p]> (thieves st)) (log st) (returned st).
Definition with_queue (c : WorkStealingQueue) (st : state) : state := mkState c (owner st) (thieves st) (log st) (returned st).

(** The owner calls push() or pop(): its load of _bottom. *)
Definition push (x : T) (st : state) : state := go (PushTop x (_bottom (q st))) (q st) st.
Definition pop (st : state) : state := go (PopTop (_bottom (q st))) (q st) st.

(** One step of push() or pop(). *)
Definition owner_step (st : state) : option state :=
  let c := q st in
  match owner st with
  | OIdle => None
  | PushTop x b =>
      let t := _top c in
      if u64 (t + _capacity c) <=? b then Some (return_event PushFull (log_event PushFull (go OIdle c st)))
      else Some (go (PushWrite x b) c st)
  | PushWrite x b =>
      if decide (slot c b < length (_buffer c))%nat then Some (go (PushStore x b) (set_slot b x c) st) else None
  | PushStore x b => Some (return_event (Push x) (log_event (Push x) (go OIdle (set_bottom (u64 (b + 1)) c) st)))
  | PopTop b =>
      let t := _top c in
      if b <=? t then Some (return_event PopNone (log_event PopNone (go OIdle c st))) else Some (go (PopDec b) c st)
  | PopDec b => Some (go (PopTop2 b) (set_bottom (u64 (b - 1)) c) st)
  | PopTop2 b =>
      let newb := u64 (b - 1) in
      let t := _top c in
      if newb <? t then Some (log_event PopNone (go (PopRestore b) c st))
      else if t =? newb then Some (go (PopRead b t) c st)
      else
        (* t < newb: the item can not be stolen any more *)
        x ← _buffer c !! slot c newb;
        Some (log_event (Pop x) (go (PopRead b t) c st))
  | PopRestore b => Some (return_event PopNone (go OIdle (set_bottom b c) st))
  | PopRead b t =>
      let newb := u64 (b - 1) in
      val ← _buffer c !! slot c newb;
      if negb (t =? newb) then Some (return_event (Pop val) (go OIdle c st)) else Some (go (PopCas b t val) c st)
  | PopCas b t val =>
      if _top c =? t then Some (log_event (Pop val) (go (PopStore b (Some val)) (set_top (u64 (t + 1)) c) st))
      else Some (log_event PopNone (go (PopStore b None) c st))
  | PopStore b r =>
      Some (return_event (match r with Some x => Pop x | None => PopNone end) (go OIdle (set_bottom b c) st))
  end.

(** A thief calls steal(): its load of _top. *)
Definition steal (i : nat) (st : state) : state := go_thief i (StealBottom (_top (q st))) st.

(** One step of steal(). *)
Definition thief_step (i : nat) (st : state) : option state :=
  let c := q st in
  match thief st i with
  | TIdle => None
  | StealBottom t =>
      let b := _bottom c in
      if b <=? t then Some (log_event StealNone (go_thief i TIdle st)) else Some (go_thief i (StealLoop t) st)
  | StealLoop t =>
      let b := _bottom c in
      if b <=? t then Some (log_event StealNone (go_thief i TIdle st)) else Some (go_thief i (StealRead t) st)
  | StealRead t =>
      val ← _buffer c !! slot c t;
      Some (go_thief i (StealCas t val) st)
  | StealCas t val =>
      if _top c =? t then Some (log_event (Steal val) (go_thief i TIdle (with_queue (set_top (u64 (t + 1)) c) st)))
      else Some (go_thief i (StealLoop (_top c)) st)
  end.

(** One step of the program. *)
Inductive action := CallPush (x : T) | CallPop | OwnerStep | CallSteal (i : nat) | ThiefStep (i : nat).

Definition act (a : action) (st : state) : option state :=
  match a with
  | CallPush x => match owner st with OIdle => Some (push x st) | _ => None end
  | CallPop => match owner st with OIdle => Some (pop st) | _ => None end
  | OwnerStep => owner_step st
  | CallSteal i => match thief st i with TIdle => Some (steal i st) | _ => None end
  | ThiefStep i => thief_step i st
  end.

Fixpoint run (l : list action) (st : state) : option state :=
  match l with [] => Some st | a :: l => st ← act a st; run l st end.

Definition start (c : WorkStealingQueue) : state := mkState c OIdle ∅ [] [].

Inductive reachable (c : WorkStealingQueue) : state -> Prop :=
  | reach_start : reachable c (start c)
  | reach_step a st st' : reachable c st -> act a st = Some st' -> reachable c st'.

(** ** The specification: a double-ended queue with [cap] places *)

Definition deque_step (cap : Z) (e : event) (l l' : list T) : Prop :=
  match e with
  | Push x => zlen l < cap /\ l' = l ++ [x]
  | PushFull => zlen l = cap /\ l' = l
  | Pop x => l = l' ++ [x]
  | PopNone => l = [] /\ l' = []
  | Steal x => l = x :: l'
  | StealNone => l' = l (* it may fail at any time *)
  end.

Inductive deque_run (cap : Z) : list event -> list T -> Prop :=
  | deque_nil : deque_run cap [] []
  | deque_snoc es e l l' : deque_run cap es l -> deque_step cap e l l' -> deque_run cap (es ++ [e]) l'.

(** ** The invariant *)

(** Where the deque ends: at _bottom, except that an item that pop() has not taken
    yet is still in it, though _bottom is already below. *)
Definition bot (st : state) : Z :=
  match owner st with
  | PopTop2 b | PopRestore b | PopCas b _ _ | PopStore b _ => b
  | PopRead b t => if t =? b - 1 then b else b - 1
  | _ => _bottom (q st)
  end.

(** What the owner's call will return, when that is settled. *)
Definition settled (st : state) : list event :=
  match owner st with
  | PopRestore _ => [PopNone]
  | PopRead b t => if t =? b - 1 then [] else match _buffer (q st) !! slot (q st) (b - 1) with Some x => [Pop x] | None => [] end
  | PopStore _ r => [match r with Some x => Pop x | None => PopNone end]
  | _ => []
  end.

Definition is_owner (e : event) : Prop := match e with Steal _ | StealNone => False | _ => True end.

#[global] Instance is_owner_dec e : Decision (is_owner e).
Proof. destruct e; cbn; apply _. Defined.

Definition owner_ok (c : WorkStealingQueue) (p : owner_pc) : Prop :=
  match p with
  | OIdle => True
  | PushTop _ b | PopTop b => b = _bottom c
  | PushWrite _ b => b = _bottom c /\ b - _top c < _capacity c
  | PushStore x b => b = _bottom c /\ b - _top c < _capacity c /\ _buffer c !! slot c b = Some x
  | PopDec b => b = _bottom c /\ 2 <= b
  | PopTop2 b => _bottom c = b - 1 /\ 2 <= b
  | PopRestore b => _bottom c = b - 1 /\ _top c = b
  | PopRead b t => _bottom c = b - 1 /\ 2 <= b /\ t <= b - 1 /\ t <= _top c
  | PopCas b t v => _bottom c = b - 1 /\ 2 <= b /\ t = b - 1 /\ t <= _top c /\ _buffer c !! slot c t = Some v
  | PopStore b _ => _bottom c = b - 1 /\ _top c = b
  end.

Definition thief_ok (c : WorkStealingQueue) (e : Z) (p : thief_pc) : Prop :=
  match p with
  | TIdle => True
  | StealBottom t | StealLoop t => 1 <= t <= _top c
  | StealRead t => 1 <= t <= _top c /\ (t = _top c -> t < e)
  | StealCas t v => 1 <= t <= _top c /\ (t = _top c -> t < e /\ _buffer c !! slot c t = Some v)
  end.

Record Inv (cap : Z) (st : state) (l : list T) : Prop := mkInv {
  inv_cap : _capacity (q st) = cap;
  inv_buf : zlen (_buffer (q st)) = cap;
  inv_run : deque_run cap (log st) l;
  inv_ring : Ring (_buffer (q st)) (_top (q st) mod cap) l;
  inv_len : bot st = _top (q st) + zlen l;
  inv_top : 1 <= _top (q st);
  inv_bot : bot st <= 1 + zlen (log st);
  inv_owner : owner_ok (q st) (owner st);
  inv_thief : forall i, thief_ok (q st) (bot st) (thief st i);
  inv_ret : filter is_owner (log st) = returned st ++ settled st }.

Context (cap k : Z) (Hk : 0 <= k <= 62) (Hcap : cap = 2 ^ k).

Lemma cap_pos : 1 <= cap <= 2 ^ 62.
Proof. rewrite Hcap. split; [|apply Z.pow_le_mono_r; lia]. assert (0 < 2 ^ k) by (apply Z.pow_pos_nonneg; lia). lia. Qed.

Lemma slot_mod (c : WorkStealingQueue) i : _capacity c = cap -> slot c i = Z.to_nat (i mod cap).
Proof.
  intros E. unfold slot. rewrite E. pose proof cap_pos. rewrite wrapu_small by lia. rewrite Hcap, land_mask by lia. done.
Qed.

(** The item at index [_top + j]. *)
Lemma slot_ring (c : WorkStealingQueue) j : _capacity c = cap -> zlen (_buffer c) = cap ->
  slot c (_top c + Z.of_nat j) = ring_ix (_buffer c) (_top c mod cap) j.
Proof. intros E Hz. rewrite slot_mod by done. unfold ring_ix. rewrite Hz. by rewrite Zplus_mod_idemp_l. Qed.

Lemma Inv_lookup st l j x : Inv cap st l -> l !! j = Some x -> _buffer (q st) !! slot (q st) (_top (q st) + Z.of_nat j) = Some x.
Proof.
  intros I Hj. rewrite slot_ring by apply I. by apply (ring_at _ _ _ (inv_ring _ _ _ I)).
Qed.

Lemma slot_in (c : WorkStealingQueue) i : _capacity c = cap -> zlen (_buffer c) = cap -> (slot c i < length (_buffer c))%nat.
Proof. intros E Hz. rewrite slot_mod by done. pose proof cap_pos. pose proof (Z.mod_pos_bound i cap ltac:(lia)). unfold zlen in Hz. lia. Qed.

Lemma slot_ne (c : WorkStealingQueue) i j : _capacity c = cap -> i < j -> j - i < cap -> slot c i <> slot c j.
Proof.
  intros E Hij Hlt. rewrite !slot_mod by done. pose proof cap_pos.
  pose proof (Z.mod_pos_bound i cap ltac:(lia)). pose proof (Z.mod_pos_bound j cap ltac:(lia)). intros H'.
  assert (i mod cap = j mod cap) as Em by lia.
  pose proof (Z.div_mod i cap ltac:(lia)). pose proof (Z.div_mod j cap ltac:(lia)).
  assert (cap * (j / cap - i / cap) = j - i) by lia. set (d := j / cap - i / cap) in *. assert (0 < d) by nia. nia.
Qed.

Lemma thief_mono (c c' : WorkStealingQueue) e e' p : thief_ok c e p -> _top c <= _top c' ->
  (_top c' = _top c -> _top c < e -> _top c < e' /\ _buffer c' !! slot c' (_top c) = _buffer c !! slot c (_top c)) ->
  thief_ok c' e' p.
Proof.
  intros H Hle Hsame. destruct p as [|t|t|t|t v]; cbn in *; try lia. destruct H as [H1 H2]. split; [lia|]. intros Et.
  assert (t = _top c) as E by lia. destruct (H2 E) as [H3 H4]. destruct (Hsame ltac:(lia) ltac:(lia)) as [H5 H6].
  split; [lia|]. by rewrite E, H6, <-E.
Qed.

Lemma bottom_le_bot st : owner_ok (q st) (owner st) -> _bottom (q st) <= bot st.
Proof.
  unfold bot. destruct (owner st) as [| | | | | | | |b t| |]; cbn; try lia. destruct (t =? b - 1); lia.
Qed.

(** A move of the owner: the events that it logs and returns, and the new content. *)
Lemma Inv_owner st st' l l' es rs : Inv cap st l ->
  thieves st' = thieves st -> log st' = log st ++ es -> returned st' = returned st ++ rs ->
  _capacity (q st') = cap -> zlen (_buffer (q st')) = cap ->
  (es = [] /\ l' = l \/ exists e, es = [e] /\ is_owner e /\ deque_step cap e l l') ->
  Ring (_buffer (q st')) (_top (q st') mod cap) l' ->
  bot st' = _top (q st') + zlen l' ->
  _top (q st) <= _top (q st') ->
  bot st' <= bot st + zlen es ->
  owner_ok (q st') (owner st') ->
  (_top (q st') = _top (q st) -> _top (q st) < bot st ->
    _top (q st) < bot st' /\ _buffer (q st') !! slot (q st') (_top (q st)) = _buffer (q st) !! slot (q st) (_top (q st))) ->
  settled st ++ es = rs ++ settled st' ->
  Inv cap st' l'.
Proof.
  intros I Et El Er Hc Hb Hes HR Hlen Htop Hbot Ho Hth Hs. split; try done.
  - rewrite El. destruct Hes as [[-> ->]|(e & -> & _ & He)]; [rewrite app_nil_r; apply I|].
    econstructor; [apply I|done].
  - pose proof (inv_top _ _ _ I). lia.
  - rewrite El, zlen_app. pose proof (inv_bot _ _ _ I). lia.
  - intros i. unfold thief. rewrite Et. eapply thief_mono; [apply (inv_thief _ _ _ I i)|done|done].
  - rewrite El, Er, filter_app, (inv_ret _ _ _ I), <-!app_assoc. f_equal. rewrite <-Hs. f_equal.
    destruct Hes as [[-> ->]|(e & -> & He & _)]; [done|]. by rewrite filter_cons_True.
Qed.

(** The usual case: the buffer and _top stay. *)
Lemma Inv_owner_pc st st' l l' es rs : Inv cap st l ->
  thieves st' = thieves st -> log st' = log st ++ es -> returned st' = returned st ++ rs ->
  _capacity (q st') = _capacity (q st) -> _buffer (q st') = _buffer (q st) -> _top (q st') = _top (q st) ->
  (es = [] /\ l' = l \/ exists e, es = [e] /\ is_owner e /\ deque_step cap e l l') ->
  Ring (_buffer (q st)) (_top (q st) mod cap) l' ->
  bot st' = _top (q st) + zlen l' ->
  bot st' <= bot st + zlen es ->
  owner_ok (q st') (owner st') ->
  (_top (q st) < bot st -> _top (q st) < bot st') ->
  settled st ++ es = rs ++ settled st' ->
  Inv cap st' l'.
Proof.
  intros I Et El Er Hc Hb Hto Hes HR Hlen Hbot Ho Hth Hs. apply (Inv_owner st st' l l' es rs); try done.
  - rewrite Hc. apply I.
  - rewrite Hb. apply I.
  - by rewrite Hb, Hto.
  - by rewrite Hto.
  - lia.
  - intros _ Hlt. split; [by apply Hth|]. unfold slot. by rewrite Hb, Hc.
Qed.

Lemma len_le st l : Inv cap st l -> 0 <= zlen l <= cap.
Proof.
  intros I. pose proof (ring_fits _ _ _ (inv_ring _ _ _ I)). pose proof (inv_buf _ _ _ I). unfold zlen in *. lia.
Qed.

(** The next state of the owner, by [Inv_owner_pc]: [l'] is the new content and
    [es], [rs] what is logged and returned; the goals that are left are about the
    numbers. *)
Ltac owner_next I st l l' es rs :=
  eexists _, l'; split; [reflexivity|];
  apply (Inv_owner_pc st _ l l' es rs);
  [exact I|reflexivity|try (cbn; by rewrite app_nil_r); reflexivity|try (cbn; by rewrite app_nil_r); reflexivity
  |reflexivity|reflexivity|reflexivity|try (by left)|try apply I|cbn; try lia|cbn; unfold zlen; cbn; try lia|cbn; try lia|cbn; try lia|].

Lemma push_step st l x b : Inv cap st l -> zlen (log st) < 2 ^ 62 -> owner st = PushTop x b ->
  exists st' l', owner_step st = Some st' /\ Inv cap st' l'.
Proof.
  intros I Hlt Ho. pose proof (inv_owner _ _ _ I) as Hok. rewrite Ho in Hok. cbn in Hok.
  pose proof (inv_len _ _ _ I) as Hlen. pose proof (inv_bot _ _ _ I) as Hb. pose proof (inv_top _ _ _ I) as Ht.
  assert (bot st = b) as Eb by (unfold bot; by rewrite Ho). rewrite Eb in *. pose proof (len_le st l I). pose proof cap_pos.
  assert (settled st = []) as Es by (unfold settled; by rewrite Ho).
  unfold owner_step. rewrite Ho, (inv_cap _ _ _ I), wrapu_small by lia.
  destruct (Z.leb_spec (_top (q st) + cap) b).
  - owner_next I st l l [PushFull] [PushFull]; [|by rewrite Es].
    right. exists PushFull. split; [done|]. split; [done|]. split; [lia|done].
  - owner_next I st l l (@nil event) (@nil event); [|by rewrite Es]. rewrite (inv_cap _ _ _ I). lia.
Qed.

Lemma push_write_step st l x b : Inv cap st l -> owner st = PushWrite x b ->
  exists st' l', owner_step st = Some st' /\ Inv cap st' l'.
Proof.
  intros I Ho. pose proof (inv_owner _ _ _ I) as Hok. rewrite Ho in Hok. destruct Hok as [Hb Hlt].
  pose proof (inv_len _ _ _ I) as Hlen. pose proof (inv_cap _ _ _ I) as Hc. pose proof (inv_buf _ _ _ I) as Hz.
  assert (bot st = b) as Eb by (unfold bot; by rewrite Ho). rewrite Hc in Hlt.
  assert (slot (q st) b = ring_ix (_buffer (q st)) (_top (q st) mod cap) (length l)) as Ei.
  { rewrite <-slot_ring by done. f_equal. unfold zlen in Hlen. lia. }
  pose proof (slot_in (q st) b Hc Hz) as Hin.
  unfold owner_step. rewrite Ho, decide_True by done. eexists _, l. split; [done|].
  apply (Inv_owner st _ l l [] []); try done; try apply I; try (cbn; by rewrite app_nil_r); cbn [go q set_slot _buffer _top _capacity].
  - unfold zlen in *. by rewrite length_insert.
  - by left.
  - apply Ring_prefix with [x]. rewrite Ei. apply Ring_snoc; [apply I|]. unfold zlen in *. lia.
  - cbn. lia.
  - cbn. change (zlen []) with 0. lia.
  - cbn. split; [done|]. split; [by rewrite Hc|]. apply list_lookup_insert_eq. done.
  - intros _ Hlt'. split; [cbn; lia|]. apply list_lookup_insert_ne. apply not_eq_sym. apply slot_ne; [done|lia|lia].
  - unfold settled. by rewrite Ho.
Qed.

Lemma push_store_step st l x b : Inv cap st l -> zlen (log st) < 2 ^ 62 -> owner st = PushStore x b ->
  exists st' l', owner_step st = Some st' /\ Inv cap st' l'.
Proof.
  intros I Hlt Ho. pose proof (inv_owner _ _ _ I) as Hok. rewrite Ho in Hok. destruct Hok as (Hb & Hfull & Hx).
  pose proof (inv_len _ _ _ I) as Hlen. pose proof (inv_cap _ _ _ I) as Hc. pose proof (inv_buf _ _ _ I) as Hz.
  pose proof (inv_bot _ _ _ I). pose proof (inv_top _ _ _ I). rewrite Hc in Hfull.
  assert (bot st = b) as Eb by (unfold bot; by rewrite Ho).
  assert (slot (q st) b = ring_ix (_buffer (q st)) (_top (q st) mod cap) (length l)) as Ei.
  { rewrite <-slot_ring by done. f_equal. unfold zlen in Hlen. lia. }
  assert (settled st = []) as Es by (unfold settled; by rewrite Ho). pose proof (len_le st l I).
  unfold owner_step. rewrite Ho, wrapu_small by lia.
  owner_next I st l (l ++ [x]) [Push x] [Push x]; [| |by rewrite zlen_app; change (zlen [x]) with 1; lia|by rewrite Es].
  - right. exists (Push x). split; [done|]. split; [done|]. split; [lia|done].
  - rewrite <-(list_insert_id _ _ _ Hx), Ei. apply Ring_snoc; [apply I|]. unfold zlen in *. lia.
Qed.

(** *** pop() *)

Lemma empty_content st l : Inv cap st l -> bot st <= _top (q st) -> l = [].
Proof. intros I H. apply zlen_0_inv. pose proof (inv_len _ _ _ I). pose proof (zlen_nonneg l). lia. Qed.

Lemma pop_check_step st l b : Inv cap st l -> owner st = PopTop b ->
  exists st' l', owner_step st = Some st' /\ Inv cap st' l'.
Proof.
  intros I Ho. pose proof (inv_owner _ _ _ I) as Hok. rewrite Ho in Hok. cbn in Hok.
  pose proof (inv_len _ _ _ I) as Hlen. pose proof (inv_top _ _ _ I).
  assert (bot st = b) as Eb by (unfold bot; by rewrite Ho).
  assert (settled st = []) as Es by (unfold settled; by rewrite Ho).
  unfold owner_step. rewrite Ho. destruct (Z.leb_spec b (_top (q st))).
  - assert (l = []) as -> by (apply (empty_content st); [done|lia]).
    owner_next I st (@nil T) (@nil T) [PopNone] [PopNone]; [|by rewrite Es]. right. exists PopNone. by split_and!.
  - owner_next I st l l (@nil event) (@nil event). by rewrite Es.
Qed.

Lemma pop_dec_step st l b : Inv cap st l -> zlen (log st) < 2 ^ 62 -> owner st = PopDec b ->
  exists st' l', owner_step st = Some st' /\ Inv cap st' l'.
Proof.
  intros I Hlt Ho. pose proof (inv_owner _ _ _ I) as Hok. rewrite Ho in Hok. destruct Hok as [Hb H2].
  pose proof (inv_len _ _ _ I) as Hlen. pose proof (inv_bot _ _ _ I).
  assert (bot st = b) as Eb by (unfold bot; by rewrite Ho).
  assert (settled st = []) as Es by (unfold settled; by rewrite Ho).
  unfold owner_step. rewrite Ho, wrapu_small by lia.
  owner_next I st l l (@nil event) (@nil event). by rewrite Es.
Qed.

(** The last item is at index [bot - 1]. *)
Lemma last_item st l : Inv cap st l -> _top (q st) < bot st ->
  exists l0 x, l = l0 ++ [x] /\ _buffer (q st) !! slot (q st) (bot st - 1) = Some x.
Proof.
  intros I Hlt. pose proof (inv_len _ _ _ I) as Hlen. destruct l as [|y l1 _] using rev_ind; [unfold zlen in *; cbn in *; lia|].
  exists l1, y. split; [done|]. rewrite <-(Inv_lookup st (l1 ++ [y]) (length l1) y I).
  - f_equal. f_equal. rewrite zlen_app in Hlen. change (zlen [y]) with 1 in Hlen. unfold zlen in Hlen. lia.
  - by rewrite lookup_app_r, Nat.sub_diag by done.
Qed.

Lemma pop_top2_step st l b : Inv cap st l -> zlen (log st) < 2 ^ 62 -> owner st = PopTop2 b ->
  exists st' l', owner_step st = Some st' /\ Inv cap st' l'.
Proof.
  intros I Hlt Ho. pose proof (inv_owner _ _ _ I) as Hok. rewrite Ho in Hok. destruct Hok as [Hb H2].
  pose proof (inv_len _ _ _ I) as Hlen. pose proof (inv_bot _ _ _ I) as Hbot. pose proof (zlen_nonneg l).
  assert (bot st = b) as Eb by (unfold bot; by rewrite Ho).
  assert (settled st = []) as Es by (unfold settled; by rewrite Ho).
  unfold owner_step. rewrite Ho, wrapu_small by lia. destruct (Z.ltb_spec (b - 1) (_top (q st))).
  - assert (l = []) as -> by (apply (empty_content st); [done|lia]).
    owner_next I st (@nil T) (@nil T) [PopNone] (@nil event); [|by rewrite Es]. right. exists PopNone. by split_and!.
  - destruct (last_item st l I) as (l0 & x & -> & Hx); [lia|]. rewrite Eb in Hx. rewrite zlen_app in *. change (zlen [x]) with 1 in *.
    destruct (Z.eqb_spec (_top (q st)) (b - 1)) as [Et|Et].
    + owner_next I st (l0 ++ [x]) (l0 ++ [x]) (@nil event) (@nil event);
        [rewrite zlen_app; change (zlen [x]) with 1; rewrite (proj2 (Z.eqb_eq _ _)) by done; lia
        |rewrite (proj2 (Z.eqb_eq _ _)) by done; lia|rewrite (proj2 (Z.eqb_eq _ _)) by done; lia|].
      rewrite Es. unfold settled. cbn. by rewrite (proj2 (Z.eqb_eq _ _)).
    + rewrite Hx. cbn [mbind option_bind].
      assert ((_top (q st) =? b - 1) = false) as En by (by apply Z.eqb_neq).
      owner_next I st (l0 ++ [x]) l0 [Pop x] (@nil event); [|by eapply Ring_prefix, I|rewrite En; lia|rewrite En; lia|rewrite En; lia|].
      * right. exists (Pop x). by split_and!.
      * rewrite Es. unfold settled. cbn. rewrite En. change (slot _ _) with (slot (q st) (b - 1)). by rewrite Hx.
Qed.

Lemma pop_restore_step st l b : Inv cap st l -> owner st = PopRestore b ->
  exists st' l', owner_step st = Some st' /\ Inv cap st' l'.
Proof.
  intros I Ho. pose proof (inv_owner _ _ _ I) as Hok. rewrite Ho in Hok. destruct Hok as [Hb Ht].
  pose proof (inv_len _ _ _ I) as Hlen. assert (bot st = b) as Eb by (unfold bot; by rewrite Ho).
  unfold owner_step. rewrite Ho. owner_next I st l l (@nil event) [PopNone]. unfold settled. by rewrite Ho.
Qed.

Lemma pop_store_step st l b r : Inv cap st l -> owner st = PopStore b r ->
  exists st' l', owner_step st = Some st' /\ Inv cap st' l'.
Proof.
  intros I Ho. pose proof (inv_owner _ _ _ I) as Hok. rewrite Ho in Hok. destruct Hok as [Hb Ht].
  pose proof (inv_len _ _ _ I) as Hlen. assert (bot st = b) as Eb by (unfold bot; by rewrite Ho).
  unfold owner_step. rewrite Ho. owner_next I st l l (@nil event) [match r with Some x => Pop x | None => PopNone end].
  unfold settled. by rewrite Ho.
Qed.

Lemma pop_read_step st l b t : Inv cap st l -> zlen (log st) < 2 ^ 62 -> owner st = PopRead b t ->
  exists st' l', owner_step st = Some st' /\ Inv cap st' l'.
Proof.
  intros I Hlt Ho. pose proof (inv_owner _ _ _ I) as Hok. rewrite Ho in Hok. destruct Hok as (Hb & H2 & Htb & Ht).
  pose proof (inv_len _ _ _ I) as Hlen. pose proof (inv_bot _ _ _ I) as Hbot. pose proof (zlen_nonneg l). pose proof (inv_top _ _ _ I).
  assert (bot st = if t =? b - 1 then b else b - 1) as Eb by (unfold bot; by rewrite Ho).
  assert (b < 2 ^ 63) as Hbb by (destruct (t =? b - 1); lia).
  destruct (lookup_lt_is_Some_2 (_buffer (q st)) (slot (q st) (b - 1))) as [v Hv]; [apply slot_in; apply I|].
  unfold owner_step. rewrite Ho, wrapu_small, Hv by lia. cbn [mbind option_bind].
  destruct (t =? b - 1) eqn:En; cbn [negb].
  - apply Z.eqb_eq in En. owner_next I st l l (@nil event) (@nil event).
    + rewrite En. by split_and!; try lia.
    + unfold settled. by rewrite Ho, (proj2 (Z.eqb_eq _ _)).
  - owner_next I st l l (@nil event) [Pop v]. unfold settled. by rewrite Ho, En, Hv.
Qed.

Lemma pop_cas_step st l b t v : Inv cap st l -> zlen (log st) < 2 ^ 62 -> owner st = PopCas b t v ->
  exists st' l', owner_step st = Some st' /\ Inv cap st' l'.
Proof.
  intros I Hlt Ho. pose proof (inv_owner _ _ _ I) as Hok. rewrite Ho in Hok. destruct Hok as (Hb & H2 & -> & Ht & Hv).
  pose proof (inv_len _ _ _ I) as Hlen. pose proof (inv_bot _ _ _ I) as Hbot. pose proof (zlen_nonneg l). pose proof (inv_top _ _ _ I).
  assert (bot st = b) as Eb by (unfold bot; by rewrite Ho).
  assert (settled st = []) as Es by (unfold settled; by rewrite Ho).
  unfold owner_step. rewrite Ho. destruct (Z.eqb_spec (_top (q st)) (b - 1)) as [Et|Et].
  - destruct (last_item st l I) as (l0 & x & -> & Hx); [lia|]. rewrite Eb, Hv in Hx. injection Hx as <-.
    assert (l0 = []) as ->. { apply zlen_0_inv. rewrite zlen_app in Hlen. change (zlen [v]) with 1 in Hlen. lia. }
    cbn [app] in *. rewrite wrapu_small by lia. eexists _, []. split; [done|].
    apply (Inv_owner st _ [v] [] [Pop v] []); try done; try apply I; try (cbn; by rewrite app_nil_r); cbn [log_event go q set_top _top _buffer _capacity owner].
    + right. exists (Pop v). by split_and!.
    + apply Ring_nil. left. rewrite (inv_buf _ _ _ I). pose proof cap_pos. apply Z.mod_pos_bound. lia.
    + cbn. change (zlen []) with 0. lia.
    + cbn. lia.
    + cbn. change (zlen [Pop v]) with 1. lia.
    + cbn. lia.
    + cbn. intros E'. lia.
    + by rewrite Es.
  - assert (l = []) as -> by (apply (empty_content st); [done|lia]).
    owner_next I st (@nil T) (@nil T) [PopNone] (@nil event); [|by rewrite Es]. right. exists PopNone. by split_and!.
Qed.

Lemma owner_step_Inv st l : Inv cap st l -> zlen (log st) < 2 ^ 62 -> owner st <> OIdle ->
  exists st' l', owner_step st = Some st' /\ Inv cap st' l'.
Proof.
  intros I Hlt Hne. destruct (owner st) eqn:Ho; [done|..].
  - by eapply push_step.
  - by eapply push_write_step.
  - by eapply push_store_step.
  - by eapply pop_check_step.
  - by eapply pop_dec_step.
  - by eapply pop_top2_step.
  - by eapply pop_restore_step.
  - by eapply pop_read_step.
  - by eapply pop_cas_step.
  - by eapply pop_store_step.
Qed.

(** *** steal() *)

Lemma thief_go st i p j : thief (go_thief i p st) j = if decide (i = j) then p else thief st j.
Proof. unfold thief, go_thief. cbn. destruct (decide (i = j)) as [<-|]; [by rewrite lookup_insert_eq|by rewrite lookup_insert_ne]. Qed.

Lemma Inv_thief st l i p : Inv cap st l -> thief_ok (q st) (bot st) p -> Inv cap (go_thief i p st) l.
Proof.
  intros I Hp. split; try apply I. intros j. rewrite thief_go. destruct (decide (i = j)); [done|]. apply (inv_thief _ _ _ I).
Qed.

Lemma Inv_steal_none st l i : Inv cap st l -> Inv cap (log_event StealNone (go_thief i TIdle st)) l.
Proof.
  intros I. pose proof (Inv_thief st l i TIdle I Logic.I) as I'. split; try apply I'; cbn [log_event go_thief log].
  - econstructor; [apply I|done].
  - rewrite zlen_app. pose proof (inv_bot _ _ _ I). change (bot (log_event _ _)) with (bot st). unfold zlen in *. cbn. lia.
  - rewrite filter_app, (inv_ret _ _ _ I). cbn. by rewrite app_nil_r.
Qed.

(** The owner's point of view when a thief takes the first item. *)
Lemma owner_ok_steal (c : WorkStealingQueue) e p :
  owner_ok c p -> _top c < e -> (forall b, p = PopRestore b -> e = b) -> (forall b r, p = PopStore b r -> e = b) ->
  owner_ok (set_top (_top c + 1) c) p.
Proof.
  intros Hok Hlt H1 H2. destruct p; cbn in *; try done; try lia.
  - destruct Hok as (? & ? & ?). split_and!; try done; lia.
  - specialize (H1 b eq_refl). lia.
  - destruct Hok as (? & ? & ? & ? & ?). split_and!; try done; lia.
  - specialize (H2 b r eq_refl). lia.
Qed.

Lemma steal_cas_step st l i t v : Inv cap st l -> zlen (log st) < 2 ^ 62 -> thief st i = StealCas t v ->
  exists st' l', thief_step i st = Some st' /\ Inv cap st' l'.
Proof.
  intros I Hlt Hi. pose proof (inv_thief _ _ _ I i) as Hok. rewrite Hi in Hok. destruct Hok as [Ht Hv].
  pose proof (inv_len _ _ _ I) as Hlen. pose proof (inv_bot _ _ _ I) as Hbot.
  unfold thief_step. rewrite Hi. destruct (Z.eqb_spec (_top (q st)) t) as [Et|Et].
  2:{ eexists _, l. split; [done|]. apply Inv_thief; [done|]. cbn. lia. }
  destruct (Hv (eq_sym Et)) as [Hb Hx]. subst t. destruct l as [|y l]; [unfold zlen in Hlen; cbn in Hlen; lia|].
  pose proof (Inv_lookup st (y :: l) 0 y I eq_refl) as Hy. rewrite Z.add_0_r, Hx in Hy. injection Hy as <-.
  rewrite zlen_cons in Hlen. pose proof (zlen_nonneg l). rewrite wrapu_small by lia. eexists _, l. split; [done|].
  set (st' := log_event _ _). assert (bot st' = bot st) as Eb by done. pose proof (inv_top _ _ _ I).
  split; rewrite ?Eb; try apply I; cbn [st' log_event go_thief with_queue q log returned owner set_top _top _buffer].
  - econstructor; [apply I|done].
  - replace ((_top (q st) + 1) mod cap) with ((_top (q st) mod cap + 1) mod zlen (_buffer (q st))).
    + eapply Ring_tail, I.
    + by rewrite (inv_buf _ _ _ I), Zplus_mod_idemp_l.
  - lia.
  - lia.
  - rewrite zlen_app. unfold zlen in *. cbn. lia.
  - apply (owner_ok_steal _ (bot st)); [apply I|done|intros b Ep|intros b r Ep]; unfold bot; by rewrite Ep.
  - intros j. change (thief st' j) with (thief (go_thief i TIdle st) j). rewrite thief_go. destruct (decide (i = j)); [done|].
    eapply thief_mono; [apply (inv_thief _ _ _ I)|cbn; lia|cbn; lia].
  - rewrite filter_app, (inv_ret _ _ _ I). cbn. by rewrite app_nil_r.
Qed.

Lemma thief_step_Inv st l i : Inv cap st l -> zlen (log st) < 2 ^ 62 -> thief st i <> TIdle ->
  exists st' l', thief_step i st = Some st' /\ Inv cap st' l'.
Proof.
  intros I Hlt Hne. pose proof (inv_thief _ _ _ I i) as Hok. pose proof (bottom_le_bot st (inv_owner _ _ _ I)) as Hle.
  destruct (thief st i) as [|t|t|t|t v] eqn:Hi; [done|..|by eapply steal_cas_step]; unfold thief_step; rewrite Hi.
  - destruct (_bottom (q st) <=? t); eexists _, l; (split; [done|]); [by apply Inv_steal_none|by apply Inv_thief].
  - destruct (Z.leb_spec (_bottom (q st)) t); eexists _, l; (split; [done|]); [by apply Inv_steal_none|].
    apply Inv_thief; [done|]. cbn in *. lia.
  - destruct (lookup_lt_is_Some_2 (_buffer (q st)) (slot (q st) t)) as [v Hv]; [apply slot_in; apply I|].
    rewrite Hv. cbn. eexists _, l. split; [done|]. apply Inv_thief; [done|]. cbn in *. destruct Hok as [H1 H2].
    split; [done|]. intros E. by auto.
Qed.

(** *** Calls, and all reachable states *)

Lemma call_Inv st l p : Inv cap st l -> owner st = OIdle -> (exists x, p = PushTop x (_bottom (q st))) \/ p = PopTop (_bottom (q st)) ->
  Inv cap (go p (q st) st) l.
Proof.
  intros I Ho Hp. assert (bot (go p (q st) st) = bot st) as Eb by (unfold bot; rewrite Ho; by destruct Hp as [[x ->] | ->]).
  split; rewrite ?Eb; try apply I.
  - by destruct Hp as [[x ->] | ->].
  - cbn [go log returned]. rewrite (inv_ret _ _ _ I). unfold settled. rewrite Ho. by destruct Hp as [[x ->] | ->].
Qed.

Lemma act_Inv a st st' l : Inv cap st l -> zlen (log st) < 2 ^ 62 -> act a st = Some st' -> exists l', Inv cap st' l'.
Proof.
  intros I Hlt. destruct a as [x| | |i|i]; cbn.
  - destruct (owner st) eqn:Ho; try done. intros [= <-]. exists l. apply call_Inv; [done..|]. left. by exists x.
  - destruct (owner st) eqn:Ho; try done. intros [= <-]. exists l. apply call_Inv; [done..|]. by right.
  - intros E. destruct (owner_step_Inv st l I Hlt) as (st1 & l' & E1 & I'); [intros Ho; unfold owner_step in E; by rewrite Ho in E|].
    rewrite E in E1. injection E1 as <-. by exists l'.
  - destruct (thief st i) eqn:Hi; try done. intros [= <-]. exists l. apply Inv_thief; [done|]. cbn. pose proof (inv_top _ _ _ I). lia.
  - intros E. destruct (thief_step_Inv st l i I Hlt) as (st1 & l' & E1 & I'); [intros Ho; unfold thief_step in E; by rewrite Ho in E|].
    rewrite E in E1. injection E1 as <-. by exists l'.
Qed.

Lemma log_grows a st st' : act a st = Some st' -> zlen (log st) <= zlen (log st').
Proof.
  assert (forall e (es : list event), zlen es <= zlen (es ++ [e])) as Hs by (intros; rewrite zlen_app; unfold zlen; cbn; lia).
  destruct a as [x| | |i|i]; cbn; unfold owner_step, thief_step; intros E.
  all: repeat match type of E with
       | context [match ?x with _ => _ end] => destruct x eqn:?; try discriminate E
       | context [_ ← ?x; _] => destruct x eqn:?; try discriminate E; cbn [mbind option_bind] in E
       end.
  all: injection E as <-; cbn; auto; lia.
Qed.

Lemma start_Inv b : zlen b = cap -> Inv cap (start (mkQueue 1 cap b 1)) [].
Proof.
  intros Hb. split; cbn; try done; [constructor|]. apply Ring_nil. left. rewrite Hb. pose proof cap_pos. apply Z.mod_pos_bound. lia.
Qed.

Lemma ws_reachable_Inv b st : zlen b = cap -> reachable (mkQueue 1 cap b 1) st -> zlen (log st) < 2 ^ 62 -> exists l, Inv cap st l.
Proof.
  intros Hb. induction 1 as [|a st st' _ IH Ha]; intros Hlt; [exists []; by apply start_Inv|].
  pose proof (log_grows a st st' Ha). destruct IH as [l I]; [lia|]. eapply act_Inv; [done|lia|done].
Qed.

End Queue.

Lemma ws_run_reachable {T} (c : WorkStealingQueue (T := T)) l : forall st st', reachable c st -> run l st = Some st' -> reachable c st'.
Proof.
  induction l as [|a l IH]; intros st st' Hr; cbn; [by intros [= <-]|].
  destruct (act a st) as [st1|] eqn:E; [|done]. cbn. apply IH. by eapply reach_step.
Qed.

(** C22. After init() with a power of two, and below 2^62 events, whatever the
    interleaving of the owner with the thieves: the calls have taken effect one
    after the other as on a double-ended queue of that capacity, where push adds
    at one end and fails only when it is full, pop takes from that end and fails
    only when it is empty, and steal takes from the other end; the owner's calls
    return what they did there, in order; volatile_size() is its length when the
    owner is outside; and every call that has begun can go on. *)
Theorem queue_linearizable {T} k (b : list T) st :
  0 <= k <= 62 -> zlen b = 2 ^ k ->
  exists c, init (2 ^ k) (Some b) ctor = (0, c) /\
    (reachable c st -> zlen (log st) < 2 ^ 62 ->
     (exists l, deque_run (2 ^ k) (log st) l /\ (owner st = OIdle -> volatile_size (q st) = zlen l)) /\
     filter is_owner (log st) = returned st ++ settled st /\ (owner st = OIdle -> settled st = []) /\
     (owner st <> OIdle -> exists st', owner_step st = Some st') /\
     (forall i, thief st i <> TIdle -> exists st', thief_step i st = Some st')).
Proof.
  intros Hk Hb. pose proof (cap_pos (2 ^ k) k Hk eq_refl) as Hp. exists (mkQueue 1 (2 ^ k) b 1). split.
  { unfold init. cbn [_capacity ctor]. change (negb (0 =? 0)) with false. cbn iota.
    destruct (Z.eqb_spec (2 ^ k) 0); [lia|]. rewrite wrapu_small, land_mask, Z.mod_same by lia. done. }
  intros Hr Hlt. destruct (ws_reachable_Inv (2 ^ k) k Hk eq_refl b st Hb Hr Hlt) as [l I].
  split_and!.
  - exists l. split; [apply I|]. intros Ho. pose proof (inv_len _ _ _ I) as Hlen. unfold bot in Hlen. rewrite Ho in Hlen.
    pose proof (zlen_nonneg l). pose proof (inv_bot _ _ _ I) as Hbot. unfold bot in Hbot. rewrite Ho in Hbot. pose proof (inv_top _ _ _ I). unfold volatile_size. rewrite Hlen.
    destruct (Z.leb_spec (_top (q st) + zlen l) (_top (q st))); [lia|]. rewrite wrapu_small by lia. lia.
  - apply (inv_ret _ _ _ I).
  - intros Ho. unfold settled. by rewrite Ho.
  - intros Ho. destruct (owner_step_Inv (2 ^ k) k Hk eq_refl st l I Hlt Ho) as (st' & l' & E & _). by exists st'.
  - intros i Hi. destruct (thief_step_Inv (2 ^ k) k Hk eq_refl st l i I Hlt Hi) as (st' & l' & E & _). by exists st'.
Qed.

(** A queue of two: a push that fails, a thief that loses the first item to another
    one and takes the second, and the owner and a thief that race for the last. *)
Definition steps (n : nat) (a : action (T := Z)) : list action := replicate n a.

Definition sample_schedule : list (action (T := Z)) :=
  [CallPush 10] ++ steps 3 OwnerStep ++ [CallPush 11] ++ steps 3 OwnerStep ++ [CallPush 12; OwnerStep]
  ++ [CallSteal 0] ++ steps 3 (ThiefStep 0) ++ [CallSteal 1] ++ steps 4 (ThiefStep 1) ++ steps 4 (ThiefStep 0)
  ++ [CallPush 13] ++ steps 3 OwnerStep ++ [CallPush 14] ++ steps 3 OwnerStep ++ [CallPop] ++ steps 4 OwnerStep
  ++ [CallSteal 0] ++ steps 3 (ThiefStep 0) ++ [CallPop] ++ steps 4 OwnerStep ++ [ThiefStep 0] ++ steps 2 OwnerStep
  ++ [CallPop; OwnerStep].

Definition sample_queue : WorkStealingQueue (T := Z) := mkQueue 1 2 [0; 0] 1.
Definition sample_state : state (T := Z) := default (start sample_queue) (run sample_schedule (start sample_queue)).

Example sample_log :
  log sample_state = [Push 10; Push 11; PushFull; Steal 10; Steal 11; Push 13; Push 14; Pop 14; Steal 13; PopNone; PopNone].
Proof. vm_compute. reflexivity. Qed.

Theorem queue_linearizable_witness :
  exists c, init 2 (Some [0; 0]) ctor = (0, c) /\ run sample_schedule (start c) = Some sample_state /\
    ((exists l, deque_run 2 (log sample_state) l /\ (owner sample_state = OIdle -> volatile_size (q sample_state) = zlen l)) /\
     filter is_owner (log sample_state) = returned sample_state ++ settled sample_state /\
     (owner sample_state = OIdle -> settled sample_state = []) /\
     (owner sample_state <> OIdle -> exists st', owner_step sample_state = Some st') /\
     (forall i, thief sample_state i <> TIdle -> exists st', thief_step i sample_state = Some st')).
Proof.
  destruct (queue_linearizable 1 [0; 0] sample_state) as (c & E & H); [lia|reflexivity|].
  exists c. assert (c = sample_queue) as ->. { vm_compute in E. injection E as <-. reflexivity. }
  split; [exact E|].
  assert (run sample_schedule (start sample_queue) = Some sample_state) as R by (vm_compute; reflexivity).
  split; [exact R|]. apply H.
  - exact (ws_run_reachable sample_queue sample_schedule (start sample_queue) sample_state (reach_start _) R).
  - vm_compute. reflexivity.
Defined.

End WorkStealing.
